(* ===== verification/_CoqProject ===== *)
-Q . S2P
Prelude.v
Bits.v
Utf8.v
Utf16.v
Hex.v
Binary.v
Hash.v
Adler32.v
Crc.v
Crc32.v
Crc64.v
Fnv.v
Hashes.v
Sort.v
Heap.v
State.v
Linked.v
LinkedList.v
Bpf.v
BpfVm.v
Base64.v
Base64Stream.v
Bytes.v
Strings.v
Path.v
Slices.v
BigArith.v
BigNat.v
BigMul.v
BigSqr.v
BigDiv.v
BigBits.v
BigSqrt.v
BigInt.v
Strconv.v
Digest.v
Sha2.v
Sha256.v
Sha512.v
Sha1.v
Md5.v
Subtle.v
Hmac.v
Crypto.v
Block.v
Cbc.v
AesTables.v
Aes.v
Ciphers.v
