(* ===== verification/Prelude.v ===== *)
(** * A verification development for GoldBaseLibrary

    GoldBaseLibrary is the Go standard library as the RemObjects compiler builds it: the packages of Go under
    src/Source/Gold, with the runtime primitives that Go has in assembly or in the compiler (byte searching, slices, maps,
    fmt, reflection) rewritten in Pascal and C# (Runtime.pas, Gold.pas, Simple Types.pas, ...).  The development models
    packages that carry logic of their own: arithmetic on words, text encodings, checksums, sorting, containers,
    a virtual machine, byte searching, paths, the runtime's slices and string builder, multi-precision integers, integers as
    text, message digests, and a block cipher with its chaining mode.

    ** The parts and how they interact

    - Prelude (this file): machine words, the result type [outcome], slices, loops, and lemmas and tactics on them.
    - Bits: math/bits (bits.go, bits_tables.go).  Fnv uses its Mul64.
    - Utf8, Utf16: unicode/utf8 (utf8.go) and unicode/utf16 (utf16.go).  Bytes uses DecodeRune of Utf8.
    - Hex, Binary, Base64, Base64Stream: encoding/hex, encoding/binary (byte orders and varints), encoding/base64.  The
      checksums marshal their state with the byte orders of Binary, and the packet loads of BpfVm use them.
    - Hash: the interface hash.Hash as a class of operations [Hash] and one of laws [HashLaws].  Adler32, Crc32, Crc64 and Fnv
      model the packages under hash/ and give the instances (Crc has the theory the two CRC packages share); Hashes states
      the promises of the interface once for the whole family.
    - Sort: package sort, written over Less and Swap; the Go interface and its contract are the classes [Interface]
      and [Ordered].  Heap: container/heap, over that interface extended by Push and Pop.
    - State: the state monad of the models that have a store, with weakest preconditions.
    - Linked, LinkedList: container/list over an explicit store of elements and pointers; Linked is the part that does
      not depend on the package.
    - Bpf, BpfVm: golang.org/x/net/bpf, its instructions with their assembler and disassembler, and the virtual
      machine.
    - Bytes: the searching, splitting, joining and replacing functions of bytes/bytes.go over the bytealg primitives of
      Runtime.pas.  Strings: the Builder of Runtime.pas, a UTF-16 buffer, and strings.Join over it; the platform's conversion between
      bytes and UTF-16 is the class [Encoding], and what is relied on of it, that well-formed UTF-8 comes back unchanged, the class [EncodingLaws].
      Path: path/path.go, whose Join calls strings.Join.
    - Slices: the class Slice of Gold.pas with what the compiler calls for slice expressions, len, cap, copy and append, over
      a heap of arrays.  What the class asks of its element type (a value type or not, an instance to fill in, arrays to clone) is
      the class [Element].
    - BigArith, BigNat, BigMul, BigSqr, BigDiv, BigBits, BigInt: math/big over those slices, from below: vectors of words
      (arith.go); natural numbers (nat_elements.go) with their sums and shifts, products, squares and products of ranges, division
      and square root, bits and bytes; and signed integers (int.go), objects reached through pointers.
    - Strconv: strconv/atoi.go, itoa.go and atob.go, integers of every base and booleans as text.
    - Digest: what crypto/md5, sha1, sha256 and sha512 write out alike, the buffer of a block, its marshalled form and the padding.
      Sha2 has the block function of the SHA-2 family, with the numbers of a package as an argument; Md5, Sha1, Sha256 and Sha512 have
      the packages, each an instance of [Hash].  Subtle: crypto/subtle.  Hmac: crypto/hmac over any [Hash].  Crypto: the registry of
      crypto/crypto.go, and the theorems about the eight digests as one family.
    - Block: the interface Block of crypto/cipher as a class of operations and one of laws, on the heap of Slices, with the algebra of writing
      bytes into it; Cbc: crypto/cipher/cbc.go over that interface; AesTables, Aes: crypto/aes, const.go, and block.go with cipher.go,
      an instance of it; Ciphers: the theorem about the two together.

    Definitions keep the names of the source; a name that Rocq or a library has taken ends in an underscore.  A loop of
    the source is a definition named after its function ([RuneCount_loop], [split_loop]); the body of a long loop
    is a definition ending in _turn.

    ** Modelling conventions

    A Go value of an unsigned w-bit type is a [Z] in [0, 2^w) and a signed one a [Z] in [-2^(w-1), 2^(w-1)); [wrap]
    and [swrap] write the wrap-around where it can occur, and theorems state the ranges of their arguments.  An index
    or a slice bound is checked as the runtime checks it: [index], [store] and [slice] panic when out of range.  A function that
    can panic, or that loops, returns an [outcome]: a value, a panic, or [NoFuel].  An [error] result is an ordinary value.
    Byte slices and strings are lists of bytes.  Where aliasing matters it is explicit: Hex writes Decode once over an
    abstract memory, because DecodeString runs it with source and destination in one slice; LinkedList has a store; math/big
    computes in place, so it runs on the heap of Slices, where two numbers may have one array.  There a nil slice is the empty
    view of the empty array (the class's null reference is not told apart from it), the byte buffers of bytes and setBytes are
    lists, and the sync.Pool of temporaries is a queue that is part of the state.

    ** Fuel

    No property is conditional on fuel: each states that the function returns, so the fuel it passes is enough.
    - Loops that consume a byte or more a turn have the length of the data, plus one or two, as fuel (Utf8, Utf16, Base64,
      Bytes, Path, Adler32, Crc64); Sort and Heap take the number of elements, and the depth of quicksort bounds its
      recursion (quickSort falls back to heapSort at depth 0).
    - [Bits.div64_correct], the correction of a quotient digit, has fuel 2: it corrects at most twice.
    - PutUvarint has ten turns, the length of the largest varint; the fuel of ReadUvarint is an argument, since the loop
      ends only if the reader ends, and the theorems give the number that is enough.
    - Binary search halves its interval: 65 turns for an int.  [Bytes.pow_loop] halves its counter likewise.
    - Strconv.formatBits divides by the base or shifts by its bits: 65 turns for 64 bits; the digests take a block a turn, and
      [Digest.block_loop] has the length of the data plus one, as the loops of Cbc have; [Aes.dec_loop] has the number of words plus one.
    - [BpfVm.run_loop] has one turn per instruction: jumps only go forward.
    - The recursions of math/big have the number of words plus one as fuel (products 2(m+n)+2 for factors of m and n words: Karatsuba halves them, and what is left of unequal
      factors is shorter); mulRange halves its range, so 65 calls cover every range of int64; the trial digit of a division is
      corrected at most twice and its loop has fuel 3; each turn of Newton's iteration for the square root halves the distance to it, so
      the number of bits plus two is enough.

    ** What the theorems show

    - Functional correctness against arithmetic: Bits (counts, moves, exact sums, products and quotients with carry), Fnv
      (the 128-bit product), Binary (byte orders).
    - Equivalence with a reference: Crc32 and Crc64 with the bit-serial register (whatever table and slicing is used),
      Adler32 with RFC 1950, Utf8 (Valid, RuneCount) with repeated decoding, Base64 with decoding quantum by
      quantum, Bytes.Index with the first occurrence, BpfVm.Disassemble_meaning with the program before assembly.
    - Round trips: Utf8, Utf16, Hex, Binary, Base64, Bpf, and splitting and joining in Bytes.
    - Refinement of a specification: container/list refines sequences (a simulation along any run), the VM
      refines the transition relation of the instruction set, the stream encoder of base64 refines Encode, and every digest
      refines the running state of hash.Hash, checkpoints included.
    - Multi-precision integers: every operation of BigNat, BigMul, BigSqr, BigDiv and BigBits gives the number it is to give,
      for operands of any length that may share the storage of the result, changes no other array, and leaves a
      number without leading zeroes; on top of it the objects of BigInt refine a map from pointers to integers (an invariant on the
      storage, the pool and the signs, and a refinement theorem for each group of operations).
    - Slices: reading, writing, slicing and copy are Go's in the domain that Go accepts; append gives the contents that Go's gives, always in a new
      array, where Go writes into spare capacity.
    - Text and integers: parsing gives the number that the digits denote, or the error that is due, and printing is read back.
    - Cryptography against the standards, which are written out a second time with their numbers: the digests refine FIPS 180-4, RFC 3174 and RFC 1321 (through any
      sequence of writes, sums, resets and checkpoints), HMAC is FIPS 198-1, AES is FIPS 197 and its chaining mode SP 800-38A.
    - Sorting: Sort, Slice and Reverse give a sorted permutation of at most 2^62 elements (heapSort computes 2*root+1 in an int) under the contract; Search finds the
      boundary; the heap operations keep the heap and its elements.
    - Errors and safety: the decoders on arbitrary bytes (varints, hexadecimal, base64, marshalled digests), division
      panics, NewVM accepts exactly the programs that cannot go wrong, and Run of those never panics and ends; CRC-32
      detects every burst of at most four bytes.
    - Paths: Clean is the stack of elements that its documentation describes, and is idempotent; Split, Dir, Base, Ext and
      Join agree with it, Join for elements of well-formed UTF-8.

    ** Not modelled

    - Floating point (math, strconv's float conversions, the float slices of sort): the host's Math is used.  Of strconv, also the quoting.
    - Everything driven by reflection (fmt, encoding/json, xml, gob, asn1, binary.Read and Write, the templates):
      Reflect.pas is a front for .NET reflection.
    - I/O, time, concurrency and the network (os, net, net/http, crypto/tls, database/sql, bufio, the io wrappers of the
      encodings): they are calls to platform services.
    - Other ciphers and modes, public-key cryptography, compression, images, regexp, the Go front end and golang.org/x beyond bpf:
      self-contained, and the next candidates are the stream modes, GCM and compress/lzw.
    - The assembly of the digests and of AES, which this library does not build; the timing of crypto/subtle.
    - Of math/big: Rat and Float, conversion from and to text, Exp, GCD, ModInverse, ModSqrt, Jacobi, primality and random numbers.
    - Of modelled packages: Stable of sort, the stream decoder of base64, Dumper and the streams of
      hex, the rune-wise functions of bytes, Match of path. *)

From Stdlib Require Export ZArith Lia Bool.
From stdpp Require Export prelude.
From Stdlib Require Export (notations) String.

#[global] Open Scope Z_scope.

(** ** Machine words

    A Go value of an unsigned w-bit type is a [Z] in [0, 2^w); arithmetic wraps.
    A signed w-bit value is a [Z] in [-2^(w-1), 2^(w-1)). *)

Definition wrap (w z : Z) : Z := z mod 2 ^ w.
Definition swrap (w z : Z) : Z := (z + 2 ^ (w - 1)) mod 2 ^ w - 2 ^ (w - 1).
Definition is_uint (w x : Z) : Prop := 0 <= x < 2 ^ w.
Definition is_sint (w x : Z) : Prop := - 2 ^ (w - 1) <= x < 2 ^ (w - 1).
Definition shl (w x s : Z) : Z := wrap w (Z.shiftl x s).
Definition notw (w x : Z) : Z := 2 ^ w - 1 - x.

#[export] Instance is_uint_dec w x : Decision (is_uint w x).
Proof. unfold is_uint. apply _. Defined.
#[export] Instance is_sint_dec w x : Decision (is_sint w x).
Proof. unfold is_sint. apply _. Defined.

Declare Scope go_scope.
Delimit Scope go_scope with go.
Abbreviation u8 := (wrap 8).
Abbreviation u16 := (wrap 16).
Abbreviation u32 := (wrap 32).
Abbreviation u64 := (wrap 64).
Abbreviation i32 := (swrap 32).
Abbreviation i64 := (swrap 64).
Infix "&." := Z.land (at level 40, left associativity) : go_scope.
Infix "|." := Z.lor (at level 50, left associativity) : go_scope.
Infix "^." := Z.lxor (at level 50, left associativity) : go_scope.
Infix "&^." := Z.ldiff (at level 40, left associativity) : go_scope.
Infix ">>." := Z.shiftr (at level 40, left associativity) : go_scope.
Notation "x <<.[ w ] s" := (shl w x s) (at level 40, left associativity) : go_scope.

Abbreviation is_byte := (is_uint 8).
Abbreviation bytes_ok := (Forall (is_uint 8)).

(** ** Panics and fuel

    A Go function that can panic, or whose loop the model bounds by fuel, returns
    an [outcome].  An [error] result of the source is an ordinary value. *)

Inductive panic : Type :=
  | IndexOutOfRange
  | SliceBounds
  | DivideError
  | OverflowError
  | NilDereference
  | Explicit.

Inductive outcome (A : Type) : Type :=
  | Val (a : A)
  | Panic (p : panic)
  | NoFuel.
Arguments Val {A} a.
Arguments Panic {A} p.
Arguments NoFuel {A}.

#[export] Instance panic_eq_dec : EqDecision panic.
Proof. solve_decision. Defined.
#[export] Instance outcome_eq_dec `{EqDecision A} : EqDecision (outcome A).
Proof. solve_decision. Defined.

#[export] Instance outcome_ret : MRet outcome := @Val.
#[export] Instance outcome_bind : MBind outcome := fun A B f m =>
  match m with Val a => f a | Panic p => Panic p | NoFuel => NoFuel end.
#[export] Instance outcome_fmap : FMap outcome := fun A B f m =>
  match m with Val a => Val (f a) | Panic p => Panic p | NoFuel => NoFuel end.

(** ** Slices *)

Abbreviation zlen l := (Z.of_nat (length l)).

(** [s[i]] *)
Definition index {A} (l : list A) (i : Z) : outcome A :=
  if decide (0 <= i) then
    match l !! Z.to_nat i with Some a => Val a | None => Panic IndexOutOfRange end
  else Panic IndexOutOfRange.

(** [s[i] = x] *)
Definition store {A} (l : list A) (i : Z) (x : A) : outcome (list A) :=
  if decide (0 <= i < zlen l) then Val (<[Z.to_nat i := x]> l) else Panic IndexOutOfRange.

(** [s[i:j]] *)
Definition slice {A} (l : list A) (i j : Z) : outcome (list A) :=
  if decide (0 <= i <= j /\ j <= zlen l)
  then Val (take (Z.to_nat (j - i)) (drop (Z.to_nat i) l)) else Panic SliceBounds.

(** A read of a fixed-size table at an index of the table's index type. *)
Definition tab (t : list Z) (i : Z) : Z := nth (Z.to_nat i) t 0.

(** The bytes of a string literal. *)
Definition str (s : String.string) : list Z := map (λ c, Z.of_N (Ascii.N_of_ascii c)) (String.list_ascii_of_string s).
Arguments str s%_string_scope.

(** The first index at which [c] occurs. *)
Fixpoint position (c : Z) (l : list Z) : option Z :=
  match l with [] => None | x :: l => if c =? x then Some 0 else Z.succ <$> position c l end.

Lemma position_None c l : Forall (λ x, x <> c) l -> position c l = None.
Proof. induction 1 as [|x l Hx _ IH]; [done|]. cbn [position]. rewrite (proj2 (Z.eqb_neq c x)) by congruence. by rewrite IH. Qed.

(** ** Finite checks: a boolean test on a range of integers, evaluated once. *)

Definition check_range (lo : Z) (n : nat) (f : Z -> bool) : bool :=
  forallb f (seqZ lo (Z.of_nat n)).

Lemma check_range_spec lo n f :
  check_range lo n f = true ->
  forall x, lo <= x < lo + Z.of_nat n -> f x = true.
Proof.
  unfold check_range. rewrite List.forallb_forall. intros H x Hx.
  apply H, list_elem_of_In, elem_of_seqZ. lia.
Qed.

Lemma check_byte f :
  check_range 0 256 f = true -> forall x, is_byte x -> f x = true.
Proof.
  intros H x Hx. apply (check_range_spec 0 256 f H). unfold is_uint in Hx. lia.
Qed.

(** ** Bits of words *)

Lemma testbit_high w x i : is_uint w x -> 0 <= w <= i -> Z.testbit x i = false.
Proof.
  intros Hx Hi. destruct (decide (x = 0)) as [->|Hn]; [apply Z.testbit_0_l|].
  unfold is_uint in Hx. apply Z.bits_above_log2; [lia|].
  apply Z.lt_le_trans with w; [|lia]. apply Z.log2_lt_pow2; lia.
Qed.

Lemma testbit_wrap w z i :
  0 <= w -> 0 <= i -> Z.testbit (wrap w z) i = (i <? w) && Z.testbit z i.
Proof.
  intros Hw Hi. unfold wrap. destruct (Z.ltb_spec i w).
  - rewrite Z.mod_pow2_bits_low by lia. reflexivity.
  - rewrite Z.mod_pow2_bits_high by lia. reflexivity.
Qed.

Lemma is_uint_bits w x :
  0 <= w -> 0 <= x -> (forall i, w <= i -> Z.testbit x i = false) -> is_uint w x.
Proof.
  intros Hw Hx H. unfold is_uint. split; [done|].
  destruct (Z.lt_ge_cases x (2 ^ w)) as [?|Hge]; [done|exfalso].
  assert (0 < x) by (pose proof (Z.pow_pos_nonneg 2 w ltac:(lia) Hw); lia).
  assert (w <= Z.log2 x) by (apply Z.log2_le_pow2; lia).
  specialize (H (Z.log2 x) ltac:(lia)). rewrite Z.bit_log2 in H by lia. done.
Qed.

Lemma wrap_is_uint w z : 0 <= w -> is_uint w (wrap w z).
Proof.
  intros Hw. unfold is_uint, wrap. apply Z.mod_pos_bound, Z.pow_pos_nonneg; lia.
Qed.

Lemma wrap_small w z : is_uint w z -> wrap w z = z.
Proof. unfold is_uint, wrap. intros H. apply Z.mod_small; lia. Qed.

Lemma shl_is_uint w x s : 0 <= w -> is_uint w (shl w x s).
Proof. apply wrap_is_uint. Qed.

Lemma is_uint_mono v w x : v <= w -> is_uint v x -> is_uint w x.
Proof.
  unfold is_uint. intros Hvw Hx. pose proof (Z.pow_le_mono_r 2 v w). lia.
Qed.

Lemma land_is_uint w x y : 0 <= w -> is_uint w x -> 0 <= y -> is_uint w (Z.land x y).
Proof.
  intros Hw Hx Hy. apply is_uint_bits; [done|apply Z.land_nonneg; auto|].
  intros i Hi. rewrite Z.land_spec, (testbit_high w) by (try done; lia). reflexivity.
Qed.

Lemma land_is_uint_r w x y : 0 <= w -> is_uint w y -> is_uint w (Z.land x y).
Proof.
  intros Hw Hy. apply is_uint_bits; [done|apply Z.land_nonneg; unfold is_uint in Hy; lia|].
  intros i Hi. rewrite Z.land_spec, (testbit_high w y) by (try done; lia). apply andb_false_r.
Qed.

Lemma lor_is_uint w x y : 0 <= w -> is_uint w x -> is_uint w y -> is_uint w (Z.lor x y).
Proof.
  intros Hw Hx Hy. apply is_uint_bits; [done|apply Z.lor_nonneg; unfold is_uint in *; lia|].
  intros i Hi. rewrite Z.lor_spec, !(testbit_high w) by (try done; lia). reflexivity.
Qed.

Lemma lxor_is_uint w x y : 0 <= w -> is_uint w x -> is_uint w y -> is_uint w (Z.lxor x y).
Proof.
  intros Hw Hx Hy. apply is_uint_bits; [done|apply Z.lxor_nonneg; unfold is_uint in *; lia|].
  intros i Hi. rewrite Z.lxor_spec, !(testbit_high w) by (try done; lia). reflexivity.
Qed.

Lemma shiftr_is_uint w x s : 0 <= w -> 0 <= s -> is_uint w x -> is_uint w (Z.shiftr x s).
Proof.
  intros Hw Hs Hx. apply is_uint_bits; [done|apply Z.shiftr_nonneg; unfold is_uint in *; lia|].
  intros i Hi. rewrite Z.shiftr_spec, (testbit_high w) by (try done; lia). reflexivity.
Qed.

(** [a * 2^k] and a value below [2^k] share no bit. *)
Lemma lor_disjoint a b k : 0 <= k -> is_uint k b -> Z.lor (a * 2 ^ k) b = a * 2 ^ k + b.
Proof.
  intros Hk Hb. symmetry. apply Z.add_nocarry_lor.
  apply Z.bits_inj'. intros i Hi. rewrite Z.land_spec, Z.bits_0.
  destruct (Z.lt_ge_cases i k).
  - rewrite Z.mul_pow2_bits_low by lia. reflexivity.
  - rewrite (testbit_high k b) by (try done; lia). apply andb_false_r.
Qed.

Lemma lxor_disjoint a b k : 0 <= k -> is_uint k b -> Z.lxor (a * 2 ^ k) b = a * 2 ^ k + b.
Proof.
  intros Hk Hb. symmetry. apply Z.add_nocarry_lxor.
  apply Z.bits_inj'. intros i Hi. rewrite Z.land_spec, Z.bits_0.
  destruct (Z.lt_ge_cases i k).
  - rewrite Z.mul_pow2_bits_low by lia. reflexivity.
  - rewrite (testbit_high k b) by (try done; lia). apply andb_false_r.
Qed.

Lemma word_ext w x y :
  0 <= w -> is_uint w x -> is_uint w y ->
  (forall i, 0 <= i < w -> Z.testbit x i = Z.testbit y i) -> x = y.
Proof.
  intros Hw Hx Hy H. apply Z.bits_inj'. intros i Hi.
  destruct (Z.lt_ge_cases i w); [apply H; lia|].
  rewrite !(testbit_high w) by (try done; lia). reflexivity.
Qed.

(** The top bit of a word is a comparison. *)
Lemma shiftr_top w x : 0 < w -> is_uint w x -> Z.shiftr x (w - 1) = Z.b2z (Z.testbit x (w - 1)).
Proof.
  intros Hw Hx. apply Z.bits_inj'. intros i Hi. rewrite Z.shiftr_spec by lia.
  destruct (Z.eq_dec i 0) as [->|Hne].
  - rewrite Z.b2z_bit0, Z.add_0_l. reflexivity.
  - rewrite (testbit_high w) by (try done; lia).
    destruct (Z.testbit x (w - 1)); cbn [Z.b2z]; [|by rewrite Z.bits_0].
    symmetry. apply Z.bits_above_log2; simpl; lia.
Qed.

Lemma testbit_top w x : 0 < w -> is_uint w x -> Z.testbit x (w - 1) = (2 ^ (w - 1) <=? x).
Proof.
  intros Hw Hx. pose proof (shiftr_top w x Hw Hx) as H.
  rewrite Z.shiftr_div_pow2 in H by lia.
  assert (0 < 2 ^ (w - 1)) by (apply Z.pow_pos_nonneg; lia).
  destruct (Z.testbit x (w - 1)); simpl in H; symmetry.
  - apply Z.leb_le. pose proof (Z.mul_div_le x (2 ^ (w - 1))). nia.
  - apply Z.leb_gt. apply Z.div_small_iff in H; unfold is_uint in Hx; lia.
Qed.

Create HintDb word discriminated.
#[export] Hint Resolve wrap_is_uint shl_is_uint land_is_uint land_is_uint_r lor_is_uint
  lxor_is_uint shiftr_is_uint : word.
#[export] Hint Extern 1 (_ <= _) => lia : word.
#[export] Hint Extern 1 (_ < _) => lia : word.
#[export] Hint Extern 2 (is_uint _ _) => (unfold is_uint; lia) : word.

(** Side conditions about words. *)
Ltac word := solve [eauto 8 with word | unfold is_uint, wrap, shl in *; lia].

(** Shifts and masks by constants as division, remainder and product. *)
Ltac arith_shifts :=
  rewrite ?Z.shiftr_div_pow2, ?Z.shiftl_mul_pow2 by lia.

(** ** Little-endian digit lists in base [2^w] *)

Fixpoint from_le (w : Z) (ds : list Z) : Z :=
  match ds with [] => 0 | d :: ds => d + 2 ^ w * from_le w ds end.

Fixpoint to_le (w : Z) (n : nat) (x : Z) : list Z :=
  match n with O => [] | S n => x mod 2 ^ w :: to_le w n (x / 2 ^ w) end.

Lemma length_to_le w n x : length (to_le w n x) = n.
Proof. revert x; induction n; intros; simpl; auto. Qed.

Lemma to_le_uint w n x : 0 <= w -> Forall (is_uint w) (to_le w n x).
Proof.
  intros Hw. revert x; induction n; intros x; constructor; [by apply wrap_is_uint|auto].
Qed.

Lemma from_to_le w n x : 0 <= w -> from_le w (to_le w n x) = x mod 2 ^ (w * Z.of_nat n).
Proof.
  intros Hw. assert (0 < 2 ^ w) by (apply Z.pow_pos_nonneg; lia). revert x.
  induction n as [|n IH]; intros x; cbn [to_le from_le].
  - rewrite Z.mul_0_r, Z.mod_1_r. done.
  - rewrite IH. replace (w * Z.of_nat (S n)) with (w + w * Z.of_nat n) by lia.
    rewrite Z.pow_add_r by lia.
    assert (0 < 2 ^ (w * Z.of_nat n)) by (apply Z.pow_pos_nonneg; lia).
    rewrite Z.rem_mul_r by lia. lia.
Qed.

Lemma from_le_bound w ds :
  0 <= w -> Forall (is_uint w) ds -> is_uint (w * zlen ds) (from_le w ds).
Proof.
  intros Hw. assert (0 < 2 ^ w) by (apply Z.pow_pos_nonneg; lia).
  induction 1 as [|d ds Hd _ IH]; cbn [from_le length].
  - rewrite Z.mul_0_r. unfold is_uint. lia.
  - unfold is_uint in *. replace (w * Z.of_nat (S (length ds))) with (w + w * zlen ds) by lia.
    rewrite Z.pow_add_r by lia. nia.
Qed.

Lemma to_from_le w ds :
  0 <= w -> Forall (is_uint w) ds -> to_le w (length ds) (from_le w ds) = ds.
Proof.
  intros Hw. assert (0 < 2 ^ w) by (apply Z.pow_pos_nonneg; lia).
  induction 1 as [|d ds Hd _ IH]; cbn [from_le to_le length]; [done|].
  unfold is_uint in Hd. rewrite (Z.mul_comm (2 ^ w)), Z.mod_add, Z.div_add by lia.
  rewrite Z.mod_small, (Z.div_small d), Z.add_0_l by lia. by rewrite IH.
Qed.

Lemma to_le_inj w n x y :
  0 <= w -> is_uint (w * Z.of_nat n) x -> is_uint (w * Z.of_nat n) y ->
  to_le w n x = to_le w n y -> x = y.
Proof.
  intros Hw Hx Hy H. apply (f_equal (from_le w)) in H. rewrite !from_to_le in H by done.
  unfold is_uint in *. rewrite !Z.mod_small in H by lia. done.
Qed.

Lemma testbit_cat w a x i :
  0 <= w -> is_uint w a -> 0 <= i ->
  Z.testbit (a + 2 ^ w * x) i = if i <? w then Z.testbit a i else Z.testbit x (i - w).
Proof.
  intros Hw Ha Hi. rewrite Z.mul_comm, Z.add_comm, <- lor_disjoint, Z.lor_spec by done.
  destruct (Z.ltb_spec i w).
  - rewrite Z.mul_pow2_bits_low by lia. done.
  - rewrite (testbit_high w a), orb_false_r, Z.mul_pow2_bits by (try done; lia). done.
Qed.

Lemma land_cat w a b x y :
  0 <= w -> is_uint w a -> is_uint w b ->
  Z.land (a + 2 ^ w * x) (b + 2 ^ w * y) = Z.land a b + 2 ^ w * Z.land x y.
Proof.
  intros Hw Ha Hb. apply Z.bits_inj'. intros i Hi.
  rewrite Z.land_spec, !testbit_cat by word.
  destruct (i <? w); rewrite Z.land_spec; done.
Qed.

(** A shift masked so that no bit crosses a digit boundary acts digitwise. *)
Lemma shiftr_land_cat w s a b x y :
  0 <= s <= w -> is_uint w a -> is_uint (w - s) b ->
  Z.land (Z.shiftr (a + 2 ^ w * x) s) (b + 2 ^ w * y)
  = Z.land (Z.shiftr a s) b + 2 ^ w * Z.land (Z.shiftr x s) y.
Proof.
  intros Hs Ha Hb. assert (is_uint w b) by (apply (is_uint_mono (w - s)); [lia|done]).
  apply Z.bits_inj'. intros i Hi.
  rewrite Z.land_spec, Z.shiftr_spec, !testbit_cat by word.
  destruct (Z.ltb_spec i w); rewrite Z.land_spec, Z.shiftr_spec by lia.
  - destruct (Z.ltb_spec (i + s) w); [done|].
    rewrite (testbit_high (w - s) b), !andb_false_r by (try done; lia). done.
  - destruct (Z.ltb_spec (i + s) w); [lia|]. by replace (i + s - w) with (i - w + s) by lia.
Qed.

Lemma from_le_cons_div w d ds : 0 <= w -> is_uint w d -> from_le w (d :: ds) / 2 ^ w = from_le w ds.
Proof.
  intros Hw Hd. cbn [from_le]. assert (0 < 2 ^ w) by (apply Z.pow_pos_nonneg; lia).
  rewrite (Z.mul_comm (2 ^ w)), Z.div_add, Z.div_small by (unfold is_uint in Hd; lia). lia.
Qed.

Lemma from_le_cons_mod w d ds : 0 <= w -> is_uint w d -> from_le w (d :: ds) mod 2 ^ w = d.
Proof.
  intros Hw Hd. cbn [from_le]. assert (0 < 2 ^ w) by (apply Z.pow_pos_nonneg; lia).
  rewrite (Z.mul_comm (2 ^ w)), Z.mod_add, Z.mod_small by (unfold is_uint in Hd; lia). lia.
Qed.

Lemma from_le_app w ds es :
  0 <= w -> from_le w (ds ++ es) = from_le w ds + 2 ^ (w * zlen ds) * from_le w es.
Proof.
  intros Hw. induction ds as [|d ds IH]; cbn [app from_le length].
  - rewrite Z.mul_0_r. simpl. lia.
  - rewrite IH. replace (w * Z.of_nat (S (length ds))) with (w + w * zlen ds) by lia.
    rewrite Z.pow_add_r by lia. ring.
Qed.

(** Linear arithmetic with division and remainder by constants. *)
Ltac dlia := unfold wrap in *; Z.to_euclidean_division_equations; lia.

Lemma wrap_land w z m : 0 <= w -> is_uint w m -> Z.land (wrap w z) m = Z.land z m.
Proof.
  intros Hw Hm. apply Z.bits_inj'. intros i Hi. rewrite !Z.land_spec, testbit_wrap by lia.
  destruct (Z.ltb_spec i w); [done|].
  rewrite (testbit_high w m), !andb_false_r by (done || lia). done.
Qed.

(** ** Writing a slice from left to right *)

Lemma store_app {A} (done : list A) y rest x :
  store (done ++ y :: rest) (zlen done) x = Val (done ++ x :: rest).
Proof.
  unfold store. rewrite decide_True by (rewrite length_app; simpl; lia).
  rewrite Nat2Z.id, insert_app_r_alt, Nat.sub_diag by done. done.
Qed.

Lemma store_lt {A} (l : list A) k x :
  0 <= k < zlen l -> store l k x = Val (<[Z.to_nat k := x]> l).
Proof. intros H. unfold store. by rewrite decide_True. Qed.

Lemma index_app_r {A} (l k : list A) x :
  index (l ++ x :: k) (zlen l) = Val x.
Proof.
  unfold index. rewrite decide_True, Nat2Z.id by lia. by rewrite list_lookup_middle.
Qed.

Lemma index_Val {A} (l : list A) i x :
  0 <= i -> l !! Z.to_nat i = Some x -> index l i = Val x.
Proof. intros Hi H. unfold index. rewrite decide_True by done. by rewrite H. Qed.

Lemma slice_take {A} (l : list A) n : 0 <= n <= zlen l -> slice l 0 n = Val (take (Z.to_nat n) l).
Proof. intros H. unfold slice. rewrite decide_True by lia. by rewrite Z.sub_0_r, drop_0. Qed.

Lemma slice_val {A} (l : list A) i j : 0 <= i <= j -> j <= zlen l -> slice l i j = Val (take (Z.to_nat (j - i)) (drop (Z.to_nat i) l)).
Proof. intros Hi Hj. unfold slice. by rewrite decide_True by lia. Qed.

Lemma slice_from {A} (l : list A) i : 0 <= i <= zlen l -> slice l i (zlen l) = Val (drop (Z.to_nat i) l).
Proof. intros Hi. rewrite slice_val by lia. by rewrite take_ge by (rewrite length_drop; lia). Qed.

Lemma slice_app_l {A} (l k : list A) : slice (l ++ k) 0 (zlen l) = Val l.
Proof. rewrite slice_take by (rewrite length_app; lia). by rewrite Nat2Z.id, take_app_length. Qed.

Lemma take_pred {A} (buf : list A) i : 1 <= i <= zlen buf -> exists y, take (Z.to_nat i) buf = take (Z.to_nat (i - 1)) buf ++ [y].
Proof.
  intros Hi. destruct (lookup_lt_is_Some_2 buf (Z.to_nat (i - 1)) ltac:(lia)) as [y Hy]. exists y. replace (Z.to_nat i) with (S (Z.to_nat (i - 1))) by lia. by apply take_S_r.
Qed.

(** Writing a buffer from its end. *)
Lemma store_back {A} (buf w : list A) i b : 1 <= i <= zlen buf -> store (take (Z.to_nat i) buf ++ w) (i - 1) b = Val (take (Z.to_nat (i - 1)) buf ++ b :: w).
Proof.
  intros Hi. destruct (take_pred buf i Hi) as [y Ey]. rewrite Ey, <- app_assoc. cbn [app]. assert (El : zlen (take (Z.to_nat (i - 1)) buf) = i - 1) by (rewrite length_take; lia). rewrite <- El at 2. apply store_app.
Qed.

(** [make([]T, n)] with the zero value [z]. *)
Definition make {A} (z : A) (n : Z) : list A := replicate (Z.to_nat n) z.

Lemma length_make {A} (z : A) n : 0 <= n -> zlen (make z n) = n.
Proof. intros Hn. unfold make. rewrite length_replicate. lia. Qed.

Lemma swrap_small w x : is_sint w x -> swrap w x = x.
Proof.
  unfold is_sint, swrap. intros Hx. destruct (Z.le_gt_cases w 0) as [Hw|Hw].
  - destruct (Z.eq_dec w 0) as [->|]; [change (2 ^ (0 - 1)) with 0 in *; lia|].
    rewrite (Z.pow_neg_r 2 (w - 1)) in * by lia. lia.
  - replace (2 ^ w) with (2 * 2 ^ (w - 1)) by (rewrite <- Z.pow_succ_r by lia; f_equal; lia).
    rewrite Z.mod_small by lia. lia.
Qed.

Lemma is_sint32 x : - 2147483648 <= x < 2147483648 -> is_sint 32 x.
Proof. done. Qed.

Lemma zlen_app {A} (l k : list A) : zlen (l ++ k) = zlen l + zlen k.
Proof. rewrite length_app. lia. Qed.

Lemma zlen_snoc {A} (l : list A) x : zlen (l ++ [x]) = zlen l + 1.
Proof. rewrite zlen_app. done. Qed.

Lemma zlen_snoc2 {A} (l : list A) x y : zlen (l ++ [x; y]) = zlen l + 2.
Proof. rewrite zlen_app. done. Qed.

(** Two functions that agree on a range, by evaluation. *)
Lemma check_range_eq {A} `{EqDecision A} (f g : Z -> A) lo n :
  check_range lo n (λ x, bool_decide (f x = g x)) = true ->
  forall x, lo <= x < lo + Z.of_nat n -> f x = g x.
Proof.
  intros H' x Hx. pose proof (check_range_spec lo n _ H' x Hx) as E. cbv beta in E.
  by apply bool_decide_eq_true_1 in E.
Qed.

Lemma to_le_app w n m x y : 0 <= w -> is_uint (w * Z.of_nat n) x ->
  to_le w (n + m) (x + 2 ^ (w * Z.of_nat n) * y) = to_le w n x ++ to_le w m y.
Proof.
  intros Hw. assert (0 < 2 ^ w) by (apply Z.pow_pos_nonneg; lia). revert x.
  induction n as [|n IH]; intros x Hx; cbn [Nat.add to_le app].
  - unfold is_uint in Hx. rewrite Z.mul_0_r in *. change (2 ^ 0) with 1 in *. f_equal. lia.
  - replace (w * Z.of_nat (S n)) with (w + w * Z.of_nat n) in * by lia. unfold is_uint in *.
    rewrite Z.pow_add_r in * by lia.
    replace (x + 2 ^ w * 2 ^ (w * Z.of_nat n) * y) with (x + (2 ^ (w * Z.of_nat n) * y) * 2 ^ w) by ring.
    rewrite Z.mod_add, Z.div_add by lia. f_equal. apply IH.
    split; [apply Z.div_pos; lia|apply Z.div_lt_upper_bound; lia].
Qed.

(** ** Counting loops *)

Fixpoint iterate {S} (n : nat) (i step : Z) (body : Z -> S -> outcome S) (s : S) : outcome S :=
  match n with
  | O => Val s
  | Datatypes.S n => s ← body i s; iterate n (i + step) step body s
  end.

(** [for i := lo; i < hi; i++ { body }] and [for i := hi; i >= lo; i-- { body }], for a body that
    leaves [i] alone. *)
Definition for_up {S} (lo hi : Z) (body : Z -> S -> outcome S) (s : S) : outcome S :=
  iterate (Z.to_nat (hi - lo)) lo 1 body s.
Definition for_down {S} (hi lo : Z) (body : Z -> S -> outcome S) (s : S) : outcome S :=
  iterate (Z.to_nat (hi - lo + 1)) hi (-1) body s.

(** Invariants of the two loops: what holds before the turn at [i]. *)
Lemma for_up_inv {S} (I : Z -> S -> Prop) lo hi body s :
  lo <= hi -> I lo s ->
  (forall i s, lo <= i < hi -> I i s -> exists s', body i s = Val s' /\ I (i + 1) s') ->
  exists s', for_up lo hi body s = Val s' /\ I hi s'.
Proof.
  intros Hle H0 Hb. unfold for_up. remember (Z.to_nat (hi - lo)) as n eqn:Hn.
  revert lo s Hle H0 Hb Hn. induction n as [|n IH]; intros lo s Hle H0 Hb Hn.
  - exists s. split; [done|]. by replace hi with lo by lia.
  - destruct (Hb lo s ltac:(lia) H0) as (s1 & E & H1). cbn [iterate]. rewrite E. cbn [mbind outcome_bind].
    apply IH; [lia|done| |lia]. intros i s' Hi. apply Hb. lia.
Qed.

Lemma for_down_inv {S} (I : Z -> S -> Prop) hi lo body s :
  lo - 1 <= hi -> I hi s ->
  (forall i s, lo <= i <= hi -> I i s -> exists s', body i s = Val s' /\ I (i - 1) s') ->
  exists s', for_down hi lo body s = Val s' /\ I (lo - 1) s'.
Proof.
  intros Hle H0 Hb. unfold for_down. remember (Z.to_nat (hi - lo + 1)) as n eqn:Hn.
  revert hi s Hle H0 Hb Hn. induction n as [|n IH]; intros hi s Hle H0 Hb Hn.
  - exists s. split; [done|]. by replace (lo - 1) with hi by lia.
  - destruct (Hb hi s ltac:(lia) H0) as (s1 & E & H1). cbn [iterate]. rewrite E. cbn [mbind outcome_bind].
    change (hi + -1) with (hi - 1) in *. apply IH; [lia|done| |lia]. intros i s' Hi. apply Hb. lia.
Qed.

(** [for ; i < hi && test(i); i++ {}] and [for ; lo < i && test(i-1); i-- {}]. *)
Fixpoint scan (n : nat) (i step : Z) (test : Z -> outcome bool) : outcome Z :=
  match n with
  | O => Val i
  | S n => t ← test i; if t : bool then scan n (i + step) step test else Val i
  end.
Definition scan_up (i hi : Z) (test : Z -> outcome bool) : outcome Z := scan (Z.to_nat (hi - i)) i 1 test.
Definition scan_down (i lo : Z) (test : Z -> outcome bool) : outcome Z := scan (Z.to_nat (i - lo)) i (-1) test.

Lemma scan_up_spec (p : Z -> bool) i hi test :
  i <= hi -> (forall k, i <= k < hi -> test k = Val (p k)) ->
  exists r, scan_up i hi test = Val r /\ i <= r <= hi /\ (forall k, i <= k < r -> p k = true) /\ (r < hi -> p r = false).
Proof.
  intros Hle Ht. unfold scan_up. remember (Z.to_nat (hi - i)) as n eqn:Hn.
  revert i Hle Ht Hn. induction n as [|n IH]; intros i Hle Ht Hn; cbn [scan].
  - exists i. split_and!; try done; lia.
  - rewrite Ht by lia. cbn [mbind outcome_bind]. destruct (p i) eqn:E.
    + destruct (IH (i + 1)) as (r & Er & Hr & Hall & Hstop); [lia|intros; apply Ht; lia|lia|].
      exists r. split_and!; [done|lia|lia| |done]. intros k Hk.
      destruct (Z.eq_dec k i) as [->|]; [done|]. apply Hall. lia.
    + exists i. split_and!; try done; lia.
Qed.

(** [test] is asked at [i], for the element before it. *)
Lemma scan_down_spec (p : Z -> bool) i lo test :
  lo <= i -> (forall k, lo < k <= i -> test k = Val (p k)) ->
  exists r, scan_down i lo test = Val r /\ lo <= r <= i /\ (forall k, r < k <= i -> p k = true) /\ (lo < r -> p r = false).
Proof.
  intros Hle Ht. unfold scan_down. remember (Z.to_nat (i - lo)) as n eqn:Hn.
  revert i Hle Ht Hn. induction n as [|n IH]; intros i Hle Ht Hn; cbn [scan].
  - exists i. split_and!; try done; lia.
  - rewrite Ht by lia. cbn [mbind outcome_bind]. destruct (p i) eqn:E.
    + destruct (IH (i + -1)) as (r & Er & Hr & Hall & Hstop); [lia|intros; apply Ht; lia|lia|].
      exists r. split_and!; [done|lia|lia| |done]. intros k Hk.
      destruct (Z.eq_dec k i) as [->|]; [done|]. apply Hall. lia.
    + exists i. split_and!; try done; lia.
Qed.
