(* ===== verification/Bits.v ===== *)
(** * math/bits

    Bit counting and manipulation for unsigned words
    (src/Source/Gold/math/bits/bits.go, with the tables of bits_tables.go).
    A word is a [Z] in range; each theorem states the range it needs. *)

From S2P Require Import Prelude.

Local Open Scope go_scope.

(** ** Tables *)

Definition ntz8tab : list Z := [
  8; 0; 1; 0; 2; 0; 1; 0; 3; 0; 1; 0; 2; 0; 1; 0;
  4; 0; 1; 0; 2; 0; 1; 0; 3; 0; 1; 0; 2; 0; 1; 0;
  5; 0; 1; 0; 2; 0; 1; 0; 3; 0; 1; 0; 2; 0; 1; 0;
  4; 0; 1; 0; 2; 0; 1; 0; 3; 0; 1; 0; 2; 0; 1; 0;
  6; 0; 1; 0; 2; 0; 1; 0; 3; 0; 1; 0; 2; 0; 1; 0;
  4; 0; 1; 0; 2; 0; 1; 0; 3; 0; 1; 0; 2; 0; 1; 0;
  5; 0; 1; 0; 2; 0; 1; 0; 3; 0; 1; 0; 2; 0; 1; 0;
  4; 0; 1; 0; 2; 0; 1; 0; 3; 0; 1; 0; 2; 0; 1; 0;
  7; 0; 1; 0; 2; 0; 1; 0; 3; 0; 1; 0; 2; 0; 1; 0;
  4; 0; 1; 0; 2; 0; 1; 0; 3; 0; 1; 0; 2; 0; 1; 0;
  5; 0; 1; 0; 2; 0; 1; 0; 3; 0; 1; 0; 2; 0; 1; 0;
  4; 0; 1; 0; 2; 0; 1; 0; 3; 0; 1; 0; 2; 0; 1; 0;
  6; 0; 1; 0; 2; 0; 1; 0; 3; 0; 1; 0; 2; 0; 1; 0;
  4; 0; 1; 0; 2; 0; 1; 0; 3; 0; 1; 0; 2; 0; 1; 0;
  5; 0; 1; 0; 2; 0; 1; 0; 3; 0; 1; 0; 2; 0; 1; 0;
  4; 0; 1; 0; 2; 0; 1; 0; 3; 0; 1; 0; 2; 0; 1; 0].

Definition pop8tab : list Z := [
  0; 1; 1; 2; 1; 2; 2; 3; 1; 2; 2; 3; 2; 3; 3; 4;
  1; 2; 2; 3; 2; 3; 3; 4; 2; 3; 3; 4; 3; 4; 4; 5;
  1; 2; 2; 3; 2; 3; 3; 4; 2; 3; 3; 4; 3; 4; 4; 5;
  2; 3; 3; 4; 3; 4; 4; 5; 3; 4; 4; 5; 4; 5; 5; 6;
  1; 2; 2; 3; 2; 3; 3; 4; 2; 3; 3; 4; 3; 4; 4; 5;
  2; 3; 3; 4; 3; 4; 4; 5; 3; 4; 4; 5; 4; 5; 5; 6;
  2; 3; 3; 4; 3; 4; 4; 5; 3; 4; 4; 5; 4; 5; 5; 6;
  3; 4; 4; 5; 4; 5; 5; 6; 4; 5; 5; 6; 5; 6; 6; 7;
  1; 2; 2; 3; 2; 3; 3; 4; 2; 3; 3; 4; 3; 4; 4; 5;
  2; 3; 3; 4; 3; 4; 4; 5; 3; 4; 4; 5; 4; 5; 5; 6;
  2; 3; 3; 4; 3; 4; 4; 5; 3; 4; 4; 5; 4; 5; 5; 6;
  3; 4; 4; 5; 4; 5; 5; 6; 4; 5; 5; 6; 5; 6; 6; 7;
  2; 3; 3; 4; 3; 4; 4; 5; 3; 4; 4; 5; 4; 5; 5; 6;
  3; 4; 4; 5; 4; 5; 5; 6; 4; 5; 5; 6; 5; 6; 6; 7;
  3; 4; 4; 5; 4; 5; 5; 6; 4; 5; 5; 6; 5; 6; 6; 7;
  4; 5; 5; 6; 5; 6; 6; 7; 5; 6; 6; 7; 6; 7; 7; 8].

Definition rev8tab : list Z := [
  0; 128; 64; 192; 32; 160; 96; 224; 16; 144; 80; 208; 48; 176; 112; 240;
  8; 136; 72; 200; 40; 168; 104; 232; 24; 152; 88; 216; 56; 184; 120; 248;
  4; 132; 68; 196; 36; 164; 100; 228; 20; 148; 84; 212; 52; 180; 116; 244;
  12; 140; 76; 204; 44; 172; 108; 236; 28; 156; 92; 220; 60; 188; 124; 252;
  2; 130; 66; 194; 34; 162; 98; 226; 18; 146; 82; 210; 50; 178; 114; 242;
  10; 138; 74; 202; 42; 170; 106; 234; 26; 154; 90; 218; 58; 186; 122; 250;
  6; 134; 70; 198; 38; 166; 102; 230; 22; 150; 86; 214; 54; 182; 118; 246;
  14; 142; 78; 206; 46; 174; 110; 238; 30; 158; 94; 222; 62; 190; 126; 254;
  1; 129; 65; 193; 33; 161; 97; 225; 17; 145; 81; 209; 49; 177; 113; 241;
  9; 137; 73; 201; 41; 169; 105; 233; 25; 153; 89; 217; 57; 185; 121; 249;
  5; 133; 69; 197; 37; 165; 101; 229; 21; 149; 85; 213; 53; 181; 117; 245;
  13; 141; 77; 205; 45; 173; 109; 237; 29; 157; 93; 221; 61; 189; 125; 253;
  3; 131; 67; 195; 35; 163; 99; 227; 19; 147; 83; 211; 51; 179; 115; 243;
  11; 139; 75; 203; 43; 171; 107; 235; 27; 155; 91; 219; 59; 187; 123; 251;
  7; 135; 71; 199; 39; 167; 103; 231; 23; 151; 87; 215; 55; 183; 119; 247;
  15; 143; 79; 207; 47; 175; 111; 239; 31; 159; 95; 223; 63; 191; 127; 255].

Definition len8tab : list Z := [
  0; 1; 2; 2; 3; 3; 3; 3; 4; 4; 4; 4; 4; 4; 4; 4;
  5; 5; 5; 5; 5; 5; 5; 5; 5; 5; 5; 5; 5; 5; 5; 5;
  6; 6; 6; 6; 6; 6; 6; 6; 6; 6; 6; 6; 6; 6; 6; 6;
  6; 6; 6; 6; 6; 6; 6; 6; 6; 6; 6; 6; 6; 6; 6; 6;
  7; 7; 7; 7; 7; 7; 7; 7; 7; 7; 7; 7; 7; 7; 7; 7;
  7; 7; 7; 7; 7; 7; 7; 7; 7; 7; 7; 7; 7; 7; 7; 7;
  7; 7; 7; 7; 7; 7; 7; 7; 7; 7; 7; 7; 7; 7; 7; 7;
  7; 7; 7; 7; 7; 7; 7; 7; 7; 7; 7; 7; 7; 7; 7; 7;
  8; 8; 8; 8; 8; 8; 8; 8; 8; 8; 8; 8; 8; 8; 8; 8;
  8; 8; 8; 8; 8; 8; 8; 8; 8; 8; 8; 8; 8; 8; 8; 8;
  8; 8; 8; 8; 8; 8; 8; 8; 8; 8; 8; 8; 8; 8; 8; 8;
  8; 8; 8; 8; 8; 8; 8; 8; 8; 8; 8; 8; 8; 8; 8; 8;
  8; 8; 8; 8; 8; 8; 8; 8; 8; 8; 8; 8; 8; 8; 8; 8;
  8; 8; 8; 8; 8; 8; 8; 8; 8; 8; 8; 8; 8; 8; 8; 8;
  8; 8; 8; 8; 8; 8; 8; 8; 8; 8; 8; 8; 8; 8; 8; 8;
  8; 8; 8; 8; 8; 8; 8; 8; 8; 8; 8; 8; 8; 8; 8; 8].

Definition deBruijn32tab : list Z := [
  0; 1; 28; 2; 29; 14; 24; 3; 30; 22; 20; 15; 25; 17; 4; 8;
  31; 27; 13; 23; 21; 19; 16; 7; 26; 12; 18; 6; 11; 5; 10; 9].

Definition deBruijn64tab : list Z := [
  0; 1; 56; 2; 57; 49; 28; 3; 61; 58; 42; 50; 38; 29; 17; 4;
  62; 47; 59; 36; 45; 43; 51; 22; 53; 39; 33; 30; 24; 18; 12; 5;
  63; 55; 48; 27; 60; 41; 37; 16; 46; 35; 44; 21; 52; 32; 23; 11;
  54; 26; 40; 15; 34; 20; 31; 10; 25; 14; 19; 9; 13; 8; 7; 6].

Definition deBruijn32 : Z := 0x077CB531.
Definition deBruijn64 : Z := 0x03f79d71b4ca8b09.
Definition m0 : Z := 0x5555555555555555.
Definition m1 : Z := 0x3333333333333333.
Definition m2 : Z := 0x0f0f0f0f0f0f0f0f.
Definition m3 : Z := 0x00ff00ff00ff00ff.
Definition m4 : Z := 0x0000ffff0000ffff.

(** ** Len and LeadingZeros *)

Definition Len8 (x : Z) : Z := tab len8tab x.

Definition Len16 (x : Z) : Z :=
  let '(x, n) := if 2 ^ 8 <=? x then (x >>. 8, 8) else (x, 0) in
  n + tab len8tab x.

Definition Len32 (x : Z) : Z :=
  let '(x, n) := if 2 ^ 16 <=? x then (x >>. 16, 16) else (x, 0) in
  let '(x, n) := if 2 ^ 8 <=? x then (x >>. 8, n + 8) else (x, n) in
  n + tab len8tab x.

Definition Len64 (x : Z) : Z :=
  let '(x, n) := if 2 ^ 32 <=? x then (x >>. 32, 32) else (x, 0) in
  let '(x, n) := if 2 ^ 16 <=? x then (x >>. 16, n + 16) else (x, n) in
  let '(x, n) := if 2 ^ 8 <=? x then (x >>. 8, n + 8) else (x, n) in
  n + tab len8tab x.

Definition LeadingZeros8 (x : Z) : Z := 8 - Len8 x.
Definition LeadingZeros16 (x : Z) : Z := 16 - Len16 x.
Definition LeadingZeros32 (x : Z) : Z := 32 - Len32 x.
Definition LeadingZeros64 (x : Z) : Z := 64 - Len64 x.

(** ** TrailingZeros *)

Definition TrailingZeros8 (x : Z) : Z := tab ntz8tab x.

Definition TrailingZeros16 (x : Z) : Z :=
  if x =? 0 then 16
  else tab deBruijn32tab (u32 ((x &. u16 (- x)) * deBruijn32) >>. (32 - 5)).

Definition TrailingZeros32 (x : Z) : Z :=
  if x =? 0 then 32
  else tab deBruijn32tab (u32 ((x &. u32 (- x)) * deBruijn32) >>. (32 - 5)).

Definition TrailingZeros64 (x : Z) : Z :=
  if x =? 0 then 64
  else tab deBruijn64tab (u64 ((x &. u64 (- x)) * deBruijn64) >>. (64 - 6)).

(** ** OnesCount *)

Definition OnesCount8 (x : Z) : Z := tab pop8tab x.

Definition OnesCount16 (x : Z) : Z :=
  u8 (tab pop8tab (x >>. 8) + tab pop8tab (x &. 0xff)).

Definition OnesCount32 (x : Z) : Z :=
  u8 (tab pop8tab (x >>. 24) + tab pop8tab ((x >>. 16) &. 0xff)
      + tab pop8tab ((x >>. 8) &. 0xff) + tab pop8tab (x &. 0xff)).

Definition OnesCount64 (x : Z) : Z :=
  let m := 2 ^ 64 - 1 in
  let x := u64 (((x >>. 1) &. (m0 &. m)) + (x &. (m0 &. m))) in
  let x := u64 (((x >>. 2) &. (m1 &. m)) + (x &. (m1 &. m))) in
  let x := u64 ((x >>. 4) + x) &. (m2 &. m) in
  let x := u64 (x + (x >>. 8)) in
  let x := u64 (x + (x >>. 16)) in
  let x := u64 (x + (x >>. 32)) in
  x &. (2 ^ 7 - 1).

(** ** RotateLeft

    [k] is a Go [int]; [uint(k) & (n-1)] is its residue modulo [n]. *)

Definition RotateLeft8 (x k : Z) : Z :=
  let s := u64 k &. 7 in (x <<.[8] s) |. (x >>. (8 - s)).
Definition RotateLeft16 (x k : Z) : Z :=
  let s := u64 k &. 15 in (x <<.[16] s) |. (x >>. (16 - s)).
Definition RotateLeft32 (x k : Z) : Z :=
  let s := u64 k &. 31 in (x <<.[32] s) |. (x >>. (32 - s)).
Definition RotateLeft64 (x k : Z) : Z :=
  let s := u64 k &. 63 in (x <<.[64] s) |. (x >>. (64 - s)).

(** ** ReverseBytes and Reverse *)

Definition ReverseBytes16 (x : Z) : Z := (x >>. 8) |. (x <<.[16] 8).

Definition ReverseBytes32 (x : Z) : Z :=
  let m := 2 ^ 32 - 1 in
  let x := ((x >>. 8) &. (m3 &. m)) |. ((x &. (m3 &. m)) <<.[32] 8) in
  (x >>. 16) |. (x <<.[32] 16).

Definition ReverseBytes64 (x : Z) : Z :=
  let m := 2 ^ 64 - 1 in
  let x := ((x >>. 8) &. (m3 &. m)) |. ((x &. (m3 &. m)) <<.[64] 8) in
  let x := ((x >>. 16) &. (m4 &. m)) |. ((x &. (m4 &. m)) <<.[64] 16) in
  (x >>. 32) |. (x <<.[64] 32).

Definition Reverse8 (x : Z) : Z := tab rev8tab x.

Definition Reverse16 (x : Z) : Z :=
  tab rev8tab (x >>. 8) |. (tab rev8tab (x &. 0xff) <<.[16] 8).

Definition Reverse32 (x : Z) : Z :=
  let m := 2 ^ 32 - 1 in
  let x := ((x >>. 1) &. (m0 &. m)) |. ((x &. (m0 &. m)) <<.[32] 1) in
  let x := ((x >>. 2) &. (m1 &. m)) |. ((x &. (m1 &. m)) <<.[32] 2) in
  let x := ((x >>. 4) &. (m2 &. m)) |. ((x &. (m2 &. m)) <<.[32] 4) in
  ReverseBytes32 x.

Definition Reverse64 (x : Z) : Z :=
  let m := 2 ^ 64 - 1 in
  let x := ((x >>. 1) &. (m0 &. m)) |. ((x &. (m0 &. m)) <<.[64] 1) in
  let x := ((x >>. 2) &. (m1 &. m)) |. ((x &. (m1 &. m)) <<.[64] 2) in
  let x := ((x >>. 4) &. (m2 &. m)) |. ((x &. (m2 &. m)) <<.[64] 4) in
  ReverseBytes64 x.

(** ** Add, Sub, Mul with carry *)

Definition Add32 (x y carry : Z) : Z * Z :=
  let sum64 := u64 (u64 (x + y) + carry) in (u32 sum64, u32 (sum64 >>. 32)).

Definition Add64 (x y carry : Z) : Z * Z :=
  let sum := u64 (u64 (x + y) + carry) in
  (sum, ((x &. y) |. ((x |. y) &^. sum)) >>. 63).

Definition Sub32 (x y borrow : Z) : Z * Z :=
  let diff := u32 (u32 (x - y) - borrow) in
  (diff, ((notw 32 x &. y) |. (notw 32 (x ^. y) &. diff)) >>. 31).

Definition Sub64 (x y borrow : Z) : Z * Z :=
  let diff := u64 (u64 (x - y) - borrow) in
  (diff, ((notw 64 x &. y) |. (notw 64 (x ^. y) &. diff)) >>. 63).

Definition Mul32 (x y : Z) : Z * Z :=
  let tmp := u64 (x * y) in (u32 (tmp >>. 32), u32 tmp).

Definition Mul64 (x y : Z) : Z * Z :=
  let mask32 := 2 ^ 32 - 1 in
  let x0 := x &. mask32 in
  let x1 := x >>. 32 in
  let y0 := y &. mask32 in
  let y1 := y >>. 32 in
  let w0 := u64 (x0 * y0) in
  let t := u64 (u64 (x1 * y0) + (w0 >>. 32)) in
  let w1 := t &. mask32 in
  let w2 := t >>. 32 in
  let w1 := u64 (w1 + u64 (x0 * y1)) in
  (u64 (u64 (u64 (x1 * y1) + w2) + (w1 >>. 32)), u64 (x * y)).

(** ** Div *)

(** [Div32] has no explicit zero test; the hardware division panics. *)
Definition Div32 (hi lo y : Z) : outcome (Z * Z) :=
  if negb (y =? 0) && (y <=? hi) then Panic OverflowError
  else
    let z := (hi <<.[64] 32) |. lo in
    if y =? 0 then Panic DivideError else Val (u32 (z / y), u32 (z mod y)).

(** The two digit-correction loops of [Div64]; [un] is the next dividend digit. *)
Fixpoint div64_correct (fuel : nat) (q rhat yn1 yn0 un : Z) : outcome Z :=
  if (2 ^ 32 <=? q) || (u64 (u64 (2 ^ 32 * rhat) + un) <? u64 (q * yn0)) then
    match fuel with
    | O => NoFuel
    | S fuel =>
        let q := u64 (q - 1) in
        let rhat := u64 (rhat + yn1) in
        if 2 ^ 32 <=? rhat then Val q else div64_correct fuel q rhat yn1 yn0 un
    end
  else Val q.

Definition Div64 (hi lo y : Z) : outcome (Z * Z) :=
  let two32 := 2 ^ 32 in
  let mask32 := two32 - 1 in
  if y =? 0 then Panic DivideError
  else if y <=? hi then Panic OverflowError
  else
    let s := LeadingZeros64 y in
    let y := y <<.[64] s in
    let yn1 := y >>. 32 in
    let yn0 := y &. mask32 in
    let un32 := (hi <<.[64] s) |. (lo >>. (64 - s)) in
    let un10 := lo <<.[64] s in
    let un1 := un10 >>. 32 in
    let un0 := un10 &. mask32 in
    let q1 := un32 / yn1 in
    let rhat := u64 (un32 - u64 (q1 * yn1)) in
    q1 ← div64_correct 2 q1 rhat yn1 yn0 un1;
    let un21 := u64 (u64 (u64 (un32 * two32) + un1) - u64 (q1 * y)) in
    let q0 := un21 / yn1 in
    let rhat := u64 (un21 - u64 (q0 * yn1)) in
    q0 ← div64_correct 2 q0 rhat yn1 yn0 un0;
    Val (u64 (u64 (q1 * two32) + q0),
         u64 (u64 (u64 (un21 * two32) + un0) - u64 (q0 * y)) >>. s).

(** ** The [uint] variants: [UintSize] is 32 or 64 *)

Section UintSized.
Variable UintSize : Z.


Definition Len (x : Z) : Z := if UintSize =? 32 then Len32 (u32 x) else Len64 (u64 x).
Definition LeadingZeros (x : Z) : Z := UintSize - Len x.
Definition TrailingZeros (x : Z) : Z :=
  if UintSize =? 32 then TrailingZeros32 (u32 x) else TrailingZeros64 (u64 x).
Definition OnesCount (x : Z) : Z :=
  if UintSize =? 32 then OnesCount32 (u32 x) else OnesCount64 (u64 x).
Definition RotateLeft (x k : Z) : Z :=
  if UintSize =? 32 then wrap UintSize (RotateLeft32 (u32 x) k)
  else wrap UintSize (RotateLeft64 (u64 x) k).
Definition Reverse (x : Z) : Z :=
  if UintSize =? 32 then wrap UintSize (Reverse32 (u32 x))
  else wrap UintSize (Reverse64 (u64 x)).
Definition ReverseBytes (x : Z) : Z :=
  if UintSize =? 32 then wrap UintSize (ReverseBytes32 (u32 x))
  else wrap UintSize (ReverseBytes64 (u64 x)).
Definition Add (x y carry : Z) : Z * Z :=
  if UintSize =? 32 then
    let '(s32, c32) := Add32 (u32 x) (u32 y) (u32 carry) in (wrap UintSize s32, wrap UintSize c32)
  else
    let '(s64, c64) := Add64 (u64 x) (u64 y) (u64 carry) in (wrap UintSize s64, wrap UintSize c64).
Definition Sub (x y borrow : Z) : Z * Z :=
  if UintSize =? 32 then
    let '(d32, b32) := Sub32 (u32 x) (u32 y) (u32 borrow) in (wrap UintSize d32, wrap UintSize b32)
  else
    let '(d64, b64) := Sub64 (u64 x) (u64 y) (u64 borrow) in (wrap UintSize d64, wrap UintSize b64).
Definition Mul (x y : Z) : Z * Z :=
  if UintSize =? 32 then
    let '(h, l) := Mul32 (u32 x) (u32 y) in (wrap UintSize h, wrap UintSize l)
  else
    let '(h, l) := Mul64 (u64 x) (u64 y) in (wrap UintSize h, wrap UintSize l).
Definition Div (hi lo y : Z) : outcome (Z * Z) :=
  if UintSize =? 32 then
    '(q, r) ← Div32 (u32 hi) (u32 lo) (u32 y); Val (wrap UintSize q, wrap UintSize r)
  else
    '(q, r) ← Div64 (u64 hi) (u64 lo) (u64 y); Val (wrap UintSize q, wrap UintSize r).
End UintSized.


(** ** Specifications *)

(** The number of significant bits of [x >= 0]. *)
Definition bitlen (x : Z) : Z := if x =? 0 then 0 else Z.log2 x + 1.

(** The number of one bits among the low [n] bits of [x]. *)
Fixpoint bitsum (n : nat) (x : Z) : Z :=
  match n with O => 0 | S n => x mod 2 + bitsum n (x / 2) end.

(** ** Len *)

Lemma bitlen_shift n x : 0 <= n -> 2 ^ n <= x -> bitlen x = n + bitlen (x >>. n).
Proof.
  intros Hn Hx. unfold bitlen. assert (0 < 2 ^ n) by (apply Z.pow_pos_nonneg; lia).
  assert (n <= Z.log2 x) by (apply Z.log2_le_pow2; lia).
  destruct (Z.eqb_spec x 0); [lia|].
  rewrite Z.log2_shiftr by lia.
  assert (0 < x >>. n) by (rewrite Z.shiftr_div_pow2 by lia; apply Z.div_str_pos; lia).
  destruct (Z.eqb_spec (x >>. n) 0); lia.
Qed.

Lemma len8tab_bitlen x : is_byte x -> tab len8tab x = bitlen x.
Proof.
  intros Hx. apply Z.eqb_eq, (check_byte (λ x, tab len8tab x =? bitlen x)); [|done].
  vm_compute. reflexivity.
Qed.

Lemma Len8_bitlen x : is_uint 8 x -> Len8 x = bitlen x.
Proof. apply len8tab_bitlen. Qed.

(** One halving step of the Len functions. *)
Lemma len_step h x (f : Z -> Z -> Z) n :
  0 <= h -> is_uint (h + h) x ->
  (forall y m, is_uint h y -> f y m = m + bitlen y) ->
  (let '(x', n') := if 2 ^ h <=? x then (x >>. h, n + h) else (x, n) in f x' n')
  = n + bitlen x.
Proof.
  intros Hh Hx Hf. unfold is_uint in Hx. destruct (Z.leb_spec (2 ^ h) x).
  - rewrite Hf.
    + rewrite (bitlen_shift h x) by lia. lia.
    + unfold is_uint. rewrite Z.pow_add_r in Hx by lia. rewrite Z.shiftr_div_pow2 by lia.
      assert (0 < 2 ^ h) by (apply Z.pow_pos_nonneg; lia).
      split; [apply Z.div_pos; lia|apply Z.div_lt_upper_bound; lia].
  - apply Hf. unfold is_uint. lia.
Qed.

Lemma len_last x n : is_uint 16 x ->
  (let '(x, n) := if 2 ^ 8 <=? x then (x >>. 8, n + 8) else (x, n) in n + tab len8tab x)
  = n + bitlen x.
Proof.
  intros Hx. apply (len_step 8 x (λ x n, n + tab len8tab x)); [lia|done|].
  intros y m Hy. by rewrite len8tab_bitlen.
Qed.

Lemma len_last2 x n : is_uint 32 x ->
  (let '(x, n) := if 2 ^ 16 <=? x then (x >>. 16, n + 16) else (x, n) in
   let '(x, n) := if 2 ^ 8 <=? x then (x >>. 8, n + 8) else (x, n) in n + tab len8tab x)
  = n + bitlen x.
Proof.
  intros Hx. apply (len_step 16 x (λ x n,
    let '(x, n) := if 2 ^ 8 <=? x then (x >>. 8, n + 8) else (x, n) in n + tab len8tab x));
    [lia|done|].
  intros y m Hy. by apply len_last.
Qed.

Lemma Len16_bitlen x : is_uint 16 x -> Len16 x = bitlen x.
Proof. intros Hx. exact (len_last x 0 Hx). Qed.

Lemma Len32_bitlen x : is_uint 32 x -> Len32 x = bitlen x.
Proof. intros Hx. exact (len_last2 x 0 Hx). Qed.

Lemma Len64_bitlen x : is_uint 64 x -> Len64 x = bitlen x.
Proof.
  intros Hx. unfold Len64.
  change (bitlen x) with (0 + bitlen x).
  apply (len_step 32 x (λ x n,
   let '(x, n) := if 2 ^ 16 <=? x then (x >>. 16, n + 16) else (x, n) in
   let '(x, n) := if 2 ^ 8 <=? x then (x >>. 8, n + 8) else (x, n) in n + tab len8tab x) 0);
    [lia|done|].
  intros y m Hy. by apply len_last2.
Qed.

Lemma bitlen_spec x : 0 <= x ->
  x < 2 ^ bitlen x /\ forall n, 0 <= n -> x < 2 ^ n -> bitlen x <= n.
Proof.
  intros Hx. unfold bitlen. destruct (Z.eqb_spec x 0) as [->|Hne].
  - split; [done|lia].
  - pose proof (Z.log2_spec x ltac:(lia)) as [_ H]. split; [exact H|].
    intros n Hn Hlt. assert (Z.log2 x < n) by (apply Z.log2_lt_pow2; lia). lia.
Qed.

Lemma bitlen_range w x : 0 <= w -> is_uint w x -> 0 <= bitlen x <= w.
Proof.
  intros Hw [H0 H1]. split.
  - unfold bitlen. destruct (x =? 0); [lia|]. pose proof (Z.log2_nonneg x). lia.
  - by apply bitlen_spec.
Qed.

(** The sized variants with their width. *)
Definition Len_family : list (Z * (Z -> Z) * (Z -> Z)) :=
  [(8, Len8, LeadingZeros8); (16, Len16, LeadingZeros16);
   (32, Len32, LeadingZeros32); (64, Len64, LeadingZeros64);
   (32, Len 32, LeadingZeros 32); (64, Len 64, LeadingZeros 64)].

Lemma Len_family_bitlen w len lz x :
  (w, len, lz) ∈ Len_family -> is_uint w x ->
  0 <= w /\ len x = bitlen x /\ lz x = w - bitlen x.
Proof.
  intros H Hx. unfold Len_family in H.
  repeat (apply elem_of_cons in H as [[= -> -> ->]|H]);
    [| | | | | |by apply not_elem_of_nil in H]; (split; [lia|]).
  - unfold LeadingZeros8. rewrite Len8_bitlen by done. done.
  - unfold LeadingZeros16. rewrite Len16_bitlen by done. done.
  - unfold LeadingZeros32. rewrite Len32_bitlen by done. done.
  - unfold LeadingZeros64. rewrite Len64_bitlen by done. done.
  - unfold LeadingZeros, Len. cbn [Z.eqb Pos.eqb]. rewrite wrap_small, Len32_bitlen by done. done.
  - unfold LeadingZeros, Len. cbn [Z.eqb Pos.eqb]. rewrite wrap_small, Len64_bitlen by done. done.
Qed.

(** ** TrailingZeros *)

Lemma odd_part x : 0 < x -> exists k m, 0 <= k /\ 0 <= m /\ x = 2 ^ k * (2 * m + 1).
Proof.
  intros Hx. destruct x as [|p|p]; [lia| |lia]. clear Hx.
  induction p as [p _|p [k [m (Hk & Hm & E)]]|].
  - exists 0, (Z.pos p). lia.
  - exists (k + 1), m. split_and!; [lia|done|]. rewrite Z.pow_add_r by lia. lia.
  - exists 0, 0. lia.
Qed.

Lemma lowest_bit w x : 0 < w -> 0 < x < 2 ^ w ->
  exists k, 0 <= k < w /\ Z.testbit x k = true /\ (forall i, 0 <= i < k -> Z.testbit x i = false)
    /\ x &. wrap w (- x) = 2 ^ k.
Proof.
  intros Hw Hx. destruct (odd_part x) as (k & m & Hk & Hm & E); [lia|].
  assert (Hkw : k < w).
  { apply (Z.pow_lt_mono_r_iff 2); [lia|lia|]. nia. }
  assert (Hb : forall i, 0 <= i -> Z.testbit x i = if i <? k then false else Z.testbit (2 * m + 1) (i - k)).
  { intros i Hi. replace x with (0 + 2 ^ k * (2 * m + 1)) by lia.
    rewrite testbit_cat by (try word; lia). by rewrite Z.testbit_0_l. }
  assert (Hb1 : forall i, 0 <= i -> Z.testbit (x - 1) i
     = if i <? k then true else Z.testbit (2 * m) (i - k)).
  { intros i Hi. replace (x - 1) with (Z.ones k + 2 ^ k * (2 * m)) by (rewrite Z.ones_equiv; lia).
    rewrite testbit_cat by (try done; unfold is_uint; rewrite Z.ones_equiv; nia).
    destruct (Z.ltb_spec i k); [|done]. by rewrite Z.ones_spec_low by lia. }
  exists k. split_and!; [done|done| | |].
  - rewrite Hb, Z.ltb_irrefl, Z.sub_diag by lia. apply Z.testbit_odd_0.
  - intros i Hi. rewrite Hb by lia. destruct (Z.ltb_spec i k); [done|lia].
  - apply Z.bits_inj'. intros i Hi.
    rewrite Z.land_spec, testbit_wrap, Z.pow2_bits_eqb by lia.
    replace (- x) with (Z.lnot (x - 1)) by (unfold Z.lnot; lia).
    rewrite Z.lnot_spec, Hb, Hb1 by lia.
    destruct (Z.ltb_spec i k), (Z.eqb_spec k i); try lia; simpl.
    + subst i. rewrite Z.sub_diag, Z.testbit_odd_0, Z.testbit_even_0.
      destruct (Z.ltb_spec k w); [done|lia].
    + replace (i - k) with (Z.succ (i - k - 1)) by lia.
      rewrite Z.testbit_odd_succ, Z.testbit_even_succ by lia.
      destruct (Z.testbit m _); simpl; [apply andb_false_r|done].
Qed.

Lemma deBruijn32_lookup k : 0 <= k < 32 ->
  tab deBruijn32tab (u32 (2 ^ k * deBruijn32) >>. (32 - 5)) = k.
Proof.
  intros Hk. apply Z.eqb_eq, (check_range_spec 0 32
    (λ k, tab deBruijn32tab (u32 (2 ^ k * deBruijn32) >>. (32 - 5)) =? k)); [|lia].
  vm_compute. reflexivity.
Qed.

Lemma deBruijn64_lookup k : 0 <= k < 64 ->
  tab deBruijn64tab (u64 (2 ^ k * deBruijn64) >>. (64 - 6)) = k.
Proof.
  intros Hk. apply Z.eqb_eq, (check_range_spec 0 64
    (λ k, tab deBruijn64tab (u64 (2 ^ k * deBruijn64) >>. (64 - 6)) =? k)); [|lia].
  vm_compute. reflexivity.
Qed.

(** [n] is the position of the lowest one bit of [x], or the width [w] when [x] is 0. *)
Definition lowest (w x n : Z) : Prop :=
  if x =? 0 then n = w
  else 0 <= n < w /\ Z.testbit x n = true /\ forall i, 0 <= i < n -> Z.testbit x i = false.

Definition lowestb (x n : Z) : bool :=
  if x =? 0 then n =? 8
  else (0 <=? n) && (n <? 8) && Z.testbit x n
    && forallb (λ i, (n <=? i) || negb (Z.testbit x i)) (seqZ 0 8).

Lemma TrailingZeros8_lowest x : is_uint 8 x -> lowest 8 x (TrailingZeros8 x).
Proof.
  intros Hx. assert (Hb : lowestb x (TrailingZeros8 x) = true).
  { apply (check_byte (λ x, lowestb x (TrailingZeros8 x))); [|done]. vm_compute. reflexivity. }
  unfold lowestb, lowest in *. destruct (x =? 0); [lia|].
  apply andb_prop in Hb as [Hb Hall]. split_and!; [lia|lia|by destruct (Z.testbit _ _); lia|].
  rewrite List.forallb_forall in Hall. intros i Hi.
  specialize (Hall i). rewrite <- list_elem_of_In, elem_of_seqZ in Hall.
  destruct (Z.testbit x i); [|done]. specialize (Hall ltac:(lia)). simpl in Hall. lia.
Qed.

Lemma TrailingZeros_debruijn w x t :
  0 < w -> is_uint w x -> (forall k, 0 <= k < w -> t (2 ^ k) = k) ->
  lowest w x (if x =? 0 then w else t (x &. wrap w (- x))).
Proof.
  intros Hw Hx Ht. unfold lowest. destruct (Z.eqb_spec x 0); [done|].
  destruct (lowest_bit w x) as (k & Hk & H1 & H0 & ->); [lia|unfold is_uint in Hx; lia|].
  rewrite Ht by done. auto.
Qed.

Definition TrailingZeros_family : list (Z * (Z -> Z)) :=
  [(8, TrailingZeros8); (16, TrailingZeros16); (32, TrailingZeros32); (64, TrailingZeros64);
   (32, TrailingZeros 32); (64, TrailingZeros 64)].

Lemma TrailingZeros32_lowest x : is_uint 32 x -> lowest 32 x (TrailingZeros32 x).
Proof.
  intros Hx.
  apply (TrailingZeros_debruijn 32 x (λ y, tab deBruijn32tab (u32 (y * deBruijn32) >>. (32 - 5))));
    [lia|done|]. apply deBruijn32_lookup.
Qed.

Lemma TrailingZeros64_lowest x : is_uint 64 x -> lowest 64 x (TrailingZeros64 x).
Proof.
  intros Hx.
  apply (TrailingZeros_debruijn 64 x (λ y, tab deBruijn64tab (u64 (y * deBruijn64) >>. (64 - 6))));
    [lia|done|]. apply deBruijn64_lookup.
Qed.

Lemma TrailingZeros_family_lowest w f x :
  (w, f) ∈ TrailingZeros_family -> is_uint w x -> lowest w x (f x).
Proof.
  intros H Hx. unfold TrailingZeros_family in H.
  repeat (apply elem_of_cons in H as [[= -> ->]|H]);
    [| | | | | |by apply not_elem_of_nil in H].
  - by apply TrailingZeros8_lowest.
  - apply (TrailingZeros_debruijn 16 x (λ y, tab deBruijn32tab (u32 (y * deBruijn32) >>. (32 - 5))));
      [lia|done|]. intros k Hk. apply deBruijn32_lookup. lia.
  - by apply TrailingZeros32_lowest.
  - by apply TrailingZeros64_lowest.
  - unfold TrailingZeros. cbn [Z.eqb Pos.eqb]. rewrite wrap_small by done. by apply TrailingZeros32_lowest.
  - unfold TrailingZeros. cbn [Z.eqb Pos.eqb]. rewrite wrap_small by done. by apply TrailingZeros64_lowest.
Qed.

(** ** OnesCount *)

Lemma bitsum_app m n x : bitsum (m + n) x = bitsum m x + bitsum n (x / 2 ^ Z.of_nat m).
Proof.
  revert x. induction m as [|m IH]; intros x; cbn [bitsum Nat.add].
  - by rewrite Z.div_1_r.
  - rewrite IH, Z.div_div, <- (Z.pow_succ_r 2 (Z.of_nat m)), Nat2Z.inj_succ by lia. lia.
Qed.

Lemma bitsum_mod n k x : Z.of_nat n <= k -> bitsum n (x mod 2 ^ k) = bitsum n x.
Proof.
  revert k x. induction n as [|n IH]; intros k x Hk; cbn [bitsum]; [done|].
  replace k with (1 + (k - 1)) by lia.
  assert (0 < 2 ^ (k - 1)) by (apply Z.pow_pos_nonneg; lia).
  rewrite Z.pow_add_r, Z.rem_mul_r by lia. change (2 ^ 1) with 2.
  rewrite <- (IH (k - 1) (x / 2)) by lia. set (r := (x / 2) mod 2 ^ (k - 1)).
  replace ((x mod 2 + 2 * r) / 2) with r by dlia. dlia.
Qed.

Lemma bitsum_from_le ds : Forall is_byte ds ->
  bitsum (8 * length ds) (from_le 8 ds) = foldr Z.add 0 (map (bitsum 8) ds).
Proof.
  induction 1 as [|d ds Hd _ IH]; [done|].
  replace (8 * length (d :: ds))%nat with (8 + 8 * length ds)%nat by (simpl; lia).
  rewrite bitsum_app. change (2 ^ Z.of_nat 8) with (2 ^ 8).
  rewrite from_le_cons_div, IH by (done || lia). cbn [map foldr]. f_equal.
  rewrite <- (bitsum_mod 8 8), from_le_cons_mod by (done || lia). done.
Qed.

Lemma pop8tab_bitsum x : is_byte x -> tab pop8tab x = bitsum 8 x.
Proof.
  intros Hx. apply Z.eqb_eq, (check_byte (λ x, tab pop8tab x =? bitsum 8 x)); [|done].
  vm_compute. reflexivity.
Qed.

Lemma bitsum_range n x : 0 <= bitsum n x <= Z.of_nat n.
Proof.
  revert x. induction n as [|n IH]; intros x; cbn [bitsum]; [lia|].
  specialize (IH (x / 2)). pose proof (Z.mod_pos_bound x 2). lia.
Qed.

Lemma masked_sum_cat s m d x M :
  0 <= s <= 8 -> is_byte d -> is_uint (8 - s) m ->
  (((d + 2 ^ 8 * x) >>. s) &. (m + 2 ^ 8 * M)) + ((d + 2 ^ 8 * x) &. (m + 2 ^ 8 * M))
  = (((d >>. s) &. m) + (d &. m)) + 2 ^ 8 * (((x >>. s) &. M) + (x &. M)).
Proof.
  intros Hs Hd Hm. assert (is_byte m) by (apply (is_uint_mono (8 - s)); [lia|done]).
  rewrite shiftr_land_cat, land_cat by (done || lia). ring.
Qed.

(** The pairwise sum on one byte. *)
Definition pop_step (s m d : Z) : Z := ((d >>. s) &. m) + (d &. m).

(** A masked pairwise sum acts byte by byte. *)
Lemma masked_sum_bytes s m ds :
  0 <= s <= 8 -> is_uint (8 - s) m -> Forall is_byte ds ->
  let x := from_le 8 ds in
  let M := from_le 8 (replicate (length ds) m) in
  ((x >>. s) &. M) + (x &. M) = from_le 8 (map (pop_step s m) ds).
Proof.
  intros Hs Hm. cbv zeta. induction 1 as [|d ds Hd _ IH].
  - by rewrite Z.land_0_r.
  - cbn [from_le length replicate map]. rewrite masked_sum_cat by done. rewrite IH. done.
Qed.

Definition pop_step3 (d : Z) : Z := d mod 16 + d / 16.

Definition nibble_small (d : Z) : Prop := 0 <= d /\ d mod 16 <= 4 /\ d / 16 <= 4.

(** The third step adds before it masks; no nibble sum exceeds 8. *)
Lemma nibble_sum_bytes ds : Forall nibble_small ds ->
  let x := from_le 8 ds in
  ((x >>. 4) + x) &. from_le 8 (replicate (length ds) 15)
  = from_le 8 (map pop_step3 ds)
  /\ x mod 16 <= 4.
Proof.
  cbv zeta. induction 1 as [|d ds (Hd0 & Hd1 & Hd2) _ [IH Hlow]]; [by split|].
  cbn [from_le length replicate map]. set (Y := from_le 8 ds) in *.
  assert (E : ((d + 2 ^ 8 * Y) >>. 4) + (d + 2 ^ 8 * Y)
          = (d / 16 + d + 16 * (Y mod 16)) + 2 ^ 8 * ((Y >>. 4) + Y)).
  { rewrite !Z.shiftr_div_pow2 by lia. change (2 ^ 4) with 16. dlia. }
  rewrite E, land_cat by (unfold is_uint; dlia). rewrite IH. split; [|dlia]. f_equal. unfold pop_step3.
  change 15 with (Z.ones 4). rewrite Z.land_ones by lia. change (2 ^ 4) with 16. dlia.
Qed.

Lemma from_le_shiftr k ds : Forall is_byte ds ->
  from_le 8 ds >>. (8 * Z.of_nat k) = from_le 8 (drop k ds).
Proof.
  revert ds. induction k as [|k IH]; intros ds Hds.
  - by rewrite Z.mul_0_r, Z.shiftr_0_r.
  - destruct Hds as [|d ds Hd Hds]; [by rewrite Z.shiftr_0_l|].
    replace (8 * Z.of_nat (S k)) with (8 + 8 * Z.of_nat k) by lia.
    rewrite <- Z.shiftr_shiftr, (Z.shiftr_div_pow2 _ 8), from_le_cons_div by (done || lia).
    by apply IH.
Qed.

(** Adding the digits to themselves shifted by [k] digits, without overflow. *)
Lemma add_shifted k c c' : length c' = 8%nat -> Forall is_byte c -> Forall is_byte c' ->
  from_le 8 c + from_le 8 (drop k c) = from_le 8 c' ->
  u64 (from_le 8 c + (from_le 8 c >>. (8 * Z.of_nat k))) = from_le 8 c'.
Proof.
  intros Hl Hc Hc' E. rewrite from_le_shiftr by done. rewrite E. apply wrap_small.
  pose proof (from_le_bound 8 c' ltac:(lia) Hc') as H. by rewrite Hl in H.
Qed.

Lemma byte_sum8 c : Forall (λ c, 0 <= c <= 8) c -> length c = 8%nat ->
  let x := from_le 8 c in
  let x := u64 (x + (x >>. 8)) in
  let x := u64 (x + (x >>. 16)) in
  let x := u64 (x + (x >>. 32)) in
  x &. (2 ^ 7 - 1) = foldr Z.add 0 c.
Proof.
  intros Hc Hl.
  do 8 (destruct c as [|?c c]; [discriminate Hl|]). destruct c; [|discriminate Hl].
  repeat (apply Forall_cons in Hc as [? Hc]). clear Hc Hl. cbn beta in *. cbv zeta.
  rewrite (add_shifted 1 _ [c0 + c1; c1 + c2; c2 + c3; c3 + c4; c4 + c5; c5 + c6; c6 + c7; c7]),
    (add_shifted 2 _ [c0 + c1 + c2 + c3; c1 + c2 + c3 + c4; c2 + c3 + c4 + c5; c3 + c4 + c5 + c6;
       c4 + c5 + c6 + c7; c5 + c6 + c7; c6 + c7; c7]),
    (add_shifted 4 _ [c0 + c1 + c2 + c3 + (c4 + c5 + c6 + c7); c1 + c2 + c3 + c4 + (c5 + c6 + c7);
       c2 + c3 + c4 + c5 + (c6 + c7); c3 + c4 + c5 + c6 + c7; c4 + c5 + c6 + c7; c5 + c6 + c7;
       c6 + c7; c7]);
    try done; try (repeat constructor; unfold is_uint; lia); try (cbn [from_le drop]; ring).
  cbn [from_le foldr]. change (2 ^ 7 - 1) with (Z.ones 7). rewrite Z.land_ones by lia.
  change (2 ^ 7) with 128. dlia.
Qed.

Lemma Forall_map_byte (P : Z -> Prop) (f : Z -> Z) ds (chk : Z -> bool) :
  check_range 0 256 chk = true -> (forall d, chk d = true -> P (f d)) ->
  Forall is_byte ds -> Forall P (map f ds).
Proof.
  intros Hc Hf. induction 1 as [|d ds Hd _ IH]; constructor; [|done].
  apply Hf, (check_byte chk); done.
Qed.

Abbreviation pop_step1 := (pop_step 1 0x55).
Abbreviation pop_step2 := (pop_step 2 0x33).

Lemma pop_step1_bytes ds : Forall is_byte ds -> Forall is_byte (map pop_step1 ds).
Proof.
  apply (Forall_map_byte _ _ _ (λ d, bool_decide (is_byte (pop_step1 d)))); [by vm_compute|].
  intros d Hd. by apply bool_decide_eq_true_1 in Hd.
Qed.

Lemma pop_step2_nibbles ds :
  Forall is_byte ds -> Forall nibble_small (map pop_step2 (map pop_step1 ds)).
Proof.
  rewrite map_map. apply (Forall_map_byte _ _ _ (λ d, let e := pop_step2 (pop_step1 d) in
      (0 <=? e) && (e mod 16 <=? 4) && (e / 16 <=? 4))); [by vm_compute|].
  intros d Hd. unfold nibble_small. cbv zeta in Hd. lia.
Qed.

Lemma nibble_small_byte d : nibble_small d -> is_byte d.
Proof. intros (? & ? & ?). unfold is_uint. dlia. Qed.

Lemma OnesCount64_bytes ds : length ds = 8%nat -> Forall is_byte ds ->
  OnesCount64 (from_le 8 ds)
  = foldr Z.add 0 (map pop_step3 (map pop_step2 (map pop_step1 ds))).
Proof.
  intros Hl Hds. unfold OnesCount64.
  assert (Hb : forall l, length l = 8%nat -> Forall is_byte l -> u64 (from_le 8 l) = from_le 8 l).
  { intros l Hl' Hl''. apply wrap_small. pose proof (from_le_bound 8 l ltac:(lia) Hl'') as H.
    by rewrite Hl' in H. }
  pose proof (pop_step1_bytes ds Hds) as Hd1. pose proof (pop_step2_nibbles ds Hds) as Hn2.
  assert (Hd2 : Forall is_byte (map pop_step2 (map pop_step1 ds)))
    by (apply (Forall_impl _ _ _ Hn2), nibble_small_byte).
  pose proof (masked_sum_bytes 1 0x55 ds ltac:(lia) ltac:(unfold is_uint; lia) Hds) as S1.
  pose proof (masked_sum_bytes 2 0x33 _ ltac:(lia) ltac:(unfold is_uint; lia) Hd1) as S2.
  pose proof (nibble_sum_bytes _ Hn2) as [S3 _].
  cbv zeta in S1, S2. rewrite Hl in S1. rewrite length_map, Hl in S2. rewrite !length_map, Hl in S3.
  change (from_le 8 (replicate 8 0x55)) with (m0 &. (2 ^ 64 - 1)) in S1.
  change (from_le 8 (replicate 8 0x33)) with (m1 &. (2 ^ 64 - 1)) in S2.
  change (from_le 8 (replicate 8 15)) with (m2 &. (2 ^ 64 - 1)) in S3.
  cbv zeta. rewrite S1. rewrite Hb by (by rewrite ?length_map).
  rewrite S2. rewrite Hb by (by rewrite ?length_map).
  rewrite (wrap_land 64 _ (m2 &. (2 ^ 64 - 1))), S3 by (lia || by vm_compute).
  apply byte_sum8; [|by rewrite !length_map].
  apply Forall_map, (Forall_impl _ _ _ Hn2). intros d (? & ? & ?). unfold pop_step3. cbn. dlia.
Qed.

Lemma pop_steps x : is_byte x -> pop_step3 (pop_step2 (pop_step1 x)) = bitsum 8 x.
Proof.
  intros Hx. apply Z.eqb_eq,
    (check_byte (λ x, pop_step3 (pop_step2 (pop_step1 x)) =? bitsum 8 x)); [by vm_compute|done].
Qed.

Lemma OnesCount64_bitsum x : is_uint 64 x -> OnesCount64 x = bitsum 64 x.
Proof.
  intros Hx. rewrite <- (wrap_small 64 x) by done. unfold wrap.
  replace 64 with (8 * Z.of_nat 8) by done. rewrite <- from_to_le by lia.
  assert (Hb : Forall is_byte (to_le 8 8 x)) by (apply to_le_uint; lia).
  rewrite OnesCount64_bytes by (done || apply length_to_le).
  pose proof (bitsum_from_le _ Hb) as E. rewrite length_to_le in E.
  change (8 * 8)%nat with 64%nat in E. rewrite E. f_equal. rewrite !map_map. apply map_ext_Forall.
  apply (Forall_impl _ _ _ Hb). intros d. apply pop_steps.
Qed.

Lemma OnesCount32_bitsum x : is_uint 32 x -> OnesCount32 x = bitsum 32 x.
Proof.
  intros Hx. unfold OnesCount32. change 0xff with (Z.ones 8).
  rewrite !Z.land_ones, !Z.shiftr_div_pow2 by lia.
  assert (is_byte (x / 2 ^ 24)) by (unfold is_uint in *; dlia).
  rewrite !pop8tab_bitsum by (done || (apply wrap_is_uint; lia)).
  rewrite !bitsum_mod by lia.
  rewrite wrap_small; [|pose proof (bitsum_range 8); unfold is_uint].
  - rewrite (bitsum_app 8 24), (bitsum_app 8 16), (bitsum_app 8 8).
    change (2 ^ Z.of_nat 8) with (2 ^ 8). rewrite !Z.div_div by lia.
    change (2 ^ 8 * 2 ^ 8) with (2 ^ 16). change (2 ^ 16 * 2 ^ 8) with (2 ^ 24).
    lia.
  - pose proof (bitsum_range 8 (x / 2 ^ 24)). pose proof (bitsum_range 8 (x / 2 ^ 16)).
    pose proof (bitsum_range 8 (x / 2 ^ 8)). pose proof (bitsum_range 8 x). lia.
Qed.

Lemma OnesCount16_bitsum x : is_uint 16 x -> OnesCount16 x = bitsum 16 x.
Proof.
  intros Hx. unfold OnesCount16. change 0xff with (Z.ones 8).
  rewrite !Z.land_ones, !Z.shiftr_div_pow2 by lia.
  assert (is_byte (x / 2 ^ 8)) by (unfold is_uint in *; dlia).
  rewrite !pop8tab_bitsum by (done || (apply wrap_is_uint; lia)).
  rewrite !bitsum_mod by lia.
  pose proof (bitsum_range 8 (x / 2 ^ 8)). pose proof (bitsum_range 8 x).
  rewrite wrap_small by (unfold is_uint; lia).
  rewrite (bitsum_app 8 8). change (2 ^ Z.of_nat 8) with (2 ^ 8). lia.
Qed.

Definition OnesCount_family : list (nat * (Z -> Z)) :=
  [(8%nat, OnesCount8); (16%nat, OnesCount16); (32%nat, OnesCount32); (64%nat, OnesCount64);
   (32%nat, OnesCount 32); (64%nat, OnesCount 64)].

Lemma OnesCount_family_bitsum w f x :
  (w, f) ∈ OnesCount_family -> is_uint (Z.of_nat w) x -> f x = bitsum w x.
Proof.
  intros H Hx. unfold OnesCount_family in H.
  repeat (apply elem_of_cons in H as [[= -> ->]|H]);
    [| | | | | |by apply not_elem_of_nil in H].
  - by apply pop8tab_bitsum.
  - by apply OnesCount16_bitsum.
  - by apply OnesCount32_bitsum.
  - by apply OnesCount64_bitsum.
  - unfold OnesCount. cbn [Z.eqb Pos.eqb]. rewrite wrap_small by done. by apply OnesCount32_bitsum.
  - unfold OnesCount. cbn [Z.eqb Pos.eqb]. rewrite wrap_small by done. by apply OnesCount64_bitsum.
Qed.

(** ** RotateLeft *)

Lemma rotate_bits w x s i : 0 <= s < w -> is_uint w x -> 0 <= i < w ->
  Z.testbit ((x <<.[w] s) |. (x >>. (w - s))) i = Z.testbit x ((i - s) mod w).
Proof.
  intros Hs Hx Hi. unfold shl.
  rewrite Z.lor_spec, testbit_wrap, Z.shiftl_spec, Z.shiftr_spec by lia.
  destruct (Z.ltb_spec i w); [|lia]. cbn [andb]. destruct (Z.lt_ge_cases i s).
  - rewrite Z.testbit_neg_r by lia. cbn [orb]. f_equal.
    apply (Z.mod_unique _ _ (-1)); lia.
  - rewrite (testbit_high w x (i + _)), orb_false_r by (done || lia).
    by rewrite Z.mod_small by lia.
Qed.

Lemma rotate_amount k j : 0 <= j <= 64 -> u64 k &. (2 ^ j - 1) = k mod 2 ^ j.
Proof.
  intros Hj. replace (2 ^ j - 1) with (Z.ones j) by (rewrite Z.ones_equiv; lia).
  rewrite wrap_land, Z.land_ones; [done|lia|lia|].
  unfold is_uint. rewrite Z.ones_equiv. pose proof (Z.pow_le_mono_r 2 j 64).
  assert (0 < 2 ^ j) by (apply Z.pow_pos_nonneg; lia). lia.
Qed.

Definition RotateLeft_family : list (Z * (Z -> Z -> Z)) :=
  [(8, RotateLeft8); (16, RotateLeft16); (32, RotateLeft32); (64, RotateLeft64);
   (32, RotateLeft 32); (64, RotateLeft 64)].

Lemma rotate_uint w x k : 0 < w -> is_uint w x ->
  is_uint w ((x <<.[w] (k mod w)) |. (x >>. (w - k mod w))).
Proof.
  intros Hw Hx. pose proof (Z.mod_pos_bound k w Hw).
  apply lor_is_uint; [lia|apply shl_is_uint; lia|apply shiftr_is_uint; (lia || done)].
Qed.

Lemma RotateLeft32_eq x k :
  RotateLeft32 x k = (x <<.[32] (k mod 32)) |. (x >>. (32 - k mod 32)).
Proof. unfold RotateLeft32. change 31 with (2 ^ 5 - 1). by rewrite (rotate_amount k 5) by lia. Qed.

Lemma RotateLeft64_eq x k :
  RotateLeft64 x k = (x <<.[64] (k mod 64)) |. (x >>. (64 - k mod 64)).
Proof. unfold RotateLeft64. change 63 with (2 ^ 6 - 1). by rewrite (rotate_amount k 6) by lia. Qed.

Lemma RotateLeft_family_eq w f x k : (w, f) ∈ RotateLeft_family -> is_uint w x ->
  0 < w /\ f x k = (x <<.[w] (k mod w)) |. (x >>. (w - k mod w)).
Proof.
  intros H Hx. unfold RotateLeft_family in H.
  repeat (apply elem_of_cons in H as [[= -> ->]|H]);
    [| | | | | |by apply not_elem_of_nil in H]; (split; [lia|]).
  - unfold RotateLeft8. change 7 with (2 ^ 3 - 1). by rewrite (rotate_amount k 3) by lia.
  - unfold RotateLeft16. change 15 with (2 ^ 4 - 1). by rewrite (rotate_amount k 4) by lia.
  - apply RotateLeft32_eq.
  - apply RotateLeft64_eq.
  - unfold RotateLeft. cbn [Z.eqb Pos.eqb]. rewrite (wrap_small 32 x), RotateLeft32_eq by done.
    by apply wrap_small, rotate_uint.
  - unfold RotateLeft. cbn [Z.eqb Pos.eqb]. rewrite (wrap_small 64 x), RotateLeft64_eq by done.
    by apply wrap_small, rotate_uint.
Qed.

Lemma RotateLeft_family_uint w f x k :
  (w, f) ∈ RotateLeft_family -> is_uint w x -> is_uint w (f x k).
Proof.
  intros Hf Hx. destruct (RotateLeft_family_eq w f x k Hf Hx) as [Hw ->]. by apply rotate_uint.
Qed.

Lemma RotateLeft_family_bits w f x k i :
  (w, f) ∈ RotateLeft_family -> is_uint w x -> 0 <= i < w ->
  Z.testbit (f x k) i = Z.testbit x ((i - k) mod w).
Proof.
  intros Hf Hx Hi. destruct (RotateLeft_family_eq w f x k Hf Hx) as [Hw ->].
  pose proof (Z.mod_pos_bound k w Hw). rewrite rotate_bits by done.
  by rewrite Zminus_mod_idemp_r.
Qed.

(** ** Reverse and ReverseBytes *)

Definition swap (w s M x : Z) : Z := ((x >>. s) &. M) |. ((x &. M) <<.[w] s).

Definition swap_mask_ok (s M i : Z) : bool :=
  if Z.testbit M i then (Z.lxor i s =? i + s) && ((i <? s) || negb (Z.testbit M (i - s)))
  else (Z.lxor i s =? i - s) && (s <=? i) && Z.testbit M (i - s).

(** Exchanging the bits under a mask with their neighbours at distance [s] flips
    bit [log2 s] of every bit index. *)
Lemma swap_bits w s M x i :
  0 <= s -> swap_mask_ok s M i = true -> 0 <= i < w ->
  Z.testbit (swap w s M x) i = Z.testbit x (Z.lxor i s).
Proof.
  intros Hs Hm Hi. unfold swap, shl, swap_mask_ok in *.
  rewrite Z.lor_spec, Z.land_spec, testbit_wrap, Z.shiftl_spec, Z.shiftr_spec, Z.land_spec by lia.
  destruct (Z.ltb_spec i w); [|lia]. cbn [andb].
  destruct (Z.testbit M i).
  - apply andb_prop in Hm as [E Hm]. apply Z.eqb_eq in E. rewrite E, andb_true_r.
    destruct (Z.ltb_spec i s); simpl in Hm.
    + rewrite (Z.testbit_neg_r x (i - s)) by lia. by rewrite orb_false_r.
    + apply negb_true_iff in Hm. by rewrite Hm, andb_false_r, orb_false_r.
  - apply andb_prop in Hm as [Hm Hb]. apply andb_prop in Hm as [E _].
    apply Z.eqb_eq in E. by rewrite E, Hb, andb_true_r, andb_false_r.
Qed.

Lemma swap_half_bits w h x i :
  0 < h -> w = h + h -> is_uint w x -> 0 <= i < w ->
  Z.testbit ((x >>. h) |. (x <<.[w] h)) i = Z.testbit x (if i <? h then i + h else i - h).
Proof.
  intros Hh -> Hx Hi. unfold shl. rewrite Z.lor_spec, testbit_wrap, Z.shiftl_spec, Z.shiftr_spec by lia.
  destruct (Z.ltb_spec i (h + h)); [|lia]. cbn [andb]. destruct (Z.ltb_spec i h).
  - by rewrite (Z.testbit_neg_r x (i - h)), orb_false_r by lia.
  - by rewrite (testbit_high (h + h) x (i + h)) by (done || lia).
Qed.

Lemma swap_is_uint w s M x : 0 <= w -> is_uint w M -> is_uint w (swap w s M x).
Proof.
  intros Hw HM. apply lor_is_uint; [done|by apply land_is_uint_r|by apply shl_is_uint].
Qed.

Lemma swap_half_uint w h x : 0 <= h <= w -> is_uint w x -> is_uint w ((x >>. h) |. (x <<.[w] h)).
Proof. intros Hw Hx. apply lor_is_uint; [lia|apply shiftr_is_uint; (lia || done)|apply shl_is_uint; lia]. Qed.

(** A chain of index flips equals [g] on all indices below [w]. *)
Lemma index_check w (f g : Z -> Z) i :
  0 <= w -> check_range 0 (Z.to_nat w) (λ i, f i =? g i) = true -> 0 <= i < w -> f i = g i.
Proof. intros Hw H Hi. apply Z.eqb_eq. apply (check_range_spec _ _ _ H). lia. Qed.

Lemma lxor_below j i s : 0 <= j -> 0 <= i < 2 ^ j -> 0 <= s < 2 ^ j -> 0 <= Z.lxor i s < 2 ^ j.
Proof. intros Hj Hi Hs. by apply lxor_is_uint. Qed.

Definition rb_index (w i : Z) : Z := 8 * (w / 8 - 1 - i / 8) + i mod 8.

(** Side conditions of the bit-index lemmas. *)
Ltac idx_side := first
  [ assumption | lia
  | apply swap_is_uint; [lia|unfold is_uint; split; vm_compute; congruence]
  | apply lxor_below; idx_side
  | vm_compute; reflexivity
  | match goal with |- context [?a <? ?b] => destruct (Z.ltb_spec a b); lia end ].

Lemma swap_bits_all j s M x i :
  0 <= j -> 0 <= s -> check_range 0 (Z.to_nat (2 ^ j)) (swap_mask_ok s M) = true ->
  0 <= i < 2 ^ j -> Z.testbit (swap (2 ^ j) s M x) i = Z.testbit x (Z.lxor i s).
Proof. intros Hj Hs Hc Hi. apply swap_bits; [done| |done]. apply (check_range_spec _ _ _ Hc). lia. Qed.

Lemma ReverseBytes16_bits x i : is_uint 16 x -> 0 <= i < 16 ->
  Z.testbit (ReverseBytes16 x) i = Z.testbit x (rb_index 16 i).
Proof.
  intros Hx Hi. unfold ReverseBytes16. rewrite (swap_half_bits 16 8) by (done || lia). f_equal.
  apply (index_check 16 (λ i, if i <? 8 then i + 8 else i - 8) (rb_index 16)); [lia|by vm_compute|lia].
Qed.

Lemma ReverseBytes32_bits x i : is_uint 32 x -> 0 <= i < 32 ->
  Z.testbit (ReverseBytes32 x) i = Z.testbit x (rb_index 32 i).
Proof.
  intros Hx Hi. unfold ReverseBytes32. cbv zeta.
  change (_ |. (_ <<.[32] 8)) with (swap (2 ^ 5) 8 (m3 &. (2 ^ 32 - 1)) x).
  rewrite (swap_half_bits 32 16) by idx_side.
  rewrite (swap_bits_all 5) by idx_side.
  f_equal. apply (index_check 32 (λ i, Z.lxor (if i <? 16 then i + 16 else i - 16) 8) (rb_index 32));
    [lia|by vm_compute|lia].
Qed.

Lemma ReverseBytes64_bits x i : is_uint 64 x -> 0 <= i < 64 ->
  Z.testbit (ReverseBytes64 x) i = Z.testbit x (rb_index 64 i).
Proof.
  intros Hx Hi. unfold ReverseBytes64. cbv zeta.
  change (_ |. (_ <<.[64] 8)) with (swap (2 ^ 6) 8 (m3 &. (2 ^ 64 - 1)) x).
  change (_ |. (_ <<.[64] 16)) with (swap (2 ^ 6) 16 (m4 &. (2 ^ 64 - 1)) (swap (2 ^ 6) 8 (m3 &. (2 ^ 64 - 1)) x)).
  rewrite (swap_half_bits 64 32) by idx_side.
  rewrite (swap_bits_all 6 16) by idx_side.
  rewrite (swap_bits_all 6 8) by idx_side.
  f_equal. apply (index_check 64 (λ i, Z.lxor (Z.lxor (if i <? 32 then i + 32 else i - 32) 16) 8) (rb_index 64));
    [lia|by vm_compute|lia].
Qed.

Lemma rb_index_range j i : 3 <= j <= 6 -> 0 <= i < 2 ^ j -> 0 <= rb_index (2 ^ j) i < 2 ^ j.
Proof.
  intros Hj Hi. unfold rb_index. assert (j = 3 \/ j = 4 \/ j = 5 \/ j = 6) as Hc by lia.
  destruct Hc as [->|[->|[->| ->]]]; vm_compute (2 ^ _) in *; dlia.
Qed.

Lemma rev8tab_bits x i : is_byte x -> 0 <= i < 8 ->
  Z.testbit (tab rev8tab x) i = Z.testbit x (7 - i).
Proof.
  intros Hx Hi.
  assert (Hc : check_range 0 8 (λ i, eqb (Z.testbit (tab rev8tab x) i) (Z.testbit x (7 - i))) = true).
  { apply (check_byte (λ x, check_range 0 8
      (λ i, eqb (Z.testbit (tab rev8tab x) i) (Z.testbit x (7 - i))))); [by vm_compute|done]. }
  apply eqb_prop. apply (check_range_spec _ _ _ Hc). lia.
Qed.

Lemma rev8tab_uint x : is_byte x -> is_byte (tab rev8tab x).
Proof.
  intros Hx. assert (H : (0 <=? tab rev8tab x) && (tab rev8tab x <? 256) = true).
  { apply (check_byte (λ x, (0 <=? tab rev8tab x) && (tab rev8tab x <? 256))); [by vm_compute|done]. }
  unfold is_uint. lia.
Qed.

Lemma Reverse16_bits x i : is_uint 16 x -> 0 <= i < 16 ->
  Z.testbit (Reverse16 x) i = Z.testbit x (15 - i).
Proof.
  intros Hx Hi. unfold Reverse16, shl. change 0xff with (Z.ones 8).
  rewrite Z.land_ones, Z.shiftr_div_pow2 by lia.
  assert (is_byte (x / 2 ^ 8)) by (unfold is_uint in *; dlia).
  assert (is_byte (x mod 2 ^ 8)) by (apply wrap_is_uint; lia).
  rewrite Z.lor_spec, testbit_wrap, Z.shiftl_spec by lia.
  destruct (Z.ltb_spec i 16); [|lia]. cbn [andb]. destruct (Z.lt_ge_cases i 8).
  - rewrite (Z.testbit_neg_r _ (i - 8)), orb_false_r, rev8tab_bits by (done || lia).
    rewrite Z.div_pow2_bits by lia. f_equal. lia.
  - rewrite (testbit_high 8 (tab _ (x / _))) by (try apply rev8tab_uint; done || lia).
    rewrite rev8tab_bits by (done || lia). rewrite Z.mod_pow2_bits_low by lia. cbn [orb]. f_equal. lia.
Qed.

Lemma Reverse32_bits x i : is_uint 32 x -> 0 <= i < 32 ->
  Z.testbit (Reverse32 x) i = Z.testbit x (31 - i).
Proof.
  intros Hx Hi. unfold Reverse32. cbv zeta.
  change (_ |. (_ <<.[32] 1)) with (swap (2 ^ 5) 1 (m0 &. (2 ^ 32 - 1)) x). set (x1 := swap _ _ _ x).
  change (_ |. (_ <<.[32] 2)) with (swap (2 ^ 5) 2 (m1 &. (2 ^ 32 - 1)) x1). set (x2 := swap _ _ _ x1).
  change (_ |. (_ <<.[32] 4)) with (swap (2 ^ 5) 4 (m2 &. (2 ^ 32 - 1)) x2).
  pose proof (rb_index_range 5 i ltac:(lia) Hi) as Hr. change (2 ^ 5) with 32 in Hr at 1 2.
  rewrite ReverseBytes32_bits by idx_side. unfold x2, x1.
  rewrite !(swap_bits_all 5) by idx_side. f_equal.
  apply (index_check 32 (λ i, Z.lxor (Z.lxor (Z.lxor (rb_index 32 i) 4) 2) 1) (λ i, 31 - i));
    [lia|by vm_compute|lia].
Qed.

Lemma Reverse64_bits x i : is_uint 64 x -> 0 <= i < 64 ->
  Z.testbit (Reverse64 x) i = Z.testbit x (63 - i).
Proof.
  intros Hx Hi. unfold Reverse64. cbv zeta.
  change (_ |. (_ <<.[64] 1)) with (swap (2 ^ 6) 1 (m0 &. (2 ^ 64 - 1)) x). set (x1 := swap _ _ _ x).
  change (_ |. (_ <<.[64] 2)) with (swap (2 ^ 6) 2 (m1 &. (2 ^ 64 - 1)) x1). set (x2 := swap _ _ _ x1).
  change (_ |. (_ <<.[64] 4)) with (swap (2 ^ 6) 4 (m2 &. (2 ^ 64 - 1)) x2).
  pose proof (rb_index_range 6 i ltac:(lia) Hi) as Hr. change (2 ^ 6) with 64 in Hr at 1 2.
  rewrite ReverseBytes64_bits by idx_side. unfold x2, x1.
  rewrite !(swap_bits_all 6) by idx_side. f_equal.
  apply (index_check 64 (λ i, Z.lxor (Z.lxor (Z.lxor (rb_index 64 i) 4) 2) 1) (λ i, 63 - i));
    [lia|by vm_compute|lia].
Qed.

Lemma ReverseBytes16_uint x : is_uint 16 x -> is_uint 16 (ReverseBytes16 x).
Proof. intros Hx. by apply swap_half_uint. Qed.

Lemma ReverseBytes32_uint x : is_uint 32 (ReverseBytes32 x).
Proof.
  unfold ReverseBytes32. cbv zeta. change (_ |. (_ <<.[32] 8)) with (swap 32 8 (m3 &. (2 ^ 32 - 1)) x).
  apply swap_half_uint; [lia|idx_side].
Qed.

Lemma ReverseBytes64_uint x : is_uint 64 (ReverseBytes64 x).
Proof.
  unfold ReverseBytes64. cbv zeta. set (x1 := _ |. (_ <<.[64] 8)).
  change (_ |. (_ <<.[64] 16)) with (swap 64 16 (m4 &. (2 ^ 64 - 1)) x1).
  apply swap_half_uint; [lia|idx_side].
Qed.

Lemma Reverse16_uint x : is_uint 16 x -> is_uint 16 (Reverse16 x).
Proof.
  intros Hx. unfold Reverse16. apply lor_is_uint; [lia| |apply shl_is_uint; lia].
  apply (is_uint_mono 8); [lia|]. apply rev8tab_uint.
  rewrite Z.shiftr_div_pow2 by lia. unfold is_uint in *. dlia.
Qed.

Definition Reverse_family : list (Z * (Z -> Z)) :=
  [(8, Reverse8); (16, Reverse16); (32, Reverse32); (64, Reverse64);
   (32, Reverse 32); (64, Reverse 64)].
Definition ReverseBytes_family : list (Z * (Z -> Z)) :=
  [(16, ReverseBytes16); (32, ReverseBytes32); (64, ReverseBytes64);
   (32, ReverseBytes 32); (64, ReverseBytes 64)].

Lemma Reverse_family_bits w f x : (w, f) ∈ Reverse_family -> is_uint w x ->
  is_uint w (f x) /\ forall i, 0 <= i < w -> Z.testbit (f x) i = Z.testbit x (w - 1 - i).
Proof.
  intros H Hx. unfold Reverse_family in H.
  repeat (apply elem_of_cons in H as [[= -> ->]|H]);
    [| | | | | |by apply not_elem_of_nil in H].
  - split; [by apply rev8tab_uint|intros i; by apply rev8tab_bits].
  - split; [by apply Reverse16_uint|intros i; by apply Reverse16_bits].
  - split; [apply ReverseBytes32_uint|intros i; by apply Reverse32_bits].
  - split; [apply ReverseBytes64_uint|intros i; by apply Reverse64_bits].
  - unfold Reverse. cbn [Z.eqb Pos.eqb]. rewrite (wrap_small 32 x) by done.
    rewrite wrap_small by apply ReverseBytes32_uint.
    split; [apply ReverseBytes32_uint|intros i; by apply Reverse32_bits].
  - unfold Reverse. cbn [Z.eqb Pos.eqb]. rewrite (wrap_small 64 x) by done.
    rewrite wrap_small by apply ReverseBytes64_uint.
    split; [apply ReverseBytes64_uint|intros i; by apply Reverse64_bits].
Qed.

Lemma ReverseBytes_family_bits w f x : (w, f) ∈ ReverseBytes_family -> is_uint w x ->
  is_uint w (f x) /\ forall i, 0 <= i < w -> Z.testbit (f x) i = Z.testbit x (rb_index w i).
Proof.
  intros H Hx. unfold ReverseBytes_family in H.
  repeat (apply elem_of_cons in H as [[= -> ->]|H]);
    [| | | | |by apply not_elem_of_nil in H].
  - split; [by apply ReverseBytes16_uint|intros i; by apply ReverseBytes16_bits].
  - split; [apply ReverseBytes32_uint|intros i; by apply ReverseBytes32_bits].
  - split; [apply ReverseBytes64_uint|intros i; by apply ReverseBytes64_bits].
  - unfold ReverseBytes. cbn [Z.eqb Pos.eqb]. rewrite (wrap_small 32 x) by done.
    rewrite wrap_small by apply ReverseBytes32_uint.
    split; [apply ReverseBytes32_uint|intros i; by apply ReverseBytes32_bits].
  - unfold ReverseBytes. cbn [Z.eqb Pos.eqb]. rewrite (wrap_small 64 x) by done.
    rewrite wrap_small by apply ReverseBytes64_uint.
    split; [apply ReverseBytes64_uint|intros i; by apply ReverseBytes64_bits].
Qed.

(** ** Add and Sub *)

Lemma carry_bit w v : 0 < w -> is_uint w v -> v >>. (w - 1) = if 2 ^ (w - 1) <=? v then 1 else 0.
Proof.
  intros Hw Hv. rewrite shiftr_top, testbit_top by done. by destruct (_ <=? _).
Qed.

Lemma notw_uint w x : is_uint w x -> is_uint w (notw w x).
Proof. unfold is_uint, notw. lia. Qed.

Lemma notw_testbit w x i : 0 <= i < w -> is_uint w x -> Z.testbit (notw w x) i = negb (Z.testbit x i).
Proof.
  intros Hi Hx. unfold notw. replace (2 ^ w - 1 - x) with (wrap w (Z.lnot x)).
  - rewrite testbit_wrap, Z.lnot_spec by lia. destruct (Z.ltb_spec i w); [done|lia].
  - unfold wrap. symmetry. apply (Z.mod_unique _ _ (-1)); unfold is_uint, Z.lnot in *; lia.
Qed.

Lemma Add64_sum x y c : is_uint 64 x -> is_uint 64 y -> 0 <= c <= 1 ->
  let '(sum, co) := Add64 x y c in is_uint 64 sum /\ 0 <= co <= 1 /\ sum + 2 ^ 64 * co = x + y + c.
Proof.
  intros Hx Hy Hc. unfold Add64. set (sum := u64 (u64 (x + y) + c)).
  assert (Hs : is_uint 64 sum) by (apply wrap_is_uint; lia).
  assert (Hl : is_uint 64 ((x &. y) |. ((x |. y) &^. sum))).
  { apply lor_is_uint; [lia|apply land_is_uint; unfold is_uint in *; lia|].
    rewrite Z.ldiff_land. apply is_uint_bits; [lia|apply Z.land_nonneg; left; apply Z.lor_nonneg; unfold is_uint in *; lia|].
    intros i Hi. rewrite Z.land_spec, Z.lor_spec, !(testbit_high 64) by (done || lia). done. }
  split; [done|]. change 63 with (64 - 1). rewrite shiftr_top by (done || lia).
  rewrite Z.lor_spec, Z.land_spec, Z.ldiff_spec, Z.lor_spec, !testbit_top by (done || lia).
  assert (E : sum = x + y + c \/ sum = x + y + c - 2 ^ 64) by (subst sum; unfold is_uint in *; dlia).
  unfold is_uint in *. change (2 ^ (64 - 1)) with (2 ^ 63).
  destruct (Z.leb_spec (2 ^ 63) x), (Z.leb_spec (2 ^ 63) y), (Z.leb_spec (2 ^ 63) sum); cbn; lia.
Qed.

Lemma Sub_borrow w x y b : 1 < w -> is_uint w x -> is_uint w y -> 0 <= b <= 1 ->
  let diff := wrap w (wrap w (x - y) - b) in
  let bo := ((notw w x &. y) |. (notw w (x ^. y) &. diff)) >>. (w - 1) in
  is_uint w diff /\ 0 <= bo <= 1 /\ diff - 2 ^ w * bo = x - y - b.
Proof.
  intros Hw Hx Hy Hb. cbv zeta. set (diff := wrap w (wrap w (x - y) - b)).
  assert (Hp : 2 ^ w = 2 * 2 ^ (w - 1)) by (rewrite <- Z.pow_succ_r by lia; f_equal; lia).
  assert (Hd : is_uint w diff) by (apply wrap_is_uint; lia).
  assert (Hxy : is_uint w (x ^. y)) by (apply lxor_is_uint; (done || lia)).
  split; [done|]. rewrite shiftr_top; [|lia|].
  2: { apply lor_is_uint; [lia| |]; apply land_is_uint;
       try apply notw_uint; try done; unfold is_uint in *; lia. }
  rewrite Z.lor_spec, !Z.land_spec, !notw_testbit, Z.lxor_spec, !testbit_top by (done || lia).
  assert (E : diff = x - y - b \/ diff = x - y - b + 2 ^ w).
  { subst diff. unfold is_uint, wrap in *. rewrite Zminus_mod_idemp_l.
    destruct (Z.le_gt_cases 0 (x - y - b)); [left; apply Z.mod_small; lia|right].
    symmetry. apply (Z.mod_unique _ _ (-1)); lia. }
  unfold is_uint in *.
  destruct (Z.leb_spec (2 ^ (w - 1)) x), (Z.leb_spec (2 ^ (w - 1)) y), (Z.leb_spec (2 ^ (w - 1)) diff);
    cbn [negb xorb andb orb Z.b2z]; lia.
Qed.

Lemma Add32_sum x y c : is_uint 32 x -> is_uint 32 y -> 0 <= c <= 1 ->
  let '(sum, co) := Add32 x y c in is_uint 32 sum /\ 0 <= co <= 1 /\ sum + 2 ^ 32 * co = x + y + c.
Proof.
  intros Hx Hy Hc. unfold Add32. rewrite Z.shiftr_div_pow2 by lia. unfold is_uint in *. dlia.
Qed.

(** ** Mul *)

Lemma Mul32_product x y : is_uint 32 x -> is_uint 32 y ->
  Mul32 x y = (x * y / 2 ^ 32, (x * y) mod 2 ^ 32).
Proof.
  unfold is_uint, Mul32, wrap. intros Hx Hy.
  assert (0 <= x * y <= (2 ^ 32 - 1) * (2 ^ 32 - 1)) by nia.
  rewrite Z.shiftr_div_pow2, (Z.mod_small (x * y) (2 ^ 64)) by lia. f_equal.
  apply Z.mod_small. split; [apply Z.div_pos; lia|apply Z.div_lt_upper_bound; lia].
Qed.

(** Schoolbook multiplication of two-digit numbers in base [B]. *)
Lemma mul_digits B x0 x1 y0 y1 : 0 < B ->
  0 <= x0 < B -> 0 <= x1 < B -> 0 <= y0 < B -> 0 <= y1 < B ->
  let t := x1 * y0 + x0 * y0 / B in
  let w1 := t mod B + x0 * y1 in
  (x1 * y1 + t / B + w1 / B) * (B * B) + ((w1 mod B) * B + (x0 * y0) mod B)
  = (x1 * B + x0) * (y1 * B + y0).
Proof.
  intros HB Hx0 Hx1 Hy0 Hy1 t w1.
  pose proof (Z.div_mod (x0 * y0) B ltac:(lia)). pose proof (Z.div_mod t B ltac:(lia)).
  pose proof (Z.div_mod w1 B ltac:(lia)). subst t w1. nia.
Qed.

Lemma prod_bound m a b : 0 <= a <= m -> 0 <= b <= m -> 0 <= a * b <= m * m.
Proof. nia. Qed.

Lemma Mul64_product x y : is_uint 64 x -> is_uint 64 y ->
  Mul64 x y = (x * y / 2 ^ 64, (x * y) mod 2 ^ 64).
Proof.
  intros Hx Hy. unfold Mul64. change (2 ^ 32 - 1) with (Z.ones 32).
  rewrite !Z.land_ones, !Z.shiftr_div_pow2 by lia. unfold is_uint in *.
  set (x0 := x mod 2 ^ 32). set (x1 := x / 2 ^ 32). set (y0 := y mod 2 ^ 32). set (y1 := y / 2 ^ 32).
  assert (Hx0 : 0 <= x0 < 2 ^ 32) by (subst x0; apply Z.mod_pos_bound; lia).
  assert (Hy0 : 0 <= y0 < 2 ^ 32) by (subst y0; apply Z.mod_pos_bound; lia).
  assert (Hx1 : 0 <= x1 < 2 ^ 32) by (subst x1; dlia).
  assert (Hy1 : 0 <= y1 < 2 ^ 32) by (subst y1; dlia).
  assert (Ex : x = x1 * 2 ^ 32 + x0) by (subst x0 x1; dlia).
  assert (Ey : y = y1 * 2 ^ 32 + y0) by (subst y0 y1; dlia).
  pose proof (mul_digits (2 ^ 32) x0 x1 y0 y1 ltac:(lia) Hx0 Hx1 Hy0 Hy1) as M. cbv zeta in M.
  rewrite <- Ex, <- Ey in M.
  assert (Hxy : 0 <= x * y <= (2 ^ 64 - 1) * (2 ^ 64 - 1)) by (apply prod_bound; lia).
  pose proof (prod_bound (2 ^ 32 - 1) x0 y0 ltac:(lia) ltac:(lia)) as P00.
  pose proof (prod_bound (2 ^ 32 - 1) x1 y0 ltac:(lia) ltac:(lia)) as P10.
  pose proof (prod_bound (2 ^ 32 - 1) x0 y1 ltac:(lia) ltac:(lia)) as P01.
  pose proof (prod_bound (2 ^ 32 - 1) x1 y1 ltac:(lia) ltac:(lia)) as P11.
  clearbody x0 x1 y0 y1. clear Ex Ey.
  unfold wrap. rewrite (Z.mod_small (x0 * y0)), (Z.mod_small (x1 * y0)), (Z.mod_small (x0 * y1)),
    (Z.mod_small (x1 * y1)) by lia.
  set (p00 := x0 * y0) in *. set (p10 := x1 * y0) in *. set (p01 := x0 * y1) in *.
  set (p11 := x1 * y1) in *. set (p := x * y) in *. clearbody p00 p10 p01 p11 p.
  rewrite (Z.mod_small (p10 + p00 / 2 ^ 32)) by dlia.
  set (t := p10 + p00 / 2 ^ 32) in *. assert (0 <= t < 2 ^ 64) by (subst t; dlia).
  rewrite (Z.mod_small (t mod 2 ^ 32 + p01)) by dlia.
  set (w1 := t mod 2 ^ 32 + p01) in *.
  assert (0 <= w1 mod 2 ^ 32 < 2 ^ 32) by (apply Z.mod_pos_bound; lia).
  assert (0 <= p00 mod 2 ^ 32 < 2 ^ 32) by (apply Z.mod_pos_bound; lia).
  assert (0 <= w1 / 2 ^ 32) by (apply Z.div_pos; subst w1; dlia).
  assert (0 <= t / 2 ^ 32) by (apply Z.div_pos; lia).
  assert (Hq : p11 + t / 2 ^ 32 + w1 / 2 ^ 32 = p / 2 ^ 64).
  { apply (Z.div_unique_pos _ _ _ (w1 mod 2 ^ 32 * 2 ^ 32 + p00 mod 2 ^ 32)); lia. }
  assert (p / 2 ^ 64 < 2 ^ 64) by dlia.
  f_equal. rewrite (Z.mod_small (p11 + t / 2 ^ 32)) by lia.
  rewrite Z.mod_small by lia. exact Hq.
Qed.

(** ** Div *)

(** One digit of the long division: [u < v], [v] has two digits of base [B] and its
    top digit is at least [B/2]. *)
Section DivDigit.
Variables (v1 v0 u d : Z).
Let B := 2 ^ 32.
Hypotheses (Hv1 : 2 ^ 31 <= v1 < B) (Hv0 : 0 <= v0 < B) (Hd : 0 <= d < B).
Hypothesis (Hu : 0 <= u < v1 * B + v0).
Let q := (u * B + d) / (v1 * B + v0).

Lemma digit_lt : 0 <= q < B.
Proof. unfold q, B in *. split; [apply Z.div_pos; nia|apply Z.div_lt_upper_bound; nia]. Qed.

Lemma digit_le x rhat : x * v1 + rhat = u -> x * v0 <= B * rhat + d -> x <= q.
Proof. intros E H. apply Z.div_le_lower_bound; [unfold B in *; nia|]. nia. Qed.

Lemma digit_gt x rhat : x * v1 + rhat = u -> B * rhat + d < x * v0 -> q < x.
Proof. intros E H. apply Z.div_lt_upper_bound; [unfold B in *; nia|]. nia. Qed.

(** The loop ends at the true digit; [k] iterations are left and each adds [v1 >= B / 2] to [rhat]. *)
Lemma div64_correct_digit k x rhat :
  x * v1 + rhat = u -> 0 <= rhat < B -> q <= x <= B + 1 -> (2 - Z.of_nat k) * 2 ^ 31 <= rhat ->
  (k <= 2)%nat ->
  div64_correct k x rhat v1 v0 d = Val q.
Proof.
  pose proof digit_lt as Hq.
  revert x rhat. induction k as [|k IH]; intros x rhat E Hr Hx Hh Hk;
    cbn [div64_correct]; [unfold B in *; lia|].
  assert (Hc : (2 ^ 32 <=? x) || (u64 (u64 (2 ^ 32 * rhat) + d) <? u64 (x * v0))
    = (B <=? x) || (B * rhat + d <? x * v0)).
  { unfold B in *. destruct (Z.leb_spec (2 ^ 32) x); [done|cbn [orb]]. unfold wrap.
    rewrite (Z.mod_small (2 ^ 32 * rhat)) by lia. rewrite !Z.mod_small by nia. done. }
  rewrite Hc. destruct (Z.leb_spec B x), (Z.ltb_spec (B * rhat + d) (x * v0)); cbn [orb].
  4: { f_equal. pose proof (digit_le x rhat E). lia. }
  all: assert (q < x) by (first [lia | eapply digit_gt; eassumption]).
  all: unfold wrap; rewrite !Z.mod_small by (unfold B in *; lia).
  all: destruct (Z.leb_spec (2 ^ 32) (rhat + v1)).
  1, 3, 5: f_equal; pose proof (digit_le (x - 1) (rhat + v1)) as Hle; unfold B in *; nia.
  all: apply IH; unfold B in *; lia.
Qed.

Lemma div64_digit :
  let q0 := u / v1 in
  div64_correct 2 q0 (u64 (u - u64 (q0 * v1))) v1 v0 d = Val q.
Proof.
  cbv zeta. pose proof digit_lt as Hq.
  pose proof (Z.div_mod u v1 ltac:(unfold B in *; lia)) as E.
  pose proof (Z.mod_pos_bound u v1 ltac:(unfold B in *; lia)) as Hr.
  assert (Hq0 : 0 <= u / v1 <= B + 1).
  { split; [apply Z.div_pos; unfold B in *; lia|].
    apply Z.lt_succ_r, Z.div_lt_upper_bound; unfold B in *; [lia|].  nia. }
  unfold wrap. rewrite (Z.mod_small (u / v1 * v1)), Z.mod_small by (unfold B in *; nia).
  apply div64_correct_digit; try (unfold B in *; lia).
  split; [|lia]. apply Z.lt_succ_r, Z.div_lt_upper_bound; unfold B in *; nia.
Qed.
End DivDigit.

Lemma wrap_eq w x y k : is_uint w y -> x = y + k * 2 ^ w -> wrap w x = y.
Proof. intros Hy ->. unfold wrap. rewrite Z_mod_plus_full. by apply Z.mod_small. Qed.

(** Division by a normalised divisor, digit by digit. *)
Lemma div64_two_digits v u d1 d0 :
  2 ^ 63 <= v < 2 ^ 64 -> 0 <= u < v -> 0 <= d1 < 2 ^ 32 -> 0 <= d0 < 2 ^ 32 ->
  let q1 := (u * 2 ^ 32 + d1) / v in
  let r1 := (u * 2 ^ 32 + d1) mod v in
  let q0 := (r1 * 2 ^ 32 + d0) / v in
  let r0 := (r1 * 2 ^ 32 + d0) mod v in
  u64 (u64 (u64 (u * 2 ^ 32) + d1) - u64 (q1 * v)) = r1
  /\ u64 (u64 (u64 (r1 * 2 ^ 32) + d0) - u64 (q0 * v)) = r0
  /\ u64 (u64 (q1 * 2 ^ 32) + q0) = q1 * 2 ^ 32 + q0
  /\ (u * 2 ^ 64 + (d1 * 2 ^ 32 + d0)) / v = q1 * 2 ^ 32 + q0
  /\ (u * 2 ^ 64 + (d1 * 2 ^ 32 + d0)) mod v = r0.
Proof.
  intros Hv Hu Hd1 Hd0 q1 r1 q0 r0.
  pose proof (Z.div_mod (u * 2 ^ 32 + d1) v ltac:(lia)) as E1. fold q1 r1 in E1.
  pose proof (Z.mod_pos_bound (u * 2 ^ 32 + d1) v ltac:(lia)) as R1. fold r1 in R1.
  pose proof (Z.div_mod (r1 * 2 ^ 32 + d0) v ltac:(lia)) as E0. fold q0 r0 in E0.
  pose proof (Z.mod_pos_bound (r1 * 2 ^ 32 + d0) v ltac:(lia)) as R0. fold r0 in R0.
  assert (Q1 : 0 <= q1 < 2 ^ 32) by (split; [apply Z.div_pos; lia|apply Z.div_lt_upper_bound; lia]).
  assert (Q0 : 0 <= q0 < 2 ^ 32) by (split; [apply Z.div_pos; lia|apply Z.div_lt_upper_bound; lia]).
  assert (forall a b c, u64 (u64 (u64 a + b) - u64 c) = u64 (a + b - c)) as W.
  { intros a b c. unfold wrap. by rewrite Zplus_mod_idemp_l, <- Zminus_mod. }
  rewrite !W. clearbody q1 q0 r1 r0. split_and!.
  - apply (wrap_eq 64 _ _ 0); unfold is_uint; lia.
  - apply (wrap_eq 64 _ _ 0); unfold is_uint; lia.
  - unfold wrap. rewrite (Z.mod_small (q1 * _)), Z.mod_small by lia. done.
  - symmetry. apply (Z.div_unique_pos _ _ _ r0); [lia|]. nia.
  - symmetry. apply (Z.mod_unique_pos _ _ (q1 * 2 ^ 32 + q0)); [lia|]. nia.
Qed.

Lemma leading_shift y : is_uint 64 y -> 0 < y ->
  let s := LeadingZeros64 y in 0 <= s < 64 /\ 2 ^ 63 <= y * 2 ^ s < 2 ^ 64.
Proof.
  intros Hy Hp. unfold LeadingZeros64. rewrite Len64_bitlen by done. cbv zeta.
  unfold bitlen. destruct (Z.eqb_spec y 0); [lia|].
  pose proof (Z.log2_spec y Hp) as [H1 H2]. pose proof (Z.log2_nonneg y).
  assert (Z.log2 y < 64) by (apply Z.log2_lt_pow2; unfold is_uint in Hy; lia).
  split; [lia|]. set (m := Z.log2 y) in *. clearbody m.
  replace (2 ^ 63) with (2 ^ m * 2 ^ (63 - m)) by (rewrite <- Z.pow_add_r by lia; f_equal; lia).
  replace (2 ^ 64) with (2 ^ Z.succ m * 2 ^ (63 - m)) by (rewrite <- Z.pow_add_r by lia; f_equal; lia).
  replace (64 - (m + 1)) with (63 - m) by lia.
  assert (0 < 2 ^ (63 - m)) by (apply Z.pow_pos_nonneg; lia). nia.
Qed.

(** Scaling the dividend and the divisor. *)
Lemma shifted_dividend s hi lo y : 0 <= s < 64 -> is_uint 64 lo -> 0 <= hi < y ->
  y * 2 ^ s < 2 ^ 64 ->
  (hi <<.[64] s) |. (lo >>. (64 - s)) = hi * 2 ^ s + lo / 2 ^ (64 - s)
  /\ hi * 2 ^ s + lo / 2 ^ (64 - s) < y * 2 ^ s
  /\ (hi * 2 ^ s + lo / 2 ^ (64 - s)) * 2 ^ 64 + (lo <<.[64] s) = (hi * 2 ^ 64 + lo) * 2 ^ s.
Proof.
  intros Hs Hlo Hhi Hy. unfold shl, wrap. rewrite !Z.shiftl_mul_pow2, Z.shiftr_div_pow2 by lia.
  assert (E : 2 ^ 64 = 2 ^ s * 2 ^ (64 - s)) by (rewrite <- Z.pow_add_r by lia; f_equal; lia).
  assert (0 < 2 ^ s) by (apply Z.pow_pos_nonneg; lia).
  assert (0 < 2 ^ (64 - s)) by (apply Z.pow_pos_nonneg; lia). unfold is_uint in Hlo.
  assert (Hc : 0 <= lo / 2 ^ (64 - s) < 2 ^ s).
  { split; [apply Z.div_pos; lia|apply Z.div_lt_upper_bound; nia]. }
  rewrite (Z.mod_small (hi * 2 ^ s)) by nia. split_and!.
  - apply lor_disjoint; [lia|done].
  - nia.
  - pose proof (Z.div_mod lo (2 ^ (64 - s)) ltac:(lia)).
    replace ((lo * 2 ^ s) mod 2 ^ 64) with (lo mod 2 ^ (64 - s) * 2 ^ s); [nia|].
    rewrite E, (Z.mul_comm (2 ^ s)), Z.mul_mod_distr_r by lia. done.
Qed.

Lemma Div64_quotient hi lo y : is_uint 64 hi -> is_uint 64 lo -> is_uint 64 y ->
  Div64 hi lo y =
    if y =? 0 then Panic DivideError
    else if y <=? hi then Panic OverflowError
    else Val ((hi * 2 ^ 64 + lo) / y, (hi * 2 ^ 64 + lo) mod y).
Proof.
  intros Hhi Hlo Hy. unfold Div64. destruct (Z.eqb_spec y 0); [done|].
  destruct (Z.leb_spec y hi); [done|]. unfold is_uint in Hhi, Hy.
  destruct (leading_shift y) as [Hs Hn]; [done|lia|]. set (s := LeadingZeros64 y) in *. clearbody s.
  destruct (shifted_dividend s hi lo y) as (E1 & E2 & E3); [done|done|lia|lia|].
  rewrite E1. set (u := hi * 2 ^ s + lo / 2 ^ (64 - s)) in *.
  assert (Ev : y <<.[64] s = y * 2 ^ s).
  { unfold shl. rewrite Z.shiftl_mul_pow2 by lia. apply wrap_small. unfold is_uint. lia. }
  rewrite Ev. set (v := y * 2 ^ s) in *. set (l := lo <<.[64] s) in *.
  assert (Hl : is_uint 64 l) by (apply shl_is_uint; lia).
  assert (Hu : 0 <= u).
  { subst u. apply Z.add_nonneg_nonneg; [apply Z.mul_nonneg_nonneg; [lia|apply Z.pow_nonneg; lia]|].
    apply Z.div_pos; [unfold is_uint in Hlo; lia|apply Z.pow_pos_nonneg; lia]. }
  change (2 ^ 32 - 1) with (Z.ones 32). rewrite !Z.land_ones, !Z.shiftr_div_pow2 by lia.
  unfold is_uint in Hl.
  assert (Hvd : v = v / 2 ^ 32 * 2 ^ 32 + v mod 2 ^ 32) by dlia.
  assert (Hld : l = l / 2 ^ 32 * 2 ^ 32 + l mod 2 ^ 32) by dlia.
  assert (Hv1 : 2 ^ 31 <= v / 2 ^ 32 < 2 ^ 32) by dlia.
  assert (Hv0 : 0 <= v mod 2 ^ 32 < 2 ^ 32) by dlia.
  assert (Hl1 : 0 <= l / 2 ^ 32 < 2 ^ 32) by dlia.
  assert (Hl0 : 0 <= l mod 2 ^ 32 < 2 ^ 32) by dlia.
  set (v1 := v / 2 ^ 32) in *. set (v0 := v mod 2 ^ 32) in *.
  set (l1 := l / 2 ^ 32) in *. set (l0 := l mod 2 ^ 32) in *.
  destruct (div64_two_digits v u l1 l0) as (D1 & D2 & D3 & D4 & D5); [lia|lia|done|done|].
  rewrite div64_digit by (done || lia). rewrite <- Hvd. cbn [mbind outcome_bind].
  rewrite D1. set (r1 := (u * 2 ^ 32 + l1) mod v) in *.
  assert (Hr1 : 0 <= r1 < v) by (apply Z.mod_pos_bound; lia).
  rewrite div64_digit by (done || lia). rewrite <- Hvd. cbn [mbind outcome_bind].
  rewrite D2, D3, <- D4, <- D5, <- Hld, E3. subst v.
  assert (0 < 2 ^ s) by (apply Z.pow_pos_nonneg; lia).
  rewrite Z.div_mul_cancel_r, Z.mul_mod_distr_r, Z.shiftr_div_pow2, Z.div_mul by lia. done.
Qed.

Lemma Div32_quotient hi lo y : is_uint 32 hi -> is_uint 32 lo -> is_uint 32 y ->
  Div32 hi lo y =
    if y =? 0 then Panic DivideError
    else if y <=? hi then Panic OverflowError
    else Val ((hi * 2 ^ 32 + lo) / y, (hi * 2 ^ 32 + lo) mod y).
Proof.
  intros Hhi Hlo Hy. unfold Div32. destruct (Z.eqb_spec y 0); [done|]. cbn [negb andb].
  destruct (Z.leb_spec y hi); [done|]. unfold shl. rewrite Z.shiftl_mul_pow2 by lia.
  unfold is_uint in Hhi, Hlo, Hy. rewrite (wrap_small 64) by (unfold is_uint; lia).
  rewrite lor_disjoint by (try done; lia). set (z := hi * 2 ^ 32 + lo).
  assert (0 <= z / y < 2 ^ 32).
  { split; [apply Z.div_pos; lia|apply Z.div_lt_upper_bound; lia]. }
  pose proof (Z.mod_pos_bound z y ltac:(lia)).
  rewrite !wrap_small by (unfold is_uint; lia). done.
Qed.

(** The carry arithmetic by width, the [uint] variants included. *)
Definition Add_family : list (Z * (Z -> Z -> Z -> Z * Z)) :=
  [(32, Add32); (64, Add64); (32, Add 32); (64, Add 64)].
Definition Sub_family : list (Z * (Z -> Z -> Z -> Z * Z)) :=
  [(32, Sub32); (64, Sub64); (32, Sub 32); (64, Sub 64)].
Definition Mul_family : list (Z * (Z -> Z -> Z * Z)) :=
  [(32, Mul32); (64, Mul64); (32, Mul 32); (64, Mul 64)].
Definition Div_family : list (Z * (Z -> Z -> Z -> outcome (Z * Z))) :=
  [(32, Div32); (64, Div64); (32, Div 32); (64, Div 64)].

Lemma uint_bit w c : 1 < w -> 0 <= c <= 1 -> is_uint w c.
Proof. intros Hw Hc. unfold is_uint. pose proof (Z.pow_gt_1 2 w). lia. Qed.

Ltac family H :=
  repeat (apply elem_of_cons in H as [[= -> ->]|H]); [..|by apply not_elem_of_nil in H].

Lemma Add_family_sum w f x y c : (w, f) ∈ Add_family ->
  is_uint w x -> is_uint w y -> 0 <= c <= 1 ->
  let '(sum, co) := f x y c in is_uint w sum /\ 0 <= co <= 1 /\ sum + 2 ^ w * co = x + y + c.
Proof.
  intros H Hx Hy Hc. unfold Add_family in H. family H.
  - by apply Add32_sum.
  - by apply Add64_sum.
  - unfold Add. cbn [Z.eqb Pos.eqb]. rewrite !(wrap_small 32) by first [done | apply uint_bit; lia].
    pose proof (Add32_sum x y c Hx Hy Hc) as H. destruct (Add32 x y c) as [sum co].
    destruct H as (? & ? & ?). rewrite !wrap_small by first [done | apply uint_bit; lia]. done.
  - unfold Add. cbn [Z.eqb Pos.eqb]. rewrite !(wrap_small 64) by first [done | apply uint_bit; lia].
    pose proof (Add64_sum x y c Hx Hy Hc) as H. destruct (Add64 x y c) as [sum co].
    destruct H as (? & ? & ?). rewrite !wrap_small by first [done | apply uint_bit; lia]. done.
Qed.

Lemma Sub32_diff x y b : is_uint 32 x -> is_uint 32 y -> 0 <= b <= 1 ->
  let '(diff, bo) := Sub32 x y b in
  is_uint 32 diff /\ 0 <= bo <= 1 /\ diff - 2 ^ 32 * bo = x - y - b.
Proof. by apply (Sub_borrow 32). Qed.

Lemma Sub64_diff x y b : is_uint 64 x -> is_uint 64 y -> 0 <= b <= 1 ->
  let '(diff, bo) := Sub64 x y b in
  is_uint 64 diff /\ 0 <= bo <= 1 /\ diff - 2 ^ 64 * bo = x - y - b.
Proof. by apply (Sub_borrow 64). Qed.

Lemma Sub_family_diff w f x y b : (w, f) ∈ Sub_family ->
  is_uint w x -> is_uint w y -> 0 <= b <= 1 ->
  let '(diff, bo) := f x y b in is_uint w diff /\ 0 <= bo <= 1 /\ diff - 2 ^ w * bo = x - y - b.
Proof.
  intros H Hx Hy Hc. unfold Sub_family in H. family H.
  - by apply Sub32_diff.
  - by apply Sub64_diff.
  - unfold Sub. cbn [Z.eqb Pos.eqb]. rewrite !(wrap_small 32) by first [done | apply uint_bit; lia].
    pose proof (Sub32_diff x y b Hx Hy Hc) as H.
    destruct (Sub32 x y b) as [d bo].
    destruct H as (? & ? & ?). rewrite !wrap_small by first [done | apply uint_bit; lia]. done.
  - unfold Sub. cbn [Z.eqb Pos.eqb]. rewrite !(wrap_small 64) by first [done | apply uint_bit; lia].
    pose proof (Sub64_diff x y b Hx Hy Hc) as H.
    destruct (Sub64 x y b) as [d bo].
    destruct H as (? & ? & ?). rewrite !wrap_small by first [done | apply uint_bit; lia]. done.
Qed.

Lemma mul_parts_uint w x y : 0 <= w -> is_uint w x -> is_uint w y ->
  is_uint w (x * y / 2 ^ w) /\ is_uint w ((x * y) mod 2 ^ w).
Proof.
  intros Hw Hx Hy. split; [|by apply wrap_is_uint].
  assert (0 < 2 ^ w) by (apply Z.pow_pos_nonneg; lia). unfold is_uint in *.
  split; [apply Z.div_pos; nia|apply Z.div_lt_upper_bound; nia].
Qed.

Lemma Mul_family_product w f x y : (w, f) ∈ Mul_family -> is_uint w x -> is_uint w y ->
  f x y = (x * y / 2 ^ w, (x * y) mod 2 ^ w).
Proof.
  intros H Hx Hy. unfold Mul_family in H. family H.
  - by apply Mul32_product.
  - by apply Mul64_product.
  - unfold Mul. cbn [Z.eqb Pos.eqb]. rewrite !(wrap_small 32), Mul32_product by done.
    destruct (mul_parts_uint 32 x y) as [? ?]; [lia|done|done|]. by rewrite !wrap_small.
  - unfold Mul. cbn [Z.eqb Pos.eqb]. rewrite !(wrap_small 64), Mul64_product by done.
    destruct (mul_parts_uint 64 x y) as [? ?]; [lia|done|done|]. by rewrite !wrap_small.
Qed.

Lemma div_parts_uint w hi lo y : 0 <= w -> 0 <= hi < y -> is_uint w lo -> is_uint w y ->
  is_uint w ((hi * 2 ^ w + lo) / y) /\ is_uint w ((hi * 2 ^ w + lo) mod y).
Proof.
  intros Hw Hhi Hlo Hy. unfold is_uint in *. pose proof (Z.mod_pos_bound (hi * 2 ^ w + lo) y).
  split; [split; [apply Z.div_pos; nia|apply Z.div_lt_upper_bound; nia]|lia].
Qed.

Lemma Div_family_quotient w f hi lo y : (w, f) ∈ Div_family ->
  is_uint w hi -> is_uint w lo -> is_uint w y ->
  f hi lo y =
    if y =? 0 then Panic DivideError
    else if y <=? hi then Panic OverflowError
    else Val ((hi * 2 ^ w + lo) / y, (hi * 2 ^ w + lo) mod y).
Proof.
  intros H Hhi Hlo Hy. unfold Div_family in H. family H.
  - by apply Div32_quotient.
  - by apply Div64_quotient.
  - unfold Div. cbn [Z.eqb Pos.eqb]. rewrite !(wrap_small 32), Div32_quotient by done.
    destruct (y =? 0); [done|]. destruct (Z.leb_spec y hi); [done|]. cbn [mbind outcome_bind].
    destruct (div_parts_uint 32 hi lo y) as [? ?]; [lia|unfold is_uint in *; lia|done|done|].
    by rewrite !wrap_small.
  - unfold Div. cbn [Z.eqb Pos.eqb]. rewrite !(wrap_small 64), Div64_quotient by done.
    destruct (y =? 0); [done|]. destruct (Z.leb_spec y hi); [done|]. cbn [mbind outcome_bind].
    destruct (div_parts_uint 64 hi lo y) as [? ?]; [lia|unfold is_uint in *; lia|done|done|].
    by rewrite !wrap_small.
Qed.

(** ** Properties *)

(** C33. Every Div variant panics with the divide error when [y] is 0, with the overflow error
    when the quotient would not fit ([y <= hi]), and otherwise returns exactly the quotient and
    the remainder of the two-word dividend [hi * 2^w + lo]. *)
Theorem Div_exact w f hi lo y :
  (w, f) ∈ Div_family -> is_uint w hi -> is_uint w lo -> is_uint w y ->
  f hi lo y =
    if y =? 0 then Panic DivideError
    else if y <=? hi then Panic OverflowError
    else Val ((hi * 2 ^ w + lo) / y, (hi * 2 ^ w + lo) mod y).
Proof. apply Div_family_quotient. Qed.

Lemma Div_exact_witness :
  Div64 12345 99999999999999999 123456789012 = Val (1844573776884, 108463900911).
Proof.
  rewrite (Div_exact 64 Div64 12345 99999999999999999 123456789012);
    [reflexivity|unfold Div_family; set_solver|unfold is_uint; lia..].
Defined.

(** Every Mul variant returns the high and the low word of the full product. *)
Theorem Mul_exact w f x y :
  (w, f) ∈ Mul_family -> is_uint w x -> is_uint w y ->
  let '(hi, lo) := f x y in
  is_uint w hi /\ is_uint w lo /\ hi * 2 ^ w + lo = x * y.
Proof.
  intros Hf Hx Hy. rewrite (Mul_family_product w f) by done.
  assert (Hw : 0 <= w) by (unfold Mul_family in Hf; family Hf; lia).
  destruct (mul_parts_uint w x y Hw Hx Hy). split_and!; [done|done|].
  assert (0 < 2 ^ w) by (apply Z.pow_pos_nonneg; lia).
  pose proof (Z.div_mod (x * y) (2 ^ w)). lia.
Qed.

(** With a carry (borrow) in of 0 or 1, every Add and Sub variant returns a word and a
    carry (borrow) out of 0 or 1 that together are the exact sum (difference), and subtracting
    what was added gives back the first operand with the same carry. *)
Theorem Add_Sub_exact w add sub x y c :
  (w, add) ∈ Add_family -> (w, sub) ∈ Sub_family ->
  is_uint w x -> is_uint w y -> 0 <= c <= 1 ->
  let '(sum, co) := add x y c in
  let '(diff, bo) := sub x y c in
  is_uint w sum /\ 0 <= co <= 1 /\ sum + 2 ^ w * co = x + y + c /\
  is_uint w diff /\ 0 <= bo <= 1 /\ diff - 2 ^ w * bo = x - y - c /\
  sub sum y c = (x, co).
Proof.
  intros Ha Hs Hx Hy Hc.
  pose proof (Add_family_sum w add x y c Ha Hx Hy Hc) as A.
  pose proof (Sub_family_diff w sub x y c Hs Hx Hy Hc) as S.
  destruct (add x y c) as [sum co], (sub x y c) as [diff bo].
  destruct A as (A1 & A2 & A3), S as (S1 & S2 & S3). split_and!; try done; try lia.
  pose proof (Sub_family_diff w sub sum y c Hs A1 Hy Hc) as S'.
  destruct (sub sum y c) as [x' bo']. destruct S' as (S4 & S5 & S6).
  unfold is_uint in *. assert (bo' = co) by nia. subst bo'. f_equal. lia.
Qed.

(** C40. Sums, differences and products do not lose anything.  With a carry (borrow) in of 0 or 1, every Add and Sub variant
    returns a word and a carry (borrow) out of 0 or 1 that together are the exact sum (difference), and subtracting
    what was added gives back the first operand with the same carry; every Mul variant returns the high and the low word of the
    full product. *)
Theorem exact_arithmetic w x y c : is_uint w x -> is_uint w y -> 0 <= c <= 1 ->
  (forall add sub, (w, add) ∈ Add_family -> (w, sub) ∈ Sub_family ->
     let '(sum, co) := add x y c in
     let '(diff, bo) := sub x y c in
     is_uint w sum /\ 0 <= co <= 1 /\ sum + 2 ^ w * co = x + y + c /\
     is_uint w diff /\ 0 <= bo <= 1 /\ diff - 2 ^ w * bo = x - y - c /\
     sub sum y c = (x, co))
  /\ (forall f, (w, f) ∈ Mul_family -> let '(hi, lo) := f x y in is_uint w hi /\ is_uint w lo /\ hi * 2 ^ w + lo = x * y).
Proof. intros Hx Hy Hc. split; intros; [by apply Add_Sub_exact|by apply Mul_exact]. Qed.

Lemma exact_arithmetic_witness :
  Sub64 (fst (Add64 (2 ^ 64 - 1) 5 1)) 5 1 = (2 ^ 64 - 1, 1)
  /\ let '(hi, lo) := Mul64 (2 ^ 64 - 1) 5 in is_uint 64 hi /\ is_uint 64 lo /\ hi * 2 ^ 64 + lo = (2 ^ 64 - 1) * 5.
Proof.
  assert (Hx : is_uint 64 (2 ^ 64 - 1)) by (unfold is_uint; lia). assert (Hy : is_uint 64 5) by (unfold is_uint; lia).
  destruct (exact_arithmetic 64 (2 ^ 64 - 1) 5 1 Hx Hy ltac:(lia)) as [Has Hm]. split.
  - assert (Ha : (64, Add64) ∈ Add_family) by (clear; unfold Add_family; set_solver). assert (Hs : (64, Sub64) ∈ Sub_family) by (clear; unfold Sub_family; set_solver).
    destruct (Has Add64 Sub64 Ha Hs) as (_ & _ & _ & _ & _ & _ & E). exact E.
  - apply (Hm Mul64). clear. unfold Mul_family. set_solver.
Defined.
(** Every Len variant returns the least number of bits that represents [x], between 0 and
    the width, and the LeadingZeros variant is the width minus it. *)
Lemma Len_minimal w len lz x :
  (w, len, lz) ∈ Len_family -> is_uint w x ->
  0 <= len x <= w /\ x < 2 ^ len x /\ (forall n, 0 <= n -> x < 2 ^ n -> len x <= n)
  /\ lz x = w - len x.
Proof.
  intros Hf Hx. destruct (Len_family_bitlen w len lz x Hf Hx) as (Hw & -> & ->).
  split; [by apply bitlen_range|]. destruct (bitlen_spec x) as [? ?]; [unfold is_uint in Hx; lia|].
  done.
Qed.

(** Every TrailingZeros variant, table lookup or de Bruijn multiplication, returns the
    position of the lowest one bit, and the width for 0. *)
Lemma TrailingZeros_lowest_bit w f x :
  (w, f) ∈ TrailingZeros_family -> is_uint w x ->
  if x =? 0 then f x = w
  else 0 <= f x < w /\ Z.testbit x (f x) = true /\ forall i, 0 <= i < f x -> Z.testbit x i = false.
Proof. apply TrailingZeros_family_lowest. Qed.

(** Every OnesCount variant, table lookups or the parallel sum of adjacent bits, returns
    the number of one bits. *)
Lemma OnesCount_counts w f x :
  (w, f) ∈ OnesCount_family -> is_uint (Z.of_nat w) x -> f x = bitsum w x.
Proof. apply OnesCount_family_bitsum. Qed.

(** Every Reverse variant puts bit [w-1-i] at position [i] and is its own inverse; every
    ReverseBytes variant puts byte [w/8-1-j] at byte position [j]. *)
Lemma Reverse_bits w f x :
  (w, f) ∈ Reverse_family -> is_uint w x ->
  is_uint w (f x) /\ (forall i, 0 <= i < w -> Z.testbit (f x) i = Z.testbit x (w - 1 - i))
  /\ f (f x) = x
  /\ forall g, (w, g) ∈ ReverseBytes_family -> is_uint w (g x) /\
       forall i, 0 <= i < w -> Z.testbit (g x) i = Z.testbit x (8 * (w / 8 - 1 - i / 8) + i mod 8).
Proof.
  intros Hf Hx. destruct (Reverse_family_bits w f x Hf Hx) as [Hr Hb].
  destruct (Reverse_family_bits w f (f x) Hf Hr) as [Hr2 Hb2].
  assert (Hw : 0 <= w) by (unfold Reverse_family in Hf; family Hf; lia).
  split_and!; [done|done| |].
  - apply (word_ext w); [done..|]. intros i Hi. rewrite Hb2, Hb by lia. f_equal. lia.
  - intros g Hg. by apply ReverseBytes_family_bits.
Qed.

(** Every RotateLeft variant moves bit [i - k mod w] to position [i], for any [int] [k],
    and rotating by [-k] undoes it. *)
Lemma RotateLeft_bits w f x k :
  (w, f) ∈ RotateLeft_family -> is_uint w x ->
  is_uint w (f x k)
  /\ (forall i, 0 <= i < w -> Z.testbit (f x k) i = Z.testbit x ((i - k) mod w))
  /\ f (f x k) (- k) = x.
Proof.
  intros Hf Hx. pose proof (RotateLeft_family_uint w f x k Hf Hx) as Hr.
  assert (Hw : 0 < w) by (unfold RotateLeft_family in Hf; family Hf; lia).
  split_and!; [done| |].
  - intros i Hi. by apply RotateLeft_family_bits.
  - apply (word_ext w); [lia|by apply RotateLeft_family_uint|done|]. intros i Hi.
    rewrite (RotateLeft_family_bits w f (f x k)), (RotateLeft_family_bits w f x) by
      (done || apply Z.mod_pos_bound; lia).
    rewrite Zminus_mod_idemp_l. replace (i - - k - k) with i by lia. by rewrite Z.mod_small.
Qed.

(** The functions on bits, at every width.  Len is the least number of bits that represents [x] and
    LeadingZeros the width minus it; TrailingZeros, by table or by de Bruijn multiplication, is the position of
    the lowest one bit, and the width for 0; OnesCount, by table or by the parallel sum of adjacent bits, is the number of one bits.
    Reverse puts bit [w-1-i] at position [i] and is its own inverse,
    ReverseBytes puts byte [w/8-1-j] at byte position [j], and RotateLeft by any [int] [k] moves bit [i - k mod w] to position
    [i] and is undone by rotating by [-k]. *)
Theorem bit_functions (n : nat) x : let w := Z.of_nat n in is_uint w x ->
  (forall len lz, (w, len, lz) ∈ Len_family ->
     0 <= len x <= w /\ x < 2 ^ len x /\ (forall k, 0 <= k -> x < 2 ^ k -> len x <= k) /\ lz x = w - len x)
  /\ (forall f, (w, f) ∈ TrailingZeros_family ->
     if x =? 0 then f x = w
     else 0 <= f x < w /\ Z.testbit x (f x) = true /\ forall i, 0 <= i < f x -> Z.testbit x i = false)
  /\ (forall f, (n, f) ∈ OnesCount_family -> f x = bitsum n x)
  /\ (forall f, (w, f) ∈ Reverse_family ->
     is_uint w (f x) /\ (forall i, 0 <= i < w -> Z.testbit (f x) i = Z.testbit x (w - 1 - i)) /\ f (f x) = x)
  /\ (forall g, (w, g) ∈ ReverseBytes_family ->
     is_uint w (g x) /\ forall i, 0 <= i < w -> Z.testbit (g x) i = Z.testbit x (8 * (w / 8 - 1 - i / 8) + i mod 8))
  /\ (forall f k, (w, f) ∈ RotateLeft_family ->
     is_uint w (f x k) /\ (forall i, 0 <= i < w -> Z.testbit (f x k) i = Z.testbit x ((i - k) mod w)) /\ f (f x k) (- k) = x).
Proof.
  intros w Hx. split; [|split; [|split; [|split; [|split]]]]; intros.
  - by apply Len_minimal.
  - by apply TrailingZeros_lowest_bit.
  - by apply OnesCount_counts.
  - destruct (Reverse_bits w f x) as (? & ? & ? & _); done.
  - by apply ReverseBytes_family_bits.
  - by apply RotateLeft_bits.
Qed.

Lemma bit_functions_witness :
  LeadingZeros64 1000 = 64 - Len64 1000 /\ Z.testbit 1000 (TrailingZeros64 1000) = true /\ OnesCount64 1000 = bitsum 64 1000
  /\ Reverse64 (Reverse64 1000) = 1000 /\ RotateLeft64 (RotateLeft64 1000 100) (- (100)) = 1000.
Proof.
  destruct (bit_functions 64 1000) as (Hl & Ht & Ho & Hr & _ & Hm); [by apply (bool_decide_unpack _)|].
  split; [apply (Hl Len64 LeadingZeros64); clear; unfold Len_family; set_solver|].
  split; [apply (Ht TrailingZeros64); clear; unfold TrailingZeros_family; set_solver|]. split; [apply Ho; clear; unfold OnesCount_family; set_solver|].
  split; [apply (Hr Reverse64); clear; unfold Reverse_family; set_solver|apply (Hm RotateLeft64 100); clear; unfold RotateLeft_family; set_solver].
Defined.
