(* ===== verification/Utf8.v ===== *)
(** * unicode/utf8

    The UTF-8 encoder and the table-driven decoders
    (src/Source/Gold/unicode/utf8/utf8.go).  A [[]byte] and a [string] are both byte
    lists, so each ...InString function, whose body repeats the []byte one, is the same
    definition under its own name.  A rune is a signed 32-bit [Z]. *)

From S2P Require Import Prelude.

Local Open Scope go_scope.

Definition RuneError : Z := 0xFFFD.
Definition RuneSelf : Z := 0x80.
Definition MaxRune : Z := 0x10FFFF.
Definition UTFMax : Z := 4.
Definition surrogateMin : Z := 0xD800.
Definition surrogateMax : Z := 0xDFFF.

Definition tx : Z := 0x80.
Definition t2 : Z := 0xC0.
Definition t3 : Z := 0xE0.
Definition t4 : Z := 0xF0.
Definition maskx : Z := 0x3F.
Definition mask2 : Z := 0x1F.
Definition mask3 : Z := 0x0F.
Definition mask4 : Z := 0x07.
Definition rune1Max : Z := 2 ^ 7 - 1.
Definition rune2Max : Z := 2 ^ 11 - 1.
Definition rune3Max : Z := 2 ^ 16 - 1.
Definition locb : Z := 0x80.
Definition hicb : Z := 0xBF.

Definition xx : Z := 0xF1.
Definition as_ : Z := 0xF0.
Definition s1 : Z := 0x02.
Definition s2 : Z := 0x13.
Definition s3 : Z := 0x03.
Definition s4 : Z := 0x23.
Definition s5 : Z := 0x34.
Definition s6 : Z := 0x04.
Definition s7 : Z := 0x44.

(** The 256 entries, row by row. *)
Definition first : list Z :=
  replicate 128 as_                              (* 0x00-0x7F *)
  ++ replicate 64 xx                             (* 0x80-0xBF *)
  ++ [xx; xx] ++ replicate 30 s1                 (* 0xC0-0xDF *)
  ++ [s2] ++ replicate 12 s3 ++ [s4; s3; s3]     (* 0xE0-0xEF *)
  ++ [s5; s6; s6; s6; s7] ++ replicate 11 xx.    (* 0xF0-0xFF *)

Record acceptRange := AcceptRange { lo : Z; hi : Z }.

(** Entries 5 to 15 of the array are zero. *)
Definition acceptRanges : list acceptRange :=
  [AcceptRange locb hicb; AcceptRange 0xA0 hicb; AcceptRange locb 0x9F;
   AcceptRange 0x90 hicb; AcceptRange locb 0x8F] ++ replicate 11 (AcceptRange 0 0).

Definition accept_of (x : Z) : acceptRange :=
  nth (Z.to_nat (x >>. 4)) acceptRanges (AcceptRange 0 0).

Definition out_of (c l h : Z) : bool := (c <? l) || (h <? c).

Definition FullRune (p : list Z) : outcome bool :=
  let n := zlen p in
  if n =? 0 then Val false
  else
    p0 ← index p 0;
    let x := tab first p0 in
    if (x &. 7) <=? n then Val true
    else
      let accept := accept_of x in
      bad ← (if 1 <? n then p1 ← index p 1; Val (out_of p1 (lo accept) (hi accept)) else Val false);
      if bad : bool then Val true
      else
        bad ← (if 2 <? n then p2 ← index p 2; Val (out_of p2 locb hicb) else Val false);
        if bad : bool then Val true else Val false.
Definition FullRuneInString (s : list Z) : outcome bool := FullRune s.

Definition DecodeRune (p : list Z) : outcome (Z * Z) :=
  let n := zlen p in
  if n <? 1 then Val (RuneError, 0)
  else
    p0 ← index p 0;
    let x := tab first p0 in
    if as_ <=? x then
      let mask := i32 (Z.shiftl x 31) >>. 31 in
      Val ((p0 &^. mask) |. (RuneError &. mask), 1)
    else
      let sz := x &. 7 in
      let accept := accept_of x in
      if n <? sz then Val (RuneError, 1)
      else
        b1 ← index p 1;
        if out_of b1 (lo accept) (hi accept) then Val (RuneError, 1)
        else if sz <=? 2 then Val ((Z.shiftl (p0 &. mask2) 6) |. (b1 &. maskx), 2)
        else
          b2 ← index p 2;
          if out_of b2 locb hicb then Val (RuneError, 1)
          else if sz <=? 3 then
            Val ((Z.shiftl (p0 &. mask3) 12) |. (Z.shiftl (b1 &. maskx) 6) |. (b2 &. maskx), 3)
          else
            b3 ← index p 3;
            if out_of b3 locb hicb then Val (RuneError, 1)
            else Val ((Z.shiftl (p0 &. mask4) 18) |. (Z.shiftl (b1 &. maskx) 12)
                  |. (Z.shiftl (b2 &. maskx) 6) |. (b3 &. maskx), 4).
Definition DecodeRuneInString (s : list Z) : outcome (Z * Z) := DecodeRune s.

Definition RuneStart (b : Z) : bool := negb ((b &. 0xC0) =? 0x80).

(** [for start--; start >= lim; start-- { if RuneStart(p[start]) { break } }] *)
Fixpoint last_start (fuel : nat) (p : list Z) (start lim : Z) : outcome Z :=
  match fuel with
  | O => NoFuel
  | S fuel =>
      if lim <=? start then
        c ← index p start; if RuneStart c then Val start else last_start fuel p (start - 1) lim
      else Val start
  end.

(** At most [UTFMax - 1] positions are tried. *)
Definition DecodeLastRune (p : list Z) : outcome (Z * Z) :=
  let end_ := zlen p in
  if end_ =? 0 then Val (RuneError, 0)
  else
    let start := end_ - 1 in
    r ← index p start;
    if r <? RuneSelf then Val (r, 1)
    else
      let lim := end_ - UTFMax in
      let lim := if lim <? 0 then 0 else lim in
      start ← last_start 4 p (start - 1) lim;
      let start := if start <? 0 then 0 else start in
      q ← slice p start end_;
      '(r, size) ← DecodeRune q;
      if negb (start + size =? end_) then Val (RuneError, 1) else Val (r, size).
Definition DecodeLastRuneInString (s : list Z) : outcome (Z * Z) := DecodeLastRune s.

Definition RuneLen (r : Z) : Z :=
  if r <? 0 then -1
  else if r <=? rune1Max then 1
  else if r <=? rune2Max then 2
  else if (surrogateMin <=? r) && (r <=? surrogateMax) then -1
  else if r <=? rune3Max then 3
  else if r <=? MaxRune then 4
  else -1.

(** Writes at the front of [p]; the bounds hint [_ = p[k]] panics before any write. *)
Definition put_bytes (p : list Z) (bs : list Z) : outcome (list Z * Z) :=
  if zlen bs <=? zlen p then Val (bs ++ drop (length bs) p, zlen bs) else Panic IndexOutOfRange.

(** The three-byte case, shared by the surrogate and out-of-range runes by [fallthrough]. *)
Definition encode3 (r : Z) : list Z :=
  [t3 |. u8 (r >>. 12); tx |. (u8 (r >>. 6) &. maskx); tx |. (u8 r &. maskx)].

Definition EncodeRune (p : list Z) (r : Z) : outcome (list Z * Z) :=
  let i := u32 r in
  if i <=? rune1Max then put_bytes p [u8 r]
  else if i <=? rune2Max then put_bytes p [t2 |. u8 (r >>. 6); tx |. (u8 r &. maskx)]
  else if (MaxRune <? i) || ((surrogateMin <=? i) && (i <=? surrogateMax))
  then put_bytes p (encode3 RuneError)
  else if i <=? rune3Max then put_bytes p (encode3 r)
  else put_bytes p [t4 |. u8 (r >>. 18); tx |. (u8 (r >>. 12) &. maskx);
                    tx |. (u8 (r >>. 6) &. maskx); tx |. (u8 r &. maskx)].

(** The continuation checks shared by RuneCount and Valid: does the [size]-byte sequence
    at [i] have its second byte in the accept range and the others in [locb, hicb]? *)
Definition continues (p : list Z) (i size : Z) (accept : acceptRange) : outcome bool :=
  c ← index p (i + 1);
  if out_of c (lo accept) (hi accept) then Val false
  else if size =? 2 then Val true
  else
    c ← index p (i + 2);
    if out_of c locb hicb then Val false
    else if size =? 3 then Val true
    else c ← index p (i + 3); Val (negb (out_of c locb hicb)).

(** Every iteration advances [i]; one turn more than the length of [p] is enough. *)
Fixpoint RuneCount_loop (fuel : nat) (p : list Z) (i n : Z) : outcome Z :=
  match fuel with
  | O => NoFuel
  | S fuel =>
      if i <? zlen p then
        let n := n + 1 in
        c ← index p i;
        if c <? RuneSelf then RuneCount_loop fuel p (i + 1) n
        else
          let x := tab first c in
          if x =? xx then RuneCount_loop fuel p (i + 1) n
          else
            let size := x &. 7 in
            if zlen p <? i + size then RuneCount_loop fuel p (i + 1) n
            else
              good ← continues p i size (accept_of x);
              let size := if good : bool then size else 1 in
              RuneCount_loop fuel p (i + size) n
      else Val n
  end.
Definition RuneCount (p : list Z) : outcome Z := RuneCount_loop (S (length p)) p 0 0.
Definition RuneCountInString (s : list Z) : outcome Z := RuneCount s.

Fixpoint Valid_loop (fuel : nat) (p : list Z) (i : Z) : outcome bool :=
  match fuel with
  | O => NoFuel
  | S fuel =>
      if i <? zlen p then
        pi ← index p i;
        if pi <? RuneSelf then Valid_loop fuel p (i + 1)
        else
          let x := tab first pi in
          if x =? xx then Val false
          else
            let size := x &. 7 in
            if zlen p <? i + size then Val false
            else
              good ← continues p i size (accept_of x);
              if good : bool then Valid_loop fuel p (i + size) else Val false
      else Val true
  end.
Definition Valid (p : list Z) : outcome bool := Valid_loop (S (length p)) p 0.
Definition ValidString (s : list Z) : outcome bool := Valid s.

Definition ValidRune (r : Z) : bool :=
  if (0 <=? r) && (r <? surrogateMin) then true
  else if (surrogateMax <? r) && (r <=? MaxRune) then true
  else false.

(** ** Specification *)

(** The UTF-8 encoding of a code point, in arithmetic. *)
Definition utf8 (r : Z) : list Z :=
  if r <? 0x80 then [r]
  else if r <? 0x800 then [0xC0 + r / 64; 0x80 + r mod 64]
  else if r <? 0x10000 then [0xE0 + r / 4096; 0x80 + r / 64 mod 64; 0x80 + r mod 64]
  else [0xF0 + r / 262144; 0x80 + r / 4096 mod 64; 0x80 + r / 64 mod 64; 0x80 + r mod 64].

(** Length and range of the second byte announced by a first byte. *)
Definition lead_size (b : Z) : Z := if b <? 0xE0 then 2 else if b <? 0xF0 then 3 else 4.
Definition lead_lo (b : Z) : Z := if b =? 0xE0 then 0xA0 else if b =? 0xF0 then 0x90 else 0x80.
Definition lead_hi (b : Z) : Z := if b =? 0xED then 0x9F else if b =? 0xF4 then 0x8F else 0xBF.
Definition is_lead (b : Z) : bool := (0xC2 <=? b) && (b <? 0xF5).
Definition in_rng (b l h : Z) : bool := (l <=? b) && (b <=? h).

(** The decoder in arithmetic. *)
Definition dec (p : list Z) : Z * Z :=
  match p with
  | [] => (RuneError, 0)
  | b0 :: q =>
      if b0 <? 0x80 then (b0, 1)
      else if negb (is_lead b0) then (RuneError, 1)
      else
        match q with
        | b1 :: q =>
            if negb (in_rng b1 (lead_lo b0) (lead_hi b0)) then
              (RuneError, 1)
            else if b0 <? 0xE0 then ((b0 - 0xC0) * 64 + (b1 - 0x80), 2)
            else
              match q with
              | b2 :: q =>
                  if negb (in_rng b2 0x80 0xBF) then (RuneError, 1)
                  else if b0 <? 0xF0 then
                    ((b0 - 0xE0) * 4096 + (b1 - 0x80) * 64 + (b2 - 0x80), 3)
                  else
                    match q with
                    | b3 :: _ =>
                        if negb (in_rng b3 0x80 0xBF) then (RuneError, 1)
                        else ((b0 - 0xF0) * 262144 + (b1 - 0x80) * 4096
                              + (b2 - 0x80) * 64 + (b3 - 0x80), 4)
                    | [] => (RuneError, 1)
                    end
              | [] => (RuneError, 1)
              end
        | [] => (RuneError, 1)
        end
  end.

(** ** The tables *)

Definition first_ok (b : Z) : bool :=
  let x := tab first b in
  if b <? 0x80 then x =? as_
  else if negb (is_lead b) then x =? xx
  else (x <? as_) && ((x &. 7) =? lead_size b)
    && (lo (accept_of x) =? lead_lo b) && (hi (accept_of x) =? lead_hi b).

Lemma first_table b : is_byte b -> first_ok b = true.
Proof. apply check_byte. by vm_compute. Qed.

Lemma first_ascii b : is_byte b -> b < 0x80 -> tab first b = as_.
Proof.
  intros Hb H. pose proof (first_table b Hb) as T. unfold first_ok in T.
  destruct (Z.ltb_spec b 0x80); [|lia]. by apply Z.eqb_eq.
Qed.

Lemma first_bad b : is_byte b -> 0x80 <= b -> is_lead b = false -> tab first b = xx.
Proof.
  intros Hb H Hl. pose proof (first_table b Hb) as T. unfold first_ok in T.
  destruct (Z.ltb_spec b 0x80); [lia|]. rewrite Hl in T. by apply Z.eqb_eq.
Qed.

Lemma first_lead b : is_byte b -> is_lead b = true ->
  tab first b < as_ /\ tab first b &. 7 = lead_size b
  /\ lo (accept_of (tab first b)) = lead_lo b /\ hi (accept_of (tab first b)) = lead_hi b.
Proof.
  intros Hb Hl. pose proof (first_table b Hb) as T. unfold first_ok in T.
  rewrite Hl in T. unfold is_lead in Hl. destruct (Z.ltb_spec b 0x80); [lia|].
  cbn [negb] in T. lia.
Qed.

Lemma out_of_in c l h : out_of c l h = negb (in_rng c l h).
Proof. unfold out_of, in_rng. lia. Qed.

Lemma ascii_value p0 : (p0 &^. 0) |. (RuneError &. 0) = p0.
Proof. by rewrite Z.ldiff_0_r, Z.land_0_r, Z.lor_0_r. Qed.

Lemma error_value p0 : 0 <= p0 -> (p0 &^. -1) |. (RuneError &. -1) = RuneError.
Proof. intros H. by rewrite Z.ldiff_m1_r. Qed.

Lemma cont_bits b : 0x80 <= b <= 0xBF -> b &. maskx = b - 0x80.
Proof. intros H. change maskx with (Z.ones 6). rewrite Z.land_ones by lia. change (2 ^ 6) with 64. dlia. Qed.

Lemma value2 b0 b1 : 0xC2 <= b0 < 0xE0 -> 0x80 <= b1 <= 0xBF ->
  (Z.shiftl (b0 &. mask2) 6) |. (b1 &. maskx) = (b0 - 0xC0) * 64 + (b1 - 0x80).
Proof.
  intros H0 Hc1. rewrite cont_bits by lia. change mask2 with (Z.ones 5).
  rewrite Z.land_ones, Z.shiftl_mul_pow2 by lia. rewrite lor_disjoint by (unfold is_uint; lia).
  change (2 ^ 5) with 32. change (2 ^ 6) with 64. dlia.
Qed.

Lemma value3 b0 b1 b2 : 0xE0 <= b0 < 0xF0 -> 0x80 <= b1 <= 0xBF -> 0x80 <= b2 <= 0xBF ->
  (Z.shiftl (b0 &. mask3) 12) |. (Z.shiftl (b1 &. maskx) 6) |. (b2 &. maskx)
  = (b0 - 0xE0) * 4096 + (b1 - 0x80) * 64 + (b2 - 0x80).
Proof.
  intros H0 Hc1 Hc2. rewrite !cont_bits by lia. change mask3 with (Z.ones 4).
  rewrite Z.land_ones, !Z.shiftl_mul_pow2 by lia. rewrite (lor_disjoint _ _ 12) by (unfold is_uint; lia).
  replace (b0 mod 2 ^ 4 * 2 ^ 12 + (b1 - 0x80) * 2 ^ 6)
    with ((b0 mod 2 ^ 4 * 2 ^ 6 + (b1 - 0x80)) * 2 ^ 6) by ring.
  rewrite lor_disjoint by (unfold is_uint; lia). change (2 ^ 4) with 16. change (2 ^ 6) with 64. dlia.
Qed.

Lemma value4 b0 b1 b2 b3 :
  0xF0 <= b0 < 0xF8 -> 0x80 <= b1 <= 0xBF -> 0x80 <= b2 <= 0xBF -> 0x80 <= b3 <= 0xBF ->
  (Z.shiftl (b0 &. mask4) 18) |. (Z.shiftl (b1 &. maskx) 12) |. (Z.shiftl (b2 &. maskx) 6) |. (b3 &. maskx)
  = (b0 - 0xF0) * 262144 + (b1 - 0x80) * 4096 + (b2 - 0x80) * 64 + (b3 - 0x80).
Proof.
  intros H0 Hc1 Hc2 Hc3. rewrite !cont_bits by lia. change mask4 with (Z.ones 3).
  rewrite Z.land_ones, !Z.shiftl_mul_pow2 by lia. rewrite (lor_disjoint _ _ 18) by (unfold is_uint; lia).
  replace (b0 mod 2 ^ 3 * 2 ^ 18 + (b1 - 0x80) * 2 ^ 12)
    with ((b0 mod 2 ^ 3 * 2 ^ 6 + (b1 - 0x80)) * 2 ^ 12) by ring.
  rewrite (lor_disjoint _ _ 12) by (unfold is_uint; lia).
  replace ((b0 mod 2 ^ 3 * 2 ^ 6 + (b1 - 0x80)) * 2 ^ 12 + (b2 - 0x80) * 2 ^ 6)
    with (((b0 mod 2 ^ 3 * 2 ^ 6 + (b1 - 0x80)) * 2 ^ 6 + (b2 - 0x80)) * 2 ^ 6) by ring.
  rewrite lor_disjoint by (unfold is_uint; lia). change (2 ^ 3) with 8. change (2 ^ 6) with 64. dlia.
Qed.

(** ** The decoder is the arithmetic one *)

Ltac ltb_cases := repeat match goal with
  | |- context [?a <? ?b] => destruct (Z.ltb_spec a b); try lia
  | |- context [?a <=? ?b] => destruct (Z.leb_spec a b); try lia
  end.

Lemma lead_range b0 b1 : in_rng b1 (lead_lo b0) (lead_hi b0) = true -> 0x80 <= b1 <= 0xBF.
Proof.
  unfold in_rng, lead_lo, lead_hi.
  destruct (b0 =? 0xE0), (b0 =? 0xF0), (b0 =? 0xED), (b0 =? 0xF4); lia.
Qed.

Lemma DecodeRune_dec p : bytes_ok p -> DecodeRune p = Val (dec p).
Proof.
  intros Hp. destruct Hp as [|b0 q Hb0 Hq]; [done|]. unfold DecodeRune, dec.
  destruct (Z.ltb_spec (zlen (b0 :: q)) 1); [simpl in *; lia|].
  change (index (b0 :: q) 0) with (Val b0). cbn [mbind outcome_bind]. destruct (Z.ltb_spec b0 0x80) as [Ha|Ha].
  { rewrite first_ascii by (done || lia). change (i32 (Z.shiftl as_ 31) >>. 31) with 0.
    cbn [Z.leb as_]. by rewrite ascii_value. }
  destruct (is_lead b0) eqn:Hl; cbn [negb].
  2: { rewrite first_bad by (done || lia). change (i32 (Z.shiftl xx 31) >>. 31) with (-1).
       change (as_ <=? xx) with true. cbn [negb]. rewrite error_value by lia. done. }
  destruct (first_lead b0 Hb0 Hl) as (Hx & -> & -> & ->).
  unfold is_lead in Hl. unfold lead_size. destruct (Z.leb_spec as_ (tab first b0)); [lia|].
  destruct q as [|b1 q]; [cbn [length]; ltb_cases; done|].
  change (index (b0 :: b1 :: q) 1) with (Val b1). cbn [mbind outcome_bind]. rewrite out_of_in.
  destruct (in_rng b1 (lead_lo b0) (lead_hi b0)) eqn:Hc1; cbn [negb].
  2: { by repeat case_match. }
  pose proof (lead_range _ _ Hc1) as Hr1.
  destruct (Z.ltb_spec b0 0xE0).
  { cbn [length]. ltb_cases. rewrite value2 by lia. done. }
  destruct q as [|b2 q]; [cbn [length]; ltb_cases; done|].
  change (index (b0 :: b1 :: b2 :: q) 2) with (Val b2). cbn [mbind outcome_bind]. rewrite out_of_in.
  destruct (in_rng b2 0x80 0xBF) eqn:Hc2; cbn [negb].
  2: { change (in_rng b2 locb hicb) with (in_rng b2 0x80 0xBF). rewrite Hc2. cbn [negb].
       destruct (b0 <? 0xF0); cbn [Z.leb Z.compare Pos.compare Pos.compare_cont]; by repeat case_match. }
  change (in_rng b2 locb hicb) with (in_rng b2 0x80 0xBF). rewrite Hc2. cbn [negb].
  unfold in_rng in Hc2. destruct (Z.ltb_spec b0 0xF0).
  { cbn [length]. ltb_cases. rewrite value3 by lia. done. }
  destruct q as [|b3 q]; [cbn [length]; ltb_cases; done|].
  change (index (b0 :: b1 :: b2 :: b3 :: q) 3) with (Val b3). cbn [mbind outcome_bind]. rewrite out_of_in.
  change (in_rng b3 locb hicb) with (in_rng b3 0x80 0xBF).
  cbn [length]. ltb_cases. cbn [Z.leb Z.compare Pos.compare Pos.compare_cont].
  destruct (in_rng b3 0x80 0xBF) eqn:Hc3; cbn [negb]; [|done]. unfold in_rng in Hc3.
  rewrite value4 by lia. done.
Qed.

(** ** The encoder *)

Definition norm_rune (r : Z) : Z := if ValidRune r then r else RuneError.

Lemma ValidRune_spec r : ValidRune r = true <-> 0 <= r < 0xD800 \/ 0xDFFF < r <= 0x10FFFF.
Proof.
  unfold ValidRune, surrogateMin, surrogateMax, MaxRune.
  destruct (Z.leb_spec 0 r), (Z.ltb_spec r 0xD800), (Z.ltb_spec 0xDFFF r), (Z.leb_spec r 0x10FFFF);
    cbn [andb]; split; intros; try done; lia.
Qed.

Lemma tx_bits x : tx |. (u8 x &. maskx) = 0x80 + x mod 64.
Proof.
  change maskx with (Z.ones 6). rewrite wrap_land, Z.land_ones by (lia || by vm_compute).
  change tx with (2 * 2 ^ 6). rewrite lor_disjoint by (done || apply wrap_is_uint; lia). done.
Qed.

Lemma lead_bits a k x : 0 <= k <= 8 -> 0 <= x < 2 ^ k -> (a * 2 ^ k) |. u8 x = a * 2 ^ k + x.
Proof.
  intros Hk Hx. pose proof (Z.pow_le_mono_r 2 k 8).
  rewrite (wrap_small 8), lor_disjoint by (unfold is_uint; lia). done.
Qed.

Lemma EncodeRune_utf8 p r : is_sint 32 r -> EncodeRune p r = put_bytes p (utf8 (norm_rune r)).
Proof.
  intros Hr. unfold is_sint in Hr. change (2 ^ (32 - 1)) with (2 ^ 31) in Hr.
  unfold EncodeRune, norm_rune. destruct (Z.lt_ge_cases r 0) as [Hn|Hn].
  { replace (u32 r) with (r + 2 ^ 32) by dlia. unfold rune1Max, rune2Max, rune3Max, MaxRune, surrogateMin, surrogateMax.
    ltb_cases. cbn [orb]. destruct (ValidRune r) eqn:Hv; [apply ValidRune_spec in Hv; lia|done]. }
  rewrite wrap_small by (unfold is_uint; lia).
  unfold rune1Max, rune2Max, rune3Max, MaxRune, surrogateMin, surrogateMax, encode3.
  destruct (ValidRune r) eqn:Hv.
  - apply ValidRune_spec in Hv. unfold utf8. rewrite !tx_bits, !Z.shiftr_div_pow2 by lia.
    change (2 ^ 6) with 64. change (2 ^ 12) with 4096. change (2 ^ 18) with 262144.
    destruct (Z.leb_spec r (2 ^ 7 - 1)).
    { ltb_cases. rewrite wrap_small by (unfold is_uint; lia). done. }
    destruct (Z.leb_spec r (2 ^ 11 - 1)).
    { ltb_cases. change t2 with (6 * 2 ^ 5). rewrite lead_bits by dlia. done. }
    destruct (Z.ltb_spec 0x10FFFF r); [lia|]. cbn [orb].
    destruct (Z.leb_spec 0xD800 r), (Z.leb_spec r 0xDFFF); try lia; cbn [andb].
    all: destruct (Z.leb_spec r (2 ^ 16 - 1)); ltb_cases; try lia.
    + change t3 with (14 * 2 ^ 4). rewrite lead_bits by dlia. done.
    + change t4 with (30 * 2 ^ 3). rewrite lead_bits by dlia. done.
    + change t3 with (14 * 2 ^ 4). rewrite lead_bits by dlia. done.
  - assert (~ (0 <= r < 0xD800 \/ 0xDFFF < r <= 0x10FFFF)).
    { intros H. apply ValidRune_spec in H. congruence. }
    ltb_cases; cbn [orb andb]; done || lia.
Qed.

(** ** Round trip and soundness of the decoder *)

Lemma utf8_bytes r : 0 <= r <= MaxRune -> bytes_ok (utf8 r).
Proof.
  unfold MaxRune. intros Hr. unfold utf8. ltb_cases; repeat constructor; unfold is_uint; dlia.
Qed.

Lemma dec_utf8 r rest : ValidRune r = true -> dec (utf8 r ++ rest) = (r, zlen (utf8 r)).
Proof.
  intros Hv. apply ValidRune_spec in Hv. unfold utf8.
  destruct (Z.ltb_spec r 0x80).
  { cbn [app dec]. ltb_cases. done. }
  destruct (Z.ltb_spec r 0x800).
  { cbn [app dec]. unfold is_lead, in_rng, lead_lo, lead_hi.
    assert (0x80 <= 0x80 + r mod 64 <= 0xBF) by dlia.
    assert (0xC2 <= 0xC0 + r / 64 <= 0xDF) by dlia.
    assert (E : (0xC0 + r / 64 - 0xC0) * 64 + (0x80 + r mod 64 - 0x80) = r) by dlia. rewrite E. clear E.
    repeat match goal with |- context [?a =? ?b] => destruct (Z.eqb_spec a b); try lia end.
    all: ltb_cases; done. }
  destruct (Z.ltb_spec r 0x10000).
  { cbn [app dec]. unfold is_lead, in_rng, lead_lo, lead_hi.
    assert (0x80 <= 0x80 + r / 64 mod 64 <= 0xBF) by dlia.
    assert (0x80 <= 0x80 + r mod 64 <= 0xBF) by dlia.
    assert (0xE0 <= 0xE0 + r / 4096 <= 0xEF) by dlia.
    assert (E : (0xE0 + r / 4096 - 0xE0) * 4096 + (0x80 + r / 64 mod 64 - 0x80) * 64
       + (0x80 + r mod 64 - 0x80) = r) by dlia. rewrite E. clear E.
    assert (0xE0 + r / 4096 = 0xE0 -> 0xA0 <= 0x80 + r / 64 mod 64) by dlia.
    assert (0xE0 + r / 4096 = 0xED -> 0x80 + r / 64 mod 64 <= 0x9F) by dlia.
    repeat match goal with |- context [?a =? ?b] => destruct (Z.eqb_spec a b); try lia end.
    all: ltb_cases; done. }
  cbn [app dec]. unfold is_lead, in_rng, lead_lo, lead_hi.
  assert (0x80 <= 0x80 + r / 4096 mod 64 <= 0xBF) by dlia.
  assert (0x80 <= 0x80 + r / 64 mod 64 <= 0xBF) by dlia.
  assert (0x80 <= 0x80 + r mod 64 <= 0xBF) by dlia.
  assert (0xF0 <= 0xF0 + r / 262144 <= 0xF4) by dlia.
  assert (E : (0xF0 + r / 262144 - 0xF0) * 262144 + (0x80 + r / 4096 mod 64 - 0x80) * 4096
    + (0x80 + r / 64 mod 64 - 0x80) * 64 + (0x80 + r mod 64 - 0x80) = r) by dlia. rewrite E. clear E.
  assert (0xF0 + r / 262144 = 0xF0 -> 0x90 <= 0x80 + r / 4096 mod 64) by dlia.
  assert (0xF0 + r / 262144 = 0xF4 -> 0x80 + r / 4096 mod 64 <= 0x8F) by dlia.
  repeat match goal with |- context [?a =? ?b] => destruct (Z.eqb_spec a b); try lia end.
  all: ltb_cases; done.
Qed.

Lemma utf8_len_pos r : 1 <= zlen (utf8 r) <= 4.
Proof. unfold utf8. repeat case_match; simpl; lia. Qed.

(** Either the front of [p] is the encoding of a valid rune, or the result is the error. *)
Inductive dec_result (p : list Z) : Z * Z -> Prop :=
  | dec_valid r rest :
      ValidRune r = true -> p = utf8 r ++ rest -> dec_result p (r, zlen (utf8 r))
  | dec_error : (forall r, ValidRune r = true -> ~ utf8 r `prefix_of` p) -> dec_result p (RuneError, 1).

Lemma dec_error_intro p : dec p = (RuneError, 1) -> dec_result p (RuneError, 1).
Proof.
  intros E. apply dec_error. intros r Hv [rest ->]. rewrite dec_utf8 in E by done.
  injection E as -> E. discriminate E.
Qed.

Lemma dec_valid_intro p r n rest :
  ValidRune r = true -> p = utf8 r ++ rest -> n = zlen (utf8 r) -> dec_result p (r, n).
Proof. intros Hv Hp ->. by apply dec_valid with rest. Qed.

Lemma dec_sound p : bytes_ok p -> p <> [] -> dec_result p (dec p).
Proof.
  intros Hp Hne. destruct Hp as [|b0 q Hb0 Hq]; [done|clear Hne]. unfold is_uint in Hb0.
  destruct (dec (b0 :: q)) as [r n] eqn:E. pose proof E as E0. unfold dec in E.
  destruct (Z.ltb_spec b0 0x80).
  { injection E as <- <-. apply (dec_valid_intro _ _ _ q); [apply ValidRune_spec; lia| ..];
      unfold utf8; ltb_cases; done. }
  destruct (is_lead b0) eqn:Hl; cbn [negb] in E.
  2: { injection E as <- <-. by apply dec_error_intro. }
  unfold is_lead in Hl.
  destruct Hq as [|b1 q Hb1 Hq]; [injection E as <- <-; by apply dec_error_intro|].
  destruct (in_rng b1 (lead_lo b0) (lead_hi b0)) eqn:Hc1; cbn [negb] in E.
  2: { injection E as <- <-. by apply dec_error_intro. }
  pose proof (lead_range _ _ Hc1) as Hr1. unfold in_rng, lead_lo, lead_hi in Hc1.
  destruct (Z.ltb_spec b0 0xE0).
  { injection E as <- <-. set (r := _ + _). apply (dec_valid_intro _ r _ q);
      [apply ValidRune_spec; lia| ..]; unfold utf8; ltb_cases; [|done].
    cbn [app]. repeat f_equal; subst r; dlia. }
  destruct Hq as [|b2 q Hb2 Hq]; [injection E as <- <-; by apply dec_error_intro|].
  destruct (in_rng b2 0x80 0xBF) eqn:Hc2; cbn [negb] in E.
  2: { injection E as <- <-. by apply dec_error_intro. }
  unfold in_rng in Hc2.
  destruct (Z.ltb_spec b0 0xF0).
  { injection E as <- <-. set (r := _ + _). 
    assert (0x800 <= r < 0xD800 \/ 0xDFFF < r < 0x10000).
    { subst r. destruct (Z.eqb_spec b0 0xE0), (Z.eqb_spec b0 0xF0), (Z.eqb_spec b0 0xED), (Z.eqb_spec b0 0xF4); lia. }
    apply (dec_valid_intro _ r _ q);
      [apply ValidRune_spec; lia| ..]; unfold utf8; ltb_cases; try done.
    cbn [app]. repeat f_equal; subst r; dlia. }
  destruct Hq as [|b3 q Hb3 Hq]; [injection E as <- <-; by apply dec_error_intro|].
  destruct (in_rng b3 0x80 0xBF) eqn:Hc3; cbn [negb] in E.
  2: { injection E as <- <-. by apply dec_error_intro. }
  unfold in_rng in Hc3. injection E as <- <-. set (r := _ + _).
  assert (0x10000 <= r <= 0x10FFFF).
  { subst r. destruct (Z.eqb_spec b0 0xE0), (Z.eqb_spec b0 0xF0), (Z.eqb_spec b0 0xED), (Z.eqb_spec b0 0xF4); lia. }
  apply (dec_valid_intro _ r _ q);
    [apply ValidRune_spec; lia| ..]; unfold utf8; ltb_cases; [|done].
  cbn [app]. repeat f_equal; subst r; dlia.
Qed.

Lemma dec_size p : bytes_ok p -> p <> [] -> 1 <= snd (dec p) <= zlen p.
Proof.
  intros Hp Hne. destruct (dec_sound p Hp Hne) as [r rest Hv ->|_]; simpl.
  - pose proof (utf8_len_pos r). rewrite length_app. lia.
  - destruct p; [done|]. simpl. lia.
Qed.

(** ** RuneCount and Valid against the decoder *)

(** The runes of a byte string: the decoder applied until the string is used up. *)
Fixpoint decode_all_fuel (fuel : nat) (p : list Z) : list (Z * Z) :=
  match fuel, p with
  | S fuel, _ :: _ => let d := dec p in d :: decode_all_fuel fuel (drop (Z.to_nat (snd d)) p)
  | _, _ => []
  end.
Definition decode_all (p : list Z) : list (Z * Z) := decode_all_fuel (length p) p.

Lemma decode_all_S fuel p : p <> [] -> decode_all_fuel (S fuel) p
  = dec p :: decode_all_fuel fuel (drop (Z.to_nat (snd (dec p))) p).
Proof. by destruct p. Qed.

(** The byte at an index. *)
Definition byte_at (p : list Z) (i : Z) : Z := nth (Z.to_nat i) p 0.

Lemma index_byte_at p i : 0 <= i < zlen p -> index p i = Val (byte_at p i).
Proof. intros Hi. apply index_Val; [lia|]. unfold byte_at. rewrite nth_lookup. destruct (lookup_lt_is_Some_2 p (Z.to_nat i)) as [x ->]; [lia|done]. Qed.

Lemma index_suffix {A} (p : list A) i k : 0 <= i -> 0 <= k -> index p (i + k) = index (drop (Z.to_nat i) p) k.
Proof. intros Hi Hk. unfold index. rewrite !decide_True by lia. rewrite lookup_drop. do 2 f_equal. by rewrite Z2Nat.inj_add. Qed.

Lemma zlen_drop {A} (p : list A) i : 0 <= i <= zlen p -> zlen (drop (Z.to_nat i) p) = zlen p - i.
Proof. intros Hi. rewrite length_drop. lia. Qed.

(** One multi-byte step of both loops succeeds exactly when the decoder does. *)
Lemma continues_dec p i q b0 :
  0 <= i -> drop (Z.to_nat i) p = b0 :: q -> bytes_ok (b0 :: q) ->
  is_lead b0 = true ->
  let size := tab first b0 &. 7 in
  if i + size <=? zlen p then
    exists good, continues p i size (accept_of (tab first b0)) = Val good
      /\ if good : bool then snd (dec (b0 :: q)) = size /\ 2 <= size else dec (b0 :: q) = (RuneError, 1)
  else dec (b0 :: q) = (RuneError, 1).
Proof.
  intros Hi E Hok Hl. pose proof (Forall_inv Hok) as Hb0. cbv zeta.
  assert (Hn : zlen p = i + zlen (b0 :: q)).
  { rewrite <- E, length_drop. apply (f_equal length) in E. rewrite length_drop in E. simpl in E. lia. }
  destruct (first_lead b0 Hb0 Hl) as (_ & -> & Hlo & Hhi).
  unfold continues. rewrite !index_suffix, E, Hn by lia.
  unfold dec, lead_size. rewrite Hl. unfold is_lead in Hl.
  destruct (Z.ltb_spec b0 0x80); [lia|]. cbn [negb].
  destruct q as [|b1 q]; [cbn [length]; ltb_cases; done|].
  change (index (b0 :: b1 :: q) 1) with (Val b1). cbn [mbind outcome_bind]. rewrite out_of_in, Hlo, Hhi.
  destruct (in_rng b1 (lead_lo b0) (lead_hi b0)); cbn [negb].
  2: { case_match; [by exists false|done]. }
  destruct (Z.ltb_spec b0 0xE0); [cbn [length]; ltb_cases; by exists true|].
  destruct q as [|b2 q]; [cbn [length]; ltb_cases; done|].
  change (index (b0 :: b1 :: b2 :: q) 2) with (Val b2). cbn [mbind outcome_bind]. rewrite out_of_in.
  change (in_rng ?c locb hicb) with (in_rng c 0x80 0xBF).
  destruct (Z.ltb_spec b0 0xF0); cbn [Z.eqb Pos.eqb];
    (destruct (in_rng b2 0x80 0xBF); cbn [negb]; [|case_match; [by exists false|done]]).
  { cbn [length]; ltb_cases; by exists true. }
  destruct q as [|b3 q]; [cbn [length]; ltb_cases; done|].
  change (index (b0 :: b1 :: b2 :: b3 :: q) 3) with (Val b3). cbn [mbind outcome_bind]. rewrite out_of_in.
  change (in_rng ?c locb hicb) with (in_rng c 0x80 0xBF).
  rewrite negb_involutive. cbn [length]. ltb_cases. exists (in_rng b3 0x80 0xBF). by destruct (in_rng b3 0x80 0xBF).
Qed.

Lemma drop_cons_at p i : 0 <= i < zlen p -> exists q, drop (Z.to_nat i) p = byte_at p i :: q.
Proof.
  intros Hi. exists (drop (S (Z.to_nat i)) p). unfold byte_at.
  destruct (lookup_lt_is_Some_2 p (Z.to_nat i)) as [x Hx]; [lia|].
  rewrite (nth_lookup_Some _ _ _ _ Hx). by apply drop_S.
Qed.

Lemma xx_lead b : is_byte b -> 0x80 <= b -> (tab first b =? xx) = negb (is_lead b).
Proof.
  intros Hb H. destruct (is_lead b) eqn:Hl.
  - destruct (first_lead b Hb Hl) as (Hx & _). apply Z.eqb_neq. unfold xx, as_ in *. lia.
  - rewrite first_bad by done. done.
Qed.

Lemma RuneCount_loop_step fuel p i n : bytes_ok p -> 0 <= i < zlen p ->
  RuneCount_loop (S fuel) p i n = RuneCount_loop fuel p (i + snd (dec (drop (Z.to_nat i) p))) (n + 1).
Proof.
  intros Hp Hi. destruct (drop_cons_at p i Hi) as [q E].
  assert (Hok : bytes_ok (byte_at p i :: q)) by (rewrite <- E; by apply Forall_drop).
  rewrite E. pose proof (Forall_inv Hok) as Hb. cbn [RuneCount_loop]. rewrite (proj2 (Z.ltb_lt _ _)) by lia. rewrite index_byte_at by lia. cbn [mbind outcome_bind].
  cbv zeta. set (b0 := byte_at p i) in *. unfold RuneSelf.
  destruct (Z.ltb_spec b0 0x80); [unfold dec; ltb_cases; done|].
  rewrite xx_lead by done. destruct (is_lead b0) eqn:Hl; cbn [negb].
  - pose proof (continues_dec p i q b0 ltac:(lia) E Hok Hl) as C. cbv zeta in C.
    rewrite Z.ltb_antisym. destruct (_ <=? _); cbn [negb] in *; [|by rewrite C].
    destruct C as ([|] & -> & C); cbn [mbind outcome_bind]; [by destruct C as [-> _]|by rewrite C].
  - unfold dec. rewrite Hl. by ltb_cases.
Qed.

Lemma RuneCount_loop_decode fuel p i n : bytes_ok p -> 0 <= i <= zlen p -> zlen p - i <= Z.of_nat fuel ->
  RuneCount_loop (S fuel) p i n = Val (n + zlen (decode_all_fuel fuel (drop (Z.to_nat i) p))).
Proof.
  intros Hp. revert i n. induction fuel as [|fuel IH]; intros i n Hi Hf; (destruct (Z.eq_dec i (zlen p)) as [->|Hne]; [cbn [RuneCount_loop]; rewrite Z.ltb_irrefl, Nat2Z.id, drop_all; simpl; f_equal; lia|]); [lia|].
  rewrite RuneCount_loop_step by (done || lia).
  destruct (drop_cons_at p i ltac:(lia)) as [q E].
  assert (Hok : bytes_ok (drop (Z.to_nat i) p)) by (by apply Forall_drop).
  assert (Hs : 1 <= snd (dec (drop (Z.to_nat i) p)) <= zlen p - i).
  { rewrite <- zlen_drop by lia. apply dec_size; [done|by rewrite E]. }
  rewrite IH, decode_all_S by (lia || by rewrite E). cbn [length].
  rewrite drop_drop. replace (Z.to_nat i + Z.to_nat _)%nat
    with (Z.to_nat (i + snd (dec (drop (Z.to_nat i) p)))) by lia. f_equal. lia.
Qed.

(** A byte string that is the concatenation of encodings of valid runes. *)
Definition well_formed (p : list Z) : Prop :=
  exists rs, Forall (λ r, ValidRune r = true) rs /\ p = concat (map utf8 rs).

Lemma well_formed_cons r q : ValidRune r = true -> well_formed (utf8 r ++ q) <-> well_formed q.
Proof.
  intros Hv. split.
  - intros (rs & Hrs & E). destruct Hrs as [|r' rs Hr' Hrs].
    + destruct (utf8 r) eqn:Eu; [|done]. pose proof (utf8_len_pos r). rewrite Eu in *. simpl in *. lia.
    + cbn [map concat] in E. exists rs. split; [done|].
      pose proof (dec_utf8 r q Hv) as D. rewrite E, dec_utf8 in D by done.
      injection D as -> _. by apply app_inv_head in E.
  - intros (rs & Hrs & ->). exists (r :: rs). split; [by constructor|done].
Qed.

(** Valid goes on exactly when the decoder finds a rune. *)
Lemma Valid_loop_well_formed fuel p i : bytes_ok p -> 0 <= i <= zlen p -> zlen p - i <= Z.of_nat fuel ->
  exists ok, Valid_loop (S fuel) p i = Val ok /\ (ok = true <-> well_formed (drop (Z.to_nat i) p)).
Proof.
  intros Hp. revert i. induction fuel as [|fuel IH]; intros i Hi Hf; (destruct (Z.eq_dec i (zlen p)) as [->|Hne];
    [exists true; cbn [Valid_loop]; rewrite Z.ltb_irrefl, drop_ge by lia; split; [done|split; [intros _; by exists []|done]]|]); [lia|].
  remember (S fuel) as g eqn:Eg in IH, Hf |- *. cbn [Valid_loop]. rewrite (proj2 (Z.ltb_lt i (zlen p))) by lia. rewrite index_byte_at by lia. cbn [mbind outcome_bind].
  destruct (drop_cons_at p i ltac:(lia)) as [q E].
  assert (Hok : bytes_ok (drop (Z.to_nat i) p)) by (by apply Forall_drop).
  pose proof (dec_sound _ Hok) as Hd. rewrite E in *. specialize (Hd ltac:(done)).
  pose proof (Forall_inv Hok) as Hb. set (b0 := byte_at p i) in *.
  assert (Hbad : dec (b0 :: q) = (RuneError, 1) -> 0x80 <= b0 -> false = true <-> well_formed (b0 :: q)).
  { intros D Hge. split; [done|]. intros (rs & Hrs & E'). destruct Hrs as [|r rs Hr Hrs]; [done|].
    cbn [map concat] in E'. rewrite E', dec_utf8 in D by done. injection D as -> D. discriminate D. }
  assert (Hgood : forall n, snd (dec (b0 :: q)) = n -> (b0 < 0x80 \/ 2 <= n) ->
    exists ok, Valid_loop g p (i + n) = Val ok /\ (ok = true <-> well_formed (b0 :: q))).
  { intros n <- Hn. destruct Hd as [r rest Hv Ep|He]; cbn [snd] in *.
    - pose proof (utf8_len_pos r).
      assert (Hl : zlen p - i = zlen (utf8 r) + zlen rest).
      { rewrite <- zlen_drop, E, Ep, length_app by lia. lia. }
      destruct (IH (i + zlen (utf8 r))) as (ok & Eok & Hw); [lia|lia|]. exists ok. split; [exact Eok|]. rewrite Hw, Ep, well_formed_cons by done.
      replace (Z.to_nat (i + zlen (utf8 r))) with (Z.to_nat i + length (utf8 r))%nat by lia.
      rewrite <- drop_drop, E, Ep, drop_app_length. done.
    - exfalso. destruct Hn as [Hn|Hn]; [|lia]. unfold is_uint in Hb.
      apply (He b0); [apply ValidRune_spec; lia|]. unfold utf8. ltb_cases. by exists q. }
  unfold RuneSelf. destruct (Z.ltb_spec b0 0x80).
  { apply (Hgood 1); [unfold dec; by ltb_cases|by left]. }
  rewrite xx_lead by done. destruct (is_lead b0) eqn:Hl; cbn [negb].
  - pose proof (continues_dec p i q b0 ltac:(lia) E Hok Hl) as C. cbv zeta in C.
    rewrite Z.ltb_antisym. destruct (_ <=? _); cbn [negb] in *; [|exists false; split; [done|by apply Hbad]].
    destruct C as ([|] & -> & C); cbn [mbind outcome_bind]; [|exists false; split; [done|by apply Hbad]].
    destruct C as [C1 C2]. by apply (Hgood _ C1); right.
  - exists false. split; [done|]. apply Hbad; [|lia]. unfold dec. rewrite Hl. by ltb_cases.
Qed.

(** ** FullRune *)

(** FullRune in arithmetic. *)
Definition full (p : list Z) : bool :=
  match p with
  | [] => false
  | b0 :: q =>
      if negb (is_lead b0) then true
      else if lead_size b0 <=? zlen p then true
      else
        match q with
        | [] => false
        | b1 :: q =>
            if negb (in_rng b1 (lead_lo b0) (lead_hi b0)) then true
            else match q with [] => false | b2 :: _ => negb (in_rng b2 0x80 0xBF) end
        end
  end.

Lemma FullRune_full p : bytes_ok p -> FullRune p = Val (full p).
Proof.
  intros Hp. destruct Hp as [|b0 q Hb0 Hq]; [done|]. unfold FullRune, full.
  destruct (Z.eqb_spec (zlen (b0 :: q)) 0); [simpl in *; lia|].
  change (index (b0 :: q) 0) with (Val b0). cbn [mbind outcome_bind]. destruct (is_lead b0) eqn:Hl; cbn [negb].
  - destruct (first_lead b0 Hb0 Hl) as (_ & -> & -> & ->).
    destruct (_ <=? _); [done|].
    destruct q as [|b1 q]; [done|]. change (index (b0 :: b1 :: q) 1) with (Val b1).
    cbn [length]. destruct (Z.ltb_spec 1 (Z.of_nat (S (S (length q))))); [|lia]. cbn [mbind outcome_bind]. rewrite out_of_in.
    destruct (negb _); [done|]. destruct q as [|b2 q]; [done|].
    change (index (b0 :: b1 :: b2 :: q) 2) with (Val b2). cbn [length].
    destruct (Z.ltb_spec 2 (Z.of_nat (S (S (S (length q)))))); [|lia]. cbn [mbind outcome_bind]. rewrite out_of_in.
    change (in_rng b2 locb hicb) with (in_rng b2 0x80 0xBF). by destruct (negb _).
  - assert (tab first b0 &. 7 <= 1).
    { destruct (Z.lt_ge_cases b0 0x80); [rewrite first_ascii|rewrite first_bad]; done || (vm_compute; congruence). }
    destruct (Z.leb_spec (tab first b0 &. 7) (zlen (b0 :: q))); [done|]. simpl in *. lia.
Qed.

Lemma is_lead_ascii b : b < 0x80 -> is_lead b = false.
Proof. unfold is_lead. lia. Qed.

Lemma full_stable p ext : full p = true -> dec (p ++ ext) = dec p.
Proof.
  destruct p as [|b0 q]; [done|]. unfold full, dec. cbn [app].
  destruct (Z.ltb_spec b0 0x80); [done|]. destruct (is_lead b0); cbn [negb]; [|done].
  unfold lead_size. destruct q as [|b1 q]; cbn [app length].
  { by ltb_cases. }
  destruct (in_rng b1 _ _); cbn [negb]; [|done]. destruct (Z.ltb_spec b0 0xE0); [done|].
  destruct q as [|b2 q]; cbn [app length].
  { destruct (Z.ltb_spec b0 0xF0); by ltb_cases. }
  destruct (in_rng b2 _ _); cbn [negb]; [|done]. destruct (Z.ltb_spec b0 0xF0); [done|].
  destruct q as [|b3 q]; cbn [app length]; [|done]. by ltb_cases.
Qed.

Lemma lead_bounds b : 0x80 <= lead_lo b <= lead_hi b /\ lead_hi b <= 0xBF.
Proof.
  unfold lead_lo, lead_hi. repeat match goal with |- context [?a =? ?b] => destruct (Z.eqb_spec a b) end; lia.
Qed.

(** What an incomplete sequence still needs. *)
Definition completion (p : list Z) : list Z :=
  match p with
  | [b0] => [lead_lo b0; 0x80; 0x80]
  | _ => [0x80; 0x80]
  end.

Lemma dec_unfold_lead b0 q : is_lead b0 = true -> dec (b0 :: q) =
  match q with
  | b1 :: q =>
      if negb (in_rng b1 (lead_lo b0) (lead_hi b0)) then (RuneError, 1)
      else if b0 <? 0xE0 then ((b0 - 0xC0) * 64 + (b1 - 0x80), 2)
      else
        match q with
        | b2 :: q =>
            if negb (in_rng b2 0x80 0xBF) then (RuneError, 1)
            else if b0 <? 0xF0 then ((b0 - 0xE0) * 4096 + (b1 - 0x80) * 64 + (b2 - 0x80), 3)
            else
              match q with
              | b3 :: _ =>
                  if negb (in_rng b3 0x80 0xBF) then (RuneError, 1)
                  else ((b0 - 0xF0) * 262144 + (b1 - 0x80) * 4096
                        + (b2 - 0x80) * 64 + (b3 - 0x80), 4)
              | [] => (RuneError, 1)
              end
        | [] => (RuneError, 1)
        end
  | [] => (RuneError, 1)
  end.
Proof.
  intros Hl. unfold dec. rewrite Hl. unfold is_lead in Hl.
  destruct (Z.ltb_spec b0 0x80); [lia|done].
Qed.

Lemma full_incomplete p : p <> [] -> full p = false ->
  dec p = (RuneError, 1) /\ bytes_ok (completion p) /\ zlen p < snd (dec (p ++ completion p)).
Proof.
  intros Hne Hf. destruct p as [|b0 q]; [done|]. unfold full, lead_size in Hf.
  destruct (is_lead b0) eqn:Hl; cbn [negb] in Hf; [|done].
  pose proof (lead_bounds b0) as [Hlo Hhi]. rewrite <- app_comm_cons, !dec_unfold_lead by done.
  assert (Hc80 : in_rng 0x80 0x80 0xBF = true) by done.
  destruct q as [|b1 q]; cbn [app completion].
  { split; [done|]. split; [repeat constructor; unfold is_uint; lia|].
    replace (in_rng (lead_lo b0) (lead_lo b0) (lead_hi b0)) with true by (unfold in_rng; lia).
    cbn [negb]. destruct (b0 <? 0xE0); [simpl; lia|]. rewrite Hc80. destruct (b0 <? 0xF0); simpl; lia. }
  destruct (in_rng b1 _ _); cbn [negb] in *; [|by destruct (_ <=? _)].
  destruct (Z.ltb_spec b0 0xE0).
  { exfalso. cbn [length] in Hf. destruct (Z.leb_spec 2 (Z.of_nat (S (S (length q))))); [done|lia]. }
  destruct q as [|b2 q]; cbn [app].
  { split; [done|]. split; [repeat constructor; unfold is_uint; lia|].
    rewrite Hc80. destruct (b0 <? 0xF0); simpl; lia. }
  destruct (in_rng b2 _ _); cbn [negb] in *; [|by destruct (_ <=? _)].
  destruct (Z.ltb_spec b0 0xF0); cbn [length] in Hf.
  { exfalso. destruct (Z.leb_spec 3 (Z.of_nat (S (S (S (length q)))))); [done|lia]. }
  destruct q as [|b3 q]; cbn [app].
  2: { exfalso. cbn [length] in Hf. destruct (Z.leb_spec 4 (Z.of_nat (S (S (S (S (length q))))))); [done|lia]. }
  split; [done|]. split; [repeat constructor; unfold is_uint; lia|]. rewrite Hc80. simpl; lia.
Qed.

(** ** DecodeLastRune *)

Lemma RuneStart_cont b : 0x80 <= b <= 0xBF -> RuneStart b = false.
Proof.
  intros Hb. apply negb_true_iff, (check_range_spec 0x80 64 (λ b, negb (RuneStart b))); [by vm_compute|lia].
Qed.

Lemma RuneStart_lead b : 0xC0 <= b <= 0xFF -> RuneStart b = true.
Proof. intros Hb. apply (check_range_spec 0xC0 64 RuneStart); [by vm_compute|lia]. Qed.

Lemma byte_at_app_r p l k : 0 <= k -> byte_at (p ++ l) (zlen p + k) = byte_at l k.
Proof.
  intros Hk. unfold byte_at. rewrite app_nth2 by lia. f_equal. lia.
Qed.

(** The backward scan stops at the lead byte of the last encoding. *)
Lemma last_start_scan p l k lim fuel : (k < fuel)%nat -> (k < length l)%nat -> lim <= zlen p ->
  RuneStart (byte_at l 0) = true ->
  (forall j, 0 < j <= Z.of_nat k -> RuneStart (byte_at l j) = false) ->
  last_start fuel (p ++ l) (zlen p + Z.of_nat k) lim = Val (zlen p).
Proof.
  intros Hk Hkl Hlim H0. revert fuel Hk Hkl. induction k as [|k IH]; intros fuel Hk Hkl Hj;
    (destruct fuel as [|fuel]; [lia|]); cbn [last_start]; rewrite index_byte_at by (rewrite length_app; lia); rewrite byte_at_app_r by lia; cbn [mbind outcome_bind].
  - rewrite (proj2 (Z.leb_le _ _)) by lia. change (Z.of_nat 0) with 0. rewrite H0. f_equal. lia.
  - rewrite (proj2 (Z.leb_le _ _)) by lia. rewrite Hj by lia.
    replace (zlen p + Z.of_nat (S k) - 1) with (zlen p + Z.of_nat k) by lia.
    apply IH; [lia|lia|]. intros j Hj'. apply Hj. lia.
Qed.

Lemma utf8_tail r j : 0 <= r -> 0x80 <= r -> 0 < j < zlen (utf8 r) -> RuneStart (byte_at (utf8 r) j) = false.
Proof.
  intros Hr Ha Hj. apply RuneStart_cont. unfold utf8 in *.
  destruct (Z.ltb_spec r 0x80); [lia|]. unfold byte_at.
  destruct (Z.ltb_spec r 0x800), (Z.ltb_spec r 0x10000); cbn [length] in Hj;
    assert (j = 1 \/ j = 2 \/ j = 3) as [-> |[-> | ->]] by lia; simpl; try lia; dlia.
Qed.

Lemma utf8_head r : 0x80 <= r <= MaxRune -> RuneStart (byte_at (utf8 r) 0) = true.
Proof.
  unfold MaxRune. intros Hr. apply RuneStart_lead. unfold utf8, byte_at.
  destruct (Z.ltb_spec r 0x80); [lia|].
  destruct (Z.ltb_spec r 0x800), (Z.ltb_spec r 0x10000); simpl; try lia; dlia.
Qed.

Lemma utf8_last r : 0x80 <= r -> 0x80 <= byte_at (utf8 r) (zlen (utf8 r) - 1).
Proof.
  intros Hr. unfold utf8, byte_at. ltb_cases; simpl; dlia.
Qed.

Lemma DecodeLastRune_utf8 p r : bytes_ok p -> ValidRune r = true ->
  DecodeLastRune (p ++ utf8 r) = Val (r, zlen (utf8 r)).
Proof.
  intros Hp Hv. pose proof (proj1 (ValidRune_spec r) Hv) as Hr. pose proof (utf8_len_pos r) as Hl.
  unfold DecodeLastRune. rewrite index_byte_at by (rewrite length_app; lia). rewrite length_app, Nat2Z.inj_add. cbn [mbind outcome_bind].
  destruct (Z.eqb_spec (zlen p + zlen (utf8 r)) 0); [lia|].
  replace (zlen p + zlen (utf8 r) - 1) with (zlen p + (zlen (utf8 r) - 1)) by lia.
  rewrite byte_at_app_r by lia. unfold RuneSelf, UTFMax.
  destruct (Z.lt_ge_cases r 0x80).
  { assert (utf8 r = [r]) as -> by (unfold utf8; by ltb_cases).
    change (byte_at [r] (zlen [r] - 1)) with r. by ltb_cases. }
  pose proof (utf8_last r ltac:(lia)).
  destruct (Z.ltb_spec (byte_at (utf8 r) (zlen (utf8 r) - 1)) 0x80); [lia|].
  assert (2 <= zlen (utf8 r)).
  { unfold utf8. ltb_cases; simpl; lia. }
  set (lim := if zlen p + zlen (utf8 r) - 4 <? 0 then 0 else _).
  assert (zlen (utf8 r) <= 4) by (unfold utf8; ltb_cases; simpl; lia).
  replace (zlen p + (zlen (utf8 r) - 1) - 1) with (zlen p + Z.of_nat (length (utf8 r) - 2)) by lia.
  rewrite last_start_scan; [|lia|lia|subst lim; ltb_cases|apply utf8_head; unfold MaxRune; lia|].
  2: { intros j Hj. apply utf8_tail; lia. }
  cbn [mbind outcome_bind]. destruct (Z.ltb_spec (zlen p) 0); [lia|]. replace (zlen p + zlen (utf8 r)) with (zlen (p ++ utf8 r)) by apply zlen_app. rewrite slice_from by (rewrite zlen_app; lia). rewrite Nat2Z.id, drop_app_length. cbn [mbind outcome_bind].
  rewrite DecodeRune_dec by (apply utf8_bytes; unfold MaxRune; lia).
  rewrite <- (app_nil_r (utf8 r)) at 1. rewrite dec_utf8 by done. cbn [mbind outcome_bind]. by rewrite zlen_app, Z.eqb_refl.
Qed.

Lemma last_start_lower fuel p start lim : 0 <= lim -> lim - 1 <= start < zlen p -> start - lim + 1 < Z.of_nat fuel -> exists st, last_start fuel p start lim = Val st /\ lim - 1 <= st <= start.
Proof.
  intros H0. revert start. induction fuel as [|fuel IH]; intros start H Hf; [lia|]. cbn [last_start].
  destruct (Z.leb_spec lim start); [|exists start; split; [done|lia]]. rewrite index_byte_at by lia. cbn [mbind outcome_bind]. destruct (RuneStart _); [exists start; split; [done|lia]|].
  destruct (IH (start - 1)) as (st & E & Hst); [lia|lia|]. exists st. split; [exact E|lia].
Qed.

Lemma DecodeLastRune_suffix p : bytes_ok p -> p <> [] ->
  DecodeLastRune p = Val (RuneError, 1) \/
  exists q r, ValidRune r = true /\ p = q ++ utf8 r /\ DecodeLastRune p = Val (r, zlen (utf8 r)).
Proof.
  intros Hp Hne. unfold DecodeLastRune.
  destruct (Z.eqb_spec (zlen p) 0); [destruct p; [done|simpl in *; lia]|]. rewrite index_byte_at by lia. cbn [mbind outcome_bind].
  unfold RuneSelf, UTFMax. destruct (Z.ltb_spec (byte_at p (zlen p - 1)) 0x80).
  { right. destruct (drop_cons_at p (zlen p - 1)) as [q E]; [lia|].
    assert (q = []) as ->.
    { apply (f_equal length) in E. rewrite length_drop in E. destruct q; [done|simpl in E; lia]. }
    pose proof (Forall_drop is_byte (Z.to_nat (zlen p - 1)) p Hp) as Hb. rewrite E in Hb.
    apply Forall_inv in Hb. unfold is_uint in Hb.
    exists (take (Z.to_nat (zlen p - 1)) p), (byte_at p (zlen p - 1)).
    assert (utf8 (byte_at p (zlen p - 1)) = [byte_at p (zlen p - 1)]) as -> by (unfold utf8; by ltb_cases).
    split_and!; [apply ValidRune_spec; lia|by rewrite <- E, take_drop|done]. }
  set (lim := if zlen p - 4 <? 0 then 0 else _).
  assert (Hlim : 0 <= lim <= zlen p - 1 /\ zlen p - 4 <= lim) by (subst lim; ltb_cases).
  destruct (last_start_lower 4 p (zlen p - 1 - 1) lim) as (st & Est & Hst); [lia|lia|lia|]. rewrite Est. cbn [mbind outcome_bind].
  set (s := if st <? 0 then 0 else st) in *. assert (Hs : 0 <= s < zlen p) by (subst s; ltb_cases).
  destruct (drop_cons_at p s Hs) as [q E].
  assert (Hok : bytes_ok (drop (Z.to_nat s) p)) by (by apply Forall_drop).
  rewrite slice_from by lia. cbn [mbind outcome_bind]. rewrite DecodeRune_dec by done. cbn [mbind outcome_bind].
  destruct (dec_sound (drop (Z.to_nat s) p) Hok) as [r rest Hv Er|_]; [by rewrite E| |].
  - destruct (Z.eqb_spec (s + zlen (utf8 r)) (zlen p)) as [Es|Es]; cbn [negb]; [|by left]. right.
    assert (rest = []) as ->.
    { apply (f_equal length) in Er. rewrite length_drop, length_app in Er. destruct rest; [done|simpl in Er; lia]. }
    exists (take (Z.to_nat s) p), r. rewrite app_nil_r in Er. split_and!; [done|by rewrite <- Er, take_drop|done].
  - left. by destruct (_ =? _).
Qed.

(** ** Properties *)

(** C3. Encoding then decoding: EncodeRune writes, at the front of any buffer large enough, the
    UTF-8 bytes of the rune (of U+FFFD for a surrogate, negative or too large rune), panics when
    the buffer is too small, and DecodeRune reads the same rune back whatever bytes follow; its
    length is RuneLen for a valid rune. *)
Theorem EncodeRune_DecodeRune p r rest :
  is_sint 32 r -> bytes_ok rest ->
  let v := if ValidRune r then r else RuneError in
  EncodeRune p r =
    (if zlen (utf8 v) <=? zlen p then Val (utf8 v ++ drop (length (utf8 v)) p, zlen (utf8 v))
     else Panic IndexOutOfRange)
  /\ DecodeRune (utf8 v ++ rest) = Val (v, zlen (utf8 v))
  /\ RuneLen r = if ValidRune r then zlen (utf8 r) else -1.
Proof.
  intros Hr Hrest. cbv zeta. fold (norm_rune r).
  assert (Hv : ValidRune (norm_rune r) = true) by (unfold norm_rune; by destruct (ValidRune r) eqn:?).
  split_and!.
  - rewrite EncodeRune_utf8 by done. done.
  - pose proof (proj1 (ValidRune_spec _) Hv). rewrite DecodeRune_dec; [by rewrite dec_utf8|].
    apply Forall_app; split; [apply utf8_bytes; unfold MaxRune; lia|done].
  - unfold RuneLen, ValidRune, utf8, rune1Max, rune2Max, rune3Max, surrogateMin, surrogateMax, MaxRune.
    ltb_cases; done.
Qed.

Lemma EncodeRune_DecodeRune_witness :
  EncodeRune [0; 0; 0; 0] 0x20AC = Val ([0xE2; 0x82; 0xAC; 0], 3)
  /\ DecodeRune ([0xE2; 0x82; 0xAC] ++ [0x41]) = Val (0x20AC, 3).
Proof.
  destruct (EncodeRune_DecodeRune [0; 0; 0; 0] 0x20AC [0x41]) as (H1 & H2 & _);
    [unfold is_sint; lia|repeat constructor; unfold is_uint; lia|].
  split; [exact H1|exact H2].
Defined.

(** C8. The decoder is sound and complete: on a non-empty byte string DecodeRune either returns
    the valid rune whose shortest encoding is the front of the string, with that encoding's
    length, or it returns (RuneError, 1), and then no valid rune's encoding is a prefix. *)
Theorem DecodeRune_sound p :
  bytes_ok p -> p <> [] ->
  (exists r rest, DecodeRune p = Val (r, zlen (utf8 r)) /\ ValidRune r = true /\ p = utf8 r ++ rest)
  \/ (DecodeRune p = Val (RuneError, 1) /\ forall r, ValidRune r = true -> ~ utf8 r `prefix_of` p).
Proof.
  intros Hp Hne. rewrite DecodeRune_dec by done. destruct (dec_sound p Hp Hne) as [r rest Hv E|He].
  - left. by exists r, rest.
  - by right.
Qed.

Lemma DecodeRune_sound_witness :
  (exists r rest, DecodeRune [0xC0; 0x80] = Val (r, zlen (utf8 r)) /\ ValidRune r = true
     /\ [0xC0; 0x80] = utf8 r ++ rest)
  \/ (DecodeRune [0xC0; 0x80] = Val (RuneError, 1)
      /\ forall r, ValidRune r = true -> ~ utf8 r `prefix_of` [0xC0; 0x80]).
Proof.
  apply (DecodeRune_sound [0xC0; 0x80]); [repeat constructor; unfold is_uint; lia|done].
Defined.

(** Valid and RuneCount end without a panic: Valid accepts exactly the concatenations of encodings of valid
    runes, and RuneCount counts the runes that repeated decoding finds, one per byte of an invalid sequence. *)
Theorem Valid_RuneCount p :
  bytes_ok p ->
  (exists ok, Valid p = Val ok /\ (ok = true <-> exists rs, Forall (λ r, ValidRune r = true) rs /\ p = concat (map utf8 rs)))
  /\ RuneCount p = Val (zlen (decode_all p)).
Proof.
  intros Hp. split.
  - destruct (Valid_loop_well_formed (length p) p 0) as (ok & E & H); [done|lia|lia|]. exists ok. split; [exact E|exact H].
  - unfold RuneCount. rewrite RuneCount_loop_decode by (done || lia). done.
Qed.

Lemma Valid_RuneCount_witness :
  (exists ok, Valid [0x41; 0xC3; 0xA9; 0xFF] = Val ok /\ (ok = true <->
   exists rs, Forall (λ r, ValidRune r = true) rs /\ [0x41; 0xC3; 0xA9; 0xFF] = concat (map utf8 rs)))
  /\ RuneCount [0x41; 0xC3; 0xA9; 0xFF] = Val 3.
Proof.
  apply (Valid_RuneCount [0x41; 0xC3; 0xA9; 0xFF]). repeat constructor; unfold is_uint; lia.
Defined.

(** FullRune answers whether the decoding of the first rune is settled: when it says yes, no
    further bytes change what DecodeRune returns; when it says no on a non-empty string, the
    string is a proper prefix of a valid encoding. *)
Theorem FullRune_settled p :
  bytes_ok p ->
  (FullRune p = Val true /\ forall ext, bytes_ok ext -> DecodeRune (p ++ ext) = DecodeRune p)
  \/ (FullRune p = Val false /\ (p = [] \/ (DecodeRune p = Val (RuneError, 1) /\
    exists ext r size, bytes_ok ext /\ DecodeRune (p ++ ext) = Val (r, size) /\ zlen p < size))).
Proof.
  intros Hp. rewrite FullRune_full by done. destruct (full p) eqn:Hf; [left|right]; (split; [done|]).
  - intros ext He. rewrite !DecodeRune_dec by (try apply Forall_app; done). by rewrite full_stable.
  - destruct p as [|b q]; [by left|right]. destruct (full_incomplete (b :: q)) as (H1 & H2 & H3); [done..|].
    rewrite DecodeRune_dec by done. split; [by rewrite H1|]. exists (completion (b :: q)), (fst (dec ((b :: q) ++ completion (b :: q)))), (snd (dec ((b :: q) ++ completion (b :: q)))). split; [done|].
    split; [|done]. rewrite DecodeRune_dec by (exact (proj2 (Forall_app _ _ _) (conj Hp H2))). by rewrite <- surjective_pairing.
Qed.

Lemma FullRune_settled_witness :
  (FullRune [0xF0; 0x9F] = Val true /\ forall ext, bytes_ok ext -> DecodeRune ([0xF0; 0x9F] ++ ext) = DecodeRune [0xF0; 0x9F])
  \/ (FullRune [0xF0; 0x9F] = Val false /\ ([0xF0; 0x9F] = [] \/ (DecodeRune [0xF0; 0x9F] = Val (RuneError, 1) /\
    exists ext r size, bytes_ok ext /\ DecodeRune ([0xF0; 0x9F] ++ ext) = Val (r, size) /\ zlen [0xF0; 0x9F] < size))).
Proof. apply (FullRune_settled [0xF0; 0x9F]). repeat constructor; unfold is_uint; lia. Defined.

(** DecodeLastRune decodes backwards: it returns the rune whose encoding ends the string,
    and whenever it returns anything but (RuneError, 1) the string ends in that encoding. *)
Theorem DecodeLastRune_last p :
  bytes_ok p ->
  (forall r, ValidRune r = true -> DecodeLastRune (p ++ utf8 r) = Val (r, zlen (utf8 r)))
  /\ (p <> [] -> DecodeLastRune p = Val (RuneError, 1) \/
      exists q r, ValidRune r = true /\ p = q ++ utf8 r /\ DecodeLastRune p = Val (r, zlen (utf8 r))).
Proof.
  intros Hp. split; [intros r Hv; by apply DecodeLastRune_utf8|intros Hne; by apply DecodeLastRune_suffix].
Qed.

Lemma DecodeLastRune_last_witness : DecodeLastRune ([0x41; 0xFF] ++ utf8 0x1F600) = Val (0x1F600, 4).
Proof.
  apply (DecodeLastRune_last [0x41; 0xFF]); [repeat constructor; unfold is_uint; lia|reflexivity].
Defined.
