(* ===== verification/Utf16.v ===== *)
(** * unicode/utf16

    UTF-16 surrogate pairs (src/Source/Gold/unicode/utf16/utf16.go).  Runes are signed
    32-bit values; the code units are 16-bit words.  Output slices are allocated first and
    written by index, so each write is a [store] that could panic. *)

From S2P Require Import Prelude.

Local Open Scope go_scope.

Definition replacementChar : Z := 0xFFFD.
Definition maxRune : Z := 0x10FFFF.
Definition surr1 : Z := 0xd800.
Definition surr2 : Z := 0xdc00.
Definition surr3 : Z := 0xe000.
Definition surrSelf : Z := 0x10000.

Definition IsSurrogate (r : Z) : bool := (surr1 <=? r) && (r <? surr3).

Definition DecodeRune (r1 r2 : Z) : Z :=
  if (surr1 <=? r1) && (r1 <? surr2) && (surr2 <=? r2) && (r2 <? surr3)
  then i32 ((i32 (Z.shiftl (i32 (r1 - surr1)) 10) |. i32 (r2 - surr2)) + surrSelf)
  else replacementChar.

Definition EncodeRune (r : Z) : Z * Z :=
  if (r <? surrSelf) || (maxRune <? r) then (replacementChar, replacementChar)
  else
    let r := i32 (r - surrSelf) in
    (i32 (surr1 + ((r >>. 10) &. 0x3ff)), i32 (surr2 + (r &. 0x3ff))).

(** The size the first loop of Encode computes. *)
Fixpoint encode_size (s : list Z) (n : Z) : Z :=
  match s with
  | [] => n
  | v :: s => encode_size s (if surrSelf <=? v then n + 1 else n)
  end.

Fixpoint encode_loop (s : list Z) (a : list Z) (n : Z) : outcome (list Z * Z) :=
  match s with
  | [] => Val (a, n)
  | v :: s =>
      if ((0 <=? v) && (v <? surr1)) || ((surr3 <=? v) && (v <? surrSelf)) then
        a ← store a n (u16 v); encode_loop s a (n + 1)
      else if (surrSelf <=? v) && (v <=? maxRune) then
        let '(r1, r2) := EncodeRune v in
        a ← store a n (u16 r1);
        a ← store a (n + 1) (u16 r2);
        encode_loop s a (n + 2)
      else
        a ← store a n (u16 replacementChar); encode_loop s a (n + 1)
  end.

Definition Encode (s : list Z) : outcome (list Z) :=
  let n := encode_size s (zlen s) in
  '(a, n) ← encode_loop s (make 0 n) 0;
  slice a 0 n.

(** The loop over [i]; [r] is [s[i]] and a surrogate pair consumes two units. *)
Fixpoint decode_loop (fuel : nat) (s a : list Z) (i n : Z) : outcome (list Z * Z) :=
  match fuel with
  | O => NoFuel
  | S fuel =>
      if i <? zlen s then
        r ← index s i;
        if (r <? surr1) || (surr3 <=? r) then
          a ← store a n r; decode_loop fuel s a (i + 1) (n + 1)
        else
          pair ← (if (surr1 <=? r) && (r <? surr2) && (i + 1 <? zlen s)
                  then r2 ← index s (i + 1); Val ((surr2 <=? r2) && (r2 <? surr3)) else Val false);
          if pair : bool then r2 ← index s (i + 1); a ← store a n (DecodeRune r r2); decode_loop fuel s a (i + 2) (n + 1)
          else a ← store a n replacementChar; decode_loop fuel s a (i + 1) (n + 1)
      else Val (a, n)
  end.

Definition Decode (s : list Z) : outcome (list Z) :=
  '(a, n) ← decode_loop (S (length s)) s (make 0 (zlen s)) 0 0;
  slice a 0 n.

(** ** Specification *)

Definition in_bmp (r : Z) : bool := ((0 <=? r) && (r <? 0xd800)) || ((0xe000 <=? r) && (r <? 0x10000)).

(** The code units of one rune. *)
Definition units (r : Z) : list Z :=
  if in_bmp r then [r]
  else if (0x10000 <=? r) && (r <=? 0x10FFFF) then
    [0xd800 + (r - 0x10000) / 1024; 0xdc00 + r mod 1024]
  else [0xFFFD].

Definition norm16 (r : Z) : Z :=
  if in_bmp r || ((0x10000 <=? r) && (r <=? 0x10FFFF)) then r else 0xFFFD.

(** The decoder as a function of the remaining units. *)
Fixpoint runes16 (s : list Z) : list Z :=
  match s with
  | [] => []
  | r :: t =>
      if (r <? 0xd800) || (0xe000 <=? r) then r :: runes16 t
      else
        match t with
        | r2 :: t' =>
            if (r <? 0xdc00) && (0xdc00 <=? r2) && (r2 <? 0xe000)
            then ((r - 0xd800) * 1024 + (r2 - 0xdc00) + 0x10000) :: runes16 t'
            else 0xFFFD :: runes16 t
        | [] => [0xFFFD]
        end
  end.

Lemma EncodeRune_units r : 0x10000 <= r <= 0x10FFFF ->
  EncodeRune r = (0xd800 + (r - 0x10000) / 1024, 0xdc00 + r mod 1024).
Proof.
  intros Hr. unfold EncodeRune, surrSelf, maxRune, surr1, surr2.
  destruct (Z.ltb_spec r 0x10000), (Z.ltb_spec 0x10FFFF r); try lia. cbn [orb].
  change 0x3ff with (Z.ones 10). rewrite !Z.land_ones, Z.shiftr_div_pow2 by lia.
  rewrite (swrap_small 32 (r - _)) by (apply is_sint32; lia).
  change (2 ^ 10) with 1024. rewrite !swrap_small by (apply is_sint32; dlia). f_equal; dlia.
Qed.

Lemma DecodeRune_pair a b : 0xd800 <= a < 0xdc00 -> 0xdc00 <= b < 0xe000 ->
  DecodeRune a b = (a - 0xd800) * 1024 + (b - 0xdc00) + 0x10000.
Proof.
  intros Ha Hb. unfold DecodeRune, surr1, surr2, surr3, surrSelf.
  destruct (Z.leb_spec 0xd800 a), (Z.ltb_spec a 0xdc00), (Z.leb_spec 0xdc00 b), (Z.ltb_spec b 0xe000);
    try lia. cbn [andb].
  rewrite (swrap_small 32 (a - _)), (swrap_small 32 (b - _)) by (apply is_sint32; lia).
  rewrite Z.shiftl_mul_pow2, (swrap_small 32 (_ * _)) by first [lia | apply is_sint32; lia].
  rewrite lor_disjoint by (unfold is_uint; lia). change (2 ^ 10) with 1024.
  rewrite swrap_small by (apply is_sint32; lia). done.
Qed.

Lemma units_16 r : Forall (is_uint 16) (units r).
Proof.
  unfold units, in_bmp.
  destruct (Z.leb_spec 0 r), (Z.ltb_spec r 0xd800), (Z.leb_spec 0xe000 r), (Z.ltb_spec r 0x10000),
    (Z.leb_spec 0x10000 r), (Z.leb_spec r 0x10FFFF); cbn [andb orb];
    repeat constructor; unfold is_uint; try lia; dlia.
Qed.

(** Each rune appends its units. *)
Lemma encode_loop_units s dn rest :
  (length (concat (map units s)) <= length rest)%nat ->
  exists rest', encode_loop s (dn ++ rest) (zlen dn)
    = Val (dn ++ concat (map units s) ++ rest', zlen (dn ++ concat (map units s))).
Proof.
  revert dn rest. induction s as [|v s IH]; intros dn rest Hr.
  { exists rest. cbn [encode_loop map concat app]. by rewrite app_nil_r. }
  assert (Hone : forall x, units v = [x] -> exists rest',
    (a ← store (dn ++ rest) (zlen dn) x; encode_loop s a (zlen dn + 1))
    = Val (dn ++ concat (map units (v :: s)) ++ rest', zlen (dn ++ concat (map units (v :: s))))).
  { intros x Ex. cbn [map concat] in *. rewrite Ex in *. destruct rest as [|y rest]; [simpl in Hr; lia|].
    rewrite store_app. cbn [mbind outcome_bind].
    destruct (IH (dn ++ [x]) rest) as [rest' E]; [simpl in Hr; lia|].
    exists rest'. rewrite zlen_snoc, <- !app_assoc in E. exact E. }
  cbn [encode_loop]. unfold surr1, surr3, surrSelf, maxRune. fold (in_bmp v).
  destruct (in_bmp v) eqn:Hb.
  { assert (is_uint 16 v) by (unfold in_bmp in Hb; unfold is_uint; lia).
    rewrite wrap_small by done. apply Hone. unfold units. by rewrite Hb. }
  destruct ((0x10000 <=? v) && (v <=? 0x10FFFF)) eqn:Hs.
  2: { change (u16 replacementChar) with 0xFFFD. apply Hone. unfold units. by rewrite Hb, Hs. }
  rewrite EncodeRune_units by lia. pose proof (units_16 v) as Hu. unfold units in Hu.
  rewrite Hb, Hs in Hu. apply Forall_cons in Hu as [Hu1 Hu]. apply Forall_cons in Hu as [Hu2 _].
  rewrite !wrap_small by done. cbn [map concat] in Hr |- *.
  assert (Eu : units v = [0xd800 + (v - 0x10000) / 1024; 0xdc00 + v mod 1024])
    by (unfold units; by rewrite Hb, Hs).
  rewrite Eu in *. set (x := 0xd800 + _) in *. set (y := 0xdc00 + _) in *.
  destruct rest as [|z1 [|z2 rest]]; [simpl in Hr; lia..|]. rewrite store_app. cbn [mbind outcome_bind].
  replace (dn ++ x :: z2 :: rest) with ((dn ++ [x]) ++ z2 :: rest) by (by rewrite <- app_assoc).
  replace (zlen dn + 1) with (zlen (dn ++ [x])) by apply zlen_snoc.
  rewrite store_app. cbn [mbind outcome_bind].
  destruct (IH (dn ++ [x; y]) rest) as [rest' E]; [simpl in Hr; lia|].
  exists rest'. rewrite zlen_snoc2, <- !app_assoc in E. rewrite <- app_assoc. exact E.
Qed.

Lemma encode_size_bound s n : n - zlen s + zlen (concat (map units s)) <= encode_size s n.
Proof.
  revert n. induction s as [|v s IH]; intros n; cbn [encode_size map concat length]; [lia|].
  rewrite length_app. specialize (IH (if surrSelf <=? v then n + 1 else n)). unfold surrSelf in *.
  assert (zlen (units v) <= if 0x10000 <=? v then 2 else 1).
  { unfold units, in_bmp. destruct (Z.leb_spec 0x10000 v), (Z.leb_spec v 0x10FFFF); cbn [andb];
      repeat case_match; simpl; lia. }
  destruct (0x10000 <=? v); lia.
Qed.

Lemma Encode_units s : Encode s = Val (concat (map units s)).
Proof.
  unfold Encode. pose proof (encode_size_bound s (zlen s)) as Hb.
  destruct (encode_loop_units s [] (make 0 (encode_size s (zlen s)))) as [rest' E].
  { pose proof (length_make 0 (encode_size s (zlen s))). lia. }
  cbn [app] in E. change (zlen []) with 0 in E. rewrite E. cbn [mbind outcome_bind].
  apply slice_app_l.
Qed.

Lemma drop_lookup_cons {A} (s : list A) i r t :
  drop i s = r :: t -> s !! i = Some r /\ drop (S i) s = t /\ (i < length s)%nat.
Proof.
  intros E. assert (Hl : (i < length s)%nat).
  { destruct (le_lt_dec (length s) i) as [H|]; [|done]. rewrite drop_ge in E by lia. done. }
  destruct (lookup_lt_is_Some_2 s i Hl) as [x Hx].
  pose proof (drop_S s x i Hx) as E'. rewrite E in E'. injection E' as -> ->. done.
Qed.

Lemma decode_loop_runes fuel s i t dn rest :
  drop i s = t -> (i <= length s)%nat -> (length t < fuel)%nat -> (length t <= length rest)%nat ->
  exists rest', decode_loop fuel s (dn ++ rest) (Z.of_nat i) (zlen dn)
    = Val (dn ++ runes16 t ++ rest', zlen (dn ++ runes16 t)).
Proof.
  revert i t dn rest. induction fuel as [|fuel IH]; intros i t dn rest Et Hi Hf Hr; [lia|].
  cbn [decode_loop]. destruct t as [|r t].
  { exists rest. destruct (Z.ltb_spec (Z.of_nat i) (zlen s)).
    - apply (f_equal length) in Et. rewrite length_drop in Et. simpl in Et. lia.
    - cbn [runes16 app]. by rewrite app_nil_r. }
  destruct (drop_lookup_cons s i r t Et) as (Hs & Et' & Hlt).
  destruct (Z.ltb_spec (Z.of_nat i) (zlen s)); [|lia].
  rewrite (index_Val s (Z.of_nat i) r) by (lia || by rewrite Nat2Z.id). cbn [mbind outcome_bind].
  destruct rest as [|y rest]; [simpl in Hr; lia|].
  assert (Hone : forall x j t', runes16 (r :: t) = x :: runes16 t' -> drop j s = t' ->
    (j <= length s)%nat -> (length t' <= length t)%nat -> exists rest',
    (a ← store (dn ++ y :: rest) (zlen dn) x; decode_loop fuel s a (Z.of_nat j) (zlen dn + 1))
    = Val (dn ++ runes16 (r :: t) ++ rest', zlen (dn ++ runes16 (r :: t)))).
  { intros x j t' Ex Ej Hj Hlen. rewrite store_app. cbn [mbind outcome_bind].
    destruct (IH j t' (dn ++ [x]) rest Ej Hj) as [rest' E]; [simpl in Hf; lia|simpl in Hr; lia|].
    exists rest'. rewrite Ex. rewrite zlen_snoc, <- !app_assoc in E. exact E. }
  replace (Z.of_nat i + 1) with (Z.of_nat (S i)) by lia.
  replace (Z.of_nat i + 2) with (Z.of_nat (S (S i))) by lia.
  unfold surr1, surr2, surr3.
  destruct ((r <? 0xd800) || (0xe000 <=? r)) eqn:Hbmp.
  { apply (Hone r (S i) t); try done; try lia. cbn [runes16]. by rewrite Hbmp. }
  destruct (Z.leb_spec 0xd800 r); [|lia]. cbn [andb].
  destruct t as [|r2 t].
  { assert (E : (Z.of_nat (S i) <? zlen s) = false).
    { apply (f_equal length) in Et'. rewrite length_drop in Et'. cbn [length] in Et'. apply Z.ltb_ge. lia. }
    rewrite E, andb_false_r. cbn [mbind outcome_bind andb].
    apply (Hone replacementChar (S i) []); try done; try lia. cbn [runes16]. by rewrite Hbmp. }
  destruct (drop_lookup_cons s (S i) r2 t Et') as (Hs2 & Et2 & Hlt2).
  destruct (Z.ltb_spec (Z.of_nat (S i)) (zlen s)); [|lia]. rewrite andb_true_r.
  destruct (Z.ltb_spec r 0xdc00).
  2: { cbn [mbind outcome_bind andb]. apply (Hone replacementChar (S i) (r2 :: t)); try done; try lia.
       cbn [runes16]. rewrite Hbmp. destruct (Z.ltb_spec r 0xdc00); [lia|done]. }
  rewrite !(index_Val s (Z.of_nat (S i)) r2) by (lia || by rewrite Nat2Z.id).
  cbn [mbind outcome_bind andb].
  destruct ((0xdc00 <=? r2) && (r2 <? 0xe000)) eqn:Hr2.
  - rewrite DecodeRune_pair by lia. apply (Hone _ (S (S i)) t); try done; try (simpl; lia).
    cbn [runes16]. rewrite Hbmp. destruct (Z.ltb_spec r 0xdc00); [|lia]. cbn [andb]. by rewrite Hr2.
  - apply (Hone replacementChar (S i) (r2 :: t)); try done; try lia.
    cbn [runes16]. rewrite Hbmp. destruct (Z.ltb_spec r 0xdc00); [|lia]. cbn [andb]. by rewrite Hr2.
Qed.

Lemma Decode_runes s : Decode s = Val (runes16 s).
Proof.
  unfold Decode. destruct (decode_loop_runes (S (length s)) s 0 s [] (make 0 (zlen s))) as [rest' E];
    [done|lia|lia|unfold make; rewrite length_replicate; lia|].
  cbn [app] in E. change (zlen []) with 0 in E. change (Z.of_nat 0) with 0 in E.
  rewrite E. cbn [mbind outcome_bind]. apply slice_app_l.
Qed.

Lemma runes16_units v s : runes16 (units v ++ s) = norm16 v :: runes16 s.
Proof.
  unfold units, norm16. destruct (in_bmp v) eqn:Hb; cbn [orb].
  { cbn [app runes16]. unfold in_bmp in Hb. replace ((v <? 0xd800) || (0xe000 <=? v)) with true by lia. done. }
  destruct ((0x10000 <=? v) && (v <=? 0x10FFFF)) eqn:Hs; [|done].
  assert (0xd800 <= 0xd800 + (v - 0x10000) / 1024 < 0xdc00) by dlia.
  assert (0xdc00 <= 0xdc00 + v mod 1024 < 0xe000) by dlia.
  assert (E : (0xd800 + (v - 0x10000) / 1024 - 0xd800) * 1024 + (0xdc00 + v mod 1024 - 0xdc00) + 0x10000 = v) by dlia.
  cbn [app runes16]. rewrite E. set (x := 0xd800 + _) in *. set (y := 0xdc00 + _) in *.
  replace ((x <? 0xd800) || (0xe000 <=? x)) with false by lia.
  replace ((x <? 0xdc00) && (0xdc00 <=? y) && (y <? 0xe000)) with true by lia. done.
Qed.

(** ** Properties *)

(** C38. Neither function panics, whatever the input. Encode gives 16-bit units. Decode reads any sequence of units: a high surrogate that
    a low one follows makes with it one supplementary rune, every other surrogate is U+FFFD, and a unit outside of the surrogates is its own rune ([runes16]). Decoding
    what Encode produced gives back every rune, with U+FFFD for the surrogates and the values
    that are not code points; and the pair functions invert each other on supplementary runes. *)
Theorem Encode_Decode s :
  (exists u, Encode s = Val u /\ Forall (is_uint 16) u /\ Decode u = Val (map norm16 s))
  /\ (forall t, Decode t = Val (runes16 t))
  /\ forall r, 0x10000 <= r <= 0x10FFFF -> let '(r1, r2) := EncodeRune r in
     IsSurrogate r1 = true /\ IsSurrogate r2 = true /\ DecodeRune r1 r2 = r.
Proof.
  split_and!; [exists (concat (map units s)); split_and!|exact Decode_runes|].
  - apply Encode_units.
  - induction s as [|v s IH]; [constructor|]. cbn [map concat]. apply Forall_app.
    split; [apply units_16|exact IH].
  - rewrite Decode_runes. f_equal. induction s as [|v s IH]; [done|].
    cbn [map concat]. by rewrite runes16_units, IH.
  - intros r Hr. rewrite EncodeRune_units by done.
    rewrite DecodeRune_pair by dlia. unfold IsSurrogate, surr1, surr3. split_and!; dlia.
Qed.
