(* ===== verification/Hex.v ===== *)
(** * encoding/hex

    Hexadecimal encoding (src/Source/Gold/encoding/hex/hex.go).  Buffers are byte lists
    written by index.  Decode is written once over an abstract memory, because the source
    runs it both on two separate slices and, in DecodeString, on one slice that is source
    and destination at the same time.  The streaming encoder and decoder and the dumper,
    which wrap an io.Writer or io.Reader, are not modelled here. *)

From S2P Require Import Prelude.

Local Open Scope go_scope.

(** ** Encoding *)

(** The characters of "0123456789abcdef". *)
Definition hextable : list Z :=
  [48; 49; 50; 51; 52; 53; 54; 55; 56; 57; 97; 98; 99; 100; 101; 102].

Definition EncodedLen (n : Z) : Z := n * 2.
Definition DecodedLen (x : Z) : Z := x / 2.

Fixpoint encode_loop (src dst : list Z) (j : Z) : outcome (list Z) :=
  match src with
  | [] => Val dst
  | v :: src =>
      hi ← index hextable (v >>. 4);
      dst ← store dst j hi;
      lo ← index hextable (v &. 0x0f);
      dst ← store dst (j + 1) lo;
      encode_loop src dst (j + 2)
  end.

(** [Encode(dst, src)]: the new contents of [dst] and the count returned. *)
Definition Encode (dst src : list Z) : outcome (list Z * Z) :=
  dst ← encode_loop src dst 0; Val (dst, zlen src * 2).

Definition EncodeToString (src : list Z) : outcome (list Z) :=
  '(dst, _) ← Encode (make 0 (EncodedLen (zlen src))) src; Val dst.

(** ** Decoding *)

Inductive hexError : Type :=
  | ErrLength
  | InvalidByteError (b : Z).

Definition fromHexChar (c : Z) : Z * bool :=
  if (48 <=? c) && (c <=? 57) then (u8 (c - 48), true)
  else if (97 <=? c) && (c <=? 102) then (u8 (u8 (c - 97) + 10), true)
  else if (65 <=? c) && (c <=? 70) then (u8 (u8 (c - 65) + 10), true)
  else (0, false).

Section DecodeMemory.
(** The memory that holds both slices: reads of [src], writes of [dst]. *)
Context {M : Type} (src_at : M -> Z -> outcome Z) (dst_set : M -> Z -> Z -> outcome M).

Fixpoint decode_loop (fuel : nat) (m : M) (n i j : Z) : outcome (M * Z * Z * option hexError) :=
  match fuel with
  | O => NoFuel
  | S fuel =>
      if j <? n then
        c ← src_at m (j - 1);
        let '(a, ok) := fromHexChar c in
        if negb ok then Val (m, i, j, Some (InvalidByteError c))
        else
          d ← src_at m j;
          let '(b, ok) := fromHexChar d in
          if negb ok then Val (m, i, j, Some (InvalidByteError d))
          else
            m ← dst_set m i ((a <<.[8] 4) |. b);
            decode_loop fuel m n (i + 1) (j + 2)
      else Val (m, i, j, None)
  end.

(** [n] is [len(src)]; the loop runs at most [n/2] times. *)
Definition decode_mem (m : M) (n : Z) : outcome (M * Z * option hexError) :=
  '(m, i, j, err) ← decode_loop (S (Z.to_nat n)) m n 0 1;
  match err with
  | Some e => Val (m, i, Some e)
  | None =>
      if n mod 2 =? 1 then
        c ← src_at m (j - 1);
        let '(_, ok) := fromHexChar c in
        if negb ok then Val (m, i, Some (InvalidByteError c)) else Val (m, i, Some ErrLength)
      else Val (m, i, None)
  end.
End DecodeMemory.

(** Two slices that do not overlap. *)
Definition Decode (dst src : list Z) : outcome (list Z * Z * option hexError) :=
  decode_mem (λ _ i, index src i) (λ dst i x, store dst i x) dst (zlen src).

(** One slice decoded onto itself. *)
Definition DecodeString (s : list Z) : outcome (list Z * option hexError) :=
  '(src, n, err) ← decode_mem (λ m i, index m i) (λ m i x, store m i x) s (zlen s);
  res ← slice src 0 n;
  Val (res, err).

(** ** Specification *)

Definition hex_digit (v : Z) : Z := if v <? 10 then 48 + v else 87 + v.
Definition hex_encode (src : list Z) : list Z :=
  concat (map (λ v, [hex_digit (v / 16); hex_digit (v mod 16)]) src).

(** The value of a character: its place among the sixteen digits, with small or with capital letters. *)
Definition hex_val (c : Z) : option Z :=
  match position c (str "0123456789abcdef") with Some v => Some v | None => position c (str "0123456789ABCDEF") end.

(** The bytes decoded before the first problem, and the problem. *)
Fixpoint hex_decode (s : list Z) : list Z * option hexError :=
  match s with
  | [] => ([], None)
  | [c] => ([], Some (match hex_val c with None => InvalidByteError c | Some _ => ErrLength end))
  | c :: d :: s =>
      match hex_val c, hex_val d with
      | None, _ => ([], Some (InvalidByteError c))
      | _, None => ([], Some (InvalidByteError d))
      | Some a, Some b => let '(r, e) := hex_decode s in (16 * a + b :: r, e)
      end
  end.

(** ** The encoder *)

Lemma hextable_digit v : 0 <= v < 16 -> index hextable v = Val (hex_digit v).
Proof.
  intros Hv. apply (check_range_eq (index hextable) (λ v, Val (hex_digit v)) 0 16); [by vm_compute|lia].
Qed.

Lemma encode_loop_spec src dn rest : bytes_ok src -> (2 * length src <= length rest)%nat ->
  encode_loop src (dn ++ rest) (zlen dn) = Val (dn ++ hex_encode src ++ drop (2 * length src) rest).
Proof.
  intros Hs. revert dn rest. induction Hs as [|v src Hv Hs IH]; intros dn rest Hr; [done|].
  cbn [encode_loop]. change 0x0f with (Z.ones 4).
  rewrite Z.shiftr_div_pow2, Z.land_ones by lia. change (2 ^ 4) with 16. unfold is_uint in Hv.
  rewrite !hextable_digit by dlia. destruct rest as [|y1 [|y2 rest]]; [simpl in Hr; lia..|].
  cbn [mbind outcome_bind]. rewrite store_app. cbn [mbind outcome_bind].
  set (a := hex_digit (v / 16)). set (b := hex_digit (v mod 16)).
  replace (dn ++ a :: y2 :: rest) with ((dn ++ [a]) ++ y2 :: rest) by (by rewrite <- app_assoc).
  rewrite <- (zlen_snoc dn a), store_app. cbn [mbind outcome_bind]. rewrite <- app_assoc. cbn [app].
  replace (dn ++ a :: b :: rest) with ((dn ++ [a; b]) ++ rest) by (by rewrite <- app_assoc).
  replace (zlen dn + 2) with (zlen (dn ++ [a; b])) by apply zlen_snoc2.
  rewrite IH by (simpl in Hr; lia). f_equal. unfold hex_encode. cbn [map concat app length].
  rewrite <- app_assoc. replace (2 * S (length src))%nat with (S (S (2 * length src))) by lia. done.
Qed.

Lemma length_hex_encode src : length (hex_encode src) = (2 * length src)%nat.
Proof. unfold hex_encode. induction src; simpl in *; lia. Qed.

Lemma Encode_spec dst src : bytes_ok src -> 2 * zlen src <= zlen dst ->
  Encode dst src = Val (hex_encode src ++ drop (2 * length src) dst, 2 * zlen src).
Proof.
  intros Hs Hl. unfold Encode. pose proof (encode_loop_spec src [] dst Hs ltac:(lia)) as H.
  cbn [app length] in H. change (Z.of_nat 0) with 0 in H. rewrite H.
  cbn [mbind outcome_bind app]. do 2 f_equal. lia.
Qed.

Lemma EncodeToString_spec src : bytes_ok src -> EncodeToString src = Val (hex_encode src).
Proof.
  intros Hs. unfold EncodeToString, EncodedLen. rewrite Encode_spec; [|done|rewrite length_make; lia].
  cbn [mbind outcome_bind]. rewrite drop_ge, app_nil_r; [done|].
  unfold make. rewrite length_replicate. lia.
Qed.

(** ** The decoder *)

Lemma hex_val_digit v : 0 <= v < 16 -> hex_val (hex_digit v) = Some v.
Proof.
  intros Hv. apply (check_range_eq (λ v, hex_val (hex_digit v)) Some 0 16); [by vm_compute|lia].
Qed.

(** The decoder's ranges are the two rows of digits. *)
Lemma fromHexChar_val c : fromHexChar c = match hex_val c with Some a => (a, true) | None => (0, false) end.
Proof.
  destruct (decide (0 <= c < 256)) as [Hc|Hc].
  - apply (check_range_eq fromHexChar (λ c, match hex_val c with Some a => (a, true) | None => (0, false) end) 0 256); [by vm_compute|lia].
  - unfold hex_val. rewrite !position_None by (vm_compute; repeat constructor; lia). unfold fromHexChar.
    destruct (Z.leb_spec 48 c), (Z.leb_spec c 57), (Z.leb_spec 97 c), (Z.leb_spec c 102), (Z.leb_spec 65 c), (Z.leb_spec c 70); cbn [andb]; done || lia.
Qed.

Lemma hex_val_range c a : hex_val c = Some a -> 0 <= a < 16.
Proof.
  intros E. pose proof (fromHexChar_val c) as F. rewrite E in F. unfold fromHexChar in F. repeat case_match; simplify_eq; dlia.
Qed.

Lemma nibbles a b : 0 <= a < 16 -> 0 <= b < 16 -> (a <<.[8] 4) |. b = 16 * a + b.
Proof.
  intros Ha Hb. unfold shl. rewrite Z.shiftl_mul_pow2, wrap_small by (try lia; unfold is_uint; lia).
  rewrite lor_disjoint by (unfold is_uint; lia). lia.
Qed.

Lemma hex_decode_encode src : bytes_ok src -> hex_decode (hex_encode src) = (src, None).
Proof.
  induction 1 as [|v src Hv Hs IH]; [done|]. unfold hex_encode in *. cbn [map concat app hex_decode].
  unfold is_uint in Hv. rewrite !hex_val_digit by dlia. rewrite IH. do 2 f_equal. dlia.
Qed.

Lemma hex_decode_length s : (2 * length (fst (hex_decode s)) <= length s)%nat.
Proof.
  assert (H : forall n s, (length s <= n)%nat -> (2 * length (fst (hex_decode s)) <= length s)%nat);
    [|by apply (H (length s))].
  clear. induction n as [|n IH]; intros s Hs; [destruct s; simpl in *; lia|].
  destruct s as [|c [|d s]]; cbn [hex_decode fst]; try (simpl; lia).
  destruct (hex_val c), (hex_val d); simpl; try lia.
  specialize (IH s). destruct (hex_decode s). simpl in *. lia.
Qed.

Section DecodeLoop.
Context {M : Type} (src_at : M -> Z -> outcome Z) (dst_set : M -> Z -> Z -> outcome M).
(** What the loop needs of the memory: [I i dn t m] says that [dn] has been written at the
    front of the destination, [i] bytes long, and that [t] is what is left to read. *)
Context (I : nat -> list Z -> list Z -> M -> Prop) (n : nat).
Hypothesis I_read : forall i dn t m k c,
  I i dn t m -> t !! k = Some c -> src_at m (2 * Z.of_nat i + Z.of_nat k) = Val c.
Hypothesis I_write : forall i dn c d t m x,
  I i dn (c :: d :: t) m -> exists m', dst_set m (Z.of_nat i) x = Val m' /\ I (S i) (dn ++ [x]) t m'.
Hypothesis I_count : forall i dn t m, I i dn t m -> length dn = i.
Hypothesis I_length : forall i dn t m, I i dn t m -> (2 * i + length t)%nat = n.

(** Either the loop ends with all pairs read, or it ends at the first bad digit. *)
Lemma decode_loop_spec fuel i dn t m : I i dn t m -> (length t < fuel)%nat ->
  exists m' i' dn' t', I i' dn' t' m' /\ dn' = dn ++ fst (hex_decode t) /\
    match decode_loop src_at dst_set fuel m (Z.of_nat n) (Z.of_nat i) (2 * Z.of_nat i + 1) with
    | Val (m1, i1, j1, e1) => m1 = m' /\ i1 = Z.of_nat i' /\
        match e1 with
        | Some e => snd (hex_decode t) = Some e
        | None => j1 = 2 * Z.of_nat i' + 1 /\ (length t' < 2)%nat /\ snd (hex_decode t) = snd (hex_decode t')
        end
    | _ => False
    end.
Proof.
  revert i dn t m. induction fuel as [|fuel IH]; intros i dn t m HI Hf; [lia|].
  pose proof (I_length _ _ _ _ HI) as Hn. cbn [decode_loop].
  destruct t as [|c [|d t]].
  - exists m, i, dn, []. destruct (Z.ltb_spec (2 * Z.of_nat i + 1) (Z.of_nat n)); [simpl in Hn; lia|].
    split_and!; try done. cbn [hex_decode fst]. by rewrite app_nil_r. simpl; lia.
  - exists m, i, dn, [c]. destruct (Z.ltb_spec (2 * Z.of_nat i + 1) (Z.of_nat n)); [simpl in Hn; lia|].
    split_and!; try done. cbn [hex_decode fst]. by rewrite app_nil_r. simpl; lia.
  - destruct (Z.ltb_spec (2 * Z.of_nat i + 1) (Z.of_nat n)); [|simpl in Hn; lia].
    replace (2 * Z.of_nat i + 1 - 1) with (2 * Z.of_nat i + Z.of_nat 0) by lia.
    rewrite (I_read i dn _ m 0 c HI) by done. cbn [mbind outcome_bind].
    rewrite fromHexChar_val. cbn [hex_decode].
    destruct (hex_val c) as [a|] eqn:Ha; cbn [negb].
    2: { exists m, i, dn, (c :: d :: t). split_and!; try done. cbn [fst]. by rewrite app_nil_r. }
    replace (2 * Z.of_nat i + 1) with (2 * Z.of_nat i + Z.of_nat 1) by lia. rewrite (I_read i dn _ m 1 d HI) by done. cbn [mbind outcome_bind].
    rewrite fromHexChar_val. destruct (hex_val d) as [b|] eqn:Hb; cbn [negb].
    2: { exists m, i, dn, (c :: d :: t). split_and!; try done. cbn [fst]. by rewrite app_nil_r. }
    rewrite nibbles by (by eapply hex_val_range).
    destruct (I_write i dn c d t m (16 * a + b) HI) as (m' & -> & HI'). cbn [mbind outcome_bind].
    destruct (IH (S i) (dn ++ [16 * a + b]) t m' HI') as (m'' & i'' & dn'' & t'' & H1 & H2 & H3).
    { simpl in Hf. lia. }
    replace (Z.of_nat i + 1) with (Z.of_nat (S i)) by lia.
    replace (2 * Z.of_nat i + Z.of_nat 1 + 2) with (2 * Z.of_nat (S i) + 1) by lia.
    exists m'', i'', dn'', t''. split; [done|]. destruct (hex_decode t) as [r e]. cbn [fst snd] in *.
    split; [|exact H3]. by rewrite H2, <- app_assoc.
Qed.

Lemma decode_mem_spec t m : I 0 [] t m ->
  exists m' t', I (length (fst (hex_decode t))) (fst (hex_decode t)) t' m' /\
    decode_mem src_at dst_set m (Z.of_nat n)
    = Val (m', zlen (fst (hex_decode t)), snd (hex_decode t)).
Proof.
  intros HI. pose proof (I_length _ _ _ _ HI) as Hn0. unfold decode_mem.
  destruct (decode_loop_spec (S (Z.to_nat (Z.of_nat n))) 0 [] t m HI) as (m' & i' & dn' & t' & H1 & H2 & H3).
  { lia. }
  change (2 * Z.of_nat 0 + 1) with 1 in H3. change (Z.of_nat 0) with 0 in H3.
  destruct (decode_loop _ _ _ _ _ _ _) as [[[[m1 i1] j1] e1]| |] eqn:E; [|done..].
  destruct H3 as (-> & -> & H3). cbn [mbind outcome_bind]. cbn [app] in H2. subst dn'.
  pose proof (I_count _ _ _ _ H1) as Hc. exists m', t'. subst i'. split; [done|].
  destruct e1 as [e|]; [by rewrite H3|]. destruct H3 as (-> & Ht & He). rewrite He.
  pose proof (I_length _ _ _ _ H1) as Hn. destruct t' as [|c [|d t']]; [| |simpl in Ht; lia].
  - destruct (Z.eqb_spec (Z.of_nat n mod 2) 1); [simpl in Hn; dlia|done].
  - destruct (Z.eqb_spec (Z.of_nat n mod 2) 1); [|simpl in Hn; dlia].
    replace (2 * zlen (fst (hex_decode t)) + 1 - 1) with (2 * zlen (fst (hex_decode t)) + Z.of_nat 0) by lia.
    rewrite (I_read _ _ _ _ 0 c H1) by done. cbn [mbind outcome_bind]. rewrite fromHexChar_val.
    cbn [hex_decode snd]. by destruct (hex_val c).
Qed.
End DecodeLoop.

(** Two separate slices. *)
Lemma Decode_spec dst src : zlen src / 2 <= zlen dst ->
  Decode dst src = Val (fst (hex_decode src) ++ drop (length (fst (hex_decode src))) dst,
                        zlen (fst (hex_decode src)), snd (hex_decode src)).
Proof.
  intros Hl. unfold Decode.
  set (I := λ (i : nat) (dn t m : list Z), length dn = i /\ drop (2 * i) src = t /\
     (2 * i <= length src)%nat /\ m = dn ++ drop i dst).
  destruct (decode_mem_spec (λ _ i, index src i) (λ dst i x, store dst i x) I (length src))
    with (t := src) (m := dst) as (m' & t' & HI & ->).
  - intros i dn t m k c (Hd & Ht & Hi & Hm) Hk. apply index_Val; [lia|].
    rewrite <- Ht, lookup_drop in Hk. rewrite <- Hk. f_equal. lia.
  - intros i dn c d t m x (Hd & Ht & Hi & Hm). subst m.
    assert (Hlen : (2 * i + 2 <= length src)%nat).
    { apply (f_equal length) in Ht. rewrite length_drop in Ht. simpl in Ht. lia. }
    assert (i < length dst)%nat by dlia.
    destruct (drop i dst) as [|y rest] eqn:Er.
    { apply (f_equal length) in Er. rewrite length_drop in Er. simpl in Er. lia. }
    exists (dn ++ x :: rest). rewrite <- Hd, store_app. split; [done|]. split_and!.
    + rewrite length_app. simpl. lia.
    + apply (f_equal (drop 2)) in Ht. rewrite drop_drop in Ht. simpl in Ht.
      rewrite ?drop_0 in Ht. rewrite <- Ht. f_equal. lia.
    + lia.
    + rewrite <- app_assoc. f_equal. simpl. f_equal.
      apply (f_equal (drop 1)) in Er. rewrite drop_drop in Er. cbn [drop] in Er.
      rewrite ?drop_0 in Er. rewrite <- Er. f_equal. lia.
  - intros i dn t m (Hd & _). done.
  - intros i dn t m (Hd & Ht & Hi & _). rewrite <- Ht, length_drop. lia.
  - split_and!; [done..|simpl; lia|done].
  - destruct HI as (_ & _ & _ & ->). done.
Qed.

(** One slice decoded onto itself: the bytes already overwritten are never read again. *)
Lemma DecodeString_spec s : DecodeString s = Val (hex_decode s).
Proof.
  unfold DecodeString.
  set (I := λ (i : nat) (dn t m : list Z), length dn = i /\ drop (2 * i) s = t /\
     (2 * i <= length s)%nat /\ drop (2 * i) m = t /\ take i m = dn /\ length m = length s).
  destruct (decode_mem_spec (λ m i, index m i) (λ m i x, store m i x) I (length s))
    with (t := s) (m := s) as (m' & t' & HI & ->).
  - intros i dn t m k c (Hd & Ht & Hi & Hm & _) Hk. apply index_Val; [lia|].
    rewrite <- Hm, lookup_drop in Hk. rewrite <- Hk. f_equal. lia.
  - intros i dn c d t m x (Hd & Ht & Hi & Hm & Htk & Hlm).
    assert (Hlen : (2 * i + 2 <= length s)%nat).
    { apply (f_equal length) in Ht. rewrite length_drop in Ht. simpl in Ht. lia. }
    exists (<[i:=x]> m). unfold store. rewrite decide_True by lia. rewrite Nat2Z.id. split; [done|].
    split_and!.
    + rewrite length_app. simpl. lia.
    + apply (f_equal (drop 2)) in Ht. rewrite drop_drop in Ht. simpl in Ht.
      rewrite ?drop_0 in Ht. rewrite <- Ht. f_equal. lia.
    + lia.
    + rewrite drop_insert_lt by lia. apply (f_equal (drop 2)) in Hm. rewrite drop_drop in Hm.
      simpl in Hm. rewrite ?drop_0 in Hm. rewrite <- Hm. f_equal. lia.
    + rewrite (take_S_r _ _ x) by (apply list_lookup_insert_eq; lia).
      rewrite take_insert_ge by lia. by rewrite Htk.
    + by rewrite length_insert.
  - intros i dn t m (Hd & _). done.
  - intros i dn t m (Hd & Ht & Hi & _). rewrite <- Ht, length_drop. lia.
  - split_and!; [done..|simpl; lia|done|done|done].
  - destruct HI as (_ & _ & Hl & _ & Htk & Hlm). cbn [mbind outcome_bind].
    rewrite slice_take by lia. cbn [mbind outcome_bind]. rewrite Nat2Z.id, Htk.
    by destruct (hex_decode s).
Qed.

(** ** Properties *)

(** Hexadecimal round trip: EncodeToString never panics, its length is EncodedLen, and both
    Decode into a destination of DecodedLen bytes and DecodeString give the bytes back. *)
Theorem hex_round_trip src :
  bytes_ok src ->
  exists e, EncodeToString src = Val e /\ e = hex_encode src /\ zlen e = EncodedLen (zlen src)
  /\ DecodeString e = Val (src, None)
  /\ Decode (make 0 (DecodedLen (zlen e))) e = Val (src, zlen src, None).
Proof.
  intros Hs. exists (hex_encode src). split_and!.
  - by apply EncodeToString_spec.
  - done.
  - rewrite length_hex_encode. unfold EncodedLen. lia.
  - by rewrite DecodeString_spec, hex_decode_encode.
  - unfold DecodedLen. assert (Hl : zlen (hex_encode src) / 2 = zlen src)
      by (rewrite length_hex_encode; dlia).
    rewrite Decode_spec by (rewrite Hl, length_make; lia). rewrite Hl, hex_decode_encode by done.
    cbn [fst snd]. rewrite drop_ge, app_nil_r; [done|]. unfold make. rewrite length_replicate. lia.
Qed.

(** C39. The hexadecimal codec.  Round trip: EncodeToString never panics, writes the two digits of every byte with small letters, its length is EncodedLen, and both
    Decode into a destination of DecodedLen bytes and DecodeString give the bytes back.  Errors: decoding any input,
    with a destination of at least DecodedLen bytes or in place, does not panic: it writes the bytes of the leading
    well-formed pairs, returns their number, and reports the first character that is not one of the 22 hexadecimal digits, or else
    the odd length; decoding in place over the source gives the same bytes and the same error as decoding to another slice. *)
Theorem hex_codec dst src :
  (bytes_ok src ->
   exists e, EncodeToString src = Val e /\ e = hex_encode src /\ zlen e = EncodedLen (zlen src)
   /\ DecodeString e = Val (src, None)
   /\ Decode (make 0 (DecodedLen (zlen e))) e = Val (src, zlen src, None))
  /\ (DecodedLen (zlen src) <= zlen dst ->
   Decode dst src = Val (fst (hex_decode src) ++ drop (length (fst (hex_decode src))) dst,
                         zlen (fst (hex_decode src)), snd (hex_decode src))
   /\ DecodeString src = Val (hex_decode src)).
Proof. split; [apply hex_round_trip|]. intros Hl. split; [by apply Decode_spec|apply DecodeString_spec]. Qed.

Lemma hex_codec_witness :
  (exists e, EncodeToString [0xDE; 0xAD; 0x0F] = Val e /\ e = hex_encode [0xDE; 0xAD; 0x0F] /\ zlen e = EncodedLen 3 /\ DecodeString e = Val ([0xDE; 0xAD; 0x0F], None)
   /\ Decode (make 0 (DecodedLen (zlen e))) e = Val ([0xDE; 0xAD; 0x0F], 3, None))
  /\ Decode [0; 0] [54; 49; 103; 49] = Val ([0x61; 0], 1, Some (InvalidByteError 103))
  /\ DecodeString [54; 49; 103; 49] = Val ([0x61], Some (InvalidByteError 103)).
Proof.
  split; [apply (proj1 (hex_codec [] [0xDE; 0xAD; 0x0F])); repeat constructor; unfold is_uint; lia|].
  apply (proj2 (hex_codec [0; 0] [54; 49; 103; 49])). unfold DecodedLen. by vm_compute.
Defined.
