(* ===== verification/Binary.v ===== *)
(** * encoding/binary

    Fixed-size byte orders (src/Source/Gold/encoding/binary/binary.go) and varints
    (src/Source/Gold/encoding/binary/varint.go).  The reflective Read and Write, which walk
    values of arbitrary Go types, are not modelled.  A byte slice written by a Put function is
    a list updated by index; an io.ByteReader is a state with a ReadByte operation. *)

From S2P Require Import Prelude.

Local Open Scope go_scope.

(** ** Byte orders *)

Definition littleEndian_Uint16 (b : list Z) : outcome Z :=
  _ ← index b 1;
  b0 ← index b 0; b1 ← index b 1;
  Val (b0 |. b1 <<.[16] 8).

Definition littleEndian_PutUint16 (b : list Z) (v : Z) : outcome (list Z) :=
  _ ← index b 1;
  b ← store b 0 (u8 v); store b 1 (u8 (v >>. 8)).

Definition littleEndian_Uint32 (b : list Z) : outcome Z :=
  _ ← index b 3;
  b0 ← index b 0; b1 ← index b 1; b2 ← index b 2; b3 ← index b 3;
  Val (b0 |. b1 <<.[32] 8 |. b2 <<.[32] 16 |. b3 <<.[32] 24).

Definition littleEndian_PutUint32 (b : list Z) (v : Z) : outcome (list Z) :=
  _ ← index b 3;
  b ← store b 0 (u8 v); b ← store b 1 (u8 (v >>. 8));
  b ← store b 2 (u8 (v >>. 16)); store b 3 (u8 (v >>. 24)).

Definition littleEndian_Uint64 (b : list Z) : outcome Z :=
  _ ← index b 7;
  b0 ← index b 0; b1 ← index b 1; b2 ← index b 2; b3 ← index b 3;
  b4 ← index b 4; b5 ← index b 5; b6 ← index b 6; b7 ← index b 7;
  Val (b0 |. b1 <<.[64] 8 |. b2 <<.[64] 16 |. b3 <<.[64] 24
       |. b4 <<.[64] 32 |. b5 <<.[64] 40 |. b6 <<.[64] 48 |. b7 <<.[64] 56).

Definition littleEndian_PutUint64 (b : list Z) (v : Z) : outcome (list Z) :=
  _ ← index b 7;
  b ← store b 0 (u8 v); b ← store b 1 (u8 (v >>. 8));
  b ← store b 2 (u8 (v >>. 16)); b ← store b 3 (u8 (v >>. 24));
  b ← store b 4 (u8 (v >>. 32)); b ← store b 5 (u8 (v >>. 40));
  b ← store b 6 (u8 (v >>. 48)); store b 7 (u8 (v >>. 56)).

Definition bigEndian_Uint16 (b : list Z) : outcome Z :=
  _ ← index b 1;
  b1 ← index b 1; b0 ← index b 0;
  Val (b1 |. b0 <<.[16] 8).

Definition bigEndian_PutUint16 (b : list Z) (v : Z) : outcome (list Z) :=
  _ ← index b 1;
  b ← store b 0 (u8 (v >>. 8)); store b 1 (u8 v).

Definition bigEndian_Uint32 (b : list Z) : outcome Z :=
  _ ← index b 3;
  b3 ← index b 3; b2 ← index b 2; b1 ← index b 1; b0 ← index b 0;
  Val (b3 |. b2 <<.[32] 8 |. b1 <<.[32] 16 |. b0 <<.[32] 24).

Definition bigEndian_PutUint32 (b : list Z) (v : Z) : outcome (list Z) :=
  _ ← index b 3;
  b ← store b 0 (u8 (v >>. 24)); b ← store b 1 (u8 (v >>. 16));
  b ← store b 2 (u8 (v >>. 8)); store b 3 (u8 v).

Definition bigEndian_Uint64 (b : list Z) : outcome Z :=
  _ ← index b 7;
  b7 ← index b 7; b6 ← index b 6; b5 ← index b 5; b4 ← index b 4;
  b3 ← index b 3; b2 ← index b 2; b1 ← index b 1; b0 ← index b 0;
  Val (b7 |. b6 <<.[64] 8 |. b5 <<.[64] 16 |. b4 <<.[64] 24
       |. b3 <<.[64] 32 |. b2 <<.[64] 40 |. b1 <<.[64] 48 |. b0 <<.[64] 56).

Definition bigEndian_PutUint64 (b : list Z) (v : Z) : outcome (list Z) :=
  _ ← index b 7;
  b ← store b 0 (u8 (v >>. 56)); b ← store b 1 (u8 (v >>. 48));
  b ← store b 2 (u8 (v >>. 40)); b ← store b 3 (u8 (v >>. 32));
  b ← store b 4 (u8 (v >>. 24)); b ← store b 5 (u8 (v >>. 16));
  b ← store b 6 (u8 (v >>. 8)); store b 7 (u8 v).

(** The methods of the interface ByteOrder. *)
Record ByteOrder : Type := {
  Uint16 : list Z -> outcome Z;
  Uint32 : list Z -> outcome Z;
  Uint64 : list Z -> outcome Z;
  PutUint16 : list Z -> Z -> outcome (list Z);
  PutUint32 : list Z -> Z -> outcome (list Z);
  PutUint64 : list Z -> Z -> outcome (list Z)
}.

Definition LittleEndian : ByteOrder := {|
  Uint16 := littleEndian_Uint16; Uint32 := littleEndian_Uint32; Uint64 := littleEndian_Uint64;
  PutUint16 := littleEndian_PutUint16; PutUint32 := littleEndian_PutUint32;
  PutUint64 := littleEndian_PutUint64 |}.

Definition BigEndian : ByteOrder := {|
  Uint16 := bigEndian_Uint16; Uint32 := bigEndian_Uint32; Uint64 := bigEndian_Uint64;
  PutUint16 := bigEndian_PutUint16; PutUint32 := bigEndian_PutUint32;
  PutUint64 := bigEndian_PutUint64 |}.

(** ** Varints *)

Definition MaxVarintLen16 : Z := 3.
Definition MaxVarintLen32 : Z := 5.
Definition MaxVarintLen64 : Z := 10.

Fixpoint put_loop (fuel : nat) (buf : list Z) (x i : Z) : outcome (list Z * Z) :=
  match fuel with
  | O => NoFuel
  | S fuel =>
      if 0x80 <=? x then
        buf ← store buf i (u8 x |. 0x80);
        put_loop fuel buf (x >>. 7) (i + 1)
      else
        buf ← store buf i (u8 x);
        Val (buf, i + 1)
  end.

(** A uint64 takes at most nine shifts by seven to fall below 0x80. *)
Definition PutUvarint (buf : list Z) (x : Z) : outcome (list Z * Z) := put_loop 10 buf x 0.

Fixpoint uvarint_loop (buf : list Z) (i x s : Z) : Z * Z :=
  match buf with
  | [] => (0, 0)
  | b :: buf =>
      if b <? 0x80 then
        if (9 <? i) || ((i =? 9) && (1 <? b)) then (0, - (i + 1))
        else (x |. b <<.[64] s, i + 1)
      else uvarint_loop buf (i + 1) (x |. (b &. 0x7f) <<.[64] s) (s + 7)
  end.

(** The value and the number of bytes read: 0 for a buffer that is too small, negative on
    overflow. *)
Definition Uvarint (buf : list Z) : Z * Z := uvarint_loop buf 0 0 0.

Definition PutVarint (buf : list Z) (x : Z) : outcome (list Z * Z) :=
  let ux := u64 x <<.[64] 1 in
  let ux := if x <? 0 then notw 64 ux else ux in
  PutUvarint buf ux.

Definition Varint (buf : list Z) : Z * Z :=
  let '(ux, n) := Uvarint buf in
  let x := i64 (ux >>. 1) in
  let x := if negb (ux &. 1 =? 0) then Z.lnot x else x in
  (x, n).

(** *** Reading from a stream *)

Inductive readError (E : Type) : Type :=
  | overflow
  | readErr (e : E).
Arguments overflow {E}.
Arguments readErr {E} e.

Section ByteReader.
Context {R E : Type}.
(** ReadByte of an io.ByteReader: the reader afterwards, and a byte or an error. *)
Context (ReadByte : R -> R * (Z + E)).

Fixpoint read_loop (fuel : nat) (r : R) (i x s : Z) : outcome (R * Z * option (readError E)) :=
  match fuel with
  | O => NoFuel
  | S fuel =>
      let '(r, res) := ReadByte r in
      match res with
      | inr err => Val (r, x, Some (readErr err))
      | inl b =>
          if b <? 0x80 then
            if (9 <? i) || ((i =? 9) && (1 <? b)) then Val (r, x, Some overflow)
            else Val (r, x |. b <<.[64] s, None)
          else read_loop fuel r (i + 1) (x |. (b &. 0x7f) <<.[64] s) (s + 7)
      end
  end.

(** The loop has no bound of its own: it ends when a byte below 0x80 or an error arrives. *)
Definition ReadUvarint (fuel : nat) (r : R) : outcome (R * Z * option (readError E)) :=
  read_loop fuel r 0 0 0.

Definition ReadVarint (fuel : nat) (r : R) : outcome (R * Z * option (readError E)) :=
  '(r, ux, err) ← ReadUvarint fuel r;
  let x := i64 (ux >>. 1) in
  let x := if negb (ux &. 1 =? 0) then Z.lnot x else x in
  Val (r, x, err).
End ByteReader.

(** A bytes.Reader-like source: the bytes left, then the error [e] forever. *)
Definition list_ReadByte {E} (e : E) (r : list Z) : list Z * (Z + E) :=
  match r with [] => ([], inr e) | b :: r => (r, inl b) end.

(** ** Byte orders: specification and lemmas *)

(** The [n] bytes of [v], least significant first or last. *)
Definition order_bytes (big : bool) (n : nat) (v : Z) : list Z :=
  if big then rev (to_le 8 n v) else to_le 8 n v.
Definition order_value (big : bool) (bs : list Z) : Z :=
  from_le 8 (if big then rev bs else bs).

(** Adding a [d]-bit digit above the bits of [acc]. *)
Lemma lor_digit w k d acc b :
  0 <= k -> 0 <= d -> k + d <= w -> is_uint k acc -> is_uint d b ->
  acc |. b <<.[w] k = acc + 2 ^ k * b /\ is_uint (k + d) (acc |. b <<.[w] k).
Proof.
  intros Hk Hd Hw Ha Hb. unfold shl.
  assert (Hs : is_uint w (b * 2 ^ k)).
  { apply (is_uint_mono (k + d)); [done|]. unfold is_uint in *. rewrite Z.pow_add_r by lia. nia. }
  rewrite Z.shiftl_mul_pow2, wrap_small, Z.lor_comm, lor_disjoint by done. split; [ring|].
  unfold is_uint in *. rewrite Z.pow_add_r by lia. nia.
Qed.

(** A disjunction of shifted bytes is a number in base 256. *)
Fixpoint lor_bytes (w : Z) (acc k : Z) (bs : list Z) : Z :=
  match bs with [] => acc | b :: bs => lor_bytes w (acc |. b <<.[w] k) (k + 8) bs end.

Lemma lor_bytes_spec w acc k bs :
  0 <= k -> k + 8 * zlen bs <= w -> is_uint k acc -> bytes_ok bs ->
  lor_bytes w acc k bs = acc + 2 ^ k * from_le 8 bs.
Proof.
  intros Hk Hw Ha Hb. revert acc k Hk Hw Ha. induction Hb as [|b bs Hb _ IH]; intros acc k Hk Hw Ha;
    cbn [lor_bytes from_le]; [lia|].
  replace (zlen (b :: bs)) with (1 + zlen bs) in Hw by (cbn [length]; lia).
  destruct (lor_digit w k 8 acc b) as [E U]; [lia..|done|done|].
  rewrite IH by (done || lia). rewrite E. rewrite Z.pow_add_r by lia. ring.
Qed.

Lemma le_value w b bs : 8 + 8 * zlen bs <= w -> bytes_ok (b :: bs) ->
  lor_bytes w b 8 bs = from_le 8 (b :: bs).
Proof.
  intros Hw Hb. apply Forall_cons in Hb as [Hb Hbs]. rewrite lor_bytes_spec by (done || lia). done.
Qed.

Lemma to_le_bytes2 v : to_le 8 2 v = [u8 v; u8 (v >>. 8)].
Proof. cbn [to_le]. arith_shifts. done. Qed.

Lemma to_le_bytes4 v : to_le 8 4 v = [u8 v; u8 (v >>. 8); u8 (v >>. 16); u8 (v >>. 24)].
Proof. cbn [to_le]. arith_shifts. rewrite !Z.div_div by lia. done. Qed.

Lemma to_le_bytes8 v : to_le 8 8 v = [u8 v; u8 (v >>. 8); u8 (v >>. 16); u8 (v >>. 24);
   u8 (v >>. 32); u8 (v >>. 40); u8 (v >>. 48); u8 (v >>. 56)].
Proof. cbn [to_le]. arith_shifts. rewrite !Z.div_div by lia. done. Qed.

(** The widths and orders of the interface, with their two methods. *)
Definition byte_orders : list (nat * bool * (list Z -> outcome Z) * (list Z -> Z -> outcome (list Z))) :=
  [(2%nat, false, Uint16 LittleEndian, PutUint16 LittleEndian);
   (4%nat, false, Uint32 LittleEndian, PutUint32 LittleEndian);
   (8%nat, false, Uint64 LittleEndian, PutUint64 LittleEndian);
   (2%nat, true, Uint16 BigEndian, PutUint16 BigEndian);
   (4%nat, true, Uint32 BigEndian, PutUint32 BigEndian);
   (8%nat, true, Uint64 BigEndian, PutUint64 BigEndian)].

(** Writing in range at constant indices. *)
Ltac stores :=
  repeat (rewrite store_lt by (rewrite ?length_insert; cbn [length]; lia); cbn [mbind outcome_bind]).

Lemma order_bytes_rev big n v : order_bytes big n v = if big then rev (order_bytes false n v) else order_bytes false n v.
Proof. by destruct big. Qed.

Lemma put_spec n big get put b v : (n, big, get, put) ∈ byte_orders ->
  (n <= length b)%nat -> put b v = Val (order_bytes big n v ++ drop n b).
Proof.
  unfold byte_orders. rewrite !elem_of_cons, elem_of_nil. intros Hin Hb.
  destruct_or! Hin; simplify_eq; unfold order_bytes;
    rewrite ?to_le_bytes2, ?to_le_bytes4, ?to_le_bytes8.
  1, 4: destruct b as [|b0 [|b1 b]]; [simpl in Hb; lia..|].
  3, 5: destruct b as [|b0 [|b1 [|b2 [|b3 b]]]]; [simpl in Hb; lia..|].
  5, 6: destruct b as [|b0 [|b1 [|b2 [|b3 [|b4 [|b5 [|b6 [|b7 b]]]]]]]]; [simpl in Hb; lia..|].
  all: cbv delta [LittleEndian BigEndian PutUint16 PutUint32 PutUint64 littleEndian_PutUint16 littleEndian_PutUint32 littleEndian_PutUint64
    bigEndian_PutUint16 bigEndian_PutUint32 bigEndian_PutUint64] beta iota.
  1, 2: change (index (b0 :: b1 :: b) 1) with (Val b1).
  3, 4: change (index (b0 :: b1 :: b2 :: b3 :: b) 3) with (Val b3).
  5, 6: change (index (b0 :: b1 :: b2 :: b3 :: b4 :: b5 :: b6 :: b7 :: b) 7) with (Val b7).
  all: cbn [mbind outcome_bind]; stores; reflexivity.
Qed.

Lemma short_panics n big get put b v : (n, big, get, put) ∈ byte_orders ->
  (length b < n)%nat -> get b = Panic IndexOutOfRange /\ put b v = Panic IndexOutOfRange.
Proof.
  unfold byte_orders. rewrite !elem_of_cons, elem_of_nil. intros Hin Hb.
  destruct_or! Hin; simplify_eq;
  do 8 (destruct b as [|? b]; [split; reflexivity|try (cbn [length] in Hb; lia)]).
Qed.

Lemma get_spec n big get put b : (n, big, get, put) ∈ byte_orders ->
  (n <= length b)%nat -> bytes_ok b -> get b = Val (order_value big (take n b)).
Proof.
  unfold byte_orders. rewrite !elem_of_cons, elem_of_nil. intros Hin Hb Hok.
  destruct_or! Hin; simplify_eq; unfold order_value.
  1, 4: destruct b as [|b0 [|b1 b]]; [simpl in Hb; lia..|].
  3, 5: destruct b as [|b0 [|b1 [|b2 [|b3 b]]]]; [simpl in Hb; lia..|].
  5, 6: destruct b as [|b0 [|b1 [|b2 [|b3 [|b4 [|b5 [|b6 [|b7 b]]]]]]]]; [simpl in Hb; lia..|].
  all: repeat (apply Forall_cons in Hok as [? Hok]); cbn [take rev app]; rewrite ?take_0; cbn [rev app].
  1: rewrite <- (le_value 16) by first [done | by repeat apply Forall_cons_2]. 
  2: rewrite <- (le_value 16) by first [done | by repeat apply Forall_cons_2]. 
  3, 4: rewrite <- (le_value 32) by first [done | by repeat apply Forall_cons_2]. 
  5, 6: rewrite <- (le_value 64) by first [done | by repeat apply Forall_cons_2]. 
  all: reflexivity.
Qed.

(** ** Varints: specification and lemmas *)

Definition low7 (b : Z) : Z := b mod 2 ^ 7.
(** The value of a sequence of seven-bit groups. *)
Definition varint_value (bs : list Z) : Z := from_le 7 (map low7 bs).

(** The encoding of [x] in at most [n] bytes. *)
Fixpoint uvarint_bytes (n : nat) (x : Z) : list Z :=
  match n with
  | O => []
  | S n => if x <? 128 then [x] else x mod 128 + 128 :: uvarint_bytes n (x / 128)
  end.

Lemma put_byte x : 0 <= x -> u8 x |. 0x80 = x mod 128 + 128.
Proof.
  intros Hx. unfold wrap. change 0x80 with (2 ^ 7). change (2 ^ 8) with 256.
  rewrite <- (Z.mul_1_l (2 ^ 7)), Z.lor_comm.
  replace (x mod 256) with (x mod 128 + 128 * (x / 128 mod 2)) by dlia.
  destruct (Z.eq_dec (x / 128 mod 2) 0) as [->|E].
  - rewrite lor_disjoint; unfold is_uint; change (2 ^ 7) with 128; dlia.
  - replace (x / 128 mod 2) with 1 by dlia.
    replace (x mod 128 + 128 * 1) with (1 * 2 ^ 7 |. x mod 128) by (rewrite lor_disjoint; unfold is_uint; change (2 ^ 7) with 128; dlia).
    rewrite Z.lor_assoc, Z.lor_diag, lor_disjoint; unfold is_uint; change (2 ^ 7) with 128; dlia.
Qed.

Lemma log2_step x : 128 <= x -> Z.log2 x / 7 = Z.log2 (x / 128) / 7 + 1.
Proof.
  intros Hx. change 128 with (2 ^ 7). rewrite <- Z.shiftr_div_pow2 by lia.
  rewrite Z.log2_shiftr by (lia || (split; lia) || idtac).
  assert (7 <= Z.log2 x) by (apply Z.log2_le_pow2; lia).
  rewrite Z.max_r by lia. dlia.
Qed.

Lemma log2_small x : 0 <= x < 128 -> Z.log2 x / 7 = 0.
Proof.
  intros Hx. apply Z.div_small. split; [apply Z.log2_nonneg|].
  destruct (Z.eq_dec x 0) as [->|]; [done|]. apply Z.log2_lt_pow2; lia.
Qed.

Lemma length_uvarint_bytes n x : 0 <= x < 2 ^ (7 * Z.of_nat n) -> (0 < n)%nat ->
  zlen (uvarint_bytes n x) = Z.log2 x / 7 + 1.
Proof.
  revert x. induction n as [|n IH]; intros x Hx Hn; [lia|]. cbn [uvarint_bytes].
  destruct (Z.ltb_spec x 128); [by rewrite log2_small by lia|]. cbn [length].
  assert (0 < n)%nat by (destruct n; simpl in *; lia).
  rewrite Nat2Z.inj_succ, IH, (log2_step x); [lia|done| |done].
  replace (7 * Z.of_nat (S n)) with (7 * Z.of_nat n + 7) in Hx by lia.
  rewrite Z.pow_add_r in Hx by lia. dlia.
Qed.

Lemma put_loop_spec n dn rest x : 0 <= x < 2 ^ (7 * Z.of_nat n) -> (0 < n)%nat ->
  put_loop n (dn ++ rest) x (zlen dn) =
  if decide (zlen rest < Z.log2 x / 7 + 1) then Panic IndexOutOfRange
  else Val (dn ++ uvarint_bytes n x ++ drop (length (uvarint_bytes n x)) rest,
            zlen dn + zlen (uvarint_bytes n x)).
Proof.
  revert dn rest x. induction n as [|n IH]; intros dn rest x Hx Hn; [lia|].
  assert (Hl : 0 <= Z.log2 x / 7) by (apply Z.div_pos; [apply Z.log2_nonneg|lia]).
  cbn [put_loop uvarint_bytes]. rewrite Z.leb_antisym. change 0x80 with 128.
  destruct (Z.ltb_spec x 128) as [Hs|Hs]; cbn [negb].
  - rewrite log2_small in * by lia. destruct rest as [|y rest].
    + rewrite decide_True by done. rewrite app_nil_r. unfold store. by rewrite decide_False by lia.
    + rewrite decide_False by (cbn [length]; lia). rewrite store_app. cbn [mbind outcome_bind app length drop].
      rewrite drop_0. rewrite wrap_small by (unfold is_uint; lia). done.
  - assert (0 < n)%nat by (destruct n; simpl in *; lia).
    assert (0 <= x / 128 < 2 ^ (7 * Z.of_nat n)).
    { replace (7 * Z.of_nat (S n)) with (7 * Z.of_nat n + 7) in Hx by lia.
      rewrite Z.pow_add_r in Hx by lia. dlia. }
    rewrite put_byte by lia. destruct rest as [|y rest].
    + rewrite decide_True by (cbn [length]; lia). rewrite app_nil_r. unfold store. by rewrite decide_False by lia.
    + rewrite store_app. cbn [mbind outcome_bind]. set (c := x mod 128 + 128).
      replace (dn ++ c :: rest) with ((dn ++ [c]) ++ rest) by (by rewrite <- app_assoc).
      rewrite <- (zlen_snoc dn c), Z.shiftr_div_pow2 by lia. change (2 ^ 7) with 128.
      rewrite IH, (log2_step x) by lia. cbn [length].
      destruct (decide _); [rewrite decide_True by lia; done|rewrite decide_False by lia].
      rewrite zlen_snoc. cbn [app drop]. rewrite <- app_assoc. do 2 f_equal. lia.
Qed.

Lemma uvarint_bytes_shape n x : 0 <= x < 2 ^ (7 * Z.of_nat n) -> (0 < n)%nat ->
  exists cs b, uvarint_bytes n x = cs ++ [b] /\ Forall (λ c, 128 <= c < 256) cs /\ 0 <= b < 128
  /\ varint_value (cs ++ [b]) = x.
Proof.
  revert x. induction n as [|n IH]; intros x Hx Hn; [lia|]. cbn [uvarint_bytes].
  destruct (Z.ltb_spec x 128) as [Hs|Hs].
  - exists [], x. split_and!; [done|constructor|lia|lia|]. unfold varint_value, low7. cbn [app map from_le]. dlia.
  - assert (0 < n)%nat by (destruct n; simpl in *; lia).
    destruct (IH (x / 128)) as (cs & b & -> & Hcs & Hb & Hv); [|done|].
    { replace (7 * Z.of_nat (S n)) with (7 * Z.of_nat n + 7) in Hx by lia.
      rewrite Z.pow_add_r in Hx by lia. dlia. }
    exists (x mod 128 + 128 :: cs), b. split_and!; [done| |lia|lia|].
    + apply Forall_cons_2; [dlia|done].
    + unfold varint_value in *. cbn [app map from_le]. rewrite Hv. unfold low7. dlia.
Qed.

Lemma low7_land b : b &. 0x7f = low7 b.
Proof. change 0x7f with (Z.ones 7). by rewrite Z.land_ones by lia. Qed.

Lemma low7_bound b : is_uint 7 (low7 b).
Proof. apply wrap_is_uint. lia. Qed.

(** The loop on a terminated sequence, from any state. *)
Lemma uvarint_loop_end cs b rest i x : Forall (λ c, 128 <= c < 256) cs -> 0 <= b < 128 ->
  0 <= i -> is_uint (7 * i) x ->
  uvarint_loop (cs ++ b :: rest) i x (7 * i) =
  if decide (9 < i + zlen cs \/ i + zlen cs = 9 /\ 1 < b) then (0, - (i + zlen cs + 1))
  else (x + 2 ^ (7 * i) * varint_value (cs ++ [b]), i + zlen cs + 1).
Proof.
  intros Hcs Hb. revert i x. induction Hcs as [|c cs Hc Hcs IH]; intros i x Hi Hx; cbn [app uvarint_loop].
  - rewrite (proj2 (Z.ltb_lt b 128)) by lia. change (length []) with O. rewrite Z.add_0_r.
    destruct (Z.ltb_spec 9 i); [rewrite decide_True by lia; done|].
    destruct (Z.eqb_spec i 9), (Z.ltb_spec 1 b); cbn [orb andb];
      [rewrite decide_True by lia; done|rewrite decide_False by lia..]; f_equal;
      unfold varint_value, low7; cbn [map from_le]; rewrite Z.mod_small, Z.mul_0_r, Z.add_0_r by lia.
    + subst i. assert (b = 0 \/ b = 1) as [-> | ->] by lia; [by rewrite Z.lor_0_r, Z.mul_0_r, Z.add_0_r|].
      change (1 <<.[64] (7 * 9)) with (1 * 2 ^ 63). rewrite Z.lor_comm, lor_disjoint by (done || lia). lia.
    + rewrite (proj1 (lor_digit 64 (7 * i) 7 x b ltac:(lia) ltac:(lia) ltac:(lia) Hx ltac:(unfold is_uint; lia))). done.
    + rewrite (proj1 (lor_digit 64 (7 * i) 7 x b ltac:(lia) ltac:(lia) ltac:(lia) Hx ltac:(unfold is_uint; lia))). done.
  - rewrite (proj2 (Z.ltb_ge c 128)) by lia. rewrite low7_land.
    replace (7 * i + 7) with (7 * (i + 1)) by lia. cbn [length].
    destruct (Z.le_gt_cases i 8).
    + pose proof (lor_digit 64 (7 * i) 7 x (low7 c) ltac:(lia) ltac:(lia) ltac:(lia) Hx (low7_bound c)) as [E U].
      rewrite IH; [|lia|by replace (7 * (i + 1)) with (7 * i + 7) by lia].
      rewrite E. unfold varint_value. cbn [map from_le].
      replace (7 * (i + 1)) with (7 * i + 7) by lia. rewrite (Z.pow_add_r 2 (7 * i) 7) by lia.
      destruct (decide _); [rewrite decide_True by lia|rewrite decide_False by lia]; f_equal; lia.
    + rewrite decide_True by lia. assert (Hlong : forall cs i x, 9 < i + zlen cs -> Forall (λ c, 128 <= c < 256) cs ->
        uvarint_loop (cs ++ b :: rest) i x (7 * i) = (0, - (i + zlen cs + 1))).
      { clear - Hb. induction cs as [|c cs IH]; intros i x Hi Hcs; cbn [app uvarint_loop].
        - rewrite (proj2 (Z.ltb_lt b 128)) by lia. cbn [length] in *. rewrite (proj2 (Z.ltb_lt 9 i)) by lia.
          cbn [orb]. f_equal. lia.
        - apply Forall_cons in Hcs as [Hc Hcs]. rewrite (proj2 (Z.ltb_ge c 128)) by lia.
          replace (7 * i + 7) with (7 * (i + 1)) by lia. cbn [length] in *. rewrite IH by (done || lia). f_equal. lia. }
      rewrite Hlong by (done || lia). f_equal. lia.
Qed.

Lemma uvarint_loop_open cs i x s : Forall (λ c, 128 <= c < 256) cs -> uvarint_loop cs i x s = (0, 0).
Proof.
  intros Hcs. revert i x s. induction Hcs as [|c cs Hc _ IH]; intros i x s; [done|].
  cbn [uvarint_loop]. rewrite (proj2 (Z.ltb_ge c 128)) by lia. apply IH.
Qed.

Lemma varint_value_snoc cs b : 0 <= b < 128 ->
  varint_value (cs ++ [b]) = varint_value cs + 2 ^ (7 * zlen cs) * b.
Proof.
  intros Hb. unfold varint_value. rewrite map_app, from_le_app, length_map by lia. cbn [map from_le].
  unfold low7. rewrite (Z.mod_small b) by lia. lia.
Qed.

Lemma varint_value_bound cs : is_uint (7 * zlen cs) (varint_value cs).
Proof.
  unfold varint_value. rewrite <- (length_map low7). apply from_le_bound; [lia|].
  apply Forall_map, Forall_true. apply low7_bound.
Qed.

Lemma Uvarint_terminated cs b rest : Forall (λ c, 128 <= c < 256) cs -> 0 <= b < 128 ->
  Uvarint (cs ++ b :: rest) =
  if decide (10 < zlen cs + 1 \/ 2 ^ 64 <= varint_value (cs ++ [b])) then (0, - (zlen cs + 1))
  else (varint_value (cs ++ [b]), zlen cs + 1).
Proof.
  intros Hcs Hb. unfold Uvarint. change 0 with (7 * 0) at 3.
  rewrite uvarint_loop_end by (done || unfold is_uint; lia). rewrite !Z.add_0_l, Z.mul_1_l.
  pose proof (varint_value_snoc cs b Hb) as E. pose proof (varint_value_bound cs) as B. unfold is_uint in B.
  assert (Hov : zlen cs <= 9 -> (2 ^ 64 <= varint_value (cs ++ [b]) <-> zlen cs = 9 /\ 1 < b)).
  { intros Hl. destruct (Z.eq_dec (zlen cs) 9) as [E9|].
    - rewrite E9 in *. split; [split; [done|]|intros [_ ?]]; lia.
    - split; [|lia]. pose proof (Z.pow_le_mono_r 2 (7 * zlen cs) 56 ltac:(lia) ltac:(lia)).
      intros. assert (2 ^ 64 <= 2 ^ 56 * 128) by nia. lia. }
  destruct (decide (9 < zlen cs)); [rewrite !decide_True by lia; done|].
  specialize (Hov ltac:(lia)). destruct (decide (2 ^ 64 <= varint_value (cs ++ [b]))).
  - rewrite !decide_True by (try (left; lia); right; tauto). done.
  - rewrite !decide_False by (intros [?|?]; [lia|tauto]). done.
Qed.

(** The zigzag map of PutVarint. *)
Definition zigzag (x : Z) : Z := if x <? 0 then - 2 * x - 1 else 2 * x.

Lemma PutVarint_zigzag buf x : is_sint 64 x -> PutVarint buf x = PutUvarint buf (zigzag x) /\ is_uint 64 (zigzag x).
Proof.
  unfold is_sint. change (2 ^ (64 - 1)) with 9223372036854775808. intros Hx.
  unfold PutVarint, zigzag, shl, notw, is_uint, wrap. rewrite Z.shiftl_mul_pow2 by lia.
  change (2 ^ 64) with 18446744073709551616. change (2 ^ 1) with 2.
  destruct (Z.ltb_spec x 0); (split; [f_equal|]; dlia).
Qed.

Lemma Varint_zigzag buf x n : is_sint 64 x -> Uvarint buf = (zigzag x, n) -> Varint buf = (x, n).
Proof.
  unfold is_sint. change (2 ^ (64 - 1)) with 9223372036854775808. intros Hx E.
  unfold Varint. rewrite E. f_equal. replace (zigzag x &. 1) with (zigzag x mod 2)
    by (change 1 with (Z.ones 1); by rewrite Z.land_ones by lia).
  rewrite Z.shiftr_div_pow2 by lia.
  change (2 ^ 1) with 2. unfold zigzag, swrap, Z.lnot. change (2 ^ (64 - 1)) with 9223372036854775808.
  change (2 ^ 64) with 18446744073709551616.
  destruct (Z.ltb_spec x 0).
  - rewrite (proj2 (Z.eqb_neq ((- 2 * x - 1) mod 2) 0)) by dlia. cbn [negb]. dlia.
  - rewrite (proj2 (Z.eqb_eq ((2 * x) mod 2) 0)) by dlia. cbn [negb]. dlia.
Qed.

Lemma varint_length x : is_uint 64 x -> Z.log2 x / 7 + 1 <= MaxVarintLen64.
Proof.
  intros Hx. unfold MaxVarintLen64. assert (Z.log2 x < 64); [|dlia]. destruct (Z.eq_dec x 0) as [->|]; [done|].
  apply Z.log2_lt_pow2; unfold is_uint in Hx; lia.
Qed.

Lemma PutUvarint_short buf x : is_uint 64 x -> zlen buf < Z.log2 x / 7 + 1 -> PutUvarint buf x = Panic IndexOutOfRange.
Proof.
  intros Hx Hs. unfold PutUvarint. pose proof (put_loop_spec 10 [] buf x) as E. cbn [app length] in E.
  rewrite decide_True in E by done. apply E; [unfold is_uint in Hx; lia|lia].
Qed.

Lemma PutUvarint_Uvarint buf x : is_uint 64 x -> Z.log2 x / 7 + 1 <= zlen buf ->
  exists bs, PutUvarint buf x = Val (bs ++ drop (length bs) buf, zlen bs)
  /\ zlen bs = Z.log2 x / 7 + 1 /\ forall rest, Uvarint (bs ++ rest) = (x, zlen bs).
Proof.
  intros Hx Hl. assert (H10 : 0 <= x < 2 ^ (7 * Z.of_nat 10)) by (unfold is_uint in Hx; lia).
  exists (uvarint_bytes 10 x). unfold PutUvarint.
  pose proof (put_loop_spec 10 [] buf x H10 ltac:(lia)) as E. cbn [app length] in E.
  rewrite decide_False in E by lia. change (Z.of_nat 0) with 0 in E. rewrite Z.add_0_l in E.
  pose proof (length_uvarint_bytes 10 x H10 ltac:(lia)) as L.
  split_and!; [exact E|exact L|]. intros rest.
  destruct (uvarint_bytes_shape 10 x H10 ltac:(lia)) as (cs & b & Hs & Hcs & Hb & Hv).
  rewrite Hs in *. rewrite <- app_assoc. cbn [app]. rewrite Uvarint_terminated by done. rewrite Hv.
  assert (Z.log2 x / 7 <= 9).
  { apply Z.div_le_upper_bound; [lia|]. destruct (Z.eq_dec x 0) as [->|]; [done|].
    assert (Z.log2 x < 64) by (apply Z.log2_lt_pow2; unfold is_uint in Hx; lia). lia. }
  rewrite decide_False by (rewrite zlen_snoc in L; unfold is_uint in Hx; lia). by rewrite zlen_snoc.
Qed.

(** Any sequence of bytes is unterminated or terminated. *)
Lemma varint_split buf : bytes_ok buf ->
  Forall (λ c, 128 <= c < 256) buf \/
  exists cs b rest, buf = cs ++ b :: rest /\ Forall (λ c, 128 <= c < 256) cs /\ 0 <= b < 128.
Proof.
  induction 1 as [|b buf Hb _ IH]; [left; constructor|]. unfold is_uint in Hb.
  change (2 ^ 8) with 256 in Hb. destruct (Z.lt_ge_cases b 128) as [Hlt|Hge].
  - right. exists [], b, buf. split_and!; [done|constructor|lia|lia].
  - destruct IH as [IH|(cs & b' & rest & -> & Hcs & Hb')].
    + left. apply Forall_cons_2; [lia|done].
    + right. exists (b :: cs), b', rest. split_and!; try done; try lia.
      apply Forall_cons_2; [lia|done].
Qed.

(** The stream reader and the slice decoder run in lockstep. *)
Lemma read_loop_uvarint {E} (e : E) fuel buf i x s v n :
  uvarint_loop buf i x s = (v, n) -> (length buf < fuel)%nat -> 0 <= i ->
  exists v', read_loop (list_ReadByte e) fuel buf i x s =
    Val (if decide (n = 0) then [] else drop (Z.to_nat (Z.abs n - i)) buf, v',
         if decide (n = 0) then Some (readErr e) else if decide (n < 0) then Some overflow else None)
  /\ (0 < n -> v' = v) /\ (n = 0 \/ i < Z.abs n).
Proof.
  revert fuel i x s. induction buf as [|b buf IH]; intros fuel i x s Hu Hf Hi;
    (destruct fuel as [|fuel]; [simpl in Hf; lia|]); cbn [read_loop list_ReadByte uvarint_loop] in *.
  - simplify_eq. exists x. split_and!; [done|lia|by left].
  - destruct (b <? 0x80).
    + destruct ((9 <? i) || ((i =? 9) && (1 <? b))); simplify_eq.
      * eexists. split_and!; [|lia|right; lia]. rewrite decide_False, (decide_False (P := _ = 0)), decide_True by lia.
        replace (Z.to_nat (Z.abs (- (i + 1)) - i)) with 1%nat by lia. done.
      * eexists. split_and!; [|done|right; lia]. rewrite !decide_False by lia.
        replace (Z.to_nat (Z.abs (i + 1) - i)) with 1%nat by lia. done.
    + destruct (IH fuel (i + 1) _ _ Hu) as (v' & -> & Hv & Hn); [simpl in Hf; lia|lia|].
      exists v'. split_and!; [|done|destruct Hn; [by left|right; lia]].
      destruct (decide (n = 0)); [done|]. 
      replace (Z.to_nat (Z.abs n - i)) with (S (Z.to_nat (Z.abs n - (i + 1)))) by lia. done.
Qed.

(** ** Properties *)

(** The twelve fixed-size methods of the two byte orders. On a slice shorter than the value both
    methods panic with an index out of range. On a longer one, PutUintN writes the N/8 bytes of the
    value in its order and leaves the rest, UintN reads the number in base 256 they spell, the two
    are inverse to each other in both directions, and neither panics. *)
Theorem ByteOrder_methods n big get put b :
  (n, big, get, put) ∈ byte_orders -> bytes_ok b ->
  if decide (length b < n)%nat then
    get b = Panic IndexOutOfRange /\ forall v, put b v = Panic IndexOutOfRange
  else
    get b = Val (order_value big (take n b)) /\ put b (order_value big (take n b)) = Val b
    /\ forall v, is_uint (8 * Z.of_nat n) v ->
         put b v = Val (order_bytes big n v ++ drop n b)
         /\ get (order_bytes big n v ++ drop n b) = Val v.
Proof.
  intros Hin Hb. destruct (decide _) as [Hl|Hl].
  { split; [by eapply (short_panics n big get put b 0)|intros v; by eapply (short_panics n big get put b v)]. }
  assert (Hbt : bytes_ok (take n b)) by (by apply Forall_take).
  assert (Hlt : length (take n b) = n) by (rewrite length_take; lia).
  split_and!; [by eapply get_spec; [done|lia|]| |].
  - erewrite put_spec by (done || lia). f_equal. rewrite <- (take_drop n b) at 3. f_equal.
    unfold order_bytes, order_value. destruct big; rewrite <- Hlt at 1.
    + rewrite <- (length_rev (take n b)), to_from_le by (done || by apply Forall_rev). apply rev_involutive.
    + by rewrite to_from_le.
  - intros v Hv. split; [by eapply put_spec; [done|lia]|].
    assert (Hlv : length (order_bytes big n v) = n).
    { unfold order_bytes. destruct big; rewrite ?length_rev; apply length_to_le. }
    assert (Hbv : bytes_ok (order_bytes big n v)).
    { unfold order_bytes. destruct big; [apply Forall_rev|]; by apply to_le_uint. }
    erewrite get_spec; [|done|rewrite length_app; lia|apply Forall_app; split; [done|by apply Forall_drop]].
    f_equal. rewrite take_app_length' by done. unfold order_value, order_bytes.
    assert (from_le 8 (to_le 8 n v) = v) by (rewrite from_to_le by lia; by apply wrap_small).
    destruct big; [by rewrite rev_involutive|done].
Qed.

Lemma ByteOrder_methods_witness :
  bigEndian_Uint32 [1; 2; 3; 4; 5] = Val 0x01020304
  /\ bigEndian_PutUint32 [1; 2; 3; 4; 5] 0x01020304 = Val [1; 2; 3; 4; 5]
  /\ forall v, is_uint 32 v ->
       bigEndian_PutUint32 [1; 2; 3; 4; 5] v = Val (order_bytes true 4 v ++ [5])
       /\ bigEndian_Uint32 (order_bytes true 4 v ++ [5]) = Val v.
Proof.
  apply (ByteOrder_methods 4 true (Uint32 BigEndian) (PutUint32 BigEndian) [1; 2; 3; 4; 5]).
  - unfold byte_orders. rewrite !elem_of_cons. tauto.
  - by apply (bool_decide_unpack (bytes_ok [1; 2; 3; 4; 5])).
Defined.

(** C31. Varint round trips. For a uint64, PutUvarint writes floor(log2 x / 7) + 1 bytes, at most MaxVarintLen64, at the
    front of any buffer that has room for them and panics on a shorter one, and Uvarint reads the
    value and that length back whatever follows; for an int64 the same holds of PutVarint and
    Varint, with the length of the zigzag code. *)
Theorem varint_round_trip buf x y : is_uint 64 x -> is_sint 64 y ->
  (Z.log2 x / 7 + 1 <= MaxVarintLen64
   /\ if decide (Z.log2 x / 7 + 1 <= zlen buf)
      then exists bs, PutUvarint buf x = Val (bs ++ drop (length bs) buf, zlen bs)
        /\ zlen bs = Z.log2 x / 7 + 1 /\ forall rest, Uvarint (bs ++ rest) = (x, zlen bs)
      else PutUvarint buf x = Panic IndexOutOfRange)
  /\ (Z.log2 (zigzag y) / 7 + 1 <= MaxVarintLen64
   /\ if decide (Z.log2 (zigzag y) / 7 + 1 <= zlen buf)
      then exists bs, PutVarint buf y = Val (bs ++ drop (length bs) buf, zlen bs)
        /\ zlen bs = Z.log2 (zigzag y) / 7 + 1 /\ forall rest, Varint (bs ++ rest) = (y, zlen bs)
      else PutVarint buf y = Panic IndexOutOfRange).
Proof.
  intros Hx Hy. destruct (PutVarint_zigzag buf y Hy) as [Ez Hz]. rewrite Ez. split; (split; [by apply varint_length|]); case_decide as Hl.
  - by apply PutUvarint_Uvarint.
  - apply PutUvarint_short; [done|lia].
  - destruct (PutUvarint_Uvarint buf (zigzag y) Hz Hl) as (bs & E & L & U). exists bs. split_and!; [done..|]. intros rest. by apply Varint_zigzag.
  - apply PutUvarint_short; [done|lia].
Qed.

Lemma varint_round_trip_witness :
  (exists bs, PutUvarint [7; 7; 7] 300 = Val (bs ++ drop (length bs) [7; 7; 7], zlen bs)
     /\ zlen bs = Z.log2 300 / 7 + 1 /\ forall rest, Uvarint (bs ++ rest) = (300, zlen bs))
  /\ PutVarint [7; 7; 7] (- 2 ^ 63) = Panic IndexOutOfRange.
Proof.
  destruct (varint_round_trip [7; 7; 7] 300 (- 2 ^ 63) ltac:(by vm_compute) ltac:(by vm_compute)) as [[_ H1] [_ H2]].
  rewrite decide_True in H1 by (vm_compute; discriminate). rewrite decide_False in H2 by (by vm_compute). exact (conj H1 H2).
Defined.

(** What Uvarint and ReadUvarint do on arbitrary bytes. If every byte has its top bit set,
    Uvarint returns (0, 0) and ReadUvarint ends with the reader's own error. Otherwise, with the
    bytes up to the first one below 0x80, the value is the number their low seven bits spell; it is
    returned with that length unless it does not fit in 64 bits or takes more than ten bytes, and
    then Uvarint returns (0, minus the length) and ReadUvarint the overflow error. Both consume
    exactly these bytes; ReadUvarint needs no more fuel than there are bytes. *)
Theorem Uvarint_total {E} (e : E) buf fuel :
  bytes_ok buf -> (length buf < fuel)%nat ->
  (Forall (λ c, 128 <= c < 256) buf -> Uvarint buf = (0, 0)
     /\ exists v, ReadUvarint (list_ReadByte e) fuel buf = Val ([], v, Some (readErr e)))
  /\ (~ Forall (λ c, 128 <= c < 256) buf -> exists bs b rest, buf = bs ++ b :: rest
     /\ Forall (λ c, 128 <= c < 256) bs /\ 0 <= b < 128
     /\ let v := varint_value (bs ++ [b]) in
        if decide (MaxVarintLen64 < zlen bs + 1 \/ 2 ^ 64 <= v) then
          Uvarint buf = (0, - (zlen bs + 1))
          /\ exists v', ReadUvarint (list_ReadByte e) fuel buf = Val (rest, v', Some overflow)
        else
          Uvarint buf = (v, zlen bs + 1) /\ ReadUvarint (list_ReadByte e) fuel buf = Val (rest, v, None)).
Proof.
  intros Hb Hf. split.
  - intros Ho. pose proof (uvarint_loop_open buf 0 0 0 Ho) as E1. split; [done|].
    destruct (read_loop_uvarint e fuel buf 0 0 0 0 0 E1 Hf) as (v & Ev & _); [lia|]. by exists v.
  - intros Hno. destruct (varint_split buf Hb) as [?|(bs & b & rest & -> & Hbs & Hb1)]; [done|].
    exists bs, b, rest. split_and!; try done; try lia. cbv zeta.
    pose proof (Uvarint_terminated bs b rest Hbs Hb1) as Hu. unfold MaxVarintLen64.
    assert (Hdrop : drop (Z.to_nat (zlen bs + 1)) (bs ++ b :: rest) = rest).
    { replace (bs ++ b :: rest) with ((bs ++ [b]) ++ rest) by (by rewrite <- app_assoc).
      rewrite drop_app_length'; [done|]. rewrite length_app. simpl. lia. }
    destruct (decide _); (split; [done|]);
      destruct (read_loop_uvarint e fuel _ 0 0 0 _ _ Hu Hf) as (v' & Ev & Hv & _); try lia.
    + exists v'. unfold ReadUvarint. rewrite Ev. rewrite !(decide_False (P := _ = 0)), decide_True by lia.
      replace (Z.abs (- (zlen bs + 1)) - 0) with (zlen bs + 1) by lia. by rewrite Hdrop.
    + unfold ReadUvarint. rewrite Ev, Hv by lia. rewrite !decide_False by lia.
      replace (Z.abs (zlen bs + 1) - 0) with (zlen bs + 1) by lia. by rewrite Hdrop.
Qed.

Lemma Uvarint_total_witness :
  (Forall (λ c, 128 <= c < 256) [0xAC; 0x02; 7] -> Uvarint [0xAC; 0x02; 7] = (0, 0)
     /\ exists v, ReadUvarint (list_ReadByte tt) 4 [0xAC; 0x02; 7] = Val ([], v, Some (readErr tt)))
  /\ (~ Forall (λ c, 128 <= c < 256) [0xAC; 0x02; 7] -> exists bs b rest, [0xAC; 0x02; 7] = bs ++ b :: rest
     /\ Forall (λ c, 128 <= c < 256) bs /\ 0 <= b < 128
     /\ let v := varint_value (bs ++ [b]) in
        if decide (MaxVarintLen64 < zlen bs + 1 \/ 2 ^ 64 <= v) then
          Uvarint [0xAC; 0x02; 7] = (0, - (zlen bs + 1))
          /\ exists v', ReadUvarint (list_ReadByte tt) 4 [0xAC; 0x02; 7] = Val (rest, v', Some overflow)
        else
          Uvarint [0xAC; 0x02; 7] = (v, zlen bs + 1)
          /\ ReadUvarint (list_ReadByte tt) 4 [0xAC; 0x02; 7] = Val (rest, v, None)).
Proof.
  apply (Uvarint_total tt [0xAC; 0x02; 7] 4); [|simpl; lia].
  by apply (bool_decide_unpack (bytes_ok [0xAC; 0x02; 7])).
Defined.
