(* ===== verification/Hash.v ===== *)
(** * hash

    The interface hash.Hash (src/Source/Gold/hash/hash.go) as a typeclass of operations, and
    what its comments promise as a class of laws: writing adds to a running state byte by byte,
    Sum appends a value of fixed size, a marshalled state can be restored and continued.  The
    checksum packages are instances; the theorems here are proved against the laws only. *)

From S2P Require Import Prelude Binary.

(** The errors of UnmarshalBinary in the hash packages. *)
Inductive unmarshalError : Type :=
  | invalidIdentifier
  | invalidSize
  | tablesDoNotMatch.

(** The methods of hash.Hash, and of the BinaryMarshaler and BinaryUnmarshaler interfaces that
    every hash of the library implements. Methods with a pointer receiver return the new state. *)
Class Hash (D : Type) : Type := {
  Write : D -> list Z -> outcome (D * Z);
  Sum : D -> list Z -> outcome (list Z);
  Reset : D -> D;
  Size : D -> Z;
  BlockSize : D -> Z;
  MarshalBinary : D -> outcome (list Z);
  UnmarshalBinary : D -> list Z -> outcome (D * option unmarshalError)
}.

(** The promises.  [step d b] is the state after one more byte; [same d d'] says that the two
    digests compute the same function, whatever they have been given so far. *)
Class HashLaws (D : Type) `{Hash D} : Type := {
  hash_ok : D -> Prop;
  step : D -> Z -> D;
  same : D -> D -> Prop;
  step_ok : forall d b, hash_ok d -> is_uint 8 b -> hash_ok (step d b);
  step_same : forall d b, same d (step d b);
  same_equiv : Equivalence same;
  Write_law : forall d p, hash_ok d -> bytes_ok p -> Write d p = Val (foldl step d p, zlen p);
  Sum_law : forall d, exists s, (forall b, Sum d b = Val (b ++ s)) /\ zlen s = Size d;
  Reset_ok : forall d, hash_ok d -> hash_ok (Reset d);
  Reset_law : forall d d', same d d' -> Reset d = Reset d' /\ same d (Reset d);
  unmarshal_law : forall d d', hash_ok d -> hash_ok d' -> same d d' ->
    exists b, MarshalBinary d = Val b /\ UnmarshalBinary d' b = Val (d, None);
  unmarshal_any : forall d b, hash_ok d -> bytes_ok b -> exists d' e, UnmarshalBinary d b = Val (d', e) /\
    match e with
    | None => hash_ok d' /\ same d d' /\ MarshalBinary d' = Val b
    | Some _ => d' = d
    end
}.
#[export] Existing Instance same_equiv.

(** A sequence of writes. *)
Fixpoint Write_all {D} `{Hash D} (d : D) (chunks : list (list Z)) : outcome (D * Z) :=
  match chunks with
  | [] => Val (d, 0)
  | p :: chunks => '(d, n) ← Write d p; '(d, m) ← Write_all d chunks; Val (d, n + m)
  end.

Section Laws.
Context {D : Type} `{HashLaws D}.

Lemma foldl_ok d p : hash_ok d -> bytes_ok p -> hash_ok (foldl step d p).
Proof.
  intros Hd Hp. revert d Hd. induction Hp as [|b p Hb _ IH]; intros d Hd; [done|].
  apply IH. by apply step_ok.
Qed.

Lemma foldl_same d p : same d (foldl step d p).
Proof.
  revert d. induction p as [|b p IH]; intros d; [done|]. cbn [foldl].
  transitivity (step d b); [apply step_same|apply IH].
Qed.

Lemma Write_all_law d chunks : hash_ok d -> Forall bytes_ok chunks ->
  Write_all d chunks = Val (foldl step d (concat chunks), zlen (concat chunks)).
Proof.
  intros Hd Hc. revert d Hd. induction Hc as [|p chunks Hp _ IH]; intros d Hd; [done|].
  cbn [Write_all concat]. rewrite Write_law by done. cbn [mbind outcome_bind].
  rewrite IH by (by apply foldl_ok). cbn [mbind outcome_bind]. by rewrite foldl_app, zlen_app.
Qed.

Lemma bytes_ok_concat chunks : Forall bytes_ok chunks -> bytes_ok (concat chunks).
Proof. induction 1; [constructor|]. by apply Forall_app. Qed.
End Laws.

(** ** Words in big-endian order at the end of a state *)

Lemma order_bytes_be4 x : [u8 (Z.shiftr x 24); u8 (Z.shiftr x 16); u8 (Z.shiftr x 8); u8 x] = order_bytes true 4 x.
Proof. unfold order_bytes. by rewrite to_le_bytes4. Qed.

Lemma order_bytes_be8 x : [u8 (Z.shiftr x 56); u8 (Z.shiftr x 48); u8 (Z.shiftr x 40); u8 (Z.shiftr x 32);
    u8 (Z.shiftr x 24); u8 (Z.shiftr x 16); u8 (Z.shiftr x 8); u8 x] = order_bytes true 8 x.
Proof. unfold order_bytes. by rewrite to_le_bytes8. Qed.

Lemma order_value_bytes big n x : is_uint (8 * Z.of_nat n) x -> order_value big (order_bytes big n x) = x.
Proof.
  intros Hx. unfold order_value, order_bytes. destruct big; rewrite ?rev_involutive, from_to_le by lia; by apply wrap_small.
Qed.

Lemma order_bytes_value big bs : bytes_ok bs -> order_bytes big (length bs) (order_value big bs) = bs.
Proof.
  intros Hb. unfold order_value, order_bytes. destruct big; [|by apply to_from_le].
  rewrite <- (length_rev bs), to_from_le by (done || by apply Forall_rev). apply rev_involutive.
Qed.

Lemma order_bytes_value' big n bs : bytes_ok bs -> length bs = n -> order_bytes big n (order_value big bs) = bs.
Proof. intros Hb <-. by apply order_bytes_value. Qed.

Lemma order_bytes_ok big n x : bytes_ok (order_bytes big n x).
Proof. unfold order_bytes. destruct big; [apply Forall_rev|]; by apply to_le_uint. Qed.

Lemma length_order_bytes big n x : length (order_bytes big n x) = n.
Proof. unfold order_bytes. destruct big; rewrite ?length_rev; apply length_to_le. Qed.

Lemma order_value_uint big bs : bytes_ok bs -> is_uint (8 * zlen bs) (order_value big bs).
Proof.
  intros Hb. unfold order_value. destruct big; [rewrite <- (length_rev bs)|]; apply from_le_bound; try lia; [|done].
  by apply Forall_rev.
Qed.

(** Reading a word back at the front of a suffix. *)
Lemma bigEndian_Uint32_bytes x rest : is_uint 32 x -> bytes_ok rest ->
  bigEndian_Uint32 (order_bytes true 4 x ++ rest) = Val x.
Proof.
  intros Hx Hr. rewrite (get_spec 4 true _ bigEndian_PutUint32).
  - rewrite take_app_length' by (symmetry; apply length_order_bytes). by rewrite order_value_bytes.
  - unfold byte_orders. rewrite !elem_of_cons. tauto.
  - rewrite length_app, length_order_bytes. lia.
  - apply Forall_app. split; [apply order_bytes_ok|done].
Qed.

Lemma bigEndian_Uint64_bytes x rest : is_uint 64 x -> bytes_ok rest ->
  bigEndian_Uint64 (order_bytes true 8 x ++ rest) = Val x.
Proof.
  intros Hx Hr. rewrite (get_spec 8 true _ bigEndian_PutUint64).
  - rewrite take_app_length' by (symmetry; apply length_order_bytes). by rewrite order_value_bytes.
  - unfold byte_orders. rewrite !elem_of_cons. tauto.
  - rewrite length_app, length_order_bytes. lia.
  - apply Forall_app. split; [apply order_bytes_ok|done].
Qed.

Lemma bigEndian_Uint32_val b : (4 <= length b)%nat -> bytes_ok b ->
  bigEndian_Uint32 b = Val (order_value true (take 4 b)).
Proof.
  intros Hl Hb. apply (get_spec 4 true _ bigEndian_PutUint32); [|done..].
  unfold byte_orders. rewrite !elem_of_cons. tauto.
Qed.

Lemma bigEndian_Uint64_val b : (8 <= length b)%nat -> bytes_ok b ->
  bigEndian_Uint64 b = Val (order_value true (take 8 b)).
Proof.
  intros Hl Hb. apply (get_spec 8 true _ bigEndian_PutUint64); [|done..].
  unfold byte_orders. rewrite !elem_of_cons. tauto.
Qed.

(** ** The header of a marshalled state *)

(** [len(b) < len(magic) || string(b[:len(magic)]) != magic] *)
Definition bad_magic (magic b : list Z) : bool :=
  (zlen b <? zlen magic) || negb (bool_decide (take (length magic) b = magic)).

Lemma bad_magic_app magic rest : bad_magic magic (magic ++ rest) = false.
Proof.
  unfold bad_magic. rewrite take_app_length, bool_decide_true by done. rewrite zlen_app.
  rewrite orb_false_r. apply Z.ltb_ge. lia.
Qed.

Lemma bad_magic_false magic b : bad_magic magic b = false -> b = magic ++ drop (length magic) b.
Proof.
  unfold bad_magic. intros H. apply orb_false_iff in H as [_ H]. apply negb_false_iff in H.
  apply bool_decide_eq_true_1 in H. rewrite <- H at 1. by rewrite take_drop.
Qed.
