(* ===== verification/Adler32.v ===== *)
(** * hash/adler32

    The Adler-32 checksum (src/Source/Gold/hash/adler32/adler32.go).  [update] keeps the two
    running sums in 32-bit words and reduces them only every [nmax] bytes; the specification
    reduces after every byte. *)

From S2P Require Import Prelude Binary Hash.

Local Open Scope go_scope.

Definition mod_ : Z := 65521.
Definition nmax : Z := 5552.
Definition Size : Z := 4.

(** The state: s2 in the high half, s1 in the low half. *)
Definition digest : Type := Z.

Definition Reset (d : digest) : digest := 1.
Definition New : digest := Reset 0.

(** "adl\x01" *)
Definition magic : list Z := [97; 100; 108; 1].
Definition marshaledSize : Z := zlen magic + 4.

Definition appendUint32 (b : list Z) (x : Z) : list Z :=
  b ++ [u8 (x >>. 24); u8 (x >>. 16); u8 (x >>. 8); u8 x].

Definition readUint32 (b : list Z) : outcome Z :=
  _ ← index b 3;
  b3 ← index b 3; b2 ← index b 2; b1 ← index b 1; b0 ← index b 0;
  Val (b3 |. b2 <<.[32] 8 |. b1 <<.[32] 16 |. b0 <<.[32] 24).

Definition MarshalBinary (d : digest) : list Z := appendUint32 ([] ++ magic) d.

Definition UnmarshalBinary (d : digest) (b : list Z) : outcome (digest * option unmarshalError) :=
  if bad_magic magic b then Val (d, Some invalidIdentifier)
  else if negb (zlen b =? marshaledSize) then Val (d, Some invalidSize)
  else d ← readUint32 (drop (length magic) b); Val (d, None).

(** [for len(p) >= 4 { ... }]: the sums and the bytes left. *)
Fixpoint update4 (p : list Z) (s1 s2 : Z) : list Z * Z * Z :=
  match p with
  | p0 :: p1 :: p2 :: p3 :: p =>
      let s1 := u32 (s1 + p0) in let s2 := u32 (s2 + s1) in
      let s1 := u32 (s1 + p1) in let s2 := u32 (s2 + s1) in
      let s1 := u32 (s1 + p2) in let s2 := u32 (s2 + s1) in
      let s1 := u32 (s1 + p3) in let s2 := u32 (s2 + s1) in
      update4 p s1 s2
  | _ => (p, s1, s2)
  end.

(** [for _, x := range p] *)
Fixpoint update1 (p : list Z) (s1 s2 : Z) : Z * Z :=
  match p with
  | [] => (s1, s2)
  | x :: p => let s1 := u32 (s1 + x) in let s2 := u32 (s2 + s1) in update1 p s1 s2
  end.

Fixpoint update_loop (fuel : nat) (p : list Z) (s1 s2 : Z) : outcome (Z * Z) :=
  match fuel with
  | O => NoFuel
  | S fuel =>
      match p with
      | [] => Val (s1, s2)
      | _ :: _ =>
          let '(p, q) := if nmax <? zlen p then (take (Z.to_nat nmax) p, drop (Z.to_nat nmax) p) else (p, []) in
          let '(p, s1, s2) := update4 p s1 s2 in
          let '(s1, s2) := update1 p s1 s2 in
          update_loop fuel q (s1 mod mod_) (s2 mod mod_)
      end
  end.

(** Every turn of the loop consumes at least one byte. *)
Definition update (d : digest) (p : list Z) : outcome digest :=
  let s1 := d &. 0xffff in let s2 := d >>. 16 in
  '(s1, s2) ← update_loop (S (length p)) p s1 s2;
  Val (s2 <<.[32] 16 |. s1).

Definition Write (d : digest) (p : list Z) : outcome (digest * Z) :=
  d ← update d p; Val (d, zlen p).

Definition Sum32 (d : digest) : Z := d.

Definition Sum (d : digest) (b : list Z) : list Z :=
  let s := d in b ++ [u8 (s >>. 24); u8 (s >>. 16); u8 (s >>. 8); u8 s].

Definition Checksum (data : list Z) : outcome Z := update 1 data.

#[export] Instance adler32_Hash : Hash digest := {
  Hash.Write := Write; Hash.Sum := λ d b, Val (Sum d b); Hash.Reset := Reset;
  Hash.Size := λ _, Size; Hash.BlockSize := λ _, 4;
  Hash.MarshalBinary := λ d, Val (MarshalBinary d); Hash.UnmarshalBinary := UnmarshalBinary }.

(** ** Specification: RFC 1950, one byte at a time *)

Definition adler_step (d : digest) (x : Z) : digest :=
  let s1 := (d mod 65536 + x) mod 65521 in
  let s2 := (d / 65536 + s1) mod 65521 in
  s2 * 65536 + s1.

(** The two sums without any reduction. *)
Fixpoint sums (p : list Z) (s1 s2 : Z) : Z * Z :=
  match p with [] => (s1, s2) | x :: p => sums p (s1 + x) (s2 + (s1 + x)) end.

(** ** The deferred reduction is exact *)

Lemma sums_app p q s1 s2 : sums (p ++ q) s1 s2 = let '(a, b) := sums p s1 s2 in sums q a b.
Proof. revert s1 s2. induction p as [|x p IH]; intros s1 s2; [done|]. apply IH. Qed.

(** The sums grow, and are bounded by those of a run of 255s. *)
Lemma sums_bounds p s1 s2 : bytes_ok p -> 0 <= s1 -> 0 <= s2 ->
  let '(a, b) := sums p s1 s2 in
  s1 <= a <= s1 + 255 * zlen p /\ s2 <= b /\ 2 * b <= 2 * s2 + 2 * zlen p * s1 + 255 * (zlen p * (zlen p + 1)).
Proof.
  intros Hp. revert s1 s2. induction Hp as [|x p Hx _ IH]; intros s1 s2 H1 H2; [simpl; lia|].
  unfold is_uint in Hx. change (2 ^ 8) with 256 in Hx. cbn [sums length].
  specialize (IH (s1 + x) (s2 + (s1 + x)) ltac:(lia) ltac:(lia)). destruct (sums _ _ _) as [a b].
  rewrite Nat2Z.inj_succ. assert (zlen p * x <= zlen p * 255) by nia. split_and!; lia.
Qed.

Lemma update1_sums p s1 s2 : bytes_ok p -> 0 <= s1 -> 0 <= s2 ->
  fst (sums p s1 s2) < 2 ^ 32 -> snd (sums p s1 s2) < 2 ^ 32 -> update1 p s1 s2 = sums p s1 s2.
Proof.
  intros Hp. revert s1 s2. induction Hp as [|x p Hx Hp IH]; intros s1 s2 H1 H2 Ha Hb; [done|].
  unfold is_uint in Hx. cbn [sums update1] in *.
  pose proof (sums_bounds p (s1 + x) (s2 + (s1 + x)) Hp ltac:(lia) ltac:(lia)) as B.
  assert (E : fst (sums p (s1 + x) (s2 + (s1 + x))) < 2 ^ 32 /\ snd (sums p (s1 + x) (s2 + (s1 + x))) < 2 ^ 32) by done.
  destruct (sums p (s1 + x) (s2 + (s1 + x))) as [a b] eqn:Es. cbn [fst snd] in *.
  rewrite !wrap_small by (unfold is_uint; lia). rewrite IH; rewrite ?Es; cbn [fst snd]; try done; lia.
Qed.

Lemma update4_update1 p s1 s2 : forall q a b, update4 p s1 s2 = (q, a, b) -> update1 p s1 s2 = update1 q a b.
Proof.
  assert (H : forall n p s1 s2 q a b, (length p <= n)%nat -> update4 p s1 s2 = (q, a, b) -> update1 p s1 s2 = update1 q a b);
    [|intros q a b; by apply (H (length p))].
  clear. induction n as [|n IH]; intros p s1 s2 q a b Hn E.
  - destruct p; [|simpl in Hn; lia]. simpl in E. by simplify_eq.
  - destruct p as [|p0 [|p1 [|p2 [|p3 p]]]]; cbn [update4] in E; [by simplify_eq..|].
    cbn [update1]. apply (IH p _ _ q a b); [simpl in Hn; lia|exact E].
Qed.

(** The bound the source's comment gives for [nmax]; it leaves room for sums that have not been
    reduced, as a restored state may have. *)
Lemma chunk_exact p s1 s2 : bytes_ok p -> zlen p <= nmax -> is_uint 16 s1 -> is_uint 16 s2 ->
  update1 p s1 s2 = sums p s1 s2.
Proof.
  unfold nmax, is_uint. change (2 ^ 16) with 65536. intros Hp Hl H1 H2.
  pose proof (sums_bounds p s1 s2 Hp ltac:(lia) ltac:(lia)) as B.
  apply update1_sums; [done|lia|lia| |]; destruct (sums p s1 s2) as [a b]; cbn [fst snd];
    change (2 ^ 32) with 4294967296; nia.
Qed.

Lemma sums_mod p s1 s2 t1 t2 : s1 mod mod_ = t1 mod mod_ -> s2 mod mod_ = t2 mod mod_ ->
  fst (sums p s1 s2) mod mod_ = fst (sums p t1 t2) mod mod_ /\
  snd (sums p s1 s2) mod mod_ = snd (sums p t1 t2) mod mod_.
Proof.
  unfold mod_. revert s1 s2 t1 t2. induction p as [|x p IH]; intros s1 s2 t1 t2 H1 H2; [done|].
  cbn [sums]. apply IH; dlia.
Qed.

(** The result of the loop and of the byte-wise specification. *)
Definition reduced (p : list Z) (s1 s2 : Z) : Z * Z :=
  match p with
  | [] => (s1, s2)
  | _ => let '(a, b) := sums p s1 s2 in (a mod mod_, b mod mod_)
  end.

Lemma mod_uint16 x : is_uint 16 (x mod mod_).
Proof. unfold is_uint, mod_. change (2 ^ 16) with 65536. dlia. Qed.

Lemma adler_update_loop_spec fuel p s1 s2 : bytes_ok p -> (length p < fuel)%nat -> is_uint 16 s1 -> is_uint 16 s2 ->
  update_loop fuel p s1 s2 = Val (reduced p s1 s2).
Proof.
  revert p s1 s2. induction fuel as [|fuel IH]; intros p s1 s2 Hp Hf H1 H2; [lia|].
  cbn [update_loop]. destruct p as [|x p']; [done|]. set (p := x :: p') in *.
  set (h := if nmax <? zlen p then take (Z.to_nat nmax) p else p).
  set (q := if nmax <? zlen p then drop (Z.to_nat nmax) p else []).
  assert (Epq : (if nmax <? zlen p then (take (Z.to_nat nmax) p, drop (Z.to_nat nmax) p) else (p, [])) = (h, q))
    by (unfold h, q; by destruct (nmax <? zlen p)).
  rewrite Epq. assert (Happ : h ++ q = p) by (unfold h, q; destruct (nmax <? zlen p); [apply take_drop|apply app_nil_r]).
  assert (Hh : zlen h <= nmax /\ (0 < length h)%nat).
  { unfold h. destruct (Z.ltb_spec nmax (zlen p)); [rewrite length_take; unfold nmax in *; lia|subst p; simpl in *; lia]. }
  rewrite <- Happ in Hp. apply Forall_app in Hp as [Hph Hpq].
  destruct (update4 h s1 s2) as [[q1 a] b] eqn:E4. rewrite <- (update4_update1 _ _ _ _ _ _ E4).
  rewrite chunk_exact by (done || lia). destruct (sums h s1 s2) as [u v] eqn:Es.
  assert (Hlq : (length q < length p)%nat) by (rewrite <- Happ, length_app; lia).
  rewrite IH; [|done|lia|apply mod_uint16..]. f_equal.
  assert (Er : reduced p s1 s2 = let '(a, b) := sums (h ++ q) s1 s2 in (a mod mod_, b mod mod_)) by (by rewrite Happ).
  rewrite Er, sums_app, Es. unfold reduced.
  destruct q as [|y q]; [done|]. pose proof (sums_mod (y :: q) (u mod mod_) (v mod mod_) u v) as [E1 E2].
  { by rewrite Z.mod_mod by done. } { by rewrite Z.mod_mod by done. }
  destruct (sums (y :: q) (u mod mod_) (v mod mod_)), (sums (y :: q) u v). cbn [fst snd] in *. by rewrite E1, E2.
Qed.

Lemma foldl_adler p d : is_uint 32 d -> bytes_ok p ->
  foldl adler_step d p = let '(s1, s2) := reduced p (d mod 65536) (d / 65536) in s2 * 65536 + s1.
Proof.
  intros Hd Hp. revert d Hd. induction Hp as [|x p Hx Hp IH]; intros d Hd; cbn [foldl reduced]; [dlia|].
  cbn [sums]. unfold is_uint in *. change (2 ^ 32) with 4294967296 in *. rewrite IH by (unfold adler_step; dlia).
  set (s1 := (d mod 65536 + x) mod 65521). set (s2 := (d / 65536 + s1) mod 65521).
  assert (Es : adler_step d x = s2 * 65536 + s1) by done. rewrite Es.
  assert (0 <= s1 < 65521 /\ 0 <= s2 < 65521) by (unfold s1, s2; dlia).
  replace ((s2 * 65536 + s1) mod 65536) with s1 by dlia. replace ((s2 * 65536 + s1) / 65536) with s2 by dlia.
  assert (E1 : s1 mod 65521 = (d mod 65536 + x) mod 65521) by (unfold s1; by rewrite Z.mod_mod by done).
  assert (E2 : s2 mod 65521 = (d / 65536 + (d mod 65536 + x)) mod 65521) by (unfold s2, s1; dlia).
  destruct p as [|y p]; cbn [reduced].
  - cbn [sums]. unfold mod_. rewrite <- E1, <- E2, !Z.mod_small by lia. done.
  - pose proof (sums_mod (y :: p) s1 s2 _ _ E1 E2) as [F1 F2]. unfold mod_ in *.
    destruct (sums (y :: p) s1 s2), (sums (y :: p) _ _). cbn [fst snd] in *. by rewrite F1, F2.
Qed.

Lemma adler_update_spec d p : is_uint 32 d -> bytes_ok p -> update d p = Val (foldl adler_step d p).
Proof.
  intros Hd Hp. rewrite foldl_adler by done. unfold update. change 0xffff with (Z.ones 16).
  rewrite Z.land_ones, Z.shiftr_div_pow2 by lia. unfold is_uint in Hd.
  change (2 ^ 16) with 65536. change (2 ^ 32) with 4294967296 in Hd.
  assert (H2 : is_uint 16 (d / 65536)) by (unfold is_uint; change (2 ^ 16) with 65536; dlia).
  rewrite adler_update_loop_spec by (try done; try lia; unfold is_uint; change (2 ^ 16) with 65536; dlia).
  cbn [mbind outcome_bind]. destruct (reduced p (d mod 65536) (d / 65536)) as [s1 s2] eqn:E. f_equal.
  assert (Hs : is_uint 16 s1 /\ is_uint 16 s2).
  { destruct p as [|x p]; cbn [reduced] in E; [simplify_eq; unfold is_uint in *; change (2 ^ 16) with 65536 in *; dlia|].
    destruct (sums _ _ _). simplify_eq. split; apply mod_uint16. }
  unfold shl. rewrite Z.shiftl_mul_pow2, wrap_small, lor_disjoint by (try lia; try apply Hs; unfold is_uint in *;
    change (2 ^ 16) with 65536 in *; change (2 ^ 32) with 4294967296; lia). done.
Qed.

(** ** The laws of hash.Hash *)

Lemma adler_readUint32_eq b : readUint32 b = bigEndian_Uint32 b.
Proof. done. Qed.

Lemma adler_appendUint32_eq b x : appendUint32 b x = b ++ order_bytes true 4 x.
Proof. unfold appendUint32. by rewrite order_bytes_be4. Qed.

Lemma adler_step_ok d x : is_uint 32 d -> is_byte x -> is_uint 32 (adler_step d x).
Proof. unfold is_uint, adler_step. change (2 ^ 32) with 4294967296. intros. dlia. Qed.

#[export] Program Instance adler32_laws : HashLaws digest := {
  hash_ok := is_uint 32; step := adler_step; same := λ _ _, True }.
Next Obligation. intros. by apply adler_step_ok. Qed.
Next Obligation. done. Qed.
Next Obligation. split; repeat intro; done. Qed.
Next Obligation.
  intros d p Hd Hp. change (Write d p = Val (foldl adler_step d p, zlen p)). unfold Write. by rewrite adler_update_spec.
Qed.
Next Obligation. intros d. exists (Sum d []). split; [|done]. intros b. change (Val (Sum d b) = Val (b ++ Sum d [])). unfold Sum. by rewrite !order_bytes_be4. Qed.
Next Obligation. intros. by apply (bool_decide_unpack (is_uint 32 1)). Qed.
Next Obligation. done. Qed.
Next Obligation.
  intros d d' Hd _ _. exists (MarshalBinary d). split; [done|].
  change (UnmarshalBinary d' (MarshalBinary d) = Val (d, None)).
  unfold UnmarshalBinary, MarshalBinary. rewrite adler_appendUint32_eq, adler_readUint32_eq. cbn [app].
  rewrite bad_magic_app, drop_app_length. change (zlen _ =? _) with true. cbn [negb].
  rewrite <- (app_nil_r (order_bytes _ _ _)). by rewrite bigEndian_Uint32_bytes.
Qed.
Next Obligation.
  intros d b Hd Hb. change (Hash.UnmarshalBinary d b) with (UnmarshalBinary d b).
  change Hash.MarshalBinary with (λ d, Val (MarshalBinary d)). cbv beta. unfold UnmarshalBinary, MarshalBinary.
  destruct (bad_magic magic b) eqn:Em; [by eexists d, (Some _)|].
  destruct (Z.eqb_spec (zlen b) marshaledSize) as [El|]; cbn [negb]; [|by eexists d, (Some _)].
  apply bad_magic_false in Em. rewrite Em in El, Hb |- *. rewrite drop_app_length.
  apply Forall_app in Hb as [_ Hb]. rewrite zlen_app in El. set (w := drop (length magic) b) in *.
  assert (Hw : length w = 4%nat) by (unfold marshaledSize in El; lia).
  exists (order_value true w), None. rewrite adler_readUint32_eq, bigEndian_Uint32_val, take_ge by (done || lia).
  split_and!; [done| |done|].
  - pose proof (order_value_uint true w Hb) as Hu. by rewrite Hw in Hu.
  - rewrite adler_appendUint32_eq, <- Hw, order_bytes_value by done. done.
Qed.

(** ** Properties *)

(** C34. Adler-32 is the checksum of RFC 1950. For any message, Checksum does not panic and returns
    [b mod 65521] in the high and [a mod 65521] in the low half, where [a] is 1 plus the sum of the
    bytes and [b] the sum of all intermediate values of [a], without any overflow although the
    source adds in 32-bit words and reduces only every 5552 bytes; and from every state, restored
    ones included, update equals the byte-at-a-time reduction. *)
Theorem Checksum_spec data d :
  bytes_ok data -> is_uint 32 d ->
  Checksum data = Val (let '(a, b) := sums data 1 0 in b mod 65521 * 65536 + a mod 65521)
  /\ update d data = Val (foldl adler_step d data).
Proof.
  intros Hp Hd. split; [|by apply adler_update_spec]. unfold Checksum.
  rewrite adler_update_spec, foldl_adler by (done || by apply (bool_decide_unpack (is_uint 32 1))). f_equal.
  destruct data as [|x data]; [done|]. unfold reduced. change (1 mod 65536) with 1. change (1 / 65536) with 0.
  by destruct (sums (x :: data) 1 0).
Qed.

(** "Wikipedia" *)
Lemma Checksum_spec_witness :
  Checksum [87; 105; 107; 105; 112; 101; 100; 105; 97] = Val 0x11E60398
  /\ update 0xFFFFFFFF [87; 105] = Val (foldl adler_step 0xFFFFFFFF [87; 105]).
Proof.
  split.
  - apply (Checksum_spec [87; 105; 107; 105; 112; 101; 100; 105; 97] 1);
      by apply (bool_decide_unpack _).
  - apply (Checksum_spec [87; 105] 0xFFFFFFFF); by apply (bool_decide_unpack _).
Defined.
