(* ===== verification/Crc.v ===== *)
(** * Reflected cyclic redundancy checks

    The theory that hash/crc32 and hash/crc64 share: a shift register over GF(2), one bit and
    one byte at a time, and why a table of bytes and eight tables of shifted bytes compute the
    same function.  No definition of this file models code of its own. *)

From S2P Require Import Prelude.

Local Open Scope go_scope.

(** Eight terms added from either end. *)
Lemma lxor8_rev a0 a1 a2 a3 a4 a5 a6 a7 :
  a0 ^. a1 ^. a2 ^. a3 ^. a4 ^. a5 ^. a6 ^. a7
  = a7 ^. (a6 ^. (a5 ^. (a4 ^. (a3 ^. (a2 ^. (a1 ^. (a0 ^. 0))))))).
Proof.
  rewrite Z.lxor_0_r.
  by repeat match goal with |- ?x ^. ?a = ?a ^. ?y => rewrite (Z.lxor_comm x a); apply f_equal end.
Qed.

Section Register.
Context (w poly : Z).
Hypothesis w_ok : 8 <= w.
Hypothesis poly_ok : is_uint w poly.

(** One bit: shift right and add the polynomial if a one falls out. *)
Definition shift_bit (c : Z) : Z := if c &. 1 =? 1 then (c >>. 1) ^. poly else c >>. 1.
(** Eight bits. *)
Definition shift_byte (c : Z) : Z := Nat.iter 8 shift_bit c.

(** The register after the bits of a byte, least significant bit first. *)
Definition bit_step (c : Z) (bit : bool) : Z := shift_bit (c ^. Z.b2z bit).
Fixpoint low_bits (n : nat) (b : Z) : list bool :=
  match n with O => [] | S n => Z.odd b :: low_bits n (b / 2) end.
Definition byte_step (c b : Z) : Z := foldl bit_step c (low_bits 8 b).

Lemma shift_bit_uint c : is_uint w c -> is_uint w (shift_bit c).
Proof.
  intros Hc. unfold shift_bit. destruct (_ =? _); [apply lxor_is_uint|]; try lia; auto with word.
  all: apply shiftr_is_uint; lia || done.
Qed.

Lemma shift_byte_uint c : is_uint w c -> is_uint w (shift_byte c).
Proof. intros Hc. unfold shift_byte. generalize 8%nat as n. induction n as [|n IH]; [done|]. cbn. by apply shift_bit_uint. Qed.

Lemma land_1 c : c &. 1 = Z.b2z (Z.odd c).
Proof. change 1 with (Z.ones 1). rewrite Z.land_ones by lia. change (2 ^ 1) with 2. by rewrite Zmod_odd. Qed.

Lemma shift_bit_eq c : shift_bit c = (c >>. 1) ^. (if Z.odd c then poly else 0).
Proof. unfold shift_bit. rewrite land_1. destruct (Z.odd c); cbn [Z.b2z Z.eqb Pos.eqb]; [done|]. by rewrite Z.lxor_0_r. Qed.

(** Shifting is linear. *)
Lemma shift_bit_lxor a b : shift_bit (a ^. b) = shift_bit a ^. shift_bit b.
Proof.
  rewrite !shift_bit_eq, Z.shiftr_lxor. rewrite <- !Z.bit0_odd, Z.lxor_spec.
  apply Z.bits_inj'. intros i Hi. rewrite !Z.lxor_spec.
  destruct (Z.testbit a 0), (Z.testbit b 0); cbn [xorb]; rewrite ?Z.bits_0;
  destruct (Z.testbit (a >>. 1) i), (Z.testbit (b >>. 1) i), (Z.testbit poly i); done.
Qed.

Lemma shift_byte_lxor a b : shift_byte (a ^. b) = shift_byte a ^. shift_byte b.
Proof.
  unfold shift_byte. generalize 8%nat as n. induction n as [|n IH]; [done|].
  by rewrite !Nat.iter_succ, IH, shift_bit_lxor.
Qed.

Lemma shift_bit_double c : shift_bit (2 * c) = c.
Proof.
  rewrite shift_bit_eq. rewrite Z.odd_mul. cbn [Z.odd andb]. rewrite Z.lxor_0_r, Z.shiftr_div_pow2 by lia.
  change (2 ^ 1) with 2. dlia.
Qed.

(** A register whose low byte is clear is only shifted. *)
Lemma shift_byte_high c : shift_byte (c * 2 ^ 8) = c.
Proof.
  unfold shift_byte. change (2 ^ 8) with (2 * (2 * (2 * (2 * (2 * (2 * (2 * 2))))))).
  replace (c * (2 * (2 * (2 * (2 * (2 * (2 * (2 * 2)))))))) with (2 * (2 * (2 * (2 * (2 * (2 * (2 * (2 * c)))))))) by lia.
  by rewrite !Nat.iter_succ_r, !shift_bit_double.
Qed.

(** A byte at a time, with a table of the 256 shifted bytes. *)
Lemma shift_byte_split c : shift_byte c = shift_byte (c mod 2 ^ 8) ^. (c >>. 8).
Proof.
  rewrite <- (shift_byte_high (c >>. 8)) at 1. rewrite <- shift_byte_lxor. f_equal.
  rewrite Z.shiftr_div_pow2, Z.lxor_comm, lxor_disjoint by (lia || (apply wrap_is_uint; lia)). dlia.
Qed.

Lemma bit_cat b q : Z.b2z b ^. 2 * q = Z.b2z b + 2 * q.
Proof.
  replace (2 * q) with (q * 2 ^ 1) by (change (2 ^ 1) with 2; lia).
  rewrite Z.lxor_comm, lxor_disjoint; [lia|lia|]. by destruct b.
Qed.

Lemma foldl_low_bits n c b :
  foldl bit_step c (low_bits n b) = Nat.iter n shift_bit (c ^. (b mod 2 ^ Z.of_nat n)).
Proof.
  revert c b. induction n as [|n IH]; intros c b; cbn [low_bits foldl].
  - change (2 ^ Z.of_nat 0) with 1. by rewrite Z.mod_1_r, Z.lxor_0_r.
  - rewrite IH, Nat.iter_succ_r. f_equal. unfold bit_step.
    rewrite Nat2Z.inj_succ, Z.pow_succ_r, Z.rem_mul_r by lia.
    rewrite Zmod_odd. replace (if Z.odd b then 1 else 0) with (Z.b2z (Z.odd b)) by (by destruct (Z.odd b)).
    replace (Z.b2z (Z.odd b) + 2 * (b / 2 mod 2 ^ Z.of_nat n))
      with (Z.b2z (Z.odd b) ^. 2 * (b / 2 mod 2 ^ Z.of_nat n)).
    + rewrite <- Z.lxor_assoc. by rewrite (shift_bit_lxor (c ^. _) (2 * _)), shift_bit_double.
    + apply bit_cat.
Qed.

(** Feeding a byte bit by bit is adding it to the register and shifting eight times. *)
Lemma byte_step_shift c b : is_byte b -> byte_step c b = shift_byte (c ^. b).
Proof.
  intros Hb. unfold byte_step. rewrite foldl_low_bits. unfold shift_byte. do 2 f_equal. by apply wrap_small.
Qed.

Lemma byte_step_uint c b : is_uint w c -> is_byte b -> is_uint w (byte_step c b).
Proof.
  intros Hc Hb. rewrite byte_step_shift by done. apply shift_byte_uint, lxor_is_uint; [lia|done|].
  by apply (is_uint_mono 8).
Qed.

(** ** The byte table *)

(** What the tables of the two packages contain. *)
Definition byte_table : list Z := map shift_byte (seqZ 0 256).

Lemma tab_map_seqZ f i : 0 <= i < 256 -> tab (map f (seqZ 0 256)) i = f i.
Proof.
  intros Hi. unfold tab. rewrite nth_lookup, list_lookup_fmap, lookup_seqZ_lt by lia. cbn [fmap option_fmap option_map].
  cbn. f_equal. lia.
Qed.

Lemma table_step c b : is_uint w c -> is_byte b ->
  tab byte_table (u8 c ^. b) ^. (c >>. 8) = byte_step c b.
Proof.
  intros Hc Hb. assert (Hx : is_byte (u8 c ^. b)) by (apply lxor_is_uint; [lia|apply wrap_is_uint; lia|done]).
  unfold byte_table. rewrite tab_map_seqZ by done. rewrite byte_step_shift, (shift_byte_split (c ^. b)) by done. f_equal.
  - f_equal. apply (word_ext 8); [lia|done|apply wrap_is_uint; lia|]. intros i Hi. change (2 ^ 8) with (2 ^ 8).
    rewrite Z.lxor_spec, (testbit_wrap 8 c) by lia. change ((c ^. b) mod 2 ^ 8) with (u8 (c ^. b)).
    rewrite testbit_wrap, Z.lxor_spec by lia. rewrite (proj2 (Z.ltb_lt i 8)) by lia. done.
  - rewrite Z.shiftr_lxor. replace (b >>. 8) with 0; [by rewrite Z.lxor_0_r|].
    symmetry. rewrite Z.shiftr_div_pow2 by lia. apply Z.div_small. done.
Qed.

(** ** Several bytes at a time *)

(** Table [j] holds the bytes shifted [8 * (j+1)] times. *)
Definition shift_bytes (j : nat) (c : Z) : Z := Nat.iter j shift_byte c.
Definition byte_table_at (j : nat) : list Z := map (shift_bytes (S j)) (seqZ 0 256).

Lemma shift_bytes_lxor j a b : shift_bytes j (a ^. b) = shift_bytes j a ^. shift_bytes j b.
Proof. unfold shift_bytes. induction j as [|j IH]; [done|]. by rewrite !Nat.iter_succ, IH, shift_byte_lxor. Qed.

Lemma shift_bytes_high j c : shift_bytes (S j) (c * 2 ^ 8) = shift_bytes j c.
Proof. unfold shift_bytes. rewrite Nat.iter_succ_r, shift_byte_high. done. Qed.

Lemma byte_table_at_0 : byte_table_at 0 = byte_table.
Proof. unfold byte_table_at, byte_table. by apply map_ext. Qed.

(** Feeding bytes one by one is adding them to the register, least significant first, and
    shifting once per byte. *)
Lemma foldl_byte_step bs c : bytes_ok bs ->
  foldl byte_step c bs = shift_bytes (length bs) (c ^. from_le 8 bs).
Proof.
  intros Hb. revert c. induction Hb as [|b bs Hb _ IH]; intros c; cbn [foldl length from_le].
  - by rewrite Z.lxor_0_r.
  - rewrite IH, byte_step_shift by done. unfold shift_bytes. rewrite Nat.iter_succ_r. f_equal.
    replace (b + 2 ^ 8 * from_le 8 bs) with (b ^. from_le 8 bs * 2 ^ 8)
      by (rewrite Z.lxor_comm, lxor_disjoint by (done || lia); lia).
    by rewrite <- Z.lxor_assoc, (shift_byte_lxor (c ^. b)), shift_byte_high.
Qed.

(** A word is the exclusive or of its bytes, each in its own table. *)
Fixpoint tables_xor (bs : list Z) : Z :=
  match bs with [] => 0 | b :: bs => tab (byte_table_at (length bs)) b ^. tables_xor bs end.

Lemma tables_xor_shift bs : bytes_ok bs -> tables_xor bs = shift_bytes (length bs) (from_le 8 bs).
Proof.
  induction 1 as [|b bs Hb _ IH]; [done|]. cbn [tables_xor from_le length].
  unfold byte_table_at. rewrite tab_map_seqZ by done. rewrite IH, <- (shift_bytes_high (length bs) (from_le 8 bs)), <- shift_bytes_lxor.
  f_equal. rewrite Z.lxor_comm, lxor_disjoint by (done || lia). lia.
Qed.

(** The eight-table step of both packages. *)
Lemma slicing_step c bs : bytes_ok bs -> is_uint (8 * zlen bs) c ->
  tables_xor (to_le 8 (length bs) (c ^. from_le 8 bs)) = foldl byte_step c bs.
Proof.
  intros Hb Hc. rewrite tables_xor_shift by (apply to_le_uint; lia).
  rewrite length_to_le, from_to_le, foldl_byte_step by (done || lia). f_equal. apply wrap_small, lxor_is_uint.
  - lia.
  - done.
  - by apply from_le_bound.
Qed.

Lemma land_ff c : c &. 0xFF = c mod 2 ^ 8.
Proof. change 0xFF with (Z.ones 8). by rewrite Z.land_ones by lia. Qed.

(** The way both packages fill their eight tables. *)
Lemma slice_column j i : 0 <= i < 256 ->
  Nat.iter j (λ crc, tab byte_table (crc &. 0xFF) ^. (crc >>. 8)) (tab byte_table i) = shift_bytes (S j) i.
Proof.
  intros Hi. unfold shift_bytes. rewrite Nat.iter_succ_r.
  replace (tab byte_table i) with (shift_byte i) by (unfold byte_table; by rewrite tab_map_seqZ).
  generalize (shift_byte i) as c. induction j as [|j IH]; intros c; [done|].
  rewrite !Nat.iter_succ, IH, land_ff. unfold byte_table. rewrite tab_map_seqZ by (apply (wrap_is_uint 8); lia).
  symmetry. apply shift_byte_split.
Qed.

Lemma slice_table j t : t = byte_table ->
  map (λ i, Nat.iter j (λ crc, tab t (crc &. 0xFF) ^. (crc >>. 8)) (tab t i)) (seqZ 0 256) = byte_table_at j.
Proof.
  intros ->. unfold byte_table_at. apply map_ext_in. intros i Hi. apply list_elem_of_In, elem_of_seqZ in Hi.
  apply slice_column. lia.
Qed.

(** ** Error detection *)

(** A polynomial of full degree makes every step a bijection of the words. *)
Hypothesis poly_top : Z.testbit poly (w - 1) = true.

Lemma shift_bit_0 c : is_uint w c -> shift_bit c = 0 -> c = 0.
Proof.
  intros Hc. rewrite shift_bit_eq. intros E. apply Z.lxor_eq in E. destruct (Z.odd c) eqn:Ho.
  - exfalso. rewrite <- E, Z.shiftr_spec, (testbit_high w) in poly_top by (done || lia). done.
  - rewrite Z.shiftr_div_pow2 in E by lia. change (2 ^ 1) with 2 in E. unfold is_uint in Hc.
    rewrite Zodd_mod in Ho. apply Z.eqb_neq in Ho. dlia.
Qed.

Lemma shift_bytes_inj j a b : is_uint w a -> is_uint w b -> shift_bytes j a = shift_bytes j b -> a = b.
Proof.
  intros Ha Hb E. apply Z.lxor_eq. assert (Hx : is_uint w (a ^. b)) by (apply lxor_is_uint; lia || done).
  apply (f_equal (λ y, y ^. shift_bytes j b)) in E. rewrite <- shift_bytes_lxor, Z.lxor_nilpotent in E.
  revert Hx E. generalize (a ^. b) as x. clear - w_ok poly_ok poly_top. unfold shift_bytes.
  assert (H8 : forall x, is_uint w x -> shift_byte x = 0 -> x = 0).
  { unfold shift_byte. generalize 8%nat as n. induction n as [|n IH]; intros x Hx E; [done|].
    rewrite Nat.iter_succ_r in E. apply shift_bit_0; [done|]. apply IH; [by apply shift_bit_uint|done]. }
  induction j as [|j IH]; intros x Hx E; [done|]. rewrite Nat.iter_succ_r in E.
  apply H8; [done|]. apply IH; [by apply shift_byte_uint|done].
Qed.

Lemma foldl_byte_step_uint c bs : is_uint w c -> bytes_ok bs -> is_uint w (foldl byte_step c bs).
Proof.
  intros Hc Hb. revert c Hc. induction Hb as [|b bs Hb _ IH]; intros c Hc; [done|]. by apply IH, byte_step_uint.
Qed.

(** Two messages that differ only inside a window of the register's width leave different
    registers. *)
Lemma burst_registers c p u v q :
  is_uint w c -> bytes_ok p -> bytes_ok u -> bytes_ok v -> bytes_ok q ->
  length u = length v -> 8 * zlen u <= w -> u <> v ->
  foldl byte_step c (p ++ u ++ q) <> foldl byte_step c (p ++ v ++ q).
Proof.
  intros Hc Hp Hu Hv Hq Hl Hw Hne. rewrite !foldl_app. set (c' := foldl byte_step c p).
  assert (Hc' : is_uint w c') by (by apply foldl_byte_step_uint).
  assert (Hword : forall bs, bytes_ok bs -> 8 * zlen bs <= w -> is_uint w (from_le 8 bs)).
  { intros bs Hbs Hlb. apply (is_uint_mono (8 * zlen bs)); [done|by apply from_le_bound]. }
  rewrite !(foldl_byte_step q), (foldl_byte_step u), (foldl_byte_step v), <- Hl by done.
  intros E. apply Hne.
  assert (Hsb : forall j x, is_uint w x -> is_uint w (shift_bytes j x)).
  { intros j x Hx. unfold shift_bytes. induction j as [|j IH]; [done|]. rewrite Nat.iter_succ. by apply shift_byte_uint. }
  rewrite !shift_bytes_lxor in E. apply (f_equal (λ y, y ^. shift_bytes (length q) (from_le 8 q))) in E.
  rewrite !Z.lxor_assoc, !Z.lxor_nilpotent, !Z.lxor_0_r in E. rewrite <- !shift_bytes_lxor in E.
  assert (Hx : forall bs, bytes_ok bs -> 8 * zlen bs <= w -> is_uint w (c' ^. from_le 8 bs)).
  { intros bs H1 H2. apply lxor_is_uint; [lia|done|by apply Hword]. }
  apply shift_bytes_inj in E; [|by apply Hsb, Hx|apply Hsb, Hx; [done|by rewrite <- Hl]].
  apply shift_bytes_inj in E; [|by apply Hx|apply Hx; [done|by rewrite <- Hl]].
  apply (f_equal (Z.lxor c')) in E. rewrite <- !Z.lxor_assoc, !Z.lxor_nilpotent, !Z.lxor_0_l in E.
  rewrite <- (to_from_le 8 u), <- (to_from_le 8 v), E, Hl by (done || lia). done.
Qed.
End Register.
