(* ===== verification/Crc32.v ===== *)
(** * hash/crc32

    CRC-32 (src/Source/Gold/hash/crc32/crc32.go and crc32_generic.go), in the configuration that
    Gold.elements builds: crc32_otherarch.go reports that no assembly is available, so IEEE and
    Castagnoli use slicing-by-8 and every other polynomial the simple loop.  The lazily built
    tables are the constants that their sync.Once stores; a *Table is one of the two shared
    pointers or a table of its own, because Update and Write choose by pointer equality. *)

From S2P Require Import Prelude Binary Hash Crc.

Local Open Scope go_scope.

Definition Size : Z := 4.
Definition IEEE : Z := 0xedb88320.
Definition Castagnoli : Z := 0x82f63b78.
Definition Koopman : Z := 0xeb31d82e.

(** ** crc32_generic.go *)

Definition populate_bit (poly crc : Z) : Z :=
  if crc &. 1 =? 1 then (crc >>. 1) ^. poly else crc >>. 1.

(** The contents that simplePopulateTable gives a table. *)
Definition simplePopulateTable (poly : Z) : list Z :=
  map (λ i, Nat.iter 8 (populate_bit poly) i) (seqZ 0 256).

Definition simpleMakeTable (poly : Z) : list Z := simplePopulateTable poly.

Definition simpleUpdate (crc : Z) (t : list Z) (p : list Z) : Z :=
  let crc := notw 32 crc in
  let crc := foldl (λ crc v, tab t (u8 crc ^. v) ^. (crc >>. 8)) crc p in
  notw 32 crc.

Definition slicing8Cutoff : Z := 16.

(** Entry [i] of table [j] is entry [i] of table 0 moved on by [j] zero bytes. *)
Definition slicingMakeTable (poly : Z) : list (list Z) :=
  let t0 := simplePopulateTable poly in
  map (λ j, map (λ i, Nat.iter j (λ crc, tab t0 (crc &. 0xFF) ^. (crc >>. 8)) (tab t0 i)) (seqZ 0 256)) (seq 0 8).

(** One turn of the loop, as a function of the register and the eight bytes. *)
Definition slice8 (t : list (list Z)) (c p0 p1 p2 p3 p4 p5 p6 p7 : Z) : Z :=
  let c := c ^. (p0 |. p1 <<.[32] 8 |. p2 <<.[32] 16 |. p3 <<.[32] 24) in
  let T := λ j, nth j t [] in
  tab (T 0%nat) p7 ^. tab (T 1%nat) p6 ^. tab (T 2%nat) p5 ^. tab (T 3%nat) p4 ^.
  tab (T 4%nat) (c >>. 24) ^. tab (T 5%nat) ((c >>. 16) &. 0xFF) ^.
  tab (T 6%nat) ((c >>. 8) &. 0xFF) ^. tab (T 7%nat) (c &. 0xFF).

(** [for len(p) > 8 { ... }]: the register and the bytes left. *)
Fixpoint slicing_loop (t : list (list Z)) (crc : Z) (p : list Z) : Z * list Z :=
  match p with
  | p0 :: p1 :: p2 :: p3 :: p4 :: p5 :: p6 :: p7 :: ((_ :: _) as p) =>
      let crc := slice8 t crc p0 p1 p2 p3 p4 p5 p6 p7 in
      slicing_loop t crc p
  | _ => (crc, p)
  end.

Definition slicingUpdate (crc : Z) (t : list (list Z)) (p : list Z) : Z :=
  let '(crc, p) :=
    if slicing8Cutoff <=? zlen p then
      let '(crc, p) := slicing_loop t (notw 32 crc) p in (notw 32 crc, p)
    else (crc, p) in
  if zlen p =? 0 then crc else simpleUpdate crc (nth 0 t []) p.

(** ** crc32.go *)

(** A pointer to a Table: one of the two shared tables, or one made for another polynomial. *)
Inductive tableptr : Type :=
  | castagnoliTable
  | IEEETable
  | ownTable (t : list Z).

(** What the pointer points to. *)
Definition table (tab : tableptr) : list Z :=
  match tab with
  | castagnoliTable => simpleMakeTable Castagnoli
  | IEEETable => simpleMakeTable IEEE
  | ownTable t => t
  end.

(** The tables and closures that castagnoliInit and ieeeInit store. *)
Definition castagnoliTable8 : list (list Z) := slicingMakeTable Castagnoli.
Definition ieeeTable8 : list (list Z) := slicingMakeTable IEEE.
Definition updateCastagnoli (crc : Z) (p : list Z) : Z := slicingUpdate crc castagnoliTable8 p.
Definition updateIEEE (crc : Z) (p : list Z) : Z := slicingUpdate crc ieeeTable8 p.

Definition MakeTable (poly : Z) : tableptr :=
  if poly =? IEEE then IEEETable
  else if poly =? Castagnoli then castagnoliTable
  else ownTable (simpleMakeTable poly).

Record digest : Type := Digest { crc : Z; tab : tableptr }.

Definition New (tab : tableptr) : digest := Digest 0 tab.
Definition NewIEEE : digest := New IEEETable.
Definition Reset (d : digest) : digest := Digest 0 (tab d).

Definition Update (crc : Z) (tab : tableptr) (p : list Z) : Z :=
  match tab with
  | castagnoliTable => updateCastagnoli crc p
  | IEEETable => updateIEEE crc p
  | ownTable t => simpleUpdate crc t p
  end.

Definition Write (d : digest) (p : list Z) : digest * Z :=
  (Digest (match tab d with
           | castagnoliTable => updateCastagnoli (crc d) p
           | IEEETable => updateIEEE (crc d) p
           | ownTable t => simpleUpdate (crc d) t p
           end) (tab d), zlen p).

Definition Sum32 (d : digest) : Z := crc d.
Definition Sum (d : digest) (b : list Z) : list Z :=
  let s := Sum32 d in b ++ [u8 (s >>. 24); u8 (s >>. 16); u8 (s >>. 8); u8 s].

Definition Checksum (data : list Z) (tab : tableptr) : Z := Update 0 tab data.
Definition ChecksumIEEE (data : list Z) : Z := updateIEEE 0 data.

(** "crc\x01" *)
Definition magic : list Z := [99; 114; 99; 1].
Definition marshaledSize : Z := zlen magic + 4 + 4.

Definition appendUint32 (b : list Z) (x : Z) : list Z :=
  b ++ [u8 (x >>. 24); u8 (x >>. 16); u8 (x >>. 8); u8 x].

Definition readUint32 (b : list Z) : outcome Z :=
  _ ← index b 3;
  b3 ← index b 3; b2 ← index b 2; b1 ← index b 1; b0 ← index b 0;
  Val (b3 |. b2 <<.[32] 8 |. b1 <<.[32] 16 |. b0 <<.[32] 24).

Definition tableSum (t : tableptr) : Z :=
  ChecksumIEEE (foldl appendUint32 [] (table t)).

Definition MarshalBinary (d : digest) : list Z :=
  appendUint32 (appendUint32 ([] ++ magic) (tableSum (tab d))) (crc d).

Definition UnmarshalBinary (d : digest) (b : list Z) : outcome (digest * option unmarshalError) :=
  if bad_magic magic b then Val (d, Some invalidIdentifier)
  else if negb (zlen b =? marshaledSize) then Val (d, Some invalidSize)
  else
    sum ← readUint32 (drop 4 b);
    if negb (tableSum (tab d) =? sum) then Val (d, Some tablesDoNotMatch)
    else c ← readUint32 (drop 8 b); Val (Digest c (tab d), None).

#[export] Instance crc32_Hash : Hash digest := {
  Hash.Write := λ d p, Val (Write d p); Hash.Sum := λ d b, Val (Sum d b); Hash.Reset := Reset;
  Hash.Size := λ _, Size; Hash.BlockSize := λ _, 1;
  Hash.MarshalBinary := λ d, Val (MarshalBinary d); Hash.UnmarshalBinary := UnmarshalBinary }.

(** ** Specification: the register of file Crc, complemented on entry and exit *)

Definition crc_update (poly c : Z) (p : list Z) : Z := notw 32 (foldl (byte_step poly) (notw 32 c) p).

(** ** The tables *)

Lemma simpleMakeTable_byte_table poly : simpleMakeTable poly = byte_table poly.
Proof. done. Qed.

Lemma slicingMakeTable_nth poly k : is_uint 32 poly -> (k < 8)%nat ->
  nth k (slicingMakeTable poly) [] = byte_table_at poly k.
Proof.
  intros Hp Hk. unfold slicingMakeTable. cbv zeta.
  rewrite nth_lookup, list_lookup_fmap, lookup_seq_lt by done. cbn [fmap option_fmap option_map default].
  by apply slice_table.
Qed.

Lemma crc32_notw_notw c : notw 32 (notw 32 c) = c.
Proof. unfold notw. lia. Qed.

Lemma crc32_notw_uint c : is_uint 32 c -> is_uint 32 (notw 32 c).
Proof. unfold is_uint, notw. lia. Qed.

Definition table_step (t : list Z) (c v : Z) : Z := Prelude.tab t (u8 c ^. v) ^. (c >>. 8).

Lemma crc32_foldl_table_step poly c p : is_uint 32 poly -> is_uint 32 c -> bytes_ok p ->
  foldl (table_step (byte_table poly)) c p = foldl (byte_step poly) c p.
Proof.
  intros Hpoly Hc Hp. revert c Hc. induction Hp as [|b p Hb _ IH]; intros c Hc; [done|]. cbn [foldl].
  unfold table_step at 2. rewrite (Crc.table_step 32) by (done || lia). apply IH, (byte_step_uint 32); done || lia.
Qed.

Lemma simpleUpdate_spec poly c p : is_uint 32 poly -> is_uint 32 c -> bytes_ok p ->
  simpleUpdate c (simpleMakeTable poly) p = crc_update poly c p.
Proof.
  intros Hpoly Hc Hp. unfold simpleUpdate, crc_update.
  rewrite <- crc32_foldl_table_step by (done || by apply crc32_notw_uint). done.
Qed.

(** ** Slicing by eight *)

Lemma word4 p0 p1 p2 p3 : is_byte p0 -> is_byte p1 -> is_byte p2 -> is_byte p3 ->
  p0 |. p1 <<.[32] 8 |. p2 <<.[32] 16 |. p3 <<.[32] 24 = from_le 8 [p0; p1; p2; p3].
Proof. intros. rewrite <- (le_value 32) by first [done | by repeat apply Forall_cons_2]. done. Qed.

Lemma crc32_slicing_loop_step t c p0 p1 p2 p3 p4 p5 p6 p7 p8 p :
  slicing_loop t c (p0 :: p1 :: p2 :: p3 :: p4 :: p5 :: p6 :: p7 :: p8 :: p)
  = slicing_loop t (slice8 t c p0 p1 p2 p3 p4 p5 p6 p7) (p8 :: p).
Proof. done. Qed.

Lemma slicing_step32 poly c p0 p1 p2 p3 p4 p5 p6 p7 :
  is_uint 32 poly -> is_uint 32 c -> bytes_ok [p0; p1; p2; p3; p4; p5; p6; p7] ->
  slice8 (slicingMakeTable poly) c p0 p1 p2 p3 p4 p5 p6 p7
  = foldl (byte_step poly) c [p0; p1; p2; p3; p4; p5; p6; p7].
Proof.
  intros Hpoly Hc Hp. unfold slice8. cbv zeta beta. rewrite !slicingMakeTable_nth by (done || lia).
  pose proof Hp as Hall. repeat (apply Forall_cons in Hp as [? Hp]).
  rewrite word4, lxor8_rev, !land_ff by done.
  rewrite <- (slicing_step poly) by first [done | lia | apply (is_uint_mono 32); [cbn [length]; lia|done]].
  set (lo := [p0; p1; p2; p3]). set (x := c ^. from_le 8 lo).
  assert (Hlo : bytes_ok lo) by (by repeat apply Forall_cons_2).
  assert (Hx : is_uint 32 x) by (apply lxor_is_uint; [lia|done|apply (from_le_bound 8 lo); [lia|done]]).
  replace (x >>. 24) with ((x >>. 24) mod 2 ^ 8).
  2: { rewrite Z.shiftr_div_pow2 by lia. unfold is_uint in Hx. dlia. }
  set (hi := [p4; p5; p6; p7]). change (p0 :: p1 :: p2 :: p3 :: hi) with (lo ++ hi).
  assert (Hhi : bytes_ok hi) by (by repeat apply Forall_cons_2).
  replace (c ^. from_le 8 (lo ++ hi)) with (x + 2 ^ (8 * Z.of_nat 4) * from_le 8 hi).
  - change (length (lo ++ hi)) with (4 + 4)%nat. rewrite (to_le_app 8 4 4 x (from_le 8 hi)) by (done || lia).
    replace (to_le 8 4 (from_le 8 hi)) with hi by (symmetry; apply (to_from_le 8 hi); done || lia). rewrite to_le_bytes4. reflexivity.
  - rewrite from_le_app by lia. change (8 * zlen lo) with 32. change (8 * Z.of_nat 4) with 32.
    replace (from_le 8 lo + 2 ^ 32 * from_le 8 hi) with (from_le 8 lo ^. from_le 8 hi * 2 ^ 32).
    + rewrite <- Z.lxor_assoc. fold x. rewrite Z.lxor_comm, lxor_disjoint by (done || lia). lia.
    + rewrite Z.lxor_comm, lxor_disjoint by first [lia | apply (from_le_bound 8 lo); [lia|done]]. lia.
Qed.

Lemma crc32_slicing_loop_spec poly c p : is_uint 32 poly -> is_uint 32 c -> bytes_ok p ->
  forall c' q, slicing_loop (slicingMakeTable poly) c p = (c', q) ->
  is_uint 32 c' /\ bytes_ok q /\ foldl (byte_step poly) c' q = foldl (byte_step poly) c p.
Proof.
  intros Hpoly. assert (H : forall n p c c' q, (length p <= n)%nat -> is_uint 32 c -> bytes_ok p ->
    slicing_loop (slicingMakeTable poly) c p = (c', q) ->
    is_uint 32 c' /\ bytes_ok q /\ foldl (byte_step poly) c' q = foldl (byte_step poly) c p);
    [|intros Hc Hp c' q; by apply (H (length p))].
  clear p c. induction n as [|n IH]; intros p c c' q Hn Hc Hp E.
  { destruct p; [|simpl in Hn; lia]. by injection E as <- <-. }
  destruct p as [|p0 [|p1 [|p2 [|p3 [|p4 [|p5 [|p6 [|p7 [|p8 p]]]]]]]]];
    try (injection E as <- <-; done).
  rewrite crc32_slicing_loop_step in E. change (p0 :: p1 :: p2 :: p3 :: p4 :: p5 :: p6 :: p7 :: p8 :: p)
    with ([p0; p1; p2; p3; p4; p5; p6; p7] ++ p8 :: p) in *.
  apply Forall_app in Hp as [Hp1 Hp2]. rewrite foldl_app.
  rewrite (slicing_step32 poly c p0 p1 p2 p3 p4 p5 p6 p7 Hpoly Hc Hp1) in E.
  rewrite length_app in Hn. cbn [length] in Hn.
  apply (IH (p8 :: p) (foldl (byte_step poly) c [p0; p1; p2; p3; p4; p5; p6; p7]));
    [cbn [length]; lia|by apply (foldl_byte_step_uint 32)|done|exact E].
Qed.

Lemma slicingUpdate_spec poly c p : is_uint 32 poly -> is_uint 32 c -> bytes_ok p ->
  slicingUpdate c (slicingMakeTable poly) p = crc_update poly c p.
Proof.
  intros Hpoly Hc Hp. unfold slicingUpdate. rewrite slicingMakeTable_nth, byte_table_at_0 by (done || lia).
  assert (H : forall c q, is_uint 32 c -> bytes_ok q ->
    (if zlen q =? 0 then c else simpleUpdate c (byte_table poly) q) = crc_update poly c q).
  { intros c1 q Hc1 Hq. destruct q as [|b q]; [|rewrite <- simpleMakeTable_byte_table; by rewrite simpleUpdate_spec].
    unfold crc_update. cbn. by rewrite crc32_notw_notw. }
  destruct (slicing8Cutoff <=? zlen p); [|by apply H].
  destruct (slicing_loop _ _ _) as [c' q] eqn:E.
  destruct (crc32_slicing_loop_spec poly (notw 32 c) p Hpoly (crc32_notw_uint c Hc) Hp _ _ E) as (Hc' & Hq & Ef).
  rewrite H by (done || by apply crc32_notw_uint). unfold crc_update. by rewrite crc32_notw_notw, Ef.
Qed.

(** ** The laws of hash.Hash *)

Definition table_ok (tab : tableptr) : Prop :=
  match tab with ownTable t => length t = 256%nat /\ Forall (is_uint 32) t | _ => True end.

Lemma IEEE_uint : is_uint 32 IEEE.
Proof. done. Qed.
Lemma Castagnoli_uint : is_uint 32 Castagnoli.
Proof. done. Qed.

Lemma crc32_byte_table_ok poly : is_uint 32 poly -> table_ok (ownTable (byte_table poly)).
Proof.
  intros Hp. split; [done|]. unfold byte_table. apply Forall_map, Forall_forall. intros i Hi.
  apply elem_of_seqZ in Hi. apply (shift_byte_uint 32); [done|done|]. unfold is_uint. lia.
Qed.

Lemma table_entries tab : table_ok tab -> length (table tab) = 256%nat /\ Forall (is_uint 32) (table tab).
Proof.
  destruct tab as [| |t]; cbn [table]; intros Ht; [..|done]; rewrite simpleMakeTable_byte_table;
    apply crc32_byte_table_ok; [apply Castagnoli_uint|apply IEEE_uint].
Qed.

(** One more byte, on the complemented register, whatever the table. *)
Definition digest_step (d : digest) (v : Z) : digest :=
  Digest (notw 32 (table_step (table (tab d)) (notw 32 (crc d)) v)) (tab d).

Lemma crc32_foldl_digest_step tab c p :
  foldl digest_step (Digest c tab) p = Digest (notw 32 (foldl (table_step (table tab)) (notw 32 c) p)) tab.
Proof.
  revert c. induction p as [|v p IH]; intros c; cbn [foldl]; [by rewrite crc32_notw_notw|].
  unfold digest_step at 2. cbn [crc Crc32.tab]. rewrite IH. by rewrite crc32_notw_notw.
Qed.

Lemma Update_table tab c p : table_ok tab -> is_uint 32 c -> bytes_ok p ->
  Update c tab p = notw 32 (foldl (table_step (table tab)) (notw 32 c) p).
Proof.
  intros Ht Hc Hp. destruct tab as [| |t]; cbn [Update table].
  - unfold updateCastagnoli, castagnoliTable8. rewrite slicingUpdate_spec by (done || apply Castagnoli_uint).
    rewrite simpleMakeTable_byte_table, crc32_foldl_table_step by (done || apply Castagnoli_uint || by apply crc32_notw_uint). done.
  - unfold updateIEEE, ieeeTable8. rewrite slicingUpdate_spec by (done || apply IEEE_uint).
    rewrite simpleMakeTable_byte_table, crc32_foldl_table_step by (done || apply IEEE_uint || by apply crc32_notw_uint). done.
  - done.
Qed.

Lemma table_step_uint t c v : length t = 256%nat -> Forall (is_uint 32) t -> is_uint 32 c -> is_byte v ->
  is_uint 32 (table_step t c v).
Proof.
  intros Hl Ht Hc Hv. unfold table_step. apply lxor_is_uint; [lia| |apply shiftr_is_uint; done || lia].
  unfold Prelude.tab. rewrite Forall_nth in Ht. apply Ht. rewrite Hl.
  assert (Hx : is_byte (u8 c ^. v)) by (apply lxor_is_uint; [lia|apply wrap_is_uint; lia|done]).
  unfold is_uint in Hx. lia.
Qed.

Lemma crc32_appendUint32_eq b x : appendUint32 b x = b ++ order_bytes true 4 x.
Proof. unfold appendUint32. by rewrite order_bytes_be4. Qed.

Lemma appendUint32_ok b x : bytes_ok b -> bytes_ok (appendUint32 b x).
Proof. intros Hb. rewrite crc32_appendUint32_eq. apply Forall_app. split; [done|apply order_bytes_ok]. Qed.

Lemma crc32_readUint32_eq b : readUint32 b = bigEndian_Uint32 b.
Proof. done. Qed.

Lemma tableSum_uint t : is_uint 32 (tableSum t).
Proof.
  unfold tableSum, ChecksumIEEE, updateIEEE, ieeeTable8.
  assert (Hb : bytes_ok (foldl appendUint32 [] (table t))).
  { generalize (table t) as l. assert (H0 : bytes_ok []) by constructor. revert H0. generalize (@nil Z) as b.
    intros b Hb l. revert b Hb. induction l as [|x l IH]; intros b Hb; [done|]. by apply IH, appendUint32_ok. }
  rewrite slicingUpdate_spec by (done || apply IEEE_uint). unfold crc_update.
  apply crc32_notw_uint, (foldl_byte_step_uint 32); [done|apply IEEE_uint|by apply crc32_notw_uint|done].
Qed.

#[export] Program Instance crc32_laws : HashLaws digest := {
  hash_ok := λ d, is_uint 32 (crc d) /\ table_ok (tab d);
  step := digest_step; same := λ d d', tab d = tab d' }.
Next Obligation.
  intros [c t] b [Hc Ht] Hb. cbn in *. split; [|done]. destruct (table_entries t Ht).
  apply crc32_notw_uint, table_step_uint; try done. by apply crc32_notw_uint.
Qed.
Next Obligation. done. Qed.
Next Obligation. split; repeat intro; congruence. Qed.
Next Obligation.
  intros [c t] p [Hc Ht] Hp. change (Val (Write (Digest c t) p) = Val (foldl digest_step (Digest c t) p, zlen p)).
  rewrite crc32_foldl_digest_step, <- Update_table by done. done.
Qed.
Next Obligation. intros d. exists (Sum d []). split; [|done]. intros b. change (Val (Sum d b) = Val (b ++ Sum d [])). unfold Sum. by rewrite !order_bytes_be4. Qed.
Next Obligation. intros [c t] [Hc Ht]. done. Qed.
Next Obligation. intros [c t] [c' t'] E. cbn in *. by subst. Qed.
Next Obligation.
  intros d d' [Hc Ht] _ Es. exists (MarshalBinary d). split; [done|].
  change (UnmarshalBinary d' (MarshalBinary d) = Val (d, None)).
  unfold UnmarshalBinary, MarshalBinary. rewrite !crc32_appendUint32_eq. cbn [app]. rewrite <- app_assoc, bad_magic_app.
  change (zlen _ =? _) with true. cbn [negb]. rewrite crc32_readUint32_eq.
  rewrite (drop_app_length' magic _ 4) by done.
  rewrite bigEndian_Uint32_bytes by (apply tableSum_uint || apply order_bytes_ok). cbn [mbind outcome_bind].
  rewrite <- Es, Z.eqb_refl. cbn [negb]. rewrite app_assoc.
  rewrite (drop_app_length' (magic ++ _)) by (by rewrite length_app, length_order_bytes).
  pose proof (bigEndian_Uint32_bytes (crc d) [] Hc ltac:(constructor)) as E. rewrite app_nil_r in E.
  rewrite E.
  cbn. by destruct d.
Qed.
Next Obligation.
  intros d b [Hd Ht] Hb. change (Hash.UnmarshalBinary d b) with (UnmarshalBinary d b).
  change Hash.MarshalBinary with (λ d, Val (MarshalBinary d)). cbv beta. unfold UnmarshalBinary, MarshalBinary.
  destruct (bad_magic magic b) eqn:Em; [by eexists d, (Some _)|].
  destruct (Z.eqb_spec (zlen b) marshaledSize) as [El|]; cbn [negb]; [|by eexists d, (Some _)].
  apply bad_magic_false in Em. change (length magic) with 4%nat in Em.
  assert (H4 : bytes_ok (drop 4 b)) by (by apply Forall_drop).
  assert (H8 : bytes_ok (drop 8 b)) by (by apply Forall_drop).
  unfold marshaledSize in El. change (zlen magic) with 4 in El.
  assert (Hl4 : length (drop 4 b) = 8%nat) by (rewrite length_drop; lia).
  assert (Hl8 : length (drop 8 b) = 4%nat) by (rewrite length_drop; lia).
  rewrite !crc32_readUint32_eq, !bigEndian_Uint32_val by (done || lia). cbn [mbind outcome_bind].
  rewrite (take_ge (drop 8 b)) by lia.
  destruct (Z.eqb_spec (tableSum (tab d)) (order_value true (take 4 (drop 4 b)))) as [E|]; cbn [negb];
    [|by eexists d, (Some _)].
  eexists _, None. split; [done|]. split_and!; cbn [crc Crc32.tab]; [|done|done|].
  - pose proof (order_value_uint true (drop 8 b) H8) as Hu. by rewrite Hl8 in Hu.
  - f_equal. rewrite !crc32_appendUint32_eq, E.
    rewrite (order_bytes_value' true 4 (take 4 (drop 4 b))), (order_bytes_value' true 4 (drop 8 b))
      by first [done | by apply Forall_take | rewrite length_take; lia].
    rewrite Em at 3. cbn [app]. rewrite <- app_assoc. f_equal.
    rewrite <- (take_drop 4 (drop 4 b)) at 2. by rewrite drop_drop.
Qed.

Lemma Update_MakeTable poly c p : is_uint 32 poly -> is_uint 32 c -> bytes_ok p ->
  Update c (MakeTable poly) p = crc_update poly c p.
Proof.
  intros Hpoly Hc Hp. unfold MakeTable.
  destruct (Z.eqb_spec poly IEEE) as [->|]; [by apply slicingUpdate_spec|].
  destruct (Z.eqb_spec poly Castagnoli) as [->|]; [by apply slicingUpdate_spec|].
  by apply simpleUpdate_spec.
Qed.

(** ** Properties *)

(** C17. Every implementation of CRC-32 computes the bit-serial register: for any polynomial, starting
    value and data, Update with the table of MakeTable - slicing-by-8 for IEEE and Castagnoli with
    its cutoff and tail, the simple loop for the others - equals complementing the register, feeding
    the data one bit at a time and complementing again; so the path taken, and how the data is cut
    into updates, make no difference. *)
Theorem Update_bitwise poly c p q :
  is_uint 32 poly -> is_uint 32 c -> bytes_ok p -> bytes_ok q ->
  Update c (MakeTable poly) p = notw 32 (foldl (byte_step poly) (notw 32 c) p)
  /\ Update (Update c (MakeTable poly) p) (MakeTable poly) q = Update c (MakeTable poly) (p ++ q).
Proof.
  intros Hpoly Hc Hp Hq. split; [by apply Update_MakeTable|].
  assert (Hu : is_uint 32 (crc_update poly c p)).
  { unfold crc_update. apply crc32_notw_uint, (foldl_byte_step_uint 32); [lia|assumption|by apply crc32_notw_uint|assumption]. }
  assert (Hpq : bytes_ok (p ++ q)) by (by apply Forall_app).
  rewrite (Update_MakeTable poly c p), (Update_MakeTable poly c (p ++ q)) by assumption.
  rewrite (Update_MakeTable poly _ q) by assumption.
  unfold crc_update. by rewrite crc32_notw_notw, foldl_app.
Qed.

(** The check value of CRC-32: "123456789" gives 0xCBF43926, here across two updates. *)
Lemma Update_bitwise_witness :
  Update 0 (MakeTable IEEE) [49; 50; 51; 52; 53] = notw 32 (foldl (byte_step IEEE) (notw 32 0) [49; 50; 51; 52; 53])
  /\ Update (Update 0 (MakeTable IEEE) [49; 50; 51; 52; 53]) (MakeTable IEEE) [54; 55; 56; 57]
     = Update 0 (MakeTable IEEE) [49; 50; 51; 52; 53; 54; 55; 56; 57].
Proof.
  apply (Update_bitwise IEEE 0 [49; 50; 51; 52; 53] [54; 55; 56; 57]); by apply (bool_decide_unpack _).
Defined.

Example check_value : ChecksumIEEE [49; 50; 51; 52; 53; 54; 55; 56; 57] = 0xCBF43926.
Proof. by vm_compute. Qed.

(** Burst errors are detected. For the three predefined polynomials, and every other one of
    degree 32, two messages that differ only inside a window of at most four bytes have different
    checksums, wherever the window lies and whatever the starting value. *)
Theorem Checksum_burst poly c p u v q :
  poly ∈ [IEEE; Castagnoli; Koopman] \/ is_uint 32 poly /\ Z.testbit poly 31 = true ->
  is_uint 32 c -> bytes_ok (p ++ u ++ v ++ q) ->
  length u = length v -> (length u <= 4)%nat -> u <> v ->
  Update c (MakeTable poly) (p ++ u ++ q) <> Update c (MakeTable poly) (p ++ v ++ q).
Proof.
  intros Hpoly Hc Hb Hl H4 Hne. rewrite !Forall_app in Hb. destruct Hb as (Hp & Hu & Hv & Hq).
  assert (H : is_uint 32 poly /\ Z.testbit poly 31 = true).
  { destruct Hpoly as [Hin|]; [|done]. rewrite !elem_of_cons, elem_of_nil in Hin. by destruct_or! Hin; subst. }
  destruct H as [Hpu Ht]. rewrite !Update_MakeTable by (rewrite ?Forall_app; done).
  unfold crc_update. intros E. apply (f_equal (notw 32)) in E. rewrite !crc32_notw_notw in E. revert E.
  apply (burst_registers 32); try done; [by apply crc32_notw_uint|lia].
Qed.

(** One flipped bit in "Go". *)
Lemma Checksum_burst_witness :
  Update 0 (MakeTable Castagnoli) [71; 111] <> Update 0 (MakeTable Castagnoli) [71; 110].
Proof.
  apply (Checksum_burst Castagnoli 0 [71] [111] [110] []); try by apply (bool_decide_unpack _).
Defined.
