(* ===== verification/Crc64.v ===== *)
(** * hash/crc64

    CRC-64 (src/Source/Gold/hash/crc64/crc64.go).  A Table is an array compared by value, as
    [update] does when it looks for one of the two prepared eight-table sets; the tables that
    buildSlicing8Tables stores once are constants. *)

From S2P Require Import Prelude Binary Hash Crc.

Local Open Scope go_scope.

Definition Size : Z := 8.
Definition ISO : Z := 0xD800000000000000.
Definition ECMA : Z := 0xC96C5795D7870F42.

Definition table_bit (poly crc : Z) : Z :=
  if crc &. 1 =? 1 then (crc >>. 1) ^. poly else crc >>. 1.

Definition makeTable (poly : Z) : list Z :=
  map (λ i, Nat.iter 8 (table_bit poly) i) (seqZ 0 256).

(** Table 0 is a copy; entry [i] of table [j] is entry [i] moved on by [j] zero bytes. *)
Definition makeSlicingBy8Table (t : list Z) : list (list Z) :=
  t :: map (λ j, map (λ i, Nat.iter j (λ crc, tab t (crc &. 0xff) ^. (crc >>. 8)) (tab t i)) (seqZ 0 256)) (seq 1 7).

(** What buildSlicing8Tables stores. *)
Definition slicing8TableISO : list (list Z) := makeSlicingBy8Table (makeTable ISO).
Definition slicing8TableECMA : list (list Z) := makeSlicingBy8Table (makeTable ECMA).

Definition MakeTable (poly : Z) : list Z :=
  if poly =? ISO then nth 0 slicing8TableISO []
  else if poly =? ECMA then nth 0 slicing8TableECMA []
  else makeTable poly.

(** One turn of the slicing loop. *)
Definition slice8 (h : list (list Z)) (c p0 p1 p2 p3 p4 p5 p6 p7 : Z) : Z :=
  let crc := c ^. (p0 |. p1 <<.[64] 8 |. p2 <<.[64] 16 |. p3 <<.[64] 24 |.
                   p4 <<.[64] 32 |. p5 <<.[64] 40 |. p6 <<.[64] 48 |. p7 <<.[64] 56) in
  let T := λ j, nth j h [] in
  tab (T 7%nat) (crc &. 0xff) ^. tab (T 6%nat) ((crc >>. 8) &. 0xff) ^.
  tab (T 5%nat) ((crc >>. 16) &. 0xff) ^. tab (T 4%nat) ((crc >>. 24) &. 0xff) ^.
  tab (T 3%nat) ((crc >>. 32) &. 0xff) ^. tab (T 2%nat) ((crc >>. 40) &. 0xff) ^.
  tab (T 1%nat) ((crc >>. 48) &. 0xff) ^. tab (T 0%nat) (crc >>. 56).

(** [for len(p) > 8 { ... }] *)
Fixpoint slicing_loop (h : list (list Z)) (crc : Z) (p : list Z) : Z * list Z :=
  match p with
  | p0 :: p1 :: p2 :: p3 :: p4 :: p5 :: p6 :: p7 :: ((_ :: _) as p) =>
      slicing_loop h (slice8 h crc p0 p1 p2 p3 p4 p5 p6 p7) p
  | _ => (crc, p)
  end.

(** [for len(p) >= 64 { ... }] with its choice of tables, which breaks for a table of the
    caller's own and a short slice. *)
Fixpoint update_loop (fuel : nat) (crc : Z) (t : list Z) (p : list Z) : outcome (Z * list Z) :=
  match fuel with
  | O => NoFuel
  | S fuel =>
      if 64 <=? zlen p then
        if bool_decide (t = nth 0 slicing8TableECMA []) then
          let '(crc, p) := slicing_loop slicing8TableECMA crc p in update_loop fuel crc t p
        else if bool_decide (t = nth 0 slicing8TableISO []) then
          let '(crc, p) := slicing_loop slicing8TableISO crc p in update_loop fuel crc t p
        else if 16384 <? zlen p then
          let '(crc, p) := slicing_loop (makeSlicingBy8Table t) crc p in update_loop fuel crc t p
        else Val (crc, p)
      else Val (crc, p)
  end.

(** The inner loop leaves at most eight bytes, so the outer one turns at most once: two units of
    fuel are enough. *)
Definition update (crc : Z) (t : list Z) (p : list Z) : outcome Z :=
  '(crc, p) ← update_loop 2 (notw 64 crc) t p;
  let crc := foldl (λ crc v, tab t (u8 crc ^. v) ^. (crc >>. 8)) crc p in
  Val (notw 64 crc).

Definition Update (crc : Z) (t : list Z) (p : list Z) : outcome Z := update crc t p.

Record digest : Type := Digest { crc : Z; dtab : list Z }.

Definition New (t : list Z) : digest := Digest 0 t.
Definition Reset (d : digest) : digest := Digest 0 (dtab d).

Definition Write (d : digest) (p : list Z) : outcome (digest * Z) :=
  c ← update (crc d) (dtab d) p; Val (Digest c (dtab d), zlen p).

Definition Sum64 (d : digest) : Z := crc d.
Definition Sum (d : digest) (b : list Z) : list Z :=
  let s := Sum64 d in
  b ++ [u8 (s >>. 56); u8 (s >>. 48); u8 (s >>. 40); u8 (s >>. 32);
        u8 (s >>. 24); u8 (s >>. 16); u8 (s >>. 8); u8 s].

Definition Checksum (data : list Z) (t : list Z) : outcome Z := update 0 t data.

(** "crc\x02" *)
Definition magic : list Z := [99; 114; 99; 2].
Definition marshaledSize : Z := zlen magic + 8 + 8.

Definition appendUint64 (b : list Z) (x : Z) : list Z :=
  b ++ [u8 (x >>. 56); u8 (x >>. 48); u8 (x >>. 40); u8 (x >>. 32);
        u8 (x >>. 24); u8 (x >>. 16); u8 (x >>. 8); u8 x].

Definition readUint64 (b : list Z) : outcome Z :=
  _ ← index b 7;
  b7 ← index b 7; b6 ← index b 6; b5 ← index b 5; b4 ← index b 4;
  b3 ← index b 3; b2 ← index b 2; b1 ← index b 1; b0 ← index b 0;
  Val (b7 |. b6 <<.[64] 8 |. b5 <<.[64] 16 |. b4 <<.[64] 24
       |. b3 <<.[64] 32 |. b2 <<.[64] 40 |. b1 <<.[64] 48 |. b0 <<.[64] 56).

Definition tableSum (t : list Z) : outcome Z :=
  Checksum (foldl appendUint64 [] t) (MakeTable ISO).

Definition MarshalBinary (d : digest) : outcome (list Z) :=
  sum ← tableSum (dtab d);
  Val (appendUint64 (appendUint64 ([] ++ magic) sum) (crc d)).

Definition UnmarshalBinary (d : digest) (b : list Z) : outcome (digest * option unmarshalError) :=
  if bad_magic magic b then Val (d, Some invalidIdentifier)
  else if negb (zlen b =? marshaledSize) then Val (d, Some invalidSize)
  else
    tsum ← tableSum (dtab d);
    sum ← readUint64 (drop 4 b);
    if negb (tsum =? sum) then Val (d, Some tablesDoNotMatch)
    else c ← readUint64 (drop 12 b); Val (Digest c (dtab d), None).

#[export] Instance crc64_Hash : Hash digest := {
  Hash.Write := Write; Hash.Sum := λ d b, Val (Sum d b); Hash.Reset := Reset;
  Hash.Size := λ _, Size; Hash.BlockSize := λ _, 1;
  Hash.MarshalBinary := MarshalBinary; Hash.UnmarshalBinary := UnmarshalBinary }.

(** ** Specification: the register of file Crc, complemented on entry and exit *)

Definition crc_update (poly c : Z) (p : list Z) : Z := notw 64 (foldl (byte_step poly) (notw 64 c) p).

(** ** The tables *)

Lemma makeTable_byte_table poly : makeTable poly = byte_table poly.
Proof. done. Qed.

Lemma makeSlicingBy8Table_nth poly k : is_uint 64 poly -> (k < 8)%nat ->
  nth k (makeSlicingBy8Table (makeTable poly)) [] = byte_table_at poly k.
Proof.
  intros Hp Hk. unfold makeSlicingBy8Table. destruct k as [|k]; [by rewrite byte_table_at_0|].
  cbn [nth]. rewrite nth_lookup, list_lookup_fmap, lookup_seq_lt by lia. cbn [fmap option_fmap option_map default].
  by apply slice_table.
Qed.

Lemma crc64_notw_notw c : notw 64 (notw 64 c) = c.
Proof. unfold notw. lia. Qed.

Lemma crc64_notw_uint c : is_uint 64 c -> is_uint 64 (notw 64 c).
Proof. unfold is_uint, notw. lia. Qed.

Definition table_step (t : list Z) (c v : Z) : Z := tab t (u8 c ^. v) ^. (c >>. 8).

Lemma crc64_foldl_table_step poly c p : is_uint 64 poly -> is_uint 64 c -> bytes_ok p ->
  foldl (table_step (byte_table poly)) c p = foldl (byte_step poly) c p.
Proof.
  intros Hpoly Hc Hp. revert c Hc. induction Hp as [|b p Hb _ IH]; intros c Hc; [done|]. cbn [foldl].
  unfold table_step at 2. rewrite (Crc.table_step 64) by (done || lia). apply IH, (byte_step_uint 64); done || lia.
Qed.

(** ** Slicing by eight *)

Lemma word8 p0 p1 p2 p3 p4 p5 p6 p7 : bytes_ok [p0; p1; p2; p3; p4; p5; p6; p7] ->
  p0 |. p1 <<.[64] 8 |. p2 <<.[64] 16 |. p3 <<.[64] 24 |.
  p4 <<.[64] 32 |. p5 <<.[64] 40 |. p6 <<.[64] 48 |. p7 <<.[64] 56 = from_le 8 [p0; p1; p2; p3; p4; p5; p6; p7].
Proof. intros. rewrite <- (le_value 64) by (done || (cbn [length]; lia)). done. Qed.

Lemma slicing_step64 poly c p0 p1 p2 p3 p4 p5 p6 p7 :
  is_uint 64 poly -> is_uint 64 c -> bytes_ok [p0; p1; p2; p3; p4; p5; p6; p7] ->
  slice8 (makeSlicingBy8Table (makeTable poly)) c p0 p1 p2 p3 p4 p5 p6 p7
  = foldl (byte_step poly) c [p0; p1; p2; p3; p4; p5; p6; p7].
Proof.
  intros Hpoly Hc Hp. unfold slice8. cbv zeta beta. rewrite !makeSlicingBy8Table_nth by (done || lia).
  rewrite word8, !land_ff by done. set (bs := [p0; p1; p2; p3; p4; p5; p6; p7]) in *.
  rewrite <- (slicing_step poly) by done. change (length bs) with 8%nat. set (x := c ^. from_le 8 bs).
  assert (Hx : is_uint 64 x) by (apply lxor_is_uint; [lia|done|by apply (from_le_bound 8 bs)]).
  replace (x >>. 56) with (u8 (x >>. 56)).
  - rewrite to_le_bytes8. unfold tables_xor. cbn [length]. rewrite !Z.lxor_assoc, Z.lxor_0_r. reflexivity.
  - apply wrap_small. rewrite Z.shiftr_div_pow2 by lia. unfold is_uint in *. dlia.
Qed.

Lemma crc64_slicing_loop_step t c p0 p1 p2 p3 p4 p5 p6 p7 p8 p :
  slicing_loop t c (p0 :: p1 :: p2 :: p3 :: p4 :: p5 :: p6 :: p7 :: p8 :: p)
  = slicing_loop t (slice8 t c p0 p1 p2 p3 p4 p5 p6 p7) (p8 :: p).
Proof. done. Qed.

(** The loop keeps the meaning of what is left, and leaves at most eight bytes. *)
Lemma crc64_slicing_loop_spec poly c p : is_uint 64 poly -> is_uint 64 c -> bytes_ok p ->
  exists c' q, slicing_loop (makeSlicingBy8Table (makeTable poly)) c p = (c', q) /\
  is_uint 64 c' /\ bytes_ok q /\ zlen q <= 8 /\ foldl (byte_step poly) c' q = foldl (byte_step poly) c p.
Proof.
  intros Hpoly. assert (H : forall n p c, (length p <= n)%nat -> is_uint 64 c -> bytes_ok p ->
    exists c' q, slicing_loop (makeSlicingBy8Table (makeTable poly)) c p = (c', q) /\
    is_uint 64 c' /\ bytes_ok q /\ zlen q <= 8 /\ foldl (byte_step poly) c' q = foldl (byte_step poly) c p);
    [|intros Hc Hp; by apply (H (length p))].
  clear p c. induction n as [|n IH]; intros p c Hn Hc Hp.
  { destruct p; [|simpl in Hn; lia]. by exists c, []. }
  destruct p as [|p0 [|p1 [|p2 [|p3 [|p4 [|p5 [|p6 [|p7 [|p8 p]]]]]]]]];
    try (eexists c, _; split; [reflexivity|]; split; [exact Hc|split; [exact Hp|split; [cbn [length]; lia|done]]]).
  rewrite crc64_slicing_loop_step. change (p0 :: p1 :: p2 :: p3 :: p4 :: p5 :: p6 :: p7 :: p8 :: p)
    with ([p0; p1; p2; p3; p4; p5; p6; p7] ++ p8 :: p) in *.
  apply Forall_app in Hp as [Hp1 Hp2]. rewrite foldl_app.
  rewrite (slicing_step64 poly c p0 p1 p2 p3 p4 p5 p6 p7 Hpoly Hc Hp1).
  rewrite length_app in Hn. cbn [length] in Hn.
  apply IH; [cbn [length]; lia|by apply (foldl_byte_step_uint 64)|done].
Qed.

Lemma ECMA_uint : is_uint 64 ECMA.
Proof. done. Qed.
Lemma ISO_uint : is_uint 64 ISO.
Proof. done. Qed.

Lemma crc64_update_loop_spec poly c p : is_uint 64 poly -> is_uint 64 c -> bytes_ok p ->
  exists c' q, update_loop 2 c (makeTable poly) p = Val (c', q) /\
  is_uint 64 c' /\ bytes_ok q /\ foldl (byte_step poly) c' q = foldl (byte_step poly) c p.
Proof.
  intros Hpoly Hc Hp. change 2%nat with (S 1). cbn [update_loop].
  destruct (Z.leb_spec 64 (zlen p)) as [Hl|Hl]; [|by exists c, p].
  destruct (crc64_slicing_loop_spec poly c p Hpoly Hc Hp) as (c' & q & E & Hc' & Hq & Hlq & Ef).
  assert (Hend : forall A (x y : A), (if 64 <=? zlen q then x else y) = y).
  { intros A x y. by destruct (Z.leb_spec 64 (zlen q)); [lia|]. }
  case_bool_decide as HE; [|case_bool_decide as HI; [|destruct (16384 <? zlen p); [|by exists c, p]]].
  - unfold slicing8TableECMA in *. cbn [nth makeSlicingBy8Table] in HE. rewrite <- HE, E.
    exists c', q. rewrite Hend. exact (conj eq_refl (conj Hc' (conj Hq Ef))).
  - unfold slicing8TableISO in *. cbn [nth makeSlicingBy8Table] in HI. rewrite <- HI, E.
    exists c', q. rewrite Hend. exact (conj eq_refl (conj Hc' (conj Hq Ef))).
  - rewrite E. exists c', q. rewrite Hend. exact (conj eq_refl (conj Hc' (conj Hq Ef))).
Qed.

Lemma crc64_update_spec poly c p : is_uint 64 poly -> is_uint 64 c -> bytes_ok p ->
  update c (makeTable poly) p = Val (crc_update poly c p).
Proof.
  intros Hpoly Hc Hp. unfold update, crc_update.
  destruct (crc64_update_loop_spec poly (notw 64 c) p Hpoly (crc64_notw_uint c Hc) Hp) as (c' & q & E & Hc' & Hq & Ef).
  rewrite E. cbn [mbind outcome_bind]. rewrite <- Ef. do 2 f_equal.
  rewrite makeTable_byte_table. by apply crc64_foldl_table_step.
Qed.

Lemma MakeTable_makeTable poly : MakeTable poly = makeTable poly.
Proof.
  unfold MakeTable. destruct (Z.eqb_spec poly ISO) as [->|]; [reflexivity|].
  destruct (Z.eqb_spec poly ECMA) as [->|]; reflexivity.
Qed.

(** ** The laws of hash.Hash *)

Lemma crc64_byte_table_ok poly : is_uint 64 poly -> Forall (is_uint 64) (makeTable poly).
Proof.
  intros Hp. rewrite makeTable_byte_table. unfold byte_table. apply Forall_map, Forall_forall. intros i Hi.
  apply elem_of_seqZ in Hi. apply (shift_byte_uint 64); [done|done|]. unfold is_uint. lia.
Qed.

(** A state: its register and the table of some polynomial. *)
Definition digest_ok (d : digest) : Prop :=
  is_uint 64 (crc d) /\ exists poly, is_uint 64 poly /\ dtab d = makeTable poly.

Definition digest_step (d : digest) (v : Z) : digest :=
  Digest (notw 64 (table_step (dtab d) (notw 64 (crc d)) v)) (dtab d).

Lemma crc64_foldl_digest_step t c p :
  foldl digest_step (Digest c t) p = Digest (notw 64 (foldl (table_step t) (notw 64 c) p)) t.
Proof.
  revert c. induction p as [|v p IH]; intros c; cbn [foldl]; [by rewrite crc64_notw_notw|].
  unfold digest_step at 2. cbn [crc dtab]. rewrite IH. by rewrite crc64_notw_notw.
Qed.

Lemma crc_update_uint poly c p : is_uint 64 poly -> is_uint 64 c -> bytes_ok p -> is_uint 64 (crc_update poly c p).
Proof.
  intros Hpoly Hc Hp. unfold crc_update.
  apply crc64_notw_uint, (foldl_byte_step_uint 64); [lia|assumption|by apply crc64_notw_uint|assumption].
Qed.

Lemma crc64_appendUint64_eq b x : appendUint64 b x = b ++ order_bytes true 8 x.
Proof. unfold appendUint64. by rewrite order_bytes_be8. Qed.

Lemma crc64_readUint64_eq b : readUint64 b = bigEndian_Uint64 b.
Proof. done. Qed.

Lemma tableSum_val t : exists s, tableSum t = Val s /\ is_uint 64 s.
Proof.
  assert (Hb : bytes_ok (foldl appendUint64 [] t)).
  { assert (H0 : bytes_ok []) by constructor. revert H0. generalize (@nil Z) as b.
    induction t as [|x t IH]; intros b Hb; [done|]. cbn [foldl]. apply IH. rewrite crc64_appendUint64_eq.
    apply Forall_app. split; [done|apply order_bytes_ok]. }
  exists (crc_update ISO 0 (foldl appendUint64 [] t)). split.
  - unfold tableSum, Checksum. rewrite MakeTable_makeTable. apply crc64_update_spec; [apply ISO_uint|done|done].
  - apply crc_update_uint; [apply ISO_uint|done|done].
Qed.

Lemma marshal_law d d' : is_uint 64 (crc d) -> dtab d = dtab d' ->
  exists b, MarshalBinary d = Val b /\ UnmarshalBinary d' b = Val (d, None).
Proof.
  intros Hc Es. unfold MarshalBinary, UnmarshalBinary. rewrite Es.
  destruct (tableSum_val (dtab d')) as (s & E & Hs). rewrite E. cbn [mbind outcome_bind].
  eexists. split; [done|]. rewrite !crc64_appendUint64_eq. cbn [app]. rewrite <- app_assoc, bad_magic_app.
  change (zlen _ =? _) with true. cbn [negb].
  rewrite (drop_app_length' magic _ 4) by done.
  rewrite crc64_readUint64_eq, bigEndian_Uint64_bytes by (done || apply order_bytes_ok). cbn [mbind outcome_bind].
  rewrite Z.eqb_refl. cbn [negb]. rewrite app_assoc.
  rewrite (drop_app_length' (magic ++ _)) by (by rewrite length_app, length_order_bytes).
  pose proof (bigEndian_Uint64_bytes (crc d) [] Hc ltac:(constructor)) as E'. rewrite app_nil_r in E'.
  rewrite E'. cbn. rewrite <- Es. by destruct d.
Qed.

Lemma unmarshal_total d b : bytes_ok b -> exists d' e, UnmarshalBinary d b = Val (d', e) /\
  match e with
  | None => is_uint 64 (crc d') /\ dtab d' = dtab d /\ MarshalBinary d' = Val b
  | Some _ => d' = d
  end.
Proof.
  intros Hb. unfold UnmarshalBinary, MarshalBinary.
  destruct (bad_magic magic b) eqn:Em; [by eexists d, (Some _)|].
  destruct (Z.eqb_spec (zlen b) marshaledSize) as [El|]; cbn [negb]; [|by eexists d, (Some _)].
  apply bad_magic_false in Em. change (length magic) with 4%nat in Em.
  assert (H4 : bytes_ok (drop 4 b)) by (by apply Forall_drop).
  assert (H12 : bytes_ok (drop 12 b)) by (by apply Forall_drop).
  unfold marshaledSize in El. change (zlen magic) with 4 in El.
  assert (Hl4 : length (drop 4 b) = 16%nat) by (rewrite length_drop; lia).
  assert (Hl12 : length (drop 12 b) = 8%nat) by (rewrite length_drop; lia).
  destruct (tableSum_val (dtab d)) as (s & E & Hs). rewrite E. cbn [mbind outcome_bind].
  rewrite !crc64_readUint64_eq, !bigEndian_Uint64_val by (done || lia). cbn [mbind outcome_bind].
  rewrite (take_ge (drop 12 b)) by lia.
  destruct (Z.eqb_spec s (order_value true (take 8 (drop 4 b)))) as [Es|]; cbn [negb];
    [|by eexists d, (Some _)].
  eexists _, None. split; [done|]. cbn [crc dtab]. split; [|split; [done|]].
  - pose proof (order_value_uint true (drop 12 b) H12) as Hu. by rewrite Hl12 in Hu.
  - rewrite E. cbn [mbind outcome_bind]. f_equal. rewrite !crc64_appendUint64_eq, Es.
    rewrite (order_bytes_value' true 8 (take 8 (drop 4 b))), (order_bytes_value' true 8 (drop 12 b))
      by first [done | by apply Forall_take | rewrite length_take; lia].
    rewrite Em at 3. cbn [app]. rewrite <- app_assoc. f_equal.
    rewrite <- (take_drop 8 (drop 4 b)) at 2. by rewrite drop_drop.
Qed.

#[export] Program Instance crc64_laws : HashLaws digest := {
  hash_ok := digest_ok; step := digest_step; same := λ d d', dtab d = dtab d' }.
Next Obligation.
  intros [c t] b [Hc (poly & Hp & Ht)] Hb. cbn [crc dtab] in *. subst t. split; [|by exists poly].
  cbn [crc digest_step dtab]. rewrite makeTable_byte_table. apply crc64_notw_uint. unfold table_step.
  rewrite (Crc.table_step 64) by (try assumption; try lia; by apply crc64_notw_uint).
  apply (byte_step_uint 64); [lia|assumption|by apply crc64_notw_uint|assumption].
Qed.
Next Obligation. done. Qed.
Next Obligation. split; repeat intro; congruence. Qed.
Next Obligation.
  intros [c t] p [Hc (poly & Hpoly & Ht)] Hp. cbn [crc dtab] in *. subst t.
  change (Hash.Write (Digest c (makeTable poly)) p) with (Write (Digest c (makeTable poly)) p).
  rewrite crc64_foldl_digest_step. unfold Write. cbn [crc dtab]. rewrite crc64_update_spec by assumption.
  cbn [mbind outcome_bind]. unfold crc_update.
  by rewrite makeTable_byte_table, crc64_foldl_table_step by (try assumption; by apply crc64_notw_uint).
Qed.
Next Obligation. intros d. exists (Sum d []). split; [|done]. intros b. change (Val (Sum d b) = Val (b ++ Sum d [])). unfold Sum. by rewrite !order_bytes_be8. Qed.
Next Obligation. intros [c t] [Hc Ht]. by split. Qed.
Next Obligation. intros [c t] [c' t'] E. cbn [crc dtab] in *. by subst. Qed.
Next Obligation. intros d d' [Hc _] _ Es. by apply marshal_law. Qed.
Next Obligation.
  intros d b [Hd (poly & Hpoly & Ht)] Hb. destruct (unmarshal_total d b Hb) as (d' & e & E & H).
  exists d', e. split; [exact E|]. destruct e; [done|]. destruct H as (H1 & H2 & H3).
  split; [split; [exact H1|exists poly; by rewrite H2]|by split].
Qed.

(** ** Properties *)

(** CRC-64 computes the bit-serial register on every path: for the ISO and ECMA polynomials,
    whose prepared tables update finds by comparing arrays, for any other polynomial on short
    data, and on more than 16384 bytes, for which it builds eight tables on the way. It needs no
    more than one turn of its outer loop, never panics, and cutting the data into several updates
    makes no difference. *)
Theorem Update_bitwise64 poly c p q :
  is_uint 64 poly -> is_uint 64 c -> bytes_ok p -> bytes_ok q ->
  exists c1, Update c (MakeTable poly) p = Val c1
  /\ c1 = notw 64 (foldl (byte_step poly) (notw 64 c) p)
  /\ Update c1 (MakeTable poly) q = Update c (MakeTable poly) (p ++ q).
Proof.
  intros Hpoly Hc Hp Hq. unfold Update. rewrite MakeTable_makeTable.
  exists (crc_update poly c p). split; [by apply crc64_update_spec|split; [done|]].
  pose proof (crc_update_uint poly c p Hpoly Hc Hp) as Hu.
  assert (Hpq : bytes_ok (p ++ q)) by (by apply Forall_app).
  rewrite !crc64_update_spec by assumption. unfold crc_update. by rewrite crc64_notw_notw, foldl_app.
Qed.

(** "ab" and then "c". *)
Lemma Update_bitwise64_witness :
  exists c1, Update 0 (MakeTable ECMA) [97; 98] = Val c1
  /\ c1 = notw 64 (foldl (byte_step ECMA) (notw 64 0) [97; 98])
  /\ Update c1 (MakeTable ECMA) [99] = Update 0 (MakeTable ECMA) [97; 98; 99].
Proof. apply (Update_bitwise64 ECMA 0 [97; 98] [99]); by apply (bool_decide_unpack _). Defined.
