(* ===== verification/Fnv.v ===== *)
(** * hash/fnv

    The six FNV-1 and FNV-1a hashes (src/Source/Gold/hash/fnv/fnv.go).  The 128-bit state is a pair
    of words, multiplied by the prime through bits.Mul64 of file Bits. *)

From S2P Require Import Prelude Bits Binary Hash.

Local Open Scope go_scope.

Definition offset32 : Z := 2166136261.
Definition offset64 : Z := 14695981039346656037.
Definition offset128Lower : Z := 0x62b821756295c58d.
Definition offset128Higher : Z := 0x6c62272e07bb0142.
Definition prime32 : Z := 16777619.
Definition prime64 : Z := 1099511628211.
Definition prime128Lower : Z := 0x13b.
Definition prime128Shift : Z := 24.

(** The state types, kept apart as in the source. *)
Record sum32 : Type := Sum32 { v32 : Z }.
Record sum32a : Type := Sum32a { v32a : Z }.
Record sum64 : Type := Sum64 { v64 : Z }.
Record sum64a : Type := Sum64a { v64a : Z }.
Record sum128 : Type := Sum128 { hi128 : Z; lo128 : Z }.
Record sum128a : Type := Sum128a { hi128a : Z; lo128a : Z }.

Definition New32 : sum32 := Sum32 offset32.
Definition New32a : sum32a := Sum32a offset32.
Definition New64 : sum64 := Sum64 offset64.
Definition New64a : sum64a := Sum64a offset64.
Definition New128 : sum128 := Sum128 offset128Higher offset128Lower.
Definition New128a : sum128a := Sum128a offset128Higher offset128Lower.

Definition sum32_Reset (s : sum32) : sum32 := Sum32 offset32.
Definition sum32a_Reset (s : sum32a) : sum32a := Sum32a offset32.
Definition sum64_Reset (s : sum64) : sum64 := Sum64 offset64.
Definition sum64a_Reset (s : sum64a) : sum64a := Sum64a offset64.
Definition sum128_Reset (s : sum128) : sum128 := Sum128 offset128Higher offset128Lower.
Definition sum128a_Reset (s : sum128a) : sum128a := Sum128a offset128Higher offset128Lower.

(** ** Write *)

Definition sum32_Write (s : sum32) (data : list Z) : sum32 * Z :=
  (Sum32 (foldl (λ hash c, u32 (hash * prime32) ^. c) (v32 s) data), zlen data).

Definition sum32a_Write (s : sum32a) (data : list Z) : sum32a * Z :=
  (Sum32a (foldl (λ hash c, u32 ((hash ^. c) * prime32)) (v32a s) data), zlen data).

Definition sum64_Write (s : sum64) (data : list Z) : sum64 * Z :=
  (Sum64 (foldl (λ hash c, u64 (hash * prime64) ^. c) (v64 s) data), zlen data).

Definition sum64a_Write (s : sum64a) (data : list Z) : sum64a * Z :=
  (Sum64a (foldl (λ hash c, u64 ((hash ^. c) * prime64)) (v64a s) data), zlen data).

(** The multiplication of the 128-bit state [s[0], s[1]] by the prime 2^88 + 0x13b. *)
Definition mul_prime128 (a0 a1 : Z) : Z * Z :=
  let '(s0, s1) := Mul64 prime128Lower a1 in
  let s0 := u64 (s0 + u64 (a1 <<.[64] prime128Shift + u64 (prime128Lower * a0))) in
  (s0, s1).

Definition sum128_Write (s : sum128) (data : list Z) : sum128 * Z :=
  (foldl (λ s c, let '(s0, s1) := mul_prime128 (hi128 s) (lo128 s) in Sum128 s0 (s1 ^. c)) s data, zlen data).

Definition sum128a_Write (s : sum128a) (data : list Z) : sum128a * Z :=
  (foldl (λ s c, let '(s0, s1) := mul_prime128 (hi128a s) (lo128a s ^. c) in Sum128a s0 s1) s data, zlen data).

(** ** Sum *)

Definition be32 (v : Z) : list Z := [u8 (v >>. 24); u8 (v >>. 16); u8 (v >>. 8); u8 v].
Definition be64 (v : Z) : list Z :=
  [u8 (v >>. 56); u8 (v >>. 48); u8 (v >>. 40); u8 (v >>. 32); u8 (v >>. 24); u8 (v >>. 16); u8 (v >>. 8); u8 v].

Definition sum32_Sum (s : sum32) (b : list Z) : list Z := b ++ be32 (v32 s).
Definition sum32a_Sum (s : sum32a) (b : list Z) : list Z := b ++ be32 (v32a s).
Definition sum64_Sum (s : sum64) (b : list Z) : list Z := b ++ be64 (v64 s).
Definition sum64a_Sum (s : sum64a) (b : list Z) : list Z := b ++ be64 (v64a s).
Definition sum128_Sum (s : sum128) (b : list Z) : list Z := b ++ be64 (hi128 s) ++ be64 (lo128 s).
Definition sum128a_Sum (s : sum128a) (b : list Z) : list Z := b ++ be64 (hi128a s) ++ be64 (lo128a s).

(** ** Marshalling *)

(** "fnv\x01" to "fnv\x06" *)
Definition magic32 : list Z := [102; 110; 118; 1].
Definition magic32a : list Z := [102; 110; 118; 2].
Definition magic64 : list Z := [102; 110; 118; 3].
Definition magic64a : list Z := [102; 110; 118; 4].
Definition magic128 : list Z := [102; 110; 118; 5].
Definition magic128a : list Z := [102; 110; 118; 6].
Definition marshaledSize32 : Z := zlen magic32 + 4.
Definition marshaledSize64 : Z := zlen magic64 + 8.
Definition marshaledSize128 : Z := zlen magic128 + 8 * 2.

Definition appendUint32 (b : list Z) (x : Z) : list Z := b ++ be32 x.
Definition appendUint64 (b : list Z) (x : Z) : list Z := b ++ be64 x.

Definition readUint32 (b : list Z) : outcome Z :=
  _ ← index b 3;
  b3 ← index b 3; b2 ← index b 2; b1 ← index b 1; b0 ← index b 0;
  Val (b3 |. b2 <<.[32] 8 |. b1 <<.[32] 16 |. b0 <<.[32] 24).

Definition readUint64 (b : list Z) : outcome Z :=
  _ ← index b 7;
  b7 ← index b 7; b6 ← index b 6; b5 ← index b 5; b4 ← index b 4;
  b3 ← index b 3; b2 ← index b 2; b1 ← index b 1; b0 ← index b 0;
  Val (b7 |. b6 <<.[64] 8 |. b5 <<.[64] 16 |. b4 <<.[64] 24
       |. b3 <<.[64] 32 |. b2 <<.[64] 40 |. b1 <<.[64] 48 |. b0 <<.[64] 56).

Definition sum32_MarshalBinary (s : sum32) : list Z := appendUint32 ([] ++ magic32) (v32 s).
Definition sum32a_MarshalBinary (s : sum32a) : list Z := appendUint32 ([] ++ magic32a) (v32a s).
Definition sum64_MarshalBinary (s : sum64) : list Z := appendUint64 ([] ++ magic64) (v64 s).
Definition sum64a_MarshalBinary (s : sum64a) : list Z := appendUint64 ([] ++ magic64a) (v64a s).
Definition sum128_MarshalBinary (s : sum128) : list Z :=
  appendUint64 (appendUint64 ([] ++ magic128) (hi128 s)) (lo128 s).
Definition sum128a_MarshalBinary (s : sum128a) : list Z :=
  appendUint64 (appendUint64 ([] ++ magic128a) (hi128a s)) (lo128a s).

Definition sum32_UnmarshalBinary (s : sum32) (b : list Z) : outcome (sum32 * option unmarshalError) :=
  if bad_magic magic32 b then Val (s, Some invalidIdentifier)
  else if negb (zlen b =? marshaledSize32) then Val (s, Some invalidSize)
  else v ← readUint32 (drop 4 b); Val (Sum32 v, None).

Definition sum32a_UnmarshalBinary (s : sum32a) (b : list Z) : outcome (sum32a * option unmarshalError) :=
  if bad_magic magic32a b then Val (s, Some invalidIdentifier)
  else if negb (zlen b =? marshaledSize32) then Val (s, Some invalidSize)
  else v ← readUint32 (drop 4 b); Val (Sum32a v, None).

Definition sum64_UnmarshalBinary (s : sum64) (b : list Z) : outcome (sum64 * option unmarshalError) :=
  if bad_magic magic64 b then Val (s, Some invalidIdentifier)
  else if negb (zlen b =? marshaledSize64) then Val (s, Some invalidSize)
  else v ← readUint64 (drop 4 b); Val (Sum64 v, None).

Definition sum64a_UnmarshalBinary (s : sum64a) (b : list Z) : outcome (sum64a * option unmarshalError) :=
  if bad_magic magic64a b then Val (s, Some invalidIdentifier)
  else if negb (zlen b =? marshaledSize64) then Val (s, Some invalidSize)
  else v ← readUint64 (drop 4 b); Val (Sum64a v, None).

Definition sum128_UnmarshalBinary (s : sum128) (b : list Z) : outcome (sum128 * option unmarshalError) :=
  if bad_magic magic128 b then Val (s, Some invalidIdentifier)
  else if negb (zlen b =? marshaledSize128) then Val (s, Some invalidSize)
  else h ← readUint64 (drop 4 b); l ← readUint64 (drop 12 b); Val (Sum128 h l, None).

Definition sum128a_UnmarshalBinary (s : sum128a) (b : list Z) : outcome (sum128a * option unmarshalError) :=
  if bad_magic magic128a b then Val (s, Some invalidIdentifier)
  else if negb (zlen b =? marshaledSize128) then Val (s, Some invalidSize)
  else h ← readUint64 (drop 4 b); l ← readUint64 (drop 12 b); Val (Sum128a h l, None).

#[export] Instance sum32_Hash : Hash sum32 := {
  Write := λ s p, Val (sum32_Write s p); Sum := λ s b, Val (sum32_Sum s b); Reset := sum32_Reset; Size := λ _, 4; BlockSize := λ _, 1;
  MarshalBinary := λ s, Val (sum32_MarshalBinary s); UnmarshalBinary := sum32_UnmarshalBinary }.
#[export] Instance sum32a_Hash : Hash sum32a := {
  Write := λ s p, Val (sum32a_Write s p); Sum := λ s b, Val (sum32a_Sum s b); Reset := sum32a_Reset; Size := λ _, 4; BlockSize := λ _, 1;
  MarshalBinary := λ s, Val (sum32a_MarshalBinary s); UnmarshalBinary := sum32a_UnmarshalBinary }.
#[export] Instance sum64_Hash : Hash sum64 := {
  Write := λ s p, Val (sum64_Write s p); Sum := λ s b, Val (sum64_Sum s b); Reset := sum64_Reset; Size := λ _, 8; BlockSize := λ _, 1;
  MarshalBinary := λ s, Val (sum64_MarshalBinary s); UnmarshalBinary := sum64_UnmarshalBinary }.
#[export] Instance sum64a_Hash : Hash sum64a := {
  Write := λ s p, Val (sum64a_Write s p); Sum := λ s b, Val (sum64a_Sum s b); Reset := sum64a_Reset; Size := λ _, 8; BlockSize := λ _, 1;
  MarshalBinary := λ s, Val (sum64a_MarshalBinary s); UnmarshalBinary := sum64a_UnmarshalBinary }.
#[export] Instance sum128_Hash : Hash sum128 := {
  Write := λ s p, Val (sum128_Write s p); Sum := λ s b, Val (sum128_Sum s b); Reset := sum128_Reset; Size := λ _, 16; BlockSize := λ _, 1;
  MarshalBinary := λ s, Val (sum128_MarshalBinary s); UnmarshalBinary := sum128_UnmarshalBinary }.
#[export] Instance sum128a_Hash : Hash sum128a := {
  Write := λ s p, Val (sum128a_Write s p); Sum := λ s b, Val (sum128a_Sum s b); Reset := sum128a_Reset; Size := λ _, 16; BlockSize := λ _, 1;
  MarshalBinary := λ s, Val (sum128a_MarshalBinary s); UnmarshalBinary := sum128a_UnmarshalBinary }.

(** ** 128-bit multiplication *)

(** The number a 128-bit state stands for, and the FNV prime. *)
Definition value128 (hi lo : Z) : Z := hi * 2 ^ 64 + lo.
Definition prime128 : Z := 309485009821345068724781371.

(** The high word, added up in pieces, and the low word of the product by [2^88 + q]. *)
Lemma mul128_pieces a0 a1 q :
  let B := 2 ^ 64 in
  let m := q * a1 in
  ((m / B + ((a1 * 2 ^ 24) mod B + (q * a0) mod B) mod B) mod B) * B + m mod B
  = ((a0 * B + a1) * (2 ^ 88 + q)) mod 2 ^ 128.
Proof.
  intros B m.
  rewrite <- (Z.add_mod (a1 * 2 ^ 24)) by done. rewrite (Z.add_mod_idemp_r (m / B)) by done.
  set (h := m / B + (a1 * 2 ^ 24 + q * a0)). change (2 ^ 128) with (B * B).
  replace ((a0 * B + a1) * (2 ^ 88 + q)) with (m mod B + (h + a0 * 2 ^ 88) * B).
  - rewrite Z.rem_mul_r, Z.mod_add, Z.div_add, Z.mod_mod by done.
    rewrite (Z.div_small (m mod B)) by (by apply Z.mod_pos_bound).
    replace (0 + (h + a0 * 2 ^ 88)) with (h + (a0 * 2 ^ 24) * B) by (unfold B; ring).
    rewrite Z.mod_add by done. ring.
  - unfold h. pose proof (Z.div_mod m B ltac:(done)) as E. unfold B in *.
    transitivity (2 ^ 64 * (m / 2 ^ 64) + m mod 2 ^ 64 + 2 ^ 64 * (a1 * 2 ^ 24 + q * a0 + a0 * 2 ^ 88)); [ring|].
    rewrite <- E. unfold m. ring.
Qed.

Lemma mul_prime128_spec a0 a1 : is_uint 64 a0 -> is_uint 64 a1 ->
  exists s0 s1, mul_prime128 a0 a1 = (s0, s1) /\
  is_uint 64 s0 /\ is_uint 64 s1 /\ value128 s0 s1 = wrap 128 (value128 a0 a1 * prime128).
Proof.
  intros H0 H1. unfold mul_prime128. rewrite Mul64_product by done. eexists _, _. split; [done|].
  split; [apply wrap_is_uint; lia|split; [apply (wrap_is_uint 64); lia|]].
  unfold shl. rewrite Z.shiftl_mul_pow2 by done. apply mul128_pieces.
Qed.

Lemma value128_lxor hi lo c : is_uint 64 lo -> is_byte c ->
  value128 hi (lo ^. c) = value128 hi lo ^. c.
Proof.
  intros Hl Hc. assert (Hx : is_uint 64 (lo ^. c)) by (apply lxor_is_uint; [lia|done|by apply (is_uint_mono 8)]).
  unfold value128. rewrite <- !(lxor_disjoint hi _ 64) by (done || lia). symmetry. apply Z.lxor_assoc.
Qed.

(** ** The laws of hash.Hash *)

Lemma be32_eq v : be32 v = order_bytes true 4 v.
Proof. unfold be32. by rewrite order_bytes_be4. Qed.
Lemma be64_eq v : be64 v = order_bytes true 8 v.
Proof. unfold be64. by rewrite order_bytes_be8. Qed.

(** The shape of UnmarshalBinary for one, two and four words of state. *)
Section Restore.
Context {D : Type} (magic : list Z) (Hm : length magic = 4%nat).

Lemma restore32 (mk : Z -> D) (s : D) b :
  bytes_ok b ->
  exists d' e,
  (if bad_magic magic b then Val (s, Some invalidIdentifier)
   else if negb (zlen b =? zlen magic + 4) then Val (s, Some invalidSize)
   else v ← readUint32 (drop 4 b); Val (mk v, None)) = Val (d', e) /\
  match e with
  | None => exists v, is_uint 32 v /\ d' = mk v /\ b = magic ++ be32 v
  | Some _ => d' = s
  end.
Proof.
  intros Hb. destruct (bad_magic magic b) eqn:Em; [by eexists s, (Some _)|].
  destruct (Z.eqb_spec (zlen b) (zlen magic + 4)) as [El|]; cbn [negb]; [|by eexists s, (Some _)].
  apply bad_magic_false in Em. rewrite Hm in Em.
  assert (H4 : bytes_ok (drop 4 b)) by (by apply Forall_drop).
  assert (Hl4 : length (drop 4 b) = 4%nat) by (rewrite length_drop; lia).
  change readUint32 with bigEndian_Uint32. rewrite bigEndian_Uint32_val, take_ge by (done || lia).
  eexists _, None. split; [done|]. exists (order_value true (drop 4 b)). split; [|split; [done|]].
  - pose proof (order_value_uint true (drop 4 b) H4) as Hu. by rewrite Hl4 in Hu.
  - by rewrite be32_eq, (order_bytes_value' true 4).
Qed.

Lemma restore64 (mk : Z -> D) (s : D) b :
  bytes_ok b ->
  exists d' e,
  (if bad_magic magic b then Val (s, Some invalidIdentifier)
   else if negb (zlen b =? zlen magic + 8) then Val (s, Some invalidSize)
   else v ← readUint64 (drop 4 b); Val (mk v, None)) = Val (d', e) /\
  match e with
  | None => exists v, is_uint 64 v /\ d' = mk v /\ b = magic ++ be64 v
  | Some _ => d' = s
  end.
Proof.
  intros Hb. destruct (bad_magic magic b) eqn:Em; [by eexists s, (Some _)|].
  destruct (Z.eqb_spec (zlen b) (zlen magic + 8)) as [El|]; cbn [negb]; [|by eexists s, (Some _)].
  apply bad_magic_false in Em. rewrite Hm in Em.
  assert (H4 : bytes_ok (drop 4 b)) by (by apply Forall_drop).
  assert (Hl4 : length (drop 4 b) = 8%nat) by (rewrite length_drop; lia).
  change readUint64 with bigEndian_Uint64. rewrite bigEndian_Uint64_val, take_ge by (done || lia).
  eexists _, None. split; [done|]. exists (order_value true (drop 4 b)). split; [|split; [done|]].
  - pose proof (order_value_uint true (drop 4 b) H4) as Hu. by rewrite Hl4 in Hu.
  - by rewrite be64_eq, (order_bytes_value' true 8).
Qed.

Lemma restore128 (mk : Z -> Z -> D) (s : D) b :
  bytes_ok b ->
  exists d' e,
  (if bad_magic magic b then Val (s, Some invalidIdentifier)
   else if negb (zlen b =? zlen magic + 8 * 2) then Val (s, Some invalidSize)
   else h ← readUint64 (drop 4 b); l ← readUint64 (drop 12 b); Val (mk h l, None)) = Val (d', e) /\
  match e with
  | None => exists h l, is_uint 64 h /\ is_uint 64 l /\ d' = mk h l /\ b = (magic ++ be64 h) ++ be64 l
  | Some _ => d' = s
  end.
Proof.
  intros Hb. destruct (bad_magic magic b) eqn:Em; [by eexists s, (Some _)|].
  destruct (Z.eqb_spec (zlen b) (zlen magic + 8 * 2)) as [El|]; cbn [negb]; [|by eexists s, (Some _)].
  apply bad_magic_false in Em. rewrite Hm in Em.
  assert (H4 : bytes_ok (take 8 (drop 4 b))) by (by apply Forall_take, Forall_drop).
  assert (H12 : bytes_ok (drop 12 b)) by (by apply Forall_drop).
  assert (Hl4 : length (take 8 (drop 4 b)) = 8%nat) by (rewrite length_take, length_drop; lia).
  assert (Hl12 : length (drop 12 b) = 8%nat) by (rewrite length_drop; lia).
  change readUint64 with bigEndian_Uint64.
  rewrite !bigEndian_Uint64_val by (done || (by apply Forall_drop) || (rewrite length_drop; lia)).
  rewrite (take_ge (drop 12 b)) by lia. eexists _, None. split; [done|].
  exists (order_value true (take 8 (drop 4 b))), (order_value true (drop 12 b)).
  pose proof (order_value_uint true _ H4) as Hu4. pose proof (order_value_uint true _ H12) as Hu12.
  rewrite Hl4 in Hu4. rewrite Hl12 in Hu12. split; [done|]. split; [done|]. split; [done|].
  rewrite !be64_eq, !(order_bytes_value' true 8) by done. rewrite Em at 1. rewrite <- app_assoc. f_equal.
  rewrite <- (take_drop 8 (drop 4 b)) at 1. by rewrite drop_drop.
Qed.

(** A marshalled state passes the checks and gives its words back. *)
Lemma restored32 (mk : Z -> D) (s : D) v : is_uint 32 v ->
  (if bad_magic magic (magic ++ be32 v) then Val (s, Some invalidIdentifier)
   else if negb (zlen (magic ++ be32 v) =? zlen magic + 4) then Val (s, Some invalidSize)
   else v ← readUint32 (drop 4 (magic ++ be32 v)); Val (mk v, None)) = Val (mk v, None).
Proof.
  intros Hv. rewrite bad_magic_app, zlen_app. change (zlen (be32 v)) with 4. rewrite Z.eqb_refl. cbn [negb].
  rewrite (drop_app_length' magic) by done. change readUint32 with bigEndian_Uint32.
  rewrite be32_eq. pose proof (bigEndian_Uint32_bytes v [] Hv ltac:(constructor)) as E. rewrite app_nil_r in E. by rewrite E.
Qed.

Lemma restored64 (mk : Z -> D) (s : D) v : is_uint 64 v ->
  (if bad_magic magic (magic ++ be64 v) then Val (s, Some invalidIdentifier)
   else if negb (zlen (magic ++ be64 v) =? zlen magic + 8) then Val (s, Some invalidSize)
   else v ← readUint64 (drop 4 (magic ++ be64 v)); Val (mk v, None)) = Val (mk v, None).
Proof.
  intros Hv. rewrite bad_magic_app, zlen_app. change (zlen (be64 v)) with 8. rewrite Z.eqb_refl. cbn [negb].
  rewrite (drop_app_length' magic) by done. change readUint64 with bigEndian_Uint64.
  rewrite be64_eq. pose proof (bigEndian_Uint64_bytes v [] Hv ltac:(constructor)) as E. rewrite app_nil_r in E. by rewrite E.
Qed.

Lemma restored128 (mk : Z -> Z -> D) (s : D) h l : is_uint 64 h -> is_uint 64 l ->
  let b := (magic ++ be64 h) ++ be64 l in
  (if bad_magic magic b then Val (s, Some invalidIdentifier)
   else if negb (zlen b =? zlen magic + 8 * 2) then Val (s, Some invalidSize)
   else h ← readUint64 (drop 4 b); l ← readUint64 (drop 12 b); Val (mk h l, None)) = Val (mk h l, None).
Proof.
  intros Hh Hl b. assert (E : b = magic ++ be64 h ++ be64 l) by (unfold b; by rewrite <- app_assoc).
  rewrite E, bad_magic_app, !zlen_app. change (zlen (be64 h)) with 8. change (zlen (be64 l)) with 8.
  rewrite Z.eqb_refl. cbn [negb].
  rewrite (drop_app_length' magic _ 4) by done. rewrite <- E. unfold b.
  rewrite (drop_app_length' (magic ++ be64 h)) by (rewrite length_app, Hm; done).
  change readUint64 with bigEndian_Uint64. rewrite !be64_eq, bigEndian_Uint64_bytes by (done || apply order_bytes_ok).
  pose proof (bigEndian_Uint64_bytes l [] Hl ltac:(constructor)) as E'. rewrite app_nil_r in E'. by rewrite E'.
Qed.
End Restore.

Lemma lxor_byte_uint w x c : 8 <= w -> is_uint w x -> is_byte c -> is_uint w (x ^. c).
Proof. intros Hw Hx Hc. apply lxor_is_uint; [lia|done|by apply (is_uint_mono 8)]. Qed.

#[export] Program Instance sum32_laws : HashLaws sum32 := {
  hash_ok := λ s, is_uint 32 (v32 s); step := λ s c, Sum32 (u32 (v32 s * prime32) ^. c); same := λ _ _, True }.
Next Obligation.
  intros s c Hs Hc. cbn. apply lxor_byte_uint; [lia|apply wrap_is_uint; lia|done].
Qed.
Next Obligation. done. Qed.
Next Obligation. split; repeat intro; done. Qed.
Next Obligation.
  intros s p _ _. change (Val (sum32_Write s p) = Val (foldl (λ s c, Sum32 (u32 (v32 s * prime32) ^. c)) s p, zlen p)).
  unfold sum32_Write. do 2 f_equal. revert s. induction p as [|c p IH]; intros s; [by destruct s|].
  cbn [foldl]. rewrite <- IH. done.
Qed.
Next Obligation. intros s. by exists (sum32_Sum s []). Qed.
Next Obligation. intros. by apply (bool_decide_unpack (is_uint 32 offset32)). Qed.
Next Obligation. done. Qed.
Next Obligation.
  intros s s' Hs _ _. exists (sum32_MarshalBinary s). split; [done|]. destruct s as [v]. by apply restored32.
Qed.
Next Obligation.
  intros s b Hs Hb. destruct (restore32 magic32 eq_refl Sum32 s b Hb) as (d' & e & E & H).
  exists d', e. split; [exact E|]. destruct e; [done|]. destruct H as (v & Hv & -> & ->). done.
Qed.

#[export] Program Instance sum32a_laws : HashLaws sum32a := {
  hash_ok := λ s, is_uint 32 (v32a s); step := λ s c, Sum32a (u32 ((v32a s ^. c) * prime32)); same := λ _ _, True }.
Next Obligation.
  intros s c Hs Hc. cbn. apply wrap_is_uint. lia.
Qed.
Next Obligation. done. Qed.
Next Obligation. split; repeat intro; done. Qed.
Next Obligation.
  intros s p _ _. change (Val (sum32a_Write s p) = Val (foldl (λ s c, Sum32a (u32 ((v32a s ^. c) * prime32))) s p, zlen p)).
  unfold sum32a_Write. do 2 f_equal. revert s. induction p as [|c p IH]; intros s; [by destruct s|].
  cbn [foldl]. rewrite <- IH. done.
Qed.
Next Obligation. intros s. by exists (sum32a_Sum s []). Qed.
Next Obligation. intros. by apply (bool_decide_unpack (is_uint 32 offset32)). Qed.
Next Obligation. done. Qed.
Next Obligation.
  intros s s' Hs _ _. exists (sum32a_MarshalBinary s). split; [done|]. destruct s as [v]. by apply restored32.
Qed.
Next Obligation.
  intros s b Hs Hb. destruct (restore32 magic32a eq_refl Sum32a s b Hb) as (d' & e & E & H).
  exists d', e. split; [exact E|]. destruct e; [done|]. destruct H as (v & Hv & -> & ->). done.
Qed.

#[export] Program Instance sum64_laws : HashLaws sum64 := {
  hash_ok := λ s, is_uint 64 (v64 s); step := λ s c, Sum64 (u64 (v64 s * prime64) ^. c); same := λ _ _, True }.
Next Obligation.
  intros s c Hs Hc. cbn. apply lxor_byte_uint; [lia|apply wrap_is_uint; lia|done].
Qed.
Next Obligation. done. Qed.
Next Obligation. split; repeat intro; done. Qed.
Next Obligation.
  intros s p _ _. change (Val (sum64_Write s p) = Val (foldl (λ s c, Sum64 (u64 (v64 s * prime64) ^. c)) s p, zlen p)).
  unfold sum64_Write. do 2 f_equal. revert s. induction p as [|c p IH]; intros s; [by destruct s|].
  cbn [foldl]. rewrite <- IH. done.
Qed.
Next Obligation. intros s. by exists (sum64_Sum s []). Qed.
Next Obligation. intros. by apply (bool_decide_unpack (is_uint 64 offset64)). Qed.
Next Obligation. done. Qed.
Next Obligation.
  intros s s' Hs _ _. exists (sum64_MarshalBinary s). split; [done|]. destruct s as [v]. by apply restored64.
Qed.
Next Obligation.
  intros s b Hs Hb. destruct (restore64 magic64 eq_refl Sum64 s b Hb) as (d' & e & E & H).
  exists d', e. split; [exact E|]. destruct e; [done|]. destruct H as (v & Hv & -> & ->). done.
Qed.

#[export] Program Instance sum64a_laws : HashLaws sum64a := {
  hash_ok := λ s, is_uint 64 (v64a s); step := λ s c, Sum64a (u64 ((v64a s ^. c) * prime64)); same := λ _ _, True }.
Next Obligation.
  intros s c Hs Hc. cbn. apply wrap_is_uint. lia.
Qed.
Next Obligation. done. Qed.
Next Obligation. split; repeat intro; done. Qed.
Next Obligation.
  intros s p _ _. change (Val (sum64a_Write s p) = Val (foldl (λ s c, Sum64a (u64 ((v64a s ^. c) * prime64))) s p, zlen p)).
  unfold sum64a_Write. do 2 f_equal. revert s. induction p as [|c p IH]; intros s; [by destruct s|].
  cbn [foldl]. rewrite <- IH. done.
Qed.
Next Obligation. intros s. by exists (sum64a_Sum s []). Qed.
Next Obligation. intros. by apply (bool_decide_unpack (is_uint 64 offset64)). Qed.
Next Obligation. done. Qed.
Next Obligation.
  intros s s' Hs _ _. exists (sum64a_MarshalBinary s). split; [done|]. destruct s as [v]. by apply restored64.
Qed.
Next Obligation.
  intros s b Hs Hb. destruct (restore64 magic64a eq_refl Sum64a s b Hb) as (d' & e & E & H).
  exists d', e. split; [exact E|]. destruct e; [done|]. destruct H as (v & Hv & -> & ->). done.
Qed.

#[export] Program Instance sum128_laws : HashLaws sum128 := {
  hash_ok := λ s, is_uint 64 (hi128 s) /\ is_uint 64 (lo128 s);
  step := λ s c, let '(s0, s1) := mul_prime128 (hi128 s) (lo128 s) in Sum128 s0 (s1 ^. c); same := λ _ _, True }.
Next Obligation.
  intros [h l] c [Hh Hl] Hc. cbn [hi128 lo128] in *. destruct (mul_prime128_spec h l Hh Hl) as (s0 & s1 & -> & H0 & H1 & _). split; [exact H0|]. apply (lxor_byte_uint 64 s1 c); [lia|exact H1|exact Hc].
Qed.
Next Obligation. done. Qed.
Next Obligation. split; repeat intro; done. Qed.
Next Obligation. done. Qed.
Next Obligation. intros s. by exists (sum128_Sum s []). Qed.
Next Obligation. intros. split; by apply (bool_decide_unpack (is_uint 64 _)). Qed.
Next Obligation. done. Qed.
Next Obligation.
  intros [h l] s' [Hh Hl] _ _. exists (sum128_MarshalBinary (Sum128 h l)). split; [reflexivity|].
  change (sum128_UnmarshalBinary s' (sum128_MarshalBinary (Sum128 h l)) = Val (Sum128 h l, None)).
  unfold sum128_UnmarshalBinary, sum128_MarshalBinary, appendUint64, marshaledSize128. cbn [hi128 lo128 app].
  exact (restored128 magic128 eq_refl Sum128 s' h l Hh Hl).
Qed.
Next Obligation.
  intros s b Hs Hb. destruct (restore128 magic128 eq_refl Sum128 s b Hb) as (d' & e & E & H).
  exists d', e. split; [exact E|]. destruct e; [done|]. destruct H as (h & l & Hh & Hl & -> & ->). done.
Qed.

#[export] Program Instance sum128a_laws : HashLaws sum128a := {
  hash_ok := λ s, is_uint 64 (hi128a s) /\ is_uint 64 (lo128a s);
  step := λ s c, let '(s0, s1) := mul_prime128 (hi128a s) (lo128a s ^. c) in Sum128a s0 s1; same := λ _ _, True }.
Next Obligation.
  intros [h l] c [Hh Hl] Hc. cbn [hi128a lo128a] in *. destruct (mul_prime128_spec h (l ^. c) Hh) as (s0 & s1 & -> & H0 & H1 & _); [apply (lxor_byte_uint 64 l c); [lia|exact Hl|exact Hc]|]. exact (conj H0 H1).
Qed.
Next Obligation. done. Qed.
Next Obligation. split; repeat intro; done. Qed.
Next Obligation. done. Qed.
Next Obligation. intros s. by exists (sum128a_Sum s []). Qed.
Next Obligation. intros. split; by apply (bool_decide_unpack (is_uint 64 _)). Qed.
Next Obligation. done. Qed.
Next Obligation.
  intros [h l] s' [Hh Hl] _ _. exists (sum128a_MarshalBinary (Sum128a h l)). split; [reflexivity|].
  change (sum128a_UnmarshalBinary s' (sum128a_MarshalBinary (Sum128a h l)) = Val (Sum128a h l, None)).
  unfold sum128a_UnmarshalBinary, sum128a_MarshalBinary, appendUint64, marshaledSize128. cbn [hi128a lo128a app].
  exact (restored128 magic128a eq_refl Sum128a s' h l Hh Hl).
Qed.
Next Obligation.
  intros s b Hs Hb. destruct (restore128 magic128a eq_refl Sum128a s b Hb) as (d' & e & E & H).
  exists d', e. split; [exact E|]. destruct e; [done|]. destruct H as (h & l & Hh & Hl & -> & ->). done.
Qed.

(** ** Properties *)

(** The FNV-1 and FNV-1a recurrences on [w]-bit numbers. *)
Definition fnv1 (w prime h : Z) (data : list Z) : Z := foldl (λ h c, wrap w (h * prime) ^. c) h data.
Definition fnv1a (w prime h : Z) (data : list Z) : Z := foldl (λ h c, wrap w ((h ^. c) * prime)) h data.

(** The 128-bit FNV hashes, which the source computes on two 64-bit words with one 64x64 multiply
    and partial products that wrap, are the FNV-1 and FNV-1a recurrences with the 128-bit prime
    2^88 + 0x13b modulo 2^128: from any state, Write leaves words that spell the recurrence's value. *)
Theorem Write128_recurrence hi lo data :
  is_uint 64 hi -> is_uint 64 lo -> bytes_ok data ->
  (let s := fst (sum128_Write (Sum128 hi lo) data) in
   is_uint 64 (hi128 s) /\ is_uint 64 (lo128 s)
   /\ value128 (hi128 s) (lo128 s) = fnv1 128 prime128 (value128 hi lo) data)
  /\ (let s := fst (sum128a_Write (Sum128a hi lo) data) in
      is_uint 64 (hi128a s) /\ is_uint 64 (lo128a s)
      /\ value128 (hi128a s) (lo128a s) = fnv1a 128 prime128 (value128 hi lo) data).
Proof.
  intros Hh Hl Hd. split; revert hi lo Hh Hl; induction Hd as [|c data Hc _ IH]; intros hi lo Hh Hl; try done;
    unfold sum128_Write, sum128a_Write, fnv1, fnv1a in *; cbn [foldl fst hi128 lo128 hi128a lo128a] in *.
  - destruct (mul_prime128_spec hi lo Hh Hl) as (s0 & s1 & E & H0 & H1 & Ev). rewrite E, <- Ev, <- value128_lxor by done.
    apply IH; [exact H0|]. apply lxor_byte_uint; [lia|exact H1|exact Hc].
  - assert (Hx : is_uint 64 (lo ^. c)) by (apply lxor_byte_uint; [lia|exact Hl|exact Hc]).
    destruct (mul_prime128_spec hi (lo ^. c) Hh Hx) as (s0 & s1 & E & H0 & H1 & Ev).
    rewrite E, <- value128_lxor, <- Ev by done. by apply IH.
Qed.

Lemma Write128_recurrence_witness :
  let s := fst (sum128a_Write New128a [97; 98]) in
  is_uint 64 (hi128a s) /\ is_uint 64 (lo128a s)
  /\ value128 (hi128a s) (lo128a s) = fnv1a 128 prime128 (value128 offset128Higher offset128Lower) [97; 98].
Proof.
  apply (Write128_recurrence offset128Higher offset128Lower [97; 98]); by apply (bool_decide_unpack _).
Defined.
