(* ===== verification/Hashes.v ===== *)
(** * The hashes of the library

    Every checksum package as one family, and the promises of hash.Hash for all of them: how data
    is cut into writes is irrelevant, a saved state continues where it was, Sum appends Size bytes,
    and UnmarshalBinary accepts exactly the states that MarshalBinary writes. *)

From S2P Require Import Prelude Binary Adler32 Crc32 Crc64 Fnv Hash.

Inductive library_hash : Type :=
  | ADLER32 | CRC32 | CRC64 | FNV32 | FNV32a | FNV64 | FNV64a | FNV128 | FNV128a.

(** The state type behind the interface value. *)
Definition state_of (k : library_hash) : Type :=
  match k with
  | ADLER32 => Adler32.digest
  | CRC32 => Crc32.digest
  | CRC64 => Crc64.digest
  | FNV32 => sum32 | FNV32a => sum32a
  | FNV64 => sum64 | FNV64a => sum64a
  | FNV128 => sum128 | FNV128a => sum128a
  end.

#[export] Instance library_Hash (k : library_hash) : Hash (state_of k) :=
  match k with
  | ADLER32 => adler32_Hash
  | CRC32 => crc32_Hash
  | CRC64 => crc64_Hash
  | FNV32 => sum32_Hash | FNV32a => sum32a_Hash
  | FNV64 => sum64_Hash | FNV64a => sum64a_Hash
  | FNV128 => sum128_Hash | FNV128a => sum128a_Hash
  end.

#[export] Instance library_laws (k : library_hash) : HashLaws (state_of k) :=
  match k with
  | ADLER32 => adler32_laws
  | CRC32 => crc32_laws
  | CRC64 => crc64_laws
  | FNV32 => sum32_laws | FNV32a => sum32a_laws
  | FNV64 => sum64_laws | FNV64a => sum64a_laws
  | FNV128 => sum128_laws | FNV128a => sum128a_laws
  end.

(** ** Properties *)

(** C21. Streaming and checkpoints, for Adler-32, CRC-32 and CRC-64 with any table of MakeTable, and the
    six FNV hashes. Whatever the cuts, a series of writes leaves the state and the byte count of one
    write of all the data; a state saved by MarshalBinary after some of the writes and restored by
    UnmarshalBinary into any other digest of the same function is the same state, so the
    remaining writes reach the same result; Sum appends exactly Size bytes to its argument. *)
Theorem checkpoint_resume (k : library_hash) (d d' : state_of k) chunks1 chunks2 b :
  hash_ok d -> hash_ok d' -> same d d' -> Forall bytes_ok chunks1 -> Forall bytes_ok chunks2 ->
  exists d1 n1 saved d2 n2,
    Write_all d chunks1 = Val (d1, n1)
    /\ MarshalBinary d1 = Val saved /\ UnmarshalBinary d' saved = Val (d1, None)
    /\ Write_all d1 chunks2 = Val (d2, n2)
    /\ Write d (concat chunks1 ++ concat chunks2) = Val (d2, n1 + n2)
    /\ (exists s, Sum d2 b = Val (b ++ s) /\ zlen s = Size d2)
    /\ Reset d2 = Reset d.
Proof.
  intros Hd Hd' Hs H1 H2. pose proof (bytes_ok_concat _ H1) as C1. pose proof (bytes_ok_concat _ H2) as C2.
  set (d1 := foldl step d (concat chunks1)). assert (Hd1 : hash_ok d1) by (by apply foldl_ok).
  assert (Hs1 : same d1 d') by (transitivity d; [symmetry; apply foldl_same|done]).
  destruct (unmarshal_law d1 d' Hd1 Hd' Hs1) as (saved & Em & Eu).
  exists d1, (zlen (concat chunks1)), saved, (foldl step d1 (concat chunks2)), (zlen (concat chunks2)).
  split; [by apply Write_all_law|]. split; [exact Em|]. split; [exact Eu|]. split; [by apply Write_all_law|].
  split; [rewrite Write_law by (done || by apply Forall_app); by rewrite foldl_app, zlen_app|].
  split; [destruct (Sum_law (foldl step d1 (concat chunks2))) as (s & Es & Ez); by exists s|]. symmetry. apply Reset_law.
  transitivity d1; apply foldl_same.
Qed.

Lemma checkpoint_resume_witness :
  exists d1 n1 saved d2 n2,
    Write_all (Crc32.New IEEETable : state_of CRC32) [[49; 50]; []; [51]] = Val (d1, n1)
    /\ MarshalBinary d1 = Val saved
    /\ UnmarshalBinary (Crc32.Digest 77 IEEETable : state_of CRC32) saved = Val (d1, None)
    /\ Write_all d1 [[52]] = Val (d2, n2)
    /\ Write (Crc32.New IEEETable : state_of CRC32) (concat [[49; 50]; []; [51]] ++ concat [[52]]) = Val (d2, n1 + n2)
    /\ (exists s, Sum d2 [7] = Val ([7] ++ s) /\ zlen s = Size d2)
    /\ Reset d2 = Reset (Crc32.New IEEETable : state_of CRC32).
Proof.
  apply (checkpoint_resume CRC32 (Crc32.New IEEETable) (Crc32.Digest 77 IEEETable) [[49; 50]; []; [51]] [[52]] [7]).
  - split; [by apply (bool_decide_unpack (is_uint 32 0))|exact I].
  - split; [by apply (bool_decide_unpack (is_uint 32 77))|exact I].
  - reflexivity.
  - by apply (bool_decide_unpack (Forall bytes_ok [[49; 50]; []; [51]])).
  - by apply (bool_decide_unpack (Forall bytes_ok [[52]])).
Defined.

(** UnmarshalBinary on arbitrary bytes, for the same hashes: it never panics; it either reports an
    error - a foreign magic, a wrong length, a different table - and leaves the digest as it was,
    or accepts, and then the bytes are exactly what MarshalBinary writes for the new state. *)
Theorem UnmarshalBinary_total (k : library_hash) (d : state_of k) b :
  hash_ok d -> bytes_ok b ->
  exists d' e, UnmarshalBinary d b = Val (d', e) /\
  match e with
  | Some _ => d' = d
  | None => hash_ok d' /\ same d d' /\ MarshalBinary d' = Val b
  end.
Proof.
  intros Hd Hb. destruct (unmarshal_any d b Hd Hb) as (d' & e & E & H). exists d', e. by destruct e.
Qed.

Lemma UnmarshalBinary_total_witness :
  exists d' e, UnmarshalBinary (New128 : state_of FNV128) [102; 110; 118; 5; 0] = Val (d', e) /\
  match e with
  | Some _ => d' = New128
  | None => hash_ok d' /\ same (New128 : state_of FNV128) d' /\ MarshalBinary d' = Val [102; 110; 118; 5; 0]
  end.
Proof.
  apply (UnmarshalBinary_total FNV128 New128 [102; 110; 118; 5; 0]).
  - split; by apply (bool_decide_unpack (is_uint 64 _)).
  - by apply (bool_decide_unpack (bytes_ok [102; 110; 118; 5; 0])).
Defined.
