(* ===== verification/Sort.v ===== *)
(** * sort

    Package sort (src/Source/Gold/sort/sort.go, search.go, slice.go, zfuncversion.go).  The
    algorithms see a collection only through Less and Swap, so they are written over these two
    operations; [Interface] is the Go interface, and [Ordered] the contract its comments state:
    Less is a strict weak order of the elements that the positions hold, Swap exchanges two of
    them.  An operation may panic outside of the bounds, so the theorems also show that every
    index is in range.  Stable sorting and the floating-point and string slices are left out. *)

From Stdlib Require Import Sorted.
From S2P Require Import Prelude.

Local Open Scope go_scope.

Class Interface (D : Type) : Type := {
  Len : D -> Z;
  Less : D -> Z -> Z -> outcome bool;
  Swap : D -> Z -> Z -> outcome D
}.

(** ** The algorithms *)

Section Algorithms.
Context {D : Type} (less : D -> Z -> Z -> outcome bool) (swap : D -> Z -> Z -> outcome D).

(** [for j := i; j > a && data.Less(j, j-1); j-- { data.Swap(j, j-1) }] *)
Fixpoint insert_loop (fuel : nat) (a j : Z) (data : D) : outcome D :=
  match fuel with
  | O => NoFuel
  | S fuel =>
      if a <? j then
        t ← less data j (j - 1);
        if t : bool then data ← swap data j (j - 1); insert_loop fuel a (j - 1) data
        else Val data
      else Val data
  end.

Definition insertionSort (data : D) (a b : Z) : outcome D :=
  for_up (a + 1) b (λ i data, insert_loop (S (Z.to_nat (i - a))) a i data) data.

(** The root moves down at every turn.  [2*root + 1] is the one sum here that can leave the range of an int: the other ones are positions of the collection. *)
Fixpoint siftDown_loop (fuel : nat) (hi first root : Z) (data : D) : outcome D :=
  match fuel with
  | O => NoFuel
  | S fuel =>
      let child := i64 (2 * root + 1) in
      if hi <=? child then Val data
      else
        right ← (if child + 1 <? hi then less data (first + child) (first + child + 1) else Val false);
        let child := if right : bool then child + 1 else child in
        t ← less data (first + root) (first + child);
        if negb t then Val data
        else data ← swap data (first + root) (first + child); siftDown_loop fuel hi first child data
  end.

Definition siftDown (data : D) (lo hi first : Z) : outcome D :=
  siftDown_loop (S (Z.to_nat hi)) hi first lo data.

Definition heapSort (data : D) (a b : Z) : outcome D :=
  let first := a in
  let lo := 0 in
  let hi := b - a in
  data ← for_down (Z.quot (hi - 1) 2) 0 (λ i data, siftDown data i hi first) data;
  for_down (hi - 1) 0 (λ i data,
    data ← swap data first (first + i); siftDown data lo i first) data.

Definition medianOfThree (data : D) (m1 m0 m2 : Z) : outcome D :=
  t ← less data m1 m0;
  data ← (if t : bool then swap data m1 m0 else Val data);
  t ← less data m2 m1;
  if t : bool then
    data ← swap data m2 m1;
    t ← less data m1 m0;
    if t : bool then swap data m1 m0 else Val data
  else Val data.

(** [int(uint(i+j) >> 1)] *)
Definition middle (i j : Z) : Z := i64 (u64 (i + j) >>. 1).

(** The partition around [data[pivot]]: [data[b]] is above and [data[c-1]] not above it at every swap. *)
Fixpoint partition_loop (fuel : nat) (pivot b c : Z) (data : D) : outcome (D * Z * Z) :=
  match fuel with
  | O => NoFuel
  | S fuel =>
      b ← scan_up b c (λ b, t ← less data pivot b; Val (negb t));
      c ← scan_down c b (λ c, less data pivot (c - 1));
      if c <=? b then Val (data, b, c)
      else data ← swap data b (c - 1); partition_loop fuel pivot (b + 1) (c - 1) data
  end.

(** Collecting the elements equal to the pivot at the end of the lower part. *)
Fixpoint protect_loop (fuel : nat) (pivot a b : Z) (data : D) : outcome (D * Z) :=
  match fuel with
  | O => NoFuel
  | S fuel =>
      b ← scan_down b a (λ b, t ← less data (b - 1) pivot; Val (negb t));
      a ← scan_up a b (λ a, less data a pivot);
      if b <=? a then Val (data, b)
      else data ← swap data a (b - 1); protect_loop fuel pivot (a + 1) (b - 1) data
  end.

(** Testing three points for equality to the pivot. *)
Definition count_dups (data : D) (pivot m hi b c : Z) : outcome (D * Z * Z * Z) :=
  t ← less data pivot (hi - 1);
  '(data, c, dups) ← (if negb t then data ← swap data c (hi - 1); Val (data, c + 1, 1) else Val (data, c, 0));
  t ← less data (b - 1) pivot;
  let '(b, dups) := if negb t then (b - 1, dups + 1) else (b, dups) in
  t ← less data m pivot;
  if negb t then data ← swap data m (b - 1); Val (data, b - 1, c, dups + 1)
  else Val (data, b, c, dups).

Definition doPivot (data : D) (lo hi : Z) : outcome (D * Z * Z) :=
  let m := middle lo hi in
  data ← (if 40 <? hi - lo then
            let s := Z.quot (hi - lo) 8 in
            data ← medianOfThree data lo (lo + s) (lo + 2 * s);
            data ← medianOfThree data m (m - s) (m + s);
            medianOfThree data (hi - 1) (hi - 1 - s) (hi - 1 - 2 * s)
          else Val data);
  data ← medianOfThree data lo m (hi - 1);
  let pivot := lo in
  let a := lo + 1 in
  let c := hi - 1 in
  a ← scan_up a c (λ a, less data a pivot);
  let b := a in
  '(data, b, c) ← partition_loop (S (Z.to_nat (c - b))) pivot b c data;
  let protect := hi - c <? 5 in
  '(data, b, c, protect) ←
    (if negb protect && (hi - c <? Z.quot (hi - lo) 4) then
       '(data, b, c, dups) ← count_dups data pivot m hi b c;
       Val (data, b, c, 1 <? dups)
     else Val (data, b, c, protect));
  '(data, b) ← (if protect : bool then protect_loop (S (Z.to_nat (b - a))) pivot a b data else Val (data, b));
  data ← swap data pivot (b - 1);
  Val (data, b - 1, c).

(** The tail of quickSort: a ShellSort pass with gap 6 for at most 12 elements. *)
Definition shortSort (data : D) (a b : Z) : outcome D :=
  if 1 <? b - a then
    data ← for_up (a + 6) b (λ i data,
      t ← less data i (i - 6);
      if t : bool then swap data i (i - 6) else Val data) data;
    insertionSort data a b
  else Val data.

(** [maxDepth] falls at every turn of the loop, which sorts the smaller part by recursion and
    goes on with the larger one. *)
Fixpoint quickSort_loop (maxDepth : nat) (data : D) (a b : Z) : outcome D :=
  if 12 <? b - a then
    match maxDepth with
    | O => heapSort data a b
    | S maxDepth =>
        '(data, mlo, mhi) ← doPivot data a b;
        if mlo - a <? b - mhi then
          data ← quickSort_loop maxDepth data a mlo;
          quickSort_loop maxDepth data mhi b
        else
          data ← quickSort_loop maxDepth data mhi b;
          quickSort_loop maxDepth data a mlo
    end
  else shortSort data a b.

Definition quickSort (data : D) (a b maxDepth : Z) : outcome D :=
  quickSort_loop (Z.to_nat maxDepth) data a b.

(** [for i := n - 1; i > 0; i-- { if Less(i, i-1) { return false } }] *)
Fixpoint sorted_loop (fuel : nat) (i : Z) (data : D) : outcome bool :=
  match fuel with
  | O => NoFuel
  | S fuel =>
      if 0 <? i then
        t ← less data i (i - 1);
        if t : bool then Val false else sorted_loop fuel (i - 1) data
      else Val true
  end.
End Algorithms.

Fixpoint depth_loop (fuel : nat) (i depth : Z) : outcome Z :=
  match fuel with
  | O => NoFuel
  | S fuel => if 0 <? i then depth_loop fuel (i >>. 1) (depth + 1) else Val depth
  end.

(** An int has 63 value bits. *)
Definition maxDepth (n : Z) : outcome Z := depth ← depth_loop 64 n 0; Val (depth * 2).

Definition Sort {D} `{Interface D} (data : D) : outcome D :=
  let n := Len data in
  depth ← maxDepth n;
  quickSort Less Swap data 0 n depth.

Definition IsSorted {D} `{Interface D} (data : D) : outcome bool :=
  let n := Len data in sorted_loop Less (S (Z.to_nat n)) (n - 1) data.

(** The embedded interface with the opposite Less. *)
Record reverse (D : Type) : Type := Reverse { Interface_ : D }.
Arguments Reverse {D} Interface_.
Arguments Interface_ {D} r.

#[local] Instance reverse_Interface {D} `{Interface D} : Interface (reverse D) := {
  Len r := Len (Interface_ r);
  Less r i j := Less (Interface_ r) j i;
  Swap r i j := Reverse <$> Swap (Interface_ r) i j }.

(** ** Slices of ints *)

Definition IntSlice : Type := list Z.
Definition IntSlice_Len (p : IntSlice) : Z := zlen p.
Definition IntSlice_Less (p : IntSlice) (i j : Z) : outcome bool :=
  x ← index p i; y ← index p j; Val (x <? y).
Definition IntSlice_Swap (p : IntSlice) (i j : Z) : outcome IntSlice :=
  x ← index p j; y ← index p i; p ← store p i x; store p j y.

#[export] Instance IntSlice_Interface : Interface IntSlice := {
  Len := IntSlice_Len; Less := IntSlice_Less; Swap := IntSlice_Swap }.

Definition Ints (a : list Z) : outcome (list Z) := Sort (a : IntSlice).
Definition IntsAreSorted (a : list Z) : outcome bool := IsSorted (a : IntSlice).

(** ** Binary search (search.go) *)

Fixpoint search_loop (fuel : nat) (f : Z -> outcome bool) (i j : Z) : outcome Z :=
  match fuel with
  | O => NoFuel
  | S fuel =>
      if i <? j then
        let h := middle i j in
        t ← f h;
        if negb t then search_loop fuel f (h + 1) j else search_loop fuel f i h
      else Val i
  end.

(** The interval of a search among fewer than 2^63 positions is empty after 64 halvings. *)
Definition Search (n : Z) (f : Z -> outcome bool) : outcome Z := search_loop 65 f 0 n.

Definition SearchInts (a : list Z) (x : Z) : outcome Z :=
  Search (zlen a) (λ i, y ← index a i; Val (x <=? y)).

(** ** The function version (zfuncversion.go, slice.go) *)

(** zfuncversion.go is generated from sort.go: the same code with the methods of a lessSwap. The
    closures act on the slice they were made for, here an explicit state. *)
Record lessSwap (D : Type) : Type := LessSwap {
  ls_Less : D -> Z -> Z -> outcome bool;
  ls_Swap : D -> Z -> Z -> outcome D }.
Arguments LessSwap {D} ls_Less ls_Swap.
Arguments ls_Less {D} l.
Arguments ls_Swap {D} l.

Section FuncVersion.
Context {D : Type} (ls : lessSwap D).
Definition insertionSort_func (data : D) (a b : Z) := insertionSort (ls_Less ls) (ls_Swap ls) data a b.
Definition siftDown_func (data : D) (lo hi first : Z) := siftDown (ls_Less ls) (ls_Swap ls) data lo hi first.
Definition heapSort_func (data : D) (a b : Z) := heapSort (ls_Less ls) (ls_Swap ls) data a b.
Definition medianOfThree_func (data : D) (m1 m0 m2 : Z) := medianOfThree (ls_Less ls) (ls_Swap ls) data m1 m0 m2.
Definition doPivot_func (data : D) (lo hi : Z) := doPivot (ls_Less ls) (ls_Swap ls) data lo hi.
Definition quickSort_func (data : D) (a b maxDepth : Z) := quickSort (ls_Less ls) (ls_Swap ls) data a b maxDepth.
End FuncVersion.

(** Slice on a []T: [swap] is what reflect.Swapper makes of the slice, which exchanges two elements
    and panics out of range; [less] is the caller's, on the current contents. *)
Definition slice_swap {T} (s : list T) (i j : Z) : outcome (list T) :=
  x ← index s i; y ← index s j; s ← store s i y; store s j x.

Definition Slice {T} (s : list T) (less : list T -> Z -> Z -> outcome bool) : outcome (list T) :=
  let length := zlen s in
  depth ← maxDepth length;
  quickSort_func (LessSwap less slice_swap) s 0 length depth.

Definition SliceIsSorted {T} (s : list T) (less : list T -> Z -> Z -> outcome bool) : outcome bool :=
  let n := zlen s in sorted_loop less (S (Z.to_nat n)) (n - 1) s.

Example Ints_sorts : Ints [5; 2; 9; -1; 5; 0; 7; 3; 3; 8; 1; 6; 4; 2; 10] = Val [-1; 0; 1; 2; 2; 3; 3; 4; 5; 5; 6; 7; 8; 9; 10].
Proof. by vm_compute. Qed.

(** ** Heap order

    Position [2p+1] and [2p+2] are below position [p]; [R x y] says that [x] may stand above [y].
    A heap with a hole at [r] is in order but for what [r] holds against its children. *)

Section HeapOrder.
Context {A : Type} (R : A -> A -> Prop) `{!Reflexive R} `{!Transitive R}.

Definition child (p i : Z) : Prop := i = 2 * p + 1 \/ i = 2 * p + 2.

Definition heap_from (lo n : Z) (f : Z -> A) : Prop :=
  forall p i, lo <= p -> child p i -> i < n -> R (f p) (f i).

Definition heap_hole (lo n r : Z) (f : Z -> A) : Prop :=
  (forall p i, lo <= p -> p <> r -> child p i -> i < n -> R (f p) (f i)) /\
  (forall p i, lo <= p -> child p r -> child r i -> i < n -> R (f p) (f i)).

Definition exchange (f : Z -> A) (i j k : Z) : A := if k =? i then f j else if k =? j then f i else f k.

Lemma heap_hole_start lo n f : 0 <= lo -> heap_from (lo + 1) n f -> heap_hole lo n lo f.
Proof.
  intros Hlo Hh. split; intros p i Hp.
  - intros Hpr Hi Hin. apply (Hh p i); [lia|done|done].
  - unfold child. intros. lia.
Qed.

(** The larger of the children moves up and the hole down. *)
Lemma heap_hole_step lo n r c f g : 0 <= lo <= r -> child r c -> c < n ->
  (forall k, 0 <= k < n -> g k = exchange f r c k) ->
  heap_hole lo n r f -> R (f c) (f r) -> (forall i, child r i -> i < n -> R (f c) (f i)) ->
  heap_hole lo n c g.
Proof.
  unfold heap_hole, child, exchange. intros Hlo Hc Hcn Hg [H1 H2] Hcr Hmax. split.
  - intros p i Hp Hpc Hi Hin. rewrite !Hg by lia.
    destruct (Z.eqb_spec p r) as [->|Hpr].
    + destruct (Z.eqb_spec i r); [lia|]. destruct (Z.eqb_spec i c); [done|]. by apply Hmax.
    + destruct (Z.eqb_spec p c); [lia|]. destruct (Z.eqb_spec i r) as [->|].
      * apply (H2 p c); done.
      * destruct (Z.eqb_spec i c); [lia|]. by apply H1.
  - intros p i Hp Hpc Hi Hin. assert (p = r) as -> by lia. rewrite !Hg by lia.
    rewrite Z.eqb_refl. destruct (Z.eqb_spec i r); [lia|]. destruct (Z.eqb_spec i c); [lia|].
    apply H1; lia.
Qed.

Lemma heap_hole_stop lo n r f : heap_hole lo n r f -> (forall i, child r i -> i < n -> R (f r) (f i)) ->
  heap_from lo n f.
Proof.
  intros [H1 _] Hr p i Hp Hi Hin. destruct (Z.eq_dec p r) as [->|]; [by apply Hr|by apply H1].
Qed.

(** The root stands above everything. *)
Lemma heap_root n f : heap_from 0 n f -> forall k, 0 <= k < n -> R (f 0) (f k).
Proof.
  intros Hh k Hk. assert (H0 : 0 <= k) by lia. revert Hk.
  apply (Z_lt_induction (λ k, 0 <= k < n -> R (f 0) (f k))); [|done].
  clear k H0. intros k IH Hk. destruct (Z.eq_dec k 0) as [->|]; [done|].
  transitivity (f ((k - 1) / 2)); [apply IH; dlia|]. apply Hh; unfold child; dlia.
Qed.
End HeapOrder.

(** ** The contract of Interface *)

(** [elem d k] is the element at position [k], [lt] the order that Less decides. *)
Class Ordered (D : Type) `{Interface D} (A : Type) : Type := {
  elem : D -> Z -> A;
  lt : A -> A -> bool;
  Len_nonneg : forall d : D, 0 <= Len d;
  Less_law : forall (d : D) i j, 0 <= i < Len d -> 0 <= j < Len d -> Less d i j = Val (lt (elem d i) (elem d j));
  Swap_law : forall (d : D) i j, 0 <= i < Len d -> 0 <= j < Len d ->
    exists d' : D, Swap d i j = Val d' /\ Len d' = Len d /\
    forall k, elem d' k = if k =? i then elem d j else if k =? j then elem d i else elem d k;
  lt_asym : forall x y, lt x y = true -> lt y x = false;
  lt_negtrans : forall x y z, lt y x = false -> lt z y = false -> lt z x = false
}.

Section Correctness.
Context {D A : Type} `{Ordered D A}.

(** [x] may stand before [y]. *)
Definition le (x y : A) : Prop := lt y x = false.

Lemma le_refl x : le x x.
Proof. unfold le. destruct (lt x x) eqn:E; [|done]. pose proof (lt_asym _ _ E). congruence. Qed.
Lemma le_trans x y z : le x y -> le y z -> le x z.
Proof. apply lt_negtrans. Qed.
Lemma lt_le x y : lt x y = true -> le x y.
Proof. apply lt_asym. Qed.

(** [d'] is [d] with the positions of [a, b) permuted. *)
Definition rearranged (a b : Z) (d d' : D) : Prop :=
  Len d' = Len d /\ exists pi : Z -> Z,
    (forall k, a <= k < b -> a <= pi k < b) /\ (forall k, ~ a <= k < b -> pi k = k)
    /\ (forall k l, pi k = pi l -> k = l) /\ forall k, elem d' k = elem d (pi k).

#[export] Instance rearranged_refl a b : Reflexive (rearranged a b).
Proof. intros d. split; [done|]. by exists (λ k, k). Qed.

#[export] Instance rearranged_trans a b : Transitive (rearranged a b).
Proof.
  intros d1 d2 d3 [L1 (p & P1 & P2 & P3 & P4)] [L2 (q & Q1 & Q2 & Q3 & Q4)]. split; [congruence|].
  exists (λ k, p (q k)). split_and!.
  - auto.
  - intros k Hk. rewrite Q2, P2 by done. done.
  - auto.
  - intros k. by rewrite Q4, P4.
Qed.

Lemma rearranged_mono a b a' b' d d' : a' <= a -> b <= b' -> rearranged a b d d' -> rearranged a' b' d d'.
Proof.
  intros Ha Hb [L (p & P1 & P2 & P3 & P4)]. split; [done|]. exists p. split_and!; [|intros; apply P2; lia|done..].
  intros k Hk. destruct (decide (a <= k < b)) as [Hi|Hi]; [specialize (P1 k Hi)|rewrite P2 by done]; lia.
Qed.

Lemma rearranged_out a b d d' k : rearranged a b d d' -> ~ a <= k < b -> elem d' k = elem d k.
Proof. intros [_ (p & _ & P2 & _ & P4)] Hk. by rewrite P4, P2. Qed.

(** A property of all the elements of a segment survives. *)
Lemma rearranged_all (P : A -> Prop) a b d d' : rearranged a b d d' ->
  (forall k, a <= k < b -> P (elem d k)) -> forall k, a <= k < b -> P (elem d' k).
Proof. intros [_ (p & P1 & _ & _ & P4)] HP k Hk. rewrite P4. apply HP. auto. Qed.

Lemma Less_ok d i j : 0 <= i < Len d -> 0 <= j < Len d -> Less d i j = Val (lt (elem d i) (elem d j)).
Proof. apply Less_law. Qed.

Lemma Swap_ok a b d i j : 0 <= a -> b <= Len d -> a <= i < b -> a <= j < b ->
  exists d', Swap d i j = Val d' /\ rearranged a b d d' /\
  forall k, elem d' k = if k =? i then elem d j else if k =? j then elem d i else elem d k.
Proof.
  intros Ha Hb Hi Hj. destruct (Swap_law d i j) as (d' & E & L & F); [lia..|].
  exists d'. split; [done|split; [|done]]. split; [done|].
  exists (λ k, if k =? i then j else if k =? j then i else k). split_and!.
  - intros k Hk. destruct (Z.eqb_spec k i), (Z.eqb_spec k j); lia.
  - intros k Hk. destruct (Z.eqb_spec k i), (Z.eqb_spec k j); lia.
  - intros k l. destruct (Z.eqb_spec k i), (Z.eqb_spec k j), (Z.eqb_spec l i), (Z.eqb_spec l j); lia.
  - intros k. rewrite F. by destruct (k =? i), (k =? j).
Qed.

(** Sorted from [a] to [b]. *)
Definition sorted (d : D) (a b : Z) : Prop := forall i j, a <= i -> i <= j -> j < b -> le (elem d i) (elem d j).

Lemma sorted_short d a b : b <= a + 1 -> sorted d a b.
Proof. intros Hab i j Hi Hij Hj. replace j with i by lia. apply le_refl. Qed.

Lemma sorted_steps d a b : (forall k, a < k < b -> le (elem d (k - 1)) (elem d k)) -> sorted d a b.
Proof.
  intros Hs i j Hi Hij Hj. replace j with (i + Z.of_nat (Z.to_nat (j - i))) in * by lia.
  set (n := Z.to_nat (j - i)) in *. clearbody n. induction n as [|n IH]; [rewrite Z.add_0_r; apply le_refl|].
  apply le_trans with (elem d (i + Z.of_nat n)); [apply IH; lia|].
  replace (i + Z.of_nat n) with (i + Z.of_nat (S n) - 1) by lia. apply Hs. lia.
Qed.

(** Sorted segments that follow one another. *)
Lemma sorted_app d a m b : sorted d a m -> sorted d m b ->
  (forall i j, a <= i < m -> m <= j < b -> le (elem d i) (elem d j)) -> sorted d a b.
Proof.
  intros H1 H2 H12 i j Hi Hij Hj. destruct (Z.lt_ge_cases i m), (Z.lt_ge_cases j m); [apply H1|apply H12|lia|apply H2]; lia.
Qed.

(** The state of a segment after a call: reached from [d], with its elements rearranged. *)
Definition sorts (a b : Z) (d : D) (r : outcome D) : Prop :=
  exists d', r = Val d' /\ rearranged a b d d' /\ sorted d' a b.

Ltac run := cbn [mbind outcome_bind].

(** ** Insertion sort *)

(** Element [j] is the one being inserted; without it the segment up to [i] is sorted. *)
Lemma insert_loop_spec fuel a i j d :
  0 <= a -> a <= j <= i -> i < Len d -> j - a < Z.of_nat fuel ->
  sorted d a j -> sorted d j (i + 1) ->
  (forall k l, a <= k < j -> j < l <= i -> le (elem d k) (elem d l)) ->
  sorts a (i + 1) d (insert_loop Less Swap fuel a j d).
Proof.
  intros Ha Hj Hi. revert j d Hj Hi. induction fuel as [|fuel IH]; intros j d Hj Hi Hf S1 S2 S12; [lia|].
  cbn [insert_loop]. destruct (Z.ltb_spec a j) as [Haj|Haj].
  2: { exists d. split_and!; [done|reflexivity|]. by replace a with j by lia. }
  rewrite Less_ok by lia. run. destruct (lt (elem d j) (elem d (j - 1))) eqn:E.
  - destruct (Swap_ok a (i + 1) d j (j - 1)) as (d1 & Es & R1 & F1); [lia..|]. rewrite Es. run.
    destruct (IH (j - 1) d1) as (d2 & E2 & R2 & S).
    + lia.
    + destruct R1 as [L1 _]. lia.
    + lia.
    + intros k l Hk Hkl Hl. rewrite !F1.
      destruct (Z.eqb_spec k j), (Z.eqb_spec k (j - 1)), (Z.eqb_spec l j), (Z.eqb_spec l (j - 1)); try lia. apply S1; lia.
    + intros k l Hk Hkl Hl. rewrite !F1.
      destruct (Z.eqb_spec k j), (Z.eqb_spec k (j - 1)), (Z.eqb_spec l j), (Z.eqb_spec l (j - 1)); try lia.
      * apply le_refl.
      * apply S12; lia.
      * by apply lt_le.
      * apply le_refl.
      * apply S2; lia.
      * apply S2; lia.
    + intros k l Hk Hl. rewrite !F1.
      destruct (Z.eqb_spec k j), (Z.eqb_spec k (j - 1)), (Z.eqb_spec l j), (Z.eqb_spec l (j - 1)); try lia.
      * apply S1; lia.
      * apply S12; lia.
    + exists d2. split; [done|split; [|done]]. by transitivity d1.
  - exists d. split_and!; [done|reflexivity|]. apply sorted_steps. intros k Hk.
    destruct (Z.lt_trichotomy k j) as [?|[->|?]]; [apply S1; lia|done|apply S2; lia].
Qed.

Lemma insertionSort_spec d a b : 0 <= a -> b <= Len d -> sorts a b d (insertionSort Less Swap d a b).
Proof.
  intros Ha Hb. unfold insertionSort. destruct (Z.le_gt_cases b (a + 1)) as [Hs|Hs].
  { exists d. unfold for_up. replace (Z.to_nat (b - (a + 1))) with O by lia.
    split_and!; [done|reflexivity|by apply sorted_short]. }
  destruct (for_up_inv (λ i d', rearranged a b d d' /\ sorted d' a i) (a + 1) b
    (λ i data, insert_loop Less Swap (S (Z.to_nat (i - a))) a i data) d) as (d' & E & R & S).
  - lia.
  - split; [reflexivity|apply sorted_short; lia].
  - intros i d1 Hi [R1 S1]. assert (L1 : Len d1 = Len d) by apply R1.
    destruct (insert_loop_spec (S (Z.to_nat (i - a))) a i i d1) as (d2 & E2 & R2 & S2);
      [lia..|done|apply sorted_short; lia|lia|].
    exists d2. split; [done|split; [|done]]. transitivity d1; [done|]. eapply rearranged_mono; [..|done]; lia.
  - by exists d'.
Qed.

(** ** Heap sort *)

(** The largest element is at the root of a heap of the positions from [first] on. *)
Definition above (x y : A) : Prop := le y x.
Definition shifted (d : D) (first k : Z) : A := elem d (first + k).

#[local] Instance above_refl : Reflexive above.
Proof. intros x. apply le_refl. Qed.
#[local] Instance above_trans : Transitive above.
Proof. intros x y z Hxy Hyz. unfold above in *. by apply le_trans with y. Qed.

Lemma siftDown_loop_spec fuel lo hi first root d :
  0 <= first -> first + hi <= Len d -> hi <= 2 ^ 62 -> root < 2 ^ 62 -> 0 <= lo <= root -> (Z.to_nat (hi - root) < fuel)%nat ->
  heap_hole above lo hi root (shifted d first) ->
  exists d', siftDown_loop Less Swap fuel hi first root d = Val d'
  /\ rearranged first (first + hi) d d' /\ heap_from above lo hi (shifted d' first).
Proof.
  intros Hf. revert root d. induction fuel as [|fuel IH]; intros root d Hl Hhi Hro Hr Hfu Hh; [lia|].
  cbn [siftDown_loop]. rewrite (swrap_small 64 (2 * root + 1)) by (unfold is_sint; lia). destruct (Z.leb_spec hi (2 * root + 1)) as [Hc|Hc].
  { exists d. split_and!; [done|reflexivity|]. apply (heap_hole_stop _ _ _ root); [done|]. unfold child. lia. }
  assert (Hright : exists right : bool,
    (if 2 * root + 1 + 1 <? hi then Less d (first + (2 * root + 1)) (first + (2 * root + 1) + 1) else Val false) = Val right
    /\ let c := if right then 2 * root + 1 + 1 else 2 * root + 1 in
       c < hi /\ forall i, child root i -> i < hi -> le (shifted d first i) (shifted d first c)).
  { unfold shifted, child. destruct (Z.ltb_spec (2 * root + 1 + 1) hi).
    - rewrite Less_ok by lia. eexists. split; [done|].
      destruct (lt (elem d (first + (2 * root + 1))) (elem d (first + (2 * root + 1) + 1))) eqn:E; cbv zeta; (split; [lia|]);
        intros i [-> | ->] Hi.
      + apply lt_le. by replace (first + (2 * root + 1 + 1)) with (first + (2 * root + 1) + 1) by lia.
      + replace (2 * root + 1 + 1) with (2 * root + 2) by lia. apply le_refl.
      + apply le_refl.
      + unfold le. by replace (first + (2 * root + 2)) with (first + (2 * root + 1) + 1) by lia.
    - exists false. split; [done|]. cbv zeta. split; [lia|]. intros i [-> | ->] Hi; [apply le_refl|lia]. }
  destruct Hright as (right & -> & Hcn & Hmax). run. cbv zeta in Hcn, Hmax.
  set (c := if right then 2 * root + 1 + 1 else 2 * root + 1) in *.
  assert (Hch : child root c) by (unfold c, child; destruct right; lia).
  assert (Hcr : root < c) by (unfold child in Hch; lia). clearbody c.
  rewrite Less_ok by lia. run. destruct (lt (elem d (first + root)) (elem d (first + c))) eqn:E; cbn [negb].
  2: { exists d. split_and!; [done|reflexivity|]. apply (heap_hole_stop _ _ _ root); [done|].
       intros i Hi Hin. unfold above. apply le_trans with (shifted d first c); [by apply Hmax|exact E]. }
  destruct (Swap_ok first (first + hi) d (first + root) (first + c)) as (d1 & Es & R1 & F1); [lia..|].
  rewrite Es. run. destruct (IH c d1) as (d2 & E2 & R2 & H2).
  - destruct R1 as [L1 _]. lia.
  - lia.
  - lia.
  - lia.
  - lia.
  - apply (heap_hole_step _ _ _ root c (shifted d first)); try done; try lia.
    + intros k Hk. unfold exchange, shifted. rewrite F1.
      destruct (Z.eqb_spec k root), (Z.eqb_spec (first + k) (first + root)); try lia;
        destruct (Z.eqb_spec k c), (Z.eqb_spec (first + k) (first + c)); try lia; done.
    + by apply lt_le.
  - exists d2. split; [done|split; [|done]]. by transitivity d1.
Qed.

Lemma siftDown_spec lo hi first d :
  0 <= first -> first + hi <= Len d -> hi <= 2 ^ 62 -> lo < 2 ^ 62 -> 0 <= lo -> heap_hole above lo hi lo (shifted d first) ->
  exists d', siftDown Less Swap d lo hi first = Val d'
  /\ rearranged first (first + hi) d d' /\ heap_from above lo hi (shifted d' first).
Proof. intros. apply siftDown_loop_spec; try done; lia. Qed.

Lemma heap_build d first hi : 0 <= first -> first + hi <= Len d -> 0 <= hi <= 2 ^ 62 ->
  exists d', for_down (Z.quot (hi - 1) 2) 0 (λ i data, siftDown Less Swap data i hi first) d = Val d'
  /\ rearranged first (first + hi) d d' /\ heap_from above 0 hi (shifted d' first).
Proof.
  intros Hf Hn Hh.
  destruct (for_down_inv (λ i d', rearranged first (first + hi) d d' /\ heap_from above (i + 1) hi (shifted d' first))
    (Z.quot (hi - 1) 2) 0 (λ i data, siftDown Less Swap data i hi first) d) as (d' & E & R & S).
  - destruct (Z.eq_dec hi 0) as [->|]; [done|]. pose proof (Z.quot_pos (hi - 1) 2). lia.
  - split; [reflexivity|]. intros p i Hp Hi Hin. unfold child in Hi. dlia.
  - intros i d1 Hi [R1 H1]. assert (L1 : Len d1 = Len d) by apply R1.
    destruct (siftDown_spec i hi first d1) as (d2 & E2 & R2 & H2); [done|lia|lia|dlia|lia|apply heap_hole_start; [lia|done]|].
    exists d2. split; [done|split; [by transitivity d1|]]. by replace (i - 1 + 1) with i by lia.
  - exists d'. split_and!; done.
Qed.

Lemma heapSort_spec d a b : 0 <= a <= b -> b <= Len d -> Len d <= 2 ^ 62 -> sorts a b d (heapSort Less Swap d a b).
Proof.
  intros Ha Hb HL. unfold heapSort. set (hi := b - a).
  destruct (heap_build d a hi) as (d1 & E1 & R1 & H1); [lia..|]. rewrite E1. run.
  replace (a + hi) with b in * by lia.
  destruct (for_down_inv (λ i d', rearranged a b d1 d' /\ heap_from above 0 (i + 1) (shifted d' a)
      /\ sorted d' (a + i + 1) b /\ (forall k l, a <= k <= a + i -> a + i < l < b -> le (elem d' k) (elem d' l)))
    (hi - 1) 0 (λ i data, data ← Swap data a (a + i); siftDown Less Swap data 0 i a) d1) as (d' & E & R & _ & S & _).
  - lia.
  - split_and!; [reflexivity|by replace (hi - 1 + 1) with hi by lia|apply sorted_short; lia|lia].
  - intros i d2 Hi (R2 & H2 & S2 & C2). assert (L2 : Len d2 = Len d) by (destruct R1, R2; congruence).
    destruct (Swap_ok a (a + i + 1) d2 a (a + i)) as (d3 & E3 & R3 & F3); [lia..|]. rewrite E3. run.
    assert (Hroot : forall k, a <= k <= a + i -> le (elem d2 k) (elem d2 a)).
    { intros k Hk. pose proof (heap_root above (i + 1) _ H2 (k - a) ltac:(lia)) as Hr.
      unfold above, shifted in Hr. rewrite Z.add_0_r in Hr. by replace (a + (k - a)) with k in Hr by lia. }
    destruct (siftDown_spec 0 i a d3) as (d4 & E4 & R4 & H4); [lia|destruct R3; lia|lia|lia|lia| |].
    { apply heap_hole_start; [lia|]. intros p j Hp Hj Hji. unfold child in Hj. unfold above, shifted. rewrite !F3.
      destruct (Z.eqb_spec (a + p) a), (Z.eqb_spec (a + p) (a + i)), (Z.eqb_spec (a + j) a), (Z.eqb_spec (a + j) (a + i));
        try lia. apply (H2 p j); unfold child; lia. }
    assert (F4 : forall k, a + i <= k -> elem d4 k = if k =? a + i then elem d2 a else elem d2 k).
    { intros k Hk. rewrite (rearranged_out _ _ _ _ k R4), F3 by lia.
      destruct (Z.eqb_spec k a), (Z.eqb_spec k (a + i)); try lia; try done. by replace (a + i) with a by lia. }
    assert (HU : forall u, (forall k, a <= k <= a + i -> le (elem d2 k) u) -> forall k, a <= k < a + i -> le (elem d4 k) u).
    { intros u Hu. apply (rearranged_all (λ x, le x u) a (a + i) d3 d4 R4).
      intros k Hk. apply (rearranged_all (λ x, le x u) a (a + i + 1) d2 d3 R3); [|lia]. intros l Hl. apply Hu. lia. }
    exists d4. split; [done|]. split_and!.
    + transitivity d2; [done|]. transitivity d3; [eapply rearranged_mono; [..|done]; lia|].
      eapply rearranged_mono; [..|done]; lia.
    + by replace (i - 1 + 1) with i by lia.
    + apply (sorted_app _ _ (a + i + 1)); [apply sorted_short; lia| |].
      * intros k l Hk Hkl Hl. rewrite !F4 by lia. destruct (Z.eqb_spec k (a + i)), (Z.eqb_spec l (a + i)); try lia. apply S2; lia.
      * intros k l Hk Hl. rewrite !F4 by lia. destruct (Z.eqb_spec k (a + i)), (Z.eqb_spec l (a + i)); try lia. apply C2; lia.
    + intros k l Hk Hl. rewrite (F4 l) by lia. destruct (Z.eqb_spec l (a + i)).
      * apply HU; [apply Hroot|lia].
      * apply HU; [intros; apply C2; lia|lia].
  - exists d'. split; [done|split; [by transitivity d1|]]. by replace (a + (0 - 1) + 1) with a in S by lia.
Qed.

(** ** Partitioning *)

Definition all (P : A -> Prop) (d : D) (a b : Z) : Prop := forall k, a <= k < b -> P (elem d k).

Lemma all_rearranged P a b d d' : rearranged a b d d' -> all P d a b -> all P d' a b.
Proof. intros R HP. exact (rearranged_all P a b d d' R HP). Qed.

Lemma all_outside P a b i j d d' : rearranged a b d d' -> j <= a \/ b <= i -> all P d i j -> all P d' i j.
Proof. intros R Hij HP k Hk. rewrite (rearranged_out a b d d') by (done || lia). by apply HP. Qed.

Lemma all_app P d a m b : all P d a m -> all P d m b -> all P d a b.
Proof. intros H1 H2 k Hk. destruct (Z.lt_ge_cases k m); [apply H1|apply H2]; lia. Qed.

Lemma all_sub P d a b a' b' : all P d a b -> a <= a' -> b' <= b -> all P d a' b'.
Proof. intros HP Ha Hb k Hk. apply HP. lia. Qed.

Lemma all_imp (P Q : A -> Prop) d a b : (forall x, P x -> Q x) -> all P d a b -> all Q d a b.
Proof. intros HPQ HP k Hk. by apply HPQ, HP. Qed.

Lemma rearranged_Len a b d d' : rearranged a b d d' -> Len d' = Len d.
Proof. by intros [? _]. Qed.

Lemma partition_loop_spec fuel pivot b c d :
  0 <= pivot < b -> b <= c -> c <= Len d -> (Z.to_nat (c - b) < fuel)%nat ->
  let P := elem d pivot in
  exists d' e, partition_loop Less Swap fuel pivot b c d = Val (d', e, e) /\ b <= e <= c
  /\ rearranged b c d d' /\ all (λ x, le x P) d' b e /\ all (λ x, lt P x = true) d' e c.
Proof.
  revert b c d. induction fuel as [|fuel IH]; intros b c d Hp Hbc Hc Hf P; [lia|]. cbn [partition_loop].
  destruct (scan_up_spec (λ k, negb (lt P (elem d k))) b c
    (λ b, t ← Less d pivot b; Val (negb t))) as (b1 & Eb & Hb1 & Hall & Hstop).
  { done. } { intros k Hk. rewrite Less_ok by lia. done. }
  rewrite Eb. run.
  destruct (scan_down_spec (λ k, lt P (elem d (k - 1))) c b1 (λ c, Less d pivot (c - 1))) as (c1 & Ec & Hc1 & Hall' & Hstop').
  { lia. } { intros k Hk. rewrite Less_ok by lia. done. }
  rewrite Ec. run.
  assert (Hlo : all (λ x, le x P) d b b1) by (intros k Hk; by apply negb_true_iff, Hall).
  assert (Hhi : all (λ x, lt P x = true) d c1 c).
  { intros k Hk. specialize (Hall' (k + 1) ltac:(lia)). by replace (k + 1 - 1) with k in Hall' by lia. }
  destruct (Z.leb_spec c1 b1) as [Hd|Hd].
  { replace c1 with b1 in * by lia. exists d, b1. split_and!; done || lia. }
  specialize (Hstop ltac:(lia)). specialize (Hstop' Hd). apply negb_false_iff in Hstop.
  assert (b1 <> c1 - 1) by congruence.
  destruct (Swap_ok b c d b1 (c1 - 1)) as (d1 & Es & R1 & F1); [lia..|]. rewrite Es. run.
  assert (HP : elem d1 pivot = P) by (apply (rearranged_out b c); [done|lia]).
  destruct (IH (b1 + 1) (c1 - 1) d1) as (d2 & e & E2 & He & R2 & L2 & H2);
    [lia|lia|rewrite (rearranged_Len _ _ _ _ R1); lia|lia|]. rewrite HP in L2, H2.
  exists d2, e. split; [done|]. split; [lia|]. split.
  { transitivity d1; [done|]. eapply rearranged_mono; [..|done]; lia. }
  assert (Hlo1 : all (λ x, le x P) d1 b (b1 + 1)).
  { intros k Hk. rewrite F1. destruct (Z.eqb_spec k b1), (Z.eqb_spec k (c1 - 1)); try lia; [exact Hstop'|apply Hlo; lia]. }
  assert (Hhi1 : all (λ x, lt P x = true) d1 (c1 - 1) c).
  { intros k Hk. rewrite F1. destruct (Z.eqb_spec k b1), (Z.eqb_spec k (c1 - 1)); try lia; [exact Hstop|apply Hhi; lia]. }
  split.
  - apply (all_app _ _ _ (b1 + 1)); [|done]. eapply all_outside; [done|lia|done].
  - apply (all_app _ _ _ (c1 - 1)); [done|]. eapply all_outside; [done|lia|done].
Qed.

Lemma protect_loop_spec fuel pivot a b d :
  0 <= pivot < a -> a <= b -> b <= Len d -> (Z.to_nat (b - a) < fuel)%nat ->
  let P := elem d pivot in
  exists d' e, protect_loop Less Swap fuel pivot a b d = Val (d', e) /\ a <= e <= b
  /\ rearranged a b d d' /\ all (λ x, le P x) d' e b.
Proof.
  revert a b d. induction fuel as [|fuel IH]; intros a b d Hp Hab Hb Hf P; [lia|]. cbn [protect_loop].
  destruct (scan_down_spec (λ k, negb (lt (elem d (k - 1)) P)) b a
    (λ b, t ← Less d (b - 1) pivot; Val (negb t))) as (b1 & Eb & Hb1 & Hall & Hstop).
  { done. } { intros k Hk. rewrite Less_ok by lia. done. }
  rewrite Eb. run.
  destruct (scan_up_spec (λ k, lt (elem d k) P) a b1 (λ a, Less d a pivot)) as (a1 & Ea & Ha1 & Hall' & Hstop').
  { lia. } { intros k Hk. rewrite Less_ok by lia. done. }
  rewrite Ea. run.
  assert (Hhi : all (λ x, le P x) d b1 b).
  { intros k Hk. specialize (Hall (k + 1) ltac:(lia)). replace (k + 1 - 1) with k in Hall by lia. by apply negb_true_iff. }
  destruct (Z.leb_spec b1 a1) as [Hd|Hd].
  { exists d, b1. split_and!; done || lia. }
  specialize (Hstop ltac:(lia)). specialize (Hstop' Hd). apply negb_false_iff in Hstop.
  assert (a1 <> b1 - 1) by congruence.
  destruct (Swap_ok a b d a1 (b1 - 1)) as (d1 & Es & R1 & F1); [lia..|]. rewrite Es. run.
  assert (HP : elem d1 pivot = P) by (apply (rearranged_out a b); [done|lia]).
  destruct (IH (a1 + 1) (b1 - 1) d1) as (d2 & e & E2 & He & R2 & H2);
    [lia|lia|rewrite (rearranged_Len _ _ _ _ R1); lia|lia|]. rewrite HP in H2.
  exists d2, e. split; [done|]. split; [lia|]. split.
  { transitivity d1; [done|]. eapply rearranged_mono; [..|done]; lia. }
  apply (all_app _ _ _ (b1 - 1)); [done|]. eapply all_outside; [done|lia|].
  intros k Hk. rewrite F1. destruct (Z.eqb_spec k a1), (Z.eqb_spec k (b1 - 1)); try lia; [exact Hstop'|apply Hhi; lia].
Qed.

Lemma medianOfThree_spec a b m1 m0 m2 d :
  0 <= a -> b <= Len d -> a <= m1 < b -> a <= m0 < b -> a <= m2 < b ->
  exists d', medianOfThree Less Swap d m1 m0 m2 = Val d' /\ rearranged a b d d' /\
  (m0 <> m1 -> m1 <> m2 -> m0 <> m2 -> le (elem d' m0) (elem d' m1) /\ le (elem d' m1) (elem d' m2)).
Proof.
  intros Ha Hb H1 H0' H2. unfold medianOfThree. rewrite Less_ok by lia. run.
  assert (Hfirst : exists d1, (if lt (elem d m1) (elem d m0) then Swap d m1 m0 else Val d) = Val d1
    /\ rearranged a b d d1 /\ (m0 <> m1 -> le (elem d1 m0) (elem d1 m1)) /\ forall k, k <> m0 -> k <> m1 -> elem d1 k = elem d k).
  { destruct (lt (elem d m1) (elem d m0)) eqn:E; [|by exists d].
    destruct (Swap_ok a b d m1 m0) as (d1 & Es & R1 & F1); [lia..|]. exists d1. split; [done|split; [done|]]. split.
    - intros Hne. rewrite !F1, Z.eqb_refl. destruct (Z.eqb_spec m0 m1); [lia|]. rewrite Z.eqb_refl. by apply lt_le.
    - intros k ? ?. rewrite F1. destruct (Z.eqb_spec k m1), (Z.eqb_spec k m0); done || lia. }
  destruct Hfirst as (d1 & -> & R1 & O1 & _). run. pose proof (rearranged_Len _ _ _ _ R1) as L1.
  rewrite Less_ok by lia. run. destruct (lt (elem d1 m2) (elem d1 m1)) eqn:E2.
  2: { exists d1. split; [done|split; [done|]]. intros. by split; [apply O1|]. }
  destruct (Swap_ok a b d1 m2 m1) as (d2 & Es2 & R2 & F2); [lia..|]. rewrite Es2. run.
  pose proof (rearranged_Len _ _ _ _ R2) as L2. rewrite Less_ok by lia. run.
  destruct (lt (elem d2 m1) (elem d2 m0)) eqn:E3.
  - destruct (Swap_ok a b d2 m1 m0) as (d3 & Es3 & R3 & F3); [lia..|]. exists d3.
    split; [done|split; [by transitivity d1; [|transitivity d2]|]]. intros Hn01 Hn12 Hn02. specialize (O1 Hn01).
    rewrite !F3, !F2 in *. repeat (rewrite Z.eqb_refl in * || rewrite (proj2 (Z.eqb_neq _ _)) in * by lia).
    split; [by apply lt_le|]. done.
  - exists d2. split; [done|split; [by transitivity d1|]]. intros Hn01 Hn12 Hn02. specialize (O1 Hn01). split; [exact E3|].
    rewrite !F2. repeat (rewrite Z.eqb_refl || rewrite (proj2 (Z.eqb_neq _ _)) by lia). by apply lt_le.
Qed.

(** The middle of two positions is computed without overflow. *)
Lemma middle_eq i j : 0 <= i <= j -> j < 2 ^ 63 -> middle i j = (i + j) / 2.
Proof.
  intros Hi Hj. unfold middle. rewrite wrap_small, Z.shiftr_div_pow2 by (unfold is_uint; lia).
  change (2 ^ 1) with 2. apply swrap_small. unfold is_sint. change (2 ^ (64 - 1)) with (2 ^ 63). dlia.
Qed.

(** A segment equal to [x] in the order. *)
Definition equal_to (x y : A) : Prop := le y x /\ le x y.

(** At least one step of the three tests moves [b] down, and only to elements that are equal. *)
Lemma count_dups_spec a pivot m hi b c d :
  0 <= pivot < a -> pivot < m < b - 1 -> a <= b -> b = c -> c < hi -> hi <= Len d ->
  let P := elem d pivot in
  all (λ x, lt x P = true) d (pivot + 1) a ->
  all (λ x, le x P) d a b -> all (λ x, le P x) d c hi ->
  exists d' b' c' n, count_dups Less Swap d pivot m hi b c = Val (d', b', c', n)
  /\ a <= b' <= b /\ c <= c' <= hi /\ rearranged a hi d d'
  /\ all (λ x, le x P) d' a b' /\ all (equal_to P) d' b' c' /\ all (λ x, le P x) d' c' hi.
Proof.
  intros Hp Hm Hab -> Hc Hhi P Hlt Hle Hge. unfold count_dups. rewrite Less_ok by lia. run.
  assert (Hfirst : exists d1 c1 n1,
    (if negb (lt (elem d pivot) (elem d (hi - 1))) then data ← Swap d c (hi - 1); Val (data, c + 1, 1)
     else Val (d, c, 0)) = Val (d1, c1, n1) /\ c <= c1 <= hi /\ rearranged c hi d d1
    /\ all (equal_to P) d1 c c1 /\ all (λ x, le P x) d1 c1 hi).
  { destruct (lt (elem d pivot) (elem d (hi - 1))) eqn:E; cbn [negb].
    - exists d, c, 0. split_and!; [done|lia|lia|reflexivity| |done]. intros k Hk. lia.
    - destruct (Swap_ok c hi d c (hi - 1)) as (d1 & Es & R1 & F1); [lia..|]. rewrite Es. run.
      exists d1, (c + 1), 1. split_and!; [done|lia|lia|done| |].
      + intros k Hk. replace k with c by lia. rewrite F1, Z.eqb_refl. split; [exact E|apply Hge; lia].
      + apply (all_sub _ _ c hi); [|lia|lia]. by apply (all_rearranged _ c hi d). }
  destruct Hfirst as (d1 & c1 & n1 & -> & Hc1 & R1 & Q1 & G1). run.
  pose proof (rearranged_Len _ _ _ _ R1) as L1.
  assert (HP1 : elem d1 pivot = P) by (apply (rearranged_out c hi); [done|lia]).
  assert (Hlt1 : all (λ x, lt x P = true) d1 (pivot + 1) a) by (eapply all_outside; [done|lia|done]).
  assert (Hle1 : all (λ x, le x P) d1 a c) by (eapply all_outside; [done|lia|done]).
  rewrite (Less_ok d1 (c - 1)), (Less_ok d1 m) by lia. run. rewrite HP1.
  (* an element that is not below the pivot lies at [a] or after it *)
  assert (Ha : forall k, pivot < k -> lt (elem d1 k) P = false -> a <= k).
  { intros k Hk E. destruct (Z.lt_ge_cases k a); [|done]. specialize (Hlt1 k ltac:(lia)). cbn in Hlt1. congruence. }
  set (b1 := if negb (lt (elem d1 (c - 1)) P) then c - 1 else c).
  assert (Hb1 : a <= b1 <= c /\ m < b1 /\ all (equal_to P) d1 b1 c).
  { unfold b1. destruct (lt (elem d1 (c - 1)) P) eqn:E; cbn [negb].
    - split_and!; try lia. intros k Hk. lia.
    - pose proof (Ha (c - 1) ltac:(lia) E). split_and!; try lia. intros k Hk. replace k with (c - 1) by lia.
      split; [apply Hle1; lia|exact E]. }
  destruct Hb1 as (Hab1 & Hmb1 & Q2).
  assert (E1 : exists n, (if negb (lt (elem d1 (c - 1)) P) then (c - 1, n1 + 1) else (c, n1)) = (b1, n))
    by (unfold b1; destruct (lt (elem d1 (c - 1)) P); by eexists).
  destruct E1 as (n2 & ->). run.
  destruct (lt (elem d1 m) P) eqn:E; cbn [negb].
  - exists d1, b1, c1, n2. split_and!; try done; try lia.
    + eapply rearranged_mono; [..|done]; lia.
    + apply (all_sub _ _ a c); done || lia.
    + by apply (all_app _ _ _ c).
  - pose proof (Ha m ltac:(lia) E).
    destruct (Swap_ok a b1 d1 m (b1 - 1)) as (d2 & Es & R2 & F2); [lia..|]. rewrite Es. run.
    exists d2, (b1 - 1), c1, (n2 + 1). split_and!; try done; try lia.
    + transitivity d1; (eapply rearranged_mono; [..|done]; lia).
    + apply (all_sub _ _ a b1); [|lia|lia]. apply (all_rearranged _ a b1 d1); [done|]. apply (all_sub _ _ a c); done || lia.
    + apply (all_app _ _ _ b1).
      * intros k Hk. replace k with (b1 - 1) by lia. rewrite F2.
        assert (Heq : equal_to P (elem d1 m)) by (split; [apply Hle1; lia|exact E]).
        destruct (Z.eqb_spec (b1 - 1) m) as [Hq|]; [by rewrite Hq|]. by rewrite Z.eqb_refl.
      * eapply all_outside; [done|lia|]. by apply (all_app _ _ _ c).
    + eapply all_outside; [done|lia|done].
Qed.

(** The three parts that doPivot leaves. *)
Definition pivoted (d : D) (lo mlo mhi hi : Z) : Prop :=
  exists P, all (λ x, le x P) d lo mlo /\ all (equal_to P) d mlo mhi /\ all (λ x, le P x) d mhi hi.

(** Choosing the pivot only moves elements around, and leaves one not below it at the end. *)
Lemma choose_pivot lo hi d : 0 <= lo -> 12 < hi - lo -> hi <= Len d ->
  let m := (lo + hi) / 2 in
  exists d', (data ← (if 40 <? hi - lo then
            let s := Z.quot (hi - lo) 8 in
            data ← medianOfThree Less Swap d lo (lo + s) (lo + 2 * s);
            data ← medianOfThree Less Swap data m (m - s) (m + s);
            medianOfThree Less Swap data (hi - 1) (hi - 1 - s) (hi - 1 - 2 * s)
          else Val d);
     medianOfThree Less Swap data lo m (hi - 1)) = Val d'
  /\ rearranged lo hi d d' /\ le (elem d' lo) (elem d' (hi - 1)).
Proof.
  intros Hlo Hn Hhi m. assert (Hm : lo < m < hi - 1) by (unfold m; dlia).
  assert (Hninther : exists d1, (if 40 <? hi - lo then
      let s := Z.quot (hi - lo) 8 in
      data ← medianOfThree Less Swap d lo (lo + s) (lo + 2 * s);
      data ← medianOfThree Less Swap data m (m - s) (m + s);
      medianOfThree Less Swap data (hi - 1) (hi - 1 - s) (hi - 1 - 2 * s)
    else Val d) = Val d1 /\ rearranged lo hi d d1).
  { destruct (Z.ltb_spec 40 (hi - lo)); [|by exists d]. cbv zeta. set (s := Z.quot (hi - lo) 8).
    assert (Hs : 0 < s /\ lo + 2 * s < hi /\ lo <= m - s /\ m + s < hi) by (unfold s, m; dlia).
    destruct (medianOfThree_spec lo hi lo (lo + s) (lo + 2 * s) d) as (d1 & -> & R1 & _); [lia..|]. run.
    pose proof (rearranged_Len _ _ _ _ R1).
    destruct (medianOfThree_spec lo hi m (m - s) (m + s) d1) as (d2 & -> & R2 & _); [lia..|]. run.
    pose proof (rearranged_Len _ _ _ _ R2).
    destruct (medianOfThree_spec lo hi (hi - 1) (hi - 1 - s) (hi - 1 - 2 * s) d2) as (d3 & -> & R3 & _); [lia..|].
    exists d3. split; [done|]. transitivity d2; [|done]. by transitivity d1. }
  destruct Hninther as (d1 & -> & R1). run. pose proof (rearranged_Len _ _ _ _ R1).
  destruct (medianOfThree_spec lo hi lo m (hi - 1) d1) as (d2 & -> & R2 & O2); [lia..|].
  exists d2. split; [done|split; [by transitivity d1|]]. apply O2; lia.
Qed.

Lemma doPivot_spec lo hi d : 0 <= lo -> 12 < hi - lo -> hi <= Len d -> Len d < 2 ^ 63 ->
  exists d' mlo mhi, doPivot Less Swap d lo hi = Val (d', mlo, mhi)
  /\ lo <= mlo /\ mlo < mhi <= hi /\ rearranged lo hi d d' /\ pivoted d' lo mlo mhi hi.
Proof.
  intros Hlo Hn Hhi HL. unfold doPivot. rewrite middle_eq by lia. cbv zeta.
  set (m := (lo + hi) / 2).
  destruct (choose_pivot lo hi d Hlo Hn Hhi) as (d0 & E0 & R0 & O0). fold m in E0.
  destruct (if 40 <? hi - lo then _ else _) as [dn| |]; [|done..]. cbn [mbind outcome_bind] in E0 |- *.
  rewrite E0. run. pose proof (rearranged_Len _ _ _ _ R0) as L0. set (P := elem d0 lo).
  destruct (scan_up_spec (λ k, lt (elem d0 k) P) (lo + 1) (hi - 1) (λ a, Less d0 a lo)) as (a & Ea & Ha & Hlt & _).
  { lia. } { intros k Hk. rewrite Less_ok by lia. done. }
  rewrite Ea. run.
  destruct (partition_loop_spec (S (Z.to_nat (hi - 1 - a))) lo a (hi - 1) d0) as (d1 & e & Ep & He & R1 & Lo1 & Hi1); [lia..|].
  fold P in Lo1, Hi1. rewrite Ep. run. pose proof (rearranged_Len _ _ _ _ R1) as L1.
  assert (HP1 : elem d1 lo = P) by (apply (rearranged_out a (hi - 1)); [done|lia]).
  assert (Hlt1 : all (λ x, lt x P = true) d1 (lo + 1) a) by (eapply all_outside; [done|lia|exact Hlt]).
  assert (Hge1 : all (λ x, le P x) d1 e hi).
  { apply (all_app _ _ _ (hi - 1)); [eapply all_imp; [|exact Hi1]; by apply lt_le|].
    eapply all_outside; [done|lia|]. intros k Hk. by replace k with (hi - 1) by lia. }
  (* the test for duplicates keeps the three parts *)
  assert (Hdup : exists d2 b2 c2 protect,
    (if negb (hi - e <? 5) && (hi - e <? Z.quot (hi - lo) 4) then
       '(data, b, c, dups) ← count_dups Less Swap d1 lo m hi e e; Val (data, b, c, 1 <? dups)
     else Val (d1, e, e, hi - e <? 5)) = Val (d2, b2, c2, protect)
    /\ a <= b2 <= e /\ e <= c2 <= hi /\ rearranged a hi d1 d2
    /\ all (λ x, le x P) d2 a b2 /\ all (equal_to P) d2 b2 c2 /\ all (λ x, le P x) d2 c2 hi).
  { destruct (negb (hi - e <? 5) && (hi - e <? Z.quot (hi - lo) 4)) eqn:Et.
    - apply andb_true_iff in Et as [_ Et]. apply Z.ltb_lt in Et.
      assert (Hm : lo < m < e - 1) by (unfold m; dlia).
      destruct (count_dups_spec a lo m hi e e d1) as (d2 & b2 & c2 & n & E2 & Hb2 & Hc2 & R2 & A2 & B2 & C2);
        try done; try lia; rewrite ?HP1 in *; try done.
      rewrite E2. run. exists d2, b2, c2, (1 <? n). split_and!; done || lia.
    - exists d1, e, e, (hi - e <? 5). split_and!; try done; try lia. intros k Hk. lia. }
  destruct Hdup as (d2 & b2 & c2 & protect & -> & Hb2 & Hc2 & R2 & Lo2 & Eq2 & Hi2). run.
  pose proof (rearranged_Len _ _ _ _ R2) as L2.
  assert (HP2 : elem d2 lo = P) by (rewrite <- HP1; apply (rearranged_out a hi); [done|lia]).
  (* so does collecting the duplicates *)
  assert (Hprot : exists d3 b3,
    (if protect then protect_loop Less Swap (S (Z.to_nat (b2 - a))) lo a b2 d2 else Val (d2, b2)) = Val (d3, b3)
    /\ a <= b3 <= b2 /\ rearranged a b2 d2 d3 /\ all (λ x, le x P) d3 a b3 /\ all (equal_to P) d3 b3 b2).
  { destruct protect.
    - destruct (protect_loop_spec (S (Z.to_nat (b2 - a))) lo a b2 d2) as (d3 & b3 & E3 & Hb3 & R3 & Q3); [lia..|].
      rewrite HP2 in Q3. exists d3, b3. split_and!; try done; try lia.
      + apply (all_sub _ _ a b2); [by apply (all_rearranged _ a b2 d2)|lia|lia].
      + intros k Hk. split; [apply (all_rearranged (λ x, le x P) a b2 d2 d3 R3 Lo2); lia|by apply Q3].
    - exists d2, b2. split_and!; try done; try lia. intros k Hk. lia. }
  destruct Hprot as (d3 & b3 & -> & Hb3 & R3 & Lo3 & Eq3). run.
  pose proof (rearranged_Len _ _ _ _ R3) as L3.
  assert (HP3 : elem d3 lo = P) by (rewrite <- HP2; apply (rearranged_out a b2); [done|lia]).
  destruct (Swap_ok lo b3 d3 lo (b3 - 1)) as (d4 & Es & R4 & F4); [lia..|]. rewrite Es. run.
  exists d4, (b3 - 1), c2. split; [done|]. split; [lia|]. split; [lia|]. split.
  - transitivity d0; [done|]. transitivity d1; [eapply rearranged_mono; [..|done]; lia|].
    transitivity d2; [eapply rearranged_mono; [..|done]; lia|].
    transitivity d3; [eapply rearranged_mono; [..|exact R3]; lia|eapply rearranged_mono; [..|exact R4]; lia].
  - assert (Lo3' : all (λ x, le x P) d3 lo b3).
    { apply (all_app _ _ _ a); [|done]. intros k Hk. destruct (Z.eq_dec k lo) as [->|]; [rewrite HP3; apply le_refl|].
      rewrite (rearranged_out _ _ _ _ k R3), (rearranged_out _ _ _ _ k R2) by lia. apply lt_le, Hlt1. lia. }
    exists P. split_and!.
    + apply (all_sub _ _ lo b3); [by apply (all_rearranged _ lo b3 d3)|lia|lia].
    + apply (all_app _ _ _ b3).
      * intros k Hk. replace k with (b3 - 1) by lia. rewrite F4.
        assert (equal_to P P) by (split; apply le_refl).
        destruct (Z.eqb_spec (b3 - 1) lo) as [Hq|]; [by rewrite Hq, HP3|].
        rewrite Z.eqb_refl. by rewrite HP3.
      * eapply all_outside; [done|lia|]. apply (all_app _ _ _ b2); [done|]. eapply all_outside; [done|lia|done].
    + eapply all_outside; [done|lia|]. eapply all_outside; [done|lia|done].
Qed.

(** ** Quick sort *)

Lemma shortSort_spec d a b : 0 <= a -> b <= Len d -> sorts a b d (shortSort Less Swap d a b).
Proof.
  intros Ha Hb. unfold shortSort. destruct (Z.ltb_spec 1 (b - a)) as [Hn|Hn].
  2: { exists d. split_and!; [done|reflexivity|apply sorted_short; lia]. }
  set (pass := λ i data, t ← Less data i (i - 6); if t : bool then Swap data i (i - 6) else Val data).
  assert (Hpass : exists d1, for_up (a + 6) b pass d = Val d1 /\ rearranged a b d d1).
  { destruct (Z.le_gt_cases b (a + 6)) as [Hs|Hs].
    { exists d. unfold for_up. replace (Z.to_nat (b - (a + 6))) with O by lia. done. }
    destruct (for_up_inv (λ _ d', rearranged a b d d') (a + 6) b pass d) as (d1 & E1 & R1); [lia|done| |by exists d1].
    intros i d1 Hi R1. pose proof (rearranged_Len _ _ _ _ R1). unfold pass. rewrite Less_ok by lia. run.
    destruct (lt _ _); [|by exists d1]. destruct (Swap_ok a b d1 i (i - 6)) as (d2 & E2 & R2 & _); [lia..|].
    exists d2. split; [done|by transitivity d1]. }
  destruct Hpass as (d1 & -> & R1). run. pose proof (rearranged_Len _ _ _ _ R1).
  destruct (insertionSort_spec d1 a b) as (d2 & E2 & R2 & S2); [lia..|].
  exists d2. split; [done|split; [by transitivity d1|done]].
Qed.

(** Sorting either outer part keeps the partition. *)
Lemma pivoted_rearranged d d' lo mlo mhi hi a b :
  pivoted d lo mlo mhi hi -> a = lo /\ b = mlo \/ a = mhi /\ b = hi -> lo <= mlo -> mlo <= mhi -> mhi <= hi ->
  rearranged a b d d' -> pivoted d' lo mlo mhi hi.
Proof.
  intros (P & H1 & H2 & H3) Hab Hl Hm Hh R. exists P.
  destruct Hab as [[-> ->]|[-> ->]]; split_and!; (by eapply all_rearranged) || (eapply all_outside; [done|lia|done]).
Qed.

Lemma pivoted_sorted d lo mlo mhi hi : pivoted d lo mlo mhi hi -> lo <= mlo -> mlo <= mhi -> mhi <= hi ->
  sorted d lo mlo -> sorted d mhi hi -> sorted d lo hi.
Proof.
  intros (P & H1 & H2 & H3) Hl Hm Hh S1 S3.
  assert (H2' : all (λ x, le x P) d mlo mhi) by (eapply all_imp; [|exact H2]; by intros x [? ?]).
  assert (H2'' : all (λ x, le P x) d mlo mhi) by (eapply all_imp; [|exact H2]; by intros x [? ?]).
  apply (sorted_app _ _ mhi); [|done|].
  - apply (sorted_app _ _ mlo); [done| |].
    + intros i j Hi Hij Hj. apply le_trans with P; [apply H2'|apply H2'']; lia.
    + intros i j Hi Hj. apply le_trans with P; [apply H1|apply H2'']; lia.
  - intros i j Hi Hj. apply le_trans with P; [|apply H3; lia].
    destruct (Z.lt_ge_cases i mlo); [apply H1|apply H2']; lia.
Qed.

Lemma quickSort_loop_spec depth a b d : 0 <= a <= b -> b <= Len d -> Len d <= 2 ^ 62 ->
  sorts a b d (quickSort_loop Less Swap depth d a b).
Proof.
  revert a b d. induction depth as [|depth IH]; intros a b d Ha Hb HL; cbn [quickSort_loop];
    (destruct (Z.ltb_spec 12 (b - a)) as [Hn|Hn]; [|apply shortSort_spec; lia]); [by apply heapSort_spec|].
  destruct (doPivot_spec a b d) as (d1 & mlo & mhi & -> & Hlo & Hhi & R1 & Hp); [lia..|]. run.
  pose proof (rearranged_Len _ _ _ _ R1) as L1.
  destruct (mlo - a <? b - mhi).
  - destruct (IH a mlo d1) as (d2 & -> & R2 & S2); [lia..|]. run. pose proof (rearranged_Len _ _ _ _ R2) as L2.
    destruct (IH mhi b d2) as (d3 & -> & R3 & S3); [lia..|].
    assert (Hp2 : pivoted d2 a mlo mhi b) by (eapply (pivoted_rearranged d1); [done|by left|lia..|done]).
    assert (Hp3 : pivoted d3 a mlo mhi b) by (eapply (pivoted_rearranged d2); [done|by right|lia..|done]).
    exists d3. split; [done|split].
    + transitivity d1; [done|]. transitivity d2; [eapply rearranged_mono; [..|exact R2]; lia|eapply rearranged_mono; [..|exact R3]; lia].
    + eapply pivoted_sorted; [done|lia..| |done]. intros i j Hi Hij Hj.
      rewrite !(rearranged_out _ _ _ _ _ R3) by lia. by apply S2.
  - destruct (IH mhi b d1) as (d2 & -> & R2 & S2); [lia..|]. run. pose proof (rearranged_Len _ _ _ _ R2) as L2.
    destruct (IH a mlo d2) as (d3 & -> & R3 & S3); [lia..|].
    assert (Hp2 : pivoted d2 a mlo mhi b) by (eapply (pivoted_rearranged d1); [done|by right|lia..|done]).
    assert (Hp3 : pivoted d3 a mlo mhi b) by (eapply (pivoted_rearranged d2); [done|by left|lia..|done]).
    exists d3. split; [done|split].
    + transitivity d1; [done|]. transitivity d2; [eapply rearranged_mono; [..|exact R2]; lia|eapply rearranged_mono; [..|exact R3]; lia].
    + eapply pivoted_sorted; [done|lia..|done|]. intros i j Hi Hij Hj.
      rewrite !(rearranged_out _ _ _ _ _ R3) by lia. by apply S2.
Qed.

(** ** The elements as a list *)

Definition elems (d : D) : list A := map (elem d) (seqZ 0 (Len d)).

Lemma rearranged_elems d d' : rearranged 0 (Len d) d d' -> elems d' ≡ₚ elems d.
Proof.
  intros [L (p & P1 & P2 & P3 & P4)]. unfold elems. rewrite L.
  replace (map (elem d') (seqZ 0 (Len d))) with (map (elem d) (map p (seqZ 0 (Len d)))).
  2: { rewrite map_map. apply map_ext. intros k. by rewrite P4. }
  apply Permutation_map, Permutation.NoDup_Permutation_bis.
  - apply NoDup_ListNoDup, NoDup_fmap_2; [|apply NoDup_seqZ]. intros x y. apply P3.
  - by rewrite length_map.
  - intros k Hk. apply in_map_iff in Hk as (i & <- & Hi). apply list_elem_of_In, elem_of_seqZ in Hi.
    apply list_elem_of_In, elem_of_seqZ. specialize (P1 i). lia.
Qed.

Lemma sorted_loop_spec fuel i d : i < Len d -> (Z.to_nat i < fuel)%nat ->
  exists r, sorted_loop Less fuel i d = Val r /\ (r = true <-> sorted d 0 (i + 1)).
Proof.
  revert i. induction fuel as [|fuel IH]; intros i Hi Hf; [lia|]. cbn [sorted_loop].
  destruct (Z.ltb_spec 0 i) as [H0i|H0i].
  2: { exists true. split; [done|]. split; [|done]. intros _. apply sorted_short. lia. }
  rewrite Less_ok by lia. run. destruct (lt (elem d i) (elem d (i - 1))) eqn:E.
  - exists false. split; [done|]. split; [done|]. intros S. specialize (S (i - 1) i ltac:(lia) ltac:(lia) ltac:(lia)).
    unfold le in S. congruence.
  - destruct (IH (i - 1)) as (r & Er & Hr); [lia..|]. exists r. split; [done|]. rewrite Hr.
    replace (i - 1 + 1) with i by lia. split; intros S.
    + apply sorted_steps. intros k Hk. destruct (Z.eq_dec k i) as [->|]; [exact E|apply S; lia].
    + intros k l Hk Hkl Hl. apply S; lia.
Qed.
End Correctness.

(** ** The recursion limit *)

(** 2 * ceil(lg(n+1)) *)
Lemma depth_loop_spec fuel i depth : 0 <= i < 2 ^ (Z.of_nat fuel - 1) ->
  depth_loop fuel i depth = Val (depth + if i =? 0 then 0 else Z.log2 i + 1).
Proof.
  revert i depth. induction fuel as [|fuel IH]; intros i depth Hi.
  { rewrite Z.pow_neg_r in Hi by lia. lia. }
  cbn [depth_loop]. destruct (Z.ltb_spec 0 i) as [H0i|H0i].
  2: { replace i with 0 by lia. cbn [Z.eqb]. f_equal. lia. }
  rewrite Z.shiftr_div_pow2 by lia. change (2 ^ 1) with 2.
  destruct (decide (fuel = O)) as [->|Hfu]; [change (2 ^ (Z.of_nat 1 - 1)) with 1 in Hi; lia|].
  replace (Z.of_nat (S fuel) - 1) with (Z.succ (Z.of_nat fuel - 1)) in Hi by lia.
  rewrite Z.pow_succ_r in Hi by lia. rewrite IH by dlia. f_equal.
  destruct (Z.eqb_spec i 0); [lia|]. destruct (Z.eqb_spec (i / 2) 0).
  - replace i with 1 by dlia. change (Z.log2 1) with 0. lia.
  - assert (Hlog : Z.log2 i = Z.log2 (i / 2) + 1); [|lia].
    change 2 with (2 ^ 1). rewrite <- Z.shiftr_div_pow2, Z.log2_shiftr by lia.
    assert (1 <= Z.log2 i) by (apply Z.log2_le_pow2; dlia). lia.
Qed.

Lemma maxDepth_spec n : 0 <= n < 2 ^ 63 -> maxDepth n = Val (2 * if n =? 0 then 0 else Z.log2 n + 1).
Proof. intros Hn. unfold maxDepth. rewrite depth_loop_spec by (change (Z.of_nat 64 - 1) with 63; lia). cbn [mbind outcome_bind]. f_equal. lia. Qed.

(** ** Sort over any collection *)

Section SortSpec.
Context {D A : Type} `{Ordered D A}.

Lemma Sort_sorted d : Len d <= 2 ^ 62 ->
  exists d', Sort d = Val d' /\ rearranged 0 (Len d) d d' /\ sorted d' 0 (Len d).
Proof.
  intros HL. pose proof (Len_nonneg d). unfold Sort. rewrite maxDepth_spec by lia. cbn [mbind outcome_bind].
  apply quickSort_loop_spec; lia.
Qed.

Lemma IsSorted_spec d : exists r, IsSorted d = Val r /\ (r = true <-> sorted d 0 (Len d)).
Proof.
  pose proof (Len_nonneg d). unfold IsSorted.
  destruct (sorted_loop_spec (S (Z.to_nat (Len d))) (Len d - 1) d) as (r & E & Hr); [lia..|].
  exists r. split; [done|]. by replace (Len d - 1 + 1) with (Len d) in Hr by lia.
Qed.

(** Reverse meets the contract with the order turned around. *)
#[local] Program Instance reverse_Ordered : Ordered (reverse D) A := {
  elem r := elem (Interface_ r); lt x y := lt y x }.
Next Obligation. intros [d]. cbn. apply (Len_nonneg d). Qed.
Next Obligation. intros [d] i j Hi Hj. cbn in *. by apply (Less_law d). Qed.
Next Obligation.
  intros [d] i j Hi Hj. destruct (Swap_law d i j Hi Hj) as (d' & E & L & F).
  exists (Reverse d'). split; [cbn; by rewrite E|done].
Qed.
Next Obligation. intros x y. cbn. apply (lt_asym y x). Qed.
Next Obligation. intros x y z Hxy Hyz. cbn in *. by apply (lt_negtrans z y x). Qed.
End SortSpec.
#[local] Existing Instance reverse_Ordered.

(** ** Slices *)

Section Slices.
Context {T : Type} `{Inhabited T}.

(** The element at a position, and the type's zero value outside of the slice. *)
Definition slice_elem (s : list T) (k : Z) : T := if decide (0 <= k) then s !!! Z.to_nat k else inhabitant.

Lemma index_elem s i : 0 <= i < zlen s -> index s i = Val (slice_elem s i).
Proof.
  intros Hi. unfold slice_elem. rewrite decide_True by lia. apply index_Val; [lia|].
  apply list_lookup_lookup_total_lt. lia.
Qed.

Lemma slice_elem_insert (s : list T) i x k : 0 <= i < zlen s ->
  slice_elem (<[Z.to_nat i := x]> s) k = if k =? i then x else slice_elem s k.
Proof.
  intros Hi. unfold slice_elem. destruct (decide (0 <= k)), (Z.eqb_spec k i) as [->|]; try done; try lia.
  - apply list_lookup_total_insert_eq. lia.
  - apply list_lookup_total_insert_ne. lia.
Qed.

(** Two stores of the elements read before exchange them. *)
Lemma exchange_stores (s : list T) i j : 0 <= i < zlen s -> 0 <= j < zlen s ->
  exists s', (s1 ← store s i (slice_elem s j); store s1 j (slice_elem s i)) = Val s' /\ length s' = length s /\
  forall k, slice_elem s' k = if k =? i then slice_elem s j else if k =? j then slice_elem s i else slice_elem s k.
Proof.
  intros Hi Hj. rewrite store_lt by done. cbn [mbind outcome_bind]. rewrite store_lt by (by rewrite length_insert).
  eexists. split; [done|]. split; [by rewrite !length_insert|]. intros k.
  rewrite !slice_elem_insert by (rewrite ?length_insert; lia).
  destruct (Z.eqb_spec k i) as [Hki|], (Z.eqb_spec k j) as [Hkj|]; try done. congruence.
Qed.

Lemma elem_list (s : list T) : map (slice_elem s) (seqZ 0 (zlen s)) = s.
Proof.
  apply list_eq. intros i. rewrite list_lookup_fmap. destruct (decide (i < length s)%nat) as [Hi|Hi].
  - rewrite lookup_seqZ_lt by lia. cbn [fmap option_fmap option_map]. unfold slice_elem. rewrite decide_True by lia.
    rewrite Z.add_0_l, Nat2Z.id. symmetry. by apply list_lookup_lookup_total_lt.
  - rewrite lookup_seqZ_ge, lookup_ge_None_2 by lia. done.
Qed.

(** Sorted by position is sorted as a list. *)
Lemma sorted_list (R : T -> T -> Prop) (s : list T) :
  (forall i j, 0 <= i -> i <= j -> j < zlen s -> R (slice_elem s i) (slice_elem s j)) ->
  StronglySorted R s.
Proof.
  intros Hs. assert (H' : forall i j x y, (i < j)%nat -> s !! i = Some x -> s !! j = Some y -> R x y).
  { intros i j x y Hij Hx Hy. pose proof (lookup_lt_Some _ _ _ Hy) as Hj.
    specialize (Hs (Z.of_nat i) (Z.of_nat j) ltac:(lia) ltac:(lia) ltac:(lia)). unfold slice_elem in Hs.
    rewrite !decide_True, !Nat2Z.id in Hs by lia.
    by rewrite (list_lookup_total_correct _ _ _ Hx), (list_lookup_total_correct _ _ _ Hy) in Hs. }
  clear Hs. induction s as [|x s IH]; [constructor|]. constructor.
  - apply IH. intros i j y z Hij Hy Hz. apply (H' (S i) (S j)); [lia|done|done].
  - apply List.Forall_forall. intros y Hy. apply list_elem_of_In, list_elem_of_lookup in Hy as [i Hi].
    apply (H' O (S i)); [lia|done|done].
Qed.
End Slices.

#[export] Program Instance IntSlice_Ordered : Ordered IntSlice Z := {
  elem := slice_elem; lt := Z.ltb }.
Next Obligation. intros p. cbn. unfold IntSlice_Len. lia. Qed.
Next Obligation.
  intros p i j Hi Hj. cbn in *. unfold IntSlice_Len, IntSlice_Less in *. by rewrite !index_elem.
Qed.
Next Obligation.
  intros p i j Hi Hj. cbn in *. unfold IntSlice_Len, IntSlice_Swap in *. rewrite !index_elem by done.
  destruct (exchange_stores p i j Hi Hj) as (p' & E & L & F). exists p'.
  split; [exact E|split; [by rewrite L|exact F]].
Qed.
Next Obligation. intros x y. cbn. lia. Qed.
Next Obligation. intros x y z. cbn. lia. Qed.

(** ** Binary search *)

(** The bounds of a search among the positions of [0, n). *)
Lemma search_loop_spec (p : Z -> bool) f n fuel i j :
  (forall k, 0 <= k < n -> f k = Val (p k)) -> 0 <= i <= j -> j <= n -> n < 2 ^ 63 ->
  j - i < 2 ^ (Z.of_nat fuel - 1) ->
  (0 < i -> p (i - 1) = false) -> (j < n -> p j = true) ->
  exists r, search_loop fuel f i j = Val r /\ i <= r <= j /\ (0 < r -> p (r - 1) = false) /\ (r < n -> p r = true).
Proof.
  intros Hf. revert i j. induction fuel as [|fuel IH]; intros i j Hij Hj Hn Hfu Hlo Hhi.
  { rewrite Z.pow_neg_r in Hfu by lia. lia. }
  cbn [search_loop]. destruct (Z.ltb_spec i j) as [Hlt|Hge].
  2: { exists i. replace j with i in * by lia. split_and!; done || lia. }
  rewrite middle_eq by lia. set (h := (i + j) / 2). assert (Hh : i <= h < j) by (unfold h; dlia).
  rewrite Hf by lia. cbn [mbind outcome_bind].
  destruct (decide (fuel = O)) as [->|Hne]; [change (2 ^ (Z.of_nat 1 - 1)) with 1 in Hfu; lia|].
  replace (Z.of_nat (S fuel) - 1) with (Z.succ (Z.of_nat fuel - 1)) in Hfu by lia. rewrite Z.pow_succ_r in Hfu by lia.
  destruct (p h) eqn:E; cbn [negb].
  - assert (h - i < 2 ^ (Z.of_nat fuel - 1)) by (unfold h in *; dlia).
    destruct (IH i h) as (r & Er & Hr & H1 & H2); try done; try lia. exists r. split_and!; done || lia.
  - assert (j - (h + 1) < 2 ^ (Z.of_nat fuel - 1)) by (unfold h in *; dlia).
    assert (E' : p (h + 1 - 1) = false) by (by replace (h + 1 - 1) with h by lia).
    destruct (IH (h + 1) j) as (r & Er & Hr & H1 & H2); try done; try lia. exists r. split_and!; done || lia.
Qed.

Lemma Search_spec (p : Z -> bool) f n : 0 <= n < 2 ^ 63 -> (forall k, 0 <= k < n -> f k = Val (p k)) ->
  exists r, Search n f = Val r /\ 0 <= r <= n /\ (0 < r -> p (r - 1) = false) /\ (r < n -> p r = true).
Proof. intros Hn Hf. apply (search_loop_spec p); done || lia. Qed.

(** ** Properties *)

(** C7. Sort sorts any collection that meets the contract of Interface, Reverse of one included: for
    a collection of at most 2^62 elements (from there on heapSort's [2*root + 1] wraps) it needs no more fuel than it has, asks and
    swaps only positions within bounds, and returns with the elements permuted and in order -
    no element before a smaller one - which IsSorted then confirms; and IsSorted on any collection
    returns true exactly when it is in order. *)
Theorem Sort_sorts {D A : Type} `{Ordered D A} (data : D) :
  Len data <= 2 ^ 62 ->
  (exists data', Sort data = Val data' /\ elems data' ≡ₚ elems data
     /\ (forall i j, 0 <= i -> i <= j -> j < Len data -> lt (elem data' j) (elem data' i) = false)
     /\ IsSorted data' = Val true)
  /\ exists r, IsSorted data = Val r
     /\ (r = true <-> forall i j, 0 <= i -> i <= j -> j < Len data -> lt (elem data j) (elem data i) = false).
Proof.
  intros HL. split; [|apply IsSorted_spec]. destruct (Sort_sorted data HL) as (d' & E & R & S).
  exists d'. split; [done|split; [by apply rearranged_elems|split; [exact S|]]].
  destruct (IsSorted_spec d') as (r & Er & Hr). rewrite Er. f_equal. apply Hr.
  by rewrite (rearranged_Len _ _ _ _ R).
Qed.

(** Three elements, to be sorted in decreasing order. *)
Definition three_reversed : reverse IntSlice := Reverse ([2; 7; 1] : IntSlice).

Lemma Sort_sorts_witness :
  (exists data', Sort three_reversed = Val data' /\ elems data' ≡ₚ elems three_reversed
     /\ (forall i j, 0 <= i -> i <= j -> j < Len three_reversed -> lt (D := reverse IntSlice) (elem data' j) (elem data' i) = false)
     /\ IsSorted data' = Val true)
  /\ exists r, IsSorted three_reversed = Val r
     /\ (r = true <-> forall i j, 0 <= i -> i <= j -> j < Len three_reversed ->
           lt (D := reverse IntSlice) (elem three_reversed j) (elem three_reversed i) = false).
Proof. apply (Sort_sorts three_reversed). change (3 <= 2 ^ 62). lia. Defined.

(** Sorting and searching ints: Ints returns a permutation of the slice in increasing order,
    IntsAreSorted accepts it, and SearchInts in it returns, for any x, the first position whose
    element is at least x, or the length. *)
Theorem Ints_SearchInts (a : list Z) (x : Z) :
  zlen a <= 2 ^ 62 ->
  exists a' i, Ints a = Val a' /\ a' ≡ₚ a /\ StronglySorted Z.le a' /\ IntsAreSorted a' = Val true
  /\ SearchInts a' x = Val i /\ 0 <= i <= zlen a
  /\ Forall (λ y, y < x) (take (Z.to_nat i) a') /\ Forall (λ y, x <= y) (drop (Z.to_nat i) a').
Proof.
  intros HL. destruct (@Sort_sorted IntSlice Z IntSlice_Interface IntSlice_Ordered a HL) as (a' & E & R & S).
  pose proof (rearranged_Len _ _ _ _ R) as L. cbn in L. unfold IntSlice_Len in L.
  assert (Hle : forall i j, 0 <= i -> i <= j -> j < zlen a' -> slice_elem a' i <= slice_elem a' j).
  { intros i j Hi Hij Hj. rewrite L in Hj. specialize (S i j Hi Hij Hj). unfold le in S. cbn in S. lia. }
  destruct (Search_spec (λ k, x <=? slice_elem a' k) (λ i, y ← index a' i; Val (x <=? y)) (zlen a')) as (i & Es & Hi & H1 & H2).
  { lia. } { intros k Hk. by rewrite index_elem. }
  assert (Hat : forall k y, a' !! k = Some y -> y = slice_elem a' (Z.of_nat k)).
  { intros k y Hk. unfold slice_elem. rewrite decide_True, Nat2Z.id by lia. by rewrite (list_lookup_total_correct _ _ _ Hk). }
  exists a', i. split; [exact E|]. split; [|split; [by apply sorted_list|split; [|split; [exact Es|split; [lia|]]]]].
  - apply rearranged_elems in R. unfold elems in R. cbn in R. unfold IntSlice_Len in R. by rewrite !elem_list in R.
  - destruct (@IsSorted_spec IntSlice Z IntSlice_Interface IntSlice_Ordered a') as (r & Er & Hr). unfold IntsAreSorted. rewrite Er. f_equal. apply Hr.
    cbn. unfold IntSlice_Len. rewrite L. exact S.
  - split; apply Forall_lookup; intros k y Hk.
    + apply lookup_take_Some in Hk as [Hk Hki]. rewrite (Hat _ _ Hk). specialize (H1 ltac:(lia)). apply Z.leb_gt in H1.
      pose proof (Hle (Z.of_nat k) (i - 1)). lia.
    + rewrite lookup_drop in Hk. rewrite (Hat _ _ Hk). pose proof (lookup_lt_Some _ _ _ Hk).
      specialize (H2 ltac:(lia)). apply Z.leb_le in H2. pose proof (Hle i (Z.of_nat (Z.to_nat i + k))). lia.
Qed.

Lemma Ints_SearchInts_witness : exists a' i, Ints [5; 2; 9; 2] = Val a' /\ a' ≡ₚ [5; 2; 9; 2] /\ StronglySorted Z.le a'
  /\ IntsAreSorted a' = Val true /\ SearchInts a' 4 = Val i /\ 0 <= i <= 4
  /\ Forall (λ y, y < 4) (take (Z.to_nat i) a') /\ Forall (λ y, 4 <= y) (drop (Z.to_nat i) a').
Proof. apply (Ints_SearchInts [5; 2; 9; 2] 4). by vm_compute. Defined.

(** Search on an arbitrary predicate: it asks only about positions below n, ends, and returns an
    i at which the predicate turns from false (before i, unless i is 0) to true (at i, unless i
    is n); for a predicate that is true from some position on, that is the first such position. *)
Theorem Search_boundary (p : Z -> bool) f n :
  0 <= n < 2 ^ 63 -> (forall k, 0 <= k < n -> f k = Val (p k)) ->
  exists i, Search n f = Val i /\ 0 <= i <= n
  /\ (0 < i -> p (i - 1) = false) /\ (i < n -> p i = true)
  /\ ((forall j k, 0 <= j <= k -> k < n -> p j = true -> p k = true) ->
      forall k, 0 <= k < n -> p k = (i <=? k)).
Proof.
  intros Hn Hf. destruct (Search_spec p f n Hn Hf) as (i & E & Hi & H1 & H2). exists i.
  split; [done|split; [done|split; [done|split; [done|]]]]. intros Hm k Hk. destruct (Z.leb_spec i k) as [Hik|Hik].
  - apply (Hm i k); [lia|lia|apply H2; lia].
  - destruct (p k) eqn:Ek; [|done]. rewrite <- (Hm k (i - 1)); [by rewrite H1 by lia|lia|lia|done].
Qed.

Lemma Search_boundary_witness : exists i, Search 100 (λ k, Val (37 <=? k * k)) = Val i /\ 0 <= i <= 100
  /\ (0 < i -> (37 <=? (i - 1) * (i - 1)) = false) /\ (i < 100 -> (37 <=? i * i) = true)
  /\ ((forall j k, 0 <= j <= k -> k < 100 -> (37 <=? j * j) = true -> (37 <=? k * k) = true) ->
      forall k, 0 <= k < 100 -> (37 <=? k * k) = (i <=? k)).
Proof. apply (Search_boundary (λ k, 37 <=? k * k)); [lia|]. intros k Hk. reflexivity. Defined.

(** sort.Slice: for a less function that decides a strict weak order [ltT] of the elements at the
    two positions of the current slice, Slice returns a permutation of the slice in that order
    and SliceIsSorted accepts it, with no access out of range. *)
Theorem Slice_sorts {T : Type} `{Inhabited T} (s : list T) less (ltT : T -> T -> bool) :
  zlen s <= 2 ^ 62 ->
  (forall s i j x y, s !! Z.to_nat i = Some x -> s !! Z.to_nat j = Some y -> 0 <= i -> 0 <= j -> less s i j = Val (ltT x y)) ->
  (forall x y, ltT x y = true -> ltT y x = false) ->
  (forall x y z, ltT y x = false -> ltT z y = false -> ltT z x = false) ->
  exists s', Slice s less = Val s' /\ s' ≡ₚ s /\ StronglySorted (λ x y, ltT y x = false) s'
  /\ SliceIsSorted s' less = Val true.
Proof.
  intros HL Hless Has Hnt.
  set (I := {| Len := λ s : list T, zlen s; Less := less; Swap := slice_swap |} : Interface (list T)).
  unshelve epose (O := {| elem := slice_elem; lt := ltT |} : Ordered (list T) T).
  - cbn. lia.
  - intros d i j Hi Hj. cbn in *. unfold slice_elem. rewrite !decide_True by lia.
    apply Hless; try lia; apply list_lookup_lookup_total_lt; lia.
  - intros d i j Hi Hj. cbn in *. unfold slice_swap. rewrite !index_elem by done.
    destruct (exchange_stores d i j Hi Hj) as (d' & E & L & F). exists d'. split; [exact E|split; [by rewrite L|exact F]].
  - exact Has.
  - exact Hnt.
  - destruct (@Sort_sorted (list T) T I O s HL) as (s' & E & R & S). pose proof (rearranged_Len _ _ _ _ R) as L. cbn in L.
    exists s'. split; [exact E|split; [|split]].
    + apply rearranged_elems in R. unfold elems in R. cbn in R. by rewrite !elem_list in R.
    + apply sorted_list. intros i j Hi Hij Hj. rewrite L in Hj. exact (S i j Hi Hij Hj).
    + destruct (@IsSorted_spec (list T) T I O s') as (r & Er & Hr). transitivity (@IsSorted (list T) I s'); [done|]. rewrite Er. f_equal. apply Hr.
      cbn. rewrite L. exact S.
Qed.

(** Pairs by their first component. *)
Lemma Slice_sorts_witness :
  let less := λ (s : list (Z * Z)) i j, x ← index s i; y ← index s j; Val (fst x <? fst y) in
  exists s', Slice [(3, 1); (1, 2); (2, 0)] less = Val s' /\ s' ≡ₚ [(3, 1); (1, 2); (2, 0)]
  /\ StronglySorted (λ x y : Z * Z, (fst y <? fst x) = false) s' /\ SliceIsSorted s' less = Val true.
Proof.
  cbv zeta. apply (Slice_sorts [(3, 1); (1, 2); (2, 0)] _ (λ x y, fst x <? fst y)).
  - by vm_compute.
  - intros s i j x y Hx Hy Hi Hj. rewrite (index_Val s i x), (index_Val s j y) by done. reflexivity.
  - intros x y. lia.
  - intros x y z. lia.
Defined.
