(* ===== verification/Heap.v ===== *)
(** * container/heap

    Binary heaps over any collection (src/Source/Gold/container/heap/heap.go): the interface of
    sort extended by Push and Pop at the end, and the five operations of the package.  The least
    element is at position 0; heap order is that of file Sort. *)

From Stdlib Require Import Sorted.
From S2P Require Import Prelude Sort.

(** sort.Interface, Push ("add x as element Len()") and Pop ("remove and return element Len() - 1"). *)
Class HeapInterface (D X : Type) : Type := {
  heap_Interface :: Interface D;
  ext_Push : D -> X -> outcome D;
  ext_Pop : D -> outcome (D * X)
}.

Section Operations.
Context {D X : Type} `{HeapInterface D X}.

Fixpoint up_loop (fuel : nat) (j : Z) (h : D) : outcome D :=
  match fuel with
  | O => NoFuel
  | S fuel =>
      let i := Z.quot (j - 1) 2 in
      if i =? j then Val h
      else
        t ← Less h j i;
        if negb t then Val h
        else h ← Swap h i j; up_loop fuel i h
  end.

Definition up (h : D) (j : Z) : outcome D := up_loop (S (Z.to_nat j)) j h.

(** The state and the final position. The test [j1 < 0] catches the overflow of [2*i + 1]. *)
Fixpoint down_loop (fuel : nat) (i n : Z) (h : D) : outcome (D * Z) :=
  match fuel with
  | O => NoFuel
  | S fuel =>
      let j1 := i64 (2 * i + 1) in
      if (n <=? j1) || (j1 <? 0) then Val (h, i)
      else
        let j2 := j1 + 1 in
        right ← (if j2 <? n then Less h j2 j1 else Val false);
        let j := if right : bool then j2 else j1 in
        t ← Less h j i;
        if negb t then Val (h, i)
        else h ← Swap h i j; down_loop fuel j n h
  end.

Definition down (h : D) (i0 n : Z) : outcome (D * bool) :=
  '(h, i) ← down_loop (S (Z.to_nat n)) i0 n h; Val (h, i0 <? i).

Definition Init (h : D) : outcome D :=
  let n := Len h in
  for_down (Z.quot n 2 - 1) 0 (λ i h, '(h, _) ← down h i n; Val h) h.

Definition Push (h : D) (x : X) : outcome D :=
  h ← ext_Push h x; up h (Len h - 1).

Definition Pop (h : D) : outcome (D * X) :=
  let n := Len h - 1 in
  h ← Swap h 0 n;
  '(h, _) ← down h 0 n;
  ext_Pop h.

Definition Remove (h : D) (i : Z) : outcome (D * X) :=
  let n := Len h - 1 in
  h ← (if negb (n =? i) then
         h ← Swap h i n;
         '(h, moved) ← down h i n;
         if negb moved then up h i else Val h
       else Val h);
  ext_Pop h.

Definition Fix_ (h : D) (i : Z) : outcome D :=
  '(h, moved) ← down h i (Len h);
  if negb moved then up h i else Val h.
End Operations.

(** ** Heap order with a hole that may have to move up *)

Section HeapHoles.
Context {A : Type} (R : A -> A -> Prop) `{!Reflexive R} `{!Transitive R}.

(** In order but for position [j] against what is above it, or on both sides. *)
Definition heap_hole_up (n j : Z) (f : Z -> A) : Prop :=
  (forall p i, 0 <= p -> i <> j -> child p i -> i < n -> R (f p) (f i)) /\
  (forall p i, 0 <= p -> child p j -> child j i -> i < n -> R (f p) (f i)).
Definition heap_hole_both (n r : Z) (f : Z -> A) : Prop :=
  (forall p i, 0 <= p -> p <> r -> i <> r -> child p i -> i < n -> R (f p) (f i)) /\
  (forall p i, 0 <= p -> child p r -> child r i -> i < n -> R (f p) (f i)).

Lemma heap_hole_up_step n j i f g : child i j -> 0 <= i -> j < n ->
  (forall k, 0 <= k < n -> g k = exchange f i j k) ->
  heap_hole_up n j f -> R (f j) (f i) -> heap_hole_up n i g.
Proof.
  unfold heap_hole_up, child, exchange. intros Hc Hi Hj Hg [H1 H2] Hlt. split.
  - intros p k Hp Hki Hk Hkn. rewrite !Hg by lia. destruct (Z.eqb_spec k i); [lia|].
    destruct (Z.eqb_spec p i) as [->|Hpi].
    + destruct (Z.eqb_spec k j) as [->|]; [done|]. transitivity (f i); [done|]. apply H1; lia.
    + destruct (Z.eqb_spec p j) as [->|]; [|destruct (Z.eqb_spec k j); [lia|apply H1; lia]].
      destruct (Z.eqb_spec k j); [lia|]. apply (H2 i k); lia.
  - intros p k Hp Hpi Hk Hkn. rewrite !Hg by lia.
    destruct (Z.eqb_spec p i); [lia|]. destruct (Z.eqb_spec p j); [lia|]. destruct (Z.eqb_spec k i); [lia|].
    destruct (Z.eqb_spec k j) as [->|]; [apply H1; lia|]. transitivity (f i); apply H1; lia.
Qed.

Lemma heap_hole_up_stop n j f : heap_hole_up n j f -> (forall i, 0 <= i -> child i j -> R (f i) (f j)) ->
  heap_from R 0 n f.
Proof.
  intros [H1 _] Hj p i Hp Hi Hin. destruct (Z.eq_dec i j) as [->|]; [by apply Hj|by apply H1].
Qed.

(** A hole on both sides is one above once it is in order with its children, ... *)
Lemma heap_hole_both_up n r f : heap_hole_both n r f -> (forall i, child r i -> i < n -> R (f r) (f i)) ->
  heap_hole_up n r f.
Proof.
  intros [H1 H2] Hr. split; [|done]. intros p i Hp Hir Hi Hin.
  destruct (Z.eq_dec p r) as [->|]; [by apply Hr|by apply H1].
Qed.

(** ... and one below once a child has moved up. *)
Lemma heap_hole_both_step n r c f g : 0 <= r -> child r c -> c < n ->
  (forall k, 0 <= k < n -> g k = exchange f r c k) ->
  heap_hole_both n r f -> R (f c) (f r) -> (forall i, child r i -> i < n -> R (f c) (f i)) ->
  heap_hole R 0 n c g.
Proof.
  unfold heap_hole_both, heap_hole, child, exchange. intros Hr Hc Hcn Hg [H1 H2] Hcr Hmin. split.
  - intros p i Hp Hpc Hi Hin. rewrite !Hg by lia.
    destruct (Z.eqb_spec p r) as [->|Hpr].
    + destruct (Z.eqb_spec i r); [lia|]. destruct (Z.eqb_spec i c); [done|]. by apply Hmin.
    + destruct (Z.eqb_spec p c); [lia|]. destruct (Z.eqb_spec i r) as [->|]; [apply (H2 p c); done|].
      destruct (Z.eqb_spec i c); [lia|]. apply H1; done.
  - intros p i Hp Hpc Hi Hin. assert (p = r) as -> by lia. rewrite !Hg by lia.
    rewrite Z.eqb_refl. destruct (Z.eqb_spec i r); [lia|]. destruct (Z.eqb_spec i c); [lia|]. apply H1; lia.
Qed.

(** Changing one element of a heap leaves a hole on both sides. *)
Lemma heap_hole_both_start n r f g : 0 <= r -> heap_from R 0 n f -> r < n ->
  (forall k, 0 <= k < n -> k <> r -> g k = f k) -> heap_hole_both n r g.
Proof.
  unfold heap_hole_both, child. intros Hr Hh Hrn Hg. split; intros p i Hp.
  - intros Hpr Hir Hi Hin. rewrite !Hg by lia. by apply Hh.
  - intros Hpr Hri Hin. rewrite !Hg by lia. transitivity (f r); apply Hh; unfold child; lia.
Qed.
End HeapHoles.

(** ** The contract and the operations *)

Class HeapOrdered (D A : Type) `{HeapInterface D A} : Type := {
  heap_Ordered :: Ordered D A;
  Push_law : forall (d : D) (x : A), exists d' : D, ext_Push d x = Val d' /\ Len d' = Len d + 1 /\ elem d' (Len d) = x
    /\ forall k, 0 <= k < Len d -> elem d' k = elem d k;
  Pop_law : forall d : D, 0 < Len d -> exists d' : D, ext_Pop d = Val (d', elem d (Len d - 1)) /\ Len d' = Len d - 1
    /\ forall k, 0 <= k < Len d' -> elem d' k = elem d k
}.

Section HeapCorrectness.
Context {D A : Type} `{HeapOrdered D A}.

Local Abbreviation leD := (le (D := D) (A := A)).
Local Abbreviation ltD := (lt (D := D) (A := A)).

Ltac run := cbn [mbind outcome_bind].

#[local] Instance le_reflexive : Reflexive leD.
Proof. intros x. apply le_refl. Qed.
#[local] Instance le_transitive : Transitive leD.
Proof. intros x y z. apply le_trans. Qed.

(** The collection is a heap: no element is below its parent. *)
Definition is_heap (h : D) : Prop := heap_from leD 0 (Len h) (elem h).

Lemma exchange_elem (d d' : D) i j n : (forall k, elem d' k = if k =? i then elem d j else if k =? j then elem d i else elem d k) ->
  forall k, 0 <= k < n -> elem d' k = exchange (elem d) i j k.
Proof. intros F k _. apply F. Qed.

(** The smaller child of [i], as [down] chooses it. *)
Lemma smaller_child i n (d : D) : 0 <= i -> 2 * i + 1 < n -> n <= Len d ->
  exists right : bool, (if 2 * i + 1 + 1 <? n then Less d (2 * i + 1 + 1) (2 * i + 1) else Val false) = Val right
  /\ let c := if right then 2 * i + 1 + 1 else 2 * i + 1 in
     c < n /\ child i c /\ forall k, child i k -> k < n -> leD (elem d c) (elem d k).
Proof.
  intros Hi Hc Hn. unfold child. destruct (Z.ltb_spec (2 * i + 1 + 1) n).
  - rewrite Less_ok by lia. eexists. split; [done|].
    destruct (ltD (elem d (2 * i + 1 + 1)) (elem d (2 * i + 1))) eqn:E; cbv zeta; (split; [lia|split; [lia|]]);
      intros k [-> | ->] Hk.
    + by apply lt_le.
    + replace (2 * i + 1 + 1) with (2 * i + 2) by lia. apply le_refl.
    + apply le_refl.
    + unfold le. by replace (2 * i + 2) with (2 * i + 1 + 1) by lia.
  - exists false. split; [done|]. cbv zeta. split; [lia|split; [lia|]]. intros k [-> | ->] Hk; [apply le_refl|lia].
Qed.

(** The position of the left child does not overflow where it matters. *)
Lemma left_child i n : 0 <= i < 2 ^ 63 -> n < 2 ^ 63 ->
  ((n <=? i64 (2 * i + 1)) || (i64 (2 * i + 1) <? 0)) = (n <=? 2 * i + 1)
  /\ (2 * i + 1 < n -> i64 (2 * i + 1) = 2 * i + 1).
Proof.
  intros Hi Hn. destruct (Z.lt_ge_cases (2 * i + 1) (2 ^ 63)) as [Hs|Hl].
  - rewrite swrap_small by (unfold is_sint; change (2 ^ (64 - 1)) with (2 ^ 63); lia). split; [|done].
    rewrite (proj2 (Z.ltb_ge _ _)) by lia. apply orb_false_r.
  - split; [|lia]. rewrite (proj2 (Z.leb_le n (2 * i + 1))) by lia. apply orb_true_iff. right. apply Z.ltb_lt.
    unfold swrap. change (2 ^ (64 - 1)) with (2 ^ 63). change (2 ^ 64) with (2 * 2 ^ 63).
    replace (2 * i + 1 + 2 ^ 63) with (2 * i + 1 - 2 ^ 63 + 1 * (2 * 2 ^ 63)) by lia.
    rewrite Z.mod_add, Z.mod_small by lia. lia.
Qed.

Lemma down_loop_spec fuel lo i n d : 0 <= lo <= i -> i < 2 ^ 63 -> n <= Len d -> Len d < 2 ^ 63 ->
  (Z.to_nat (n - i) < fuel)%nat -> heap_hole leD lo n i (elem d) ->
  exists d' i', down_loop fuel i n d = Val (d', i') /\ i <= i' /\ rearranged 0 n d d' /\ heap_from leD lo n (elem d').
Proof.
  revert i d. induction fuel as [|fuel IH]; intros i d Hi Hi63 Hn HL Hf Hh; [lia|]. cbn [down_loop].
  destruct (left_child i n) as [-> Hj1]; [lia..|]. destruct (Z.leb_spec n (2 * i + 1)) as [Hc|Hc].
  { exists d, i. split_and!; [done|lia|reflexivity|]. apply (heap_hole_stop _ _ _ i); [done|]. unfold child. lia. }
  rewrite Hj1 by done. destruct (smaller_child i n d) as (right & -> & Hcn & Hch & Hmin); [lia..|]. run.
  set (c := if right then 2 * i + 1 + 1 else 2 * i + 1) in *. assert (Hic : i < c) by (unfold child in Hch; lia).
  clearbody c. rewrite Less_ok by lia. run. destruct (ltD (elem d c) (elem d i)) eqn:E; cbn [negb].
  2: { exists d, i. split_and!; [done|lia|reflexivity|]. apply (heap_hole_stop _ _ _ i); [done|].
       intros k Hk Hkn. apply le_trans with (elem d c); [exact E|by apply Hmin]. }
  destruct (Swap_ok 0 n d i c) as (d1 & Es & R1 & F1); [lia..|]. rewrite Es. run.
  pose proof (rearranged_Len _ _ _ _ R1).
  destruct (IH c d1) as (d2 & i2 & E2 & Hi2 & R2 & H2'); [lia..| |].
  { apply (heap_hole_step _ _ _ i c (elem d)); first [done | lia | by apply exchange_elem | by apply lt_le]. }
  exists d2, i2. split_and!; [done|lia|by transitivity d1|done].
Qed.

(** From a hole on both sides: either nothing moves and the children are in order, or the
    heap is restored. *)
Lemma down_both i n d : 0 <= i < n -> n <= Len d -> Len d < 2 ^ 63 -> heap_hole_both leD n i (elem d) ->
  exists d' moved, down d i n = Val (d', moved) /\ rearranged 0 n d d' /\
  if moved : bool then heap_from leD 0 n (elem d') else d' = d /\ heap_hole_up leD n i (elem d).
Proof.
  intros Hi Hn HL Hh. unfold down. cbn [down_loop].
  destruct (left_child i n) as [-> Hj1]; [lia..|]. destruct (Z.leb_spec n (2 * i + 1)) as [Hc|Hc].
  { run. rewrite Z.ltb_irrefl. exists d, false. split_and!; [done|reflexivity|done|].
    apply heap_hole_both_up; [done|]. unfold child. lia. }
  rewrite Hj1 by done. destruct (smaller_child i n d) as (right & -> & Hcn & Hch & Hmin); [lia..|]. run.
  set (c := if right then 2 * i + 1 + 1 else 2 * i + 1) in *. assert (Hic : i < c) by (unfold child in Hch; lia).
  clearbody c. rewrite Less_ok by lia. run. destruct (ltD (elem d c) (elem d i)) eqn:E; cbn [negb].
  2: { run. rewrite Z.ltb_irrefl. exists d, false. split_and!; [done|reflexivity|done|].
       apply heap_hole_both_up; [done|]. intros k Hk Hkn. apply le_trans with (elem d c); [exact E|by apply Hmin]. }
  destruct (Swap_ok 0 n d i c) as (d1 & Es & R1 & F1); [lia..|]. rewrite Es. run.
  pose proof (rearranged_Len _ _ _ _ R1).
  destruct (down_loop_spec (Z.to_nat n) 0 c n d1) as (d2 & i2 & -> & Hi2 & R2 & H2'); [lia..| |].
  { apply (heap_hole_both_step _ _ i c (elem d)); first [done | lia | by apply exchange_elem | by apply lt_le]. }
  run. exists d2, true. rewrite (proj2 (Z.ltb_lt i i2)) by lia. split_and!; [done|by transitivity d1|done].
Qed.

Lemma up_loop_spec fuel j n d : 0 <= j < n -> n <= Len d -> (Z.to_nat j < fuel)%nat ->
  heap_hole_up leD n j (elem d) ->
  exists d', up_loop fuel j d = Val d' /\ rearranged 0 n d d' /\ heap_from leD 0 n (elem d').
Proof.
  revert j d. induction fuel as [|fuel IH]; intros j d Hj Hn Hf Hh; [lia|]. cbn [up_loop].
  destruct (Z.eqb_spec (Z.quot (j - 1) 2) j) as [Hq|Hq].
  { exists d. split_and!; [done|reflexivity|]. apply (heap_hole_up_stop _ n j); [done|].
    intros i Hi Hij. unfold child in Hij. assert (j = 0) by dlia. lia. }
  assert (Hj0 : 0 < j) by (destruct (Z.eq_dec j 0) as [->|]; [done|lia]).
  rewrite Z.quot_div_nonneg in * by lia. set (i := (j - 1) / 2) in *.
  assert (Hch : child i j) by (unfold child, i; dlia). assert (Hi : 0 <= i < j) by (unfold child in Hch; lia).
  clearbody i. rewrite Less_ok by lia. run. destruct (ltD (elem d j) (elem d i)) eqn:E; cbn [negb].
  2: { exists d. split_and!; [done|reflexivity|]. apply (heap_hole_up_stop _ n j); [done|].
       intros k Hk Hkj. unfold child in *. by replace k with i by lia. }
  destruct (Swap_ok 0 n d i j) as (d1 & Es & R1 & F1); [lia..|]. rewrite Es. run.
  pose proof (rearranged_Len _ _ _ _ R1).
  destruct (IH i d1) as (d2 & E2 & R2 & H2'); [lia..| |].
  { apply (heap_hole_up_step _ n j i (elem d)); first [done | lia | by apply exchange_elem | by apply lt_le]. }
  exists d2. split_and!; [done|by transitivity d1|done].
Qed.

(** Both directions together, as Remove and Fix use them. *)
Lemma restore_both i n d : 0 <= i < n -> n <= Len d -> Len d < 2 ^ 63 -> heap_hole_both leD n i (elem d) ->
  exists d', ('(h, moved) ← down d i n; if negb moved then up h i else Val h) = Val d'
  /\ rearranged 0 n d d' /\ heap_from leD 0 n (elem d').
Proof.
  intros Hi Hn HL Hh. destruct (down_both i n d) as (d1 & moved & -> & R1 & Hm); [done..|]. run.
  destruct moved; cbn [negb]; [by exists d1|]. destruct Hm as [-> Hup].
  destruct (up_loop_spec (S (Z.to_nat i)) i n d) as (d2 & E2 & R2 & H2'); [done|done|lia|done|].
  exists d2. split_and!; done.
Qed.

(** ** What the operations do *)

Lemma heap_from_ext (f g : Z -> A) n : (forall k, 0 <= k < n -> g k = f k) -> heap_from leD 0 n f -> heap_from leD 0 n g.
Proof. intros E Hf p i Hp Hi Hin. unfold child in Hi. rewrite !E by lia. by apply Hf. Qed.

Lemma heap_from_sub (f : Z -> A) m n : m <= n -> heap_from leD 0 n f -> heap_from leD 0 m f.
Proof. intros Hm Hf p i Hp Hi Hin. apply Hf; done || lia. Qed.

(** One position more. *)
Lemma elems_snoc (d d' : D) : Len d' = Len d + 1 -> (forall k, 0 <= k < Len d -> elem d' k = elem d k) ->
  elems d' = elems d ++ [elem d' (Len d)].
Proof.
  intros L E. pose proof (Len_nonneg d). unfold elems. rewrite L.
  rewrite (seqZ_app 0 (Len d) 1), map_app by lia. f_equal.
  apply map_ext_in. intros k Hk. apply list_elem_of_In, elem_of_seqZ in Hk. apply E. lia.
Qed.

Lemma rearranged_elems_sub (d d' : D) a b : 0 <= a -> b <= Len d -> rearranged a b d d' -> elems d' ≡ₚ elems d.
Proof. intros Ha Hb R. apply rearranged_elems. eapply rearranged_mono; [..|done]; lia. Qed.

Lemma is_heap_root (d : D) : is_heap d -> forall y, y ∈ elems d -> leD (elem d 0) y.
Proof.
  intros Hh y Hy. unfold elems in Hy. apply list_elem_of_In, in_map_iff in Hy as (k & <- & Hk).
  apply list_elem_of_In, elem_of_seqZ in Hk. apply (heap_root _ (Len d)); [done|lia].
Qed.

Lemma down_spec lo i n (d : D) : 0 <= lo <= i -> i < 2 ^ 63 -> n <= Len d -> Len d < 2 ^ 63 ->
  heap_hole leD lo n i (elem d) ->
  exists (d' : D) moved, down d i n = Val (d', moved) /\ rearranged 0 n d d' /\ heap_from leD lo n (elem d').
Proof.
  intros Hi Hi63 Hn HL Hh. unfold down.
  destruct (down_loop_spec (S (Z.to_nat n)) lo i n d) as (d1 & i1 & -> & _ & R1 & H1); [lia..|done|]. by exists d1, (i <? i1).
Qed.

Lemma Init_spec (d : D) : Len d < 2 ^ 63 ->
  exists d' : D, Init d = Val d' /\ rearranged 0 (Len d) d d' /\ is_heap d'.
Proof.
  intros HL. pose proof (Len_nonneg d) as H0'. unfold Init. rewrite Z.quot_div_nonneg by lia.
  destruct (for_down_inv (λ i (d' : D), rearranged 0 (Len d) d d' /\ heap_from leD (i + 1) (Len d) (elem d'))
    (Len d / 2 - 1) 0 (λ i h, '(h, _) ← down h i (Len d); Val h) d) as (d' & E & R & Hh).
  - dlia.
  - split; [reflexivity|]. intros p i Hp Hi Hin. unfold child in Hi. dlia.
  - intros i d1 Hi [R1 H1]. pose proof (rearranged_Len _ _ _ _ R1) as L1.
    destruct (down_spec i i (Len d) d1) as (d2 & moved & -> & R2 & H2); [lia|dlia|lia|lia|apply heap_hole_start; done || lia|].
    exists d2. split; [done|split; [by transitivity d1|]]. by replace (i - 1 + 1) with i by lia.
  - exists d'. split; [done|split; [done|]]. unfold is_heap. by rewrite (rearranged_Len _ _ _ _ R).
Qed.

Lemma Push_spec (d : D) x : is_heap d ->
  exists d' : D, Push d x = Val d' /\ is_heap d' /\ Len d' = Len d + 1 /\ elems d' ≡ₚ x :: elems d.
Proof.
  intros Hh. pose proof (Len_nonneg d). unfold Push. destruct (Push_law d x) as (d1 & -> & L1 & X1 & E1). run.
  rewrite L1. replace (Len d + 1 - 1) with (Len d) by lia.
  destruct (up_loop_spec (S (Z.to_nat (Len d))) (Len d) (Len d + 1) d1) as (d2 & E2 & R2 & H2); [lia..| |].
  { split; intros p i Hp.
    - intros Hi Hc Hin. unfold child in Hc. rewrite !E1 by lia. apply Hh; unfold child; lia.
    - unfold child. lia. }
  exists d2. split; [done|]. pose proof (rearranged_Len _ _ _ _ R2). split_and!.
  - unfold is_heap. by replace (Len d2) with (Len d + 1) by lia.
  - lia.
  - rewrite (rearranged_elems d1) by (by rewrite L1). rewrite (elems_snoc d d1 L1 E1), X1.
    symmetry. apply Permutation_cons_append.
Qed.

(** Taking the last element off. *)
Lemma Pop_last (d : D) : 0 < Len d -> heap_from leD 0 (Len d - 1) (elem d) ->
  exists d' : D, ext_Pop d = Val (d', elem d (Len d - 1)) /\ is_heap d' /\ Len d' = Len d - 1
  /\ elem d (Len d - 1) :: elems d' ≡ₚ elems d.
Proof.
  intros HL Hh. destruct (Pop_law d HL) as (d' & E & L & F). exists d'. split_and!; [done| |done|].
  - unfold is_heap. rewrite L. eapply heap_from_ext; [|exact Hh]. intros k Hk. apply F. lia.
  - rewrite (elems_snoc d' d) by (lia || intros k Hk; symmetry; by apply F). rewrite L. apply Permutation_cons_append.
Qed.

Lemma Pop_spec (d : D) : is_heap d -> 0 < Len d < 2 ^ 63 ->
  exists d' : D, Pop d = Val (d', elem d 0) /\ is_heap d' /\ Len d' = Len d - 1 /\ elem d 0 :: elems d' ≡ₚ elems d.
Proof.
  intros Hh HL. unfold Pop. destruct (Swap_ok 0 (Len d) d 0 (Len d - 1)) as (d1 & -> & R1 & F1); [lia..|]. run.
  pose proof (rearranged_Len _ _ _ _ R1) as L1.
  destruct (down_spec 0 0 (Len d - 1) d1) as (d2 & moved & -> & R2 & H2); [lia..| |].
  { apply heap_hole_start; [lia|]. intros p i Hp Hi Hin. unfold child in Hi. rewrite !F1.
    destruct (Z.eqb_spec p 0), (Z.eqb_spec p (Len d - 1)), (Z.eqb_spec i 0), (Z.eqb_spec i (Len d - 1)); try lia.
    apply Hh; unfold child; lia. }
  run. pose proof (rearranged_Len _ _ _ _ R2) as L2.
  destruct (Pop_last d2) as (d3 & E3 & H3 & L3 & P3); [lia|by replace (Len d2 - 1) with (Len d - 1) by lia|].
  assert (X : elem d2 (Len d2 - 1) = elem d 0).
  { rewrite (rearranged_out 0 (Len d - 1) d1 d2) by (done || lia). rewrite F1.
    replace (Len d2 - 1) with (Len d - 1) by lia. destruct (Z.eqb_spec (Len d - 1) 0) as [->|]; [done|].
    by rewrite Z.eqb_refl. }
  rewrite X in E3, P3. exists d3. split_and!; [done|done|lia|]. rewrite P3.
  rewrite (rearranged_elems_sub d1 d2 0 (Len d - 1)) by (done || lia). by apply rearranged_elems.
Qed.

Lemma Remove_spec (d : D) i : is_heap d -> 0 <= i < Len d -> Len d < 2 ^ 63 ->
  exists d' : D, Remove d i = Val (d', elem d i) /\ is_heap d' /\ Len d' = Len d - 1 /\ elem d i :: elems d' ≡ₚ elems d.
Proof.
  intros Hh Hi HL. unfold Remove. destruct (Z.eqb_spec (Len d - 1) i) as [Hn|Hn]; cbn [negb].
  { run. destruct (Pop_last d) as (d3 & E3 & H3 & L3 & P3); [lia|apply (heap_from_sub _ _ (Len d)); done || lia|].
    rewrite Hn in *. by exists d3. }
  destruct (Swap_ok 0 (Len d) d i (Len d - 1)) as (d1 & -> & R1 & F1); [lia..|]. run.
  pose proof (rearranged_Len _ _ _ _ R1) as L1.
  destruct (restore_both i (Len d - 1) d1) as (d2 & -> & R2 & H2); [lia..| |].
  { apply (heap_hole_both_start _ _ _ (elem d)); [lia|apply (heap_from_sub _ _ (Len d)); done || lia|lia|].
    intros k Hk Hki. rewrite F1. destruct (Z.eqb_spec k i), (Z.eqb_spec k (Len d - 1)); done || lia. }
  run. pose proof (rearranged_Len _ _ _ _ R2) as L2.
  destruct (Pop_last d2) as (d3 & E3 & H3 & L3 & P3); [lia|by replace (Len d2 - 1) with (Len d - 1) by lia|].
  assert (X : elem d2 (Len d2 - 1) = elem d i).
  { rewrite (rearranged_out 0 (Len d - 1) d1 d2) by (done || lia). rewrite F1.
    replace (Len d2 - 1) with (Len d - 1) by lia. destruct (Z.eqb_spec (Len d - 1) i) as [|]; [lia|].
    by rewrite Z.eqb_refl. }
  rewrite X in E3, P3. exists d3. split_and!; [done|done|lia|]. rewrite P3.
  rewrite (rearranged_elems_sub d1 d2 0 (Len d - 1)) by (done || lia). by apply rearranged_elems.
Qed.

Lemma Fix_spec (d0 d : D) i : is_heap d0 -> Len d = Len d0 -> 0 <= i < Len d -> Len d < 2 ^ 63 ->
  (forall k, 0 <= k < Len d -> k <> i -> elem d k = elem d0 k) ->
  exists d' : D, Fix_ d i = Val d' /\ is_heap d' /\ elems d' ≡ₚ elems d.
Proof.
  intros Hh L Hi HL HE. unfold Fix_.
  destruct (restore_both i (Len d) d) as (d' & -> & R & Hd'); [lia..| |].
  { apply (heap_hole_both_start _ _ _ (elem d0)); [lia|by rewrite L|lia|done]. }
  exists d'. split; [done|split; [|by apply rearranged_elems]]. unfold is_heap. by rewrite (rearranged_Len _ _ _ _ R).
Qed.

(** Emptying a heap by [n] calls of Pop. *)
Fixpoint pop_all (n : nat) (h : D) : outcome (list A) :=
  match n with
  | O => Val []
  | S n => '(h, x) ← Pop h; xs ← pop_all n h; Val (x :: xs)
  end.

Lemma pop_all_spec n (d : D) : is_heap d -> Len d = Z.of_nat n -> Len d < 2 ^ 63 ->
  exists xs, pop_all n d = Val xs /\ xs ≡ₚ elems d /\ StronglySorted (λ x y, ltD y x = false) xs.
Proof.
  revert d. induction n as [|n IH]; intros d Hh L HL.
  - exists []. split; [done|split; [|constructor]]. unfold elems. by rewrite L.
  - cbn [pop_all]. destruct (Pop_spec d Hh) as (d1 & -> & H1 & L1 & P1); [lia|]. run.
    destruct (IH d1) as (xs & -> & Px & Sx); [done|lia|lia|]. run. eexists. split; [done|].
    split; [by rewrite Px|]. constructor; [done|]. apply List.Forall_forall. intros y Hy.
    apply (is_heap_root d Hh). rewrite <- P1, <- Px. apply list_elem_of_In. by right.
Qed.
End HeapCorrectness.

(** ** A heap of ints: the package's own example *)

Definition IntHeap_Push (h : IntSlice) (x : Z) : outcome IntSlice := Val (h ++ [x]).
Definition IntHeap_Pop (h : IntSlice) : outcome (IntSlice * Z) :=
  let n := zlen h in
  x ← index h (n - 1);
  h ← slice h 0 (n - 1);
  Val (h, x).

#[export] Instance IntHeap : HeapInterface IntSlice Z := {
  heap_Interface := IntSlice_Interface; ext_Push := IntHeap_Push; ext_Pop := IntHeap_Pop }.

#[export] Program Instance IntHeap_Ordered : HeapOrdered IntSlice Z := { heap_Ordered := IntSlice_Ordered }.
Next Obligation.
  intros d x. exists (d ++ [x]). cbn. unfold IntSlice_Len. split_and!; [done|apply zlen_snoc| |].
  - unfold slice_elem. rewrite decide_True, Nat2Z.id by lia. by apply list_lookup_total_middle.
  - intros k Hk. unfold slice_elem. rewrite !decide_True by lia. apply lookup_total_app_l. lia.
Qed.
Next Obligation.
  intros d Hd. cbn in *. unfold IntSlice_Len, IntHeap_Pop in *. rewrite index_elem by lia. cbn [mbind outcome_bind].
  rewrite slice_take by lia. cbn [mbind outcome_bind]. eexists. split; [done|].
  rewrite length_take. split; [lia|]. intros k Hk. unfold slice_elem. rewrite !decide_True by lia.
  rewrite !list_lookup_total_alt, lookup_take_lt by lia. done.
Qed.

(** ** Properties *)

(** C36. The operations of container/heap, over any collection of fewer than 2^63 elements that meets the
    contract: Init makes it a heap of the same elements; on a heap, Push adds its argument, Pop
    removes and returns an element that none is below, Remove removes and returns the one at the given
    position, and Fix, after the element at one position of a heap was changed, restores the order;
    each leaves a heap with exactly the elements that remain, and no access is out of range. *)
Theorem heap_operations {D A : Type} `{HeapOrdered D A} (h : D) :
  Len h < 2 ^ 63 ->
  (exists h' : D, Init h = Val h' /\ is_heap h' /\ elems h' ≡ₚ elems h)
  /\ (is_heap h ->
      (forall x, exists h' : D, Push h x = Val h' /\ is_heap h' /\ elems h' ≡ₚ x :: elems h)
      /\ (0 < Len h -> exists (h' : D) x, Pop h = Val (h', x) /\ is_heap h' /\ x :: elems h' ≡ₚ elems h
            /\ forall y, y ∈ elems h -> lt (D := D) y x = false)
      /\ (forall i, 0 <= i < Len h -> exists h' : D,
            Remove h i = Val (h', elem h i) /\ is_heap h' /\ elem h i :: elems h' ≡ₚ elems h)
      /\ (forall (h1 : D) i, Len h1 = Len h -> 0 <= i < Len h -> (forall k, 0 <= k < Len h -> k <> i -> elem h1 k = elem h k) ->
            exists h' : D, Fix_ h1 i = Val h' /\ is_heap h' /\ elems h' ≡ₚ elems h1)).
Proof.
  intros HL. split.
  { destruct (Init_spec h HL) as (h' & E & R & Hh). exists h'. split_and!; [done|done|by apply rearranged_elems]. }
  intros Hh. split_and!.
  - intros x. destruct (Push_spec h x Hh) as (h' & ? & ? & ? & ?). by exists h'.
  - intros H0'. destruct (Pop_spec h Hh) as (h' & E & H' & _ & P); [lia|]. exists h', (elem h 0). split_and!; try done.
    intros y Hy. by apply (is_heap_root h).
  - intros i Hi. destruct (Remove_spec h i Hh Hi HL) as (h' & ? & ? & ? & ?). by exists h'.
  - intros h1 i L Hi HE. apply (Fix_spec h); try done; lia || (intros; apply HE; lia).
Qed.

Lemma heap_operations_witness :
  is_heap ([1; 2; 5; 3] : IntSlice)
  /\ exists (h' : IntSlice) x, Pop ([1; 2; 5; 3] : IntSlice) = Val (h', x) /\ is_heap h'
     /\ x :: elems h' ≡ₚ elems ([1; 2; 5; 3] : IntSlice)
     /\ forall y, y ∈ elems ([1; 2; 5; 3] : IntSlice) -> lt (D := IntSlice) y x = false.
Proof.
  pose proof (heap_operations ([1; 2; 5; 3] : IntSlice) (eq_refl : 4 < 2 ^ 63)) as [_ H2].
  assert (Hh : is_heap ([1; 2; 5; 3] : IntSlice)).
  { intros p i Hp Hi Hin. change (Len ([1; 2; 5; 3] : IntSlice)) with 4 in Hin. unfold child in Hi.
    assert ((p = 0 /\ i = 1) \/ (p = 0 /\ i = 2) \/ (p = 1 /\ i = 3)) as [[-> ->]|[[-> ->]|[-> ->]]] by lia; reflexivity. }
  split; [exact Hh|]. destruct (H2 Hh) as (_ & HPop & _). exact (HPop (eq_refl : 0 < 4)).
Defined.

(** Heap sort: Init followed by as many Pops as there are elements returns all the elements of the
    collection in order. *)
Theorem pop_all_sorted {D A : Type} `{HeapOrdered D A} (h : D) :
  Len h < 2 ^ 63 ->
  exists (h' : D) xs, Init h = Val h' /\ pop_all (Z.to_nat (Len h)) h' = Val xs
  /\ xs ≡ₚ elems h /\ StronglySorted (λ x y, lt (D := D) y x = false) xs.
Proof.
  intros HL. pose proof (Len_nonneg h). destruct (Init_spec h HL) as (h' & E & R & Hh).
  pose proof (rearranged_Len _ _ _ _ R) as L. destruct (pop_all_spec (Z.to_nat (Len h)) h') as (xs & Ex & Px & Sx); [done|lia|lia|].
  exists h', xs. split_and!; try done. rewrite Px. by apply rearranged_elems.
Qed.

Lemma pop_all_sorted_witness :
  exists (h' : IntSlice) xs, Init ([4; 1; 3; 1] : IntSlice) = Val h' /\ pop_all 4 h' = Val xs
  /\ xs ≡ₚ elems ([4; 1; 3; 1] : IntSlice) /\ StronglySorted (λ x y, lt (D := IntSlice) y x = false) xs.
Proof. exact (pop_all_sorted ([4; 1; 3; 1] : IntSlice) (eq_refl : 4 < 2 ^ 63)). Defined.
