(* ===== verification/State.v ===== *)
(** * Stateful code

    The state monad over the outcomes of the prelude that the pointer and slice models share, with weakest
    preconditions: [wp c s Q] says that [c] started in [s] returns, and that its result and final state satisfy [Q]. *)

From S2P Require Import Prelude.

Definition M (S A : Type) : Type := S -> outcome (A * S).
#[export] Instance M_ret {S} : MRet (M S) := λ A a s, Val (a, s).
#[export] Instance M_bind {S} : MBind (M S) := λ A B f m s,
  match m s with Val (a, s) => f a s | Panic p => Panic p | NoFuel => NoFuel end.
Definition raise {S A} (p : panic) : M S A := λ _, Panic p.
Definition get {S} : M S S := λ s, Val (s, s).
Definition put {S} (s : S) : M S unit := λ _, Val (tt, s).
Definition no_fuel {S A} : M S A := λ _, NoFuel.
(** Code that does not touch the state. *)
Definition lift {S A} (o : outcome A) : M S A := λ s, match o with Val a => Val (a, s) | Panic p => Panic p | NoFuel => NoFuel end.

Lemma bind_Val {S A B} (m : M S A) (f : A -> M S B) s a s1 : m s = Val (a, s1) -> (m ≫= f) s = f a s1.
Proof. intros E. unfold mbind, M_bind. by rewrite E. Qed.

(** ** Counting loops *)

(** [for i := lo; i < hi; i++ { body }] with the variables of the body as accumulator. *)
Fixpoint loop {S X} (n : nat) (i step : Z) (body : Z -> X -> M S X) (x : X) : M S X :=
  match n with O => mret x | Datatypes.S n => x ← body i x; loop n (i + step) step body x end.
Definition loop_up {S X} (lo hi : Z) (body : Z -> X -> M S X) (x : X) : M S X := loop (Z.to_nat (hi - lo)) lo 1 body x.
(** [for i := hi; i >= lo; i-- { body }]. *)
Definition loop_down {S X} (hi lo : Z) (body : Z -> X -> M S X) (x : X) : M S X := loop (Z.to_nat (hi + 1 - lo)) hi (-1) body x.

(** ** Weakest preconditions *)

Section Wp.
Context {S : Type}.
Implicit Types s : S.

Definition wp {A} (c : M S A) (s : S) (Q : A -> S -> Prop) : Prop := match c s with Val (a, s') => Q a s' | _ => False end.

Lemma wp_ret {A} (a : A) s (Q : A -> S -> Prop) : Q a s -> wp (mret a) s Q.
Proof. done. Qed.

Lemma wp_bind {A B} (c : M S A) (f : A -> M S B) s Q : wp c s (λ a s', wp (f a) s' Q) -> wp (c ≫= f) s Q.
Proof. unfold wp, mbind, M_bind. by destruct (c s) as [[a s']| |]. Qed.

Lemma wp_mono {A} (c : M S A) s (P Q : A -> S -> Prop) : wp c s P -> (forall a s', P a s' -> Q a s') -> wp c s Q.
Proof. unfold wp. destruct (c s) as [[a s']| |]; auto. Qed.

Lemma wp_and {A} (c : M S A) s (P Q : A -> S -> Prop) : wp c s P -> wp c s Q -> wp c s (λ a s', P a s' /\ Q a s').
Proof. unfold wp. destruct (c s) as [[a s']| |]; auto. Qed.

(** A step whose effect is known, then the rest. *)
Lemma wp_seq {A B} (c : M S A) (f : A -> M S B) s P Q :
  wp c s P -> (forall a s', P a s' -> wp (f a) s' Q) -> wp (c ≫= f) s Q.
Proof. intros Hc Hf. apply wp_bind. by eapply wp_mono. Qed.

Lemma wp_get s (Q : S -> S -> Prop) : Q s s -> wp get s Q.
Proof. done. Qed.

Lemma wp_put s s' (Q : unit -> S -> Prop) : Q tt s' -> wp (put s') s Q.
Proof. done. Qed.

Lemma wp_val {A} (c : M S A) s Q : wp c s Q -> exists a s', c s = Val (a, s') /\ Q a s'.
Proof. unfold wp. destruct (c s) as [[a s']| |]; [by exists a, s'|done..]. Qed.

Lemma wp_of_val {A} (c : M S A) s a s' (Q : A -> S -> Prop) : c s = Val (a, s') -> Q a s' -> wp c s Q.
Proof. unfold wp. by intros ->. Qed.

(** The same where the code may also panic: [E] holds of the panic. *)
Definition wpx {A} (c : M S A) (s : S) (Q : A -> S -> Prop) (E : panic -> Prop) : Prop :=
  match c s with Val (a, s') => Q a s' | Panic p => E p | NoFuel => False end.

Lemma wpx_bind {A B} (c : M S A) (f : A -> M S B) s Q E : wp c s (λ a s', wpx (f a) s' Q E) -> wpx (c ≫= f) s Q E.
Proof. unfold wp, wpx, mbind, M_bind. by destruct (c s) as [[a s']| |]. Qed.

Lemma wpx_wp {A} (c : M S A) s (P Q : A -> S -> Prop) E : wp c s P -> (forall a s', P a s' -> Q a s') -> wpx c s Q E.
Proof. unfold wp, wpx. destruct (c s) as [[a s']| |]; [auto|done..]. Qed.

Lemma wpx_raise {A} p s (Q : A -> S -> Prop) (E : panic -> Prop) : E p -> wpx (raise p) s Q E.
Proof. done. Qed.

Lemma wpx_no_panic {A} (c : M S A) s (Q : A -> S -> Prop) E : wpx c s Q E -> (forall p, ~ E p) -> wp c s Q.
Proof. unfold wp, wpx. destruct (c s) as [[a s']|p|]; [auto| |done]. intros HE Hn. by destruct (Hn p). Qed.

Lemma wpx_panic {A} (c : M S A) s (Q : A -> S -> Prop) E p : wpx c s Q E -> (forall a s', ~ Q a s') -> (forall q, E q -> q = p) -> c s = Panic p.
Proof. unfold wpx. destruct (c s) as [[a s']|q|]; [|by intros H _ Hq; rewrite (Hq q H)|done]. intros HQ Hn _. by destruct (Hn a s'). Qed.

(** An invariant of a loop holds at the start and is kept by each turn. *)
Lemma wp_loop_up {X} (I : Z -> X -> S -> Prop) lo hi (body : Z -> X -> M S X) x s Q : lo <= hi ->
  I lo x s ->
  (forall i x s, lo <= i < hi -> I i x s -> wp (body i x) s (I (i + 1))) ->
  (forall x s, I hi x s -> Q x s) ->
  wp (loop_up lo hi body x) s Q.
Proof.
  intros Hle HI Hstep HQ. unfold loop_up. assert (H : forall n i x s, lo <= i -> hi = i + Z.of_nat n -> I i x s -> wp (loop n i 1 body x) s Q).
  { clear HI. induction n as [|n IH]; intros i y t Hi En HI; cbn [loop].
    - apply wp_ret, HQ. by replace hi with i by lia.
    - eapply wp_seq; [apply Hstep; [lia|exact HI]|]. intros a s' Ha. apply IH; [lia|lia|done]. }
  apply H; [lia|lia|done].
Qed.

Lemma wp_loop_down {X} (I : Z -> X -> S -> Prop) hi lo (body : Z -> X -> M S X) x s Q : lo <= hi + 1 ->
  I hi x s ->
  (forall i x s, lo <= i <= hi -> I i x s -> wp (body i x) s (I (i - 1))) ->
  (forall x s, I (lo - 1) x s -> Q x s) ->
  wp (loop_down hi lo body x) s Q.
Proof.
  intros Hle HI Hstep HQ. unfold loop_down. assert (H : forall n i x s, i <= hi -> lo = i + 1 - Z.of_nat n -> I i x s -> wp (loop n i (-1) body x) s Q).
  { clear HI. induction n as [|n IH]; intros i y t Hi En HI; cbn [loop].
    - apply wp_ret, HQ. by replace (lo - 1) with i by lia.
    - eapply wp_seq; [apply Hstep; [lia|exact HI]|]. intros a s' Ha. apply IH; [lia|lia|done]. }
  apply H; [lia|lia|done].
Qed.

End Wp.
