(* ===== verification/Linked.v ===== *)
(** * Linked structures

    What container/list and container/ring share: pointers to allocated objects, and doubly
    linked chains of objects, described by the functions that
    give the next and the previous pointer of each, with the effect of inserting, taking out and
    cutting on them. *)

From stdpp Require Import gmap.
From S2P Require Import Prelude State.

(** An address; a pointer is an [option loc], with nil as [None]. *)
Abbreviation loc := positive.
Abbreviation ptr := (option positive).

(** ** Chains *)

Section Chain.
Implicit Types (nxt prv : loc -> ptr) (ys A B : list loc).

(** Neighbours in the list point to each other. *)
Fixpoint chain nxt prv ys : Prop :=
  match ys with
  | a :: (b :: _) as t => nxt a = Some b /\ prv b = Some a /\ chain nxt prv t
  | _ => True
  end.

Lemma chain_cons nxt prv a b ys :
  chain nxt prv (a :: b :: ys) <-> nxt a = Some b /\ prv b = Some a /\ chain nxt prv (b :: ys).
Proof. done. Qed.

Lemma chain_app nxt prv A a B :
  chain nxt prv (A ++ a :: B) <-> chain nxt prv (A ++ [a]) /\ chain nxt prv (a :: B).
Proof.
  induction A as [|x A IH]; [cbn; tauto|]. destruct A as [|y A].
  - cbn [app]. rewrite !chain_cons. cbn. tauto.
  - cbn [app] in *. rewrite !chain_cons, IH. tauto.
Qed.

(** Only the next pointers of all but the last and the previous pointers of all but the first count. *)
Lemma chain_ext nxt prv nxt' prv' ys :
  (forall x, x ∈ removelast ys -> nxt' x = nxt x) -> (forall x, x ∈ tail ys -> prv' x = prv x) ->
  chain nxt prv ys -> chain nxt' prv' ys.
Proof.
  induction ys as [|a ys IH]; [done|]. destruct ys as [|b ys]; [done|].
  intros Hn Hp (H1 & H2 & H3). split_and!.
  - rewrite Hn; [done|]. left.
  - rewrite Hp; [done|]. left.
  - apply IH; [| |done]; intros x Hx.
    + apply Hn. by right.
    + apply Hp. by right.
Qed.

Lemma removelast_mid A x B : removelast (A ++ x :: B) = A ++ removelast (x :: B).
Proof. apply removelast_app. done. Qed.

Lemma tail_mid A x B : tail (A ++ x :: B) = tail (A ++ [x]) ++ B.
Proof. destruct A; [done|]. cbn. by rewrite <- app_assoc. Qed.

(** The conditions under which a list can be a chain: the next pointers of all but the last, and the
    previous pointers of all but the first, belong to different objects. *)
Definition simple ys : Prop := NoDup (removelast ys) /\ NoDup (tail ys).

Lemma elem_of_removelast (ys : list loc) x : x ∈ removelast ys -> x ∈ ys.
Proof.
  induction ys as [|y ys IH]; [done|]. destruct ys as [|z ys]; [by intros ?%elem_of_nil|].
  intros [->|Hx]%elem_of_cons; [left|right; by apply IH].
Qed.

Lemma elem_of_tail (ys : list loc) x : x ∈ tail ys -> x ∈ ys.
Proof. destruct ys; [done|]. by right. Qed.

Lemma chain_join nxt prv A a b B :
  chain nxt prv (A ++ [a]) -> chain nxt prv (b :: B) -> nxt a = Some b -> prv b = Some a ->
  chain nxt prv (A ++ a :: b :: B).
Proof. intros. apply chain_app. split; [done|]. by apply chain_cons. Qed.

(** If only the link between the neighbours [a] and [b] is redirected, the parts before and after it
    stay chains. *)
Lemma chain_keep nxt prv nxt' prv' A a b B :
  simple (A ++ a :: b :: B) ->
  (forall x, x ∈ A ++ a :: b :: B -> x <> a -> nxt' x = nxt x) ->
  (forall x, x ∈ A ++ a :: b :: B -> x <> b -> prv' x = prv x) ->
  (chain nxt prv (A ++ [a]) -> chain nxt' prv' (A ++ [a])) /\ (chain nxt prv (b :: B) -> chain nxt' prv' (b :: B)).
Proof.
  intros [S1 S2] Hn Hp. rewrite removelast_mid in S1. rewrite tail_mid in S2.
  change (removelast (a :: b :: B)) with (a :: removelast (b :: B)) in S1.
  apply NoDup_app in S1 as (_ & S1 & [S3 _]%NoDup_cons). apply NoDup_app in S2 as (_ & S2 & [S4 _]%NoDup_cons).
  split; apply chain_ext; intros x Hx.
  - rewrite removelast_mid in Hx. cbn in Hx. rewrite app_nil_r in Hx. apply Hn.
    + apply elem_of_app. by left.
    + intros ->. apply (S1 _ Hx). left.
  - apply Hp.
    + apply elem_of_tail, elem_of_app in Hx. apply elem_of_app. destruct Hx as [?|Hx]; [by left|right].
      apply list_elem_of_singleton in Hx as ->. left.
    + intros ->. apply (S2 _ Hx). left.
  - apply Hn.
    + apply elem_of_removelast in Hx. apply elem_of_app. right. by right.
    + intros ->. done.
  - apply Hp.
    + apply elem_of_app. right. by do 2 right.
    + intros ->. done.
Qed.

Lemma simple_skip A a e b B : simple (A ++ a :: e :: b :: B) -> simple (A ++ a :: b :: B).
Proof.
  intros [H1 H2]. split.
  - rewrite removelast_mid in *. eapply sublist_NoDup; [exact H1|]. apply sublist_app; [done|].
    change (a :: removelast (b :: B) `sublist_of` a :: e :: removelast (b :: B)). by repeat constructor.
  - rewrite tail_mid in *. eapply sublist_NoDup; [exact H2|]. apply sublist_app; [done|]. by constructor.
Qed.

(** Linking [e] between two neighbours. *)
Lemma chain_insert nxt prv nxt' prv' A a e b B :
  simple (A ++ a :: b :: B) -> e ∉ A ++ a :: b :: B ->
  (forall x, x <> a -> x <> e -> nxt' x = nxt x) -> (forall x, x <> b -> x <> e -> prv' x = prv x) ->
  nxt' a = Some e -> nxt' e = Some b -> prv' e = Some a -> prv' b = Some e ->
  chain nxt prv (A ++ a :: b :: B) -> chain nxt' prv' (A ++ a :: e :: b :: B).
Proof.
  intros Hs He Hn Hp E1 E2 E3 E4 [H1 [_ [_ H2]]%chain_cons]%chain_app.
  destruct (chain_keep nxt prv nxt' prv' A a b B) as [K1 K2]; [done| | |].
  - intros x Hx ?. apply Hn; [done|]. by intros ->.
  - intros x Hx ?. apply Hp; [done|]. by intros ->.
  - apply chain_join; [by apply K1| |done|done]. apply chain_cons. auto.
Qed.

(** Taking [e] out from between its neighbours. *)
Lemma chain_remove nxt prv nxt' prv' A a e b B :
  simple (A ++ a :: e :: b :: B) -> e ∉ A ++ a :: b :: B ->
  (forall x, x <> a -> x <> e -> nxt' x = nxt x) -> (forall x, x <> b -> x <> e -> prv' x = prv x) ->
  nxt' a = Some b -> prv' b = Some a ->
  chain nxt prv (A ++ a :: e :: b :: B) -> chain nxt' prv' (A ++ a :: b :: B).
Proof.
  intros Hs%simple_skip He Hn Hp E1 E2 [H1 [_ [_ [_ [_ H2]]%chain_cons]]%chain_cons]%chain_app.
  destruct (chain_keep nxt prv nxt' prv' A a b B) as [K1 K2]; [done| | |].
  - intros x Hx ?. apply Hn; [done|]. by intros ->.
  - intros x Hx ?. apply Hp; [done|]. by intros ->.
  - apply chain_join; auto.
Qed.

(** The neighbours of an inner element. *)
Lemma chain_neighbours nxt prv A a e b B :
  chain nxt prv (A ++ a :: e :: b :: B) -> nxt a = Some e /\ nxt e = Some b /\ prv e = Some a /\ prv b = Some e.
Proof. intros [_ [? [? [? [? _]]%chain_cons]]%chain_cons]%chain_app. auto. Qed.

Lemma chain_next nxt prv A a b B : chain nxt prv (A ++ a :: b :: B) -> nxt a = Some b /\ prv b = Some a.
Proof. intros [_ [? [? _]]%chain_cons]%chain_app. auto. Qed.

(** ** Cycles *)

(** From [l] through [xs] and back. *)
Definition cycle nxt prv (l : loc) (xs : list loc) : Prop := chain nxt prv (l :: xs ++ [l]).

Lemma simple_cycle l xs : NoDup (l :: xs) -> simple (l :: xs ++ [l]).
Proof.
  intros H. split.
  - change (l :: xs ++ [l]) with ((l :: xs) ++ [l]). by rewrite removelast_last.
  - change (NoDup (xs ++ [l])). by rewrite <- Permutation_cons_append.
Qed.

Lemma cycle_ext nxt prv nxt' prv' l xs :
  (forall x, x ∈ l :: xs -> nxt' x = nxt x /\ prv' x = prv x) -> cycle nxt prv l xs -> cycle nxt' prv' l xs.
Proof.
  intros H. apply chain_ext; intros x Hx.
  - apply H. change (l :: xs ++ [l]) with ((l :: xs) ++ [l]) in Hx. by rewrite removelast_last in Hx.
  - apply H. cbn in Hx. by rewrite <- Permutation_cons_append in Hx.
Qed.

End Chain.
