(* ===== verification/LinkedList.v ===== *)
(** * container/list

    The doubly linked list of src/Source/Gold/container/list/list.go over an explicit store of
    elements: pointers are addresses, the sentinel [root] of a List has the address of the List, and an
    operation reads and writes the [next], [prev] and [list] fields of the objects it names, in the
    order of the source.  The specification is a map from lists to sequences of elements; a step of
    any operation is simulated by the step of the sequences that its documentation describes, and
    the theorems hold along every sequence of operations, on several lists at once. *)

From stdpp Require Import gmap.
From S2P Require Import Prelude State Linked.

Section Store.
Context {V : Type}.

Record Element : Type := MkElement { next : ptr; prev : ptr; list_ : ptr; Value : V }.

(** The elements and sentinels by address, the [len] of each List, and the next unused address. *)
Record store : Type := MkStore { elts : gmap loc Element; lens : gmap loc Z; brk : loc }.

Abbreviation run := (M store).

(** ** Reading and writing fields; a nil pointer panics *)

Definition load (p : ptr) : run Element :=
  match p with
  | None => raise NilDereference
  | Some a => h ← get; match elts h !! a with Some e => mret e | None => raise NilDereference end
  end.

Definition update (p : ptr) (f : Element -> Element) : run unit :=
  load p ≫= λ e, match p with
  | None => raise NilDereference
  | Some a => h ← get; put (MkStore (<[a := f e]> (elts h)) (lens h) (brk h))
  end.

Definition set_next (p q : ptr) : run unit := update p (λ e, MkElement q (prev e) (list_ e) (Value e)).
Definition set_prev (p q : ptr) : run unit := update p (λ e, MkElement (next e) q (list_ e) (Value e)).
Definition set_list (p q : ptr) : run unit := update p (λ e, MkElement (next e) (prev e) q (Value e)).

Definition get_len (l : loc) : run Z :=
  h ← get; match lens h !! l with Some n => mret n | None => raise NilDereference end.
Definition set_len (l : loc) (n : Z) : run unit :=
  h ← get; put (MkStore (elts h) (<[l := n]> (lens h)) (brk h)).

(** [&Element{Value: v}] *)
Definition new_element (v : V) : run loc :=
  h ← get;
  let a := brk h in
  put (MkStore (<[a := MkElement None None None v]> (elts h)) (lens h) (Pos.succ a)) ≫= λ _, mret a.

(** The zero List: [nil_] is the zero value of an element's Value. *)
Definition new_list (nil_ : V) : run loc :=
  h ← get;
  let a := brk h in
  put (MkStore (<[a := MkElement None None None nil_]> (elts h)) (<[a := 0]> (lens h)) (Pos.succ a)) ≫= λ _, mret a.

(** ** The package *)

Definition Element_Next (e : loc) : run ptr :=
  c ← load (Some e);
  mret (if bool_decide (list_ c <> None /\ next c <> list_ c) then next c else None).

Definition Element_Prev (e : loc) : run ptr :=
  c ← load (Some e);
  mret (if bool_decide (list_ c <> None /\ prev c <> list_ c) then prev c else None).

Definition Init (l : loc) : run loc :=
  set_next (Some l) (Some l) ≫= λ _,
  set_prev (Some l) (Some l) ≫= λ _,
  set_len l 0 ≫= λ _,
  mret l.

Definition New (nil_ : V) : run loc := l ← new_list nil_; Init l.

Definition Len (l : loc) : run Z := get_len l.

Definition Front (l : loc) : run ptr :=
  n ← get_len l;
  if n =? 0 then mret None else root ← load (Some l); mret (next root).

Definition Back (l : loc) : run ptr :=
  n ← get_len l;
  if n =? 0 then mret None else root ← load (Some l); mret (prev root).

Definition lazyInit (l : loc) : run unit :=
  root ← load (Some l);
  if bool_decide (next root = None) then Init l ≫= λ _, mret tt else mret tt.

Definition insert_ (l e : loc) (at_ : ptr) : run loc :=
  c ← load at_;
  let n := next c in
  set_next at_ (Some e) ≫= λ _,
  set_prev (Some e) at_ ≫= λ _,
  set_next (Some e) n ≫= λ _,
  set_prev n (Some e) ≫= λ _,
  set_list (Some e) (Some l) ≫= λ _,
  k ← get_len l;
  set_len l (k + 1) ≫= λ _,
  mret e.

Definition insertValue (l : loc) (v : V) (at_ : ptr) : run loc :=
  e ← new_element v; insert_ l e at_.

Definition remove (l e : loc) : run loc :=
  c ← load (Some e); set_next (prev c) (next c) ≫= λ _,
  c ← load (Some e); set_prev (next c) (prev c) ≫= λ _,
  set_next (Some e) None ≫= λ _,
  set_prev (Some e) None ≫= λ _,
  set_list (Some e) None ≫= λ _,
  k ← get_len l;
  set_len l (k - 1) ≫= λ _,
  mret e.

Definition move (l e : loc) (at_ : ptr) : run loc :=
  if bool_decide (Some e = at_) then mret e
  else
    c ← load (Some e); set_next (prev c) (next c) ≫= λ _,
    c ← load (Some e); set_prev (next c) (prev c) ≫= λ _,
    c ← load at_;
    let n := next c in
    set_next at_ (Some e) ≫= λ _,
    set_prev (Some e) at_ ≫= λ _,
    set_next (Some e) n ≫= λ _,
    set_prev n (Some e) ≫= λ _,
    mret e.

Definition Remove (l e : loc) : run V :=
  c ← load (Some e);
  (if bool_decide (list_ c = Some l) then remove l e ≫= λ _, mret tt else mret tt) ≫= λ _,
  c ← load (Some e);
  mret (Value c).

Definition PushFront (l : loc) (v : V) : run loc :=
  lazyInit l ≫= λ _, insertValue l v (Some l).

Definition PushBack (l : loc) (v : V) : run loc :=
  lazyInit l ≫= λ _, root ← load (Some l); insertValue l v (prev root).

Definition InsertBefore (l : loc) (v : V) (mark : loc) : run ptr :=
  m ← load (Some mark);
  if bool_decide (list_ m <> Some l) then mret None
  else e ← insertValue l v (prev m); mret (Some e).

Definition InsertAfter (l : loc) (v : V) (mark : loc) : run ptr :=
  m ← load (Some mark);
  if bool_decide (list_ m <> Some l) then mret None
  else e ← insertValue l v (Some mark); mret (Some e).

Definition MoveToFront (l e : loc) : run unit :=
  c ← load (Some e);
  root ← load (Some l);
  if bool_decide (list_ c <> Some l \/ next root = Some e) then mret tt
  else move l e (Some l) ≫= λ _, mret tt.

Definition MoveToBack (l e : loc) : run unit :=
  c ← load (Some e);
  root ← load (Some l);
  if bool_decide (list_ c <> Some l \/ prev root = Some e) then mret tt
  else move l e (prev root) ≫= λ _, mret tt.

Definition MoveBefore (l e mark : loc) : run unit :=
  c ← load (Some e);
  m ← load (Some mark);
  if bool_decide (list_ c <> Some l \/ e = mark \/ list_ m <> Some l) then mret tt
  else move l e (prev m) ≫= λ _, mret tt.

Definition MoveAfter (l e mark : loc) : run unit :=
  c ← load (Some e);
  m ← load (Some mark);
  if bool_decide (list_ c <> Some l \/ e = mark \/ list_ m <> Some l) then mret tt
  else move l e (Some mark) ≫= λ _, mret tt.

(** [for i, e := other.Len(), start; i > 0; i, e = i-1, step(e) { l.insertValue(e.Value, at()) }] *)
Fixpoint copy_loop (step : loc -> run ptr) (at_ : run ptr) (l : loc) (i : nat) (e : ptr) : run unit :=
  match i with
  | O => mret tt
  | S i =>
      c ← load e;
      a ← at_;
      insertValue l (Value c) a ≫= λ _,
      match e with None => raise NilDereference | Some e => e ← step e; copy_loop step at_ l i e end
  end.

Definition PushBackList (l other : loc) : run unit :=
  lazyInit l ≫= λ _,
  n ← Len other;
  e ← Front other;
  copy_loop Element_Next (root ← load (Some l); mret (prev root)) l (Z.to_nat n) e.

Definition PushFrontList (l other : loc) : run unit :=
  lazyInit l ≫= λ _,
  n ← Len other;
  e ← Back other;
  copy_loop Element_Prev (mret (Some l)) l (Z.to_nat n) e.
End Store.
Arguments Element V : clear implicits.
Arguments store V : clear implicits.

Create Rewrite HintDb fields.

(** ** The fields of a store, and what writing one changes *)

Section Fields.
Context {V : Type}.
Implicit Types (h : store V) (a x e l : loc) (q : ptr).

Definition has h x : bool := bool_decide (is_Some (elts h !! x)).
Definition nxt h x : ptr := elts h !! x ≫= next.
Definition prv h x : ptr := elts h !! x ≫= prev.
Definition lst h x : ptr := elts h !! x ≫= list_.
Definition val h x : option V := Value <$> elts h !! x.

Definition upd a (f : Element V -> Element V) h : store V := MkStore (alter f a (elts h)) (lens h) (brk h).
Definition with_next a q h := upd a (λ c, MkElement q (prev c) (list_ c) (Value c)) h.
Definition with_prev a q h := upd a (λ c, MkElement (next c) q (list_ c) (Value c)) h.
Definition with_list a q h := upd a (λ c, MkElement (next c) (prev c) q (Value c)) h.
Definition with_len l n h : store V := MkStore (elts h) (<[l := n]> (lens h)) (brk h).

Lemma load_run a h : has h a -> exists c, load (Some a) h = Val (c, h)
  /\ next c = nxt h a /\ prev c = prv h a /\ list_ c = lst h a /\ Some (Value c) = val h a.
Proof.
  unfold has, nxt, prv, lst, val. intros [c E]%bool_decide_unpack. exists c.
  unfold load, get, mbind, M_bind. rewrite E. done.
Qed.

Lemma update_run a f h : has h a -> update (Some a) f h = Val (tt, upd a f h).
Proof.
  unfold has. intros [c E]%bool_decide_unpack. unfold update, load, get, mbind, M_bind. rewrite E. cbn.
  unfold put, upd. do 3 f_equal. symmetry. apply map_eq. intros x. destruct (decide (a = x)) as [<-|Hx].
  - by rewrite lookup_alter_eq, E, lookup_insert_eq.
  - by rewrite lookup_alter_ne, lookup_insert_ne.
Qed.

Lemma set_next_run a q h : has h a -> set_next (Some a) q h = Val (tt, with_next a q h).
Proof. apply update_run. Qed.
Lemma set_prev_run a q h : has h a -> set_prev (Some a) q h = Val (tt, with_prev a q h).
Proof. apply update_run. Qed.
Lemma set_list_run a q h : has h a -> set_list (Some a) q h = Val (tt, with_list a q h).
Proof. apply update_run. Qed.
Lemma set_len_run l n h : set_len l n h = Val (tt, with_len l n h).
Proof. done. Qed.
Lemma get_len_run l n h : lens h !! l = Some n -> get_len l h = Val (n, h).
Proof. intros E. unfold get_len, get, mbind, M_bind. by rewrite E. Qed.

Lemma has_upd a f h x : has (upd a f h) x = has h x.
Proof.
  unfold has. apply bool_decide_ext. cbn. destruct (decide (a = x)) as [<-|Hx].
  - rewrite lookup_alter_eq. apply fmap_is_Some.
  - by rewrite lookup_alter_ne.
Qed.

(** A field [g] of the object written, and of any other. *)
Lemma field_upd {B} (g : Element V -> option B) a f h x :
  elts (upd a f h) !! x ≫= g = if decide (x = a) then elts h !! a ≫= (g ∘ f) else elts h !! x ≫= g.
Proof.
  cbn. destruct (decide (x = a)) as [->|Hx].
  - rewrite lookup_alter_eq. by destruct (elts h !! a).
  - by rewrite lookup_alter_ne.
Qed.

Lemma field_same {B} (g : Element V -> option B) a f h x : (forall c, g (f c) = g c) ->
  elts (upd a f h) !! x ≫= g = elts h !! x ≫= g.
Proof.
  intros Hg. rewrite field_upd. case_decide as E; [|done]. subst. destruct (elts h !! a); [|done]. apply Hg.
Qed.

Lemma field_set a f h x q (g : Element V -> ptr) : has h a -> (forall c, g (f c) = q) ->
  elts (upd a f h) !! x ≫= g = if decide (x = a) then q else elts h !! x ≫= g.
Proof.
  unfold has. intros [c E]%bool_decide_unpack Hg. rewrite field_upd, E. case_decide; [|done]. apply Hg.
Qed.

Lemma nxt_with_next a q h x : has h a -> nxt (with_next a q h) x = if decide (x = a) then q else nxt h x.
Proof. intros H. by apply field_set. Qed.
Lemma prv_with_prev a q h x : has h a -> prv (with_prev a q h) x = if decide (x = a) then q else prv h x.
Proof. intros H. by apply field_set. Qed.
Lemma lst_with_list a q h x : has h a -> lst (with_list a q h) x = if decide (x = a) then q else lst h x.
Proof. intros H. by apply field_set. Qed.

Lemma nxt_with_prev a q h x : nxt (with_prev a q h) x = nxt h x.
Proof. by apply field_same. Qed.
Lemma nxt_with_list a q h x : nxt (with_list a q h) x = nxt h x.
Proof. by apply field_same. Qed.
Lemma prv_with_next a q h x : prv (with_next a q h) x = prv h x.
Proof. by apply field_same. Qed.
Lemma prv_with_list a q h x : prv (with_list a q h) x = prv h x.
Proof. by apply field_same. Qed.
Lemma lst_with_next a q h x : lst (with_next a q h) x = lst h x.
Proof. by apply field_same. Qed.
Lemma lst_with_prev a q h x : lst (with_prev a q h) x = lst h x.
Proof. by apply field_same. Qed.

Lemma val_upd a f h x : (forall c, Value (f c) = Value c) -> val (upd a f h) x = val h x.
Proof.
  intros Hf. unfold val. cbn. destruct (decide (a = x)) as [<-|Hx].
  - rewrite lookup_alter_eq. destruct (elts h !! a); [|done]. cbn. by rewrite Hf.
  - by rewrite lookup_alter_ne.
Qed.

Lemma has_with_len l n h x : has (with_len l n h) x = has h x.
Proof. done. Qed.
Lemma nxt_with_len l n h x : nxt (with_len l n h) x = nxt h x.
Proof. done. Qed.
Lemma prv_with_len l n h x : prv (with_len l n h) x = prv h x.
Proof. done. Qed.
Lemma lst_with_len l n h x : lst (with_len l n h) x = lst h x.
Proof. done. Qed.
Lemma val_with_len l n h x : val (with_len l n h) x = val h x.
Proof. done. Qed.
Lemma val_with_next a q h x : val (with_next a q h) x = val h x.
Proof. by apply val_upd. Qed.
Lemma val_with_prev a q h x : val (with_prev a q h) x = val h x.
Proof. by apply val_upd. Qed.
Lemma val_with_list a q h x : val (with_list a q h) x = val h x.
Proof. by apply val_upd. Qed.
Lemma has_with_next a q h x : has (with_next a q h) x = has h x.
Proof. apply has_upd. Qed.
Lemma has_with_prev a q h x : has (with_prev a q h) x = has h x.
Proof. apply has_upd. Qed.
Lemma has_with_list a q h x : has (with_list a q h) x = has h x.
Proof. apply has_upd. Qed.
End Fields.

#[export] Hint Rewrite @has_with_len @nxt_with_len @prv_with_len @lst_with_len @val_with_len @has_with_next @has_with_prev @has_with_list @nxt_with_prev @nxt_with_list
  @prv_with_next @prv_with_list @lst_with_next @lst_with_prev @val_with_next @val_with_prev @val_with_list : fields.
#[export] Hint Rewrite @nxt_with_next @prv_with_prev @lst_with_list using (autorewrite with fields; assumption) : fields.

(** Running an operation: one rewriting step per access. *)
Ltac has_tac := autorewrite with fields; assumption.
Ltac access :=
  match goal with
  | |- context [mbind _ (load (Some ?a)) ?h] =>
      let c := fresh "c" in let E := fresh "E" in
      destruct (load_run a h) as (c & E & ? & ? & ? & ?); [has_tac|rewrite (bind_Val _ _ _ _ _ E); clear E]
  | |- context [mbind _ (set_next (Some ?a) ?q) ?h] => rewrite (bind_Val _ _ _ _ _ (set_next_run a q h ltac:(has_tac)))
  | |- context [mbind _ (set_prev (Some ?a) ?q) ?h] => rewrite (bind_Val _ _ _ _ _ (set_prev_run a q h ltac:(has_tac)))
  | |- context [mbind _ (set_list (Some ?a) ?q) ?h] => rewrite (bind_Val _ _ _ _ _ (set_list_run a q h ltac:(has_tac)))
  | |- context [mbind _ (set_len ?l ?n) ?h] => rewrite (bind_Val _ _ _ _ _ (set_len_run l n h))
  | |- context [mbind _ (get_len ?l) ?h] => erewrite (bind_Val (get_len l) _ _ _ _ (get_len_run l _ h ltac:(eassumption)))
  end.

(** ** The effect of the three internal operations *)

(** [h'] differs from [h] in pointers only. *)
Record relinked {V} (h h' : store V) : Prop := {
  rl_has : forall x, has h' x = has h x;
  rl_val : forall x, val h' x = val h x;
  rl_brk : brk h' = brk h }.

Section Internal.
Context {V : Type}.
Implicit Types (h : store V) (a b e l : loc).

Lemma insert_run l e a b k h :
  has h a -> has h b -> has h e -> nxt h a = Some b -> e <> a -> lens h !! l = Some k ->
  exists h', insert_ l e (Some a) h = Val (e, h') /\ relinked h h'
  /\ (forall x, nxt h' x = if decide (x = e) then Some b else if decide (x = a) then Some e else nxt h x)
  /\ (forall x, prv h' x = if decide (x = b) then Some e else if decide (x = e) then Some a else prv h x)
  /\ (forall x, lst h' x = if decide (x = e) then Some l else lst h x)
  /\ lens h' = <[l := k + 1]> (lens h).
Proof.
  intros Ha Hb He Hn Hea Hk. unfold insert_. access. rewrite H, Hn. do 5 access.
  match goal with |- context [mbind _ (get_len l) ?h] => rewrite (bind_Val _ _ _ _ _ (get_len_run l k h Hk)) end.
  access. eexists. split; [reflexivity|]. split; [|split_and!].
  - split; intros; [by autorewrite with fields..|done].
  - intros x. autorewrite with fields. by repeat case_decide; subst.
  - intros x. autorewrite with fields. by repeat case_decide; subst.
  - intros x. by autorewrite with fields.
  - done.
Qed.

(** The two assignments that take [e] out, shared by remove and move. *)
Lemma unlink_run {A} e p n h (kk : M (store V) A) :
  has h e -> has h p -> has h n -> nxt h e = Some n -> prv h e = Some p -> p <> e ->
  exists h', 
  (c ← load (Some e); set_next (prev c) (next c) ≫= λ _, c ← load (Some e); set_prev (next c) (prev c) ≫= λ _, kk) h = kk h'
  /\ relinked h h'
  /\ (forall x, nxt h' x = if decide (x = p) then Some n else nxt h x)
  /\ (forall x, prv h' x = if decide (x = n) then Some p else prv h x)
  /\ (forall x, lst h' x = lst h x) /\ lens h' = lens h.
Proof.
  intros He Hp Hn En Ep Hpe. access. rewrite H, H0, En, Ep. access. access.
  autorewrite with fields in *. rewrite decide_False in * by done. rewrite H3, H4, En, Ep. access.
  eexists. split; [reflexivity|]. split; [|split_and!]; intros; try done.
  - split; intros; [by autorewrite with fields..|done].
  - by autorewrite with fields.
  - by autorewrite with fields.
  - by autorewrite with fields.
Qed.

Lemma remove_run l e p n k h :
  has h e -> has h p -> has h n -> nxt h e = Some n -> prv h e = Some p -> p <> e -> n <> e -> lens h !! l = Some k ->
  exists h', remove l e h = Val (e, h') /\ relinked h h'
  /\ (forall x, nxt h' x = if decide (x = e) then None else if decide (x = p) then Some n else nxt h x)
  /\ (forall x, prv h' x = if decide (x = e) then None else if decide (x = n) then Some p else prv h x)
  /\ (forall x, lst h' x = if decide (x = e) then None else lst h x)
  /\ lens h' = <[l := k - 1]> (lens h).
Proof.
  intros He Hp Hn En Ep Hpe Hne Hk. unfold remove.
  edestruct (unlink_run (A := loc) e p n h) as (h1 & E1 & R1 & N1 & P1 & L1 & K1); [done..|]. rewrite E1. clear E1.
  assert (He1 : has h1 e) by (by rewrite (rl_has _ _ R1)). rewrite <- K1 in Hk. do 3 access.
  match goal with |- context [mbind _ (get_len l) ?h] => rewrite (bind_Val _ _ _ _ _ (get_len_run l k h Hk)) end.
  access. eexists. split; [reflexivity|]. split; [|split_and!].
  - destruct R1. split; intros; [autorewrite with fields; auto..|done].
  - intros x. autorewrite with fields. by rewrite N1.
  - intros x. autorewrite with fields. by rewrite P1.
  - intros x. autorewrite with fields. by rewrite L1.
  - cbn. by rewrite K1.
Qed.

Lemma move_run l e a b p n h :
  has h e -> has h p -> has h n -> has h a -> has h b -> nxt h e = Some n -> prv h e = Some p -> p <> e -> e <> a ->
  (if decide (a = p) then Some n else nxt h a) = Some b ->
  exists h', move l e (Some a) h = Val (e, h') /\ relinked h h'
  /\ (forall x, nxt h' x = if decide (x = e) then Some b else if decide (x = a) then Some e
                          else if decide (x = p) then Some n else nxt h x)
  /\ (forall x, prv h' x = if decide (x = b) then Some e else if decide (x = e) then Some a
                          else if decide (x = n) then Some p else prv h x)
  /\ (forall x, lst h' x = lst h x) /\ lens h' = lens h.
Proof.
  intros He Hp Hn Ha Hb En Ep Hpe Hea Eb. unfold move. rewrite bool_decide_eq_false_2 by congruence.
  edestruct (unlink_run (A := loc) e p n h) as (h1 & E1 & R1 & N1 & P1 & L1 & K1); [done..|]. rewrite E1. clear E1.
  rewrite <- N1 in Eb. destruct R1 as [H1 V1 B1]. rewrite <- H1 in He, Ha, Hb.
  access. match goal with H : next c = _ |- _ => rewrite H, Eb end. do 4 access.
  eexists. split; [reflexivity|]. split; [|split_and!].
  - split; intros; [autorewrite with fields; auto..|done].
  - intros x. autorewrite with fields. by rewrite N1.
  - intros x. autorewrite with fields. by rewrite P1.
  - intros x. autorewrite with fields. by rewrite L1.
  - done.
Qed.
End Internal.

(** ** The specification: lists as sequences of elements *)

Section Spec.
Context {V : Type}.

Record lists : Type := MkLists { seqs : gmap loc (list loc); vals : gmap loc V; free : loc }.

Definition put_seq (l : loc) (xs : list loc) (σ : lists) : lists := MkLists (<[l := xs]> (seqs σ)) (vals σ) (free σ).
Definition alloc (v : V) (σ : lists) : lists := MkLists (seqs σ) (<[free σ := v]> (vals σ)) (Pos.succ (free σ)).
Definition add_list (σ : lists) : lists := MkLists (<[free σ := []]> (seqs σ)) (vals σ) (Pos.succ (free σ)).
Definition push_back (l : loc) (σ : lists) (v : V) : lists :=
  match seqs σ !! l with Some xs => put_seq l (xs ++ [free σ]) (alloc v σ) | None => σ end.
Definition push_front (l : loc) (σ : lists) (v : V) : lists :=
  match seqs σ !! l with Some xs => put_seq l (free σ :: xs) (alloc v σ) | None => σ end.

(** The values of a sequence of elements. *)
Definition values (σ : lists) (ys : list loc) : option (list V) := mapM (λ y, vals σ !! y) ys.

Inductive op : Type :=
  | ONew | OZero | OInit (l : loc) | OLen (l : loc) | OFront (l : loc) | OBack (l : loc)
  | ONext (e : loc) | OPrev (e : loc) | ORemove (l e : loc)
  | OPushFront (l : loc) (v : V) | OPushBack (l : loc) (v : V)
  | OInsertBefore (l : loc) (v : V) (mark : loc) | OInsertAfter (l : loc) (v : V) (mark : loc)
  | OMoveToFront (l e : loc) | OMoveToBack (l e : loc)
  | OMoveBefore (l e mark : loc) | OMoveAfter (l e mark : loc)
  | OPushBackList (l other : loc) | OPushFrontList (l other : loc).

Inductive result : Type := RUnit | RInt (n : Z) | RPtr (p : ptr) | RVal (v : V).

Definition in_no_list (e : loc) (σ : lists) : Prop := forall l xs, seqs σ !! l = Some xs -> e ∉ xs.

Inductive astep (σ : lists) : op -> result -> lists -> Prop :=
  | s_new : astep σ ONew (RPtr (Some (free σ))) (add_list σ)
  | s_zero : astep σ OZero (RPtr (Some (free σ))) (add_list σ)
  | s_init l : seqs σ !! l = Some [] -> astep σ (OInit l) (RPtr (Some l)) σ
  | s_len l xs : seqs σ !! l = Some xs -> astep σ (OLen l) (RInt (zlen xs)) σ
  | s_front l xs : seqs σ !! l = Some xs -> astep σ (OFront l) (RPtr (head xs)) σ
  | s_back l xs : seqs σ !! l = Some xs -> astep σ (OBack l) (RPtr (last xs)) σ
  | s_next l A e B : seqs σ !! l = Some (A ++ e :: B) -> astep σ (ONext e) (RPtr (head B)) σ
  | s_next_none e : in_no_list e σ -> astep σ (ONext e) (RPtr None) σ
  | s_prev l A e B : seqs σ !! l = Some (A ++ e :: B) -> astep σ (OPrev e) (RPtr (last A)) σ
  | s_prev_none e : in_no_list e σ -> astep σ (OPrev e) (RPtr None) σ
  | s_remove l A e B v : seqs σ !! l = Some (A ++ e :: B) -> vals σ !! e = Some v ->
      astep σ (ORemove l e) (RVal v) (put_seq l (A ++ B) σ)
  | s_remove_other l xs e v : seqs σ !! l = Some xs -> e ∉ xs -> vals σ !! e = Some v ->
      astep σ (ORemove l e) (RVal v) σ
  | s_push_front l xs v : seqs σ !! l = Some xs ->
      astep σ (OPushFront l v) (RPtr (Some (free σ))) (put_seq l (free σ :: xs) (alloc v σ))
  | s_push_back l xs v : seqs σ !! l = Some xs ->
      astep σ (OPushBack l v) (RPtr (Some (free σ))) (put_seq l (xs ++ [free σ]) (alloc v σ))
  | s_insert_before l A m B v : seqs σ !! l = Some (A ++ m :: B) ->
      astep σ (OInsertBefore l v m) (RPtr (Some (free σ))) (put_seq l (A ++ free σ :: m :: B) (alloc v σ))
  | s_insert_before_other l xs m v : seqs σ !! l = Some xs -> m ∉ xs -> astep σ (OInsertBefore l v m) (RPtr None) σ
  | s_insert_after l A m B v : seqs σ !! l = Some (A ++ m :: B) ->
      astep σ (OInsertAfter l v m) (RPtr (Some (free σ))) (put_seq l (A ++ m :: free σ :: B) (alloc v σ))
  | s_insert_after_other l xs m v : seqs σ !! l = Some xs -> m ∉ xs -> astep σ (OInsertAfter l v m) (RPtr None) σ
  | s_move_to_front l A e B : seqs σ !! l = Some (A ++ e :: B) -> astep σ (OMoveToFront l e) RUnit (put_seq l (e :: A ++ B) σ)
  | s_move_to_front_other l xs e : seqs σ !! l = Some xs -> e ∉ xs -> astep σ (OMoveToFront l e) RUnit σ
  | s_move_to_back l A e B : seqs σ !! l = Some (A ++ e :: B) -> astep σ (OMoveToBack l e) RUnit (put_seq l (A ++ B ++ [e]) σ)
  | s_move_to_back_other l xs e : seqs σ !! l = Some xs -> e ∉ xs -> astep σ (OMoveToBack l e) RUnit σ
  | s_move_before l A e B A' m B' : seqs σ !! l = Some (A ++ e :: B) -> A ++ B = A' ++ m :: B' ->
      astep σ (OMoveBefore l e m) RUnit (put_seq l (A' ++ e :: m :: B') σ)
  | s_move_before_other l xs e m : seqs σ !! l = Some xs -> e ∉ xs \/ e = m \/ m ∉ xs -> astep σ (OMoveBefore l e m) RUnit σ
  | s_move_after l A e B A' m B' : seqs σ !! l = Some (A ++ e :: B) -> A ++ B = A' ++ m :: B' ->
      astep σ (OMoveAfter l e m) RUnit (put_seq l (A' ++ m :: e :: B') σ)
  | s_move_after_other l xs e m : seqs σ !! l = Some xs -> e ∉ xs \/ e = m \/ m ∉ xs -> astep σ (OMoveAfter l e m) RUnit σ
  | s_push_back_list l o ys vs : seqs σ !! o = Some ys -> values σ ys = Some vs ->
      astep σ (OPushBackList l o) RUnit (foldl (push_back l) σ vs)
  | s_push_front_list l o ys vs : seqs σ !! o = Some ys -> values σ ys = Some vs ->
      astep σ (OPushFrontList l o) RUnit (foldl (push_front l) σ (reverse vs)).

(** The arguments an operation may be given: existing lists and elements; Init on an empty list. *)
Definition valid (σ : lists) (o : op) : Prop :=
  let L l := is_Some (seqs σ !! l) in
  let E e := is_Some (vals σ !! e) in
  match o with
  | ONew | OZero => True
  | OInit l => seqs σ !! l = Some []
  | OLen l | OFront l | OBack l | OPushFront l _ | OPushBack l _ => L l
  | ONext e | OPrev e => E e
  | ORemove l e | OMoveToFront l e | OMoveToBack l e | OInsertBefore l _ e | OInsertAfter l _ e => L l /\ E e
  | OMoveBefore l e m | OMoveAfter l e m => L l /\ E e /\ E m
  | OPushBackList l o | OPushFrontList l o => L l /\ L o
  end.

(** The operation of the package. *)
Definition exec (nil_ : V) (o : op) : M (store V) result :=
  match o with
  | ONew => l ← New nil_; mret (RPtr (Some l))
  | OZero => l ← new_list nil_; mret (RPtr (Some l))
  | OInit l => l ← Init l; mret (RPtr (Some l))
  | OLen l => n ← Len l; mret (RInt n)
  | OFront l => p ← Front l; mret (RPtr p)
  | OBack l => p ← Back l; mret (RPtr p)
  | ONext e => p ← Element_Next e; mret (RPtr p)
  | OPrev e => p ← Element_Prev e; mret (RPtr p)
  | ORemove l e => v ← Remove l e; mret (RVal v)
  | OPushFront l v => e ← PushFront l v; mret (RPtr (Some e))
  | OPushBack l v => e ← PushBack l v; mret (RPtr (Some e))
  | OInsertBefore l v m => p ← InsertBefore l v m; mret (RPtr p)
  | OInsertAfter l v m => p ← InsertAfter l v m; mret (RPtr p)
  | OMoveToFront l e => MoveToFront l e ≫= λ _, mret RUnit
  | OMoveToBack l e => MoveToBack l e ≫= λ _, mret RUnit
  | OMoveBefore l e m => MoveBefore l e m ≫= λ _, mret RUnit
  | OMoveAfter l e m => MoveAfter l e m ≫= λ _, mret RUnit
  | OPushBackList l o => PushBackList l o ≫= λ _, mret RUnit
  | OPushFrontList l o => PushFrontList l o ≫= λ _, mret RUnit
  end.

(** ** The store that implements a state of the specification *)

(** An initialised ring, or the zero List. *)
Definition ring_of (h : store V) (l : loc) (xs : list loc) : Prop :=
  cycle (nxt h) (prv h) l xs \/ (xs = [] /\ nxt h l = None).

Record models (h : store V) (σ : lists) : Prop := {
  m_brk : brk h = free σ;
  m_seq : forall l xs, seqs σ !! l = Some xs ->
    lens h !! l = Some (zlen xs) /\ has h l /\ lst h l = None /\ vals σ !! l = None /\ NoDup xs /\ ring_of h l xs;
  m_val : forall e v, vals σ !! e = Some v -> val h e = Some v;
  m_owner : forall l xs e, seqs σ !! l = Some xs -> (e ∈ xs <-> lst h e = Some l);
  m_elem : forall e l, lst h e = Some l -> is_Some (vals σ !! e) /\ is_Some (seqs σ !! l);
  m_fresh : forall x, has h x -> (x < free σ)%positive }.
End Spec.
Arguments lists V : clear implicits.
Arguments op V : clear implicits.
Arguments result V : clear implicits.

Section Simulation.
Context {V : Type}.
Implicit Types (h : store V) (σ : lists V) (a b e l : loc) (xs : list loc).

Lemma val_has h e v : val h e = Some v -> has h e.
Proof. unfold val, has. intros H. apply bool_decide_pack. destruct (elts h !! e); [by eexists|done]. Qed.

Lemma models_has h σ e v : models h σ -> vals σ !! e = Some v -> has h e.
Proof. intros Hm He. apply (val_has _ _ v). by apply (m_val _ _ Hm). Qed.

Lemma models_NoDup h σ l xs : models h σ -> seqs σ !! l = Some xs -> NoDup (l :: xs).
Proof.
  intros Hm Hl. destruct (m_seq _ _ Hm _ _ Hl) as (_ & _ & H1 & _ & H2 & _). apply NoDup_cons. split; [|done].
  intros Hin. apply (m_owner _ _ Hm _ _ _ Hl) in Hin. congruence.
Qed.

Lemma models_in h σ l xs e : models h σ -> seqs σ !! l = Some xs -> e ∈ l :: xs -> has h e.
Proof.
  intros Hm Hl [->|He]%elem_of_cons; [by apply (m_seq _ _ Hm _ _ Hl)|].
  apply (m_owner _ _ Hm _ _ _ Hl), (m_elem _ _ Hm) in He as [[v Hv] _]. by eapply models_has.
Qed.

(** Rearranging one list, possibly with elements that were in no list. *)
Lemma models_update h h' σ l xs xs' :
  models h σ -> seqs σ !! l = Some xs -> relinked h h' ->
  (forall x, x ∉ l :: xs -> x ∉ xs' -> nxt h' x = nxt h x /\ prv h' x = prv h x) ->
  (forall x, lst h' x = if decide (x ∈ xs') then Some l else if decide (x ∈ xs) then None else lst h x) ->
  lens h' = <[l := zlen xs']> (lens h) -> NoDup xs' ->
  (forall x, x ∈ xs' -> is_Some (vals σ !! x) /\ (x ∈ xs \/ lst h x = None)) ->
  cycle (nxt h') (prv h') l xs' -> models h' (put_seq l xs' σ).
Proof.
  intros Hm Hl [Rh Rv Rb] Hout Hlst Hlens Hnd Hin Hc.
  destruct (m_seq _ _ Hm _ _ Hl) as (_ & Hhas & Hroot & Hlv & _).
  assert (Hl' : l ∉ xs') by (intros [[? ?] _]%Hin; congruence).
  assert (Hsame : forall l2 ys x, seqs σ !! l2 = Some ys -> l2 <> l -> x ∈ l2 :: ys -> (x ∉ l :: xs) /\ x ∉ xs').
  { intros l2 ys x H2 Hne Hx. destruct (m_seq _ _ Hm _ _ H2) as (_ & _ & Hroot2 & Hlv2 & _).
    apply elem_of_cons in Hx as [->|Hx].
    - split; [|by intros [[? ?] _]%Hin; congruence]. intros [->|Hx]%elem_of_cons; [done|].
      apply (m_owner _ _ Hm _ _ _ Hl) in Hx. congruence.
    - apply (m_owner _ _ Hm _ _ _ H2) in Hx. split.
      + intros [->|Hx']%elem_of_cons; [congruence|]. apply (m_owner _ _ Hm _ _ _ Hl) in Hx'. congruence.
      + intros [_ [Hx'|Hx']]%Hin; [apply (m_owner _ _ Hm _ _ _ Hl) in Hx'|]; congruence. }
  split; cbn [put_seq seqs vals free].
  - by rewrite Rb, (m_brk _ _ Hm).
  - intros l2 ys. destruct (decide (l2 = l)) as [->|Hne].
    + rewrite lookup_insert_eq. intros [= <-]. rewrite Hlens, lookup_insert_eq, Rh, Hlst, decide_False by done.
      split_and!; try done; [by case_decide|by left].
    + rewrite lookup_insert_ne by done. intros H2. destruct (m_seq _ _ Hm _ _ H2) as (? & ? & ? & ? & ? & Hr).
      rewrite Hlens, lookup_insert_ne, Rh by done.
      destruct (Hsame l2 ys l2 H2 Hne) as [Hs1 Hs2]; [left|]. split_and!; try done.
      * rewrite Hlst, !decide_False; try done. intros ?. apply Hs1. by right.
      * destruct Hr as [Hr|[-> Hr]]; [left|right].
        -- eapply cycle_ext; [|exact Hr]. intros x Hx. by destruct (Hsame l2 ys x H2 Hne Hx); apply Hout.
        -- split; [done|]. by rewrite (proj1 (Hout _ Hs1 Hs2)).
  - intros e v Hv. rewrite Rv. by apply (m_val _ _ Hm).
  - intros l2 ys e. rewrite Hlst. destruct (decide (l2 = l)) as [->|Hne].
    + rewrite lookup_insert_eq. intros [= <-]. case_decide; [done|]. split; [done|]. case_decide; [done|].
      intros Hx. by apply (m_owner _ _ Hm _ _ _ Hl) in Hx.
    + rewrite lookup_insert_ne by done. intros H2. rewrite (m_owner _ _ Hm _ _ _ H2).
      case_decide as D1; [|case_decide as D2].
      * apply Hin in D1 as [_ [D1|D1]]; [apply (m_owner _ _ Hm _ _ _ Hl) in D1|]; split; congruence.
      * apply (m_owner _ _ Hm _ _ _ Hl) in D2. split; congruence.
      * done.
  - intros e l2. rewrite Hlst. case_decide as D1; [|case_decide; [done|]].
    + intros [= <-]. split; [by apply Hin|]. rewrite lookup_insert_eq. by eexists.
    + intros [? ?]%(m_elem _ _ Hm). split; [done|]. by apply lookup_insert_is_Some'; right.
  - intros x. rewrite Rh. apply (m_fresh _ _ Hm).
Qed.

(** The neighbours at a place of the ring. *)
Lemma place l pre post : exists A a b B, l :: pre = A ++ [a] /\ post ++ [l] = b :: B /\
  l :: (pre ++ post) ++ [l] = A ++ a :: b :: B /\ last (l :: pre) = Some a /\ head (post ++ [l]) = Some b.
Proof.
  destruct (last (l :: pre)) as [a|] eqn:E; [|by apply last_None in E].
  apply last_Some in E as [A HA]. destruct (post ++ [l]) as [|b B] eqn:HB; [by destruct post|].
  exists A, a, b, B. split_and!; try done.
  rewrite <- app_assoc, HB. change (l :: pre ++ b :: B) with ((l :: pre) ++ b :: B). by rewrite HA, <- app_assoc.
Qed.

Lemma cycle_at (nx pv : loc -> ptr) l pre post A a b B :
  l :: pre = A ++ [a] -> post ++ [l] = b :: B -> cycle nx pv l (pre ++ post) -> chain nx pv (A ++ a :: b :: B).
Proof.
  unfold cycle. intros E1 E2. rewrite <- app_assoc, E2. change (l :: pre ++ b :: B) with ((l :: pre) ++ b :: B).
  by rewrite E1, <- app_assoc.
Qed.

Lemma cycle_at_inv (nx pv : loc -> ptr) l pre e post A a b B :
  l :: pre = A ++ [a] -> post ++ [l] = b :: B -> chain nx pv (A ++ a :: e :: b :: B) -> cycle nx pv l (pre ++ e :: post).
Proof.
  unfold cycle. intros E1 E2. rewrite <- app_assoc. cbn [app]. rewrite E2.
  change (l :: pre ++ e :: b :: B) with ((l :: pre) ++ e :: b :: B). by rewrite E1, <- app_assoc.
Qed.

Lemma elem_place l pre post A a b B x : l :: pre = A ++ [a] -> post ++ [l] = b :: B ->
  x ∈ A ++ a :: b :: B <-> x ∈ l :: pre ++ post.
Proof.
  intros E1 E2. replace (A ++ a :: b :: B) with ((l :: pre) ++ post ++ [l]) by (by rewrite E1, E2, <- app_assoc).
  rewrite elem_of_cons, !elem_of_app, elem_of_cons, list_elem_of_singleton. tauto.
Qed.

Lemma simple_place l pre post A a b B : l :: pre = A ++ [a] -> post ++ [l] = b :: B ->
  NoDup (l :: pre ++ post) -> simple (A ++ a :: b :: B).
Proof.
  intros E1 E2 H. replace (A ++ a :: b :: B) with (l :: (pre ++ post) ++ [l]); [by apply simple_cycle|].
  rewrite <- app_assoc, E2. change (l :: pre ++ b :: B) with ((l :: pre) ++ b :: B). by rewrite E1, <- app_assoc.
Qed.

Lemma NoDup_mid {A} (pre : list A) (e : A) (post : list A) : NoDup (pre ++ e :: post) <-> (e ∉ pre ++ post) /\ NoDup (pre ++ post).
Proof. rewrite <- Permutation_middle. apply NoDup_cons. Qed.

Lemma elem_mid {A} (pre : list A) (e : A) (post : list A) x : x ∈ pre ++ e :: post <-> x = e \/ x ∈ pre ++ post.
Proof. rewrite <- Permutation_middle. apply elem_of_cons. Qed.

(** A new cell at the next unused address, which is in no list yet. *)
Lemma models_extend h σ c ls : models h σ -> list_ c = None ->
  (forall l, is_Some (seqs σ !! l) -> ls !! l = lens h !! l) ->
  let h1 := MkStore (<[free σ := c]> (elts h)) ls (Pos.succ (free σ)) in
  models h1 (MkLists (seqs σ) (vals σ) (Pos.succ (free σ)))
  /\ (forall x, x <> free σ -> nxt h1 x = nxt h x /\ prv h1 x = prv h x)
  /\ elts h1 !! free σ = Some c /\ vals σ !! free σ = None /\ seqs σ !! free σ = None.
Proof.
  intros Hm Hc Hls h1. assert (Hold : forall x, has h x -> x <> free σ).
  { intros x Hx%(m_fresh _ _ Hm) ->. lia. }
  assert (Fld : forall x, x <> free σ -> elts h1 !! x = elts h !! x) by (intros x Hx; by apply lookup_insert_ne).
  assert (Hcell : elts h1 !! free σ = Some c) by apply lookup_insert_eq.
  assert (Hlst : lst h1 (free σ) = None) by (unfold lst; by rewrite Hcell).
  assert (Hlst' : forall x, x <> free σ -> lst h1 x = lst h x) by (intros x Hx; unfold lst; by rewrite Fld).
  split; [|split_and!].
  - split; cbn [seqs vals free]; [done| | | | |].
    + intros l xs Hl. destruct (m_seq _ _ Hm _ _ Hl) as (H1 & H2 & H3 & H4 & H5 & H6). pose proof (Hold _ H2) as Hne.
      split_and!; try done.
      * unfold h1. cbn. rewrite Hls by (by eexists). done.
      * unfold has. by rewrite Fld.
      * by rewrite Hlst'.
      * destruct H6 as [H6|[-> H6]]; [left|right].
        -- eapply cycle_ext; [|exact H6]. intros x Hx. unfold nxt, prv. rewrite !Fld; [done| ..]; apply Hold; by eapply models_in.
        -- split; [done|]. unfold nxt. by rewrite Fld.
    + intros e w He. unfold val. rewrite Fld; [by apply (m_val _ _ Hm)|]. apply Hold. by eapply models_has.
    + intros l xs e Hl. rewrite (m_owner _ _ Hm _ _ _ Hl). destruct (decide (e = free σ)) as [->|Hne]; [|by rewrite Hlst'].
      rewrite Hlst. split; [|done]. intros [[w Hx] _]%(m_elem _ _ Hm). apply (models_has _ _ _ _ Hm) in Hx. by apply Hold in Hx.
    + intros e l. destruct (decide (e = free σ)) as [->|Hne]; [by rewrite Hlst|]. rewrite Hlst' by done. apply (m_elem _ _ Hm).
    + intros x. destruct (decide (x = free σ)) as [->|Hne]; [lia|].
      unfold has. rewrite Fld by done. intros Hx%(m_fresh _ _ Hm). lia.
  - intros x Hx. unfold nxt, prv. by rewrite Fld.
  - done.
  - apply eq_None_not_Some. intros [w Hw]. apply (models_has _ _ _ _ Hm) in Hw. by apply Hold in Hw.
  - apply eq_None_not_Some. intros [xs Hx]. apply (m_seq _ _ Hm) in Hx as (_ & Hh & _). by apply Hold in Hh.
Qed.

Lemma new_element_ok h σ v : models h σ ->
  exists h1, new_element v h = Val (free σ, h1) /\ models h1 (alloc v σ) /\ lst h1 (free σ) = None
  /\ (forall x, x <> free σ -> nxt h1 x = nxt h x /\ prv h1 x = prv h x).
Proof.
  intros Hm. unfold new_element, get, put, mbind, M_bind, mret, M_ret. rewrite (m_brk _ _ Hm).
  destruct (models_extend h σ (MkElement None None None v) (lens h) Hm) as (Hm1 & Ho & Hc & Hv & Hs); [done..|].
  assert (Hl : lst (MkStore (<[free σ:=MkElement None None None v]> (elts h)) (lens h) (Pos.succ (free σ))) (free σ) = None)
    by (unfold lst; by rewrite Hc).
  eexists. split; [reflexivity|]. split; [|by split]. destruct Hm1 as [M1 M2 M3 M4 M5 M6].
  split; cbn [alloc seqs vals free] in *; [done| | |done| |done].
  - intros l xs Hx. destruct (M2 l xs Hx) as (? & ? & ? & ? & ? & ?). split_and!; try done. rewrite lookup_insert_ne; congruence.
  - intros e w. destruct (decide (e = free σ)) as [->|Hne].
    + rewrite lookup_insert_eq. intros [= ->]. unfold val. by rewrite Hc.
    + rewrite lookup_insert_ne by done. apply M3.
  - intros e l He. destruct (M5 e l He) as [? ?]. split; [|done]. by apply lookup_insert_is_Some'; right.
Qed.

Lemma new_list_ok h σ v : models h σ -> exists h1, new_list v h = Val (free σ, h1) /\ models h1 (add_list σ).
Proof.
  intros Hm. unfold new_list, get, put, mbind, M_bind, mret, M_ret. rewrite (m_brk _ _ Hm).
  destruct (models_extend h σ (MkElement None None None v) (<[free σ := 0]> (lens h)) Hm) as (Hm1 & Ho & Hc & Hv & Hs); [done| |].
  { intros l [xs Hl]. apply lookup_insert_ne. intros <-. apply (m_seq _ _ Hm) in Hl as (_ & Hh & _).
    apply (m_fresh _ _ Hm) in Hh. lia. }
  eexists. split; [reflexivity|]. destruct Hm1 as [M1 M2 M3 M4 M5 M6].
  split; cbn [add_list seqs vals free] in *; [done| |done| | |done].
  - intros l xs. destruct (decide (l = free σ)) as [->|Hne]; [|rewrite lookup_insert_ne by done; apply M2].
    rewrite lookup_insert_eq. intros [= <-]. split_and!; try done.
    + cbn. by rewrite lookup_insert_eq.
    + unfold has. rewrite Hc. apply bool_decide_pack. by eexists.
    + unfold lst. by rewrite Hc.
    + constructor.
    + right. split; [done|]. unfold nxt. by rewrite Hc.
  - intros l xs e. destruct (decide (l = free σ)) as [->|Hne]; [|rewrite lookup_insert_ne by done; apply M4].
    rewrite lookup_insert_eq. intros [= <-]. split; [by intros ?%elem_of_nil|]. intros [_ [? ?]]%M5. congruence.
  - intros e l He. destruct (M5 e l He) as [? ?]. split; [done|]. by apply lookup_insert_is_Some'; right.
Qed.

(** Linking an element that is in no list between [pre] and [post]. *)
Lemma insert_ok h σ l pre post a e : models h σ -> seqs σ !! l = Some (pre ++ post) ->
  cycle (nxt h) (prv h) l (pre ++ post) -> last (l :: pre) = Some a -> is_Some (vals σ !! e) -> lst h e = None ->
  exists h', insert_ l e (Some a) h = Val (e, h') /\ models h' (put_seq l (pre ++ e :: post) σ)
  /\ cycle (nxt h') (prv h') l (pre ++ e :: post).
Proof.
  intros Hm Hl Hc Ha He Hle. destruct (place l pre post) as (A & a' & b & B & E1 & E2 & E3 & Ha' & Hb).
  rewrite Ha in Ha'. injection Ha' as <-. pose proof (cycle_at _ _ _ _ _ _ _ _ _ E1 E2 Hc) as Hch.
  pose proof (models_NoDup _ _ _ _ Hm Hl) as Hnd.
  assert (Hall : forall x, x ∈ A ++ a :: b :: B -> has h x).
  { intros x Hx%(elem_place _ _ _ _ _ _ _ _ E1 E2). by eapply models_in. }
  assert (Heout : e ∉ A ++ a :: b :: B).
  { intros [->|Hx]%(elem_place _ _ _ _ _ _ _ _ E1 E2)%elem_of_cons.
    - destruct (m_seq _ _ Hm _ _ Hl) as (_ & _ & _ & Hv & _). destruct He. congruence.
    - apply (m_owner _ _ Hm _ _ _ Hl) in Hx. congruence. }
  assert (e <> a /\ e <> b) as [Hea Heb] by (split; intros ->; apply Heout; apply elem_of_app; right; [left|right; left]).
  destruct (insert_run l e a b (zlen (pre ++ post)) h) as (h' & Er & R & N & P & L & K).
  { apply Hall, elem_of_app. right. left. }
  { apply Hall, elem_of_app. right. right. left. }
  { destruct He as [v He]. by eapply models_has. }
  { by apply (chain_next _ _ _ _ _ _ Hch). }
  { done. }
  { by apply (m_seq _ _ Hm). }
  assert (Hc' : cycle (nxt h') (prv h') l (pre ++ e :: post)).
  { eapply cycle_at_inv; [done..|]. eapply (chain_insert (nxt h) (prv h)); [by eapply simple_place|done| .. |done].
    - intros x ? ?. by rewrite N, !decide_False.
    - intros x ? ?. by rewrite P, !decide_False.
    - by rewrite N, decide_False, decide_True.
    - by rewrite N, decide_True.
    - by rewrite P, decide_False, decide_True.
    - by rewrite P, decide_True. }
  exists h'. split; [done|]. split; [|done]. eapply models_update; try done.
  - intros x Hx Hx'. assert (Hxa : x ∉ A ++ a :: b :: B) by (by rewrite (elem_place _ _ _ _ _ _ _ _ E1 E2)).
    rewrite N, P, !decide_False; try done; intros ->;
      solve [apply Hx'; apply elem_mid; by left|apply Hxa, elem_of_app; right; (left || right; left)].
  - intros x. rewrite L. destruct (decide (x = e)) as [->|Hx].
    + rewrite decide_True; [done|]. apply elem_mid. by left.
    + destruct (decide (x ∈ pre ++ post)) as [Hin|Hin].
      * rewrite decide_True by (apply elem_mid; by right). by apply (m_owner _ _ Hm _ _ _ Hl).
      * rewrite decide_False; [done|]. by intros [?|?]%elem_mid.
  - rewrite K. f_equal. rewrite !zlen_app. cbn [length]. lia.
  - apply NoDup_mid. split; [|by apply NoDup_cons in Hnd as []].
    intros Hx. apply Heout, (elem_place _ _ _ _ _ _ _ _ E1 E2). by right.
  - intros x [->|Hx]%elem_mid; [auto|]. split; [|by left]. by apply (m_owner _ _ Hm _ _ _ Hl), (m_elem _ _ Hm) in Hx as [? _].
Qed.

Lemma insertValue_ok h σ l pre post a v : models h σ -> seqs σ !! l = Some (pre ++ post) ->
  cycle (nxt h) (prv h) l (pre ++ post) -> last (l :: pre) = Some a ->
  exists h', insertValue l v (Some a) h = Val (free σ, h') /\ models h' (put_seq l (pre ++ free σ :: post) (alloc v σ))
  /\ cycle (nxt h') (prv h') l (pre ++ free σ :: post).
Proof.
  intros Hm Hl Hc Ha. destruct (new_element_ok h σ v Hm) as (h1 & E1 & Hm1 & L1 & N1).
  unfold insertValue. rewrite (bind_Val _ _ _ _ _ E1).
  apply insert_ok; [done|done| |done| |done].
  - eapply cycle_ext; [|exact Hc]. intros x Hx. apply N1. intros ->.
    apply (models_in _ _ _ _ _ Hm Hl), (m_fresh _ _ Hm) in Hx. lia.
  - cbn. rewrite lookup_insert_eq. by eexists.
Qed.

(** Only the ring of an empty list changes. *)
Lemma init_ok h σ l k : models h σ -> seqs σ !! l = Some [] -> k = 0 ->
  let h' := with_len l k (with_prev l (Some l) (with_next l (Some l) h)) in
  models h' σ /\ cycle (nxt h') (prv h') l [].
Proof.
  intros Hm Hl -> h'. assert (Hh : has h l) by (eapply models_in; [done..|left]).
  assert (Hc : cycle (nxt h') (prv h') l []).
  { split_and!; [| |done]; unfold h'; autorewrite with fields; by rewrite decide_True. }
  split; [|done]. replace σ with (put_seq l [] σ) by (destruct σ; unfold put_seq; cbn in *; by rewrite insert_id).
  apply (models_update h _ _ _ []); try done.
  - split; intros; unfold h'; [by autorewrite with fields..|done].
  - intros x Hx _. unfold h'. autorewrite with fields. rewrite !decide_False; [done| ..]; intros ->; apply Hx; left.
  - intros x. rewrite decide_False by (by apply not_elem_of_nil). rewrite decide_False by (by apply not_elem_of_nil).
    unfold h'. by autorewrite with fields.
  - constructor.
  - by intros x ?%elem_of_nil.
Qed.

Lemma Init_ok h σ l : models h σ -> seqs σ !! l = Some [] ->
  exists h', Init l h = Val (l, h') /\ models h' σ /\ cycle (nxt h') (prv h') l [].
Proof.
  intros Hm Hl. assert (Hh : has h l) by (eapply models_in; [done..|left]).
  unfold Init. do 3 access. eexists. split; [reflexivity|]. by apply init_ok.
Qed.

Lemma lazyInit_ok h σ l xs : models h σ -> seqs σ !! l = Some xs ->
  exists h', lazyInit l h = Val (tt, h') /\ models h' σ /\ cycle (nxt h') (prv h') l xs.
Proof.
  intros Hm Hl. destruct (m_seq _ _ Hm _ _ Hl) as (Hlen & Hh & _ & _ & _ & Hr). unfold lazyInit. access.
  rewrite H. destruct Hr as [Hr|[-> Hr]].
  - rewrite bool_decide_eq_false_2; [by exists h|]. unfold cycle in Hr.
    destruct xs as [|x xs]; cbn [app] in Hr; apply chain_cons in Hr as [-> _]; done.
  - rewrite Hr, bool_decide_eq_true_2 by done. destruct (Init_ok h σ l Hm Hl) as (h' & E & ? & ?).
    exists h'. by rewrite (bind_Val _ _ _ _ _ E).
Qed.

Lemma initialised h σ l A e B : models h σ -> seqs σ !! l = Some (A ++ e :: B) ->
  cycle (nxt h) (prv h) l (A ++ e :: B).
Proof. intros Hm Hl. apply (m_seq _ _ Hm) in Hl as (_ & _ & _ & _ & _ & [Hr|[Hr _]]); [done|]. by destruct A. Qed.

(** The neighbours of a member. *)
Lemma neighbours h σ l pre e post : models h σ -> seqs σ !! l = Some (pre ++ e :: post) ->
  exists A p n B, l :: pre = A ++ [p] /\ post ++ [l] = n :: B /\ last (l :: pre) = Some p /\ head (post ++ [l]) = Some n
  /\ nxt h e = Some n /\ prv h e = Some p /\ has h p /\ has h n /\ p <> e /\ n <> e
  /\ chain (nxt h) (prv h) (A ++ p :: e :: n :: B) /\ NoDup (l :: pre ++ post) /\ (e ∉ A ++ p :: n :: B)
  /\ simple (A ++ p :: e :: n :: B).
Proof.
  intros Hm Hl. destruct (place l pre post) as (A & p & n & B & E1 & E2 & _ & Hp & Hn). exists A, p, n, B.
  pose proof (models_NoDup _ _ _ _ Hm Hl) as Hnd. pose proof (initialised _ _ _ _ _ _ Hm Hl) as Hc.
  change (l :: pre ++ e :: post) with ((l :: pre) ++ e :: post) in Hnd.
  assert (Hnd2 := Hnd). apply NoDup_mid in Hnd as [He Hnd].
  change ((l :: pre) ++ post) with (l :: pre ++ post) in *. rewrite <- (elem_place _ _ _ _ _ _ _ _ E1 E2) in He.
  assert (Hc' : chain (nxt h) (prv h) (A ++ p :: e :: n :: B)).
  { apply (cycle_at _ _ l pre (e :: post)); [done| |done]. cbn. by rewrite E2. }
  destruct (chain_neighbours _ _ _ _ _ _ _ Hc') as (? & ? & ? & ?).
  assert (Hall : forall x, x ∈ A ++ p :: n :: B -> has h x /\ x <> e).
  { intros x Hx. split; [|by intros ->]. apply (elem_place _ _ _ _ _ _ _ _ E1 E2) in Hx. eapply models_in; [done..|].
    change (l :: pre ++ e :: post) with ((l :: pre) ++ e :: post). apply elem_mid. by right. }
  assert (Hip : p ∈ A ++ p :: n :: B) by (apply elem_of_app; right; left).
  assert (Hin : n ∈ A ++ p :: n :: B) by (apply elem_of_app; right; right; left).
  split_and!; try done; try (by apply Hall).
  apply (simple_place l pre (e :: post)); [done|cbn; by rewrite E2|done].
Qed.

Lemma remove_ok h σ l pre e post : models h σ -> seqs σ !! l = Some (pre ++ e :: post) ->
  exists h', remove l e h = Val (e, h') /\ models h' (put_seq l (pre ++ post) σ).
Proof.
  intros Hm Hl. pose proof (models_in _ _ _ _ e Hm Hl) as He. 
  destruct (neighbours _ _ _ _ _ _ Hm Hl) as (A & p & n & B & E1 & E2 & _ & _ & En & Ep & Hp & Hn & Hpe & Hne & Hc & Hnd & Heo & Hs).
  destruct (remove_run l e p n (zlen (pre ++ e :: post)) h) as (h' & Er & R & N & P & L & K); try done.
  { apply He. right. apply elem_mid. by left. }
  { by apply (m_seq _ _ Hm). }
  exists h'. split; [done|]. apply NoDup_cons in Hnd as [Hlo Hnd].
  assert (Heo' : e ∉ pre ++ post).
  { intros Hx. apply Heo, (elem_place _ _ _ _ _ _ _ _ E1 E2). by right. }
  eapply models_update; try done.
  - intros x Hx _. rewrite elem_of_cons, elem_mid in Hx.
    assert (x ∉ A ++ p :: n :: B) by (rewrite (elem_place _ _ _ _ _ _ _ _ E1 E2), elem_of_cons; tauto).
    rewrite N, P, !decide_False; try done; intros ->; (tauto || (apply H, elem_of_app; right; (left || right; left))).
  - intros x. rewrite L. destruct (decide (x = e)) as [->|Hx].
    + rewrite decide_False, decide_True; [done|by apply elem_mid; left|done].
    + destruct (decide (x ∈ pre ++ post)) as [Hi|Hi].
      * apply (m_owner _ _ Hm _ _ _ Hl). apply elem_mid. by right.
      * rewrite decide_False; [done|]. by intros [?|?]%elem_mid.
  - rewrite K. f_equal. rewrite !zlen_app. cbn [length]. lia.
  - intros x Hx. assert (x ∈ pre ++ e :: post) by (apply elem_mid; by right). split; [|by left].
    by apply (m_owner _ _ Hm _ _ _ Hl), (m_elem _ _ Hm) in H as [? _].
  - assert (Hc' : chain (nxt h') (prv h') (A ++ p :: n :: B)).
    { eapply (chain_remove (nxt h) (prv h)); [exact Hs|done| | | | |done].
      - intros x ? ?. by rewrite N, !decide_False.
      - intros x ? ?. by rewrite P, !decide_False.
      - by rewrite N, decide_False, decide_True.
      - by rewrite P, decide_False, decide_True. }
    unfold cycle. rewrite <- app_assoc, E2. change (l :: pre ++ n :: B) with ((l :: pre) ++ n :: B). by rewrite E1, <- app_assoc.
Qed.

Lemma move_ok h σ l pre e post pre' post' a : models h σ -> seqs σ !! l = Some (pre ++ e :: post) ->
  pre ++ post = pre' ++ post' -> last (l :: pre') = Some a ->
  exists h', move l e (Some a) h = Val (e, h') /\ models h' (put_seq l (pre' ++ e :: post') σ).
Proof.
  intros Hm Hl Heq Ha. assert (He : has h e) by (eapply models_in; [done..|]; right; apply elem_mid; by left).
  destruct (neighbours _ _ _ _ _ _ Hm Hl) as (A & p & n & B & E1 & E2 & _ & _ & En & Ep & Hp & Hn & Hpe & Hne & Hc & Hnd & Heo & Hs).
  destruct (place l pre' post') as (A' & a' & b & B' & E1' & E2' & _ & Ha' & Hb). rewrite Ha in Ha'. injection Ha' as <-.
  set (nx x := if decide (x = p) then Some n else nxt h x). set (pv x := if decide (x = n) then Some p else prv h x).
  assert (Hc1 : cycle nx pv l (pre ++ post)).
  { assert (Hc1 : chain nx pv (A ++ p :: n :: B)).
    { eapply (chain_remove (nxt h) (prv h)); [exact Hs|done| | | | |done]; unfold nx, pv.
      - intros x ? ?. by rewrite decide_False.
      - intros x ? ?. by rewrite decide_False.
      - by rewrite decide_True.
      - by rewrite decide_True. }
    unfold cycle. rewrite <- app_assoc, E2. change (l :: pre ++ n :: B) with ((l :: pre) ++ n :: B). by rewrite E1, <- app_assoc. }
  assert (Hmem : forall x, x ∈ A ++ p :: n :: B <-> x ∈ A' ++ a :: b :: B').
  { intros x. rewrite (elem_place _ _ _ _ _ _ _ _ E1 E2), (elem_place _ _ _ _ _ _ _ _ E1' E2'). by rewrite Heq. }
  assert (Hall : forall x, x ∈ A ++ p :: n :: B -> has h x /\ x <> e).
  { intros x Hx. split; [|by intros ->]. apply (elem_place _ _ _ _ _ _ _ _ E1 E2) in Hx. eapply models_in; [done..|].
    change (l :: pre ++ e :: post) with ((l :: pre) ++ e :: post). apply elem_mid. by right. }
  assert (Hia : a ∈ A' ++ a :: b :: B') by (apply elem_of_app; right; left).
  assert (Hib : b ∈ A' ++ a :: b :: B') by (apply elem_of_app; right; right; left).
  assert (Hip : p ∈ A ++ p :: n :: B) by (apply elem_of_app; right; left).
  assert (Hin : n ∈ A ++ p :: n :: B) by (apply elem_of_app; right; right; left).
  destruct (Hall a) as [Hha Hae]; [by apply Hmem|]. destruct (Hall b) as [Hhb Hbe]; [by apply Hmem|].
  rewrite Heq in Hc1. pose proof (cycle_at _ _ _ _ _ _ _ _ _ E1' E2' Hc1) as Hc2.
  destruct (move_run l e a b p n h) as (h' & Er & R & N & P & L & K); try done.
  { by destruct (chain_next _ _ _ _ _ _ Hc2). }
  exists h'. split; [done|]. rewrite Heq in Hnd. pose proof Hnd as [_ Hnd']%NoDup_cons.
  assert (Heo' : e ∉ pre' ++ post').
  { intros Hx. apply Heo, Hmem, (elem_place _ _ _ _ _ _ _ _ E1' E2'). by right. }
  assert (Hxs : forall x, x ∈ pre' ++ e :: post' <-> x ∈ pre ++ e :: post) by (intros x; by rewrite !elem_mid, Heq).
  eapply models_update; try done.
  - intros x Hx _. rewrite elem_of_cons, elem_mid, Heq in Hx.
    assert (Hx1 : x ∉ A' ++ a :: b :: B') by (rewrite (elem_place _ _ _ _ _ _ _ _ E1' E2'), elem_of_cons; tauto).
    assert (Hx2 : x ∉ A ++ p :: n :: B) by (by rewrite Hmem).
    rewrite N, P, !decide_False; try done; intros ->; tauto.
  - intros x. rewrite L. destruct (decide (x ∈ pre' ++ e :: post')) as [Hi|Hi].
    + apply (m_owner _ _ Hm _ _ _ Hl). by apply Hxs.
    + rewrite decide_False; [done|]. by rewrite <- Hxs.
  - rewrite K, insert_id; [done|]. replace (zlen (pre' ++ e :: post')) with (zlen (pre ++ e :: post)); [by apply (m_seq _ _ Hm)|].
    apply (f_equal length) in Heq. rewrite !length_app in *. cbn [length]. lia.
  - by apply NoDup_mid.
  - intros x Hx%Hxs. split; [|by left]. by apply (m_owner _ _ Hm _ _ _ Hl), (m_elem _ _ Hm) in Hx as [? _].
  - eapply cycle_at_inv; [done..|]. eapply (chain_insert nx pv); [by eapply simple_place|by rewrite <- Hmem| | | | | | |done].
    + intros x ? ?. rewrite N. unfold nx. by repeat case_decide.
    + intros x ? ?. rewrite P. unfold pv. by repeat case_decide.
    + by rewrite N, decide_False, decide_True.
    + by rewrite N, decide_True.
    + by rewrite P, decide_False, decide_True.
    + by rewrite P, decide_True.
Qed.

(** Which list an element belongs to. *)
Lemma owner_in h σ l xs e : models h σ -> seqs σ !! l = Some xs -> lst h e = Some l ->
  exists A B, xs = A ++ e :: B.
Proof. intros Hm Hl He. apply (m_owner _ _ Hm _ _ _ Hl) in He. apply list_elem_of_split in He as (A & B & ->). by exists A, B. Qed.

Lemma owner_not_in h σ l xs e : models h σ -> seqs σ !! l = Some xs -> lst h e <> Some l -> e ∉ xs.
Proof. intros Hm Hl He Hin. by apply (m_owner _ _ Hm _ _ _ Hl) in Hin. Qed.

Lemma owner_none h σ e : models h σ -> lst h e = None -> in_no_list e σ.
Proof. intros Hm He l xs Hl Hin. apply (m_owner _ _ Hm _ _ _ Hl) in Hin. congruence. Qed.

Lemma root_not_owner h σ l xs : models h σ -> seqs σ !! l = Some xs -> l ∉ xs.
Proof. intros Hm Hl. by destruct (proj1 (NoDup_cons _ _) (models_NoDup _ _ _ _ Hm Hl)). Qed.

Lemma Next_ok h σ e l A B : models h σ -> seqs σ !! l = Some (A ++ e :: B) -> Element_Next e h = Val (head B, h).
Proof.
  intros Hm Hl. unfold Element_Next. assert (He : has h e) by (eapply models_in; [done..|]; right; apply elem_mid; by left).
  destruct (neighbours _ _ _ _ _ _ Hm Hl) as (A' & p & n & B' & _ & _ & _ & Hn & En & _).
  assert (Ho : lst h e = Some l) by (apply (m_owner _ _ Hm _ _ _ Hl), elem_mid; by left).
  pose proof (root_not_owner _ _ _ _ Hm Hl) as Hroot. access. rewrite H, H1, Ho, En. unfold mret, M_ret. do 2 f_equal.
  destruct B as [|b B]; cbn in Hn; injection Hn as <-.
  - rewrite bool_decide_eq_false_2; [done|]. by intros [_ ?].
  - rewrite bool_decide_eq_true_2; [done|]. split; [done|]. intros [= ->]. apply Hroot, elem_of_app. right. right. left.
Qed.

Lemma Prev_ok h σ e l A B : models h σ -> seqs σ !! l = Some (A ++ e :: B) -> Element_Prev e h = Val (last A, h).
Proof.
  intros Hm Hl. unfold Element_Prev. assert (He : has h e) by (eapply models_in; [done..|]; right; apply elem_mid; by left).
  destruct (neighbours _ _ _ _ _ _ Hm Hl) as (A' & p & n & B' & _ & _ & Hp & _ & _ & Ep & _).
  assert (Ho : lst h e = Some l) by (apply (m_owner _ _ Hm _ _ _ Hl), elem_mid; by left).
  pose proof (root_not_owner _ _ _ _ Hm Hl) as Hroot. access. rewrite H0, H1, Ho, Ep. unfold mret, M_ret. do 2 f_equal.
  rewrite last_cons in Hp. destruct (last A) as [a|] eqn:Ea; injection Hp as <-.
  - rewrite bool_decide_eq_true_2; [done|]. split; [done|]. intros [= ->]. apply Hroot, elem_of_app. left.
    apply last_Some in Ea as [A0 ->]. apply elem_of_app. right. left.
  - rewrite bool_decide_eq_false_2; [done|]. by intros [_ ?].
Qed.

Lemma Front_ok h σ l xs : models h σ -> seqs σ !! l = Some xs -> Front l h = Val (head xs, h).
Proof.
  intros Hm Hl. destruct (m_seq _ _ Hm _ _ Hl) as (Hk & Hh & _ & _ & _ & Hr). unfold Front.
  rewrite (bind_Val _ _ _ _ _ (get_len_run _ _ _ Hk)). destruct xs as [|x xs]; [done|].
  rewrite (proj2 (Z.eqb_neq _ _)) by (cbn [length]; lia). access. rewrite H.
  destruct Hr as [Hr|[? _]]; [|done]. apply chain_cons in Hr as [-> _]. done.
Qed.

Lemma cycle_last (nx pv : loc -> ptr) l xs : cycle nx pv l xs -> pv l = last (l :: xs).
Proof.
  destruct (place l xs []) as (A & a & b & B & E1 & E2 & _ & -> & _). injection E2 as <- <-.
  intros Hc. rewrite <- (app_nil_r xs) in Hc. apply (cycle_at _ _ _ xs [] A a l []) in Hc; [|done..].
  by apply chain_next in Hc as [_ ->].
Qed.

Lemma Back_ok h σ l xs : models h σ -> seqs σ !! l = Some xs -> Back l h = Val (last xs, h).
Proof.
  intros Hm Hl. destruct (m_seq _ _ Hm _ _ Hl) as (Hk & Hh & _ & _ & _ & Hr). unfold Back.
  rewrite (bind_Val _ _ _ _ _ (get_len_run _ _ _ Hk)). destruct xs as [|x xs]; [done|].
  rewrite (proj2 (Z.eqb_neq _ _)) by (cbn [length]; lia). access. rewrite H0.
  destruct Hr as [Hr|[? _]]; [|done]. rewrite (cycle_last _ _ _ _ Hr), last_cons. by destruct (last (x :: xs)) eqn:E; [|apply last_None in E].
Qed.

(** ** Simulation of each operation *)

(** What is to be shown of an operation [m] that the specification takes from [σ] to [σ'] with result [r]. *)
Definition implements {R} (m : M (store V) R) (r : R) (σ' : lists V) (h : store V) : Prop :=
  exists h', m h = Val (r, h') /\ models h' σ'.

Lemma implements_bind {R R'} (m : M (store V) R) r σ' h (f : R -> R') :
  implements m r σ' h -> implements (x ← m; mret (f x)) (f r) σ' h.
Proof. intros (h' & E & Hm). exists h'. by rewrite (bind_Val _ _ _ _ _ E). Qed.

Lemma PushFront_ok h σ l xs v : models h σ -> seqs σ !! l = Some xs ->
  implements (PushFront l v) (free σ) (put_seq l (free σ :: xs) (alloc v σ)) h.
Proof.
  intros Hm Hl. destruct (lazyInit_ok _ _ _ _ Hm Hl) as (h1 & E1 & Hm1 & Hc1). unfold implements, PushFront.
  rewrite (bind_Val _ _ _ _ _ E1). destruct (insertValue_ok h1 σ l [] xs l v) as (h2 & ? & ? & ?); try done. by exists h2.
Qed.

Lemma back_run h σ l xs : models h σ -> seqs σ !! l = Some xs -> cycle (nxt h) (prv h) l xs ->
  exists a, (root ← load (Some l); mret (prev root)) h = Val (Some a, h) /\ last (l :: xs) = Some a.
Proof.
  intros Hm Hl Hc. assert (Hh : has h l) by (eapply models_in; [done..|left]). access.
  rewrite H0, (cycle_last _ _ _ _ Hc). destruct (last (l :: xs)) as [a|] eqn:E; [by exists a|by apply last_None in E].
Qed.

Lemma PushBack_ok h σ l xs v : models h σ -> seqs σ !! l = Some xs ->
  implements (PushBack l v) (free σ) (put_seq l (xs ++ [free σ]) (alloc v σ)) h.
Proof.
  intros Hm Hl. destruct (lazyInit_ok _ _ _ _ Hm Hl) as (h1 & E1 & Hm1 & Hc1). unfold implements, PushBack.
  rewrite (bind_Val _ _ _ _ _ E1). assert (Hh : has h1 l) by (eapply models_in; [done..|left]). access.
  rewrite H0, (cycle_last _ _ _ _ Hc1). destruct (last (l :: xs)) as [a|] eqn:E; [|by apply last_None in E].
  rewrite <- (app_nil_r xs) in Hl, Hc1. destruct (insertValue_ok h1 σ l xs [] a v) as (h2 & ? & ? & ?); try done. by exists h2.
Qed.

Lemma InsertBefore_ok h σ l A m B v : models h σ -> seqs σ !! l = Some (A ++ m :: B) ->
  implements (InsertBefore l v m) (Some (free σ)) (put_seq l (A ++ free σ :: m :: B) (alloc v σ)) h.
Proof.
  intros Hm Hl. assert (Hh : has h m) by (eapply models_in; [done..|]; right; apply elem_mid; by left).
  unfold implements, InsertBefore. access. assert (Ho : lst h m = Some l) by (apply (m_owner _ _ Hm _ _ _ Hl), elem_mid; by left).
  rewrite H1, Ho, bool_decide_eq_false_2 by (intros ?; done). rewrite H0.
  destruct (neighbours _ _ _ _ _ _ Hm Hl) as (A' & p & n & B' & _ & _ & Hp & _ & _ & -> & _).
  destruct (insertValue_ok h σ l A (m :: B) p v) as (h2 & E2 & ? & ?); try done; [by apply (initialised _ σ)|].
  exists h2. by rewrite (bind_Val _ _ _ _ _ E2).
Qed.

Lemma InsertAfter_ok h σ l A m B v : models h σ -> seqs σ !! l = Some (A ++ m :: B) ->
  implements (InsertAfter l v m) (Some (free σ)) (put_seq l (A ++ m :: free σ :: B) (alloc v σ)) h.
Proof.
  intros Hm Hl. assert (Hh : has h m) by (eapply models_in; [done..|]; right; apply elem_mid; by left).
  unfold implements, InsertAfter. access. assert (Ho : lst h m = Some l) by (apply (m_owner _ _ Hm _ _ _ Hl), elem_mid; by left).
  rewrite H1, Ho, bool_decide_eq_false_2 by (intros ?; done). pose proof (initialised _ _ _ _ _ _ Hm Hl) as Hc.
  rewrite (cons_middle m A B), app_assoc in *.
  destruct (insertValue_ok h σ l (A ++ [m]) B m v) as (h2 & E2 & H3 & _); try done.
  { change (l :: A ++ [m]) with ((l :: A) ++ [m]). by rewrite last_snoc. }
  exists h2. rewrite (bind_Val _ _ _ _ _ E2). split; [done|]. by rewrite <- app_assoc in H3.
Qed.

Lemma Remove_ok h σ l A e B v : models h σ -> seqs σ !! l = Some (A ++ e :: B) -> vals σ !! e = Some v ->
  implements (Remove l e) v (put_seq l (A ++ B) σ) h.
Proof.
  intros Hm Hl Hv. pose proof (models_has _ _ _ _ Hm Hv) as Hh.
  unfold implements, Remove. access. assert (Ho : lst h e = Some l) by (apply (m_owner _ _ Hm _ _ _ Hl), elem_mid; by left).
  rewrite H1, Ho, bool_decide_eq_true_2 by done. destruct (remove_ok _ _ _ _ _ _ Hm Hl) as (h1 & E1 & Hm1).
  assert (E : (remove l e ≫= λ _, mret tt) h = Val (tt, h1)) by (by rewrite (bind_Val _ _ _ _ _ E1)).
  rewrite (bind_Val _ _ _ _ _ E). clear E E1. assert (Hv1 : vals (put_seq l (A ++ B) σ) !! e = Some v) by done.
  pose proof (models_has _ _ _ _ Hm1 Hv1) as Hh1. access. exists h1. split; [|done].
  apply (m_val _ _ Hm1) in Hv1. replace v with (Value c0) by congruence. done.
Qed.

Lemma Remove_other_ok h σ l xs e v : models h σ -> seqs σ !! l = Some xs -> e ∉ xs -> vals σ !! e = Some v ->
  implements (Remove l e) v σ h.
Proof.
  intros Hm Hl He Hv. pose proof (models_has _ _ _ _ Hm Hv) as Hh.
  unfold implements, Remove. access. rewrite H1, bool_decide_eq_false_2 by (by rewrite <- (m_owner _ _ Hm _ _ _ Hl)).
  rewrite (bind_Val (mret tt) _ h tt h eq_refl). access. exists h. split; [|done].
  apply (m_val _ _ Hm) in Hv. replace v with (Value c0) by congruence. done.
Qed.

Lemma put_seq_id l xs σ : seqs σ !! l = Some xs -> put_seq l xs σ = σ.
Proof. intros H. destruct σ. unfold put_seq. cbn in *. by rewrite insert_id. Qed.

Lemma move_implements h σ l pre e post pre' post' a : models h σ -> seqs σ !! l = Some (pre ++ e :: post) ->
  pre ++ post = pre' ++ post' -> last (l :: pre') = Some a ->
  implements (move l e (Some a) ≫= λ _, mret tt) tt (put_seq l (pre' ++ e :: post') σ) h.
Proof.
  intros Hm Hl E Ha. destruct (move_ok _ _ _ _ _ _ _ _ _ Hm Hl E Ha) as (h' & E1 & H'). exists h'.
  by rewrite (bind_Val _ _ _ _ _ E1).
Qed.

Lemma MoveToFront_ok h σ l A e B : models h σ -> seqs σ !! l = Some (A ++ e :: B) ->
  implements (MoveToFront l e) tt (put_seq l (e :: A ++ B) σ) h.
Proof.
  intros Hm Hl. assert (Hh : has h e) by (eapply models_in; [done..|]; right; apply elem_mid; by left).
  assert (Hhl : has h l) by (eapply models_in; [done..|left]).
  assert (Ho : lst h e = Some l) by (apply (m_owner _ _ Hm _ _ _ Hl), elem_mid; by left).
  pose proof (initialised _ _ _ _ _ _ Hm Hl) as Hc. unfold implements, MoveToFront. do 2 access.
  rewrite H1, Ho, H3. destruct (decide (nxt h l = Some e)) as [En|En].
  - rewrite bool_decide_eq_true_2 by auto. exists h. split; [done|].
    destruct A as [|a A]; [by rewrite put_seq_id|]. apply chain_cons in Hc as [Hc _]. rewrite Hc in En. injection En as ->.
    apply models_NoDup with (l := l) (xs := (e :: A) ++ e :: B) in Hm; [|done].
    apply NoDup_cons in Hm as [_ [Hn _]%NoDup_cons]. exfalso. apply Hn, elem_mid. by left.
  - rewrite bool_decide_eq_false_2 by (intros [?|?]; done). by apply (move_implements _ _ _ A e B [] (A ++ B)).
Qed.

Lemma MoveToBack_ok h σ l A e B : models h σ -> seqs σ !! l = Some (A ++ e :: B) ->
  implements (MoveToBack l e) tt (put_seq l (A ++ B ++ [e]) σ) h.
Proof.
  intros Hm Hl. assert (Hh : has h e) by (eapply models_in; [done..|]; right; apply elem_mid; by left).
  assert (Hhl : has h l) by (eapply models_in; [done..|left]).
  assert (Ho : lst h e = Some l) by (apply (m_owner _ _ Hm _ _ _ Hl), elem_mid; by left).
  pose proof (initialised _ _ _ _ _ _ Hm Hl) as Hc. unfold implements, MoveToBack. do 2 access.
  rewrite H1, Ho, H4, (cycle_last _ _ _ _ Hc), last_cons, last_app, last_cons.
  pose proof (models_NoDup _ _ _ _ Hm Hl) as [_ [He _]%NoDup_mid]%NoDup_cons.
  destruct (last B) as [b|] eqn:EB.
  - assert (Hb : b ∈ A ++ B).
    { apply last_Some in EB as [B' ->]. apply elem_of_app. right. apply elem_of_app. right. left. }
    rewrite bool_decide_eq_false_2 by (intros [?|[= ->]]; done).
    rewrite app_assoc. apply (move_implements _ _ _ A e B (A ++ B) []); [done|done|by rewrite app_nil_r|].
    by rewrite last_cons, last_app, EB.
  - apply last_None in EB as ->. rewrite bool_decide_eq_true_2 by auto. exists h. split; [done|]. by rewrite put_seq_id.
Qed.

Lemma MoveAfter_ok h σ l A e B A' m B' : models h σ -> seqs σ !! l = Some (A ++ e :: B) -> A ++ B = A' ++ m :: B' ->
  implements (MoveAfter l e m) tt (put_seq l (A' ++ m :: e :: B') σ) h.
Proof.
  intros Hm Hl Eq. assert (Hh : has h e) by (eapply models_in; [done..|]; right; apply elem_mid; by left).
  assert (Hin : m ∈ A ++ B) by (rewrite Eq; apply elem_mid; by left).
  assert (Hin' : m ∈ A ++ e :: B) by (apply elem_mid; by right).
  assert (Hhm : has h m) by (eapply models_in; [done..|by right]).
  pose proof (models_NoDup _ _ _ _ Hm Hl) as [_ [He _]%NoDup_mid]%NoDup_cons.
  assert (Ho : lst h e = Some l) by (apply (m_owner _ _ Hm _ _ _ Hl), elem_mid; by left).
  assert (Hom : lst h m = Some l) by (by apply (m_owner _ _ Hm _ _ _ Hl)).
  unfold implements, MoveAfter. do 2 access. rewrite H1, Ho, H5, Hom.
  rewrite bool_decide_eq_false_2 by (intros [?|[->|?]]; done).
  rewrite (cons_middle m A'), app_assoc. apply (move_implements _ _ _ A e B (A' ++ [m]) B'); [done|done|by rewrite <- app_assoc|].
  change (l :: A' ++ [m]) with ((l :: A') ++ [m]). by rewrite last_snoc.
Qed.

Lemma MoveBefore_ok h σ l A e B m : models h σ -> seqs σ !! l = Some (A ++ e :: B) -> m ∈ A ++ e :: B -> e <> m ->
  exists A' B', A ++ B = A' ++ m :: B' /\ implements (MoveBefore l e m) tt (put_seq l (A' ++ e :: m :: B') σ) h.
Proof.
  intros Hm Hl Hin Hne. assert (Hh : has h e) by (eapply models_in; [done..|]; right; apply elem_mid; by left).
  assert (Hhm : has h m) by (eapply models_in; [done..|by right]).
  assert (Ho : lst h e = Some l) by (apply (m_owner _ _ Hm _ _ _ Hl), elem_mid; by left).
  assert (Hom : lst h m = Some l) by (by apply (m_owner _ _ Hm _ _ _ Hl)).
  unfold implements, MoveBefore. destruct (load_run e h Hh) as (c & E1 & _ & _ & Lc & _). rewrite (bind_Val _ _ _ _ _ E1).
  destruct (load_run m h Hhm) as (d & E2 & _ & Pd & Ld & _). rewrite (bind_Val _ _ _ _ _ E2), Lc, Ld, Ho, Hom.
  rewrite bool_decide_eq_false_2 by (intros [?|[->|?]]; done).
  assert (Hprev : forall A2 B2, A ++ e :: B = A2 ++ m :: B2 -> prev d = last (l :: A2)).
  { intros A2 B2 Eq. rewrite Pd. rewrite Eq in Hl.
    by destruct (neighbours _ _ _ _ _ _ Hm Hl) as (? & p & ? & ? & _ & _ & -> & _ & _ & -> & _). }
  apply elem_of_app in Hin as [Hin|[->|Hin]%elem_of_cons]; [|done|].
  - apply list_elem_of_split in Hin as (A1 & A2 & ->). exists A1, (A2 ++ B). split; [by rewrite <- app_assoc|].
    rewrite (Hprev A1 (A2 ++ e :: B)) by (by rewrite <- app_assoc).
    destruct (last (l :: A1)) as [a|] eqn:Ea; [|by apply last_None in Ea].
    apply (move_implements _ _ _ (A1 ++ m :: A2) e B A1 (m :: A2 ++ B)); [done|done|by rewrite <- app_assoc|done].
  - apply list_elem_of_split in Hin as (B1 & B2 & ->). exists (A ++ B1), B2. split; [by rewrite <- app_assoc|].
    rewrite (Hprev (A ++ e :: B1) B2) by (by rewrite <- app_assoc).
    rewrite last_cons, last_app, last_cons. destruct (last B1) as [b|] eqn:Eb.
    + apply (move_implements _ _ _ A e (B1 ++ m :: B2) (A ++ B1) (m :: B2)); [done|done|by rewrite <- app_assoc|].
      by rewrite last_cons, last_app, Eb.
    + apply last_None in Eb as ->. unfold move. rewrite bool_decide_eq_true_2 by done. rewrite app_nil_r.
      exists h. split; [done|]. by rewrite put_seq_id.
Qed.

(** ** Copying a list, possibly onto itself *)

Lemma values_cons σ y ys vs : values σ (y :: ys) = Some vs -> exists v vs', vs = v :: vs' /\ vals σ !! y = Some v /\ values σ ys = Some vs'.
Proof.
  unfold values. intros H. apply mapM_Some_1 in H. inversion H as [|? v ? vs' H1 H2]; subst.
  exists v, vs'. split_and!; try done. by apply mapM_Some_2.
Qed.

Lemma values_old h σ l xs v ys vs : models h σ -> values σ ys = Some vs -> values (put_seq l xs (alloc v σ)) ys = Some vs.
Proof.
  intros Hm H. apply mapM_Some_2. apply mapM_Some_1 in H. eapply Forall2_impl; [exact H|]. intros y w Hy.
  cbn. rewrite lookup_insert_ne; [done|]. intros <-. apply (models_has _ _ _ _ Hm), (m_fresh _ _ Hm) in Hy. lia.
Qed.

Lemma copy_back_ok l o ys vs : forall h σ A C xs (e : ptr), models h σ -> seqs σ !! l = Some xs -> cycle (nxt h) (prv h) l xs ->
  seqs σ !! o = Some (A ++ ys ++ C) -> values σ ys = Some vs -> (ys <> [] -> e = head ys) ->
  implements (copy_loop Element_Next (root ← load (Some l); mret (prev root)) l (length ys) e) tt (foldl (push_back l) σ vs) h.
Proof.
  revert vs. induction ys as [|y ys IH]; intros vs h σ A C xs e Hm Hl Hc Ho Hv He.
  { injection Hv as <-. by exists h. }
  apply values_cons in Hv as (v & vs' & -> & Hy & Hv). rewrite He by done. cbn [head length copy_loop].
  pose proof (models_has _ _ _ _ Hm Hy) as Hh. unfold implements.
  destruct (load_run y h Hh) as (c & E1 & _ & _ & _ & Ev). rewrite (bind_Val _ _ _ _ _ E1).
  rewrite (m_val _ _ Hm _ _ Hy) in Ev. injection Ev as ->.
  destruct (back_run h σ l xs Hm Hl Hc) as (a & E2 & Ha). rewrite (bind_Val _ _ _ _ _ E2).
  destruct (insertValue_ok h σ l xs [] a v) as (h1 & E3 & Hm1 & Hc1); [done|by rewrite app_nil_r|by rewrite app_nil_r|done|].
  rewrite (bind_Val _ _ _ _ _ E3). cbn [foldl]. unfold push_back at 2. rewrite Hl.
  set (σ1 := put_seq l (xs ++ [free σ]) (alloc v σ)) in *.
  assert (exists C1, seqs σ1 !! o = Some (A ++ y :: ys ++ C1)) as [C1 Ho1].
  { cbn. destruct (decide (l = o)) as [->|Hlo].
    - rewrite lookup_insert_eq. rewrite Ho in Hl. injection Hl as <-. exists (C ++ [free σ]). rewrite <- app_assoc. cbn [app]. by rewrite <- app_assoc.
    - rewrite lookup_insert_ne by done. by exists C. }
  rewrite (bind_Val _ _ _ _ _ (Next_ok _ _ _ _ _ _ Hm1 Ho1)).
  apply (IH vs' h1 σ1 (A ++ [y]) C1 (xs ++ [free σ])); try done.
  - cbn. by rewrite lookup_insert_eq.
  - rewrite Ho1. by rewrite <- app_assoc.
  - by apply (values_old h).
  - by destruct ys.
Qed.

Lemma copy_front_ok l o ys vs : forall h σ A C xs (e : ptr), models h σ -> seqs σ !! l = Some xs -> cycle (nxt h) (prv h) l xs ->
  seqs σ !! o = Some (A ++ reverse ys ++ C) -> values σ ys = Some vs -> (ys <> [] -> e = head ys) ->
  implements (copy_loop Element_Prev (mret (Some l)) l (length ys) e) tt (foldl (push_front l) σ vs) h.
Proof.
  revert vs. induction ys as [|y ys IH]; intros vs h σ A C xs e Hm Hl Hc Ho Hv He.
  { injection Hv as <-. by exists h. }
  apply values_cons in Hv as (v & vs' & -> & Hy & Hv). rewrite He by done. cbn [head length copy_loop].
  pose proof (models_has _ _ _ _ Hm Hy) as Hh. unfold implements.
  destruct (load_run y h Hh) as (c & E1 & _ & _ & _ & Ev). rewrite (bind_Val _ _ _ _ _ E1).
  rewrite (m_val _ _ Hm _ _ Hy) in Ev. injection Ev as ->.
  rewrite (bind_Val (mret (Some l)) _ h (Some l) h eq_refl).
  destruct (insertValue_ok h σ l [] xs l v) as (h1 & E3 & Hm1 & Hc1); [done..|].
  rewrite (bind_Val _ _ _ _ _ E3). cbn [foldl]. unfold push_front at 2. rewrite Hl.
  set (σ1 := put_seq l (free σ :: xs) (alloc v σ)) in *. rewrite reverse_cons, <- app_assoc in Ho.
  assert (exists A1, seqs σ1 !! o = Some (A1 ++ reverse ys ++ y :: C)) as [A1 Ho1].
  { cbn. destruct (decide (l = o)) as [->|Hlo].
    - rewrite lookup_insert_eq. rewrite Ho in Hl. injection Hl as <-. by exists (free σ :: A).
    - rewrite lookup_insert_ne by done. by exists A. }
  pose proof Ho1 as Ho2. rewrite app_assoc in Ho2. rewrite (bind_Val _ _ _ _ _ (Prev_ok _ _ _ _ _ _ Hm1 Ho2)).
  apply (IH vs' h1 σ1 A1 (y :: C) (free σ :: xs)); try done.
  - cbn. by rewrite lookup_insert_eq.
  - by apply (values_old h).
  - destruct ys as [|z ys]; [done|]. by rewrite reverse_cons, app_assoc, last_snoc.
Qed.

Lemma all_values h σ l xs : models h σ -> seqs σ !! l = Some xs -> exists vs, values σ xs = Some vs.
Proof.
  intros Hm Hl. unfold values. destruct (mapM (λ y, vals σ !! y) xs) as [vs|] eqn:E; [by exists vs|].
  apply mapM_None, Exists_exists in E as (x & Hx & Hn).
  apply (m_owner _ _ Hm _ _ _ Hl), (m_elem _ _ Hm) in Hx as [[? ?] _]. congruence.
Qed.

Lemma PushBackList_ok h σ l o xs ys vs : models h σ -> seqs σ !! l = Some xs -> seqs σ !! o = Some ys ->
  values σ ys = Some vs -> implements (PushBackList l o) tt (foldl (push_back l) σ vs) h.
Proof.
  intros Hm Hl Ho Hv. destruct (lazyInit_ok _ _ _ _ Hm Hl) as (h1 & E1 & Hm1 & Hc1). unfold implements, PushBackList.
  rewrite (bind_Val _ _ _ _ _ E1). destruct (m_seq _ _ Hm1 _ _ Ho) as [Hk _]. unfold Len.
  rewrite (bind_Val _ _ _ _ _ (get_len_run _ _ _ Hk)), (bind_Val _ _ _ _ _ (Front_ok _ _ _ _ Hm1 Ho)), Nat2Z.id.
  apply (copy_back_ok l o ys vs h1 σ [] [] xs); try done. by rewrite app_nil_r.
Qed.

Lemma PushFrontList_ok h σ l o xs ys vs : models h σ -> seqs σ !! l = Some xs -> seqs σ !! o = Some ys ->
  values σ ys = Some vs -> implements (PushFrontList l o) tt (foldl (push_front l) σ (reverse vs)) h.
Proof.
  intros Hm Hl Ho Hv. destruct (lazyInit_ok _ _ _ _ Hm Hl) as (h1 & E1 & Hm1 & Hc1). unfold implements, PushFrontList.
  rewrite (bind_Val _ _ _ _ _ E1). destruct (m_seq _ _ Hm1 _ _ Ho) as [Hk _]. unfold Len.
  rewrite (bind_Val _ _ _ _ _ (get_len_run _ _ _ Hk)), (bind_Val _ _ _ _ _ (Back_ok _ _ _ _ Hm1 Ho)), Nat2Z.id.
  rewrite <- (length_reverse ys).
  apply (copy_front_ok l o (reverse ys) (reverse vs) h1 σ [] [] xs); try done.
  - by rewrite reverse_involutive, app_nil_r.
  - apply mapM_Some_2, Forall2_reverse. by apply mapM_Some_1.
  - intros _. by rewrite head_reverse.
Qed.

Lemma New_ok h σ v : models h σ -> implements (New v) (free σ) (add_list σ) h.
Proof.
  intros Hm. destruct (new_list_ok h σ v Hm) as (h1 & E1 & Hm1). unfold implements, New. rewrite (bind_Val _ _ _ _ _ E1).
  destruct (Init_ok h1 (add_list σ) (free σ) Hm1) as (h2 & ? & ? & _); [cbn; by rewrite lookup_insert_eq|]. by exists h2.
Qed.

(** The empty store and the empty state. *)
Definition empty_store : store V := MkStore ∅ ∅ 1%positive.
Definition empty_lists : lists V := MkLists ∅ ∅ 1%positive.

Lemma models_empty : models empty_store empty_lists.
Proof.
  split; cbn; try done.
Qed.

(** An element that is in no list has no neighbours; operations on a list ignore what is not in it. *)
Lemma Next_none_ok h σ e v : models h σ -> vals σ !! e = Some v -> lst h e = None ->
  Element_Next e h = Val (None, h) /\ Element_Prev e h = Val (None, h).
Proof.
  intros Hm Hv He. pose proof (models_has _ _ _ _ Hm Hv) as Hh. unfold Element_Next, Element_Prev.
  split; access; rewrite H1, He, bool_decide_eq_false_2; done || by intros [? _].
Qed.

Lemma ignored h σ l xs e : models h σ -> seqs σ !! l = Some xs -> (exists v, vals σ !! e = Some v) -> e ∉ xs ->
  MoveToFront l e h = Val (tt, h) /\ MoveToBack l e h = Val (tt, h)
  /\ forall v, InsertBefore l v e h = Val (None, h) /\ InsertAfter l v e h = Val (None, h).
Proof.
  intros Hm Hl [w Hw] He. pose proof (models_has _ _ _ _ Hm Hw) as Hh.
  assert (Hhl : has h l) by (eapply models_in; [done ..|left]). rewrite (m_owner _ _ Hm _ _ _ Hl) in He.
  unfold MoveToFront, MoveToBack, InsertBefore, InsertAfter. split_and!.
  - do 2 access. by rewrite bool_decide_eq_true_2 by (left; congruence).
  - do 2 access. by rewrite bool_decide_eq_true_2 by (left; congruence).
  - intros v. split; access; by rewrite bool_decide_eq_true_2 by congruence.
Qed.

Lemma ignored2 h σ l xs e m : models h σ -> seqs σ !! l = Some xs -> is_Some (vals σ !! e) -> is_Some (vals σ !! m) ->
  e ∉ xs \/ e = m \/ m ∉ xs -> MoveBefore l e m h = Val (tt, h) /\ MoveAfter l e m h = Val (tt, h).
Proof.
  intros Hm Hl [v Hv] [w Hw] Hout. pose proof (models_has _ _ _ _ Hm Hv) as Hh. pose proof (models_has _ _ _ _ Hm Hw) as Hh'.
  rewrite !(m_owner _ _ Hm _ _ _ Hl) in Hout. unfold MoveBefore, MoveAfter.
  split; do 2 access; rewrite bool_decide_eq_true_2; try done; destruct Hout as [?|[?|?]]; (left; congruence) || (right; left; done) || (right; right; congruence).
Qed.

(** ** The simulation *)

Definition simulated (nil_ : V) (o : op V) (h : store V) (σ : lists V) : Prop :=
  exists r h' σ', exec nil_ o h = Val (r, h') /\ astep σ o r σ' /\ models h' σ'.

Lemma by_implementation {R} nil_ o h σ σ' (m : M (store V) R) (r : R) (f : R -> result V) :
  exec nil_ o = (x ← m; mret (f x)) -> implements m r σ' h -> astep σ o (f r) σ' -> simulated nil_ o h σ.
Proof. intros E (h' & E' & Hm) Hs. exists (f r), h', σ'. rewrite E, (bind_Val _ _ _ _ _ E'). done. Qed.

Lemma by_reading {R} nil_ o h σ (m : M (store V) R) (r : R) (f : R -> result V) :
  exec nil_ o = (x ← m; mret (f x)) -> models h σ -> m h = Val (r, h) -> astep σ o (f r) σ -> simulated nil_ o h σ.
Proof. intros E Hm E' Hs. apply (by_implementation nil_ o h σ σ m r f E); [by exists h|done]. Qed.

(** An element of a list, or not, with the place where it is. *)
Lemma in_or_out h σ l xs e : models h σ -> seqs σ !! l = Some xs ->
  (exists A B, xs = A ++ e :: B) \/ e ∉ xs.
Proof. intros Hm Hl. destruct (decide (e ∈ xs)) as [Hi|Hi]; [left; by apply list_elem_of_split|by right]. Qed.

Lemma simulated_query nil_ h σ l : models h σ -> is_Some (seqs σ !! l) ->
  simulated nil_ (OLen l) h σ /\ simulated nil_ (OFront l) h σ /\ simulated nil_ (OBack l) h σ.
Proof.
  intros Hm [xs Hl]. split_and!.
  - eapply by_reading; [done ..|apply get_len_run; by apply (m_seq _ _ Hm)|by constructor].
  - eapply by_reading; [done ..|by apply (Front_ok _ σ)|by constructor].
  - eapply by_reading; [done ..|by apply (Back_ok _ σ)|by constructor].
Qed.

Lemma simulated_next nil_ h σ e : models h σ -> is_Some (vals σ !! e) ->
  simulated nil_ (ONext e) h σ /\ simulated nil_ (OPrev e) h σ.
Proof.
  intros Hm [v Hv]. destruct (lst h e) as [l|] eqn:E.
  - destruct (m_elem _ _ Hm _ _ E) as [_ [xs Hl]]. destruct (owner_in _ _ _ _ _ Hm Hl E) as (A & B & ->). split.
    + eapply by_reading; [done ..|by apply (Next_ok _ σ _ l A B)|by eapply s_next].
    + eapply by_reading; [done ..|by apply (Prev_ok _ σ _ l A B)|by eapply s_prev].
  - destruct (Next_none_ok _ _ _ _ Hm Hv E) as [E1 E2]. pose proof (owner_none _ _ _ Hm E). split.
    + eapply by_reading; [done ..|exact E1|by apply s_next_none].
    + eapply by_reading; [done ..|exact E2|by apply s_prev_none].
Qed.

Lemma simulated_one nil_ h σ l e v : models h σ -> is_Some (seqs σ !! l) -> is_Some (vals σ !! e) ->
  simulated nil_ (ORemove l e) h σ /\ simulated nil_ (OMoveToFront l e) h σ /\ simulated nil_ (OMoveToBack l e) h σ
  /\ simulated nil_ (OInsertBefore l v e) h σ /\ simulated nil_ (OInsertAfter l v e) h σ.
Proof.
  intros Hm [xs Hl] [w Hw]. destruct (in_or_out _ _ _ _ e Hm Hl) as [(A & B & ->)|He].
  - split_and!; (eapply by_implementation; [reflexivity| ..]).
    + by apply Remove_ok.
    + by constructor.
    + by apply MoveToFront_ok.
    + by constructor.
    + by apply MoveToBack_ok.
    + by constructor.
    + by apply InsertBefore_ok.
    + by constructor.
    + by apply InsertAfter_ok.
    + by constructor.
  - destruct (ignored _ _ _ _ e Hm Hl) as (E1 & E2 & E3); [by eexists|done|]. split_and!.
    + eapply by_implementation; [reflexivity|by eapply Remove_other_ok|by eapply s_remove_other].
    + eapply by_reading; [reflexivity|done|exact E1|by eapply s_move_to_front_other].
    + eapply by_reading; [reflexivity|done|exact E2|by eapply s_move_to_back_other].
    + eapply by_reading; [reflexivity|done|apply E3|by eapply s_insert_before_other].
    + eapply by_reading; [reflexivity|done|apply E3|by eapply s_insert_after_other].
Qed.

Lemma simulated_two nil_ h σ l e m : models h σ -> is_Some (seqs σ !! l) -> is_Some (vals σ !! e) -> is_Some (vals σ !! m) ->
  simulated nil_ (OMoveBefore l e m) h σ /\ simulated nil_ (OMoveAfter l e m) h σ.
Proof.
  intros Hm [xs Hl] He Hmk. destruct (decide (e ∈ xs /\ e <> m /\ m ∈ xs)) as [(H1 & H2 & H3)|Hout].
  - apply list_elem_of_split in H1 as (A & B & ->). destruct (MoveBefore_ok _ _ _ _ _ _ _ Hm Hl H3 H2) as (A' & B' & Eq & HB).
    split; (eapply by_implementation; [reflexivity| ..]).
    + exact HB.
    + by eapply s_move_before.
    + by apply (MoveAfter_ok h σ l A e B A' m B').
    + by eapply s_move_after.
  - assert (Ho : e ∉ xs \/ e = m \/ m ∉ xs).
    { destruct (decide (e ∈ xs)); [|by left]. destruct (decide (e = m)); [by right; left|]. right. right. intros ?. by apply Hout. }
    destruct (ignored2 _ _ _ _ e m Hm Hl He Hmk Ho) as [E1 E2]. split.
    + eapply by_reading; [reflexivity|done|exact E1|by eapply s_move_before_other].
    + eapply by_reading; [reflexivity|done|exact E2|by eapply s_move_after_other].
Qed.

Lemma simulation nil_ h σ o : models h σ -> valid σ o -> simulated nil_ o h σ.
Proof.
  intros Hm Hv. destruct o; cbn [valid] in Hv.
  - eapply by_implementation; [reflexivity|by apply New_ok|constructor].
  - eapply by_implementation; [reflexivity|by apply new_list_ok|constructor].
  - destruct (Init_ok _ _ _ Hm Hv) as (h' & E & Hm' & _). eapply by_implementation; [reflexivity|by exists h'|by constructor].
  - by apply simulated_query.
  - by apply simulated_query.
  - by apply simulated_query.
  - by apply simulated_next.
  - by apply simulated_next.
  - destruct Hv as [H1 [v H2]]. by apply (simulated_one _ _ _ _ _ v).
  - destruct Hv as [xs Hl]. eapply by_implementation; [reflexivity|by apply PushFront_ok|by constructor].
  - destruct Hv as [xs Hl]. eapply by_implementation; [reflexivity|by apply PushBack_ok|by constructor].
  - destruct Hv. by apply simulated_one.
  - destruct Hv. by apply simulated_one.
  - destruct Hv as [H1 [v H2]]. by apply (simulated_one _ _ _ _ _ v).
  - destruct Hv as [H1 [v H2]]. by apply (simulated_one _ _ _ _ _ v).
  - destruct Hv as (? & ? & ?). by apply simulated_two.
  - destruct Hv as (? & ? & ?). by apply simulated_two.
  - destruct Hv as [[xs Hl] [ys Ho]]. destruct (all_values _ _ _ _ Hm Ho) as [vs Hvs].
    eapply by_implementation; [reflexivity|by eapply PushBackList_ok|by econstructor].
  - destruct Hv as [[xs Hl] [ys Ho]]. destruct (all_values _ _ _ _ Hm Ho) as [vs Hvs].
    eapply by_implementation; [reflexivity|by eapply PushFrontList_ok|by econstructor].
Qed.
End Simulation.

(** ** Properties *)

(** C2. Package list implements sequences: in a store that represents a set of lists, every operation
    of the package given lists and elements that exist (Init: an empty list) returns, and what it
    returns and the lists it leaves are those of the specification, for New and the zero List,
    Len, Front, Back, Next, Prev, Remove, the insertions and the moves, including
    their no-op cases for foreign elements, and PushBackList and PushFrontList, also of a list onto itself;
    the empty store represents no list. *)
Theorem list_simulation {V : Type} (nil_ : V) :
  models (V := V) empty_store empty_lists
  /\ forall (h : store V) (σ : lists V) (o : op V), models h σ -> valid σ o ->
     exists r h' σ', exec nil_ o h = Val (r, h') /\ astep σ o r σ' /\ models h' σ'.
Proof.
  split; [apply models_empty|]. intros h σ o Hm Hv. by apply simulation.
Qed.

(** Moving the first of two elements to the back, from the empty store on. *)
Lemma list_simulation_witness :
  exists (h : store Z) σ r h' σ', seqs σ !! 1%positive = Some [2; 3]%positive
  /\ exec 0 (OMoveToBack 1 2) h = Val (r, h') /\ astep σ (OMoveToBack 1 2) r σ' /\ models h' σ'.
Proof.
  destruct (list_simulation 0) as [H0 Hs].
  destruct (Hs _ _ ONew H0 I) as (r1 & h1 & σ1 & E1 & A1 & M1). inversion A1; subst. clear A1.
  destruct (Hs _ _ (OPushBack 1 10) M1) as (r2 & h2 & σ2 & E2 & A2 & M2); [by eexists|].
  inversion A2 as [| | | | | | | | | | | | |? ? ? Hl2| | | | | | | | | | | | | |]; subst. cbn in Hl2. rewrite lookup_insert_eq in Hl2.
  injection Hl2 as <-. clear A2.
  destruct (Hs _ _ (OPushBack 1 20) M2) as (r3 & h3 & σ3 & E3 & A3 & M3); [by eexists|].
  inversion A3 as [| | | | | | | | | | | | |? ? ? Hl3| | | | | | | | | | | | | |]; subst. cbn in Hl3. rewrite lookup_insert_eq in Hl3.
  injection Hl3 as <-. clear A3.
  destruct (Hs _ _ (OMoveToBack 1 2) M3) as (r4 & h4 & σ4 & E4 & A4 & M4); [split; by eexists|].
  eexists h3, _, r4, h4, σ4. split_and!; [|exact E4|exact A4|exact M4]. reflexivity.
Defined.

(** Init clears the ring and the length but not the [list] fields of the elements, so an element of
    before still counts as one: removing it makes the length negative, and Front returns the sentinel. *)
Lemma Init_leaves_elements :
  (l ← New 0; e ← PushBack l 7; Init l ≫= λ _, Remove l e ≫= λ _, n ← Len l; f ← Front l; mret (n, bool_decide (f = Some l)))
    (empty_store (V := Z))
  = Val (-1, true, MkStore {[1%positive := MkElement (Some 1%positive) (Some 1%positive) None 0; 2%positive := MkElement None None None 7]}
                           {[1%positive := -1]} 3%positive).
Proof. vm_compute. reflexivity. Qed.
