(* ===== verification/Bpf.v ===== *)
(** * golang.org/x/net/bpf: instructions

    The instructions of the BPF virtual machine (src/Source/Gold/golang.org/x/net/bpf/constants.go,
    instructions.go, asm.go): the types of the package as one inductive type, assembling them into raw
    instructions and disassembling raw instructions into them.  The interface Instruction is taken
    to be implemented by the types of the package only. *)

From S2P Require Import Prelude.

Local Open Scope go_scope.

(** ** Constants (constants.go) *)

Definition Register : Type := Z.
Definition RegA : Register := 0.
Definition RegX : Register := 1.

Definition ALUOp : Type := Z.
Definition ALUOpAdd : ALUOp := 0 <<.[16] 4.
Definition ALUOpSub : ALUOp := 1 <<.[16] 4.
Definition ALUOpMul : ALUOp := 2 <<.[16] 4.
Definition ALUOpDiv : ALUOp := 3 <<.[16] 4.
Definition ALUOpOr : ALUOp := 4 <<.[16] 4.
Definition ALUOpAnd : ALUOp := 5 <<.[16] 4.
Definition ALUOpShiftLeft : ALUOp := 6 <<.[16] 4.
Definition ALUOpShiftRight : ALUOp := 7 <<.[16] 4.
Definition aluOpNeg : ALUOp := 8 <<.[16] 4.
Definition ALUOpMod : ALUOp := 9 <<.[16] 4.
Definition ALUOpXor : ALUOp := 10 <<.[16] 4.

Definition JumpTest : Type := Z.
Definition JumpEqual : JumpTest := 0.
Definition JumpNotEqual : JumpTest := 1.
Definition JumpGreaterThan : JumpTest := 2.
Definition JumpLessThan : JumpTest := 3.
Definition JumpGreaterOrEqual : JumpTest := 4.
Definition JumpLessOrEqual : JumpTest := 5.
Definition JumpBitsSet : JumpTest := 6.
Definition JumpBitsNotSet : JumpTest := 7.

Definition Extension : Type := Z.
Definition extOffset : Z := - 0x1000.
Definition ExtLen : Extension := 1.
Definition ExtProto : Extension := 0.
Definition ExtType : Extension := 4.
Definition ExtPayloadOffset : Extension := 52.
Definition ExtInterfaceIndex : Extension := 8.
Definition ExtNetlinkAttr : Extension := 12.
Definition ExtNetlinkAttrNested : Extension := 16.
Definition ExtMark : Extension := 20.
Definition ExtQueue : Extension := 24.
Definition ExtLinkLayerType : Extension := 28.
Definition ExtRXHash : Extension := 32.
Definition ExtCPUID : Extension := 36.
Definition ExtVLANTag : Extension := 44.
Definition ExtVLANTagPresent : Extension := 48.
Definition ExtVLANProto : Extension := 60.
Definition ExtRand : Extension := 56.

Definition opMaskCls : Z := 0x7.
Definition opMaskLoadDest : Z := 0x01.
Definition opMaskLoadWidth : Z := 0x18.
Definition opMaskLoadMode : Z := 0xe0.
Definition opMaskOperand : Z := 0x08.
Definition opMaskOperator : Z := 0xf0.

Definition opClsLoadA : Z := 0.
Definition opClsLoadX : Z := 1.
Definition opClsStoreA : Z := 2.
Definition opClsStoreX : Z := 3.
Definition opClsALU : Z := 4.
Definition opClsJump : Z := 5.
Definition opClsReturn : Z := 6.
Definition opClsMisc : Z := 7.

Definition opAddrModeImmediate : Z := 0 <<.[16] 5.
Definition opAddrModeAbsolute : Z := 1 <<.[16] 5.
Definition opAddrModeIndirect : Z := 2 <<.[16] 5.
Definition opAddrModeScratch : Z := 3 <<.[16] 5.
Definition opAddrModePacketLen : Z := 4 <<.[16] 5.
Definition opAddrModeMemShift : Z := 5 <<.[16] 5.

Definition opLoadWidth4 : Z := 0 <<.[16] 3.
Definition opLoadWidth2 : Z := 1 <<.[16] 3.
Definition opLoadWidth1 : Z := 2 <<.[16] 3.

Definition opOperandConstant : Z := 0 <<.[16] 3.
Definition opOperandX : Z := 1 <<.[16] 3.

Definition opJumpAlways : Z := 0 <<.[16] 4.
Definition opJumpEqual : Z := 1 <<.[16] 4.
Definition opJumpGT : Z := 2 <<.[16] 4.
Definition opJumpGE : Z := 3 <<.[16] 4.
Definition opJumpSet : Z := 4 <<.[16] 4.

Definition opRetSrcConstant : Z := 0 <<.[16] 4.
Definition opRetSrcA : Z := 1 <<.[16] 4.

Definition opMiscTAX : Z := 0x00.
Definition opMiscTXA : Z := 0x80.

(** ** Instructions (instructions.go) *)

Record RawInstruction : Type := MkRaw { Op : Z; Jt : Z; Jf : Z; K : Z }.

Inductive Instruction : Type :=
  | LoadConstant (Dst : Register) (Val : Z)
  | LoadScratch (Dst : Register) (N : Z)
  | LoadAbsolute (Off Size : Z)
  | LoadIndirect (Off Size : Z)
  | LoadMemShift (Off : Z)
  | LoadExtension (Num : Extension)
  | StoreScratch (Src : Register) (N : Z)
  | ALUOpConstant (op : ALUOp) (Val : Z)
  | ALUOpX (op : ALUOp)
  | NegateA
  | Jump (Skip : Z)
  | JumpIf (Cond : JumpTest) (Val SkipTrue SkipFalse : Z)
  | JumpIfX (Cond : JumpTest) (SkipTrue SkipFalse : Z)
  | RetA
  | RetConstant (Val : Z)
  | TXA
  | TAX
  | Raw (ri : RawInstruction).

#[export] Instance RawInstruction_eq_dec : EqDecision RawInstruction.
Proof. solve_decision. Defined.
#[export] Instance Instruction_eq_dec : EqDecision Instruction.
Proof. solve_decision. Defined.

(** The errors of the package, by their format strings. *)
Inductive error : Type :=
  | ErrScratchSlot (n : Z)
  | ErrSourceRegister (r : Register)
  | ErrTargetRegister (r : Register)
  | ErrLoadLength (n : Z)
  | ErrJumpTest (t : JumpTest)
  | ErrAssembling (i : Z) (e : error)
  | ErrEmpty
  | ErrJump (skip : Z)
  | ErrJumpTrue (skip : Z)
  | ErrJumpFalse (skip : Z)
  | ErrDivideByZero
  | ErrExtension (num : Extension)
  | ErrNoReturn
  | ErrUnknownInstruction (i : Z) (ins : Instruction).

Definition zero_raw : RawInstruction := MkRaw 0 0 0 0.

Definition assembleLoad (dst : Register) (loadSize mode k : Z) : RawInstruction * option error :=
  match (if dst =? RegA then Some opClsLoadA else if dst =? RegX then Some opClsLoadX else None) with
  | None => (zero_raw, Some (ErrTargetRegister dst))
  | Some cls =>
      match (if loadSize =? 1 then Some opLoadWidth1 else if loadSize =? 2 then Some opLoadWidth2
             else if loadSize =? 4 then Some opLoadWidth4 else None) with
      | None => (zero_raw, Some (ErrLoadLength 0))
      | Some sz => (MkRaw (cls |. sz |. mode) 0 0 k, None)
      end
  end.

Definition jumpToRaw (test : JumpTest) (operand k skipTrue skipFalse : Z) : RawInstruction * option error :=
  match (if test =? JumpEqual then Some (opJumpEqual, false)
         else if test =? JumpNotEqual then Some (opJumpEqual, true)
         else if test =? JumpGreaterThan then Some (opJumpGT, false)
         else if test =? JumpLessThan then Some (opJumpGE, true)
         else if test =? JumpGreaterOrEqual then Some (opJumpGE, false)
         else if test =? JumpLessOrEqual then Some (opJumpGT, true)
         else if test =? JumpBitsSet then Some (opJumpSet, false)
         else if test =? JumpBitsNotSet then Some (opJumpSet, true)
         else None) with
  | None => (zero_raw, Some (ErrJumpTest test))
  | Some (cond, flip) =>
      let '(jt, jf) := if flip : bool then (skipFalse, skipTrue) else (skipTrue, skipFalse) in
      (MkRaw (opClsJump |. cond |. operand) jt jf k, None)
  end.

(** ** The Assemble method of each type; an error of [assembleLoad] carries the zero width it prints *)

Abbreviation assembled := (RawInstruction * option error)%type.

Definition RawInstruction_Assemble (ri : RawInstruction) : assembled := (ri, None).
Definition LoadConstant_Assemble (dst : Register) (val : Z) : assembled := assembleLoad dst 4 opAddrModeImmediate val.
Definition LoadScratch_Assemble (dst : Register) (n : Z) : assembled :=
  if (n <? 0) || (15 <? n) then (zero_raw, Some (ErrScratchSlot n))
  else assembleLoad dst 4 opAddrModeScratch (u32 n).
Definition LoadAbsolute_Assemble (off size : Z) : assembled := assembleLoad RegA size opAddrModeAbsolute off.
Definition LoadIndirect_Assemble (off size : Z) : assembled := assembleLoad RegA size opAddrModeIndirect off.
Definition LoadMemShift_Assemble (off : Z) : assembled := assembleLoad RegX 1 opAddrModeMemShift off.
Definition LoadExtension_Assemble (num : Extension) : assembled :=
  if num =? ExtLen then assembleLoad RegA 4 opAddrModePacketLen 0
  else assembleLoad RegA 4 opAddrModeAbsolute (u32 (i64 (extOffset + num))).
Definition StoreScratch_Assemble (src : Register) (n : Z) : assembled :=
  if (n <? 0) || (15 <? n) then (zero_raw, Some (ErrScratchSlot n))
  else if src =? RegA then (MkRaw opClsStoreA 0 0 (u32 n), None)
  else if src =? RegX then (MkRaw opClsStoreX 0 0 (u32 n), None)
  else (zero_raw, Some (ErrSourceRegister src)).
Definition ALUOpConstant_Assemble (op : ALUOp) (val : Z) : assembled :=
  (MkRaw (opClsALU |. opOperandConstant |. op) 0 0 val, None).
Definition ALUOpX_Assemble (op : ALUOp) : assembled := (MkRaw (opClsALU |. opOperandX |. op) 0 0 0, None).
Definition NegateA_Assemble : assembled := (MkRaw (opClsALU |. aluOpNeg) 0 0 0, None).
Definition Jump_Assemble (skip : Z) : assembled := (MkRaw (opClsJump |. opJumpAlways) 0 0 skip, None).
Definition JumpIf_Assemble (cond : JumpTest) (val skipTrue skipFalse : Z) : assembled :=
  jumpToRaw cond opOperandConstant val skipTrue skipFalse.
Definition JumpIfX_Assemble (cond : JumpTest) (skipTrue skipFalse : Z) : assembled :=
  jumpToRaw cond opOperandX 0 skipTrue skipFalse.
Definition RetA_Assemble : assembled := (MkRaw (opClsReturn |. opRetSrcA) 0 0 0, None).
Definition RetConstant_Assemble (val : Z) : assembled := (MkRaw (opClsReturn |. opRetSrcConstant) 0 0 val, None).
Definition TXA_Assemble : assembled := (MkRaw (opClsMisc |. opMiscTXA) 0 0 0, None).
Definition TAX_Assemble : assembled := (MkRaw (opClsMisc |. opMiscTAX) 0 0 0, None).

(** The method of the interface. *)
Definition Instruction_Assemble (ins : Instruction) : assembled :=
  match ins with
  | Raw ri => RawInstruction_Assemble ri
  | LoadConstant dst val => LoadConstant_Assemble dst val
  | LoadScratch dst n => LoadScratch_Assemble dst n
  | LoadAbsolute off size => LoadAbsolute_Assemble off size
  | LoadIndirect off size => LoadIndirect_Assemble off size
  | LoadMemShift off => LoadMemShift_Assemble off
  | LoadExtension num => LoadExtension_Assemble num
  | StoreScratch src n => StoreScratch_Assemble src n
  | ALUOpConstant op val => ALUOpConstant_Assemble op val
  | ALUOpX op => ALUOpX_Assemble op
  | NegateA => NegateA_Assemble
  | Jump skip => Jump_Assemble skip
  | JumpIf cond val skipTrue skipFalse => JumpIf_Assemble cond val skipTrue skipFalse
  | JumpIfX cond skipTrue skipFalse => JumpIfX_Assemble cond skipTrue skipFalse
  | RetA => RetA_Assemble
  | RetConstant val => RetConstant_Assemble val
  | TXA => TXA_Assemble
  | TAX => TAX_Assemble
  end.

Ltac unfold_Assemble :=
  cbn [Instruction_Assemble]; unfold RawInstruction_Assemble, LoadConstant_Assemble, LoadScratch_Assemble, LoadAbsolute_Assemble,
    LoadIndirect_Assemble, LoadMemShift_Assemble, LoadExtension_Assemble, StoreScratch_Assemble, ALUOpConstant_Assemble,
    ALUOpX_Assemble, NegateA_Assemble, Jump_Assemble, JumpIf_Assemble, JumpIfX_Assemble, RetA_Assemble, RetConstant_Assemble,
    TXA_Assemble, TAX_Assemble.

Definition jumpOpToTest (op skipTrue skipFalse : Z) : JumpTest * Z * Z :=
  if skipTrue =? 0 then
    let test :=
      if op =? opJumpEqual then JumpNotEqual else if op =? opJumpGT then JumpLessOrEqual
      else if op =? opJumpGE then JumpLessThan else if op =? opJumpSet then JumpBitsNotSet else 0 in
    (test, skipFalse, 0)
  else
    let test :=
      if op =? opJumpEqual then JumpEqual else if op =? opJumpGT then JumpGreaterThan
      else if op =? opJumpGE then JumpGreaterOrEqual else if op =? opJumpSet then JumpBitsSet else 0 in
    (test, skipTrue, skipFalse).

Definition is_binary_op (op : ALUOp) : bool :=
  existsb (Z.eqb op) [ALUOpAdd; ALUOpSub; ALUOpMul; ALUOpDiv; ALUOpOr; ALUOpAnd; ALUOpShiftLeft; ALUOpShiftRight; ALUOpMod; ALUOpXor].

(** The case of loads. *)
Definition disassemble_load (ri : RawInstruction) : Instruction :=
  let reg := Op ri &. opMaskLoadDest in
  let width := Op ri &. opMaskLoadWidth in
  match (if width =? opLoadWidth4 then Some 4 else if width =? opLoadWidth2 then Some 2
         else if width =? opLoadWidth1 then Some 1 else None) with
  | None => Raw ri
  | Some sz =>
      let mode := Op ri &. opMaskLoadMode in
      if mode =? opAddrModeImmediate then
        if negb (sz =? 4) then Raw ri else LoadConstant reg (K ri)
      else if mode =? opAddrModeScratch then
        if negb (sz =? 4) || (15 <? K ri) then Raw ri else LoadScratch reg (K ri)
      else if mode =? opAddrModeAbsolute then
        if extOffset + 0xffffffff <? K ri then LoadExtension (u32 (- extOffset + K ri))
        else LoadAbsolute (K ri) sz
      else if mode =? opAddrModeIndirect then LoadIndirect (K ri) sz
      else if mode =? opAddrModePacketLen then
        if negb (sz =? 4) then Raw ri else LoadExtension ExtLen
      else if mode =? opAddrModeMemShift then LoadMemShift (K ri)
      else Raw ri
  end.

(** The case of arithmetic. *)
Definition disassemble_alu (ri : RawInstruction) : Instruction :=
  let op := Op ri &. opMaskOperator in
  if is_binary_op op then
    let operand := Op ri &. opMaskOperand in
    if operand =? opOperandX then ALUOpX op
    else if operand =? opOperandConstant then ALUOpConstant op (K ri)
    else Raw ri
  else if op =? aluOpNeg then NegateA
  else Raw ri.

(** The case of jumps. *)
Definition disassemble_jump (ri : RawInstruction) : Instruction :=
  let op := Op ri &. opMaskOperator in
  if op =? opJumpAlways then Jump (K ri)
  else if existsb (Z.eqb op) [opJumpEqual; opJumpGT; opJumpGE; opJumpSet] then
    let '(cond, skipTrue, skipFalse) := jumpOpToTest op (Jt ri) (Jf ri) in
    let operand := Op ri &. opMaskOperand in
    if operand =? opOperandX then JumpIfX cond skipTrue skipFalse
    else if operand =? opOperandConstant then JumpIf cond (K ri) skipTrue skipFalse
    else Raw ri
  else Raw ri.

(** RawInstruction.Disassemble *)
Definition Raw_Disassemble (ri : RawInstruction) : outcome Instruction :=
  let cls := Op ri &. opMaskCls in
  if (cls =? opClsLoadA) || (cls =? opClsLoadX) then Val (disassemble_load ri)
  else if cls =? opClsStoreA then
    Val (if negb (Op ri =? opClsStoreA) || (15 <? K ri) then Raw ri else StoreScratch RegA (K ri))
  else if cls =? opClsStoreX then
    Val (if negb (Op ri =? opClsStoreX) || (15 <? K ri) then Raw ri else StoreScratch RegX (K ri))
  else if cls =? opClsALU then Val (disassemble_alu ri)
  else if cls =? opClsJump then Val (disassemble_jump ri)
  else if cls =? opClsReturn then
    Val (if Op ri =? opClsReturn |. opRetSrcA then RetA
         else if Op ri =? opClsReturn |. opRetSrcConstant then RetConstant (K ri)
         else Raw ri)
  else if cls =? opClsMisc then
    Val (if Op ri =? opClsMisc |. opMiscTAX then TAX
         else if Op ri =? opClsMisc |. opMiscTXA then TXA
         else Raw ri)
  else Panic Explicit.

(** ** Programs (asm.go) *)

Fixpoint assemble_from (i : Z) (insts : list Instruction) : list RawInstruction * option error :=
  match insts with
  | [] => ([], None)
  | inst :: insts =>
      match Instruction_Assemble inst with
      | (_, Some e) => ([], Some (ErrAssembling (i + 1) e))
      | (r, None) =>
          match assemble_from (i + 1) insts with
          | (_, Some e) => ([], Some e)
          | (rs, None) => (r :: rs, None)
          end
      end
  end.

Definition Assemble (insts : list Instruction) : list RawInstruction * option error := assemble_from 0 insts.

Definition is_raw (ins : Instruction) : bool := match ins with Raw _ => true | _ => false end.

Fixpoint Disassemble (raw : list RawInstruction) : outcome (list Instruction * bool) :=
  match raw with
  | [] => Val ([], true)
  | r :: raw =>
      i ← Raw_Disassemble r;
      '(insts, allDecoded) ← Disassemble raw;
      Val (i :: insts, negb (is_raw i) && allDecoded)
  end.

(** ** Which instructions the raw form can express *)

(** Field values of the types of the source. *)
Definition raw_ok (r : RawInstruction) : Prop :=
  is_uint 16 (Op r) /\ is_byte (Jt r) /\ is_byte (Jf r) /\ is_uint 32 (K r).

Definition register_ok (r : Register) : bool := (r =? RegA) || (r =? RegX).
Definition slot_ok (n : Z) : bool := (0 <=? n) && (n <=? 15).
Definition size_ok (n : Z) : bool := existsb (Z.eqb n) [1; 2; 4].
Definition test_ok (t : JumpTest) : bool := (0 <=? t) && (t <=? 7).
Definition u32_ok (v : Z) : bool := bool_decide (is_uint 32 v).
Definition u8_ok (v : Z) : bool := bool_decide (is_byte v).

(** Instructions with fields of their types that the raw form has a code for: an operator of the
    package, an offset below those that mean an extension, an extension of the reserved range. *)
Definition codable (i : Instruction) : bool :=
  match i with
  | LoadConstant d v => register_ok d && u32_ok v
  | LoadScratch d n => register_ok d && slot_ok n
  | LoadAbsolute off size => u32_ok off && (off <=? extOffset + 0xffffffff) && size_ok size
  | LoadIndirect off size => u32_ok off && size_ok size
  | LoadMemShift off => u32_ok off
  | LoadExtension num => (0 <=? num) && (num <? 0x1000)
  | StoreScratch s n => register_ok s && slot_ok n
  | ALUOpConstant op v => is_binary_op op && u32_ok v
  | ALUOpX op => is_binary_op op
  | Jump skip => u32_ok skip
  | JumpIf t v st sf => test_ok t && u32_ok v && u8_ok st && u8_ok sf
  | JumpIfX t st sf => test_ok t && u8_ok st && u8_ok sf
  | RetConstant v => u32_ok v
  | NegateA | RetA | TXA | TAX => true
  | Raw _ => false
  end.

(** Tests come in pairs: 0 and 1, 6 and 7 are opposite, as are 2 and 5, 3 and 4; one of each pair has a code. *)
Definition opposite (t : JumpTest) : JumpTest :=
  if t =? JumpEqual then JumpNotEqual else if t =? JumpNotEqual then JumpEqual
  else if t =? JumpGreaterThan then JumpLessOrEqual else if t =? JumpLessOrEqual then JumpGreaterThan
  else if t =? JumpGreaterOrEqual then JumpLessThan else if t =? JumpLessThan then JumpGreaterOrEqual
  else if t =? JumpBitsSet then JumpBitsNotSet else JumpBitsSet.
Definition has_code (t : JumpTest) : bool := existsb (Z.eqb t) [JumpEqual; JumpGreaterThan; JumpGreaterOrEqual; JumpBitsSet].

(** The form in which a conditional jump is read back: with the test that has a code, unless that would
    skip nothing when it holds. *)
Definition canon_jump (t : JumpTest) (st sf : Z) : JumpTest * Z * Z :=
  if has_code t then if st =? 0 then (opposite t, sf, 0) else (t, st, sf)
  else if sf =? 0 then (t, st, 0) else (opposite t, sf, st).

Definition canon (i : Instruction) : Instruction :=
  match i with
  | JumpIf t v st sf => let '(t, st, sf) := canon_jump t st sf in JumpIf t v st sf
  | JumpIfX t st sf => let '(t, st, sf) := canon_jump t st sf in JumpIfX t st sf
  | _ => i
  end.

(** ** Round trips *)

Ltac bools := repeat match goal with
  | H : (_ && _) = true |- _ => apply andb_true_iff in H as [? H]
  | H : (_ <=? _) = true |- _ => apply Z.leb_le in H
  | H : (_ <? _) = true |- _ => apply Z.ltb_lt in H
  | H : bool_decide _ = true |- _ => apply bool_decide_eq_true_1 in H
  end.

(** A Boolean membership test: the members one by one. *)
Ltac members H := unfold is_binary_op, size_ok in H; cbn [existsb] in H; rewrite ?orb_false_r in H;
  repeat (apply orb_true_iff in H as [H|H]); apply Z.eqb_eq in H; subst.

Lemma register_cases r : register_ok r = true -> r = RegA \/ r = RegX.
Proof. unfold register_ok. intros [H|H]%orb_true_iff; apply Z.eqb_eq in H; auto. Qed.

Lemma test_cases t : test_ok t = true -> t = 0 \/ t = 1 \/ t = 2 \/ t = 3 \/ t = 4 \/ t = 5 \/ t = 6 \/ t = 7.
Proof. unfold test_ok. intros H. bools. lia. Qed.

(** What the loads, stores and jumps decode to, the operand left open. *)
Lemma decode_scratch d k : d = RegA \/ d = RegX ->
  Raw_Disassemble (MkRaw (d |. opLoadWidth4 |. opAddrModeScratch) 0 0 k)
  = Val (if 15 <? k then Raw (MkRaw (d |. opLoadWidth4 |. opAddrModeScratch) 0 0 k) else LoadScratch d k).
Proof. by intros [->| ->]. Qed.

Lemma decode_absolute w size k : (w, size) = (opLoadWidth1, 1) \/ (w, size) = (opLoadWidth2, 2) \/ (w, size) = (opLoadWidth4, 4) ->
  Raw_Disassemble (MkRaw (opClsLoadA |. w |. opAddrModeAbsolute) 0 0 k)
  = Val (if extOffset + 0xffffffff <? k then LoadExtension (u32 (- extOffset + k)) else LoadAbsolute k size).
Proof. by intros [[= -> ->]|[[= -> ->]|[= -> ->]]]. Qed.

Lemma decode_store s k : s = RegA \/ s = RegX ->
  Raw_Disassemble (MkRaw (opClsStoreA + s) 0 0 k)
  = Val (if 15 <? k then Raw (MkRaw (opClsStoreA + s) 0 0 k) else StoreScratch s k).
Proof. by intros [->| ->]. Qed.

Lemma decode_jump op operand jt jf k :
  op = opJumpEqual \/ op = opJumpGT \/ op = opJumpGE \/ op = opJumpSet -> operand = opOperandConstant \/ operand = opOperandX ->
  Raw_Disassemble (MkRaw (opClsJump |. op |. operand) jt jf k)
  = Val (let '(t, st, sf) := jumpOpToTest op jt jf in if operand =? opOperandX then JumpIfX t st sf else JumpIf t k st sf).
Proof. by intros [->|[->|[->| ->]]] [->| ->]. Qed.

Lemma decode_alu op operand k : is_binary_op op = true -> operand = opOperandConstant \/ operand = opOperandX ->
  Raw_Disassemble (MkRaw (opClsALU |. operand |. op) 0 0 k)
  = Val (if operand =? opOperandX then ALUOpX op else ALUOpConstant op k).
Proof. intros H [->| ->]; members H; reflexivity. Qed.

Lemma jump_round_trip t operand k st sf : test_ok t = true -> operand = opOperandConstant \/ operand = opOperandX ->
  exists r, jumpToRaw t operand k st sf = (r, None)
  /\ Raw_Disassemble r = Val (let '(t, st, sf) := canon_jump t st sf in
       if operand =? opOperandX then JumpIfX t st sf else JumpIf t k st sf).
Proof.
  intros Ht Ho. apply test_cases in Ht as [->|[->|[->|[->|[->|[->|[->| ->]]]]]]];
    (eexists; split; [reflexivity|]); (rewrite decode_jump; [|by auto|done]);
    unfold canon_jump, jumpOpToTest; cbn [has_code existsb];
    match goal with |- context [?x =? 0] => is_var x; destruct (x =? 0) eqn:E end; done.
Qed.

Lemma codable_round_trip i : codable i = true ->
  exists r, Instruction_Assemble i = (r, None) /\ Raw_Disassemble r = Val (canon i).
Proof.
  destruct i as [d v|d n|off size|off size|off|num|s n|op v|op| |skip|t v st sf|t st sf| |v| | |r];
    cbn [codable canon]; unfold_Assemble; intros H; try (eexists; split; reflexivity); try done.
  - bools. apply register_cases in H0 as [->| ->]; by eexists.
  - unfold slot_ok in H. bools. apply register_cases in H0.
    rewrite (proj2 (Z.ltb_ge n 0)), (proj2 (Z.ltb_ge 15 n)) by lia. cbn [orb].
    rewrite wrap_small by (unfold is_uint; lia). exists (MkRaw (d |. opLoadWidth4 |. opAddrModeScratch) 0 0 n).
    rewrite decode_scratch, (proj2 (Z.ltb_ge 15 n)) by (done || lia). by destruct H0 as [->| ->].
  - bools. members H; (eexists; split; [reflexivity|]).
    + rewrite (decode_absolute opLoadWidth1 1) by auto. by rewrite (proj2 (Z.ltb_ge _ off)).
    + rewrite (decode_absolute opLoadWidth2 2) by auto. by rewrite (proj2 (Z.ltb_ge _ off)).
    + rewrite (decode_absolute opLoadWidth4 4) by auto. by rewrite (proj2 (Z.ltb_ge _ off)).
  - bools. members H; by eexists.
  - bools. destruct (Z.eqb_spec num ExtLen) as [->|Hn]; [by eexists|]. eexists. split; [reflexivity|].
    rewrite (decode_absolute opLoadWidth4 4) by auto.
    assert (E : u32 (i64 (extOffset + num)) = 0xfffff000 + num).
    { rewrite swrap_small by (unfold is_sint, extOffset; lia). unfold extOffset. dlia. }
    rewrite E, (proj2 (Z.ltb_lt _ (_ + num))) by (unfold extOffset; lia). do 2 f_equal. unfold extOffset. dlia.
  - unfold slot_ok in H. bools. apply register_cases in H0.
    rewrite (proj2 (Z.ltb_ge n 0)), (proj2 (Z.ltb_ge 15 n)) by lia. cbn [orb].
    rewrite wrap_small by (unfold is_uint; lia). exists (MkRaw (opClsStoreA + s) 0 0 n).
    rewrite decode_store, (proj2 (Z.ltb_ge 15 n)) by (done || lia). by destruct H0 as [->| ->].
  - bools. eexists. split; [reflexivity|]. by rewrite decode_alu by auto.
  - eexists. split; [reflexivity|]. by rewrite decode_alu by auto.
  - bools. destruct (jump_round_trip t opOperandConstant v st sf) as (r & -> & E); auto. exists r. by rewrite E.
  - bools. destruct (jump_round_trip t opOperandX 0 st sf) as (r & -> & E); auto. exists r. by rewrite E.
Qed.

(** ** Everything that is decoded is canonical *)

Definition canonical (i : Instruction) : Prop := codable i = true /\ canon i = i.

Lemma land_ones_bound x n : 0 <= n -> 0 <= x &. Z.ones n < 2 ^ n.
Proof. intros Hn. rewrite Z.land_ones by done. apply Z.mod_pos_bound. lia. Qed.

Lemma reg_masked op : register_ok (op &. opMaskLoadDest) = true.
Proof.
  pose proof (land_ones_bound op 1 ltac:(lia)) as H. change (Z.ones 1) with opMaskLoadDest in H. unfold register_ok.
  destruct (Z.eqb_spec (op &. opMaskLoadDest) RegA), (Z.eqb_spec (op &. opMaskLoadDest) RegX); try done.
  unfold RegA, RegX in *. lia.
Qed.

Lemma codable_u32 k : is_uint 32 k -> u32_ok k = true.
Proof. intros H. by apply bool_decide_eq_true_2. Qed.
Lemma codable_u8 k : is_byte k -> u8_ok k = true.
Proof. intros H. by apply bool_decide_eq_true_2. Qed.
Lemma codable_slot k : is_uint 32 k -> (15 <? k) = false -> slot_ok k = true.
Proof. unfold is_uint, slot_ok. intros H E. apply andb_true_iff. lia. Qed.

Create HintDb bpf discriminated.
#[local] Hint Resolve reg_masked codable_u32 codable_u8 codable_slot : bpf.

Ltac codable_tac := cbn [codable];
  repeat match goal with |- (_ && _) = true => apply andb_true_iff; split end; eauto with bpf.

Lemma load_canonical r : raw_ok r -> disassemble_load r = Raw r \/ canonical (disassemble_load r).
Proof.
  intros (_ & _ & _ & HK). unfold disassemble_load.
  assert (Hsize : forall sz : Z, (if Op r &. opMaskLoadWidth =? opLoadWidth4 then Some 4
    else if Op r &. opMaskLoadWidth =? opLoadWidth2 then Some 2
    else if Op r &. opMaskLoadWidth =? opLoadWidth1 then Some 1 else None) = Some sz -> size_ok sz = true).
  { intros sz. repeat case_match; by intros [= <-]. }
  destruct (if Op r &. opMaskLoadWidth =? opLoadWidth4 then _ else _) as [sz|]; [|by left].
  pose proof (Hsize sz eq_refl) as Hs. unfold canonical.
  repeat match goal with |- context [if ?b then _ else _] => destruct b eqn:? end; auto; right; (split; [|reflexivity]).
  - codable_tac.
  - apply orb_false_iff in Heqb1 as [_ ?]. codable_tac.
  - apply Z.ltb_lt in Heqb2. unfold is_uint, extOffset in *. cbn [codable].
    assert (E : u32 (- - 4096 + K r) = K r - 0xfffff000) by dlia. rewrite E. apply andb_true_iff. lia.
  - apply Z.ltb_ge in Heqb2. codable_tac. by apply Z.leb_le.
  - codable_tac.
  - codable_tac.
Qed.

Lemma alu_canonical r : raw_ok r -> disassemble_alu r = Raw r \/ canonical (disassemble_alu r).
Proof.
  intros (_ & _ & _ & HK). unfold disassemble_alu, canonical.
  repeat match goal with |- context [if ?b then _ else _] => destruct b eqn:? end; auto; right; (split; [|reflexivity]); codable_tac.
Qed.

Lemma jumpOpToTest_canonical op st sf t st' sf' : existsb (Z.eqb op) [opJumpEqual; opJumpGT; opJumpGE; opJumpSet] = true ->
  is_byte st -> is_byte sf -> jumpOpToTest op st sf = (t, st', sf') ->
  test_ok t = true /\ is_byte st' /\ is_byte sf' /\ canon_jump t st' sf' = (t, st', sf').
Proof.
  intros Ho Hst Hsf. members Ho; unfold jumpOpToTest; destruct (st =? 0) eqn:E; intros [= <- <- <-];
    (split_and!; [done|try done; unfold is_uint in *; lia..|]); unfold canon_jump; cbn; rewrite ?E; try reflexivity;
    by destruct (sf =? 0).
Qed.

Lemma jump_canonical r : raw_ok r -> disassemble_jump r = Raw r \/ canonical (disassemble_jump r).
Proof.
  intros (_ & Ht & Hf & HK). unfold disassemble_jump. destruct (_ =? opJumpAlways).
  { right. split; [|done]. codable_tac. }
  destruct (existsb _ _) eqn:Eo; [|by left]. destruct (jumpOpToTest _ _ _) as [[t st] sf] eqn:Ej.
  destruct (jumpOpToTest_canonical _ _ _ _ _ _ Eo Ht Hf Ej) as (H1 & H2 & H3 & H4).
  destruct (_ =? opOperandX); [|destruct (_ =? opOperandConstant); [|by left]];
    right; (split; [codable_tac|cbn [canon]; by rewrite H4]).
Qed.

Lemma disassemble_canonical r : raw_ok r ->
  exists i, Raw_Disassemble r = Val i /\ (i = Raw r \/ canonical i).
Proof.
  intros Hr. pose proof Hr as (_ & _ & _ & HK). unfold Raw_Disassemble.
  pose proof (land_ones_bound (Op r) 3 ltac:(lia)) as Hc. change (Z.ones 3) with opMaskCls in Hc.
  assert (Hpanic : (Op r &. opMaskCls =? opClsLoadA) || (Op r &. opMaskCls =? opClsLoadX) = false ->
    (Op r &. opMaskCls =? opClsStoreA) = false -> (Op r &. opMaskCls =? opClsStoreX) = false ->
    (Op r &. opMaskCls =? opClsALU) = false -> (Op r &. opMaskCls =? opClsJump) = false ->
    (Op r &. opMaskCls =? opClsReturn) = false -> (Op r &. opMaskCls =? opClsMisc) = false -> False).
  { unfold opClsLoadA, opClsLoadX, opClsStoreA, opClsStoreX, opClsALU, opClsJump, opClsReturn, opClsMisc. lia. }
  destruct (_ || _); [eexists; split; [reflexivity|by apply load_canonical]|].
  destruct (_ =? opClsStoreA).
  { eexists. split; [reflexivity|]. destruct (negb _ || _) eqn:E; [by left|right]. apply orb_false_iff in E as [_ ?].
    split; [|done]. codable_tac. }
  destruct (_ =? opClsStoreX).
  { eexists. split; [reflexivity|]. destruct (negb _ || _) eqn:E; [by left|right]. apply orb_false_iff in E as [_ ?].
    split; [|done]. codable_tac. }
  destruct (_ =? opClsALU); [eexists; split; [reflexivity|by apply alu_canonical]|].
  destruct (_ =? opClsJump); [eexists; split; [reflexivity|by apply jump_canonical]|].
  destruct (_ =? opClsReturn).
  { eexists. split; [reflexivity|]. destruct (Op r =? _); [by (right; split)|]. destruct (Op r =? _); [right|by left]. split; [|done]. codable_tac. }
  destruct (_ =? opClsMisc); [|by destruct Hpanic].
  eexists. split; [reflexivity|]. destruct (Op r =? _); [by (right; split)|]. destruct (Op r =? _); [by (right; split)|by left].
Qed.

(** Reading back a program of which every instruction has a code. *)
Lemma Assemble_codable k P : Forall (λ i, codable i = true) P ->
  exists raw, assemble_from k P = (raw, None) /\ length raw = length P
  /\ Disassemble raw = Val (map canon P, true).
Proof.
  revert k. induction P as [|i P IH]; intros k HP; [by exists []|]. apply Forall_cons in HP as [Hi HP].
  destruct (codable_round_trip i Hi) as (r & Ei & Er). destruct (IH (k + 1) HP) as (raw & EP & HL & Eraw).
  exists (r :: raw). cbn [assemble_from Disassemble map length]. rewrite Ei, EP, Er, Eraw. split_and!; [done|by f_equal|].
  cbn. do 2 f_equal. assert (is_raw (canon i) = false) as ->; [|done].
  destruct i as [| | | | | | | | | | |t v st sf|t st sf| | | | |]; cbn [canon] in *; try done; by destruct (canon_jump _ _ _) as [[? ?] ?].
Qed.

Lemma canonical_map P : Forall canonical P -> map canon P = P.
Proof. induction 1 as [|i P [_ Hi] _ IH]; cbn; congruence. Qed.

(** Reading any sequence of raw instructions (with fields of their widths) succeeds; the flag says
    whether all were recognised, and those that were not are passed through unchanged. Assembling the result
    succeeds, and reading the assembled program back gives exactly the same instructions and flag, although
    the raw program may differ from the first one. *)
Theorem Disassemble_Assemble_Disassemble raw : Forall raw_ok raw ->
  exists P allDecoded, Disassemble raw = Val (P, allDecoded)
  /\ Forall2 (λ r i, i = Raw r \/ canonical i) raw P
  /\ (allDecoded = true <-> Forall (λ i, is_raw i = false) P)
  /\ exists raw', Assemble P = (raw', None) /\ Disassemble raw' = Val (P, allDecoded).
Proof.
  unfold Assemble. generalize 0. induction raw as [|r raw IH]; intros k HR.
  { exists [], true. split_and!; try done. by exists []. }
  apply Forall_cons in HR as [Hr HR]. destruct (IH (k + 1) HR) as (P & b & EP & H2 & Hb & raw' & EA & ED).
  destruct (disassemble_canonical r Hr) as (i & Ei & Hi). exists (i :: P), (negb (is_raw i) && b).
  cbn [Disassemble]. rewrite Ei, EP. split_and!; [done|by constructor| |].
  { rewrite Forall_cons, <- Hb. destruct (is_raw i), b; cbn; intuition congruence. }
  assert (exists r', Instruction_Assemble i = (r', None) /\ Raw_Disassemble r' = Val i) as (r' & E1 & E2).
  { destruct Hi as [->|[Hi Hc]]; [by exists r|]. destruct (codable_round_trip i Hi) as (r' & ? & E). exists r'. by rewrite E, Hc. }
  exists (r' :: raw'). cbn [assemble_from Disassemble]. by rewrite E1, EA, E2, ED.
Qed.

(** A jump, a load through [ldx] read as one into A, and an unknown opcode. *)
Lemma Disassemble_Assemble_Disassemble_witness :
  let raw := [MkRaw 0x15 0 3 7; MkRaw 0x21 9 9 12; MkRaw 0x200 1 2 3] in
  Forall raw_ok raw /\ exists P allDecoded, Disassemble raw = Val (P, allDecoded)
  /\ exists raw', Assemble P = (raw', None) /\ Disassemble raw' = Val (P, allDecoded).
Proof.
  intros raw. assert (H : Forall raw_ok raw) by (repeat constructor; done). split; [exact H|].
  destruct (Disassemble_Assemble_Disassemble raw H) as (P & b & E & _ & _ & Hr). exists P, b. split; [exact E|exact Hr].
Defined.
