(* ===== verification/BpfVm.v ===== *)
(** * golang.org/x/net/bpf: the virtual machine

    NewVM and VM.Run (src/Source/Gold/golang.org/x/net/bpf/vm.go, vm_instructions.go): the checks made
    of a program and its interpretation over a packet, with the loads going through the byte
    orders of encoding/binary.  The machine that the comments of instructions.go describe is given as a
    transition relation, which Run implements. *)

From stdpp Require Import relations.
From S2P Require Import Prelude Binary Bpf.

Local Open Scope go_scope.

(** ** The instructions (vm_instructions.go) *)

Definition aluOpCommon (op : ALUOp) (regA value : Z) : outcome Z :=
  if op =? ALUOpAdd then Val (u32 (regA + value))
  else if op =? ALUOpSub then Val (u32 (regA - value))
  else if op =? ALUOpMul then Val (u32 (regA * value))
  else if op =? ALUOpDiv then if value =? 0 then Panic DivideError else Val (Z.quot regA value)
  else if op =? ALUOpOr then Val (regA |. value)
  else if op =? ALUOpAnd then Val (regA &. value)
  else if op =? ALUOpShiftLeft then Val (regA <<.[32] value)
  else if op =? ALUOpShiftRight then Val (regA >>. value)
  else if op =? ALUOpMod then if value =? 0 then Panic DivideError else Val (Z.rem regA value)
  else if op =? ALUOpXor then Val (regA ^. value)
  else Val regA.

Definition aluOpConstant (op : ALUOp) (val regA : Z) : outcome Z := aluOpCommon op regA val.

Definition aluOpX (op : ALUOp) (regA regX : Z) : outcome (Z * bool) :=
  if (regX =? 0) && ((op =? ALUOpDiv) || (op =? ALUOpMod)) then Val (0, false)
  else a ← aluOpCommon op regA regX; Val (a, true).

Definition jumpIfCommon (cond : JumpTest) (skipTrue skipFalse regA value : Z) : Z :=
  let ok :=
    if cond =? JumpEqual then regA =? value
    else if cond =? JumpNotEqual then negb (regA =? value)
    else if cond =? JumpGreaterThan then value <? regA
    else if cond =? JumpLessThan then regA <? value
    else if cond =? JumpGreaterOrEqual then value <=? regA
    else if cond =? JumpLessOrEqual then regA <=? value
    else if cond =? JumpBitsSet then negb (regA &. value =? 0)
    else if cond =? JumpBitsNotSet then regA &. value =? 0
    else false in
  if ok : bool then skipTrue else skipFalse.

Definition jumpIf (cond : JumpTest) (val skipTrue skipFalse regA : Z) : Z :=
  jumpIfCommon cond skipTrue skipFalse regA val.
Definition jumpIfX (cond : JumpTest) (skipTrue skipFalse regA regX : Z) : Z :=
  jumpIfCommon cond skipTrue skipFalse regA regX.

Definition inBounds (inLen offset size : Z) : bool := i64 (offset + size) <=? inLen.

Definition loadCommon (in_ : list Z) (offset size : Z) : outcome (Z * bool) :=
  if negb (inBounds (zlen in_) offset size) then Val (0, false)
  else if size =? 1 then b ← index in_ offset; Val (b, true)
  else if size =? 2 then s ← slice in_ offset (offset + size); v ← bigEndian_Uint16 s; Val (v, true)
  else if size =? 4 then s ← slice in_ offset (offset + size); v ← bigEndian_Uint32 s; Val (v, true)
  else Panic Explicit.

Definition loadAbsolute (off size : Z) (in_ : list Z) : outcome (Z * bool) := loadCommon in_ off size.

Definition loadConstant (dst : Register) (val regA regX : Z) : Z * Z :=
  if dst =? RegA then (val, regX) else if dst =? RegX then (regA, val) else (regA, regX).

Definition loadExtension (num : Extension) (in_ : list Z) : outcome Z :=
  if num =? ExtLen then Val (u32 (zlen in_)) else Panic Explicit.

Definition loadIndirect (off size : Z) (in_ : list Z) (regX : Z) : outcome (Z * bool) :=
  loadCommon in_ (i64 (off + regX)) size.

Definition loadMemShift (off : Z) (in_ : list Z) : outcome (Z * bool) :=
  if negb (inBounds (zlen in_) off 1) then Val (0, false)
  else b ← index in_ off; Val (u32 ((b &. 0x0f) * 4), true).

Definition loadScratch (dst : Register) (n : Z) (regScratch : list Z) (regA regX : Z) : outcome (Z * Z) :=
  if dst =? RegA then a ← index regScratch n; Val (a, regX)
  else if dst =? RegX then x ← index regScratch n; Val (regA, x)
  else Val (regA, regX).

Definition storeScratch (src : Register) (n : Z) (regScratch : list Z) (regA regX : Z) : outcome (list Z) :=
  if src =? RegA then store regScratch n regA
  else if src =? RegX then store regScratch n regX
  else Val regScratch.

(** ** Programs (vm.go) *)

Record VM : Type := MkVM { filter : list Instruction }.

(** The checks of one instruction; [check] is the number of instructions after it. *)
Definition check_instruction (check : Z) (ins : Instruction) : option error :=
  match ins with
  | Jump skip => if check <=? skip then Some (ErrJump skip) else None
  | JumpIf _ _ st sf | JumpIfX _ st sf =>
      if check <=? st then Some (ErrJumpTrue st)
      else if check <=? sf then Some (ErrJumpFalse sf)
      else None
  | ALUOpConstant op val =>
      if negb (val =? 0) then None
      else if (op =? ALUOpDiv) || (op =? ALUOpMod) then Some ErrDivideByZero
      else None
  | LoadExtension num => if num =? ExtLen then None else Some (ErrExtension num)
  | _ => None
  end.

Fixpoint check_loop (filter : list Instruction) : option error :=
  match filter with
  | [] => None
  | ins :: filter =>
      match check_instruction (zlen filter) ins with
      | Some e => Some e
      | None => check_loop filter
      end
  end.

Definition is_return (ins : Instruction) : bool :=
  match ins with RetA | RetConstant _ => true | _ => false end.

(** A program that does not assemble is returned together with the error. *)
Definition NewVM (filter : list Instruction) : outcome (option VM * option error) :=
  if zlen filter =? 0 then Val (None, Some ErrEmpty)
  else
    match check_loop filter with
    | Some e => Val (None, Some e)
    | None =>
        final ← index filter (zlen filter - 1);
        if negb (is_return final) then Val (None, Some ErrNoReturn)
        else let '(_, err) := Assemble filter in Val (Some (MkVM filter), err)
    end.

Record registers : Type := MkRegs { regA : Z; regX : Z; regScratch : list Z }.

(** What one pass through the body of the loop does: go on with the instruction counter that the
    loop increments next, leave the loop with [ok] false, or return. *)
Inductive turn : Type :=
  | Continue (i : Z) (s : registers)
  | Stop
  | Return (n : Z) (err : option error).

Definition when_ok (i : Z) (r : outcome (Z * bool)) (s : Z -> registers) : outcome turn :=
  '(v, ok) ← r; Val (if ok : bool then Continue i (s v) else Stop).

Definition run_instruction (in_ : list Z) (i : Z) (s : registers) (ins : Instruction) : outcome turn :=
  let '(MkRegs a x m) := s in
  match ins with
  | ALUOpConstant op val => a ← aluOpConstant op val a; Val (Continue i (MkRegs a x m))
  | ALUOpX op => when_ok i (aluOpX op a x) (λ a, MkRegs a x m)
  | Jump skip => Val (Continue (i + skip) s)
  | JumpIf cond val st sf => Val (Continue (i + jumpIf cond val st sf a) s)
  | JumpIfX cond st sf => Val (Continue (i + jumpIfX cond st sf a x) s)
  | LoadAbsolute off size => when_ok i (loadAbsolute off size in_) (λ a, MkRegs a x m)
  | LoadConstant dst val => let '(a, x) := loadConstant dst val a x in Val (Continue i (MkRegs a x m))
  | LoadExtension num => a ← loadExtension num in_; Val (Continue i (MkRegs a x m))
  | LoadIndirect off size => when_ok i (loadIndirect off size in_ x) (λ a, MkRegs a x m)
  | LoadMemShift off => when_ok i (loadMemShift off in_) (λ x, MkRegs a x m)
  | LoadScratch dst n => '(a, x) ← loadScratch dst n m a x; Val (Continue i (MkRegs a x m))
  | RetA => Val (Return a None)
  | RetConstant val => Val (Return val None)
  | StoreScratch src n => m ← storeScratch src n m a x; Val (Continue i (MkRegs a x m))
  | TAX => Val (Continue i (MkRegs a a m))
  | TXA => Val (Continue i (MkRegs x x m))
  | NegateA | Raw _ => Val (Return 0 (Some (ErrUnknownInstruction i ins)))
  end.

Fixpoint run_loop (fuel : nat) (v : VM) (in_ : list Z) (i : Z) (s : registers) : outcome (Z * option error) :=
  match fuel with
  | O => NoFuel
  | S fuel =>
      if i <? zlen (filter v) then
        ins ← index (filter v) i;
        t ← run_instruction in_ i s ins;
        match t with
        | Continue i s => run_loop fuel v in_ (i + 1) s
        | Stop => Val (0, None)
        | Return n err => Val (n, err)
        end
      else Val (0, None)
  end.

(** Every turn moves forward, so there are at most as many as instructions. *)
Definition Run (v : VM) (in_ : list Z) : outcome (Z * option error) :=
  run_loop (S (length (filter v))) v in_ 0 (MkRegs 0 0 (replicate 16 0)).

(** ** The machine of the documentation *)

(** The [n] bytes of the packet at [off], as a big-endian number. *)
Definition packet_value (pkt : list Z) (off n : Z) : option Z :=
  if bool_decide (off + n <= zlen pkt)
  then Some (order_value true (take (Z.to_nat n) (drop (Z.to_nat off) pkt))) else None.

(** [A <op> v] on 32-bit unsigned numbers; nothing when [v] is zero in a division. *)
Definition alu_result (op : ALUOp) (a v : Z) : option Z :=
  if op =? ALUOpAdd then Some ((a + v) mod 2 ^ 32)
  else if op =? ALUOpSub then Some ((a - v) mod 2 ^ 32)
  else if op =? ALUOpMul then Some (a * v mod 2 ^ 32)
  else if op =? ALUOpDiv then if v =? 0 then None else Some (a / v)
  else if op =? ALUOpOr then Some (Z.lor a v)
  else if op =? ALUOpAnd then Some (Z.land a v)
  else if op =? ALUOpShiftLeft then Some (a * 2 ^ v mod 2 ^ 32)
  else if op =? ALUOpShiftRight then Some (a / 2 ^ v)
  else if op =? ALUOpMod then if v =? 0 then None else Some (a mod v)
  else if op =? ALUOpXor then Some (Z.lxor a v)
  else None.

Inductive holds (a v : Z) : JumpTest -> Prop :=
  | h_eq : a = v -> holds a v JumpEqual
  | h_ne : a <> v -> holds a v JumpNotEqual
  | h_gt : a > v -> holds a v JumpGreaterThan
  | h_lt : a < v -> holds a v JumpLessThan
  | h_ge : a >= v -> holds a v JumpGreaterOrEqual
  | h_le : a <= v -> holds a v JumpLessOrEqual
  | h_set : Z.land a v <> 0 -> holds a v JumpBitsSet
  | h_clear : Z.land a v = 0 -> holds a v JumpBitsNotSet.

Definition set_reg (r : Register) (v : Z) (s : registers) : registers :=
  if r =? RegA then MkRegs v (regX s) (regScratch s) else MkRegs (regA s) v (regScratch s).
Definition get_reg (r : Register) (s : registers) : Z := if r =? RegA then regA s else regX s.

(** A program counter and the registers. *)
Definition config : Type := nat * registers.

Section Machine.
Context (P : list Instruction) (pkt : list Z).

Inductive step : config -> config -> Prop :=
  | m_alu_constant pc s op v a : P !! pc = Some (ALUOpConstant op v) -> alu_result op (regA s) v = Some a ->
      step (pc, s) (S pc, set_reg RegA a s)
  | m_alu_x pc s op a : P !! pc = Some (ALUOpX op) -> alu_result op (regA s) (regX s) = Some a ->
      step (pc, s) (S pc, set_reg RegA a s)
  | m_jump pc s skip : P !! pc = Some (Jump skip) -> step (pc, s) (S pc + Z.to_nat skip, s)%nat
  | m_jump_true pc s t v st sf : P !! pc = Some (JumpIf t v st sf) -> holds (regA s) v t ->
      step (pc, s) (S pc + Z.to_nat st, s)%nat
  | m_jump_false pc s t v st sf : P !! pc = Some (JumpIf t v st sf) -> ~ holds (regA s) v t ->
      step (pc, s) (S pc + Z.to_nat sf, s)%nat
  | m_jumpx_true pc s t st sf : P !! pc = Some (JumpIfX t st sf) -> holds (regA s) (regX s) t ->
      step (pc, s) (S pc + Z.to_nat st, s)%nat
  | m_jumpx_false pc s t st sf : P !! pc = Some (JumpIfX t st sf) -> ~ holds (regA s) (regX s) t ->
      step (pc, s) (S pc + Z.to_nat sf, s)%nat
  | m_absolute pc s off size v : P !! pc = Some (LoadAbsolute off size) -> packet_value pkt off size = Some v ->
      step (pc, s) (S pc, set_reg RegA v s)
  | m_indirect pc s off size v : P !! pc = Some (LoadIndirect off size) -> packet_value pkt (off + regX s) size = Some v ->
      step (pc, s) (S pc, set_reg RegA v s)
  | m_mem_shift pc s off v : P !! pc = Some (LoadMemShift off) -> packet_value pkt off 1 = Some v ->
      step (pc, s) (S pc, set_reg RegX (v mod 16 * 4) s)
  | m_constant pc s r v : P !! pc = Some (LoadConstant r v) -> step (pc, s) (S pc, set_reg r v s)
  | m_length pc s : P !! pc = Some (LoadExtension ExtLen) -> step (pc, s) (S pc, set_reg RegA (zlen pkt) s)
  | m_load pc s r n v : P !! pc = Some (LoadScratch r n) -> regScratch s !! Z.to_nat n = Some v ->
      step (pc, s) (S pc, set_reg r v s)
  | m_store pc s r n : P !! pc = Some (StoreScratch r n) ->
      step (pc, s) (S pc, MkRegs (regA s) (regX s) (<[Z.to_nat n := get_reg r s]> (regScratch s)))
  | m_tax pc s : P !! pc = Some TAX -> step (pc, s) (S pc, set_reg RegX (regA s) s)
  | m_txa pc s : P !! pc = Some TXA -> step (pc, s) (S pc, set_reg RegA (regX s) s).

(** The machine accepts [n] bytes: a return, or a load or division that cannot be made. *)
Inductive halts : config -> Z -> Prop :=
  | m_ret_a pc s : P !! pc = Some RetA -> halts (pc, s) (regA s)
  | m_ret_constant pc s v : P !! pc = Some (RetConstant v) -> halts (pc, s) v
  | m_no_division pc s op : P !! pc = Some (ALUOpX op) -> alu_result op (regA s) (regX s) = None -> halts (pc, s) 0
  | m_no_absolute pc s off size : P !! pc = Some (LoadAbsolute off size) -> packet_value pkt off size = None -> halts (pc, s) 0
  | m_no_indirect pc s off size : P !! pc = Some (LoadIndirect off size) -> packet_value pkt (off + regX s) size = None ->
      halts (pc, s) 0
  | m_no_shift pc s off : P !! pc = Some (LoadMemShift off) -> packet_value pkt off 1 = None -> halts (pc, s) 0.

Definition start : config := (0%nat, MkRegs 0 0 (replicate 16 0)).
Definition accepts (n : Z) : Prop := exists c, rtc step start c /\ halts c n.
End Machine.

(** ** What NewVM checks *)

(** Fields within the ranges of their types. *)
Definition typed (ins : Instruction) : Prop :=
  match ins with
  | LoadConstant _ v | RetConstant v | Jump v => is_uint 32 v
  | LoadAbsolute off size | LoadIndirect off size => is_uint 32 off /\ is_sint 64 size
  | LoadMemShift off => is_uint 32 off
  | ALUOpConstant _ v => is_uint 32 v
  | JumpIf _ v st sf => is_uint 32 v /\ is_byte st /\ is_byte sf
  | JumpIfX _ st sf => is_byte st /\ is_byte sf
  | _ => True
  end.

Definition operands_ok (ins : Instruction) : bool :=
  match ins with
  | LoadConstant r _ => register_ok r
  | LoadScratch r n | StoreScratch r n => register_ok r && slot_ok n
  | LoadAbsolute _ size | LoadIndirect _ size => size_ok size
  | JumpIf t _ _ _ | JumpIfX t _ _ => test_ok t
  | _ => true
  end.

(** An instruction with [rest] others after it. *)
Definition admissible (rest : Z) (ins : Instruction) : Prop :=
  operands_ok ins = true /\
  match ins with
  | Jump skip => skip < rest
  | JumpIf _ _ st sf | JumpIfX _ st sf => st < rest /\ sf < rest
  | ALUOpConstant op v => v = 0 -> op <> ALUOpDiv /\ op <> ALUOpMod
  | LoadExtension num => num = ExtLen
  | _ => True
  end.

Definition well_formed (P : list Instruction) : Prop :=
  (exists ins, last P = Some ins /\ is_return ins = true)
  /\ forall i ins, P !! i = Some ins -> admissible (zlen P - (Z.of_nat i + 1)) ins.

(** Instructions the machine has: the negation and raw instructions are not implemented. *)
Definition executable (ins : Instruction) : bool :=
  match ins with
  | ALUOpConstant op _ | ALUOpX op => is_binary_op op
  | NegateA | Raw _ => false
  | _ => true
  end.

Lemma test_ok_iff t : test_ok t = true <-> existsb (Z.eqb t) [0; 1; 2; 3; 4; 5; 6; 7] = true.
Proof. unfold test_ok. cbn [existsb]. rewrite !orb_true_iff, andb_true_iff. lia. Qed.

Lemma assembleLoad_error d size mode k :
  (assembleLoad d size mode k).2 = None <-> register_ok d = true /\ size_ok size = true.
Proof.
  unfold assembleLoad, register_ok, size_ok. cbn [existsb].
  destruct (d =? RegA), (d =? RegX), (size =? 1), (size =? 2), (size =? 4); cbn; intuition congruence.
Qed.

Lemma jumpToRaw_error t operand k st sf : (jumpToRaw t operand k st sf).2 = None <-> test_ok t = true.
Proof.
  rewrite test_ok_iff. unfold jumpToRaw, JumpEqual, JumpNotEqual, JumpGreaterThan, JumpLessThan, JumpGreaterOrEqual,
    JumpLessOrEqual, JumpBitsSet, JumpBitsNotSet. cbn [existsb].
  destruct (t =? 0), (t =? 1), (t =? 2), (t =? 3), (t =? 4), (t =? 5), (t =? 6), (t =? 7); cbn; intuition congruence.
Qed.

Lemma assembles_iff ins : (Instruction_Assemble ins).2 = None <-> operands_ok ins = true.
Proof.
  destruct ins as [d v|d n|off size|off size|off|num|s n|op v|op| |skip|t v st sf|t st sf| |v| | |r];
    unfold_Assemble; cbn [operands_ok]; try done.
  - rewrite assembleLoad_error. cbn. tauto.
  - unfold slot_ok. destruct (Z.ltb_spec n 0), (Z.ltb_spec 15 n); cbn [orb];
      rewrite ?(proj2 (Z.leb_gt 0 n)), ?(proj2 (Z.leb_gt n 15)) by lia; rewrite ?andb_false_r; try done.
    rewrite assembleLoad_error, !(proj2 (Z.leb_le _ _)) by lia. cbn. rewrite andb_true_r. tauto.
  - rewrite assembleLoad_error. cbn. tauto.
  - rewrite assembleLoad_error. cbn. tauto.
  - destruct (num =? ExtLen); rewrite assembleLoad_error; cbn; tauto.
  - unfold slot_ok, register_ok. destruct (Z.ltb_spec n 0), (Z.ltb_spec 15 n); cbn [orb];
      rewrite ?(proj2 (Z.leb_gt 0 n)), ?(proj2 (Z.leb_gt n 15)) by lia; rewrite ?andb_false_r; try done.
    rewrite !(proj2 (Z.leb_le _ _)) by lia. by destruct (s =? RegA), (s =? RegX).
  - apply jumpToRaw_error.
  - apply jumpToRaw_error.
Qed.

Lemma assemble_from_error k P : (assemble_from k P).2 = None <-> Forall (λ ins, operands_ok ins = true) P.
Proof.
  revert k. induction P as [|ins P IH]; intros k; cbn [assemble_from]; [by split|].
  rewrite Forall_cons, <- assembles_iff, <- (IH (k + 1)).
  destruct (Instruction_Assemble ins) as [r [e|]]; cbn; [by split; [|intros [? _]]|].
  destruct (assemble_from (k + 1) P) as [rs [e|]]; cbn; intuition congruence.
Qed.

Lemma check_instruction_None rest ins : 
  check_instruction rest ins = None /\ operands_ok ins = true <-> admissible rest ins.
Proof.
  unfold admissible. rewrite (Logic.and_comm (check_instruction _ _ = None)). apply and_iff_compat_l.
  destruct ins as [d v|d n|off size|off size|off|num|s n|op v|op| |skip|t v st sf|t st sf| |v| | |r];
    cbn [check_instruction]; try done.
  - destruct (Z.eqb_spec num ExtLen); done.
  - destruct (Z.eqb_spec v 0); cbn; [|done]. destruct (Z.eqb_spec op ALUOpDiv), (Z.eqb_spec op ALUOpMod); cbn; split; done || intuition congruence.
  - destruct (Z.leb_spec rest skip); split; (done || lia).
  - destruct (Z.leb_spec rest st), (Z.leb_spec rest sf); split; (done || lia).
  - destruct (Z.leb_spec rest st), (Z.leb_spec rest sf); split; (done || lia).
Qed.

Lemma check_loop_None P : check_loop P = None <->
  forall i ins, P !! i = Some ins -> check_instruction (zlen P - (Z.of_nat i + 1)) ins = None.
Proof.
  induction P as [|ins P IH]; cbn [check_loop]; [done|]. split.
  - destruct (check_instruction (zlen P) ins) eqn:E; [done|]. intros HP [|i] ins' Hi; cbn in Hi.
    + injection Hi as <-. rewrite <- E. f_equal. cbn [length]. lia.
    + replace (zlen (ins :: P) - (Z.of_nat (S i) + 1)) with (zlen P - (Z.of_nat i + 1)) by (cbn [length]; lia).
      by apply (proj1 IH).
  - intros H. pose proof (H 0%nat ins eq_refl) as H0.
    replace (zlen (ins :: P) - (Z.of_nat 0 + 1)) with (zlen P) in H0 by (cbn [length]; lia). rewrite H0.
    apply IH. intros i ins' Hi. rewrite <- (H (S i) ins' Hi). f_equal. cbn [length]. lia.
Qed.

Lemma NewVM_iff P : well_formed P <-> NewVM P = Val (Some (MkVM P), None).
Proof.
  unfold well_formed, NewVM. destruct P as [|ins P].
  { split; [|done]. intros [(? & ? & _) _]. done. }
  set (Q := ins :: P). assert (HQ : zlen Q <> 0) by (cbn [Q length]; lia).
  rewrite (proj2 (Z.eqb_neq _ _) HQ).
  assert (Hl : exists f, last Q = Some f /\ index Q (zlen Q - 1) = Val f).
  { destruct (last Q) as [f|] eqn:E; [|by apply last_None in E]. exists f. split; [done|].
    apply index_Val; [cbn [Q length]; lia|]. rewrite last_lookup in E. rewrite <- E. f_equal. lia. }
  destruct Hl as (f & Hf & ->). cbn [mbind outcome_bind].
  assert (Hadm : (forall i ins, Q !! i = Some ins -> admissible (zlen Q - (Z.of_nat i + 1)) ins)
    <-> check_loop Q = None /\ (Assemble Q).2 = None).
  { rewrite check_loop_None. unfold Assemble. rewrite assemble_from_error, Forall_lookup. split.
    - intros H. split; intros i x Hi; apply H in Hi; by apply check_instruction_None in Hi as [? ?].
    - intros [H1 H2] i x Hi. apply check_instruction_None. eauto. }
  rewrite Hadm, Hf. destruct (check_loop Q) as [e|]; [by split; [intros (_ & ? & _)|]|].
  destruct (is_return f) eqn:Ef; cbn [negb]; [|split; [intros [(? & [= <-] & ?) _]; congruence|done]].
  destruct (Assemble Q) as [rs err]. cbn. split; [by intros (_ & _ & ->)|]. intros [= ->]. split_and!; [by exists f|done..].
Qed.

(** ** Instructions and what the machine does *)

Lemma packet_value_short pkt off n : zlen pkt < off + n -> packet_value pkt off n = None.
Proof. intros H. unfold packet_value. by rewrite bool_decide_eq_false_2 by lia. Qed.

Lemma packet_value_long pkt off n : off + n <= zlen pkt ->
  packet_value pkt off n = Some (order_value true (take (Z.to_nat n) (drop (Z.to_nat off) pkt))).
Proof. intros H. unfold packet_value. by rewrite bool_decide_eq_true_2. Qed.

Lemma packet_order_uint big bs : bytes_ok bs -> is_uint (8 * zlen bs) (order_value big bs).
Proof.
  intros H. unfold order_value. destruct big; [|by apply from_le_bound].
  rewrite <- (length_rev bs). apply from_le_bound; [done|]. by apply Forall_rev.
Qed.

Lemma packet_value_uint pkt off n v : bytes_ok pkt -> 0 <= n <= 4 -> packet_value pkt off n = Some v -> is_uint 32 v.
Proof.
  intros Hb Hn. unfold packet_value. case_bool_decide; [|done]. intros [= <-].
  eapply is_uint_mono; [|apply packet_order_uint; by apply Forall_take, Forall_drop].
  rewrite length_take. lia.
Qed.

(** Reading a packet as a step of the interpreter: a value, or the end of the run. *)
Definition as_load (o : option Z) : outcome (Z * bool) :=
  Val (match o with Some v => (v, true) | None => (0, false) end).

Lemma loadCommon_spec pkt off size : bytes_ok pkt -> 0 <= off < 2 ^ 34 -> size_ok size = true ->
  loadCommon pkt off size = as_load (packet_value pkt off size).
Proof.
  intros Hb Ho Hs. unfold loadCommon, inBounds.
  assert (Hsz : size = 1 \/ size = 2 \/ size = 4) by (members Hs; auto).
  rewrite swrap_small by (unfold is_sint; lia).
  destruct (Z.leb_spec (off + size) (zlen pkt)) as [Hle|Hgt]; cbn [negb];
    [rewrite packet_value_long by done|by rewrite packet_value_short].
  assert (Hd : bytes_ok (drop (Z.to_nat off) pkt)) by (by apply Forall_drop).
  assert (Hl : zlen (drop (Z.to_nat off) pkt) = zlen pkt - off) by (rewrite length_drop; lia).
  destruct Hsz as [->|[->| ->]]; cbn [Z.eqb Pos.eqb].
  - destruct (drop (Z.to_nat off) pkt) as [|b bs] eqn:E; [cbn [length] in Hl; lia|].
    rewrite (index_Val _ _ b); [|lia|].
    + unfold as_load, order_value. change (Z.to_nat 1) with 1%nat. cbn [take rev app from_le mbind outcome_bind].
      rewrite take_0. cbn [rev app from_le]. by rewrite Z.mul_0_r, Z.add_0_r.
    + by rewrite <- (Nat.add_0_r (Z.to_nat off)), <- lookup_drop, E.
  - unfold slice. rewrite decide_True by lia. cbn [mbind outcome_bind]. replace (off + 2 - off) with 2 by lia.
    rewrite (get_spec 2 true bigEndian_Uint16 bigEndian_PutUint16); [|by repeat constructor|rewrite length_take; lia|by apply Forall_take].
    cbn. by rewrite take_take.
  - unfold slice. rewrite decide_True by lia. cbn [mbind outcome_bind]. replace (off + 4 - off) with 4 by lia.
    rewrite (get_spec 4 true bigEndian_Uint32 bigEndian_PutUint32); [|by repeat constructor|rewrite length_take; lia|by apply Forall_take].
    cbn. by rewrite take_take.
Qed.

Lemma loadMemShift_spec pkt off : bytes_ok pkt -> is_uint 32 off ->
  loadMemShift off pkt = as_load ((λ b, b mod 16 * 4) <$> packet_value pkt off 1).
Proof.
  intros Hb Ho. pose proof (loadCommon_spec pkt off 1 Hb) as H. unfold loadCommon in H. unfold loadMemShift, is_uint in *.
  specialize (H ltac:(lia) eq_refl). destruct (inBounds _ _ _); cbn [negb] in *.
  - destruct (index pkt off) as [b| |] eqn:E; cbn [mbind outcome_bind Z.eqb Pos.eqb] in *.
    + destruct (packet_value pkt off 1) eqn:Ep; unfold as_load in *; [|done]. injection H as ->.
      do 2 f_equal. cbn. apply packet_value_uint in Ep; [|done|lia].
      change 0x0f with (Z.ones 4). rewrite Z.land_ones by lia. unfold is_uint in Ep. dlia.
    + by destruct (packet_value pkt off 1).
    + by destruct (packet_value pkt off 1).
  - by destruct (packet_value pkt off 1).
Qed.

Lemma aluOp_spec op a v : is_uint 32 a -> is_uint 32 v -> (v = 0 -> op <> ALUOpDiv /\ op <> ALUOpMod) ->
  exists a', aluOpCommon op a v = Val a' /\ is_uint 32 a' /\ (is_binary_op op = true -> alu_result op a v = Some a').
Proof.
  intros Ha Hv H0. unfold aluOpCommon, alu_result.
  destruct (Z.eqb_spec op ALUOpAdd); [eexists; split_and!; [done|word|done]|].
  destruct (Z.eqb_spec op ALUOpSub); [eexists; split_and!; [done|word|done]|].
  destruct (Z.eqb_spec op ALUOpMul); [eexists; split_and!; [done|word|done]|].
  assert (Hdiv : v <> 0 -> is_uint 32 (a / v) /\ is_uint 32 (a mod v)).
  { unfold is_uint in *. intros Hne. pose proof (Z.mod_pos_bound a v ltac:(lia)).
    assert (a / v <= a) by (apply Z.div_le_upper_bound; nia). assert (0 <= a / v) by (apply Z.div_pos; lia). lia. }
  destruct (Z.eqb_spec op ALUOpDiv) as [->|].
  { destruct (Z.eqb_spec v 0) as [->|Hne]; [tauto|]. rewrite Z.quot_div_nonneg by (unfold is_uint in *; lia).
    eexists. split_and!; [done|by apply Hdiv|done]. }
  destruct (Z.eqb_spec op ALUOpOr); [eexists; split_and!; [done|word|done]|].
  destruct (Z.eqb_spec op ALUOpAnd); [eexists; split_and!; [done|apply land_is_uint; [lia|done|apply Hv]|done]|].
  destruct (Z.eqb_spec op ALUOpShiftLeft).
  { eexists. split_and!; [done|word|]. intros _. unfold shl. by rewrite Z.shiftl_mul_pow2 by apply Hv. }
  destruct (Z.eqb_spec op ALUOpShiftRight).
  { eexists. split_and!; [done|apply shiftr_is_uint; [lia|apply Hv|done]|]. intros _. by rewrite Z.shiftr_div_pow2 by apply Hv. }
  destruct (Z.eqb_spec op ALUOpMod) as [->|].
  { destruct (Z.eqb_spec v 0) as [->|Hne]; [tauto|]. rewrite Z.rem_mod_nonneg by (unfold is_uint in *; lia).
    eexists. split_and!; [done|by apply Hdiv|done]. }
  destruct (Z.eqb_spec op ALUOpXor); [eexists; split_and!; [done|word|done]|].
  eexists. split_and!; [done|done|]. intros Hb. by members Hb.
Qed.

Lemma holds_iff a v t : holds a v t <->
  (t = 0 /\ a = v) \/ (t = 1 /\ a <> v) \/ (t = 2 /\ a > v) \/ (t = 3 /\ a < v)
  \/ (t = 4 /\ a >= v) \/ (t = 5 /\ a <= v) \/ (t = 6 /\ Z.land a v <> 0) \/ (t = 7 /\ Z.land a v = 0).
Proof.
  split; [intros []; tauto|].
  intros H. destruct_or! H; destruct H as [-> ?]; by constructor.
Qed.

Lemma jumpIfCommon_spec t st sf a v : test_ok t = true ->
  (holds a v t /\ jumpIfCommon t st sf a v = st) \/ (~ holds a v t /\ jumpIfCommon t st sf a v = sf).
Proof.
  intros Ht. rewrite holds_iff. apply test_cases in Ht. unfold jumpIfCommon.
  destruct Ht as [->|[->|[->|[->|[->|[->|[->| ->]]]]]]]; unfold JumpEqual, JumpNotEqual, JumpGreaterThan,
    JumpLessThan, JumpGreaterOrEqual, JumpLessOrEqual, JumpBitsSet, JumpBitsNotSet; cbn [Z.eqb Pos.eqb].
  - destruct (Z.eqb_spec a v); [left|right]; lia.
  - destruct (Z.eqb_spec a v); [right|left]; cbn; lia.
  - destruct (Z.ltb_spec v a); [left|right]; lia.
  - destruct (Z.ltb_spec a v); [left|right]; lia.
  - destruct (Z.leb_spec v a); [left|right]; lia.
  - destruct (Z.leb_spec a v); [left|right]; lia.
  - destruct (Z.eqb_spec (a &. v) 0); [right|left]; cbn; lia.
  - destruct (Z.eqb_spec (a &. v) 0); [left|right]; lia.
Qed.

Definition regs_ok (s : registers) : Prop :=
  is_uint 32 (regA s) /\ is_uint 32 (regX s) /\ length (regScratch s) = 16%nat /\ Forall (is_uint 32) (regScratch s).

Lemma set_reg_ok r v s : regs_ok s -> is_uint 32 v -> regs_ok (set_reg r v s).
Proof. intros (? & ? & ? & ?) Hv. unfold set_reg. destruct (r =? RegA); by split_and!. Qed.

(** ** One turn of the loop is a step of the machine *)

Section Turn.
Context (P : list Instruction) (pkt : list Z).
Hypothesis Hpkt : bytes_ok pkt.
Hypothesis Hlen : zlen pkt < 2 ^ 32.

(** What a turn at [pc] means for the machine, which makes it when the instruction is one it has. *)
Definition turn_ok (pc : nat) (s : registers) (ins : Instruction) (t : turn) : Prop :=
  match t with
  | Continue i s' => exists pc', i + 1 = Z.of_nat pc' /\ (pc < pc' < length P)%nat /\ regs_ok s'
      /\ (executable ins = true -> step P pkt (pc, s) (pc', s'))
  | Stop => executable ins = true -> halts P pkt (pc, s) 0
  | Return n err => is_uint 32 n /\ (executable ins = true -> err = None /\ halts P pkt (pc, s) n)
  end.

Definition turns (pc : nat) (s : registers) (ins : Instruction) : Prop :=
  exists t, run_instruction pkt (Z.of_nat pc) s ins = Val t /\ turn_ok pc s ins t.

(** Going on at the next instruction. *)
Lemma next_ok pc s s' ins : (S pc < length P)%nat -> regs_ok s' -> (executable ins = true -> step P pkt (pc, s) (S pc, s')) ->
  turn_ok pc s ins (Continue (Z.of_nat pc) s').
Proof. intros. exists (S pc). split_and!; (lia || done). Qed.

Lemma skip_ok pc s ins k : regs_ok s -> 0 <= k < zlen P - (Z.of_nat pc + 1) ->
  step P pkt (pc, s) (S pc + Z.to_nat k, s)%nat -> turn_ok pc s ins (Continue (Z.of_nat pc + k) s).
Proof. intros. exists (S pc + Z.to_nat k)%nat. split_and!; (lia || done). Qed.

(** An instruction that reads the packet. *)
Lemma when_ok_turn pc s ins r (f : Z -> registers) o :
  (S pc < length P)%nat -> r = as_load o ->
  (forall v, o = Some v -> regs_ok (f v) /\ step P pkt (pc, s) (S pc, f v)) ->
  (o = None -> halts P pkt (pc, s) 0) ->
  exists t, when_ok (Z.of_nat pc) r f = Val t /\ turn_ok pc s ins t.
Proof.
  intros Hpc -> Hs Hn. destruct o as [v|]; eexists; (split; [reflexivity|]); cbn.
  - destruct (Hs v eq_refl). by apply next_ok.
  - intros _. by apply Hn.
Qed.

Lemma run_alu pc s op v ins : (S pc < length P)%nat -> regs_ok s -> is_uint 32 v ->
  (v = 0 -> op <> ALUOpDiv /\ op <> ALUOpMod) -> (executable ins = true -> is_binary_op op = true) ->
  (forall a, alu_result op (regA s) v = Some a -> step P pkt (pc, s) (S pc, set_reg RegA a s)) ->
  exists a, aluOpCommon op (regA s) v = Val a /\ turn_ok pc s ins (Continue (Z.of_nat pc) (MkRegs a (regX s) (regScratch s))).
Proof.
  intros Hpc Hs Hv H0 He Hstep. destruct (aluOp_spec op (regA s) v) as (a & -> & Ha & Hr); [apply Hs|done..|].
  exists a. split; [done|]. apply next_ok; [done|by apply (set_reg_ok RegA a s)|]. intros E. apply Hstep, Hr, He, E.
Qed.

Lemma turn_spec pc s ins : P !! pc = Some ins -> typed ins -> admissible (zlen P - (Z.of_nat pc + 1)) ins -> regs_ok s ->
  is_return ins = true \/ (S pc < length P)%nat -> turns pc s ins.
Proof.
  intros Hp Ht [Ho Ha] Hs Hlast. unfold turns. pose proof Hs as (HA & HX & HM & HU). destruct s as [a x m].
  cbn [regA regX regScratch] in *.
  destruct ins as [d v|d n|off size|off size|off|num|r n|op v|op| |skip|t v st sf|t st sf| |v| | |rw];
    cbn [run_instruction operands_ok typed is_return] in *;
    try (assert (Hpc : (S pc < length P)%nat) by (destruct Hlast; done)).
  - destruct (register_cases _ Ho) as [->| ->]; (eexists; split; [reflexivity|]);
      (apply next_ok; [done|by split_and!|intros _; exact (m_constant _ _ _ (MkRegs a x m) _ _ Hp)]).
  - apply andb_true_iff in Ho as [Hr Hn]. unfold slot_ok in Hn. bools.
    destruct (lookup_lt_is_Some_2 m (Z.to_nat n)) as [v Hv]; [lia|].
    assert (is_uint 32 v) by (by eapply Forall_lookup_1).
    destruct (register_cases _ Hr) as [->| ->]; unfold loadScratch; cbn [Z.eqb RegA RegX Pos.eqb];
      rewrite (index_Val _ _ v) by (done || lia); (eexists; split; [reflexivity|]);
      (apply next_ok; [done|by split_and!|intros _; exact (m_load _ _ _ (MkRegs a x m) _ _ _ Hp Hv)]).
  - destruct Ht as [Hoff _]. eapply when_ok_turn; [done|apply loadCommon_spec; try done; unfold is_uint in *; lia| ..].
    + intros v Hv. split; [split_and!; try done|exact (m_absolute _ _ _ (MkRegs a x m) _ _ _ Hp Hv)].
      eapply packet_value_uint; [done| |exact Hv]. members Ho; lia.
    + intros Hn. by apply (m_no_absolute P pkt pc _ off size).
  - destruct Ht as [Hoff _]. assert (E : i64 (off + x) = off + x) by (apply swrap_small; unfold is_uint, is_sint in *; lia).
    eapply when_ok_turn; [done|unfold loadIndirect; rewrite E; apply loadCommon_spec; try done; unfold is_uint in *; lia| ..].
    + intros v Hv. split; [split_and!; try done|exact (m_indirect _ _ _ (MkRegs a x m) _ _ _ Hp Hv)].
      eapply packet_value_uint; [done| |exact Hv]. members Ho; lia.
    + intros Hn. by apply (m_no_indirect P pkt pc (MkRegs a x m) off size).
  - eapply when_ok_turn; [done|by apply loadMemShift_spec| ..].
    + intros v Hv. destruct (packet_value pkt off 1) as [b|] eqn:E; [|done]. injection Hv as <-.
      pose proof (Z.mod_pos_bound b 16 ltac:(lia)).
      assert (is_uint 32 (b mod 16 * 4)) by (unfold is_uint; lia). split; [by split_and!|exact (m_mem_shift _ _ _ (MkRegs a x m) _ _ Hp E)].
    + intros Hv. destruct (packet_value pkt off 1) as [b|] eqn:E; [done|]. by apply (m_no_shift P pkt pc _ off).
  - subst num. unfold loadExtension. cbn. rewrite wrap_small by (unfold is_uint; lia). eexists. split; [reflexivity|].
    assert (is_uint 32 (zlen pkt)) by (unfold is_uint; lia).
    apply next_ok; [done|by split_and!|intros _; exact (m_length _ _ _ (MkRegs a x m) Hp)].
  - apply andb_true_iff in Ho as [Hr Hn]. unfold slot_ok in Hn. bools. 
    destruct (register_cases _ Hr) as [->| ->]; unfold storeScratch; cbn [Z.eqb RegA RegX Pos.eqb];
      rewrite store_lt by (unfold regScratch in *; lia); (eexists; split; [reflexivity|]);
      (apply next_ok; [done|split_and!; cbn; rewrite ?length_insert; try done; by apply Forall_insert
        |intros _; exact (m_store _ _ _ (MkRegs a x m) _ _ Hp)]).
  - destruct (run_alu pc (MkRegs a x m) op v (ALUOpConstant op v)) as (a' & E & Hok); try done.
    { intros a' Ha'. by eapply m_alu_constant. }
    exists (Continue (Z.of_nat pc) (MkRegs a' x m)). unfold aluOpConstant. cbn [regA] in E. by rewrite E.
  - unfold aluOpX. destruct ((x =? 0) && _) eqn:E0.
    + eexists. split; [reflexivity|]. intros _. apply (m_no_division P pkt pc _ op); [done|]. cbn.
      apply andb_true_iff in E0 as [->%Z.eqb_eq E0]. by apply orb_true_iff in E0 as [->%Z.eqb_eq| ->%Z.eqb_eq].
    + destruct (run_alu pc (MkRegs a x m) op x (ALUOpX op)) as (a' & E & Hok); try done.
      { intros ->. cbn in E0. apply orb_false_iff in E0 as [?%Z.eqb_neq ?%Z.eqb_neq]. done. }
      { intros a' Ha'. by eapply m_alu_x. }
      exists (Continue (Z.of_nat pc) (MkRegs a' x m)). cbn [regA] in E. by rewrite E.
  - eexists. split; [reflexivity|]. by split.
  - eexists. split; [reflexivity|]. apply skip_ok; [done|unfold is_uint in *; lia|by apply m_jump].
  - destruct Ht as (Hv & ? & ?), Ha as [H1 H2]. unfold is_uint in *. eexists. split; [reflexivity|]. unfold jumpIf.
    destruct (jumpIfCommon_spec t st sf a v Ho) as [[Hh ->]|[Hh ->]]; (apply skip_ok; [done|lia|]).
    + by apply (m_jump_true P pkt pc _ t v st sf).
    + by apply (m_jump_false P pkt pc _ t v st sf).
  - destruct Ht as (? & ?), Ha as [H1 H2]. unfold is_uint in *. eexists. split; [reflexivity|]. unfold jumpIfX.
    destruct (jumpIfCommon_spec t st sf a x Ho) as [[Hh ->]|[Hh ->]]; (apply skip_ok; [done|lia|]).
    + by apply (m_jumpx_true P pkt pc _ t st sf).
    + by apply (m_jumpx_false P pkt pc _ t st sf).
  - eexists. split; [reflexivity|]. split; [done|]. intros _. split; [done|]. by apply (m_ret_a P pkt pc (MkRegs a x m)).
  - eexists. split; [reflexivity|]. split; [done|]. intros _. split; [done|]. by apply m_ret_constant.
  - eexists. split; [reflexivity|]. apply next_ok; [done|by split_and!|intros _; exact (m_txa _ _ _ (MkRegs a x m) Hp)].
  - eexists. split; [reflexivity|]. apply next_ok; [done|by split_and!|intros _; exact (m_tax _ _ _ (MkRegs a x m) Hp)].
  - eexists. split; [reflexivity|]. by split.
Qed.

Lemma run_loop_spec fuel pc s : well_formed P -> Forall typed P -> (pc < length P)%nat -> regs_ok s ->
  (length P - pc < fuel)%nat ->
  exists n err, run_loop fuel (MkVM P) pkt (Z.of_nat pc) s = Val (n, err) /\ is_uint 32 n
  /\ (Forall (λ ins, executable ins = true) P -> err = None /\ exists c, rtc (step P pkt) (pc, s) c /\ halts P pkt c n).
Proof.
  intros [(final & Hfinal & Hret) Hadm] Hty. revert pc s. induction fuel as [|fuel IH]; intros pc s Hpc Hs Hf; [lia|].
  cbn [run_loop filter]. rewrite (proj2 (Z.ltb_lt _ _)) by lia.
  destruct (lookup_lt_is_Some_2 P pc Hpc) as [ins Hins].
  rewrite (index_Val _ _ ins) by (rewrite ?Nat2Z.id; done || lia). cbn [mbind outcome_bind].
  destruct (turn_spec pc s ins) as (t & -> & Hok); [done|by eapply Forall_lookup_1|by apply Hadm|done| |].
  { destruct (decide (S pc < length P)%nat); [by right|left]. rewrite last_lookup in Hfinal.
    replace (Nat.pred (length P)) with pc in Hfinal by lia. rewrite Hins in Hfinal. by injection Hfinal as ->. }
  cbn [mbind outcome_bind]. destruct t as [i s'| |n err]; cbn [turn_ok] in Hok.
  - destruct Hok as (pc' & Ei & Hpc' & Hs' & Hstep). rewrite Ei.
    destruct (IH pc' s') as (n & err & E & Hn & Hex); [lia|done|lia|]. exists n, err. split_and!; [done..|]. intros HE.
    destruct (Hex HE) as (-> & c & Hc & Hh). split; [done|]. exists c. split; [|done].
    eapply rtc_l; [|exact Hc]. apply Hstep. by eapply Forall_lookup_1 in HE.
  - exists 0, None. split_and!; try done. intros HE. split; [done|]. exists (pc, s). split; [done|].
    apply Hok. by eapply Forall_lookup_1 in HE.
  - destruct Hok as [Hn Hok]. exists n, err. split_and!; try done. intros HE.
    destruct Hok as [-> Hh]; [by eapply Forall_lookup_1 in HE|]. split; [done|]. exists (pc, s). by split.
Qed.
End Turn.

Lemma Run_spec P pkt : NewVM P = Val (Some (MkVM P), None) -> Forall typed P -> bytes_ok pkt -> zlen pkt < 2 ^ 32 ->
  exists n err, Run (MkVM P) pkt = Val (n, err) /\ is_uint 32 n
  /\ (Forall (λ ins, executable ins = true) P -> err = None /\ accepts P pkt n).
Proof.
  intros Hwf%NewVM_iff Hty Hb Hl. unfold Run, accepts, start. change 0 with (Z.of_nat 0). apply run_loop_spec; try done.
  - destruct Hwf as [(? & Hlast & _) _]. apply last_Some in Hlast as [? ->]. rewrite length_app. cbn. lia.
  - split_and!; try done. by apply Forall_replicate.
  - cbn [filter]. lia.
Qed.

(** ** Programs read back *)

Lemma jumpIfCommon_canon t st sf a v : test_ok t = true ->
  let '(t', st', sf') := canon_jump t st sf in jumpIfCommon t' st' sf' a v = jumpIfCommon t st sf a v.
Proof.
  intros Ht. apply test_cases in Ht. unfold canon_jump.
  assert (Hlt : forall x y, (x <? y) = negb (y <=? x)) by (intros; destruct (Z.ltb_spec x y), (Z.leb_spec y x); done || lia).
  destruct Ht as [->|[->|[->|[->|[->|[->|[->| ->]]]]]]]; unfold has_code; cbn [existsb Z.eqb Pos.eqb orb JumpEqual JumpNotEqual
    JumpGreaterThan JumpLessThan JumpGreaterOrEqual JumpLessOrEqual JumpBitsSet JumpBitsNotSet];
    match goal with |- context [?x =? 0] => is_var x; destruct (Z.eqb_spec x 0) as [->|] end; try done;
    unfold jumpIfCommon, opposite, JumpEqual, JumpNotEqual, JumpGreaterThan, JumpLessThan, JumpGreaterOrEqual, JumpLessOrEqual,
      JumpBitsSet, JumpBitsNotSet; cbn [Z.eqb Pos.eqb]; rewrite ?Hlt;
    match goal with |- context [if negb ?b then _ else _] => destruct b end; done.
Qed.

Lemma run_instruction_canon pkt i s ins : operands_ok ins = true ->
  run_instruction pkt i s (canon ins) = run_instruction pkt i s ins.
Proof.
  destruct ins as [| | | | | | | | | | |t v st sf|t st sf| | | | |]; try done; intros Ho; destruct s as [a x m]; cbn [canon].
  - pose proof (jumpIfCommon_canon t st sf a v Ho) as H. destruct (canon_jump t st sf) as [[t' st'] sf'].
    cbn. unfold jumpIf. by rewrite H.
  - pose proof (jumpIfCommon_canon t st sf a x Ho) as H. destruct (canon_jump t st sf) as [[t' st'] sf'].
    cbn. unfold jumpIfX. by rewrite H.
Qed.

Lemma admissible_canon rest ins : admissible rest ins -> 0 < rest \/ is_return ins = true -> admissible rest (canon ins).
Proof.
  unfold admissible. intros [Ho Ha] Hr.
  destruct ins as [| | | | | | | | | | |t v st sf|t st sf| | | | |]; try done; cbn [canon]; cbn [operands_ok is_return] in Ho, Hr;
    (destruct (canon_jump t st sf) as [[t' st'] sf'] eqn:E; cbn [operands_ok]; unfold canon_jump in E; apply test_cases in Ho;
     destruct Ho as [->|[->|[->|[->|[->|[->|[->| ->]]]]]]]; cbn in E;
     match type of E with context [?x =? 0] => destruct (Z.eqb_spec x 0) end; injection E as <- <- <-; split; done || lia).
Qed.

Lemma is_return_canon ins : is_return (canon ins) = is_return ins.
Proof. destruct ins; try done; cbn [canon]; by destruct (canon_jump _ _ _) as [[? ?] ?]. Qed.

Lemma well_formed_canon P : well_formed P -> well_formed (map canon P).
Proof.
  intros [(final & Hf & Hr) Hadm]. split.
  - exists (canon final). rewrite is_return_canon. split; [|done].
    change (map canon P) with (canon <$> P). rewrite fmap_last, Hf. done.
  - intros i ins Hi. change (map canon P) with (canon <$> P) in *. rewrite list_lookup_fmap in Hi.
    destruct (P !! i) as [ins0|] eqn:E; [|done]. injection Hi as <-. rewrite length_fmap.
    apply admissible_canon; [by apply Hadm|]. pose proof (lookup_lt_Some _ _ _ E).
    destruct (decide (S i = length P)) as [Hl|Hl]; [right|left; lia].
    rewrite last_lookup in Hf. replace (Nat.pred (length P)) with i in Hf by lia. rewrite E in Hf. by injection Hf as ->.
Qed.

Lemma run_loop_canon fuel P pkt i s : Forall (λ ins, operands_ok ins = true) P ->
  run_loop fuel (MkVM (map canon P)) pkt i s = run_loop fuel (MkVM P) pkt i s.
Proof.
  intros HP. revert i s. induction fuel as [|fuel IH]; intros i s; [done|]. cbn [run_loop filter]. rewrite length_map.
  destruct (i <? zlen P); [|done]. unfold index. case_decide; [|done].
  change (map canon P) with (canon <$> P). rewrite list_lookup_fmap. destruct (P !! Z.to_nat i) as [ins|] eqn:E; [|done]. cbn.
  rewrite run_instruction_canon by (by eapply Forall_lookup_1 in HP).
  destruct (run_instruction pkt i s ins) as [[i' s'| |n err]| |]; try done. apply IH.
Qed.

Lemma NewVM_operands P : NewVM P = Val (Some (MkVM P), None) -> Forall (λ ins, operands_ok ins = true) P.
Proof. intros [_ H]%NewVM_iff. apply Forall_lookup. intros i ins Hi. by destruct (H i ins Hi). Qed.

(** ** Properties *)

(** NewVM returns a machine without an error exactly for the programs that end in a return, have every
    jump target before the end, do not divide by the constant zero, use no extension but the
    packet length, and have valid registers, scratch slots, load widths and jump tests; it panics on none. *)
Theorem NewVM_accepts P :
  (well_formed P <-> NewVM P = Val (Some (MkVM P), None))
  /\ exists v err, NewVM P = Val (v, err).
Proof.
  split; [apply NewVM_iff|]. unfold NewVM. destruct (Z.eqb_spec (zlen P) 0) as [|HP]; [by do 2 eexists|].
  destruct (check_loop P); [by do 2 eexists|].
  destruct (lookup_lt_is_Some_2 P (Z.to_nat (zlen P - 1))) as [f Hf]; [lia|].
  rewrite (index_Val _ _ f) by (done || lia). cbn. destruct (is_return f); cbn; [|by do 2 eexists].
  destruct (Assemble P); by do 2 eexists.
Qed.

(** C1. Running an accepted program ends on every packet, after at most one turn per instruction, without a
    panic - no index, slice, shift or division goes wrong - and with a 32-bit result; when every
    instruction is one that the machine implements, there is no error and the result is one that
    the documented machine accepts, a division by a zero X and a load outside the packet accepting 0 bytes. *)
Theorem Run_implements P pkt : NewVM P = Val (Some (MkVM P), None) -> Forall typed P -> bytes_ok pkt -> zlen pkt < 2 ^ 32 ->
  exists n err, Run (MkVM P) pkt = Val (n, err) /\ is_uint 32 n
  /\ (Forall (λ ins, executable ins = true) P -> err = None /\ accepts P pkt n).
Proof. apply Run_spec. Qed.

(** The filter of the package documentation: accept the packets whose EtherType is 0x0806. *)
Definition arp_filter : list Instruction :=
  [LoadAbsolute 12 2; JumpIf JumpNotEqual 0x0806 1 0; RetConstant 4096; RetConstant 0].

Example arp_accepts : Run (MkVM arp_filter) (replicate 12 0 ++ [8; 6; 1]) = Val (4096, None).
Proof. reflexivity. Qed.

Lemma Run_implements_witness :
  NewVM arp_filter = Val (Some (MkVM arp_filter), None) /\
  exists n err, Run (MkVM arp_filter) (replicate 12 0 ++ [8; 6; 1]) = Val (n, err) /\ is_uint 32 n
  /\ err = None /\ accepts arp_filter (replicate 12 0 ++ [8; 6; 1]) n.
Proof.
  assert (H : NewVM arp_filter = Val (Some (MkVM arp_filter), None)) by reflexivity. split; [exact H|].
  destruct (Run_implements arp_filter (replicate 12 0 ++ [8; 6; 1]) H) as (n & err & E & Hn & Hx).
  - repeat constructor; done.
  - apply (bool_decide_unpack _). vm_compute. exact I.
  - reflexivity.
  - exists n, err. split; [exact E|split; [exact Hn|]]. apply Hx. repeat constructor.
Defined.

(** C25. Assembling a program that NewVM accepts and reading it back keeps its meaning: when all its
    instructions have codes, the program read back has as many instructions, is accepted too, and gives the
    same result on every packet, although conditional jumps may have been replaced by the opposite ones;
    it is the same program when those were in the form that has a code. *)
Theorem Disassemble_meaning P : NewVM P = Val (Some (MkVM P), None) -> Forall (λ ins, codable ins = true) P ->
  exists raw P', Assemble P = (raw, None) /\ Disassemble raw = Val (P', true) /\ length P' = length P
  /\ NewVM P' = Val (Some (MkVM P'), None)
  /\ (forall pkt, Run (MkVM P') pkt = Run (MkVM P) pkt)
  /\ (Forall canonical P -> P' = P).
Proof.
  intros Hok HP. destruct (Assemble_codable 0 P HP) as (raw & EA & _ & ED). exists raw, (map canon P).
  split_and!; [done|done|by rewrite length_map| | |apply canonical_map].
  - by apply NewVM_iff, well_formed_canon, NewVM_iff.
  - intros pkt. unfold Run. cbn [filter]. rewrite length_map. apply run_loop_canon. by apply NewVM_operands.
Qed.

Lemma Disassemble_meaning_witness :
  exists raw P', Assemble arp_filter = (raw, None) /\ Disassemble raw = Val (P', true) /\ length P' = length arp_filter
  /\ NewVM P' = Val (Some (MkVM P'), None)
  /\ (forall pkt, Run (MkVM P') pkt = Run (MkVM arp_filter) pkt)
  /\ (Forall canonical arp_filter -> P' = arp_filter).
Proof.
  apply (Disassemble_meaning arp_filter); [reflexivity|]. apply (bool_decide_unpack _). vm_compute. exact I.
Defined.
