(* ===== verification/Base64.v ===== *)
(** * encoding/base64

    RFC 4648 encodings (src/Source/Gold/encoding/base64/base64.go): building an Encoding from an
    alphabet, Encode and Decode on slices with the eight- and four-character fast paths of the decoder.  The stream
    encoder is in Base64Stream; the stream decoder is not modelled. *)

From S2P Require Import Prelude Binary.

Local Open Scope go_scope.

Record Encoding : Type := MkEncoding { encode : list Z; decodeMap : list Z; padChar : Z; strict : bool }.

Definition StdPadding : Z := 61.
Definition NoPadding : Z := -1.

Definition newline (c : Z) : bool := (c =? 10) || (c =? 13).

Definition upper : list Z := seqZ 65 26.
Definition lower : list Z := seqZ 97 26.
Definition digits : list Z := seqZ 48 10.
Definition encodeStd : list Z := upper ++ lower ++ digits ++ [43; 47].
Definition encodeURL : list Z := upper ++ lower ++ digits ++ [45; 95].

Definition NewEncoding (encoder : list Z) : outcome Encoding :=
  if negb (zlen encoder =? 64) then Panic Explicit
  else if existsb newline encoder then Panic Explicit
  else
    decodeMap ← for_up 0 256 (λ i m, store m i 0xFF) (make 0 256);
    decodeMap ← for_up 0 (zlen encoder) (λ i m, c ← index encoder i; store m c (u8 i)) decodeMap;
    Val (MkEncoding encoder decodeMap StdPadding false).

Definition WithPadding (enc : Encoding) (padding : Z) : outcome Encoding :=
  if newline padding || (0xff <? padding) then Panic Explicit
  else if existsb (Z.eqb padding) (encode enc) then Panic Explicit
  else Val (MkEncoding (encode enc) (decodeMap enc) padding (strict enc)).

Definition Strict (enc : Encoding) : Encoding := MkEncoding (encode enc) (decodeMap enc) (padChar enc) true.

Definition StdEncoding : outcome Encoding := NewEncoding encodeStd.
Definition URLEncoding : outcome Encoding := NewEncoding encodeURL.
Definition RawStdEncoding : outcome Encoding := e ← StdEncoding; WithPadding e NoPadding.
Definition RawURLEncoding : outcome Encoding := e ← URLEncoding; WithPadding e NoPadding.

(** ** Encoding *)

Section Coding.
Context (enc : Encoding).

Fixpoint encode_loop (fuel : nat) (dst src : list Z) (di si n : Z) : outcome (list Z * Z * Z) :=
  match fuel with
  | O => NoFuel
  | S fuel =>
      if si <? n then
        s0 ← index src (si + 0); s1 ← index src (si + 1); s2 ← index src (si + 2);
        let val := s0 <<.[64] 16 |. s1 <<.[64] 8 |. s2 in
        dst ← store dst (di + 0) (tab (encode enc) (val >>. 18 &. 0x3F));
        dst ← store dst (di + 1) (tab (encode enc) (val >>. 12 &. 0x3F));
        dst ← store dst (di + 2) (tab (encode enc) (val >>. 6 &. 0x3F));
        dst ← store dst (di + 3) (tab (encode enc) (val &. 0x3F));
        encode_loop fuel dst src (di + 4) (si + 3) n
      else Val (dst, di, si)
  end.

(** The last one or two bytes. *)
Definition encode_rest (dst src : list Z) (di si : Z) : outcome (list Z) :=
  let remain := zlen src - si in
  s0 ← index src (si + 0);
  let val := s0 <<.[64] 16 in
  val ← (if remain =? 2 then s1 ← index src (si + 1); Val (val |. s1 <<.[64] 8) else Val val);
  dst ← store dst (di + 0) (tab (encode enc) (val >>. 18 &. 0x3F));
  dst ← store dst (di + 1) (tab (encode enc) (val >>. 12 &. 0x3F));
  if remain =? 2 then
    dst ← store dst (di + 2) (tab (encode enc) (val >>. 6 &. 0x3F));
    if negb (padChar enc =? NoPadding) then store dst (di + 3) (u8 (padChar enc)) else Val dst
  else if remain =? 1 then
    if negb (padChar enc =? NoPadding) then
      dst ← store dst (di + 2) (u8 (padChar enc));
      store dst (di + 3) (u8 (padChar enc))
    else Val dst
  else Val dst.

Definition Encode (dst src : list Z) : outcome (list Z) :=
  if zlen src =? 0 then Val dst
  else
    let n := Z.quot (zlen src) 3 * 3 in
    '(dst, di, si) ← encode_loop (S (length src)) dst src 0 0 n;
    let remain := zlen src - si in
    if remain =? 0 then Val dst else encode_rest dst src di si.

Definition EncodedLen (n : Z) : Z :=
  if padChar enc =? NoPadding then Z.quot (n * 8 + 5) 6 else Z.quot (n + 2) 3 * 4.

Definition EncodeToString (src : list Z) : outcome (list Z) := Encode (make 0 (EncodedLen (zlen src))) src.

(** ** Decoding *)

(** CorruptInputError *)
Definition error : Type := Z.

(** Skipping newlines: the next index. *)
Fixpoint skip_newlines (fuel : nat) (src : list Z) (si : Z) : outcome Z :=
  match fuel with
  | O => NoFuel
  | S fuel =>
      if si <? zlen src then
        c ← index src si;
        if newline c then skip_newlines fuel src (si + 1) else Val si
      else Val si
  end.

Definition skip (src : list Z) (si : Z) : outcome Z := skip_newlines (S (length src)) src si.

(** How the loop over the four characters ends: a return without bytes, or a break. *)
Inductive quantum : Type :=
  | QReturn (si : Z) (err : option error)
  | QBreak (si dlen : Z) (dbuf : list Z) (err : option error).

(** The padding character in place [j]. *)
Definition padding_case (src : list Z) (si j : Z) (dbuf : list Z) : outcome quantum :=
  let finish si :=
    si ← skip src si;
    Val (QBreak si j dbuf (if si <? zlen src then Some si else None)) in
  if (j =? 0) || (j =? 1) then Val (QReturn si (Some (si - 1)))
  else if j =? 2 then
    si ← skip src si;
    if si =? zlen src then Val (QReturn si (Some (zlen src)))
    else
      c ← index src si;
      if negb (c =? padChar enc) then Val (QReturn si (Some (si - 1)))
      else finish (si + 1)
  else finish si.

Fixpoint quantum_loop (fuel : nat) (src : list Z) (si j : Z) (dbuf : list Z) : outcome quantum :=
  match fuel with
  | O => NoFuel
  | S fuel =>
      if j <? 4 then
        if zlen src =? si then
          if j =? 0 then Val (QReturn si None)
          else if (j =? 1) || negb (padChar enc =? NoPadding) then Val (QReturn si (Some (si - j)))
          else Val (QBreak si j dbuf None)
        else
          in_ ← index src si;
          let si := si + 1 in
          let out := tab (decodeMap enc) in_ in
          if negb (out =? 0xff) then dbuf ← store dbuf j out; quantum_loop fuel src si (j + 1) dbuf
          else if newline in_ then quantum_loop fuel src si j dbuf
          else if negb (in_ =? padChar enc) then Val (QReturn si (Some (si - 1)))
          else padding_case src si j dbuf
      else Val (QBreak si 4 dbuf None)
  end.

(** Writing the bytes of the digits, with the checks of strict mode. *)
Definition write_quantum (dst dbuf : list Z) (si dlen : Z) (err : option error) : outcome (list Z * Z * Z * option error) :=
  d0 ← index dbuf 0; d1 ← index dbuf 1; d2 ← index dbuf 2; d3 ← index dbuf 3;
  let val := d0 <<.[64] 18 |. d1 <<.[64] 12 |. d2 <<.[64] 6 |. d3 in
  let b2 := u8 (val >>. 0) in
  let b1 := u8 (val >>. 8) in
  let b0 := u8 (val >>. 16) in
  '(dst, b2) ← (if dlen =? 4 then dst ← store dst 2 b2; Val (dst, 0) else Val (dst, b2));
  let case2 dst b1 :=
    dst ← store dst 0 b0;
    if strict enc && (negb (b1 =? 0) || negb (b2 =? 0)) then Val (dst, si, 0, Some (si - 2))
    else Val (dst, si, dlen - 1, err) in
  if (dlen =? 4) || (dlen =? 3) then
    dst ← store dst 1 b1;
    if strict enc && negb (b2 =? 0) then Val (dst, si, 0, Some (si - 1))
    else case2 dst 0
  else if dlen =? 2 then case2 dst b1
  else Val (dst, si, dlen - 1, err).

(** [decodeQuantum] on [dst[n:]], as its callers use it: the new [dst], [nsi], the bytes written, the error. *)
Definition decodeQuantum (dst src : list Z) (si : Z) : outcome (list Z * Z * Z * option error) :=
  q ← quantum_loop (S (S (length src))) src si 0 (make 0 4);
  match q with
  | QReturn si err => Val (dst, si, 0, err)
  | QBreak si dlen dbuf err => write_quantum dst dbuf si dlen err
  end.

(** A function that writes into [dst[n:]]. *)
Definition at_offset {A} (dst : list Z) (n : Z) (f : list Z -> outcome (list Z * A)) : outcome (list Z * A) :=
  d ← slice dst n (zlen dst);
  '(d, r) ← f d;
  Val (take (Z.to_nat n) dst ++ d, r).

Definition assemble32 (n1 n2 n3 n4 : Z) : Z * bool :=
  if n1 |. n2 |. n3 |. n4 =? 0xff then (0, false)
  else (n1 <<.[32] 26 |. n2 <<.[32] 20 |. n3 <<.[32] 14 |. n4 <<.[32] 8, true).

Definition assemble64 (n1 n2 n3 n4 n5 n6 n7 n8 : Z) : Z * bool :=
  if n1 |. n2 |. n3 |. n4 |. n5 |. n6 |. n7 |. n8 =? 0xff then (0, false)
  else (n1 <<.[64] 58 |. n2 <<.[64] 52 |. n3 <<.[64] 46 |. n4 <<.[64] 40
        |. n5 <<.[64] 34 |. n6 <<.[64] 28 |. n7 <<.[64] 22 |. n8 <<.[64] 16, true).

(** The digit of the character at a position. *)
Definition digit_at (src : list Z) (si : Z) : outcome Z := c ← index src si; Val (tab (decodeMap enc) c).

(** One quantum from the loops of Decode: the state is [dst], [si] and [n]; an error ends Decode. *)
Definition slow_turn (dst src : list Z) (si n : Z) : outcome (list Z * Z * Z * option error) :=
  '(dst, (nsi, ninc, err)) ← at_offset dst n (λ d, '(d, nsi, ninc, err) ← decodeQuantum d src si; Val (d, (nsi, ninc, err)));
  Val (dst, nsi, n + ninc, err).

Definition turn8 (dst src : list Z) (si n : Z) : outcome (list Z * Z * Z * option error) :=
  n1 ← digit_at src (si + 0); n2 ← digit_at src (si + 1); n3 ← digit_at src (si + 2); n4 ← digit_at src (si + 3);
  n5 ← digit_at src (si + 4); n6 ← digit_at src (si + 5); n7 ← digit_at src (si + 6); n8 ← digit_at src (si + 7);
  let '(dn, ok) := assemble64 n1 n2 n3 n4 n5 n6 n7 n8 in
  if ok : bool then
    '(dst, _) ← at_offset dst n (λ d, d ← bigEndian_PutUint64 d dn; Val (d, tt));
    Val (dst, si + 8, n + 6, None)
  else slow_turn dst src si n.

Definition turn4 (dst src : list Z) (si n : Z) : outcome (list Z * Z * Z * option error) :=
  n1 ← digit_at src (si + 0); n2 ← digit_at src (si + 1); n3 ← digit_at src (si + 2); n4 ← digit_at src (si + 3);
  let '(dn, ok) := assemble32 n1 n2 n3 n4 in
  if ok : bool then
    '(dst, _) ← at_offset dst n (λ d, d ← bigEndian_PutUint32 d dn; Val (d, tt));
    Val (dst, si + 4, n + 3, None)
  else slow_turn dst src si n.

(** The three loops: as long as [test] holds, a turn. *)
Fixpoint decode_loop (fuel : nat) (test : Z -> Z -> bool) (turn : list Z -> Z -> Z -> outcome (list Z * Z * Z * option error))
    (dst : list Z) (si n : Z) : outcome (list Z * Z * Z * option error) :=
  match fuel with
  | O => NoFuel
  | S fuel =>
      if test si n then
        '(dst, si, n, err) ← turn dst si n;
        match err with
        | Some e => Val (dst, si, n, Some e)
        | None => decode_loop fuel test turn dst si n
        end
      else Val (dst, si, n, None)
  end.

Definition Decode (dst src : list Z) : outcome (list Z * Z * option error) :=
  if zlen src =? 0 then Val (dst, 0, None)
  else
    let fuel := S (length src) in
    let L := zlen src in
    let D := zlen dst in
    '(dst, si, n, err) ← decode_loop fuel (λ si n, (8 <=? L - si) && (8 <=? D - n)) (λ dst, turn8 dst src) dst 0 0;
    if err is Some e then Val (dst, n, Some e) else
    '(dst, si, n, err) ← decode_loop fuel (λ si n, (4 <=? L - si) && (4 <=? D - n)) (λ dst, turn4 dst src) dst si n;
    if err is Some e then Val (dst, n, Some e) else
    '(dst, si, n, err) ← decode_loop fuel (λ si n, si <? L) (λ dst, slow_turn dst src) dst si n;
    Val (dst, n, err).

Definition DecodedLen (n : Z) : Z :=
  if padChar enc =? NoPadding then Z.quot (n * 6) 8 else Z.quot n 4 * 3.

Definition DecodeString (s : list Z) : outcome (list Z * option error) :=
  '(dbuf, n, err) ← Decode (make 0 (DecodedLen (zlen s))) s;
  r ← slice dbuf 0 n;
  Val (r, err).
End Coding.

Example std_example : (e ← StdEncoding; EncodeToString e [77; 97; 110; 77; 97]) = Val [84; 87; 70; 117; 84; 87; 69; 61].
Proof. reflexivity. Qed.
Example std_decode : (e ← StdEncoding; DecodeString e [84; 87; 10; 70; 117; 84; 87; 69; 61; 10]) = Val ([77; 97; 110; 77; 97], None).
Proof. reflexivity. Qed.

(** ** Specification of the encoder *)

Lemma index_app_ge {A} (l k : list A) i : 0 <= i -> index (l ++ k) (zlen l + i) = index k i.
Proof.
  intros Hi. unfold index. rewrite !decide_True by lia. rewrite lookup_app_r by lia.
  by replace (Z.to_nat (zlen l + i) - length l)%nat with (Z.to_nat i) by lia.
Qed.

Lemma store_app_ge {A} (l k : list A) i x : 0 <= i -> store (l ++ k) (zlen l + i) x = app l <$> store k i x.
Proof.
  intros Hi. unfold store. rewrite zlen_app. do 2 case_decide; try lia; [|done]. cbn. f_equal.
  rewrite insert_app_r_alt by lia. by replace (Z.to_nat (zlen l + i) - length l)%nat with (Z.to_nat i) by lia.
Qed.

(** Lists by three elements. *)
Lemma list_ind3 {A} (P : list A -> Prop) : P [] -> (forall a, P [a]) -> (forall a b, P [a; b]) ->
  (forall a b c l, P l -> P (a :: b :: c :: l)) -> forall l, P l.
Proof.
  intros H0 H1 H2 H3. refine (fix F l := _). destruct l as [|a [|b [|c l]]]; [apply H0|apply H1|apply H2|apply H3, F].
Qed.

Section Spec.
Context (enc : Encoding).

(** The character of a six-bit digit; the value of a group of three bytes. *)
Definition char_ (d : Z) : Z := tab (encode enc) d.
Definition group (a b c : Z) : Z := 65536 * a + 256 * b + c.
Definition digit (k v : Z) : Z := v / 2 ^ (6 * k) mod 64.
Definition padding (n : nat) : list Z := if padChar enc =? NoPadding then [] else replicate n (u8 (padChar enc)).

Fixpoint encoded (src : list Z) : list Z :=
  match src with
  | a :: b :: c :: src => let v := group a b c in [char_ (digit 3 v); char_ (digit 2 v); char_ (digit 1 v); char_ (digit 0 v)] ++ encoded src
  | [a; b] => let v := group a b 0 in [char_ (digit 3 v); char_ (digit 2 v); char_ (digit 1 v)] ++ padding 1
  | [a] => let v := group a 0 0 in [char_ (digit 3 v); char_ (digit 2 v)] ++ padding 2
  | [] => []
  end.

Lemma group_word a b c : is_byte a -> is_byte b -> is_byte c ->
  a <<.[64] 16 |. b <<.[64] 8 |. c = group a b c /\ is_uint 24 (group a b c).
Proof.
  unfold is_uint, group. intros Ha Hb Hc. split; [|lia]. unfold shl. rewrite !Z.shiftl_mul_pow2 by lia.
  rewrite !wrap_small by (unfold is_uint; lia). rewrite lor_disjoint by (unfold is_uint; lia).
  replace (a * 2 ^ 16 + b * 2 ^ 8) with ((256 * a + b) * 2 ^ 8) by lia. rewrite lor_disjoint by done. lia.
Qed.

Lemma group_word2 a b : is_byte a -> is_byte b -> a <<.[64] 16 |. b <<.[64] 8 = group a b 0.
Proof. intros Ha Hb. rewrite <- (proj1 (group_word a b 0 Ha Hb ltac:(done))). by rewrite Z.lor_0_r. Qed.

Lemma group_word1 a : is_byte a -> a <<.[64] 16 = group a 0 0.
Proof. intros Ha. rewrite <- group_word2 by done. change (0 <<.[64] 8) with 0. by rewrite Z.lor_0_r. Qed.

Lemma digit_word k v : 0 <= k -> v >>. (6 * k) &. 0x3F = digit k v.
Proof.
  intros Hk. unfold digit. change 0x3F with (Z.ones 6). rewrite Z.land_ones, Z.shiftr_div_pow2 by lia. done.
Qed.

(** Four characters of a group, as the source takes them. *)
Lemma digit_words v : v >>. 18 &. 0x3F = digit 3 v /\ v >>. 12 &. 0x3F = digit 2 v
  /\ v >>. 6 &. 0x3F = digit 1 v /\ v &. 0x3F = digit 0 v.
Proof.
  split_and!; [by rewrite <- digit_word..|]. rewrite <- digit_word by done. by rewrite Z.shiftr_0_r.
Qed.

(** Reading and writing after what has been done. *)
Ltac at_end := rewrite ?index_app_ge, ?store_app_ge by lia; cbn [fmap outcome_fmap mbind outcome_bind].

Lemma b64_encode_loop_spec blocks : forall fuel (E junk dn tail : list Z),
  bytes_ok blocks -> (exists k, length blocks = 3 * k)%nat -> (length blocks < fuel)%nat -> (length (encoded blocks) <= length junk)%nat ->
  encode_loop enc fuel (E ++ junk) (dn ++ blocks ++ tail) (zlen E) (zlen dn) (zlen dn + zlen blocks)
  = Val (E ++ encoded blocks ++ drop (length (encoded blocks)) junk, zlen E + zlen (encoded blocks), zlen dn + zlen blocks).
Proof.
  induction blocks as [|a|a b|a b c blocks IH] using list_ind3; intros fuel E junk dn tail Hb [k Hm] Hf Hj;
    try (cbn [length] in Hm; lia).
  - destruct fuel as [|fuel]; [cbn [length] in Hf; lia|]. cbn [encode_loop length]. rewrite (proj2 (Z.ltb_ge _ _)) by lia.
    cbn [encoded app length drop]. by rewrite !Z.add_0_r.
  - destruct fuel as [|fuel]; [lia|]. cbn [length encoded app] in *.
    apply Forall_cons in Hb as [Ha Hb]. apply Forall_cons in Hb as [Hb1 Hb]. apply Forall_cons in Hb as [Hc Hb].
    destruct junk as [|j0 [|j1 [|j2 [|j3 junk]]]]; [cbn [length] in Hj; lia..|].
    cbn [encode_loop]. rewrite (proj2 (Z.ltb_lt _ _)) by lia. do 3 at_end.
    change (index (a :: b :: c :: blocks ++ tail) 0) with (Val a). change (index (a :: b :: c :: blocks ++ tail) 1) with (Val b).
    change (index (a :: b :: c :: blocks ++ tail) 2) with (Val c). cbn [mbind outcome_bind].
    destruct (group_word a b c Ha Hb1 Hc) as [-> _]. destruct (digit_words (group a b c)) as (-> & -> & -> & ->).
    do 4 (at_end; rewrite store_lt by (rewrite ?length_insert; cbn [length]; lia); cbn [fmap outcome_fmap mbind outcome_bind]).
    change (E ++ <[Z.to_nat 3:=?x3]> (<[Z.to_nat 2:=?x2]> (<[Z.to_nat 1:=?x1]> (<[Z.to_nat 0:=?x0]> (j0 :: j1 :: j2 :: j3 :: junk)))))
      with (E ++ [x0; x1; x2; x3] ++ junk).
    rewrite (app_assoc E). replace (dn ++ a :: b :: c :: blocks ++ tail) with ((dn ++ [a; b; c]) ++ blocks ++ tail) by (by rewrite <- app_assoc).
    replace (zlen E + 4) with (zlen (E ++ [char_ (digit 3 (group a b c)); char_ (digit 2 (group a b c)); char_ (digit 1 (group a b c)); char_ (digit 0 (group a b c))]))
      by (rewrite zlen_app; done).
    replace (zlen dn + 3) with (zlen (dn ++ [a; b; c])) by (rewrite zlen_app; done).
    replace (zlen dn + Z.of_nat (S (S (S (length blocks))))) with (zlen (dn ++ [a; b; c]) + zlen blocks) by (rewrite zlen_app; cbn [length]; lia).
    rewrite (IH fuel); [|done| |lia|cbn [length] in Hj; lia].
    + rewrite <- app_assoc. f_equal. f_equal. f_equal. rewrite zlen_app. cbn [length]. lia.
    + exists (k - 1)%nat. cbn [length] in Hm. lia.
Qed.

(** The first [3 * (len / 3)] bytes and what is left. *)
Lemma blocks_split {A} (src : list A) : exists blocks tail, src = blocks ++ tail /\ (exists k, length blocks = 3 * k)%nat
  /\ (length tail < 3)%nat /\ zlen src / 3 * 3 = zlen blocks.
Proof.
  pose proof (Nat.div_mod_eq (length src) 3) as H. pose proof (Nat.mod_upper_bound (length src) 3 ltac:(lia)).
  exists (take (3 * (length src / 3)) src), (drop (3 * (length src / 3)) src). rewrite take_drop, length_take, length_drop.
  split_and!; [done|exists (length src / 3)%nat; lia|lia|].
  rewrite Nat.min_l by lia. change 3 with (Z.of_nat 3) at 1. rewrite <- Nat2Z.inj_div. lia.
Qed.

Lemma encoded_app blocks tail : (exists k, length blocks = 3 * k)%nat -> encoded (blocks ++ tail) = encoded blocks ++ encoded tail.
Proof.
  induction blocks as [|a|a b|a b c blocks IH] using list_ind3; intros [k Hk]; [done|cbn [length] in Hk; lia..|].
  cbn [app encoded]. rewrite IH; [done|]. exists (k - 1)%nat. cbn [length] in Hk. lia.
Qed.

Lemma length_encoded src : zlen (encoded src) = EncodedLen enc (zlen src).
Proof.
  induction src as [|a|a b|a b c src IH] using list_ind3; unfold EncodedLen in *; cbn [encoded]; rewrite ?zlen_app;
    unfold padding; destruct (padChar enc =? NoPadding); try reflexivity.
  - rewrite IH. cbn [length]. rewrite !Z.quot_div_nonneg by lia. dlia.
  - rewrite IH. cbn [length]. rewrite !Z.quot_div_nonneg by lia. dlia.
Qed.

Lemma encode_rest_spec (E junk dn tail : list Z) : bytes_ok tail -> (0 < length tail < 3)%nat -> (length (encoded tail) <= length junk)%nat ->
  encode_rest enc (E ++ junk) (dn ++ tail) (zlen E) (zlen dn) = Val (E ++ encoded tail ++ drop (length (encoded tail)) junk).
Proof.
  intros Hb Ht Hj. unfold encode_rest. rewrite zlen_app. replace (zlen dn + zlen tail - zlen dn) with (zlen tail) by lia.
  destruct tail as [|a [|b [|c tail]]]; cbn [length] in Ht; try lia.
  - apply Forall_cons in Hb as [Ha _]. cbn [encoded] in *. unfold padding in *. at_end. change (index [a] 0) with (Val a).
    change (zlen [a] =? 2) with false. change (zlen [a] =? 1) with true. cbn [mbind outcome_bind]. rewrite (group_word1 a Ha).
    destruct (digit_words (group a 0 0)) as (-> & -> & _ & _).
    destruct (padChar enc =? NoPadding); cbn [negb replicate app length] in *.
    + destruct junk as [|j0 [|j1 junk]]; [cbn [length] in Hj; lia..|].
      do 2 (at_end; rewrite store_lt by (rewrite ?length_insert; cbn [length]; lia); cbn [fmap outcome_fmap mbind outcome_bind]). reflexivity.
    + destruct junk as [|j0 [|j1 [|j2 [|j3 junk]]]]; [cbn [length] in Hj; lia..|].
      do 4 (at_end; rewrite store_lt by (rewrite ?length_insert; cbn [length]; lia); cbn [fmap outcome_fmap mbind outcome_bind]). reflexivity.
  - apply Forall_cons in Hb as [Ha Hb]. apply Forall_cons in Hb as [Hb _]. cbn [encoded] in *. unfold padding in *. at_end. change (index [a; b] 0) with (Val a).
    change (zlen [a; b] =? 2) with true. cbn [mbind outcome_bind]. at_end. change (index [a; b] 1) with (Val b).
    cbn [mbind outcome_bind]. rewrite (group_word2 a b Ha Hb). destruct (digit_words (group a b 0)) as (-> & -> & -> & _).
    destruct (padChar enc =? NoPadding); cbn [negb replicate app length] in *.
    + destruct junk as [|j0 [|j1 [|j2 junk]]]; [cbn [length] in Hj; lia..|].
      do 3 (at_end; rewrite store_lt by (rewrite ?length_insert; cbn [length]; lia); cbn [fmap outcome_fmap mbind outcome_bind]). reflexivity.
    + destruct junk as [|j0 [|j1 [|j2 [|j3 junk]]]]; [cbn [length] in Hj; lia..|].
      do 4 (at_end; rewrite store_lt by (rewrite ?length_insert; cbn [length]; lia); cbn [fmap outcome_fmap mbind outcome_bind]). reflexivity.
Qed.

Lemma b64_Encode_spec dst src : bytes_ok src -> (length (encoded src) <= length dst)%nat ->
  Encode enc dst src = Val (encoded src ++ drop (length (encoded src)) dst).
Proof.
  intros Hb Hd. unfold Encode. destruct (Z.eqb_spec (zlen src) 0) as [E|Hn].
  { destruct src; [done|cbn [length] in E; lia]. }
  destruct (blocks_split src) as (blocks & tail & -> & Hk & Ht & Hq). rewrite Z.quot_div_nonneg, Hq by lia.
  apply Forall_app in Hb as [Hb Hbt]. rewrite encoded_app in Hd by done.
  rewrite length_app in Hd.
  pose proof (b64_encode_loop_spec blocks (S (length (blocks ++ tail))) [] dst [] tail Hb Hk) as L.
  cbn [app length] in L. change (Z.of_nat 0) with 0 in L. rewrite !Z.add_0_l in L.
  rewrite L by (rewrite ?length_app; lia). cbn [mbind outcome_bind]. rewrite zlen_app.
  replace (zlen blocks + zlen tail - zlen blocks) with (zlen tail) by lia. rewrite encoded_app by done.
  destruct (Z.eqb_spec (zlen tail) 0) as [E|Hne].
  - destruct tail; [|cbn [length] in E; lia]. cbn [encoded]. by rewrite app_nil_r.
  - rewrite encode_rest_spec; [|done|lia|rewrite length_drop; lia].
    by rewrite drop_drop, length_app, app_assoc.
Qed.

Lemma b64_EncodeToString_spec src : bytes_ok src -> EncodeToString enc src = Val (encoded src).
Proof.
  intros Hb. unfold EncodeToString. pose proof (length_encoded src) as L.
  assert (Hm : length (make 0 (EncodedLen enc (zlen src))) = length (encoded src)).
  { rewrite <- L. unfold make. rewrite length_replicate. lia. }
  rewrite b64_Encode_spec by (done || lia). rewrite drop_ge by lia. by rewrite app_nil_r.
Qed.
End Spec.

(** ** Specification of the decoder *)

(** What an Encoding of a duplicate-free alphabet satisfies. *)
Record enc_ok (enc : Encoding) : Prop := {
  ok_len : length (encode enc) = 64%nat;
  ok_bytes : bytes_ok (encode enc);
  ok_digit : forall c, is_byte c -> tab (decodeMap enc) c = 255 \/ is_uint 6 (tab (decodeMap enc) c);
  ok_inverse : forall d, is_uint 6 d -> tab (decodeMap enc) (char_ enc d) = d;
  ok_char : forall c, is_byte c -> tab (decodeMap enc) c <> 255 -> char_ enc (tab (decodeMap enc) c) = c;
  ok_newline : forall c, newline c = true -> tab (decodeMap enc) c = 255;
  ok_padding : padChar enc = NoPadding \/
    (is_byte (padChar enc) /\ tab (decodeMap enc) (padChar enc) = 255 /\ newline (padChar enc) = false) }.

Section Decoder.
Context (enc : Encoding) (src : list Z).
Hypothesis Henc : enc_ok enc.
Hypothesis Hsrc : bytes_ok src.

Abbreviation L := (zlen src).

Lemma index_src si : 0 <= si < L -> exists c, index src si = Val c /\ src !! Z.to_nat si = Some c /\ is_byte c.
Proof.
  intros H. destruct (lookup_lt_is_Some_2 src (Z.to_nat si)) as [c Hc]; [lia|]. exists c.
  split_and!; [by apply index_Val; [lia|]|done|]. by eapply Forall_lookup_1 in Hc.
Qed.

(** The bytes of four digits. *)
Definition value (dbuf : list Z) : Z := match dbuf with [d0; d1; d2; d3] => 262144 * d0 + 4096 * d1 + 64 * d2 + d3 | _ => 0 end.
Definition byte_of (k : Z) (v : Z) : Z := v / 2 ^ (8 * k) mod 256.

(** What one quantum yields: the next index, the bytes, and the error. *)
Definition emit (q : quantum) : Z * list Z * option error :=
  match q with
  | QReturn si err => (si, [], err)
  | QBreak si dlen dbuf err =>
      let v := value dbuf in
      if dlen =? 4 then (si, [byte_of 2 v; byte_of 1 v; byte_of 0 v], err)
      else if dlen =? 3 then
        if strict enc && negb (byte_of 0 v =? 0) then (si, [], Some (si - 1)) else (si, [byte_of 2 v; byte_of 1 v], err)
      else
        if strict enc && (negb (byte_of 1 v =? 0) || negb (byte_of 0 v =? 0)) then (si, [], Some (si - 2))
        else (si, [byte_of 2 v], err)
  end.

(** Decoding one quantum after another, without the fast paths. *)
Fixpoint quanta (fuel : nat) (si : Z) : list Z * option error :=
  match fuel with
  | O => ([], None)
  | S fuel =>
      if si <? L then
        match quantum_loop enc (S (S (length src))) src si 0 (make 0 4) with
        | Val q =>
            let '(si, bs, err) := emit q in
            match err with
            | Some e => (bs, Some e)
            | None => let '(rest, e) := quanta fuel si in (bs ++ rest, e)
            end
        | _ => ([], None)
        end
      else ([], None)
  end.

Definition decoded : list Z * option error := quanta (S (length src)) 0.

Lemma skip_spec fuel si : 0 <= si <= L -> L - si < Z.of_nat fuel ->
  exists si', skip_newlines fuel src si = Val si' /\ si <= si' <= L.
Proof.
  revert si. induction fuel as [|fuel IH]; intros si Hs Hf; [lia|]. cbn [skip_newlines].
  destruct (Z.ltb_spec si L) as [Hlt|Hge]; [|exists si; split; [done|lia]].
  destruct (index_src si) as (c & -> & _); [lia|]. cbn [mbind outcome_bind]. destruct (newline c); [|exists si; split; [done|lia]].
  destruct (IH (si + 1)) as (si' & -> & ?); [lia..|]. exists si'. split; [done|lia].
Qed.

Lemma skip_total si : 0 <= si <= L -> exists si', skip src si = Val si' /\ si <= si' <= L.
Proof. intros H. unfold skip. apply skip_spec; lia. Qed.

Definition digits_ok (dbuf : list Z) : Prop := length dbuf = 4%nat /\ Forall (is_uint 6) dbuf.

(** What holds of the end of the loop entered at [si] with [j] digits. *)
Definition quantum_ok (si j : Z) (q : quantum) : Prop :=
  match q with
  | QReturn si' err => si <= si' <= L /\ (err = None -> si' = L)
  | QBreak si' dlen dbuf err => si + (dlen - j) <= si' <= L /\ 2 <= dlen <= 4 /\ digits_ok dbuf
      /\ (padChar enc <> NoPadding -> si + (4 - j) <= si')
      /\ (dlen < 4 -> err = None -> si' = L)
  end.

(** A return without bytes. *)
Ltac returned := eexists; split; [reflexivity|]; cbn [quantum_ok]; split; [lia|done || lia].

Lemma padding_case_ok si j dbuf : 0 <= si <= L -> 0 <= j < 4 -> digits_ok dbuf ->
  exists q, padding_case enc src si j dbuf = Val q /\ quantum_ok (si - 1) j q.
Proof.
  intros Hs Hj Hd. unfold padding_case.
  assert (Hfin : forall s, (if j =? 3 then si <= s else si + 1 <= s) -> s <= L -> 2 <= j ->
    exists q, (si ← skip src s; Val (QBreak si j dbuf (if si <? L then Some si else None))) = Val q /\ quantum_ok (si - 1) j q).
  { intros s Hs1 Hs2 Hj2. destruct (skip_total s) as (s' & -> & Hs'); [destruct (j =? 3); lia|]. eexists. split; [reflexivity|].
    assert (Hj3 : si + (4 - 1 - j) <= s') by (destruct (Z.eqb_spec j 3); lia). cbn [quantum_ok].
    split; [lia|]. split; [lia|]. split; [done|]. split; [lia|]. intros _. destruct (Z.ltb_spec s' L); [done|lia]. }
  destruct ((j =? 0) || (j =? 1)) eqn:E1; [returned|].
  assert (j = 2 \/ j = 3) as [-> | ->] by (destruct (Z.eqb_spec j 0), (Z.eqb_spec j 1); done || lia); cbn [Z.eqb Pos.eqb] in *.
  - destruct (skip_total si) as (s1 & -> & Hs1); [done|]. cbn [mbind outcome_bind].
    destruct (Z.eqb_spec s1 L); [returned|].
    destruct (index_src s1) as (c & -> & _); [lia|]. cbn [mbind outcome_bind].
    destruct (negb _); [returned|]. apply Hfin; lia.
  - apply Hfin; lia.
Qed.

Lemma quantum_total fuel : forall si j dbuf, 0 <= si <= L -> 0 <= j <= 4 -> digits_ok dbuf -> L - si + 1 < Z.of_nat fuel ->
  exists q, quantum_loop enc fuel src si j dbuf = Val q /\ quantum_ok si j q.
Proof.
  induction fuel as [|fuel IH]; intros si j dbuf Hs Hj Hd Hf; [lia|]. cbn [quantum_loop].
  destruct (Z.ltb_spec j 4) as [Hj4|Hj4]; [|eexists; split; [reflexivity|]; cbn [quantum_ok]; split; [lia|]; split; [lia|]; split; [done|]; lia].
  destruct (Z.eqb_spec L si) as [E|Hne].
  { destruct (Z.eqb_spec j 0); [returned|].
    destruct ((j =? 1) || _) eqn:E1; [returned|].
    apply orb_false_iff in E1 as [?%Z.eqb_neq E1]. apply negb_false_iff, Z.eqb_eq in E1.
    eexists. split; [reflexivity|]. cbn [quantum_ok]. split; [lia|]. split; [lia|]. split; [done|]. split; [done|lia]. }
  destruct (index_src si) as (c & -> & _ & Hc); [lia|]. cbn [mbind outcome_bind].
  destruct (Z.eqb_spec (tab (decodeMap enc) c) 0xff) as [Eff|Hff]; cbn [negb].
  - destruct (newline c).
    { destruct (IH (si + 1) j dbuf) as (q & -> & Hq); [lia|lia|done|lia|]. exists q. split; [done|].
      destruct q; cbn [quantum_ok] in *; [intuition lia|]. intuition lia. }
    destruct (negb _); [returned|].
    destruct (padding_case_ok (si + 1) j dbuf) as (q & -> & Hq); [lia|lia|done|]. exists q. split; [done|].
    by replace (si + 1 - 1) with si in Hq by lia.
  - destruct Hd as [Hl Hd]. rewrite store_lt by lia. cbn [mbind outcome_bind].
    destruct (ok_digit _ Henc c Hc) as [|Hdig]; [done|].
    destruct (IH (si + 1) (j + 1) (<[Z.to_nat j:=tab (decodeMap enc) c]> dbuf)) as (q & -> & Hq); [lia|lia| |lia|].
    { split; [by rewrite length_insert|]. by apply Forall_insert. }
    exists q. split; [done|]. destruct q; cbn [quantum_ok] in *; intuition lia.
Qed.

Lemma value_word d0 d1 d2 d3 : is_uint 6 d0 -> is_uint 6 d1 -> is_uint 6 d2 -> is_uint 6 d3 ->
  d0 <<.[64] 18 |. d1 <<.[64] 12 |. d2 <<.[64] 6 |. d3 = value [d0; d1; d2; d3] /\ is_uint 24 (value [d0; d1; d2; d3]).
Proof.
  unfold is_uint, value. intros H0 H1 H2 H3. split; [|lia]. unfold shl. rewrite !Z.shiftl_mul_pow2 by lia.
  rewrite !wrap_small by (unfold is_uint; lia). rewrite lor_disjoint by (unfold is_uint; lia).
  replace (d0 * 2 ^ 18 + d1 * 2 ^ 12) with ((64 * d0 + d1) * 2 ^ 12) by lia. rewrite lor_disjoint by (unfold is_uint; lia).
  replace ((64 * d0 + d1) * 2 ^ 12 + d2 * 2 ^ 6) with ((4096 * d0 + 64 * d1 + d2) * 2 ^ 6) by lia. rewrite lor_disjoint by done. lia.
Qed.

Lemma byte_word k v : 0 <= k -> u8 (v >>. (8 * k)) = byte_of k v.
Proof. intros Hk. unfold byte_of, wrap. by rewrite Z.shiftr_div_pow2 by lia. Qed.

(** The result of a write, by evaluation. *)
Ltac written := split_and!; [reflexivity|reflexivity|reflexivity|cbn [length take]; rewrite ?take_0; reflexivity|done|intros ?; (discriminate || subst; split_and!; reflexivity)].

Lemma write_quantum_spec dst dbuf si dlen err : digits_ok dbuf -> 2 <= dlen <= 4 -> dlen - 1 <= zlen dst ->
  exists dst' si' bs err', write_quantum enc dst dbuf si dlen err = Val (dst', si', zlen bs, err')
  /\ emit (QBreak si dlen dbuf err) = (si', bs, err') /\ length dst' = length dst /\ take (length bs) dst' = bs
  /\ zlen bs <= dlen - 1 /\ (err' = None -> err = None /\ zlen bs = dlen - 1 /\ si' = si).
Proof.
  intros [Hl Hd] Hdl Hdst. destruct dbuf as [|d0 [|d1 [|d2 [|d3 [|]]]]]; try done.
  apply Forall_cons in Hd as [H0 Hd]. apply Forall_cons in Hd as [H1 Hd]. apply Forall_cons in Hd as [H2 Hd]. apply Forall_cons in Hd as [H3 _].
  destruct (value_word d0 d1 d2 d3 H0 H1 H2 H3) as [Ev _]. unfold write_quantum.
  change (index [d0; d1; d2; d3] 0) with (Val d0). change (index [d0; d1; d2; d3] 1) with (Val d1).
  change (index [d0; d1; d2; d3] 2) with (Val d2). change (index [d0; d1; d2; d3] 3) with (Val d3).
  cbn [mbind outcome_bind]. rewrite Ev. unfold emit. set (v := value [d0; d1; d2; d3]).
  rewrite (byte_word 0 v ltac:(lia) : u8 (v >>. 0) = _), (byte_word 1 v ltac:(lia) : u8 (v >>. 8) = _),
    (byte_word 2 v ltac:(lia) : u8 (v >>. 16) = _).
  assert (dlen = 4 \/ dlen = 3 \/ dlen = 2) as [->|[->| ->]] by lia; cbn [Z.eqb Pos.eqb orb].
  - destruct dst as [|x0 [|x1 [|x2 dst]]]; [cbn [length] in Hdst; lia..|].
    rewrite (store_lt _ 2) by (cbn [length]; lia). cbn [mbind outcome_bind]. rewrite (store_lt _ 1) by (rewrite length_insert; cbn [length]; lia).
    cbn [mbind outcome_bind Z.eqb negb orb]. rewrite !andb_false_r. rewrite store_lt by (rewrite !length_insert; cbn [length]; lia).
    cbn [mbind outcome_bind].
    exists (byte_of 2 v :: byte_of 1 v :: byte_of 0 v :: dst), si, [byte_of 2 v; byte_of 1 v; byte_of 0 v], err.
    written.
  - destruct dst as [|x0 [|x1 dst]]; [cbn [length] in Hdst; lia..|]. cbn [mbind outcome_bind].
    rewrite (store_lt _ 1) by (cbn [length]; lia). cbn [mbind outcome_bind].
    destruct (strict enc && negb (byte_of 0 v =? 0)) eqn:Es.
    + exists (x0 :: byte_of 1 v :: dst), si, [], (Some (si - 1)). written.
    + rewrite store_lt by (rewrite !length_insert; cbn [length]; lia). cbn [mbind outcome_bind Z.eqb negb orb].
      rewrite Es. exists (byte_of 2 v :: byte_of 1 v :: dst), si, [byte_of 2 v; byte_of 1 v], err. written.
  - destruct dst as [|x0 dst]; [cbn [length] in Hdst; lia|]. cbn [mbind outcome_bind].
    rewrite store_lt by (cbn [length]; lia). cbn [mbind outcome_bind].
    destruct (strict enc && _) eqn:Es.
    + exists (byte_of 2 v :: dst), si, [], (Some (si - 2)). written.
    + exists (byte_of 2 v :: dst), si, [byte_of 2 v], err. written.
Qed.

(** Enough fuel is as good as more. *)
Lemma quanta_fuel fuel fuel' si : 0 <= si <= L -> L - si < Z.of_nat fuel -> L - si < Z.of_nat fuel' -> quanta fuel si = quanta fuel' si.
Proof.
  revert fuel' si. induction fuel as [|fuel IH]; intros fuel' si Hs Hf Hf'; [lia|]. destruct fuel' as [|fuel']; [lia|].
  cbn [quanta]. destruct (Z.ltb_spec si L) as [Hlt|]; [|done].
  destruct (quantum_total (S (S (length src))) si 0 (make 0 4)) as (q & -> & Hq); [lia|lia|by split; [|repeat constructor]|lia|].
  destruct (emit q) as [[si' bs] [e|]] eqn:E; [done|].
  assert (Hs' : si < si' <= L).
  { destruct q as [s err|s dlen dbuf err]; cbn [quantum_ok emit] in *.
    - injection E as <- <- ->. destruct Hq as [? ->]; [lia|done].
    - destruct Hq as (? & ? & _). assert (si' = s) as -> by (repeat case_match; by injection E). lia. }
  rewrite (IH fuel'); [done|lia..].
Qed.

Definition from_ (si : Z) : list Z * option error := quanta (S (length src)) si.

Lemma from_end si : L <= si -> from_ si = ([], None).
Proof. intros H. unfold from_. cbn [quanta]. by rewrite (proj2 (Z.ltb_ge _ _)). Qed.

Lemma from_step si : 0 <= si < L ->
  exists q, quantum_loop enc (S (S (length src))) src si 0 (make 0 4) = Val q /\ quantum_ok si 0 q
  /\ from_ si = let '(si', bs, err) := emit q in
       match err with Some e => (bs, Some e) | None => let '(rest, e) := from_ si' in (bs ++ rest, e) end.
Proof.
  intros Hs. destruct (quantum_total (S (S (length src))) si 0 (make 0 4)) as (q & E & Hq); [lia|lia|by split; [|repeat constructor]|lia|].
  exists q. split_and!; [done|done|]. unfold from_ at 1. cbn [quanta]. rewrite (proj2 (Z.ltb_lt _ _)), E by lia.
  destruct (emit q) as [[si' bs] [e|]] eqn:Ee; [done|].
  assert (Hs' : si < si' <= L).
  { destruct q as [s err|s dlen dbuf err]; cbn [quantum_ok emit] in *.
    - injection Ee as <- <- ->. destruct Hq as [? ->]; [lia|done].
    - destruct Hq as (? & ? & _). assert (si' = s) as -> by (repeat case_match; by injection Ee). lia. }
  unfold from_. by rewrite (quanta_fuel (length src) (S (length src))) by lia.
Qed.

(** ** The turns of Decode *)

(** Before a turn at [si], [n] bytes have been written, three for every four characters at least. *)
Definition room (D si n : Z) : Prop := DecodedLen enc L <= D /\ 0 <= si <= L /\ 0 <= n <= D /\ (si < L -> exists k, n = 3 * k /\ 4 * k <= si).

(** What a turn does to [dst]: it appends bytes, and what remains to be decoded follows them. *)
Definition turned (dst : list Z) (si n : Z) (r : outcome (list Z * Z * Z * option error)) : Prop :=
  exists dst' si' n' err bs, r = Val (dst', si', n', err) /\ length dst' = length dst /\ n' = n + zlen bs
  /\ take (Z.to_nat n') dst' = take (Z.to_nat n) dst ++ bs
  /\ match err with
     | Some e => from_ si = (bs, Some e) /\ n' <= zlen dst
     | None => si < si' /\ room (zlen dst) si' n' /\ from_ si = let '(rest, e) := from_ si' in (bs ++ rest, e)
     end.

Lemma at_offset_val {A} (dst : list Z) n (f : list Z -> outcome (list Z * A)) d r :
  0 <= n <= zlen dst -> f (drop (Z.to_nat n) dst) = Val (d, r) -> at_offset dst n f = Val (take (Z.to_nat n) dst ++ d, r).
Proof.
  intros Hn Hf. unfold at_offset, slice. rewrite decide_True by lia. cbn [mbind outcome_bind].
  rewrite (take_ge (drop _ _)) by (rewrite length_drop; lia). by rewrite Hf.
Qed.

(** A prefix written at [n]. *)
Lemma prefix_written (dst d bs : list Z) n : 0 <= n <= zlen dst -> length d = length (drop (Z.to_nat n) dst) -> take (length bs) d = bs ->
  length (take (Z.to_nat n) dst ++ d) = length dst
  /\ take (Z.to_nat (n + zlen bs)) (take (Z.to_nat n) dst ++ d) = take (Z.to_nat n) dst ++ bs.
Proof.
  intros Hn Hd Hb. rewrite length_app, length_take, Hd, length_drop. split; [lia|].
  rewrite take_app, length_take. rewrite take_ge by (rewrite length_take; lia). f_equal.
  replace (Z.to_nat (n + zlen bs) - Z.to_nat n `min` length dst)%nat with (length bs) by lia. done.
Qed.

Lemma slow_turn_ok dst si n : si < L -> room (zlen dst) si n -> turned dst si n (slow_turn enc dst src si n).
Proof.
  intros Hlt (HD & Hs & Hn & Hk). destruct (Hk Hlt) as (k & -> & Hk4). destruct (from_step si) as (q & Eq & Hq & Ef); [lia|].
  unfold turned, slow_turn. unfold DecodedLen in HD. rewrite !Z.quot_div_nonneg in HD by lia.
  destruct q as [s err|s dlen dbuf err]; cbn [quantum_ok] in Hq.
  - rewrite (at_offset_val _ _ _ (drop (Z.to_nat (3 * k)) dst) (s, 0, err)); [|lia|by unfold decodeQuantum; rewrite Eq].
    cbn [mbind outcome_bind]. destruct (prefix_written dst (drop (Z.to_nat (3 * k)) dst) [] (3 * k)) as [H1 H2]; [lia|done|done|].
    eexists _, s, (3 * k + 0), err, []. split; [reflexivity|]. split; [done|]. split; [done|]. split; [done|].
    cbn [emit] in Ef. destruct err as [e|]; [by split; [|lia]|]. destruct Hq as [Hq1 Hq2]. rewrite Hq2 in * by done.
    split; [lia|]. split; [|done]. unfold room, DecodedLen. rewrite !Z.quot_div_nonneg by lia. split_and!; try lia.
  - destruct Hq as (Hs1 & Hdl & Hdig & Hpad & Hlast).
    assert (Hroom : dlen - 1 <= zlen dst - 3 * k).
    { destruct (Z.eqb_spec (padChar enc) NoPadding) as [Ep|Ep]; [|specialize (Hpad Ep)]; dlia. }
    destruct (write_quantum_spec (drop (Z.to_nat (3 * k)) dst) dbuf s dlen err) as (d & s' & bs & err' & Ew & Ee & Hl & Ht & Hbs & Hnone);
      [done|lia|rewrite length_drop; lia|].
    rewrite (at_offset_val _ _ _ d (s', zlen bs, err')); [|lia|by unfold decodeQuantum; rewrite Eq; cbn [mbind outcome_bind]; rewrite Ew].
    cbn [mbind outcome_bind]. destruct (prefix_written dst d bs (3 * k)) as [H1 H2]; [lia|done|done|].
    eexists _, s', (3 * k + zlen bs), err', bs. split; [reflexivity|]. split; [done|]. split; [done|]. split; [done|].
    rewrite Ee in Ef. destruct err' as [e|]; [split; [done|lia]|]. destruct Hnone as (-> & Hbs' & ->); [done|].
    split; [lia|]. split; [|done]. unfold room, DecodedLen. rewrite !Z.quot_div_nonneg by lia. split_and!; try lia.
    intros Hs2. destruct (Z.eq_dec dlen 4) as [->|]; [|exfalso; rewrite Hlast in Hs2; (done || lia)]. exists (k + 1). lia.
Qed.

(** ** The fast paths *)

Definition map_value (d : Z) : Prop := d = 255 \/ is_uint 6 d.

Lemma lor_map_value x y : map_value x -> map_value y -> map_value (x |. y) /\ (x |. y = 255 <-> x = 255 \/ y = 255).
Proof.
  assert (H255 : forall z, is_byte z -> 255 |. z = 255).
  { intros z Hz. apply Z.eqb_eq. revert z Hz. apply check_byte. by vm_compute. }
  assert (Hb : forall z, map_value z -> is_byte z) by (intros z [->|Hz]; unfold is_uint in *; lia).
  intros Hx Hy. destruct Hx as [->|Hx]; [rewrite H255 by auto; unfold map_value; tauto|].
  destruct Hy as [->|Hy]; [rewrite Z.lor_comm, H255 by (apply Hb; by right); unfold map_value; tauto|].
  assert (H : is_uint 6 (x |. y)) by (by apply lor_is_uint). split; [by right|]. unfold is_uint in *. lia.
Qed.

Lemma digit_at_ok si : 0 <= si < L -> exists c, digit_at enc src si = Val (tab (decodeMap enc) c) /\ index src si = Val c
  /\ map_value (tab (decodeMap enc) c).
Proof.
  intros H. destruct (index_src si H) as (c & E & _ & Hc). exists c. unfold digit_at. rewrite E. split_and!; try done.
  by apply (ok_digit _ Henc).
Qed.

Lemma quantum_digit fuel si j dbuf c : 0 <= si < L -> 0 <= j < 4 -> length dbuf = 4%nat -> index src si = Val c ->
  tab (decodeMap enc) c <> 255 ->
  quantum_loop enc (S fuel) src si j dbuf = quantum_loop enc fuel src (si + 1) (j + 1) (<[Z.to_nat j := tab (decodeMap enc) c]> dbuf).
Proof.
  intros Hs Hj Hl Hc Hd. cbn [quantum_loop]. rewrite (proj2 (Z.ltb_lt _ _)), (proj2 (Z.eqb_neq L si)), Hc by lia.
  cbn [mbind outcome_bind]. rewrite (proj2 (Z.eqb_neq _ 0xff)) by done. cbn [negb]. rewrite store_lt by lia. done.
Qed.

Definition bytes_of (v : Z) : list Z := [byte_of 2 v; byte_of 1 v; byte_of 0 v].

Lemma from_quad si c0 c1 c2 c3 (d := λ c, tab (decodeMap enc) c) : 0 <= si -> si + 4 <= L ->
  index src si = Val c0 -> index src (si + 1) = Val c1 -> index src (si + 2) = Val c2 -> index src (si + 3) = Val c3 ->
  d c0 <> 255 -> d c1 <> 255 -> d c2 <> 255 -> d c3 <> 255 ->
  from_ si = let '(rest, e) := from_ (si + 4) in (bytes_of (value [d c0; d c1; d c2; d c3]) ++ rest, e).
Proof.
  intros Hs HL E0 E1 E2 E3 D0 D1 D2 D3. destruct (from_step si) as (q & Eq & _ & ->); [lia|].
  destruct (S (S (length src))) as [|[|[|[|[|fuel]]]]] eqn:Ef; try lia. change (make 0 4) with [0; 0; 0; 0] in Eq.
  rewrite (quantum_digit _ _ _ _ c0), (quantum_digit _ _ _ _ c1), (quantum_digit _ _ _ _ c2), (quantum_digit _ _ _ _ c3) in Eq;
    rewrite ?length_insert, <- ?Z.add_assoc; try done; try lia.
  rewrite <- !Z.add_assoc in Eq. change (1 + (1 + (1 + 1))) with 4 in Eq. cbn in Eq. injection Eq as <-. cbn [emit Z.eqb Pos.eqb].
  done.
Qed.

Lemma shl_digit w d k : 0 <= k -> k + 6 <= w -> is_uint 6 d -> d <<.[w] k = Z.shiftl d k.
Proof.
  intros Hk Hw Hd. unfold shl. apply wrap_small. rewrite Z.shiftl_mul_pow2 by lia. apply (is_uint_mono (k + 6)); [done|].
  unfold is_uint in *. rewrite Z.pow_add_r by lia. nia.
Qed.

Lemma assemble32_spec d0 d1 d2 d3 : map_value d0 -> map_value d1 -> map_value d2 -> map_value d3 ->
  assemble32 d0 d1 d2 d3 = (0, false)
  \/ (d0 <> 255 /\ d1 <> 255 /\ d2 <> 255 /\ d3 <> 255
      /\ assemble32 d0 d1 d2 d3 = (value [d0; d1; d2; d3] * 2 ^ 8, true) /\ is_uint 24 (value [d0; d1; d2; d3])).
Proof.
  intros H0 H1 H2 H3. unfold assemble32.
  destruct (lor_map_value d0 d1) as [M1 I1]; [done..|]. destruct (lor_map_value (d0 |. d1) d2) as [M2 I2]; [done..|].
  destruct (lor_map_value (d0 |. d1 |. d2) d3) as [M3 I3]; [done..|].
  destruct (Z.eqb_spec (d0 |. d1 |. d2 |. d3) 0xff) as [|Hn]; [by left|right].
  rewrite I3, I2, I1 in Hn. destruct H0 as [|H0], H1 as [|H1], H2 as [|H2], H3 as [|H3]; try tauto.
  destruct (value_word d0 d1 d2 d3) as [E Hv]; [done..|]. split; [tauto|]. split; [tauto|]. split; [tauto|]. split; [tauto|].
  split; [|done]. f_equal. rewrite <- E. rewrite !shl_digit by done.
  rewrite <- Z.shiftl_mul_pow2 by done. rewrite !Z.shiftl_lor, !Z.shiftl_shiftl by done. done.
Qed.

Lemma assemble64_spec d0 d1 d2 d3 d4 d5 d6 d7 : Forall map_value [d0; d1; d2; d3; d4; d5; d6; d7] ->
  assemble64 d0 d1 d2 d3 d4 d5 d6 d7 = (0, false)
  \/ (Forall (λ d, d <> 255) [d0; d1; d2; d3; d4; d5; d6; d7]
      /\ assemble64 d0 d1 d2 d3 d4 d5 d6 d7 = (value [d0; d1; d2; d3] * 2 ^ 40 + value [d4; d5; d6; d7] * 2 ^ 16, true)
      /\ is_uint 24 (value [d0; d1; d2; d3]) /\ is_uint 24 (value [d4; d5; d6; d7])).
Proof.
  rewrite !Forall_cons. intros (H0 & H1 & H2 & H3 & H4 & H5 & H6 & H7 & _). unfold assemble64.
  destruct (lor_map_value d0 d1) as [M1 I1]; [done..|]. destruct (lor_map_value (d0 |. d1) d2) as [M2 I2]; [done..|].
  destruct (lor_map_value (d0 |. d1 |. d2) d3) as [M3 I3]; [done..|]. destruct (lor_map_value _ d4 M3) as [M4 I4]; [done|].
  destruct (lor_map_value _ d5 M4) as [M5 I5]; [done|]. destruct (lor_map_value _ d6 M5) as [M6 I6]; [done|].
  destruct (lor_map_value _ d7 M6) as [M7 I7]; [done|].
  destruct (Z.eqb_spec (d0 |. d1 |. d2 |. d3 |. d4 |. d5 |. d6 |. d7) 0xff) as [|Hn]; [by left|right].
  rewrite I7, I6, I5, I4, I3, I2, I1 in Hn.
  assert (N : Forall (λ d, d <> 255) [d0; d1; d2; d3; d4; d5; d6; d7]).
  { clear -Hn. rewrite !Forall_cons. repeat split; [intros E; apply Hn; clear -E; auto 10 .. | constructor]. }
  clear -N H0 H1 H2 H3 H4 H5 H6 H7. pose proof N as N'. rewrite !Forall_cons in N'. destruct N' as (N0 & N1 & N2 & N3 & N4 & N5 & N6 & N7 & _).
  destruct H0 as [|H0]; [done|]. destruct H1 as [|H1]; [done|]. destruct H2 as [|H2]; [done|]. destruct H3 as [|H3]; [done|].
  destruct H4 as [|H4]; [done|]. destruct H5 as [|H5]; [done|]. destruct H6 as [|H6]; [done|]. destruct H7 as [|H7]; [done|].
  destruct (value_word d0 d1 d2 d3) as [E Hv]; [done..|]. destruct (value_word d4 d5 d6 d7) as [E' Hv']; [done..|].
  split; [done|]. split; [|done]. f_equal.
  rewrite <- lor_disjoint by (unfold is_uint in *; lia). rewrite <- E, <- E'.
  rewrite !shl_digit by done.
  rewrite <- !Z.shiftl_mul_pow2 by done. rewrite !Z.shiftl_lor, !Z.shiftl_shiftl by done. cbn [Z.add Pos.add Pos.succ]. by rewrite !Z.lor_assoc.
Qed.
Lemma byte_of_high j k a r : 0 <= j -> 0 <= k -> is_uint (8 * j) r -> byte_of (j + k) (a * 2 ^ (8 * j) + r) = byte_of k a.
Proof.
  intros Hj Hk Hr. unfold byte_of. rewrite Z.mul_add_distr_l, Z.pow_add_r, <- Z.div_div by lia.
  rewrite Z.div_add_l by lia. rewrite (Z.div_small r) by done. by rewrite Z.add_0_r.
Qed.

Lemma byte_of_low j k a r : 0 <= k < j -> byte_of k (a * 2 ^ (8 * j) + r) = byte_of k r.
Proof.
  intros Hk. unfold byte_of. replace (8 * j) with (8 * (j - k - 1) + (8 + 8 * k)) by lia. rewrite !Z.pow_add_r by lia.
  replace (a * (2 ^ (8 * (j - k - 1)) * (2 ^ 8 * 2 ^ (8 * k))) + r) with (a * 2 ^ (8 * (j - k - 1)) * 256 * 2 ^ (8 * k) + r) by ring.
  rewrite Z.div_add_l by lia. by rewrite Z.add_comm, Z.mod_add.
Qed.

Lemma put32 d v : (4 <= length d)%nat ->
  exists d', bigEndian_PutUint32 d (v * 2 ^ 8) = Val d' /\ length d' = length d /\ take 3 d' = bytes_of v.
Proof.
  intros Hd. exists (order_bytes true 4 (v * 2 ^ 8) ++ drop 4 d).
  split; [eapply (put_spec 4 true); [|done]; unfold byte_orders; do 4 right; left|].
  unfold order_bytes. rewrite length_app, length_rev, length_to_le, length_drop. split; [lia|].
  rewrite to_le_bytes4. cbn [rev app take]. unfold bytes_of.
  rewrite (byte_word 3 _ ltac:(lia) : u8 (_ >>. 24) = _), (byte_word 2 _ ltac:(lia) : u8 (_ >>. 16) = _),
    (byte_word 1 _ ltac:(lia) : u8 (_ >>. 8) = _).
  assert (B : forall k, 0 <= k -> byte_of (1 + k) (v * 2 ^ 8) = byte_of k v).
  { intros k Hk. rewrite <- (Z.add_0_r (v * 2 ^ 8)). by apply (byte_of_high 1). }
  by rewrite <- !B.
Qed.

Lemma put64 d v w : (8 <= length d)%nat -> is_uint 24 w ->
  exists d', bigEndian_PutUint64 d (v * 2 ^ 40 + w * 2 ^ 16) = Val d' /\ length d' = length d /\ take 6 d' = bytes_of v ++ bytes_of w.
Proof.
  intros Hd Hw. set (x := v * 2 ^ 40 + w * 2 ^ 16). exists (order_bytes true 8 x ++ drop 8 d).
  split; [eapply (put_spec 8 true); [|done]; unfold byte_orders; do 5 right; left|].
  unfold order_bytes. rewrite length_app, length_rev, length_to_le, length_drop. split; [lia|].
  rewrite to_le_bytes8. cbn [rev app take]. unfold bytes_of.
  rewrite (byte_word 7 _ ltac:(lia) : u8 (_ >>. 56) = _), (byte_word 6 _ ltac:(lia) : u8 (_ >>. 48) = _),
    (byte_word 5 _ ltac:(lia) : u8 (_ >>. 40) = _), (byte_word 4 _ ltac:(lia) : u8 (_ >>. 32) = _),
    (byte_word 3 _ ltac:(lia) : u8 (_ >>. 24) = _), (byte_word 2 _ ltac:(lia) : u8 (_ >>. 16) = _).
  assert (Hx : x = (v * 2 ^ (8 * 3) + w) * 2 ^ (8 * 2) + 0) by (unfold x; lia).
  assert (B : forall k, 0 <= k -> byte_of (2 + k) x = byte_of k (v * 2 ^ (8 * 3) + w)).
  { intros k Hk. rewrite Hx. by apply (byte_of_high 2). }
  rewrite (B 5 ltac:(done) : byte_of 7 x = _), (B 4 ltac:(done) : byte_of 6 x = _), (B 3 ltac:(done) : byte_of 5 x = _),
    (B 2 ltac:(done) : byte_of 4 x = _), (B 1 ltac:(done) : byte_of 3 x = _), (B 0 ltac:(done) : byte_of 2 x = _).
  pose proof (λ (k : Z) (Hk : 0 <= k), byte_of_high 3 k v w ltac:(done) Hk Hw) as H.
  rewrite (H 2 ltac:(done) : byte_of 5 _ = _), (H 1 ltac:(done) : byte_of 4 _ = _), (H 0 ltac:(done) : byte_of 3 _ = _).
  by rewrite !byte_of_low by lia.
Qed.

(** A turn that writes the bytes of whole quanta. *)
Lemma fast_turn_ok dst si n d bs k (m := Z.of_nat k) : room (zlen dst) si n -> si + 4 * m <= L -> 0 < m -> zlen bs = 3 * m ->
  length d = length (drop (Z.to_nat n) dst) -> take (length bs) d = bs ->
  (from_ si = let '(rest, e) := from_ (si + 4 * m) in (bs ++ rest, e)) ->
  turned dst si n (Val (take (Z.to_nat n) dst ++ d, si + 4 * m, n + 3 * m, None)).
Proof.
  intros (HD & Hs & Hn & Hk) HL Hm Hbs Hd Ht Hf. destruct (Hk ltac:(lia)) as (j & -> & Hj).
  destruct (prefix_written dst d bs (3 * j)) as [H1 H2]; [lia|done|done|]. rewrite <- Hbs.
  eexists _, _, _, None, bs. split; [reflexivity|]. split; [done|]. split; [done|]. split; [done|].
  split; [lia|]. split; [|done]. rewrite Hbs. split; [done|]. split; [lia|].
  unfold DecodedLen in HD. rewrite !Z.quot_div_nonneg in HD by lia.
  split; [destruct (padChar enc =? NoPadding); dlia|]. intros _. exists (j + m). lia.
Qed.

Lemma turn4_ok dst si n : 4 <= L - si -> 4 <= zlen dst - n -> room (zlen dst) si n -> turned dst si n (turn4 enc dst src si n).
Proof.
  intros HL HD Hr. pose proof Hr as (_ & Hs & Hn & _). unfold turn4. rewrite Z.add_0_r.
  destruct (digit_at_ok si) as (c0 & -> & E0 & M0); [lia|]. destruct (digit_at_ok (si + 1)) as (c1 & -> & E1 & M1); [lia|].
  destruct (digit_at_ok (si + 2)) as (c2 & -> & E2 & M2); [lia|]. destruct (digit_at_ok (si + 3)) as (c3 & -> & E3 & M3); [lia|].
  cbn [mbind outcome_bind].
  destruct (assemble32_spec _ _ _ _ M0 M1 M2 M3) as [->|(D0 & D1 & D2 & D3 & -> & Hv)]; [apply slow_turn_ok; [lia|done]|].
  destruct (put32 (drop (Z.to_nat n) dst) (value [tab (decodeMap enc) c0; tab (decodeMap enc) c1; tab (decodeMap enc) c2; tab (decodeMap enc) c3]))
    as (d & Ep & Hd & Ht); [rewrite length_drop; lia|].
  rewrite (at_offset_val _ _ _ d tt); [|lia|by rewrite Ep]. cbn [mbind outcome_bind].
  apply (fast_turn_ok dst si n d (bytes_of _) 1 Hr ltac:(lia) ltac:(lia) eq_refl Hd Ht).
  apply from_quad; (done || lia).
Qed.

Lemma turn8_ok dst si n : 8 <= L - si -> 8 <= zlen dst - n -> room (zlen dst) si n -> turned dst si n (turn8 enc dst src si n).
Proof.
  intros HL HD Hr. pose proof Hr as (_ & Hs & Hn & _). unfold turn8. rewrite Z.add_0_r.
  destruct (digit_at_ok si) as (c0 & -> & E0 & M0); [lia|]. destruct (digit_at_ok (si + 1)) as (c1 & -> & E1 & M1); [lia|].
  destruct (digit_at_ok (si + 2)) as (c2 & -> & E2 & M2); [lia|]. destruct (digit_at_ok (si + 3)) as (c3 & -> & E3 & M3); [lia|].
  destruct (digit_at_ok (si + 4)) as (c4 & -> & E4 & M4); [lia|]. destruct (digit_at_ok (si + 5)) as (c5 & -> & E5 & M5); [lia|].
  destruct (digit_at_ok (si + 6)) as (c6 & -> & E6 & M6); [lia|]. destruct (digit_at_ok (si + 7)) as (c7 & -> & E7 & M7); [lia|].
  cbn [mbind outcome_bind].
  match goal with |- context [assemble64 ?a ?b ?c ?d ?e ?f ?g ?h] => destruct (assemble64_spec a b c d e f g h) as [->|(D & -> & Hv & Hw)] end.
  { do 8 (apply Forall_cons_2; [done|]). constructor. }
  { apply slow_turn_ok; [lia|done]. }
  rewrite !Forall_cons in D. destruct D as (D0 & D1 & D2 & D3 & D4 & D5 & D6 & D7 & _).
  match goal with |- context [bigEndian_PutUint64 _ (?v * _ + ?w * _)] => destruct (put64 (drop (Z.to_nat n) dst) v w) as (d & Ep & Hd & Ht);
    [rewrite length_drop; lia|done|] end.
  rewrite (at_offset_val _ _ _ d tt); [|lia|by rewrite Ep]. cbn [mbind outcome_bind].
  apply (fast_turn_ok dst si n d (bytes_of _ ++ bytes_of _) 2 Hr ltac:(lia) ltac:(lia) eq_refl Hd Ht).
  rewrite (from_quad si c0 c1 c2 c3), (from_quad (si + 4) c4 c5 c6 c7); rewrite <- ?Z.add_assoc; try (done || lia).
  change (4 + 4) with (4 * Z.of_nat 2). destruct (from_ _). by rewrite <- app_assoc.
Qed.

(** A loop of turns from a state that leaves room. *)
Lemma decode_loop_ok test turn fuel : forall dst si n,
  (forall dst' si n, zlen dst' = zlen dst -> test si n = true -> room (zlen dst') si n -> turned dst' si n (turn dst' si n)) ->
  room (zlen dst) si n -> L - si < Z.of_nat fuel ->
  exists dst' si' n' err bs, decode_loop fuel test turn dst si n = Val (dst', si', n', err)
    /\ length dst' = length dst /\ n' = n + zlen bs /\ take (Z.to_nat n') dst' = take (Z.to_nat n) dst ++ bs
    /\ match err with
       | Some e => from_ si = (bs, Some e) /\ n' <= zlen dst
       | None => test si' n' = false /\ room (zlen dst) si' n' /\ from_ si = let '(rest, e) := from_ si' in (bs ++ rest, e)
       end.
Proof.
  induction fuel as [|fuel IH]; intros dst si n Hturn Hr Hf; [unfold room in Hr; lia|]. cbn [decode_loop].
  destruct (test si n) eqn:Et.
  2:{ exists dst, si, n, None, []. split; [done|]. split; [done|]. split; [cbn [length]; lia|]. rewrite app_nil_r. split; [done|].
      split; [done|]. split; [done|]. by destruct (from_ si). }
  destruct (Hturn dst si n) as (dst1 & si1 & n1 & err & bs & -> & Hl & Hn & Ht & Herr); [done..|]. cbn [mbind outcome_bind].
  destruct err as [e|]; [exists dst1, si1, n1, (Some e), bs; done|]. destruct Herr as (Hlt & Hr1 & Hfr).
  destruct (IH dst1 si1 n1) as (dst2 & si2 & n2 & err & bs' & -> & Hl2 & Hn2 & Ht2 & Herr2);
    [intros; apply Hturn; (done || congruence)|by rewrite Hl|lia|].
  exists dst2, si2, n2, err, (bs ++ bs'). split; [done|]. split; [congruence|]. split; [rewrite zlen_app; lia|].
  split; [by rewrite Ht2, Ht, app_assoc|]. rewrite Hfr. destruct err as [e|].
  - destruct Herr2 as [-> ?]. split; [done|lia].
  - destruct Herr2 as (? & ? & ->). rewrite Hl in *. split; [done|]. split; [done|]. destruct (from_ si2). by rewrite app_assoc.
Qed.

(** Decode into a long enough slice is the decoding quantum by quantum. *)
Lemma b64_Decode_spec dst : DecodedLen enc L <= zlen dst ->
  exists dst', Decode enc dst src = Val (dst', zlen (fst decoded), snd decoded)
  /\ length dst' = length dst /\ take (length (fst decoded)) dst' = fst decoded.
Proof.
  intros HD. unfold Decode. change decoded with (from_ 0). destruct (Z.eqb_spec L 0) as [E|Hn].
  { rewrite from_end by lia. by exists dst. }
  assert (R0 : room (zlen dst) 0 0) by (split; [done|]; split; [lia|]; split; [lia|]; intros _; exists 0; lia).
  match goal with |- context [decode_loop ?f ?t ?u dst 0 0] => destruct (decode_loop_ok t u f dst 0 0) as (d1 & s1 & n1 & e1 & b1 & -> & Hl1 & Hn1 & Ht1 & H1) end.
  { intros d s k Hd [?%Z.leb_le ?%Z.leb_le]%andb_true_iff Hr. apply turn8_ok; [lia|lia|done]. }
  { done. }
  { lia. }
  cbn [mbind outcome_bind]. change (take (Z.to_nat 0) dst) with (@nil Z) in Ht1. cbn [app] in Ht1.
  destruct e1 as [e|].
  { destruct H1 as [-> ?]. exists d1. cbn [fst snd]. subst n1. replace (Z.to_nat (0 + zlen b1)) with (length b1) in Ht1 by lia. done. }
  destruct H1 as (_ & Hr1 & ->).
  match goal with |- context [decode_loop ?f ?t ?u d1 s1 n1] => destruct (decode_loop_ok t u f d1 s1 n1) as (d2 & s2 & n2 & e2 & b2 & -> & Hl2 & Hn2 & Ht2 & H2) end.
  { intros d s k Hd [?%Z.leb_le ?%Z.leb_le]%andb_true_iff Hr. rewrite <- Hl1, <- Hd in *. apply turn4_ok; [lia|lia|done]. }
  { by rewrite Hl1. }
  { unfold room in Hr1. lia. }
  cbn [mbind outcome_bind]. rewrite Ht1 in Ht2.
  assert (E12 : Z.to_nat n2 = length (b1 ++ b2)) by (rewrite length_app; lia). rewrite E12 in Ht2.
  destruct e2 as [e|].
  { destruct H2 as [-> ?]. exists d2. cbn [fst snd]. split; [|split; [congruence|done]]. f_equal. f_equal. f_equal. rewrite length_app. lia. }
  destruct H2 as (_ & Hr2 & ->).
  match goal with |- context [decode_loop ?f ?t ?u d2 s2 n2] => destruct (decode_loop_ok t u f d2 s2 n2) as (d3 & s3 & n3 & e3 & b3 & -> & Hl3 & Hn3 & Ht3 & H3) end.
  { intros d s k Hd Hlt%Z.ltb_lt Hr. by apply slow_turn_ok. }
  { by rewrite Hl2. }
  { unfold room in Hr2. lia. }
  cbn [mbind outcome_bind]. rewrite E12, Ht2 in Ht3.
  assert (E123 : Z.to_nat n3 = length ((b1 ++ b2) ++ b3)) by (rewrite !length_app in *; lia). rewrite E123 in Ht3.
  exists d3. destruct e3 as [e|]; [destruct H3 as [-> ?]|destruct H3 as (Hge%Z.ltb_ge & _ & ->); rewrite from_end by done; rewrite app_nil_r];
    cbn [fst snd]; rewrite (app_assoc b1); (split; [|split; [congruence|done]]); f_equal; f_equal; f_equal; rewrite !length_app; lia.
Qed.

Lemma DecodedLen_nonneg n : 0 <= n -> 0 <= DecodedLen enc n.
Proof. intros Hn. unfold DecodedLen. rewrite !Z.quot_div_nonneg by lia. destruct (_ =? _); dlia. Qed.

Lemma b64_DecodeString_spec : DecodeString enc src = Val decoded.
Proof.
  pose proof (DecodedLen_nonneg L ltac:(lia)) as H0. unfold DecodeString.
  destruct (b64_Decode_spec (make 0 (DecodedLen enc L))) as (dst' & -> & Hl & Ht); [by rewrite length_make|].
  cbn [mbind outcome_bind]. assert (Hle : (length (fst decoded) <= length dst')%nat) by (rewrite <- Ht, length_take; lia).
  rewrite slice_take by lia. cbn [mbind outcome_bind]. rewrite Nat2Z.id, Ht. by destruct decoded.
Qed.

(** ** Decoding an encoding *)

(** What the decoder sees from an index on: the characters that are not newlines. *)
Definition strip (l : list Z) : list Z := filter (λ c, newline c = false) l.
Definition text (si : Z) : list Z := strip (drop (Z.to_nat si) src).

Lemma strip_newlines l : strip l = [] -> Forall (λ c, newline c = true) l.
Proof.
  unfold strip. induction l as [|c l IH]; [done|]. cbn [filter list_filter]. case_decide as E; [done|].
  intros H. constructor; [by destruct (newline c)|auto].
Qed.

Lemma strip_cons l c cs : strip l = c :: cs ->
  exists ws rest, l = ws ++ c :: rest /\ Forall (λ c, newline c = true) ws /\ newline c = false /\ strip rest = cs.
Proof.
  unfold strip. induction l as [|x l IH]; [done|]. cbn [filter list_filter]. case_decide as E.
  - injection 1 as -> <-. exists [], l. done.
  - intros H. destruct (IH H) as (ws & rest & -> & Hw & Hc & Hr). exists (x :: ws), rest.
    split; [done|]. split; [|done]. constructor; [by destruct (newline x)|done].
Qed.

Lemma index_drop si l : 0 <= si -> drop (Z.to_nat si) src = l -> si + zlen l <= L -> forall i c, l !! i = Some c -> index src (si + Z.of_nat i) = Val c.
Proof.
  intros Hs <- _ i c Hi. rewrite lookup_drop in Hi. apply index_Val; [lia|]. by replace (Z.to_nat (si + Z.of_nat i)) with (Z.to_nat si + i)%nat by lia.
Qed.

(** The newlines in front of what follows. *)
Lemma drop_newlines si ws rest : 0 <= si <= L -> drop (Z.to_nat si) src = ws ++ rest -> si + zlen ws <= L /\ drop (Z.to_nat (si + zlen ws)) src = rest.
Proof.
  intros Hs E. assert (H : length (drop (Z.to_nat si) src) = length (ws ++ rest)) by (by rewrite E).
  rewrite length_drop, length_app in H. split; [lia|].
  replace (Z.to_nat (si + zlen ws)) with (Z.to_nat si + length ws)%nat by lia. rewrite <- drop_drop, E. by rewrite drop_app_length.
Qed.

Lemma drop_head si c rest : 0 <= si <= L -> drop (Z.to_nat si) src = c :: rest -> si < L /\ index src si = Val c /\ drop (Z.to_nat (si + 1)) src = rest.
Proof.
  intros Hs E. destruct (drop_newlines si [c] rest Hs E) as [H1 H2]. cbn [length] in *. split; [lia|]. split; [|done].
  apply index_Val; [lia|]. rewrite <- (Nat.add_0_r (Z.to_nat si)), <- lookup_drop, E. done.
Qed.

Lemma loop_newlines ws : forall si fuel j dbuf rest, 0 <= si <= L -> 0 <= j < 4 -> Forall (λ c, newline c = true) ws ->
  drop (Z.to_nat si) src = ws ++ rest ->
  quantum_loop enc (length ws + fuel) src si j dbuf = quantum_loop enc fuel src (si + zlen ws) j dbuf.
Proof.
  induction ws as [|w ws IH]; intros si fuel j dbuf rest Hs Hj Hw E; cbn [length Nat.add]; [by rewrite Z.add_0_r|].
  apply Forall_cons in Hw as [Hw Hws]. destruct (drop_head si w (ws ++ rest) Hs E) as (Hlt & Ei & Ed).
  cbn [quantum_loop]. rewrite (proj2 (Z.ltb_lt _ _)), (proj2 (Z.eqb_neq L si)), Ei by lia. cbn [mbind outcome_bind].
  rewrite (ok_newline _ Henc) by done. cbn [negb Z.eqb Pos.eqb]. rewrite Hw, (IH _ _ _ _ rest) by (done || lia). f_equal. lia.
Qed.

Lemma skip_newlines_ok ws : forall si fuel rest, 0 <= si <= L -> Forall (λ c, newline c = true) ws ->
  drop (Z.to_nat si) src = ws ++ rest -> (forall c rest', rest = c :: rest' -> newline c = false) -> (length ws < fuel)%nat ->
  skip_newlines fuel src si = Val (si + zlen ws).
Proof.
  induction ws as [|w ws IH]; intros si fuel rest Hs Hw E Hr Hf; (destruct fuel as [|fuel]; [cbn [length] in Hf; lia|]); cbn [skip_newlines].
  - cbn [app length] in *. rewrite Z.add_0_r. destruct rest as [|c rest].
    + destruct (drop_newlines si [] [] Hs E) as [_ E']. rewrite (proj2 (Z.ltb_ge _ _)); [done|].
      assert (H : length (drop (Z.to_nat si) src) = 0%nat) by (by rewrite E). rewrite length_drop in H. lia.
    + destruct (drop_head si c rest Hs E) as (Hlt & -> & _). rewrite (proj2 (Z.ltb_lt _ _)) by lia. cbn [mbind outcome_bind].
      by rewrite (Hr c rest).
  - apply Forall_cons in Hw as [Hw Hws]. destruct (drop_head si w (ws ++ rest) Hs E) as (Hlt & -> & Ed).
    rewrite (proj2 (Z.ltb_lt _ _)) by lia. cbn [mbind outcome_bind length] in *. rewrite Hw, (IH _ _ rest) by (done || lia). f_equal. lia.
Qed.

(** [fuel] suffices from [si]. *)
Definition fueled (fuel : nat) (si : Z) : Prop := L - si + 1 < Z.of_nat fuel.

Lemma loop_char fuel si j dbuf d cs : 0 <= si <= L -> 0 <= j < 4 -> length dbuf = 4%nat -> is_uint 6 d -> text si = char_ enc d :: cs -> fueled fuel si ->
  exists fuel' si', si < si' <= L /\ fueled fuel' si' /\ text si' = cs
  /\ quantum_loop enc fuel src si j dbuf = quantum_loop enc fuel' src si' (j + 1) (<[Z.to_nat j := d]> dbuf).
Proof.
  unfold fueled. intros Hs Hj Hl Hd Ht Hf. apply strip_cons in Ht as (ws & rest & E & Hw & Hc & Hr).
  destruct (drop_newlines si ws _ Hs E) as [Hs1 E1]. destruct (drop_head (si + zlen ws) _ _ ltac:(lia) E1) as (Hlt & Ei & E2).
  exists (fuel - length ws - 1)%nat, (si + zlen ws + 1). split; [lia|]. split; [lia|]. split; [unfold text; by rewrite E2|].
  replace fuel with (length ws + S (fuel - length ws - 1))%nat at 1 by lia.
  rewrite (loop_newlines ws _ _ _ _ (char_ enc d :: rest)), (quantum_digit _ _ _ _ (char_ enc d)) by (rewrite ?(ok_inverse _ Henc) by done; (done || unfold is_uint in *; lia)).
  by rewrite (ok_inverse _ Henc).
Qed.

Lemma loop_end fuel si j dbuf : 0 <= si <= L -> 0 <= j < 4 -> text si = [] -> fueled fuel si ->
  exists fuel', quantum_loop enc fuel src si j dbuf = quantum_loop enc (S fuel') src L j dbuf.
Proof.
  unfold fueled. intros Hs Hj Ht Hf. apply strip_newlines in Ht. exists (fuel - (length src - Z.to_nat si) - 1)%nat.
  set (ws := drop (Z.to_nat si) src) in *. assert (El : length ws = (length src - Z.to_nat si)%nat) by (unfold ws; by rewrite length_drop).
  replace fuel with (length ws + S (fuel - length ws - 1))%nat at 1 by lia.
  rewrite (loop_newlines ws _ _ _ _ []) by (done || by rewrite app_nil_r). rewrite El. f_equal. lia.
Qed.

Lemma loop_pad fuel si j dbuf cs : 0 <= si <= L -> 0 <= j < 4 -> is_byte (padChar enc) -> tab (decodeMap enc) (padChar enc) = 255 ->
  text si = padChar enc :: cs -> fueled fuel si ->
  exists si', si < si' <= L /\ text si' = cs /\ quantum_loop enc fuel src si j dbuf = padding_case enc src si' j dbuf.
Proof.
  unfold fueled. intros Hs Hj Hp Hd Ht Hf. apply strip_cons in Ht as (ws & rest & E & Hw & Hc & Hr).
  destruct (drop_newlines si ws _ Hs E) as [Hs1 E1]. destruct (drop_head (si + zlen ws) _ _ ltac:(lia) E1) as (Hlt & Ei & E2).
  exists (si + zlen ws + 1). split; [lia|]. split; [unfold text; by rewrite E2|].
  replace fuel with (length ws + S (fuel - length ws - 1))%nat at 1 by lia.
  rewrite (loop_newlines ws _ _ _ _ (padChar enc :: rest)) by done. cbn [quantum_loop].
  rewrite (proj2 (Z.ltb_lt _ _)), (proj2 (Z.eqb_neq L _)), Ei by lia. cbn [mbind outcome_bind].
  rewrite Hd, Hc, (Z.eqb_refl (padChar enc)). done.
Qed.

Lemma skip_end si : 0 <= si <= L -> text si = [] -> skip src si = Val L.
Proof.
  intros Hs Ht. apply strip_newlines in Ht. unfold skip. rewrite (skip_newlines_ok (drop (Z.to_nat si) src) _ _ []); try done.
  - rewrite length_drop. f_equal. lia.
  - by rewrite app_nil_r.
  - rewrite length_drop. lia.
Qed.

Lemma skip_char si c cs : 0 <= si <= L -> text si = c :: cs ->
  exists si', skip src si = Val si' /\ si <= si' < L /\ index src si' = Val c /\ text (si' + 1) = cs.
Proof.
  intros Hs Ht. apply strip_cons in Ht as (ws & rest & E & Hw & Hc & Hr).
  destruct (drop_newlines si ws _ Hs E) as [Hs1 E1]. destruct (drop_head (si + zlen ws) _ _ ltac:(lia) E1) as (Hlt & Ei & E2).
  exists (si + zlen ws). unfold skip. rewrite (skip_newlines_ok ws _ _ (c :: rest)); try done.
  - split; [done|]. split; [lia|]. split; [done|]. unfold text. by rewrite E2.
  - by intros ? ? [= <- _].
  - lia.
Qed.

Lemma digits_group v : is_uint 24 v -> value [digit 3 v; digit 2 v; digit 1 v; digit 0 v] = v.
Proof. unfold is_uint, value, digit. intros Hv. cbn [Z.mul Pos.mul]. dlia. Qed.

Lemma digit_uint k v : is_uint 6 (digit k v).
Proof. unfold digit. apply wrap_is_uint. lia. Qed.

Lemma bytes_group a b c : is_byte a -> is_byte b -> is_byte c ->
  byte_of 2 (group a b c) = a /\ byte_of 1 (group a b c) = b /\ byte_of 0 (group a b c) = c.
Proof. unfold is_uint, group, byte_of. intros Ha Hb Hc. cbn [Z.mul Pos.mul]. split; [|split]; dlia. Qed.

(** The end of the text after two or three digits: nothing more, or the padding. *)
Lemma quantum_tail fuel si j dbuf : 0 <= si <= L -> 2 <= j < 4 -> text si = padding enc (4 - Z.to_nat j) -> fueled fuel si ->
  quantum_loop enc fuel src si j dbuf = Val (QBreak L j dbuf None).
Proof.
  unfold padding. intros Hs Hj Ht Hf. destruct (Z.eqb_spec (padChar enc) NoPadding) as [Ep|Ep].
  - destruct (loop_end fuel si j dbuf) as (fuel' & ->); [done|lia|done|done|]. cbn [quantum_loop].
    rewrite (proj2 (Z.ltb_lt _ _)), Z.eqb_refl, (proj2 (Z.eqb_neq j 0)), (proj2 (Z.eqb_neq j 1)), (proj2 (Z.eqb_eq _ _) Ep) by lia. done.
  - destruct (ok_padding _ Henc) as [|(Hp & Hd & Hn)]; [done|]. rewrite wrap_small in Ht by done.
    assert (j = 2 \/ j = 3) as [->| ->] by lia; cbn [replicate Nat.sub Z.to_nat Pos.to_nat] in Ht.
    + change (replicate (4 - Z.to_nat 2) (padChar enc)) with [padChar enc; padChar enc] in Ht.
      destruct (loop_pad fuel si 2 dbuf [padChar enc]) as (s1 & Hs1 & Ht1 & ->); [done|lia|done..|].
      unfold padding_case. cbn [Z.eqb orb Pos.eqb]. destruct (skip_char s1 (padChar enc) []) as (s2 & -> & Hs2 & Ei & Ht2); [lia|done|].
      cbn [mbind outcome_bind]. rewrite (proj2 (Z.eqb_neq s2 L)), Ei by lia. cbn [mbind outcome_bind]. rewrite Z.eqb_refl. cbn [negb].
      rewrite skip_end by (done || lia). cbn [mbind outcome_bind]. by rewrite Z.ltb_irrefl.
    + change (replicate (4 - Z.to_nat 3) (padChar enc)) with [padChar enc] in Ht.
      destruct (loop_pad fuel si 3 dbuf []) as (s1 & Hs1 & Ht1 & ->); [done|lia|done..|].
      unfold padding_case. cbn [Z.eqb orb Pos.eqb]. rewrite skip_end by (done || lia). cbn [mbind outcome_bind]. by rewrite Z.ltb_irrefl.
Qed.

Lemma digits_group1 a : is_byte a -> value [digit 3 (group a 0 0); digit 2 (group a 0 0); 0; 0] = group a 0 0.
Proof. unfold is_uint, value, digit, group. intros Ha. cbn [Z.mul Pos.mul]. dlia. Qed.

Lemma digits_group2 a b : is_byte a -> is_byte b ->
  value [digit 3 (group a b 0); digit 2 (group a b 0); digit 1 (group a b 0); 0] = group a b 0.
Proof. unfold is_uint, value, digit, group. intros Ha Hb. cbn [Z.mul Pos.mul]. dlia. Qed.

Lemma text_end si : 0 <= si <= L -> text si <> [] -> 0 <= si < L.
Proof.
  intros Hs Ht. destruct (Z.eq_dec si L) as [->|]; [|lia]. destruct Ht. unfold text. by rewrite drop_ge by lia.
Qed.

(** Taking a digit of the text. *)
Ltac char_step Ht s :=
  let Ht' := fresh in
  match goal with |- quantum_loop _ ?f _ ?s0 ?j ?d = _ -> _ =>
    edestruct (loop_char f s0 j d) as (? & s & ? & ? & Ht' & ->);
      [eassumption || lia|lia|reflexivity|apply digit_uint|exact Ht|eassumption|clear Ht; rename Ht' into Ht]
  end.

Lemma from_encoded out : forall si, 0 <= si <= L -> bytes_ok out -> text si = encoded enc out -> from_ si = (out, None).
Proof.
  assert (HF : forall si, 0 <= si <= L -> fueled (S (S (length src))) si) by (unfold fueled; lia).
  induction out as [|a|a b|a b c out IH] using list_ind3; intros si Hs Hb Ht; cbn [encoded] in Ht; specialize (HF si Hs).
  - destruct (Z.eq_dec si L); [rewrite from_end; (done || lia)|]. destruct (from_step si) as (q & Eq & _ & ->); [lia|].
    destruct (loop_end (S (S (length src))) si 0 (make 0 4)) as (fuel' & E); [done|lia|done|done|]. rewrite E in Eq.
    cbn [quantum_loop Z.ltb Z.compare] in Eq. rewrite Z.eqb_refl in Eq. injection Eq as <-. cbn [emit]. by rewrite from_end.
  - apply Forall_cons in Hb as [Ha _]. destruct (bytes_group a 0 0) as (B2 & B1 & B0); [done..|].
    destruct (from_step si) as (q & Eq & _ & ->); [apply text_end; [done|by rewrite Ht]|]. revert Eq. change (make 0 4) with [0; 0; 0; 0].
    char_step Ht s1. char_step Ht s2. rewrite quantum_tail by (done || lia). injection 1 as <-. change (0 + 1 + 1) with 2.
    change (<[_:=_]> (<[_:=_]> [0; 0; 0; 0])) with [digit 3 (group a 0 0); digit 2 (group a 0 0); 0; 0].
    cbn [emit Z.eqb Pos.eqb]. rewrite digits_group1, B0, B1, B2 by done. cbn [Z.eqb negb orb]. rewrite andb_false_r.
    cbn iota beta. by rewrite from_end.
  - apply Forall_cons in Hb as [Ha Hb]. apply Forall_cons in Hb as [Hb _]. destruct (bytes_group a b 0) as (B2 & B1 & B0); [done..|].
    destruct (from_step si) as (q & Eq & _ & ->); [apply text_end; [done|by rewrite Ht]|]. revert Eq. change (make 0 4) with [0; 0; 0; 0].
    char_step Ht s1. char_step Ht s2. char_step Ht s3. rewrite quantum_tail by (done || lia). injection 1 as <-. change (0 + 1 + 1 + 1) with 3.
    change (<[_:=_]> (<[_:=_]> (<[_:=_]> [0; 0; 0; 0]))) with [digit 3 (group a b 0); digit 2 (group a b 0); digit 1 (group a b 0); 0].
    cbn [emit Z.eqb Pos.eqb]. rewrite digits_group2, B0, B1, B2 by done. cbn [Z.eqb negb orb]. rewrite andb_false_r.
    cbn iota beta. by rewrite from_end.
  - apply Forall_cons in Hb as [Ha Hb]. apply Forall_cons in Hb as [Hb1 Hb]. apply Forall_cons in Hb as [Hc Hb].
    destruct (bytes_group a b c) as (B2 & B1 & B0); [done..|]. destruct (group_word a b c) as [_ Hv]; [done..|].
    destruct (from_step si) as (q & Eq & _ & ->); [apply text_end; [done|by rewrite Ht]|]. revert Eq. change (make 0 4) with [0; 0; 0; 0].
    char_step Ht s1. char_step Ht s2. char_step Ht s3. char_step Ht s4.
    match goal with H : fueled ?f s4 |- _ => unfold fueled in H; destruct f as [|f]; [lia|] end. cbn [quantum_loop].
    change (0 + 1 + 1 + 1 + 1 <? 4) with false. cbn iota. injection 1 as <-.
    change (<[_:=_]> (<[_:=_]> (<[_:=_]> (<[_:=_]> [0; 0; 0; 0])))) with [digit 3 (group a b c); digit 2 (group a b c); digit 1 (group a b c); digit 0 (group a b c)].
    cbn [emit Z.eqb Pos.eqb]. rewrite digits_group, B0, B1, B2, (IH s4) by (done || lia). done.
Qed.

Lemma decoded_encoded out : bytes_ok out -> strip src = encoded enc out -> decoded = (out, None).
Proof. intros Hb Ht. apply (from_encoded out 0); [lia|done|done]. Qed.

(** ** What a strict decoder accepts *)

Lemma text_L : text L = [].
Proof. unfold text. by rewrite drop_ge by lia. Qed.

Lemma text_cons si c : 0 <= si -> index src si = Val c -> text si = if newline c then text (si + 1) else c :: text (si + 1).
Proof.
  unfold index. intros Hs. rewrite decide_True by done. destruct (src !! Z.to_nat si) as [x|] eqn:E; [|done]. intros [= ->].
  unfold text. rewrite (drop_S _ _ _ E). replace (Z.to_nat (si + 1)) with (S (Z.to_nat si)) by lia.
  unfold strip. cbn [filter list_filter]. case_decide as H; [by rewrite H|by destruct (newline c)].
Qed.

Lemma padding_inv s j dbuf s' dlen dbuf' : 0 <= s <= L -> 0 <= j < 4 -> is_byte (padChar enc) ->
  padding_case enc src s j dbuf = Val (QBreak s' dlen dbuf' None) ->
  2 <= j /\ s' = L /\ dlen = j /\ dbuf' = dbuf /\ text s = replicate (3 - Z.to_nat j) (padChar enc).
Proof.
  assert (F : forall t, 0 <= t <= L -> (si ← skip src t; Val (QBreak si j dbuf (if si <? L then Some si else None))) = Val (QBreak s' dlen dbuf' None) ->
    s' = L /\ dlen = j /\ dbuf' = dbuf /\ text t = []).
  { intros t Ht. destruct (text t) as [|c cs] eqn:E.
    - rewrite skip_end by done. cbn [mbind outcome_bind]. rewrite Z.ltb_irrefl. by intros [= <- <- <-].
    - destruct (skip_char t c cs) as (t' & -> & Ht' & _); [done|done|]. cbn [mbind outcome_bind]. rewrite (proj2 (Z.ltb_lt _ _)) by lia. done. }
  intros Hs Hj Hp. unfold padding_case. assert (j = 0 \/ j = 1 \/ j = 2 \/ j = 3) as [->|[->|[->| ->]]] by lia; cbn [Z.eqb Pos.eqb orb]; [done..| |].
  - destruct (text s) as [|c cs] eqn:E; [rewrite skip_end by done; cbn [mbind outcome_bind]; by rewrite Z.eqb_refl|].
    destruct (skip_char s c cs) as (t & -> & Ht & Ei & Et); [done|done|]. cbn [mbind outcome_bind].
    rewrite (proj2 (Z.eqb_neq t L)), Ei by lia. cbn [mbind outcome_bind]. destruct (Z.eqb_spec c (padChar enc)) as [->|]; cbn [negb]; [|done].
    intros H. apply F in H as (-> & -> & -> & Ht0); [|lia]. rewrite Et in Ht0. by rewrite Ht0.
  - intros H. by apply F in H as (-> & -> & -> & ->).
Qed.

(** The digits a loop has read, in front of the rest of the text. *)
Lemma quantum_inv fuel : forall si j dbuf s' dlen dbuf', 0 <= si <= L -> 0 <= j <= 4 -> length dbuf = 4%nat ->
  quantum_loop enc fuel src si j dbuf = Val (QBreak s' dlen dbuf' None) ->
  exists ds, Forall (is_uint 6) ds /\ zlen ds = dlen - j /\ dbuf' = take (Z.to_nat j) dbuf ++ ds ++ drop (Z.to_nat dlen) dbuf
    /\ text si = map (char_ enc) ds ++ if dlen =? 4 then text s' else padding enc (4 - Z.to_nat dlen).
Proof.
  induction fuel as [|fuel IH]; [done|]. intros si j dbuf s' dlen dbuf' Hs Hj Hl. cbn [quantum_loop].
  destruct (Z.ltb_spec j 4) as [Hj4|Hj4].
  2:{ intros [= <- <- <-]. replace j with 4 by lia. exists []. split; [done|]. split; [done|]. split; [|done]. cbn [app]. by rewrite take_drop. }
  destruct (Z.eqb_spec L si) as [E|Hne].
  { destruct (Z.eqb_spec j 0); [done|]. destruct ((j =? 1) || _) eqn:E1; [done|].
    apply orb_false_iff in E1 as [?%Z.eqb_neq E1]. apply negb_false_iff, Z.eqb_eq in E1. intros [= <- <- <-].
    exists []. split; [done|]. split; [cbn [length]; lia|]. cbn [app map]. rewrite take_drop. split; [done|].
    rewrite (proj2 (Z.eqb_neq j 4)), <- E, text_L by lia. unfold padding. by rewrite E1. }
  destruct (index_src si) as (c & Ei & _ & Hc); [lia|]. rewrite Ei, (text_cons si c) by (done || lia). cbn [mbind outcome_bind].
  destruct (Z.eqb_spec (tab (decodeMap enc) c) 0xff) as [Eff|Hff]; cbn [negb].
  - destruct (newline c); [intros H; apply (IH (si + 1) j); (done || lia)|].
    destruct (Z.eqb_spec c (padChar enc)) as [->|]; cbn [negb]; [|done]. intros H.
    apply padding_inv in H as (Hj2 & -> & -> & -> & ->); [|lia|lia|done].
    exists []. split; [done|]. split; [cbn [length]; lia|]. cbn [app map]. rewrite take_drop. split; [done|].
    rewrite (proj2 (Z.eqb_neq j 4)) by lia. unfold padding. rewrite (wrap_small 8) by done.
    destruct (Z.eqb_spec (padChar enc) NoPadding) as [E|]; [rewrite E in Hc; by destruct Hc|].
    by assert (j = 2 \/ j = 3) as [->| ->] by lia.
  - rewrite store_lt by lia. cbn [mbind outcome_bind]. intros H.
    destruct (newline c) eqn:En; [by rewrite (ok_newline _ Henc) in Hff|].
    destruct (ok_digit _ Henc c Hc) as [|Hd]; [done|].
    apply IH in H as (ds & Hds & Hlen & -> & Et); [|lia|lia|by rewrite length_insert].
    exists (tab (decodeMap enc) c :: ds). split; [by constructor|]. split; [cbn [length]; lia|].
    assert (Hj' : Z.to_nat (j + 1) = S (Z.to_nat j)) by lia.
    rewrite Et, Hj', (take_S_r _ _ (tab (decodeMap enc) c)) by (apply list_lookup_insert_eq; lia).
    rewrite take_insert_ge, drop_insert_lt by lia. split; [by rewrite <- app_assoc|]. cbn [map app].
    by rewrite (ok_char _ Henc).
Qed.

Lemma return_inv fuel : forall si j dbuf s', 0 <= si <= L -> 0 <= j <= 4 -> length dbuf = 4%nat ->
  quantum_loop enc fuel src si j dbuf = Val (QReturn s' None) -> j = 0 /\ text si = [].
Proof.
  induction fuel as [|fuel IH]; [done|]. intros si j dbuf s' Hs Hj Hl. cbn [quantum_loop].
  destruct (Z.ltb_spec j 4) as [Hj4|Hj4]; [|done].
  destruct (Z.eqb_spec L si) as [E|Hne]; [rewrite <- E, text_L; destruct (Z.eqb_spec j 0); [done|by destruct ((j =? 1) || _)]|].
  destruct (index_src si) as (c & Ei & _ & Hc); [lia|]. rewrite Ei, (text_cons si c) by (done || lia). cbn [mbind outcome_bind].
  destruct (_ =? 0xff); cbn [negb].
  - destruct (newline c); [apply IH; (done || lia)|]. destruct (c =? padChar enc); cbn [negb]; [|done]. unfold padding_case.
    destruct (_ || _); [done|]. destruct (j =? 2).
    + destruct (skip _ _) as [t| |]; cbn [mbind outcome_bind]; [|done..]. destruct (_ =? L); [done|].
      destruct (index src t) as [x| |]; cbn [mbind outcome_bind]; [|done..]. destruct (negb _); [done|].
      by destruct (skip _ _).
    + by destruct (skip _ _).
  - rewrite store_lt by lia. cbn [mbind outcome_bind]. intros H. apply IH in H as [? _]; [lia|lia|lia|by rewrite length_insert].
Qed.

Lemma digits_value d0 d1 d2 d3 (v := value [d0; d1; d2; d3]) : is_uint 6 d0 -> is_uint 6 d1 -> is_uint 6 d2 -> is_uint 6 d3 ->
  digit 3 v = d0 /\ digit 2 v = d1 /\ digit 1 v = d2 /\ digit 0 v = d3
  /\ v = group (byte_of 2 v) (byte_of 1 v) (byte_of 0 v).
Proof.
  unfold is_uint, v, value, digit, group, byte_of. intros H0 H1 H2 H3. cbn [Z.mul Pos.mul].
  split; [dlia|]. split; [dlia|]. split; [dlia|]. split; dlia.
Qed.

(** The bytes that an end of the loop yields without an error are those of which the text is the encoding. *)
Lemma emit_inv q s bs : strict enc = true -> quantum_ok 0 0 q -> emit q = (s, bs, None) ->
  match q with
  | QReturn si err => bs = [] /\ s = si /\ err = None
  | QBreak si dlen dbuf err => s = si /\ err = None /\ exists d0 d1 d2 d3, dbuf = [d0; d1; d2; d3] /\ Forall (is_uint 6) dbuf
      /\ forall rest, (dlen < 4 -> rest = []) ->
        encoded enc (bs ++ rest) = map (char_ enc) (take (Z.to_nat dlen) dbuf) ++ if dlen =? 4 then encoded enc rest else padding enc (4 - Z.to_nat dlen)
  end.
Proof.
  destruct q as [si err|si dlen dbuf err]; cbn [quantum_ok emit]; intros Hst Hq; [by intros [= <- <- ->]|].
  destruct Hq as (_ & Hd & [Hl Hdig] & _). destruct dbuf as [|d0 [|d1 [|d2 [|d3 [|]]]]]; try done.
  pose proof Hdig as Hdig'. apply Forall_cons in Hdig' as [H0 Hd']. apply Forall_cons in Hd' as [H1 Hd']. apply Forall_cons in Hd' as [H2 Hd'].
  apply Forall_cons in Hd' as [H3 _]. destruct (digits_value d0 d1 d2 d3) as (D3 & D2 & D1 & D0 & Hv); [done..|].
  set (v := value [d0; d1; d2; d3]) in *. rewrite Hst. cbn [andb].
  assert (dlen = 2 \/ dlen = 3 \/ dlen = 4) as [->|[->| ->]] by lia; cbn [Z.eqb Pos.eqb].
  - destruct (Z.eqb_spec (byte_of 1 v) 0) as [E1|]; [|done]. destruct (Z.eqb_spec (byte_of 0 v) 0) as [E0|]; [|done]. cbn [negb orb].
    intros [= <- <- ->]. split; [done|]. split; [done|]. exists d0, d1, d2, d3. split; [done|]. split; [done|].
    intros rest ->; [|done]. rewrite app_nil_r. cbn [encoded]. rewrite E1, E0 in Hv. rewrite <- Hv, D3, D2. done.
  - destruct (Z.eqb_spec (byte_of 0 v) 0) as [E0|]; [|done]. cbn [negb].
    intros [= <- <- ->]. split; [done|]. split; [done|]. exists d0, d1, d2, d3. split; [done|]. split; [done|].
    intros rest ->; [|done]. rewrite app_nil_r. cbn [encoded]. rewrite E0 in Hv. rewrite <- Hv, D3, D2, D1. done.
  - intros [= <- <- ->]. split; [done|]. split; [done|]. exists d0, d1, d2, d3. split; [done|]. split; [done|].
    intros rest _. cbn [app encoded]. rewrite <- Hv, D3, D2, D1, D0. done.
Qed.

Lemma byte_of_byte k v : is_byte (byte_of k v).
Proof. apply wrap_is_uint. lia. Qed.

Lemma emit_bytes q s bs err : emit q = (s, bs, err) -> bytes_ok bs.
Proof.
  destruct q as [si e|si dlen dbuf e]; cbn [emit]; [by intros [= <- <- <-]|]. repeat case_match; intros [= <- <- <-];
    repeat (constructor; [apply byte_of_byte|]); constructor.
Qed.

Lemma decoded_bytes fuel si : bytes_ok (fst (quanta fuel si)).
Proof.
  revert si. induction fuel as [|fuel IH]; intros si; cbn [quanta]; [constructor|]. destruct (_ <? _); [|constructor].
  destruct (quantum_loop _ _ _ _ _ _) as [q| |]; [|constructor..]. destruct (emit q) as [[s bs] err] eqn:E. apply emit_bytes in E.
  destruct err; [done|]. specialize (IH s). destruct (quanta fuel s). by apply Forall_app.
Qed.

Lemma from_inv (n : nat) : strict enc = true -> forall si out, 0 <= si <= L -> L - si < Z.of_nat n -> from_ si = (out, None) -> text si = encoded enc out.
Proof.
  intros Hst. induction n as [|n IH]; intros si out Hs Hn Hf; [lia|].
  destruct (Z.eq_dec si L) as [->|Hne]; [rewrite from_end in Hf by lia; injection Hf as <-; apply text_L|].
  destruct (from_step si) as (q & Eq & Hq & E); [lia|]. rewrite E in Hf. clear E. destruct (emit q) as [[s bs] [e|]] eqn:Ee; [done|].
  destruct (from_ s) as [rest e] eqn:Er. injection Hf as <- ->. apply emit_inv in Ee; [|done|by destruct q; cbn [quantum_ok] in *; intuition lia].
  destruct q as [si' err|si' dlen dbuf err]; cbn [quantum_ok] in Hq.
  - destruct Ee as (-> & -> & ->). destruct Hq as [_ Hq]. rewrite from_end in Er by (rewrite Hq; done). injection Er as <-.
    by apply return_inv in Eq as [_ Ht].
  - destruct Ee as (-> & -> & d0 & d1 & d2 & d3 & -> & Hdig & He). destruct Hq as (Hs1 & Hd & _ & _ & Hlast).
    apply quantum_inv in Eq as (ds & _ & Hlen & Eds & ->); [|lia|lia|done]. change (take (Z.to_nat 0) (make 0 4)) with (@nil Z) in Eds. cbn [app] in Eds. rewrite Eds in He.
    rewrite He.
    + rewrite take_app_length' by lia. f_equal. destruct (Z.eqb_spec dlen 4); [|done]. apply IH; (done || lia).
    + intros Hlt. rewrite from_end in Er by (rewrite Hlast; done). by injection Er as <-.
Qed.

Lemma decoded_inv out : strict enc = true -> decoded = (out, None) -> strip src = encoded enc out.
Proof. intros Hst H. apply (from_inv (S (length src)) Hst 0 out); [lia|lia|done]. Qed.
End Decoder.

(** ** The encodings that the package builds *)

Lemma tab_lookup (l : list Z) k c : 0 <= k -> l !! Z.to_nat k = Some c -> tab l k = c.
Proof. intros Hk H. unfold tab. by erewrite nth_lookup_Some. Qed.

Lemma tab_insert (l : list Z) i x c : 0 <= i < zlen l -> 0 <= c -> tab (<[Z.to_nat i := x]> l) c = if c =? i then x else tab l c.
Proof.
  intros Hi Hc. unfold tab. rewrite !nth_lookup, list_lookup_insert. destruct (Z.eqb_spec c i) as [->|].
  - by rewrite decide_True by lia.
  - by rewrite decide_False by lia.
Qed.

(** The decode map after the first [i] characters. *)
Definition map_ok (encoder : list Z) (i : Z) (m : list Z) : Prop :=
  length m = 256%nat /\ forall c, is_byte c ->
    (tab m c = 255 /\ forall k, (k < Z.to_nat i)%nat -> encoder !! k <> Some c)
    \/ (exists k, 0 <= k < i /\ encoder !! Z.to_nat k = Some c /\ tab m c = k).

Lemma NewEncoding_ok encoder : length encoder = 64%nat -> bytes_ok encoder -> existsb newline encoder = false ->
  exists m, NewEncoding encoder = Val (MkEncoding encoder m StdPadding false) /\ map_ok encoder 64 m.
Proof.
  intros Hl Hb Hn. unfold NewEncoding. rewrite Hl. cbn [Z.of_nat Z.eqb negb Pos.eqb]. rewrite Hn.
  replace (for_up 0 256 (λ i m, store m i 255) (make 0 256)) with (Val (replicate 256 255)) by (by vm_compute).
  cbn [mbind outcome_bind].
  destruct (for_up_inv (map_ok encoder) 0 64 (λ i m, c ← index encoder i; store m c (u8 i)) (replicate 256 255)) as (m & E & Hm); [done| | |].
  - split; [done|]. intros c Hc. left. split; [|cbn; lia]. unfold tab. rewrite nth_lookup, lookup_replicate_2; [done|unfold is_uint in Hc; lia].
  - intros i m Hi [Hlm Hm]. destruct (lookup_lt_is_Some_2 encoder (Z.to_nat i)) as [c Hc]; [lia|].
    rewrite (index_Val encoder i c ltac:(lia) Hc). cbn [mbind outcome_bind]. assert (Hbc : is_byte c) by (by eapply Forall_lookup_1 in Hc).
    unfold is_uint in Hbc. rewrite store_lt by lia. eexists. split; [done|]. split; [by rewrite length_insert|].
    intros x Hx. rewrite tab_insert by (unfold is_uint in *; lia). rewrite wrap_small by (unfold is_uint; lia).
    destruct (Z.eqb_spec x c) as [->|Hxc].
    + right. exists i. split; [lia|]. done.
    + destruct (Hm x Hx) as [[-> Hno]|(k & Hk & Hkx & ->)]; [|right; exists k; split; [lia|done]].
      left. split; [done|]. intros k Hk. destruct (Nat.eq_dec k (Z.to_nat i)) as [->|]; [congruence|]. apply Hno. lia.
  - exists m. change (Z.of_nat 64) with 64. rewrite E. done.
Qed.

Inductive built : Encoding -> Prop :=
  | built_new encoder enc : bytes_ok encoder -> NoDup encoder -> (StdPadding ∉ encoder) -> NewEncoding encoder = Val enc -> built enc
  | built_padding enc padding enc' : built enc -> padding = NoPadding \/ 0 <= padding -> WithPadding enc padding = Val enc' -> built enc'
  | built_strict enc : built enc -> built (Strict enc).

Lemma existsb_false {A} (f : A -> bool) l : existsb f l = false <-> Forall (λ x, f x = false) l.
Proof.
  induction l as [|x l IH]; cbn [existsb]; [by split|]. rewrite orb_false_iff, Forall_cons, IH. done.
Qed.

(** The facts of an alphabet and its map, whatever the padding. *)
Definition alphabet_ok (enc : Encoding) : Prop :=
  length (encode enc) = 64%nat /\ bytes_ok (encode enc) /\ NoDup (encode enc)
  /\ Forall (λ c, newline c = false) (encode enc) /\ map_ok (encode enc) 64 (decodeMap enc)
  /\ (padChar enc = NoPadding \/ (is_byte (padChar enc) /\ (padChar enc ∉ encode enc) /\ newline (padChar enc) = false)).

Lemma built_alphabet enc : built enc -> alphabet_ok enc.
Proof.
  induction 1 as [encoder enc Hb Hd Hp E|enc padding enc' _ IH Hp E|enc _ IH]; [| |done].
  - unfold NewEncoding in E. destruct (Z.eqb_spec (zlen encoder) 64) as [Hl|]; [|done]. cbn [negb] in E.
    destruct (existsb newline encoder) eqn:En; [done|]. destruct (NewEncoding_ok encoder) as (m & E' & Hm); [lia|done|done|].
    unfold NewEncoding in E'. rewrite Hl, En in E'. cbn [Z.eqb Pos.eqb negb] in E'. rewrite Hl in E. rewrite E in E'. injection E' as ->. clear E.
    split; [cbn [encode]; lia|]. split; [done|]. split; [done|]. split; [by apply existsb_false|]. split; [exact Hm|]. right. split; [done|]. split; [exact Hp|done].
  - unfold WithPadding in E. destruct (newline padding) eqn:En; [done|]. destruct (Z.ltb_spec 0xff padding) as [|Hp']; [done|]. cbn [orb] in E.
    destruct (existsb _ _) eqn:Ex; [done|]. injection E as <-. destruct IH as (H1 & H2 & H3 & H4 & H5 & _).
    split; [done|]. split; [done|]. split; [done|]. split; [done|]. split; [done|]. cbn [padChar encode].
    destruct Hp as [->|Hp]; [by left|right]. split; [unfold is_uint; lia|]. split; [|done].
    intros Hin. apply existsb_false in Ex. rewrite Forall_forall in Ex. apply Ex in Hin. by rewrite Z.eqb_refl in Hin.
Qed.

Lemma built_ok enc : built enc -> enc_ok enc.
Proof.
  intros H%built_alphabet. destruct H as (Hl & Hb & Hd & Hn & [Hml Hm] & Hp).
  assert (Hchar : forall d, is_uint 6 d -> exists c, encode enc !! Z.to_nat d = Some c /\ is_byte c /\ char_ enc d = c).
  { intros d Hd6. unfold is_uint in Hd6. destruct (lookup_lt_is_Some_2 (encode enc) (Z.to_nat d)) as [c Hc]; [lia|]. exists c.
    split; [done|]. split; [by eapply Forall_lookup_1 in Hc|]. by apply tab_lookup; [lia|]. }
  assert (Hno : forall c, is_byte c -> (c ∉ encode enc) -> tab (decodeMap enc) c = 255).
  { intros c Hc Hin. destruct (Hm c Hc) as [[? _]|(k & _ & Hk & _)]; [done|]. by apply list_elem_of_lookup_2 in Hk. }
  split; [done|done| .. ].
  - intros c Hc. destruct (Hm c Hc) as [[? _]|(k & ? & _ & ->)]; [by left|right]. unfold is_uint. lia.
  - intros d Hd6. destruct (Hchar d Hd6) as (c & Hc & Hbc & ->). unfold is_uint in Hd6. destruct (Hm c Hbc) as [[_ Hk]|(k & Hk & Hkc & ->)].
    + destruct (Hk (Z.to_nat d)); [lia|done].
    + pose proof (NoDup_lookup _ _ _ _ Hd Hkc Hc). lia.
  - intros c Hc Hne. destruct (Hm c Hc) as [[? _]|(k & ? & Hk & ->)]; [done|]. by apply tab_lookup; [lia|].
  - intros c Hc. apply Hno; [unfold newline in Hc; unfold is_uint; lia|]. intros Hin. rewrite Forall_forall in Hn. apply Hn in Hin. congruence.
  - destruct Hp as [?|(Hpb & Hpe & Hpn)]; [by left|right]. split; [done|]. split; [by apply Hno|done].
Qed.

(** The encodings of the package are built: an alphabet, the padding or none, strict or not. *)
Lemma StdEncoding_built enc : StdEncoding = Val enc -> built enc.
Proof.
  intros E. apply (built_new encodeStd); [apply (bool_decide_unpack _); by vm_compute..|done].
Qed.

(** The value of StdEncoding. *)
Definition std : Encoding := Eval vm_compute in match StdEncoding with Val e => e | _ => MkEncoding [] [] 0 false end.

Lemma std_built : built std.
Proof. apply StdEncoding_built. by vm_compute. Qed.

(** ** Properties *)

(** C20. DecodeString undoes EncodeToString for every encoding that is [built]: NewEncoding with an alphabet that it accepts (64 bytes, none a newline) whose bytes are distinct and
    not '=', the default padding of a new encoding, then any number of calls of WithPadding, with NoPadding or a rune that is not negative and that it accepts, and of Strict.
    (NewEncoding and WithPadding do not refuse alphabets with repeated bytes or '=', and other negative paddings; the claim does not hold of these, see [WithPadding_negative].)
    Newlines may have been inserted into the text anywhere; and a strict
    encoding accepts nothing else: a text decodes without an error to some bytes exactly if, without
    its newlines, it is what EncodeToString yields for them. *)
Theorem DecodeString_inverse enc text : built enc -> bytes_ok text ->
  (forall out, bytes_ok out -> EncodeToString enc out = Val (strip text) -> DecodeString enc text = Val (out, None))
  /\ (strict enc = true -> forall out, DecodeString enc text = Val (out, None) -> bytes_ok out /\ EncodeToString enc out = Val (strip text)).
Proof.
  intros Henc%built_ok Ht. rewrite b64_DecodeString_spec by done. split.
  - intros out Hb. rewrite b64_EncodeToString_spec by done. intros [= E]. by rewrite (decoded_encoded enc text Henc Ht out) by done.
  - intros Hs out [= E]. assert (Hb : bytes_ok out) by (pose proof (decoded_bytes enc text (S (length text)) 0) as H; unfold decoded in E; by rewrite E in H).
    split; [done|]. rewrite b64_EncodeToString_spec by done. by rewrite (decoded_inv enc text Henc Ht out) by done.
Qed.

Lemma DecodeString_inverse_witness :
  DecodeString std [84; 87; 10; 70; 117; 84; 87; 69; 61; 10] = Val ([77; 97; 110; 77; 97], None)
  /\ EncodeToString (Strict std) [77; 97] = Val (strip [84; 87; 13; 69; 61]).
Proof.
  split.
  - apply (DecodeString_inverse std _ std_built); [by apply (bool_decide_unpack _); vm_compute| |]; [by apply (bool_decide_unpack _); vm_compute|by vm_compute].
  - apply (DecodeString_inverse (Strict std) [84; 87; 13; 69; 61] (built_strict _ std_built)); [by apply (bool_decide_unpack _); vm_compute|by vm_compute|by vm_compute].
Defined.

(** Decode into a slice of DecodedLen bytes never panics and ends: whatever the eight- and
    four-character loops take, the bytes written, their number and the error (with its offset) are those of decoding
    quantum by quantum with decodeQuantum's loop, and the rest of the slice is the only other thing that may change. *)
Theorem Decode_quantum_by_quantum enc src dst : built enc -> bytes_ok src -> DecodedLen enc (zlen src) <= zlen dst ->
  exists dst', Decode enc dst src = Val (dst', zlen (fst (decoded enc src)), snd (decoded enc src))
    /\ length dst' = length dst /\ take (length (fst (decoded enc src))) dst' = fst (decoded enc src)
    /\ bytes_ok (fst (decoded enc src)) /\ zlen (fst (decoded enc src)) <= zlen dst.
Proof.
  intros Henc%built_ok Hs Hd. destruct (b64_Decode_spec enc src Henc Hs dst Hd) as (dst' & E & Hl & Ht). exists dst'.
  split; [done|]. split; [done|]. split; [done|]. split; [apply decoded_bytes|]. rewrite <- Ht, length_take. lia.
Qed.

Lemma Decode_quantum_by_quantum_witness : DecodedLen std 8 = 6 /\
  exists dst', Decode std (make 0 6) [84; 87; 70; 117; 84; 33; 69; 61] = Val (dst', 3, Some 5) /\ length dst' = 6%nat.
Proof.
  split; [done|]. destruct (Decode_quantum_by_quantum std [84; 87; 70; 117; 84; 33; 69; 61] (make 0 6) std_built) as (dst' & E & Hl & _);
    [by apply (bool_decide_unpack _); vm_compute|by vm_compute|]. exists dst'. split; [|done]. rewrite E. by vm_compute.
Defined.

(** A negative padding other than NoPadding passes WithPadding's test "padding > 0xff"; the encoder then writes its low byte,
    which the decoder does not recognise, so that the encoding cannot read its own output. *)
Lemma WithPadding_negative : exists enc text, WithPadding std (-2) = Val enc
  /\ EncodeToString enc [77] = Val text /\ DecodeString enc text = Val ([], Some 2).
Proof. eexists _, _. split; [reflexivity|]. split; [reflexivity|]. by vm_compute. Qed.
