(* ===== verification/Base64Stream.v ===== *)
(** * encoding/base64: the stream encoder

    NewEncoder over any io.Writer (src/Source/Gold/encoding/base64/base64.go): a sequence of writes and Close. *)

From S2P Require Import Prelude Base64.

Local Open Scope go_scope.

Section Stream.
(** An io.Writer: a call returns the next state of the writer and the error; the encoder ignores the count. *)
Context {W E : Type} (io_Write : W -> list Z -> W * option E) (enc : Encoding).

Record encoder : Type := MkEncoder { err : option E; buf : list Z; nbuf : Z; out : list Z }.

Definition NewEncoder : encoder := MkEncoder None (make 0 3) 0 (make 0 1024).

(** The leading fringe: bytes of [p] complete the buffer. *)
Fixpoint fringe (fuel : nat) (p : list Z) (i : Z) (buf : list Z) (nbuf : Z) : outcome (Z * list Z * Z) :=
  match fuel with
  | O => NoFuel
  | S fuel =>
      if (i <? zlen p) && (nbuf <? 3) then
        c ← index p i; buf ← store buf nbuf c; fringe fuel p (i + 1) buf (nbuf + 1)
      else Val (i, buf, nbuf)
  end.

(** Encoding a chunk to the writer through [e.out]. *)
Definition flush (e : encoder) (w : W) (chunk : list Z) (m : Z) : outcome (encoder * W) :=
  out ← Encode enc (out e) chunk;
  o ← slice out 0 m;
  let '(w, er) := io_Write w o in
  Val (MkEncoder er (buf e) (nbuf e) out, w).

Fixpoint interior (fuel : nat) (e : encoder) (w : W) (p : list Z) (n : Z) : outcome (encoder * W * list Z * Z) :=
  match fuel with
  | O => NoFuel
  | S fuel =>
      if 3 <=? zlen p then
        let nn := Z.quot (zlen (out e)) 4 * 3 in
        let nn := if zlen p <? nn then zlen p - Z.rem (zlen p) 3 else nn in
        chunk ← slice p 0 nn;
        '(e, w) ← flush e w chunk (Z.quot nn 3 * 4);
        if err e is Some _ then Val (e, w, p, n)
        else
          p ← slice p nn (zlen p);
          interior fuel e w p (n + nn)
      else Val (e, w, p, n)
  end.

(** From the interior chunks on. *)
Definition write_rest (e : encoder) (w : W) (p : list Z) (n : Z) : outcome (encoder * W * (Z * option E)) :=
  '(e, w, p, n) ← interior (S (length p)) e w p n;
  if err e is Some er then Val (e, w, (n, Some er))
  else
    b ← for_up 0 (zlen p) (λ i b, c ← index p i; store b i c) (buf e);
    Val (MkEncoder (err e) b (zlen p) (out e), w, (n + zlen p, None)).

Definition encoder_Write (e : encoder) (w : W) (p : list Z) : outcome (encoder * W * (Z * option E)) :=
  if err e is Some er then Val (e, w, (0, Some er))
  else if 0 <? nbuf e then
    '(i, b, nb) ← fringe (S (length p)) p 0 (buf e) (nbuf e);
    let n := 0 + i in
    p ← slice p i (zlen p);
    let e := MkEncoder (err e) b nb (out e) in
    if nb <? 3 then Val (e, w, (n, None))
    else
      '(e, w) ← flush e w (buf e) 4;
      if err e is Some er then Val (e, w, (n, Some er))
      else write_rest (MkEncoder (err e) (buf e) 0 (out e)) w p n
  else write_rest e w p 0.

Definition encoder_Close (e : encoder) (w : W) : outcome (encoder * W * option E) :=
  if err e is Some er then Val (e, w, Some er)
  else if 0 <? nbuf e then
    chunk ← slice (buf e) 0 (nbuf e);
    '(e, w) ← flush e w chunk (EncodedLen enc (nbuf e));
    Val (MkEncoder (err e) (buf e) 0 (out e), w, err e)
  else Val (e, w, err e).

(** A sequence of writes, then Close: what the writes and Close return. *)
Fixpoint stream (e : encoder) (w : W) (ps : list (list Z)) : outcome (W * list (Z * option E) * option E) :=
  match ps with
  | [] => '(_, w, er) ← encoder_Close e w; Val (w, [], er)
  | p :: ps =>
      '(e, w, r) ← encoder_Write e w p;
      '(w, rs, er) ← stream e w ps;
      Val (w, r :: rs, er)
  end.

(** *** Correctness over a writer that keeps what it is given *)

Context (content : W -> list Z).
Hypothesis io_Write_content : forall w p w', io_Write w p = (w', None) -> content w' = content w ++ p.
Hypothesis Henc : enc_ok enc.

(** [T] has been written since the writer held [C]; the last bytes of it are in the buffer. *)
Definition pending (C T : list Z) (e : encoder) (w : W) : Prop :=
  length (buf e) = 3%nat /\ bytes_ok (buf e) /\ length (out e) = 1024%nat /\ 0 <= nbuf e < 3
  /\ exists blocks, (exists k, length blocks = 3 * k)%nat /\ T = blocks ++ take (Z.to_nat (nbuf e)) (buf e)
     /\ content w = C ++ encoded enc blocks.

Lemma flush_ok e w chunk m : bytes_ok chunk -> m = zlen (encoded enc chunk) -> m <= zlen (out e) ->
  exists out' w' er, flush e w chunk m = Val (MkEncoder er (buf e) (nbuf e) out', w') /\ length out' = length (out e)
    /\ io_Write w (encoded enc chunk) = (w', er) /\ (er = None -> content w' = content w ++ encoded enc chunk).
Proof.
  intros Hb -> Hm. unfold flush. rewrite b64_Encode_spec by (done || lia). cbn [mbind outcome_bind].
  rewrite slice_app_l. cbn [mbind outcome_bind]. destruct (io_Write w _) as [w' er] eqn:Ew.
  eexists _, w', er. split; [reflexivity|]. split; [rewrite length_app, length_drop; lia|]. split; [done|]. intros ->. by apply io_Write_content.
Qed.

(** The characters of whole groups. *)
Lemma length_encoded_groups (l : list Z) k : length l = (3 * k)%nat -> zlen (encoded enc l) = 4 * Z.of_nat k.
Proof.
  revert k. induction l as [|a|a b|a b c l IH] using list_ind3; intros k Hk; cbn [length] in Hk; try lia; [destruct k; [done|lia]|].
  destruct k as [|k]; [lia|]. cbn [encoded]. rewrite zlen_app, (IH k) by lia. cbn [length]. lia.
Qed.

Lemma fringe_spec fuel : forall p i b nb, 0 <= i <= zlen p -> 0 <= nb <= 3 -> length b = 3%nat -> zlen p - i < Z.of_nat fuel ->
  let m := Z.min (zlen p - i) (3 - nb) in
  fringe fuel p i b nb = Val (i + m, take (Z.to_nat nb) b ++ take (Z.to_nat m) (drop (Z.to_nat i) p) ++ drop (Z.to_nat (nb + m)) b, nb + m).
Proof.
  induction fuel as [|fuel IH]; intros p i b nb Hi Hn Hl Hf m; [lia|]. cbn [fringe].
  destruct (Z.ltb_spec i (zlen p)) as [Hip|]; [|replace m with 0 by lia; change (Z.to_nat 0) with 0%nat; rewrite !Z.add_0_r, take_0; cbn [app]; by rewrite take_drop].
  destruct (Z.ltb_spec nb 3) as [Hn3|]; cbn [andb]; [|replace m with 0 by lia; change (Z.to_nat 0) with 0%nat; rewrite !Z.add_0_r, take_0; cbn [app]; by rewrite take_drop].
  destruct (lookup_lt_is_Some_2 p (Z.to_nat i)) as [c Hc]; [lia|]. rewrite (index_Val p i c) by (done || lia).
  cbn [mbind outcome_bind]. rewrite store_lt by lia. cbn [mbind outcome_bind].
  rewrite IH by (rewrite ?length_insert; lia). replace (Z.min (zlen p - (i + 1)) (3 - (nb + 1))) with (m - 1) by lia.
  replace (i + 1 + (m - 1)) with (i + m) by lia. replace (nb + 1 + (m - 1)) with (nb + m) by lia. do 2 f_equal. f_equal.
  replace (Z.to_nat (nb + 1)) with (S (Z.to_nat nb)) by lia. rewrite (take_S_r _ _ c) by (apply list_lookup_insert_eq; lia).
  rewrite take_insert_ge, drop_insert_lt by lia. rewrite <- app_assoc. f_equal. cbn [app]. rewrite (drop_S p c (Z.to_nat i)) by done.
  replace (Z.to_nat m) with (S (Z.to_nat (m - 1))) by lia. cbn [take]. by replace (Z.to_nat (i + 1)) with (S (Z.to_nat i)) by lia.
Qed.

(** An error that the writer gave. *)
Definition failed (er : E) : Prop := exists w c w', io_Write w c = (w', Some er).

Lemma interior_ok fuel : forall e w p n, err e = None -> length (out e) = 1024%nat -> bytes_ok p -> zlen p < Z.of_nat fuel ->
  exists e' w' p' n', interior fuel e w p n = Val (e', w', p', n') /\ buf e' = buf e /\ nbuf e' = nbuf e /\ length (out e') = 1024%nat
  /\ match err e' with
     | Some er => failed er
     | None => zlen p' < 3 /\ n' = n + zlen p - zlen p'
         /\ exists blocks, (exists k, length blocks = 3 * k)%nat /\ p = blocks ++ p' /\ content w' = content w ++ encoded enc blocks
     end.
Proof.
  induction fuel as [|fuel IH]; intros e w p n He Ho Hb Hf; [lia|]. cbn [interior].
  destruct (Z.leb_spec 3 (zlen p)) as [Hp|Hp].
  2:{ exists e, w, p, n. rewrite He. do 4 (split; [done|]). split; [done|]. split; [lia|].
      exists []. split; [by exists 0%nat|]. split; [done|]. cbn [encoded]. by rewrite app_nil_r. }
  rewrite Ho. change (Z.quot (Z.of_nat 1024) 4 * 3) with 768. set (nn := if zlen p <? 768 then _ else _).
  assert (Hnn : exists k, nn = 3 * Z.of_nat k /\ 0 < nn <= zlen p /\ nn <= 768).
  { unfold nn. destruct (Z.ltb_spec (zlen p) 768).
    - rewrite Z.rem_mod_nonneg by lia. exists (Z.to_nat (zlen p / 3)). dlia.
    - exists 256%nat. lia. }
  clearbody nn. destruct Hnn as (k & -> & Hk & Hk'). rewrite slice_take by lia. cbn [mbind outcome_bind].
  assert (Hlk : length (take (Z.to_nat (3 * Z.of_nat k)) p) = (3 * k)%nat) by (rewrite length_take; lia).
  assert (Hsk : slice p (3 * Z.of_nat k) (zlen p) = Val (drop (Z.to_nat (3 * Z.of_nat k)) p)).
  { unfold slice. rewrite decide_True by lia. by rewrite take_ge by (rewrite length_drop; lia). }
  rewrite <- (take_drop (Z.to_nat (3 * Z.of_nat k)) p) in Hb. apply Forall_app in Hb as [Hb1 Hb2].
  set (chunk := take _ p) in *. set (p1 := drop _ p) in *.
  assert (Hq : Z.quot (3 * Z.of_nat k) 3 * 4 = zlen (encoded enc chunk)).
  { rewrite (length_encoded_groups _ k) by done. rewrite Z.quot_div_nonneg by lia. dlia. }
  assert (Hl : zlen p1 = zlen p - 3 * Z.of_nat k) by (unfold p1; rewrite length_drop; lia).
  destruct (flush_ok e w chunk (Z.quot (3 * Z.of_nat k) 3 * 4)) as (o & w1 & er & -> & Ho1 & Ew & Hc); [done|done| |].
  { rewrite Ho, Hq, (length_encoded_groups _ k) by done. lia. }
  cbn [mbind outcome_bind err]. destruct er as [er|].
  { eexists _, w1, p, n. split; [reflexivity|]. cbn [buf nbuf out err]. do 2 (split; [done|]). split; [lia|]. by exists w, (encoded enc chunk), w1. }
  rewrite Hsk. cbn [mbind outcome_bind].
  destruct (IH (MkEncoder None (buf e) (nbuf e) o) w1 p1 (n + 3 * Z.of_nat k)) as (e' & w' & p' & n' & -> & H1 & H2 & H3 & H4); [done|cbn [out]; lia|done|lia|].
  exists e', w', p', n'. do 4 (split; [done|]). destruct (err e'); [done|]. destruct H4 as (H4 & -> & blocks & [k' Hk2] & Hp1 & Hcw).
  split; [done|]. split; [lia|]. exists (chunk ++ blocks). split; [exists (k + k')%nat; rewrite length_app; lia|].
  split; [rewrite <- app_assoc, <- Hp1; unfold chunk, p1; by rewrite take_drop|].
  rewrite encoded_app by eauto. rewrite Hcw, Hc by done. by rewrite app_assoc.
Qed.

(** The last loop of Write: [p] at the start of the buffer. *)
Lemma trailing_ok (p b : list Z) : length b = 3%nat -> zlen p < 3 ->
  for_up 0 (zlen p) (λ i (b : list Z), c ← index p i; store b i c) b = Val (p ++ drop (length p) b).
Proof.
  intros Hl Hp. destruct b as [|b0 [|b1 [|b2 [|]]]]; try done. destruct p as [|p0 [|p1 [|p2 p]]]; [reflexivity..|]. cbn [length] in Hp. lia.
Qed.

Lemma write_rest_ok C T e w p n : err e = None -> nbuf e = 0 -> pending C T e w -> bytes_ok p ->
  exists e' w' r, write_rest e w p n = Val (e', w', r)
  /\ match err e' with
     | Some er => snd r = Some er /\ failed er
     | None => r = (n + zlen p, None) /\ pending C (T ++ p) e' w'
     end.
Proof.
  intros He Hn (Hl & Hb & Ho & _ & blocks & Hk & -> & Hc) Hp. rewrite Hn. change (take (Z.to_nat 0) (buf e)) with (@nil Z). rewrite app_nil_r.
  unfold write_rest. destruct (interior_ok (S (length p)) e w p n) as (e' & w' & p' & n' & -> & H1 & H2 & H3 & H4); [done..|lia|].
  cbn [mbind outcome_bind]. destruct (err e') as [er|] eqn:Ee; [eexists e', w', _; split; [reflexivity|]; by rewrite Ee|].
  destruct H4 as (H4 & -> & blocks' & Hk' & -> & Hcw). rewrite H1, trailing_ok by done. cbn [mbind outcome_bind].
  apply Forall_app in Hp as [_ Hp']. assert (Hlb : (length p' <= length (buf e))%nat) by lia.
  eexists _, w', _. split; [reflexivity|]. cbn [err]. split; [f_equal; lia|]. unfold pending. cbn [buf nbuf out].
  split; [rewrite length_app, length_drop; lia|]. split; [apply Forall_app; split; [done|by apply Forall_drop]|].
  split; [done|]. split; [lia|]. exists (blocks ++ blocks'). split; [destruct Hk as [k Hk], Hk' as [k' Hk']; exists (k + k')%nat; rewrite length_app; lia|].
  rewrite Nat2Z.id, take_app_length, <- app_assoc. split; [done|]. rewrite encoded_app by done. by rewrite Hcw, Hc, app_assoc.
Qed.

Lemma Write_ok C T e w p : err e = None -> pending C T e w -> bytes_ok p ->
  exists e' w' r, encoder_Write e w p = Val (e', w', r)
  /\ match err e' with
     | Some er => snd r = Some er /\ failed er
     | None => r = (zlen p, None) /\ pending C (T ++ p) e' w'
     end.
Proof.
  intros He Hpend Hp. unfold encoder_Write. rewrite He. pose proof Hpend as (Hl & Hb & Ho & Hn & blocks & Hk & HT & Hc).
  destruct (Z.ltb_spec 0 (nbuf e)) as [Hn0|]; [|apply (write_rest_ok C T); (done || lia)].
  rewrite fringe_spec by lia. cbn [mbind outcome_bind]. rewrite drop_0, Z.sub_0_r. set (m := Z.min (zlen p) (3 - nbuf e)). rewrite Z.add_0_l.
  unfold slice. rewrite decide_True by lia. cbn [mbind outcome_bind]. rewrite (take_ge (drop (Z.to_nat m) p)) by (rewrite length_drop; lia).
  set (b := take (Z.to_nat (nbuf e)) (buf e) ++ _).
  assert (Hlb : length b = 3%nat) by (unfold b; rewrite !length_app, !length_take, length_drop; lia).
  assert (Hbb : bytes_ok b) by (unfold b; apply Forall_app; split; [by apply Forall_take|]; apply Forall_app; split; [by apply Forall_take|by apply Forall_drop]).
  destruct (Z.ltb_spec (nbuf e + m) 3) as [H3|H3].
  - eexists _, w, _. split; [reflexivity|]. cbn [err]. split; [f_equal; lia|]. unfold pending. cbn [buf nbuf out].
    do 3 (split; [done|]). split; [lia|]. exists blocks. split; [done|]. split; [|done]. rewrite HT, <- app_assoc. f_equal.
    unfold b. rewrite app_assoc, (take_ge p) by lia. symmetry. apply take_app_length'. rewrite length_app, length_take. lia.
  - cbn [err buf nbuf out].
    destruct (flush_ok (MkEncoder None b (nbuf e + m) (out e)) w b 4) as (o & w1 & er & -> & Hlo & Ew & Hcw); [done|by rewrite (length_encoded_groups _ 1)|cbn [out]; lia|].
    cbn [mbind outcome_bind err buf nbuf out] in *. destruct er as [er|]; [eexists _, w1, _; split; [reflexivity|]; cbn [err snd]; split; [done|by exists w, (encoded enc b), w1]|].
    destruct (write_rest_ok C (T ++ take (Z.to_nat m) p) (MkEncoder None b 0 o) w1 (drop (Z.to_nat m) p) (0 + m)) as (e' & w' & r & -> & Hr); [done|done| |by apply Forall_drop|].
    { unfold pending. cbn [buf nbuf out]. split; [done|]. split; [done|]. split; [lia|]. split; [lia|]. exists (blocks ++ b).
      split; [destruct Hk as [k Hk]; exists (k + 1)%nat; rewrite length_app; lia|]. change (take (Z.to_nat 0) b) with (@nil Z). rewrite app_nil_r.
      split; [rewrite HT, <- app_assoc; unfold b; by rewrite (drop_ge (buf e)), app_nil_r by lia|].
      rewrite encoded_app by done. by rewrite Hcw, Hc, app_assoc. }
    eexists e', w', r. split; [done|]. destruct (err e'); [done|]. rewrite <- app_assoc, take_drop in Hr. destruct Hr as [-> ?].
    split; [|done]. f_equal. rewrite length_drop. lia.
Qed.

Lemma Close_ok C T e w : err e = None -> pending C T e w ->
  exists e' w' er, encoder_Close e w = Val (e', w', er) /\ match er with Some er => failed er | None => content w' = C ++ encoded enc T end.
Proof.
  intros He (Hl & Hb & Ho & Hn & blocks & Hk & -> & Hc). unfold encoder_Close. rewrite He.
  destruct (Z.ltb_spec 0 (nbuf e)) as [Hn0|].
  - rewrite slice_take by lia. cbn [mbind outcome_bind]. set (tail := take _ _).
    assert (Hlt : length tail = Z.to_nat (nbuf e)) by (unfold tail; rewrite length_take; lia).
    assert (Hm : EncodedLen enc (nbuf e) = zlen (encoded enc tail)) by (rewrite length_encoded; f_equal; lia).
    destruct (flush_ok e w tail (EncodedLen enc (nbuf e))) as (o & w1 & er & -> & Hlo & Ew & Hcw); [by apply Forall_take|done| |].
    { unfold EncodedLen. assert (nbuf e = 1 \/ nbuf e = 2) as [-> | ->] by lia; rewrite Ho; destruct (_ =? _); done. }
    cbn [mbind outcome_bind err]. eexists _, w1, er. split; [reflexivity|]. destruct er; [by exists w, (encoded enc tail), w1|].
    rewrite encoded_app by done. by rewrite Hcw, Hc, app_assoc.
  - eexists e, w, _. split; [reflexivity|]. replace (nbuf e) with 0 by lia. change (take (Z.to_nat 0) (buf e)) with (@nil Z). by rewrite app_nil_r.
Qed.

(** After an error nothing more is written. *)
Lemma stream_failed e w er ps : err e = Some er -> stream e w ps = Val (w, map (λ _, (0, Some er)) ps, Some er).
Proof.
  intros He. induction ps as [|p ps IH]; cbn [stream map]; [unfold encoder_Close; by rewrite He|].
  unfold encoder_Write. rewrite He. cbn [mbind outcome_bind]. by rewrite IH.
Qed.

Lemma stream_ok C ps : forall T e w, err e = None -> pending C T e w -> Forall (Forall (is_uint 8)) ps ->
  exists w' rs er, stream e w ps = Val (w', rs, er)
  /\ match er with
     | Some er => failed er
     | None => content w' = C ++ encoded enc (T ++ concat ps) /\ rs = map (λ p, (zlen p, None)) ps
     end.
Proof.
  induction ps as [|p ps IH]; intros T e w He Hp Hb; cbn [stream concat map].
  - destruct (Close_ok C T e w) as (e' & w' & er & -> & H); [done..|]. cbn [mbind outcome_bind]. rewrite app_nil_r.
    eexists w', [], er. split; [done|]. by destruct er.
  - apply Forall_cons in Hb as [Hbp Hb]. destruct (Write_ok C T e w p) as (e' & w' & r & -> & H); [done..|]. cbn [mbind outcome_bind].
    destruct (err e') as [er|] eqn:Ee.
    + rewrite (stream_failed _ _ er) by done. cbn [mbind outcome_bind]. eexists _, _, (Some er). split; [reflexivity|]. by destruct H.
    + destruct H as [-> Hp']. destruct (IH (T ++ p) e' w') as (w2 & rs & er & -> & H2); [done..|]. cbn [mbind outcome_bind].
      eexists w2, _, er. split; [reflexivity|]. destruct er; [done|]. destruct H2 as [H2 ->]. by rewrite H2, <- app_assoc.
Qed.

Lemma pending_new w : pending (content w) [] NewEncoder w.
Proof.
  unfold pending, NewEncoder. cbn [buf nbuf out]. split; [done|]. split; [by apply (bool_decide_unpack _)|]. split; [done|]. split; [done|].
  exists []. split; [by exists 0%nat|]. split; [done|]. cbn [encoded]. by rewrite app_nil_r.
Qed.
End Stream.

(** ** Properties *)

(** A writer that appends to a list of bytes, and fails once it would hold more than [limit]. *)
Definition limited (limit : Z) (w p : list Z) : list Z * option unit :=
  if zlen (w ++ p) <=? limit then (w ++ p, None) else (w, Some tt).

(** C37. The stream encoder over any writer that keeps what it accepts: however the bytes are cut into
    writes, no call panics or diverges; unless the writer has failed, Close succeeds, every Write reports all its bytes, and the
    writer holds what Encode yields for all the bytes at once; if Close fails, the error is one the writer gave. *)
Theorem stream_is_Encode {W E} (io_Write : W -> list Z -> W * option E) (content : W -> list Z) enc w ps :
  (forall w p w', io_Write w p = (w', None) -> content w' = content w ++ p) -> built enc -> Forall (Forall (is_uint 8)) ps ->
  exists w' rs er, stream io_Write enc NewEncoder w ps = Val (w', rs, er)
  /\ match er with
     | Some er => exists w0 c w1, io_Write w0 c = (w1, Some er)
     | None => rs = map (λ p, (zlen p, None)) ps
         /\ exists text, EncodeToString enc (concat ps) = Val text /\ content w' = content w ++ text
     end.
Proof.
  intros Hw Henc%built_ok Hps. destruct (stream_ok io_Write enc content Hw (content w) ps [] NewEncoder w) as (w' & rs & er & -> & H);
    [done|by apply pending_new|done|]. exists w', rs, er. split; [done|]. destruct er as [er|]; [done|]. destruct H as [H ->].
  split; [done|]. eexists. split; [|done]. apply b64_EncodeToString_spec. by apply Forall_concat.
Qed.

Lemma stream_is_Encode_witness :
  stream (limited 100) std NewEncoder [] [[77]; []; [97; 110; 77]; [97]] = Val ([84; 87; 70; 117; 84; 87; 69; 61], [(1, None); (0, None); (3, None); (1, None)], None).
Proof.
  destruct (stream_is_Encode (limited 100) id std [] [[77]; []; [97; 110; 77]; [97]]) as (w' & rs & er & E & H).
  - intros w p w'. unfold limited. destruct (_ <=? _); [|done]. by intros [= <-].
  - apply std_built.
  - by apply (bool_decide_unpack _); vm_compute.
  - assert (er = None) as -> by (vm_compute in E; injection E as <- <- <-; reflexivity).
    destruct H as [-> (text & Ht & Hc)]. vm_compute in Ht. injection Ht as <-. cbn in Hc. subst w'. exact E.
Defined.
