(* ===== verification/Bytes.v ===== *)
(** * bytes: searching, splitting, joining and replacing

    The functions of src/Source/Gold/bytes/bytes.go that look for a separator, and the primitives of
    internal/bytealg that the runtime supplies for them (Runtime.pas): Index with its brute-force, byte-scanning and
    Rabin-Karp searches, LastIndex from the end, Count, the Split family, Join, Replace and Repeat.  Slices are values:
    the pieces that Split returns share memory with its argument, which nothing here writes to. *)

From Stdlib Require Import Zpow_facts.
From S2P Require Import Prelude Utf8.

Local Open Scope go_scope.

(** ** internal/bytealg *)

Definition MaxBruteForce : Z := 64.
Definition MaxLen : Z := 2 ^ 31 - 1.
Definition Cutover (nn : Z) : Z := Z.quot (nn + 16) 8.

Definition bytealg_Compare (a b : list Z) : outcome Z :=
  let n := Z.min (zlen a) (zlen b) in
  i ← scan_up 0 n (λ i, x ← index a i; y ← index b i; Val (x =? y));
  if i <? n then x ← index a i; y ← index b i; Val (if x <? y then -1 else 1)
  else if zlen a <? zlen b then Val (-1)
  else if zlen b <? zlen a then Val 1
  else Val 0.

Definition bytealg_Count (b : list Z) (c : Z) : outcome Z :=
  for_up 0 (zlen b) (λ i n, x ← index b i; Val (if x =? c then n + 1 else n)) 0.

(** The first index whose turn of the loop does not go on, or -1. *)
Definition first_stop (r hi : Z) : Z := if r <? hi then r else -1.

Definition bytealg_IndexByte (b : list Z) (c : Z) : outcome Z :=
  r ← scan_up 0 (zlen b) (λ i, x ← index b i; Val (negb (x =? c)));
  Val (first_stop r (zlen b)).

Definition bytealg_Index (a b : list Z) : outcome Z :=
  if zlen a <? zlen b then Val (-1)
  else
    let hi := zlen a - zlen b + 1 in
    r ← scan_up 0 hi (λ i, j ← scan_up 0 (zlen b) (λ j, x ← index a (i + j); y ← index b j; Val (x =? y)); Val (j <? zlen b));
    Val (first_stop r hi).

(** ** Searching *)

Definition Equal (a b : list Z) : bool := bool_decide (a = b).
Definition Compare (a b : list Z) : outcome Z := bytealg_Compare a b.
Definition IndexByte (b : list Z) (c : Z) : outcome Z := bytealg_IndexByte b c.

Definition indexBytePortable (s : list Z) (c : Z) : outcome Z :=
  r ← scan_up 0 (zlen s) (λ i, b ← index s i; Val (negb (b =? c)));
  Val (first_stop r (zlen s)).

Definition LastIndexByte (s : list Z) (c : Z) : outcome Z :=
  r ← scan_down (zlen s) 0 (λ i, x ← index s (i - 1); Val (negb (x =? c)));
  Val (r - 1).

Definition primeRK : Z := 16777619.

(** [for i := n; i > 0; i >>= 1] of hashStr: the factor primeRK^n. *)
Fixpoint pow_loop (fuel : nat) (i pow sq : Z) : outcome Z :=
  match fuel with
  | O => NoFuel
  | S fuel =>
      if 0 <? i then
        let pow := if negb (i &. 1 =? 0) then u32 (pow * sq) else pow in
        pow_loop fuel (i >>. 1) pow (u32 (sq * sq))
      else Val pow
  end.

Definition hash_add (hash c : Z) : Z := u32 (u32 (hash * primeRK) + c).

Definition hashStr (sep : list Z) : outcome (Z * Z) :=
  hash ← for_up 0 (zlen sep) (λ i hash, c ← index sep i; Val (hash_add hash c)) 0;
  pow ← pow_loop (S (length sep)) (zlen sep) 1 primeRK;
  Val (hash, pow).

Definition hashStrRev (sep : list Z) : outcome (Z * Z) :=
  hash ← for_down (zlen sep - 1) 0 (λ i hash, c ← index sep i; Val (hash_add hash c)) 0;
  pow ← pow_loop (S (length sep)) (zlen sep) 1 primeRK;
  Val (hash, pow).

(** One step of the rolling hash: the byte [c] enters the window and [d] leaves it. *)
Definition roll (h pow c d : Z) : Z := u32 (u32 (u32 (h * primeRK) + c) - u32 (pow * d)).

Fixpoint rk_loop (fuel : nat) (s sep : list Z) (hashsep pow h i : Z) : outcome Z :=
  match fuel with
  | O => NoFuel
  | S fuel =>
      let n := zlen sep in
      if i <? zlen s then
        c ← index s i; d ← index s (i - n);
        let h := roll h pow c d in
        let i := i + 1 in
        eq ← (if h =? hashsep then w ← slice s (i - n) i; Val (Equal w sep) else Val false);
        if eq : bool then Val (i - n) else rk_loop fuel s sep hashsep pow h i
      else Val (-1)
  end.

Definition indexRabinKarp (s sep : list Z) : outcome Z :=
  '(hashsep, pow) ← hashStr sep;
  let n := zlen sep in
  h ← for_up 0 n (λ i h, c ← index s i; Val (hash_add h c)) 0;
  eq ← (if h =? hashsep then w ← slice s 0 n; Val (Equal w sep) else Val false);
  if eq : bool then Val 0 else rk_loop (S (length s)) s sep hashsep pow h n.

(** From [i] to the next byte [c0] below [t]: an index, or a negative number. *)
Definition to_next (s : list Z) (c0 i t : Z) : outcome Z :=
  c ← index s i;
  if negb (c =? c0) then
    w ← slice s i t;
    o ← IndexByte w c0;
    Val (if o <? 0 then o else i + o)
  else Val i.

(** [s[i+1] == c1 && Equal(s[i:i+n], sep)] *)
Definition found_at (s sep : list Z) (c1 i : Z) : outcome bool :=
  x ← index s (i + 1);
  if x =? c1 then w ← slice s i (i + zlen sep); Val (Equal w sep) else Val false.

(** The loop of Index for n <= MaxLen, and the one for longer separators. *)
Fixpoint scan_loop (fuel : nat) (s sep : list Z) (c0 c1 t i fails : Z) : outcome Z :=
  match fuel with
  | O => NoFuel
  | S fuel =>
      if i <? t then
        i ← to_next s c0 i t;
        if i <? 0 then Val (-1) else
        eq ← found_at s sep c1 i;
        if eq : bool then Val i else
        let fails := fails + 1 in
        let i := i + 1 in
        if Cutover i <? fails then
          w ← slice s i (zlen s);
          r ← bytealg_Index w sep;
          Val (if 0 <=? r then r + i else -1)
        else scan_loop fuel s sep c0 c1 t i fails
      else Val (-1)
  end.

Fixpoint scan_rk_loop (fuel : nat) (s sep : list Z) (c0 c1 t i fails : Z) : outcome Z :=
  match fuel with
  | O => NoFuel
  | S fuel =>
      if i <? t then
        i ← to_next s c0 i t;
        if i <? 0 then Val (-1) else
        eq ← found_at s sep c1 i;
        if eq : bool then Val i else
        let i := i + 1 in
        let fails := fails + 1 in
        if (4 + (i >>. 4) <=? fails) && (i <? t) then
          w ← slice s i (zlen s);
          j ← indexRabinKarp w sep;
          Val (if j <? 0 then -1 else i + j)
        else scan_rk_loop fuel s sep c0 c1 t i fails
      else Val (-1)
  end.

Definition Index (s sep : list Z) : outcome Z :=
  let n := zlen sep in
  let t := zlen s - n + 1 in
  if n =? 0 then Val 0
  else if n =? 1 then c ← index sep 0; IndexByte s c
  else if n =? zlen s then Val (if Equal sep s then 0 else -1)
  else if zlen s <? n then Val (-1)
  else if n <=? MaxLen then
    if zlen s <=? MaxBruteForce then bytealg_Index s sep
    else
      c0 ← index sep 0; c1 ← index sep 1;
      scan_loop (S (length s)) s sep c0 c1 t 0 0
  else
    c0 ← index sep 0; c1 ← index sep 1;
    scan_rk_loop (S (length s)) s sep c0 c1 t 0 0.

Definition Contains (b subslice : list Z) : outcome bool := i ← Index b subslice; Val (negb (i =? -1)).

Fixpoint last_rk_loop (fuel : nat) (s sep : list Z) (hashss pow h i : Z) : outcome Z :=
  match fuel with
  | O => NoFuel
  | S fuel =>
      let n := zlen sep in
      if 0 <=? i then
        c ← index s i; d ← index s (i + n);
        let h := roll h pow c d in
        eq ← (if h =? hashss then w ← slice s i (i + n); Val (Equal w sep) else Val false);
        if eq : bool then Val i else last_rk_loop fuel s sep hashss pow h (i - 1)
      else Val (-1)
  end.

Definition LastIndex (s sep : list Z) : outcome Z :=
  let n := zlen sep in
  if n =? 0 then Val (zlen s)
  else if n =? 1 then c ← index sep 0; LastIndexByte s c
  else if n =? zlen s then Val (if Equal s sep then 0 else -1)
  else if zlen s <? n then Val (-1)
  else
    '(hashss, pow) ← hashStrRev sep;
    let last := zlen s - n in
    h ← for_down (zlen s - 1) last (λ i h, c ← index s i; Val (hash_add h c)) 0;
    eq ← (if h =? hashss then w ← slice s last (zlen s); Val (Equal w sep) else Val false);
    if eq : bool then Val last else last_rk_loop (S (length s)) s sep hashss pow h (last - 1).

Definition HasPrefix (s prefix : list Z) : outcome bool :=
  if zlen prefix <=? zlen s then w ← slice s 0 (zlen prefix); Val (Equal w prefix) else Val false.
Definition HasSuffix (s suffix : list Z) : outcome bool :=
  if zlen suffix <=? zlen s then w ← slice s (zlen s - zlen suffix) (zlen s); Val (Equal w suffix) else Val false.
Definition TrimPrefix (s prefix : list Z) : outcome (list Z) :=
  b ← HasPrefix s prefix; if b : bool then slice s (zlen prefix) (zlen s) else Val s.
Definition TrimSuffix (s suffix : list Z) : outcome (list Z) :=
  b ← HasSuffix s suffix; if b : bool then slice s 0 (zlen s - zlen suffix) else Val s.

(** ** Counting and splitting *)

Fixpoint count_loop (fuel : nat) (s sep : list Z) (n : Z) : outcome Z :=
  match fuel with
  | O => NoFuel
  | S fuel =>
      i ← Index s sep;
      if i =? -1 then Val n
      else s ← slice s (i + zlen sep) (zlen s); count_loop fuel s sep (n + 1)
  end.

Definition Count (s sep : list Z) : outcome Z :=
  if zlen sep =? 0 then c ← RuneCount s; Val (c + 1)
  else if zlen sep =? 1 then c ← index sep 0; bytealg_Count s c
  else count_loop (S (length s)) s sep 0.

Fixpoint explode_loop (fuel : nat) (a : list (list Z)) (s : list Z) (na n : Z) : outcome (list (list Z) * Z) :=
  match fuel with
  | O => NoFuel
  | S fuel =>
      if 0 <? zlen s then
        if n <=? na + 1 then a ← store a na s; Val (a, na + 1)
        else
          '(_, size) ← DecodeRune s;
          p ← slice s 0 size;
          a ← store a na p;
          s ← slice s size (zlen s);
          explode_loop fuel a s (na + 1) n
      else Val (a, na)
  end.

Definition explode (s : list Z) (n : Z) : outcome (list (list Z)) :=
  let n := if n <=? 0 then zlen s else n in
  '(a, na) ← explode_loop (S (length s)) (make [] n) s 0 n;
  slice a 0 na.

Fixpoint split_loop (fuel : nat) (a : list (list Z)) (s sep : list Z) (sepSave i n : Z) : outcome (list (list Z) * list Z * Z) :=
  match fuel with
  | O => NoFuel
  | S fuel =>
      if i <? n then
        m ← Index s sep;
        if m <? 0 then Val (a, s, i)
        else
          p ← slice s 0 (m + sepSave);
          a ← store a i p;
          s ← slice s (m + zlen sep) (zlen s);
          split_loop fuel a s sep sepSave (i + 1) n
      else Val (a, s, i)
  end.

Definition genSplit (s sep : list Z) (sepSave n : Z) : outcome (list (list Z)) :=
  if n =? 0 then Val []
  else if zlen sep =? 0 then explode s n
  else
    n ← (if n <? 0 then c ← Count s sep; Val (c + 1) else Val n);
    '(a, s, i) ← split_loop (S (length s)) (make [] n) s sep sepSave 0 (n - 1);
    a ← store a i s;
    slice a 0 (i + 1).

Definition SplitN (s sep : list Z) (n : Z) : outcome (list (list Z)) := genSplit s sep 0 n.
Definition SplitAfterN (s sep : list Z) (n : Z) : outcome (list (list Z)) := genSplit s sep (zlen sep) n.
Definition Split (s sep : list Z) : outcome (list (list Z)) := genSplit s sep 0 (-1).
Definition SplitAfter (s sep : list Z) : outcome (list (list Z)) := genSplit s sep (zlen sep) (-1).

(** ** Building slices *)

(** [copy(b[w:], v)] *)
Definition copy_at (b : list Z) (w : Z) (v : list Z) : outcome (list Z * Z) :=
  if decide (0 <= w <= zlen b) then
    let m := Nat.min (length b - Z.to_nat w) (length v) in
    Val (take (Z.to_nat w) b ++ take m v ++ drop (Z.to_nat w + m) b, Z.of_nat m)
  else Panic SliceBounds.

(** [w += copy(b[w:], v)] *)
Definition append_at (bw : list Z * Z) (v : list Z) : outcome (list Z * Z) :=
  '(b, m) ← copy_at (fst bw) (snd bw) v; Val (b, snd bw + m).

Definition make_bytes (n : Z) : outcome (list Z) := if n <? 0 then Panic Explicit else Val (make 0 n).

Fixpoint join_loop (bw : list Z * Z) (sep : list Z) (s : list (list Z)) : outcome (list Z * Z) :=
  match s with
  | [] => Val bw
  | v :: s => bw ← append_at bw sep; bw ← append_at bw v; join_loop bw sep s
  end.

Definition Join (s : list (list Z)) (sep : list Z) : outcome (list Z) :=
  match s with
  | [] => Val []
  | [v] => Val v
  | v0 :: rest =>
      let n := zlen sep * (zlen s - 1) in
      let n := foldl (λ n v, n + zlen v) n s in
      b ← make_bytes n;
      bw ← append_at (b, 0) v0;
      '(b, _) ← join_loop bw sep rest;
      Val b
  end.

(** One turn of the loop of Replace: the buffer, its fill and [start]. *)
Definition replace_turn (s old new : list Z) (i : Z) (st : list Z * Z * Z) : outcome (list Z * Z * Z) :=
  let '(t, w, start) := st in
  rest ← slice s start (zlen s);
  j ← (if zlen old =? 0 then if 0 <? i then '(_, wid) ← DecodeRune rest; Val (start + wid) else Val start
       else k ← Index rest old; Val (start + k));
  p ← slice s start j;
  tw ← append_at (t, w) p;
  '(t, w) ← append_at tw new;
  Val (t, w, j + zlen old).

Definition Replace (s old new : list Z) (n : Z) : outcome (list Z) :=
  m ← (if negb (n =? 0) then Count s old else Val 0);
  if m =? 0 then Val s
  else
    let n := if (n <? 0) || (m <? n) then m else n in
    t ← make_bytes (zlen s + n * (zlen new - zlen old));
    '(t, w, start) ← for_up 0 n (replace_turn s old new) (t, 0, 0);
    rest ← slice s start (zlen s);
    '(t, w) ← append_at (t, w) rest;
    slice t 0 w.

Definition ReplaceAll (s old new : list Z) : outcome (list Z) := Replace s old new (-1).

Fixpoint repeat_loop (fuel : nat) (nb : list Z) (bp : Z) : outcome (list Z) :=
  match fuel with
  | O => NoFuel
  | S fuel =>
      if bp <? zlen nb then
        v ← slice nb 0 bp;
        '(nb, _) ← copy_at nb bp v;
        repeat_loop fuel nb (bp * 2)
      else Val nb
  end.

Definition Repeat (b : list Z) (count : Z) : outcome (list Z) :=
  if count =? 0 then Val []
  else if count <? 0 then Panic Explicit
  else if negb (Z.quot (i64 (zlen b * count)) count =? zlen b) then Panic Explicit
  else
    nb ← make_bytes (i64 (zlen b * count));
    '(nb, bp) ← append_at (nb, 0) b;
    repeat_loop (S (length nb)) nb bp.

Example index_example : Index [1; 2; 1; 2; 3; 4] [1; 2; 3] = Val 2.
Proof. reflexivity. Qed.
Example last_index_example : LastIndex [1; 2; 1; 2; 3; 4] [1; 2] = Val 2 /\ LastIndex [1; 2; 1; 2; 3; 4] [2; 2] = Val (-1).
Proof. by vm_compute. Qed.
Example split_example : SplitN [1; 0; 2; 0; 0; 3] [0] 3 = Val [[1]; [2]; [0; 3]].
Proof. reflexivity. Qed.
Example replace_example : Replace [1; 0; 2; 0; 0; 3] [0] [7; 7] 2 = Val [1; 7; 7; 2; 7; 7; 0; 3].
Proof. reflexivity. Qed.
Example replace_empty : Replace [1; 2] [] [7] (-1) = Val [7; 1; 7; 2; 7].
Proof. reflexivity. Qed.

(** ** Occurrences *)

(** [sep] is in [s] at [i]; [r] is the first (last) such place, or -1. *)
Definition occ (s sep : list Z) (i : Z) : Prop := 0 <= i /\ i + zlen sep <= zlen s /\ take (length sep) (drop (Z.to_nat i) s) = sep.
Definition is_first (s sep : list Z) (r : Z) : Prop :=
  (r = -1 /\ forall i, ~ occ s sep i) \/ (occ s sep r /\ forall i, i < r -> ~ occ s sep i).
Definition is_last (s sep : list Z) (r : Z) : Prop :=
  (r = -1 /\ forall i, ~ occ s sep i) \/ (occ s sep r /\ forall i, r < i -> ~ occ s sep i).

Definition elem (s : list Z) (i : Z) : Z := tab s i.

Lemma index_byte s i : 0 <= i < zlen s -> index s i = Val (elem s i).
Proof.
  intros Hi. destruct (lookup_lt_is_Some_2 s (Z.to_nat i)) as [x Hx]; [lia|].
  rewrite (index_Val s i x) by (done || lia). unfold elem, tab. by erewrite nth_lookup_Some.
Qed.

Lemma elem_lookup s i x : 0 <= i -> s !! Z.to_nat i = Some x -> elem s i = x.
Proof. intros Hi Hx. unfold elem, tab. by erewrite nth_lookup_Some. Qed.

Lemma lookup_elem s i : 0 <= i < zlen s -> s !! Z.to_nat i = Some (elem s i).
Proof.
  intros Hi. destruct (lookup_lt_is_Some_2 s (Z.to_nat i)) as [x Hx]; [lia|]. by rewrite (elem_lookup s i x ltac:(lia) Hx).
Qed.

(** An occurrence, element by element. *)
Lemma occ_elems s sep i : occ s sep i <-> 0 <= i /\ i + zlen sep <= zlen s /\ forall k, 0 <= k < zlen sep -> elem s (i + k) = elem sep k.
Proof.
  unfold occ. split.
  - intros (H1 & H2 & H3). split; [done|]. split; [done|]. intros k Hk. apply elem_lookup; [lia|].
    rewrite <- (lookup_elem sep k Hk), <- H3. rewrite lookup_take_lt by lia. rewrite lookup_drop. f_equal. lia.
  - intros (H1 & H2 & H3). split; [done|]. split; [done|]. apply list_eq. intros k. destruct (Nat.lt_ge_cases k (length sep)) as [Hk|Hk].
    + rewrite lookup_take_lt by done. rewrite lookup_drop. transitivity (Some (elem s (i + Z.of_nat k))).
      * rewrite <- lookup_elem by lia. f_equal. lia.
      * rewrite H3 by lia. rewrite <- lookup_elem by lia. f_equal. lia.
    + rewrite !lookup_ge_None_2; [done|lia|rewrite length_take; lia].
Qed.

Lemma window_eq s sep i : 0 <= i -> i + zlen sep <= zlen s -> bool_decide (take (length sep) (drop (Z.to_nat i) s) = sep) = true <-> occ s sep i.
Proof. intros H1 H2. rewrite bool_decide_eq_true. unfold occ. tauto. Qed.

Lemma occ_bound s sep i : occ s sep i -> 0 <= i <= zlen s - zlen sep.
Proof. intros (? & ? & _). lia. Qed.

Lemma occ_drop s sep i j : 0 <= j <= zlen s -> 0 <= i -> occ (drop (Z.to_nat j) s) sep i <-> occ s sep (j + i).
Proof.
  intros Hj Hi. unfold occ. rewrite length_drop, drop_drop. replace (Z.to_nat (j + i)) with (Z.to_nat j + Z.to_nat i)%nat by lia.
  split; intros (? & ? & ?); (split; [lia|split; [lia|done]]).
Qed.

Lemma is_first_intro s sep r : occ s sep r -> (forall i, i < r -> ~ occ s sep i) -> is_first s sep r.
Proof. intros. by right. Qed.

Lemma is_first_none s sep : (forall i, 0 <= i <= zlen s - zlen sep -> ~ occ s sep i) -> is_first s sep (-1).
Proof. intros H. left. split; [done|]. intros i Hi. by apply (H i); [apply occ_bound|]. Qed.

(** Looking further in what follows [j], when there is nothing before. *)
Lemma is_first_shift s sep j r : 0 <= j <= zlen s -> (forall i, i < j -> ~ occ s sep i) -> is_first (drop (Z.to_nat j) s) sep r ->
  is_first s sep (if 0 <=? r then r + j else -1).
Proof.
  intros Hj Hno [[-> H]|[H1 H2]].
  - left. split; [done|]. intros i Hi. destruct (Z.lt_ge_cases i j); [by apply (Hno i)|].
    apply (H (i - j)). apply occ_drop; [done|lia|]. by replace (j + (i - j)) with i by lia.
  - pose proof (occ_bound _ _ _ H1) as [? _]. rewrite (proj2 (Z.leb_le _ _)) by done. right.
    split; [rewrite Z.add_comm; by apply occ_drop in H1|]. intros i Hi Ho. destruct (Z.lt_ge_cases i j); [by apply (Hno i)|].
    apply (H2 (i - j)); [lia|]. apply occ_drop; [done|lia|]. by replace (j + (i - j)) with i by lia.
Qed.

Lemma is_first_unique s sep r r' : is_first s sep r -> is_first s sep r' -> r = r'.
Proof.
  intros [[-> H]|[H1 H2]] [[-> H']|[H1' H2']]; [done|by destruct (H r')|by destruct (H' r)|].
  destruct (Z.lt_trichotomy r r') as [?|[?|?]]; [by destruct (H2' r)|done|by destruct (H2 r')].
Qed.

(** ** The primitives *)

Lemma first_stop_spec (p : Z -> bool) hi r : 0 <= r <= hi -> (forall k, 0 <= k < r -> p k = true) -> (r < hi -> p r = false) ->
  (first_stop r hi = -1 /\ forall k, 0 <= k < hi -> p k = true)
  \/ (0 <= first_stop r hi < hi /\ p (first_stop r hi) = false /\ forall k, 0 <= k < first_stop r hi -> p k = true).
Proof.
  intros Hr Hall Hst. unfold first_stop. destruct (Z.ltb_spec r hi); [right|left].
  - split; [lia|]. split; [auto|done].
  - split; [done|]. intros k Hk. apply Hall. lia.
Qed.

Lemma IndexByte_spec b c : exists r, bytealg_IndexByte b c = Val r /\
  ((r = -1 /\ forall k, 0 <= k < zlen b -> elem b k <> c) \/ (0 <= r < zlen b /\ elem b r = c /\ forall k, 0 <= k < r -> elem b k <> c)).
Proof.
  unfold bytealg_IndexByte. destruct (scan_up_spec (λ i, negb (elem b i =? c)) 0 (zlen b) (λ i, x ← index b i; Val (negb (x =? c)))) as (r & -> & Hr & Hall & Hst); [lia| |].
  { intros k Hk. by rewrite index_byte. }
  cbn [mbind outcome_bind]. eexists. split; [done|].
  destruct (first_stop_spec _ (zlen b) r ltac:(lia) Hall Hst) as [[-> H]|(H1 & H2 & H3)]; [left|right].
  - split; [done|]. intros k Hk. specialize (H k Hk). cbn beta in H. lia.
  - split; [done|]. cbn beta in *. split; [lia|]. intros k Hk. specialize (H3 k Hk). cbn beta in H3. lia.
Qed.

Lemma occ_1 s c i : occ s [c] i <-> 0 <= i < zlen s /\ elem s i = c.
Proof.
  rewrite occ_elems. cbn [length]. split.
  - intros (H1 & H2 & H3). split; [lia|]. rewrite <- (Z.add_0_r i). by rewrite H3 by lia.
  - intros [H1 H2]. split; [lia|]. split; [lia|]. intros k Hk. assert (k = 0) as -> by lia. by rewrite Z.add_0_r.
Qed.

Lemma IndexByte_first s c : exists r, bytealg_IndexByte s c = Val r /\ is_first s [c] r.
Proof.
  destruct (IndexByte_spec s c) as (r & E & H). exists r. split; [done|]. destruct H as [[-> H]|(H1 & H2 & H3)].
  - left. split; [done|]. intros i [Hi He]%occ_1. by apply (H i).
  - right. split; [by apply occ_1|]. intros i Hi [Hi' He]%occ_1. apply (H3 i); [lia|done].
Qed.

Lemma bytealg_Index_first s sep : exists r, bytealg_Index s sep = Val r /\ is_first s sep r.
Proof.
  unfold bytealg_Index. destruct (Z.ltb_spec (zlen s) (zlen sep)).
  { exists (-1). split; [done|]. apply is_first_none. lia. }
  set (hi := zlen s - zlen sep + 1).
  destruct (scan_up_spec (λ i, negb (bool_decide (take (length sep) (drop (Z.to_nat i) s) = sep))) 0 hi
    (λ i, j ← scan_up 0 (zlen sep) (λ j, x ← index s (i + j); y ← index sep j; Val (x =? y)); Val (j <? zlen sep))) as (r & -> & Hr & Hall & Hst); [lia| |].
  { intros i Hi. destruct (scan_up_spec (λ j, elem s (i + j) =? elem sep j) 0 (zlen sep) (λ j, x ← index s (i + j); y ← index sep j; Val (x =? y)))
      as (j & -> & Hj & Hj1 & Hj2); [lia|intros k Hk; by rewrite !index_byte by lia|]. cbn [mbind outcome_bind]. f_equal.
    destruct (Z.ltb_spec j (zlen sep)) as [Hlt|Hge].
    - symmetry. apply negb_true_iff, bool_decide_eq_false_2. intros Heq. assert (Ho : occ s sep i) by (split; [lia|]; split; [lia|done]).
      apply occ_elems in Ho as (_ & _ & Ho). specialize (Ho j ltac:(lia)). specialize (Hj2 Hlt). cbn beta in Hj2. lia.
    - symmetry. apply negb_false_iff. apply (window_eq s sep i); [lia|lia|]. apply occ_elems. split; [lia|]. split; [lia|].
      intros k Hk. specialize (Hj1 k ltac:(lia)). cbn beta in Hj1. lia. }
  cbn [mbind outcome_bind]. eexists. split; [done|].
  destruct (first_stop_spec _ hi r ltac:(lia) Hall Hst) as [[-> H1]|(H1 & H2 & H3)].
  - apply is_first_none. intros i Hi Ho. specialize (H1 i ltac:(lia)). cbn beta in H1. apply negb_true_iff in H1.
    apply (window_eq s sep i) in Ho; [congruence|lia|lia].
  - right. cbn beta in *. apply negb_false_iff in H2. split; [apply (window_eq s sep _); [lia|lia|done]|].
    intros i Hi Ho. pose proof (occ_bound _ _ _ Ho). specialize (H3 i ltac:(lia)). cbn beta in H3. apply negb_true_iff in H3.
    apply (window_eq s sep i) in Ho; [congruence|lia|lia].
Qed.

(** ** Rabin-Karp *)

Lemma for_up_foldl {A} (f : A -> Z -> A) (l : list Z) n s0 : 0 <= n <= zlen l ->
  for_up 0 n (λ i s, c ← index l i; Val (f s c)) s0 = Val (foldl f s0 (take (Z.to_nat n) l)).
Proof.
  intros Hn. destruct (for_up_inv (λ i s, s = foldl f s0 (take (Z.to_nat i) l)) 0 n (λ i s, c ← index l i; Val (f s c)) s0) as (s & -> & ->); [lia|done| |done].
  intros i s Hi ->. rewrite index_byte by lia. eexists. split; [done|].
  replace (Z.to_nat (i + 1)) with (S (Z.to_nat i)) by lia. rewrite (take_S_r _ _ (elem l i)) by (apply lookup_elem; lia). by rewrite foldl_snoc.
Qed.

Lemma for_down_foldl {A} (f : A -> Z -> A) (l : list Z) lo s0 : 0 <= lo <= zlen l ->
  for_down (zlen l - 1) lo (λ i s, c ← index l i; Val (f s c)) s0 = Val (foldl f s0 (rev (drop (Z.to_nat lo) l))).
Proof.
  intros Hn. destruct (for_down_inv (λ i s, s = foldl f s0 (rev (drop (Z.to_nat (i + 1)) l))) (zlen l - 1) lo (λ i s, c ← index l i; Val (f s c)) s0) as (s & -> & ->); [lia| | |].
  - by rewrite drop_ge by lia.
  - intros i s Hi ->. rewrite index_byte by lia. eexists. split; [done|]. replace (Z.to_nat (i - 1 + 1)) with (Z.to_nat i) by lia.
    rewrite (drop_S l (elem l i) (Z.to_nat i)) by (apply lookup_elem; lia). replace (Z.to_nat (i + 1)) with (S (Z.to_nat i)) by lia.
    cbn [rev]. by rewrite foldl_snoc.
  - by replace (lo - 1 + 1) with lo by lia.
Qed.

(** The polynomial behind the hash. *)
Definition poly (l : list Z) : Z := foldl (λ h c, h * primeRK + c) 0 l.

Lemma poly_snoc l c : poly (l ++ [c]) = poly l * primeRK + c.
Proof. unfold poly. by rewrite foldl_snoc. Qed.

Lemma poly_cons d l : poly (d :: l) = d * primeRK ^ zlen l + poly l.
Proof.
  induction l as [|c l IH] using rev_ind; [unfold poly; cbn; lia|]. rewrite app_comm_cons, !poly_snoc, IH, zlen_snoc, Z.pow_add_r, Z.pow_1_r by lia. ring.
Qed.

Lemma hash_add_poly x c : hash_add (u32 x) c = u32 (x * primeRK + c).
Proof. unfold hash_add, wrap. by rewrite Zmult_mod_idemp_l, Zplus_mod_idemp_l. Qed.

Lemma hash_poly l : foldl hash_add 0 l = u32 (poly l).
Proof.
  induction l as [|c l IH] using rev_ind; [done|]. by rewrite foldl_snoc, IH, poly_snoc, hash_add_poly.
Qed.

Lemma roll_poly d l c : roll (u32 (poly (d :: l))) (u32 (primeRK ^ (zlen l + 1))) c d = u32 (poly (l ++ [c])).
Proof.
  unfold roll, wrap. rewrite Zplus_mod_idemp_l, Zminus_mod_idemp_l, Zminus_mod_idemp_r.
  set (P := poly (d :: l)). set (Q := primeRK ^ _). set (M := 2 ^ 32). rewrite (Z.mod_eq P M), (Z.mod_eq Q M) by done.
  replace ((P - M * (P / M)) * primeRK + c - (Q - M * (Q / M)) * d) with (P * primeRK + c - Q * d + (Q / M * d - P / M * primeRK) * M) by ring.
  rewrite Z_mod_plus_full. unfold P, Q.
  f_equal. rewrite poly_cons, poly_snoc, Z.pow_add_r, Z.pow_1_r by lia. ring.
Qed.

Lemma pow_loop_S fuel i pow sq : pow_loop (S fuel) i pow sq =
  if 0 <? i then pow_loop fuel (i >>. 1) (if negb (i &. 1 =? 0) then u32 (pow * sq) else pow) (u32 (sq * sq)) else Val pow.
Proof. done. Qed.

Lemma pow_loop_spec fuel : forall i pow sq, 0 <= i < 2 ^ Z.of_nat fuel -> is_uint 32 pow -> pow_loop (S fuel) i pow sq = Val (u32 (pow * sq ^ i)).
Proof.
  induction fuel as [|fuel IH]; intros i pow sq Hi Hp; rewrite pow_loop_S.
  - assert (i = 0) as -> by lia. cbn. by rewrite Z.mul_1_r, wrap_small.
  - destruct (Z.ltb_spec 0 i) as [H0|H0]; [|assert (i = 0) as -> by lia; cbn; by rewrite Z.mul_1_r, wrap_small].
    rewrite Nat2Z.inj_succ, Z.pow_succ_r in Hi by lia. rewrite IH.
    + f_equal. change 1 with (Z.ones 1). rewrite Z.land_ones by done. change (2 ^ 1) with 2.
      rewrite Z.shiftr_div_pow2 by done. change (2 ^ 1) with 2.
      assert (E : u32 sq ^ (i / 2) * 1 = u32 sq ^ (i / 2)) by lia.
      assert (Hsq : forall x, u32 (x * u32 (sq * sq) ^ (i / 2)) = u32 (x * sq ^ (2 * (i / 2)))).
      { intros x. unfold wrap. rewrite <- Zmult_mod_idemp_r, <- (Zmult_mod_idemp_r (sq ^ _)). do 2 f_equal.
        rewrite <- Zpower_mod by done. rewrite Z.pow_mul_r by dlia. do 2 f_equal. ring. }
      rewrite Hsq. pose proof (Z.div_mod i 2 ltac:(done)) as Hdm. destruct (Z.eqb_spec (i mod 2) 0) as [Em|Em]; cbn [negb].
      * do 2 f_equal. f_equal. lia.
      * assert (Em1 : i mod 2 = 1) by dlia. unfold wrap. rewrite Zmult_mod_idemp_l. f_equal. rewrite <- Z.mul_assoc, <- Z.pow_succ_r by dlia. f_equal. f_equal. lia.
    + rewrite Z.shiftr_div_pow2 by done. change (2 ^ 1) with 2. dlia.
    + destruct (negb _); [|done]. apply wrap_is_uint. lia.
Qed.

Lemma pow_RK (l : list Z) : pow_loop (S (length l)) (zlen l) 1 primeRK = Val (u32 (primeRK ^ zlen l)).
Proof.
  rewrite pow_loop_spec; [by rewrite Z.mul_1_l| |done]. split; [lia|]. apply Z.pow_gt_lin_r; lia.
Qed.

Lemma hashStr_spec sep : hashStr sep = Val (u32 (poly sep), u32 (primeRK ^ zlen sep)).
Proof.
  unfold hashStr. rewrite for_up_foldl by lia. cbn [mbind outcome_bind]. rewrite pow_RK. cbn [mbind outcome_bind].
  by rewrite take_ge, hash_poly by lia.
Qed.

Lemma hashStrRev_spec sep : hashStrRev sep = Val (u32 (poly (rev sep)), u32 (primeRK ^ zlen sep)).
Proof.
  unfold hashStrRev. rewrite for_down_foldl by lia. cbn [mbind outcome_bind]. rewrite pow_RK. cbn [mbind outcome_bind].
  by rewrite drop_0, hash_poly.
Qed.

(** The window of [n] bytes at [i]. *)
Definition window (s : list Z) (i : Z) (n : nat) : list Z := take n (drop (Z.to_nat i) s).

Lemma length_window s i n : 0 <= i -> i + Z.of_nat n <= zlen s -> length (window s i n) = n.
Proof. intros. unfold window. rewrite length_take, length_drop. lia. Qed.

Lemma window_cons s i n : 0 <= i -> i + Z.of_nat (S n) <= zlen s -> window s i (S n) = elem s i :: window s (i + 1) n.
Proof.
  intros Hi Hn. unfold window. rewrite (drop_S s (elem s i)) by (apply lookup_elem; lia). cbn [take].
  by replace (Z.to_nat (i + 1)) with (S (Z.to_nat i)) by lia.
Qed.

Lemma window_snoc s i n : 0 <= i -> i + Z.of_nat (S n) <= zlen s -> window s i (S n) = window s i n ++ [elem s (i + Z.of_nat n)].
Proof.
  intros Hi Hn. unfold window. apply take_S_r. rewrite lookup_drop. rewrite <- lookup_elem by lia. f_equal. lia.
Qed.

Lemma slice_window s i n : 0 <= i -> i + Z.of_nat n <= zlen s -> slice s i (i + Z.of_nat n) = Val (window s i n).
Proof. intros Hi Hn. rewrite slice_val by lia. unfold window. do 2 f_equal. lia. Qed.

(** The comparison of a window whose hash is [h]: the hash of an occurrence is that of the separator. *)
Lemma compare_window s sep i (f : list Z -> Z) : 0 <= i -> i + zlen sep <= zlen s ->
  exists b, (if f (window s i (length sep)) =? f sep then w ← slice s i (i + zlen sep); Val (Equal w sep) else Val false) = Val b
  /\ (b = true <-> occ s sep i).
Proof.
  intros Hi Hn. rewrite slice_window by done. cbn [mbind outcome_bind]. destruct (Z.eqb_spec (f (window s i (length sep))) (f sep)) as [E|E].
  - eexists. split; [done|]. unfold Equal. by apply window_eq.
  - exists false. split; [done|]. split; [done|]. intros (_ & _ & Ho). destruct E. unfold window. by rewrite Ho.
Qed.

Lemma rk_loop_spec fuel s sep : forall i, (0 < length sep)%nat -> zlen sep <= i <= zlen s -> zlen s - i < Z.of_nat fuel ->
  (forall j, j <= i - zlen sep -> ~ occ s sep j) ->
  exists r, rk_loop fuel s sep (u32 (poly sep)) (u32 (primeRK ^ zlen sep)) (u32 (poly (window s (i - zlen sep) (length sep)))) i = Val r
  /\ is_first s sep r.
Proof.
  induction fuel as [|fuel IH]; intros i Hn Hi Hf Hno; [lia|]. cbn [rk_loop].
  destruct (Z.ltb_spec i (zlen s)) as [Hlt|Hge].
  2:{ exists (-1). split; [done|]. apply is_first_none. intros j Hj. apply Hno. lia. }
  rewrite !index_byte by lia. cbn [mbind outcome_bind].
  destruct (length sep) as [|n] eqn:En; [lia|].
  assert (E : roll (u32 (poly (window s (i - Z.of_nat (S n)) (S n)))) (u32 (primeRK ^ Z.of_nat (S n))) (elem s i) (elem s (i - Z.of_nat (S n)))
    = u32 (poly (window s (i + 1 - Z.of_nat (S n)) (length sep)))).
  { rewrite En, window_cons, window_snoc by lia. rewrite <- roll_poly with (d := elem s (i - Z.of_nat (S n))).
    rewrite length_window by lia. replace (i - Z.of_nat (S n) + 1) with (i + 1 - Z.of_nat (S n)) by lia.
    replace (i + 1 - Z.of_nat (S n) + Z.of_nat n) with i by lia. by replace (Z.of_nat n + 1) with (Z.of_nat (S n)) by lia. }
  rewrite E. destruct (compare_window s sep (i + 1 - Z.of_nat (S n)) (λ w, u32 (poly w))) as (b & Eb & Hb); [lia|lia|].
  rewrite En in Eb. replace (i + 1 - Z.of_nat (S n) + Z.of_nat (S n)) with (i + 1) in Eb by lia. rewrite En. cbn beta in Eb. rewrite Eb. cbn [mbind outcome_bind].
  destruct b.
  - eexists. split; [done|]. right. split; [by apply Hb|]. intros j Hj. apply Hno. lia.
  - apply IH; [lia|lia|lia|]. intros j Hj Ho. destruct (Z.eq_dec j (i + 1 - Z.of_nat (S n))) as [->|]; [by apply Hb in Ho|]. apply (Hno j); [lia|done].
Qed.

Lemma indexRabinKarp_first s sep : (0 < length sep)%nat -> zlen sep <= zlen s -> exists r, indexRabinKarp s sep = Val r /\ is_first s sep r.
Proof.
  intros Hn Hs. unfold indexRabinKarp. rewrite hashStr_spec. cbn [mbind outcome_bind]. rewrite for_up_foldl by lia. cbn [mbind outcome_bind].
  rewrite hash_poly, Nat2Z.id. change (take (length sep) s) with (window s 0 (length sep)).
  destruct (compare_window s sep 0 (λ w, u32 (poly w))) as (b & Eb & Hb); [lia|lia|]. rewrite Z.add_0_l in Eb. cbn beta in Eb. rewrite Eb. cbn [mbind outcome_bind].
  destruct b.
  - exists 0. split; [done|]. right. split; [by apply Hb|]. intros i Hi Ho%occ_bound. lia.
  - pose proof (rk_loop_spec (S (length s)) s sep (zlen sep) Hn) as L. rewrite Z.sub_diag in L. apply L; [lia|lia|].
    intros j Hj Ho. pose proof (occ_bound _ _ _ Ho). assert (j = 0) as -> by lia. by apply Hb in Ho.
Qed.

(** ** Index *)

Lemma occ_head s sep c0 i : occ s sep i -> (0 < length sep)%nat -> elem sep 0 = c0 -> elem s i = c0.
Proof. intros (Hi & Hn & H)%occ_elems Hl <-. rewrite <- (Z.add_0_r i). apply H. lia. Qed.

(** Nothing is found between [i] and the next byte [c0]. *)
Lemma to_next_spec s sep i t : (0 < length sep)%nat -> t = zlen s - zlen sep + 1 -> 0 <= i < t -> (forall j, j < i -> ~ occ s sep j) ->
  exists r, to_next s (elem sep 0) i t = Val r
  /\ ((r < 0 /\ is_first s sep (-1)) \/ (i <= r < t /\ forall j, j < r -> ~ occ s sep j)).
Proof.
  intros Hn -> Hi Hno. unfold to_next. rewrite index_byte by lia. cbn [mbind outcome_bind].
  destruct (Z.eqb_spec (elem s i) (elem sep 0)); cbn [negb]; [exists i; split; [done|right; split; [lia|done]]|].
  rewrite slice_val by lia. cbn [mbind outcome_bind]. set (w := take _ (drop (Z.to_nat i) s)).
  assert (Hw : zlen w = zlen s - zlen sep + 1 - i) by (unfold w; rewrite length_take, length_drop; lia).
  assert (Hel : forall k, 0 <= k < zlen w -> elem w k = elem s (i + k)).
  { intros k Hk. apply elem_lookup; [lia|]. unfold w. rewrite lookup_take_lt by lia. rewrite lookup_drop, <- lookup_elem by lia. f_equal. lia. }
  unfold IndexByte. destruct (IndexByte_spec w (elem sep 0)) as (r & -> & Hr). cbn [mbind outcome_bind].
  assert (Hskip : forall k, 0 <= k < zlen w -> elem w k <> elem sep 0 -> ~ occ s sep (i + k)).
  { intros k Hk Hne Ho. apply Hne. rewrite Hel by done. by apply (occ_head _ sep). }
  destruct Hr as [[-> H]|(H1 & H2 & H3)].
  - exists (-1). split; [done|]. left. split; [lia|]. apply is_first_none. intros j Hj. destruct (Z.lt_ge_cases j i); [by apply Hno|].
    replace j with (i + (j - i)) by lia. apply Hskip; [lia|apply H; lia].
  - rewrite (proj2 (Z.ltb_ge _ _)) by lia. exists (i + r). split; [done|]. right. split; [lia|].
    intros j Hj. destruct (Z.lt_ge_cases j i); [by apply Hno|]. replace j with (i + (j - i)) by lia. apply Hskip; [lia|apply H3; lia].
Qed.

Lemma found_at_spec s sep i : (1 < length sep)%nat -> 0 <= i -> i + zlen sep <= zlen s ->
  exists b, found_at s sep (elem sep 1) i = Val b /\ (b = true <-> occ s sep i).
Proof.
  intros Hn Hi Hs. unfold found_at. rewrite index_byte by lia. cbn [mbind outcome_bind].
  destruct (Z.eqb_spec (elem s (i + 1)) (elem sep 1)) as [E|E].
  - rewrite slice_window by lia. cbn [mbind outcome_bind]. eexists. split; [done|]. by apply window_eq.
  - exists false. split; [done|]. split; [done|]. intros (_ & _ & H)%occ_elems. destruct E. apply H. lia.
Qed.

Lemma scan_loop_spec fuel s sep : forall i fails, (1 < length sep)%nat -> zlen sep <= zlen s -> 0 <= i <= zlen s - zlen sep + 1 ->
  zlen s - i < Z.of_nat fuel -> (forall j, j < i -> ~ occ s sep j) ->
  exists r, scan_loop fuel s sep (elem sep 0) (elem sep 1) (zlen s - zlen sep + 1) i fails = Val r /\ is_first s sep r.
Proof.
  induction fuel as [|fuel IH]; intros i fails Hn Hs Hi Hf Hno; [lia|]. cbn [scan_loop].
  destruct (Z.ltb_spec i (zlen s - zlen sep + 1)) as [Hlt|Hge].
  2:{ exists (-1). split; [done|]. apply is_first_none. intros j Hj. apply Hno. lia. }
  destruct (to_next_spec s sep i (zlen s - zlen sep + 1)) as (r & -> & Hr); [lia|done|lia|done|]. cbn [mbind outcome_bind].
  destruct Hr as [[Hr Hfst]|[Hr Hno']]; [rewrite (proj2 (Z.ltb_lt _ _)) by done; by exists (-1)|].
  rewrite (proj2 (Z.ltb_ge _ _)) by lia. destruct (found_at_spec s sep r) as (b & -> & Hb); [done|lia|lia|]. cbn [mbind outcome_bind].
  destruct b; [exists r; split; [done|]; right; split; [by apply Hb|done]|].
  assert (Hno1 : forall j, j < r + 1 -> ~ occ s sep j).
  { intros j Hj Ho. destruct (Z.eq_dec j r) as [->|]; [by apply Hb in Ho|]. apply (Hno' j); [lia|done]. }
  destruct (_ <? _).
  - rewrite slice_from by lia. cbn [mbind outcome_bind]. destruct (bytealg_Index_first (drop (Z.to_nat (r + 1)) s) sep) as (q & -> & Hq).
    cbn [mbind outcome_bind]. eexists. split; [done|]. apply is_first_shift; [lia|done|done].
  - apply IH; [done|lia|lia|lia|done].
Qed.

Lemma scan_rk_loop_spec fuel s sep : forall i fails, (1 < length sep)%nat -> zlen sep <= zlen s -> 0 <= i <= zlen s - zlen sep + 1 ->
  zlen s - i < Z.of_nat fuel -> (forall j, j < i -> ~ occ s sep j) ->
  exists r, scan_rk_loop fuel s sep (elem sep 0) (elem sep 1) (zlen s - zlen sep + 1) i fails = Val r /\ is_first s sep r.
Proof.
  induction fuel as [|fuel IH]; intros i fails Hn Hs Hi Hf Hno; [lia|]. cbn [scan_rk_loop].
  destruct (Z.ltb_spec i (zlen s - zlen sep + 1)) as [Hlt|Hge].
  2:{ exists (-1). split; [done|]. apply is_first_none. intros j Hj. apply Hno. lia. }
  destruct (to_next_spec s sep i (zlen s - zlen sep + 1)) as (r & -> & Hr); [lia|done|lia|done|]. cbn [mbind outcome_bind].
  destruct Hr as [[Hr Hfst]|[Hr Hno']]; [rewrite (proj2 (Z.ltb_lt _ _)) by done; by exists (-1)|].
  rewrite (proj2 (Z.ltb_ge _ _)) by lia. destruct (found_at_spec s sep r) as (b & -> & Hb); [done|lia|lia|]. cbn [mbind outcome_bind].
  destruct b; [exists r; split; [done|]; right; split; [by apply Hb|done]|].
  assert (Hno1 : forall j, j < r + 1 -> ~ occ s sep j).
  { intros j Hj Ho. destruct (Z.eq_dec j r) as [->|]; [by apply Hb in Ho|]. apply (Hno' j); [lia|done]. }
  destruct ((_ <=? _) && _) eqn:Ec.
  - apply andb_true_iff in Ec as [_ Hlt1%Z.ltb_lt]. rewrite slice_from by lia. cbn [mbind outcome_bind].
    destruct (indexRabinKarp_first (drop (Z.to_nat (r + 1)) s) sep) as (q & -> & Hq); [lia|rewrite length_drop; lia|].
    cbn [mbind outcome_bind]. eexists. split; [done|]. pose proof (is_first_shift s sep (r + 1) q ltac:(lia) Hno1 Hq) as H.
    rewrite Z.leb_antisym in H. destruct (q <? 0); cbn [negb] in H; [done|]. by rewrite Z.add_comm.
  - apply IH; [done|lia|lia|lia|done].
Qed.

Lemma Index_spec s sep : exists r, Index s sep = Val r /\ is_first s sep r.
Proof.
  unfold Index. destruct (Z.eqb_spec (zlen sep) 0) as [E0|E0].
  { destruct sep; [|cbn [length] in E0; lia]. exists 0. split; [done|]. right. split; [split; [done|split; [cbn [length]; lia|done]]|].
    intros i Hi Ho%occ_bound. lia. }
  destruct (Z.eqb_spec (zlen sep) 1) as [E1|E1].
  { destruct sep as [|c [|]]; [done| |cbn [length] in E1; lia]. change (index [c] 0) with (Val c). apply IndexByte_first. }
  destruct (Z.eqb_spec (zlen sep) (zlen s)) as [E2|E2].
  { unfold Equal. case_bool_decide as E.
    - exists 0. split; [done|]. subst s. right. split; [split; [done|split; [lia|by rewrite take_ge]]|]. intros i Hi Ho%occ_bound. lia.
    - exists (-1). split; [done|]. apply is_first_none. intros i Hi (_ & _ & Ho). destruct E. rewrite <- Ho.
      replace i with 0 by lia. rewrite take_ge; [done|rewrite length_drop; lia]. }
  destruct (Z.ltb_spec (zlen s) (zlen sep)); [exists (-1); split; [done|]; apply is_first_none; lia|].
  rewrite !index_byte by lia. cbn [mbind outcome_bind]. destruct (_ <=? MaxLen).
  - destruct (_ <=? MaxBruteForce); [apply bytealg_Index_first|].
    apply scan_loop_spec; [lia|lia|lia|lia|]. intros j Hj Ho%occ_bound. lia.
  - apply scan_rk_loop_spec; [lia|lia|lia|lia|]. intros j Hj Ho%occ_bound. lia.
Qed.

(** ** LastIndex *)

Lemma last_rk_loop_spec fuel s sep : forall i, (0 < length sep)%nat -> -1 <= i < zlen s - zlen sep -> i < Z.of_nat fuel - 1 ->
  (forall j, i < j -> ~ occ s sep j) ->
  exists r, last_rk_loop fuel s sep (u32 (poly (rev sep))) (u32 (primeRK ^ zlen sep)) (u32 (poly (rev (window s (i + 1) (length sep))))) i = Val r
  /\ is_last s sep r.
Proof.
  induction fuel as [|fuel IH]; intros i Hn Hi Hf Hno; [lia|]. cbn [last_rk_loop].
  destruct (Z.leb_spec 0 i) as [H0|H0].
  2:{ exists (-1). split; [done|]. left. split; [done|]. intros j Ho. apply (Hno j); [|done]. apply occ_bound in Ho. lia. }
  rewrite !index_byte by lia. cbn [mbind outcome_bind].
  destruct (length sep) as [|n] eqn:En; [lia|].
  assert (E : roll (u32 (poly (rev (window s (i + 1) (S n))))) (u32 (primeRK ^ Z.of_nat (S n))) (elem s i) (elem s (i + Z.of_nat (S n)))
    = u32 (poly (rev (window s i (S n))))).
  { rewrite (window_snoc s (i + 1)), window_cons by lia. rewrite rev_app_distr. cbn [rev app].
    rewrite <- roll_poly with (d := elem s (i + Z.of_nat (S n))). rewrite length_rev, length_window by lia.
    replace (i + 1 + Z.of_nat n) with (i + Z.of_nat (S n)) by lia. by replace (Z.of_nat n + 1) with (Z.of_nat (S n)) by lia. }
  rewrite E. destruct (compare_window s sep i (λ w, u32 (poly (rev w)))) as (b & Eb & Hb); [lia|lia|].
  rewrite En in Eb. cbn beta in Eb. rewrite Eb. cbn [mbind outcome_bind]. destruct b.
  - eexists. split; [done|]. right. split; [by apply Hb|done].
  - pose proof (IH (i - 1)) as L. replace (i - 1 + 1) with i in L by lia. apply L; [lia|lia|lia|]. intros j Hj Ho. destruct (Z.eq_dec j i) as [->|]; [by apply Hb in Ho|]. apply (Hno j); [lia|done].
Qed.

Lemma LastIndexByte_last s c : exists r, LastIndexByte s c = Val r /\ is_last s [c] r.
Proof.
  unfold LastIndexByte. destruct (scan_down_spec (λ i, negb (elem s (i - 1) =? c)) (zlen s) 0 (λ i, x ← index s (i - 1); Val (negb (x =? c)))) as (r & -> & Hr & Hall & Hst);
    [lia|intros k Hk; by rewrite index_byte by lia|]. cbn [mbind outcome_bind]. eexists. split; [done|]. cbn beta in *.
  destruct (Z.eq_dec r 0) as [->|Hr0].
  - left. split; [done|]. intros i [Hi He]%occ_1. specialize (Hall (i + 1) ltac:(lia)). replace (i + 1 - 1) with i in Hall by lia. lia.
  - right. split; [apply occ_1; split; [lia|]; specialize (Hst ltac:(lia)); lia|].
    intros i Hi [Hi' He]%occ_1. specialize (Hall (i + 1) ltac:(lia)). replace (i + 1 - 1) with i in Hall by lia. lia.
Qed.

Lemma LastIndex_spec s sep : exists r, LastIndex s sep = Val r /\ is_last s sep r.
Proof.
  unfold LastIndex. destruct (Z.eqb_spec (zlen sep) 0) as [E0|E0].
  { destruct sep; [|cbn [length] in E0; lia]. eexists. split; [done|]. right. split; [split; [lia|split; [cbn [length]; lia|done]]|].
    intros i Hi Ho%occ_bound. cbn [length] in Ho. lia. }
  destruct (Z.eqb_spec (zlen sep) 1) as [E1|E1].
  { destruct sep as [|c [|]]; [done| |cbn [length] in E1; lia]. change (index [c] 0) with (Val c). apply LastIndexByte_last. }
  destruct (Z.eqb_spec (zlen sep) (zlen s)) as [E2|E2].
  { unfold Equal. case_bool_decide as E.
    - exists 0. split; [done|]. subst s. right. split; [split; [done|split; [lia|by rewrite take_ge]]|]. intros i Hi Ho%occ_bound. lia.
    - exists (-1). split; [done|]. left. split; [done|]. intros i (Hi & Hi' & Ho). destruct E. rewrite <- Ho.
      replace i with 0 by lia. rewrite take_ge; [done|rewrite length_drop; lia]. }
  destruct (Z.ltb_spec (zlen s) (zlen sep)); [exists (-1); split; [done|]; left; split; [done|]; intros i Ho%occ_bound; lia|].
  rewrite hashStrRev_spec. cbn [mbind outcome_bind]. rewrite for_down_foldl by lia. cbn [mbind outcome_bind]. rewrite hash_poly.
  set (last := zlen s - zlen sep). assert (Ew : drop (Z.to_nat last) s = window s last (length sep)).
  { unfold window. rewrite take_ge; [done|]. rewrite length_drop. lia. }
  rewrite Ew. destruct (compare_window s sep last (λ w, u32 (poly (rev w)))) as (b & Eb & Hb); [lia|lia|].
  replace (last + zlen sep) with (zlen s) in Eb by lia. cbn beta in Eb. rewrite Eb. cbn [mbind outcome_bind]. destruct b.
  - eexists. split; [done|]. right. split; [by apply Hb|]. intros j Hj Ho%occ_bound. lia.
  - pose proof (last_rk_loop_spec (S (length s)) s sep (last - 1)) as L. replace (last - 1 + 1) with last in L by lia. apply L; [lia|lia|lia|]. intros j Hj Ho. pose proof (occ_bound _ _ _ Ho).
    assert (j = last) as -> by lia. by apply Hb in Ho.
Qed.

(** ** Splitting: the reference

    [cut c s] cuts [s] at the first [c] separators, from left to right; an empty separator is found before every rune but none
    before the first one that has been passed. *)

Section Cut.
Context (sep : list Z).

Definition next_cut (s : list Z) : Z := match Index s sep with Val r => r | _ => -1 end.

Fixpoint cut_sep (c : nat) (s : list Z) : list (list Z) :=
  match c with
  | O => [s]
  | S c => let r := next_cut s in if r <? 0 then [s] else take (Z.to_nat r) s :: cut_sep c (drop (Z.to_nat (r + zlen sep)) s)
  end.

Lemma next_cut_spec s : Index s sep = Val (next_cut s) /\ is_first s sep (next_cut s).
Proof. unfold next_cut. by destruct (Index_spec s sep) as (r & -> & H). Qed.

(** A cut leaves the separator between two shorter pieces. *)
Lemma cut_pieces s : 0 <= next_cut s ->
  s = take (Z.to_nat (next_cut s)) s ++ sep ++ drop (Z.to_nat (next_cut s + zlen sep)) s /\ next_cut s + zlen sep <= zlen s.
Proof.
  intros Hr. destruct (next_cut_spec s) as [_ [[E _]|[(H1 & H2 & H3) _]]]; [lia|]. split; [|done]. set (r := next_cut s) in *.
  rewrite <- (take_drop (Z.to_nat r) s) at 1. f_equal. rewrite <- H3 at 1.
  replace (Z.to_nat (r + zlen sep)) with (Z.to_nat r + length sep)%nat by lia. rewrite <- drop_drop. by rewrite take_drop.
Qed.

(** The elements with the separator between them. *)
Definition joined (new : list Z) (l : list (list Z)) : list Z :=
  match l with [] => [] | v :: rest => v ++ concat (map (app new) rest) end.

Lemma joined_cons new v l : l <> [] -> joined new (v :: l) = v ++ new ++ joined new l.
Proof. destruct l as [|w l]; [done|]. intros _. cbn [joined map concat]. by rewrite <- !app_assoc. Qed.

Lemma cut_sep_nonempty c s : cut_sep c s <> [].
Proof. destruct c; cbn [cut_sep]; [done|]. by destruct (_ <? 0). Qed.

Lemma joined_cut c s : joined sep (cut_sep c s) = s.
Proof.
  revert s. induction c as [|c IH]; intros s; cbn [cut_sep]; [cbn; by rewrite app_nil_r|].
  destruct (Z.ltb_spec (next_cut s) 0); [cbn; by rewrite app_nil_r|]. rewrite joined_cons by apply cut_sep_nonempty.
  rewrite IH. symmetry. by apply cut_pieces.
Qed.

Lemma length_joined new l : l <> [] -> zlen (joined new l) = zlen (joined sep l) + (zlen l - 1) * (zlen new - zlen sep).
Proof.
  destruct l as [|v l]; [done|]. intros _. cbn [joined]. rewrite !zlen_app. cbn [length].
  induction l as [|w l IH]; cbn [map concat length]; [lia|]. rewrite !length_app. lia.
Qed.

Hypothesis Hsep : sep <> [].

Lemma sep_pos : 0 < zlen sep.
Proof. destruct sep; [done|cbn [length]; lia]. Qed.

Lemma length_cut_bound c s : (length (cut_sep c s) <= S (length s))%nat.
Proof.
  revert s. induction c as [|c IH]; intros s; cbn [cut_sep length]; [lia|]. destruct (Z.ltb_spec (next_cut s) 0); cbn [length]; [lia|].
  destruct (cut_pieces s) as [_ Hl]; [done|]. pose proof sep_pos. specialize (IH (drop (Z.to_nat (next_cut s + zlen sep)) s)). rewrite length_drop in IH. lia.
Qed.

(** [length s] cuts are all of them. *)
Lemma cut_enough c c' s : (length s <= c)%nat -> (length s <= c')%nat -> cut_sep c s = cut_sep c' s.
Proof.
  revert c' s. induction c as [|c IH]; intros c' s Hc Hc'.
  - destruct s; [|cbn [length] in Hc; lia]. destruct c'; [done|]. cbn [cut_sep]. destruct (Z.ltb_spec (next_cut []) 0); [done|].
    destruct (cut_pieces []) as [_ Hl]; [done|]. pose proof sep_pos. cbn [length] in Hl. lia.
  - destruct c' as [|c'].
    + destruct s; [|cbn [length] in Hc'; lia]. cbn [cut_sep]. destruct (Z.ltb_spec (next_cut []) 0); [done|].
      destruct (cut_pieces []) as [_ Hl]; [done|]. pose proof sep_pos. cbn [length] in Hl. lia.
    + cbn [cut_sep]. destruct (Z.ltb_spec (next_cut s) 0); [done|]. destruct (cut_pieces s) as [_ Hl]; [done|]. pose proof sep_pos.
      f_equal. apply IH; rewrite length_drop; lia.
Qed.

Definition cuts (s : list Z) : list (list Z) := cut_sep (length s) s.

Lemma cuts_step s : cuts s = let r := next_cut s in if r <? 0 then [s] else take (Z.to_nat r) s :: cuts (drop (Z.to_nat (r + zlen sep)) s).
Proof.
  unfold cuts. rewrite (cut_enough (length s) (S (length s))) by lia. cbn [cut_sep]. destruct (Z.ltb_spec (next_cut s) 0); [done|].
  f_equal. destruct (cut_pieces s) as [_ Hl]; [done|]. apply cut_enough; rewrite ?length_drop; lia.
Qed.

(** With fewer cuts than there are separators, each is made. *)
Lemma length_cut c s : zlen (cut_sep c s) = Z.min (Z.of_nat c + 1) (zlen (cuts s)).
Proof.
  revert s. induction c as [|c IH]; intros s.
  - cbn [cut_sep length]. assert (zlen (cuts s) <> 0); [|lia]. pose proof (cut_sep_nonempty (length s) s). unfold cuts. destruct (cut_sep _ _); [done|cbn [length]; lia].
  - cbn [cut_sep]. rewrite cuts_step. cbn zeta. destruct (Z.ltb_spec (next_cut s) 0); [cbn [length]; lia|]. cbn [length].
    rewrite !Nat2Z.inj_succ. rewrite IH. lia.
Qed.

(** ** Count *)

Lemma count_loop_spec fuel s n : zlen s < Z.of_nat fuel -> count_loop fuel s sep n = Val (n + zlen (cuts s) - 1).
Proof.
  revert s n. induction fuel as [|fuel IH]; intros s n Hf; [lia|]. cbn [count_loop]. destruct (next_cut_spec s) as [-> Hr]. cbn [mbind outcome_bind].
  rewrite cuts_step. cbn zeta. destruct (Z.eqb_spec (next_cut s) (-1)) as [E|E].
  - rewrite E. cbn [Z.ltb Z.compare length]. f_equal. lia.
  - assert (H0 : 0 <= next_cut s) by (destruct Hr as [[? _]|[(? & _) _]]; lia). rewrite (proj2 (Z.ltb_ge _ _)) by done.
    destruct (cut_pieces s) as [_ Hl]; [done|]. rewrite slice_from by lia. cbn [mbind outcome_bind]. pose proof sep_pos.
    rewrite IH by (rewrite length_drop; lia). f_equal. cbn [length]. lia.
Qed.
End Cut.

(** Counting a byte is counting cuts. *)
Lemma count_byte_cuts c s : zlen (filter (λ x, x = c) s) = zlen (cuts [c] s) - 1.
Proof.
  remember (length s) as n eqn:Hn. revert s Hn. induction (lt_wf n) as [n _ IH]. intros s ->. rewrite (cuts_step [c]) by done. cbn zeta.
  destruct (next_cut_spec [c] s) as [_ [[-> H]|[Ho H]]].
  - cbn [Z.ltb Z.compare length]. assert (E : filter (λ x, x = c) s = []); [|by rewrite E].
    destruct (filter _ s) as [|x l] eqn:E; [done|]. exfalso. assert (Hx : x ∈ filter (λ x, x = c) s) by (rewrite E; left).
    apply list_elem_of_filter in Hx as [-> (i & Hi)%list_elem_of_lookup]. apply (H (Z.of_nat i)), occ_1.
    pose proof (lookup_lt_Some _ _ _ Hi). split; [lia|]. apply elem_lookup; [lia|]. by rewrite Nat2Z.id.
  - set (r := next_cut [c] s) in *. pose proof Ho as [Hr He]%occ_1. rewrite (proj2 (Z.ltb_ge _ _)) by lia.
    destruct (cut_pieces [c] s) as [E Hl]; [fold r; lia|]. fold r in E, Hl. change (zlen [c]) with 1 in *. set (s' := drop (Z.to_nat (r + 1)) s) in *.
    rewrite E. rewrite filter_app. cbn [app]. rewrite filter_cons_True by done.
    assert (E0 : filter (λ x, x = c) (take (Z.to_nat r) s) = []).
    { destruct (filter _ (take _ s)) as [|x l] eqn:Ef; [done|]. exfalso. assert (Hx : x ∈ filter (λ x, x = c) (take (Z.to_nat r) s)) by (rewrite Ef; left).
      apply list_elem_of_filter in Hx as [-> (i & Hi)%list_elem_of_lookup]. apply lookup_take_Some in Hi as [Hi Hir].
      pose proof (lookup_lt_Some _ _ _ Hi). apply (H (Z.of_nat i)); [lia|]. apply occ_1. split; [lia|]. apply elem_lookup; [lia|]. by rewrite Nat2Z.id. }
    rewrite E0. cbn [app length]. rewrite !Nat2Z.inj_succ. rewrite (IH (length s')); [lia| |done]. unfold s'. rewrite length_drop. lia.
Qed.

Lemma bytealg_Count_spec b c : bytealg_Count b c = Val (zlen (filter (λ x, x = c) b)).
Proof.
  unfold bytealg_Count. pose proof (for_up_foldl (λ n x, if x =? c then n + 1 else n) b (zlen b) 0 ltac:(lia)) as ->.
  rewrite take_ge by lia. f_equal. induction b as [|x b IH] using rev_ind; [done|]. rewrite foldl_snoc, IH, filter_app, zlen_app. cbn [filter list_filter].
  case_decide as E; destruct (Z.eqb_spec x c); cbn [length]; (done || lia).
Qed.

Lemma Count_spec s sep : sep <> [] -> Count s sep = Val (zlen (cuts sep s) - 1).
Proof.
  intros Hs. unfold Count. destruct (Z.eqb_spec (zlen sep) 0) as [E|_]; [destruct sep; [done|cbn [length] in E; lia]|].
  destruct (Z.eqb_spec (zlen sep) 1) as [E1|E1].
  - destruct sep as [|c [|]]; [done| |cbn [length] in E1; lia]. change (index [c] 0) with (Val c). cbn [mbind outcome_bind].
    by rewrite bytealg_Count_spec, count_byte_cuts.
  - rewrite count_loop_spec by (done || lia). f_equal. 
Qed.

(** ** Split *)

(** The pieces as genSplit stores them: all but the last with the first [sepSave] bytes of the separator. *)
Fixpoint saved (tail : list Z) (l : list (list Z)) : list (list Z) :=
  match l with
  | [] => []
  | [v] => [v]
  | v :: rest => (v ++ tail) :: saved tail rest
  end.

Lemma saved_cons tail v l : l <> [] -> saved tail (v :: l) = (v ++ tail) :: saved tail l.
Proof. by destruct l. Qed.

Lemma saved_nil l : saved [] l = l.
Proof. induction l as [|v [|w l] IH]; [done|done|]. rewrite saved_cons, IH by done. by rewrite app_nil_r. Qed.

Lemma length_saved tail l : length (saved tail l) = length l.
Proof. induction l as [|v [|w l] IH]; [done|done|]. rewrite saved_cons by done. cbn [length]. by rewrite IH. Qed.

(** Keeping the whole separator keeps everything. *)
Lemma concat_saved sep l : concat (saved sep l) = joined sep l.
Proof.
  induction l as [|v [|w l] IH]; [done|done|]. rewrite saved_cons, joined_cons by done. cbn [concat]. rewrite IH. by rewrite <- app_assoc.
Qed.

Lemma split_loop_spec sep sepSave c : sep <> [] -> 0 <= sepSave <= zlen sep -> forall fuel done s k, zlen s < Z.of_nat fuel -> (c < k)%nat ->
  exists pre last, saved (take (Z.to_nat sepSave) sep) (cut_sep sep c s) = pre ++ [last] /\ (length pre <= c)%nat
  /\ split_loop fuel (done ++ replicate k []) s sep sepSave (zlen done) (zlen done + Z.of_nat c)
     = Val (done ++ pre ++ replicate (k - length pre) [], last, zlen done + zlen pre).
Proof.
  intros Hsep Hsave. induction c as [|c IH]; intros fuel dn s k Hf Hk; (destruct fuel as [|fuel]; [lia|]); cbn [split_loop cut_sep].
  - rewrite (proj2 (Z.ltb_ge _ _)) by lia. exists [], s. split; [done|]. split; [done|]. rewrite Nat.sub_0_r. cbn [app length]. by rewrite Z.add_0_r.
  - rewrite (proj2 (Z.ltb_lt (zlen dn) _)) by lia. destruct (next_cut_spec sep s) as [-> _]. cbn [mbind outcome_bind].
    destruct (Z.ltb_spec (next_cut sep s) 0) as [Hn|Hn].
    { exists [], s. split; [done|]. split; [cbn [length]; lia|]. rewrite Nat.sub_0_r. cbn [app length]. by rewrite Z.add_0_r. }
    destruct (cut_pieces sep s Hn) as [E Hl]. pose proof (sep_pos sep Hsep). set (r := next_cut sep s) in *.
    assert (Ep : slice s 0 (r + sepSave) = Val (take (Z.to_nat r) s ++ take (Z.to_nat sepSave) sep)).
    { rewrite slice_take by lia. f_equal. rewrite E at 1. rewrite take_app. f_equal.
      - apply take_ge. rewrite length_take. lia.
      - rewrite length_take, take_app_le by lia. f_equal. lia. }
    rewrite Ep. cbn [mbind outcome_bind]. destruct k as [|k]; [lia|]. cbn [replicate].
    rewrite store_app. cbn [mbind outcome_bind]. rewrite slice_from by lia. cbn [mbind outcome_bind].
    destruct (IH fuel (dn ++ [take (Z.to_nat r) s ++ take (Z.to_nat sepSave) sep]) (drop (Z.to_nat (r + zlen sep)) s) k) as (pre & last & Hc & Hlp & Hloop);
      [rewrite length_drop; lia|lia|].
    exists ((take (Z.to_nat r) s ++ take (Z.to_nat sepSave) sep) :: pre), last. rewrite saved_cons by apply cut_sep_nonempty. rewrite Hc.
    split; [done|]. split; [cbn [length]; lia|]. rewrite zlen_snoc, <- app_assoc in Hloop. cbn [app] in Hloop.
    replace (zlen dn + Z.of_nat (S c)) with (zlen dn + 1 + Z.of_nat c) by lia. rewrite Hloop. cbn [length Nat.sub].
    rewrite <- app_assoc. cbn [app]. f_equal. f_equal. lia.
Qed.

(** The number of cuts that an argument [n] allows. *)
Definition allowed (s : list Z) (n : Z) : nat := if n <? 0 then length s else Z.to_nat (n - 1).

Lemma cut_all sep c s : sep <> [] -> zlen (cuts sep s) <= Z.of_nat c + 1 -> cut_sep sep c s = cuts sep s.
Proof.
  intros Hsep. revert s. induction c as [|c IH]; intros s; rewrite cuts_step by done; cbn zeta; cbn [cut_sep].
  - destruct (Z.ltb_spec (next_cut sep s) 0); [done|]. cbn [length]. pose proof (cut_sep_nonempty sep (length (drop (Z.to_nat (next_cut sep s + zlen sep)) s)) (drop (Z.to_nat (next_cut sep s + zlen sep)) s)) as Hne.
    unfold cuts. destruct (cut_sep _ _ _); [done|cbn [length]; lia].
  - destruct (Z.ltb_spec (next_cut sep s) 0); [done|]. cbn [length]. intros Hl. f_equal. apply IH. lia.
Qed.

Lemma genSplit_spec s sep sepSave n : sep <> [] -> n <> 0 -> 0 <= sepSave <= zlen sep ->
  genSplit s sep sepSave n = Val (saved (take (Z.to_nat sepSave) sep) (cut_sep sep (allowed s n) s)).
Proof.
  intros Hsep Hn Hsave. unfold genSplit. rewrite (proj2 (Z.eqb_neq n 0)) by done. pose proof (sep_pos sep Hsep). rewrite (proj2 (Z.eqb_neq _ 0)) by lia.
  assert (Hc : exists c, (if n <? 0 then c ← Count s sep; Val (c + 1) else Val n) = Val (Z.of_nat c + 1) /\ cut_sep sep (allowed s n) s = cut_sep sep c s).
  { unfold allowed. destruct (Z.ltb_spec n 0); [|exists (Z.to_nat (n - 1)); split; [f_equal; lia|done]].
    rewrite Count_spec by done. cbn [mbind outcome_bind]. pose proof (cut_sep_nonempty sep (length s) s) as Hne. fold (cuts sep s) in *.
    assert (0 < zlen (cuts sep s)) by (destruct (cuts sep s); [done|cbn [length]; lia]).
    exists (Nat.pred (length (cuts sep s))). split; [f_equal; lia|]. symmetry. apply cut_all; [done|lia]. }
  destruct Hc as (c & -> & ->). cbn [mbind outcome_bind].
  destruct (split_loop_spec sep sepSave c Hsep Hsave (S (length s)) [] s (S c)) as (pre & last & Hcut & Hlp & Hloop); [lia|lia|].
  cbn [app length] in Hloop. change (Z.of_nat 0) with 0 in Hloop. rewrite !Z.add_0_l in Hloop.
  replace (Z.of_nat c + 1 - 1) with (Z.of_nat c) by lia. unfold make. replace (Z.to_nat (Z.of_nat c + 1)) with (S c) by lia.
  rewrite Hloop. cbn [mbind outcome_bind]. destruct (S c - length pre)%nat as [|k] eqn:Ek; [lia|]. cbn [replicate]. rewrite store_app. cbn [mbind outcome_bind].
  rewrite Hcut. replace (pre ++ last :: replicate k []) with ((pre ++ [last]) ++ replicate k []) by (by rewrite <- app_assoc).
  rewrite <- zlen_snoc with (x := last). apply slice_app_l.
Qed.

(** ** Join *)

Lemma append_at_spec dn junk v : (length v <= length junk)%nat ->
  append_at (dn ++ junk, zlen dn) v = Val (dn ++ v ++ drop (length v) junk, zlen dn + zlen v).
Proof.
  intros Hv. unfold append_at, copy_at. cbn [fst snd]. rewrite decide_True by (rewrite zlen_app; lia). cbn [mbind outcome_bind].
  rewrite Nat2Z.id, length_app. replace (length dn + length junk - length dn)%nat with (length junk) by lia. rewrite Nat.min_r by lia.
  rewrite take_app_length, (take_ge v) by lia. by rewrite drop_app_add.
Qed.

Lemma join_loop_spec sep s : forall dn junk, (length (concat (map (app sep) s)) <= length junk)%nat ->
  join_loop (dn ++ junk, zlen dn) sep s
  = Val (dn ++ concat (map (app sep) s) ++ drop (length (concat (map (app sep) s))) junk, zlen dn + zlen (concat (map (app sep) s))).
Proof.
  induction s as [|v s IH]; intros dn junk Hj; cbn [join_loop map concat] in *; [by rewrite Z.add_0_r|].
  rewrite !length_app in Hj. rewrite append_at_spec by lia. cbn [mbind outcome_bind].
  rewrite app_assoc, <- zlen_app, append_at_spec by (rewrite length_drop; lia). cbn [mbind outcome_bind].
  rewrite app_assoc, <- zlen_app, IH by (rewrite !length_drop; lia). rewrite !drop_drop, !length_app, <- !app_assoc, Nat.add_assoc. f_equal. f_equal. lia.
Qed.

Lemma Join_spec s sep : Join s sep = Val (joined sep s).
Proof.
  destruct s as [|v [|w s]]; [done|by cbn; rewrite app_nil_r|]. unfold Join. set (rest := w :: s).
  set (n := foldl _ _ _). assert (Hn : n = zlen (joined sep (v :: rest))).
  { unfold n. assert (F : forall l (a : Z), foldl (λ (n : Z) (v : list Z), n + zlen v) a l = a + zlen (concat l)).
    { induction l as [|x l IH]; intros a; cbn [foldl concat]; [cbn; lia|]. rewrite IH, zlen_app. lia. }
    rewrite F. cbn [joined]. rewrite zlen_app. assert (G : forall l, zlen (concat (map (app sep) l)) = zlen sep * zlen l + zlen (concat l)).
    { induction l as [|x l IH]; cbn [map concat length]; [cbn; lia|]. rewrite !zlen_app, IH. lia. }
    rewrite G. cbn [concat length]. rewrite !zlen_app. lia. }
  clearbody n. subst n. unfold make_bytes. rewrite (proj2 (Z.ltb_ge _ _)) by lia. cbn [mbind outcome_bind].
  set (b := make 0 _). assert (Hb : length b = length (joined sep (v :: rest))) by (unfold b, make; rewrite length_replicate; lia).
  cbn [joined] in Hb. rewrite length_app in Hb. pose proof (append_at_spec [] b v ltac:(lia)) as E. cbn [app length] in E.
  change (Z.of_nat 0) with 0 in E. rewrite E. cbn [mbind outcome_bind]. rewrite Z.add_0_l, join_loop_spec by (rewrite length_drop; lia).
  cbn [mbind outcome_bind]. rewrite drop_ge by (rewrite length_drop; lia). by rewrite app_nil_r.
Qed.

(** ** Replace *)

(** The elements, each with the separator after it. *)
Definition ended (sep : list Z) (l : list (list Z)) : list Z := concat (map (λ p, p ++ sep) l).

Lemma ended_snoc sep l p : ended sep (l ++ [p]) = ended sep l ++ p ++ sep.
Proof. unfold ended. rewrite map_app, concat_app. cbn [map concat]. by rewrite app_nil_r. Qed.

Lemma joined_app sep pre post : post <> [] -> joined sep (pre ++ post) = ended sep pre ++ joined sep post.
Proof.
  intros Hp. induction pre as [|p pre IH]; [done|]. cbn [app]. rewrite joined_cons by (by destruct pre). rewrite IH.
  unfold ended. cbn [map concat]. by rewrite <- !app_assoc.
Qed.

Section Replace.
Context (s old new : list Z) (l : list (list Z)).
Hypothesis Hl : joined old l = s.

(** Where the loop of Replace finds [old] when the pieces before have been replaced. *)
Hypothesis Hfind : forall pre p post, l = pre ++ p :: post -> post <> [] ->
  (if zlen old =? 0 then if 0 <? zlen pre then '(_, wid) ← DecodeRune (joined old (p :: post)); Val (zlen (ended old pre) + wid) else Val (zlen (ended old pre))
   else k ← Index (joined old (p :: post)) old; Val (zlen (ended old pre) + k)) = Val (zlen (ended old pre) + zlen p).

Definition replaced (i : Z) (st : list Z * Z * Z) : Prop :=
  exists pre post junk, l = pre ++ post /\ zlen pre = i /\ length (ended new pre ++ junk) = length (joined new l)
    /\ st = (ended new pre ++ junk, zlen (ended new pre), zlen (ended old pre)).

Lemma replace_turn_ok i st : 0 <= i < zlen l - 1 -> replaced i st -> exists st', replace_turn s old new i st = Val st' /\ replaced (i + 1) st'.
Proof.
  intros Hi (pre & post & junk & E & Hpre & Hlen & ->). unfold replace_turn.
  destruct post as [|p post]; [rewrite E, app_nil_r in Hi; lia|]. assert (Hpost : post <> []) by (intros ->; rewrite E, zlen_snoc in Hi; lia).
  assert (Es : s = ended old pre ++ joined old (p :: post)) by (by rewrite <- Hl, E, joined_app).
  assert (Hp : joined old (p :: post) = p ++ old ++ joined old post) by (by apply joined_cons).
  rewrite slice_from by (rewrite Es, zlen_app; lia). cbn [mbind outcome_bind].
  replace (drop (Z.to_nat (zlen (ended old pre))) s) with (joined old (p :: post)) by (rewrite Es, Nat2Z.id; by rewrite drop_app_length).
  specialize (Hfind pre p post E Hpost). rewrite <- Hpre. rewrite Hfind. cbn [mbind outcome_bind].
  assert (Ep : slice s (zlen (ended old pre)) (zlen (ended old pre) + zlen p) = Val p).
  { rewrite slice_val by (rewrite ?Es, ?Hp, ?zlen_app; lia). rewrite Es, Nat2Z.id, drop_app_length, Hp. f_equal. apply take_app_length'. lia. }
  rewrite Ep. cbn [mbind outcome_bind]. rewrite E, joined_app, joined_cons, !length_app in Hlen by done.
  rewrite append_at_spec by lia. cbn [mbind outcome_bind].
  pose proof (append_at_spec (ended new pre ++ p) (drop (length p) junk) new) as Ea. rewrite <- !app_assoc, zlen_app, drop_drop, length_drop in Ea.
  rewrite Ea by lia. cbn [mbind outcome_bind]. eexists. split; [done|].
  exists (pre ++ [p]), post, (drop (length p + length new) junk). rewrite !ended_snoc, <- !app_assoc. split; [by rewrite E|].
  split; [rewrite zlen_snoc; lia|]. split; [|f_equal; [f_equal|]; rewrite !zlen_app; lia].
  rewrite E, joined_app, joined_cons by done. rewrite !length_app, length_drop. lia.
Qed.

Lemma replace_body n : zlen l = n + 1 -> 0 <= n ->
  (t ← make_bytes (zlen s + n * (zlen new - zlen old));
   '(t, w, start) ← for_up 0 n (replace_turn s old new) (t, 0, 0);
   rest ← slice s start (zlen s);
   '(t, w) ← append_at (t, w) rest;
   slice t 0 w) = Val (joined new l).
Proof.
  intros Hn Hn0. assert (Hne : l <> []) by (intros E; rewrite E in Hn; cbn [length] in Hn; lia).
  assert (Hlen : zlen s + n * (zlen new - zlen old) = zlen (joined new l)) by (rewrite (length_joined old), Hl by done; f_equal; f_equal; lia).
  rewrite Hlen. unfold make_bytes. rewrite (proj2 (Z.ltb_ge _ _)) by lia. cbn [mbind outcome_bind].
  destruct (for_up_inv replaced 0 n (replace_turn s old new) (make 0 (zlen (joined new l)), 0, 0)) as (st & -> & Hst); [done| | |].
  - exists [], l, (make 0 (zlen (joined new l))). split; [done|]. split; [done|]. split; [unfold make; cbn [ended map concat app]; rewrite length_replicate; lia|done].
  - intros i st Hi. apply replace_turn_ok. lia.
  - destruct Hst as (pre & post & junk & E & Hpre & Hlj & ->). cbn [mbind outcome_bind].
    rewrite E, zlen_app in Hn. destruct post as [|v [|]]; cbn [length] in Hn; [lia| |lia].
    assert (Es : s = ended old pre ++ v) by (rewrite <- Hl, E, joined_app by done; f_equal; cbn; by rewrite app_nil_r).
    assert (Ej : joined new l = ended new pre ++ v) by (rewrite E, joined_app by done; f_equal; cbn; by rewrite app_nil_r).
    rewrite Ej, !length_app in Hlj. rewrite slice_from by (rewrite Es, zlen_app; lia). cbn [mbind outcome_bind].
    replace (drop (Z.to_nat (zlen (ended old pre))) s) with v by (rewrite Es, Nat2Z.id; by rewrite drop_app_length).
    rewrite append_at_spec by lia. cbn [mbind outcome_bind]. rewrite drop_ge, app_nil_r by lia.
    rewrite <- zlen_app, slice_take by lia. rewrite Nat2Z.id, take_ge by done. by rewrite Ej.
Qed.
End Replace.

(** What is left after some cuts has been cut in the same way. *)
Lemma cut_suffix sep c s pre p post : sep <> [] -> cut_sep sep c s = pre ++ p :: post -> exists c', p :: post = cut_sep sep c' (joined sep (p :: post)).
Proof.
  intros Hsep. revert c s. induction pre as [|q pre IH]; intros c s E; cbn [app] in E.
  - exists c. rewrite <- E. by rewrite joined_cut.
  - destruct c as [|c]; cbn [cut_sep] in E; [by destruct pre|]. destruct (_ <? 0); [by destruct pre|]. injection E as _ E. by apply IH in E.
Qed.

Lemma cut_found sep c s p post : sep <> [] -> p :: post = cut_sep sep c s -> post <> [] -> Index s sep = Val (zlen p).
Proof.
  intros Hsep. destruct c as [|c]; cbn [cut_sep]; [by intros [= -> ->]|]. destruct (Z.ltb_spec (next_cut sep s) 0); [by intros [= -> ->]|].
  intros [= -> ->] _. destruct (next_cut_spec sep s) as [-> _]. f_equal. destruct (cut_pieces sep s) as [_ Hl]; [done|]. rewrite length_take. lia.
Qed.

Definition allowed_cuts (s : list Z) (n : Z) : nat := if n <? 0 then length s else Z.to_nat n.

Lemma Replace_spec s old new n : old <> [] -> Replace s old new n = Val (joined new (cut_sep old (allowed_cuts s n) s)).
Proof.
  intros Hold. unfold Replace, allowed_cuts. destruct (Z.eqb_spec n 0) as [->|Hn]; cbn [negb].
  { change (Val s = Val (s ++ concat [])). by rewrite app_nil_r. }
  rewrite Count_spec by done. cbn [mbind outcome_bind]. set (m := zlen (cuts old s) - 1).
  pose proof (cut_sep_nonempty old (length s) s) as Hne. fold (cuts old s) in Hne.
  assert (Hm : 0 <= m) by (unfold m; destruct (cuts old s); [done|cbn [length]; lia]).
  destruct (Z.eqb_spec m 0) as [E|Hm0].
  { rewrite cut_all by (done || lia). unfold m in E. destruct (cuts old s) as [|v [|]] eqn:Ec; [done| |cbn [length] in E; lia].
    pose proof (joined_cut old (length s) s) as Hj. fold (cuts old s) in Hj. rewrite Ec in Hj. cbn in *. rewrite app_nil_r in *. by subst v. }
  set (n' := if (n <? 0) || (m <? n) then m else n). assert (Hc : cut_sep old (if n <? 0 then length s else Z.to_nat n) s = cut_sep old (Z.to_nat n') s /\ 0 <= n' <= m).
  { unfold n'. destruct (Z.ltb_spec n 0); cbn [orb]; [|destruct (Z.ltb_spec m n)]; (split; [|lia]); [| |done].
    - symmetry. apply cut_all; [done|lia].
    - rewrite !cut_all by (done || lia). done. }
  destruct Hc as [-> Hn']. apply replace_body; [apply joined_cut| |rewrite length_cut by done; lia|lia].
  intros pre p post E Hpost. destruct (Z.eqb_spec (zlen old) 0) as [E0|_]; [destruct old; [done|cbn [length] in E0; lia]|].
  destruct (cut_suffix old _ s pre p post Hold E) as (c & Ec). by rewrite (cut_found old c _ p post Hold Ec Hpost).
Qed.

(** ** The empty separator: rune by rune *)

Definition rune_size (s : list Z) : nat := Z.to_nat (snd (dec s)).

(** The first [c] runes of [s], and the rest, which may be empty. *)
Fixpoint cut_runes (c : nat) (s : list Z) : list (list Z) :=
  match c, s with
  | O, _ | _, [] => [s]
  | S c, _ => take (rune_size s) s :: cut_runes c (drop (rune_size s) s)
  end.

Lemma cut_runes_nil c : cut_runes c [] = [[]].
Proof. by destruct c. Qed.

Lemma cut_runes_cons c s : s <> [] -> cut_runes (S c) s = take (rune_size s) s :: cut_runes c (drop (rune_size s) s).
Proof. by destruct s. Qed.

Lemma rune_size_ok s : bytes_ok s -> s <> [] -> (1 <= rune_size s <= length s)%nat /\ DecodeRune s = Val (fst (dec s), Z.of_nat (rune_size s)).
Proof. intros Hb Hs. unfold rune_size. rewrite (DecodeRune_dec s Hb). pose proof (dec_size s Hb Hs). split; [lia|]. rewrite Z2Nat.id by lia. by destruct (dec s). Qed.

Lemma cut_runes_nonempty c s : cut_runes c s <> [].
Proof. destruct c, s; cbn [cut_runes]; done. Qed.

Lemma joined_runes c s : joined [] (cut_runes c s) = s.
Proof.
  revert s. induction c as [|c IH]; intros s; [cbn; by rewrite app_nil_r|]. destruct (decide (s = [])) as [->|Hs]; [by rewrite cut_runes_nil|].
  rewrite cut_runes_cons, joined_cons by (done || apply cut_runes_nonempty). rewrite IH. apply take_drop.
Qed.

(** [length s] cuts are all of them. *)
Lemma cut_runes_enough c c' s : bytes_ok s -> (length s <= c)%nat -> (length s <= c')%nat -> cut_runes c s = cut_runes c' s.
Proof.
  revert c' s. induction c as [|c IH]; intros c' s Hb Hc Hc'; destruct (decide (s = [])) as [->|Hs]; [by rewrite !cut_runes_nil| |by rewrite !cut_runes_nil|].
  - destruct s; [done|cbn [length] in Hc; lia].
  - destruct c' as [|c']; [destruct s; [done|cbn [length] in Hc'; lia]|]. rewrite !cut_runes_cons by done. f_equal.
    destruct (rune_size_ok s) as [? _]; [done..|]. apply IH; [by apply Forall_drop|rewrite length_drop; lia..].
Qed.

Definition runes_of (s : list Z) : list (list Z) := cut_runes (length s) s.

Lemma runes_of_step s : bytes_ok s -> s <> [] -> runes_of s = take (rune_size s) s :: runes_of (drop (rune_size s) s).
Proof.
  intros Hb Hs. destruct (rune_size_ok s) as [? _]; [done..|]. unfold runes_of. rewrite (cut_runes_enough (length s) (S (length s))) by (done || lia).
  rewrite cut_runes_cons by done. f_equal. apply cut_runes_enough; [by apply Forall_drop|rewrite length_drop; lia..].
Qed.

Lemma length_cut_runes c s : bytes_ok s -> zlen (cut_runes c s) = Z.min (Z.of_nat c + 1) (zlen (runes_of s)).
Proof.
  revert s. induction c as [|c IH]; intros s Hb.
  - assert (zlen (runes_of s) <> 0); [|cbn [cut_runes]; destruct s; cbn [length]; lia].
    pose proof (cut_runes_nonempty (length s) s). unfold runes_of. destruct (cut_runes _ _); [done|cbn [length]; lia].
  - destruct (decide (s = [])) as [->|Hs]; [rewrite cut_runes_nil; cbn [runes_of cut_runes length]; lia|].
    rewrite cut_runes_cons, runes_of_step by done. cbn [length]. rewrite !Nat2Z.inj_succ, IH by (by apply Forall_drop). lia.
Qed.

Lemma cut_runes_all c s : bytes_ok s -> zlen (runes_of s) <= Z.of_nat c + 1 -> cut_runes c s = runes_of s.
Proof.
  revert s. induction c as [|c IH]; intros s Hb; (destruct (decide (s = [])) as [->|Hs]; [by rewrite cut_runes_nil|]); rewrite (runes_of_step s) by done; cbn [length].
  - pose proof (cut_runes_nonempty (length (drop (rune_size s) s)) (drop (rune_size s) s)) as Hne. unfold runes_of. destruct (cut_runes _ _); [done|cbn [length]; lia].
  - intros Hl. rewrite cut_runes_cons by done. f_equal. apply IH; [by apply Forall_drop|lia].
Qed.

Lemma runes_of_count s : bytes_ok s -> RuneCount s = Val (zlen (runes_of s) - 1).
Proof.
  intros Hb. unfold RuneCount. rewrite RuneCount_loop_decode by (done || lia). rewrite drop_0. unfold runes_of. f_equal.
  assert (H : forall fuel s, bytes_ok s -> (length s <= fuel)%nat -> zlen (cut_runes fuel s) = zlen (decode_all_fuel fuel s) + 1); [|rewrite H by done; lia].
  clear s Hb. induction fuel as [|fuel IH]; intros s Hb Hf; [destruct s; [done|cbn [length] in Hf; lia]|].
  destruct (decide (s = [])) as [->|Hs]; [done|]. rewrite decode_all_S, cut_runes_cons by done. destruct (rune_size_ok s) as [? _]; [done..|].
  cbn [length]. fold (rune_size s). rewrite !Nat2Z.inj_succ, IH; [lia|by apply Forall_drop|rewrite length_drop; lia].
Qed.

(** What explode returns: no empty piece at the end. *)
Definition nonempty (l : list (list Z)) : list (list Z) := filter (λ p, p <> []) l.

Lemma nonempty_runes c s : bytes_ok s -> s <> [] ->
  nonempty (cut_runes (S c) s) = take (rune_size s) s :: nonempty (cut_runes c (drop (rune_size s) s)).
Proof.
  intros Hb Hs. rewrite cut_runes_cons by done. unfold nonempty. rewrite filter_cons_True; [done|].
  destruct (rune_size_ok s) as [? _]; [done..|]. destruct s; [done|]. by destruct (rune_size _); [lia|].
Qed.

Lemma nonempty_enough c c' s : bytes_ok s -> (length s <= S c)%nat -> (length s <= S c')%nat -> nonempty (cut_runes c s) = nonempty (cut_runes c' s).
Proof.
  assert (Hone : forall c s, bytes_ok s -> length s = 1%nat -> nonempty (cut_runes c s) = [s]).
  { clear. intros c s Hb Hl. assert (Hs : s <> []) by (by destruct s). destruct c as [|c]; [by destruct s|]. rewrite nonempty_runes by done.
    destruct (rune_size_ok s) as [? _]; [done..|]. rewrite take_ge, drop_ge by lia. by rewrite cut_runes_nil. }
  revert c' s. induction c as [|c IH]; intros c' s Hb Hc Hc'; (destruct (decide (s = [])) as [->|Hs]; [by rewrite !cut_runes_nil|]).
  - assert (length s = 1%nat) by (destruct s; [done|cbn [length] in *; lia]). by rewrite !Hone.
  - destruct c' as [|c']; [assert (length s = 1%nat) by (destruct s; [done|cbn [length] in *; lia]); by rewrite !Hone|].
    rewrite !nonempty_runes by done. f_equal. destruct (rune_size_ok s) as [? _]; [done..|]. apply IH; [by apply Forall_drop|rewrite length_drop; lia..].
Qed.

Lemma explode_loop_spec fuel s : forall dn k n, bytes_ok s -> zlen s < Z.of_nat fuel -> zlen dn < n -> (s <> [] -> (Z.to_nat (n - zlen dn) <= k)%nat) ->
  exists j, explode_loop fuel (dn ++ replicate k []) s (zlen dn) n
    = Val ((dn ++ nonempty (cut_runes (Z.to_nat (n - zlen dn - 1)) s)) ++ replicate j [], zlen dn + zlen (nonempty (cut_runes (Z.to_nat (n - zlen dn - 1)) s))).
Proof.
  revert s. induction fuel as [|fuel IH]; intros s dn k n Hb Hf Hn Hk; [lia|]. cbn [explode_loop].
  destruct (Z.ltb_spec 0 (zlen s)) as [Hs|Hs].
  2:{ assert (s = []) as -> by (destruct s; [done|cbn [length] in Hs; lia]). rewrite cut_runes_nil. exists k. change (nonempty [[]]) with (@nil (list Z)).
      cbn [length]. by rewrite app_nil_r, Z.add_0_r. }
  assert (Hne : s <> []) by (intros ->; cbn [length] in Hs; lia). specialize (Hk Hne). destruct k as [|k]; [lia|]. cbn [replicate].
  destruct (Z.leb_spec n (zlen dn + 1)) as [Hlast|Hmore].
  - rewrite store_app. cbn [mbind outcome_bind]. replace (Z.to_nat (n - zlen dn - 1)) with 0%nat by lia. exists k.
    assert (E : nonempty (cut_runes 0 s) = [s]) by (destruct s; done). rewrite E. cbn [length]. by rewrite <- app_assoc.
  - destruct (rune_size_ok s) as [Hsz Esz]; [done..|]. rewrite Esz. cbn [mbind outcome_bind].
    rewrite slice_take by lia. cbn [mbind outcome_bind]. rewrite Nat2Z.id, store_app. cbn [mbind outcome_bind].
    rewrite slice_from by lia. cbn [mbind outcome_bind]. rewrite Nat2Z.id.
    destruct (IH (drop (rune_size s) s) (dn ++ [take (rune_size s) s]) k n) as (j & E); [by apply Forall_drop|rewrite length_drop; lia|rewrite zlen_snoc; lia|rewrite zlen_snoc; lia|].
    rewrite zlen_snoc, <- app_assoc in E. cbn [app] in E. rewrite E. exists j.
    replace (Z.to_nat (n - zlen dn - 1)) with (S (Z.to_nat (n - (zlen dn + 1) - 1))) by lia. rewrite nonempty_runes by done. cbn [length].
    rewrite <- !app_assoc. cbn [app]. f_equal. f_equal. lia.
Qed.

Lemma explode_spec s n : bytes_ok s -> explode s n = Val (nonempty (cut_runes (if n <=? 0 then length s else Z.to_nat (n - 1)) s)).
Proof.
  intros Hb. unfold explode. destruct (decide (s = [])) as [->|Hs].
  { rewrite cut_runes_nil. set (m := if n <=? 0 then zlen [] else n).
    change (slice (make (@nil Z) m) 0 0 = Val []). by rewrite slice_take by lia. }
  assert (Hl : (0 < length s)%nat) by (destruct s; [done|cbn [length]; lia]).
  destruct (Z.leb_spec n 0) as [Hn|Hn].
  - destruct (explode_loop_spec (S (length s)) s [] (length s) (zlen s)) as (j & E); [done|lia|cbn [length]; lia|cbn [length]; lia|].
    cbn [app length] in E. change (Z.of_nat 0) with 0 in E. unfold make. rewrite Nat2Z.id, E. cbn [mbind outcome_bind].
    rewrite Z.add_0_l, slice_app_l. f_equal. apply nonempty_enough; [done|lia|lia].
  - destruct (explode_loop_spec (S (length s)) s [] (Z.to_nat n) n) as (j & E); [done|lia|cbn [length]; lia|cbn [length]; lia|].
    cbn [app length] in E. change (Z.of_nat 0) with 0 in E. unfold make. rewrite E. cbn [mbind outcome_bind]. rewrite Z.sub_0_r, Z.add_0_l. by rewrite slice_app_l.
Qed.

Lemma runes_suffix c s pre p post : bytes_ok s -> cut_runes c s = pre ++ p :: post -> post <> [] -> exists r, DecodeRune (joined [] (p :: post)) = Val (r, zlen p).
Proof.
  revert c s. induction pre as [|q pre IH]; intros c s Hb E Hp; cbn [app] in E.
  - destruct c as [|c]; cbn [cut_runes] in E; [by injection E as -> <-|]. destruct (decide (s = [])) as [->|Hs]; [by injection E as -> <-|].
    pose proof (joined_runes (S c) s) as Hj. rewrite cut_runes_cons in Hj by done. change (match s with [] => [s] | _ => take (rune_size s) s :: cut_runes c (drop (rune_size s) s) end) with (cut_runes (S c) s) in E.
    rewrite cut_runes_cons in E by done. injection E as <- <-. rewrite Hj. destruct (rune_size_ok s) as [Hsz ->]; [done..|]. exists (fst (dec s)). rewrite length_take. do 2 f_equal. lia.
  - destruct (decide (s = [])) as [->|Hs]; [rewrite cut_runes_nil in E; by destruct pre|]. destruct c as [|c]; [destruct s; by destruct pre|].
    rewrite cut_runes_cons in E by done. injection E as _ E. apply IH in E; [done|by apply Forall_drop|done].
Qed.

(** Where a separator, empty or not, cuts: at most [c] times. *)
Definition pieces (sep : list Z) (c : nat) (s : list Z) : list (list Z) :=
  match sep, c with
  | _ :: _, _ => cut_sep sep c s
  | [], O => [s]
  | [], S c => [] :: cut_runes c s
  end.

(** All of them for a negative [n]. *)
Definition limit (s : list Z) (n : Z) : nat := if n <? 0 then S (length s) else Z.to_nat n.

Lemma pieces_sep sep c s : sep <> [] -> pieces sep c s = cut_sep sep c s.
Proof. by destruct sep. Qed.

Lemma Count_pieces s sep : bytes_ok s -> Count s sep = Val (zlen (pieces sep (S (length s)) s) - 1).
Proof.
  intros Hb. destruct sep as [|c sep]; [|by rewrite Count_spec, pieces_sep, (cut_enough (c :: sep) ltac:(done) (S (length s)) (length s)) by (done || lia)].
  unfold Count. change (zlen [] =? 0) with true. cbn iota. rewrite (runes_of_count s Hb). cbn [mbind outcome_bind pieces length]. unfold runes_of. f_equal. lia.
Qed.

Lemma Replace_pieces s old new n : bytes_ok s -> Replace s old new n = Val (joined new (pieces old (limit s n) s)).
Proof.
  intros Hb. destruct old as [|o old].
  2:{ rewrite Replace_spec, pieces_sep by done. unfold limit, allowed_cuts. destruct (n <? 0); [|done]. by rewrite (cut_enough (o :: old) ltac:(done) (S (length s)) (length s)) by (done || lia). }
  unfold Replace, limit. destruct (Z.eqb_spec n 0) as [->|Hn]; cbn [negb].
  { change (Val s = Val (s ++ concat [])). by rewrite app_nil_r. }
  rewrite Count_pieces by done. cbn [mbind outcome_bind pieces length]. fold (runes_of s). set (m := Z.of_nat (S (length (runes_of s))) - 1).
  pose proof (runes_of_count s Hb). pose proof (cut_runes_nonempty (length s) s) as Hne. fold (runes_of s) in Hne.
  assert (Hm : 0 < m) by (unfold m; destruct (runes_of s); [done|cbn [length]; lia]). rewrite (proj2 (Z.eqb_neq m 0)) by lia.
  set (n' := if (n <? 0) || (m <? n) then m else n).
  assert (Hc : exists c, (if n <? 0 then S (length s) else Z.to_nat n) = S c /\ cut_runes c s = cut_runes (Z.to_nat (n' - 1)) s /\ 0 < n' <= m).
  { unfold n'. destruct (Z.ltb_spec n 0); cbn [orb]; [|destruct (Z.ltb_spec m n)].
    - exists (length s). split; [done|]. split; [|lia]. symmetry. apply cut_runes_all; [done|unfold m; lia].
    - exists (Z.to_nat (n - 1)). split; [lia|]. split; [|lia]. rewrite !cut_runes_all by (done || unfold m in *; lia). done.
    - exists (Z.to_nat (n - 1)). split; [lia|]. split; [done|lia]. }
  destruct Hc as (c & -> & -> & Hn'). cbn [pieces].
  apply (replace_body s [] new ([] :: cut_runes (Z.to_nat (n' - 1)) s)); [rewrite joined_cons by apply cut_runes_nonempty; apply joined_runes| |cbn [length]; rewrite Nat2Z.inj_succ, length_cut_runes by done; unfold m in *; lia|lia].
  intros pre p post E Hpost. change (zlen [] =? 0) with true. cbn iota. destruct pre as [|q pre].
  - injection E as <- _. done.
  - injection E as _ E. rewrite (proj2 (Z.ltb_lt _ _)) by (cbn [length]; lia). destruct (runes_suffix _ s pre p post Hb E Hpost) as (r & ->). done.
Qed.

(** ** Comparing *)

(** Lexicographic order. *)
Fixpoint lex (a b : list Z) : Z :=
  match a, b with
  | [], [] => 0
  | [], _ => -1
  | _, [] => 1
  | x :: a, y :: b => if x <? y then -1 else if y <? x then 1 else lex a b
  end.

Lemma lex_common p a b : lex (p ++ a) (p ++ b) = lex a b.
Proof. induction p as [|x p IH]; [done|]. cbn [app lex]. by rewrite Z.ltb_irrefl. Qed.

Lemma take_common (a b : list Z) n : (n <= length a)%nat -> (n <= length b)%nat -> (forall k, 0 <= k < Z.of_nat n -> elem a k = elem b k) -> take n a = take n b.
Proof.
  intros Ha Hb H. apply list_eq. intros k. destruct (Nat.lt_ge_cases k n) as [Hk|Hk].
  - rewrite !lookup_take_lt by done. specialize (H (Z.of_nat k) ltac:(lia)). pose proof (lookup_elem a (Z.of_nat k) ltac:(lia)) as E1.
    pose proof (lookup_elem b (Z.of_nat k) ltac:(lia)) as E2. rewrite Nat2Z.id in *. congruence.
  - rewrite !lookup_ge_None_2; [done|rewrite length_take; lia..].
Qed.

Lemma Compare_spec a b : Compare a b = Val (lex a b).
Proof.
  unfold Compare, bytealg_Compare. set (n := Z.min (zlen a) (zlen b)).
  destruct (scan_up_spec (λ i, elem a i =? elem b i) 0 n (λ i, x ← index a i; y ← index b i; Val (x =? y))) as (r & -> & Hr & Hall & Hst); [lia|intros k Hk; by rewrite !index_byte by lia|].
  cbn [mbind outcome_bind]. assert (Ht : take (Z.to_nat r) a = take (Z.to_nat r) b).
  { apply take_common; [lia|lia|]. intros k Hk. specialize (Hall k ltac:(lia)). cbn beta in Hall. lia. }
  assert (El : lex a b = lex (drop (Z.to_nat r) a) (drop (Z.to_nat r) b)).
  { transitivity (lex (take (Z.to_nat r) a ++ drop (Z.to_nat r) a) (take (Z.to_nat r) a ++ drop (Z.to_nat r) b)); [rewrite Ht at 2; by rewrite !take_drop|apply lex_common]. }
  rewrite El. clear El.
  destruct (Z.ltb_spec r n) as [Hlt|Hge].
  - rewrite !index_byte by lia. cbn [mbind outcome_bind]. rewrite (drop_S a (elem a r)), (drop_S b (elem b r)) by (apply lookup_elem; lia).
    cbn [lex]. specialize (Hst Hlt). cbn beta in Hst. destruct (Z.ltb_spec (elem a r) (elem b r)); [done|]. by rewrite (proj2 (Z.ltb_lt _ _)) by lia.
  - destruct (Z.ltb_spec (zlen a) (zlen b)).
    + rewrite (drop_ge a) by lia. destruct (drop _ b) eqn:E; [|done]. apply (f_equal length) in E. rewrite length_drop in E. cbn [length] in E. lia.
    + destruct (Z.ltb_spec (zlen b) (zlen a)).
      * rewrite (drop_ge b) by lia. destruct (drop _ a) eqn:E; [|done]. apply (f_equal length) in E. rewrite length_drop in E. cbn [length] in E. lia.
      * by rewrite !drop_ge by lia.
Qed.

Lemma HasPrefix_spec s p : HasPrefix s p = Val (bool_decide (p `prefix_of` s)).
Proof.
  unfold HasPrefix. destruct (Z.leb_spec (zlen p) (zlen s)) as [Hl|Hl].
  - rewrite slice_take by lia. cbn [mbind outcome_bind]. f_equal. unfold Equal. apply bool_decide_ext. rewrite Nat2Z.id. split.
    + intros E. exists (drop (length p) s). rewrite <- E at 1. by rewrite take_drop.
    + intros [k ->]. by apply take_app_length.
  - f_equal. symmetry. apply bool_decide_eq_false_2. intros ?%prefix_length. lia.
Qed.

Lemma HasSuffix_spec s p : HasSuffix s p = Val (bool_decide (p `suffix_of` s)).
Proof.
  unfold HasSuffix. destruct (Z.leb_spec (zlen p) (zlen s)) as [Hl|Hl].
  - rewrite slice_from by lia. cbn [mbind outcome_bind]. f_equal. unfold Equal. apply bool_decide_ext. split.
    + intros E. exists (take (Z.to_nat (zlen s - zlen p)) s). rewrite <- E at 2. by rewrite take_drop.
    + intros [k ->]. rewrite length_app. apply drop_app_length'. lia.
  - f_equal. symmetry. apply bool_decide_eq_false_2. intros ?%suffix_length. lia.
Qed.

Lemma TrimPrefix_spec p s : TrimPrefix (p ++ s) p = Val s.
Proof.
  unfold TrimPrefix. rewrite HasPrefix_spec, bool_decide_eq_true_2 by (by exists s). cbn [mbind outcome_bind]. rewrite slice_from by (rewrite zlen_app; lia).
  by rewrite Nat2Z.id, drop_app_length.
Qed.

Lemma TrimSuffix_spec p s : TrimSuffix (s ++ p) p = Val s.
Proof.
  unfold TrimSuffix. rewrite HasSuffix_spec, bool_decide_eq_true_2 by (by exists s). cbn [mbind outcome_bind].
  replace (zlen (s ++ p) - zlen p) with (zlen s) by (rewrite zlen_app; lia). apply slice_app_l.
Qed.

(** ** Repeat *)

Fixpoint copies (n : nat) (b : list Z) : list Z := match n with O => [] | S n => b ++ copies n b end.

Lemma length_copies n b : zlen (copies n b) = Z.of_nat n * zlen b.
Proof. induction n as [|n IH]; [done|]. cbn [copies]. rewrite zlen_app, IH. lia. Qed.

Lemma copies_add n m b : copies (n + m) b = copies n b ++ copies m b.
Proof. induction n as [|n IH]; [done|]. cbn [Nat.add copies]. by rewrite IH, app_assoc. Qed.

(** The copies from a multiple of the length on begin like the copies. *)
Lemma copies_period n k b m : (m <= length (copies n b) - k * length b)%nat -> (k <= n)%nat ->
  take m (drop (k * length b) (copies n b)) = take m (copies n b).
Proof.
  intros Hm Hk. replace n with (k + (n - k))%nat by lia. rewrite copies_add. assert (Hl : length (copies k b) = (k * length b)%nat) by (pose proof (length_copies k b); lia).
  rewrite <- Hl, drop_app_length. assert (Hn : length (copies n b) = (n * length b)%nat) by (pose proof (length_copies n b); lia).
  assert (Hnk : length (copies (n - k) b) = ((n - k) * length b)%nat) by (pose proof (length_copies (n - k) b); lia).
  rewrite <- copies_add, Nat.add_comm, copies_add. symmetry. apply take_app_le. rewrite Hnk. rewrite Nat.mul_sub_distr_r. lia.
Qed.

Lemma repeat_loop_spec b n fuel : forall nb k, (length nb - k * length b < fuel)%nat -> (1 <= k)%nat -> (0 < length b)%nat ->
  length nb = length (copies n b) -> take (k * length b) nb = take (k * length b) (copies n b) ->
  repeat_loop fuel nb (Z.of_nat (k * length b)) = Val (copies n b).
Proof.
  induction fuel as [|fuel IH]; intros nb k Hf Hk Hb Hl Ht; [lia|]. cbn [repeat_loop].
  destruct (Z.ltb_spec (Z.of_nat (k * length b)) (zlen nb)) as [Hlt|Hge]; [|by rewrite !take_ge in Ht by lia; rewrite Ht].
  rewrite slice_take by lia. cbn [mbind outcome_bind]. unfold copy_at. rewrite decide_True by lia. rewrite !Nat2Z.id. cbn [mbind outcome_bind].
  set (bp := (k * length b)%nat) in *. rewrite length_take. set (m := Nat.min (length nb - bp) (Nat.min bp (length nb))).
  assert (E : take bp nb ++ take m (take bp nb) = take (bp + m) (copies n b)).
  { rewrite Ht, take_take, Nat.min_l by lia. rewrite <- (take_drop bp (take (bp + m) (copies n b))).
    rewrite take_take, Nat.min_l by lia. f_equal. rewrite <- take_drop_commute.
    symmetry. apply copies_period; [lia|]. pose proof (length_copies n b). nia. }
  replace (Z.of_nat bp * 2) with (Z.of_nat (2 * k * length b)) by lia.
  assert (H2 : (2 * k * length b)%nat = (2 * bp)%nat) by (unfold bp; lia). assert (Hbp : (0 < bp)%nat) by (unfold bp; clear -Hk Hb; nia).
  apply IH; [|lia|done| |]; rewrite ?H2.
  - rewrite app_assoc, E, length_app, length_take, length_drop. lia.
  - rewrite app_assoc, E, length_app, length_take, length_drop. lia.
  - rewrite app_assoc, E. destruct (Nat.le_gt_cases (length nb - bp) bp) as [H|H].
    + rewrite (drop_ge nb), app_nil_r by lia. by rewrite (take_ge (copies n b) (bp + m)) by lia.
    + rewrite take_app_le by (rewrite length_take; lia). rewrite take_take. f_equal. lia.
Qed.

Lemma repeat_loop_nil fuel bp : 0 <= bp -> repeat_loop (S fuel) [] bp = Val [].
Proof. intros Hb. cbn [repeat_loop]. by rewrite (proj2 (Z.ltb_ge _ _)). Qed.

(** The test by division finds every overflow. *)
Lemma overflow_test a c : 0 <= a < 2 ^ 63 -> 0 < c < 2 ^ 63 -> (Z.quot (i64 (a * c)) c =? a) = bool_decide (a * c < 2 ^ 63).
Proof.
  intros Ha Hc. case_bool_decide as H.
  - rewrite swrap_small by (unfold is_sint; nia). rewrite Z.quot_mul by lia. apply Z.eqb_refl.
  - apply Z.eqb_neq. intros E. set (x := i64 (a * c)) in *.
    assert (Hx : exists q, x = a * c + q * 2 ^ 64 /\ - 2 ^ 63 <= x < 2 ^ 63).
    { unfold x, swrap. exists (- ((a * c + 2 ^ 63) / 2 ^ 64)). pose proof (Z.div_mod (a * c + 2 ^ 63) (2 ^ 64) ltac:(done)) as Hd.
      pose proof (Z.mod_pos_bound (a * c + 2 ^ 63) (2 ^ 64) ltac:(done)). change (2 ^ (64 - 1)) with (2 ^ 63) in *. lia. }
    destruct Hx as (q & Hq & Hx). pose proof (Z.quot_rem x c ltac:(lia)) as Hd. rewrite E in Hd.
    pose proof (Z.rem_bound_abs x c ltac:(lia)). assert (q <> 0) by nia. nia.
Qed.

Lemma Repeat_spec b count : zlen b < 2 ^ 63 -> count < 2 ^ 63 ->
  Repeat b count = if (count <? 0) || bool_decide (2 ^ 63 <= zlen b * count) then Panic Explicit else Val (copies (Z.to_nat count) b).
Proof.
  intros Hb Hc. unfold Repeat. destruct (Z.eqb_spec count 0) as [->|H0].
  { cbn [Z.ltb Z.compare orb]. rewrite bool_decide_eq_false_2 by lia. done. }
  destruct (Z.ltb_spec count 0); [done|]. cbn [orb]. rewrite overflow_test by lia.
  destruct (decide (zlen b * count < 2 ^ 63)) as [Hlt|Hge]; [|by rewrite bool_decide_eq_false_2, bool_decide_eq_true_2 by lia].
  rewrite bool_decide_eq_true_2, bool_decide_eq_false_2 by lia. cbn [negb]. rewrite swrap_small by (unfold is_sint; nia).
  unfold make_bytes. rewrite (proj2 (Z.ltb_ge _ _)) by nia. cbn [mbind outcome_bind]. set (nb := make 0 (zlen b * count)).
  assert (Hl : length nb = length (copies (Z.to_nat count) b)) by (unfold nb, make; rewrite length_replicate; pose proof (length_copies (Z.to_nat count) b); nia).
  assert (Hn : exists n, Z.to_nat count = S n) by (exists (Nat.pred (Z.to_nat count)); lia). destruct Hn as (n & En).
  pose proof (append_at_spec [] nb b) as Ea. cbn [app length] in Ea. change (Z.of_nat 0) with 0 in Ea.
  rewrite Ea by (rewrite Hl, En; cbn [copies]; rewrite length_app; lia). cbn [mbind outcome_bind]. rewrite Z.add_0_l.
  destruct (decide (b = [])) as [->|Hne].
  { assert (nb = []) as -> by (apply nil_length_inv; unfold nb, make; rewrite length_replicate; cbn [length]; lia).
    assert (copies (Z.to_nat count) [] = []) as -> by (clear; induction (Z.to_nat count); done). by apply repeat_loop_nil. }
  assert (0 < length b)%nat by (destruct b; [done|cbn [length]; lia]).
  pose proof (repeat_loop_spec b (Z.to_nat count) (S (length (b ++ drop (length b) nb))) (b ++ drop (length b) nb) 1) as L.
  rewrite Nat.mul_1_l in L. apply L; [lia|lia|done| |].
  - rewrite length_app, length_drop, Hl, En. cbn [copies]. rewrite length_app. lia.
  - rewrite En. cbn [copies]. by rewrite !take_app_length.
Qed.

(** ** Properties *)

(** C27. Searching: whatever of its five methods Index takes (byte scan, equality, brute force, byte scan that turns to brute
    force or to Rabin-Karp), the result is the first occurrence of the separator, or -1 if there is none; LastIndex, by Rabin-Karp
    from the end, gives the last one; Contains tells whether there is one; and the Rabin-Karp search alone agrees with Index. *)
Theorem Index_LastIndex s sep : exists i j,
  Index s sep = Val i /\ is_first s sep i
  /\ LastIndex s sep = Val j /\ is_last s sep j
  /\ Contains s sep = Val (bool_decide (i <> -1)) /\ (i <> -1 <-> exists k, occ s sep k)
  /\ (sep <> [] -> zlen sep <= zlen s -> indexRabinKarp s sep = Val i).
Proof.
  destruct (Index_spec s sep) as (i & Ei & Hi), (LastIndex_spec s sep) as (j & Ej & Hj). exists i, j.
  split; [done|]. split; [done|]. split; [done|]. split; [done|]. split; [|split].
  - unfold Contains. rewrite Ei. cbn [mbind outcome_bind]. f_equal. destruct (Z.eqb_spec i (-1)); cbn [negb]; case_bool_decide; (done || lia).
  - destruct Hi as [[-> H]|[H _]]; [split; [done|]; intros [k Hk]; by destruct (H k)|]. split; [by exists i|]. intros _. apply occ_bound in H. lia.
  - intros Hs Hl. destruct (indexRabinKarp_first s sep) as (r & -> & Hr); [destruct sep; [done|cbn [length]; lia]|lia|]. by rewrite (is_first_unique s sep r i).
Qed.

(** No piece has a separator left. *)
Lemma cuts_clean sep s : sep <> [] -> Forall (λ p, Index p sep = Val (-1)) (cuts sep s).
Proof.
  intros Hs. remember (length s) as n eqn:Hn. revert s Hn. induction (lt_wf n) as [n _ IH]. intros s ->. rewrite cuts_step by done. cbn zeta.
  destruct (next_cut_spec sep s) as [Ei Hr]. pose proof (sep_pos sep Hs) as Hp. destruct (Z.ltb_spec (next_cut sep s) 0) as [H0|H0].
  - constructor; [|constructor]. rewrite Ei. destruct Hr as [[-> _]|[Ho _]]; [done|]. apply occ_bound in Ho. lia.
  - destruct (cut_pieces sep s H0) as [E Hl]. constructor.
    + destruct (Index_spec (take (Z.to_nat (next_cut sep s)) s) sep) as (i & -> & Hi). f_equal. apply (is_first_unique _ _ _ _ Hi).
      apply is_first_none. intros k Hk Ho. destruct Hr as [[Hr _]|[_ Hr]]; [lia|]. rewrite length_take in Hk. apply (Hr k); [lia|].
      apply occ_elems in Ho as (Hk0 & Hkl & Hel). rewrite length_take in Hkl. apply occ_elems. split; [done|]. split; [lia|]. intros j Hj. rewrite <- Hel by done.
      symmetry. apply elem_lookup; [lia|]. rewrite lookup_take_lt by lia. apply lookup_elem. lia.
    + apply (IH (length (drop (Z.to_nat (next_cut sep s + zlen sep)) s))); [rewrite length_drop; lia|done].
Qed.

Lemma cut_prefix sep c s : sep <> [] -> take c (cut_sep sep c s) = take c (cuts sep s).
Proof.
  intros Hs. revert s. induction c as [|c IH]; intros s; [done|]. cbn [cut_sep]. rewrite cuts_step by done. cbn zeta.
  destruct (_ <? 0); [done|]. cbn [take]. by rewrite IH.
Qed.

Lemma runes_last s : bytes_ok s -> runes_of s = nonempty (runes_of s) ++ [[]].
Proof.
  remember (length s) as n eqn:Hn. revert s Hn. induction (lt_wf n) as [n _ IH]. intros s -> Hb. destruct (decide (s = [])) as [->|Hs]; [done|].
  rewrite runes_of_step at 1 by done. destruct (rune_size_ok s Hb Hs) as [Hsz _]. unfold runes_of at 2. destruct (length s) as [|k] eqn:Ek; [destruct s; [done|cbn [length] in Ek; lia]|].
  rewrite nonempty_runes by done. cbn [app]. f_equal. rewrite (IH (length (drop (rune_size s) s))); [|rewrite length_drop; lia|done|by apply Forall_drop].
  f_equal. unfold runes_of. apply nonempty_enough; [by apply Forall_drop|rewrite ?length_drop; lia..].
Qed.

Lemma joined_nil l : joined [] l = concat l.
Proof.
  destruct l as [|v l]; [done|]. cbn [joined concat]. f_equal. induction l as [|w l IH]; [done|].
  change (w ++ concat (map (app []) l) = w ++ concat l). by rewrite IH.
Qed.

(** C30. Splitting, joining, counting and replacing agree: for a non-empty separator Split cuts at every occurrence from left to right
    (no piece contains the separator, Join gives the argument back, Count is one less than the number of pieces), SplitN makes the first [n-1] of these
    cuts, SplitAfter keeps the separators, and Replace with [n] is Join with the new separator of what [n] cuts give; for the
    empty separator, Split gives pieces that are together the argument and as many as RuneCount says, Count is one more, and ReplaceAll puts the new separator
    before, between and after them. *)
Theorem Split_Join_Replace s sep new : bytes_ok s ->
  (sep <> [] -> exists l, Split s sep = Val l /\ Join l sep = Val s /\ Count s sep = Val (zlen l - 1)
     /\ Forall (λ p, Index p sep = Val (-1)) l /\ ReplaceAll s sep new = Join l new
     /\ (exists l', SplitAfter s sep = Val l' /\ length l' = length l /\ concat l' = s)
     /\ forall n, 0 < n -> exists ln, SplitN s sep n = Val ln /\ Join ln sep = Val s /\ zlen ln = Z.min n (zlen l)
          /\ take (Z.to_nat (n - 1)) ln = take (Z.to_nat (n - 1)) l /\ Replace s sep new (n - 1) = Join ln new)
  /\ (exists l, Split s [] = Val l /\ concat l = s /\ RuneCount s = Val (zlen l) /\ Count s [] = Val (zlen l + 1)
     /\ ReplaceAll s [] new = Val (new ++ concat (map (λ p, p ++ new) l))).
Proof.
  intros Hb. split.
  - intros Hs. pose proof (sep_pos sep Hs) as Hp. exists (cuts sep s).
    assert (Hall : forall c, (length s <= c)%nat -> cut_sep sep c s = cuts sep s) by (intros c Hc; by apply cut_enough).
    split; [unfold Split; rewrite genSplit_spec by (done || lia); by rewrite saved_nil|]. split; [rewrite Join_spec; f_equal; apply joined_cut|].
    split; [by apply Count_spec|]. split; [by apply cuts_clean|]. split; [unfold ReplaceAll; rewrite Replace_spec, Join_spec by done; done|]. split.
    + exists (saved sep (cuts sep s)). split; [unfold SplitAfter; rewrite genSplit_spec by (done || lia); by rewrite take_ge by lia|].
      rewrite length_saved, concat_saved. split; [done|]. apply joined_cut.
    + intros n Hn. exists (cut_sep sep (Z.to_nat (n - 1)) s).
      assert (Ea : forall k, 0 <= k -> (k <? 0) = false) by (intros; lia).
      split; [unfold SplitN; rewrite genSplit_spec by (done || lia); unfold allowed; rewrite saved_nil, Ea by lia; done|].
      split; [rewrite Join_spec; f_equal; apply joined_cut|]. split; [rewrite length_cut by done; lia|]. split; [by apply cut_prefix|].
      rewrite Replace_spec, Join_spec by done. unfold allowed_cuts. by rewrite Ea by lia.
  - exists (nonempty (runes_of s)). pose proof (runes_last s Hb) as E. pose proof (runes_of_count s Hb) as Ec. rewrite E, zlen_snoc in Ec.
    split; [unfold Split, genSplit; cbn [length Z.of_nat Z.eqb]; rewrite explode_spec by done; done|].
    split; [|split; [rewrite Ec; f_equal; lia|split]].
    + transitivity (concat (runes_of s)); [|rewrite <- joined_nil; apply joined_runes]. rewrite E at 2. rewrite concat_app. cbn. by rewrite app_nil_r.
    + rewrite Count_pieces by done. cbn [pieces length]. fold (runes_of s). rewrite E at 1. rewrite length_app. cbn [length]. f_equal. lia.
    + unfold ReplaceAll. rewrite Replace_pieces by done. unfold limit. cbn [Z.ltb Z.compare pieces]. fold (runes_of s). rewrite E at 1.
      change ([] :: nonempty (runes_of s) ++ [[]]) with (([] :: nonempty (runes_of s)) ++ [[]]). rewrite joined_app by done.
      f_equal. unfold ended. cbn [map concat joined app]. by rewrite app_nil_r.
Qed.

Lemma Split_Join_Replace_witness : exists l, Split [1; 0; 2; 0] [0] = Val l /\ Join l [0] = Val [1; 0; 2; 0] /\ ReplaceAll [1; 0; 2; 0] [0] [7; 7] = Join l [7; 7].
Proof.
  destruct (Split_Join_Replace [1; 0; 2; 0] [0] [7; 7]) as [H _]; [by apply (bool_decide_unpack _); vm_compute|].
  destruct H as (l & H1 & H2 & _ & _ & H3 & _); [discriminate|]. exists l. split; [exact H1|]. split; [exact H2|exact H3].
Defined.

(** Repeat: the doubling copies yield [count] copies of the bytes; a negative count and a product of the length and the
    count that does not fit an int, which the division test always finds, panic. *)
Theorem Repeat_copies b count : zlen b < 2 ^ 63 -> count < 2 ^ 63 ->
  Repeat b count = if (count <? 0) || bool_decide (2 ^ 63 <= zlen b * count) then Panic Explicit else Val (copies (Z.to_nat count) b).
Proof. apply Repeat_spec. Qed.

Lemma Repeat_copies_witness : Repeat [1; 2; 3] 5 = Val [1; 2; 3; 1; 2; 3; 1; 2; 3; 1; 2; 3; 1; 2; 3] /\ Repeat [1; 2; 3; 4] (2 ^ 62) = Panic Explicit.
Proof.
  split; [rewrite (Repeat_copies [1; 2; 3] 5) by (cbn [length]; lia); by vm_compute|].
  rewrite (Repeat_copies [1; 2; 3; 4] (2 ^ 62)) by (cbn [length]; lia). by vm_compute.
Defined.
