(* ===== verification/Strings.v ===== *)
(** * strings: the Builder and Join

    The class strings.Builder of src/Source/Gold/Runtime.pas, with which the library replaces the Builder of Go, and Join of
    src/Source/Gold/strings/strings.go.  A Go string is a list of bytes; a string of the platform is a list of UTF-16 code units, and the
    Builder keeps one of these: the bytes are converted when they are written and converted back when the text is read (the
    operators Implicit of the record string, src/Source/Gold/string.pas).  The converter is the platform's; the class [EncodingLaws] states the
    documented behaviour that the theorems use, on text that is well-formed, and says nothing of the rest.  The capacity of the
    platform's StringBuilder is not modelled. *)

From S2P Require Import Prelude Utf8 Utf16.

Local Open Scope go_scope.

(** The platform's Encoding.UTF8. *)
Class Encoding : Type := {
  GetString : list Z -> list Z;
  GetBytes : list Z -> list Z
}.

Section Operations.
Context `{Encoding}.

(** The field fStr. *)
Definition Builder : Type := list Z.
Definition zero_Builder : Builder := [].

Definition Grow (b : Builder) (i : Z) : Builder := b.
Definition Len (b : Builder) : Z := zlen b.
Definition Reset (b : Builder) : Builder := [].
Definition WriteString (b : Builder) (s : list Z) : Builder := b ++ GetString s.
Definition WriteRune (b : Builder) (c : Z) : Builder := b ++ [c].
Definition WriteByte (b : Builder) (c : Z) : Builder := b ++ [c].
Definition Write (b : Builder) (p : list Z) : Builder * Z := (b ++ GetString p, zlen p).
(** The method String, converted to a string of Go. *)
Definition String_ (b : Builder) : list Z := GetBytes b.

Definition Join (a : list (list Z)) (sep : list Z) : list Z :=
  match a with
  | [] => []
  | [v] => v
  | v :: rest =>
      let n := i64 (zlen sep * (zlen a - 1)) in
      let n := foldl (λ n v, i64 (n + zlen v)) n a in
      let b := Grow zero_Builder n in
      let b := WriteString b v in
      let b := foldl (λ b s, WriteString (WriteString b sep) s) b rest in
      String_ b
  end.
End Operations.

(** ** What the converter does to well-formed text *)

Class EncodingLaws `{Encoding} : Prop := {
  GetString_runes rs : Forall (λ r, ValidRune r = true) rs -> GetString (concat (map utf8 rs)) = concat (map units rs);
  GetBytes_runes rs : Forall (λ r, ValidRune r = true) rs -> GetBytes (concat (map units rs)) = concat (map utf8 rs)
}.

(** A converter with these laws, which replaces what is not well-formed by U+FFFD. *)
Definition replacing_Encoding : Encoding := {|
  GetString := λ p, concat (map units (map fst (decode_all p)));
  GetBytes := λ u, concat (map utf8 (runes16 u))
|}.

Lemma decode_all_runes rs : Forall (λ r, ValidRune r = true) rs -> forall fuel, (length (concat (map utf8 rs)) <= fuel)%nat -> map fst (decode_all_fuel fuel (concat (map utf8 rs))) = rs.
Proof.
  induction 1 as [|r rs Hr _ IH]; intros fuel Hf; [by destruct fuel|]. cbn [map concat] in *. rewrite length_app in Hf. pose proof (utf8_len_pos r). destruct fuel as [|fuel]; [lia|].
  rewrite decode_all_S by (destruct (utf8 r); [cbn [length] in *; lia|done]). rewrite dec_utf8 by done. cbn [map fst snd]. rewrite drop_app_length' by lia. f_equal. apply IH. lia.
Qed.

Lemma runes16_runes rs : Forall (λ r, ValidRune r = true) rs -> runes16 (concat (map units rs)) = rs.
Proof.
  induction 1 as [|r rs Hr _ IH]; [done|]. cbn [map concat]. rewrite runes16_units, IH. f_equal. apply ValidRune_spec in Hr. unfold norm16, in_bmp.
  destruct (Z.leb_spec 0 r), (Z.ltb_spec r 0xd800), (Z.leb_spec 0xe000 r), (Z.ltb_spec r 0x10000), (Z.leb_spec 0x10000 r), (Z.leb_spec r 0x10FFFF); cbn [andb orb]; (done || lia).
Qed.

Lemma replacing_laws : @EncodingLaws replacing_Encoding.
Proof.
  split; intros rs Hrs; cbn [GetString GetBytes replacing_Encoding].
  - unfold decode_all. by rewrite decode_all_runes.
  - by rewrite runes16_runes.
Qed.

(** The bytes of a string that is not well-formed do not survive, and a byte of 0x80 or more is written as the two bytes of the rune with its number; the length counts units. *)
Example Join_invalid : @Join replacing_Encoding [[0xff]; [0x61]] [0x2f] = [0xef; 0xbf; 0xbd; 0x2f; 0x61].
Proof. reflexivity. Qed.
Example WriteByte_high : @String_ replacing_Encoding (WriteByte zero_Builder 0xe9) = [0xc3; 0xa9].
Proof. reflexivity. Qed.
Example Len_units : Len (@WriteString replacing_Encoding zero_Builder [0xc3; 0xa9]) = 1.
Proof. reflexivity. Qed.

(** ** The Builder on well-formed text *)

Section Text.
Context `{EncodingLaws}.
Implicit Types (b : Builder) (p q sep : list Z) (a : list (list Z)).

(** The builder holds the text [p]. *)
Definition holds_text b p : Prop := exists rs, Forall (λ r, ValidRune r = true) rs /\ b = concat (map units rs) /\ p = concat (map utf8 rs).

Lemma zero_text : holds_text zero_Builder [].
Proof. by exists []. Qed.

Lemma WriteString_text b p q : holds_text b p -> well_formed q -> holds_text (WriteString b q) (p ++ q).
Proof.
  intros (rs & Hrs & -> & ->) (rs' & Hrs' & ->). exists (rs ++ rs'). split; [by apply Forall_app|]. unfold WriteString. rewrite GetString_runes by done. by rewrite !map_app, !concat_app.
Qed.

Lemma String_text b p : holds_text b p -> String_ b = p.
Proof. intros (rs & Hrs & -> & ->). by apply GetBytes_runes. Qed.

(** Join of well-formed strings puts the separator between them. *)
Lemma Join_text v rest sep : Forall well_formed (v :: rest) -> well_formed sep -> Join (v :: rest) sep = v ++ concat (map (λ s, sep ++ s) rest).
Proof.
  intros [Hv Hr]%Forall_cons Hs. unfold Join, Grow. destruct rest as [|x rest]; [cbn; by rewrite app_nil_r|]. cbv zeta. apply String_text. remember (x :: rest) as l eqn:El. clear El x rest.
  pose proof (WriteString_text _ _ _ zero_text Hv) as H1. cbn [app] in H1. revert H1. generalize (WriteString zero_Builder v). revert v Hv. induction Hr as [|y l Hy _ IH]; intros v Hv b Hb; cbn [foldl map concat]; [by rewrite app_nil_r|].
  rewrite app_assoc. assert (Hb' : holds_text (WriteString (WriteString b sep) y) (v ++ sep ++ y)) by (rewrite app_assoc; by do 2 (apply WriteString_text; [|done])).
  apply IH; [|done]. destruct Hv as (r1 & ? & ->), Hs as (r2 & ? & ->), Hy as (r3 & ? & ->). exists (r1 ++ r2 ++ r3). rewrite !map_app, !concat_app. split; [|done]. by rewrite !Forall_app.
Qed.
End Text.
