(* ===== verification/Path.v ===== *)
(** * path

    Slash-separated paths (src/Source/Gold/path/path.go): the lazily built buffer and Clean, Split, Join, Ext, Base, IsAbs and Dir.
    A path is a list of bytes.  Match is not modelled.  From package strings the functions that path calls are
    LastIndex, translated here for a one-byte string as path calls it, and Join, from file Strings, which is given the converter of the platform. *)

From S2P Require Import Prelude Utf8 Bytes Strings.

Local Open Scope go_scope.

Definition slash : Z := 47.
Definition dot : Z := 46.

(** ** From package strings *)

Definition strings_LastIndexByte (s : list Z) (c : Z) : outcome Z :=
  r ← scan_down (zlen s) 0 (λ i, x ← index s (i - 1); Val (negb (x =? c)));
  Val (r - 1).

(** LastIndex for a substring of one byte. *)
Definition strings_LastIndex (s substr : list Z) : outcome Z := c ← index substr 0; strings_LastIndexByte s c.

(** ** The lazy buffer *)

Record lazybuf : Type := Lazybuf { s : list Z; buf : option (list Z); w : Z }.

Definition index_ (b : lazybuf) (i : Z) : outcome Z := match buf b with Some l => index l i | None => index (s b) i end.

Definition append (b : lazybuf) (c : Z) : outcome lazybuf :=
  let write l := l ← store l (w b) c; Val (Lazybuf (s b) (Some l) (w b + 1)) in
  match buf b with
  | Some l => write l
  | None =>
      same ← (if w b <? zlen (s b) then x ← index (s b) (w b); Val (x =? c) else Val false);
      if same : bool then Val (Lazybuf (s b) None (w b + 1))
      else
        p ← slice (s b) 0 (w b);
        '(l, _) ← copy_at (make 0 (zlen (s b))) 0 p;
        write l
  end.

Definition string (b : lazybuf) : outcome (list Z) :=
  match buf b with None => slice (s b) 0 (w b) | Some l => slice l 0 (w b) end.

(** ** Clean *)

(** [path[i] == c], for an index in range. *)
Definition is_at (path : list Z) (i c : Z) : outcome bool := x ← index path i; Val (x =? c).

(** [i == n || path[i] == '/'] *)
Definition ends_at (path : list Z) (i : Z) : outcome bool := if i =? zlen path then Val true else is_at path i slash.

Definition andm (a : outcome bool) (b : outcome bool) : outcome bool := x ← a; if x : bool then b else Val false.

(** [for out.w > dotdot && out.index(out.w) != '/' { out.w-- }] *)
Fixpoint backtrack (fuel : nat) (out : lazybuf) (dotdot : Z) : outcome lazybuf :=
  match fuel with
  | O => NoFuel
  | S fuel =>
      go ← (if dotdot <? w out then x ← index_ out (w out); Val (negb (x =? slash)) else Val false);
      if go : bool then backtrack fuel (Lazybuf (s out) (buf out) (w out - 1)) dotdot else Val out
  end.

(** Copying an element: the new [r]. *)
Fixpoint copy_element (fuel : nat) (path : list Z) (r : Z) (out : lazybuf) : outcome (Z * lazybuf) :=
  match fuel with
  | O => NoFuel
  | S fuel =>
      go ← (if r <? zlen path then x ← index path r; Val (negb (x =? slash)) else Val false);
      if go : bool then
        x ← index path r; out ← append out x; copy_element fuel path (r + 1) out
      else Val (r, out)
  end.

(** One turn of the loop: [r], [dotdot] and the buffer. *)
Definition clean_turn (path : list Z) (rooted : bool) (r dotdot : Z) (out : lazybuf) : outcome (Z * Z * lazybuf) :=
  let n := zlen path in
  c1 ← is_at path r slash;
  if c1 : bool then Val (r + 1, dotdot, out)
  else
    c2 ← andm (is_at path r dot) (ends_at path (r + 1));
    if c2 : bool then Val (r + 1, dotdot, out)
    else
      c3 ← andm (is_at path r dot) (andm (is_at path (r + 1) dot) (ends_at path (r + 2)));
      if c3 : bool then
        let r := r + 2 in
        if dotdot <? w out then
          out ← backtrack (S (length path)) (Lazybuf (s out) (buf out) (w out - 1)) dotdot;
          Val (r, dotdot, out)
        else if negb rooted then
          out ← (if 0 <? w out then append out slash else Val out);
          out ← append out dot;
          out ← append out dot;
          Val (r, w out, out)
        else Val (r, dotdot, out)
      else
        out ← (if (rooted && negb (w out =? 1)) || (negb rooted && negb (w out =? 0)) then append out slash else Val out);
        '(r, out) ← copy_element (S (length path)) path r out;
        Val (r, dotdot, out).

Fixpoint clean_loop (fuel : nat) (path : list Z) (rooted : bool) (r dotdot : Z) (out : lazybuf) : outcome lazybuf :=
  match fuel with
  | O => NoFuel
  | S fuel =>
      if r <? zlen path then
        '(r, dotdot, out) ← clean_turn path rooted r dotdot out;
        clean_loop fuel path rooted r dotdot out
      else Val out
  end.

Definition Clean (path : list Z) : outcome (list Z) :=
  if zlen path =? 0 then Val [dot]
  else
    rooted ← is_at path 0 slash;
    let out := Lazybuf path None 0 in
    out ← (if rooted : bool then append out slash else Val out);
    let r := if rooted : bool then 1 else 0 in
    out ← clean_loop (S (length path)) path rooted r r out;
    if w out =? 0 then Val [dot] else string out.

(** ** The other functions *)

Definition Split (path : list Z) : outcome (list Z * list Z) :=
  i ← strings_LastIndex path [slash];
  dir ← slice path 0 (i + 1);
  file ← slice path (i + 1) (zlen path);
  Val (dir, file).

(** The elements from the first non-empty one on. *)
Fixpoint Join `{Encoding} (elem : list (list Z)) : outcome (list Z) :=
  match elem with
  | [] => Val []
  | e :: rest => if negb (bool_decide (e = [])) then Clean (Strings.Join elem [slash]) else Join rest
  end.

Fixpoint ext_loop (fuel : nat) (path : list Z) (i : Z) : outcome (list Z) :=
  match fuel with
  | O => NoFuel
  | S fuel =>
      if 0 <=? i then
        c ← index path i;
        if c =? slash then Val []
        else if c =? dot then slice path i (zlen path)
        else ext_loop fuel path (i - 1)
      else Val []
  end.

Definition Ext (path : list Z) : outcome (list Z) := ext_loop (S (length path)) path (zlen path - 1).

Fixpoint strip_loop (fuel : nat) (path : list Z) : outcome (list Z) :=
  match fuel with
  | O => NoFuel
  | S fuel =>
      go ← (if 0 <? zlen path then is_at path (zlen path - 1) slash else Val false);
      if go : bool then path ← slice path 0 (zlen path - 1); strip_loop fuel path else Val path
  end.

Definition Base (path : list Z) : outcome (list Z) :=
  if zlen path =? 0 then Val [dot]
  else
    path ← strip_loop (S (length path)) path;
    i ← strings_LastIndex path [slash];
    path ← (if 0 <=? i then slice path (i + 1) (zlen path) else Val path);
    if zlen path =? 0 then Val [slash] else Val path.

Definition IsAbs (path : list Z) : outcome bool := if 0 <? zlen path then is_at path 0 slash else Val false.

Definition Dir (path : list Z) : outcome (list Z) := '(dir, _) ← Split path; Clean dir.

(** The string "/a/./b//../../c/../../d..": "/d..". *)
Example clean_example : Clean [47; 97; 47; 46; 47; 98; 47; 47; 46; 46; 47; 46; 46; 47; 99; 47; 46; 46; 47; 46; 46; 47; 100; 46; 46] = Val [47; 100; 46; 46].
Proof. reflexivity. Qed.
(** "a/../../b/..": "..". *)
Example clean_dotdot : Clean [97; 47; 46; 46; 47; 46; 46; 47; 98; 47; 46; 46] = Val [46; 46].
Proof. reflexivity. Qed.

(** ** Specification of Clean: a stack of elements *)

(** The elements between slashes, empty ones included. *)
Fixpoint elements (p : list Z) : list (list Z) :=
  match p with
  | [] => [[]]
  | c :: p => if c =? slash then [] :: elements p else match elements p with e :: es => (c :: e) :: es | [] => [[c]] end
  end.

Definition parent : list Z := [dot; dot].

(** The effect of an element on the stack, whose top is the head of the list. *)
Definition step (rooted : bool) (st : list (list Z)) (e : list Z) : list (list Z) :=
  if bool_decide (e = []) || bool_decide (e = [dot]) then st
  else if bool_decide (e = parent) then
    match st with
    | top :: st' => if bool_decide (top = parent) then e :: st else st'
    | [] => if rooted then [] else [e]
    end
  else e :: st.

Definition render (rooted : bool) (st : list (list Z)) : list Z :=
  (if rooted then [slash] else []) ++ joined [slash] (rev st).

Definition is_rooted (p : list Z) : bool := match p with c :: _ => c =? slash | [] => false end.

Definition cleaned (p : list Z) : list Z :=
  let r := render (is_rooted p) (foldl (step (is_rooted p)) [] (elements p)) in
  if bool_decide (r = []) then [dot] else r.

(** ** Elements *)

Definition no_slash (e : list Z) : Prop := Forall (λ c, c <> slash) e.
Definition at_end (p : list Z) : Prop := p = [] \/ exists p', p = slash :: p'.

Lemma elements_nonempty p : elements p <> [].
Proof. destruct p as [|c p]; cbn [elements]; [done|]. destruct (c =? slash); [done|]. by destruct (elements p). Qed.

Lemma elements_app e p : no_slash e -> exists e' es, elements p = e' :: es /\ elements (e ++ p) = (e ++ e') :: es.
Proof.
  intros He. pose proof (elements_nonempty p) as Hne. destruct (elements p) as [|e' es] eqn:E; [done|]. exists e', es. split; [done|].
  clear Hne. induction He as [|c e Hc _ IH]; [done|]. cbn [app elements]. rewrite IH. by rewrite (proj2 (Z.eqb_neq c slash)).
Qed.

Lemma elements_at_end p : at_end p -> exists es, elements p = [] :: es.
Proof. intros [->|(p' & ->)]; by eexists. Qed.

Lemma step_nil rooted st : step rooted st [] = st.
Proof. done. Qed.

Lemma step_dot rooted st : step rooted st [dot] = st.
Proof. done. Qed.

Lemma step_parent rooted top st : step rooted (top :: st) parent = if bool_decide (top = parent) then parent :: top :: st else st.
Proof. done. Qed.

Lemma fold_element rooted st e p : no_slash e -> at_end p ->
  foldl (step rooted) st (elements (e ++ p)) = foldl (step rooted) (step rooted st e) (elements p).
Proof.
  intros He (es & Ep)%elements_at_end. destruct (elements_app e p He) as (e' & es' & E1 & ->). rewrite Ep in E1. injection E1 as <- <-.
  rewrite Ep. cbn [foldl]. by rewrite app_nil_r, step_nil.
Qed.

Lemma fold_slash rooted st p : foldl (step rooted) st (elements (slash :: p)) = foldl (step rooted) st (elements p).
Proof. done. Qed.

Lemma split_element p : exists e rest, p = e ++ rest /\ no_slash e /\ at_end rest.
Proof.
  induction p as [|c p (e & rest & -> & He & Hr)]; [exists [], []; split; [done|split; [constructor|by left]]|].
  destruct (Z.eq_dec c slash) as [->|Hc]; [exists [], (slash :: e ++ rest); split; [done|split; [constructor|right; by eexists]]|].
  exists (c :: e), rest. split; [done|]. split; [by constructor|done].
Qed.

(** ** The stack *)

(** An element on the stack; the parents are at the bottom, and none are there in a rooted path. *)
Definition plain (e : list Z) : Prop := e <> [] /\ no_slash e /\ e <> parent.
Definition stack_ok (rooted : bool) (st : list (list Z)) : Prop :=
  exists es k, st = es ++ replicate k parent /\ Forall plain es /\ (rooted = true -> k = 0%nat).

Definition base (rooted : bool) : list Z := if rooted then [slash] else [].

(** Where [..] must stop. *)
Definition dotdot_of (rooted : bool) (st : list (list Z)) : Z :=
  zlen (render rooted (filter (λ e, e = parent) st)).

Lemma filter_plain es : Forall plain es -> filter (λ e, e = parent) es = [].
Proof. induction 1 as [|e es (_ & _ & He) _ IH]; [done|]. by rewrite filter_cons_False. Qed.

Lemma filter_parents k : filter (λ e, e = parent) (replicate k parent) = replicate k parent.
Proof. induction k as [|k IH]; [done|]. cbn [replicate]. by rewrite filter_cons_True, IH. Qed.

Lemma dotdot_stack rooted es k : Forall plain es -> dotdot_of rooted (es ++ replicate k parent) = zlen (render rooted (replicate k parent)).
Proof. intros He. unfold dotdot_of. by rewrite filter_app, filter_plain, filter_parents. Qed.

Lemma render_cons rooted e st : st <> [] -> render rooted (e :: st) = render rooted st ++ slash :: e.
Proof.
  intros Hs. unfold render. cbn [rev]. rewrite joined_app by done.
  assert (Hl : exists l x, rev st = l ++ [x]) by (destruct st as [|x l]; [done|]; exists (rev l), x; done). destruct Hl as (l & x & ->).
  rewrite ended_snoc, joined_app by done. cbn [joined map concat]. rewrite !app_nil_r, <- !app_assoc. done.
Qed.

Lemma render_one rooted e : render rooted [e] = base rooted ++ e.
Proof. unfold render, base. cbn. by rewrite app_nil_r. Qed.

Lemma render_nil rooted : render rooted [] = base rooted.
Proof. unfold render, base. cbn. by rewrite app_nil_r. Qed.

(** The separator in front of a new element. *)
Definition glue (st : list (list Z)) : list Z := match st with [] => [] | _ => [slash] end.

Lemma render_push rooted e st : render rooted (e :: st) = (render rooted st ++ glue st) ++ e.
Proof.
  destruct st as [|x st]; [by rewrite render_one, render_nil, app_nil_r|]. rewrite render_cons by done. by rewrite <- app_assoc.
Qed.

Lemma render_base rooted st : Forall (λ e, e <> []) st -> zlen (render rooted st) = zlen (base rooted) <-> st = [].
Proof.
  intros Hs. split; [|intros ->; by rewrite render_nil]. destruct st as [|e st]; [done|]. apply Forall_cons in Hs as [He _].
  rewrite render_push, !zlen_app. unfold render, base. rewrite zlen_app. destruct e; [done|]. cbn [length]. lia.
Qed.

Lemma stack_nonempty rooted st : stack_ok rooted st -> Forall (λ e, e <> []) st.
Proof.
  intros (es & k & -> & He & _). apply Forall_app. split; [|by apply Forall_replicate].
  eapply Forall_impl; [exact He|]. by intros e (? & _).
Qed.

Lemma step_ok rooted st e : no_slash e -> stack_ok rooted st -> stack_ok rooted (step rooted st e).
Proof.
  intros Hns (es & k & -> & He & Hk). unfold step. destruct (decide (e = [])) as [->|Hne]; [by exists es, k|]. rewrite (bool_decide_eq_false_2 (e = [])) by done.
  destruct (decide (e = [dot])) as [->|Hd]; [by exists es, k|]. rewrite (bool_decide_eq_false_2 (e = [dot])) by done. cbn [orb].
  case_bool_decide as Hp.
  - subst e. destruct es as [|top es].
    + destruct k as [|k]; cbn [replicate app]; [|exists [], (S (S k)); split; [done|split; [constructor|intros Hr; specialize (Hk Hr); lia]]].
      destruct rooted; [exists [], 0%nat; split; [done|split; [constructor|done]]|exists [], 1%nat; split; [done|split; [constructor|done]]].
    + cbn [app]. apply Forall_cons in He as [(_ & _ & Htop) He]. rewrite bool_decide_eq_false_2 by done. by exists es, k.
  - exists (e :: es), k. split; [done|]. split; [by constructor|done].
Qed.

(** ** The buffer *)

Definition content (b : lazybuf) : list Z := match buf b with Some l => l | None => s b end.

(** The buffer over [path] holds [t]. *)
Definition holds (path : list Z) (b : lazybuf) (t : list Z) : Prop :=
  s b = path /\ w b = zlen t /\ length (content b) = length path /\ (length t <= length path)%nat /\ take (length t) (content b) = t.

Lemma index_content b i : index_ b i = index (content b) i.
Proof. unfold index_, content. by destruct (buf b). Qed.

Lemma take_insert_snoc (l t : list Z) c : take (length t) l = t -> (length t < length l)%nat -> take (length (t ++ [c])) (<[length t := c]> l) = t ++ [c].
Proof.
  intros Ht Hl. rewrite length_app. cbn [length]. rewrite Nat.add_1_r, (take_S_r _ _ c) by (apply list_lookup_insert_eq; lia).
  rewrite take_insert_ge by lia. by rewrite Ht.
Qed.

Lemma append_ok path b t c : holds path b t -> zlen t < zlen path -> exists b', append b c = Val b' /\ holds path b' (t ++ [c]).
Proof.
  intros (Hs & Hw & Hl & Hle & Ht) Hlt. unfold append. unfold content in *. destruct b as [sb [l|] wb]; cbn [s w buf] in *; subst.
  - rewrite store_lt by lia. cbn [mbind outcome_bind]. rewrite Nat2Z.id. eexists. split; [done|]. unfold holds, content. cbn [s w buf].
    split; [done|]. split; [rewrite zlen_snoc; lia|]. split; [by rewrite length_insert|]. split; [rewrite length_app; cbn [length]; lia|].
    apply take_insert_snoc; [done|lia].
  - rewrite (proj2 (Z.ltb_lt _ _)) by lia. rewrite index_byte by lia. cbn [mbind outcome_bind].
    destruct (Z.eqb_spec (elem path (zlen t)) c) as [Ec|Ec].
    + eexists. split; [done|]. unfold holds, content. cbn [s w buf]. split; [done|]. split; [rewrite zlen_snoc; lia|]. split; [done|].
      split; [rewrite length_app; cbn [length]; lia|]. rewrite length_app. cbn [length]. rewrite Nat.add_1_r, (take_S_r _ _ c); [by rewrite Ht|].
      rewrite <- Ec, <- (lookup_elem path (zlen t)) by lia. by rewrite Nat2Z.id.
    + rewrite slice_take by lia. cbn [mbind outcome_bind]. rewrite Nat2Z.id, Ht.
      unfold copy_at. rewrite decide_True by lia. cbn [mbind outcome_bind]. unfold make. rewrite length_replicate, Nat2Z.id, Nat.sub_0_r, Nat.min_r by lia.
      set (l := take (Z.to_nat 0) _ ++ _). assert (El : l = t ++ replicate (length path - length t) 0).
      { unfold l. change (Z.to_nat 0) with 0%nat. cbn [take app Nat.add]. rewrite (take_ge t) by lia. by rewrite drop_replicate. }
      clearbody l. subst l. rewrite store_lt by (rewrite length_app, length_replicate; lia). cbn [mbind outcome_bind]. rewrite Nat2Z.id.
      eexists. split; [done|]. unfold holds, content. cbn [s w buf]. split; [done|]. split; [rewrite zlen_snoc; lia|].
      rewrite length_insert, length_app, length_replicate. split; [lia|]. split; [rewrite length_app; cbn [length]; lia|].
      apply take_insert_snoc; [apply take_app_length|rewrite length_app, length_replicate; lia].
Qed.

Lemma string_ok path b t : holds path b t -> string b = Val t.
Proof.
  intros (Hs & Hw & Hl & Hle & Ht). unfold string, content in *. destruct (buf b); rewrite slice_take by lia; rewrite Hw, Nat2Z.id; by rewrite Ht.
Qed.

Lemma elem_content path b t i : holds path b t -> 0 <= i < zlen t -> elem (content b) i = elem t i.
Proof.
  intros (_ & _ & Hl & Hle & Ht) Hi. apply elem_lookup; [lia|]. rewrite <- (lookup_elem t i Hi), <- Ht.
  by rewrite lookup_take_lt by lia.
Qed.

Lemma backtrack_ok fuel sb ob : forall wb k dd, dd <= k -> 0 <= k <= wb -> wb < zlen (content (Lazybuf sb ob wb)) -> wb - k < Z.of_nat fuel ->
  (forall i, k < i <= wb -> elem (content (Lazybuf sb ob wb)) i <> slash) -> (k = dd \/ elem (content (Lazybuf sb ob wb)) k = slash) ->
  backtrack fuel (Lazybuf sb ob wb) dd = Val (Lazybuf sb ob k).
Proof.
  assert (Hc : forall w1 w2, content (Lazybuf sb ob w1) = content (Lazybuf sb ob w2)) by done.
  induction fuel as [|fuel IH]; intros wb k dd Hdd Hk Hw Hf Hno Hst; [lia|]. cbn [backtrack]. cbn [w].
  destruct (Z.eq_dec wb k) as [->|Hne].
  - destruct (Z.ltb_spec dd k); [|done]. rewrite index_content, index_byte by lia. cbn [mbind outcome_bind].
    destruct Hst as [|Hst]; [lia|]. by rewrite Hst.
  - rewrite (proj2 (Z.ltb_lt _ _)) by lia. rewrite index_content, index_byte by lia. cbn [mbind outcome_bind].
    rewrite (proj2 (Z.eqb_neq _ slash)) by (apply Hno; lia). cbn [negb s buf]. rewrite (Hc _ (wb - 1)) in *.
    apply IH; [done|lia|lia|lia| |done]. intros i Hi. apply Hno. lia.
Qed.

(** Popping the top element. *)
Lemma pop_ok path b R st e dd : holds path b ((R ++ glue st) ++ e) -> e <> [] -> no_slash e -> dd <= zlen R -> (glue st = [] -> dd = zlen R) ->
  exists b', backtrack (S (length path)) (Lazybuf (s b) (buf b) (w b - 1)) dd = Val b' /\ holds path b' R.
Proof.
  intros Hh He Hns Hdd Hg. pose proof Hh as (Hs & Hw & Hl & Hle & Ht). pose proof (λ i, elem_content path b _ i Hh) as Hel.
  assert (Hle' : 0 < zlen e) by (destruct e; [done|cbn [length]; lia]). rewrite !length_app in Hle. rewrite !zlen_app in Hw.
  exists (Lazybuf (s b) (buf b) (zlen R)). assert (Hcont : forall k, content (Lazybuf (s b) (buf b) k) = content b) by done. split.
  - apply backtrack_ok; rewrite ?Hcont; [done|lia|lia|lia| |].
    + intros i Hi. rewrite (Hel i) by (rewrite !zlen_app; lia).
      assert (Hg1 : zlen (glue st) <= 1) by (destruct st; cbn; lia).
      assert (Hin : exists c, e !! Z.to_nat (i - zlen (R ++ glue st)) = Some c /\ elem ((R ++ glue st) ++ e) i = c).
      { destruct (lookup_lt_is_Some_2 e (Z.to_nat (i - zlen (R ++ glue st)))) as [c Hc]; [rewrite zlen_app; lia|]. exists c. split; [done|].
        apply elem_lookup; [lia|]. rewrite lookup_app_r by (rewrite length_app; lia). rewrite <- Hc. f_equal. rewrite zlen_app, length_app. lia. }
      destruct Hin as (c & Hc & Ec). rewrite Ec. exact (Forall_lookup_1 _ _ _ _ Hns Hc).
    + destruct st as [|x st]; [left; rewrite Hg; done|right]. rewrite Hel by (rewrite !zlen_app; cbn [glue length]; lia).
      apply elem_lookup; [lia|]. rewrite <- app_assoc, Nat2Z.id. cbn [glue app]. by rewrite list_lookup_middle.
  - split; [done|]. split; [done|]. split; [done|]. split; [lia|]. rewrite Hcont.
    apply (f_equal (take (length R))) in Ht. rewrite take_take, Nat.min_l in Ht by (rewrite !length_app; lia).
    rewrite Ht, <- app_assoc. apply take_app_length.
Qed.

(** ** The loop *)

Section Loop.
Context (path : list Z).
Abbreviation rooted := (is_rooted path).
Abbreviation n := (zlen path).

Lemma drop_at r c l : 0 <= r <= n -> drop (Z.to_nat r) path = c :: l -> r < n /\ (forall d, is_at path r d = Val (c =? d)) /\ drop (Z.to_nat (r + 1)) path = l.
Proof.
  intros Hr E. assert (Hl : length (drop (Z.to_nat r) path) = S (length l)) by (by rewrite E). rewrite length_drop in Hl. split; [lia|]. split.
  - intros d. unfold is_at. rewrite (index_Val path r c); [done|lia|]. by rewrite <- (Nat.add_0_r (Z.to_nat r)), <- lookup_drop, E.
  - replace (Z.to_nat (r + 1)) with (Z.to_nat r + 1)%nat by lia. by rewrite <- drop_drop, E.
Qed.

Lemma drop_past r e l : 0 <= r <= n -> drop (Z.to_nat r) path = e ++ l -> r + zlen e <= n /\ drop (Z.to_nat (r + zlen e)) path = l.
Proof.
  intros Hr E. assert (Hl : length (drop (Z.to_nat r) path) = length (e ++ l)) by (by rewrite E). rewrite length_drop, length_app in Hl. split; [lia|].
  replace (Z.to_nat (r + zlen e)) with (Z.to_nat r + length e)%nat by lia. rewrite <- drop_drop, E. by rewrite drop_app_length.
Qed.

Lemma ends_true r : 0 <= r <= n -> at_end (drop (Z.to_nat r) path) -> ends_at path r = Val true.
Proof.
  intros Hr [E|(l & E)]; unfold ends_at.
  - assert (Hl : length (drop (Z.to_nat r) path) = 0%nat) by (by rewrite E). rewrite length_drop in Hl. by rewrite (proj2 (Z.eqb_eq _ _)) by lia.
  - destruct (drop_at r _ l Hr E) as (Hlt & -> & _). rewrite (proj2 (Z.eqb_neq _ _)) by lia. by rewrite Z.eqb_refl.
Qed.

Lemma ends_false r c l : 0 <= r <= n -> drop (Z.to_nat r) path = c :: l -> c <> slash -> ends_at path r = Val false.
Proof.
  intros Hr E Hc. unfold ends_at. destruct (drop_at r c l Hr E) as (Hlt & -> & _). rewrite (proj2 (Z.eqb_neq r n)) by lia. by rewrite (proj2 (Z.eqb_neq _ _)).
Qed.

(** What the three tests of a turn say about the element in front. *)
Lemma tests r e l : 0 <= r < n -> drop (Z.to_nat r) path = e ++ l -> no_slash e -> at_end l ->
  is_at path r slash = Val (bool_decide (e = []))
  /\ (e <> [] -> andm (is_at path r dot) (ends_at path (r + 1)) = Val (bool_decide (e = [dot])))
  /\ (e <> [] -> e <> [dot] -> andm (is_at path r dot) (andm (is_at path (r + 1) dot) (ends_at path (r + 2))) = Val (bool_decide (e = parent))).
Proof.
  intros Hr E Hns Hend. destruct e as [|c e].
  { cbn [app] in E. destruct Hend as [->|(l' & ->)].
    - assert (Hl : length (drop (Z.to_nat r) path) = 0%nat) by (by rewrite E). rewrite length_drop in Hl. lia.
    - destruct (drop_at r _ l' ltac:(lia) E) as (_ & -> & _). by rewrite Z.eqb_refl. }
  cbn [app] in E. destruct (drop_at r c (e ++ l) ltac:(lia) E) as (Hlt & H0 & E1). apply Forall_cons in Hns as [Hc Hns].
  rewrite !H0, (proj2 (Z.eqb_neq c slash)) by done. split; [done|]. unfold andm. cbn [mbind outcome_bind].
  destruct (Z.eqb_spec c dot) as [->|Hd].
  2:{ split; intros; (rewrite bool_decide_eq_false_2; [done|unfold parent; congruence]). }
  destruct e as [|c' e].
  { split; [intros _; rewrite ends_true; [done|lia|by rewrite E1]|done]. }
  cbn [app] in E1. apply Forall_cons in Hns as [Hc' Hns]. destruct (drop_at (r + 1) c' (e ++ l) ltac:(lia) E1) as (Hlt1 & H1 & E2).
  split; [intros _; by rewrite (ends_false (r + 1) c' (e ++ l)) by (done || lia)|]. intros _ _. rewrite H1. cbn [mbind outcome_bind].
  destruct (Z.eqb_spec c' dot) as [->|Hd']; [|rewrite bool_decide_eq_false_2; [done|unfold parent; congruence]].
  replace (r + 1 + 1) with (r + 2) in E2 by lia. destruct e as [|c'' e].
  - by rewrite ends_true by (rewrite ?E2; done || lia).
  - apply Forall_cons in Hns as [Hc'' _]. cbn [app] in E2. by rewrite (ends_false (r + 2) c'' (e ++ l)) by (done || lia).
Qed.

Lemma copy_element_ok fuel : forall r out t e l, 0 <= r <= n -> drop (Z.to_nat r) path = e ++ l -> no_slash e -> at_end l -> holds path out t ->
  zlen t <= r -> n - r < Z.of_nat fuel ->
  exists out', copy_element fuel path r out = Val (r + zlen e, out') /\ holds path out' (t ++ e).
Proof.
  induction fuel as [|fuel IH]; intros r out t e l Hr E Hns Hend Ho Ht Hf; [lia|]. cbn [copy_element]. destruct e as [|c e].
  - exists out. rewrite app_nil_r, Z.add_0_r. split; [|done]. cbn [app] in E. destruct Hend as [->|(l' & ->)].
    + assert (Hl : length (drop (Z.to_nat r) path) = 0%nat) by (by rewrite E). rewrite length_drop in Hl. by rewrite (proj2 (Z.ltb_ge _ _)) by lia.
    + destruct (drop_at r _ l' Hr E) as (Hlt & H0 & _). rewrite (proj2 (Z.ltb_lt _ _)) by done. specialize (H0 slash). unfold is_at in H0.
      destruct (index path r) as [x| |]; cbn [mbind outcome_bind] in *; [|done..]. injection H0 as H0. by rewrite H0.
  - cbn [app] in E. destruct (drop_at r c (e ++ l) Hr E) as (Hlt & _ & E1). apply Forall_cons in Hns as [Hc Hns].
    rewrite (proj2 (Z.ltb_lt _ _)) by done. rewrite (index_Val path r c); [|lia|by rewrite <- (Nat.add_0_r (Z.to_nat r)), <- lookup_drop, E].
    cbn [mbind outcome_bind]. rewrite (proj2 (Z.eqb_neq c slash)) by done. cbn [negb].
    destruct (append_ok path out t c Ho) as (out1 & -> & Ho1); [lia|]. cbn [mbind outcome_bind].
    destruct (IH (r + 1) out1 (t ++ [c]) e l) as (out2 & -> & Ho2); [lia|done|done|done|done|rewrite zlen_snoc; lia|lia|].
    exists out2. rewrite <- app_assoc in Ho2. split; [|done]. do 2 f_equal. cbn [length]. lia.
Qed.

(** The state between two turns. *)
Definition ready (st : list (list Z)) (r dd : Z) (out : lazybuf) : Prop :=
  stack_ok rooted st /\ holds path out (render rooted st) /\ dd = dotdot_of rooted st /\ 0 <= r <= n /\ zlen (render rooted st) <= r
  /\ (at_end (drop (Z.to_nat r) path) \/ st = [] \/ zlen (render rooted st) + 1 <= r).

Lemma dotdot_base st : stack_ok rooted st -> (dotdot_of rooted st <? zlen (render rooted st)) = match st with top :: _ => negb (bool_decide (top = parent)) | [] => false end.
Proof.
  intros (es & k & -> & He & Hk). rewrite dotdot_stack by done. destruct es as [|e es]; cbn [app].
  - rewrite Z.ltb_irrefl. destruct k; [done|]. cbn [replicate]. by rewrite bool_decide_eq_true_2.
  - apply Forall_cons in He as [(He1 & _ & He2) He]. rewrite bool_decide_eq_false_2 by done. cbn [negb]. apply Z.ltb_lt.
    rewrite render_push, !zlen_app. assert (0 < zlen e) by (destruct e; [done|cbn [length]; lia]).
    assert (Hm : zlen (render rooted (replicate k parent)) <= zlen (render rooted (es ++ replicate k parent))); [|lia].
    clear. induction es as [|e es IH]; [done|]. cbn [app]. rewrite render_push, !zlen_app. lia.
Qed.

Lemma dotdot_plain e st : e <> parent -> dotdot_of rooted (e :: st) = dotdot_of rooted st.
Proof. intros He. unfold dotdot_of. by rewrite filter_cons_False. Qed.

Lemma dotdot_le st : stack_ok rooted st -> dotdot_of rooted st <= zlen (render rooted st).
Proof.
  intros (es & k & -> & He & Hk). rewrite dotdot_stack by done. clear. induction es as [|e es IH]; [done|]. cbn [app]. rewrite render_push, !zlen_app. lia.
Qed.

Lemma stack_tail e st : stack_ok rooted (e :: st) -> stack_ok rooted st.
Proof.
  intros (es & k & E & He & Hk). destruct es as [|x es].
  - destruct k as [|k]; [done|]. injection E as _ ->. exists [], k. split; [done|]. split; [constructor|]. intros Hr. specialize (Hk Hr). lia.
  - injection E as _ ->. apply Forall_cons in He as [_ He]. by exists es, k.
Qed.

(** Pushing an element through its slash. *)
Lemma glue_ok st out : stack_ok rooted st -> holds path out (render rooted st) -> (st = [] \/ zlen (render rooted st) < n) ->
  exists out', (if negb (zlen (render rooted st) =? zlen (base rooted)) then append out slash else Val out) = Val out' /\ holds path out' (render rooted st ++ glue st).
Proof.
  intros Hst Ho Hroom. pose proof (render_base rooted st (stack_nonempty _ _ Hst)) as Hb. destruct (Z.eqb_spec (zlen (render rooted st)) (zlen (base rooted))) as [E|E]; cbn [negb].
  - apply Hb in E as ->. exists out. cbn [glue]. by rewrite app_nil_r.
  - destruct st as [|x st]; [by destruct E; apply Hb|]. destruct Hroom as [|Hroom]; [done|]. by apply append_ok.
Qed.

Abbreviation run st r := (foldl (step rooted) st (elements (drop (Z.to_nat r) path))).

(** A turn that leaves the stack as it is and stands before the end of an element. *)
Lemma ready_skip st r r' dd out : ready st r dd out -> r <= r' <= n -> at_end (drop (Z.to_nat r') path) \/ st = [] \/ r < r' -> ready st r' dd out.
Proof.
  intros (H1 & H2 & H3 & H4 & H5 & H6) Hr He. split; [done|]. split; [done|]. split; [done|]. split; [lia|]. split; [lia|].
  destruct He as [?|[?|?]]; [by left|by right; left|right; right; lia].
Qed.

Lemma pop_turn e st r r' dd out : ready (e :: st) r dd out -> e <> parent -> r <= r' <= n -> at_end (drop (Z.to_nat r') path) ->
  exists out', backtrack (S (length path)) (Lazybuf (s out) (buf out) (w out - 1)) dd = Val out' /\ ready st r' dd out'.
Proof.
  intros (Hst & Ho & -> & Hr & Hw & _) He Hr' Hend. pose proof (stack_tail _ _ Hst) as Hst'. rewrite dotdot_plain by done.
  destruct (pop_ok path out (render rooted st) st e (dotdot_of rooted st)) as (out' & -> & Ho').
  - by rewrite <- render_push.
  - apply stack_nonempty in Hst. by apply Forall_cons in Hst as [? _].
  - destruct Hst as (es & k & E & Hes & _). destruct es as [|x es]; [destruct k; [done|]; injection E as -> _; repeat (constructor; [done|]); constructor|].
    injection E as -> _. apply Forall_cons in Hes as [(_ & ? & _) _]. done.
  - by apply dotdot_le.
  - intros Hg. destruct st; [|done]. done.
  - exists out'. split; [done|]. split; [done|]. split; [done|]. split; [done|]. split; [lia|]. rewrite render_push, !zlen_app in Hw. split; [lia|by left].
Qed.

(** Appending [..] to a path that is not rooted. *)
Lemma parent_turn st r dd out : ready st r dd out -> rooted = false -> (r + 2 <= n) -> ~ at_end (drop (Z.to_nat r) path) ->
  step rooted st parent = parent :: st -> at_end (drop (Z.to_nat (r + 2)) path) ->
  exists out1 out2 out3, (if 0 <? w out then append out slash else Val out) = Val out1 /\ append out1 dot = Val out2 /\ append out2 dot = Val out3
  /\ ready (parent :: st) (r + 2) (w out3) out3.
Proof.
  intros (Hst & Ho & -> & Hr & Hw & Hroom) Hroot Hn Hne Hstep Hend. assert (Hroom' : st = [] \/ zlen (render rooted st) + 1 <= r) by tauto.
  destruct (glue_ok st out Hst Ho) as (out1 & E1 & Ho1); [destruct Hroom'; [by left|right; lia]|].
  assert (Hz : (0 <? w out) = negb (zlen (render rooted st) =? zlen (base rooted))).
  { destruct Ho as (_ & -> & _). rewrite Hroot. change (zlen (base false)) with 0. destruct (Z.ltb_spec 0 (zlen (render false st))), (Z.eqb_spec (zlen (render false st)) 0); (done || lia). }
  rewrite Hz, E1. assert (Hg : zlen (render rooted st ++ glue st) <= r) by (rewrite zlen_app; destruct Hroom' as [->|?]; [cbn [glue length]; lia|]; destruct st; cbn [glue length]; lia).
  destruct (append_ok path out1 _ dot Ho1) as (out2 & E2 & Ho2); [lia|].
  destruct (append_ok path out2 _ dot Ho2) as (out3 & E3 & Ho3); [rewrite zlen_snoc; lia|].
  exists out1, out2, out3. split; [done|]. split; [done|]. split; [done|]. rewrite <- app_assoc in Ho3. change ([dot] ++ [dot]) with parent in Ho3.
  rewrite <- render_push in Ho3. split; [rewrite <- Hstep; apply step_ok; [repeat (constructor; [done|]); constructor|done]|]. split; [done|].
  destruct Ho3 as (_ & Hw3 & _). split.
  - rewrite Hw3. unfold dotdot_of. rewrite filter_cons_True by done. f_equal. f_equal. f_equal.
    destruct Hst as (es & k & -> & Hes & _). destruct es as [|x es]; [cbn [app]; by rewrite filter_parents|]. exfalso.
    apply Forall_cons in Hes as [(_ & _ & Hx) _]. cbn [app] in Hstep. rewrite step_parent, bool_decide_eq_false_2 in Hstep by done.
    apply (f_equal length) in Hstep. cbn [length] in Hstep. lia.
  - split; [lia|]. rewrite render_push, zlen_app. cbn [length parent]. split; [lia|by left].
Qed.

(** Copying a real element. *)
Lemma element_turn st r dd out e l : ready st r dd out -> r < n -> drop (Z.to_nat r) path = e ++ l -> no_slash e -> at_end l -> e <> [] -> e <> [dot] -> e <> parent ->
  exists out1 out2, (if (rooted && negb (w out =? 1)) || (negb rooted && negb (w out =? 0)) then append out slash else Val out) = Val out1
  /\ copy_element (S (length path)) path r out1 = Val (r + zlen e, out2) /\ ready (e :: st) (r + zlen e) dd out2.
Proof.
  intros (Hst & Ho & -> & Hr & Hw & Hroom) Hlt E Hns Hend He1 He2 He3.
  assert (Hroom' : st = [] \/ zlen (render rooted st) + 1 <= r).
  { destruct Hroom as [Hroom|?]; [|done]. exfalso. rewrite E in Hroom. destruct e as [|c e]; [done|]. apply Forall_cons in Hns as [Hc _].
    destruct Hroom as [|(l' & [= ? _])]; done. }
  destruct (glue_ok st out Hst Ho) as (out1 & E1 & Ho1); [destruct Hroom'; [by left|right; lia]|].
  assert (Hz : (rooted && negb (w out =? 1)) || (negb rooted && negb (w out =? 0)) = negb (zlen (render rooted st) =? zlen (base rooted))).
  { destruct Ho as (_ & -> & _). destruct rooted; cbn [base length negb andb orb]; [by rewrite orb_false_r|done]. }
  rewrite Hz, E1. assert (Hg : zlen (render rooted st ++ glue st) <= r) by (rewrite zlen_app; destruct Hroom' as [->|?]; [cbn [glue length]; lia|]; destruct st; cbn [glue length]; lia).
  destruct (copy_element_ok (S (length path)) r out1 (render rooted st ++ glue st) e l) as (out2 & E2 & Ho2); [lia|done|done|done|exact Ho1|done|lia|].
  destruct (drop_past r e l) as [Hl El]; [lia|done|]. exists out1, out2. split; [done|]. split; [done|].
  rewrite <- render_push in Ho2. assert (Hst' : stack_ok rooted (e :: st)).
  { pose proof (step_ok rooted st e Hns Hst) as H. unfold step in H. rewrite !bool_decide_eq_false_2 in H by done. done. }
  split; [done|]. split; [done|]. split; [by rewrite dotdot_plain|]. split; [lia|]. rewrite render_push, zlen_app. split; [lia|left; by rewrite El].
Qed.

Lemma clean_turn_ok st r dd out : ready st r dd out -> r < n ->
  exists r' dd' out' st', clean_turn path rooted r dd out = Val (r', dd', out') /\ r < r' /\ ready st' r' dd' out' /\ run st r = run st' r'.
Proof.
  intros Hrd Hlt. pose proof Hrd as (Hst & Ho & Hdd & Hr & Hw & Hroom). destruct (split_element (drop (Z.to_nat r) path)) as (e & l & E & Hns & Hend).
  destruct (drop_past r e l) as [Hl El]; [lia|done|]. destruct (tests r e l) as (T1 & T2 & T3); [lia|done|done|done|].
  assert (Hrun : run st r = foldl (step rooted) (step rooted st e) (elements l)) by (rewrite E; by apply fold_element).
  unfold clean_turn. rewrite T1. cbn [mbind outcome_bind]. destruct (decide (e = [])) as [He1|He1]; [rewrite (bool_decide_eq_true_2 (e = [])) by done|rewrite (bool_decide_eq_false_2 (e = [])) by done].
  { subst e. cbn [app] in E. destruct Hend as [->|(l' & ->)]; [assert (H : length (drop (Z.to_nat r) path) = 0%nat) by (by rewrite E); rewrite length_drop in H; lia|].
    destruct (drop_at r slash l' Hr E) as (_ & _ & E'). exists (r + 1), dd, out, st. split; [done|]. split; [lia|].
    split; [apply (ready_skip st r); [done|lia|right; right; lia]|]. by rewrite Hrun, fold_slash, E'. }
  rewrite T2 by done. cbn [mbind outcome_bind]. destruct (decide (e = [dot])) as [He2|He2]; [rewrite (bool_decide_eq_true_2 (e = [dot])) by done|rewrite (bool_decide_eq_false_2 (e = [dot])) by done].
  { subst e. change (zlen [dot]) with 1 in *. exists (r + 1), dd, out, st. split; [done|]. split; [lia|].
    split; [apply (ready_skip st r); [done|lia|left; by rewrite El]|]. by rewrite Hrun, El. }
  rewrite T3 by done. cbn [mbind outcome_bind]. destruct (decide (e = parent)) as [He3|He3]; [rewrite (bool_decide_eq_true_2 (e = parent)) by done|rewrite (bool_decide_eq_false_2 (e = parent)) by done].
  2:{ destruct (element_turn st r dd out e l Hrd Hlt E Hns Hend He1 He2 He3) as (out1 & out2 & -> & E2 & Hrd'). cbn [mbind outcome_bind]. rewrite E2. cbn [mbind outcome_bind].
      exists (r + zlen e), dd, out2, (e :: st). split; [done|]. split; [destruct e; [done|cbn [length]; lia]|]. split; [done|]. rewrite Hrun, El.
      unfold step at 2. by rewrite !bool_decide_eq_false_2. }
  subst e. change (zlen parent) with 2 in *. assert (Ew : w out = zlen (render rooted st)) by (by destruct Ho as (_ & ? & _)).
  assert (Hend' : at_end (drop (Z.to_nat (r + 2)) path)) by (by rewrite El).
  assert (Hne : ~ at_end (drop (Z.to_nat r) path)) by (rewrite E; intros [|(? & ?)]; done).
  assert (Hcmp : (dd <? w out) = match st with top :: _ => negb (bool_decide (top = parent)) | [] => false end) by (rewrite Ew, Hdd; by apply dotdot_base).
  rewrite Hcmp. destruct st as [|top st].
  - destruct rooted eqn:Hroot; cbn [negb].
    + exists (r + 2), dd, out, []. split; [done|]. split; [lia|]. split; [|by rewrite Hrun, El].
      apply (ready_skip [] r); [done|lia|by left].
    + destruct (parent_turn [] r dd out) as (out1 & out2 & out3 & E1 & E2 & E3 & Hrd'); rewrite ?Hroot; try done.
      rewrite E1. cbn [mbind outcome_bind]. rewrite E2. cbn [mbind outcome_bind]. rewrite E3. cbn [mbind outcome_bind].
      exists (r + 2), (w out3), out3, [parent]. split; [done|]. split; [lia|]. split; [done|]. by rewrite Hrun, El.
  - destruct (decide (top = parent)) as [Htop|Htop]; [rewrite (bool_decide_eq_true_2 (top = parent)) by done|rewrite (bool_decide_eq_false_2 (top = parent)) by done]; cbn [negb].
    + assert (Hroot : rooted = false).
      { destruct Hst as (es & k & Es & Hes & Hk). destruct es as [|x es]; [|injection Es as -> _; apply Forall_cons in Hes as [(_ & _ & ?) _]; done].
        destruct rooted; [|done]. by rewrite Hk in Es. }
      assert (Hstep : step rooted (top :: st) parent = parent :: top :: st) by (rewrite step_parent; by rewrite bool_decide_eq_true_2).
      destruct (parent_turn (top :: st) r dd out) as (out1 & out2 & out3 & E1 & E2 & E3 & Hrd'); try done.
      rewrite Hroot. cbn [negb]. rewrite E1. cbn [mbind outcome_bind]. rewrite E2. cbn [mbind outcome_bind]. rewrite E3. cbn [mbind outcome_bind].
      exists (r + 2), (w out3), out3, (parent :: top :: st). split; [done|]. split; [lia|]. split; [done|]. rewrite <- Hroot. by rewrite Hrun, El, Hstep.
    + destruct (pop_turn top st r (r + 2) dd out Hrd Htop) as (out' & E1 & Hrd'); [lia|done|]. rewrite E1. cbn [mbind outcome_bind].
      exists (r + 2), dd, out', st. split; [done|]. split; [lia|]. split; [done|]. rewrite Hrun, El. f_equal. rewrite step_parent. by rewrite bool_decide_eq_false_2.
Qed.

Lemma clean_loop_ok fuel : forall st r dd out, ready st r dd out -> n - r < Z.of_nat fuel ->
  exists out', clean_loop fuel path rooted r dd out = Val out' /\ holds path out' (render rooted (run st r)).
Proof.
  induction fuel as [|fuel IH]; intros st r dd out Hrd Hf; pose proof Hrd as (Hst & Ho & Hdd & Hr & _); [lia|]. cbn [clean_loop].
  destruct (Z.ltb_spec r n) as [Hlt|Hge].
  - destruct (clean_turn_ok st r dd out Hrd Hlt) as (r' & dd' & out' & st' & -> & Hrr & Hrd' & ->). cbn [mbind outcome_bind]. apply (IH _ _ dd'); [done|lia].
  - exists out. split; [done|]. rewrite drop_ge by lia. done.
Qed.
End Loop.

Lemma Clean_spec path : Clean path = Val (cleaned path).
Proof.
  unfold Clean. destruct (Z.eqb_spec (zlen path) 0) as [E|Hne]; [destruct path; [done|cbn [length] in E; lia]|].
  destruct path as [|c p] eqn:Ep; [done|]. rewrite <- Ep in *. assert (Hroot : is_at path 0 slash = Val (is_rooted path)) by (by subst path).
  rewrite Hroot. cbn [mbind outcome_bind]. assert (H0 : holds path (Lazybuf path None 0) []).
  { split; [done|]. split; [done|]. split; [done|]. split; [cbn [length]; lia|done]. }
  set (r0 := if is_rooted path then 1 else 0).
  assert (Hout : exists out, (if is_rooted path then append (Lazybuf path None 0) slash else Val (Lazybuf path None 0)) = Val out /\ holds path out (base (is_rooted path))).
  { destruct (is_rooted path); [apply (append_ok path _ []); [done|cbn [length]; lia]|by eexists]. }
  destruct Hout as (out & -> & Ho). cbn [mbind outcome_bind].
  destruct (clean_loop_ok path (S (length path)) [] r0 r0 out) as (out' & -> & Ho'); [|unfold r0; destruct (is_rooted path); lia|].
  { split; [exists [], 0%nat; done|]. rewrite render_nil. split; [done|]. split; [unfold dotdot_of; cbn [filter list_filter]; rewrite render_nil; unfold r0; by destruct (is_rooted path)|].
    split; [unfold r0; destruct (is_rooted path); lia|]. split; [unfold r0; by destruct (is_rooted path)|right; by left]. }
  cbn [mbind outcome_bind]. assert (Erun : foldl (step (is_rooted path)) [] (elements (drop (Z.to_nat r0) path)) = foldl (step (is_rooted path)) [] (elements path)).
  { unfold r0. destruct (is_rooted path) eqn:Er; [|done]. rewrite Ep in Er. cbn [is_rooted] in Er. apply Z.eqb_eq in Er. rewrite Ep, Er. done. }
  rewrite Erun in Ho'. unfold cleaned. set (t := render _ _) in *. pose proof Ho' as (_ & Ew & _). rewrite Ew.
  destruct (Z.eqb_spec (zlen t) 0) as [Et|Et].
  - rewrite bool_decide_eq_true_2; [done|]. destruct t; [done|cbn [length] in Et; lia].
  - rewrite bool_decide_eq_false_2 by (intros ->; done). by apply (string_ok path).
Qed.

(** ** Cleaning twice *)

Definition no_dot (st : list (list Z)) : Prop := Forall (λ e, e <> [dot]) st.

Lemma step_no_dot rooted st e : no_dot st -> no_dot (step rooted st e).
Proof.
  intros Hst. unfold step. destruct (decide (e = [])) as [->|He]; [done|]. rewrite (bool_decide_eq_false_2 (e = [])) by done.
  destruct (decide (e = [dot])) as [->|Hd]; [done|]. rewrite (bool_decide_eq_false_2 (e = [dot])) by done. cbn [orb].
  case_bool_decide; [|by constructor]. destruct st as [|top st]; [destruct rooted; [done|by constructor]|]. apply Forall_cons in Hst as [? ?]. case_bool_decide; [|done].
  constructor; [done|by constructor].
Qed.

Lemma fold_ok rooted l : forall st, Forall no_slash l -> stack_ok rooted st -> no_dot st ->
  stack_ok rooted (foldl (step rooted) st l) /\ no_dot (foldl (step rooted) st l).
Proof.
  induction l as [|e l IH]; intros st Hl Hs Hd; [done|]. apply Forall_cons in Hl as [He Hl]. cbn [foldl].
  apply IH; [done|by apply step_ok|by apply step_no_dot].
Qed.

Lemma elements_no_slash p : Forall no_slash (elements p).
Proof.
  induction p as [|c p IH]; cbn [elements]; [repeat constructor|]. destruct (Z.eqb_spec c slash); [by constructor; [constructor|]|].
  destruct (elements p) as [|e es]; [by repeat constructor|]. apply Forall_cons in IH as [He IH]. constructor; [by constructor|done].
Qed.

Lemma elements_plain e : no_slash e -> elements e = [e].
Proof. intros He. destruct (elements_app e [] He) as (e' & es & [= <- <-] & E). by rewrite !app_nil_r in E. Qed.

Lemma elements_slash a b : elements (a ++ slash :: b) = elements a ++ elements b.
Proof.
  induction a as [|c a IH]; [done|]. cbn [app elements]. rewrite IH. destruct (c =? slash); [done|]. pose proof (elements_nonempty a).
  by destruct (elements a).
Qed.

Lemma elements_joined l : l <> [] -> elements (joined [slash] l) = concat (map elements l).
Proof.
  induction l as [|v [|x l] IH]; [done|intros _; cbn; by rewrite !app_nil_r|]. intros _. rewrite joined_cons by done. change ([slash] ++ joined [slash] (x :: l)) with (slash :: joined [slash] (x :: l)).
  rewrite elements_slash, IH by done. done.
Qed.

(** Pushing the elements of a stack from the bottom gives it back. *)
Lemma fold_stack rooted st : stack_ok rooted st -> no_dot st -> foldl (step rooted) [] (rev st) = st.
Proof.
  intros (es & k & -> & He & Hk) Hd. rewrite rev_app_distr. rewrite foldl_app.
  assert (Ek : foldl (step rooted) [] (rev (replicate k parent)) = replicate k parent).
  { destruct rooted; [by rewrite Hk|]. clear. induction k as [|k IH]; [done|]. cbn [replicate rev]. rewrite foldl_snoc, IH.
    destruct k; [done|]. cbn [replicate]. rewrite step_parent. by rewrite bool_decide_eq_true_2. }
  rewrite Ek. apply Forall_app in Hd as [Hd _]. clear Ek Hk. induction He as [|e es (He1 & _ & He2) He IH]; [done|]. apply Forall_cons in Hd as [Hd1 Hd].
  cbn [rev app]. rewrite foldl_snoc, IH by done. unfold step. by rewrite !bool_decide_eq_false_2.
Qed.

Lemma concat_elements l : Forall no_slash l -> concat (map elements l) = l.
Proof. induction 1 as [|e l He _ IH]; [done|]. cbn [map concat]. by rewrite IH, elements_plain. Qed.

Lemma stack_no_slash rooted st : stack_ok rooted st -> Forall no_slash st.
Proof.
  intros (es & k & -> & He & _). apply Forall_app. split; [by eapply Forall_impl; [exact He|]; intros e (_ & ? & _)|].
  apply Forall_replicate. repeat (constructor; [done|]). constructor.
Qed.

Lemma elements_render rooted st : stack_ok rooted st -> no_dot st -> foldl (step rooted) [] (elements (render rooted st)) = st.
Proof.
  intros Hst Hd. unfold render. assert (E : foldl (step rooted) [] (elements (joined [slash] (rev st))) = st).
  { destruct (decide (st = [])) as [->|Hne]; [done|]. rewrite elements_joined by (intros E; by apply (f_equal (@rev _)) in E; rewrite rev_involutive in E).
    rewrite concat_elements by (apply Forall_rev; by eapply stack_no_slash). by apply fold_stack. }
  destruct rooted; [|done]. cbn [app]. by rewrite fold_slash.
Qed.

Lemma rooted_render rooted st : stack_ok rooted st -> is_rooted (render rooted st) = rooted.
Proof.
  intros Hst. unfold render. destruct rooted; [done|]. cbn [app]. pose proof (stack_no_slash _ _ Hst) as Hn. apply stack_nonempty in Hst.
  apply Forall_rev in Hn, Hst. destruct (rev st) as [|e l]; [done|]. apply Forall_cons in Hst as [He _]. apply Forall_cons in Hn as [Hn _].
  destruct e as [|c e]; [done|]. apply Forall_cons in Hn as [Hc _]. cbn. by apply Z.eqb_neq.
Qed.

(** The final stack. *)
Definition final (p : list Z) : list (list Z) := foldl (step (is_rooted p)) [] (elements p).

Lemma final_ok p : stack_ok (is_rooted p) (final p) /\ no_dot (final p).
Proof. apply fold_ok; [apply elements_no_slash|by exists [], 0%nat|constructor]. Qed.

Lemma cleaned_rooted p : is_rooted (cleaned p) = is_rooted p.
Proof.
  unfold cleaned. fold (final p). destruct (final_ok p) as [Hst _]. pose proof (rooted_render _ _ Hst) as Hr. case_bool_decide as E; [|done].
  rewrite E in Hr. by rewrite <- Hr.
Qed.

Lemma cleaned_cleaned p : cleaned (cleaned p) = cleaned p.
Proof.
  destruct (final_ok p) as [Hst Hd]. pose proof (cleaned_rooted p) as Hr. unfold cleaned at 1. rewrite Hr. unfold cleaned. fold (final p).
  destruct (decide (render (is_rooted p) (final p) = [])) as [E|E].
  - rewrite !(bool_decide_eq_true_2 _ E). assert (is_rooted p = false) as -> by (unfold render in E; by destruct (is_rooted p)). done.
  - rewrite !(bool_decide_eq_false_2 _ E). rewrite elements_render by done. by rewrite bool_decide_eq_false_2.
Qed.

(** ** Split and what is built on it *)

Lemma last_slash path : exists r, strings_LastIndex path [slash] = Val r /\ is_last path [slash] r.
Proof. apply LastIndexByte_last. Qed.

Lemma Split_spec path : exists dir file, Split path = Val (dir, file) /\ path = dir ++ file /\ no_slash file /\ (dir = [] \/ exists d, dir = d ++ [slash]).
Proof.
  unfold Split. destruct (last_slash path) as (r & -> & Hr). cbn [mbind outcome_bind].
  assert (Hb : -1 <= r < zlen path) by (destruct Hr as [[-> _]|[Ho _]]; [lia|apply occ_1 in Ho as [? _]; lia]).
  rewrite slice_take, slice_from by lia. cbn [mbind outcome_bind]. eexists _, _. split; [done|]. split; [by rewrite take_drop|]. split.
  - apply Forall_lookup_2. intros i c Hc. rewrite lookup_drop in Hc. intros ->. pose proof (lookup_lt_Some _ _ _ Hc).
    assert (Ho : occ path [slash] (r + 1 + Z.of_nat i)).
    { apply occ_1. split; [lia|]. apply elem_lookup; [lia|]. rewrite <- Hc. f_equal. lia. }
    destruct Hr as [[-> H0]|[_ H0]]; [by apply H0 in Ho|]. apply (H0 (r + 1 + Z.of_nat i)); [lia|done].
  - destruct Hr as [[-> _]|[Ho _]]; [by left|right]. apply occ_1 in Ho as [? Ho]. exists (take (Z.to_nat r) path).
    replace (Z.to_nat (r + 1)) with (S (Z.to_nat r)) by lia. apply take_S_r. rewrite <- Ho. apply lookup_elem. lia.
Qed.

Lemma snoc_cases {A} (l : list A) : l = [] \/ exists q c, l = q ++ [c].
Proof. induction l as [|c q _] using rev_ind; [by left|right; by exists q, c]. Qed.

Lemma strip_loop_spec fuel : forall path, zlen path < Z.of_nat fuel ->
  exists p k, strip_loop fuel path = Val p /\ path = p ++ replicate k slash /\ (p = [] \/ exists q c, p = q ++ [c] /\ c <> slash).
Proof.
  induction fuel as [|fuel IH]; intros path Hf; [lia|]. cbn [strip_loop]. destruct (snoc_cases path) as [->|(q & c & ->)].
  - exists [], 0%nat. split; [done|]. split; [done|by left].
  - rewrite (proj2 (Z.ltb_lt _ _)) by (rewrite zlen_snoc; lia). unfold is_at. replace (zlen (q ++ [c]) - 1) with (zlen q) by (rewrite zlen_snoc; lia).
    rewrite index_app_r. cbn [mbind outcome_bind]. destruct (Z.eqb_spec c slash) as [->|Hc].
    + rewrite slice_app_l. cbn [mbind outcome_bind]. rewrite zlen_snoc in Hf. destruct (IH q) as (p & k & -> & -> & Hp); [lia|]. exists p, (S k). split; [done|].
      split; [|done]. rewrite <- app_assoc. f_equal. by rewrite <- (replicate_S_end k).
    + exists (q ++ [c]), 0%nat. split; [done|]. rewrite app_nil_r. split; [done|]. right. by exists q, c.
Qed.

(** The last element that is not empty. *)
Definition base_of (path : list Z) : list Z :=
  if bool_decide (path = []) then [dot] else match last (nonempty (elements path)) with Some e => e | None => [slash] end.

Lemma elements_slashes p k : elements (p ++ replicate k slash) = elements p ++ replicate k [].
Proof.
  revert p. induction k as [|k IH]; intros p; [by rewrite !app_nil_r|]. cbn [replicate]. rewrite elements_slash. f_equal.
  rewrite <- (app_nil_l (replicate k slash)). rewrite IH. done.
Qed.

Lemma nonempty_app l k : nonempty (l ++ k) = nonempty l ++ nonempty k.
Proof. apply filter_app. Qed.

Lemma nonempty_replicate k : nonempty (replicate k []) = [].
Proof. induction k as [|k IH]; [done|]. cbn [replicate]. unfold nonempty. by rewrite filter_cons_False by tauto. Qed.

Lemma last_nonempty dir file : no_slash file -> file <> [] -> (dir = [] \/ exists d, dir = d ++ [slash]) ->
  last (nonempty (elements (dir ++ file))) = Some file.
Proof.
  intros Hf Hne Hd. assert (El : exists l, elements (dir ++ file) = l ++ [file]).
  { destruct Hd as [->|(d & ->)]; [exists []; by apply elements_plain|]. rewrite <- app_assoc. cbn [app]. rewrite elements_slash, (elements_plain file) by done. by eexists. }
  destruct El as (l & ->). rewrite nonempty_app. unfold nonempty at 2. rewrite filter_cons_True by done. change (filter (λ p, p <> []) []) with (@nil (list Z)).
  by rewrite last_snoc.
Qed.

Lemma base_of_file dir file : no_slash file -> file <> [] -> (dir = [] \/ exists d, dir = d ++ [slash]) -> base_of (dir ++ file) = file.
Proof. intros Hf Hne Hd. unfold base_of. rewrite bool_decide_eq_false_2 by (by destruct dir). by rewrite (last_nonempty dir file). Qed.

Lemma Base_spec path : Base path = Val (base_of path).
Proof.
  unfold Base, base_of. destruct (Z.eqb_spec (zlen path) 0) as [E|Hne]; [destruct path; [done|cbn [length] in E; lia]|].
  rewrite bool_decide_eq_false_2 by (intros ->; done). destruct (strip_loop_spec (S (length path)) path) as (p & k & -> & -> & Hp); [lia|].
  cbn [mbind outcome_bind]. rewrite elements_slashes, nonempty_app, nonempty_replicate, app_nil_r. destruct Hp as [->|(q & c & -> & Hc)]; [done|].
  destruct (last_slash (q ++ [c])) as (r & -> & Hr). cbn [mbind outcome_bind].
  destruct (Split_spec (q ++ [c])) as (dir & file & Es & Eq & Hf & Hd). unfold Split in Es. destruct (last_slash (q ++ [c])) as (r' & Er' & Hr').
  assert (r' = r) as ->.
  { destruct Hr as [[-> H]|[H1 H2]], Hr' as [[-> H']|[H1' H2']]; [done|by destruct (H r')|by destruct (H' r)|].
    destruct (Z.lt_trichotomy r r') as [?|[?|?]]; [by destruct (H2 r')|done|by destruct (H2' r)]. }
  rewrite Er' in Es. cbn [mbind outcome_bind] in Es.
  assert (Efile : (if 0 <=? r then slice (q ++ [c]) (r + 1) (zlen (q ++ [c])) else Val (q ++ [c])) = Val file).
  { destruct (slice _ 0 _) as [d| |] eqn:E1; [|done..]. cbn [mbind outcome_bind] in Es. destruct (slice _ (r + 1) _) as [f| |] eqn:E2; [|done..].
    injection Es as <- <-. destruct (Z.leb_spec 0 r); [done|]. assert (r = -1) as -> by (destruct Hr as [[-> _]|[Ho _]]; [done|apply occ_bound in Ho; lia]).
    cbn in E2. unfold slice in E2. rewrite decide_True in E2 by lia. injection E2 as <-. rewrite drop_0, take_ge by lia. done. }
  rewrite Efile. cbn [mbind outcome_bind].
  assert (Hfile : file <> []).
  { intros ->. rewrite app_nil_r in Eq. destruct Hd as [->|(d & ->)]; [by destruct q|]. by apply app_inj_tail in Eq as [_ ->]. }
  destruct (Z.eqb_spec (zlen file) 0) as [E|_]; [destruct file; [done|cbn [length] in E; lia]|]. f_equal. rewrite Eq.
  by rewrite (last_nonempty dir file).
Qed.

Lemma strings_Join_spec `{EncodingLaws} a sep : Forall well_formed a -> well_formed sep -> Strings.Join a sep = joined sep a.
Proof. intros Ha Hs. destruct a as [|v a]; [done|]. by rewrite Join_text. Qed.

Lemma slash_well_formed : well_formed [slash].
Proof. exists [slash]. split; [by repeat constructor|done]. Qed.

Lemma fold_nonempty rooted l st : foldl (step rooted) st (nonempty l) = foldl (step rooted) st l.
Proof.
  revert st. induction l as [|e l IH]; intros st; [done|]. unfold nonempty. cbn [filter list_filter]. case_decide as He; cbn [foldl]; [apply IH|].
  assert (e = []) as -> by (destruct e; [done|by destruct He]). rewrite step_nil. apply IH.
Qed.

(** Join ignores empty elements. *)
Lemma Join_spec' `{EncodingLaws} elem : Forall well_formed elem -> Join elem = Val (if bool_decide (nonempty elem = []) then [] else cleaned (joined [slash] (nonempty elem))).
Proof.
  intros Hwf. induction Hwf as [|e elem Hwe Hwf IH]; [done|]. cbn [Join]. unfold nonempty in *. cbn [filter list_filter]. destruct (decide (e <> [])) as [He|He].
  - rewrite bool_decide_eq_false_2 by done. cbn [negb]. rewrite Clean_spec, strings_Join_spec by (by constructor || apply slash_well_formed). rewrite (bool_decide_eq_false_2 (_ = [])) by done. f_equal.
    unfold cleaned. assert (Hr : forall l, is_rooted (joined [slash] (e :: l)) = is_rooted e) by (intros l; cbn [joined]; by destruct e).
    rewrite !Hr. assert (E : forall st, foldl (step (is_rooted e)) st (elements (joined [slash] (e :: elem))) = foldl (step (is_rooted e)) st (elements (joined [slash] (e :: nonempty elem)))); [|by rewrite E].
    intros st. rewrite !elements_joined by done. cbn [map concat]. rewrite !foldl_app. generalize (foldl (step (is_rooted e)) st (elements e)). clear.
    induction elem as [|x elem IH]; intros st; [done|]. unfold nonempty. cbn [filter list_filter map concat]. rewrite foldl_app. case_decide as Hx.
    + cbn [map concat]. rewrite foldl_app. apply IH.
    + assert (x = []) as -> by (destruct x; [done|by destruct Hx]). apply IH.
  - assert (e = []) as -> by (destruct e; [done|by destruct He]). apply IH.
Qed.

Lemma ext_loop_spec fuel path : forall i, -1 <= i < zlen path -> i + 1 < Z.of_nat fuel -> Forall (λ c, c <> slash /\ c <> dot) (drop (Z.to_nat (i + 1)) path) ->
  exists pre e, ext_loop fuel path i = Val e /\
  ((e = [] /\ exists q, path = pre ++ q /\ Forall (λ c, c <> slash /\ c <> dot) q /\ (pre = [] \/ exists p, pre = p ++ [slash]))
   \/ (path = pre ++ e /\ exists e', e = dot :: e' /\ Forall (λ c, c <> slash /\ c <> dot) e')).
Proof.
  induction fuel as [|fuel IH]; intros i Hi Hf Hq; [lia|]. cbn [ext_loop]. destruct (Z.leb_spec 0 i) as [H0|H0].
  2:{ exists [], []. split; [done|]. left. split; [done|]. exists path. replace (Z.to_nat (i + 1)) with 0%nat in Hq by lia. split; [done|]. split; [done|by left]. }
  rewrite index_byte by lia. cbn [mbind outcome_bind]. pose proof (lookup_elem path i ltac:(lia)) as El. set (c := elem path i) in *.
  destruct (Z.eqb_spec c slash) as [Ec|Ec].
  { exists (take (Z.to_nat (i + 1)) path), []. split; [done|]. left. split; [done|]. eexists. split; [by rewrite take_drop|]. split; [done|]. right.
    exists (take (Z.to_nat i) path). replace (Z.to_nat (i + 1)) with (S (Z.to_nat i)) by lia. rewrite <- Ec. by apply take_S_r. }
  assert (Ed : drop (Z.to_nat i) path = c :: drop (Z.to_nat (i + 1)) path) by (replace (Z.to_nat (i + 1)) with (S (Z.to_nat i)) by lia; by apply drop_S).
  destruct (Z.eqb_spec c dot) as [Ed'|Ed'].
  { rewrite slice_from by lia. exists (take (Z.to_nat i) path). eexists. split; [done|]. right. split; [by rewrite take_drop|]. rewrite Ed, Ed'. by eexists. }
  destruct (IH (i - 1)) as (pre & e & E & H); [lia|lia| |by exists pre, e].
  replace (i - 1 + 1) with i by lia. rewrite Ed. by constructor.
Qed.

(** ** The extension *)

Definition plain_char (c : Z) : Prop := c <> slash /\ c <> dot.

(** Two ways to cut a path after its last slash are the same. *)
Lemma cut_after_slash (dir file pre q : list Z) : dir ++ file = pre ++ q -> no_slash q -> (dir = [] \/ exists d, dir = d ++ [slash]) -> exists k, file = k ++ q /\ pre = dir ++ k.
Proof.
  intros E Hq Hd. apply app_eq_inv in E as [(k & -> & ->)|(k & -> & ->)]; [|by exists k]. destruct (snoc_cases k) as [->|(k' & c & ->)]; [exists []; by rewrite !app_nil_r|].
  exfalso. apply Forall_app in Hq as [Hq _]. apply Forall_app in Hq as [_ Hq]. apply Forall_cons in Hq as [Hc _].
  destruct Hd as [Hd|(d & Hd)]; [by destruct pre, k'|]. rewrite app_assoc in Hd. by apply app_inj_tail in Hd as [_ ->].
Qed.

Lemma plain_no_slash q : Forall plain_char q -> no_slash q.
Proof. intros Hq. eapply Forall_impl; [exact Hq|]. by intros c [? _]. Qed.

Lemma Ext_spec path dir file : path = dir ++ file -> no_slash file -> (dir = [] \/ exists d, dir = d ++ [slash]) ->
  exists stem e, Ext path = Val e /\ file = stem ++ e /\ ((e = [] /\ Forall plain_char file) \/ exists e', e = dot :: e' /\ Forall plain_char e').
Proof.
  intros Ep Hf Hd. unfold Ext. destruct (ext_loop_spec (S (length path)) path (zlen path - 1)) as (pre & e & E & H); [lia|lia| |].
  { rewrite drop_ge by lia. constructor. }
  rewrite E. destruct H as [(-> & q & Eq & Hq & Hpre)|(Eq & e' & -> & He')].
  - exists file, []. split; [done|]. split; [by rewrite app_nil_r|]. left. split; [done|].
    rewrite Ep in Eq. symmetry in Eq. destruct (cut_after_slash _ _ _ _ Eq Hf Hpre) as (k & -> & _).
    by apply Forall_app in Hq as [_ Hq].
  - rewrite Ep in Eq. destruct (cut_after_slash _ _ _ _ Eq) as (k & -> & _); [|done|].
    { constructor; [done|by apply plain_no_slash]. }
    exists k, (dot :: e'). split; [done|]. split; [done|]. right. by exists e'.
Qed.

Lemma IsAbs_spec path : IsAbs path = Val (is_rooted path).
Proof.
  unfold IsAbs. destruct path as [|c p]; [done|]. rewrite (proj2 (Z.ltb_lt 0 (zlen (c :: p)))) by (cbn [length]; lia). done.
Qed.

(** ** The properties *)

(** C32. Clean terminates without a fault on every path and gives the shortest name that the documentation describes:
    the elements between slashes are pushed on a stack, empty and "." elements are skipped, ".." removes the element
    before it, and is kept only where a relative path has nothing left to remove.  In the result no element is empty or
    ".", every ".." is at the front, a rooted result has none, and an empty result is written ".".  Cleaning keeps
    the root and is idempotent. *)
Theorem Clean_stack path :
  Clean path = Val (cleaned path) /\ Clean (cleaned path) = Val (cleaned path) /\ IsAbs (cleaned path) = IsAbs path /\
  exists st, cleaned path = (if bool_decide (render (is_rooted path) st = []) then [dot] else render (is_rooted path) st) /\
    stack_ok (is_rooted path) st /\ no_dot st.
Proof.
  split; [apply Clean_spec|]. split; [by rewrite Clean_spec, cleaned_cleaned|]. split; [by rewrite !IsAbs_spec, cleaned_rooted|].
  exists (final path). split; [done|apply final_ok].
Qed.

(** C35. Split cuts a path after its last slash: the two parts concatenate to the path, the file has no slash and the
    directory is empty or ends in one.  Dir is the cleaned directory part, Base the last element that is not empty
    ("." for an empty path, "/" for slashes only), Ext the suffix of the file from its last dot, empty when the file
    has none, and Join, given elements that are well-formed UTF-8, drops the empty ones, puts slashes between the others and cleans the result (nothing when all
    are empty); other elements need not survive the Builder of the runtime, which Join uses.  None of them faults. *)
Theorem Split_Dir_Base_Ext_Join `{EncodingLaws} path elem : Forall well_formed elem ->
  exists dir file stem e,
    Split path = Val (dir, file) /\ path = dir ++ file /\ no_slash file /\ (dir = [] \/ exists d, dir = d ++ [slash]) /\
    Dir path = Val (cleaned dir) /\
    Base path = Val (base_of path) /\ (file <> [] -> Base path = Val file) /\
    Ext path = Val e /\ file = stem ++ e /\ ((e = [] /\ Forall plain_char file) \/ exists e', e = dot :: e' /\ Forall plain_char e') /\
    Join elem = Val (if bool_decide (nonempty elem = []) then [] else cleaned (joined [slash] (nonempty elem))).
Proof.
  intros Hwf. destruct (Split_spec path) as (dir & file & Es & Ep & Hf & Hd). destruct (Ext_spec path dir file Ep Hf Hd) as (stem & e & Ee & Efe & He).
  exists dir, file, stem, e. split; [done|]. split; [done|]. split; [done|]. split; [done|].
  split; [unfold Dir; rewrite Es; cbn [mbind outcome_bind]; apply Clean_spec|]. split; [apply Base_spec|].
  split; [|split; [done|split; [done|split; [done|by apply Join_spec']]]].
  intros Hne. rewrite Base_spec. f_equal. rewrite Ep. by apply base_of_file.
Qed.
Lemma Split_Dir_Base_Ext_Join_witness : exists dir file, Split (str "a/b.go") = Val (dir, file) /\ @Join replacing_Encoding [str "a"; []; str "../b"] = Val (str "b").
Proof.
  destruct (@Split_Dir_Base_Ext_Join replacing_Encoding replacing_laws (str "a/b.go") [str "a"; []; str "../b"]) as (dir & file & stem & e & Es & _ & _ & _ & _ & _ & _ & _ & _ & _ & Ej).
  - repeat constructor; [exists (str "a")|exists []|exists (str "../b")]; (split; [by repeat constructor|done]).
  - exists dir, file. split; [exact Es|]. rewrite Ej. by vm_compute.
Defined.
