(* ===== verification/Slices.v ===== *)
(** * Slices of the runtime

    The class Slice of src/Source/Gold/Gold.pas, with the free functions slice expressions, len, cap, copy and append
    that the compiler calls for a Go slice, over an explicit heap of arrays.  A slice is a view: an array, a first
    position and a length; its capacity reaches to the end of the array.  Arrays are named by their number, the shared
    EmptyArray is number 0, and a nil slice is the empty view of it.  A null reference, which the class treats as nil
    too, is not distinguished from that view.  What the class asks of the type of its elements by reflection is the
    class [Element]: a value class, whose instances are made when a nil is read, and an array, which append takes
    apart and clones.  An element is its value; which object holds it is not modelled.  The file ends with frames,
    which say what part of the heap an operation may change, for a reader of it. *)

From S2P Require Import Prelude State.

Local Open Scope go_scope.

Record Slice : Type := SliceOf { fArray : nat; fStart : Z; fCount : Z }.

#[export] Instance Slice_eq_dec : EqDecision Slice.
Proof. solve_decision. Defined.

Definition EmptyArray : nat := 0.
Definition fZero : Slice := SliceOf EmptyArray 0 0.

(** What the runtime finds out about the type of the elements: VTCheck (a class with the method __Set has value semantics,
    and new arrays of it hold nil), and, for an element that is a list, its parts, the array that holds given parts, and
    the method __Clone of the type of the parts, when it has one. *)
Class Element (A : Type) : Type := {
  IsVT : bool;
  Nil : A -> bool;
  CreateInstance : A;
  part : Type;
  as_IList : A -> option (list part);
  of_array : list part -> A;
  CloneMethod : option (part -> part)
}.

(** Numbers: bytes, words, runes. *)
#[export] Instance number_Element : Element Z := {|
  IsVT := false; Nil := λ _, false; CreateInstance := 0; part := Empty_set; as_IList := λ _, None; of_array := λ _, 0; CloneMethod := None
|}.

(** The heap: its arrays by number. *)
Abbreviation heap A := (list (list A)).

Section Elements.
Context {A : Type}.

Implicit Types (h : heap A) (s : Slice) (a : nat) (i j : Z).

Definition array h a : list A := default [] (h !! a).

(** A position of an array; the arrays of the platform check their bounds. *)
Definition slot h a i : option A := if decide (0 <= i) then array h a !! Z.to_nat i else None.
Definition read_cell a i : M (heap A) A := h ← get; match slot h a i with Some x => mret x | None => raise IndexOutOfRange end.
Definition write_cell a i (x : A) : M (heap A) unit :=
  h ← get;
  match slot h a i with Some _ => put (<[a := <[Z.to_nat i := x]> (array h a)]> h) | None => raise IndexOutOfRange end.
(** [new T[n]] *)
Definition new_array (zero : A) (n : Z) : M (heap A) nat :=
  if n <? 0 then raise OverflowError else h ← get; put (h ++ [make zero n]);; mret (length h).

Definition Length s : Z := fCount s.
Definition Capacity s : M (heap A) Z := h ← get; mret (zlen (array h (fArray s)) - fStart s).

Definition IsNil s : M (heap A) bool :=
  c ← Capacity s; mret (bool_decide (fArray s = EmptyArray) && (Length s =? 0) && (c =? 0)).

Definition new_Slice (aArray : nat) (aStart aCount : Z) : M (heap A) Slice :=
  h ← get;
  if (aStart <? 0) || (zlen (array h aArray) <? aStart + aCount) then raise IndexOutOfRange
  else mret (SliceOf aArray aStart aCount).

(** The constructor for [make(T, size, cap)]. *)
Definition new_sized (zero : A) (aSize aCap : Z) : M (heap A) Slice :=
  let aCap := if aCap <? aSize then aSize else aCap in
  a ← new_array zero aCap; new_Slice a 0 aSize.

(** Reading a nil of a value class stores a new instance. *)
Definition get_Item `{Element A} s i : M (heap A) A :=
  if (i <? 0) || (fCount s <=? i) then raise IndexOutOfRange
  else
    x ← read_cell (fArray s) (i + fStart s);
    (if IsVT && Nil x then write_cell (fArray s) (i + fStart s) CreateInstance else mret tt);;
    read_cell (fArray s) (i + fStart s).
Definition set_Item s i (x : A) : M (heap A) unit :=
  c ← Capacity s;
  if (i <? 0) || (c <=? i) then raise IndexOutOfRange else write_cell (fArray s) (i + fStart s) x.

Definition len s : M (heap A) Z := n ← IsNil s; mret (if n : bool then 0 else Length s).
Definition cap s : M (heap A) Z := Capacity s.

(** The slice expression [s[i:j]], with absent bounds as [None]. *)
Definition slice_ s (aStart aEnd : option Z) : M (heap A) Slice :=
  n ← IsNil s;
  if n : bool then mret fZero
  else
    let lStart := default 0 aStart in
    let lEnd := default (Length s) aEnd in
    if (lStart =? 0) && (lEnd =? Length s) then mret s
    else
      let lStart := lStart + fStart s in
      let lEnd := lEnd + fStart s in
      new_Slice (fArray s) lStart (lEnd - lStart).

Definition copy `{Element A} (dst src : Slice) : M (heap A) Z :=
  ns ← len src;
  nd ← len dst;
  let result := Z.min ns nd in
  loop_up 0 result (λ i _, x ← get_Item src i; set_Item dst i x) tt;;
  mret result.

(** [append(sl, x)]: an array is taken in as an array of the clones of its elements; the result is converted from an array. *)
Definition append_one `{Element A} (zero : A) (sl : Slice) (x : A) : M (heap A) Slice :=
  slc ← len sl;
  lNew ← new_array zero (slc + 1);
  loop_up 0 slc (λ i _, y ← get_Item sl i; write_cell lNew i y) tt;;
  write_cell lNew slc (match as_IList x with Some l => of_array (match CloneMethod with Some f => f <$> l | None => l end) | None => x end);;
  new_Slice lNew 0 (slc + 1).

(** [append(sl, elems...)] *)
Definition append_slice `{Element A} (zero : A) (sl elems : Slice) : M (heap A) Slice :=
  c ← len elems;
  slc ← len sl;
  slCap ← Capacity sl;
  lNew ← new_array zero (if slc + c <=? slCap then slCap else slc + c);
  loop_up 0 slc (λ i _, y ← get_Item sl i; write_cell lNew i y) tt;;
  loop_up 0 c (λ i _, y ← get_Item elems i; write_cell lNew (i + slc) y) tt;;
  new_Slice lNew 0 (slc + c).

End Elements.

(** ** What is left of pointer comparisons *)

(** crypto/internal/subtle: overlapping, but not at the same start. *)
Definition InexactOverlap (x y : Slice) : bool :=
  if (Length x =? 0) || (Length y =? 0) || negb (bool_decide (fArray x = fArray y))
     || (bool_decide (fArray x = fArray y) && (fStart x =? fStart y)) then false
  else if bool_decide (fArray x = fArray y) && ((fStart x <=? fStart y + Length y) && (fStart y <=? fStart x + Length x)) then true
  else false.

(** Shifting a slice by one place with copy, which Go allows: [copy(s[1:], s)] of [1;2;3] gives [1;1;1], where Go
    gives [1;1;2]. *)
Example copy_overlapping : copy (SliceOf 1 1 2) (SliceOf 1 0 3) [[]; [1; 2; 3]] = Val (2, [[]; [1; 1; 1]]).
Proof. reflexivity. Qed.

(** [s[2:1]] and, for a slice that does not start its array, [s[-1:]] and a bound past the length are not refused. *)
Example slice_reversed : slice_ (SliceOf 1 0 3) (Some 2) (Some 1) [[]; [1; 2; 3]] = Val (SliceOf 1 2 (-1), [[]; [1; 2; 3]]).
Proof. reflexivity. Qed.
Example slice_negative : slice_ (SliceOf 1 1 2) (Some (-1)) None [[]; [1; 2; 3]] = Val (SliceOf 1 0 3, [[]; [1; 2; 3]]).
Proof. reflexivity. Qed.
(** Two halves of a buffer touch without overlapping. *)
Example overlap_adjacent : InexactOverlap (SliceOf 1 0 2) (SliceOf 1 2 2) = true.
Proof. reflexivity. Qed.

(** ** Frames *)

Section Frames.
Context {A : Type} `{E_A : Element A}.
Implicit Types (h : heap A) (s : Slice) (a : nat) (P Q : nat -> Z -> Prop).

(** A slice within its array, of an array that exists. *)
Definition wf h s : Prop :=
  (fArray s < length h)%nat /\ 0 <= fStart s /\ 0 <= fCount s /\ fStart s + fCount s <= zlen (array h (fArray s)).

Definition capacity h s : Z := zlen (array h (fArray s)) - fStart s.

(** What a reader of the class finds in a place that holds [x], and the positions of the heap as they are read. *)
Definition held (x : A) : A := if IsVT && Nil x then CreateInstance else x.
Definition cell h a i : option A := held <$> slot h a i.

(** The empty array is there and is empty. *)
Definition heap_ok h : Prop := (0 < length h)%nat /\ array h EmptyArray = [].

(** [h'] is, for a reader, [h] with new arrays, and the positions in [P] written. *)
Definition frame P h h' : Prop :=
  (length h <= length h')%nat /\
  forall a, (a < length h)%nat -> zlen (array h' a) = zlen (array h a) /\ forall i, ~ P a i -> cell h' a i = cell h a i.

Definition nowhere : nat -> Z -> Prop := λ _ _, False.
(** The positions [lo, hi) of a slice. *)
Definition win s (lo hi : Z) : nat -> Z -> Prop := λ a i, a = fArray s /\ fStart s + lo <= i < fStart s + hi.
Definition all_of (a : nat) : nat -> Z -> Prop := λ a' _, a' = a.

Lemma frame_refl P h : frame P h h.
Proof. split; [done|]. intros a _. split; done. Qed.

Lemma frame_trans P h1 h2 h3 : frame P h1 h2 -> frame P h2 h3 -> frame P h1 h3.
Proof.
  intros [L1 H1] [L2 H2]. split; [lia|]. intros a Ha. destruct (H1 a Ha) as [E1 F1]. destruct (H2 a ltac:(lia)) as [E2 F2].
  split; [lia|]. intros i Hi. by rewrite F2, F1.
Qed.

Lemma frame_weaken P Q h h' : frame P h h' -> (forall a i, (a < length h)%nat -> P a i -> Q a i) -> frame Q h h'.
Proof. intros [L H] HPQ. split; [done|]. intros a Ha. destruct (H a Ha) as [E F]. split; [done|]. intros i Hi. apply F. auto. Qed.

Lemma frame_step P Q h1 h2 h3 : frame P h1 h2 -> frame Q h2 h3 -> (forall a i, (a < length h1)%nat -> Q a i -> P a i) -> frame P h1 h3.
Proof.
  intros H1 [L2 H2] HQP. destruct H1 as [L1 H1]. split; [lia|]. intros a Ha. destruct (H1 a Ha) as [E1 F1]. destruct (H2 a ltac:(lia)) as [E2 F2].
  split; [lia|]. intros i Hi. rewrite F2; [by apply F1|]. intros HQ. by apply Hi, HQP.
Qed.

Lemma frame_length P h h' : frame P h h' -> (length h <= length h')%nat.
Proof. by intros [? _]. Qed.

Lemma frame_cell P h h' a i : frame P h h' -> (a < length h)%nat -> ~ P a i -> cell h' a i = cell h a i.
Proof. intros [_ H] Ha Hi. by apply (H a Ha). Qed.

Lemma frame_wf P h h' s : frame P h h' -> wf h s -> wf h' s.
Proof. intros [L H] (Ha & ? & ? & ?). destruct (H _ Ha) as [E _]. unfold wf. split; [lia|]. split; [done|]. split; [done|]. lia. Qed.

Lemma frame_capacity P h h' s : frame P h h' -> (fArray s < length h)%nat -> capacity h' s = capacity h s.
Proof. intros [L H] Ha. unfold capacity. by rewrite (proj1 (H _ Ha)). Qed.

Lemma array_nil h a : zlen (array h a) = 0 -> array h a = [].
Proof. destruct (array h a); [done|cbn [length]; lia]. Qed.

Lemma frame_ok P h h' : frame P h h' -> heap_ok h -> heap_ok h'.
Proof. intros [L H] [Hl He]. split; [lia|]. apply array_nil. rewrite (proj1 (H EmptyArray Hl)), He. done. Qed.

(** ** Reading and writing *)

Lemma slot_lookup h a i : 0 <= i -> slot h a i = array h a !! Z.to_nat i.
Proof. intros Hi. unfold slot. by rewrite decide_True. Qed.

Lemma slot_some h a i : 0 <= i < zlen (array h a) -> exists x, slot h a i = Some x.
Proof. intros Hi. rewrite slot_lookup by lia. apply lookup_lt_is_Some. lia. Qed.

Lemma cell_some h a i : 0 <= i < zlen (array h a) -> exists x, cell h a i = Some x.
Proof. intros Hi. unfold cell. destruct (slot_some h a i Hi) as [x ->]. by eexists. Qed.

Lemma cell_bound h a i x : cell h a i = Some x -> 0 <= i < zlen (array h a).
Proof. unfold cell, slot. case_decide; [|done]. intros (y & E%lookup_lt_Some & _)%fmap_Some. lia. Qed.

Lemma held_held x : held (held x) = held x.
Proof. unfold held. destruct (IsVT && Nil x) eqn:E; [by destruct (IsVT && Nil CreateInstance)|by rewrite E]. Qed.

Definition upd h a i x : heap A := <[a := <[Z.to_nat i := x]> (array h a)]> h.

Lemma array_upd h a i x b : (a < length h)%nat -> array (upd h a i x) b = if decide (b = a) then <[Z.to_nat i := x]> (array h a) else array h b.
Proof.
  intros Ha. unfold array, upd. case_decide as Hb; [subst b; by rewrite list_lookup_insert_eq|]. by rewrite list_lookup_insert_ne.
Qed.

Lemma slot_upd h a i x b j : (a < length h)%nat -> 0 <= i < zlen (array h a) ->
  slot (upd h a i x) b j = if decide (b = a /\ j = i) then Some x else slot h b j.
Proof.
  intros Ha Hi. unfold slot. case_decide as Hj; [|rewrite decide_False by lia; done]. rewrite array_upd by done. case_decide as Hb.
  - subst b. destruct (decide (a = a /\ j = i)) as [[_ ->]|Hn]; [rewrite list_lookup_insert_eq by lia; done|]. by rewrite list_lookup_insert_ne by lia.
  - by rewrite decide_False by tauto.
Qed.

Lemma cell_write h a i x b j : (a < length h)%nat -> 0 <= i < zlen (array h a) ->
  cell (upd h a i x) b j = if decide (b = a /\ j = i) then Some (held x) else cell h b j.
Proof. intros Ha Hi. unfold cell. rewrite slot_upd by done. by case_decide. Qed.

(** Arrays with the same lengths, read as before. *)
Lemma frame_cells P h a i x : (a < length h)%nat -> 0 <= i < zlen (array h a) -> (forall b j, ~ P b j -> cell (upd h a i x) b j = cell h b j) -> frame P h (upd h a i x).
Proof.
  intros Ha Hi HP. split; [by unfold upd; rewrite length_insert|]. intros b Hb. split; [|intros j; apply HP].
  rewrite array_upd by done. case_decide; [subst b; by rewrite length_insert|done].
Qed.

Lemma frame_upd h a i x : (a < length h)%nat -> 0 <= i < zlen (array h a) -> frame (λ b j, b = a /\ j = i) h (upd h a i x).
Proof. intros Ha Hi. apply frame_cells; [done..|]. intros b j Hj. rewrite cell_write by done. by rewrite decide_False. Qed.

(** Reading: the element, or a new instance for the nil of a value class, which is stored; a reader sees no change. *)
Lemma wp_read h s i (Q : A -> heap A -> Prop) : wf h s -> 0 <= i < fCount s ->
  (forall x h', cell h (fArray s) (fStart s + i) = Some x -> frame nowhere h h' -> (IsVT = false -> h' = h) -> Q x h') -> wp (get_Item s i) h Q.
Proof.
  intros (Ha & ? & ? & ?) Hi HQ. unfold get_Item. rewrite (proj2 (Z.ltb_ge i 0)), (proj2 (Z.leb_gt (fCount s) i)) by lia. cbn [orb]. rewrite (Z.add_comm i).
  destruct (slot_some h (fArray s) (fStart s + i)) as (x & E); [lia|]. unfold read_cell at 1. apply wp_bind, wp_bind, wp_get. rewrite E. apply wp_ret.
  destruct (IsVT && Nil x) eqn:Ev.
  - apply wp_bind. unfold write_cell. apply wp_bind, wp_get. rewrite E. apply wp_put. change (<[_ := _]> h) with (upd h (fArray s) (fStart s + i) CreateInstance).
    unfold read_cell. apply wp_bind, wp_get. rewrite slot_upd, decide_True by (done || lia). apply wp_ret. apply HQ.
    + unfold cell. rewrite E. cbn. unfold held. by rewrite Ev.
    + apply frame_cells; [done|lia|]. intros b j _. rewrite cell_write by (done || lia). case_decide as Hb; [|done]. destruct Hb as [-> ->]. unfold cell. rewrite E. cbn. unfold held. rewrite Ev. by destruct (IsVT && Nil CreateInstance).
    + intros Ep. by rewrite Ep in Ev.
  - apply wp_bind, wp_ret. unfold read_cell. apply wp_bind, wp_get. rewrite E. apply wp_ret. apply HQ; [|apply frame_refl|done]. unfold cell. rewrite E. cbn. unfold held. by rewrite Ev.
Qed.

(** A write within the capacity. *)
Lemma wp_set_held h s i x (Q : unit -> heap A -> Prop) : wf h s -> 0 <= i < capacity h s ->
  (forall h', h' = upd h (fArray s) (fStart s + i) x -> frame (win s i (i + 1)) h h' ->
    cell h' (fArray s) (fStart s + i) = Some (held x) -> Q tt h') -> wp (set_Item s i x) h Q.
Proof.
  intros (Ha & ? & ? & ?) Hi HQ. unfold capacity in Hi. unfold set_Item, Capacity. apply wp_bind, wp_bind, wp_get, wp_ret.
  rewrite (proj2 (Z.ltb_ge i 0)), (proj2 (Z.leb_gt (zlen (array h (fArray s)) - fStart s) i)) by lia. cbn [orb].
  unfold write_cell. apply wp_bind, wp_get. rewrite (Z.add_comm i). destruct (slot_some h (fArray s) (fStart s + i)) as (y & E); [lia|].
  rewrite E. apply wp_put. apply HQ; [done| |].
  - eapply frame_weaken; [apply frame_upd; [done|lia]|]. intros a j _ [-> ->]. split; [done|lia].
  - change (<[_ := _]> h) with (upd h (fArray s) (fStart s + i) x). rewrite cell_write by (done || lia). by rewrite decide_True.
Qed.

Lemma IsNil_val h s : IsNil s h = Val (bool_decide (fArray s = EmptyArray) && (fCount s =? 0) && (capacity h s =? 0), h).
Proof. done. Qed.

Lemma nil_zero h s : heap_ok h -> wf h s -> fArray s = EmptyArray -> s = fZero.
Proof. intros [_ He] (Ha & ? & ? & Hl) E. rewrite E, He in Hl. cbn in Hl. destruct s as [a st n]. cbn in *. unfold fZero. f_equal; [done|lia..]. Qed.

Lemma len_val h s : heap_ok h -> wf h s -> len s h = Val (fCount s, h).
Proof.
  intros Hh Hs. unfold len, mbind, M_bind. rewrite IsNil_val. case_bool_decide as E; cbn [andb]; [|done].
  rewrite (nil_zero h s) by done. by destruct (_ && _).
Qed.

Lemma cap_val h s : cap s h = Val (capacity h s, h).
Proof. done. Qed.

(** A slice expression within the capacity. *)
Definition sub s (i j : Z) : Slice := SliceOf (fArray s) (fStart s + i) (j - i).

Lemma slice_val_bounds h s i j : heap_ok h -> wf h s -> default 0 i <= default (fCount s) j -> 0 <= default 0 i -> default (fCount s) j <= capacity h s ->
  slice_ s i j h = Val (sub s (default 0 i) (default (fCount s) j), h).
Proof.
  intros Hh Hs Hij Hi Hj. unfold slice_, mbind, M_bind. rewrite IsNil_val. unfold Length. destruct (decide (fArray s = EmptyArray)) as [E|E].
  - pose proof (nil_zero h s Hh Hs E) as ->. cbn in *. assert (capacity h fZero = 0) as Ec by (destruct Hh as [_ He]; unfold capacity; cbn; by rewrite He).
    rewrite Ec in *. assert (default 0 i = 0) as -> by lia. assert (default 0 j = 0) as -> by lia. done.
  - rewrite bool_decide_eq_false_2 by done. cbn [andb]. destruct ((default 0 i =? 0) && (default (fCount s) j =? fCount s)) eqn:Eb.
    + apply andb_true_iff in Eb as [E1%Z.eqb_eq E2%Z.eqb_eq]. rewrite E1, E2. unfold mret, M_ret. repeat f_equal. destruct s; unfold sub; cbn. f_equal; lia.
    + unfold new_Slice, mbind, M_bind, get. destruct Hs as (Ha & ? & ? & ?). unfold capacity in Hj.
      rewrite (proj2 (Z.ltb_ge (default 0 i + fStart s) 0)) by lia.
      rewrite (proj2 (Z.ltb_ge (zlen (array h (fArray s))) (default 0 i + fStart s + (default (fCount s) j + fStart s - (default 0 i + fStart s))))) by lia.
      cbn [orb]. unfold mret, M_ret. repeat f_equal. unfold sub. f_equal; lia.
Qed.

Lemma wp_slice h s i j (Q : Slice -> heap A -> Prop) : heap_ok h -> wf h s -> 0 <= default 0 i <= default (fCount s) j -> default (fCount s) j <= capacity h s ->
  Q (sub s (default 0 i) (default (fCount s) j)) h -> wp (slice_ s i j) h Q.
Proof. intros Hh Hs Hi Hj HQ. eapply wp_of_val; [apply slice_val_bounds; [done|done|lia..]|exact HQ]. Qed.

Lemma sub_wf h s i j : wf h s -> 0 <= i <= j -> j <= capacity h s -> wf h (sub s i j).
Proof. unfold wf, capacity, sub. cbn. intros (? & ? & ? & ?) ? ?. split; [done|]. lia. Qed.

(** ** Allocation *)

Lemma array_app h l a : array (h ++ [l]) a = if decide (a = length h) then l else array h a.
Proof.
  unfold array. case_decide as E; [subst a; by rewrite list_lookup_middle|]. destruct (decide (a < length h)%nat); [by rewrite lookup_app_l|].
  rewrite (lookup_ge_None_2 h) by lia. rewrite lookup_ge_None_2; [done|]. rewrite length_app. cbn. lia.
Qed.

Lemma frame_app h l : frame nowhere h (h ++ [l]).
Proof.
  split; [rewrite length_app; lia|]. intros a Ha. unfold cell, slot. rewrite array_app, decide_False by lia. split; done.
Qed.

Lemma wp_new_array zero n h (Q : nat -> heap A -> Prop) : 0 <= n ->
  Q (length h) (h ++ [make zero n]) -> wp (new_array zero n) h Q.
Proof. intros Hn HQ. unfold new_array. rewrite (proj2 (Z.ltb_ge n 0)) by lia. apply wp_bind, wp_get, wp_bind, wp_put, wp_ret, HQ. Qed.

Lemma zlen_make (zero : A) n : 0 <= n -> zlen (make zero n) = n.
Proof. intros Hn. unfold make. rewrite length_replicate. lia. Qed.

Lemma slot_fresh h zero n i : 0 <= i < n -> slot (h ++ [make zero n]) (length h) i = Some zero.
Proof. intros Hi. rewrite slot_lookup by lia. rewrite array_app, decide_True by done. apply lookup_replicate_2. lia. Qed.

(** make: a new array of zeroes, not shorter than the length. *)
Lemma wp_new_sized zero n c h (Q : Slice -> heap A -> Prop) : 0 <= n ->
  (forall h', frame nowhere h h' -> h' = h ++ [make zero (Z.max n c)] -> wf h' (SliceOf (length h) 0 n) -> Q (SliceOf (length h) 0 n) h') ->
  wp (new_sized zero n c) h Q.
Proof.
  intros Hn HQ. unfold new_sized. replace (if c <? n then n else c) with (Z.max n c) by (destruct (Z.ltb_spec c n); lia).
  apply wp_bind, wp_new_array; [lia|]. unfold new_Slice. apply wp_bind, wp_get. rewrite array_app, decide_True by done. rewrite zlen_make by lia.
  cbn [Z.ltb orb]. change (0 <? 0) with false. rewrite (proj2 (Z.ltb_ge (Z.max n c) (0 + n))) by lia. cbn [orb]. apply wp_ret, HQ; [apply frame_app|done|].
  unfold wf. cbn. rewrite array_app, decide_True by done. rewrite zlen_make by lia. rewrite length_app. cbn. lia.
Qed.

End Frames.

(** ** Elements that are not of a value class *)

Class Plain (A : Type) `{Element A} : Prop := plain : IsVT = false.

#[export] Instance number_Plain : Plain Z := eq_refl.

Section Plain.
Context {A : Type} `{E_A : Element A} `{!Plain A}.
Implicit Types (h : heap A) (s : Slice) (a : nat).

Lemma held_plain (x : A) : held x = x.
Proof. unfold held. by rewrite plain. Qed.

Lemma cell_slot h a i : cell h a i = slot h a i.
Proof. unfold cell. destruct (slot h a i) as [x|]; cbn; [by rewrite held_plain|done]. Qed.

Lemma cell_lookup h a i : 0 <= i -> cell h a i = array h a !! Z.to_nat i.
Proof. intros Hi. rewrite cell_slot. by apply slot_lookup. Qed.

Lemma cell_upd h a i x b j : (a < length h)%nat -> 0 <= i < zlen (array h a) ->
  cell (upd h a i x) b j = if decide (b = a /\ j = i) then Some x else cell h b j.
Proof. intros Ha Hi. rewrite cell_write by done. by rewrite held_plain. Qed.

Lemma cell_fresh h zero n i : 0 <= i < n -> cell (h ++ [make zero n]) (length h) i = Some zero.
Proof. intros Hi. rewrite cell_slot. by apply slot_fresh. Qed.

Lemma get_Item_plain s i : get_Item s i = if (i <? 0) || (fCount s <=? i) then raise IndexOutOfRange else x ← read_cell (fArray s) (i + fStart s); read_cell (fArray s) (i + fStart s).
Proof. unfold get_Item. by rewrite plain. Qed.

Lemma wp_get_Item h s i (Q : A -> heap A -> Prop) : wf h s -> 0 <= i < fCount s ->
  (forall x, cell h (fArray s) (fStart s + i) = Some x -> Q x h) -> wp (get_Item s i) h Q.
Proof. intros Hs Hi HQ. apply wp_read; [done..|]. intros x h' Hx _ Hh. rewrite Hh by apply plain. by apply HQ. Qed.

Lemma wp_set_Item h s i x (Q : unit -> heap A -> Prop) : wf h s -> 0 <= i < capacity h s ->
  (forall h', h' = upd h (fArray s) (fStart s + i) x -> frame (win s i (i + 1)) h h' ->
    cell h' (fArray s) (fStart s + i) = Some x -> Q tt h') -> wp (set_Item s i x) h Q.
Proof. intros Hs Hi HQ. apply wp_set_held; [done..|]. intros h' E Hf Hc. rewrite held_plain in Hc. by apply HQ. Qed.

End Plain.

(** ** Copying and appending *)

Section Copy.
Context {A : Type} `{E_A : Element A}.
Implicit Types (h : heap A) (s : Slice).

(** The element at a position of a slice. *)
Definition at_ h s (i : Z) : option A := cell h (fArray s) (fStart s + i).

(** Writing [z] from left to right does not run into what is still to be read of [x]. *)
Definition ahead (z x : Slice) : Prop :=
  fArray z = fArray x -> fStart z <= fStart x \/ fStart x + fCount x <= fStart z.

Lemma at_frame P h h' s i : frame P h h' -> wf h s -> ~ P (fArray s) (fStart s + i) -> at_ h' s i = at_ h s i.
Proof. intros Hf (Ha & _) HP. by apply (frame_cell P). Qed.

Lemma cell_held h (a : nat) i x : cell h a i = Some x -> held x = x.
Proof. intros (y & _ & ->)%fmap_Some. apply held_held. Qed.

Lemma at_some h s i : wf h s -> 0 <= i < fCount s -> exists x, at_ h s i = Some x.
Proof. intros (? & ? & ? & ?) Hi. apply cell_some. lia. Qed.

(** What a loop that reads [src] and writes the positions of an array in order does. *)
Lemma wp_transfer h src (w : Z -> A -> M (heap A) unit) (a : nat) (lo n : Z) (Q : unit -> heap A -> Prop) :
  wf h src -> n <= fCount src -> 0 <= n -> (a < length h)%nat ->
  (a = fArray src -> lo <= fStart src \/ fStart src + n <= lo) ->
  (forall i x h1, 0 <= i < n -> frame (λ b j, b = a /\ lo <= j < lo + i) h h1 ->
     wp (w i x) h1 (λ _ h2, frame (λ b j, b = a /\ j = lo + i) h1 h2 /\ cell h2 a (lo + i) = Some (held x))) ->
  (forall h', frame (λ b j, b = a /\ lo <= j < lo + n) h h' -> (forall i, 0 <= i < n -> cell h' a (lo + i) = at_ h src i) -> Q tt h') ->
  wp (loop_up 0 n (λ i _, x ← get_Item src i; w i x) tt) h Q.
Proof.
  intros Hs Hn H0 Ha Hov Hw HQ.
  apply (wp_loop_up (λ i _ h1, frame (λ b j, b = a /\ lo <= j < lo + i) h h1 /\ forall j, 0 <= j < i -> cell h1 a (lo + j) = at_ h src j)); [lia| | |].
  - split; [apply frame_refl|]. intros j Hj. lia.
  - intros i [] h0 Hi [Hf0 Hc0]. apply wp_bind. apply wp_read; [by eapply frame_wf|lia|]. intros x h1 Hx Hr _.
    assert (Hf : frame (λ b j, b = a /\ lo <= j < lo + i) h h1) by (eapply frame_step; [exact Hf0|exact Hr|done]).
    assert (Hc : forall j, 0 <= j < i -> cell h1 a (lo + j) = at_ h src j) by (intros j Hj; rewrite (frame_cell _ _ _ _ _ Hr); [by apply Hc0|by apply frame_length in Hf0; lia|by intros []]).
    eapply wp_mono; [by apply Hw|]. intros _ h2 [Hf2 Hc2]. split.
    + eapply frame_step; [eapply frame_weaken; [exact Hf|]|exact Hf2|]; cbn; intros b j _; intros [-> ?]; (split; [done|lia]).
    + intros j Hj. destruct (decide (j = i)) as [->|Hji].
      * rewrite Hc2. rewrite (cell_held h0 _ _ x Hx), <- Hx. unfold at_. apply (frame_cell _ _ _ _ _ Hf0); [by destruct Hs|]. intros [E ?]. destruct (Hov (eq_sym E)); lia.
      * rewrite (frame_cell _ _ _ a (lo + j) Hf2); [apply Hc; lia|by apply frame_length in Hf; lia|]. intros [_ ?]. lia.
  - intros [] h1 [Hf Hc]. by apply HQ.
Qed.

(** copy agrees with Go's unless the destination starts inside of the source, after its start. *)
Lemma wp_copy h dst src n (Q : Z -> heap A -> Prop) : heap_ok h -> wf h dst -> wf h src -> ahead dst src -> n = Z.min (fCount src) (fCount dst) ->
  (forall h', frame (win dst 0 n) h h' -> (forall i, 0 <= i < n -> at_ h' dst i = at_ h src i) -> Q n h') ->
  wp (copy dst src) h Q.
Proof.
  intros Hh Hd Hs Ha -> HQ. unfold copy. apply wp_bind. eapply wp_of_val; [by apply len_val|]. apply wp_bind. eapply wp_of_val; [by apply len_val|].
  set (n := Z.min (fCount src) (fCount dst)) in *. apply wp_bind. destruct Hd as (Hd1 & Hd2 & Hd3 & Hd4), Hs as (Hs1 & Hs2 & Hs3 & Hs4).
  eapply (wp_transfer h src (set_Item dst) (fArray dst) (fStart dst) n); [done|lia|lia|done| | |].
  - intros E. destruct (Ha E); lia.
  - intros i x h1 Hi Hf. assert (Hwf : wf h1 dst) by (eapply frame_wf; [exact Hf|done]). apply wp_set_held; [done|unfold capacity; destruct Hwf; lia|].
    intros h2 _ Hf2 Hc. split; [|exact Hc]. eapply frame_weaken; [exact Hf2|]. intros b j _ [-> ?]. split; [done|lia].
  - intros h' Hf Hc. apply wp_ret, HQ; [|done]. eapply frame_weaken; [exact Hf|]. intros b j _ [-> ?]. split; [done|lia].
Qed.

Lemma wp_write_cell h (a : nat) i x : (a < length h)%nat -> 0 <= i < zlen (array h a) ->
  wp (write_cell a i x) h (λ _ h', frame (λ b j, b = a /\ j = i) h h' /\ cell h' a i = Some (held x)).
Proof.
  intros Ha Hi. unfold write_cell. apply wp_bind, wp_get. destruct (slot_some h a i Hi) as (y & ->). apply wp_put.
  split; [by apply frame_upd|]. change (<[_ := _]> h) with (upd h a i x). rewrite cell_write by done. by rewrite decide_True.
Qed.

(** A read of [src] into a new array. *)
Lemma wp_fill h src (a : nat) (ix : Z -> Z) (lo n : Z) (Q : unit -> heap A -> Prop) :
  wf h src -> n = fCount src -> (a < length h)%nat -> a <> fArray src -> 0 <= lo -> lo + n <= zlen (array h a) -> (forall i, ix i = lo + i) ->
  (forall h', frame (λ b j, b = a /\ lo <= j < lo + n) h h' -> (forall i, 0 <= i < n -> cell h' a (lo + i) = at_ h src i) -> Q tt h') ->
  wp (loop_up 0 n (λ i _, x ← get_Item src i; write_cell a (ix i) x) tt) h Q.
Proof.
  intros Hs -> Ha Hne Hlo Hhi Hix HQ. apply (wp_transfer h src (λ i x, write_cell a (ix i) x) a lo); [done|lia|by destruct Hs as (_ & _ & ? & _)|done|done| |done].
  intros i x h1 Hi Hf. rewrite Hix. apply wp_write_cell; [apply frame_length in Hf; lia|]. rewrite (proj1 (proj2 Hf a Ha)). lia.
Qed.

End Copy.

(** The results of the two appends: a new array, the old elements and the new ones. *)
Definition appended {A} `{Element A} (h : heap A) (s : Slice) (xs : Z -> option A) (n : Z) (r : Slice) (h' : heap A) : Prop :=
  frame nowhere h h' /\ wf h' r /\ fArray r = length h /\ fCount r = fCount s + n /\
  (forall i, 0 <= i < fCount s -> at_ h' r i = at_ h s i) /\
  (forall i, 0 <= i < n -> at_ h' r (fCount s + i) = xs i).

(** What append stores for an element: for an array, the array of the clones of its elements. *)
Definition taken_in {A} `{Element A} (x : A) : A :=
  match as_IList x with Some l => of_array (match CloneMethod with Some f => f <$> l | None => l end) | None => x end.

Section Append.
Context {A : Type} `{E_A : Element A}.
Implicit Types (h : heap A) (s : Slice).

Lemma wp_append_slice zero h s t : heap_ok h -> wf h s -> wf h t -> wp (append_slice zero s t) h (appended h s (at_ h t) (fCount t)).
Proof.
  intros Hh Hs Ht. unfold append_slice. apply wp_bind. eapply wp_of_val; [by apply len_val|]. apply wp_bind. eapply wp_of_val; [by apply len_val|].
  apply wp_bind. eapply wp_of_val; [done|]. set (c := if _ <=? _ then _ else _).
  pose proof Hs as (Hs1 & Hs2 & Hs3 & Hs4). pose proof Ht as (Ht1 & Ht2 & Ht3 & Ht4).
  assert (Hc : fCount s + fCount t <= c) by (unfold c; destruct (Z.leb_spec (fCount s + fCount t) (zlen (array h (fArray s)) - fStart s)); lia).
  apply wp_bind, wp_new_array; [lia|]. set (h1 := h ++ _). assert (F1 : frame nowhere h h1) by apply frame_app.
  assert (L1 : zlen (array h1 (length h)) = c) by (unfold h1; rewrite array_app, decide_True, zlen_make by (done || lia); done).
  assert (E1 : (length h < length h1)%nat) by (unfold h1; rewrite length_app; cbn; lia).
  apply wp_bind. apply (wp_fill h1 s (length h) (λ i, i) 0); [by eapply frame_wf|done|done|lia|lia|lia|lia|]. intros h2 F2 C2.
  apply wp_bind. apply (wp_fill h2 t (length h) (λ i, i + fCount s) (fCount s)); [by do 2 (eapply frame_wf; [done|])|done|by apply frame_length in F2; lia|lia|lia| |lia|].
  { rewrite (proj1 (proj2 F2 _ E1)). lia. }
  intros h3 F3 C3. unfold new_Slice. apply wp_bind, wp_get. pose proof (frame_length _ _ _ F2) as E2. pose proof (frame_length _ _ _ F3) as E3.
  assert (L3 : zlen (array h3 (length h)) = c) by (rewrite (proj1 (proj2 F3 (length h) ltac:(lia))), (proj1 (proj2 F2 _ E1)); done).
  rewrite L3. rewrite (proj2 (Z.ltb_ge c (0 + (fCount s + fCount t)))) by lia. cbn [orb Z.ltb Z.compare]. apply wp_ret.
  split; [eapply frame_step; [eapply frame_step; [exact F1|exact F2|]|exact F3|]; cbn; intros b j Hb [-> _]; lia|].
  split; [unfold wf; cbn; lia|]. split; [done|]. split; [done|]. unfold at_; cbn [fArray fStart fCount]. split; intros i Hi; rewrite Z.add_0_l.
  - rewrite (frame_cell _ _ _ _ _ F3) by lia. rewrite <- (Z.add_0_l i) at 1. rewrite C2 by done. unfold at_. apply (frame_cell _ _ _ _ _ F1); [done|tauto].
  - rewrite C3 by done. unfold at_. rewrite (frame_cell _ _ _ _ _ F2) by lia. apply (frame_cell _ _ _ _ _ F1); [done|tauto].
Qed.

Lemma wp_append_one zero h s x : heap_ok h -> wf h s -> wp (append_one zero s x) h (appended h s (λ _, Some (held (taken_in x))) 1).
Proof.
  intros Hh Hs. unfold append_one. fold (taken_in x). apply wp_bind. eapply wp_of_val; [by apply len_val|]. pose proof Hs as (Hs1 & Hs2 & Hs3 & Hs4).
  apply wp_bind, wp_new_array; [lia|]. set (h1 := h ++ _). assert (F1 : frame nowhere h h1) by apply frame_app.
  assert (L1 : zlen (array h1 (length h)) = fCount s + 1) by (unfold h1; rewrite array_app, decide_True, zlen_make by (done || lia); done).
  assert (E1 : (length h < length h1)%nat) by (unfold h1; rewrite length_app; cbn; lia).
  apply wp_bind. apply (wp_fill h1 s (length h) (λ i, i) 0); [by eapply frame_wf|done|done|lia|lia|lia|lia|]. intros h2 F2 C2.
  pose proof (frame_length _ _ _ F2) as E2. assert (L2 : zlen (array h2 (length h)) = fCount s + 1) by (rewrite (proj1 (proj2 F2 _ E1)); done).
  apply wp_bind. eapply wp_mono; [apply wp_write_cell; lia|]. intros [] h3 [F3 C3]. pose proof (frame_length _ _ _ F3) as E3.
  assert (L3 : zlen (array h3 (length h)) = fCount s + 1) by (rewrite (proj1 (proj2 F3 (length h) ltac:(lia))); done).
  unfold new_Slice. apply wp_bind, wp_get. rewrite L3. rewrite (proj2 (Z.ltb_ge (fCount s + 1) (0 + (fCount s + 1)))) by lia. cbn [orb Z.ltb Z.compare]. apply wp_ret.
  split; [eapply frame_step; [eapply frame_step; [exact F1|exact F2|]|exact F3|]; cbn; intros b j Hb [-> _]; lia|].
  split; [unfold wf; cbn; lia|]. split; [done|]. split; [done|]. unfold at_; cbn [fArray fStart fCount]. split; intros i Hi; rewrite Z.add_0_l.
  - rewrite (frame_cell _ _ _ _ _ F3) by lia. rewrite <- (Z.add_0_l i) at 1. rewrite C2 by done. unfold at_. apply (frame_cell _ _ _ _ _ F1); [done|tauto].
  - replace (fCount s + i) with (fCount s) by lia. done.
Qed.

(** The overlap test of Go, position by position. *)
Definition overlap_somewhere (x y : Slice) : Prop :=
  fArray x = fArray y /\ fStart x <> fStart y /\ exists i j, 0 <= i < fCount x /\ 0 <= j < fCount y /\ fStart x + i = fStart y + j.

End Append.


(** Elements of a value class with one word, as the word or nil, and pairs of words as arrays of two. *)
Definition box_Element : Element (option Z) := {|
  IsVT := true; Nil := λ x, bool_decide (x = None); CreateInstance := Some 0; part := Empty_set; as_IList := λ _, None; of_array := λ _, None; CloneMethod := None
|}.
Definition row_Element : Element (list (option Z)) := {|
  IsVT := false; Nil := λ _, false; CreateInstance := []; part := option Z; as_IList := Some; of_array := id; CloneMethod := Some (λ x, Some (default 0 x))
|}.

(** Reading a nil of a value class writes the array. *)
Example nil_is_filled : get_Item (H := box_Element) (SliceOf 1 0 2) 1 [[]; [Some 7; None]] = Val (Some 0, [[]; [Some 7; Some 0]]).
Proof. reflexivity. Qed.
Example row_is_cloned : append_one (H := row_Element) [] (SliceOf 1 0 1) [Some 2; None] [[]; [[Some 1]]] = Val (SliceOf 2 0 2, [[]; [[Some 1]]; [[Some 1]; [Some 2; Some 0]]]).
Proof. reflexivity. Qed.

