(* ===== verification/BigArith.v ===== *)
(** * math/big: word vectors

    The vector operations of src/Source/Gold/math/big/arith.go, through which arith_decl_pure.go routes every caller in
    the configuration that Gold.elements builds (math_big_pure_go), on slices of 64-bit words that may share
    arrays.  Loops run while the index is below the length of each vector, as in the source. *)

From S2P Require Import Prelude Bits State Slices.

Local Open Scope go_scope.

(** ** Words *)

Definition _W : Z := 64.
Definition _M : Z := 2 ^ _W - 1.
Definition _S : Z := _W / 8.

Abbreviation words := (heap Z).
Abbreviation B := (M words).

Definition mulWW_g (x y : Z) : Z * Z := Bits.Mul _W x y.
Definition mulAddWWW_g (x y c : Z) : Z * Z :=
  let '(hi, lo) := Bits.Mul _W x y in
  let '(lo, cc) := Bits.Add _W lo c 0 in
  (u64 (hi + cc), lo).
Definition nlz (x : Z) : Z := Bits.LeadingZeros _W x.
Definition divWW_g (u1 u0 v : Z) : outcome (Z * Z) := Bits.Div _W u1 u0 v.

(** ** Vectors *)

(** The number of turns of a loop over two or three vectors. *)
Definition turns2 (z x : Slice) : B Z := nz ← len z; nx ← len x; mret (Z.min nz nx).
Definition turns3 (z x y : Slice) : B Z := nz ← len z; nx ← len x; ny ← len y; mret (Z.min nz (Z.min nx ny)).

Definition addVV_g (z x y : Slice) : B Z :=
  n ← turns3 z x y;
  loop_up 0 n (λ i c,
    xi ← get_Item x i; yi ← get_Item y i;
    let '(zi, cc) := Bits.Add _W xi yi c in
    set_Item z i zi;; mret cc) 0.

Definition subVV_g (z x y : Slice) : B Z :=
  n ← turns3 z x y;
  loop_up 0 n (λ i c,
    xi ← get_Item x i; yi ← get_Item y i;
    let '(zi, cc) := Bits.Sub _W xi yi c in
    set_Item z i zi;; mret cc) 0.

(** The turn that adding and subtracting a word share. *)
Definition step_VW (op : Z -> Z -> Z -> Z * Z) (z x : Slice) (i c : Z) : B Z :=
  xi ← get_Item x i;
  let '(zi, cc) := op xi c 0 in
  set_Item z i zi;; mret cc.

Definition addVW_g (z x : Slice) (y : Z) : B Z := n ← turns2 z x; loop_up 0 n (step_VW (Bits.Add _W) z x) y.
Definition subVW_g (z x : Slice) (y : Z) : B Z := n ← turns2 z x; loop_up 0 n (step_VW (Bits.Sub _W) z x) y.

(** The loops that stop to copy when no carry is left. *)
Fixpoint large_loop (n : nat) (op : Z -> Z -> Z -> Z * Z) (z x : Slice) (i c : Z) : B Z :=
  match n with
  | O => mret c
  | S n =>
      if c =? 0 then
        zi ← slice_ z (Some i) None; xi ← slice_ x (Some i) None;
        copy zi xi;; mret c
      else c ← step_VW op z x i c; large_loop n op z x (i + 1) c
  end.

Definition addVWlarge (z x : Slice) (y : Z) : B Z := n ← turns2 z x; large_loop (Z.to_nat n) (Bits.Add _W) z x 0 y.
Definition subVWlarge (z x : Slice) (y : Z) : B Z := n ← turns2 z x; large_loop (Z.to_nat n) (Bits.Sub _W) z x 0 y.

(** A shift by [s] between 1 and 63; [sh] is the complement. *)
Definition shlVU_g (z x : Slice) (s : Z) : B Z :=
  if s =? 0 then copy z x;; mret 0
  else
    nz ← len z;
    if nz =? 0 then mret 0
    else
      let s := s &. (_W - 1) in
      let sh := u64 (_W - s) &. (_W - 1) in
      x1 ← get_Item x (nz - 1);
      let c := x1 >>. sh in
      loop_down (nz - 1) 1 (λ i _,
        xi ← get_Item x i; xj ← get_Item x (i - 1);
        set_Item z i ((xi <<.[64] s) |. (xj >>. sh))) tt;;
      x0 ← get_Item x 0;
      set_Item z 0 (x0 <<.[64] s);;
      mret c.

Definition shrVU_g (z x : Slice) (s : Z) : B Z :=
  if s =? 0 then copy z x;; mret 0
  else
    nz ← len z;
    if nz =? 0 then mret 0
    else
      let s := s &. (_W - 1) in
      let sh := u64 (_W - s) &. (_W - 1) in
      x0 ← get_Item x 0;
      let c := x0 <<.[64] sh in
      loop_up 0 (nz - 1) (λ i _,
        xi ← get_Item x i; xj ← get_Item x (i + 1);
        set_Item z i ((xi >>. s) |. (xj <<.[64] sh))) tt;;
      x1 ← get_Item x (nz - 1);
      set_Item z (nz - 1) (x1 >>. s);;
      mret c.

Definition mulAddVWW_g (z x : Slice) (y r : Z) : B Z :=
  n ← turns2 z x;
  loop_up 0 n (λ i c,
    xi ← get_Item x i;
    let '(c, zi) := mulAddWWW_g xi y c in
    set_Item z i zi;; mret c) r.

Definition addMulVVW_g (z x : Slice) (y : Z) : B Z :=
  n ← turns2 z x;
  loop_up 0 n (λ i c,
    xi ← get_Item x i; zi ← get_Item z i;
    let '(z1, z0) := mulAddWWW_g xi y zi in
    let '(lo, cc) := Bits.Add _W z0 c 0 in
    set_Item z i lo;; mret (u64 (cc + z1))) 0.

Definition divWVW_g (z : Slice) (xn : Z) (x : Slice) (y : Z) : B Z :=
  nz ← len z;
  loop_down (nz - 1) 0 (λ i r,
    xi ← get_Item x i;
    '(q, r) ← lift (divWW_g r xi y);
    set_Item z i q;; mret r) xn.

(** ** The names that the rest of the package uses *)

Definition mulWW := mulWW_g.
Definition divWW := divWW_g.
Definition addVV := addVV_g.
Definition subVV := subVV_g.
Definition addVW (z x : Slice) (y : Z) : B Z := nz ← len z; (if 32 <? nz then addVWlarge else addVW_g) z x y.
Definition subVW (z x : Slice) (y : Z) : B Z := nz ← len z; (if 32 <? nz then subVWlarge else subVW_g) z x y.
Definition shlVU := shlVU_g.
Definition shrVU := shrVU_g.
Definition mulAddVWW := mulAddVWW_g.
Definition addMulVVW := addMulVVW_g.
Definition divWVW := divWVW_g.

(** Multiplying in place by 2^64 - 1, and dividing back. *)
Example mulAddVWW_example :
  (c ← mulAddVWW (SliceOf 1 0 2) (SliceOf 1 0 2) (2 ^ 64 - 1) 5; set_Item (SliceOf 1 0 3) 2 c;; divWVW (SliceOf 1 0 3) 0 (SliceOf 1 0 3) (2 ^ 64 - 1)) [[]; [12345; 67890; 0]]
  = Val (5, [[]; [12345; 67890; 0]]).
Proof. vm_compute. reflexivity. Qed.

(** ** The number in a vector *)

(** [B^n] *)
Definition pw (n : Z) : Z := 2 ^ (64 * n).

Fixpoint value (f : Z -> Z) (n : nat) : Z :=
  match n with O => 0 | S n => value f n + f (Z.of_nat n) * pw (Z.of_nat n) end.

Definition word (h : words) (s : Slice) (i : Z) : Z := default 0 (at_ h s i).
(** The number in the first [n] words of a slice. *)
Definition num (h : words) (s : Slice) (n : Z) : Z := value (word h s) (Z.to_nat n).

Definition words_ok (h : words) : Prop := forall a i x, cell h a i = Some x -> is_uint 64 x.
Definition good (h : words) : Prop := heap_ok h /\ words_ok h.

Lemma pw_0 : pw 0 = 1.
Proof. done. Qed.

Lemma pw_add a b : 0 <= a -> 0 <= b -> pw (a + b) = pw a * pw b.
Proof. intros Ha Hb. unfold pw. rewrite Z.mul_add_distr_l. apply Z.pow_add_r; lia. Qed.

Lemma pw_succ a : 0 <= a -> pw (a + 1) = 2 ^ 64 * pw a.
Proof. intros Ha. rewrite pw_add by lia. rewrite (Z.mul_comm (2 ^ 64)). done. Qed.

Lemma pw_pos a : 0 <= a -> 0 < pw a.
Proof. intros Ha. unfold pw. apply Z.pow_pos_nonneg; lia. Qed.

Lemma pw_le a b : 0 <= a <= b -> pw a <= pw b.
Proof. intros Hab. unfold pw. apply Z.pow_le_mono_r; lia. Qed.

Lemma num_0 h s : num h s 0 = 0.
Proof. done. Qed.

Lemma num_succ h s n : 0 <= n -> num h s (n + 1) = num h s n + word h s n * pw n.
Proof.
  intros Hn. unfold num. replace (Z.to_nat (n + 1)) with (S (Z.to_nat n)) by lia. cbn [value]. by rewrite Z2Nat.id.
Qed.

Lemma num_ext h s h' s' n : (forall i, 0 <= i < n -> word h s i = word h' s' i) -> num h s n = num h' s' n.
Proof.
  intros E. unfold num. remember (Z.to_nat n) as k eqn:Ek. assert (Hk : forall i, 0 <= i < Z.of_nat k -> word h s i = word h' s' i) by (intros i Hi; apply E; lia).
  clear Ek E. induction k as [|k IH]; [done|]. cbn [value]. rewrite IH, Hk by (intros; apply Hk || idtac; lia). done.
Qed.

Lemma word_sub h s i j k : word h (sub s i j) k = word h s (i + k).
Proof. unfold word, at_, sub. cbn. by rewrite Z.add_assoc. Qed.

Lemma num_split h s a b j : 0 <= a -> 0 <= b -> num h s (a + b) = num h s a + pw a * num h (sub s a j) b.
Proof.
  intros Ha Hb. revert b Hb. apply natlike_ind; [rewrite num_0, !Z.add_0_r; lia|]. intros b Hb IH.
  replace (a + Z.succ b) with (a + b + 1) by lia. rewrite <- Z.add_1_r, !num_succ, IH, word_sub, pw_add by lia. ring.
Qed.

Lemma num_cut h s a m j : 0 <= a <= m -> num h s m = num h s a + pw a * num h (sub s a j) (m - a).
Proof. intros Ha. replace m with (a + (m - a)) at 1 by lia. apply num_split; lia. Qed.

Lemma num_sub_0 h s j n : num h (sub s 0 j) n = num h s n.
Proof. apply num_ext. intros i _. by rewrite word_sub. Qed.

Lemma num_1 h s : num h s 1 = word h s 0.
Proof. change 1 with (0 + 1) at 1. rewrite num_succ, num_0, pw_0 by lia. lia. Qed.

Lemma word_uint h s i : words_ok h -> is_uint 64 (word h s i).
Proof. intros Hw. unfold word, at_. destruct (cell h (fArray s) (fStart s + i)) as [x|] eqn:E; [by eapply Hw|]. cbn. unfold is_uint. lia. Qed.

Lemma num_bound h s n : words_ok h -> 0 <= n -> 0 <= num h s n < pw n.
Proof.
  intros Hw. revert n. apply natlike_ind; [rewrite num_0, pw_0; lia|]. intros n Hn IH. rewrite <- Z.add_1_r, num_succ, pw_succ by lia.
  pose proof (word_uint h s n Hw) as Hx. pose proof (pw_pos n Hn). unfold is_uint in Hx. nia.
Qed.

Lemma num_zero h s n : 0 <= n -> (forall i, 0 <= i < n -> word h s i = 0) -> num h s n = 0.
Proof.
  revert n. apply (natlike_ind (λ n, (forall i, 0 <= i < n -> word h s i = 0) -> num h s n = 0)); [done|]. intros n Hn IH E.
  rewrite <- Z.add_1_r, num_succ by lia. rewrite IH, E; [lia|lia|]. intros i Hi. apply E. lia.
Qed.

(** ** Rules for words *)

Lemma good_ok h : good h -> heap_ok h.
Proof. by intros [? _]. Qed.

Lemma wp_len h s (Q : Z -> words -> Prop) : good h -> wf h s -> Q (fCount s) h -> wp (len s) h Q.
Proof. intros Hh Hs HQ. eapply wp_of_val; [apply len_val; [by apply good_ok|done]|done]. Qed.

Lemma wp_word h s i (Q : Z -> words -> Prop) : wf h s -> 0 <= i < fCount s -> Q (word h s i) h -> wp (get_Item s i) h Q.
Proof. intros Hs Hi HQ. apply wp_get_Item; [done|done|]. intros x Hx. unfold word, at_ in HQ. by rewrite Hx in HQ. Qed.

Lemma wp_word_val h s i : wf h s -> 0 <= i < fCount s -> get_Item s i h = Val (word h s i, h).
Proof.
  intros Hs Hi. destruct (wp_val _ _ _ (wp_word h s i (λ a h', a = word h s i /\ h' = h) Hs Hi ltac:(done))) as (a & h' & E & -> & ->). done.
Qed.

Lemma wp_set_word h s i x (Q : unit -> words -> Prop) : good h -> wf h s -> 0 <= i < capacity h s -> is_uint 64 x ->
  (forall h', good h' -> frame (win s i (i + 1)) h h' -> word h' s i = x -> Q tt h') -> wp (set_Item s i x) h Q.
Proof.
  intros [Hh Hw] Hs Hi Hx HQ. apply wp_set_Item; [done|done|]. intros h' Eh Hf Hc. apply HQ; [|done|unfold word, at_; by rewrite Hc].
  split; [by eapply frame_ok|]. intros a j y Hy. destruct Hs as (Ha & ? & ? & ?). unfold capacity in Hi. rewrite Eh, cell_upd in Hy by (done || lia).
  case_decide; [by injection Hy as <-|by eapply Hw].
Qed.

Lemma wp_slice_word h s i j (Q : Slice -> words -> Prop) : good h -> wf h s -> 0 <= default 0 i <= default (fCount s) j -> default (fCount s) j <= capacity h s ->
  Q (sub s (default 0 i) (default (fCount s) j)) h -> wp (slice_ s i j) h Q.
Proof. intros Hh. apply wp_slice, good_ok, Hh. Qed.

Lemma word_frame P h h' s i : frame P h h' -> wf h s -> ~ P (fArray s) (fStart s + i) -> word h' s i = word h s i.
Proof. intros Hf Hs HP. unfold word. by erewrite at_frame. Qed.

Lemma num_frame P h h' s n : frame P h h' -> wf h s -> (forall i, 0 <= i < n -> ~ P (fArray s) (fStart s + i)) -> num h' s n = num h s n.
Proof. intros Hf Hs HP. apply num_ext. intros i Hi. by apply (word_frame P), HP. Qed.

Lemma num_frame_sub P h h' s a j n : frame P h h' -> wf h s -> (forall i, a <= i < a + n -> ~ P (fArray s) (fStart s + i)) -> num h' (sub s a j) n = num h (sub s a j) n.
Proof. intros Hf Hs HP. apply num_ext. intros i Hi. rewrite !word_sub. apply (word_frame P); [done|done|]. apply HP. lia. Qed.

Lemma wf_cap (h : words) s : wf h s -> fCount s <= capacity h s.
Proof. unfold wf, capacity. lia. Qed.

Lemma frame_win z i n (h h' : words) : frame (win z i (i + 1)) h h' -> 0 <= i < n -> frame (win z 0 n) h h'.
Proof. intros Hf Hi. eapply frame_weaken; [exact Hf|]. intros a j _ [-> ?]. split; [done|lia]. Qed.

(** Two windows that meet. *)
Lemma frame_join z i j k (h h1 h2 : words) : frame (win z i j) h h1 -> frame (win z j k) h1 h2 -> i <= j <= k -> frame (win z i k) h h2.
Proof.
  intros Hf Hf2 Hij. eapply frame_step; [eapply frame_weaken; [exact Hf|]|exact Hf2|]; unfold win; intros a p _ [-> ?]; (split; [done|lia]).
Qed.

Lemma ahead_word z x k i h h1 : frame (win z 0 k) h h1 -> wf h x -> ahead z x -> k <= i < fCount x -> 0 <= i -> word h1 x i = word h x i.
Proof.
  intros Hf Hx Ha Hi _. apply (word_frame _ _ _ _ _ Hf Hx). intros [E ?]. destruct (Ha (eq_sym E)); lia.
Qed.

(** A pass over the first [n] words of [z] with a carry. *)
Lemma wp_pass h z n (step : Z -> Z -> B Z) c0 (J : Z -> Z -> Z -> Prop) :
  good h -> wf h z -> 0 <= n -> J 0 0 c0 ->
  (forall i c h1, 0 <= i < n -> good h1 -> wf h1 z -> frame (win z 0 i) h h1 -> J i (num h1 z i) c ->
     wp (step i c) h1 (λ c' h2, good h2 /\ frame (win z i (i + 1)) h1 h2 /\ J (i + 1) (num h1 z i + word h2 z i * pw i) c')) ->
  wp (loop_up 0 n step c0) h (λ c h', good h' /\ frame (win z 0 n) h h' /\ J n (num h' z n) c).
Proof.
  intros Hh Hz Hn HJ Hstep. apply (wp_loop_up (λ i c h1, good h1 /\ frame (win z 0 i) h h1 /\ J i (num h1 z i) c)); [lia| | |done].
  - split; [done|]. split; [apply frame_refl|]. by rewrite num_0.
  - intros i c h1 Hi (Hg & Hf & HJ1). assert (Hz1 : wf h1 z) by (by eapply frame_wf). eapply wp_mono; [by apply Hstep|].
    intros c' h2 (Hg2 & Hf2 & HJ2). split; [done|]. split.
    + apply (frame_join z 0 i (i + 1) h h1 h2); [done|done|lia].
    + rewrite num_succ by lia. replace (num h2 z i) with (num h1 z i); [done|]. symmetry. apply (num_frame _ _ _ _ _ Hf2 Hz1).
      intros j Hj [_ ?]. lia.
Qed.

(** ** Words, exactly *)

Lemma add_word x y c : is_uint 64 x -> is_uint 64 y -> 0 <= c <= 1 ->
  exists s co, Bits.Add _W x y c = (s, co) /\ is_uint 64 s /\ 0 <= co <= 1 /\ s + 2 ^ 64 * co = x + y + c.
Proof.
  intros Hx Hy Hc. pose proof (Add_family_sum 64 (Bits.Add _W) x y c) as H. destruct (Bits.Add _W x y c) as [s co]. exists s, co.
  split; [done|]. apply H; [|done..]. right; right; right; left.
Qed.

Lemma sub_word x y c : is_uint 64 x -> is_uint 64 y -> 0 <= c <= 1 ->
  exists d bo, Bits.Sub _W x y c = (d, bo) /\ is_uint 64 d /\ 0 <= bo <= 1 /\ d - 2 ^ 64 * bo = x - y - c.
Proof.
  intros Hx Hy Hc. pose proof (Sub_family_diff 64 (Bits.Sub _W) x y c) as H. destruct (Bits.Sub _W x y c) as [s co]. exists s, co.
  split; [done|]. apply H; [|done..]. right; right; right; left.
Qed.

Lemma mul_word x y : is_uint 64 x -> is_uint 64 y ->
  exists hi lo, Bits.Mul _W x y = (hi, lo) /\ is_uint 64 hi /\ is_uint 64 lo /\ hi * 2 ^ 64 + lo = x * y.
Proof.
  intros Hx Hy. exists (x * y / 2 ^ 64), ((x * y) mod 2 ^ 64). rewrite (Mul_family_product 64 (Bits.Mul _W)); [|by (right; right; right; left)|done|done].
  split; [done|]. destruct (mul_parts_uint 64 x y ltac:(lia) Hx Hy). split; [done|]. split; [done|]. pose proof (Z.div_mod (x * y) (2 ^ 64)). lia.
Qed.

Lemma mul_add_word x y c : is_uint 64 x -> is_uint 64 y -> is_uint 64 c ->
  exists hi lo, mulAddWWW_g x y c = (hi, lo) /\ is_uint 64 hi /\ is_uint 64 lo /\ hi * 2 ^ 64 + lo = x * y + c.
Proof.
  intros Hx Hy Hc. unfold mulAddWWW_g. destruct (mul_word x y Hx Hy) as (hi & lo & -> & Hhi & Hlo & E).
  destruct (add_word lo c 0 Hlo Hc ltac:(lia)) as (s & co & -> & Hs & Hco & E2). exists (u64 (hi + co)), s.
  assert (Hb : hi + co < 2 ^ 64) by (unfold is_uint in *; nia).
  split; [done|]. split; [apply wrap_is_uint; lia|]. split; [done|]. rewrite wrap_small by (unfold is_uint in *; lia). lia.
Qed.

Lemma div_word u1 u0 v : is_uint 64 u1 -> is_uint 64 u0 -> is_uint 64 v -> u1 < v ->
  divWW_g u1 u0 v = Val ((u1 * 2 ^ 64 + u0) / v, (u1 * 2 ^ 64 + u0) mod v).
Proof.
  intros H1 H0 Hv Hlt. unfold divWW_g. rewrite (Div_family_quotient 64 (Bits.Div _W)); [|by (right; right; right; left)|done..].
  rewrite (proj2 (Z.eqb_neq v 0)) by (unfold is_uint in *; lia). by rewrite (proj2 (Z.leb_gt v u1)).
Qed.

(** Adding ([sg = 1]) or subtracting ([sg = -1]) one word. *)
Definition word_op (sg : Z) (op : Z -> Z -> Z -> Z * Z) : Prop :=
  forall x y c, is_uint 64 x -> is_uint 64 y -> 0 <= c <= 1 ->
    exists s co, op x y c = (s, co) /\ is_uint 64 s /\ 0 <= co <= 1 /\ s + sg * 2 ^ 64 * co = x + sg * (y + c).

Lemma word_op_add : word_op 1 (Bits.Add _W).
Proof. intros x y c Hx Hy Hc. destruct (add_word x y c Hx Hy Hc) as (s & co & ? & ? & ? & ?). exists s, co. repeat (split; [done|]). lia. Qed.

Lemma word_op_sub : word_op (-1) (Bits.Sub _W).
Proof. intros x y c Hx Hy Hc. destruct (sub_word x y c Hx Hy Hc) as (s & co & ? & ? & ? & ?). exists s, co. repeat (split; [done|]). lia. Qed.

(** ** Vectors, exactly *)

Section Vectors.
Implicit Types (h : words) (z x : Slice).

Lemma wp_turns2 h z x (Q : Z -> words -> Prop) : good h -> wf h z -> wf h x -> fCount z <= fCount x -> Q (fCount z) h -> wp (turns2 z x) h Q.
Proof.
  intros Hh Hz Hx Hle HQ. unfold turns2. apply wp_bind, wp_len; [done..|]. apply wp_bind, wp_len; [done..|]. apply wp_ret. by rewrite Z.min_l.
Qed.

Lemma wp_turns3 h z x y (Q : Z -> words -> Prop) : good h -> wf h z -> wf h x -> wf h y -> fCount z <= fCount x -> fCount z <= fCount y ->
  Q (fCount z) h -> wp (turns3 z x y) h Q.
Proof.
  intros Hh Hz Hx Hy Hle Hle2 HQ. unfold turns3. apply wp_bind, wp_len; [done..|]. apply wp_bind, wp_len; [done..|]. apply wp_bind, wp_len; [done..|]. apply wp_ret.
  by rewrite !Z.min_l by lia.
Qed.

(** What an operation that writes [z] and returns a carry leaves. *)
Definition left_in h z (J : Z -> Z -> Prop) (c : Z) (h' : words) : Prop :=
  good h' /\ frame (win z 0 (fCount z)) h h' /\ J (num h' z (fCount z)) c.

Lemma wp_VV sg op h z x y : word_op sg op -> good h -> wf h z -> wf h x -> wf h y -> fCount z <= fCount x -> fCount z <= fCount y -> ahead z x -> ahead z y ->
  wp (n ← turns3 z x y;
      loop_up 0 n (λ i c, xi ← get_Item x i; yi ← get_Item y i; let '(zi, cc) := op xi yi c in set_Item z i zi;; mret cc) 0) h
    (left_in h z (λ v c, 0 <= c <= 1 /\ v + sg * c * pw (fCount z) = num h x (fCount z) + sg * num h y (fCount z))).
Proof.
  intros Hop Hh Hz Hx Hy Hlx Hly Hax Hay. set (n := fCount z) in *. apply wp_bind, wp_turns3; [done..|]. fold n.
  assert (Hn : 0 <= n) by (by destruct Hz as (_ & _ & ? & _)).
  apply (wp_pass h z n _ 0 (λ i v c, 0 <= c <= 1 /\ v + sg * c * pw i = num h x i + sg * num h y i)); [done|done|done|rewrite !num_0; lia|].
  intros i c h1 Hi Hg Hz1 Hf [Hc E]. apply wp_bind, wp_word; [by eapply frame_wf|lia|]. apply wp_bind, wp_word; [by eapply frame_wf|lia|].
  rewrite (ahead_word z x i i h h1), (ahead_word z y i i h h1) by (done || lia).
  destruct (Hop (word h x i) (word h y i) c) as (s & co & -> & Hs & Hco & Es); [apply word_uint, Hh|apply word_uint, Hh|done|].
  apply wp_bind. apply wp_set_word; [done|done|pose proof (wf_cap _ _ Hz1); lia|done|]. intros h2 Hg2 Hf2 Ew. apply wp_ret. split; [done|]. split; [done|].
  split; [done|]. rewrite Ew, !num_succ, pw_succ by lia. pose proof (pw_pos i ltac:(lia)). nia.
Qed.

Lemma addVV_spec h z x y : good h -> wf h z -> wf h x -> wf h y -> fCount z <= fCount x -> fCount z <= fCount y -> ahead z x -> ahead z y ->
  wp (addVV z x y) h (left_in h z (λ v c, 0 <= c <= 1 /\ v + c * pw (fCount z) = num h x (fCount z) + num h y (fCount z))).
Proof.
  intros. eapply wp_mono; [by apply (wp_VV 1 _ _ _ _ _ word_op_add)|]. intros c h' (? & ? & ? & E). split; [done|]. split; [done|]. split; [done|]. lia.
Qed.

Lemma subVV_spec h z x y : good h -> wf h z -> wf h x -> wf h y -> fCount z <= fCount x -> fCount z <= fCount y -> ahead z x -> ahead z y ->
  wp (subVV z x y) h (left_in h z (λ v c, 0 <= c <= 1 /\ v - c * pw (fCount z) = num h x (fCount z) - num h y (fCount z))).
Proof.
  intros. eapply wp_mono; [by apply (wp_VV (-1) _ _ _ _ _ word_op_sub)|]. intros c h' (? & ? & ? & E). split; [done|]. split; [done|]. split; [done|]. lia.
Qed.

(** *** A vector and a word *)

Definition VW_inv sg h x (y : Z) (i v c : Z) : Prop := is_uint 64 c /\ (0 < i -> c <= 1) /\ v + sg * c * pw i = num h x i + sg * y.

Lemma wp_step_VW sg op h h1 z x y i c : word_op sg op -> good h -> good h1 -> wf h1 z -> wf h x -> 0 <= i < fCount z -> fCount z <= fCount x -> ahead z x ->
  frame (win z 0 i) h h1 -> VW_inv sg h x y i (num h1 z i) c ->
  wp (step_VW op z x i c) h1 (λ c' h2, good h2 /\ frame (win z i (i + 1)) h1 h2 /\ VW_inv sg h x y (i + 1) (num h1 z i + word h2 z i * pw i) c').
Proof.
  intros Hop Hh Hg Hz1 Hx Hi Hle Ha Hf (Hc & _ & E). unfold step_VW. apply wp_bind, wp_word; [by eapply frame_wf|lia|].
  rewrite (ahead_word z x i i h h1) by (done || lia). destruct (Hop (word h x i) c 0) as (s & co & -> & Hs & Hco & Es); [apply word_uint, Hh|done|lia|].
  apply wp_bind. apply wp_set_word; [done|done|pose proof (wf_cap _ _ Hz1); lia|done|]. intros h2 Hg2 Hf2 Ew. apply wp_ret. split; [done|]. split; [done|].
  split; [unfold is_uint; lia|]. split; [lia|]. rewrite Ew, num_succ, pw_succ by lia. pose proof (pw_pos i ltac:(lia)). nia.
Qed.

Lemma wp_VW sg op h z x y : word_op sg op -> good h -> wf h z -> wf h x -> fCount z <= fCount x -> ahead z x -> is_uint 64 y ->
  wp (n ← turns2 z x; loop_up 0 n (step_VW op z x) y) h (left_in h z (VW_inv sg h x y (fCount z))).
Proof.
  intros Hop Hh Hz Hx Hle Ha Hy. apply wp_bind, wp_turns2; [done..|]. assert (Hn : 0 <= fCount z) by (by destruct Hz as (_ & _ & ? & _)).
  apply (wp_pass h z (fCount z) _ y (VW_inv sg h x y)); [done|done|done|split; [done|split; [lia|rewrite num_0, pw_0; lia]]|].
  intros i c h1 Hi Hg Hz1 Hf HI. by apply wp_step_VW.
Qed.

End Vectors.

Section Vectors2.
Implicit Types (h : words) (z x : Slice).

Lemma wf_sub_from h s i : wf h s -> 0 <= i <= fCount s -> wf h (sub s i (fCount s)).
Proof. intros Hs Hi. apply sub_wf; [done|lia|by apply wf_cap]. Qed.

Lemma copy_good h (dst src : Slice) : good h -> wf h dst -> wf h src -> wp (copy dst src) h (λ _ h', good h').
Proof.
  intros Hh Hd Hs. unfold copy. apply wp_bind, wp_len; [done..|]. apply wp_bind, wp_len; [done..|]. apply wp_bind.
  apply (wp_loop_up (λ _ _ h1, good h1 /\ wf h1 dst /\ wf h1 src)); [destruct Hd as (_ & _ & ? & _), Hs as (_ & _ & ? & _); lia|done| |by intros [] h1 (? & _)].
  intros i [] h1 Hi (Hg & Hd1 & Hs1). apply wp_bind, wp_word; [done|destruct Hs1, Hs; lia|].
  apply wp_set_word; [done|done|pose proof (wf_cap _ _ Hd1); lia|by apply word_uint, Hg|]. intros h2 Hg2 Hf2 _. split; [done|]. split; by eapply frame_wf.
Qed.

Lemma wp_copy_words h (dst src : Slice) n (Q : Z -> words -> Prop) : good h -> wf h dst -> wf h src -> ahead dst src -> n = Z.min (fCount src) (fCount dst) ->
  (forall h', good h' -> frame (win dst 0 n) h h' -> (forall i, 0 <= i < n -> word h' dst i = word h src i) -> Q n h') ->
  wp (copy dst src) h Q.
Proof.
  intros Hh Hd Hs Ha Hn HQ. eapply wp_mono; [apply wp_and; [by apply copy_good|]|].
  - apply (wp_copy h dst src n (λ k h', k = n /\ frame (win dst 0 n) h h' /\ forall i, 0 <= i < n -> at_ h' dst i = at_ h src i)); [by apply good_ok|done..|].
    by intros h' ? ?.
  - intros k h' (Hg & -> & Hf & Hc). apply HQ; [done|done|]. intros i Hi. unfold word. by rewrite Hc.
Qed.

(** The copy at the end of a vector, when there is no carry. *)
Lemma wp_finish sg h h1 z x y i c : good h -> good h1 -> wf h z -> wf h x -> 0 <= i <= fCount z -> fCount z <= fCount x -> ahead z x ->
  frame (win z 0 i) h h1 -> VW_inv sg h x y i (num h1 z i) c -> c = 0 ->
  wp (zi ← slice_ z (Some i) None; xi ← slice_ x (Some i) None; copy zi xi;; mret c) h1 (left_in h z (VW_inv sg h x y (fCount z))).
Proof.
  intros Hh Hg Hz Hx Hi Hle Ha Hf (Hc & _ & E) ->. assert (Hz1 : wf h1 z) by (by eapply frame_wf). assert (Hx1 : wf h1 x) by (by eapply frame_wf).
  apply wp_bind, wp_slice_word; [done|done|cbn; lia|cbn; by apply wf_cap|]. apply wp_bind, wp_slice_word; [done|done|cbn; lia|cbn; by apply wf_cap|].
  cbn [from_option id]. set (n := fCount z) in *. apply wp_bind. assert (Hzs : wf h1 (sub z i n)) by (by apply wf_sub_from).
  assert (Hxs : wf h1 (sub x i (fCount x))) by (apply wf_sub_from; [done|lia]).
  apply (wp_copy_words h1 (sub z i n) (sub x i (fCount x)) (n - i)); [done|done|done| |cbn; lia|].
  { intros E1. cbn in *. destruct (Ha E1); [left|right]; lia. }
  intros h2 Hg2 Hf2 Hc2. apply wp_ret. assert (Hw2 : forall j, 0 <= j < n - i -> word h2 z (i + j) = word h x (i + j)).
  { intros j Hj. rewrite <- (word_sub h2 z i n), Hc2, word_sub by done. apply (ahead_word z x i); [done|done|done|lia|lia]. }
  assert (Hf3 : frame (win z i n) h1 h2).
  { eapply frame_weaken; [exact Hf2|]. intros a j _ [-> ?]. cbn in *. split; [done|lia]. }
  split; [done|]. split.
  - apply (frame_join z 0 i n h h1 h2); [done|done|lia].
  - split; [done|]. split; [lia|]. fold n. replace n with (i + (n - i)) by lia. rewrite (num_split h2 z i (n - i) 0), (num_split h x i (n - i) 0) by lia.
    rewrite (num_ext h2 (sub z i 0) h (sub x i 0) (n - i)) by (intros j Hj; rewrite !word_sub; by apply Hw2).
    rewrite (num_frame _ _ _ _ i Hf3 Hz1) by (intros j Hj [_ ?]; lia). lia.
Qed.

Lemma wp_large sg op h z x y : word_op sg op -> good h -> wf h z -> wf h x -> fCount z <= fCount x -> ahead z x -> is_uint 64 y ->
  wp (n ← turns2 z x; large_loop (Z.to_nat n) op z x 0 y) h (left_in h z (VW_inv sg h x y (fCount z))).
Proof.
  intros Hop Hh Hz Hx Hle Ha Hy. apply wp_bind, wp_turns2; [done..|]. assert (Hn : 0 <= fCount z) by (by destruct Hz as (_ & _ & ? & _)).
  assert (H : forall k i c h1, fCount z = i + Z.of_nat k -> 0 <= i -> good h1 -> frame (win z 0 i) h h1 -> VW_inv sg h x y i (num h1 z i) c ->
    wp (large_loop k op z x i c) h1 (left_in h z (VW_inv sg h x y (fCount z)))).
  - induction k as [|k IH]; intros i c h1 Hi H0 Hg Hf HI; cbn [large_loop].
    + replace i with (fCount z) in * by lia. apply wp_ret. by split.
    + destruct (Z.eqb_spec c 0) as [Hc|Hc]; [apply wp_finish; (done || lia)|].
      assert (Hz1 : wf h1 z) by (by eapply frame_wf). eapply wp_seq; [apply (wp_step_VW sg op h h1 z x y i c); [done..|lia|done|done|done|done]|].
      intros c' h2 (Hg2 & Hf2 & HI2). apply IH; [lia|lia|done| |].
      * apply (frame_join z 0 i (i + 1) h h1 h2); [done|done|lia].
      * rewrite num_succ by lia. replace (num h2 z i) with (num h1 z i); [done|]. symmetry. apply (num_frame _ _ _ _ _ Hf2 Hz1). intros j Hj [_ ?]. lia.
  - apply H; [lia|lia|done|apply frame_refl|]. split; [done|]. split; [lia|]. rewrite !num_0, pw_0. lia.
Qed.

(** The carry is 0 or 1 unless the vector is empty. *)
Lemma addVW_spec h z x y : good h -> wf h z -> wf h x -> fCount z <= fCount x -> ahead z x -> is_uint 64 y ->
  wp (addVW z x y) h (left_in h z (λ v c, is_uint 64 c /\ (0 < fCount z -> c <= 1) /\ v + c * pw (fCount z) = num h x (fCount z) + y)).
Proof.
  intros Hh Hz Hx Hle Ha Hy. unfold addVW. apply wp_bind, wp_len; [done..|].
  assert (wp ((if 32 <? fCount z then addVWlarge else addVW_g) z x y) h (left_in h z (VW_inv 1 h x y (fCount z)))) as H
    by (destruct (32 <? fCount z); [apply (wp_large 1)|apply (wp_VW 1)]; done || apply word_op_add).
  eapply wp_mono; [exact H|]. intros c h' (? & ? & ? & ? & E). split; [done|]. split; [done|]. split; [done|]. split; [done|]. lia.
Qed.

Lemma subVW_spec h z x y : good h -> wf h z -> wf h x -> fCount z <= fCount x -> ahead z x -> is_uint 64 y ->
  wp (subVW z x y) h (left_in h z (λ v c, is_uint 64 c /\ (0 < fCount z -> c <= 1) /\ v - c * pw (fCount z) = num h x (fCount z) - y)).
Proof.
  intros Hh Hz Hx Hle Ha Hy. unfold subVW. apply wp_bind, wp_len; [done..|].
  assert (wp ((if 32 <? fCount z then subVWlarge else subVW_g) z x y) h (left_in h z (VW_inv (-1) h x y (fCount z)))) as H
    by (destruct (32 <? fCount z); [apply (wp_large (-1))|apply (wp_VW (-1))]; done || apply word_op_sub).
  eapply wp_mono; [exact H|]. intros c h' (? & ? & ? & ? & E). split; [done|]. split; [done|]. split; [done|]. split; [done|]. lia.
Qed.

End Vectors2.

(** ** Multiplying and dividing by a word *)

Section MulDiv.
Implicit Types (h : words) (z x : Slice).

(** Writing [z] from right to left does not run into what is still to be read of [x]. *)
Definition behind z x : Prop := fArray z = fArray x -> fStart x <= fStart z \/ fStart z + fCount z <= fStart x.

Lemma behind_word z x k n i h h1 : frame (win z k n) h h1 -> n <= fCount z -> wf h x -> behind z x -> 0 <= i < k -> word h1 x i = word h x i.
Proof.
  intros Hf Hn Hx Ha Hi. apply (word_frame _ _ _ _ _ Hf Hx). intros [E ?]. destruct (Ha (eq_sym E)); lia.
Qed.

Lemma frame_up z i n h h1 h2 : frame (win z (i + 1) n) h h1 -> frame (win z i (i + 1)) h1 h2 -> 0 <= i < n -> frame (win z i n) h h2.
Proof.
  intros Hf Hf2 Hi. eapply frame_step; [eapply frame_weaken; [exact Hf|]|exact Hf2|]; unfold win; intros a p _ [-> ?]; (split; [done|lia]).
Qed.

Lemma num_cons h s j k : 0 <= k -> num h s (k + 1) = word h s 0 + 2 ^ 64 * num h (sub s 1 j) k.
Proof. intros Hk. rewrite Z.add_comm, (num_split h s 1 k j), num_1 by lia. done. Qed.

Lemma wf_len h z : wf h z -> 0 <= fCount z.
Proof. by intros (_ & _ & ? & _). Qed.

Lemma mulAddVWW_spec h z x y r : good h -> wf h z -> wf h x -> fCount z <= fCount x -> ahead z x -> is_uint 64 y -> is_uint 64 r ->
  wp (mulAddVWW z x y r) h (left_in h z (λ v c, is_uint 64 c /\ v + c * pw (fCount z) = num h x (fCount z) * y + r)).
Proof.
  intros Hh Hz Hx Hle Ha Hy Hr. pose proof (wf_len _ _ Hz) as Hn. apply wp_bind, wp_turns2; [done..|].
  apply (wp_pass h z (fCount z) _ r (λ i v c, is_uint 64 c /\ v + c * pw i = num h x i * y + r)); [done|done|done|split; [done|rewrite num_0, pw_0; lia]|].
  intros i c h1 Hi Hg Hz1 Hf [Hc E]. apply wp_bind, wp_word; [by eapply frame_wf|lia|]. rewrite (ahead_word z x i i h h1) by (done || lia).
  destruct (mul_add_word (word h x i) y c) as (hi & lo & -> & Hhi & Hlo & Em); [apply word_uint, Hh|done|done|].
  apply wp_bind, wp_set_word; [done|done|pose proof (wf_cap _ _ Hz1); lia|done|]. intros h2 Hg2 Hf2 Ew. apply wp_ret. split; [done|]. split; [done|]. split; [done|].
  rewrite Ew, num_succ, pw_succ by lia. transitivity (num h1 z i + pw i * (hi * 2 ^ 64 + lo)); [ring|]. rewrite Em. transitivity (num h1 z i + c * pw i + word h x i * pw i * y); [ring|]. rewrite E. ring.
Qed.

Lemma addMulVVW_spec h z x y : good h -> wf h z -> wf h x -> fCount z <= fCount x -> ahead z x -> is_uint 64 y ->
  wp (addMulVVW z x y) h (left_in h z (λ v c, is_uint 64 c /\ v + c * pw (fCount z) = num h z (fCount z) + num h x (fCount z) * y)).
Proof.
  intros Hh Hz Hx Hle Ha Hy. pose proof (wf_len _ _ Hz) as Hn. apply wp_bind, wp_turns2; [done..|].
  apply (wp_pass h z (fCount z) _ 0 (λ i v c, is_uint 64 c /\ v + c * pw i = num h z i + num h x i * y)); [done|done|done|split; [done|rewrite !num_0; lia]|].
  intros i c h1 Hi Hg Hz1 Hf [Hc E]. apply wp_bind, wp_word; [by eapply frame_wf|lia|]. rewrite (ahead_word z x i i h h1) by (done || lia).
  apply wp_bind, wp_word; [done|lia|]. rewrite (ahead_word z z i i h h1) by (done || lia || (left; lia)).
  destruct (mul_add_word (word h x i) y (word h z i)) as (z1 & z0 & -> & Hz1' & Hz0 & Em); [apply word_uint, Hh|done|apply word_uint, Hh|].
  destruct (add_word z0 c 0 Hz0 Hc ltac:(lia)) as (lo & cc & -> & Hlo & Hcc & Ea).
  assert (Hb : cc + z1 < 2 ^ 64).
  { pose proof (word_uint h x i (proj2 Hh)). pose proof (word_uint h z i (proj2 Hh)). unfold is_uint in *. nia. }
  apply wp_bind, wp_set_word; [done|done|pose proof (wf_cap _ _ Hz1); lia|done|]. intros h2 Hg2 Hf2 Ew. apply wp_ret. split; [done|]. split; [done|].
  split; [apply wrap_is_uint; lia|]. rewrite wrap_small by (unfold is_uint in *; lia).
  rewrite Ew, !num_succ, pw_succ by lia. transitivity (num h1 z i + pw i * (lo + 2 ^ 64 * cc + z1 * 2 ^ 64)); [ring|]. rewrite Ea.
  transitivity (num h1 z i + c * pw i + pw i * (z1 * 2 ^ 64 + z0)); [ring|]. rewrite E, Em. ring.
Qed.

Lemma divWVW_spec h z xn x y : good h -> wf h z -> wf h x -> fCount z <= fCount x -> behind z x -> is_uint 64 xn -> is_uint 64 y -> xn < y ->
  wp (divWVW z xn x y) h (left_in h z (λ v r, 0 <= r < y /\ v * y + r = num h x (fCount z) + xn * pw (fCount z))).
Proof.
  intros Hh Hz Hx Hle Ha Hxn Hy Hlt. pose proof (wf_len _ _ Hz) as Hn. unfold divWVW, divWVW_g. apply wp_bind, wp_len; [done..|]. set (n := fCount z) in *.
  apply (wp_loop_down (λ i r h1, good h1 /\ frame (win z (i + 1) n) h h1 /\ 0 <= r < y /\
    num h1 (sub z (i + 1) n) (n - 1 - i) * y + r = num h (sub x (i + 1) n) (n - 1 - i) + xn * pw (n - 1 - i))).
  - lia.
  - replace (n - 1 + 1) with n by lia. split; [done|]. split; [apply frame_refl|]. split; [unfold is_uint in Hxn; lia|].
    replace (n - 1 - (n - 1)) with 0 by lia. rewrite !num_0, pw_0. lia.
  - intros i r h1 Hi (Hg & Hf & Hr & E). assert (Hz1 : wf h1 z) by (by eapply frame_wf). apply wp_bind, wp_word; [by eapply frame_wf|lia|].
    rewrite (behind_word z x (i + 1) n i h h1) by (done || lia). apply wp_bind. assert (Hxi : is_uint 64 (word h x i)) by apply word_uint, Hh.
    eapply wp_of_val; [unfold lift; rewrite div_word by (done || (unfold is_uint in *; lia)); reflexivity|].
    set (u := r * 2 ^ 64 + word h x i). assert (Hu : 0 <= u < y * 2 ^ 64) by (unfold u, is_uint in *; nia).
    assert (Hq : is_uint 64 (u / y)) by (split; [apply Z.div_pos; lia|apply Z.div_lt_upper_bound; lia]).
    apply wp_bind, wp_set_word; [done|done|pose proof (wf_cap _ _ Hz1); lia|done|]. intros h2 Hg2 Hf2 Ew. apply wp_ret. split; [done|].
    replace (i - 1 + 1) with i by lia. replace (n - 1 - (i - 1)) with (n - 1 - i + 1) by lia. split; [by eapply frame_up; [..|lia]|].
    split; [apply Z.mod_pos_bound; lia|]. rewrite (num_cons h2 (sub z i n) n), (num_cons h (sub x i n) n), pw_succ by lia. rewrite !word_sub, !Z.add_0_r, Ew.
    rewrite (num_ext h2 (sub (sub z i n) 1 n) h1 (sub z (i + 1) n) (n - 1 - i)).
    2:{ intros j Hj. rewrite !word_sub. rewrite Z.add_assoc. apply (word_frame _ _ _ _ _ Hf2 Hz1). intros [_ ?]. lia. }
    rewrite (num_ext h (sub (sub x i n) 1 n) h (sub x (i + 1) n) (n - 1 - i)) by (intros j Hj; rewrite !word_sub; by rewrite Z.add_assoc).
    pose proof (Z.div_mod u y ltac:(lia)) as Ed. set (q := u / y) in *. set (rr := u mod y) in *. unfold u in Ed.
    transitivity (2 ^ 64 * (num h1 (sub z (i + 1) n) (n - 1 - i) * y + r) + (y * q + rr) - r * 2 ^ 64); [ring|]. rewrite <- Ed, E. ring.
  - intros r h1 (Hg & Hf & Hr & E). replace (0 - 1 + 1) with 0 in * by lia. replace (n - 1 - (0 - 1)) with n in E by lia. rewrite !num_sub_0 in E. by split.
Qed.

End MulDiv.

(** ** Shifts by less than a word *)

Section Shifts.
Implicit Types (h : words) (z x : Slice).

Lemma mask_small s : 0 <= s < 64 -> s &. (_W - 1) = s.
Proof. intros Hs. change (_W - 1) with (Z.ones 6). rewrite Z.land_ones by lia. by apply Z.mod_small. Qed.

Lemma mask_rest s : 0 < s < 64 -> u64 (_W - s) &. (_W - 1) = 64 - s.
Proof. intros Hs. rewrite wrap_small by (unfold is_uint, _W; lia). rewrite mask_small by (unfold _W; lia). done. Qed.

(** Two neighbours shifted together. *)
Lemma shift_pair s a b : 0 < s < 64 -> is_uint 64 b ->
  (a <<.[64] s) |. (b >>. (64 - s)) = (a * 2 ^ s) mod 2 ^ 64 + b / 2 ^ (64 - s) /\ is_uint 64 ((a <<.[64] s) |. (b >>. (64 - s))).
Proof.
  intros Hs Hb. assert (E64 : 2 ^ 64 = 2 ^ (64 - s) * 2 ^ s) by (rewrite <- Z.pow_add_r by lia; f_equal; lia).
  assert (Hb' : is_uint s (b >>. (64 - s))).
  { rewrite Z.shiftr_div_pow2 by lia. unfold is_uint in *. split; [apply Z.div_pos; lia|]. apply Z.div_lt_upper_bound; [lia|]. rewrite <- E64. lia. }
  unfold shl, wrap. rewrite Z.shiftl_mul_pow2 by lia. rewrite E64, Z.mul_mod_distr_r by lia. rewrite lor_disjoint by (done || lia).
  rewrite Z.shiftr_div_pow2 in * by lia. split; [done|]. unfold is_uint in *. rewrite E64.
  pose proof (Z.mod_pos_bound a (2 ^ (64 - s)) ltac:(lia)). assert (0 < 2 ^ s) by lia. nia.
Qed.

Lemma shl_word s a : 0 < s < 64 -> a <<.[64] s = (a * 2 ^ s) mod 2 ^ 64 + 0 / 2 ^ (64 - s).
Proof. intros Hs. unfold shl, wrap. rewrite Z.shiftl_mul_pow2 by lia. rewrite Z.div_0_l by lia. lia. Qed.

(** A word shifted left splits at the word boundary. *)
Lemma shl_split s a : 0 < s < 64 -> a * 2 ^ s = (a * 2 ^ s) mod 2 ^ 64 + a / 2 ^ (64 - s) * 2 ^ 64.
Proof.
  intros Hs. assert (E64 : 2 ^ 64 = 2 ^ (64 - s) * 2 ^ s) by (rewrite <- Z.pow_add_r by lia; f_equal; lia).
  rewrite (Z.div_mod (a * 2 ^ s) (2 ^ 64)) at 1 by lia. rewrite E64 at 2. rewrite Z.div_mul_cancel_r by lia. lia.
Qed.

Lemma shr_split s a : 0 < s < 64 -> a * 2 ^ (64 - s) = (a * 2 ^ (64 - s)) mod 2 ^ 64 + a / 2 ^ s * 2 ^ 64.
Proof. intros Hs. rewrite (shl_split (64 - s)) at 1 by lia. by replace (64 - (64 - s)) with s by lia. Qed.

(** The sum of the shifted words: what leaves at the top is the top of the last one. *)
Lemma shl_sum h h' z x n s : 0 < s < 64 -> words_ok h -> 0 <= n ->
  (forall i, 0 <= i < n -> word h' z i = (word h x i * 2 ^ s) mod 2 ^ 64 + (if i =? 0 then 0 else word h x (i - 1)) / 2 ^ (64 - s)) ->
  num h' z n + (if n =? 0 then 0 else word h x (n - 1)) / 2 ^ (64 - s) * pw n = num h x n * 2 ^ s.
Proof.
  intros Hs Hw. revert n. apply (natlike_ind (λ n, (forall i, 0 <= i < n -> _) -> _)).
  - intros _. rewrite !num_0. cbn [Z.eqb]. rewrite Z.div_0_l by lia. lia.
  - intros n Hn IH E. rewrite <- Z.add_1_r, !num_succ, pw_succ by lia. rewrite (proj2 (Z.eqb_neq (n + 1) 0)) by lia. rewrite Z.add_simpl_r.
    rewrite E by lia. rewrite (Z.mul_add_distr_r (num h x n)), <- (IH ltac:(intros i Hi; apply E; lia)).
    set (a := word h x n). pose proof (shl_split s a Hs) as Ea.
    transitivity (num h' z n + (if n =? 0 then 0 else word h x (n - 1)) / 2 ^ (64 - s) * pw n + ((a * 2 ^ s) mod 2 ^ 64 + a / 2 ^ (64 - s) * 2 ^ 64) * pw n); [ring|].
    rewrite <- Ea. ring.
Qed.

Lemma shlVU_spec h z x s : good h -> wf h z -> wf h x -> fCount z <= fCount x -> 0 < s < 64 -> behind z x ->
  wp (shlVU z x s) h (left_in h z (λ v c, 0 <= c < 2 ^ s /\ v + c * pw (fCount z) = num h x (fCount z) * 2 ^ s)).
Proof.
  intros Hh Hz Hx Hle Hs Ha. pose proof (wf_len _ _ Hz) as Hn. unfold shlVU, shlVU_g. rewrite (proj2 (Z.eqb_neq s 0)) by lia.
  apply wp_bind, wp_len; [done..|]. set (n := fCount z) in *. destruct (Z.eqb_spec n 0) as [E0|Hn0].
  { apply wp_ret. split; [done|]. split; [apply frame_refl|]. fold n. rewrite E0, !num_0. assert (0 < 2 ^ s) by (apply Z.pow_pos_nonneg; lia). lia. }
  cbv zeta. rewrite (mask_small s), (mask_rest s) by lia. apply wp_bind, wp_word; [done|lia|]. apply wp_bind.
  pose proof (λ i, word_uint h x i (proj2 Hh)) as Hxw.
  apply (wp_loop_down (λ i _ h1, good h1 /\ frame (win z (i + 1) n) h h1 /\
    forall j, i < j < n -> word h1 z j = (word h x j * 2 ^ s) mod 2 ^ 64 + (if j =? 0 then 0 else word h x (j - 1)) / 2 ^ (64 - s))).
  - lia.
  - replace (n - 1 + 1) with n by lia. split; [done|]. split; [apply frame_refl|]. intros j Hj. lia.
  - intros i _ h1 Hi (Hg & Hf & E). assert (Hz1 : wf h1 z) by (by eapply frame_wf). assert (Hx1 : wf h1 x) by (by eapply frame_wf).
    apply wp_bind, wp_word; [done|lia|]. apply wp_bind, wp_word; [done|lia|]. rewrite !(behind_word z x (i + 1) n _ h h1) by (done || lia).
    destruct (shift_pair s (word h x i) (word h x (i - 1)) Hs (Hxw _)) as [Ev Hv].
    apply wp_set_word; [done|done|pose proof (wf_cap _ _ Hz1); lia|done|]. intros h2 Hg2 Hf2 Ew. split; [done|]. replace (i - 1 + 1) with i by lia.
    split; [eapply frame_up; [exact Hf|exact Hf2|lia]|]. intros j Hj. destruct (decide (j = i)) as [->|Hji].
    + rewrite Ew, Ev. by rewrite (proj2 (Z.eqb_neq i 0)) by lia.
    + rewrite <- E by lia. apply (word_frame _ _ _ _ _ Hf2 Hz1). intros [_ ?]. lia.
  - intros _ h1 (Hg & Hf & E). replace (1 - 1 + 1) with 1 in * by lia. assert (Hz1 : wf h1 z) by (by eapply frame_wf). assert (Hx1 : wf h1 x) by (by eapply frame_wf).
    apply wp_bind, wp_word; [done|lia|]. rewrite (behind_word z x 1 n 0 h h1) by (done || lia).
    apply wp_bind, wp_set_word; [done|done|pose proof (wf_cap _ _ Hz1); lia|apply shl_is_uint; lia|]. intros h2 Hg2 Hf2 Ew. apply wp_ret.
    split; [done|]. split; [eapply frame_up; [exact Hf|exact Hf2|lia]|].
    assert (E2 : forall i, 0 <= i < n -> word h2 z i = (word h x i * 2 ^ s) mod 2 ^ 64 + (if i =? 0 then 0 else word h x (i - 1)) / 2 ^ (64 - s)).
    { intros i Hi. destruct (Z.eqb_spec i 0) as [->|Hi0]; [by rewrite Ew, shl_word|]. rewrite (word_frame _ _ _ _ _ Hf2 Hz1) by (intros [_ ?]; lia).
      rewrite E by lia. by rewrite (proj2 (Z.eqb_neq i 0)). }
    pose proof (shl_sum h h2 z x n s Hs (proj2 Hh) Hn E2) as Esum. rewrite (proj2 (Z.eqb_neq n 0)) in Esum by done. fold n.
    rewrite Z.shiftr_div_pow2 by lia. split; [|exact Esum]. specialize (Hxw (n - 1)). unfold is_uint in Hxw.
    assert (E64 : 2 ^ 64 = 2 ^ (64 - s) * 2 ^ s) by (rewrite <- Z.pow_add_r by lia; f_equal; lia). split; [apply Z.div_pos; lia|apply Z.div_lt_upper_bound; lia].
Qed.

(** Going right, the words are those of the vector shifted left by the rest of a word, without the first. *)
Lemma shr_sum h h' z x n s : 0 < s < 64 -> words_ok h -> 0 <= n ->
  (forall i, 0 <= i < n -> word h' z i = word h x i / 2 ^ s + (word h x (i + 1) * 2 ^ (64 - s)) mod 2 ^ 64) ->
  num h' z n * 2 ^ 64 + (word h x 0 * 2 ^ (64 - s)) mod 2 ^ 64 = num h x n * 2 ^ (64 - s) + (word h x n * 2 ^ (64 - s)) mod 2 ^ 64 * pw n.
Proof.
  intros Hs Hw. revert n. apply (natlike_ind (λ n, (forall i, 0 <= i < n -> _) -> _)).
  - intros _. rewrite !num_0, pw_0. lia.
  - intros n Hn IH E. rewrite <- Z.add_1_r, !num_succ, pw_succ by lia. specialize (IH ltac:(intros i Hi; apply E; lia)). rewrite E by lia.
    set (a := word h x n) in *. set (b := word h x (n + 1)). pose proof (shr_split s a Hs) as Ea.
    transitivity (num h' z n * 2 ^ 64 + (word h x 0 * 2 ^ (64 - s)) mod 2 ^ 64 + pw n * (a / 2 ^ s * 2 ^ 64) + pw n * (b * 2 ^ (64 - s) mod 2 ^ 64) * 2 ^ 64); [ring|].
    rewrite IH. transitivity (num h x n * 2 ^ (64 - s) + ((a * 2 ^ (64 - s)) mod 2 ^ 64 + a / 2 ^ s * 2 ^ 64) * pw n + pw n * (b * 2 ^ (64 - s) mod 2 ^ 64) * 2 ^ 64); [ring|].
    rewrite <- Ea. ring.
Qed.

Lemma shr_last h h' z x k s : 0 < s < 64 -> words_ok h -> 0 <= k ->
  (forall i, 0 <= i < k -> word h' z i = word h x i / 2 ^ s + (word h x (i + 1) * 2 ^ (64 - s)) mod 2 ^ 64) ->
  word h' z k = word h x k / 2 ^ s -> num h' z (k + 1) = num h x (k + 1) / 2 ^ s.
Proof.
  intros Hs Hw Hk E2 Ew. pose proof (shr_sum h h' z x k s Hs Hw Hk E2) as Es. rewrite !num_succ by lia. rewrite Ew.
  assert (E64 : 2 ^ 64 = 2 ^ s * 2 ^ (64 - s)) by (rewrite <- Z.pow_add_r by lia; f_equal; lia). set (a := word h x k) in *. pose proof (shr_split s a Hs) as Ea.
  set (b := (word h x 0 * 2 ^ (64 - s)) mod 2 ^ 64) in *. assert (Hb : 0 <= b < 2 ^ 64) by (apply Z.mod_pos_bound; lia).
  assert (Ef : (num h' z k + a / 2 ^ s * pw k) * 2 ^ 64 + b = (num h x k + a * pw k) * 2 ^ (64 - s)).
  { transitivity (num h' z k * 2 ^ 64 + b + (a / 2 ^ s * 2 ^ 64) * pw k); [ring|]. rewrite Es.
    transitivity (num h x k * 2 ^ (64 - s) + ((a * 2 ^ (64 - s)) mod 2 ^ 64 + a / 2 ^ s * 2 ^ 64) * pw k); [ring|]. rewrite <- Ea. ring. }
  set (v := num h' z k + a / 2 ^ s * pw k) in *. set (u := num h x k + a * pw k) in *.
  transitivity (u * 2 ^ (64 - s) / 2 ^ 64); [apply (Z.div_unique _ _ _ b); [by left|lia]|]. rewrite E64. by rewrite Z.div_mul_cancel_r by lia.
Qed.

Lemma shrVU_spec h z x s : good h -> wf h z -> wf h x -> fCount z <= fCount x -> 0 < s < 64 -> ahead z x ->
  wp (shrVU z x s) h (left_in h z (λ v c, v = num h x (fCount z) / 2 ^ s)).
Proof.
  intros Hh Hz Hx Hle Hs Ha. pose proof (wf_len _ _ Hz) as Hn. unfold shrVU, shrVU_g. rewrite (proj2 (Z.eqb_neq s 0)) by lia.
  apply wp_bind, wp_len; [done..|]. set (n := fCount z) in *. destruct (Z.eqb_spec n 0) as [E0|Hn0].
  { apply wp_ret. split; [done|]. split; [apply frame_refl|]. fold n. rewrite E0, !num_0. by rewrite Z.div_0_l by lia. }
  cbv zeta. rewrite (mask_small s), (mask_rest s) by lia. apply wp_bind, wp_word; [done|lia|]. apply wp_bind. set (k := n - 1).
  pose proof (λ i, word_uint h x i (proj2 Hh)) as Hxw.
  apply (wp_loop_up (λ i _ h1, good h1 /\ frame (win z 0 i) h h1 /\
    forall j, 0 <= j < i -> word h1 z j = word h x j / 2 ^ s + (word h x (j + 1) * 2 ^ (64 - s)) mod 2 ^ 64)).
  - lia.
  - split; [done|]. split; [apply frame_refl|]. intros j Hj. lia.
  - intros i _ h1 Hi (Hg & Hf & E). assert (Hz1 : wf h1 z) by (by eapply frame_wf). assert (Hx1 : wf h1 x) by (by eapply frame_wf).
    apply wp_bind, wp_word; [done|lia|]. apply wp_bind, wp_word; [done|lia|]. rewrite !(ahead_word z x i _ h h1) by (done || lia).
    destruct (shift_pair (64 - s) (word h x (i + 1)) (word h x i) ltac:(lia) (Hxw _)) as [Ev Hv]. replace (64 - (64 - s)) with s in * by lia.
    rewrite Z.lor_comm. apply wp_set_word; [done|done|pose proof (wf_cap _ _ Hz1); lia|done|]. intros h2 Hg2 Hf2 Ew. split; [done|].
    split; [apply (frame_join z 0 i (i + 1) h h1 h2); [done|done|lia]|].
    intros j Hj. destruct (decide (j = i)) as [->|Hji]; [rewrite Ew, Ev; lia|].
    rewrite <- E by lia. apply (word_frame _ _ _ _ _ Hf2 Hz1). intros [_ ?]. lia.
  - intros _ h1 (Hg & Hf & E). assert (Hz1 : wf h1 z) by (by eapply frame_wf). assert (Hx1 : wf h1 x) by (by eapply frame_wf).
    apply wp_bind, wp_word; [done|lia|]. rewrite (ahead_word z x k k h h1) by (done || lia).
    apply wp_bind, wp_set_word; [done|done|pose proof (wf_cap _ _ Hz1); lia|apply shiftr_is_uint; (lia || done)|]. intros h2 Hg2 Hf2 Ew. apply wp_ret.
    split; [done|]. fold n. split; [replace n with (k + 1) by lia; apply (frame_join z 0 k (k + 1) h h1 h2); [done|done|lia]|].
    fold n. assert (E2 : forall i, 0 <= i < k -> word h2 z i = word h x i / 2 ^ s + (word h x (i + 1) * 2 ^ (64 - s)) mod 2 ^ 64).
    { intros i Hi. rewrite (word_frame _ _ _ _ _ Hf2 Hz1) by (intros [_ ?]; lia). by apply E. }
    replace n with (k + 1) by lia. apply (shr_last h h2 z x k s); [done|apply Hh|lia|done|]. by rewrite Ew, Z.shiftr_div_pow2 by lia.
Qed.

(** A shift by a whole number of words is a copy. *)
Lemma shl_zero z x : shlVU z x 0 = (copy z x;; mret 0).
Proof. done. Qed.

Lemma shr_zero z x : shrVU z x 0 = (copy z x;; mret 0).
Proof. done. Qed.

End Shifts.
