(* ===== verification/BigNat.v ===== *)
(** * math/big: natural numbers

    Unsigned multi-precision integers (src/Source/Gold/math/big/nat_elements.go): slices of words, least significant first,
    without leading zeroes when normalized.  An operation [z.op(x, y)] may reuse the array of [z], and [z] may be one
    of the operands.  This file has the representation, addition, subtraction, comparison, multiplication by a word and
    shifts; BigMul and BigDiv have the rest. *)

From S2P Require Import Prelude State Slices BigArith.

Local Open Scope go_scope.

Abbreviation nat_ := Slice.

Definition clear (z : nat_) : B unit := n ← len z; loop_up 0 n (λ i _, set_Item z i 0) tt.

(** [for i > 0 && z[i-1] == 0 { i-- }], from [i = n]. *)
Fixpoint norm_loop (n : nat) (z : nat_) : B Z :=
  match n with
  | O => mret 0
  | S m => x ← get_Item z (Z.of_nat m); if x =? 0 then norm_loop m z else mret (Z.of_nat n)
  end.
Definition norm (z : nat_) : B nat_ := n ← len z; i ← norm_loop (Z.to_nat n) z; slice_ z (Some 0) (Some i).

Definition make_ (z : nat_) (n : Z) : B nat_ :=
  c ← cap z;
  if n <=? c then slice_ z None (Some n)
  else if n =? 1 then new_sized 0 1 1
  else new_sized 0 n (n + 4).

Definition setWord (z : nat_) (x : Z) : B nat_ :=
  if x =? 0 then slice_ z None (Some 0)
  else z ← make_ z 1; set_Item z 0 x;; mret z.

Definition setUint64 (z : nat_) (x : Z) : B nat_ :=
  let w := wrap _W x in
  if w =? x then setWord z w
  else z ← make_ z 2; set_Item z 1 (wrap _W (x >>. 32));; set_Item z 0 (wrap _W x);; mret z.

Definition set (z x : nat_) : B nat_ := n ← len x; z ← make_ z n; copy z x;; mret z.

(** The fuel is for the one recursive call, which exchanges the operands. *)
Fixpoint add_rec (fuel : nat) (z x y : nat_) : B nat_ :=
  match fuel with
  | O => no_fuel
  | S fuel =>
      m ← len x; n ← len y;
      if m <? n then add_rec fuel z y x
      else if m =? 0 then slice_ z None (Some 0)
      else if n =? 0 then set z x
      else
        z ← make_ z (m + 1);
        z0 ← slice_ z (Some 0) (Some n);
        c ← addVV z0 x y;
        c ← (if n <? m then z1 ← slice_ z (Some n) (Some m); x1 ← slice_ x (Some n) None; addVW z1 x1 c else mret c);
        set_Item z m c;;
        norm z
  end.
Definition add := add_rec 2.

Definition sub_ (z x y : nat_) : B nat_ :=
  m ← len x; n ← len y;
  if m <? n then raise Explicit
  else if m =? 0 then slice_ z None (Some 0)
  else if n =? 0 then set z x
  else
    z ← make_ z m;
    z0 ← slice_ z (Some 0) (Some n);
    c ← subVV z0 x y;
    c ← (if n <? m then z1 ← slice_ z (Some n) None; x1 ← slice_ x (Some n) None; subVW z1 x1 c else mret c);
    if negb (c =? 0) then raise Explicit else norm z.

(** [for i > 0 && x[i] == y[i] { i-- }], from [i = n]. *)
Fixpoint cmp_loop (n : nat) (x y : nat_) : B Z :=
  match n with
  | O => mret 0
  | S m =>
      a ← get_Item x (Z.of_nat n); b ← get_Item y (Z.of_nat n);
      if a =? b then cmp_loop m x y else mret (Z.of_nat n)
  end.

Definition cmp (x y : nat_) : B Z :=
  m ← len x; n ← len y;
  if negb (m =? n) || (m =? 0) then mret (if m <? n then -1 else if n <? m then 1 else 0)
  else
    i ← cmp_loop (Z.to_nat (m - 1)) x y;
    a ← get_Item x i; b ← get_Item y i;
    mret (if a <? b then -1 else if b <? a then 1 else 0).

Definition mulAddWW (z x : nat_) (y r : Z) : B nat_ :=
  m ← len x;
  if (m =? 0) || (y =? 0) then setWord z r
  else
    z ← make_ z (m + 1);
    z0 ← slice_ z (Some 0) (Some m);
    c ← mulAddVWW z0 x y r;
    set_Item z m c;;
    norm z.

(** The comparison of pointers that the source had is replaced by one of the arrays. *)
Definition alias (x y : nat_) : B bool :=
  nx ← IsNil x; ny ← IsNil y; mret (negb nx && negb ny && bool_decide (fArray x = fArray y)).

(** [&x[0] == &y[0]], for vectors of one length that is not 0. *)
Definition same (x y : nat_) : B bool :=
  m ← len x; n ← len y;
  if (m =? n) && (0 <? m) then mret (bool_decide (fArray x = fArray y) && (fStart x =? fStart y)) else mret false.

(** What [shl] and [shr] return early when the shift is 0. *)
Definition unshifted (z x : nat_) : B (option nat_) :=
  sm ← same z x;
  if sm : bool then mret (Some z)
  else al ← alias z x; if negb al then z ← set z x; mret (Some z) else mret None.

Definition shl_ (z x : nat_) (s : Z) : B nat_ :=
  early ← (if s =? 0 then unshifted z x else mret None);
  match early with
  | Some r => mret r
  | None =>
      m ← len x;
      if m =? 0 then slice_ z None (Some 0)
      else
        let n := m + s / _W in
        z ← make_ z (n + 1);
        z1 ← slice_ z (Some (n - m)) (Some n);
        c ← shlVU z1 x (s mod _W);
        set_Item z n c;;
        z0 ← slice_ z (Some 0) (Some (n - m));
        clear z0;;
        norm z
  end.

Definition shr_ (z x : nat_) (s : Z) : B nat_ :=
  early ← (if s =? 0 then unshifted z x else mret None);
  match early with
  | Some r => mret r
  | None =>
      m ← len x;
      let n := m - s / _W in
      if n <=? 0 then slice_ z None (Some 0)
      else
        z ← make_ z n;
        x1 ← slice_ x (Some (m - n)) None;
        shrVU z x1 (s mod _W);;
        norm z
  end.

(** A number of two words in an array with room for more. *)
Example add_example :
  add (SliceOf 1 0 2) (SliceOf 1 0 2) (SliceOf 2 0 1) [[]; [2 ^ 64 - 1; 2 ^ 64 - 1; 0; 0; 0; 0]; [1]]
  = Val (SliceOf 1 0 3, [[]; [0; 0; 1; 0; 0; 0]; [1]]).
Proof. vm_compute. reflexivity. Qed.

(** Shifting a number by a whole word within its own array, [x.Lsh(x, 64)]: the words 7 and 8 become 0, 7 and 7
    instead of 0, 7 and 8, because copy overwrites the second word before it is read. *)
Example shl_in_place :
  shl_ (SliceOf 1 0 2) (SliceOf 1 0 2) 64 [[]; [7; 8; 0; 0; 0; 0]] = Val (SliceOf 1 0 3, [[]; [0; 7; 7; 0; 0; 0]]).
Proof. vm_compute. reflexivity. Qed.

(** ** Representation *)

(** [r] holds the number [v], without leading zeroes. *)
Definition nat_is (h : words) (r : nat_) (v : Z) : Prop :=
  wf h r /\ num h r (fCount r) = v /\ (0 < fCount r -> word h r (fCount r - 1) <> 0).

(** Slices of one array start together; that is what the package keeps true of numbers. *)
Definition coherent (z x : nat_) : Prop := fArray z = fArray x -> fStart z = fStart x.

(** A result is in the array of [z] or in a new one. *)
Definition located (h : words) (z r : nat_) : Prop :=
  (fArray r = fArray z /\ fStart r = fStart z) \/ ((length h <= fArray r)%nat /\ fStart r = 0).

(** The outcome of an operation on numbers: only the array of [z] may have changed. *)
Definition result (h : words) (z : nat_) (v : Z) (r : nat_) (h' : words) : Prop :=
  good h' /\ frame (all_of (fArray z)) h h' /\ nat_is h' r v /\ located h z r.

Ltac slices := repeat match goal with s := sub _ _ _ |- _ => subst s end; unfold win, all_of, nowhere, coherent, ahead, behind, located, wf, capacity, sub in *; cbn [fArray fStart fCount] in *; intros; lia.

Section Representation.
Implicit Types (h : words) (z x r : nat_).

Lemma nat_wf h x v : nat_is h x v -> wf h x.
Proof. by intros [? _]. Qed.

Lemma nat_value h x v : nat_is h x v -> num h x (fCount x) = v.
Proof. by intros (_ & ? & _). Qed.

Lemma nat_frame P h h' x v : frame P h h' -> nat_is h x v -> (forall i, 0 <= i < fCount x -> ~ P (fArray x) (fStart x + i)) -> nat_is h' x v.
Proof.
  intros Hf (Hx & Hv & Hn) HP. split; [by eapply frame_wf|]. split; [by rewrite (num_frame P h h')|]. intros H0. rewrite (word_frame P h h') by (done || (apply HP; lia)). by apply Hn.
Qed.

Lemma nat_bound h x v : good h -> nat_is h x v -> 0 <= v < pw (fCount x).
Proof. intros [_ Hw] (Hx & <- & _). apply num_bound; [done|by eapply wf_len]. Qed.

Lemma nat_nowhere h h' x v : frame nowhere h h' -> nat_is h x v -> nat_is h' x v.
Proof. intros Hf Hx. eapply nat_frame; [exact Hf|exact Hx|]. by intros i _ []. Qed.

(** The top word of a number that is not 0. *)
Lemma num_top h s n : words_ok h -> 0 < n -> word h s (n - 1) <> 0 -> pw (n - 1) <= num h s n.
Proof.
  intros Hw Hn Ht. replace n with (n - 1 + 1) at 2 by lia. rewrite num_succ by lia. pose proof (num_bound h s (n - 1) Hw ltac:(lia)).
  pose proof (word_uint h s (n - 1) Hw) as Hx. unfold is_uint in Hx. pose proof (pw_pos (n - 1) ltac:(lia)). nia.
Qed.

Lemma nat_zero h x v : good h -> nat_is h x v -> v = 0 <-> fCount x = 0.
Proof.
  intros [_ Hw] (Hx & <- & Ht). split; [|intros ->; by rewrite num_0]. intros E. destruct (decide (0 < fCount x)) as [H0|H0]; [|apply wf_len in Hx; lia].
  pose proof (num_top h x (fCount x) Hw H0 (Ht H0)). pose proof (pw_pos (fCount x - 1) ltac:(lia)). lia.
Qed.

(** A longer number is greater. *)
Lemma nat_longer h x y u v : good h -> nat_is h x u -> nat_is h y v -> fCount x < fCount y -> u < v.
Proof.
  intros Hh Hx Hy Hlt. pose proof (nat_bound _ _ _ Hh Hx) as [_ Hu]. destruct Hh as [_ Hw]. destruct Hy as (Hy & <- & Ht). pose proof (wf_len _ _ (nat_wf _ _ _ Hx)).
  pose proof (num_top h y (fCount y) Hw ltac:(lia) (Ht ltac:(lia))). pose proof (pw_le (fCount x) (fCount y - 1) ltac:(lia)). lia.
Qed.

Lemma located_coherent h z r x : located h z r -> wf h x -> coherent z x -> coherent r x.
Proof. slices. Qed.

Lemma located_trans P h h1 z r r' : frame P h h1 -> located h z r -> located h1 r r' -> located h z r'.
Proof. intros Hf. apply frame_length in Hf. slices. Qed.

Lemma located_refl h z n : located h z (SliceOf (fArray z) (fStart z) n).
Proof. by left. Qed.

(** A write in the located slice is a write in the array of [z], as far as old arrays go. *)
Lemma frame_located h h1 h2 z r P : frame (all_of (fArray z)) h h1 -> located h z r -> frame P h1 h2 -> (forall a i, P a i -> a = fArray r) -> frame (all_of (fArray z)) h h2.
Proof.
  intros Hf Hl Hf2 HP. eapply frame_step; [exact Hf|exact Hf2|]. intros a i Ha Hi. specialize (HP a i Hi). slices.
Qed.

Lemma frame_nowhere P h h' : frame nowhere h h' -> frame P h h'.
Proof. intros Hf. eapply frame_weaken; [exact Hf|]. by intros. Qed.

(** ** Operations on the representation *)

Lemma clear_spec h z : good h -> wf h z -> wp (clear z) h (λ _ h', good h' /\ frame (win z 0 (fCount z)) h h' /\ forall i, 0 <= i < fCount z -> word h' z i = 0).
Proof.
  intros Hh Hz. pose proof (wf_len _ _ Hz). unfold clear. apply wp_bind, wp_len; [done..|].
  apply (wp_loop_up (λ i _ h1, good h1 /\ frame (win z 0 i) h h1 /\ forall j, 0 <= j < i -> word h1 z j = 0)); [lia| | |done].
  - split; [done|]. split; [apply frame_refl|]. intros j Hj. lia.
  - intros i [] h1 Hi (Hg & Hf & E). assert (Hz1 : wf h1 z) by (by eapply frame_wf).
    apply wp_set_word; [done|done|pose proof (wf_cap _ _ Hz1); lia|unfold is_uint; lia|]. intros h2 Hg2 Hf2 Ew. split; [done|].
    split; [apply (frame_join z 0 i (i + 1) h h1 h2); [done|done|lia]|]. intros j Hj. destruct (decide (j = i)) as [->|Hji]; [done|].
    rewrite <- (E j) by lia. apply (word_frame _ _ _ _ _ Hf2 Hz1). slices.
Qed.

Lemma norm_loop_spec h z n : wf h z -> Z.of_nat n <= fCount z ->
  exists i, norm_loop n z h = Val (i, h) /\ 0 <= i <= Z.of_nat n /\ num h z i = num h z (Z.of_nat n) /\ (0 < i -> word h z (i - 1) <> 0).
Proof.
  intros Hz. induction n as [|m IH]; intros Hn; cbn [norm_loop]; [exists 0; repeat split; lia|].
  pose proof (wp_word_val h z (Z.of_nat m) Hz ltac:(lia)) as E.
  unfold mbind, M_bind. rewrite E. destruct (Z.eqb_spec (word h z (Z.of_nat m)) 0) as [E0|E0].
  - destruct IH as (i & -> & Hi & Ei & Ht); [lia|]. exists i. split; [done|]. split; [lia|]. split; [|done]. rewrite Ei. replace (Z.of_nat (S m)) with (Z.of_nat m + 1) by lia.
    rewrite num_succ by lia. rewrite E0. lia.
  - exists (Z.of_nat (S m)). split; [done|]. split; [lia|]. split; [done|]. intros _. by replace (Z.of_nat (S m) - 1) with (Z.of_nat m) by lia.
Qed.

(** norm changes nothing but the length. *)
Lemma norm_spec h z : good h -> wf h z -> exists i, 0 <= i <= fCount z /\ norm z h = Val (sub z 0 i, h) /\ nat_is h (sub z 0 i) (num h z (fCount z)).
Proof.
  intros Hh Hz. pose proof (wf_len _ _ Hz). unfold norm, mbind, M_bind. rewrite len_val by (done || by apply good_ok).
  destruct (norm_loop_spec h z (Z.to_nat (fCount z)) Hz) as (i & -> & Hi & Ei & Ht); [lia|]. rewrite Z2Nat.id in * by lia.
  exists i. split; [done|]. split; [apply (slice_val_bounds h z (Some 0) (Some i)); [by apply good_ok|done|cbn; lia|cbn; lia|cbn; pose proof (wf_cap _ _ Hz); lia]|].
  split; [apply sub_wf; [done|lia|pose proof (wf_cap _ _ Hz); lia]|]. cbn [fCount sub]. rewrite Z.sub_0_r, num_sub_0. split; [done|]. rewrite word_sub. by rewrite Z.add_0_l.
Qed.

Lemma wp_norm h0 h z0 z v : good h -> wf h z -> num h z (fCount z) = v -> frame (all_of (fArray z0)) h0 h -> located h0 z0 z ->
  wp (norm z) h (result h0 z0 v).
Proof.
  intros Hh Hz Hv Hf Hl. destruct (norm_spec h z Hh Hz) as (i & Hi & E & Hn). eapply wp_of_val; [exact E|]. split; [done|]. split; [done|]. rewrite <- Hv. split; [done|]. slices.
Qed.

Lemma words_ok_app h n : words_ok h -> words_ok (h ++ [make 0 n]).
Proof.
  intros Hw a i x Hx. destruct (decide (a = length h)) as [->|Ha].
  - rewrite cell_slot in Hx. unfold slot in Hx. case_decide; [|done]. rewrite array_app, decide_True in Hx by done. apply lookup_replicate in Hx as [-> _]. unfold is_uint. lia.
  - apply (Hw a i x). rewrite cell_slot in *. unfold slot in *. rewrite array_app in Hx. by rewrite (decide_False (P := a = length h)) in Hx.
Qed.

(** make reuses the array when it is long enough. *)
Lemma wp_make h z n (Q : nat_ -> words -> Prop) : good h -> wf h z -> 0 <= n ->
  (forall r h', good h' -> frame nowhere h h' -> wf h' r -> fCount r = n -> located h z r -> Q r h') ->
  wp (make_ z n) h Q.
Proof.
  intros Hh Hz Hn HQ. unfold make_. apply wp_bind. eapply wp_of_val; [apply cap_val|]. destruct (Z.leb_spec n (capacity h z)) as [Hc|Hc].
  - apply wp_slice_word; [done|done|cbn; lia|cbn; lia|]. cbn [from_option id]. apply HQ; [done|apply frame_refl| |cbn; lia|slices]. apply sub_wf; [done|lia|lia].
  - assert (H : forall c, n <= c -> wp (new_sized 0 n c) h Q).
    { intros c Hcn. apply wp_new_sized; [done|]. intros h' Hf -> Hw. apply HQ; [|done|done|done|slices].
      split; [eapply frame_ok; [exact Hf|by apply good_ok]|]. apply words_ok_app, Hh. }
    destruct (Z.eqb_spec n 1) as [->|Hne]; apply H; lia.
Qed.

Lemma zero_result h z : good h -> wf h z -> wp (slice_ z None (Some 0)) h (result h z 0).
Proof.
  intros Hh Hz. apply wp_slice_word; [done|done|cbn; lia|cbn; slices|]. cbn [from_option id]. split; [done|]. split; [apply frame_refl|].
  split; [|slices]. split; [slices|]. cbn [sub fCount]. split; [done|lia].
Qed.

Lemma set_spec h z x v : good h -> wf h z -> nat_is h x v -> coherent z x -> wp (set z x) h (result h z v).
Proof.
  intros Hh Hz Hx Hc. pose proof (nat_wf _ _ _ Hx) as Hxw. unfold set. apply wp_bind, wp_len; [done..|]. apply wp_bind. apply wp_make; [done|done|by eapply wf_len|].
  intros r h1 Hg Hf Hr Hn Hl. assert (Hx1 : nat_is h1 x v) by (by eapply nat_nowhere). pose proof (nat_wf _ _ _ Hx1) as Hxw1.
  assert (Hcr : coherent r x) by (by eapply located_coherent). apply wp_bind.
  apply (wp_copy_words h1 r x (fCount x)); [done|done|done|slices|lia|]. intros h2 Hg2 Hf2 E. apply wp_ret. split; [done|].
  split; [eapply frame_located; [by apply frame_nowhere|exact Hl|exact Hf2|slices]|]. split; [|done].
  split; [by eapply frame_wf|]. rewrite Hn. split; [rewrite <- (nat_value _ _ _ Hx1); by apply num_ext|]. intros H0. rewrite E by lia. by apply Hx1.
Qed.

Lemma setWord_spec h z w : good h -> wf h z -> is_uint 64 w -> wp (setWord z w) h (result h z w).
Proof.
  intros Hh Hz Hx. unfold setWord. destruct (Z.eqb_spec w 0) as [->|H0]; [by apply zero_result|]. apply wp_bind, wp_make; [done|done|lia|].
  intros r h1 Hg Hf Hr Hn Hl. apply wp_bind, wp_set_word; [done|done|slices|done|]. intros h2 Hg2 Hf2 Ew. apply wp_ret. split; [done|].
  split; [eapply frame_located; [by apply frame_nowhere|exact Hl|exact Hf2|slices]|]. split; [|done]. split; [by eapply frame_wf|]. rewrite Hn, num_1. split; [done|]. intros _. change (1 - 1) with 0. by rewrite Ew.
Qed.

End Representation.

(** ** Addition, subtraction, comparison *)

Section Linear.
Implicit Types (h : words) (z r : nat_).

(** Adding or subtracting below position [n], then carrying on to position [m]: the second step, a vector and a carry. *)
Lemma wp_carry sg (op : Slice -> Slice -> Z -> B Z) h h1 r x n m c a : good h1 -> wf h1 r -> wf h1 x -> 0 < n <= m -> m = fCount x -> m <= fCount r -> coherent r x ->
  (forall z x c, good h1 -> wf h1 z -> wf h1 x -> fCount z <= fCount x -> ahead z x -> is_uint 64 c ->
     wp (op z x c) h1 (left_in h1 z (λ v c', is_uint 64 c' /\ (0 < fCount z -> c' <= 1) /\ v + sg * c' * pw (fCount z) = num h1 x (fCount z) + sg * c))) ->
  0 <= c <= 1 -> num h1 r n + sg * c * pw n = a -> num h (sub x n 0) (m - n) = num h1 (sub x n 0) (m - n) ->
  forall hi, (hi = Some m \/ (hi = None /\ fCount r = m)) ->
  wp (if n <? m then z1 ← slice_ r (Some n) hi; x1 ← slice_ x (Some n) None; op z1 x1 c else mret c) h1
    (λ c' h2, good h2 /\ frame (win r n m) h1 h2 /\ 0 <= c' <= 1 /\ num h2 r m + sg * c' * pw m = a + pw n * num h (sub x n 0) (m - n)).
Proof.
  intros Hg Hr Hx Hn -> Hm Hc Hop Hc1 Ha Ex hi Hhi. set (m := fCount x) in *. destruct (Z.ltb_spec n m) as [Hlt|Hge].
  2:{ replace m with n by lia. replace (n - n) with 0 by lia. apply wp_ret. rewrite num_0. split; [done|]. split; [apply frame_refl|]. split; [done|]. lia. }
  assert (Hhi' : default (fCount r) hi = m) by (destruct Hhi as [->|[-> ->]]; done).
  apply wp_bind, wp_slice_word; [done|done|rewrite Hhi'; cbn; lia|rewrite Hhi'; slices|]. rewrite Hhi'. cbn [from_option id].
  apply wp_bind, wp_slice_word; [done|done|cbn; lia|cbn; slices|]. cbn [from_option id]. fold m.
  eapply wp_mono; [apply (Hop (sub r n m) (sub x n m) c); [done|slices|slices|slices|slices|unfold is_uint; lia]|].
  intros c' h2 (Hg2 & Hf2 & Hc2 & Hle & E). change (fCount (sub r n m)) with (m - n) in *. specialize (Hle ltac:(lia)).
  assert (Hf3 : frame (win r n m) h1 h2) by (eapply frame_weaken; [exact Hf2|]; slices).
  split; [done|]. split; [done|]. split; [unfold is_uint in Hc2; lia|]. rewrite (num_cut h2 r n m m) by lia. replace (pw m) with (pw n * pw (m - n)) by (rewrite <- pw_add by lia; f_equal; lia).
  rewrite (num_frame _ _ _ _ n Hf3) by (done || slices). rewrite Ex. change (num h1 (sub x n 0) (m - n)) with (num h1 (sub x n m) (m - n)).
  transitivity (num h1 r n + pw n * (num h2 (sub r n m) (m - n) + sg * c' * pw (m - n))); [ring|]. rewrite E, <- Ha. ring.
Qed.

Lemma add_rec_spec fuel h z x y u v : good h -> wf h z -> nat_is h x u -> nat_is h y v -> coherent z x -> coherent z y -> fCount y <= fCount x ->
  wp (add_rec (S fuel) z x y) h (result h z (u + v)).
Proof.
  intros Hh Hz Hx Hy Hcx Hcy Hle. pose proof (nat_wf _ _ _ Hx) as Hxw. pose proof (nat_wf _ _ _ Hy) as Hyw. cbn [add_rec].
  apply wp_bind, wp_len; [done..|]. apply wp_bind, wp_len; [done..|]. pose proof (wf_len _ _ Hxw). pose proof (wf_len _ _ Hyw).
  rewrite (proj2 (Z.ltb_ge (fCount x) (fCount y))) by lia. destruct (Z.eqb_spec (fCount x) 0) as [Em|Em].
  { assert (u = 0) as -> by (by apply (nat_zero h x)). assert (v = 0) as -> by (apply (nat_zero h y); [done|done|lia]). by apply zero_result. }
  destruct (Z.eqb_spec (fCount y) 0) as [En|En]; [assert (v = 0) as -> by (by apply (nat_zero h y)); rewrite Z.add_0_r; by apply set_spec|].
  set (m := fCount x) in *. set (n := fCount y) in *. apply wp_bind, wp_make; [done|done|lia|]. intros r h1 Hg Hf Hr Hn Hl.
  assert (Hx1 : nat_is h1 x u) by (by eapply nat_nowhere). assert (Hy1 : nat_is h1 y v) by (by eapply nat_nowhere).
  pose proof (nat_wf _ _ _ Hx1) as Hxw1. pose proof (nat_wf _ _ _ Hy1) as Hyw1.
  assert (Hrx : coherent r x) by (by eapply located_coherent). assert (Hry : coherent r y) by (by eapply located_coherent).
  apply wp_bind, wp_slice_word; [done|done|cbn; lia|cbn; slices|]. cbn [from_option id]. apply wp_bind.
  eapply wp_mono; [apply addVV_spec; [done|slices|done|done|slices|slices|slices|slices]|].
  intros c h2 (Hg2 & Hf2 & Hc & E). cbn [sub fCount] in *. rewrite Z.sub_0_r in *. rewrite num_sub_0 in E.
  apply wp_bind. eapply wp_mono.
  { apply (wp_carry 1 addVW h1 h2 r x n m c (num h1 x n + v)); [done|by eapply frame_wf|by eapply frame_wf|lia|done|lia|done| |done| | |by left].
    - intros z1 x1 c1 G1 W1 W2 L1 A1 U1. eapply wp_mono; [by apply addVW_spec|]. intros c2 h3 (? & ? & ? & ? & E3). repeat (split; [done|]). lia.
    - rewrite <- (nat_value _ _ _ Hy1). fold n. lia.
    - symmetry. apply (num_frame_sub _ _ _ _ _ _ _ Hf2); [done|slices]. }
  intros c' h3 (Hg3 & Hf3 & Hc3 & E3). assert (Hr3 : wf h3 r) by (eapply frame_wf; [exact Hf3|]; by eapply frame_wf).
  apply wp_bind, wp_set_word; [done|done|slices|unfold is_uint; lia|]. intros h4 Hg4 Hf4 Ew.
  apply (wp_norm h h4 z r); [done|by eapply frame_wf| | |done].
  - rewrite Hn, num_succ, Ew by lia. rewrite (num_frame _ _ _ _ m Hf4) by (done || slices). rewrite <- (nat_value _ _ _ Hx1). fold m. rewrite (num_cut h1 x n m 0) by lia. lia.
  - eapply (frame_located h h3); [eapply (frame_located h h2); [eapply (frame_located h h1); [by apply frame_nowhere|exact Hl|exact Hf2|slices]|exact Hl|exact Hf3|slices]|exact Hl|exact Hf4|slices].
Qed.

Lemma add_spec h z x y u v : good h -> wf h z -> nat_is h x u -> nat_is h y v -> coherent z x -> coherent z y -> wp (add z x y) h (result h z (u + v)).
Proof.
  intros Hh Hz Hx Hy Hcx Hcy. destruct (Z.leb_spec (fCount y) (fCount x)); [by apply add_rec_spec|]. unfold add. remember (S O) as k eqn:Ek. cbn [add_rec].
  pose proof (nat_wf _ _ _ Hx) as Hxw. pose proof (nat_wf _ _ _ Hy) as Hyw. apply wp_bind, wp_len; [done..|]. apply wp_bind, wp_len; [done..|].
  rewrite (proj2 (Z.ltb_lt (fCount x) (fCount y))) by lia. subst k. rewrite Z.add_comm. apply add_rec_spec; (done || lia).
Qed.

End Linear.

Section Linear2.
Implicit Types (h : words) (z r : nat_).

(** The result is in the end in the array of [z], after steps that wrote only what they may. *)
Lemma frame_two h h1 h2 h3 z r P Q : frame nowhere h h1 -> located h z r -> frame P h1 h2 -> frame Q h2 h3 ->
  (forall a i, P a i -> a = fArray r) -> (forall a i, Q a i -> a = fArray r) -> frame (all_of (fArray z)) h h3.
Proof.
  intros H0 Hl H1 H2 HP HQ. eapply (frame_located h h2); [eapply (frame_located h h1); [by apply frame_nowhere|done..]|done..].
Qed.

(** sub: the difference, or the panic "underflow". *)
Lemma sub_spec h z x y u v : good h -> wf h z -> nat_is h x u -> nat_is h y v -> coherent z x -> coherent z y ->
  wpx (sub_ z x y) h (λ r h', v <= u /\ result h z (u - v) r h') (λ p, u < v /\ p = Explicit).
Proof.
  intros Hh Hz Hx Hy Hcx Hcy. pose proof (nat_wf _ _ _ Hx) as Hxw. pose proof (nat_wf _ _ _ Hy) as Hyw. unfold sub_.
  apply wpx_bind, wp_len; [done..|]. apply wpx_bind, wp_len; [done..|]. pose proof (wf_len _ _ Hxw). pose proof (wf_len _ _ Hyw).
  destruct (Z.ltb_spec (fCount x) (fCount y)); [apply wpx_raise; split; [by eapply nat_longer|done]|].
  pose proof (nat_bound _ _ _ Hh Hx) as Hub. pose proof (nat_bound _ _ _ Hh Hy) as Hvb. destruct (Z.eqb_spec (fCount x) 0) as [Em|Em].
  { assert (u = 0) as -> by (by apply (nat_zero h x)). assert (v = 0) as -> by (apply (nat_zero h y); [done|done|lia]). eapply wpx_wp; [by apply zero_result|done]. }
  destruct (Z.eqb_spec (fCount y) 0) as [En|En].
  { assert (v = 0) as -> by (by apply (nat_zero h y)). rewrite Z.sub_0_r. eapply wpx_wp; [by apply set_spec|]. intros r h' ?. split; [lia|done]. }
  set (m := fCount x) in *. set (n := fCount y) in *. apply wpx_bind, wp_make; [done|done|lia|]. intros r h1 Hg Hf Hr Hn Hl.
  assert (Hx1 : nat_is h1 x u) by (by eapply nat_nowhere). assert (Hy1 : nat_is h1 y v) by (by eapply nat_nowhere).
  pose proof (nat_wf _ _ _ Hx1) as Hxw1. pose proof (nat_wf _ _ _ Hy1) as Hyw1.
  assert (Hrx : coherent r x) by (by eapply located_coherent). assert (Hry : coherent r y) by (by eapply located_coherent).
  apply wpx_bind, wp_slice_word; [done|done|cbn; lia|cbn; slices|]. cbn [from_option id]. apply wpx_bind.
  eapply wp_mono; [apply subVV_spec; [done|slices|done|done|slices|slices|slices|slices]|].
  intros c h2 (Hg2 & Hf2 & Hc & E). cbn [sub fCount] in *. rewrite Z.sub_0_r in *. rewrite num_sub_0 in E.
  apply wpx_bind. eapply wp_mono.
  { apply (wp_carry (-1) subVW h1 h2 r x n m c (num h1 x n - v)); [done|by eapply frame_wf|by eapply frame_wf|lia|done|lia|done| |done| | |by right].
    - intros z1 x1 c1 G1 W1 W2 L1 A1 U1. eapply wp_mono; [by apply subVW_spec|]. intros c2 h3 (? & ? & ? & ? & E3). repeat (split; [done|]). lia.
    - rewrite <- (nat_value _ _ _ Hy1). fold n. lia.
    - symmetry. apply (num_frame_sub _ _ _ _ _ _ _ Hf2); [done|slices]. }
  intros c' h3 (Hg3 & Hf3 & Hc3 & E3).
  assert (E4 : num h3 r m - c' * pw m = u - v) by (rewrite <- (nat_value _ _ _ Hx1); fold m; rewrite (num_cut h1 x n m 0) by lia; lia).
  pose proof (num_bound h3 r m (proj2 Hg3) ltac:(lia)) as Hb. destruct (Z.eqb_spec c' 0) as [->|Hc0]; cbn [negb].
  - eapply wpx_wp; [apply (wp_norm h h3 z r (u - v)); [done|by do 2 (eapply frame_wf; [done|])|rewrite Hn; lia| |done]|].
    + apply (frame_two h h1 h2 h3 z r (win (sub r 0 n) 0 n) (win r n m)); [done|done|done|done|slices|slices].
    + intros r' h' ?. split; [lia|done].
  - apply wpx_raise. split; [|done]. assert (c' = 1) as -> by lia. lia.
Qed.

Lemma num_agree h x y n i : (forall j, i < j < n -> word h x j = word h y j) -> 0 <= i < n -> num h x n - num h y n = num h x (i + 1) - num h y (i + 1).
Proof.
  intros E Hi. rewrite (num_cut h x (i + 1) n 0), (num_cut h y (i + 1) n 0) by lia. rewrite (num_ext h (sub x (i + 1) 0) h (sub y (i + 1) 0)); [lia|].
  intros j Hj. rewrite !word_sub. apply E. lia.
Qed.

(** The most significant word in which two vectors differ decides. *)
Lemma num_compare h x y n i : words_ok h -> (forall j, i < j < n -> word h x j = word h y j) -> 0 <= i < n -> word h x i < word h y i -> num h x n < num h y n.
Proof.
  intros Hw E Hi Hlt. pose proof (num_agree h x y n i E Hi) as Ed. rewrite !num_succ in Ed by lia. pose proof (num_bound h x i Hw ltac:(lia)). pose proof (num_bound h y i Hw ltac:(lia)). nia.
Qed.

Lemma cmp_loop_spec h x y n m : wf h x -> wf h y -> Z.of_nat n < m -> m <= fCount x -> m <= fCount y ->
  (forall j, Z.of_nat n < j < m -> word h x j = word h y j) ->
  exists i, cmp_loop n x y h = Val (i, h) /\ 0 <= i <= Z.of_nat n /\ (forall j, i < j < m -> word h x j = word h y j) /\ (i = 0 \/ word h x i <> word h y i).
Proof.
  intros Hx Hy. induction n as [|n IH]; intros Hn Hmx Hmy E; cbn [cmp_loop]; [exists 0; split; [done|]; split; [lia|]; split; [done|by left]|].
  pose proof (wp_word_val h x (Z.of_nat (S n)) Hx ltac:(lia)) as Rx.
  pose proof (wp_word_val h y (Z.of_nat (S n)) Hy ltac:(lia)) as Ry.
  unfold mbind, M_bind. rewrite Rx, Ry. destruct (Z.eqb_spec (word h x (Z.of_nat (S n))) (word h y (Z.of_nat (S n)))) as [Ee|Ee].
  - destruct IH as (i & Ei & Hi & Ej & Hd); [lia|lia|lia| |].
    + intros j Hj. destruct (decide (j = Z.of_nat (S n))) as [->|]; [done|apply E; lia].
    + exists i. split; [done|]. split; [lia|done].
  - exists (Z.of_nat (S n)). split; [done|]. split; [lia|]. split; [done|by right].
Qed.

(** cmp is the sign of the difference. *)
Lemma cmp_spec h x y u v : good h -> nat_is h x u -> nat_is h y v ->
  cmp x y h = Val (if u <? v then -1 else if v <? u then 1 else 0, h).
Proof.
  intros Hh Hx Hy. pose proof (nat_wf _ _ _ Hx) as Hxw. pose proof (nat_wf _ _ _ Hy) as Hyw. unfold cmp.
  erewrite bind_Val by (by apply len_val; [apply good_ok|]). erewrite bind_Val by (by apply len_val; [apply good_ok|]).
  pose proof (wf_len _ _ Hxw). pose proof (wf_len _ _ Hyw). destruct (Z.eqb_spec (fCount x) (fCount y)) as [Ec|Ec]; cbn [negb orb].
  - destruct (Z.eqb_spec (fCount x) 0) as [E0|E0].
    { assert (u = 0) as -> by (by apply (nat_zero h x)). assert (v = 0) as -> by (apply (nat_zero h y); [done|done|lia]). by rewrite Ec, Z.ltb_irrefl. }
    destruct (cmp_loop_spec h x y (Z.to_nat (fCount x - 1)) (fCount x) Hxw Hyw) as (i & Ei & Hi & Ej & Hd); [lia|lia|lia|intros j Hj; lia|].
    erewrite bind_Val by exact Ei.
    erewrite bind_Val by (apply wp_word_val; [done|lia]).
    erewrite bind_Val by (apply wp_word_val; [done|lia]).
    pose proof (nat_value _ _ _ Hx) as Eu. pose proof (nat_value _ _ _ Hy) as Ev. rewrite <- Ec in Ev. destruct Hh as [_ Hw].
    unfold mret, M_ret. repeat f_equal. destruct (Z.ltb_spec (word h x i) (word h y i)) as [Hlt|Hge].
    { pose proof (num_compare h x y (fCount x) i Hw Ej ltac:(lia) Hlt). by rewrite (proj2 (Z.ltb_lt u v)) by lia. }
    destruct (Z.ltb_spec (word h y i) (word h x i)) as [Hlt|Hge2].
    { assert (v < u) by (rewrite <- Eu, <- Ev; apply (num_compare h y x (fCount x) i Hw); [by intros j Hj; rewrite Ej|lia|done]).
      rewrite (proj2 (Z.ltb_ge u v)), (proj2 (Z.ltb_lt v u)) by lia. done. }
    assert (u = v) as ->; [|by rewrite Z.ltb_irrefl]. pose proof (num_agree h x y (fCount x) i Ej ltac:(lia)) as Ed. destruct Hd as [->|Hd]; [|lia].
    rewrite !num_succ, !num_0, pw_0 in Ed by lia. lia.
  - unfold mret, M_ret. repeat f_equal. destruct (Z.ltb_spec (fCount x) (fCount y)) as [Hlt|Hge].
    + pose proof (nat_longer _ _ _ _ _ Hh Hx Hy Hlt). by rewrite (proj2 (Z.ltb_lt u v)).
    + rewrite (proj2 (Z.ltb_lt (fCount y) (fCount x))) by lia. pose proof (nat_longer _ _ _ _ _ Hh Hy Hx ltac:(lia)).
      by rewrite (proj2 (Z.ltb_ge u v)), (proj2 (Z.ltb_lt v u)) by lia.
Qed.

Lemma mulAddWW_spec h z x u (y w : Z) : good h -> wf h z -> nat_is h x u -> coherent z x -> is_uint 64 y -> is_uint 64 w ->
  wp (mulAddWW z x y w) h (result h z (u * y + w)).
Proof.
  intros Hh Hz Hx Hcx Hy Hw. pose proof (nat_wf _ _ _ Hx) as Hxw. pose proof (wf_len _ _ Hxw). unfold mulAddWW. apply wp_bind, wp_len; [done..|].
  destruct ((fCount x =? 0) || (y =? 0)) eqn:E0.
  { assert (u * y = 0) as -> by (apply orb_true_iff in E0 as [E0%Z.eqb_eq| ->%Z.eqb_eq]; [|lia]; assert (u = 0) as -> by (by apply (nat_zero h x)); lia).
    by apply setWord_spec. }
  apply orb_false_iff in E0 as [Em%Z.eqb_neq _]. set (m := fCount x) in *. apply wp_bind, wp_make; [done|done|lia|]. intros r h1 Hg Hf Hr Hn Hl.
  assert (Hx1 : nat_is h1 x u) by (by eapply nat_nowhere). pose proof (nat_wf _ _ _ Hx1) as Hxw1. assert (Hrx : coherent r x) by (by eapply located_coherent).
  apply wp_bind, wp_slice_word; [done|done|cbn; lia|cbn; slices|]. cbn [from_option id]. apply wp_bind.
  eapply wp_mono; [apply mulAddVWW_spec; [done|slices|done|slices|slices|done|done]|]. intros c h2 (Hg2 & Hf2 & Hc & E).
  cbn [sub fCount] in *. rewrite Z.sub_0_r in *. rewrite num_sub_0 in E. assert (Hr2 : wf h2 r) by (by eapply frame_wf).
  apply wp_bind, wp_set_word; [done|done|slices|done|]. intros h3 Hg3 Hf3 Ew. apply (wp_norm h h3 z r); [done|by eapply frame_wf| | |done].
  - rewrite Hn, num_succ, Ew by lia. rewrite (num_frame _ _ _ _ m Hf3) by (done || slices). rewrite E. rewrite <- (nat_value _ _ _ Hx1). fold m. lia.
  - apply (frame_two h h1 h2 h3 z r (win (sub r 0 m) 0 m) (win r m (m + 1))); [done|done|done|done|slices|slices].
Qed.

End Linear2.

Section Shifting.
Implicit Types (h : words) (z r : nat_).

(** The early return for a shift by 0 either gives the number or leaves the rest to the copy below. *)
Lemma unshifted_spec h z x u : good h -> wf h z -> nat_is h x u -> coherent z x ->
  wp (unshifted z x) h (λ early h', match early with Some r => result h z u r h' | None => h' = h end).
Proof.
  intros Hh Hz Hx Hc. pose proof (nat_wf _ _ _ Hx) as Hxw. unfold unshifted, same.
  assert (Hal : wp (alias z x) h (λ _ h', h' = h)) by done.
  apply wp_bind, wp_bind, wp_len; [done..|]. apply wp_bind, wp_len; [done..|].
  assert (Hrest : wp (al ← alias z x; if negb al then z ← set z x; mret (Some z) else mret None) h
    (λ early h', match early with Some r => result h z u r h' | None => h' = h end)).
  { apply wp_bind. eapply wp_mono; [exact Hal|]. intros b h' ->. destruct b; cbn [negb]; [by apply wp_ret|].
    apply wp_bind. eapply wp_mono; [by apply set_spec|]. intros r h' Hr. by apply wp_ret. }
  destruct (Z.eqb_spec (fCount z) (fCount x)) as [Ec|Ec]; cbn [andb]; [|by apply wp_ret].
  destruct (Z.ltb_spec 0 (fCount z)) as [H0|H0]; [|by apply wp_ret]. apply wp_ret.
  case_bool_decide as Ea; cbn [andb]; [|exact Hrest]. destruct (Z.eqb_spec (fStart z) (fStart x)) as [Es|Es]; [|exact Hrest].
  apply wp_ret. assert (z = x) as -> by (destruct z, x; cbn in *; by subst). split; [done|]. split; [apply frame_refl|]. split; [done|slices].
Qed.

(** What is left of a shift to the left once there is room: the words, then the zeroes below them. *)
Lemma shl_tail h0 h z r x u k s : frame nowhere h0 h -> located h0 z r -> good h -> wf h r -> nat_is h x u -> coherent r x -> 0 <= k -> fCount r = fCount x + k + 1 -> 0 <= s < 64 -> 0 < fCount x ->
  (s <> 0 \/ k = 0 \/ fArray r <> fArray x \/ fCount x <= k) ->
  wp (z1 ← slice_ r (Some k) (Some (fCount x + k)); c ← shlVU z1 x s; set_Item r (fCount x + k) c;; z0 ← slice_ r (Some 0) (Some k); clear z0;; norm r) h
    (result h0 z (u * 2 ^ (64 * k + s))).
Proof.
  intros Hf0 Hl Hh Hr Hx Hc Hk Hn Hs Hm Hok. pose proof (nat_wf _ _ _ Hx) as Hxw. set (m := fCount x) in *. set (n := m + k).
  apply wp_bind, wp_slice_word; [done|done|cbn; lia|cbn; slices|]. cbn [from_option id]. fold n. apply wp_bind.
  assert (H1 : wp (shlVU (sub r k n) x s) h (λ c h1, good h1 /\ frame (win r k n) h h1 /\ is_uint 64 c /\ num h1 (sub r k n) m + c * pw m = u * 2 ^ s)).
  { destruct (decide (s = 0)) as [->|Hs0].
    - rewrite shl_zero. apply wp_bind. apply (wp_copy_words h (sub r k n) x m); [done|slices|done|slices|cbn; lia|]. intros h1 Hg1 Hf1 E. apply wp_ret.
      split; [done|]. split; [eapply frame_weaken; [exact Hf1|]; slices|]. split; [unfold is_uint; lia|]. rewrite (num_ext h1 (sub r k n) h x m) by done.
      pose proof (nat_value _ _ _ Hx) as Eu. fold m in Eu. lia.
    - assert (Ecount : fCount (sub r k n) = m) by (cbn; lia). eapply wp_mono; [apply shlVU_spec; [done|slices|done|lia|lia|slices]|]. rewrite Ecount. intros c h1 (Hg1 & Hf1 & Hc1 & E).
      rewrite Ecount in *. split; [done|]. split; [eapply frame_weaken; [exact Hf1|]; slices|].
      split; [unfold is_uint; pose proof (Z.pow_lt_mono_r 2 s 64); lia|]. rewrite E. pose proof (nat_value _ _ _ Hx) as Eu. fold m in Eu. lia. }
  eapply wp_mono; [exact H1|]. clear H1. intros c h1 (Hg1 & Hf1 & Hc1 & E1). assert (Hr1 : wf h1 r) by (by eapply frame_wf).
  apply wp_bind, wp_set_word; [done|done|slices|done|]. intros h2 Hg2 Hf2 Ew. assert (Hr2 : wf h2 r) by (by eapply frame_wf).
  apply wp_bind, wp_slice_word; [done|done|cbn; lia|cbn; slices|]. cbn [from_option id]. apply wp_bind. eapply wp_mono; [apply clear_spec; [done|slices]|].
  intros _ h3 (Hg3 & Hf3 & Ez). cbn [sub fCount] in Hf3, Ez. rewrite Z.sub_0_r in *. assert (Hr3 : wf h3 r) by (by eapply frame_wf).
  apply (wp_norm h0 h3 z r); [done|done| | |done].
  2:{ eapply (frame_located h0 h2); [apply (frame_two h0 h h1 h2 z r (win r k n) (win r n (n + 1))); [done|done|done|done|slices|slices]|exact Hl|exact Hf3|slices]. }
  rewrite Hn. replace (m + k + 1) with (n + 1) by lia. rewrite num_succ by lia. rewrite (num_cut h3 r k n n) by lia. replace (n - k) with m by lia.
  rewrite (num_zero h3 r k) by (try done; intros j Hj; specialize (Ez j Hj); by rewrite word_sub in Ez).
  rewrite (word_frame _ _ _ _ _ Hf3) by (done || slices). rewrite Ew.
  rewrite (num_frame_sub _ _ _ _ _ _ _ Hf3) by (done || slices). rewrite (num_frame_sub _ _ _ _ _ _ _ Hf2) by (done || slices).
  replace (pw n) with (pw k * pw m) by (rewrite <- pw_add by lia; f_equal; lia). rewrite Z.pow_add_r by lia. change (2 ^ (64 * k)) with (pw k).
  transitivity (pw k * (num h1 (sub r k n) m + c * pw m)); [ring|]. rewrite E1. ring.
Qed.

(** shl multiplies by a power of two, unless it moves whole words up in the array of the operand. *)
Lemma shl_spec h z x u s : good h -> wf h z -> nat_is h x u -> coherent z x -> 0 <= s ->
  (s mod 64 <> 0 \/ s = 0 \/ fArray z <> fArray x \/ fCount x <= s / 64) -> wp (shl_ z x s) h (result h z (u * 2 ^ s)).
Proof.
  intros Hh Hz Hx Hc Hs Hok. pose proof (nat_wf _ _ _ Hx) as Hxw. unfold shl_. apply wp_bind.
  assert (Hear : wp (if s =? 0 then unshifted z x else mret None) h (λ early h', match early with Some r => result h z (u * 2 ^ s) r h' | None => h' = h end)).
  { destruct (Z.eqb_spec s 0) as [->|]; [|by apply wp_ret]. rewrite Z.mul_1_r. by apply unshifted_spec. }
  eapply wp_mono; [exact Hear|]. clear Hear. intros [r|] h0 H0; [by apply wp_ret|]. subst h0. apply wp_bind, wp_len; [done..|].
  pose proof (wf_len _ _ Hxw). destruct (Z.eqb_spec (fCount x) 0) as [E0|E0]; [assert (u = 0) as -> by (by apply (nat_zero h x)); by apply zero_result|].
  change _W with 64. assert (Hk : 0 <= s / 64) by (apply Z.div_pos; lia). apply wp_bind, wp_make; [done|done|lia|]. intros r h1 Hg Hf Hr Hn Hl.
  assert (Hx1 : nat_is h1 x u) by (by eapply nat_nowhere). assert (Hrx : coherent r x) by (by eapply located_coherent).
  replace (fCount x + s / 64 - fCount x) with (s / 64) by lia. pose proof (Z.div_mod s 64 ltac:(lia)) as Ed. pose proof (Z.mod_pos_bound s 64 ltac:(lia)) as Hb.
  replace (u * 2 ^ s) with (u * 2 ^ (64 * (s / 64) + s mod 64)) by (by rewrite <- Ed). apply (shl_tail h h1 z r x u (s / 64) (s mod 64)); [done|done|done|done|done|done|lia|lia|lia|lia|].
  destruct Hok as [?|[->|[Ha|?]]]; [by left|by right; left| |by right; right; right]. right; right; left. destruct Hl as [[E _]|[E _]]; [by rewrite E|]. destruct Hxw; lia.
Qed.

(** shr divides. *)
Lemma shr_spec h z x u s : good h -> wf h z -> nat_is h x u -> coherent z x -> 0 <= s -> wp (shr_ z x s) h (result h z (u / 2 ^ s)).
Proof.
  intros Hh Hz Hx Hc Hs. pose proof (nat_wf _ _ _ Hx) as Hxw. unfold shr_. apply wp_bind.
  assert (Hear : wp (if s =? 0 then unshifted z x else mret None) h (λ early h', match early with Some r => result h z (u / 2 ^ s) r h' | None => h' = h end)).
  { destruct (Z.eqb_spec s 0) as [->|]; [|by apply wp_ret]. rewrite Z.div_1_r. by apply unshifted_spec. }
  eapply wp_mono; [exact Hear|]. clear Hear. intros [r|] h0 H0; [by apply wp_ret|]. subst h0. apply wp_bind, wp_len; [done..|].
  pose proof (wf_len _ _ Hxw). change _W with 64. set (m := fCount x) in *. set (k := s / 64). assert (Hk : 0 <= k) by (apply Z.div_pos; lia).
  pose proof (Z.div_mod s 64 ltac:(lia)) as Ed. pose proof (Z.mod_pos_bound s 64 ltac:(lia)) as Hb. fold k in Ed. pose proof (nat_bound _ _ _ Hh Hx) as Hu. fold m in Hu.
  destruct (Z.leb_spec (m - k) 0) as [Hn|Hn].
  { assert (u / 2 ^ s = 0) as ->; [|by apply zero_result]. apply Z.div_small. split; [lia|]. apply (Z.lt_le_trans _ (pw m)); [lia|]. unfold pw. apply Z.pow_le_mono_r; lia. }
  set (n := m - k) in *. apply wp_bind, wp_make; [done|done|lia|]. intros r h1 Hg Hf Hr Hrn Hl.
  assert (Hx1 : nat_is h1 x u) by (by eapply nat_nowhere). assert (Hrx : coherent r x) by (by eapply located_coherent). pose proof (nat_wf _ _ _ Hx1) as Hxw1.
  apply wp_bind, wp_slice_word; [done|done|cbn; lia|cbn; slices|]. cbn [from_option id]. replace (m - n) with k by lia. fold m. apply wp_bind.
  assert (Eu : u / 2 ^ s = num h1 (sub x k m) n / 2 ^ (s mod 64)).
  { rewrite <- (nat_value _ _ _ Hx1). fold m. rewrite (num_cut h1 x k m m) by lia. fold n. rewrite Ed at 1. rewrite Z.pow_add_r by lia. change (2 ^ (64 * k)) with (pw k).
    pose proof (num_bound h1 x k (proj2 Hg) Hk) as Hlow. pose proof (pw_pos k Hk). rewrite <- Z.div_div by lia. rewrite (Z.mul_comm (pw k)), Z.div_add, (Z.div_small (num h1 x k)) by lia. by rewrite Z.add_0_l. }
  assert (H1 : wp (shrVU r (sub x k m) (s mod 64)) h1 (λ _ h2, good h2 /\ frame (win r 0 n) h1 h2 /\ num h2 r n = u / 2 ^ s)).
  { rewrite Eu. destruct (decide (s mod 64 = 0)) as [Es|Es].
    - rewrite Es, shr_zero. apply wp_bind. apply (wp_copy_words h1 r (sub x k m) n); [done|done|slices|slices|cbn; lia|]. intros h2 Hg2 Hf2 E. apply wp_ret.
      split; [done|]. split; [done|]. rewrite Z.div_1_r. by apply num_ext.
    - eapply wp_mono; [apply shrVU_spec; [done|done|slices|cbn; lia|lia|slices]|]. rewrite Hrn. intros c h2 (Hg2 & Hf2 & E). rewrite Hrn in *. done. }
  eapply wp_mono; [exact H1|]. intros _ h2 (Hg2 & Hf2 & E2). apply (wp_norm h h2 z r); [done|by eapply frame_wf|by rewrite Hrn| |done].
  eapply (frame_located h h1); [by apply frame_nowhere|exact Hl|exact Hf2|slices].
Qed.

End Shifting.

(** ** Nil and aliasing *)

Section Aliasing.
Implicit Types (h : words) (z x : nat_).

Lemma zero_wf h : heap_ok h -> wf h fZero.
Proof. intros [Hl E]. unfold wf, fZero. cbn. change (array h 0) with (array h EmptyArray). rewrite E. cbn. split; [exact Hl|]. lia. Qed.

Lemma full_array h s : heap_ok h -> wf h s -> 0 < fCount s -> fArray s <> EmptyArray.
Proof. intros [_ E] (_ & ? & _ & Hl) Hc Ea. rewrite Ea, E in Hl. cbn in Hl. lia. Qed.

(** alias tells whether two vectors share an array; nil shares with none. *)
Lemma alias_val h z x : good h -> wf h z -> wf h x -> 0 < fCount x -> exists b, alias z x h = Val (b, h) /\ (b = false -> fArray z <> fArray x).
Proof.
  intros [Hh _] Hz Hx Hc. unfold alias, mbind, M_bind. rewrite !IsNil_val. eexists. split; [done|]. intros Eb Ea. pose proof (full_array h x Hh Hx Hc) as Hne.
  rewrite Ea in Eb. rewrite !(bool_decide_eq_false_2 (fArray x = EmptyArray)) in Eb by done. by rewrite bool_decide_eq_true_2 in Eb.
Qed.

End Aliasing.

(** ** Concrete heaps *)

Section Concrete.
Implicit Types (h : words) (z x r : nat_).

(** The conditions of the theorems, decided for a heap that is written out. *)
Definition good_b h : bool :=
  match h with a :: _ => (zlen a =? 0) && forallb (forallb (λ w, (0 <=? w) && (w <? 2 ^ 64))) h | [] => false end.
Definition wf_b h x : bool :=
  (fArray x <? length h)%nat && (0 <=? fStart x) && (0 <=? fCount x) && (fStart x + fCount x <=? zlen (array h (fArray x))).
Definition nat_b h x (v : Z) : bool :=
  wf_b h x && (num h x (fCount x) =? v) && ((fCount x =? 0) || negb (word h x (fCount x - 1) =? 0)).

Lemma good_check h : good_b h = true -> good h.
Proof.
  unfold good_b. destruct h as [|a h]; [done|]. intros [E0%Z.eqb_eq Hall]%andb_true_iff. split.
  - split; [cbn; lia|]. apply array_nil. by unfold array.
  - intros b i w. rewrite cell_slot. unfold slot. case_decide; [|done]. intros Hw. assert (Hb : exists l, (a :: h) !! b = Some l).
    { unfold array in Hw. destruct ((a :: h) !! b) as [l|]; [by exists l|]. cbn in Hw. by rewrite lookup_nil in Hw. }
    destruct Hb as [l Hl]. unfold array in Hw. rewrite Hl in Hw. cbn in Hw. rewrite forallb_forall in Hall. specialize (Hall l). rewrite forallb_forall in Hall.
    assert (Hin : (0 <=? w) && (w <? 2 ^ 64) = true); [apply Hall; apply list_elem_of_In; by eapply list_elem_of_lookup_2|]. unfold is_uint. lia.
Qed.

Lemma wf_check h x : wf_b h x = true -> wf h x.
Proof. unfold wf_b, wf. rewrite !andb_true_iff, !Z.leb_le, Nat.ltb_lt. tauto. Qed.

Lemma nat_check h x (v : Z) : nat_b h x v = true -> nat_is h x v.
Proof.
  unfold nat_b. rewrite !andb_true_iff, orb_true_iff, negb_true_iff, !Z.eqb_eq, Z.eqb_neq. intros [[Hx Hv] Hn]. split; [by apply wf_check|]. split; [done|]. intros H0. destruct Hn; [lia|done].
Qed.

End Concrete.

(** ** The linear operations *)

(** C16. Addition, subtraction, comparison, multiplication by a word and shifts of multi-precision numbers compute exactly:
    for operands of any length, in storage [z] that may be new or that of an operand, the result is the number without
    leading zeroes, in the array of [z] or in a new one, and no other array has changed.  Subtraction panics exactly when the
    result would be negative; the left shift needs that a shift by whole words is not done in place (see [shl_in_place]). *)
Theorem nat_linear (h : words) (z x y : nat_) (U V w c s : Z) :
  good h -> wf h z -> nat_is h x U -> nat_is h y V -> coherent z x -> coherent z y -> is_uint 64 w -> is_uint 64 c -> 0 <= s ->
  wp (add z x y) h (result h z (U + V)) /\
  wpx (sub_ z x y) h (λ r h', V <= U /\ result h z (U - V) r h') (λ p, U < V /\ p = Explicit) /\
  cmp x y h = Val (if U <? V then -1 else if V <? U then 1 else 0, h) /\
  wp (mulAddWW z x w c) h (result h z (U * w + c)) /\
  (s mod 64 <> 0 \/ s = 0 \/ fArray z <> fArray x \/ fCount x <= s / 64 -> wp (shl_ z x s) h (result h z (U * 2 ^ s))) /\
  wp (shr_ z x s) h (result h z (U / 2 ^ s)).
Proof.
  intros. split_and!; [by apply add_spec|by apply sub_spec|by apply cmp_spec|by apply mulAddWW_spec|intros; by apply shl_spec|by apply shr_spec].
Qed.

(** 2^64 - 1 and 1, the sum in the array of the first. *)
Lemma nat_linear_witness :
  let h := [[]; [2 ^ 64 - 1; 0; 0; 0]; [1]] in
  wp (add (SliceOf 1 0 1) (SliceOf 1 0 1) (SliceOf 2 0 1)) h (result h (SliceOf 1 0 1) (2 ^ 64)).
Proof.
  cbv zeta. refine (proj1 (nat_linear _ _ (SliceOf 1 0 1) (SliceOf 2 0 1) (2 ^ 64 - 1) 1 0 0 0 _ _ _ _ _ _ _ _ _));
    [apply good_check; vm_compute; reflexivity|apply wf_check; vm_compute; reflexivity|apply nat_check; vm_compute; reflexivity|apply nat_check; vm_compute; reflexivity|
     by intros _|by intros E|unfold is_uint; lia|unfold is_uint; lia|lia].
Defined.
