(* ===== verification/BigMul.v ===== *)
(** * math/big: multiplication

    Schoolbook and Karatsuba multiplication of src/Source/Gold/math/big/nat_elements.go.  karatsuba works in one
    vector of six times the length of its operands, whose parts hold the partial products; mul cuts its operands into
    pieces of a suitable length and adds the products at their places. *)

From S2P Require Import Prelude State Slices BigArith BigNat.

Local Open Scope go_scope.

Definition basicMul (z x y : nat_) : B unit :=
  nx ← len x; ny ← len y;
  z0 ← slice_ z (Some 0) (Some (nx + ny));
  clear z0;;
  loop_up 0 ny (λ i _,
    d ← get_Item y i;
    if negb (d =? 0) then
      zi ← slice_ z (Some i) (Some (i + nx));
      c ← addMulVVW zi x d;
      set_Item z (nx + i) c
    else mret tt) tt.

Definition karatsubaAdd (z x : nat_) (n : Z) : B unit :=
  z0 ← slice_ z (Some 0) (Some n);
  c ← addVV z0 z x;
  if negb (c =? 0) then
    z1 ← slice_ z (Some n) (Some (n + (n >>. 1))); zn ← slice_ z (Some n) None;
    addVW z1 zn c;; mret tt
  else mret tt.

Definition karatsubaSub (z x : nat_) (n : Z) : B unit :=
  z0 ← slice_ z (Some 0) (Some n);
  c ← subVV z0 z x;
  if negb (c =? 0) then
    z1 ← slice_ z (Some n) (Some (n + (n >>. 1))); zn ← slice_ z (Some n) None;
    subVW z1 zn c;; mret tt
  else mret tt.

Definition karatsubaThreshold : Z := 40.

(** The absolute difference of two vectors in [d], and the sign. *)
Definition absolute_difference (d a b : nat_) (s : Z) : B Z :=
  c ← subVV d a b;
  if negb (c =? 0) then subVV d b a;; mret (- s) else mret s.

Fixpoint karatsuba (fuel : nat) (z x y : nat_) : B unit :=
  match fuel with
  | O => no_fuel
  | S fuel =>
      n ← len y;
      if negb (n &. 1 =? 0) || (n <? karatsubaThreshold) || (n <? 2) then basicMul z x y
      else
        let n2 := n >>. 1 in
        x1 ← slice_ x (Some n2) None; x0 ← slice_ x (Some 0) (Some n2);
        y1 ← slice_ y (Some n2) None; y0 ← slice_ y (Some 0) (Some n2);
        karatsuba fuel z x0 y0;;
        zn ← slice_ z (Some n) None;
        karatsuba fuel zn x1 y1;;
        xd ← slice_ z (Some (2 * n)) (Some (2 * n + n2));
        s ← absolute_difference xd x1 x0 1;
        yd ← slice_ z (Some (2 * n + n2)) (Some (3 * n));
        s ← absolute_difference yd y0 y1 s;
        p ← slice_ z (Some (n * 3)) None;
        karatsuba fuel p xd yd;;
        r ← slice_ z (Some (n * 4)) None;
        zr ← slice_ z None (Some (n * 2));
        copy r zr;;
        zm ← slice_ z (Some n2) None;
        karatsubaAdd zm r n;;
        rn ← slice_ r (Some n) None;
        karatsubaAdd zm rn n;;
        if 0 <? s then karatsubaAdd zm p n else karatsubaSub zm p n
  end.

Definition addAt (z x : nat_) (i : Z) : B unit :=
  n ← len x;
  if 0 <? n then
    z1 ← slice_ z (Some i) (Some (i + n)); z2 ← slice_ z (Some i) None;
    c ← addVV z1 z2 x;
    if negb (c =? 0) then
      let j := i + n in
      nz ← len z;
      if j <? nz then z3 ← slice_ z (Some j) None; addVW z3 z3 c;; mret tt else mret tt
    else mret tt
  else mret tt.

Definition max (x y : Z) : Z := if y <? x then x else y.

(** The loop: [n] and the number of halvings. *)
Fixpoint karatsubaLen_loop (fuel : nat) (n i threshold : Z) : outcome (Z * Z) :=
  match fuel with
  | O => NoFuel
  | S fuel => if threshold <? n then karatsubaLen_loop fuel (n >>. 1) (i + 1) threshold else Val (n, i)
  end.
(** The result is at most the argument, so that the shift does not overflow. *)
Definition karatsubaLen (n threshold : Z) : outcome Z :=
  '(n, i) ← karatsubaLen_loop (S (Z.to_nat n)) n 0 threshold; Val (Z.shiftl n i).

(** The pieces of [x] from the second on: [for i := k; i < len(x); i += k], with [t] as scratch. *)
Section Pieces.
Variable mul : nat_ -> nat_ -> nat_ -> B nat_.
Fixpoint mul_pieces (fuel : nat) (z t x y0 y1 : nat_) (k i : Z) : B unit :=
  match fuel with
  | O => no_fuel
  | S fuel =>
      m ← len x;
      if i <? m then
        xi ← slice_ x (Some i) None;
        l ← len xi;
        xi ← (if k <? l then slice_ xi None (Some k) else mret xi);
        xi ← norm xi;
        t ← mul t xi y0;
        addAt z t i;;
        t ← mul t xi y1;
        addAt z t (i + k);;
        mul_pieces fuel z t x y0 y1 k (i + k)
      else mret tt
  end.
End Pieces.

(** mul, with the recursive calls as fuel. *)
Fixpoint mul_rec (fuel : nat) (z x y : nat_) : B nat_ :=
  match fuel with
  | O => no_fuel
  | S fuel =>
      m ← len x; n ← len y;
      if m <? n then mul_rec fuel z y x
      else if (m =? 0) || (n =? 0) then slice_ z None (Some 0)
      else if n =? 1 then d ← get_Item y 0; mulAddWW z x d 0
      else
        a ← alias z x; b ← alias z y;
        let z := if a || b then fZero else z in
        if n <? karatsubaThreshold then
          z ← make_ z (m + n); basicMul z x y;; norm z
        else
          k ← lift (karatsubaLen n karatsubaThreshold);
          x0 ← slice_ x (Some 0) (Some k); y0 ← slice_ y (Some 0) (Some k);
          z ← make_ z (max (6 * k) (m + n));
          karatsuba (S (Z.to_nat k)) z x0 y0;;
          z ← slice_ z (Some 0) (Some (m + n));
          zh ← slice_ z (Some (2 * k)) None;
          clear zh;;
          (if (k <? n) || negb (m =? n) then
             x0 ← norm x0;
             y1 ← slice_ y (Some k) None;
             t ← mul_rec fuel fZero x0 y1;
             addAt z t k;;
             y0 ← norm y0;
             mul_pieces (mul_rec fuel) (S (Z.to_nat m)) z t x y0 y1 k k
           else mret tt);;
          norm z
  end.

Definition mul (z x y : nat_) : B nat_ :=
  m ← len x; n ← len y; mul_rec (S (S (Z.to_nat (2 * (m + n))))) z x y.

(** [(2^128 - 1) * (2^64 + 1)], schoolbook. *)
Example mul_example :
  mul fZero (SliceOf 1 0 2) (SliceOf 2 0 2) [[]; [2 ^ 64 - 1; 2 ^ 64 - 1]; [1; 1]]
  = Val (SliceOf 3 0 4, [[]; [2 ^ 64 - 1; 2 ^ 64 - 1]; [1; 1]; [2 ^ 64 - 1; 2 ^ 64 - 2; 0; 1; 0; 0; 0; 0]]).
Proof. vm_compute. reflexivity. Qed.

(** ** Schoolbook multiplication *)

Definition apart (z x : nat_) : Prop :=
  fArray z = fArray x -> fStart z + fCount z <= fStart x \/ fStart x + fCount x <= fStart z.

Ltac slices ::= repeat match goal with s := sub _ _ _ |- _ => subst s end; unfold apart, win, all_of, nowhere, coherent, ahead, behind, located, wf, capacity, sub in *; cbn [fArray fStart fCount] in *; intros; lia.

Section Multiply.
Implicit Types (h : words) (z x y r t : nat_).

(** One row: the digit [d] of [y] at position [i]. *)
Lemma basicMul_row h z x i d nx L : good h -> wf h z -> wf h x -> nx = fCount x -> 0 <= i -> nx + i < L -> L <= fCount z -> apart z x -> is_uint 64 d ->
  (forall j, nx + i <= j < L -> word h z j = 0) ->
  wp (if negb (d =? 0) then zi ← slice_ z (Some i) (Some (i + nx)); c ← addMulVVW zi x d; set_Item z (nx + i) c else mret tt) h
    (λ _ h', good h' /\ frame (win z i (nx + i + 1)) h h' /\ num h' z (nx + i + 1) = num h z (nx + i) + num h x nx * d * pw i).
Proof.
  intros Hh Hz Hx -> Hi HL HLz Ha Hd Hzero. set (nx := fCount x) in *. pose proof (wf_len _ _ Hx). fold nx in H.
  destruct (Z.eqb_spec d 0) as [->|Hd0]; cbn [negb].
  { apply wp_ret. split; [done|]. split; [apply frame_refl|]. rewrite num_succ, Hzero by lia. lia. }
  apply wp_bind, wp_slice_word; [done|done|cbn; lia|cbn; slices|]. cbn [from_option id]. apply wp_bind.
  assert (Ez : fCount (sub z i (i + nx)) = nx) by (cbn; lia). eapply wp_mono; [apply addMulVVW_spec; [done|slices|done|lia|slices|done]|].
  rewrite Ez. intros c h1 (Hg1 & Hf1 & Hc & E). rewrite Ez in *. assert (Hz1 : wf h1 z) by (by eapply frame_wf).
  apply wp_set_word; [done|done|slices|done|]. intros h2 Hg2 Hf2 Ew. assert (Hf : frame (win z i (nx + i)) h h1) by (eapply frame_weaken; [exact Hf1|slices]).
  split; [done|]. split; [apply (frame_join z i (nx + i) (nx + i + 1) h h1 h2); [done|done|lia]|].
  rewrite num_succ, Ew by lia. rewrite (num_frame _ _ _ _ (nx + i) Hf2) by (done || slices). rewrite (num_cut h1 z i (nx + i) (i + nx)), (num_cut h z i (nx + i) (i + nx)) by lia.
  replace (nx + i - i) with nx by lia. rewrite (num_frame _ _ _ _ i Hf) by (done || slices). rewrite (Z.add_comm nx i), pw_add by lia.
  transitivity (num h z i + pw i * (num h1 (sub z i (i + nx)) nx + c * pw nx)); [ring|]. rewrite E. ring.
Qed.

Lemma basicMul_spec h z x y : good h -> wf h z -> wf h x -> wf h y -> fCount x + fCount y <= fCount z -> apart z x -> apart z y ->
  wp (basicMul z x y) h (λ _ h', good h' /\ frame (win z 0 (fCount x + fCount y)) h h' /\ num h' z (fCount x + fCount y) = num h x (fCount x) * num h y (fCount y)).
Proof.
  intros Hh Hz Hx Hy Hle Hax Hay. pose proof (wf_len _ _ Hx). pose proof (wf_len _ _ Hy). unfold basicMul. apply wp_bind, wp_len; [done..|]. apply wp_bind, wp_len; [done..|].
  set (nx := fCount x) in *. set (ny := fCount y) in *. set (L := nx + ny) in *.
  apply wp_bind, wp_slice_word; [done|done|cbn; lia|cbn; slices|]. cbn [from_option id]. apply wp_bind.
  eapply wp_mono; [apply clear_spec; [done|slices]|]. intros _ h1 (Hg1 & Hf1 & Ez). cbn [sub fCount] in Hf1, Ez. rewrite Z.sub_0_r in *.
  assert (Hf1' : frame (win z 0 L) h h1) by (eapply frame_weaken; [exact Hf1|slices]).
  assert (Ez' : forall j, 0 <= j < L -> word h1 z j = 0) by (intros j Hj; specialize (Ez j Hj); by rewrite word_sub in Ez).
  apply (wp_loop_up (λ i _ h2, good h2 /\ frame (win z 0 L) h h2 /\ num h2 z (nx + i) = num h x nx * num h y i /\ forall j, nx + i <= j < L -> word h2 z j = 0)); [lia| | |].
  - split; [done|]. split; [done|]. rewrite num_0, Z.mul_0_r, Z.add_0_r. split; [apply num_zero; [lia|intros j Hj; apply Ez'; lia]|intros j Hj; apply Ez'; lia].
  - intros i [] h2 Hi (Hg2 & Hf2 & E & Ez2). assert (Hz2 : wf h2 z) by (by eapply frame_wf). assert (Hx2 : wf h2 x) by (by eapply frame_wf). assert (Hy2 : wf h2 y) by (by eapply frame_wf).
    apply wp_bind, wp_word; [done|lia|]. set (d := word h2 y i).
    eapply wp_mono; [apply (basicMul_row h2 z x i d nx L); [done|done|done|done|lia|lia|lia|done|apply word_uint, Hg2|done]|].
    intros _ h3 (Hg3 & Hf3 & E3). split; [done|]. split; [eapply frame_step; [exact Hf2|exact Hf3|slices]|]. split.
    + rewrite Z.add_assoc, E3, E. rewrite (num_frame _ _ _ _ nx Hf2) by (done || slices). rewrite num_succ by lia.
      unfold d. rewrite (word_frame _ _ _ y i Hf2) by (done || slices). ring.
    + intros j Hj. rewrite (word_frame _ _ _ z j Hf3) by (done || slices). apply Ez2. lia.
  - intros [] h2 (Hg2 & Hf2 & E & _). done.
Qed.

(** ** The additions of Karatsuba *)

Lemma karatsuba_add_spec sg (opVV : nat_ -> nat_ -> nat_ -> B Z) (opVW : nat_ -> nat_ -> Z -> B Z) h z x n n2 :
  (forall z x y, wf h z -> wf h x -> wf h y -> fCount z <= fCount x -> fCount z <= fCount y -> ahead z x -> ahead z y ->
     wp (opVV z x y) h (left_in h z (λ v c, 0 <= c <= 1 /\ v + sg * c * pw (fCount z) = num h x (fCount z) + sg * num h y (fCount z)))) ->
  (forall h z x w, good h -> wf h z -> wf h x -> fCount z <= fCount x -> ahead z x -> is_uint 64 w ->
     wp (opVW z x w) h (left_in h z (λ v c, is_uint 64 c /\ (0 < fCount z -> c <= 1) /\ v + sg * c * pw (fCount z) = num h x (fCount z) + sg * w))) ->
  good h -> wf h z -> wf h x -> n2 = n >>. 1 -> 0 <= n -> n + n2 <= fCount z -> n <= fCount x -> (fArray z = fArray x -> fStart z + n + n2 <= fStart x) ->
  wp (z0 ← slice_ z (Some 0) (Some n); c ← opVV z0 z x;
      if negb (c =? 0) then
        z1 ← slice_ z (Some n) (Some (n + (n >>. 1))); zn ← slice_ z (Some n) None;
        opVW z1 zn c;; mret tt
      else mret tt) h
    (λ _ h', good h' /\ frame (win z 0 (n + n2)) h h' /\ num h' z (n + n2) = (num h z (n + n2) + sg * num h x n) mod pw (n + n2)).
Proof.
  intros HVV HVW Hh Hz Hx -> Hn Hle Hlx Ha. set (n2 := n >>. 1) in *. assert (Hn2 : 0 <= n2) by (by apply Z.shiftr_nonneg).
  apply wp_bind, wp_slice_word; [done|done|cbn; lia|cbn; slices|]. cbn [from_option id]. apply wp_bind. assert (E0 : fCount (sub z 0 n) = n) by (cbn; lia).
  eapply wp_mono; [apply HVV; [slices|done|done|lia|lia|slices|slices]|]. rewrite E0. intros c h1 (Hg1 & Hf1 & Hc & E). rewrite E0 in *. rewrite num_sub_0 in E.
  assert (Hf1' : frame (win z 0 n) h h1) by (eapply frame_weaken; [exact Hf1|slices]). assert (Hz1 : wf h1 z) by (by eapply frame_wf).
  assert (Ehi : num h1 (sub z n (n + n2)) n2 = num h (sub z n (n + n2)) n2) by (apply (num_frame_sub _ _ _ _ _ _ _ Hf1'); [done|slices]).
  pose proof (pw_pos (n + n2) ltac:(lia)) as Hp. destruct (Z.eqb_spec c 0) as [->|Hc0]; cbn [negb].
  - apply wp_ret. split; [done|]. split; [eapply frame_weaken; [exact Hf1'|slices]|].
    rewrite <- (Z.mod_small (num h1 z (n + n2)) (pw (n + n2))) by (apply num_bound; [apply Hg1|lia]). f_equal.
    rewrite (num_cut h1 z n (n + n2) (n + n2)), (num_cut h z n (n + n2) (n + n2)) by lia. replace (n + n2 - n) with n2 by lia. lia.
  - assert (c = 1) as -> by lia. apply wp_bind, wp_slice_word; [done|done|cbn; lia|cbn; slices|]. cbn [from_option id].
    apply wp_bind, wp_slice_word; [done|done|cbn; lia|cbn; slices|]. cbn [from_option id]. apply wp_bind. assert (E1 : fCount (sub z n (n + n2)) = n2) by (cbn; lia).
    eapply wp_mono; [apply HVW; [done|slices|slices|cbn; lia|slices|unfold is_uint; lia]|]. rewrite E1. intros c' h2 (Hg2 & Hf2 & _ & _ & E2). rewrite E1 in *. apply wp_ret.
    assert (Hf2' : frame (win z n (n + n2)) h1 h2) by (eapply frame_weaken; [exact Hf2|slices]).
    split; [done|]. split; [apply (frame_join z 0 n (n + n2) h h1 h2); [done|done|lia]|].
    apply (Z.mod_unique _ _ (sg * c')); [left; apply num_bound; [apply Hg2|lia]|].
    rewrite (num_cut h2 z n (n + n2) (n + n2)), (num_cut h z n (n + n2) (n + n2)), pw_add by lia. replace (n + n2 - n) with n2 by lia.
    rewrite (num_frame _ _ _ _ n Hf2') by (done || slices). change (num h1 (sub z n (fCount z)) n2) with (num h1 (sub z n (n + n2)) n2) in E2. rewrite Ehi in E2.
    transitivity (num h z n + sg * num h x n + pw n * num h (sub z n (n + n2)) n2); [ring|]. rewrite <- E.
    transitivity (num h1 z n + pw n * (num h (sub z n (n + n2)) n2 + sg * 1)); [ring|]. rewrite <- E2. ring.
Qed.

Lemma karatsubaAdd_spec h z x n n2 : good h -> wf h z -> wf h x -> n2 = n >>. 1 -> 0 <= n -> n + n2 <= fCount z -> n <= fCount x -> (fArray z = fArray x -> fStart z + n + n2 <= fStart x) ->
  wp (karatsubaAdd z x n) h (λ _ h', good h' /\ frame (win z 0 (n + n2)) h h' /\ num h' z (n + n2) = (num h z (n + n2) + 1 * num h x n) mod pw (n + n2)).
Proof.
  intros Hh. apply karatsuba_add_spec; [| |done].
  - intros. eapply wp_mono; [by apply addVV_spec|]. intros c h' (? & ? & ? & ?). repeat (split; [done|]). lia.
  - intros. eapply wp_mono; [by apply addVW_spec|]. intros c h' (? & ? & ? & ? & ?). repeat (split; [done|]). lia.
Qed.

Lemma karatsubaSub_spec h z x n n2 : good h -> wf h z -> wf h x -> n2 = n >>. 1 -> 0 <= n -> n + n2 <= fCount z -> n <= fCount x -> (fArray z = fArray x -> fStart z + n + n2 <= fStart x) ->
  wp (karatsubaSub z x n) h (λ _ h', good h' /\ frame (win z 0 (n + n2)) h h' /\ num h' z (n + n2) = (num h z (n + n2) + -1 * num h x n) mod pw (n + n2)).
Proof.
  intros Hh. apply karatsuba_add_spec; [| |done].
  - intros. eapply wp_mono; [by apply subVV_spec|]. intros c h' (? & ? & ? & ?). repeat (split; [done|]). lia.
  - intros. eapply wp_mono; [by apply subVW_spec|]. intros c h' (? & ? & ? & ? & ?). repeat (split; [done|]). lia.
Qed.

Lemma absolute_difference_spec h d a b s : good h -> wf h d -> wf h a -> wf h b -> fCount d <= fCount a -> fCount d <= fCount b -> apart d a -> apart d b -> s = 1 \/ s = -1 ->
  wp (absolute_difference d a b s) h (λ s' h', good h' /\ frame (win d 0 (fCount d)) h h' /\ (s' = 1 \/ s' = -1) /\
    s' * num h' d (fCount d) = s * (num h a (fCount d) - num h b (fCount d))).
Proof.
  intros Hh Hd Ha Hb Hla Hlb Aa Ab Hs. pose proof (wf_len _ _ Hd) as Hn. unfold absolute_difference. apply wp_bind. eapply wp_mono; [apply subVV_spec; [done|done|done|done|done|done|slices|slices]|].
  intros c h1 (Hg1 & Hf1 & Hc & E). set (n := fCount d) in *. destruct (Z.eqb_spec c 0) as [->|Hc0]; cbn [negb].
  - apply wp_ret. split; [done|]. split; [done|]. split; [done|]. rewrite <- E. ring.
  - assert (c = 1) as -> by lia. apply wp_bind. eapply wp_mono; [apply subVV_spec; [done|by eapply frame_wf|by eapply frame_wf|by eapply frame_wf|done|done|slices|slices]|].
    fold n. intros c2 h2 (Hg2 & Hf2 & Hc2 & E2). fold n in Hf2, E2. apply wp_ret. split; [done|]. split; [eapply frame_step; [exact Hf1|exact Hf2|done]|]. split; [lia|].
    rewrite (num_frame _ _ _ b n Hf1), (num_frame _ _ _ a n Hf1) in E2 by (done || slices).
    pose proof (num_bound h1 d n (proj2 Hg1) Hn). pose proof (num_bound h2 d n (proj2 Hg2) Hn). pose proof (pw_pos n Hn). assert (c2 = 0) as -> by nia.
    transitivity (- s * (num h2 d n - 0 * pw n)); [ring|]. rewrite E2. ring.
Qed.

End Multiply.

(** ** Karatsuba *)

Section Karatsuba.
Implicit Types (h : words) (z x y r t p : nat_).

(** The last part: copying the two products aside and adding up. *)
Lemma karatsuba_sums h z n n2 s P Z0 Z2 W : good h -> wf h z -> n = 2 * n2 -> n2 = n >>. 1 -> 0 < n2 -> 6 * n <= fCount z -> s = 1 \/ s = -1 ->
  num h z n = Z0 -> num h (sub z n 0) n = Z2 -> num h (sub z (n * 3) 0) n = P ->
  Z2 * pw n + (Z0 + Z2 + s * P) * pw n2 + Z0 = W -> 0 <= W < pw (2 * n) ->
  wp (r ← slice_ z (Some (n * 4)) None;
      zr ← slice_ z None (Some (n * 2));
      copy r zr;;
      zm ← slice_ z (Some n2) None;
      karatsubaAdd zm r n;;
      rn ← slice_ r (Some n) None;
      karatsubaAdd zm rn n;;
      if 0 <? s then karatsubaAdd zm (sub z (n * 3) (fCount z)) n else karatsubaSub zm (sub z (n * 3) (fCount z)) n) h
    (λ _ h', good h' /\ frame (win z 0 (fCount z)) h h' /\ num h' z (2 * n) = W).
Proof.
  intros Hh Hz En En2 Hn2 Hle Hs E0 E2 EP EW HW. set (C := fCount z) in *.
  apply wp_bind, wp_slice_word; [done|done|cbn; lia|cbn; slices|]. cbn [from_option id]. fold C.
  apply wp_bind, wp_slice_word; [done|done|cbn; lia|cbn; slices|]. cbn [from_option id]. apply wp_bind.
  apply (wp_copy_words h (sub z (n * 4) C) (sub z 0 (n * 2)) (n * 2)); [done|slices|slices|slices|cbn; lia|]. intros h1 Hg1 Hf1 Ec.
  assert (Hf1' : frame (win z (n * 4) (n * 6)) h h1) by (eapply frame_weaken; [exact Hf1|slices]). assert (Hz1 : wf h1 z) by (by eapply frame_wf).
  assert (Er : num h1 (sub z (n * 4) C) n = Z0).
  { rewrite <- E0. apply num_ext. intros j Hj. rewrite Ec by lia. by rewrite word_sub, Z.add_0_l. }
  assert (Ern : num h1 (sub (sub z (n * 4) C) n (C - n * 4)) n = Z2).
  { rewrite <- E2. apply num_ext. intros j Hj. rewrite word_sub, Ec by lia. by rewrite !word_sub, Z.add_0_l. }
  apply wp_bind, wp_slice_word; [done|done|cbn; lia|cbn; slices|]. cbn [from_option id]. fold C. set (U := num h1 (sub z n2 C) (n + n2)). set (L0 := num h1 z n2).
  assert (EU : L0 + pw n2 * U = Z0 + pw n * Z2).
  { unfold U, L0. transitivity (num h1 z (n2 + (n + n2))); [symmetry; apply num_split; lia|]. rewrite (num_frame _ _ _ _ _ Hf1') by (done || slices).
    replace (n2 + (n + n2)) with (n + n) by lia. rewrite (num_split h z n n 0) by lia. by rewrite E0, E2. }
  apply wp_bind. eapply wp_mono; [apply (karatsubaAdd_spec h1 _ _ n n2); [done|slices|slices|done|lia|cbn; lia|cbn; lia|slices]|].
  intros _ h2 (Hg2 & Hf2 & Ea). assert (Hf2' : frame (win z n2 (2 * n)) h1 h2) by (eapply frame_weaken; [exact Hf2|slices]). assert (Hz2 : wf h2 z) by (by eapply frame_wf).
  assert (Hzr2 : wf h2 (sub z (n * 4) C)) by (eapply frame_wf; [exact Hf2'|slices]).
  apply wp_bind, wp_slice_word; [done|done|cbn; lia|cbn; slices|]. cbn [from_option id]. change (fCount (sub z (n * 4) C)) with (C - n * 4). apply wp_bind.
  eapply wp_mono; [apply (karatsubaAdd_spec h2 _ _ n n2); [done|slices|slices|done|lia|cbn; lia|cbn; lia|slices]|].
  intros _ h3 (Hg3 & Hf3 & Eb). assert (Hf3' : frame (win z n2 (2 * n)) h2 h3) by (eapply frame_weaken; [exact Hf3|slices]). assert (Hz3 : wf h3 z) by (by eapply frame_wf).
  rewrite (num_frame _ _ _ (sub (sub z (n * 4) C) n (C - n * 4)) n Hf2'), Ern in Eb by slices.
  assert (Ep : num h3 (sub z (n * 3) C) n = P).
  { rewrite <- EP. change (num h (sub z (n * 3) 0) n) with (num h (sub z (n * 3) C) n).
    rewrite (num_frame _ _ _ _ _ Hf3'), (num_frame _ _ _ _ _ Hf2'), (num_frame _ _ _ _ _ Hf1') by slices. done. }
  assert (Hlast : wp (if 0 <? s then karatsubaAdd (sub z n2 C) (sub z (n * 3) C) n else karatsubaSub (sub z n2 C) (sub z (n * 3) C) n) h3
    (λ _ h', good h' /\ frame (win (sub z n2 C) 0 (n + n2)) h3 h' /\ num h' (sub z n2 C) (n + n2) = (num h3 (sub z n2 C) (n + n2) + s * P) mod pw (n + n2))).
  { rewrite <- Ep. destruct Hs as [->| ->]; cbn [Z.ltb Z.compare]; [apply karatsubaAdd_spec|apply karatsubaSub_spec]; (done || slices || cbn; lia). }
  eapply wp_mono; [exact Hlast|]. intros _ h4 (Hg4 & Hf4 & Ed). assert (Hf4' : frame (win z n2 (2 * n)) h3 h4) by (eapply frame_weaken; [exact Hf4|slices]).
  split; [done|]. split.
  { eapply frame_step; [eapply frame_step; [eapply frame_step; [eapply frame_weaken; [exact Hf1'|slices]|exact Hf2'|slices]|exact Hf3'|slices]|exact Hf4'|slices]. }
  rewrite (num_cut h4 z n2 (2 * n) C) by lia. replace (2 * n - n2) with (n + n2) by lia. rewrite Ed, Eb, Ea, Er. fold U.
  rewrite (num_frame _ _ _ z n2 Hf4'), (num_frame _ _ _ z n2 Hf3'), (num_frame _ _ _ z n2 Hf2') by (done || slices). fold L0.
  set (M := pw (n + n2)). assert (HM : 0 < M) by (apply pw_pos; lia). rewrite Z.add_mod_idemp_l, <- (Z.add_assoc _ (1 * Z2)), Z.add_mod_idemp_l by lia. pose proof (num_bound h1 z n2 (proj2 Hg1) ltac:(lia)) as HL. fold L0 in HL.
  pose proof (pw_pos n2 ltac:(lia)) as Hp. assert (EM : pw (2 * n) = pw n2 * M) by (unfold M; rewrite <- pw_add by lia; f_equal; lia).
  set (V := U + 1 * Z0 + (1 * Z2 + s * P)). assert (EV : L0 + pw n2 * V = W).
  { transitivity (L0 + pw n2 * U + pw n2 * (Z0 + Z2 + s * P)); [unfold V; ring|]. rewrite EU, <- EW. ring. }
  rewrite Z.mod_small; [exact EV|]. rewrite EM in HW. nia.
Qed.

Lemma even_half n : n &. 1 = 0 -> 0 <= n -> n = 2 * (n >>. 1) /\ 0 <= n >>. 1.
Proof.
  intros E Hn. change 1 with (Z.ones 1) in E at 1. rewrite Z.land_ones in E by lia. rewrite Z.shiftr_div_pow2 by lia. change (2 ^ 1) with 2 in *.
  pose proof (Z.div_mod n 2 ltac:(lia)). lia.
Qed.

Lemma karatsuba_spec fuel : forall h z x y n, good h -> wf h z -> wf h x -> wf h y -> fCount x = n -> fCount y = n -> 6 * n <= fCount z -> n < Z.of_nat fuel ->
  apart z x -> apart z y ->
  wp (karatsuba fuel z x y) h (λ _ h', good h' /\ frame (win z 0 (fCount z)) h h' /\ num h' z (2 * n) = num h x n * num h y n).
Proof.
  induction fuel as [|fuel IH]; intros h z x y n Hh Hz Hx Hy Ex Ey Hle Hf Hax Hay; [pose proof (wf_len _ _ Hx); lia|]. cbn [karatsuba].
  apply wp_bind, wp_len; [done..|]. rewrite Ey. assert (Hn0 : 0 <= n) by (rewrite <- Ex; by eapply wf_len).
  destruct (negb (n &. 1 =? 0) || (n <? karatsubaThreshold) || (n <? 2)) eqn:Eb.
  { eapply wp_mono; [apply basicMul_spec; [done|done|done|done|lia|done|done]|]. rewrite Ex, Ey. intros _ h' (Hg & Hf' & E). split; [done|].
    split; [eapply frame_weaken; [exact Hf'|slices]|]. by replace (2 * n) with (n + n) by lia. }
  apply orb_false_iff in Eb as [[Eev Eth]%orb_false_iff E2%Z.ltb_ge]. apply negb_false_iff, Z.eqb_eq in Eev. clear Eth.
  destruct (even_half n Eev Hn0) as [En Hh2]. set (n2 := n >>. 1) in *. set (C := fCount z) in *.
  do 4 (apply wp_bind, wp_slice_word; [done|done|cbn; lia|cbn; slices|]; cbn [from_option id]). rewrite Ex, Ey.
  set (X0 := num h x n2). set (X1 := num h (sub x n2 n) n2). set (Y0 := num h y n2). set (Y1 := num h (sub y n2 n) n2).
  assert (EX : num h x n = X0 + pw n2 * X1) by (rewrite (num_cut h x n2 n n) by lia; by replace (n - n2) with n2 by lia).
  assert (EY : num h y n = Y0 + pw n2 * Y1) by (rewrite (num_cut h y n2 n n) by lia; by replace (n - n2) with n2 by lia).
  apply wp_bind. eapply wp_mono; [apply (IH h z (sub x 0 n2) (sub y 0 n2) n2); [done|done|slices|slices|cbn; lia|cbn; lia|lia|lia|slices|slices]|].
  intros _ h1 (Hg1 & Hf1 & E1). rewrite !num_sub_0 in E1. fold X0 Y0 in E1. replace (2 * n2) with n in E1 by lia.
  assert (Hz1 : wf h1 z) by (by eapply frame_wf). assert (Hx1 : wf h1 x) by (by eapply frame_wf). assert (Hy1 : wf h1 y) by (by eapply frame_wf).
  apply wp_bind, wp_slice_word; [done|done|cbn; lia|cbn; slices|]. cbn [from_option id]. fold C. apply wp_bind.
  eapply wp_mono; [apply (IH h1 (sub z n C) (sub x n2 n) (sub y n2 n) n2); [done|slices|slices|slices|cbn; lia|cbn; lia|cbn; lia|lia|slices|slices]|].
  intros _ h2 (Hg2 & Hf2 & E2'). replace (2 * n2) with n in E2' by lia. assert (Hf2' : frame (win z n C) h1 h2) by (eapply frame_weaken; [exact Hf2|slices]).
  rewrite !(num_frame_sub _ _ _ _ _ _ _ Hf1) in E2' by (done || slices). fold X1 Y1 in E2'.
  assert (Hf02 : frame (win z 0 C) h h2) by (eapply frame_step; [exact Hf1|exact Hf2'|slices]). assert (Hz2 : wf h2 z) by (by eapply frame_wf).
  assert (Hx2 : wf h2 x) by (by eapply frame_wf). assert (Hy2 : wf h2 y) by (by eapply frame_wf).
  apply wp_bind, wp_slice_word; [done|done|cbn; lia|cbn; slices|]. cbn [from_option id]. set (xd := sub z (2 * n) (2 * n + n2)). assert (Exd : fCount xd = n2) by (cbn; lia).
  apply wp_bind. eapply wp_mono; [apply (absolute_difference_spec h2 xd (sub x n2 n) (sub x 0 n2) 1); [done|slices|slices|slices|cbn; lia|cbn; lia|slices|slices|by left]|].
  rewrite Exd, num_sub_0. intros s1 h3 (Hg3 & Hf3 & Hs1 & E3).
  rewrite !(num_frame_sub _ _ _ _ _ _ _ Hf02), !(num_frame _ _ _ _ _ Hf02) in E3 by (done || slices). fold X0 X1 in E3.
  assert (Hf3' : frame (win z (2 * n) (2 * n + n2)) h2 h3) by (eapply frame_weaken; [exact Hf3|slices]). assert (Hz3 : wf h3 z) by (by eapply frame_wf).
  assert (Hy3 : wf h3 y) by (by eapply frame_wf).
  apply wp_bind, wp_slice_word; [done|done|cbn; lia|cbn; slices|]. cbn [from_option id]. set (yd := sub z (2 * n + n2) (3 * n)). assert (Eyd : fCount yd = n2) by (cbn; lia).
  apply wp_bind. eapply wp_mono; [apply (absolute_difference_spec h3 yd (sub y 0 n2) (sub y n2 n) s1); [done|slices|slices|slices|cbn; lia|cbn; lia|slices|slices|done]|].
  rewrite Eyd, num_sub_0. intros s2 h4 (Hg4 & Hf4 & Hs2 & E4).
  rewrite !(num_frame_sub _ _ _ _ _ _ _ Hf3'), !(num_frame _ _ _ _ _ Hf3') in E4 by (done || slices).
  rewrite !(num_frame_sub _ _ _ _ _ _ _ Hf02), !(num_frame _ _ _ _ _ Hf02) in E4 by (done || slices). fold Y0 Y1 in E4.
  assert (Hf4' : frame (win z (2 * n + n2) (3 * n)) h3 h4) by (eapply frame_weaken; [exact Hf4|slices]). assert (Hz4 : wf h4 z) by (by eapply frame_wf).
  apply wp_bind, wp_slice_word; [done|done|cbn; lia|cbn; slices|]. cbn [from_option id]. fold C. set (p := sub z (n * 3) C).
  apply wp_bind. eapply wp_mono; [apply (IH h4 p xd yd n2); [done|unfold p; slices|unfold xd; slices|unfold yd; slices|done|done|cbn; lia|lia|unfold p, xd; slices|unfold p, yd; slices]|].
  intros _ h5 (Hg5 & Hf5 & E5). replace (2 * n2) with n in E5 by lia. assert (Hf5' : frame (win z (n * 3) C) h4 h5) by (eapply frame_weaken; [exact Hf5|unfold p; slices]).
  assert (Hz5 : wf h5 z) by (by eapply frame_wf). assert (Exd4 : num h4 xd n2 = num h3 xd n2) by (apply (num_frame _ _ _ _ _ Hf4'); unfold xd; slices). rewrite Exd4 in E5.
  assert (Hf25 : frame (win z (2 * n) C) h2 h5) by (eapply frame_step; [eapply frame_step; [eapply frame_weaken; [exact Hf3'|slices]|exact Hf4'|slices]|exact Hf5'|slices]).
  pose proof (pw_pos n2 ltac:(lia)) as Hp2. pose proof (num_bound h x n (proj2 Hh) Hn0) as Hbx. pose proof (num_bound h y n (proj2 Hh) Hn0) as Hby.
  eapply wp_mono; [apply (karatsuba_sums h5 z n n2 s2 (num h3 xd n2 * num h4 yd n2) (X0 * Y0) (X1 * Y1) (num h x n * num h y n)); [done|done|done|done|lia|done|done| | | | | ]|].
  - rewrite (num_frame _ _ _ _ _ Hf25) by (done || slices). rewrite (num_frame _ _ _ _ _ Hf2') by (done || slices). exact E1.
  - rewrite (num_frame_sub _ _ _ _ _ _ _ Hf25) by (done || slices). exact E2'.
  - exact E5.
  - rewrite EX, EY. replace (pw n) with (pw n2 * pw n2) by (rewrite <- pw_add by lia; f_equal; lia).
    assert (Es : s2 * (num h3 xd n2 * num h4 yd n2) = (X1 - X0) * (Y0 - Y1)).
    { transitivity (num h3 xd n2 * (s2 * num h4 yd n2)); [ring|]. rewrite E4. transitivity (s1 * num h3 xd n2 * (Y0 - Y1)); [ring|]. rewrite E3. ring. }
    rewrite Es. ring.
  - replace (pw (2 * n)) with (pw n * pw n) by (rewrite <- pw_add by lia; f_equal; lia). nia.
  - intros _ h' (Hg & Hf' & E). split; [done|]. split; [|exact E]. eapply frame_trans; [exact Hf02|]. eapply frame_trans; [eapply frame_weaken; [exact Hf25|slices]|exact Hf'].
Qed.

End Karatsuba.

(** ** Adding a product at its place *)

Section Places.
Implicit Types (h : words) (z x y r t : nat_).

Lemma addAt_spec h z x i : good h -> wf h z -> wf h x -> 0 <= i -> i + fCount x <= fCount z -> apart z x ->
  wp (addAt z x i) h (λ _ h', good h' /\ frame (win z 0 (fCount z)) h h' /\
    num h' z (fCount z) = (num h z (fCount z) + num h x (fCount x) * pw i) mod pw (fCount z)).
Proof.
  intros Hh Hz Hx Hi Hle Ha. pose proof (wf_len _ _ Hx). pose proof (wf_len _ _ Hz). unfold addAt. apply wp_bind, wp_len; [done..|].
  set (n := fCount x) in *. set (L := fCount z) in *. pose proof (pw_pos L ltac:(lia)) as HL.
  pose proof (num_bound h z L (proj2 Hh) ltac:(lia)) as Hb. destruct (Z.ltb_spec 0 n) as [Hn|Hn].
  2:{ apply wp_ret. split; [done|]. split; [apply frame_refl|]. replace n with 0 by lia. by rewrite num_0, Z.mul_0_l, Z.add_0_r, Z.mod_small. }
  apply wp_bind, wp_slice_word; [done|done|cbn; lia|cbn; slices|]. apply wp_bind, wp_slice_word; [done|done|cbn; lia|cbn; slices|]. cbn [from_option id]. fold L.
  set (z1 := sub z i (i + n)). assert (E1 : fCount z1 = n) by (cbn; lia). apply wp_bind.
  eapply wp_mono; [apply (addVV_spec h z1 (sub z i L) x); [done|slices|slices|done|cbn; lia|lia|slices|slices]|]. rewrite E1.
  intros c h1 (Hg1 & Hf1 & Hc & E). rewrite E1 in *. change (num h (sub z i L) n) with (num h z1 n) in E.
  assert (Hf1' : frame (win z i (i + n)) h h1) by (eapply frame_weaken; [exact Hf1|slices]). assert (Hz1 : wf h1 z) by (by eapply frame_wf).
  assert (Ev : num h1 z (i + n) + c * pw (i + n) = num h z (i + n) + num h x n * pw i).
  { rewrite (num_cut h1 z i (i + n) (i + n)), (num_cut h z i (i + n) (i + n)), (pw_add i n) by lia. fold z1. replace (i + n - i) with n by lia. rewrite (num_frame _ _ _ _ i Hf1') by (done || slices).
    transitivity (num h z i + pw i * (num h1 z1 n + c * pw n)); [ring|]. rewrite E. ring. }
  assert (Ehi : forall j k, num h1 (sub z (i + n) j) (L - (i + n)) = num h (sub z (i + n) k) (L - (i + n))) by (intros j k; apply (num_frame_sub _ _ _ _ _ j _ Hf1'); [done|slices]).
  assert (Hdone : forall c', c' = 0 \/ i + n = L -> c' = c -> num h1 z L = (num h z L + num h x n * pw i) mod pw L).
  { intros c' Hc' ->. apply (Z.mod_unique _ _ c); [left; apply num_bound; [apply Hg1|lia]|]. rewrite (num_cut h1 z (i + n) L L), (num_cut h z (i + n) L L), (Ehi L L) by lia.
    destruct Hc' as [->|<-]; lia. }
  destruct (Z.eqb_spec c 0) as [Hc0|Hc0]; cbn [negb].
  { apply wp_ret. split; [done|]. split; [eapply frame_weaken; [exact Hf1'|slices]|]. by apply (Hdone c); [left|]. }
  assert (c = 1) as -> by lia. apply wp_bind, wp_len; [done..|]. fold L. destruct (Z.ltb_spec (i + n) L) as [Hlt|Hge].
  2:{ apply wp_ret. split; [done|]. split; [eapply frame_weaken; [exact Hf1'|slices]|]. by apply (Hdone 1); [right; lia|]. }
  apply wp_bind, wp_slice_word; [done|done|cbn; lia|cbn; slices|]. cbn [from_option id]. fold L. set (z3 := sub z (i + n) L). assert (E3 : fCount z3 = L - (i + n)) by done.
  apply wp_bind. eapply wp_mono; [apply (addVW_spec h1 z3 z3 1); [done|slices|slices|lia|slices|unfold is_uint; lia]|]. rewrite E3. intros c' h2 (Hg2 & Hf2 & _ & _ & E2). rewrite E3 in *. apply wp_ret.
  assert (Hf2' : frame (win z (i + n) L) h1 h2) by (eapply frame_weaken; [exact Hf2|slices]).
  split; [done|]. split; [eapply frame_step; [eapply frame_weaken; [exact Hf1'|slices]|exact Hf2'|slices]|].
  apply (Z.mod_unique _ _ c'); [left; apply num_bound; [apply Hg2|lia]|]. rewrite (num_cut h2 z (i + n) L L), (num_cut h z (i + n) L L) by lia. fold z3.
  rewrite (num_frame _ _ _ _ (i + n) Hf2') by (done || slices). rewrite (Ehi L L : num h1 z3 _ = num h z3 _) in E2.
  replace (pw L) with (pw (i + n) * pw (L - (i + n))) by (rewrite <- pw_add by lia; f_equal; lia).
  transitivity (num h z (i + n) + num h x n * pw i + pw (i + n) * num h z3 (L - (i + n))); [ring|]. rewrite <- Ev.
  transitivity (num h1 z (i + n) + pw (i + n) * (num h z3 (L - (i + n)) + 1)); [ring|]. rewrite <- E2. ring.
Qed.

Lemma karatsubaLen_loop_spec fuel : forall n i thr, 0 < thr -> 0 < n < Z.of_nat fuel -> 0 <= i ->
  exists m j, karatsubaLen_loop fuel n i thr = Val (m, j) /\ 0 < m /\ i <= j /\ m * 2 ^ (j - i) <= n.
Proof.
  induction fuel as [|fuel IH]; intros n i thr Ht Hn Hi; [lia|]. cbn [karatsubaLen_loop]. destruct (Z.ltb_spec thr n) as [Hlt|Hge].
  - rewrite Z.shiftr_div_pow2 by lia. change (2 ^ 1) with 2. pose proof (Z.div_mod n 2 ltac:(lia)). pose proof (Z.mod_pos_bound n 2 ltac:(lia)).
    destruct (IH (n / 2) (i + 1) thr) as (m & j & E & Hm & Hj & Hle); [done|lia|lia|]. exists m, j. split; [done|]. split; [done|]. split; [lia|].
    replace (j - i) with (j - (i + 1) + 1) by lia. rewrite Z.pow_add_r by lia. lia.
  - exists n, i. split; [done|]. split; [lia|]. split; [lia|]. rewrite Z.sub_diag. lia.
Qed.

(** The pieces are not empty and not longer than the operand. *)
Lemma karatsubaLen_spec n thr : 0 < thr -> 0 < n -> exists k, karatsubaLen n thr = Val k /\ 0 < k <= n.
Proof.
  intros Ht Hn. unfold karatsubaLen. destruct (karatsubaLen_loop_spec (S (Z.to_nat n)) n 0 thr) as (m & j & -> & Hm & Hj & Hle); [done|lia|done|].
  cbn [mbind outcome_bind]. eexists. split; [done|]. rewrite Z.sub_0_r in Hle. rewrite Z.shiftl_mul_pow2 by lia. assert (0 < 2 ^ j) by (apply Z.pow_pos_nonneg; lia). nia.
Qed.

End Places.

(** ** Multiplying numbers *)

Section Product.
Implicit Types (h : words) (z x y r t : nat_).

Lemma nat_length h r v k : good h -> nat_is h r v -> v < pw k -> 0 <= k -> fCount r <= k.
Proof.
  intros [_ Hw] (Hr & <- & Ht) Hv Hk. destruct (Z.leb_spec (fCount r) k) as [|Hlt]; [done|]. pose proof (num_top h r (fCount r) Hw ltac:(lia) (Ht ltac:(lia))).
  pose proof (pw_le k (fCount r - 1) ltac:(lia)). lia.
Qed.

(** The temporary of the source: nil, or in an array allocated on the way. *)
Definition scratch h (L : nat) t : Prop := wf h t /\ (t = fZero \/ (L <= fArray t)%nat).
Definition beyond (L : nat) : nat -> Z -> Prop := λ a _, (L <= a)%nat.

Lemma cell_empty h i : heap_ok h -> cell h EmptyArray i = None.
Proof. intros [_ E]. rewrite cell_slot. unfold slot. rewrite E. by case_decide. Qed.

Lemma frame_scratch h h' L t : good h -> scratch h L t -> frame (all_of (fArray t)) h h' -> frame (beyond L) h h'.
Proof.
  intros [Hh _] (_ & Ht) Hf. pose proof (frame_ok _ _ _ Hf Hh) as Hh'. destruct Hf as [Hl Hf]. split; [done|]. intros a Ha. destruct (Hf a Ha) as [E Hc]. split; [done|].
  intros i Hi. destruct Ht as [->|Ht].
  - destruct (decide (a = EmptyArray)) as [->|Hne]; [by rewrite !cell_empty|]. by apply Hc.
  - apply Hc. intros ->. by apply Hi.
Qed.

Definition mul_ok (mulf : nat_ -> nat_ -> nat_ -> B nat_) (bound : Z) : Prop :=
  forall h z x y u v, good h -> wf h z -> nat_is h x u -> nat_is h y v -> coherent z x -> coherent z y ->
    2 * (fCount x + fCount y) + (if fCount x <? fCount y then 1 else 0) < bound -> wp (mulf z x y) h (result h z (u * v)).

(** A scratch vector shares no array with the operands. *)
Lemma scratch_coherent h L t c w : good h -> scratch h L t -> nat_is h c w -> (fArray c < L)%nat -> coherent t c.
Proof.
  intros Hh [_ Hloc] Hc Lc. destruct Hloc as [->|Hge]; [|slices]. intros E. cbn in E. by rewrite (nil_zero h c (good_ok _ Hh) (nat_wf _ _ _ Hc) (eq_sym E)).
Qed.

(** An operation whose result is in the scratch vector, which it returns. *)
Lemma wp_scratch (m : B nat_) h L t (w c : Z) : good h -> scratch h L t -> (L <= length h)%nat -> wp m h (result h t w) -> w < pw c -> 0 <= c ->
  wp m h (λ t' h', good h' /\ scratch h' L t' /\ nat_is h' t' w /\ frame (beyond L) h h' /\ fCount t' <= c).
Proof.
  intros Hh Hsc HL Hm Hw Hc. eapply wp_mono; [exact Hm|]. intros t' h' (Hg & Hf & Ht' & Hl). split; [done|]. split.
  - split; [by eapply nat_wf|]. destruct Hl as [[E1 E2]|[E1 _]]; [|right; lia]. destruct (proj2 Hsc) as [->|Hge]; [left|right; by rewrite E1].
    by apply (nil_zero h'); [apply good_ok|eapply nat_wf|].
  - split; [done|]. split; [by eapply (frame_scratch h h' L t)|]. by apply (nat_length h' t' w).
Qed.

Lemma nat_beyond h h' L x v : frame (beyond L) h h' -> nat_is h x v -> (fArray x < L)%nat -> nat_is h' x v.
Proof. intros Hf Hx HL. eapply nat_frame; [exact Hf|done|]. intros i _ Hb. unfold beyond in Hb. lia. Qed.

Lemma num_beyond h h' L x n : frame (beyond L) h h' -> wf h x -> (fArray x < L)%nat -> num h' x n = num h x n.
Proof. intros Hf Hx HL. apply (num_frame _ _ _ _ _ Hf Hx). intros i _ Hb. unfold beyond in Hb. lia. Qed.

(** The number in a scratch vector, added at its place. *)
Lemma add_scratch {A} h L z t i (w : Z) (K : B A) Q : good h -> scratch h L t -> wf h z -> (fArray z < L)%nat -> nat_is h t w -> 0 <= i -> i + fCount t <= fCount z ->
  (forall h', good h' -> frame (win z 0 (fCount z)) h h' -> num h' z (fCount z) = (num h z (fCount z) + w * pw i) mod pw (fCount z) -> wp K h' Q) ->
  wp (addAt z t i;; K) h Q.
Proof.
  intros Hg1 Ht1 Hz1 Lz Hn1 Hi Hle HK. pose proof (nat_wf _ _ _ Hn1) as Htw. apply wp_bind. eapply wp_mono; [apply (addAt_spec h z t i); [done|done|done|done|lia|]|].
  { intros E. destruct Ht1 as [_ [->|Hge]]; [|lia]. destruct (good_ok _ Hg1) as [_ E0]. cbn in *. destruct Hz1 as (? & ? & ? & Hzl). rewrite E in Hzl. change (array h 0) with (array h EmptyArray) in Hzl.
    rewrite E0 in Hzl. cbn in Hzl. lia. }
  intros [] h2 (Hg2 & Hf2 & E). apply HK; [done|done|]. by rewrite E, (nat_value _ _ _ Hn1).
Qed.

(** The number that an operation leaves in the scratch vector, added at its place. *)
Lemma wp_piece (m : B nat_) h L z t i (w c : Z) (K : nat_ -> B unit) (Q : unit -> words -> Prop) : good h -> scratch h L t -> wf h z -> (fArray z < L)%nat -> (L <= length h)%nat ->
  wp m h (result h t w) -> w < pw c -> 0 <= c -> 0 <= i -> i + c <= fCount z ->
  (forall t' h', good h' -> scratch h' L t' -> frame (λ a i, beyond L a i \/ win z 0 (fCount z) a i) h h' ->
     num h' z (fCount z) = (num h z (fCount z) + w * pw i) mod pw (fCount z) -> wp (K t') h' Q) ->
  wp (t ← m; addAt z t i;; K t) h Q.
Proof.
  intros Hh Ht Hz Lz HL Hm Hw Hc Hi Hle HK. apply wp_bind. eapply wp_mono; [by apply (wp_scratch m h L t w c)|].
  intros t' h1 (Hg1 & Ht1 & Hn1 & Hf1 & Hlen). assert (Hz1 : wf h1 z) by (by eapply frame_wf). apply (add_scratch h1 L z t' i w); [done|done|done|done|done|done|lia|].
  intros h2 Hg2 Hf2 E. apply HK; [done| | |].
  - destruct Ht1 as [? ?]. split; [by eapply frame_wf|done].
  - eapply frame_step; [eapply frame_weaken; [exact Hf1|by left]|exact Hf2|by right].
  - by rewrite E, (num_beyond _ _ _ _ _ Hf1) by done.
Qed.

(** The product of a piece and a number. *)
Lemma piece_spec mulf bound h L z t a b i u v (K : nat_ -> B unit) (Q : unit -> words -> Prop) : mul_ok mulf bound -> good h -> scratch h L t -> wf h z -> nat_is h a u -> nat_is h b v ->
  (fArray a < L)%nat -> (fArray b < L)%nat -> (fArray z < L)%nat -> (L <= length h)%nat -> 2 * (fCount a + fCount b) + 1 < bound -> 0 <= i -> i + (fCount a + fCount b) <= fCount z ->
  (forall t' h', good h' -> scratch h' L t' -> frame (λ a i, beyond L a i \/ win z 0 (fCount z) a i) h h' ->
     num h' z (fCount z) = (num h z (fCount z) + u * v * pw i) mod pw (fCount z) -> wp (K t') h' Q) ->
  wp (t ← mulf t a b; addAt z t i;; K t) h Q.
Proof.
  intros Hm Hh Ht Hz Ha Hb La Lb Lz HL Hbd Hi Hle HK. pose proof (nat_bound _ _ _ Hh Ha). pose proof (nat_bound _ _ _ Hh Hb).
  pose proof (wf_len _ _ (nat_wf _ _ _ Ha)). pose proof (wf_len _ _ (nat_wf _ _ _ Hb)).
  apply (wp_piece (mulf t a b) h L z t i (u * v) (fCount a + fCount b)); [done|done|done|done|done| |rewrite pw_add by lia; nia|lia|done|done|done].
  apply Hm; [done|apply Ht|done|done|by eapply scratch_coherent|by eapply scratch_coherent|]. destruct (fCount a <? fCount b); lia.
Qed.

Lemma mul_pieces_spec mulf bound L k n v0 v1 fuel : forall h z t x y0 y1 i,
  mul_ok mulf bound -> good h -> scratch h L t -> wf h z -> wf h x -> nat_is h y0 v0 -> nat_is h y1 v1 ->
  (fArray x < L)%nat -> (fArray y0 < L)%nat -> (fArray y1 < L)%nat -> (fArray z < L)%nat -> (L <= length h)%nat ->
  fArray z <> fArray x -> fArray z <> fArray y0 -> fArray z <> fArray y1 ->
  0 < k <= n -> fCount y0 <= k -> fCount y1 = n - k -> fCount z = fCount x + n -> 2 * (k + k) + 1 < bound -> 2 * n + 1 < bound ->
  0 <= i -> Z.max 0 (fCount x - i) < Z.of_nat fuel ->
  num h z (fCount z) = (num h x (Z.min i (fCount x)) * (v0 + v1 * pw k)) mod pw (fCount z) ->
  wp (mul_pieces mulf fuel z t x y0 y1 k i) h (λ _ h', good h' /\ frame (λ a i, beyond L a i \/ win z 0 (fCount z) a i) h h' /\
    num h' z (fCount z) = (num h x (fCount x) * (v0 + v1 * pw k)) mod pw (fCount z)).
Proof.
  induction fuel as [|fuel IH]; intros h z t x y0 y1 i Hm Hh Ht Hz Hx Hy0 Hy1 Lx L0 L1 Lz HL Nx N0 N1 Hk Hc0 Hc1 Hcz Hb1 Hb2 Hi Hf E; [lia|].
  cbn [mul_pieces]. apply wp_bind, wp_len; [done..|]. set (m := fCount x) in *. pose proof (wf_len _ _ Hx) as Hm0. fold m in Hm0.
  destruct (Z.ltb_spec i m) as [Him|Him].
  2:{ apply wp_ret. split; [done|]. split; [apply frame_refl|]. by rewrite Z.min_r in E by lia. }
  rewrite Z.min_l in E by lia. apply wp_bind, wp_slice_word; [done|done|cbn; lia|cbn; slices|]. cbn [from_option id]. fold m.
  assert (Hxi : wf h (sub x i m)) by slices. apply wp_bind, wp_len; [done..|]. set (c := Z.min k (m - i)). apply wp_bind.
  assert (Hcut : wp (if k <? fCount (sub x i m) then slice_ (sub x i m) None (Some k) else mret (sub x i m)) h (λ xi h', h' = h /\ wf h xi /\ fArray xi = fArray x /\ fStart xi = fStart x + i /\ fCount xi = c)).
  { cbn [sub fCount]. destruct (Z.ltb_spec k (m - i)) as [Hlt|Hge].
    - apply wp_slice_word; [done|done|cbn; lia|cbn; slices|]. cbn [from_option id]. split; [done|]. split; [slices|]. split; [done|]. unfold c. cbn. lia.
    - apply wp_ret. split; [done|]. split; [done|]. split; [done|]. unfold c. cbn. lia. }
  eapply wp_mono; [exact Hcut|]. clear Hcut. intros xi h0 (-> & Hxiw & Ea & Es & Ecn). destruct (norm_spec h xi Hh Hxiw) as (j & Hj & En & Hxn).
  apply wp_bind. eapply wp_of_val; [exact En|]. set (xn := sub xi 0 j) in *. rewrite Ecn in *. assert (Ecj : fCount xn <= c) by (cbn; lia).
  set (w := num h xi c) in *. assert (Ew : num h x (i + c) = num h x i + w * pw i).
  { rewrite (num_split h x i c 0) by lia. rewrite (num_ext h (sub x i 0) h xi c); [fold w; lia|]. intros q Hq. rewrite word_sub. unfold word, at_. rewrite Ea, Es. do 2 f_equal. lia. }
  assert (La : (fArray xn < L)%nat) by (cbn; by rewrite Ea). pose proof (wf_len _ _ (nat_wf _ _ _ Hy0)) as Hy0n.
  eapply piece_spec; [exact Hm|exact Hh|exact Ht|exact Hz|exact Hxn|exact Hy0|exact La|exact L0|exact Lz|exact HL|lia|lia|lia|]. intros t1 h1 Hg1 Ht1 Hf1 E1.
  assert (Hp : forall s, (fArray s < L)%nat -> fArray z <> fArray s -> forall q, ~ (beyond L (fArray s) q \/ win z 0 (fCount z) (fArray s) q)) by (intros s Hs1 Hs2 q [Hb|[Hb _]]; [unfold beyond in Hb; lia|by rewrite Hb in Hs2]).
  assert (Hx1 : nat_is h1 xn w) by (eapply nat_frame; [exact Hf1|done|]; intros q _; apply Hp; [done|cbn; by rewrite Ea]).
  assert (Hy1' : nat_is h1 y1 v1) by (eapply nat_frame; [exact Hf1|done|]; intros q _; by apply Hp).
  assert (Hz1 : wf h1 z) by (by eapply frame_wf). pose proof (frame_length _ _ _ Hf1) as Hl1.
  eapply piece_spec; [exact Hm|exact Hg1|exact Ht1|exact Hz1|exact Hx1|exact Hy1'|exact La|exact L1|exact Lz|lia|lia|lia|lia|]. intros t2 h2 Hg2 Ht2 Hf2 E2.
  assert (Hf02 : frame (λ a i, beyond L a i \/ win z 0 (fCount z) a i) h h2) by (by eapply frame_trans). pose proof (frame_length _ _ _ Hf2) as Hl2.
  assert (Hxw2 : wf h2 x) by (by eapply frame_wf).
  assert (Ex2 : forall q, num h2 x q = num h x q) by (intros q; apply (num_frame _ _ _ _ _ Hf02); [done|]; intros q' _; by apply Hp).
  eapply wp_mono; [apply (IH h2 z t2 x y0 y1 (i + k)); try done|].
  - by eapply frame_wf.
  - eapply nat_frame; [exact Hf02|done|]; intros q _; by apply Hp.
  - eapply nat_frame; [exact Hf02|done|]; intros q _; by apply Hp.
  - lia.
  - lia.
  - lia.
  - rewrite Ex2. fold m. replace (Z.min (i + k) m) with (i + c) by lia. rewrite E2, E1, E, Ew. pose proof (pw_pos (fCount z) ltac:(lia)). rewrite !Z.add_mod_idemp_l by lia. rewrite <- (Z.add_assoc _ (w * v0 * pw i)), Z.add_mod_idemp_l by lia.
    f_equal. rewrite pw_add by lia. ring.
  - intros [] h3 (Hg3 & Hf3 & E3). split; [done|]. split; [by eapply frame_trans|]. rewrite E3. by rewrite Ex2.
Qed.

End Product.

Section Mul.
Implicit Types (h : words) (z x y r t : nat_).

(** The place of a product: apart from the operands. *)
Lemma wp_place h z x y n (ax ay : bool) (Q : nat_ -> words -> Prop) : good h -> wf h z -> wf h x -> wf h y -> 0 < n ->
  (ax = false -> fArray z <> fArray x) -> (ay = false -> fArray z <> fArray y) -> 0 < fCount x -> 0 < fCount y ->
  (forall r h', good h' -> frame nowhere h h' -> wf h' r -> fCount r = n -> located h z r -> fArray r <> fArray x -> fArray r <> fArray y -> Q r h') ->
  wp (make_ (if ax || ay then fZero else z) n) h Q.
Proof.
  intros Hh Hz Hx Hy Hn Hax Hay Hcx Hcy HQ. pose proof (full_array h x (good_ok _ Hh) Hx Hcx). pose proof (full_array h y (good_ok _ Hh) Hy Hcy). destruct (ax || ay) eqn:E.
  - apply wp_make; [done|by apply zero_wf, good_ok|lia|]. intros r h' Hg Hf Hr Hc Hl. destruct Hl as [[El _]|[Hge E0]].
    + by destruct (full_array h' r (good_ok _ Hg) Hr ltac:(lia)).
    + apply HQ; [done|done|done|done|by right| |]; intros Ea; rewrite Ea in Hge; [destruct Hx|destruct Hy]; lia.
  - apply orb_false_iff in E as [-> ->]. apply wp_make; [done|done|lia|]. intros r h' Hg Hf Hr Hc Hl. apply HQ; [done|done|done|done|done| |].
    + destruct Hl as [[-> _]|[Hge _]]; [by apply Hax|]. intros Ea. rewrite Ea in Hge. destruct Hx; lia.
    + destruct Hl as [[-> _]|[Hge _]]; [by apply Hay|]. intros Ea. rewrite Ea in Hge. destruct Hy; lia.
Qed.

Lemma nat_high h y v k : nat_is h y v -> 0 <= k <= fCount y -> nat_is h (sub y k (fCount y)) (num h (sub y k 0) (fCount y - k)).
Proof.
  intros (Hy & _ & Ht) Hk. split; [by apply wf_sub_from|]. split; [done|]. cbn [sub fCount]. intros H0. rewrite word_sub. replace (k + (fCount y - k - 1)) with (fCount y - 1) by lia. apply Ht. lia.
Qed.

(** The upper part of the result is cleared. *)
Lemma cleared_above h z k N (K : nat_ -> B nat_) Q : good h -> wf h z -> 0 < k -> 2 * k <= N -> N <= fCount z ->
  (forall h', good h' -> frame (win z (2 * k) N) h h' -> num h' (sub z 0 N) N = num h z (2 * k) -> wp (K (sub z 0 N)) h' Q) ->
  wp (z1 ← slice_ z (Some 0) (Some N); zh ← slice_ z1 (Some (2 * k)) None; clear zh;; K z1) h Q.
Proof.
  intros Hg1 Hz1 Hk H2 HN HK. apply wp_bind, wp_slice_word; [done|done|cbn; lia|cbn; slices|]. cbn [from_option id]. assert (Hs : wf h (sub z 0 N)) by slices.
  apply wp_bind, wp_slice_word; [done|done|cbn; lia|cbn; slices|]. cbn [from_option id]. apply wp_bind. eapply wp_mono; [apply clear_spec; [done|slices]|].
  intros [] h2 (Hg2 & Hf2 & Ez). assert (Hf2' : frame (win z (2 * k) N) h h2) by (eapply frame_weaken; [exact Hf2|slices]).
  apply HK; [done|done|]. rewrite num_sub_0, (num_cut h2 z (2 * k) N 0) by lia.
  rewrite (num_zero h2 (sub z (2 * k) 0)); [|lia|].
  - rewrite (num_frame _ _ _ _ _ Hf2') by (done || slices). lia.
  - intros j Hj. specialize (Ez j). cbn [sub fCount] in Ez. specialize (Ez ltac:(lia)). rewrite !word_sub in *. by rewrite Z.add_0_l in Ez.
Qed.

(** The lower part of the result, and zeroes above. *)
Lemma karatsuba_low h z x y k N (K : nat_ -> B nat_) Q : good h -> wf h z -> wf h x -> wf h y -> 0 < k -> k <= fCount x -> k <= fCount y -> 6 * k <= fCount z -> 2 * k <= N -> N <= fCount z ->
  fArray z <> fArray x -> fArray z <> fArray y ->
  (forall h', good h' -> frame (all_of (fArray z)) h h' -> num h' (sub z 0 N) N = num h x k * num h y k -> wp (K (sub z 0 N)) h' Q) ->
  wp (karatsuba (S (Z.to_nat k)) z (sub x 0 k) (sub y 0 k);; z1 ← slice_ z (Some 0) (Some N); zh ← slice_ z1 (Some (2 * k)) None; clear zh;; K z1) h Q.
Proof.
  intros Hh Hz Hx Hy Hk Hkx Hky H6 H2 HN Nx Ny HK. apply wp_bind.
  eapply wp_mono; [apply (karatsuba_spec _ h z (sub x 0 k) (sub y 0 k) k); [done|done|slices|slices|cbn; lia|cbn; lia|lia|lia|slices|slices]|].
  intros [] h1 (Hg1 & Hf1 & E). rewrite !num_sub_0 in E. assert (Hz1 : wf h1 z) by (by eapply frame_wf). apply (cleared_above h1 z k N); [done|done|done|done|done|].
  intros h2 Hg2 Hf2 E2. apply HK; [done|eapply frame_step; [eapply frame_weaken; [exact Hf1|slices]|exact Hf2|slices]|by rewrite E2].
Qed.

(** The missing terms. *)
Lemma mul_terms fuel bound h L z x y u v k : mul_ok (mul_rec fuel) bound -> good h -> wf h z -> nat_is h x u -> nat_is h y v ->
  L = length h -> (fArray z < L)%nat -> fArray z <> fArray x -> fArray z <> fArray y -> 0 < k <= fCount y -> fCount y <= fCount x -> fCount z = fCount x + fCount y ->
  2 * (k + k) + 1 < bound -> 2 * fCount y + 1 < bound -> num h z (fCount z) = num h x k * num h y k ->
  wp (x0 ← norm (sub x 0 k); y1 ← slice_ y (Some k) None; t ← mul_rec fuel fZero x0 y1; addAt z t k;; y0 ← norm (sub y 0 k);
      mul_pieces (mul_rec fuel) (S (Z.to_nat (fCount x))) z t x y0 y1 k k) h
    (λ _ h', good h' /\ frame (λ a i, beyond L a i \/ win z 0 (fCount z) a i) h h' /\ num h' z (fCount z) = u * v).
Proof.
  intros Hm Hh Hz Hx Hy EL Lz Nx Ny Hk Hyx Hc Hb1 Hb2 E. pose proof (nat_wf _ _ _ Hx) as Hxw. pose proof (nat_wf _ _ _ Hy) as Hyw. set (m := fCount x) in *. set (n := fCount y) in *.
  assert (Lx : (fArray x < L)%nat) by (subst L; apply Hxw). assert (Ly : (fArray y < L)%nat) by (subst L; apply Hyw).
  assert (Hx0 : wf h (sub x 0 k)) by slices. destruct (norm_spec h (sub x 0 k) Hh Hx0) as (j & Hj & En & Hxn). cbn [sub fCount] in Hj. rewrite Z.sub_0_r in Hj.
  apply wp_bind. eapply wp_of_val; [exact En|]. clear En. change (fCount (sub x 0 k)) with (k - 0) in Hxn. rewrite Z.sub_0_r, num_sub_0 in Hxn.
  apply wp_bind, wp_slice_word; [done|done|cbn; lia|cbn; slices|]. cbn [from_option id]. fold n. pose proof (nat_high h y v k Hy ltac:(lia)) as Hy1. fold n in Hy1.
  set (v1 := num h (sub y k 0) (n - k)) in *. set (v0 := num h y k) in *. assert (Ev : v = v0 + v1 * pw k) by (rewrite <- (nat_value _ _ _ Hy); fold n; rewrite (num_cut h y k n 0) by lia; fold v0 v1; lia).
  pose proof (nat_bound _ _ _ Hh Hx) as Hub. pose proof (nat_bound _ _ _ Hh Hy) as Hvb. fold m in Hub. fold n in Hvb. pose proof (pw_pos (fCount z) ltac:(lia)) as HL.
  eapply (piece_spec (mul_rec fuel) bound h L z fZero _ _ k _ _ _ _ Hm Hh); [split; [by apply zero_wf, good_ok|by left]|done|exact Hxn|exact Hy1|done|done|done|lia|cbn; lia|lia|cbn; lia|].
  intros t h1 Hg1 Ht1 Hf1 E1. assert (Hp : forall s, (fArray s < L)%nat -> fArray z <> fArray s -> forall q, ~ (beyond L (fArray s) q \/ win z 0 (fCount z) (fArray s) q)) by (intros s Hs1 Hs2 q [Hb|[Hb _]]; [unfold beyond in Hb; lia|by rewrite Hb in Hs2]).
  assert (Hyw1 : wf h1 y) by (by eapply frame_wf). assert (Hxw1 : wf h1 x) by (by eapply frame_wf). assert (Hy0 : wf h1 (sub y 0 k)) by slices.
  destruct (norm_spec h1 (sub y 0 k) Hg1 Hy0) as (j' & Hj' & En & Hyn). cbn [sub fCount] in Hj'. rewrite Z.sub_0_r in Hj'. apply wp_bind. eapply wp_of_val; [exact En|]. clear En.
  change (fCount (sub y 0 k)) with (k - 0) in Hyn. rewrite Z.sub_0_r, num_sub_0 in Hyn. rewrite (num_frame _ _ _ _ _ Hf1) in Hyn by (done || (intros q _; by apply Hp)). fold v0 in Hyn.
  pose proof (frame_length _ _ _ Hf1) as Hl1.
  eapply wp_mono; [apply (mul_pieces_spec (mul_rec fuel) bound L k n v0 v1); [done|done|done|by eapply frame_wf|done|exact Hyn| |done|done|done|done|lia|done|done|done|lia|cbn; lia|cbn; lia|done|lia|lia|lia|fold m; lia| ]|].
  - eapply nat_frame; [exact Hf1|done|]. intros q _. by apply Hp.
  - fold m. rewrite Z.min_l by lia. rewrite E1, E. f_equal. rewrite (num_frame _ _ _ x _ Hf1) by (done || (intros q _; by apply Hp)). ring.
  - intros [] h2 (Hg2 & Hf2 & E2). split; [done|]. split; [by eapply frame_trans|]. rewrite E2. fold m. rewrite (num_frame _ _ _ x _ Hf1) by (done || (intros q _; by apply Hp)).
    rewrite <- Ev. pose proof (nat_value _ _ _ Hx) as Eu. fold m in Eu. rewrite Eu. apply Z.mod_small. rewrite Hc, pw_add by lia. nia.
Qed.

Lemma mul_rec_spec fuel : mul_ok (mul_rec fuel) (Z.of_nat fuel).
Proof.
  induction fuel as [|fuel IH]; intros h z x y u v Hh Hz Hx Hy Hcx Hcy Hf; pose proof (nat_wf _ _ _ Hx) as Hxw; pose proof (nat_wf _ _ _ Hy) as Hyw;
    pose proof (wf_len _ _ Hxw) as Hm0; pose proof (wf_len _ _ Hyw) as Hn0; [destruct (fCount x <? fCount y); lia|].
  cbn [mul_rec]. apply wp_bind, wp_len; [done..|]. apply wp_bind, wp_len; [done..|]. set (m := fCount x) in *. set (n := fCount y) in *.
  destruct (Z.ltb_spec m n) as [Hlt|Hge].
  { rewrite Z.mul_comm. apply IH; [done..|]. fold m n. rewrite (proj2 (Z.ltb_ge n m)) by lia. lia. }
  destruct ((m =? 0) || (n =? 0)) eqn:E0.
  { assert (u * v = 0) as ->; [|by apply zero_result]. apply orb_true_iff in E0 as [E0%Z.eqb_eq|E0%Z.eqb_eq];
      [assert (u = 0) as -> by (by apply (nat_zero h x))|assert (v = 0) as -> by (by apply (nat_zero h y))]; lia. }
  apply orb_false_iff in E0 as [Em%Z.eqb_neq En%Z.eqb_neq]. destruct (Z.eqb_spec n 1) as [E1|E1].
  { apply wp_bind, wp_word; [done|lia|]. replace (u * v) with (u * word h y 0 + 0); [apply mulAddWW_spec; [done|done|done|done|apply word_uint, Hh|unfold is_uint; lia]|].
    rewrite <- (nat_value _ _ _ Hy). fold n. rewrite E1, num_1. lia. }
  destruct (alias_val h z x Hh Hz Hxw ltac:(lia)) as (ax & Eax & Hax). destruct (alias_val h z y Hh Hz Hyw ltac:(lia)) as (ay & Eay & Hay).
  apply wp_bind. eapply wp_of_val; [exact Eax|]. apply wp_bind. eapply wp_of_val; [exact Eay|]. cbv zeta. destruct (Z.ltb_spec n karatsubaThreshold) as [Hth|Hth].
  - apply wp_bind. apply (wp_place h z x y (m + n) ax ay); [done|done|done|done|lia|done|done|lia|lia|]. intros r h1 Hg1 Hf1 Hr Hc Hl Nx Ny.
    assert (Hx1 : nat_is h1 x u) by (by eapply nat_nowhere). assert (Hy1 : nat_is h1 y v) by (by eapply nat_nowhere). apply wp_bind.
    eapply wp_mono; [apply (basicMul_spec h1 r x y); [done|done|by eapply nat_wf|by eapply nat_wf|fold m n; lia|slices|slices]|]. intros [] h2 (Hg2 & Hf2 & E). fold m n in E, Hf2.
    apply (wp_norm h h2 z r); [done|by eapply frame_wf| | |done].
    + rewrite Hc, E. pose proof (nat_value _ _ _ Hx1) as Eu. pose proof (nat_value _ _ _ Hy1) as Ev. fold m in Eu. fold n in Ev. by rewrite Eu, Ev.
    + eapply (frame_located h h1); [by apply frame_nowhere|exact Hl|exact Hf2|slices].
  - destruct (karatsubaLen_spec n karatsubaThreshold ltac:(done) ltac:(lia)) as (k & Ek & Hk). apply wp_bind. eapply wp_of_val; [by rewrite Ek|].
    apply wp_bind, wp_slice_word; [done|done|cbn; lia|cbn; slices|]. apply wp_bind, wp_slice_word; [done|done|cbn; lia|cbn; slices|]. cbn [from_option id].
    assert (Emax : max (6 * k) (m + n) = Z.max (6 * k) (m + n)) by (unfold max; destruct (Z.ltb_spec (m + n) (6 * k)); lia). rewrite Emax.
    apply wp_bind. apply (wp_place h z x y _ ax ay); [done|done|done|done|lia|done|done|lia|lia|]. intros r h1 Hg1 Hf1 Hr Hc Hl Nx Ny.
    assert (Hx1 : nat_is h1 x u) by (by eapply nat_nowhere). assert (Hy1 : nat_is h1 y v) by (by eapply nat_nowhere).
    eapply (karatsuba_low h1 r x y k (m + n)); [done|done|by eapply nat_wf|by eapply nat_wf|lia|lia|lia|lia|lia|lia|done|done|]. intros h2 Hg2 Hf2 E2.
    assert (Hr2 : wf h2 (sub r 0 (m + n))) by (assert (wf h2 r) by (by eapply frame_wf); slices).
    assert (Hx2 : nat_is h2 x u) by (eapply nat_frame; [exact Hf2|done|]; intros q _ Eq; by rewrite Eq in Nx).
    assert (Hy2 : nat_is h2 y v) by (eapply nat_frame; [exact Hf2|done|]; intros q _ Eq; by rewrite Eq in Ny).
    assert (Hf02 : frame (all_of (fArray z)) h h2) by (eapply (frame_located h h1); [by apply frame_nowhere|exact Hl|exact Hf2|done]).
    assert (Ecn : fCount (sub r 0 (m + n)) = m + n) by (cbn; lia).
    assert (E2' : num h2 (sub r 0 (m + n)) (m + n) = num h2 x k * num h2 y k).
    { rewrite E2. f_equal; symmetry; apply (num_frame _ _ _ _ _ Hf2); try (by eapply nat_wf); intros q _ Eq; [by rewrite Eq in Nx|by rewrite Eq in Ny]. }
    apply wp_bind. destruct ((k <? n) || negb (m =? n)) eqn:Emis.
    + eapply wp_mono; [apply (mul_terms fuel (Z.of_nat fuel) h2 (length h2) (sub r 0 (m + n)) x y u v k); [done|done|done|done|done|done|apply Hr2|done|done|fold n; lia|fold m n; lia|fold m n; lia| | |by rewrite Ecn]|].
      * apply orb_true_iff in Emis as [H1%Z.ltb_lt|H1%negb_true_iff%Z.eqb_neq]; lia.
      * fold n. lia.
      * intros [] h3 (Hg3 & Hf3 & E3). apply (wp_norm h h3 z (sub r 0 (m + n))); [done|by eapply frame_wf|done| |slices].
        eapply frame_step; [exact Hf02|exact Hf3|]. intros a i Ha [Hb|[Hb _]]; [unfold beyond in Hb; pose proof (frame_length _ _ _ Hf02); lia|]. cbn in Hb. subst a. destruct Hl as [[El _]|[El _]]; [by rewrite El|lia].
    + apply orb_false_iff in Emis as [H1%Z.ltb_ge H2%negb_false_iff%Z.eqb_eq]. apply wp_ret. apply (wp_norm h h2 z (sub r 0 (m + n))); [done|done| |done|slices].
      rewrite Ecn, E2'. replace k with n by lia. pose proof (nat_value _ _ _ Hx2) as Eu. pose proof (nat_value _ _ _ Hy2) as Ev. fold m in Eu. fold n in Ev. rewrite H2 in Eu. by rewrite Eu, Ev.
Qed.

(** mul gives the product. *)
Lemma mul_spec h z x y u v : good h -> wf h z -> nat_is h x u -> nat_is h y v -> coherent z x -> coherent z y -> wp (mul z x y) h (result h z (u * v)).
Proof.
  intros Hh Hz Hx Hy Hcx Hcy. pose proof (nat_wf _ _ _ Hx) as Hxw. pose proof (nat_wf _ _ _ Hy) as Hyw. unfold mul.
  apply wp_bind, wp_len; [done..|]. apply wp_bind, wp_len; [done..|]. pose proof (wf_len _ _ Hxw). pose proof (wf_len _ _ Hyw).
  apply (mul_rec_spec _ h z x y u v); [done..|]. destruct (fCount x <? fCount y); lia.
Qed.

End Mul.

(** ** The product *)

(** C15. Multiplication, schoolbook for short operands and Karatsuba's method with its cross products for long ones, gives the product:
    for operands of any length, whether or not [z], [x] and [y] share arrays, without a panic and within the fuel (twice the number of words of
    the longer operand), the result has no leading zeroes and lies in the array of [z] or in a new one, and no other array has changed. *)
Theorem mul_product (h : words) (z x y : nat_) (U V : Z) :
  good h -> wf h z -> nat_is h x U -> nat_is h y V -> coherent z x -> coherent z y ->
  wp (mul z x y) h (result h z (U * V)).
Proof. apply mul_spec. Qed.

(** The square of 2^128 - 1 in its own array. *)
Lemma mul_product_witness :
  let h := [[]; [2 ^ 64 - 1; 2 ^ 64 - 1; 0; 0; 0; 0]] in
  wp (mul (SliceOf 1 0 2) (SliceOf 1 0 2) (SliceOf 1 0 2)) h (result h (SliceOf 1 0 2) ((2 ^ 128 - 1) * (2 ^ 128 - 1))).
Proof.
  cbv zeta. refine (mul_product _ _ _ _ (2 ^ 128 - 1) (2 ^ 128 - 1) _ _ _ _ _ _);
    [apply good_check; vm_compute; reflexivity|apply wf_check; vm_compute; reflexivity|apply nat_check; vm_compute; reflexivity|apply nat_check; vm_compute; reflexivity|by intros _|by intros _].
Defined.
