(* ===== verification/BigSqr.v ===== *)
(** * math/big: squares and products of ranges

    Squaring (src/Source/Gold/math/big/nat_elements.go) multiplies each pair of words once and doubles the sum by a shift; above a
    threshold it divides like karatsuba.  Products of ranges of integers split the range in the middle. *)

From S2P Require Import Prelude State Slices BigArith BigNat BigMul.

Local Open Scope go_scope.

(** The turn [i] of the loop: the square of the word [i], and its products with the words below. *)
Definition sqr_row (z t x : nat_) (i : Z) : B unit :=
  d ← get_Item x i;
  let '(hi, lo) := mulWW d d in
  set_Item z (2 * i + 1) hi;; set_Item z (2 * i) lo;;
  ti ← slice_ t (Some i) (Some (2 * i)); xi ← slice_ x (Some 0) (Some i);
  c ← addMulVVW ti xi d;
  set_Item t (2 * i) c.

Definition basicSqr (z x : nat_) : B unit :=
  n ← len x;
  t ← new_sized 0 (2 * n) (2 * n);
  x0 ← get_Item x 0; x0' ← get_Item x 0;
  let '(hi, lo) := mulWW x0 x0' in
  set_Item z 1 hi;; set_Item z 0 lo;;
  loop_up 1 n (λ i _, sqr_row z t x i) tt;;
  t1 ← slice_ t (Some 1) (Some (2 * n - 1)); t1' ← slice_ t (Some 1) (Some (2 * n - 1));
  c ← shlVU t1 t1' 1;
  set_Item t (2 * n - 1) c;;
  addVV z z t;; mret tt.

Definition basicSqrThreshold : Z := 20.
Definition karatsubaSqrThreshold : Z := 260.

Fixpoint karatsubaSqr (fuel : nat) (z x : nat_) : B unit :=
  match fuel with
  | O => no_fuel
  | S fuel =>
      n ← len x;
      if negb (n &. 1 =? 0) || (n <? karatsubaSqrThreshold) || (n <? 2) then z0 ← slice_ z None (Some (2 * n)); basicSqr z0 x
      else
        let n2 := n >>. 1 in
        x1 ← slice_ x (Some n2) None; x0 ← slice_ x (Some 0) (Some n2);
        karatsubaSqr fuel z x0;;
        zn ← slice_ z (Some n) None;
        karatsubaSqr fuel zn x1;;
        xd ← slice_ z (Some (2 * n)) (Some (2 * n + n2));
        c ← subVV xd x1 x0;
        (if negb (c =? 0) then subVV xd x0 x1;; mret tt else mret tt);;
        p ← slice_ z (Some (n * 3)) None;
        karatsubaSqr fuel p xd;;
        r ← slice_ z (Some (n * 4)) None;
        zr ← slice_ z None (Some (n * 2));
        copy r zr;;
        zm ← slice_ z (Some n2) None;
        karatsubaAdd zm r n;;
        rn ← slice_ r (Some n) None;
        karatsubaAdd zm rn n;;
        karatsubaSub zm p n
  end.

(** sqr, with the recursive calls as fuel. *)
Fixpoint sqr_rec (fuel : nat) (z x : nat_) : B nat_ :=
  match fuel with
  | O => no_fuel
  | S fuel =>
      n ← len x;
      if n =? 0 then slice_ z None (Some 0)
      else if n =? 1 then
        d ← get_Item x 0;
        z ← make_ z 2;
        let '(hi, lo) := mulWW d d in
        set_Item z 1 hi;; set_Item z 0 lo;;
        norm z
      else
        a ← alias z x;
        let z := if a : bool then fZero else z in
        if n <? basicSqrThreshold then z ← make_ z (2 * n); basicMul z x x;; norm z
        else if n <? karatsubaSqrThreshold then z ← make_ z (2 * n); basicSqr z x;; norm z
        else
          k ← lift (karatsubaLen n karatsubaSqrThreshold);
          x0 ← slice_ x (Some 0) (Some k);
          z ← make_ z (max (6 * k) (2 * n));
          karatsubaSqr (S (Z.to_nat k)) z x0;;
          z ← slice_ z (Some 0) (Some (2 * n));
          zh ← slice_ z (Some (2 * k)) None;
          clear zh;;
          (if k <? n then
             x0 ← norm x0;
             x1 ← slice_ x (Some k) None;
             t ← mul fZero x0 x1;
             addAt z t k;;
             addAt z t k;;
             t ← sqr_rec fuel t x1;
             addAt z t (2 * k)
           else mret tt);;
          norm z
  end.

Definition sqr (z x : nat_) : B nat_ := n ← len x; sqr_rec (S (Z.to_nat n)) z x.

Fixpoint mulRange (fuel : nat) (z : nat_) (a b : Z) : B nat_ :=
  match fuel with
  | O => no_fuel
  | S fuel =>
      if a =? 0 then setUint64 z 0
      else if b <? a then setUint64 z 1
      else if a =? b then setUint64 z a
      else if u64 (a + 1) =? b then x ← setUint64 fZero a; y ← setUint64 fZero b; mul z x y
      else
        let m := u64 (a + b) / 2 in
        x ← mulRange fuel fZero a m; y ← mulRange fuel fZero (u64 (m + 1)) b; mul z x y
  end.

(** [(2^128 - 1)^2] by the row method, and [20! / 4!]. *)
Example basicSqr_example :
  basicSqr (SliceOf 2 0 4) (SliceOf 1 0 2) [[]; [2 ^ 64 - 1; 2 ^ 64 - 1]; [0; 0; 0; 0]]
  = Val (tt, [[]; [2 ^ 64 - 1; 2 ^ 64 - 1]; [1; 0; 2 ^ 64 - 2; 2 ^ 64 - 1]; [0; 2; 2 ^ 64 - 4; 1]]).
Proof. vm_compute. reflexivity. Qed.

Example mulRange_example : match mulRange 10 fZero 5 30 [[]] with Val (r, h) => num h r (fCount r) = fold_right Z.mul 1 (seqZ 5 26) | _ => False end.
Proof. vm_compute. reflexivity. Qed.

(** ** Squares, row by row *)

Section BasicSqr.
Implicit Types (h : words) (z x t r : nat_).

(** After the rows below [i]: the squares in [z] and twice the products in [t] make the square of what was read; above, [t] is still zero. *)
Definition squaring h z t x (n i : Z) : Prop :=
  num h z (2 * i) + 2 * num h t (2 * i) = num h x i * num h x i /\ word h t 0 = 0 /\ forall j, 2 * i - 1 <= j < 2 * n -> word h t j = 0.

(** The product of two words, as the new top of a vector. *)
Lemma square_words {A} h z i d (K : B A) Q : good h -> wf h z -> 0 <= i -> 2 * i + 1 < fCount z -> is_uint 64 d ->
  (forall h', good h' -> frame (win z (2 * i) (2 * i + 2)) h h' -> num h' z (2 * i + 2) = num h z (2 * i) + d * d * pw (2 * i) -> wp K h' Q) ->
  wp (let '(hi, lo) := mulWW d d in set_Item z (2 * i + 1) hi;; set_Item z (2 * i) lo;; K) h Q.
Proof.
  intros Hh Hz Hi Hl Hd HK. unfold mulWW, mulWW_g. destruct (mul_word d d Hd Hd) as (hi & lo & E & Hhi & Hlo & Ep). rewrite E.
  apply wp_bind, wp_set_word; [done|done|slices|done|]. intros h1 Hg1 Hf1 Ew1. assert (Hz1 : wf h1 z) by (by eapply frame_wf).
  apply wp_bind, wp_set_word; [done|done|slices|done|]. intros h2 Hg2 Hf2 Ew2. assert (Hz2 : wf h2 z) by (by eapply frame_wf).
  apply HK; [done|eapply frame_step; [eapply frame_weaken; [exact Hf1|slices]|exact Hf2|slices]|].
  replace (2 * i + 2) with (2 * i + 1 + 1) by lia. rewrite !num_succ, Ew2, pw_succ by lia. rewrite (word_frame _ _ _ z (2 * i + 1) Hf2), Ew1 by (done || slices).
  rewrite (num_frame _ _ _ z (2 * i) Hf2), (num_frame _ _ _ z (2 * i) Hf1) by (done || slices). rewrite <- Ep. ring.
Qed.

Lemma sqr_row_spec h z t x n i : good h -> wf h z -> wf h t -> wf h x -> 2 * n <= fCount z -> fCount t = 2 * n -> fCount x = n -> 1 <= i < n ->
  fArray z <> fArray t -> apart z x -> fArray t <> fArray x -> squaring h z t x n i ->
  wp (sqr_row z t x i) h (λ _ h', good h' /\ frame (λ a j, a = fArray t \/ win z 0 (2 * n) a j) h h' /\ squaring h' z t x n (i + 1)).
Proof.
  intros Hh Hz Ht Hx Hcz Hct Hcx Hi Nzt Nzx Ntx (E & E0 & Ez). unfold sqr_row. apply wp_bind, wp_word; [done|lia|]. set (d := word h x i).
  assert (Hd : is_uint 64 d) by (apply word_uint, Hh). apply (square_words h z i d); [done|done|lia|lia|done|]. intros h2 Hg2 Hf2 E2.
  assert (Ht2 : wf h2 t) by (by eapply frame_wf). assert (Hx2 : wf h2 x) by (by eapply frame_wf).
  apply wp_bind, wp_slice_word; [done|done|cbn; lia|cbn; slices|]. apply wp_bind, wp_slice_word; [done|done|cbn; lia|cbn; slices|]. cbn [from_option id]. apply wp_bind.
  assert (E1 : fCount (sub t i (2 * i)) = i) by (cbn; lia). eapply wp_mono; [apply (addMulVVW_spec h2 (sub t i (2 * i)) (sub x 0 i) d); [done|slices|slices|cbn; lia|intros Ea; by destruct Ntx|done]|].
  rewrite E1, num_sub_0. intros c h3 (Hg3 & Hf3 & Hc & E3). rewrite E1 in *. assert (Hf3' : frame (win t i (2 * i)) h2 h3) by (eapply frame_weaken; [exact Hf3|slices]).
  assert (Ht3 : wf h3 t) by (by eapply frame_wf). apply wp_set_word; [done|done|slices|done|]. intros h4 Hg4 Hf4 Ew4.
  assert (Hf24 : frame (win t i (2 * i + 1)) h2 h4) by (apply (frame_join t i (2 * i) (2 * i + 1) h2 h3 h4); [done|done|lia]).
  assert (Hf04 : frame (λ a j, a = fArray t \/ win z 0 (2 * n) a j) h h4).
  { eapply frame_step; [eapply frame_weaken; [exact Hf2|]|exact Hf24|]; unfold win; intros a j _ [-> ?]; [right; split; [done|lia]|by left]. }
  assert (Hx4 : forall k, k <= n -> num h4 x k = num h x k) by (intros k Hk; apply (num_frame _ _ _ _ _ Hf04 Hx); slices).
  assert (Htw : forall j, 0 <= j < i \/ 2 * i + 1 <= j -> word h4 t j = word h t j).
  { intros j Hj. rewrite (word_frame _ _ _ t j Hf24 Ht2) by slices. apply (word_frame _ _ _ t j Hf2 Ht). unfold win. intros [Ea _]. by rewrite Ea in Nzt. }
  assert (Hz2 : wf h2 z) by (by eapply frame_wf). assert (Ezz : num h4 z (2 * i + 2) = num h2 z (2 * i + 2)) by (apply (num_frame _ _ _ _ _ Hf24 Hz2); unfold win; intros j _ [Ea _]; by rewrite Ea in Nzt).
  assert (Ett : num h4 t (2 * (i + 1)) = num h t (2 * i) + d * num h x i * pw i).
  { replace (2 * (i + 1)) with (2 * i + 1 + 1) by lia. rewrite num_succ, Htw, Ez, num_succ, Ew4 by lia. rewrite (num_frame _ _ _ t (2 * i) Hf4) by (done || slices).
    rewrite (num_cut h3 t i (2 * i) (2 * i)), (num_cut h t i (2 * i) (2 * i)) by lia. replace (2 * i - i) with i by lia.
    rewrite (num_frame _ _ _ t i Hf3') by (done || slices). rewrite (num_frame _ _ _ t i Hf2) by (done || (unfold win; intros j _ [Ea _]; by rewrite Ea in Nzt)).
    rewrite (num_frame_sub _ _ _ t _ _ _ Hf2) in E3 by (done || (unfold win; intros j _ [Ea _]; by rewrite Ea in Nzt)).
    rewrite (num_frame _ _ _ x _ Hf2) in E3 by (done || slices).
    replace (pw (2 * i)) with (pw i * pw i) by (rewrite <- pw_add by lia; f_equal; lia). transitivity (num h t i + pw i * (num h3 (sub t i (2 * i)) i + c * pw i)); [ring|]. rewrite E3. ring. }
  split; [done|]. split; [done|]. split; [|split].
  - replace (2 * (i + 1)) with (2 * i + 2) in * by lia. rewrite Ezz, E2, Ett, Hx4 by lia. rewrite num_succ by lia. fold d. replace (pw (2 * i)) with (pw i * pw i) by (rewrite <- pw_add by lia; f_equal; lia).
    transitivity (num h z (2 * i) + 2 * num h t (2 * i) + (2 * d * num h x i * pw i + d * d * (pw i * pw i))); [ring|]. rewrite E. ring.
  - by rewrite Htw by lia.
  - intros j Hj. rewrite Htw by lia. apply Ez. lia.
Qed.

(** Doubling the products and adding the squares. *)
Lemma square_sum h z t n Q : good h -> wf h z -> wf h t -> 1 <= n -> fCount z = 2 * n -> fCount t = 2 * n -> fArray z <> fArray t -> word h t 0 = 0 -> word h t (2 * n - 1) = 0 ->
  num h z (2 * n) + 2 * num h t (2 * n) < pw (2 * n) ->
  (forall h', good h' -> frame (λ a i, a = fArray t \/ win z 0 (2 * n) a i) h h' -> num h' z (2 * n) = num h z (2 * n) + 2 * num h t (2 * n) -> Q tt h') ->
  wp (t1 ← slice_ t (Some 1) (Some (2 * n - 1)); t1' ← slice_ t (Some 1) (Some (2 * n - 1)); c ← shlVU t1 t1' 1; set_Item t (2 * n - 1) c;; addVV z z t;; mret tt) h Q.
Proof.
  intros Hh Hz Ht Hn Hcz Hct Nzt E0 E1 Hlt HQ. do 2 (apply wp_bind, wp_slice_word; [done|done|cbn; lia|cbn; slices|]; cbn [from_option id]). set (t1 := sub t 1 (2 * n - 1)). apply wp_bind.
  assert (Ec : fCount t1 = 2 * n - 2) by (cbn; lia). eapply wp_mono; [apply (shlVU_spec h t1 t1 1); [done|slices|slices|lia|lia|slices]|]. rewrite Ec. intros c h1 (Hg1 & Hf1 & Hc & E). rewrite Ec in *.
  assert (Hf1' : frame (win t 1 (2 * n - 1)) h h1) by (eapply frame_weaken; [exact Hf1|slices]). assert (Ht1 : wf h1 t) by (by eapply frame_wf).
  apply wp_bind, wp_set_word; [done|done|slices|unfold is_uint; change (2 ^ 1) with 2 in Hc; lia|]. intros h2 Hg2 Hf2 Ew. assert (Hf02 : frame (win t 1 (2 * n)) h h2) by (apply (frame_join t 1 (2 * n - 1) (2 * n) h h1 h2); [done|eapply frame_weaken; [exact Hf2|slices]|lia]).
  assert (Hnum : forall h', num h' t (2 * n) = word h' t 0 + 2 ^ 64 * (num h' t1 (2 * n - 2) + word h' t (2 * n - 1) * pw (2 * n - 2))).
  { intros h'. replace (2 * n) with (2 * n - 2 + 1 + 1) at 1 by lia. rewrite (num_cons h' t (2 * n - 1)) by lia. rewrite num_succ, word_sub by lia. change (num h' (sub t 1 (2 * n - 1)) (2 * n - 2)) with (num h' t1 (2 * n - 2)). by replace (1 + (2 * n - 2)) with (2 * n - 1) by lia. }
  assert (Et : num h2 t (2 * n) = 2 * num h t (2 * n)).
  { rewrite !Hnum, Ew, E0, E1. rewrite (word_frame _ _ _ t 0 Hf02), E0 by (done || slices). change t1 with (sub t 1 (2 * n - 1)). rewrite (num_frame_sub _ _ _ t 1 (2 * n - 1) _ Hf2) by (done || slices).
    change (sub t 1 (2 * n - 1)) with t1. rewrite E. change (2 ^ 1) with 2. ring. }
  assert (Hz2 : wf h2 z) by (by eapply frame_wf). assert (Ht2 : wf h2 t) by (by eapply frame_wf). assert (Ez : num h2 z (2 * n) = num h z (2 * n)) by (apply (num_frame _ _ _ _ _ Hf02 Hz); unfold win; intros j _ [Ea _]; by rewrite Ea in Nzt).
  apply wp_bind. eapply wp_mono; [apply (addVV_spec h2 z z t); [done|done|done|done|lia|lia|slices|intros Ea; by destruct Nzt]|]. rewrite Hcz, Et, Ez. intros c2 h3 (Hg3 & Hf3 & Hc3 & E3). rewrite Hcz in *. apply wp_ret.
  apply HQ; [done| |].
  - eapply frame_step; [eapply frame_weaken; [exact Hf02|]|exact Hf3|]; [unfold win; intros a j _ [-> _]; auto|auto].
  - pose proof (num_bound h3 z (2 * n) (proj2 Hg3) ltac:(lia)). pose proof (pw_pos (2 * n) ltac:(lia)). assert (c2 = 0) as -> by nia. lia.
Qed.

(** basicSqr: the temporary is a new array. *)
Lemma basicSqr_spec h z x n : good h -> wf h z -> wf h x -> 1 <= n -> fCount z = 2 * n -> fCount x = n -> apart z x ->
  wp (basicSqr z x) h (λ _ h', good h' /\ frame (win z 0 (2 * n)) h h' /\ num h' z (2 * n) = num h x n * num h x n).
Proof.
  intros Hh Hz Hx Hn Hcz Hcx Nzx. unfold basicSqr. apply wp_bind, wp_len; [done..|]. rewrite Hcx. apply wp_bind, wp_new_sized; [lia|]. intros h1 Hf1 Eh1 Ht1.
  rewrite Z.max_id in Eh1. set (t := SliceOf (length h) 0 (2 * n)) in *. assert (Hg1 : good h1).
  { split; [eapply frame_ok; [exact Hf1|by apply good_ok]|]. rewrite Eh1. apply words_ok_app, Hh. }
  assert (Nzt : fArray z <> fArray t) by (destruct Hz; cbn; lia). assert (Ntx : fArray t <> fArray x) by (destruct Hx; cbn; lia). assert (Hct : fCount t = 2 * n) by done.
  assert (Hz1 : wf h1 z) by (by eapply frame_wf). assert (Hx1 : wf h1 x) by (by eapply frame_wf). assert (Ex1 : forall k, num h1 x k = num h x k) by (intros k; apply (num_frame _ _ _ _ _ Hf1 Hx); auto).
  assert (Et0 : forall j, 0 <= j < 2 * n -> word h1 t j = 0) by (intros j Hj; unfold word, at_; rewrite Eh1; cbn [t fArray fStart]; by rewrite cell_fresh by lia).
  apply wp_bind, wp_word; [done|lia|]. apply wp_bind, wp_word; [done|lia|].
  apply (square_words h1 z 0 (word h1 x 0)); [done|done|lia|lia|apply word_uint, Hg1|]. intros h2 Hg2 Hf2 E2. change (2 * 0 + 2) with 2 in E2. change (2 * 0) with 0 in *. rewrite num_0, pw_0 in E2.
  set (P := λ a j, a = fArray t \/ win z 0 (2 * n) a j). assert (Hf2' : frame P h1 h2) by (eapply frame_weaken; [exact Hf2|]; unfold win, P; intros a j _ [-> ?]; right; split; [done|lia]).
  assert (Hfx : forall h', frame P h1 h' -> forall k, k <= n -> num h' x k = num h x k) by (intros h' Hf k Hk; rewrite <- Ex1; apply (num_frame _ _ _ _ _ Hf Hx1); unfold P; slices).
  assert (Hft : forall j, word h2 t j = word h1 t j) by (intros j; apply (word_frame _ _ _ t j Hf2 Ht1); unfold win; intros [Ea _]; by rewrite Ea in Nzt).
  apply wp_bind. apply (wp_loop_up (λ i _ h', good h' /\ frame P h1 h' /\ squaring h' z t x n i)); [lia| | |].
  - split; [done|]. split; [done|]. unfold squaring. change (2 * 1) with 2. split_and!; [|rewrite Hft; apply Et0; lia|intros j Hj; rewrite Hft; apply Et0; lia].
    rewrite E2, (num_zero h2 t) by (lia || (intros j Hj; rewrite Hft; apply Et0; lia)). rewrite (Hfx h2 Hf2'), <- Ex1, !num_1 by lia. lia.
  - intros i [] h3 Hi (Hg3 & Hf3 & HI). eapply wp_mono; [apply (sqr_row_spec h3 z t x n i); try (by eapply frame_wf); try done; lia|]. intros [] h4 (Hg4 & Hf4 & HI4). split; [done|]. split; [by eapply frame_trans|done].
  - intros [] h3 (Hg3 & Hf3 & (E & E0 & Ez)). assert (Hz3 : wf h3 z) by (by eapply frame_wf). assert (Ht3 : wf h3 t) by (by eapply frame_wf). rewrite !(Hfx h3 Hf3) in E by lia.
    pose proof (num_bound h x n (proj2 Hh) ltac:(lia)) as Hb. assert (Epw : pw (2 * n) = pw n * pw n) by (rewrite <- pw_add by lia; f_equal; lia).
    apply (square_sum h3 z t n); [done|done|done|done|done|done|done|done|apply Ez; lia|rewrite E, Epw; nia|]. intros h' Hg Hf E'. split; [done|]. split; [|by rewrite E', E].
    eapply frame_step; [by eapply frame_nowhere|eapply frame_trans; [exact Hf3|exact Hf]|]. intros a j Ha [->|Hw]; [cbn in Ha; lia|done].
Qed.

End BasicSqr.

(** ** Squares, dividing *)

Section KaratsubaSqr.
Implicit Types (h : words) (z x t r d a b : nat_).

(** The sign of the difference is not needed. *)
Lemma unsigned_difference {A} h d a b (K : B A) :
  (c ← subVV d a b; (if negb (c =? 0) then subVV d b a;; mret tt else mret tt);; K) h = (absolute_difference d a b 1 ≫= λ _, K) h.
Proof.
  unfold absolute_difference, mbind, M_bind. destruct (subVV d a b h) as [[c h1]| |]; [|done..]. destruct (negb (c =? 0)); [|done]. by destruct (subVV d b a h1) as [[c2 h2]| |].
Qed.

Lemma wp_difference {A} h d a b (K : B A) Q : good h -> wf h d -> wf h a -> wf h b -> fCount d <= fCount a -> fCount d <= fCount b -> apart d a -> apart d b ->
  (forall h' s, good h' -> frame (win d 0 (fCount d)) h h' -> num h' d (fCount d) = s * (num h a (fCount d) - num h b (fCount d)) -> s * s = 1 -> wp K h' Q) ->
  wp (c ← subVV d a b; (if negb (c =? 0) then subVV d b a;; mret tt else mret tt);; K) h Q.
Proof.
  intros Hh Hd Ha Hb Hca Hcb Aa Ab HK. unfold wp. rewrite unsigned_difference. fold (wp (absolute_difference d a b 1 ≫= λ _, K) h Q). apply wp_bind.
  eapply wp_mono; [apply absolute_difference_spec; try done; by left|]. intros s h' (Hg & Hf & Hs & E). apply (HK h' s); [done|done| |destruct Hs; subst s; lia].
  destruct Hs; subst s; lia.
Qed.

Lemma karatsubaSqr_spec fuel : forall h z x n, good h -> wf h z -> wf h x -> fCount x = n -> 1 <= n -> 6 * n <= fCount z -> n < Z.of_nat fuel -> apart z x ->
  wp (karatsubaSqr fuel z x) h (λ _ h', good h' /\ frame (win z 0 (fCount z)) h h' /\ num h' z (2 * n) = num h x n * num h x n).
Proof.
  induction fuel as [|fuel IH]; intros h z x n Hh Hz Hx Ex Hn1 Hle Hf Hax; [lia|]. cbn [karatsubaSqr].
  apply wp_bind, wp_len; [done..|]. rewrite Ex. assert (Hn0 : 0 <= n) by lia.
  destruct (negb (n &. 1 =? 0) || (n <? karatsubaSqrThreshold) || (n <? 2)) eqn:Eb.
  { apply wp_bind, wp_slice_word; [done|done|cbn; lia|cbn; slices|]. cbn [from_option id default]. eapply wp_mono; [apply (basicSqr_spec h (sub z 0 (2 * n)) x n); [done|slices|done|lia|cbn; lia|done|slices]|].
    intros _ h' (Hg & Hf' & E). split; [done|]. split; [eapply frame_weaken; [exact Hf'|slices]|]. by rewrite num_sub_0 in E. }
  apply orb_false_iff in Eb as [[Eev Eth]%orb_false_iff E2%Z.ltb_ge]. apply negb_false_iff, Z.eqb_eq in Eev. clear Eth.
  destruct (even_half n Eev Hn0) as [En Hh2]. set (n2 := n >>. 1) in *. set (C := fCount z) in *.
  do 2 (apply wp_bind, wp_slice_word; [done|done|cbn; lia|cbn; slices|]; cbn [from_option id]). rewrite Ex.
  set (X0 := num h x n2). set (X1 := num h (sub x n2 n) n2). assert (EX : num h x n = X0 + pw n2 * X1) by (rewrite (num_cut h x n2 n n) by lia; by replace (n - n2) with n2 by lia).
  apply wp_bind. eapply wp_mono; [apply (IH h z (sub x 0 n2) n2); [done|done|slices|cbn; lia|lia|lia|lia|slices]|].
  intros _ h1 (Hg1 & Hf1 & E1). rewrite !num_sub_0 in E1. fold X0 in E1. replace (2 * n2) with n in E1 by lia.
  assert (Hz1 : wf h1 z) by (by eapply frame_wf). assert (Hx1 : wf h1 x) by (by eapply frame_wf).
  apply wp_bind, wp_slice_word; [done|done|cbn; lia|cbn; slices|]. cbn [from_option id]. fold C. apply wp_bind.
  eapply wp_mono; [apply (IH h1 (sub z n C) (sub x n2 n) n2); [done|slices|slices|cbn; lia|lia|cbn; lia|lia|slices]|].
  intros _ h2 (Hg2 & Hf2 & E2'). replace (2 * n2) with n in E2' by lia. assert (Hf2' : frame (win z n C) h1 h2) by (eapply frame_weaken; [exact Hf2|slices]).
  rewrite !(num_frame_sub _ _ _ _ _ _ _ Hf1) in E2' by (done || slices). fold X1 in E2'.
  assert (Hf02 : frame (win z 0 C) h h2) by (eapply frame_step; [exact Hf1|exact Hf2'|slices]). assert (Hz2 : wf h2 z) by (by eapply frame_wf). assert (Hx2 : wf h2 x) by (by eapply frame_wf).
  apply wp_bind, wp_slice_word; [done|done|cbn; lia|cbn; slices|]. cbn [from_option id]. set (xd := sub z (2 * n) (2 * n + n2)). assert (Exd : fCount xd = n2) by (cbn; lia).
  apply (wp_difference h2 xd (sub x n2 n) (sub x 0 n2)); [done|slices|slices|slices|cbn; lia|cbn; lia|slices|slices|]. rewrite Exd, num_sub_0. intros h3 s1 Hg3 Hf3 E3 Hs1.
  rewrite !(num_frame_sub _ _ _ _ _ _ _ Hf02), !(num_frame _ _ _ _ _ Hf02) in E3 by (done || slices). fold X0 X1 in E3.
  assert (Hf3' : frame (win z (2 * n) (2 * n + n2)) h2 h3) by (eapply frame_weaken; [exact Hf3|slices]). assert (Hz3 : wf h3 z) by (by eapply frame_wf).
  apply wp_bind, wp_slice_word; [done|done|cbn; lia|cbn; slices|]. cbn [from_option id]. fold C. set (p := sub z (n * 3) C).
  apply wp_bind. eapply wp_mono; [apply (IH h3 p xd n2); [done|unfold p; slices|unfold xd; slices|done|lia|cbn; lia|lia|unfold p, xd; slices]|].
  intros _ h5 (Hg5 & Hf5 & E5). replace (2 * n2) with n in E5 by lia. assert (Hf5' : frame (win z (n * 3) C) h3 h5) by (eapply frame_weaken; [exact Hf5|unfold p; slices]).
  assert (Hz5 : wf h5 z) by (by eapply frame_wf). assert (Hf25 : frame (win z (2 * n) C) h2 h5) by (eapply frame_step; [eapply frame_weaken; [exact Hf3'|slices]|exact Hf5'|slices]).
  pose proof (pw_pos n2 ltac:(lia)) as Hp2. pose proof (num_bound h x n (proj2 Hh) Hn0) as Hbx.
  eapply wp_mono; [apply (karatsuba_sums h5 z n n2 (-1) (num h3 xd n2 * num h3 xd n2) (X0 * X0) (X1 * X1) (num h x n * num h x n)); [done|done|done|done|lia|done|by right| | | | | ]|].
  - rewrite (num_frame _ _ _ _ _ Hf25) by (done || slices). rewrite (num_frame _ _ _ _ _ Hf2') by (done || slices). exact E1.
  - rewrite (num_frame_sub _ _ _ _ _ _ _ Hf25) by (done || slices). exact E2'.
  - exact E5.
  - rewrite EX, E3. replace (pw n) with (pw n2 * pw n2) by (rewrite <- pw_add by lia; f_equal; lia).
    transitivity (X1 * X1 * (pw n2 * pw n2) + (X0 * X0 + X1 * X1 - s1 * s1 * ((X1 - X0) * (X1 - X0))) * pw n2 + X0 * X0); [ring|]. rewrite Hs1. ring.
  - replace (pw (2 * n)) with (pw n * pw n) by (rewrite <- pw_add by lia; f_equal; lia). nia.
  - intros _ h' (Hg & Hf' & E). split; [done|]. split; [|exact E]. eapply frame_trans; [exact Hf02|]. eapply frame_trans; [eapply frame_weaken; [exact Hf25|slices]|exact Hf'].
Qed.

End KaratsubaSqr.

(** ** Squares of numbers *)

Section Sqr.
Implicit Types (h : words) (z x t r : nat_).

(** The lower part of the result, and zeroes above. *)
Lemma karatsubaSqr_low h z x k N (K : nat_ -> B nat_) Q : good h -> wf h z -> wf h x -> 0 < k -> k <= fCount x -> 6 * k <= fCount z -> 2 * k <= N -> N <= fCount z -> fArray z <> fArray x ->
  (forall h', good h' -> frame (all_of (fArray z)) h h' -> num h' (sub z 0 N) N = num h x k * num h x k -> wp (K (sub z 0 N)) h' Q) ->
  wp (karatsubaSqr (S (Z.to_nat k)) z (sub x 0 k);; z1 ← slice_ z (Some 0) (Some N); zh ← slice_ z1 (Some (2 * k)) None; clear zh;; K z1) h Q.
Proof.
  intros Hh Hz Hx Hk Hkx H6 H2 HN Nx HK. apply wp_bind.
  eapply wp_mono; [apply (karatsubaSqr_spec _ h z (sub x 0 k) k); [done|done|slices|cbn; lia|lia|lia|lia|slices]|].
  intros [] h1 (Hg1 & Hf1 & E). rewrite !num_sub_0 in E. assert (Hz1 : wf h1 z) by (by eapply frame_wf).
  apply (cleared_above h1 z k N); [done|done|lia|lia|lia|]. intros h2 Hg2 Hf2 E2. apply HK; [done|eapply frame_step; [eapply frame_weaken; [exact Hf1|slices]|exact Hf2|slices]|by rewrite E2].
Qed.

(** The missing terms: twice the product of the parts and the square of the upper one. *)
Lemma sqr_terms fuel h L z x u k : (forall h t a w, good h -> wf h t -> nat_is h a w -> coherent t a -> fCount a < Z.of_nat fuel -> wp (sqr_rec fuel t a) h (result h t (w * w))) ->
  good h -> wf h z -> nat_is h x u -> L = length h -> (fArray z < L)%nat -> fArray z <> fArray x -> 0 < k < fCount x -> fCount x <= Z.of_nat fuel -> fCount z = 2 * fCount x ->
  num h z (fCount z) = num h x k * num h x k ->
  wp (x0 ← norm (sub x 0 k); x1 ← slice_ x (Some k) None; t ← mul fZero x0 x1; addAt z t k;; addAt z t k;; t ← sqr_rec fuel t x1; addAt z t (2 * k)) h
    (λ _ h', good h' /\ frame (λ a i, beyond L a i \/ win z 0 (fCount z) a i) h h' /\ num h' z (fCount z) = u * u).
Proof.
  intros IH Hh Hz Hx EL Lz Nx Hk Hf Hc E. pose proof (nat_wf _ _ _ Hx) as Hxw. set (n := fCount x) in *. assert (Lx : (fArray x < L)%nat) by (subst L; apply Hxw).
  assert (Hx0 : wf h (sub x 0 k)) by slices. destruct (norm_spec h (sub x 0 k) Hh Hx0) as (j & Hj & En & Hxn). cbn [sub fCount] in Hj. rewrite Z.sub_0_r in Hj.
  apply wp_bind. eapply wp_of_val; [exact En|]. clear En. change (fCount (sub x 0 k)) with (k - 0) in Hxn. rewrite Z.sub_0_r, num_sub_0 in Hxn.
  apply wp_bind, wp_slice_word; [done|done|cbn; lia|cbn; slices|]. cbn [from_option id]. fold n. pose proof (nat_high h x u k Hx ltac:(lia)) as Hx1. fold n in Hx1.
  set (u1 := num h (sub x k 0) (n - k)) in *. set (u0 := num h x k) in *. assert (Eu : u = u0 + u1 * pw k) by (rewrite <- (nat_value _ _ _ Hx); fold n; rewrite (num_cut h x k n 0) by lia; fold u0 u1; lia).
  pose proof (nat_bound _ _ _ Hh Hx) as Hub. fold n in Hub. pose proof (num_bound h x k (proj2 Hh) ltac:(lia)) as Hb0. fold u0 in Hb0. pose proof (num_bound h (sub x k 0) (n - k) (proj2 Hh) ltac:(lia)) as Hb1. fold u1 in Hb1.
  assert (Hpn : pw n = pw k * pw (n - k)) by (rewrite <- pw_add by lia; f_equal; lia). assert (Hp1 : pw (2 * (n - k)) = pw (n - k) * pw (n - k)) by (rewrite <- pw_add by lia; f_equal; lia).
  assert (Hp : forall s, (fArray s < L)%nat -> fArray z <> fArray s -> forall q, ~ (beyond L (fArray s) q \/ win z 0 (fCount z) (fArray s) q)) by (intros s Hs1 Hs2 q [Hb|[Hb _]]; [unfold beyond in Hb; lia|by rewrite Hb in Hs2]).
  assert (Hsc : scratch h L fZero) by (split; [by apply zero_wf, good_ok|by left]).
  apply wp_bind. eapply wp_mono; [apply (wp_scratch (mul fZero (sub (sub x 0 k) 0 j) (sub x k n)) h L fZero (u0 * u1) n); [done|done|lia| |nia|lia]|].
  { apply mul_spec; [done|apply Hsc|done|done| |]; (eapply scratch_coherent; [done|exact Hsc|done|done]). }
  intros t h1 (Hg1 & Ht1 & Hn1 & Hf1 & Hc1). pose proof (frame_length _ _ _ Hf1) as L1. assert (Hz1 : wf h1 z) by (by eapply frame_wf).
  apply (add_scratch h1 L z t k (u0 * u1)); [done|done|done|done|done|lia|lia|]. intros h2 Hg2 Hf2 E2. pose proof (frame_length _ _ _ Hf2) as L2.
  assert (Htz : forall q, 0 <= q < fCount t -> ~ win z 0 (fCount z) (fArray t) (fStart t + q)).
  { unfold win. intros q Hq [Ea _]. destruct (proj2 Ht1) as [->|Hge]; [cbn in Hq; lia|lia]. }
  assert (Hn2 : nat_is h2 t (u0 * u1)) by (by eapply nat_frame). assert (Ht2 : scratch h2 L t) by (split; [by eapply nat_wf|apply Ht1]). assert (Hz2 : wf h2 z) by (by eapply frame_wf).
  apply (add_scratch h2 L z t k (u0 * u1)); [done|done|done|done|done|lia|lia|]. intros h3 Hg3 Hf3 E3. pose proof (frame_length _ _ _ Hf3) as L3. assert (Hz3 : wf h3 z) by (by eapply frame_wf).
  assert (Ht3 : scratch h3 L t) by (split; [by eapply frame_wf; [exact Hf3|apply Ht2]|apply Ht1]).
  assert (Hf03 : frame (λ a i, beyond L a i \/ win z 0 (fCount z) a i) h h3).
  { eapply frame_step; [eapply frame_step; [eapply frame_weaken; [exact Hf1|by left]|exact Hf2|by right]|exact Hf3|by right]. }
  assert (Hx3 : nat_is h3 (sub x k n) u1) by (eapply nat_frame; [exact Hf03|exact Hx1|]; intros q _; by apply Hp).
  assert (Hend : wp (t ← sqr_rec fuel t (sub x k n); addAt z t (2 * k);; mret tt) h3 (λ _ h', good h' /\ frame (λ a i, beyond L a i \/ win z 0 (fCount z) a i) h3 h' /\
    num h' z (fCount z) = (num h3 z (fCount z) + u1 * u1 * pw (2 * k)) mod pw (fCount z))).
  { apply (wp_piece (sqr_rec fuel t (sub x k n)) h3 L z t (2 * k) (u1 * u1) (2 * (n - k)) (λ _, mret tt)); [done|done|done|done|lia| |nia|lia|lia|lia|].
    - apply IH; [done|apply Ht3|done|by eapply scratch_coherent|cbn; lia].
    - intros t' h' Hg' _ Hf' E'. by apply wp_ret. }
  assert (Hret : wp (t ← sqr_rec fuel t (sub x k n); addAt z t (2 * k)) h3 (λ _ h', good h' /\ frame (λ a i, beyond L a i \/ win z 0 (fCount z) a i) h3 h' /\
    num h' z (fCount z) = (num h3 z (fCount z) + u1 * u1 * pw (2 * k)) mod pw (fCount z))).
  { clear -Hend. unfold wp, mbind, M_bind in *. destruct (sqr_rec fuel t (sub x k n) h3) as [[t' h4]| |]; [|done..]. by destruct (addAt z t' (2 * k) h4) as [[[] h5]| |]. }
  eapply wp_mono; [exact Hret|]. intros [] h4 (Hg4 & Hf4 & E4). split; [done|]. split; [by eapply frame_trans|]. rewrite E4, E3, E2, (num_beyond _ _ _ _ _ Hf1) by done. rewrite E. fold u0.
  pose proof (pw_pos (fCount z) ltac:(lia)). rewrite !Z.add_mod_idemp_l by lia. rewrite <- (Z.add_assoc _ (u0 * u1 * pw k)), Z.add_mod_idemp_l by lia.
  assert (E2k : pw (2 * k) = pw k * pw k) by (rewrite <- pw_add by lia; f_equal; lia). assert (E2n : pw (fCount z) = pw n * pw n) by (rewrite Hc, <- pw_add by lia; f_equal; lia).
  rewrite Eu, E2k. rewrite Z.mod_small; [ring|]. rewrite E2n. rewrite Eu in Hub. pose proof (pw_pos k ltac:(lia)). assert (0 <= u0 * u1 /\ 0 <= u0 * u0 /\ 0 <= u1 * u1) by nia. assert (Hsq : 0 <= (u0 + u1 * pw k) * (u0 + u1 * pw k) < pw n * pw n) by nia. lia.
Qed.
End Sqr.

Section Sqr2.
Implicit Types (h : words) (z x y t r : nat_).

(** The place of a square. *)
Lemma wp_place1 h z x n (a : bool) (Q : nat_ -> words -> Prop) : good h -> wf h z -> wf h x -> 0 < n -> (a = false -> fArray z <> fArray x) -> 0 < fCount x ->
  (forall r h', good h' -> frame nowhere h h' -> wf h' r -> fCount r = n -> located h z r -> fArray r <> fArray x -> Q r h') ->
  wp (make_ (if a then fZero else z) n) h Q.
Proof. intros Hh Hz Hx Hn Ha Hc HQ. rewrite <- (orb_diag a). apply (wp_place h z x x n a a); try done. intros. by apply HQ. Qed.

(** A square that was computed in its place: what is left is to normalize it. *)
Lemma square_done h0 h1 h2 z0 z P u : good h2 -> frame nowhere h0 h1 -> wf h1 z -> located h0 z0 z -> frame P h1 h2 -> (forall a i, P a i -> a = fArray z) -> num h2 z (fCount z) = u -> wp (norm z) h2 (result h0 z0 u).
Proof.
  intros Hg Hf0 Hz Hl Hf HP E. apply (wp_norm h0 h2 z0 z); [done|by eapply frame_wf|done| |done]. eapply (frame_located h0 h1); [by apply frame_nowhere|exact Hl|exact Hf|exact HP].
Qed.

Lemma sqr_rec_spec fuel : forall h z x u, good h -> wf h z -> nat_is h x u -> coherent z x -> fCount x < Z.of_nat fuel -> wp (sqr_rec fuel z x) h (result h z (u * u)).
Proof.
  induction fuel as [|fuel IH]; intros h z x u Hh Hz Hx Hcx Hf; pose proof (nat_wf _ _ _ Hx) as Hxw; pose proof (wf_len _ _ Hxw) as Hn0; [lia|].
  cbn [sqr_rec]. apply wp_bind, wp_len; [done..|]. set (n := fCount x) in *. destruct (Z.eqb_spec n 0) as [E0|E0].
  { assert (u = 0) as -> by (by apply (nat_zero h x)). by apply zero_result. }
  destruct (Z.eqb_spec n 1) as [E1|E1].
  { assert (Eu : word h x 0 = u) by (rewrite <- (nat_value _ _ _ Hx); fold n; by rewrite E1, num_1). apply wp_bind, wp_word; [done|lia|]. rewrite Eu. apply wp_bind, wp_make; [done|done|lia|]. intros r h1 Hg1 Hf1 Hr Hc Hl.
    assert (Hu : is_uint 64 u) by (rewrite <- Eu; apply word_uint, Hh). apply (square_words h1 r 0 u); [done|done|lia|lia|done|]. intros h2 Hg2 Hf2 E2. change (2 * 0 + 2) with 2 in *. change (2 * 0) with 0 in *. rewrite num_0, pw_0 in E2.
    eapply (square_done h h1 h2); [done|done|done|done|exact Hf2|slices|rewrite Hc; lia]. }
  destruct (alias_val h z x Hh Hz Hxw ltac:(lia)) as (a & Ea & Ha). apply wp_bind. eapply wp_of_val; [exact Ea|]. cbv zeta.
  assert (Hrun : forall r h1, frame nowhere h h1 -> nat_is h1 x u) by (intros; by eapply nat_nowhere).
  destruct (Z.ltb_spec n basicSqrThreshold) as [Hth|Hth]; [|destruct (Z.ltb_spec n karatsubaSqrThreshold) as [Hk2|Hk2]].
  - apply wp_bind, wp_place1 with (x := x); [done|done|done|lia|done|lia|]. intros r h1 Hg1 Hf1 Hr Hc Hl Nx. specialize (Hrun r h1 Hf1). apply wp_bind.
    eapply wp_mono; [apply (basicMul_spec h1 r x x); [done|done|by eapply nat_wf|by eapply nat_wf|fold n; lia|slices|slices]|]. intros [] h2 (Hg2 & Hf2 & E). fold n in E, Hf2.
    eapply (square_done h h1 h2); [done|done|done|done|exact Hf2|slices|]. rewrite Hc. replace (2 * n) with (n + n) by lia. rewrite E. unfold n. by rewrite (nat_value _ _ _ Hrun).
  - apply wp_bind, wp_place1 with (x := x); [done|done|done|lia|done|lia|]. intros r h1 Hg1 Hf1 Hr Hc Hl Nx. specialize (Hrun r h1 Hf1). apply wp_bind.
    eapply wp_mono; [apply (basicSqr_spec h1 r x n); [done|done|by eapply nat_wf|lia|done|done|slices]|]. intros [] h2 (Hg2 & Hf2 & E).
    eapply (square_done h h1 h2); [done|done|done|done|exact Hf2|slices|]. rewrite Hc, E. unfold n. by rewrite (nat_value _ _ _ Hrun).
  - destruct (karatsubaLen_spec n karatsubaSqrThreshold ltac:(done) ltac:(lia)) as (k & Ek & Hk). apply wp_bind. eapply wp_of_val; [by rewrite Ek|].
    apply wp_bind, wp_slice_word; [done|done|cbn; lia|cbn; slices|]. cbn [from_option id].
    assert (Emax : max (6 * k) (2 * n) = Z.max (6 * k) (2 * n)) by (unfold max; destruct (Z.ltb_spec (2 * n) (6 * k)); lia). rewrite Emax.
    apply wp_bind, wp_place1 with (x := x); [done|done|done|lia|done|lia|]. intros r h1 Hg1 Hf1 Hr Hc Hl Nx. specialize (Hrun r h1 Hf1).
    eapply (karatsubaSqr_low h1 r x k (2 * n)); [done|done|by eapply nat_wf|lia|lia|lia|lia|lia|done|]. intros h2 Hg2 Hf2 E2.
    assert (Hr2 : wf h2 (sub r 0 (2 * n))) by (assert (wf h2 r) by (by eapply frame_wf); slices). assert (Hx2 : nat_is h2 x u) by (eapply nat_frame; [exact Hf2|done|]; intros q _ Eq; by rewrite Eq in Nx).
    assert (Hf02 : frame (all_of (fArray z)) h h2) by (eapply (frame_located h h1); [by apply frame_nowhere|exact Hl|exact Hf2|done]). assert (Ecn : fCount (sub r 0 (2 * n)) = 2 * n) by (cbn; lia).
    assert (Exk : num h1 x k = num h2 x k) by (symmetry; apply (num_frame _ _ _ _ _ Hf2); [by eapply nat_wf|]; intros q _ Eq; by rewrite Eq in Nx). rewrite Exk in E2. apply wp_bind. destruct (Z.ltb_spec k n) as [Hkn|Hkn].
    + eapply wp_mono; [apply (sqr_terms fuel h2 (length h2) (sub r 0 (2 * n)) x u k); [done|done|done|done|done|apply Hr2|done|fold n; lia|fold n; lia|fold n; lia|by rewrite Ecn]|].
      intros [] h3 (Hg3 & Hf3 & E3). apply (wp_norm h h3 z (sub r 0 (2 * n))); [done|by eapply frame_wf|done| |slices].
      eapply frame_step; [exact Hf02|exact Hf3|]. intros b i Hb [Hbe|[Hbe _]]; [unfold beyond in Hbe; pose proof (frame_length _ _ _ Hf02); lia|]. cbn in Hbe. subst b. destruct Hl as [[El _]|[El _]]; [by rewrite El|lia].
    + apply wp_ret. apply (wp_norm h h2 z (sub r 0 (2 * n))); [done|done| |done|slices]. rewrite Ecn, E2. replace k with n by lia. unfold n. by rewrite (nat_value _ _ _ Hx2).
Qed.

(** sqr gives the square. *)
Lemma sqr_spec h z x u : good h -> wf h z -> nat_is h x u -> coherent z x -> wp (sqr z x) h (result h z (u * u)).
Proof.
  intros Hh Hz Hx Hcx. pose proof (nat_wf _ _ _ Hx) as Hxw. unfold sqr. apply wp_bind, wp_len; [done..|]. pose proof (wf_len _ _ Hxw). apply sqr_rec_spec; (done || lia).
Qed.

(** ** Products of ranges *)

Lemma setUint64_spec h z w : good h -> wf h z -> is_uint 64 w -> wp (setUint64 z w) h (result h z w).
Proof. intros Hh Hz Hw. unfold setUint64. change _W with 64. rewrite wrap_small by done. rewrite Z.eqb_refl. by apply setWord_spec. Qed.

(** [a * (a + 1) * ... * b] *)
Definition range_product (a b : Z) : Z := fold_right Z.mul 1 (seqZ a (b + 1 - a)).

Lemma fold_mul_app l l' : fold_right Z.mul 1 (l ++ l') = fold_right Z.mul 1 l * fold_right Z.mul 1 l'.
Proof. induction l as [|x l IH]; cbn [app fold_right]; [by rewrite Z.mul_1_l|]. rewrite IH. ring. Qed.

Lemma range_product_split a m b : a <= m + 1 -> m <= b -> range_product a b = range_product a m * range_product (m + 1) b.
Proof.
  intros Ha Hb. unfold range_product. rewrite <- fold_mul_app. f_equal. replace (b + 1 - a) with ((m + 1 - a) + (b + 1 - (m + 1))) by lia. rewrite seqZ_app by lia. do 2 f_equal. lia.
Qed.

Lemma range_product_one a : range_product a a = a.
Proof. unfold range_product. replace (a + 1 - a) with 1 by lia. rewrite seqZ_cons, seqZ_nil by lia. cbn [fold_right]. lia. Qed.

(** A result in the nil slice is in a new array, or is nil. *)
Lemma frame_nil h h' : good h -> frame (all_of EmptyArray) h h' -> frame nowhere h h'.
Proof.
  intros Hh Hf. assert (Hsc : scratch h (length h) fZero) by (split; [by apply zero_wf, good_ok|by left]). pose proof (frame_scratch h h' (length h) fZero Hh Hsc Hf) as Hb.
  eapply frame_weaken; [exact Hb|]. unfold beyond. intros a i Ha ?. lia.
Qed.

Lemma nil_coherent h h' z x : good h -> good h' -> wf h z -> wf h' x -> located h fZero x -> coherent z x.
Proof.
  intros Hh Hh' Hz Hx [[E1 E2]|[Hge _]]; [|intros E; destruct Hz; lia]. intros E. cbn in E1. assert (Ez : fArray z = EmptyArray) by (by rewrite E, E1).
  rewrite (nil_zero h z (good_ok _ Hh) Hz Ez), (nil_zero h' x (good_ok _ Hh') Hx); done.
Qed.

(** Two numbers computed in new storage, then their product. *)
Lemma wp_two_mul (m1 m2 : B nat_) h z u v : good h -> wf h z -> wp m1 h (result h fZero u) -> (forall h1, good h1 -> frame nowhere h h1 -> wp m2 h1 (result h1 fZero v)) ->
  wp (x ← m1; y ← m2; mul z x y) h (result h z (u * v)).
Proof.
  intros Hh Hz H1 H2. apply wp_bind. eapply wp_mono; [exact H1|]. intros x h1 (Hg1 & Hf1 & Hx & Lx). apply (frame_nil h h1 Hh) in Hf1.
  apply wp_bind. eapply wp_mono; [by apply H2|]. intros y h2 (Hg2 & Hf2 & Hy & Ly). apply (frame_nil h1 h2 Hg1) in Hf2. assert (Hz1 : wf h1 z) by (by eapply frame_wf). assert (Hz2 : wf h2 z) by (eapply frame_wf; [exact Hf2|done]). assert (Hx2 : nat_is h2 x u) by (eapply nat_nowhere; [exact Hf2|done]).
  eapply wp_mono; [apply (mul_spec h2 z x y u v); [done|done|done|done| |]|].
  - apply (nil_coherent h h2); [done|done|done|by eapply nat_wf|done].
  - apply (nil_coherent h1 h2); [done|done|done|by eapply nat_wf|done].
  - intros r h3 (Hg3 & Hf3 & Hr & Lr). split; [done|]. assert (Hf02 : frame nowhere h h2) by (by eapply frame_trans). split; [eapply frame_step; [by apply frame_nowhere|exact Hf3|done]|].
    split; [done|]. apply (located_trans nowhere h h2 z z r); [done|by left|done].
Qed.

(** mulRange, for bounds up to 2^63, where their sum does not overflow.  Each call halves the range. *)
Lemma mulRange_spec fuel : forall h z a b, good h -> wf h z -> is_uint 64 a -> 0 <= b <= 2 ^ 63 -> b - a < 2 ^ (Z.of_nat fuel - 1) -> (0 < fuel)%nat ->
  wp (mulRange fuel z a b) h (result h z (if a =? 0 then 0 else range_product a b)).
Proof.
  induction fuel as [|fuel IH]; intros h z a b Hh Hz Ha Hb Hf H0; [lia|]. cbn [mulRange]. unfold is_uint in *.
  destruct (Z.eqb_spec a 0) as [->|Ha0]; [by apply setUint64_spec|]. destruct (Z.ltb_spec b a) as [Hlt|Hge].
  { unfold range_product. rewrite seqZ_nil by lia. by apply setUint64_spec. }
  destruct (Z.eqb_spec a b) as [<-|Hne].
  { rewrite range_product_one. by apply setUint64_spec. }
  rewrite (wrap_small 64 (a + 1)) by (unfold is_uint; lia). assert (Hnil : forall h1, good h1 -> wf h1 fZero) by (intros; by apply zero_wf, good_ok).
  destruct (Z.eqb_spec (a + 1) b) as [<-|Hne1].
  { rewrite (range_product_split a a), !range_product_one by lia. apply wp_two_mul; [done|done|apply setUint64_spec; [done|auto|unfold is_uint; lia]|intros; apply setUint64_spec; [done|auto|unfold is_uint; lia]]. }
  rewrite (wrap_small 64 (a + b)) by (unfold is_uint; lia). pose proof (Z.div_mod (a + b) 2 ltac:(lia)). pose proof (Z.mod_pos_bound (a + b) 2 ltac:(lia)). set (m := (a + b) / 2) in *.
  assert (Hf1 : (0 < fuel)%nat) by (destruct fuel; [cbn in Hf; lia|lia]). assert (Hp : 2 ^ (Z.of_nat (Datatypes.S fuel) - 1) = 2 * 2 ^ (Z.of_nat fuel - 1)) by (rewrite <- Z.pow_succ_r by lia; f_equal; lia).
  rewrite (wrap_small 64 (m + 1)) by (unfold is_uint; lia). rewrite (range_product_split a m b) by lia. apply wp_two_mul; [done|done| |].
  - specialize (IH h fZero a m). rewrite (proj2 (Z.eqb_neq a 0)) in IH by done. apply IH; (done || auto || lia).
  - intros h1 Hg1 _. specialize (IH h1 fZero (m + 1) b). rewrite (proj2 (Z.eqb_neq (m + 1) 0)) in IH by lia. apply IH; (done || auto || lia).
Qed.

End Sqr2.
