(* ===== verification/BigDiv.v ===== *)
(** * math/big: division

    Division of natural numbers (src/Source/Gold/math/big/nat_elements.go): by a word, and Knuth's algorithm D with its temporaries
    from a pool.  The pool is the sync.Pool of src/Source/Gold/Sync.pas, a queue. *)

From S2P Require Import Prelude Bits State Slices BigArith BigNat.

Local Open Scope go_scope.

Definition divW (z x : nat_) (y : Z) : B (nat_ * Z) :=
  m ← len x;
  if y =? 0 then raise Explicit
  else if y =? 1 then q ← set z x; mret (q, 0)
  else if m =? 0 then q ← slice_ z None (Some 0); mret (q, 0)
  else
    z ← make_ z m;
    r ← divWVW z 0 x y;
    q ← norm z;
    mret (q, r).

Definition modW (x : nat_) (d : Z) : B Z :=
  n ← len x;
  q ← make_ fZero n;
  divWVW q 0 x d.

(** [x1<<_W + x2 > y1<<_W + y2] *)
Definition greaterThan (x1 x2 y1 y2 : Z) : bool := (y1 <? x1) || ((x1 =? y1) && (y2 <? x2)).

(** ** The pool *)

Abbreviation Pool := (list nat_).

Definition Get (p : Pool) : option nat_ * Pool := match p with [] => (None, []) | x :: p => (Some x, p) end.
Definition Put (p : Pool) (x : nat_) : Pool := p ++ [x].

Definition getNat (p : Pool) (n : Z) : B (nat_ * Pool) :=
  let '(v, p) := Get p in
  z ← make_ (default fZero v) n;
  mret (z, p).
Definition putNat := Put.

(** ** Long division *)

(** Correcting the trial digit; [x1], [x2] are the words of its product with [vn2]. *)
Fixpoint qhat_loop (fuel : nat) (qhat rhat x1 x2 vn1 vn2 ujn2 : Z) : outcome Z :=
  match fuel with
  | O => NoFuel
  | S fuel =>
      if greaterThan x1 x2 rhat ujn2 then
        let qhat := u64 (qhat - 1) in
        let prevRhat := rhat in
        let rhat := u64 (rhat + vn1) in
        if rhat <? prevRhat then Val qhat
        else let '(x1, x2) := mulWW qhat vn2 in qhat_loop fuel qhat rhat x1 x2 vn1 vn2 ujn2
      else Val qhat
  end.

(** The trial digit for position [j] (D3). *)
Definition trial (u v : nat_) (n j vn1 : Z) : B Z :=
  ujn ← get_Item u (j + n);
  if negb (ujn =? vn1) then
    u1 ← get_Item u (j + n - 1);
    '(qhat, rhat) ← lift (divWW ujn u1 vn1);
    vn2 ← get_Item v (n - 2);
    let '(x1, x2) := mulWW qhat vn2 in
    ujn2 ← get_Item u (j + n - 2);
    lift (qhat_loop 3 qhat rhat x1 x2 vn1 vn2 ujn2)
  else mret _M.

(** One digit of the quotient (D3, D4). *)
Definition digit (q u v qhatv : nat_) (n vn1 j : Z) : B unit :=
  qhat ← trial u v n j vn1;
  qv ← slice_ qhatv (Some 0) (Some n);
  c ← mulAddVWW qv v qhat 0;
  set_Item qhatv n c;;
  l ← len qhatv;
  u1 ← slice_ u (Some j) (Some (j + l)); u2 ← slice_ u (Some j) None;
  c ← subVV u1 u2 qhatv;
  qhat ← (if negb (c =? 0) then
            u1 ← slice_ u (Some j) (Some (j + n)); u2 ← slice_ u (Some j) None;
            c ← addVV u1 u2 v;
            t ← get_Item u (j + n);
            set_Item u (j + n) (u64 (t + c));;
            mret (u64 (qhat - 1))
          else mret qhat);
  set_Item q j qhat.

Definition divLarge (p : Pool) (z u uIn vIn : nat_) : B (nat_ * nat_ * Pool) :=
  n ← len vIn;
  lu ← len uIn;
  let m := lu - n in
  top ← get_Item vIn (n - 1);
  let shift := nlz top in
  '(v, p) ← getNat p n;
  shlVU v vIn shift;;
  u ← make_ u (lu + 1);
  u0 ← slice_ u (Some 0) (Some lu);
  c ← shlVU u0 uIn shift;
  set_Item u lu c;;
  al ← alias z u;
  let z := if al : bool then fZero else z in
  q ← make_ z (m + 1);
  '(qhatv, p) ← getNat p (n + 1);
  vn1 ← get_Item v (n - 1);
  loop_down m 0 (λ j _, digit q u v qhatv n vn1 j) tt;;
  let p := putNat (putNat p v) qhatv in
  q ← norm q;
  shrVU u u shift;;
  r ← norm u;
  mret (q, r, p).

Definition div (p : Pool) (z z2 u v : nat_) : B (nat_ * nat_ * Pool) :=
  lv ← len v;
  if lv =? 0 then raise Explicit
  else
    c ← cmp u v;
    if c <? 0 then
      q ← slice_ z None (Some 0);
      r ← set z2 u;
      mret (q, r, p)
    else if lv =? 1 then
      v0 ← get_Item v 0;
      '(q, r2) ← divW z u v0;
      r ← setWord z2 r2;
      mret (q, r, p)
    else divLarge p z z2 u v.

(** [2^192 - 1] by [2^64 + 1]. *)
Example div_example :
  match div [] fZero fZero (SliceOf 1 0 3) (SliceOf 2 0 2) [[]; [2 ^ 64 - 1; 2 ^ 64 - 1; 2 ^ 64 - 1]; [1; 1]] with
  | Val (q, r, p, h) => num h q (fCount q) = (2 ^ 192 - 1) / (2 ^ 64 + 1) /\ num h r (fCount r) = (2 ^ 192 - 1) mod (2 ^ 64 + 1) /\ p = [SliceOf 3 0 2; SliceOf 6 0 3]
  | _ => False
  end.
Proof. vm_compute. done. Qed.

(** ** The trial digit *)

Section Trial.

Lemma greaterThan_spec x1 x2 y1 y2 : is_uint 64 x2 -> is_uint 64 y2 -> greaterThan x1 x2 y1 y2 = (y1 * 2 ^ 64 + y2 <? x1 * 2 ^ 64 + x2).
Proof.
  unfold is_uint, greaterThan. intros H1 H2. destruct (Z.ltb_spec y1 x1) as [Hl|Hl]; cbn [orb]; [symmetry; apply Z.ltb_lt; lia|].
  destruct (Z.eqb_spec x1 y1) as [->|Hne]; cbn [andb]; [destruct (Z.ltb_spec y2 x2); symmetry; [apply Z.ltb_lt|apply Z.ltb_ge]; lia|].
  symmetry. apply Z.ltb_ge. nia.
Qed.

(** The loop keeps [qhat] at least the quotient of the three top words of the dividend by the two of the divisor, and
    [a - qhat * vn1] in [rhat]; it ends after at most two corrections. *)
Lemma qhat_loop_spec fuel a u2 vn1 vn2 : is_uint 64 u2 -> is_uint 64 vn2 -> 2 ^ 63 <= vn1 < 2 ^ 64 ->
  forall qhat rhat x1 x2, is_uint 64 qhat -> is_uint 64 rhat -> rhat = a - qhat * vn1 -> mulWW qhat vn2 = (x1, x2) -> 2 ^ 64 <= rhat + Z.of_nat fuel * vn1 -> 0 <= a ->
  (a * 2 ^ 64 + u2) / (vn1 * 2 ^ 64 + vn2) <= qhat ->
  qhat_loop (S fuel) qhat rhat x1 x2 vn1 vn2 u2 = Val ((a * 2 ^ 64 + u2) / (vn1 * 2 ^ 64 + vn2)).
Proof.
  intros Hu2 Hv2 Hv1. set (V2 := vn1 * 2 ^ 64 + vn2). set (U3 := a * 2 ^ 64 + u2). assert (HV : 0 < V2) by (unfold V2, is_uint in *; lia).
  induction fuel as [|fuel IH]; intros qhat rhat x1 x2 Hq Hr Er Em Hfuel Ha Hle; [unfold is_uint in Hr; lia|].
  destruct (mul_word qhat vn2 Hq Hv2) as (hi & lo & E & Hhi & Hlo & Ep). unfold mulWW, mulWW_g in Em. rewrite E in Em. injection Em as -> ->.
  assert (HU : 0 <= U3) by (unfold U3, is_uint in *; lia). assert (HqU : 0 <= U3 / V2) by (by apply Z.div_pos).
  change (qhat_loop (S (S fuel)) qhat rhat x1 x2 vn1 vn2 u2) with (if greaterThan x1 x2 rhat u2 then
        let qhat := u64 (qhat - 1) in let prevRhat := rhat in let rhat := u64 (rhat + vn1) in
        if rhat <? prevRhat then Val qhat else let '(x1, x2) := mulWW qhat vn2 in qhat_loop (S fuel) qhat rhat x1 x2 vn1 vn2 u2 else Val qhat).
  rewrite greaterThan_spec by done. rewrite Ep. assert (Eq : qhat * V2 - U3 = qhat * vn2 - (rhat * 2 ^ 64 + u2)) by (rewrite Er; unfold V2, U3; ring).
  destruct (Z.ltb_spec (rhat * 2 ^ 64 + u2) (qhat * vn2)) as [Hgt|Hng].
  2:{ f_equal. apply Z.le_antisymm; [|done]. apply Z.div_le_lower_bound; [done|]. lia. }
  assert (Hlt : U3 / V2 < qhat) by (apply Z.div_lt_upper_bound; lia). cbv zeta. unfold is_uint in *.
  rewrite (wrap_small 64 (qhat - 1)) by (unfold is_uint; lia). destruct (Z.le_gt_cases (2 ^ 64) (rhat + vn1)) as [Hov|Hov].
  - assert (E2 : u64 (rhat + vn1) = rhat + vn1 - 2 ^ 64) by (unfold wrap; symmetry; apply (Z.mod_unique _ _ 1); lia). rewrite E2. rewrite (proj2 (Z.ltb_lt _ rhat)) by lia. f_equal.
    apply Z.le_antisymm; [|lia]. apply Z.div_le_lower_bound; [done|].
    assert (Eq2 : (qhat - 1) * V2 - U3 = (qhat - 1) * vn2 - ((rhat + vn1) * 2 ^ 64 + u2)) by (rewrite Er; unfold V2, U3; ring). nia.
  - rewrite (wrap_small 64 (rhat + vn1)) by (unfold is_uint; lia). rewrite (proj2 (Z.ltb_ge (rhat + vn1) rhat)) by lia.
    destruct (mulWW (qhat - 1) vn2) as [y1 y2] eqn:Em. apply IH; [unfold is_uint; lia|unfold is_uint; lia|rewrite Er; ring|done|lia|done|lia].
Qed.

(** The quotient by the two top words is the digit or one more. *)
Lemma trial_bounds V2 vl U3 ul p : 0 <= vl < p -> 0 <= ul < p -> 0 < p -> 0 <= U3 -> 2 ^ 64 <= V2 -> U3 / V2 < 2 ^ 64 ->
  let D := V2 * p + vl in let U := U3 * p + ul in
  U / D <= U3 / V2 <= U / D + 1.
Proof.
  intros Hvl Hul Hp HU HV2 Hq. assert (HV : 0 < V2) by lia. cbv zeta. set (D := V2 * p + vl). set (U := U3 * p + ul). assert (HD : 0 < D) by (unfold D; nia).
  pose proof (Z.div_mod U3 V2 ltac:(lia)) as Ed. pose proof (Z.mod_pos_bound U3 V2 HV) as Hm. set (q := U3 / V2) in *. set (r := U3 mod V2) in *. assert (Hq0 : 0 <= q) by (unfold q; apply Z.div_pos; lia). split.
  - apply Z.lt_succ_r. apply Z.div_lt_upper_bound; [done|]. unfold D, U. rewrite Ed. nia.
  - assert (q - 1 <= U / D); [|lia]. apply Z.div_le_lower_bound; [done|]. unfold D, U. rewrite Ed. nia.
Qed.

(** When the top words agree the greatest word is the digit or one more. *)
Lemma trial_equal vn1 vl U p : 2 ^ 63 <= vn1 -> 0 <= vl < p -> 0 < p -> let D := vn1 * p + vl in vn1 * (p * 2 ^ 64) <= U -> U < D * 2 ^ 64 -> U / D <= 2 ^ 64 - 1 <= U / D + 1.
Proof.
  intros Hv Hvl Hp. cbv zeta. intros Hlo Hhi. set (D := vn1 * p + vl) in *. assert (HD : 0 < D) by (unfold D; nia). split.
  - apply Z.lt_le_pred. apply Z.div_lt_upper_bound; [done|lia].
  - assert (2 ^ 64 - 2 <= U / D); [|lia]. apply Z.div_le_lower_bound; [done|]. unfold D. nia.
Qed.

End Trial.

(** ** One digit *)

Section Digit.
Implicit Types (h : words) (z x y q r u v : nat_).

Lemma num_2 h s : num h s 2 = word h s 0 + word h s 1 * 2 ^ 64.
Proof. change 2 with (1 + 1) at 1. rewrite num_succ, num_1 by lia. done. Qed.

Lemma num_3 h s : num h s 3 = (word h s 2 * 2 ^ 64 + word h s 1) * 2 ^ 64 + word h s 0.
Proof. change 3 with (2 + 1) at 1. rewrite num_succ, num_2 by lia. change (pw 2) with (2 ^ 64 * 2 ^ 64). ring. Qed.

Lemma trial_spec h u v n j vn1 : good h -> wf h u -> wf h v -> 2 <= n -> 0 <= j -> j + n < fCount u -> fCount v = n -> vn1 = word h v (n - 1) -> 2 ^ 63 <= vn1 ->
  num h (sub u j 0) (n + 1) < num h v n * 2 ^ 64 ->
  exists qhat, trial u v n j vn1 h = Val (qhat, h) /\ is_uint 64 qhat /\ num h (sub u j 0) (n + 1) / num h v n <= qhat <= num h (sub u j 0) (n + 1) / num h v n + 1.
Proof.
  intros [Hh Hw] Hu Hv Hn Hj Hlu Hlv -> Hv1 Hlt. set (vn1 := word h v (n - 1)) in *. set (p := pw (n - 2)). assert (Hp : 0 < p) by (apply pw_pos; lia).
  pose proof (word_uint h v (n - 1) Hw) as Hvu. fold vn1 in Hvu. pose proof (word_uint h v (n - 2) Hw) as Hvu2.
  pose proof (word_uint h u (j + n) Hw) as Hu0. pose proof (word_uint h u (j + n - 1) Hw) as Hu1. pose proof (word_uint h u (j + n - 2) Hw) as Hu2.
  set (u0 := word h u (j + n)) in *. set (u1 := word h u (j + n - 1)) in *. set (u2 := word h u (j + n - 2)) in *. set (vn2 := word h v (n - 2)) in *.
  assert (ED : num h v n = (vn1 * 2 ^ 64 + vn2) * p + num h v (n - 2)).
  { rewrite (num_cut h v (n - 2) n 0) by lia. replace (n - (n - 2)) with 2 by lia. rewrite num_2, !word_sub. replace (n - 2 + 1) with (n - 1) by lia. rewrite Z.add_0_r. fold vn1 vn2 p. ring. }
  assert (EU : num h (sub u j 0) (n + 1) = ((u0 * 2 ^ 64 + u1) * 2 ^ 64 + u2) * p + num h (sub u j 0) (n - 2)).
  { rewrite (num_cut h (sub u j 0) (n - 2) (n + 1) 0) by lia. replace (n + 1 - (n - 2)) with 3 by lia. rewrite num_3, !word_sub. replace (j + (n - 2 + 2)) with (j + n) by lia.
    replace (j + (n - 2 + 1)) with (j + n - 1) by lia. replace (j + (n - 2 + 0)) with (j + n - 2) by lia. fold u0 u1 u2 p. ring. }
  pose proof (num_bound h v (n - 2) Hw ltac:(lia)) as Hvl. pose proof (num_bound h (sub u j 0) (n - 2) Hw ltac:(lia)) as Hul. fold p in Hvl, Hul.
  unfold trial, mbind, M_bind. rewrite (wp_word_val h u) by (done || lia). fold u0. destruct (Z.eqb_spec u0 vn1) as [E|E]; cbn [negb].
  - exists _M. split; [done|]. split; [done|]. rewrite ED, EU in *. replace ((vn1 * 2 ^ 64 + vn2) * p + num h v (n - 2)) with (vn1 * (2 ^ 64 * p) + (vn2 * p + num h v (n - 2))) in * by ring.
    apply trial_equal; [done|unfold is_uint in *; nia|lia| |done]. rewrite E. unfold is_uint in *. nia.
  - assert (Hlt0 : u0 < vn1).
    { rewrite ED, EU in Hlt. unfold is_uint in *. destruct (Z.lt_trichotomy u0 vn1) as [?|[?|Hgt]]; [done|lia|]. exfalso.
      assert ((vn1 * 2 ^ 64 + vn2) * p + num h v (n - 2) < (vn1 + 1) * (2 ^ 64 * p)) by nia. assert ((vn1 + 1) * (2 ^ 64 * p) <= u0 * (2 ^ 64 * p)) by nia. nia. }
    rewrite (wp_word_val h u) by (done || lia). fold u1. unfold lift, divWW. rewrite div_word by done. rewrite (wp_word_val h v) by (done || lia). fold vn2.
    set (a := u0 * 2 ^ 64 + u1). assert (Ha : 0 <= a < vn1 * 2 ^ 64) by (unfold a, is_uint in *; nia). assert (Hq0 : is_uint 64 (a / vn1)) by (split; [apply Z.div_pos; lia|apply Z.div_lt_upper_bound; lia]).
    pose proof (Z.div_mod a vn1 ltac:(lia)) as Ea. pose proof (Z.mod_pos_bound a vn1 ltac:(lia)) as Hr.
    destruct (mulWW (a / vn1) vn2) as [x1 x2] eqn:Em. rewrite (wp_word_val h u) by (done || lia). fold u2.
    assert (HV2 : 2 ^ 64 <= vn1 * 2 ^ 64 + vn2) by (unfold is_uint in *; lia).
    assert (Hdiv : (a * 2 ^ 64 + u2) / (vn1 * 2 ^ 64 + vn2) <= a / vn1).
    { apply Z.lt_succ_r. apply Z.div_lt_upper_bound; [lia|]. unfold is_uint in *. nia. }
    rewrite (qhat_loop_spec 2 a u2 vn1 vn2 Hu2 Hvu2 ltac:(unfold is_uint in *; lia) (a / vn1) (a mod vn1) x1 x2 Hq0); [|unfold is_uint in *; lia|lia|done|lia|lia|done].
    exists ((a * 2 ^ 64 + u2) / (vn1 * 2 ^ 64 + vn2)). split; [done|]. assert (H0 : 0 <= (a * 2 ^ 64 + u2) / (vn1 * 2 ^ 64 + vn2)) by (apply Z.div_pos; unfold is_uint in *; lia).
    split; [unfold is_uint in *; lia|]. rewrite ED, EU. fold a. apply trial_bounds; [done|done|done|unfold is_uint in *; lia|done|unfold is_uint in *; lia].
Qed.

End Digit.

Section Digits.
Implicit Types (h : words) (z x y q r u v : nat_).

(** The vectors of the algorithm lie in arrays of their own. *)
Definition distinct (l : list nat_) : Prop := NoDup (fArray <$> l).

Definition digit_frame q u qhatv n j : nat -> Z -> Prop := λ a i, a = fArray qhatv \/ win u j (j + n + 1) a i \/ win q j (j + 1) a i.

(** Subtracting the multiple of the divisor: the correct remainder modulo the size of the window, and whether the digit was one too large. *)
Lemma digit_subtract h u v qv j n D U qhat (K : Z -> B unit) Q : good h -> wf h u -> wf h v -> wf h qv -> 0 <= n -> 0 <= j -> j + n < fCount u -> fCount v = n -> fCount qv = n + 1 ->
  fArray u <> fArray v -> fArray u <> fArray qv -> is_uint 64 qhat ->
  num h v n = D -> num h (sub u j 0) (n + 1) = U -> num h qv (n + 1) = qhat * D -> 0 < D -> U / D <= qhat <= U / D + 1 ->
  (forall h', good h' -> frame (win u j (j + n + 1)) h h' -> num h' (sub u j 0) (n + 1) = U mod D -> wp (K (U / D)) h' Q) ->
  wp (u1 ← slice_ u (Some j) (Some (j + (n + 1))); u2 ← slice_ u (Some j) None;
      c ← subVV u1 u2 qv;
      qh ← (if negb (c =? 0) then
            u1 ← slice_ u (Some j) (Some (j + n)); u2 ← slice_ u (Some j) None;
            c ← addVV u1 u2 v;
            t ← get_Item u (j + n);
            set_Item u (j + n) (u64 (t + c));;
            mret (u64 (qhat - 1))
          else mret qhat);
      K qh) h Q.
Proof.
  intros Hh Hu Hv Hqv Hn Hj Hju Hcv Hcq Nuv Nuq Hq ED EU EQ HD Hb HK. set (L := fCount u) in *.
  apply wp_bind, wp_slice_word; [done|done|cbn; lia|cbn; slices|]. apply wp_bind, wp_slice_word; [done|done|cbn; lia|cbn; slices|]. cbn [from_option id]. fold L.
  assert (E1 : fCount (sub u j (j + (n + 1))) = n + 1) by (cbn; lia). apply wp_bind.
  eapply wp_mono; [apply (subVV_spec h (sub u j (j + (n + 1))) (sub u j L) qv); [done|slices|slices|done|cbn; lia|cbn; lia|slices|slices]|]. rewrite E1.
  intros c h1 (Hg1 & Hf1 & Hc & E). rewrite E1 in *. assert (Hf1' : frame (win u j (j + n + 1)) h h1) by (eapply frame_weaken; [exact Hf1|slices]).
  change (num h1 (sub u j (j + (n + 1))) (n + 1)) with (num h1 (sub u j 0) (n + 1)) in E. change (num h (sub u j L) (n + 1)) with (num h (sub u j 0) (n + 1)) in E. rewrite EU, EQ in E.
  pose proof (num_bound h1 (sub u j 0) (n + 1) (proj2 Hg1) ltac:(lia)) as Hb1. pose proof (num_bound h v n (proj2 Hh) Hn) as HbD. rewrite ED in HbD.
  pose proof (num_bound h (sub u j 0) (n + 1) (proj2 Hh) ltac:(lia)) as HbU. rewrite EU in HbU. pose proof (pw_pos n Hn) as Hpn. rewrite pw_succ in * by lia.
  pose proof (Z.div_mod U D ltac:(lia)) as Ed. pose proof (Z.mod_pos_bound U D HD) as Hm. set (q0 := U / D) in *. set (R := U mod D) in *.
  assert (Hq0 : 0 <= q0) by (unfold q0; apply Z.div_pos; lia). destruct (Z.eqb_spec c 0) as [->|Hc0]; cbn [negb].
  - assert (qhat = q0) as -> by nia. apply wp_bind, wp_ret. apply HK; [done|done|]. nia.
  - assert (c = 1) as -> by lia. assert (qhat = q0 + 1) as -> by nia.
    assert (Hu1 : wf h1 u) by (by eapply frame_wf). assert (Hv1 : wf h1 v) by (by eapply frame_wf).
    apply wp_bind, wp_bind, wp_slice_word; [done|done|cbn; lia|cbn; slices|]. apply wp_bind, wp_slice_word; [done|done|cbn; lia|cbn; slices|]. cbn [from_option id]. fold L.
    assert (E2 : fCount (sub u j (j + n)) = n) by (cbn; lia). apply wp_bind.
    eapply wp_mono; [apply (addVV_spec h1 (sub u j (j + n)) (sub u j L) v); [done|slices|slices|done|cbn; lia|cbn; lia|slices|slices]|]. rewrite E2.
    intros c2 h2 (Hg2 & Hf2 & Hc2 & E3). rewrite E2 in *. assert (Hf2' : frame (win u j (j + n)) h1 h2) by (eapply frame_weaken; [exact Hf2|slices]). assert (Hu2 : wf h2 u) by (by eapply frame_wf).
    change (num h2 (sub u j (j + n)) n) with (num h2 (sub u j 0) n) in E3. change (num h1 (sub u j L) n) with (num h1 (sub u j 0) n) in E3.
    rewrite (num_frame _ _ _ v n Hf1') in E3 by (done || slices). rewrite ED in E3.
    apply wp_bind, wp_word; [done|lia|]. apply wp_bind. apply wp_set_word; [done|done|slices|apply wrap_is_uint; lia|]. intros h3 Hg3 Hf3 Ew. apply wp_ret.
    rewrite (wrap_small 64 (q0 + 1 - 1)) by (unfold is_uint in *; lia). replace (q0 + 1 - 1) with q0 by lia.
    apply HK; [done|eapply frame_step; [eapply frame_step; [exact Hf1'|exact Hf2'|slices]|exact Hf3|slices]|]. rewrite num_succ, word_sub, Ew by lia. rewrite (word_frame _ _ _ u (j + n) Hf2') by (done || slices).
    rewrite (num_frame_sub _ _ _ _ _ _ _ Hf3) by (done || slices). rewrite num_succ, word_sub in E by lia. set (t := word h1 u (j + n)) in *. set (lo := num h1 (sub u j 0) n) in *.
    assert (Et : t * pw n + (lo + D) = R + 2 ^ 64 * pw n) by nia. pose proof (num_bound h2 (sub u j 0) n (proj2 Hg2) Hn) as Hb2. pose proof (word_uint h1 u (j + n) (proj2 Hg1)) as Ht. fold t in Ht.
    assert (Eq : u64 (t + c2) = t + c2 - 2 ^ 64); [|rewrite Eq; lia]. unfold wrap. symmetry. unfold is_uint in Ht. apply (Z.mod_unique _ _ 1); [left|lia]. nia.
Qed.

Lemma digit_spec h q u v qhatv n vn1 j : good h -> wf h q -> wf h u -> wf h v -> wf h qhatv -> 2 <= n -> 0 <= j -> j + n < fCount u -> j < fCount q -> fCount v = n -> fCount qhatv = n + 1 ->
  distinct [q; u; v; qhatv] -> vn1 = word h v (n - 1) -> 2 ^ 63 <= vn1 -> num h (sub u j 0) (n + 1) < num h v n * 2 ^ 64 ->
  wp (digit q u v qhatv n vn1 j) h (λ _ h', good h' /\ frame (digit_frame q u qhatv n j) h h' /\
    word h' q j = num h (sub u j 0) (n + 1) / num h v n /\ num h' (sub u j 0) (n + 1) = num h (sub u j 0) (n + 1) mod num h v n).
Proof.
  intros Hh Hq Hu Hv Hqv Hn Hj Hju Hjq Hcv Hcq Hdis Evn Hvn Hlt. unfold distinct in Hdis. cbn in Hdis. rewrite !NoDup_cons, !not_elem_of_cons in Hdis.
  destruct Hdis as ((Nqu & Nqv & Nqq & _) & (Nuv & Nuq & _) & (Nvq & _) & _).
  destruct (trial_spec h u v n j vn1 Hh Hu Hv Hn Hj Hju Hcv Evn Hvn Hlt) as (qhat & Et & Hqu & Hqb). set (D := num h v n) in *. set (U := num h (sub u j 0) (n + 1)) in *.
  unfold digit. apply wp_bind. eapply wp_of_val; [exact Et|]. apply wp_bind, wp_slice_word; [done|done|cbn; lia|cbn; slices|]. cbn [from_option id]. apply wp_bind.
  assert (E1 : fCount (sub qhatv 0 n) = n) by (cbn; lia).
  eapply wp_mono; [apply (mulAddVWW_spec h (sub qhatv 0 n) v qhat 0); [done|slices|done|lia|slices|done|unfold is_uint; lia]|]. rewrite E1, Z.add_0_r. intros c h1 (Hg1 & Hf1 & Hc & E). rewrite E1 in *.
  assert (Hf1' : frame (win qhatv 0 n) h h1) by (eapply frame_weaken; [exact Hf1|slices]). assert (Hqv1 : wf h1 qhatv) by (by eapply frame_wf). rewrite num_sub_0 in E.
  apply wp_bind, wp_set_word; [done|done|slices|done|]. intros h2 Hg2 Hf2 Ew. apply wp_bind. assert (Hqv2 : wf h2 qhatv) by (by eapply frame_wf).
  assert (Hf02 : frame (λ a _, a = fArray qhatv) h h2) by (eapply frame_step; [eapply frame_weaken; [exact Hf1'|slices]|exact Hf2|slices]).
  assert (EQ : num h2 qhatv (n + 1) = qhat * D) by (rewrite num_succ, Ew by lia; rewrite (num_frame _ _ _ _ n Hf2) by (done || slices); rewrite E; unfold D; lia).
  assert (Hu2 : wf h2 u) by (by eapply frame_wf). assert (Hv2 : wf h2 v) by (by eapply frame_wf). assert (Hq2 : wf h2 q) by (by eapply frame_wf).
  apply wp_len; [done|done|]. rewrite Hcq.
  assert (HD : 0 < D). { unfold D. rewrite (num_cut h v (n - 1) n 0) by lia. replace (n - (n - 1)) with 1 by lia. rewrite num_1, word_sub, Z.add_0_r, <- Evn.
    pose proof (num_bound h v (n - 1) (proj2 Hh) ltac:(lia)). pose proof (pw_pos (n - 1) ltac:(lia)). nia. }
  apply (digit_subtract h2 u v qhatv j n D U qhat); [done|done|done|done|lia|done|done|done|done|done|done|done| | |done|done|done|].
  { unfold D. apply (num_frame _ _ _ _ _ Hf02); [done|]. intros i _ Ei. by rewrite Ei in Nvq. }
  { unfold U. apply (num_frame_sub _ _ _ _ _ _ _ Hf02); [done|]. intros i _ Ei. by rewrite Ei in Nuq. }
  intros h3 Hg3 Hf3 Er. assert (Hq3 : wf h3 q) by (by eapply frame_wf). assert (Hu3 : wf h3 u) by (by eapply frame_wf).
  apply wp_set_word; [done|done|slices| |].
  { split; [apply Z.div_pos; [unfold U; apply num_bound; [apply Hh|lia]|done]|apply Z.div_lt_upper_bound; lia]. }
  intros h4 Hg4 Hf4 Ew4. split; [done|]. split.
  { eapply frame_step; [eapply frame_step; [eapply frame_weaken; [exact Hf02|by left]|exact Hf3|by right; left]|exact Hf4|by right; right]. }
  split; [done|]. rewrite (num_frame_sub _ _ _ _ _ _ _ Hf4) by (done || slices). done.
Qed.

End Digits.

(** ** All the digits *)

Section Loop.
Implicit Types (h : words) (z x y q r u v : nat_).

(** Before the digit [j]: what is left of the dividend and the digits found make the dividend, and what is left has no digit above [j]. *)
Definition dividing h q u (n m D N j : Z) : Prop :=
  num h u (m + n + 1) + D * pw (j + 1) * num h (sub q (j + 1) 0) (m - j) = N /\ num h u (m + n + 1) < D * pw (j + 1).

Lemma dividing_window h q u n m D N j : words_ok h -> 0 < n -> 0 <= j <= m -> 0 < D < pw n -> dividing h q u n m D N j ->
  num h (sub u j 0) (n + 1) < D * 2 ^ 64 /\ num h (sub u (j + n + 1) 0) (m - j) = 0 /\ num h u (m + n + 1) = num h u j + pw j * num h (sub u j 0) (n + 1).
Proof.
  intros Hw Hn Hj HD [_ Hlt]. assert (Ec : num h (sub u j 0) (m + n + 1 - j) = num h (sub u j 0) (n + 1) + pw (n + 1) * num h (sub u (j + n + 1) 0) (m - j)).
  { rewrite (num_cut h (sub u j 0) (n + 1) (m + n + 1 - j) 0) by lia. replace (m + n + 1 - j - (n + 1)) with (m - j) by lia. do 2 f_equal. apply num_ext. intros i _. rewrite !word_sub. f_equal. lia. }
  rewrite (num_cut h u j (m + n + 1) 0) in * by lia. rewrite pw_succ in Hlt by lia. pose proof (num_bound h u j Hw ltac:(lia)) as H1. pose proof (pw_pos j ltac:(lia)) as Hpj.
  pose proof (num_bound h (sub u j 0) (n + 1) Hw ltac:(lia)) as H2. pose proof (num_bound h (sub u (j + n + 1) 0) (m - j) Hw ltac:(lia)) as H3. rewrite (pw_succ n) in * by lia.
  assert (Hx : num h (sub u j 0) (m + n + 1 - j) < D * 2 ^ 64) by nia. rewrite Ec in *. assert (E0 : num h (sub u (j + n + 1) 0) (m - j) = 0) by nia. rewrite E0 in *. split; [lia|]. split; [done|]. ring.
Qed.

(** One turn keeps the relation. *)
Lemma dividing_step h h1 q u n m D N j (P : nat -> Z -> Prop) : words_ok h -> 0 < n -> 0 <= j <= m -> 0 < D < pw n -> dividing h q u n m D N j ->
  frame P h h1 -> wf h u -> wf h q -> (forall i, 0 <= i < j \/ j + n + 1 <= i < m + n + 1 -> ~ P (fArray u) (fStart u + i)) -> (forall i, j < i <= m -> ~ P (fArray q) (fStart q + i)) ->
  word h1 q j = num h (sub u j 0) (n + 1) / D -> num h1 (sub u j 0) (n + 1) = num h (sub u j 0) (n + 1) mod D ->
  dividing h1 q u n m D N (j - 1).
Proof.
  intros Hw Hn Hj HD HI Hf Hu Hq Pu Pq Ew Er. destruct (dividing_window h q u n m D N j Hw Hn Hj HD HI) as (Hlt & E0 & Ex). destruct HI as [HN HI].
  set (W := num h (sub u j 0) (n + 1)) in *. pose proof (Z.div_mod W D ltac:(lia)) as Ed. pose proof (Z.mod_pos_bound W D ltac:(lia)) as Hm. pose proof (pw_pos j ltac:(lia)) as Hpj.
  assert (El : num h1 u j = num h u j) by (apply (num_frame _ _ _ _ _ Hf Hu); intros i Hi; apply Pu; lia).
  assert (Eh : num h1 (sub u (j + n + 1) 0) (m - j) = 0) by (etrans; [apply (num_frame_sub _ _ _ _ _ _ _ Hf Hu); intros i Hi; apply Pu; lia|exact E0]).
  assert (Eu : num h1 u (m + n + 1) = num h u j + pw j * (W mod D)).
  { rewrite (num_cut h1 u j (m + n + 1) 0) by lia. rewrite El. do 2 f_equal. rewrite (num_cut h1 (sub u j 0) (n + 1) (m + n + 1 - j) 0) by lia. replace (m + n + 1 - j - (n + 1)) with (m - j) by lia.
    rewrite Er. rewrite (num_ext h1 _ h1 (sub u (j + n + 1) 0)) by (intros i _; rewrite !word_sub; f_equal; lia). rewrite Eh. lia. }
  assert (Eq : num h1 (sub q j 0) (m - j + 1) = W / D + 2 ^ 64 * num h (sub q (j + 1) 0) (m - j)).
  { rewrite (num_cons h1 _ 0) by lia. rewrite word_sub, Z.add_0_r, Ew. do 2 f_equal. rewrite <- (num_frame_sub _ _ _ q (j + 1) 0 (m - j) Hf Hq) by (intros i Hi; apply Pq; lia).
    apply num_ext. intros i _. rewrite !word_sub. f_equal. lia. }
  pose proof (num_bound h u j Hw ltac:(lia)) as H1. unfold dividing. replace (j - 1 + 1) with j by lia. replace (m - (j - 1)) with (m - j + 1) by lia. rewrite Eu, Eq. rewrite pw_succ in HN by lia. rewrite <- HN, Ex. set (qd := W / D) in *. set (r := W mod D) in *. set (Q := num h (sub q (j + 1) 0) (m - j)) in *.
  split; [rewrite Ed; ring|nia].
Qed.

Lemma digits_spec h q u v qhatv n m vn1 D N : good h -> wf h q -> wf h u -> wf h v -> wf h qhatv -> 2 <= n -> 0 <= m -> m + n < fCount u -> m < fCount q -> fCount v = n -> fCount qhatv = n + 1 ->
  distinct [q; u; v; qhatv] -> vn1 = word h v (n - 1) -> 2 ^ 63 <= vn1 -> num h v n = D -> num h u (m + n + 1) = N -> N < D * pw (m + 1) ->
  wp (loop_down m 0 (λ j _, digit q u v qhatv n vn1 j) tt) h (λ _ h', good h' /\ frame (λ a i, a = fArray qhatv \/ a = fArray u \/ a = fArray q) h h' /\
    num h' q (m + 1) = N / D /\ num h' u (m + n + 1) = N mod D).
Proof.
  intros Hh Hq Hu Hv Hqv Hn Hm Hmu Hmq Hcv Hcq Hdis Evn Hvn ED EN Hlt. pose proof Hdis as Hdis'. unfold distinct in Hdis'. cbn in Hdis'. rewrite !NoDup_cons, !not_elem_of_cons in Hdis'.
  destruct Hdis' as ((Nqu & Nqv & Nqq & _) & (Nuv & Nuq & _) & (Nvq & _) & _).
  assert (HD : 0 < D < pw n). { rewrite <- ED. split; [|apply num_bound; [apply Hh|lia]]. pose proof (num_top h v n (proj2 Hh) ltac:(lia) ltac:(lia)). pose proof (pw_pos (n - 1) ltac:(lia)). lia. }
  set (P := λ a (i : Z), a = fArray qhatv \/ a = fArray u \/ a = fArray q).
  apply (wp_loop_down (λ j _ h1, good h1 /\ frame P h h1 /\ dividing h1 q u n m D N j)); [lia| | |].
  - split; [done|]. split; [apply frame_refl|]. split; [|by rewrite EN]. rewrite Z.sub_diag, num_0, EN. lia.
  - intros j [] h1 Hj (Hg & Hf & HI). destruct (dividing_window h1 q u n m D N j (proj2 Hg) ltac:(lia) ltac:(lia) HD HI) as (Hw & _).
    assert (Ev : forall i, word h1 v i = word h v i) by (intros i; apply (word_frame _ _ _ _ _ Hf Hv); unfold P; intros [|[|]]; congruence).
    assert (EDv : num h1 v n = D) by (rewrite <- ED; apply num_ext; intros i _; apply Ev).
    eapply wp_mono; [apply (digit_spec h1 q u v qhatv n vn1 j); try (by eapply frame_wf); try done; try lia; rewrite ?Ev, ?EDv; done|].
    rewrite EDv. intros [] h2 (Hg2 & Hf2 & Eq & Er). split; [done|]. split.
    + eapply frame_step; [exact Hf|exact Hf2|]. unfold digit_frame, P, win. intros a i _. tauto.
    + eapply (dividing_step h1 h2); [apply Hg|lia|done|done|exact HI|exact Hf2|by eapply frame_wf|by eapply frame_wf| | |exact Eq|exact Er]; unfold digit_frame, win; intros i Hi; intros [?|[[? ?]|[? ?]]]; (congruence || lia).
  - intros [] h1 (Hg & Hf & HN & HI). change (0 - 1 + 1) with 0 in *. rewrite pw_0, Z.mul_1_r in *. replace (m - (0 - 1)) with (m + 1) in HN by lia. rewrite num_sub_0 in HN.
    split; [done|]. split; [done|]. pose proof (num_bound h1 u (m + n + 1) (proj2 Hg) ltac:(lia)). split; [apply (Z.div_unique N D _ (num h1 u (m + n + 1)))|apply (Z.mod_unique N D (num h1 q (m + 1)))]; lia.
Qed.

End Loop.

(** ** The pool and the scaling *)

Abbreviation arrays p := (fmap fArray p).

Section Scaling.
Implicit Types (h : words) (z x y q r u v : nat_) (p : Pool).

(** The slices of a pool lie in arrays of their own. *)
Definition pool_ok h p : Prop := Forall (λ x, wf h x /\ fArray x <> EmptyArray) p /\ NoDup (arrays p).

(** A temporary: in an array of the pool or in a new one. *)
Definition temporary h p v : Prop := fArray v ∈ arrays p \/ (length h <= fArray v)%nat.

Lemma pool_frame P h h' p : frame P h h' -> pool_ok h p -> pool_ok h' p.
Proof. intros Hf [Hp Hn]. split; [|done]. eapply Forall_impl; [exact Hp|]. intros x [Hx Hne]. split; [by eapply frame_wf|done]. Qed.

Lemma pool_old h p a : pool_ok h p -> a ∈ arrays p -> (a < length h)%nat /\ a <> EmptyArray.
Proof. intros [Hp _] (x & -> & Hx)%list_elem_of_fmap. rewrite Forall_forall in Hp. by destruct (Hp x Hx) as [(? & _) ?]. Qed.

Lemma getNat_spec h p n : good h -> pool_ok h p -> 0 < n ->
  wp (getNat p n) h (λ '(v, p') h', good h' /\ frame nowhere h h' /\ wf h' v /\ fCount v = n /\ temporary h p v /\ pool_ok h' p' /\ (fArray v ∉ arrays p') /\ (arrays p' ⊆ arrays p)).
Proof.
  intros Hh Hp Hn. unfold getNat. destruct p as [|x p]; cbn [Get default]; apply wp_bind.
  - apply wp_make; [done|by apply zero_wf, good_ok|lia|]. intros r h' Hg Hf Hr Hc Hl. apply wp_ret. destruct Hl as [[E _]|[Hge _]]; [by destruct (full_array h' r (good_ok _ Hg) Hr ltac:(lia))|].
    unfold temporary, pool_ok. cbn. repeat (split; [done|]). split; [by right|]. split; [split; [done|constructor]|]. split; [apply not_elem_of_nil|done].
  - pose proof (pool_old h (x :: p) (fArray x) Hp ltac:(left)) as [Hxl Hxe]. destruct Hp as [[[Hx _] Hp]%Forall_cons [Hni Hnd]%NoDup_cons].
    apply wp_make; [done|done|lia|]. intros r h' Hg Hf Hr Hc Hl. apply wp_ret. repeat (split; [done|]). assert (Hp' : pool_ok h' p) by (eapply pool_frame; [exact Hf|by split]).
    split; [destruct Hl as [[E _]|[Hge _]]; [left; rewrite E; left|by right]|]. split; [done|]. split; [|intros a Ha; by right].
    destruct Hl as [[-> _]|[Hge _]]; [done|]. intros Ha. destruct (pool_old h p _ (conj Hp Hnd) Ha). lia.
Qed.

Lemma putNat_spec h p x : pool_ok h p -> wf h x -> fArray x <> EmptyArray -> fArray x ∉ arrays p -> pool_ok h (putNat p x).
Proof.
  intros [Hp Hn] Hx He Ha. unfold putNat, Put. split; [apply Forall_app; split; [done|by apply Forall_singleton]|]. rewrite fmap_app. apply NoDup_app. split; [done|].
  split; [|apply NoDup_singleton]. intros a Hin ->%list_elem_of_singleton. done.
Qed.

(** The shift makes the top bit of the divisor 1. *)
Lemma nlz_spec (x : Z) : is_uint 64 x -> x <> 0 -> 0 <= nlz x < 64 /\ 2 ^ 63 <= x * 2 ^ nlz x < 2 ^ 64.
Proof.
  intros Hx H0. assert (E : nlz x = LeadingZeros64 x).
  { destruct (Len_family_bitlen 64 (Len 64) (LeadingZeros 64) x) as (_ & _ & E); [by do 5 right; left|done|]. destruct (Len_family_bitlen 64 Len64 LeadingZeros64 x) as (_ & _ & E2); [by do 3 right; left|done|]. unfold nlz, _W. lia. }
  rewrite E. apply leading_shift; [done|unfold is_uint in Hx; lia].
Qed.

(** Shifts between vectors of one length that start together or lie apart, the shift by 0 included. *)
Lemma shl_between h z x s : good h -> wf h z -> wf h x -> fCount z = fCount x -> 0 <= s < 64 -> coherent z x ->
  wp (shlVU z x s) h (left_in h z (λ (v c : Z), 0 <= c < 2 ^ s /\ v + c * pw (fCount z) = num h x (fCount z) * 2 ^ s)).
Proof.
  intros Hh Hz Hx Hc Hs Hco. destruct (decide (s = 0)) as [->|Hs0]; [|apply shlVU_spec; try done; [lia|lia|slices]]. rewrite shl_zero. apply wp_bind.
  apply (wp_copy_words h z x (fCount z)); [done|done|done|slices|lia|]. intros h' Hg Hf E. apply wp_ret. split; [done|]. split; [done|]. split; [lia|]. rewrite (num_ext h' z h x) by done. lia.
Qed.

Lemma shr_between h z x s : good h -> wf h z -> wf h x -> fCount z = fCount x -> 0 <= s < 64 -> coherent z x ->
  wp (shrVU z x s) h (left_in h z (λ (v c : Z), v = num h x (fCount z) / 2 ^ s)).
Proof.
  intros Hh Hz Hx Hc Hs Hco. destruct (decide (s = 0)) as [->|Hs0]; [|apply shrVU_spec; try done; [lia|lia|slices]]. rewrite shr_zero. apply wp_bind.
  apply (wp_copy_words h z x (fCount z)); [done|done|done|slices|lia|]. intros h' Hg Hf E. apply wp_ret. split; [done|]. split; [done|]. rewrite Z.div_1_r. by apply num_ext.
Qed.

Lemma scaled_bounds (s t low p low' w c : Z) : 0 <= s < 64 -> 0 < p -> 0 <= low < p -> 0 <= low' < p -> 0 <= c -> 2 ^ 63 <= t * 2 ^ s < 2 ^ 64 ->
  0 <= low' + w * p -> low' + w * p + c * (2 ^ 64 * p) = (low + t * p) * 2 ^ s -> c = 0 /\ 2 ^ 63 <= w.
Proof.
  intros Hs Hp Hl Hl' Hc Ht Hv E. assert (Hps : 0 < 2 ^ s) by (apply Z.pow_pos_nonneg; lia).
  assert (E64 : 2 ^ 64 = 2 ^ (64 - s) * 2 ^ s) by (rewrite <- Z.pow_add_r by lia; f_equal; lia).
  assert (Ht' : t + 1 <= 2 ^ (64 - s)) by (rewrite E64 in Ht; nia). assert (Htop : (t + 1) * 2 ^ s * p <= 2 ^ 64 * p) by (rewrite E64; nia).
  assert (Hlow : low * 2 ^ s < p * 2 ^ s) by nia. assert (Hlow0 : 0 <= low * 2 ^ s) by nia. assert (Hc0 : c * (2 ^ 64 * p) < 1 * (2 ^ 64 * p)) by nia. assert (c = 0) as -> by nia.
  split; [done|]. assert (2 ^ 63 * p <= t * 2 ^ s * p) by nia. nia.
Qed.

(** The divisor is scaled into a temporary: nothing is shifted out. *)
Lemma scaled_divisor h v vIn s : good h -> wf h v -> wf h vIn -> fCount v = fCount vIn -> 0 < fCount vIn -> fArray v <> fArray vIn ->
  word h vIn (fCount vIn - 1) <> 0 -> s = nlz (word h vIn (fCount vIn - 1)) ->
  wp (shlVU v vIn s) h (λ _ h', good h' /\ frame (all_of (fArray v)) h h' /\ num h' v (fCount v) = num h vIn (fCount v) * 2 ^ s /\ 2 ^ 63 <= word h' v (fCount v - 1)).
Proof.
  intros Hh Hv Hi Hc Hn Hne Ht ->. set (n := fCount vIn) in *. destruct (nlz_spec _ (word_uint h vIn (n - 1) (proj2 Hh)) Ht) as [Hs Hb]. set (t := word h vIn (n - 1)) in *. set (s := nlz t) in *.
  eapply wp_mono; [apply shl_between; try done; by intros E|]. rewrite Hc. intros c h' (Hg & Hf & Hc1 & E). rewrite Hc in *. assert (Hps : 0 < 2 ^ s) by (apply Z.pow_pos_nonneg; lia).
  pose proof (num_bound h' v n (proj2 Hg) ltac:(lia)) as Hb1. pose proof (num_bound h vIn (n - 1) (proj2 Hh) ltac:(lia)) as Hb2. pose proof (num_bound h' v (n - 1) (proj2 Hg) ltac:(lia)) as Hb3.
  assert (En : num h vIn n = num h vIn (n - 1) + t * pw (n - 1)) by (replace n with (n - 1 + 1) at 1 by lia; apply num_succ; lia).
  assert (En' : num h' v n = num h' v (n - 1) + word h' v (n - 1) * pw (n - 1)) by (replace n with (n - 1 + 1) at 1 by lia; apply num_succ; lia).
  assert (Ep : pw n = 2 ^ 64 * pw (n - 1)) by (replace n with (n - 1 + 1) at 1 by lia; apply pw_succ; lia). rewrite En, Ep in *. pose proof (pw_pos (n - 1) ltac:(lia)) as Hpp. set (p := pw (n - 1)) in *.
  destruct (scaled_bounds s t (num h vIn (n - 1)) p (num h' v (n - 1)) (word h' v (n - 1)) c Hs Hpp Hb2 Hb3 ltac:(lia) Hb) as [-> Hw]; [lia|lia|].
  split; [done|]. split; [eapply frame_weaken; [exact Hf|slices]|]. split; [lia|done].
Qed.

End Scaling.

(** ** Knuth's algorithm *)

Section DivLarge.
Implicit Types (h : words) (z x y q r u v : nat_) (p : Pool).

Lemma scaled_dividend {A} h z uIn U s (K : nat_ -> B A) Q : good h -> wf h z -> nat_is h uIn U -> coherent z uIn -> 0 <= s < 64 ->
  (forall u h', good h' -> frame (all_of (fArray z)) h h' -> wf h' u -> fCount u = fCount uIn + 1 -> located h z u -> num h' u (fCount uIn + 1) = U * 2 ^ s -> wp (K u) h' Q) ->
  wp (u ← make_ z (fCount uIn + 1);
      u0 ← slice_ u (Some 0) (Some (fCount uIn));
      c ← shlVU u0 uIn s;
      set_Item u (fCount uIn) c;;
      K u) h Q.
Proof.
  intros Hh Hz Hu Hc Hs HK. pose proof (nat_wf _ _ _ Hu) as Huw. pose proof (wf_len _ _ Huw) as Hl0. set (l := fCount uIn) in *.
  apply wp_bind, wp_make; [done|done|lia|]. intros u h1 Hg Hf Hr Hn Hl. assert (Hu1 : nat_is h1 uIn U) by (by eapply nat_nowhere). pose proof (nat_wf _ _ _ Hu1) as Huw1.
  assert (Hcu : coherent u uIn) by (by eapply located_coherent). apply wp_bind, wp_slice_word; [done|done|cbn; lia|cbn; slices|]. cbn [from_option id]. apply wp_bind.
  eapply wp_mono; [apply (shl_between h1 (sub u 0 l) uIn s); [done|slices|done|cbn; lia|done|slices]|]. intros c h2 (Hg2 & Hf2 & Hc2 & E). cbn [sub fCount] in E. rewrite Z.sub_0_r, num_sub_0 in E.
  assert (Hf2' : frame (win u 0 l) h1 h2) by (eapply frame_weaken; [exact Hf2|slices]). assert (Hr2 : wf h2 u) by (by eapply frame_wf).
  assert (Hps : 2 ^ s <= 2 ^ 64) by (apply Z.pow_le_mono_r; lia).
  apply wp_bind, wp_set_word; [done|done|slices|unfold is_uint; lia|]. intros h3 Hg3 Hf3 Ew. apply HK; [done| |by eapply frame_wf|done|done|].
  - apply (frame_two h h1 h2 h3 z u (win u 0 l) (win u l (l + 1))); [done|done|done|done|slices|slices].
  - rewrite num_succ, Ew by lia. rewrite (num_frame _ _ _ _ l Hf3) by (done || slices). rewrite E. unfold l. by rewrite (nat_value _ _ _ Hu1).
Qed.

(** The results share no storage, where what they are made in does not. *)
Definition separated z z2 q r : Prop := (fArray z = fArray z2 -> fArray z = EmptyArray) -> fArray q = fArray r -> fArray q = EmptyArray.

(** What division promises of its results and of the pool. *)
Definition divided h p z z2 (U V : Z) q r p' h' : Prop :=
  good h' /\ frame (λ a _, a = fArray z \/ a = fArray z2 \/ a ∈ arrays p) h h' /\ nat_is h' q (U / V) /\ nat_is h' r (U mod V) /\
  located h z q /\ located h z2 r /\ separated z z2 q r /\ pool_ok h' p' /\ forall a, a ∈ arrays p' -> (a ∈ arrays p \/ (length h <= a)%nat) /\ a <> fArray q /\ a <> fArray r.

Definition place x : nat * Z := (fArray x, fStart x).

(** The remainder is shifted back in its place. *)
Lemma unscale h q u p l N V s : good h -> wf h u -> wf h q -> fCount u = l -> num h u l = N * 2 ^ s -> 0 <= s < 64 -> fArray q <> fArray u -> num h q (fCount q) = V ->
  wp (q ← norm q; shrVU u u s;; r ← norm u; mret (q, r, p)) h (λ '(q1, r, p1) h', p1 = p /\ good h' /\ frame (all_of (fArray u)) h h' /\ nat_is h' q1 V /\ nat_is h' r N /\
    place q1 = place q /\ place r = place u).
Proof.
  intros Hh Hu Hq Hl EN Hs Hne EV. destruct (norm_spec h q Hh Hq) as (i & Hi & E & Hn). apply wp_bind. eapply wp_of_val; [exact E|]. rewrite EV in Hn. apply wp_bind.
  eapply wp_mono; [apply (shr_between h u u s); [done|done|done|done|done|by intros _]|]. intros c h1 (Hg & Hf & E1). rewrite Hl in *. rewrite EN, Z.div_mul in E1 by (apply Z.pow_nonzero; lia).
  assert (Hu1 : wf h1 u) by (by eapply frame_wf). assert (Hf' : frame (all_of (fArray u)) h h1) by (eapply frame_weaken; [exact Hf|slices]).
  destruct (norm_spec h1 u Hg Hu1) as (k & Hk & E2 & Hn2). apply wp_bind. eapply wp_of_val; [exact E2|]. apply wp_ret. rewrite Hl, E1 in Hn2. unfold place. cbn [sub fArray fStart].
  rewrite !Z.add_0_r. do 3 (split; [done|]). split; [|done]. eapply nat_frame; [exact Hf'|exact Hn|]. intros j _ Ej. unfold all_of in Ej. cbn in Ej. congruence.
Qed.

(** The vectors of the algorithm do not overlap. *)
Lemma vectors_distinct h p z z2 q u v qhatv p1 h1 h2 h3 : good h -> pool_ok h p -> wf h z -> wf h z2 -> fArray z ∉ arrays p -> fArray z2 ∉ arrays p ->
  temporary h p v -> (fArray v < length h1)%nat -> (arrays p1 ⊆ arrays p) -> (fArray v ∉ arrays p1) ->
  (fArray u = fArray z2 \/ (length h1 <= fArray u)%nat) -> (fArray u < length h2)%nat ->
  ((fArray q = fArray z /\ fArray z <> fArray u) \/ (length h2 <= fArray q)%nat) -> (fArray q < length h3)%nat ->
  temporary h3 p1 qhatv -> (length h <= length h1 <= length h2)%nat -> (length h2 <= length h3)%nat -> distinct [q; u; v; qhatv].
Proof.
  intros Hh Hp (Hz & _) (Hz2 & _) Nz Nz2 Hv Lv Hsub Nv Hu Lu Hq Lq Hqv L1 L2. assert (Hold : forall a, a ∈ arrays p -> (a < length h)%nat) by (intros a Ha; by destruct (pool_old h p a Hp Ha)).
  assert (Hold1 : forall a, a ∈ arrays p1 -> (a < length h)%nat /\ a <> fArray z /\ a <> fArray z2 /\ a <> fArray v) by (intros a Ha; split; [auto|]; split_and!; intros ->; auto).
  assert (Hvz : fArray v <> fArray z2 /\ fArray v <> fArray z) by (destruct Hv as [Hv|Hv]; [split; congruence|lia]).
  assert (Hvq : fArray v <> fArray qhatv) by (destruct Hqv as [Hqv|Hqv]; [intros E; by destruct (Hold1 _ Hqv) as (_ & _ & _ & ?)|lia]).
  assert (Hqhz : fArray qhatv <> fArray z2 /\ fArray qhatv <> fArray z /\ ((fArray qhatv < length h)%nat \/ (length h3 <= fArray qhatv)%nat)) by (destruct Hqv as [Hqv|Hqv]; [destruct (Hold1 _ Hqv) as (? & ? & ? & ?); auto|lia]).
  unfold distinct. cbn. rewrite !NoDup_cons, !not_elem_of_cons. pose proof (not_elem_of_nil (A := nat)). split_and!; try done; try constructor; lia.
Qed.

End DivLarge.

Section DivLarge2.
Implicit Types (h : words) (z x y q r u v : nat_) (p : Pool).

Lemma located_weaken h h1 z r r' : (length h <= length h1)%nat -> located h1 z r -> place r' = place r -> located h z r'.
Proof. unfold located, place. intros Hl H [= -> ->]. destruct H as [?|[? ?]]; [by left|right; split; [lia|done]]. Qed.

(** The place of the quotient: apart from the dividend. *)
Lemma quotient_place h z u b n Q : good h -> wf h z -> 0 < n -> (b = false -> fArray z <> fArray u) ->
  (forall q h', good h' -> frame nowhere h h' -> wf h' q -> fCount q = n -> located h z q -> ((fArray q = fArray z /\ fArray z <> fArray u) \/ (length h <= fArray q)%nat) -> Q q h') ->
  wp (make_ (if b : bool then fZero else z) n) h Q.
Proof.
  intros Hh Hz Hn Hb HQ. apply wp_make; [done|destruct b; [by apply zero_wf, good_ok|done]|lia|]. intros q h' Hg Hf Hq Hc Hl. destruct b.
  - destruct Hl as [[E _]|[Hge E0]]; [by destruct (full_array h' q (good_ok _ Hg) Hq ltac:(lia))|]. apply HQ; [done|done|done|done|by right|by right].
  - apply HQ; [done|done|done|done|done|]. destruct Hl as [[E _]|[Hge E0]]; [left; auto|by right].
Qed.

(** The vectors of the algorithm: the quotient [q], the scaled dividend [u] and divisor [v], and room for a product. *)
Record vectors h p z z2 (N D n m : Z) q u v qhatv p2 h' : Prop := Vectors {
  vec_good : good h';
  vec_frame : frame (λ a _, a = fArray z \/ a = fArray z2 \/ a ∈ arrays p) h h';
  vec_wf : wf h' q /\ wf h' u /\ wf h' v /\ wf h' qhatv;
  vec_len : fCount q = m + 1 /\ fCount u = m + n + 1 /\ fCount v = n /\ fCount qhatv = n + 1 /\ 2 <= n /\ 0 <= m;
  vec_num : num h' v n = D /\ num h' u (m + n + 1) = N /\ 2 ^ 63 <= word h' v (n - 1);
  vec_distinct : distinct [q; u; v; qhatv];
  vec_place : located h z q /\ located h z2 u;
  vec_temp : temporary h p v /\ temporary h p qhatv;
  vec_pool : pool_ok h' p2 /\ (arrays p2 ⊆ arrays p) /\ (fArray v ∉ arrays p2) /\ (fArray qhatv ∉ arrays p2) /\ (fArray z ∉ arrays p) /\ (fArray z2 ∉ arrays p)
}.

(** The pool gets the temporaries back. *)
Lemma vectors_pool h p z z2 N D n m q u v qhatv p2 h' : vectors h p z z2 N D n m q u v qhatv p2 h' -> pool_ok h p ->
  pool_ok h' (putNat (putNat p2 v) qhatv) /\ forall a, a ∈ arrays (putNat (putNat p2 v) qhatv) -> (a ∈ arrays p \/ (length h <= a)%nat) /\ a <> fArray q /\ a <> fArray u.
Proof.
  intros [Hg Hf Hw Hc Hnum Hd [Hlq Hlu] [Htv Htq] (Hp & Hsub & Nv & Nqv & Nz & Nz2)] Hp0. destruct Hw as (Hq & Hu & Hv & Hqv).
  unfold distinct in Hd. cbn in Hd. rewrite !NoDup_cons, !not_elem_of_cons in Hd. destruct Hd as ((Nqu & Nqv' & Nqq & _) & (Nuv & Nuq & _) & (Nvq & _) & _).
  assert (Hp2 : pool_ok h' (putNat p2 v)) by (apply putNat_spec; [done|done|apply (full_array h'); [by apply good_ok|done|lia]|done]).
  split; [apply putNat_spec; [done|done|apply (full_array h'); [by apply good_ok|done|lia]|]|].
  - unfold putNat, Put. rewrite fmap_app, elem_of_app. cbn. rewrite list_elem_of_singleton. intros [?|?]; [done|congruence].
  - unfold putNat, Put. rewrite !fmap_app. intros a. rewrite !elem_of_app. cbn. rewrite !list_elem_of_singleton. intros [[Ha| ->]| ->]; [|by auto..].
    apply Hsub in Ha. split; [by left|]. pose proof (pool_old h p a Hp0 Ha) as [Hold _]. split; intros ->.
    + destruct Hlq as [[E _]|[Hge _]]; [by rewrite E in Ha|lia].
    + destruct Hlu as [[E _]|[Hge _]]; [by rewrite E in Ha|lia].
Qed.

Lemma divLarge_rest h p z z2 U V s n m q u v qhatv p2 h' : vectors h p z z2 (U * 2 ^ s) (V * 2 ^ s) n m q u v qhatv p2 h' -> pool_ok h p -> 0 <= s < 64 -> 0 < V -> U < V * pw (m + 1) ->
  wp (vn1 ← get_Item v (n - 1);
      loop_down m 0 (λ j _, digit q u v qhatv n vn1 j) tt;;
      let p := putNat (putNat p2 v) qhatv in
      q ← norm q;
      shrVU u u s;;
      r ← norm u;
      mret (q, r, p)) h' (λ '(q, r, p') h', divided h p z z2 U V q r p' h').
Proof.
  intros Hvec Hp0 Hs HV Hlt. destruct (vectors_pool _ _ _ _ _ _ _ _ _ _ _ _ _ _ Hvec Hp0) as [Hp2 Hpa]. destruct Hvec as [Hg Hf Hw Hc Hnum Hd [Hlq Hlu] [Htv Htq] (Hp & Hsub & Nv & Nqv & Nz & Nz2)].
  destruct Hw as (Hq & Hu & Hv & Hqv). destruct Hc as (Cq & Cu & Cv & Cqv & Hn & Hm). destruct Hnum as (ED & EN & Htop). assert (Hps : 0 < 2 ^ s) by (apply Z.pow_pos_nonneg; lia).
  apply wp_bind, wp_word; [done|lia|]. apply wp_bind.
  eapply wp_mono; [apply (digits_spec h' q u v qhatv n m (word h' v (n - 1)) (V * 2 ^ s) (U * 2 ^ s)); try done; try lia; nia|]. intros _ h1 (Hg1 & Hf1 & Eq & Er). cbv zeta.
  assert (Hq1 : wf h1 q) by (by eapply frame_wf). assert (Hu1 : wf h1 u) by (by eapply frame_wf). rewrite Z.div_mul_cancel_r in Eq by lia. rewrite Z.mul_mod_distr_r in Er by lia.
  assert (Hqu : fArray q <> fArray u). { unfold distinct in Hd. cbn in Hd. rewrite NoDup_cons, !not_elem_of_cons in Hd. tauto. }
  eapply wp_mono; [apply (unscale h1 q u _ (m + n + 1) (U mod V) (U / V) s); try done; by rewrite Cq|]. intros [[q1 r] p3] h2 (-> & Hg2 & Hf2 & Hnq & Hnr & Plq & Plr).
  split; [done|]. split.
  { eapply frame_step; [eapply frame_step; [exact Hf|exact Hf1|]|exact Hf2|]; unfold all_of; intros a i Ha.
    - intros [->|[->| ->]]; [destruct Htq; [tauto|lia]|destruct Hlu as [[-> _]|[? _]]; [tauto|lia]|destruct Hlq as [[-> _]|[? _]]; [tauto|lia]].
    - intros ->. destruct Hlu as [[-> _]|[? _]]; [tauto|lia]. }
  split; [done|]. split; [done|]. split; [by eapply located_weaken; [|exact Hlq|]|]. split; [by eapply located_weaken; [|exact Hlu|]|].
  injection Plq as Eq1 _. injection Plr as Er1 _. rewrite <- Eq1, <- Er1 in Hqu. split; [by intros _ ?|]. rewrite Eq1, Er1. split; [|exact Hpa]. eapply pool_frame; [exact Hf2|]. eapply pool_frame; [exact Hf1|done].
Qed.

Definition divLarge_ready h p z z2 uIn vIn : Prop :=
  good h /\ pool_ok h p /\ wf h z /\ wf h z2 /\ coherent z2 uIn /\ 2 <= fCount vIn <= fCount uIn /\
  (fArray z ∉ arrays p) /\ (fArray z2 ∉ arrays p) /\ (fArray uIn ∉ arrays p) /\ (fArray vIn ∉ arrays p).

Lemma divLarge_spec h p z z2 uIn vIn U V : divLarge_ready h p z z2 uIn vIn -> nat_is h uIn U -> nat_is h vIn V ->
  wp (divLarge p z z2 uIn vIn) h (λ '(q, r, p') h', divided h p z z2 U V q r p' h').
Proof.
  intros (Hh & Hp & Hz & Hz2 & Hc & Hn & Nz & Nz2 & Nu & Nv) HU HV. pose proof (nat_wf _ _ _ HU) as HUw. pose proof (nat_wf _ _ _ HV) as HVw. unfold divLarge.
  pose proof (nat_bound _ _ _ Hh HU) as HbU. pose proof (num_top h vIn (fCount vIn) (proj2 Hh) ltac:(lia) (proj2 (proj2 HV) ltac:(lia))) as HbV. rewrite (nat_value _ _ _ HV) in HbV.
  apply wp_bind, wp_len; [done..|]. apply wp_bind, wp_len; [done..|]. apply wp_bind, wp_word; [done|lia|]. set (n := fCount vIn) in *. set (m := fCount uIn - n). set (s := nlz (word h vIn (n - 1))).
  apply wp_bind. eapply wp_mono; [apply (getNat_spec h p n); [done|done|lia]|]. intros [v p1] h1 (Hg1 & Hf1 & Hv1 & Hcv & Hvt & Hp1 & Hvp1 & Hsub1).
  assert (Hvn : fArray v <> fArray vIn) by (destruct Hvt as [Hvt|Hvt]; [congruence|destruct HVw; lia]). assert (Hvu : fArray v <> fArray uIn) by (destruct Hvt as [Hvt|Hvt]; [congruence|destruct HUw; lia]).
  assert (HV1 : nat_is h1 vIn V) by (by eapply nat_nowhere). assert (Et : word h1 vIn (n - 1) = word h vIn (n - 1)) by (apply (word_frame _ _ _ _ _ Hf1 HVw); auto).
  assert (Hs : 0 <= s < 64) by (apply nlz_spec; [apply word_uint, Hh|apply HV; fold n; lia]). apply wp_bind.
  eapply wp_mono; [apply (scaled_divisor h1 v vIn s); [done|done|by eapply nat_wf|done|lia|done|apply HV1; lia|by fold n; rewrite Et]|]. rewrite Hcv. intros _ h2 (Hg2 & Hf2 & ED & Hvn1).
  unfold n in ED at 2. rewrite (nat_value _ _ _ HV1) in ED. pose proof (frame_length _ _ _ Hf1) as L1. pose proof (frame_length _ _ _ Hf2) as L2.
  assert (HU2 : nat_is h2 uIn U) by (eapply nat_frame; [exact Hf2|by eapply nat_nowhere|]; unfold all_of; intros i _ E; congruence).
  apply scaled_dividend with (U := U); [done|do 2 (eapply frame_wf; [done|]); done|done|done|done|]. intros u h5 Hg5 Hf5 Hu5 Hcu Hlu EN. pose proof (frame_length _ _ _ Hf5) as L5.
  assert (Hz5 : wf h5 z) by (do 3 (eapply frame_wf; [done|]); done). destruct (alias_val h5 z u Hg5 Hz5 Hu5 ltac:(lia)) as (b & Eb & Hb). apply wp_bind. eapply wp_of_val; [exact Eb|]. cbv zeta.
  apply wp_bind. apply (quotient_place h5 z u b (m + 1)); [done|done|lia|done|]. intros q h6 Hg6 Hf6 Hq6 Hcq Hlq Hqd. pose proof (frame_length _ _ _ Hf6) as L6.
  assert (Hp6 : pool_ok h6 p1) by (eapply pool_frame; [exact Hf6|]; eapply pool_frame; [exact Hf5|]; eapply pool_frame; [exact Hf2|done]).
  apply wp_bind. eapply wp_mono; [apply (getNat_spec h6 p1 (n + 1)); [done|done|lia]|]. intros [qhatv p2] h7 (Hg7 & Hf7 & Hqv7 & Hcqv & Hqvt & Hp7 & Hqvp & Hsub2). pose proof (frame_length _ _ _ Hf7) as L7.
  assert (Hf57 : frame nowhere h5 h7) by (eapply frame_trans; done). assert (Hu7 : wf h7 u) by (by eapply frame_wf; [exact Hf57|]). assert (Hv5 : wf h5 v) by (do 2 (eapply frame_wf; [done|]); done).
  assert (Hq7 : wf h7 q) by (by eapply frame_wf; [exact Hf7|]). assert (Hv7 : wf h7 v) by (by eapply frame_wf; [exact Hf57|]).
  assert (Hdis : distinct [q; u; v; qhatv]).
  { apply (vectors_distinct h p z z2 q u v qhatv p1 h1 h5 h6); try done; try apply Hv1; try apply Hu5; try apply Hq6; [|lia]. destruct Hlu as [[? _]|[? _]]; [by left|right; lia]. }
  assert (Hv57 : forall i, word h7 v i = word h2 v i).
  { intros i. rewrite (word_frame _ _ _ v i Hf57 Hv5) by (intros []). apply (word_frame _ _ _ v i Hf5); [by eapply frame_wf|]. unfold all_of. destruct Hvt as [Hvt|Hvt]; [congruence|destruct Hz2; lia]. }
  pose proof (pw_pos (n - 1) ltac:(lia)) as Hpn. apply (divLarge_rest h p z z2 U V s n m q u v qhatv p2 h7); [|done|done|lia|].
  - assert (HP : frame (λ a _, a = fArray z \/ a = fArray z2 \/ a ∈ arrays p) h h7).
    { eapply frame_step; [eapply frame_step; [eapply frame_step; [by eapply frame_nowhere|exact Hf2|]|exact Hf5|]|exact Hf57|by intros]; unfold all_of; [|tauto]. intros a i Ha ->. destruct Hvt; [tauto|lia]. }
    split; try done.
    + unfold m in *. lia.
    + split_and!; [rewrite (num_ext h7 v h2 v) by done; done| |by rewrite Hv57]. replace (m + n + 1) with (fCount uIn + 1) by lia. rewrite <- EN. apply (num_frame _ _ _ _ _ Hf57); auto.
    + split; [eapply located_weaken; [|exact Hlq|done]; lia|eapply located_weaken; [|exact Hlu|done]; lia].
    + split; [done|]. destruct Hqvt as [?|?]; [left; auto|right; lia].
    + split_and!; auto. etrans; done.
  - apply (Z.lt_le_trans _ (pw (n - 1) * pw (m + 1))); [rewrite <- pw_add by lia; replace (n - 1 + (m + 1)) with (fCount uIn) by lia; lia|]. pose proof (pw_pos (m + 1) ltac:(lia)). nia.
Qed.

End DivLarge2.

(** ** Division *)

Section Div.
Implicit Types (h : words) (z x y q r u v : nat_) (p : Pool).

Lemma divW_spec h z x U (y : Z) : good h -> wf h z -> nat_is h x U -> coherent z x -> is_uint 64 y -> y <> 0 ->
  wp (divW z x y) h (λ '(q, r) h', result h z (U / y) q h' /\ r = U mod y).
Proof.
  intros Hh Hz Hx Hc Hy Hy0. pose proof (nat_wf _ _ _ Hx) as Hxw. pose proof (wf_len _ _ Hxw) as Hl. unfold divW. apply wp_bind, wp_len; [done..|]. rewrite (proj2 (Z.eqb_neq y 0)) by done.
  destruct (Z.eqb_spec y 1) as [->|Hy1].
  { apply wp_bind. eapply wp_mono; [by apply (set_spec h z x U)|]. intros q h' Hr. apply wp_ret. by rewrite Z.div_1_r, Z.mod_1_r. }
  destruct (Z.eqb_spec (fCount x) 0) as [E0|Hn].
  { assert (U = 0) as -> by (by apply (nat_zero h x)). apply wp_bind. eapply wp_mono; [by apply (zero_result h z)|]. intros q h' Hr. apply wp_ret. by rewrite Z.div_0_l, Z.mod_0_l. }
  set (n := fCount x) in *. apply wp_bind, wp_make; [done|done|lia|]. intros r h1 Hg Hf Hr Hrn Hrl. assert (Hx1 : nat_is h1 x U) by (by eapply nat_nowhere). pose proof (nat_wf _ _ _ Hx1) as Hxw1.
  assert (Hcr : coherent r x) by (by eapply located_coherent). apply wp_bind.
  eapply wp_mono; [apply (divWVW_spec h1 r 0 x y); [done|done|done|lia|slices|unfold is_uint; lia|done|unfold is_uint in Hy; lia]|]. rewrite Hrn. intros c h2 (Hg2 & Hf2 & Hc2 & E).
  rewrite Hrn in *. unfold n in E at 2. rewrite (nat_value _ _ _ Hx1) in E. apply wp_bind.
  eapply wp_mono; [apply (wp_norm h h2 z r (U / y)); [done|by eapply frame_wf| | |done]|].
  - rewrite Hrn. apply (Z.div_unique U y _ c); lia.
  - eapply (frame_located h h1); [by apply frame_nowhere|exact Hrl|exact Hf2|slices].
  - intros q h3 Hres. apply wp_ret. split; [done|]. apply (Z.mod_unique U y (num h2 r n)); lia.
Qed.

(** The remainder by a word is one of the division. *)
Lemma modW_spec h x U (d : Z) : good h -> nat_is h x U -> is_uint 64 d -> d <> 0 -> wp (modW x d) h (λ (r : Z) h', good h' /\ frame nowhere h h' /\ r = U mod d).
Proof.
  intros Hh Hx Hd Hd0. pose proof (nat_wf _ _ _ Hx) as Hxw. pose proof (wf_len _ _ Hxw) as Hl. unfold modW. apply wp_bind, wp_len; [done..|]. set (n := fCount x) in *.
  apply wp_bind, wp_make; [done|by apply zero_wf, good_ok|lia|]. intros q h1 Hg Hf Hq Hqn Hql. assert (Hx1 : nat_is h1 x U) by (by eapply nat_nowhere).
  assert (Hfresh : n = 0 \/ (length h <= fArray q)%nat).
  { destruct Hql as [[E _]|[? _]]; [left|by right]. destruct (decide (n = 0)) as [|Hne]; [done|]. by destruct (full_array h1 q (good_ok _ Hg) Hq ltac:(lia)). }
  assert (Hb : behind q x) by (destruct Hfresh as [E|?]; [|destruct Hxw]; slices).
  eapply wp_mono; [apply (divWVW_spec h1 q 0 x d); [done|done|by eapply nat_wf|lia|done|unfold is_uint; lia|done|unfold is_uint in Hd; lia]|]. rewrite Hqn. intros c h2 (Hg2 & Hf2 & Hc2 & E).
  rewrite Hqn in *. unfold n in E at 2. rewrite (nat_value _ _ _ Hx1) in E. split; [done|]. split; [|apply (Z.mod_unique U d (num h2 q n)); lia].
  eapply frame_step; [exact Hf|exact Hf2|]. unfold win. intros a i Ha [-> Hi]. destruct Hfresh; lia.
Qed.

(** What division needs of its operands and of the pool.  The storage of the quotient and of the remainder may be that of the operands, and may be the same
    unless the divisor is a single word. *)
Definition divisible h p z z2 u v : Prop :=
  good h /\ pool_ok h p /\ wf h z /\ wf h z2 /\ coherent z u /\ coherent z2 u /\ (fCount v = 1 -> fArray z = fArray z2 -> fArray z = EmptyArray) /\
  (fArray z ∉ arrays p) /\ (fArray z2 ∉ arrays p) /\ (fArray u ∉ arrays p) /\ (fArray v ∉ arrays p).

Lemma located_apart h p z r a : pool_ok h p -> (fArray z ∉ arrays p) -> located h z r -> a ∈ arrays p -> a <> fArray r.
Proof. intros Hp Hz Hl Ha ->. destruct Hl as [[E _]|[Hge _]]; [by rewrite E in Ha|destruct (pool_old h p _ Hp Ha); lia]. Qed.

(** The branches that do not use the pool. *)
(** The second result is made after the first. *)
Lemma located_separated h h1 z z2 q r : wf h z -> wf h z2 -> (length h <= length h1)%nat -> located h z q -> wf h1 q -> located h1 z2 r -> separated z z2 q r.
Proof. intros Hz Hz2 Hl Lq Hq Lr Hzz E. destruct Lr as [[E2 _]|[Hge _]]; [|destruct Hq; lia]. destruct Lq as [[E1 _]|[Hge _]]; [|destruct Hz2; lia]. rewrite E1. apply Hzz. congruence. Qed.

Lemma divided_plain h p z z2 U V q r h' : pool_ok h p -> (fArray z ∉ arrays p) -> (fArray z2 ∉ arrays p) -> good h' -> frame (λ a _, a = fArray z \/ a = fArray z2) h h' ->
  nat_is h' q (U / V) -> nat_is h' r (U mod V) -> located h z q -> located h z2 r -> separated z z2 q r -> divided h p z z2 U V q r p h'.
Proof.
  intros Hp Nz Nz2 Hg Hf Hq Hr Lq Lr Hqr. split; [done|]. split; [eapply frame_weaken; [exact Hf|]; intros a i _ [?|?]; auto|]. do 5 (split; [done|]). split; [by eapply pool_frame|].
  intros a Ha. split; [by left|]. split; [by apply (located_apart h p z q)|by apply (located_apart h p z2 r)].
Qed.

Lemma div_spec h p z z2 u v U V : divisible h p z z2 u v -> nat_is h u U -> nat_is h v V -> V <> 0 ->
  wp (div p z z2 u v) h (λ '(q, r, p') h', divided h p z z2 U V q r p' h').
Proof.
  intros (Hh & Hp & Hz & Hz2 & Hcz & Hc2 & Hsep & Nz & Nz2 & Nu & Nv) HU HV HV0. pose proof (nat_wf _ _ _ HU) as HUw. pose proof (nat_wf _ _ _ HV) as HVw. pose proof (nat_bound _ _ _ Hh HU). pose proof (nat_bound _ _ _ Hh HV).
  assert (Hl : fCount v <> 0) by (intros E; apply HV0; by apply (nat_zero h v)). pose proof (wf_len _ _ HVw). unfold div. apply wp_bind, wp_len; [done..|]. rewrite (proj2 (Z.eqb_neq (fCount v) 0)) by done.
  apply wp_bind. eapply wp_of_val; [by apply cmp_spec|]. destruct (Z.ltb_spec U V) as [Hlt|Hge]; cbn [Z.ltb Z.compare].
  { pose proof (wf_cap _ _ Hz). pose proof (wf_len _ _ Hz). apply wp_bind, wp_slice_word; [done|done|cbn; lia|cbn; lia|]. cbn [default from_option id]. apply wp_bind.
    eapply wp_mono; [by apply (set_spec h z2 u U)|]. intros r h1 (Hg1 & Hf1 & Hr & Lr). apply wp_ret. apply divided_plain; [done..| | | |slices|done|].
    - eapply frame_weaken; [exact Hf1|]. unfold all_of. auto.
    - rewrite Z.div_small by lia. split; [eapply frame_wf; [exact Hf1|apply sub_wf; (done || lia)]|]. cbn. split; [done|lia].
    - by rewrite Z.mod_small by lia.
    - apply (located_separated h h z z2); [done|done|done|slices|apply sub_wf; (done || lia)|done]. }
  rewrite (proj2 (Z.ltb_ge (if V <? U then 1 else 0) 0)) by (by destruct (V <? U)). destruct (Z.eqb_spec (fCount v) 1) as [E1|Hn1].
  - assert (Ev : word h v 0 = V) by (rewrite <- (nat_value _ _ _ HV), E1; by rewrite num_1).
    apply wp_bind, wp_word; [done|lia|]. rewrite Ev. apply wp_bind. eapply wp_mono; [apply (divW_spec h z u U V); try done; rewrite <- Ev; apply word_uint, Hh|].
    intros [q r2] h1 [(Hg1 & Hf1 & Hq & Lq) ->]. assert (Hz1 : wf h1 z2) by (by eapply frame_wf). apply wp_bind.
    eapply wp_mono; [apply (setWord_spec h1 z2 (U mod V)); [done|done|]|]; [pose proof (Z.mod_pos_bound U V ltac:(lia)); pose proof (word_uint h v 0 (proj2 Hh)) as Hu; rewrite Ev in Hu; unfold is_uint in *; lia|].
    intros r h2 (Hg2 & Hf2 & Hr & Lr). apply wp_ret. apply divided_plain; [done..| | |done|done| |].
    + eapply frame_step; [eapply frame_weaken; [exact Hf1|]|exact Hf2|]; unfold all_of; auto.
    + eapply nat_frame; [exact Hf2|exact Hq|]. intros i Hi Ea. unfold all_of in Ea. apply (full_array h1 q); [by apply good_ok|by eapply nat_wf|lia|].
      destruct Lq as [[E _]|[Hge0 _]]; [rewrite E in *; by apply Hsep|]. destruct Hz2. lia.
    + destruct Lr as [?|[? ?]]; [by left|right]. split; [|done]. pose proof (frame_length _ _ _ Hf1). lia.
    + apply (located_separated h h1 z z2); [done|done|by apply frame_length in Hf1|done|by eapply nat_wf|done].
  - apply divLarge_spec; [|done|done]. assert (fCount v <= fCount u); [|split_and!; (done || lia)].
    destruct (Z.le_gt_cases (fCount v) (fCount u)) as [|Hgt]; [done|]. pose proof (nat_longer h u v U V Hh HU HV ltac:(lia)). lia.
Qed.

(** Dividing by zero panics. *)
Lemma div_zero h p z z2 u v : good h -> nat_is h v 0 -> div p z z2 u v h = Panic Explicit.
Proof.
  intros Hh HV. unfold div. erewrite bind_Val by (apply len_val; [by apply good_ok|by eapply nat_wf]). by rewrite (proj1 (nat_zero h v 0 Hh HV) eq_refl).
Qed.

End Div.

(** ** Quotient and remainder *)

(** C13. Division gives the quotient and the remainder: by a word, and by Knuth's algorithm D for longer divisors (normalization by the leading zeroes, trial
    digits from three words of the dividend and two of the divisor, at most one correction after the subtraction), for operands of any length, in
    storage that may be that of the operands.  Only the arrays of [z], of [z2] and of the temporaries from the pool change; the temporaries go back to
    the pool, whose slices stay apart from each other and from the results.  A divisor of 0 panics, and the remainder by a word agrees. *)
Theorem div_quotient_remainder (h : words) (p : Pool) (z z2 u v : nat_) (U V : Z) :
  divisible h p z z2 u v -> nat_is h u U -> nat_is h v V ->
  (if decide (V = 0) then div p z z2 u v h = Panic Explicit
   else wp (div p z z2 u v) h (λ '(q, r, p') h', divided h p z z2 U V q r p' h')) /\
  (forall d, is_uint 64 d -> d <> 0 -> wp (modW u d) h (λ r h', good h' /\ frame nowhere h h' /\ r = U mod d)).
Proof.
  intros Hd HU HV. split; [|by intros; apply modW_spec; [apply Hd|done|done|done]]. destruct (decide (V = 0)) as [->|H0]; [apply div_zero; [apply Hd|done]|by apply div_spec].
Qed.

(** 2^192 - 1 by 2^64 + 1, with an empty pool. *)
Lemma div_quotient_remainder_witness :
  let h := [[]; [2 ^ 64 - 1; 2 ^ 64 - 1; 2 ^ 64 - 1]; [1; 1]] in
  wp (div [] fZero fZero (SliceOf 1 0 3) (SliceOf 2 0 2)) h (λ '(q, r, p') h', divided h [] fZero fZero (2 ^ 192 - 1) (2 ^ 64 + 1) q r p' h').
Proof.
  cbv zeta. refine (proj1 (div_quotient_remainder _ [] fZero fZero (SliceOf 1 0 3) (SliceOf 2 0 2) (2 ^ 192 - 1) (2 ^ 64 + 1) _ _ _));
    [|apply nat_check; vm_compute; reflexivity|apply nat_check; vm_compute; reflexivity].
  split; [apply good_check; vm_compute; reflexivity|]. split; [split; constructor|].
  split; [apply wf_check; vm_compute; reflexivity|]. split; [apply wf_check; vm_compute; reflexivity|]. split; [by intros E|]. split; [by intros E|]. split; [by intros E|].
  repeat split; apply not_elem_of_nil.
Defined.
