(* ===== verification/BigBits.v ===== *)
(** * math/big: bits and bytes of numbers

    Bit lengths, single bits, the bitwise operations and the big-endian bytes of natural numbers
    (src/Source/Gold/math/big/nat_elements.go).  A byte buffer is a list: it shares no array with a number. *)

From S2P Require Import Prelude Bits Binary Hash State Slices BigArith BigNat.

Local Open Scope go_scope.

Definition bitLen (x : nat_) : B Z :=
  n ← len x;
  let i := n - 1 in
  if 0 <=? i then xi ← get_Item x i; mret (i * _W + Bits.Len _W xi) else mret 0.

(** [for x[i] == 0 { i++ }]; a word that is not 0 ends it. *)
Fixpoint zero_words (fuel : nat) (x : nat_) (i : Z) : B Z :=
  match fuel with
  | O => no_fuel
  | S fuel => xi ← get_Item x i; if xi =? 0 then zero_words fuel x (i + 1) else mret i
  end.

Definition trailingZeroBits (x : nat_) : B Z :=
  n ← len x;
  if n =? 0 then mret 0
  else i ← zero_words (Z.to_nat n) x 0; xi ← get_Item x i; mret (i * _W + Bits.TrailingZeros _W xi).

Definition setBit (z x : nat_) (i b : Z) : B nat_ :=
  let j := i / _W in
  let m := 1 <<.[_W] (i mod _W) in
  n ← len x;
  if b =? 0 then
    z ← make_ z n;
    copy z x;;
    if n <=? j then mret z
    else zj ← get_Item z j; set_Item z j (zj &^. m);; norm z
  else if b =? 1 then
    z ← (if n <=? j then z ← make_ z (j + 1); zn ← slice_ z (Some n) None; clear zn;; mret z else make_ z n);
    copy z x;;
    zj ← get_Item z j; set_Item z j (zj |. m);;
    mret z
  else raise Explicit.

Definition bit (x : nat_) (i : Z) : B Z :=
  let j := i / _W in
  n ← len x;
  if n <=? j then mret 0 else xj ← get_Item x j; mret ((xj >>. (i mod _W)) &. 1).

(** [for _, x := range x[:j]]: whether a word is not 0, from position [i]. *)
Fixpoint any_word (n : nat) (x : nat_) (i : Z) : B bool :=
  match n with
  | O => mret false
  | S n => xi ← get_Item x i; if negb (xi =? 0) then mret true else any_word n x (i + 1)
  end.

Definition sticky (x : nat_) (i : Z) : B Z :=
  let j := i / _W in
  n ← len x;
  if n <=? j then (if n =? 0 then mret 0 else mret 1)
  else
    x0 ← slice_ x None (Some j);
    a ← any_word (Z.to_nat j) x0 0;
    if a : bool then mret 1
    else
      xj ← get_Item x j;
      if negb (xj <<.[_W] (_W - i mod _W) =? 0) then mret 1 else mret 0.

(** The loop of the bitwise operations. *)
Definition bitwise (op : Z -> Z -> Z) (z x y : nat_) (n : Z) : B unit :=
  loop_up 0 n (λ i _, xi ← get_Item x i; yi ← get_Item y i; set_Item z i (op xi yi)) tt.

Definition and_ (z x y : nat_) : B nat_ :=
  m ← len x; n ← len y;
  let m := if n <? m then n else m in
  z ← make_ z m;
  bitwise Z.land z x y m;;
  norm z.

(** The words of [s] from [n] to [m], copied to their places. *)
Definition copy_rest (z s : nat_) (n m : Z) : B unit :=
  z1 ← slice_ z (Some n) (Some m); s1 ← slice_ s (Some n) (Some m); copy z1 s1;; mret tt.

Definition andNot (z x y : nat_) : B nat_ :=
  m ← len x; n ← len y;
  let n := if m <? n then m else n in
  z ← make_ z m;
  bitwise Z.ldiff z x y n;;
  copy_rest z x n m;;
  norm z.

Definition or_ (z x y : nat_) : B nat_ :=
  m ← len x; n ← len y;
  let '(m, n, s) := if m <? n then (n, m, y) else (m, n, x) in
  z ← make_ z m;
  bitwise Z.lor z x y n;;
  copy_rest z s n m;;
  norm z.

Definition xor (z x y : nat_) : B nat_ :=
  m ← len x; n ← len y;
  let '(m, n, s) := if m <? n then (n, m, y) else (m, n, x) in
  z ← make_ z m;
  bitwise Z.lxor z x y n;;
  copy_rest z s n m;;
  norm z.

(** ** Bytes *)

(** The bytes of the word [d], from below, before position [i]. *)
Definition word_bytes (d : Z) (bi : list Z * Z) : outcome (list Z * Z) :=
  '(buf, i, _) ← for_up 0 _S (λ _ '(buf, i, d), buf ← store buf (i - 1) (u8 d); Val (buf, i - 1, d >>. 8)) (bi.1, bi.2, d);
  Val (buf, i).

Definition bytes (z : nat_) (buf : list Z) : B (list Z * Z) :=
  n ← len z;
  '(buf, i) ← loop_up 0 n (λ k bi, d ← get_Item z k; lift (word_bytes d bi)) (buf, zlen buf);
  i ← lift (scan_up i (zlen buf) (λ i, b ← index buf i; Val (b =? 0)));
  mret (buf, i).

Definition bigEndianWord (buf : list Z) : outcome Z :=
  if _W =? 64 then x ← bigEndian_Uint64 buf; Val (wrap _W x) else x ← bigEndian_Uint32 buf; Val (wrap _W x).

(** [for k := 0; i >= _S; k++]: whole words from the end of [buf]; the rest of the length is left in [i]. *)
Fixpoint whole_words (fuel : nat) (z : nat_) (buf : list Z) (k i : Z) : B Z :=
  match fuel with
  | O => no_fuel
  | S fuel =>
      if _S <=? i then
        b ← lift (slice buf (i - _S) i); w ← lift (bigEndianWord b);
        set_Item z k w;;
        whole_words fuel z buf (k + 1) (i - _S)
      else mret i
  end.

(** The word of the first [i] bytes. *)
Fixpoint last_word (fuel : nat) (buf : list Z) (i s d : Z) : outcome Z :=
  match fuel with
  | O => NoFuel
  | S fuel => if 0 <? i then b ← index buf (i - 1); last_word fuel buf (i - 1) (s + 8) (d |. b <<.[_W] s) else Val d
  end.

Definition setBytes (z : nat_) (buf : list Z) : B nat_ :=
  z ← make_ z (Z.quot (zlen buf + _S - 1) _S);
  i ← whole_words (S (length buf)) z buf 0 (zlen buf);
  (if 0 <? i then d ← lift (last_word (S (Z.to_nat i)) buf i 0 0); n ← len z; set_Item z (n - 1) d else mret tt);;
  norm z.

(** Ten bytes and back, in a buffer with room for more. *)
Example setBytes_bytes :
  (z ← setBytes fZero [0; 1; 2; 3; 4; 5; 6; 7; 8; 9]; bytes z (make 255 16)) [[]]
  = Val (([0; 0; 0; 0; 0; 0; 0; 1; 2; 3; 4; 5; 6; 7; 8; 9], 7), [[]; [2 * 2 ^ 56 + 3 * 2 ^ 48 + 4 * 2 ^ 40 + 5 * 2 ^ 32 + 6 * 2 ^ 24 + 7 * 2 ^ 16 + 8 * 2 ^ 8 + 9; 1; 0; 0; 0; 0]]).
Proof. vm_compute. reflexivity. Qed.

(** ** Bits of numbers *)

Section Bitwise.
Implicit Types (h : words) (z x y s r : nat_).

(** The word of a number at any position. *)
Definition word0 h x (j : Z) : Z := if j <? fCount x then word h x j else 0.

Lemma testbit_num h x n i : words_ok h -> 0 <= n -> 0 <= i -> Z.testbit (num h x n) i = (i <? 64 * n) && Z.testbit (word h x (i / 64)) (i mod 64).
Proof.
  intros Hw. revert n. apply (natlike_ind (λ n, 0 <= i -> _)); [intros Hi; rewrite num_0, Z.testbit_0_l; destruct (Z.ltb_spec i (64 * 0)); [lia|done]|]. intros n Hn IH Hi. specialize (IH Hi).
  rewrite <- Z.add_1_r, num_succ, (Z.mul_comm _ (pw n)) by lia. unfold pw. rewrite testbit_cat by (try (apply num_bound; [exact Hw|exact Hn]); lia).
  pose proof (Z.div_mod i 64 ltac:(lia)) as Ed. pose proof (Z.mod_pos_bound i 64 ltac:(lia)) as Hm. destruct (Z.ltb_spec i (64 * n)) as [Hlt|Hge].
  - rewrite IH. destruct (Z.ltb_spec i (64 * (n + 1))); [done|lia].
  - destruct (Z.ltb_spec i (64 * (n + 1))) as [Hlt|Hge2]; cbn [andb].
    + assert (i / 64 = n) as -> by lia. do 2 f_equal. lia.
    + apply (testbit_high 64); [by apply word_uint|lia].
Qed.

Lemma nat_testbit h x u i : good h -> nat_is h x u -> 0 <= i -> Z.testbit u i = Z.testbit (word0 h x (i / 64)) (i mod 64).
Proof.
  intros [_ Hw] Hx Hi. rewrite <- (nat_value _ _ _ Hx). pose proof (wf_len _ _ (nat_wf _ _ _ Hx)). rewrite testbit_num by done. unfold word0.
  pose proof (Z.div_mod i 64 ltac:(lia)). pose proof (Z.mod_pos_bound i 64 ltac:(lia)).
  destruct (Z.ltb_spec i (64 * fCount x)), (Z.ltb_spec (i / 64) (fCount x)); cbn [andb]; rewrite ?Z.testbit_0_l; (done || lia).
Qed.

(** An operation on each bit. *)
Definition bit_op (op : Z -> Z -> Z) (f : bool -> bool -> bool) : Prop :=
  forall a b i, 0 <= i -> Z.testbit (op a b) i = f (Z.testbit a i) (Z.testbit b i).

Lemma bit_op_uint op f a b : bit_op op f -> f false false = false -> (forall a b, 0 <= a -> 0 <= b -> 0 <= op a b) -> is_uint 64 a -> is_uint 64 b -> is_uint 64 (op a b).
Proof.
  intros Hop Hf Hpos Ha Hb. apply is_uint_bits; [lia|unfold is_uint in *; apply Hpos; lia|]. intros i Hi. rewrite Hop by lia. by rewrite !(testbit_high 64) by (done || lia).
Qed.

(** Word by word is number by number. *)
Lemma combined op f h h' z x y m u v : bit_op op f -> good h -> good h' -> nat_is h x u -> nat_is h y v -> 0 <= m ->
  (forall j, 0 <= j < m -> word h' z j = op (word0 h x j) (word0 h y j)) -> (forall j, m <= j -> op (word0 h x j) (word0 h y j) = 0) ->
  num h' z m = op u v.
Proof.
  intros Hop Hh Hh' Hx Hy Hm Hin Hout. apply Z.bits_inj'. intros i Hi. rewrite Hop, (nat_testbit h x u), (nat_testbit h y v) by done.
  pose proof (Z.mod_pos_bound i 64 ltac:(lia)) as Hb. rewrite <- Hop by lia. rewrite testbit_num by (lia || apply Hh'). pose proof (Z.div_mod i 64 ltac:(lia)).
  destruct (Z.ltb_spec i (64 * m)) as [Hlt|Hge]; cbn [andb]; [by rewrite Hin by (split; [apply Z.div_pos; lia|lia])|].
  rewrite Hout by lia. by rewrite Z.testbit_0_l.
Qed.

Lemma bitwise_spec op h z x y n : (forall a b, is_uint 64 a -> is_uint 64 b -> is_uint 64 (op a b)) -> good h -> wf h z -> wf h x -> wf h y -> 0 <= n -> n <= fCount z -> n <= fCount x -> n <= fCount y ->
  coherent z x -> coherent z y ->
  wp (bitwise op z x y n) h (λ _ h', good h' /\ frame (win z 0 n) h h' /\ forall j, 0 <= j < n -> word h' z j = op (word h x j) (word h y j)).
Proof.
  intros Hop Hh Hz Hx Hy Hn Hcz Hcx Hcy Cx Cy. unfold bitwise.
  apply (wp_loop_up (λ i _ h1, good h1 /\ frame (win z 0 i) h h1 /\ forall j, 0 <= j < i -> word h1 z j = op (word h x j) (word h y j))); [done| | |done].
  - split; [done|]. split; [apply frame_refl|]. intros j Hj. lia.
  - intros i [] h1 Hi (Hg & Hf & E). assert (Hz1 : wf h1 z) by (by eapply frame_wf). apply wp_bind, wp_word; [by eapply frame_wf|lia|]. apply wp_bind, wp_word; [by eapply frame_wf|lia|].
    apply wp_set_word; [done|done|slices|apply Hop; apply word_uint, Hg|]. intros h2 Hg2 Hf2 Ew. split; [done|]. split; [apply (frame_join z 0 i (i + 1) h h1 h2); [done|done|lia]|].
    intros j Hj. destruct (decide (j = i)) as [->|Hji].
    + rewrite Ew. f_equal; apply (word_frame _ _ _ _ _ Hf); (done || slices).
    + rewrite <- E by lia. apply (word_frame _ _ _ _ _ Hf2); [done|slices].
Qed.

(** The words above are copied. *)
Lemma copy_rest_spec h z s n m : good h -> wf h z -> wf h s -> coherent z s -> 0 <= n <= m -> m <= fCount z -> m <= fCount s ->
  wp (copy_rest z s n m) h (λ _ h', good h' /\ frame (win z n m) h h' /\ forall j, n <= j < m -> word h' z j = word h s j).
Proof.
  intros Hh Hz Hs Hc Hn Hmz Hms. unfold copy_rest. apply wp_bind, wp_slice_word; [done|done|cbn; lia|cbn; slices|]. apply wp_bind, wp_slice_word; [done|done|cbn; lia|cbn; slices|]. cbn [from_option id].
  apply wp_bind. apply (wp_copy_words h (sub z n m) (sub s n m) (m - n)); [done|slices|slices|slices|cbn; lia|]. intros h' Hg Hf E. apply wp_ret. split; [done|]. split; [eapply frame_weaken; [exact Hf|slices]|].
  intros j Hj. specialize (E (j - n) ltac:(lia)). rewrite !word_sub in E. by replace (n + (j - n)) with j in E by lia.
Qed.

End Bitwise.

Section Operations.
Implicit Types (h : words) (z x y s r : nat_).

(** Making room and combining the words that both operands have. *)
Lemma combine_first op f h z x y n m u v (K : nat_ -> B nat_) Q : bit_op op f -> f false false = false -> (forall a b, 0 <= a -> 0 <= b -> 0 <= op a b) ->
  good h -> wf h z -> nat_is h x u -> nat_is h y v -> coherent z x -> coherent z y -> 0 <= n <= m -> n <= fCount x -> n <= fCount y ->
  (forall r h', good h' -> frame (all_of (fArray z)) h h' -> wf h' r -> fCount r = m -> located h z r ->
     (forall s w, nat_is h s w -> coherent z s -> wf h' s /\ coherent r s /\ forall j, n <= j < fCount s -> word h' s j = word h s j) ->
     (forall j, 0 <= j < n -> word h' r j = op (word0 h x j) (word0 h y j)) -> wp (K r) h' Q) ->
  wp (r ← make_ z m; bitwise op r x y n;; K r) h Q.
Proof.
  intros Hop Hf Hpos Hh Hz Hx Hy Cx Cy Hn Hnx Hny HK. apply wp_bind, wp_make; [done|done|lia|]. intros r h1 Hg1 Hf1 Hr Hc Hl.
  assert (Hco : forall s w, nat_is h s w -> coherent z s -> coherent r s) by (intros s w Hs Hcs; eapply located_coherent; [exact Hl|by eapply nat_wf|done]).
  apply wp_bind. eapply wp_mono; [apply (bitwise_spec op h1 r x y n); [by intros; eapply bit_op_uint|done|done|by eapply nat_wf, nat_nowhere|by eapply nat_wf, nat_nowhere|lia|lia|done|done|by eapply Hco|by eapply Hco]|].
  intros [] h2 (Hg2 & Hf2 & E). assert (Hr2 : wf h2 r) by (by eapply frame_wf).
  apply HK; [done| |done|done|done| |].
  - eapply (frame_located h h1); [by apply frame_nowhere|exact Hl|exact Hf2|slices].
  - intros s w Hs Hcs. assert (Hs1 : nat_is h1 s w) by (by eapply nat_nowhere). pose proof (nat_wf _ _ _ Hs1) as Hsw. split; [by eapply frame_wf|]. specialize (Hco s w Hs Hcs). split; [done|].
    intros j Hj. rewrite (word_frame _ _ _ s j Hf2) by (done || slices). apply (word_frame _ _ _ s j Hf1); [by eapply nat_wf|auto].
  - intros j Hj. rewrite E by done. unfold word0. rewrite !(proj2 (Z.ltb_lt j _)) by lia. f_equal; apply (word_frame _ _ _ _ _ Hf1); (auto || by eapply nat_wf).
Qed.

Lemma combine_spec op f h z x y s n m u v w : bit_op op f -> f false false = false -> (forall a b, 0 <= a -> 0 <= b -> 0 <= op a b) ->
  good h -> wf h z -> nat_is h x u -> nat_is h y v -> coherent z x -> coherent z y -> nat_is h s w -> coherent z s -> 0 <= n <= m -> n <= fCount x -> n <= fCount y -> m <= fCount s ->
  (forall j, n <= j < m -> word h s j = op (word0 h x j) (word0 h y j)) -> (forall j, m <= j -> op (word0 h x j) (word0 h y j) = 0) ->
  wp (r ← make_ z m; bitwise op r x y n;; copy_rest r s n m;; norm r) h (result h z (op u v)).
Proof.
  intros Hop Hf Hpos Hh Hz Hx Hy Cx Cy Hs Cs Hn Hnx Hny Hms Htop Hout. eapply combine_first; try done. intros r h1 Hg1 Hf1 Hr Hc Hl Hrest E. destruct (Hrest s w Hs Cs) as (Hs1 & Crs & Es).
  apply wp_bind. eapply wp_mono; [apply (copy_rest_spec h1 r s n m); [done|done|done|done|done|lia|done]|]. intros [] h2 (Hg2 & Hf2 & E2).
  apply (wp_norm h h2 z r); [done|by eapply frame_wf| | |done].
  - rewrite Hc. apply (combined op f h h2 r x y m); try done; [lia|]. intros j Hj. destruct (decide (j < n)).
    + rewrite <- E by lia. apply (word_frame _ _ _ r j Hf2); [done|slices].
    + rewrite E2, <- Htop by lia. apply Es. lia.
  - eapply frame_step; [exact Hf1|exact Hf2|]. intros a i Ha Hw. slices.
Qed.

Lemma word0_high h x j : fCount x <= j -> word0 h x j = 0.
Proof. intros Hj. unfold word0. by rewrite (proj2 (Z.ltb_ge j (fCount x))) by lia. Qed.

Lemma word0_low h x j : j < fCount x -> word0 h x j = word h x j.
Proof. intros Hj. unfold word0. by rewrite (proj2 (Z.ltb_lt j (fCount x))) by lia. Qed.

Lemma and_spec h z x y u v : good h -> wf h z -> nat_is h x u -> nat_is h y v -> coherent z x -> coherent z y -> wp (and_ z x y) h (result h z (Z.land u v)).
Proof.
  intros Hh Hz Hx Hy Cx Cy. pose proof (nat_wf _ _ _ Hx) as Hxw. pose proof (nat_wf _ _ _ Hy) as Hyw. pose proof (wf_len _ _ Hxw). pose proof (wf_len _ _ Hyw).
  unfold and_. apply wp_bind, wp_len; [done..|]. apply wp_bind, wp_len; [done..|]. cbv zeta. set (m := if fCount y <? fCount x then fCount y else fCount x).
  assert (Hm : m = Z.min (fCount x) (fCount y)) by (unfold m; destruct (Z.ltb_spec (fCount y) (fCount x)); lia).
  eapply (combine_first Z.land andb h z x y m m u v norm); try done; [by intros a b i Hi; apply Z.land_spec|intros; apply Z.land_nonneg; by left|lia|lia|lia|].
  intros r h1 Hg1 Hf1 Hr Hc Hl _ E. apply (wp_norm h h1 z r); [done|done| |done|done]. rewrite Hc. apply (combined Z.land andb h h1 r x y m); try done; [by intros a b i Hi; apply Z.land_spec|lia|].
  intros j Hj. destruct (Z.le_gt_cases (fCount x) j); [by rewrite (word0_high h x), Z.land_0_l by lia|by rewrite (word0_high h y), Z.land_0_r by lia].
Qed.

Lemma andNot_spec h z x y u v : good h -> wf h z -> nat_is h x u -> nat_is h y v -> coherent z x -> coherent z y -> wp (andNot z x y) h (result h z (Z.ldiff u v)).
Proof.
  intros Hh Hz Hx Hy Cx Cy. pose proof (nat_wf _ _ _ Hx) as Hxw. pose proof (nat_wf _ _ _ Hy) as Hyw. pose proof (wf_len _ _ Hxw). pose proof (wf_len _ _ Hyw).
  unfold andNot. apply wp_bind, wp_len; [done..|]. apply wp_bind, wp_len; [done..|]. cbv zeta. set (n := if fCount x <? fCount y then fCount x else fCount y).
  assert (Hm : n = Z.min (fCount x) (fCount y)) by (unfold n; destruct (Z.ltb_spec (fCount x) (fCount y)); lia).
  eapply (combine_spec Z.ldiff (λ a b, a && negb b)); try done; try lia; [by intros a b i Hi; apply Z.ldiff_spec|intros; apply Z.ldiff_nonneg; by left| |].
  - intros j Hj. by rewrite (word0_high h y), (word0_low h x), Z.ldiff_0_r by lia.
  - intros j Hj. by rewrite (word0_high h x), Z.ldiff_0_l by lia.
Qed.

(** Operations for which 0 is neutral; the longer operand gives the rest. *)
Lemma neutral_spec op f h z x y u v : bit_op op f -> f false false = false -> (forall a b, 0 <= a -> 0 <= b -> 0 <= op a b) -> (forall a, op a 0 = a) -> (forall a, op 0 a = a) ->
  good h -> wf h z -> nat_is h x u -> nat_is h y v -> coherent z x -> coherent z y ->
  wp (m ← len x; n ← len y;
      let '(m, n, s) := if m <? n then (n, m, y) else (m, n, x) in
      z ← make_ z m;
      bitwise op z x y n;;
      copy_rest z s n m;;
      norm z) h (result h z (op u v)).
Proof.
  intros Hop Hf Hpos E1 E2 Hh Hz Hx Hy Cx Cy. pose proof (nat_wf _ _ _ Hx) as Hxw. pose proof (nat_wf _ _ _ Hy) as Hyw. pose proof (wf_len _ _ Hxw). pose proof (wf_len _ _ Hyw).
  apply wp_bind, wp_len; [done..|]. apply wp_bind, wp_len; [done..|]. destruct (Z.ltb_spec (fCount x) (fCount y)); (eapply (combine_spec op f); try done; try lia); intros j Hj;
    by rewrite ?(word0_high h x), ?(word0_high h y), ?(word0_low h x), ?(word0_low h y), ?E1, ?E2 by lia.
Qed.

Lemma or_spec h z x y u v : good h -> wf h z -> nat_is h x u -> nat_is h y v -> coherent z x -> coherent z y -> wp (or_ z x y) h (result h z (Z.lor u v)).
Proof. apply (neutral_spec Z.lor orb); [by intros a b i Hi; apply Z.lor_spec|done|intros; by apply Z.lor_nonneg|apply Z.lor_0_r|apply Z.lor_0_l]. Qed.

Lemma xor_spec h z x y u v : good h -> wf h z -> nat_is h x u -> nat_is h y v -> coherent z x -> coherent z y -> wp (xor z x y) h (result h z (Z.lxor u v)).
Proof. apply (neutral_spec Z.lxor xorb); [by intros a b i Hi; apply Z.lxor_spec|done|intros; by apply Z.lxor_nonneg|apply Z.lxor_0_r|apply Z.lxor_0_l]. Qed.

End Operations.

Section SingleBits.
Implicit Types (h : words) (z x y s r : nat_).

Lemma nat_len h x u : good h -> nat_is h x u -> len x h = Val (fCount x, h).
Proof. intros Hh Hx. apply len_val; [by apply good_ok|by eapply nat_wf]. Qed.

(** The position of a bit in its word. *)
Lemma split_bit i : 0 <= i -> i = 64 * (i / 64) + i mod 64 /\ 0 <= i / 64 /\ 0 <= i mod 64 < 64.
Proof. intros Hi. pose proof (Z.div_mod i 64 ltac:(lia)). pose proof (Z.mod_pos_bound i 64 ltac:(lia)). split; [done|]. split; [by apply Z.div_pos|done]. Qed.

Lemma bit_spec h x u i : good h -> nat_is h x u -> 0 <= i -> bit x i h = Val (Z.b2z (Z.testbit u i), h).
Proof.
  intros Hh Hx Hi. destruct (split_bit i Hi) as (Ed & Hj & Hm). pose proof (nat_wf _ _ _ Hx) as Hxw. unfold bit. change _W with 64. erewrite bind_Val by (by apply (nat_len h x u)).
  rewrite (nat_testbit h x u i Hh Hx Hi). unfold word0. destruct (Z.leb_spec (fCount x) (i / 64)) as [Hle|Hlt].
  - rewrite (proj2 (Z.ltb_ge (i / 64) (fCount x))) by lia. by rewrite Z.testbit_0_l.
  - rewrite (proj2 (Z.ltb_lt (i / 64) (fCount x))) by lia. erewrite bind_Val by (apply wp_word_val; [done|lia]). unfold mret, M_ret. do 2 f_equal.
    rewrite <- (Z.add_0_l (i mod 64)) at 2. rewrite <- Z.shiftr_spec by lia. change 1 with (Z.ones 1). rewrite Z.land_ones by lia. change (2 ^ 1) with 2. by rewrite <- Z.bit0_mod.
Qed.

Lemma bitLen_spec h x u : good h -> nat_is h x u -> bitLen x h = Val (bitlen u, h).
Proof.
  intros Hh Hx. pose proof (nat_wf _ _ _ Hx) as Hxw. pose proof (wf_len _ _ Hxw) as Hl. unfold bitLen. change _W with 64. erewrite bind_Val by (by apply (nat_len h x u)). cbv zeta.
  destruct (Z.leb_spec 0 (fCount x - 1)) as [Hn|Hn].
  2:{ assert (u = 0) as -> by (apply (nat_zero h x); [done|done|lia]). done. }
  erewrite bind_Val by (apply wp_word_val; [done|lia]). unfold mret, M_ret. do 2 f_equal. set (t := word h x (fCount x - 1)). assert (Ht : t <> 0) by (apply Hx; lia).
  pose proof (word_uint h x (fCount x - 1) (proj2 Hh)) as Htu. fold t in Htu. destruct (Len_family_bitlen 64 (Len 64) (LeadingZeros 64) t) as (_ & -> & _); [by do 5 right; left|done|].
  pose proof (num_bound h x (fCount x - 1) (proj2 Hh) ltac:(lia)) as Hb. assert (Eu : u = num h x (fCount x - 1) + t * pw (fCount x - 1)).
  { rewrite <- (nat_value _ _ _ Hx). replace (fCount x) with (fCount x - 1 + 1) at 1 by lia. by rewrite num_succ by lia. }
  unfold is_uint in Htu. pose proof (pw_pos (fCount x - 1) ltac:(lia)) as Hp. rewrite (bitlen_shift (64 * (fCount x - 1)) u); [|lia|fold (pw (fCount x - 1)); nia].
  rewrite Z.shiftr_div_pow2 by lia. fold (pw (fCount x - 1)). rewrite Eu, Z.div_add, Z.div_small, Z.add_0_l by lia. lia.
Qed.

Lemma zero_words_spec fuel : forall h x i, wf h x -> 0 <= i -> i + Z.of_nat fuel = fCount x -> 0 < fCount x -> word h x (fCount x - 1) <> 0 -> (0 < fuel)%nat ->
  exists j, zero_words fuel x i h = Val (j, h) /\ i <= j < fCount x /\ word h x j <> 0 /\ forall k, i <= k < j -> word h x k = 0.
Proof.
  induction fuel as [|fuel IH]; intros h x i Hx Hi Hf Hn Ht H0; [lia|]. cbn [zero_words]. erewrite bind_Val by (apply wp_word_val; [done|lia]).
  destruct (Z.eqb_spec (word h x i) 0) as [E|E]; [|exists i; split; [done|]; split; [lia|]; split; [done|lia]].
  destruct (IH h x (i + 1)) as (j & Ej & Hj & Hw & Hz); [done|lia|lia|done|done| |].
  - destruct fuel; [|lia]. replace i with (fCount x - 1) in E by lia. done.
  - exists j. split; [done|]. split; [lia|]. split; [done|]. intros k Hk. destruct (decide (k = i)) as [->|]; [done|apply Hz; lia].
Qed.

Lemma trailingZeroBits_spec h x u : good h -> nat_is h x u ->
  exists k, trailingZeroBits x h = Val (k, h) /\ if u =? 0 then k = 0 else 0 <= k /\ Z.testbit u k = true /\ forall i, 0 <= i < k -> Z.testbit u i = false.
Proof.
  intros Hh Hx. pose proof (nat_wf _ _ _ Hx) as Hxw. pose proof (wf_len _ _ Hxw) as Hl. unfold trailingZeroBits. change _W with 64. erewrite bind_Val by (by apply (nat_len h x u)).
  destruct (Z.eqb_spec (fCount x) 0) as [E0|E0].
  { assert (u = 0) as -> by (by apply (nat_zero h x)). by exists 0. }
  assert (Hu : u <> 0) by (intros E; apply E0; by apply (nat_zero h x u)). rewrite (proj2 (Z.eqb_neq u 0)) by done.
  destruct (zero_words_spec (Z.to_nat (fCount x)) h x 0) as (j & Ej & Hj & Hw & Hz); [done|lia|lia|lia|apply Hx; lia|lia|].
  erewrite bind_Val by exact Ej. erewrite bind_Val by (apply wp_word_val; [done|lia]). unfold mret, M_ret. eexists. split; [done|].
  pose proof (TrailingZeros_family_lowest 64 (TrailingZeros 64) (word h x j) ltac:(by do 5 right; left) (word_uint h x j (proj2 Hh))) as Hlow. unfold lowest in Hlow. rewrite (proj2 (Z.eqb_neq (word h x j) 0)) in Hlow by done.
  set (t := TrailingZeros 64 (word h x j)) in *. destruct Hlow as (Ht & Hb & Hbz). split; [lia|]. split.
  - rewrite (nat_testbit h x u) by (done || lia). replace ((j * 64 + t) / 64) with j by (apply (Z.div_unique _ _ _ t); lia). replace ((j * 64 + t) mod 64) with t by (apply (Z.mod_unique _ _ j); lia).
    unfold word0. by rewrite (proj2 (Z.ltb_lt j (fCount x))) by lia.
  - intros i Hi. destruct (split_bit i ltac:(lia)) as (Ed & Hq & Hm). rewrite (nat_testbit h x u) by (done || lia). unfold word0. destruct (i / 64 <? fCount x); [|by rewrite Z.testbit_0_l].
    destruct (decide (i / 64 = j)) as [E|Hne]; [rewrite E; apply Hbz; lia|]. rewrite Hz by lia. by rewrite Z.testbit_0_l.
Qed.

Lemma any_word_spec n : forall h x i, wf h x -> 0 <= i -> i + Z.of_nat n <= fCount x ->
  exists b : bool, any_word n x i h = Val (b, h) /\ if b then exists k, i <= k < i + Z.of_nat n /\ word h x k <> 0 else forall k, i <= k < i + Z.of_nat n -> word h x k = 0.
Proof.
  induction n as [|n IH]; intros h x i Hx Hi Hn; cbn [any_word]; [exists false; split; [done|]; intros k Hk; lia|].
  erewrite bind_Val by (apply wp_word_val; [done|lia]). destruct (Z.eqb_spec (word h x i) 0) as [E|E]; cbn [negb].
  - destruct (IH h x (i + 1)) as (b & -> & Hb); [done|lia|lia|]. exists b. split; [done|]. destruct b.
    + destruct Hb as (k & Hk & Hw). exists k. split; [lia|done].
    + intros k Hk. destruct (decide (k = i)) as [->|]; [done|apply Hb; lia].
  - exists true. split; [done|]. exists i. split; [lia|done].
Qed.

(** The bits that a shift to the left keeps. *)
Lemma shl_low t m : is_uint 64 t -> 0 <= m < 64 -> t <<.[64] (64 - m) = t mod 2 ^ m * 2 ^ (64 - m).
Proof.
  intros Ht Hm. unfold shl, wrap. rewrite Z.shiftl_mul_pow2 by lia. replace (2 ^ 64) with (2 ^ m * 2 ^ (64 - m)) by (rewrite <- Z.pow_add_r by lia; f_equal; lia).
  rewrite Z.mul_mod_distr_r; [done|apply Z.pow_nonzero; lia|apply Z.pow_nonzero; lia].
Qed.

(** sticky tells whether a bit below [i] is 1. *)
Lemma sticky_spec h x u i : good h -> nat_is h x u -> 0 <= i -> sticky x i h = Val (if u mod 2 ^ i =? 0 then 0 else 1, h).
Proof.
  intros Hh Hx Hi. destruct (split_bit i Hi) as (Ed & Hj & Hm). pose proof (nat_wf _ _ _ Hx) as Hxw. pose proof (wf_len _ _ Hxw) as Hl. pose proof (nat_bound _ _ _ Hh Hx) as Hb. unfold sticky. change _W with 64.
  erewrite bind_Val by (by apply (nat_len h x u)). destruct (Z.leb_spec (fCount x) (i / 64)) as [Hle|Hlt].
  { assert (Hlt : u < 2 ^ i) by (apply (Z.lt_le_trans _ (pw (fCount x))); [lia|unfold pw; apply Z.pow_le_mono_r; lia]). rewrite Z.mod_small by lia.
    destruct (Z.eqb_spec (fCount x) 0) as [E0|E0]; [by rewrite (proj2 (nat_zero h x u Hh Hx) E0)|]. rewrite (proj2 (Z.eqb_neq u 0)); [done|]. intros E. by apply E0, (nat_zero h x u). }
  set (j := i / 64) in *. set (m := i mod 64) in *. pose proof (wf_cap _ _ Hxw).
  erewrite bind_Val by (apply (slice_val_bounds h x None (Some j)); [by apply good_ok|done|cbn; lia|cbn; lia|cbn; lia]). cbn [default from_option id].
  assert (Hsw : wf h (sub x 0 j)) by (apply sub_wf; [done|lia|lia]). destruct (any_word_spec (Z.to_nat j) h (sub x 0 j) 0) as (b & Eb & Hbw); [done|lia|cbn; lia|].
  erewrite bind_Val by exact Eb. assert (Eu : u mod 2 ^ i = num h x j + pw j * (word h x j mod 2 ^ m)).
  { rewrite <- (nat_value _ _ _ Hx). rewrite (num_cut h x j (fCount x) 0) by lia. replace (fCount x - j) with (fCount x - j - 1 + 1) by lia. rewrite (num_cons h (sub x j 0) 0) by lia. rewrite word_sub, Z.add_0_r.
    pose proof (num_bound h x j (proj2 Hh) ltac:(lia)) as Hlo. replace (2 ^ i) with (pw j * 2 ^ m) by (unfold pw; rewrite <- Z.pow_add_r by lia; f_equal; lia).
    assert (Hpm : 0 < 2 ^ m) by (apply Z.pow_pos_nonneg; lia). rewrite Z.rem_mul_r by lia. rewrite (Z.mul_comm (pw j) (word h x j + _)), Z.mod_add, Z.div_add by lia.
    rewrite (Z.mod_small (num h x j)), (Z.div_small (num h x j)), Z.add_0_l by lia. do 2 f_equal.
    replace (2 ^ 64) with (2 ^ (64 - m) * 2 ^ m) by (rewrite <- Z.pow_add_r by lia; f_equal; lia). rewrite <- Z.mul_assoc, (Z.mul_comm (2 ^ m)), Z.mul_assoc. by rewrite Z.mod_add by lia. }
  pose proof (num_bound h x j (proj2 Hh) ltac:(lia)) as Hlo. pose proof (pw_pos j ltac:(lia)) as Hp. assert (Hpm : 0 < 2 ^ m) by (apply Z.pow_pos_nonneg; lia).
  pose proof (Z.mod_pos_bound (word h x j) (2 ^ m) Hpm) as Hmb. destruct b.
  - destruct Hbw as (k & Hk & Hw). rewrite word_sub, Z.add_0_l in Hw. rewrite (proj2 (Z.eqb_neq _ 0)); [done|]. rewrite Eu. assert (num h x j <> 0); [|nia]. intros E. apply Hw.
    assert (Hz : 0 <= num h (sub x (k + 1) 0) (j - (k + 1)) /\ 0 <= num h x k) by (split; apply num_bound; (apply Hh || lia)). rewrite (num_cut h x (k + 1) j 0), num_succ in E by lia.
    pose proof (word_uint h x k (proj2 Hh)) as Hku. unfold is_uint in Hku. pose proof (pw_pos k ltac:(lia)). pose proof (pw_pos (k + 1) ltac:(lia)). nia.
  - erewrite bind_Val by (apply wp_word_val; [done|lia]). rewrite shl_low by (done || apply word_uint, Hh). rewrite (num_zero h x j) in Eu; [|lia|].
    + rewrite Eu, Z.add_0_l. set (w := word h x j mod 2 ^ m) in *. assert (Hp2 : 0 < 2 ^ (64 - m)) by (apply Z.pow_pos_nonneg; lia).
      destruct (Z.eqb_spec w 0) as [->|Hw]; [by rewrite Z.mul_0_l, Z.mul_0_r|]. rewrite (proj2 (Z.eqb_neq (w * _) 0)), (proj2 (Z.eqb_neq (pw j * w) 0)) by nia. done.
    + intros k Hk. specialize (Hbw k ltac:(lia)). by rewrite word_sub, Z.add_0_l in Hbw.
Qed.

End SingleBits.

Section SetBit.
Implicit Types (h : words) (z x y s r : nat_).

Lemma bit_mask m : 0 <= m < 64 -> 1 <<.[64] m = 2 ^ m /\ is_uint 64 (2 ^ m).
Proof.
  intros Hm. assert (H : is_uint 64 (2 ^ m)) by (split; [apply Z.pow_nonneg; lia|apply Z.pow_lt_mono_r; lia]). split; [|done]. unfold shl. rewrite Z.shiftl_mul_pow2, Z.mul_1_l by lia. by apply wrap_small.
Qed.

(** Changing the bit [i] in its word. *)
Lemma bit_changed op f h h' x r L u i : bit_op op f -> (forall b, f b false = b) -> good h -> good h' -> nat_is h x u -> 0 <= i -> i / 64 < L -> fCount x <= L ->
  (forall k, 0 <= k < L -> word h' r k = if k =? i / 64 then op (word0 h x k) (2 ^ (i mod 64)) else word0 h x k) -> num h' r L = op u (2 ^ i).
Proof.
  intros Hop Hf Hh Hh' Hx Hi HiL HxL E. destruct (split_bit i Hi) as (Ed & Hj & Hm). apply Z.bits_inj'. intros p Hp. destruct (split_bit p Hp) as (Edp & Hjp & Hmp).
  rewrite Hop, testbit_num by (apply Hh' || lia). rewrite (nat_testbit h x u p) by done. rewrite Z.pow2_bits_eqb by lia. destruct (Z.ltb_spec p (64 * L)) as [Hlt|Hge]; cbn [andb].
  - rewrite E by lia. destruct (Z.eqb_spec (p / 64) (i / 64)) as [Eq|Ne].
    + rewrite Hop, Z.pow2_bits_eqb by lia. f_equal. destruct (Z.eqb_spec (i mod 64) (p mod 64)), (Z.eqb_spec i p); (done || lia).
    + rewrite (proj2 (Z.eqb_neq i p)) by (intros ->; done). by rewrite Hf.
  - rewrite (proj2 (Z.eqb_neq i p)) by lia. unfold word0. rewrite (proj2 (Z.ltb_ge (p / 64) (fCount x))) by lia. by rewrite Z.testbit_0_l, Hf.
Qed.

(** Writing the changed word. *)
Lemma set_bit_word {A} op f h0 h z x r u i (K : B A) Q : bit_op op f -> f false false = false -> (forall a b, 0 <= a -> 0 <= b -> 0 <= op a b) -> (forall b, f b false = b) ->
  good h0 -> nat_is h0 x u -> 0 <= i -> good h -> wf h r -> i / 64 < fCount r -> fCount x <= fCount r -> frame (all_of (fArray z)) h0 h -> located h0 z r ->
  (forall k, 0 <= k < fCount r -> word h r k = word0 h0 x k) ->
  (forall h', good h' -> frame (all_of (fArray z)) h0 h' -> wf h' r -> num h' r (fCount r) = op u (2 ^ i) -> (forall k, 0 <= k < fCount r -> k <> i / 64 -> word h' r k = word0 h0 x k) ->
     word h' r (i / 64) = op (word0 h0 x (i / 64)) (2 ^ (i mod 64)) -> wp K h' Q) ->
  wp (zj ← get_Item r (i / 64); set_Item r (i / 64) (op zj (1 <<.[64] (i mod 64)));; K) h Q.
Proof.
  intros Hop Hff Hpos Hf Hh0 Hx Hi Hh Hr HiL HxL Hfr Hl E HQ. destruct (split_bit i Hi) as (Ed & Hj & Hm). destruct (bit_mask (i mod 64) Hm) as [-> Hu]. apply wp_bind, wp_word; [done|lia|].
  apply wp_bind, wp_set_word; [done|done|slices|eapply bit_op_uint; [done|done|done|apply word_uint, Hh|done]|]. intros h' Hg' Hf' Ew. rewrite E in Ew by lia.
  assert (Eo : forall k, 0 <= k < fCount r -> k <> i / 64 -> word h' r k = word0 h0 x k) by (intros k Hk Hne; rewrite <- E by done; apply (word_frame _ _ _ _ _ Hf'); [done|slices]).
  apply HQ; [done|eapply frame_step; [exact Hfr|exact Hf'|]; intros a q Ha Hw; slices|by eapply frame_wf| |done|done].
  apply (bit_changed op f h0 h' x r (fCount r) u i); try done. intros k Hk. destruct (Z.eqb_spec k (i / 64)) as [->|Hne]; [done|by apply Eo].
Qed.

(** Copying the number to its new place. *)
Lemma copy_number h0 h z x r u (Q : Z -> words -> Prop) : good h0 -> nat_is h0 x u -> coherent z x -> good h -> wf h r -> fCount x <= fCount r -> located h0 z r -> frame (all_of (fArray z)) h0 h ->
  (forall k, 0 <= k < fCount x -> word h x k = word h0 x k) -> (forall k, fCount x <= k < fCount r -> word h r k = 0) ->
  (forall h' n, good h' -> frame (all_of (fArray z)) h0 h' -> wf h' r -> (forall k, 0 <= k < fCount r -> word h' r k = word0 h0 x k) -> Q n h') ->
  wp (copy r x) h Q.
Proof.
  intros Hh0 Hx Hc Hh Hr Hle Hl Hf Ex E0 HQ. pose proof (nat_wf _ _ _ Hx) as Hxw. assert (Hxw1 : wf h x) by (by eapply frame_wf). assert (Hcr : coherent r x) by (by eapply located_coherent).
  apply (wp_copy_words h r x (fCount x)); [done|done|done|slices|lia|]. intros h' Hg Hf' E. apply HQ; [done|eapply frame_step; [exact Hf|exact Hf'|]; intros a q Ha Hw; slices|by eapply frame_wf|].
  intros k Hk. unfold word0. destruct (Z.ltb_spec k (fCount x)); [rewrite E by lia; apply Ex; lia|]. etrans; [|apply (E0 k); lia]. apply (word_frame _ _ _ _ _ Hf'); [done|slices].
Qed.

Lemma setBit_spec h z x u i b : good h -> wf h z -> nat_is h x u -> coherent z x -> 0 <= i ->
  wpx (setBit z x i b) h (λ r h', (b = 0 /\ result h z (Z.clearbit u i) r h') \/ (b = 1 /\ result h z (Z.setbit u i) r h')) (λ p, b <> 0 /\ b <> 1 /\ p = Explicit).
Proof.
  intros Hh Hz Hx Hc Hi. destruct (split_bit i Hi) as (Ed & Hj & Hm). pose proof (nat_wf _ _ _ Hx) as Hxw. pose proof (wf_len _ _ Hxw) as Hn. unfold setBit. change _W with 64. apply wpx_bind, wp_len; [done..|].
  assert (Hpow : Z.shiftl 1 i = 2 ^ i) by (rewrite Z.shiftl_mul_pow2 by lia; lia). unfold Z.clearbit, Z.setbit. rewrite Hpow. cbv zeta. set (n := fCount x) in *. destruct (Z.eqb_spec b 0) as [->|Hb0].
  - eapply wpx_wp; [|intros r h' Hres; left; split; [done|exact Hres]]. apply wp_bind, wp_make; [done|done|lia|]. intros r h1 Hg1 Hf1 Hr Hc1 Hl. apply wp_bind.
    apply (copy_number h h1 z x r u); [done|done|done|done|done|fold n; lia|done|by apply frame_nowhere| |intros k Hk; fold n in Hk; lia|].
    { intros k Hk. apply (word_frame _ _ _ _ _ Hf1); auto. }
    intros h2 c Hg2 Hf2 Hr2 E2. destruct (Z.leb_spec n (i / 64)) as [Hle|Hlt].
    + apply wp_ret. assert (E : Z.ldiff u (2 ^ i) = num h2 r (fCount r)).
      { assert (Hnum : num h2 r (fCount r) = u) by (rewrite Hc1, <- (nat_value _ _ _ Hx); apply num_ext; intros k Hk; rewrite E2 by lia; by rewrite word0_low by (fold n; lia)).
        rewrite Hnum. apply Z.bits_inj'. intros p Hp. rewrite Z.ldiff_spec, Z.pow2_bits_eqb by lia. destruct (Z.eqb_spec i p) as [->|]; [|by rewrite andb_true_r]. rewrite (nat_testbit h x u p) by done. rewrite word0_high by (fold n; lia). by rewrite Z.testbit_0_l. }
      rewrite E. split; [done|]. split; [done|]. split; [|done]. split; [done|]. split; [done|]. intros H0. rewrite E2, word0_low by (fold n; lia). rewrite Hc1. apply Hx. fold n. lia.
    + apply (set_bit_word Z.ldiff (λ a b, a && negb b) h h2 z x r u i); try done; [by intros a b k Hk; apply Z.ldiff_spec|intros; apply Z.ldiff_nonneg; by left|intros b'; apply andb_true_r|lia|fold n; lia|].
      intros h3 Hg3 Hf3 Hr3 E3 _ _. by apply (wp_norm h h3 z r).
  - destruct (Z.eqb_spec b 1) as [->|Hb1]; [|by apply wpx_raise]. eapply wpx_wp; [|intros r h' Hres; right; split; [done|exact Hres]]. apply wp_bind.
    assert (Hroom : wp (if n <=? i / 64 then z ← make_ z (i / 64 + 1); zn ← slice_ z (Some n) None; clear zn;; mret z else make_ z n) h
      (λ r h', good h' /\ frame (all_of (fArray z)) h h' /\ wf h' r /\ fCount r = Z.max n (i / 64 + 1) /\ located h z r /\ (forall k, 0 <= k < n -> word h' x k = word h x k) /\ forall k, n <= k < fCount r -> word h' r k = 0)).
    { destruct (Z.leb_spec n (i / 64)) as [Hle|Hlt].
      - apply wp_bind, wp_make; [done|done|lia|]. intros r h1 Hg1 Hf1 Hr Hc1 Hl. assert (Hcr : coherent r x) by (by eapply located_coherent). apply wp_bind, wp_slice_word; [done|done|cbn; lia|cbn; slices|]. cbn [from_option id].
        apply wp_bind. eapply wp_mono; [apply clear_spec; [done|slices]|]. intros _ h2 (Hg2 & Hf2 & E2). apply wp_ret. cbn [sub fCount] in *. assert (Hf2' : frame (win r n (fCount r)) h1 h2) by (eapply frame_weaken; [exact Hf2|slices]).
        split; [done|]. split; [eapply frame_located; [by apply frame_nowhere|exact Hl|exact Hf2'|slices]|]. split; [by eapply frame_wf|]. split; [lia|]. split; [done|]. split.
        + intros k Hk. rewrite (word_frame _ _ _ x k Hf2'); [|by eapply frame_wf|slices]. apply (word_frame _ _ _ x k Hf1); auto.
        + intros k Hk. specialize (E2 (k - n) ltac:(lia)). rewrite word_sub in E2. by replace (n + (k - n)) with k in E2 by lia.
      - apply wp_make; [done|done|lia|]. intros r h1 Hg1 Hf1 Hr Hc1 Hl. split; [done|]. split; [by apply frame_nowhere|]. split; [done|]. split; [lia|]. split; [done|]. split; [|lia].
        intros k Hk. apply (word_frame _ _ _ x k Hf1); auto. }
    eapply wp_mono; [exact Hroom|]. intros r h1 (Hg1 & Hf1 & Hr & Hc1 & Hl & Ex & E0). apply wp_bind.
    apply (copy_number h h1 z x r u); [done|done|done|done|done|fold n; lia|done|done|done|done|]. intros h2 c Hg2 Hf2 Hr2 E2.
    apply (set_bit_word Z.lor orb h h2 z x r u i); try done; [by intros a b' k Hk; apply Z.lor_spec|intros; by apply Z.lor_nonneg|intros b'; apply orb_false_r|lia|fold n; lia|].
    intros h3 Hg3 Hf3 Hr3 E3 Eo Ei. apply wp_ret. split; [done|]. split; [done|]. split; [|done]. split; [done|]. split; [done|]. intros H0. destruct (decide (fCount r - 1 = i / 64)) as [E|Hne].
    + rewrite E, Ei. intros Hz0%Z.lor_eq_0_iff. assert (0 < 2 ^ (i mod 64)) by (apply Z.pow_pos_nonneg; lia). lia.
    + rewrite Eo by lia. rewrite Hc1 in *. rewrite word0_low by (fold n; lia). replace (Z.max n (i / 64 + 1) - 1) with (n - 1) by lia. apply Hx. fold n. lia.
Qed.

End SetBit.

(** ** Bytes *)

Section Bytes.
Implicit Types (h : words) (z x r : nat_) (buf w : list Z).

Lemma word_bytes_iter buf n : forall k w i d, Z.of_nat n <= i <= zlen buf ->
  iterate n k 1 (λ _ '(buf, i, d), buf ← store buf (i - 1) (u8 d); Val (buf, i - 1, d >>. 8)) (take (Z.to_nat i) buf ++ w, i, d)
  = Val (take (Z.to_nat (i - Z.of_nat n)) buf ++ rev (to_le 8 n d) ++ w, i - Z.of_nat n, d / 2 ^ (8 * Z.of_nat n)).
Proof.
  induction n as [|n IH]; intros k w i d Hi; cbn [iterate]; [rewrite Z.sub_0_r, Z.mul_0_r, Z.div_1_r; done|]. rewrite store_back by lia. cbn [mbind outcome_bind]. rewrite IH by lia.
  rewrite Z.shiftr_div_pow2, Z.div_div by (lia || (apply Z.pow_pos_nonneg; lia)). rewrite <- Z.pow_add_r by lia. cbn [to_le rev]. rewrite <- app_assoc. cbn [app]. unfold wrap.
  replace (i - 1 - Z.of_nat n) with (i - Z.of_nat (S n)) by lia. by replace (8 + 8 * Z.of_nat n) with (8 * Z.of_nat (S n)) by lia.
Qed.

Lemma word_bytes_spec buf w i d : 8 <= i <= zlen buf -> word_bytes d (take (Z.to_nat i) buf ++ w, i) = Val (take (Z.to_nat (i - 8)) buf ++ rev (to_le 8 8 d) ++ w, i - 8).
Proof. intros Hi. unfold word_bytes, for_up. change (Z.to_nat (_S - 0)) with 8%nat. cbn [fst snd]. rewrite word_bytes_iter by lia. done. Qed.

(** Leading zeroes do not count. *)
Lemma order_value_zeroes n bs : order_value true (replicate n 0 ++ bs) = order_value true bs.
Proof.
  unfold order_value. rewrite rev_app_distr, from_le_app by lia. assert (E : from_le 8 (rev (replicate n 0)) = 0); [|rewrite E; lia]. induction n as [|n IH]; [done|]. cbn [replicate rev]. rewrite from_le_app, IH by lia. cbn [from_le]. lia.
Qed.

(** What bytes writes before it looks for the first byte that is not 0. *)
Lemma bytes_loop h z v buf : good h -> nat_is h z v -> 8 * fCount z <= zlen buf ->
  wp (loop_up 0 (fCount z) (λ k bi, d ← get_Item z k; lift (word_bytes d bi)) (buf, zlen buf)) h
    (λ bi h', h' = h /\ bi = (take (Z.to_nat (zlen buf - 8 * fCount z)) buf ++ rev (to_le 8 (Z.to_nat (8 * fCount z)) v), zlen buf - 8 * fCount z)).
Proof.
  intros Hh Hz Hl. pose proof (nat_wf _ _ _ Hz) as Hzw. pose proof (wf_len _ _ Hzw) as Hn. rewrite <- (nat_value _ _ _ Hz). set (n := fCount z) in *. set (L := zlen buf) in *.
  apply (wp_loop_up (λ k bi h', h' = h /\ bi = (take (Z.to_nat (L - 8 * k)) buf ++ rev (to_le 8 (Z.to_nat (8 * k)) (num h z k)), L - 8 * k))); [done| | |done].
  - split; [done|]. rewrite Z.mul_0_r, Z.sub_0_r. cbn [to_le rev]. rewrite app_nil_r. unfold L. by rewrite Nat2Z.id, firstn_all.
  - intros k bi h1 Hk (-> & ->). apply wp_bind, wp_word; [done|lia|]. set (d := word h z k). eapply wp_of_val; [unfold lift; by rewrite word_bytes_spec by (fold L; lia)|]. split; [done|].
    replace (L - 8 * (k + 1)) with (L - 8 * k - 8) by lia. do 2 f_equal. rewrite <- rev_app_distr. f_equal. rewrite num_succ by lia.
    replace (Z.to_nat (8 * (k + 1))) with (Z.to_nat (8 * k) + 8)%nat by lia. assert (Ep : pw k = 2 ^ (8 * Z.of_nat (Z.to_nat (8 * k)))) by (unfold pw; f_equal; lia).
    rewrite (Z.mul_comm _ (pw k)), Ep. rewrite to_le_app; [done|lia|]. unfold is_uint. rewrite <- Ep. apply num_bound; [apply Hh|lia].
Qed.

Lemma bytes_spec h z v buf : good h -> nat_is h z v -> 8 * fCount z <= zlen buf ->
  wp (bytes z buf) h (λ '(buf', i) h', h' = h /\ 0 <= i <= zlen buf /\ zlen buf' = zlen buf /\ bytes_ok (drop (Z.to_nat i) buf') /\ order_value true (drop (Z.to_nat i) buf') = v /\
    (i < zlen buf -> drop (Z.to_nat i) buf' !! 0%nat <> Some 0)).
Proof.
  intros Hh Hz Hl. pose proof (nat_wf _ _ _ Hz) as Hzw. pose proof (wf_len _ _ Hzw) as Hn. pose proof (nat_bound _ _ _ Hh Hz) as Hv. unfold bytes. apply wp_bind, wp_len; [done..|]. apply wp_bind.
  eapply wp_mono; [by apply (bytes_loop h z v buf)|]. intros bi h1 (-> & ->). set (n := fCount z) in *. set (L := zlen buf) in *. set (ds := rev (to_le 8 (Z.to_nat (8 * n)) v)).
  assert (Hds : zlen ds = 8 * n) by (unfold ds; rewrite length_rev, length_to_le; lia). set (buf' := take (Z.to_nat (L - 8 * n)) buf ++ ds). assert (Hb' : zlen buf' = L) by (unfold buf'; rewrite length_app, length_take; lia).
  assert (Hok : bytes_ok ds) by (apply Forall_rev, to_le_uint; lia). assert (Hat : forall k, L - 8 * n <= k < L -> buf' !! Z.to_nat k = ds !! Z.to_nat (k - (L - 8 * n))).
  { intros k Hk. unfold buf'. rewrite lookup_app_r by (rewrite length_take; lia). f_equal. rewrite length_take. lia. }
  destruct (scan_up_spec (λ k, default 1 (buf' !! Z.to_nat k) =? 0) (L - 8 * n) L (λ i, b ← index buf' i; Val (b =? 0))) as (i & Ei & Hi & Hz0 & Hstop); [lia| |].
  { intros k Hk. destruct (lookup_lt_is_Some_2 buf' (Z.to_nat k) ltac:(lia)) as [y Hy]. rewrite (index_Val buf' k y) by (done || lia). cbn [mbind outcome_bind]. by rewrite Hy. }
  cbv beta iota. apply wp_bind. eapply wp_of_val; [unfold lift; fold ds buf'; rewrite Hb', Ei; done|]. apply wp_ret. split; [done|]. split; [lia|]. split; [done|].
  set (c := Z.to_nat (i - (L - 8 * n))). assert (Ed : drop (Z.to_nat i) buf' = drop c ds). { unfold buf'. rewrite drop_app_ge by (rewrite length_take; lia). f_equal. rewrite length_take. unfold c. lia. }
  assert (Ez : take c ds = replicate c 0).
  { apply list_eq. intros k. destruct (decide (k < c)%nat) as [Hk|Hk]; [|by rewrite !lookup_ge_None_2 by (rewrite ?length_take, ?length_replicate; lia)].
    rewrite lookup_take_lt, lookup_replicate_2 by done. specialize (Hz0 (L - 8 * n + Z.of_nat k) ltac:(unfold c in Hk; lia)). rewrite Hat in Hz0 by (unfold c in Hk; lia). replace (Z.to_nat _) with k in Hz0 by lia.
    destruct (lookup_lt_is_Some_2 ds k ltac:(unfold c in Hk; lia)) as [y Hy]. rewrite Hy in *. cbn in Hz0. by apply Z.eqb_eq in Hz0 as ->. }
  rewrite Ed. split; [by apply Forall_drop|]. split.
  - rewrite <- (order_value_zeroes c), <- Ez, take_drop. unfold order_value, ds. rewrite rev_involutive, from_to_le by lia. apply Z.mod_small. unfold pw in Hv. by replace (8 * Z.of_nat (Z.to_nat (8 * n))) with (64 * n) by lia.
  - intros Hlt. specialize (Hstop Hlt). rewrite Hat in Hstop by lia. fold c in Hstop. rewrite lookup_drop, Nat.add_0_r. intros E. by rewrite E in Hstop.
Qed.

End Bytes.

Section SetBytes.
Implicit Types (h : words) (z x r : nat_) (buf : list Z).

(** The number in the bytes from position [i]. *)
Definition tail_value buf (i : Z) : Z := order_value true (drop (Z.to_nat i) buf).

Lemma order_value_app bs cs : order_value true (bs ++ cs) = order_value true cs + 2 ^ (8 * zlen cs) * order_value true bs.
Proof. unfold order_value. rewrite rev_app_distr, from_le_app, length_rev by lia. done. Qed.

Lemma tail_value_split buf i k : 0 <= k -> k <= i <= zlen buf -> tail_value buf (i - k) = tail_value buf i + 2 ^ (8 * (zlen buf - i)) * order_value true (take (Z.to_nat k) (drop (Z.to_nat (i - k)) buf)).
Proof.
  intros Hk Hi. unfold tail_value. rewrite <- (take_drop (Z.to_nat k) (drop (Z.to_nat (i - k)) buf)) at 1. rewrite order_value_app, drop_drop.
  replace (Z.to_nat (i - k) + Z.to_nat k)%nat with (Z.to_nat i) by lia. do 3 f_equal. rewrite length_drop. lia.
Qed.

Lemma bigEndianWord_spec buf : zlen buf = 8 -> bytes_ok buf -> bigEndianWord buf = Val (order_value true buf) /\ is_uint 64 (order_value true buf).
Proof.
  intros Hl Hb. unfold bigEndianWord. change (_W =? 64) with true. cbn iota. rewrite bigEndian_Uint64_val by (done || lia). cbn [mbind outcome_bind]. rewrite firstn_all2 by lia.
  pose proof (order_value_uint true buf Hb) as Hu. rewrite Hl in Hu. change _W with 64. by rewrite wrap_small.
Qed.

Lemma whole_words_spec fuel : forall h z buf k i, good h -> wf h z -> bytes_ok buf -> 0 <= k -> 0 <= i <= zlen buf -> zlen buf = i + 8 * k -> k + i / 8 <= fCount z -> i / 8 < Z.of_nat fuel -> num h z k = tail_value buf i ->
  wp (whole_words fuel z buf k i) h (λ j h', good h' /\ frame (win z 0 (fCount z)) h h' /\ j = i mod 8 /\ num h' z (k + i / 8) = tail_value buf j).
Proof.
  induction fuel as [|fuel IH]; intros h z buf k i Hh Hz Hb Hk Hi Hl Hc Hf E; [pose proof (Z.div_pos i 8); lia|]. cbn [whole_words]. change _S with 8. pose proof (Z.div_mod i 8 ltac:(lia)) as Ed. pose proof (Z.mod_pos_bound i 8 ltac:(lia)) as Hm.
  destruct (Z.leb_spec 8 i) as [Hle|Hlt].
  - assert (E8 : (i - 8) / 8 = i / 8 - 1) by (symmetry; apply (Z.div_unique _ _ _ (i mod 8)); lia). assert (Em : (i - 8) mod 8 = i mod 8) by (symmetry; apply (Z.mod_unique _ _ (i / 8 - 1)); lia).
    set (bs := take (Z.to_nat (i - (i - 8))) (drop (Z.to_nat (i - 8)) buf)). assert (Hbs : zlen bs = 8) by (unfold bs; rewrite length_take, length_drop; lia).
    destruct (bigEndianWord_spec bs Hbs ltac:(by apply Forall_take, Forall_drop)) as [Ew Hw].
    apply wp_bind. eapply wp_of_val; [unfold lift, slice; rewrite decide_True by lia; done|]. apply wp_bind. eapply wp_of_val; [unfold lift; fold bs; by rewrite Ew|].
    apply wp_bind, wp_set_word; [done|done|pose proof (wf_cap _ _ Hz); lia|done|]. intros h1 Hg1 Hf1 Ek. eapply wp_mono; [apply (IH h1 z buf (k + 1) (i - 8)); try done; try lia; [by eapply frame_wf|]|].
    + rewrite num_succ, Ek by lia. rewrite (num_frame _ _ _ _ k Hf1) by (done || slices). rewrite E, (tail_value_split buf i 8) by lia. unfold bs. replace (i - (i - 8)) with 8 by lia. unfold pw. replace (8 * (zlen buf - i)) with (64 * k) by lia. ring.
    + intros j h2 (Hg2 & Hf2 & Ej & E2). split; [done|]. split; [eapply frame_step; [eapply frame_weaken; [exact Hf1|slices]|exact Hf2|done]|]. split; [lia|]. by replace (k + i / 8) with (k + 1 + (i - 8) / 8) by lia.
  - apply wp_ret. assert (i / 8 = 0) as -> by lia. rewrite Z.add_0_r. split; [done|]. split; [apply frame_refl|]. split; [lia|done].
Qed.

Lemma last_word_spec fuel : forall buf i s d, bytes_ok buf -> 0 <= i <= zlen buf -> 0 <= s -> s + 8 * i <= 64 -> is_uint s d -> i < Z.of_nat fuel ->
  last_word fuel buf i s d = Val (d + 2 ^ s * order_value true (take (Z.to_nat i) buf)).
Proof.
  induction fuel as [|fuel IH]; intros buf i s d Hb Hi Hs Hsi Hd Hf; [lia|]. cbn [last_word]. destruct (Z.ltb_spec 0 i) as [Hlt|Hge].
  - destruct (take_pred buf i ltac:(lia)) as [y Ey]. assert (Hy : buf !! Z.to_nat (i - 1) = Some y).
    { rewrite <- (lookup_take_lt buf (Z.to_nat i)) by lia. rewrite Ey. rewrite lookup_app_r by (rewrite length_take; lia). rewrite length_take. by replace (Z.to_nat (i - 1) - _)%nat with 0%nat by lia. }
    rewrite (index_Val buf (i - 1) y) by (done || lia). cbn [mbind outcome_bind]. assert (Hyu : is_byte y) by (by eapply (Forall_lookup_1 _ _ _ _ Hb Hy)).
    change _W with 64. destruct (lor_digit 64 s 8 d y Hs ltac:(lia) ltac:(lia) Hd Hyu) as [-> Hu]. rewrite IH by (done || lia). f_equal. rewrite Ey, order_value_app. change (zlen [y]) with 1. rewrite Z.pow_add_r by lia.
    assert (E1 : order_value true [y] = y) by (unfold order_value; cbn [rev app from_le]; lia). rewrite E1. change (2 ^ (8 * 1)) with (2 ^ 8). ring.
  - assert (i = 0) as -> by lia. change (order_value true (take (Z.to_nat 0) buf)) with 0. f_equal. lia.
Qed.

(** setBytes reads the bytes as a number in big-endian order. *)
Lemma setBytes_spec h z buf : good h -> wf h z -> bytes_ok buf -> wp (setBytes z buf) h (result h z (order_value true buf)).
Proof.
  intros Hh Hz Hb. unfold setBytes. change _S with 8. set (L := zlen buf). rewrite Z.quot_div_nonneg by lia. pose proof (Z.div_mod L 8 ltac:(lia)) as Ed. pose proof (Z.mod_pos_bound L 8 ltac:(lia)) as Hm.
  assert (Hn : (L + 8 - 1) / 8 = L / 8 + (if L mod 8 =? 0 then 0 else 1)).
  { destruct (Z.eqb_spec (L mod 8) 0); symmetry; [apply (Z.div_unique _ _ _ 7); lia|apply (Z.div_unique _ _ _ (L mod 8 - 1)); lia]. }
  rewrite Hn. pose proof (Z.div_pos L 8 ltac:(lia) ltac:(lia)) as Hq. apply wp_bind, wp_make; [done|done|destruct (L mod 8 =? 0); lia|]. intros r h1 Hg1 Hf1 Hr Hc Hl. apply wp_bind.
  eapply wp_mono; [apply (whole_words_spec (S (length buf)) h1 r buf 0 L); try done; try lia; [destruct (L mod 8 =? 0); lia|unfold tail_value, L; rewrite Nat2Z.id, drop_all; done]|]. rewrite Z.add_0_l.
  intros j h2 (Hg2 & Hf2 & -> & E2). assert (Hr2 : wf h2 r) by (by eapply frame_wf). assert (Hall : tail_value buf 0 = order_value true buf) by (unfold tail_value; by rewrite drop_0). apply wp_bind.
  destruct (Z.ltb_spec 0 (L mod 8)) as [Hlt|Hge].
  - rewrite (proj2 (Z.eqb_neq (L mod 8) 0)) in * by lia. assert (Hu : is_uint 64 (order_value true (take (Z.to_nat (L mod 8)) buf))).
    { apply (is_uint_mono (8 * (L mod 8))); [lia|]. pose proof (order_value_uint true (take (Z.to_nat (L mod 8)) buf) ltac:(by apply Forall_take)) as Hu. rewrite length_take in Hu. by replace (zlen buf) with L in Hu by done; replace (Z.of_nat (Z.to_nat (L mod 8) `min` length buf)) with (L mod 8) in Hu by lia. }
    apply wp_bind. eapply wp_of_val; [unfold lift; rewrite last_word_spec by (done || lia || (unfold is_uint; lia)); done|]. rewrite Z.add_0_l, Z.mul_1_l. apply wp_bind, wp_len; [done..|]. apply wp_set_word; [done|done|pose proof (wf_cap _ _ Hr2); lia|done|].
    intros h3 Hg3 Hf3 E3. apply (wp_norm h h3 z r); [done|by eapply frame_wf| | |done].
    + rewrite Hc. rewrite Hc in E3, Hf3. replace (L / 8 + 1 - 1) with (L / 8) in * by lia. rewrite num_succ, E3 by lia. rewrite (num_frame _ _ _ _ (L / 8) Hf3) by (done || slices). rewrite E2, <- Hall.
      pose proof (tail_value_split buf (L mod 8) (L mod 8) ltac:(lia) ltac:(fold L; lia)) as Es. rewrite Z.sub_diag, drop_0 in Es. rewrite Es. unfold pw. fold L. replace (8 * (L - L mod 8)) with (64 * (L / 8)) by lia. ring.
    + eapply (frame_located h h2); [eapply (frame_located h h1); [by apply frame_nowhere|exact Hl|exact Hf2|slices]|exact Hl|exact Hf3|slices].
  - apply wp_ret. assert (E0 : L mod 8 = 0) by lia. rewrite E0 in *. cbn in Hc, Hn. rewrite Z.add_0_r in *. apply (wp_norm h h2 z r); [done|done|by rewrite Hc, E2| |done].
    eapply (frame_located h h1); [by apply frame_nowhere|exact Hl|exact Hf2|slices].
Qed.

End SetBytes.
