(* ===== verification/BigSqrt.v ===== *)
(** * math/big: square roots

    The integer square root of natural numbers (src/Source/Gold/math/big/nat_elements.go), by Newton's iteration with two numbers that
    exchange their storage. *)

From S2P Require Import Prelude Bits State Slices BigArith BigNat BigMul BigSqr BigDiv BigBits.

Local Open Scope go_scope.

(** The constant 1 of the package, the first array that is not empty. *)
Definition natOne : nat_ := SliceOf 1 0 1.

(** [z = (z + x/z) / 2] until it stops getting smaller; [n] counts the turns. *)
Fixpoint sqrt_loop (fuel : nat) (p : Pool) (z x z1 z2 : nat_) (n : Z) : B (nat_ * Pool) :=
  match fuel with
  | O => no_fuel
  | S fuel =>
      '(z2, _, p) ← div p z2 fZero x z1;
      z2 ← add z2 z2 z1;
      z2 ← shr_ z2 z2 1;
      c ← cmp z2 z1;
      if 0 <=? c then
        if n &. 1 =? 0 then mret (z1, p) else r ← set z z1; mret (r, p)
      else sqrt_loop fuel p z x z2 z1 (i64 (n + 1))
  end.

Definition sqrt (p : Pool) (z x : nat_) : B (nat_ * Pool) :=
  c ← cmp x natOne;
  if c <=? 0 then r ← set z x; mret (r, p)
  else
    al ← alias z x;
    let z := if al : bool then fZero else z in
    z1 ← setUint64 z 1;
    l ← bitLen x;
    z1 ← shl_ z1 z1 ((l + 1) / 2);
    sqrt_loop (S (S (Z.to_nat l))) p z x z1 fZero 0.

(** The root of 10^40 + 1. *)
Example sqrt_example :
  match sqrt [] fZero (SliceOf 2 0 3) [[]; [1]; [(10 ^ 40 + 1) mod 2 ^ 64; (10 ^ 40 + 1) / 2 ^ 64 mod 2 ^ 64; (10 ^ 40 + 1) / 2 ^ 128]] with
  | Val (r, _, h) => num h r (fCount r) = 10 ^ 20 | _ => False end.
Proof. vm_compute. reflexivity. Qed.

(** ** Newton's iteration *)

Definition newton (X a : Z) : Z := (a + X / a) / 2.

(** It does not go below the root. *)
Lemma newton_above X a : 0 <= X -> 0 < a -> Z.sqrt X <= newton X a.
Proof.
  intros HX Ha. unfold newton. pose proof (Z.sqrt_spec X HX) as [Hs _]. pose proof (Z.sqrt_nonneg X) as H0. set (s := Z.sqrt X) in *. set (q := X / a).
  assert (Hq : X < a * (q + 1)) by (pose proof (Z.mul_succ_div_gt X a Ha); unfold q; lia). assert (Hq0 : 0 <= q) by (apply Z.div_pos; lia).
  apply Z.div_le_lower_bound; [lia|]. destruct (Z.le_gt_cases (2 * s) (a + q)) as [|Hlt]; [done|].
  pose proof (Z.square_nonneg (a - (q + 1))). assert (4 * (a * (q + 1)) <= (a + q + 1) * (a + q + 1)) by nia. assert ((a + q + 1) * (a + q + 1) <= (2 * s) * (2 * s)) by nia. nia.
Qed.

(** From above the root it decreases: the distance is halved. *)
Lemma newton_halves X a : 0 <= X -> Z.sqrt X < a -> newton X a < a /\ 2 * (newton X a - Z.sqrt X) <= a - Z.sqrt X.
Proof.
  intros HX Ha. unfold newton. pose proof (Z.sqrt_spec X HX) as [Hs1 Hs2]. pose proof (Z.sqrt_nonneg X) as H0. set (s := Z.sqrt X) in *.
  assert (Hq : X / a <= s). { apply Z.lt_succ_r. apply Z.div_lt_upper_bound; [lia|]. destruct (Z.le_gt_cases (s + 2) a); nia. }
  pose proof (Z.div_mod (a + X / a) 2 ltac:(lia)). pose proof (Z.mod_pos_bound (a + X / a) 2 ltac:(lia)). lia.
Qed.

(** Where it does not decrease, the number is the root. *)
Lemma newton_stop X a : 0 <= X -> Z.sqrt X <= a -> a <= newton X a -> a = Z.sqrt X.
Proof. intros HX Ha Hn. destruct (Z.le_gt_cases a (Z.sqrt X)); [lia|]. pose proof (newton_halves X a HX ltac:(lia)). lia. Qed.

(** ** The loop *)

(** The results of a computation that starts in the storage of an intermediate result. *)
Lemma result_trans h z t h1 v r h2 : frame (all_of (fArray z)) h h1 -> located h z t -> result h1 t v r h2 -> result h z v r h2.
Proof.
  intros Hf L (Hg & Hf2 & Hn & L2). split; [done|]. split; [|split; [done|by eapply located_trans]]. eapply frame_step; [exact Hf|exact Hf2|]. unfold all_of. intros a i Ha ->. destruct L as [[? _]|[? _]]; [done|lia].
Qed.

(** Nothing is written to the empty array. *)
Lemma frame_but_nil P Q h h' : good h -> frame P h h' -> (forall a i, P a i -> a = EmptyArray \/ Q a i) -> frame Q h h'.
Proof.
  intros Hg [Hl Hf] HP. split; [done|]. intros a Ha. destruct (Hf a Ha) as [Ez Hc]. split; [done|]. intros i Hi. destruct (decide (a = EmptyArray)) as [->|Hne].
  - destruct Hg as [[_ He] _]. rewrite He in Ez. rewrite !cell_slot. unfold slot. rewrite He, (array_nil h' EmptyArray) by done. done.
  - apply Hc. intros H. by destruct (HP _ _ H).
Qed.


Section Root.
Implicit Types (h : words) (z x u : nat_) (p : Pool) (X A : Z).

(** Where a number that started in the storage of [z] is, since a heap of length [L]. *)
Definition from (L : nat) z u : Prop := fArray u = fArray z \/ (L <= fArray u)%nat.

(** The state of the loop: the approximation in [z1], storage for the next in [z2]; [even] says that [z1] is the one that
    started in the storage of [z]. *)
Record rooting h0 p0 z x X (even : bool) z1 A z2 p h : Prop := {
  rooting_good : good h;
  rooting_frame : frame (λ a _, a = fArray z \/ a ∈ arrays p0) h0 h;
  rooting_numbers : nat_is h x X /\ nat_is h z1 A /\ wf h z2 /\ wf h z;
  rooting_starts : fStart z = 0 /\ fStart x = 0 /\ fStart z1 = 0 /\ fStart z2 = 0;
  rooting_apart : fArray z1 <> fArray x /\ fArray z2 <> fArray x /\ fArray z1 <> fArray z2;
  rooting_old : (fArray x < length h0)%nat /\ (fArray z < length h0)%nat;
  rooting_from : if even then from (length h0) z z1 /\ from (length h0) fZero z2 else from (length h0) z z2 /\ from (length h0) fZero z1;
  rooting_pool : pool_ok h p /\ forall a, a ∈ arrays p -> (a ∈ arrays p0 \/ (length h0 <= a)%nat) /\ a <> fArray z /\ a <> fArray x /\ a <> fArray z1 /\ a <> fArray z2
}.

Lemma from_located h0 h z z2 u : (length h0 <= length h)%nat -> from (length h0) z z2 -> located h z2 u -> from (length h0) z u.
Proof. unfold from. intros Hl Hf [[-> _]|[Hge _]]; [done|right; lia]. Qed.

Lemma number_array h u A : good h -> nat_is h u A -> A <> 0 -> fArray u <> EmptyArray /\ 0 < fCount u /\ (fArray u < length h)%nat.
Proof.
  intros Hg Hn HA. pose proof (nat_zero _ _ _ Hg Hn). pose proof (wf_len _ _ (nat_wf _ _ _ Hn)). split; [|split; [lia|by apply nat_wf in Hn; destruct Hn]]. apply (full_array h); [by apply good_ok|by eapply nat_wf|lia].
Qed.

(** One turn computes the next approximation, in the storage of [z2]. *)
Lemma wp_newton {T} h0 p0 z x X even z1 A z2 p h (K : nat_ -> Pool -> B T) Q : good h0 -> rooting h0 p0 z x X even z1 A z2 p h -> 0 < X -> 0 < A ->
  (forall u p' h', rooting h0 p0 z x X even z1 A u p' h' -> nat_is h' u (newton X A) -> wp (K u p') h' Q) ->
  wp ('(z2, _, p) ← div p z2 fZero x z1; z2 ← add z2 z2 z1; z2 ← shr_ z2 z2 1; K z2 p) h Q.
Proof.
  intros Hg0 [Hg Hf (Hx & H1 & H2 & Hz) (Fz & Fx & F1 & F2) (A1x & A2x & A12) (Ox & Oz) Hfrom (Hp & Hpa)] HX HA HK. pose proof (frame_length _ _ _ Hf) as L0.
  destruct (number_array h z1 A Hg H1 ltac:(lia)) as (Ne1 & _ & Lt1). destruct (number_array h x X Hg Hx ltac:(lia)) as (Nex & _ & Ltx).
  assert (Hnil : EmptyArray ∉ arrays p) by (intros Ha; by destruct (pool_old _ _ _ Hp Ha)).
  apply wp_bind. eapply wp_mono; [apply (div_spec h p z2 fZero x z1 X A); [|done|done|lia]|].
  { split_and!; first [done|by apply zero_wf, good_ok|by unfold coherent; cbn; intros; congruence|by intros _ ?|intros Ha; by destruct (Hpa _ Ha) as (? & ? & ? & ? & ?)]. }
  intros [[q s] p1] h1 (Hg1 & Hf1 & Nq & _ & Lq & _ & _ & Hp1 & Hpa1). pose proof (frame_length _ _ _ Hf1) as L1. cbn [fZero fArray] in Hf1.
  assert (Fq : fStart q = 0) by (destruct Lq as [[_ E]|[_ E]]; congruence). assert (Aq : fArray q <> fArray z1 /\ fArray q <> fArray x) by (destruct Lq as [[-> _]|[Hge _]]; [done|split; lia]).
  assert (H11 : nat_is h1 z1 A). { eapply nat_frame; [exact Hf1|done|]. intros i _ [E|[E|E]]; [done|done|]. by destruct (Hpa _ E) as (_ & _ & _ & ? & _). }
  assert (Hx1 : nat_is h1 x X). { eapply nat_frame; [exact Hf1|done|]. intros i _ [E|[E|E]]; [by apply A2x|done|]. by destruct (Hpa _ E) as (_ & _ & ? & _). }
  apply wp_bind. eapply wp_mono; [apply (add_spec h1 q q z1 (X / A) A); first [done|by eapply nat_wf|unfold coherent; intros; congruence]|]. intros t h2 (Hg2 & Hf2 & Nt & Lt).
  assert (Ft : fStart t = 0) by (destruct Lt as [[_ E]|[_ E]]; congruence).
  apply wp_bind. eapply wp_mono; [apply (shr_spec h2 t t (X / A + A) 1); first [done|by eapply nat_wf|unfold coherent; intros; congruence]|]. intros u h3 Hr.
  apply (result_trans h1 q) in Hr; [|done|done]. destruct Hr as (Hg3 & Hf3 & Nu & Lu). rewrite Z.pow_1_r, (Z.add_comm (X / A)) in Nu. change ((A + X / A) / 2) with (newton X A) in Nu.
  assert (L2u : located h z2 u) by (by eapply located_trans). pose proof (frame_length _ _ _ Hf3) as L3. assert (Hf13 : frame (λ a _, a = fArray z2 \/ a ∈ arrays p) h h3).
  { eapply frame_step; [eapply frame_but_nil; [exact Hg|exact Hf1|]|exact Hf3|]; cbn; [tauto|]. unfold all_of. intros a i Ha ->. destruct Lq as [[? _]|[? _]]; [by left|lia]. }
  assert (Ax : fArray u <> fArray x /\ fArray z1 <> fArray u) by (destruct L2u as [[-> _]|[Hge _]]; [done|split; lia]).
  assert (Hqz1 : forall i, 0 <= i < fCount z1 -> ~ all_of (fArray q) (fArray z1) (fStart z1 + i)) by (unfold all_of; intros i _ E; by destruct Aq).
  assert (Hqx : forall i, 0 <= i < fCount x -> ~ all_of (fArray q) (fArray x) (fStart x + i)) by (unfold all_of; intros i _ E; by destruct Aq).
  apply HK; [|done]. split.
  - done.
  - apply (frame_but_nil (λ a _, a = EmptyArray \/ a = fArray z \/ a ∈ arrays p0)); [done| |tauto]. eapply frame_step; [eapply frame_weaken; [exact Hf|auto]|exact Hf13|]. cbn. intros a i Ha [->|Hin].
    + destruct even, Hfrom as [[G1|G1] [G2|G2]]; cbn in *; auto; lia.
    + destruct (Hpa _ Hin) as ([?|?] & _); [auto|lia].
  - split; [eapply nat_frame; [exact Hf3|done|done]|]. split; [eapply nat_frame; [exact Hf3|done|done]|]. split; [by eapply nat_wf|eapply frame_wf; [exact Hf13|done]].
  - split_and!; [done|done|done|destruct L2u as [[_ E]|[_ E]]; congruence].
  - tauto.
  - done.
  - destruct even, Hfrom as [G1 G2]; first [split; [|done]|split; [done|]]; by eapply from_located.
  - split; [eapply pool_frame; [exact Hf3|done]|]. intros a Ha. destruct (Hpa1 _ Ha) as (Hin & Hq & _). destruct (pool_old _ _ _ Hp1 Ha) as [Hlt _].
    assert (Hau : a <> fArray u) by (destruct Lu as [[-> _]|[Hge _]]; [done|lia]). destruct Hin as [Hin|Hge]; [by destruct (Hpa _ Hin) as (? & ? & ? & ? & _)|]. split_and!; [right; lia|lia|lia|lia|done].
Qed.

(** What the root promises of its result and of the pool. *)
Definition rooted h0 p0 z (v : Z) r p h : Prop :=
  good h /\ frame (λ a _, a = fArray z \/ a ∈ arrays p0) h0 h /\ nat_is h r v /\ located h0 z r /\ pool_ok h p /\
  forall a, a ∈ arrays p -> (a ∈ arrays p0 \/ (length h0 <= a)%nat) /\ a <> fArray r.

(** The approximation and the storage for the next change places. *)
Lemma rooting_swap h0 p0 z x X even z1 A z2 p h B : rooting h0 p0 z x X even z1 A z2 p h -> nat_is h z2 B -> rooting h0 p0 z x X (negb even) z2 B z1 p h.
Proof.
  intros [Hg Hf (Hx & H1 & H2 & Hz) (Fz & Fx & F1 & F2) (A1x & A2x & A12) Ho Hfrom (Hp & Hpa)] H2'. split; try done.
  - split; [done|]. split; [done|]. split; [by eapply nat_wf|done].
  - by destruct even, Hfrom.
  - split; [done|]. intros a Ha. destruct (Hpa _ Ha) as (? & ? & ? & ? & ?). done.
Qed.

Lemma i64_odd n : Z.odd (i64 n) = Z.odd n.
Proof.
  unfold swrap. rewrite Z.odd_sub. change (Z.odd (2 ^ (64 - 1))) with false. rewrite xorb_false_r. set (k := n + 2 ^ (64 - 1)).
  replace (Z.odd n) with (Z.odd k) by (unfold k; rewrite Z.odd_add; change (Z.odd (2 ^ (64 - 1))) with false; apply xorb_false_r).
  rewrite (Z.div_mod k (2 ^ 64)) at 2 by done. rewrite Z.odd_add, Z.odd_mul. change (Z.odd (2 ^ 64)) with false. by rewrite xorb_false_l.
Qed.

(** The end of the loop. *)
Lemma root_done h0 p0 z x X even z1 A z2 p h : good h0 -> rooting h0 p0 z x X even z1 A z2 p h -> A <> 0 ->
  wp (if even then mret (z1, p) else r ← set z z1; mret (r, p)) h (λ '(r, p) h', rooted h0 p0 z A r p h').
Proof.
  intros Hg0 [Hg Hf (Hx & H1 & H2 & Hz) (Fz & Fx & F1 & F2) (A1x & A2x & A12) [Ox Oz] Hfrom (Hp & Hpa)] HA. destruct even.
  - apply wp_ret. destruct Hfrom as [G _]. split; [done|]. split; [done|]. split; [done|]. split; [destruct G as [G|G]; [left|right]; (split; [done|congruence])|]. split; [done|]. intros a Ha. destruct (Hpa _ Ha) as (? & ? & ? & ? & ?). done.
  - apply wp_bind. eapply wp_mono; [apply (set_spec h z z1 A); first [done|by unfold coherent; intros; congruence]|]. intros r h' (Hg' & Hf' & Hr & L). pose proof (frame_length _ _ _ Hf). apply wp_ret.
    split; [done|]. split; [eapply frame_step; [exact Hf|exact Hf'|]; cbn; unfold all_of; auto|]. split; [done|]. split; [destruct L as [L|[L1 L2]]; [by left|right; split; [lia|done]]|].
    split; [by eapply pool_frame|]. intros a Ha. destruct (Hpa _ Ha) as (? & ? & ? & ? & ?). split; [done|]. destruct L as [[-> _]|[Hge _]]; [done|]. destruct (pool_old _ _ _ Hp Ha). lia.
Qed.

Lemma sqrt_loop_spec fuel : forall h0 p0 z x X z1 A z2 p h n, good h0 -> rooting h0 p0 z x X (Z.even n) z1 A z2 p h -> 0 < X -> Z.sqrt X <= A -> A - Z.sqrt X < 2 ^ (Z.of_nat fuel - 1) -> (0 < fuel)%nat ->
  wp (sqrt_loop fuel p z x z1 z2 n) h (λ '(r, p) h', rooted h0 p0 z (Z.sqrt X) r p h').
Proof.
  induction fuel as [|fuel IH]; intros h0 p0 z x X z1 A z2 p h n Hg0 Hr HX HA Hfuel H0; [lia|]. cbn [sqrt_loop].
  assert (Hs : 0 < Z.sqrt X) by (apply Z.sqrt_pos; lia).
  apply (wp_newton h0 p0 z x X (Z.even n) z1 A z2 p h (λ u p, c ← cmp u z1; if 0 <=? c then if n &. 1 =? 0 then mret (z1, p) else r ← set z z1; mret (r, p) else sqrt_loop fuel p z x u z1 (i64 (n + 1)))); [done|done|done|lia|].
  intros u p' h' Hr' Nu. pose proof (rooting_numbers _ _ _ _ _ _ _ _ _ _ _ Hr') as (_ & N1 & _). pose proof (rooting_good _ _ _ _ _ _ _ _ _ _ _ Hr') as Hg.
  apply wp_bind. eapply wp_of_val; [by apply (cmp_spec h' u z1 (newton X A) A)|]. destruct (Z.ltb_spec (newton X A) A) as [Hlt|Hge]; cbn [Z.leb Z.compare].
  - assert (HnA : A <> Z.sqrt X) by (intros ->; pose proof (newton_above X (Z.sqrt X) ltac:(lia) Hs); lia). destruct (newton_halves X A ltac:(lia) ltac:(lia)) as [_ Hh].
    assert (Hf1 : (0 < fuel)%nat) by (destruct fuel; [cbn in Hfuel; lia|lia]). assert (Hp : 2 ^ (Z.of_nat (S fuel) - 1) = 2 * 2 ^ (Z.of_nat fuel - 1)) by (rewrite <- Z.pow_succ_r by lia; f_equal; lia).
    apply (IH h0 p0 z x X u (newton X A) z1 p' h'); [done| |done|apply newton_above; lia|lia|done].
    rewrite <- Z.negb_odd, i64_odd, Z.odd_add. change (Z.odd 1) with true. rewrite xorb_true_r, <- Z.negb_even. rewrite !negb_involutive. by eapply rooting_swap.
  - rewrite (proj2 (Z.leb_le 0 (if A <? newton X A then 1 else 0))) by (by destruct (A <? newton X A)). rewrite <- (newton_stop X A) by lia.
    assert (E : (n &. 1 =? 0) = Z.even n). { change (n &. 1) with (Z.land n (Z.ones 1)). rewrite Z.land_ones by lia. rewrite Zeven_mod. done. }
    rewrite E. apply (root_done h0 p0 z x X (Z.even n) z1 A u p' h'); [done|done|lia].
Qed.

Lemma sqrt_spec h p z x X : good h -> pool_ok h p -> wf h z -> nat_is h x X -> nat_is h natOne 1 -> fStart z = 0 -> fStart x = 0 -> (fArray z ∉ arrays p) -> (fArray x ∉ arrays p) ->
  wp (sqrt p z x) h (λ '(r, p') h', rooted h p z (Z.sqrt X) r p' h').
Proof.
  intros Hg Hp Hz Hx H1 Fz Fx Pz Px. pose proof (nat_bound _ _ _ Hg Hx) as [HX _]. unfold sqrt. apply wp_bind. eapply wp_of_val; [by apply (cmp_spec h x natOne X 1)|].
  destruct (Z.leb_spec (if X <? 1 then -1 else if 1 <? X then 1 else 0) 0) as [Hle|Hgt].
  { assert (X <= 1) by (destruct (Z.ltb_spec X 1), (Z.ltb_spec 1 X); (done || lia)). assert (E : Z.sqrt X = X) by (assert (X = 0 \/ X = 1) as [-> | ->] by lia; done). rewrite E.
    apply wp_bind. eapply wp_mono; [apply (set_spec h z x X); first [done|by unfold coherent; intros; congruence]|]. intros r h' (Hg' & Hf' & Hr & L). apply wp_ret.
    split; [done|]. split; [eapply frame_weaken; [exact Hf'|]; unfold all_of; auto|]. split; [done|]. split; [done|]. split; [by eapply pool_frame|]. intros a Ha. split; [by left|]. by apply (located_apart h p z r). }
  assert (H2 : 2 <= X) by (destruct (Z.ltb_spec X 1), (Z.ltb_spec 1 X); lia). destruct (number_array h x X Hg Hx ltac:(lia)) as (Nex & Hcx & Ltx).
  destruct (alias_val h z x Hg Hz (nat_wf _ _ _ Hx) Hcx) as (b & Eb & Hb). apply wp_bind. eapply wp_of_val; [exact Eb|]. cbv zeta. set (z' := if b then fZero else z).
  assert (Hz' : wf h z' /\ fStart z' = 0 /\ fArray z' <> fArray x /\ (fArray z' ∉ arrays p)).
  { unfold z'. destruct b; [|split_and!; [done|done|by apply Hb|done]]. split_and!; [by apply zero_wf, good_ok|done|by apply not_eq_sym|]. intros Ha. by destruct (pool_old _ _ _ Hp Ha). }
  assert (Hzz : z' = z \/ z' = fZero) by (unfold z'; destruct b; auto). clearbody z'. destruct Hz' as (Wz & Fz' & Azx & Pz').
  apply wp_bind. eapply wp_mono; [apply (setUint64_spec h z' 1); [done|done|unfold is_uint; lia]|]. intros z1 h1 (Hg1 & Hf1 & N1 & L1). assert (F1 : fStart z1 = 0) by (destruct L1 as [[_ E]|[_ E]]; congruence).
  assert (A1 : fArray z1 <> fArray x) by (destruct L1 as [[-> _]|[Hge _]]; [done|lia]). destruct (number_array h1 z1 1 Hg1 N1 ltac:(lia)) as (Ne1 & Hc1 & _).
  assert (Hx1 : nat_is h1 x X) by (eapply nat_frame; [exact Hf1|done|]; unfold all_of; intros i _ E; congruence).
  apply wp_bind. eapply wp_of_val; [by apply (bitLen_spec h1 x X)|]. set (l := bitlen X). set (s := (l + 1) / 2).
  assert (Hl : 1 <= l /\ X < 2 ^ l). { destruct (bitlen_spec X HX) as [Hlt _]. split; [|exact Hlt]. unfold l, bitlen. destruct (Z.eqb_spec X 0); [lia|]. pose proof (Z.log2_nonneg X). lia. }
  assert (Hs : l <= 2 * s <= l + 1) by (unfold s; pose proof (Z.div_mod (l + 1) 2 ltac:(lia)); pose proof (Z.mod_pos_bound (l + 1) 2 ltac:(lia)); lia).
  assert (Hroot : Z.sqrt X <= 2 ^ s).
  { pose proof (Z.sqrt_spec X HX) as [Hsq _]. pose proof (Z.sqrt_nonneg X). destruct (Z.le_gt_cases (Z.sqrt X) (2 ^ s)) as [|Hgt']; [done|]. assert (2 ^ l <= 2 ^ (2 * s)) by (apply Z.pow_le_mono_r; lia).
    replace (2 ^ (2 * s)) with (2 ^ s * 2 ^ s) in * by (rewrite <- Z.pow_add_r by lia; f_equal; lia). nia. }
  apply wp_bind. eapply wp_mono; [apply (shl_spec h1 z1 z1 1 s); first [done|by eapply nat_wf|lia|idtac]|].
  { destruct (decide (s mod 64 = 0)) as [E|]; [|by left]. right; right; right. pose proof (nat_bound _ _ _ Hg1 N1). assert (Ec : fCount z1 = 1).
    { destruct (Z.le_gt_cases (fCount z1) 1) as [|Hg2]; [lia|]. pose proof (num_top h1 z1 (fCount z1) (proj2 Hg1) Hc1 (proj2 (proj2 N1) Hc1)) as Ht. rewrite (nat_value _ _ _ N1) in Ht. pose proof (pw_le 1 (fCount z1 - 1) ltac:(lia)) as Hp1. change (pw 1) with (2 ^ 64) in Hp1. lia. }
    rewrite Ec. pose proof (Z.div_mod s 64 ltac:(lia)). lia. }
  rewrite Z.mul_1_l. intros z2 h2 Hr. apply (result_trans h z') in Hr; [|done|done]. destruct Hr as (Hg2 & Hf2 & N2 & L2). pose proof (frame_length _ _ _ Hf2) as Hlen.
  assert (A2 : fArray z2 <> fArray x) by (destruct L2 as [[-> _]|[Hge _]]; [done|lia]).
  assert (Hx2 : nat_is h2 x X) by (eapply nat_frame; [exact Hf2|done|]; unfold all_of; intros i _ E; congruence).
  destruct (number_array h2 z2 (2 ^ s) Hg2 N2) as (Ne2 & _ & _); [pose proof (Z.pow_pos_nonneg 2 s); lia|].
  eapply wp_mono; [apply (sqrt_loop_spec (S (S (Z.to_nat l))) h p z' x X z2 (2 ^ s) fZero p h2 0); [done| |lia|done| |lia]|].
  - split; try done.
    + eapply frame_weaken; [exact Hf2|]. unfold all_of. auto.
    + split; [done|]. split; [done|]. split; [by apply zero_wf, good_ok|by eapply frame_wf].
    + split_and!; [done|done|destruct L2 as [[_ E]|[_ E]]; congruence|done].
    + split; [done|by destruct Wz].
    + cbn. split; [|by left]. destruct L2 as [[E _]|[Hge _]]; [by left|by right].
    + split; [by eapply pool_frame|]. intros a Ha. destruct (pool_old _ _ _ Hp Ha). split_and!; [by left|congruence|congruence| |done]. by apply (located_apart h p z' z2).
  - assert (2 ^ s <= 2 ^ (Z.of_nat (S (S (Z.to_nat l))) - 1)) by (apply Z.pow_le_mono_r; lia). pose proof (Z.sqrt_pos X). lia.
  - intros [r p'] h' (Hg' & Hf' & Hr & L & Hp' & Hpa). destruct Hzz as [-> | ->]; [done|]. destruct (number_array h' r (Z.sqrt X) Hg' Hr) as (Ner & _ & _); [pose proof (Z.sqrt_pos X); lia|].
    split; [done|]. split; [by eapply frame_but_nil; [done|exact Hf'|]; cbn; tauto|]. split; [done|]. split; [destruct L as [[E _]|[Hge E]]; [by rewrite E in Ner|by right]|done].
Qed.
End Root.

(** ** The root *)

(** C14. The square root is found, for numbers of any length: Newton's iteration from a power of two above the root ends, after at most as many turns as the number has
    bits and two more (the distance to the root is halved in each), and leaves the greatest number whose square is not above [X], in the storage of [z] or in new storage,
    whether [z] shares its array with [x] or not and whichever of the two alternating numbers is the last.  Only the array of [z] and those of the pool's temporaries change. *)
Theorem sqrt_is_root (h : words) (p : Pool) (z x : nat_) (X : Z) :
  good h -> pool_ok h p -> wf h z -> nat_is h x X -> nat_is h natOne 1 -> fStart z = 0 -> fStart x = 0 -> fArray z ∉ arrays p -> fArray x ∉ arrays p ->
  wp (sqrt p z x) h (λ '(r, p') h', exists s, 0 <= s /\ s * s <= X < (s + 1) * (s + 1) /\ rooted h p z s r p' h').
Proof.
  intros Hg Hp Hz Hx H1 Fz Fx Pz Px. eapply wp_mono; [by apply (sqrt_spec h p z x X)|]. intros [r p'] h' Hr. exists (Z.sqrt X). pose proof (nat_bound _ _ _ Hg Hx) as [HX _].
  split; [apply Z.sqrt_nonneg|]. split; [|done]. exact (Z.sqrt_spec X HX).
Qed.

(** The root of 2^128 - 1, in its own storage. *)
Lemma sqrt_is_root_witness :
  let h := [[]; [1]; [2 ^ 64 - 1; 2 ^ 64 - 1; 0]] in
  wp (sqrt [] (SliceOf 2 0 2) (SliceOf 2 0 2)) h (λ '(r, p') h', exists s, 0 <= s /\ s * s <= 2 ^ 128 - 1 < (s + 1) * (s + 1) /\ rooted h [] (SliceOf 2 0 2) s r p' h').
Proof.
  cbv zeta. refine (sqrt_is_root _ [] (SliceOf 2 0 2) (SliceOf 2 0 2) (2 ^ 128 - 1) _ _ _ _ _ eq_refl eq_refl _ _);
    [apply good_check; vm_compute; reflexivity|split; constructor|apply wf_check; vm_compute; reflexivity|apply nat_check; vm_compute; reflexivity|apply nat_check; vm_compute; reflexivity|apply not_elem_of_nil|apply not_elem_of_nil].
Defined.
