(* ===== verification/BigInt.v ===== *)
(** * math/big: signed integers

    The type Int of src/Source/Gold/math/big/int.go: a sign and an absolute value, reached through pointers.  An operation
    [z.Op(x, y)] writes the object of [z], which may be the same as that of an operand.  The state has the words of all
    numbers, the objects by pointer, and the pool of division.  The specification gives each pointer an integer. *)

From S2P Require Import Prelude Bits Binary Hash State Slices BigArith BigNat BigMul BigSqr BigDiv BigBits BigSqrt.

Local Open Scope go_scope.

Record Int : Type := MkInt { neg : bool; abs : nat_ }.
Record world : Type := World { mem : words; objs : list Int; natPool : Pool }.
Abbreviation ptr := nat.
Abbreviation W := (M world).

(** Code that works on numbers only, and division, which uses the pool. *)
Definition on {A} (c : B A) : W A := λ w,
  match c (mem w) with Val (a, h) => Val (a, World h (objs w) (natPool w)) | Panic p => Panic p | NoFuel => NoFuel end.
Definition on_div (z z2 u v : nat_) : W (nat_ * nat_) := λ w,
  match div (natPool w) z z2 u v (mem w) with Val ((q, r, p), h) => Val ((q, r), World h (objs w) p) | Panic p => Panic p | NoFuel => NoFuel end.

Definition load (p : ptr) : W Int := w ← get; match objs w !! p with Some o => mret o | None => raise NilDereference end.
Definition store_ (p : ptr) (o : Int) : W unit := w ← get; put (World (mem w) (<[p := o]> (objs w)) (natPool w)).
Definition neg_ (p : ptr) : W bool := o ← load p; mret (neg o).
Definition abs_ (p : ptr) : W nat_ := o ← load p; mret (abs o).
Definition set_neg (p : ptr) (b : bool) : W unit := o ← load p; store_ p (MkInt b (abs o)).
Definition set_abs (p : ptr) (a : nat_) : W unit := o ← load p; store_ p (MkInt (neg o) a).
(** A computation on absolute values, and the sign it gives. *)
Definition assign (z : ptr) (c : B nat_) (n : bool) : W unit := r ← on c; set_abs z r;; set_neg z n.

Definition new_Int : W ptr := w ← get; put (World (mem w) (objs w ++ [MkInt false fZero]) (natPool w));; mret (length (objs w)).
Definition len_abs (p : ptr) : W Z := a ← abs_ p; on (len a).

(** The constant 1 of the package: an object that no operation writes. *)
Definition intOne : ptr := 0%nat.
Definition initial : world := World [[]; [1]] [MkInt false natOne] [].

(** ** Setting *)

Definition Sign (x : ptr) : W Z :=
  l ← len_abs x;
  if l =? 0 then mret 0 else n ← neg_ x; mret (if n : bool then -1 else 1).

Definition SetInt64 (z : ptr) (x : Z) : W unit :=
  let '(n, x) := if x <? 0 then (true, i64 (- x)) else (false, x) in
  za ← abs_ z; assign z (setUint64 za (u64 x)) n.

Definition SetUint64 (z : ptr) (x : Z) : W unit :=
  za ← abs_ z; assign z (setUint64 za x) false.

Definition NewInt (x : Z) : W ptr := p ← new_Int; SetInt64 p x;; mret p.

Definition Set_ (z x : ptr) : W unit :=
  if decide (z = x) then mret tt
  else
    za ← abs_ z; xa ← abs_ x; r ← on (set za xa); set_abs z r;;
    n ← neg_ x; set_neg z n.

Definition SetBits (z : ptr) (a : nat_) : W unit := assign z (norm a) false.

Definition Abs (z x : ptr) : W unit := Set_ z x;; set_neg z false.
Definition Neg (z x : ptr) : W unit := Set_ z x;; l ← len_abs z; n ← neg_ z; set_neg z ((0 <? l) && negb n).

(** ** Sums and products *)

(** [z.neg = len(z.abs) > 0 && c], 0 has no sign *)
Definition set_sign (z : ptr) (c : bool) : W unit := l ← len_abs z; set_neg z ((0 <? l) && c).

Definition Add (z x y : ptr) : W unit :=
  ng ← neg_ x; ny ← neg_ y;
  za ← abs_ z; xa ← abs_ x; ya ← abs_ y;
  ng ← (if eqb ng ny then r ← on (add za xa ya); set_abs z r;; mret ng
         else
           c ← on (cmp xa ya);
           if 0 <=? c then r ← on (sub_ za xa ya); set_abs z r;; mret ng
           else r ← on (sub_ za ya xa); set_abs z r;; mret (negb ng));
  set_sign z ng.

Definition Sub (z x y : ptr) : W unit :=
  ng ← neg_ x; ny ← neg_ y;
  za ← abs_ z; xa ← abs_ x; ya ← abs_ y;
  ng ← (if negb (eqb ng ny) then r ← on (add za xa ya); set_abs z r;; mret ng
         else
           c ← on (cmp xa ya);
           if 0 <=? c then r ← on (sub_ za xa ya); set_abs z r;; mret ng
           else r ← on (sub_ za ya xa); set_abs z r;; mret (negb ng));
  set_sign z ng.

Definition Mul (z x y : ptr) : W unit :=
  za ← abs_ z; xa ← abs_ x;
  if decide (x = y) then assign z (sqr za xa) false
  else
    ya ← abs_ y; r ← on (mul za xa ya); set_abs z r;;
    nx ← neg_ x; ny ← neg_ y; set_sign z (xorb nx ny).

(** The range has at most [2^64] numbers, so the recursion of mulRange is at most 65 deep. *)
Definition MulRange (z : ptr) (a b : Z) : W unit :=
  if b <? a then SetInt64 z 1
  else if (a <=? 0) && (0 <=? b) then SetInt64 z 0
  else
    let '(n, a, b) := if a <? 0 then (i64 (b - a) &. 1 =? 0, i64 (- b), i64 (- a)) else (false, a, b) in
    za ← abs_ z; assign z (mulRange 65 za (u64 a) (u64 b)) n.

(** ** Division *)

Definition Quo (z x y : ptr) : W unit :=
  za ← abs_ z; xa ← abs_ x; ya ← abs_ y;
  '(q, _) ← on_div za fZero xa ya; set_abs z q;;
  nx ← neg_ x; ny ← neg_ y; set_sign z (xorb nx ny).

Definition Rem (z x y : ptr) : W unit :=
  za ← abs_ z; xa ← abs_ x; ya ← abs_ y;
  '(_, r) ← on_div fZero za xa ya; set_abs z r;;
  nx ← neg_ x; set_sign z nx.

Definition QuoRem (z x y r : ptr) : W unit :=
  za ← abs_ z; ra ← abs_ r; xa ← abs_ x; ya ← abs_ y;
  '(qq, rr) ← on_div za ra xa ya; set_abs z qq;; set_abs r rr;;
  lz ← len_abs z; nx ← neg_ x; ny ← neg_ y; lr ← len_abs r;
  set_neg z ((0 <? lz) && xorb nx ny);; set_neg r ((0 <? lr) && nx).

Definition Binomial (z : ptr) (n k : Z) : W unit :=
  let k := if (Z.quot n 2 <? k) && (k <=? n) then i64 (n - k) else k in
  a ← new_Int; b ← new_Int;
  MulRange a (i64 (i64 (n - k) + 1)) n;;
  MulRange b 1 k;;
  Quo z a b.

Definition Div (z x y : ptr) : W unit :=
  y_neg ← neg_ y;
  r ← new_Int;
  QuoRem z x y r;;
  rn ← neg_ r;
  if rn : bool then (if y_neg : bool then Add z z intOne else Sub z z intOne) else mret tt.

(** [y] is saved when the result overwrites it. *)
Definition saved (z y : ptr) : W ptr :=
  za ← abs_ z; ya ← abs_ y;
  al ← (if decide (z = y) then mret true else on (alias za ya));
  if al : bool then y0 ← new_Int; Set_ y0 y;; mret y0 else mret y.

Definition Mod (z x y : ptr) : W unit :=
  y0 ← saved z y;
  q ← new_Int;
  QuoRem q x y z;;
  zn ← neg_ z;
  if zn : bool then yn ← neg_ y0; (if yn : bool then Sub z z y0 else Add z z y0) else mret tt.

Definition DivMod (z x y m : ptr) : W unit :=
  y0 ← saved z y;
  QuoRem z x y m;;
  mn ← neg_ m;
  if mn : bool then
    yn ← neg_ y0;
    if yn : bool then Add z z intOne;; Sub m m y0 else Sub z z intOne;; Add m m y0
  else mret tt.

(** ** Comparison and conversion *)

Definition Cmp (x y : ptr) : W Z :=
  nx ← neg_ x; ny ← neg_ y;
  if eqb nx ny then
    xa ← abs_ x; ya ← abs_ y; r ← on (cmp xa ya);
    mret (if nx : bool then - r else r)
  else if nx : bool then mret (-1) else mret 1.

Definition CmpAbs (x y : ptr) : W Z := xa ← abs_ x; ya ← abs_ y; on (cmp xa ya).

Definition low64 (x : nat_) : B Z :=
  n ← len x;
  if n =? 0 then mret 0
  else
    v ← get_Item x 0;
    if (_W =? 32) && (1 <? n) then x1 ← get_Item x 1; mret (x1 <<.[64] 32 |. v) else mret v.

Definition Int64 (x : ptr) : W Z :=
  xa ← abs_ x; v ← on (low64 xa);
  nx ← neg_ x; mret (if nx : bool then i64 (- i64 v) else i64 v).
Definition Uint64 (x : ptr) : W Z := xa ← abs_ x; on (low64 xa).

Definition IsInt64 (x : ptr) : W bool :=
  l ← len_abs x;
  if l <=? 64 / _W then
    xa ← abs_ x; w ← on (low64 xa);
    nx ← neg_ x; mret ((0 <=? i64 w) || (nx && (i64 w =? i64 (- i64 w))))
  else mret false.
Definition IsUint64 (x : ptr) : W bool := nx ← neg_ x; l ← len_abs x; mret (negb nx && (l <=? 64 / _W)).

Definition SetBytes (z : ptr) (buf : list Z) : W unit :=
  za ← abs_ z; assign z (setBytes za buf) false.
Definition Bytes_ (x : ptr) : W (list Z) :=
  l ← len_abs x; xa ← abs_ x;
  '(buf, i) ← on (bytes xa (make 0 (l * _S)));
  lift (slice buf i (zlen buf)).

Definition BitLen (x : ptr) : W Z := xa ← abs_ x; on (bitLen xa).
Definition TrailingZeroBits (x : ptr) : W Z := xa ← abs_ x; on (trailingZeroBits xa).

(** ** Bits of the two's complement *)

Definition Lsh (z x : ptr) (n : Z) : W unit :=
  za ← abs_ z; xa ← abs_ x; r ← on (shl_ za xa n); set_abs z r;; nx ← neg_ x; set_neg z nx.

Definition Rsh (z x : ptr) (n : Z) : W unit :=
  nx ← neg_ x; za ← abs_ z; xa ← abs_ x;
  if nx : bool then assign z (t ← sub_ za xa natOne; t ← shr_ t t n; add t t natOne) true
  else assign z (shr_ za xa n) false.

Definition Bit (x : ptr) (i : Z) : W Z :=
  xa ← abs_ x;
  if i =? 0 then l ← on (len xa); if 0 <? l then x0 ← on (get_Item xa 0); mret (x0 &. 1) else mret 0
  else if i <? 0 then raise Explicit
  else
    nx ← neg_ x;
    if nx : bool then b ← on (t ← sub_ fZero xa natOne; bit t i); mret (b ^. 1)
    else on (bit xa i).

Definition SetBit (z x : ptr) (i b : Z) : W unit :=
  if i <? 0 then raise Explicit
  else
    nx ← neg_ x; za ← abs_ z; xa ← abs_ x;
    if nx : bool then
      r ← on (t ← sub_ za xa natOne; t ← setBit t t i (b ^. 1); add t t natOne); set_abs z r;;
      l ← len_abs z; set_neg z (0 <? l)
    else assign z (setBit za xa i b) false.

(** [|x| - 1], in new storage *)
Definition pred_ (x : nat_) : B nat_ := sub_ fZero x natOne.

Definition And (z x y : ptr) : W unit :=
  nx ← neg_ x; ny ← neg_ y; za ← abs_ z; xa ← abs_ x; ya ← abs_ y;
  if eqb nx ny then
    if nx : bool then assign z (x1 ← pred_ xa; y1 ← pred_ ya; t ← or_ za x1 y1; add za t natOne) true
    else assign z (and_ za xa ya) false
  else
    let '(xa, ya) := if nx : bool then (ya, xa) else (xa, ya) in
    assign z (y1 ← pred_ ya; andNot za xa y1) false.

Definition AndNot (z x y : ptr) : W unit :=
  nx ← neg_ x; ny ← neg_ y; za ← abs_ z; xa ← abs_ x; ya ← abs_ y;
  if eqb nx ny then
    if nx : bool then assign z (x1 ← pred_ xa; y1 ← pred_ ya; andNot za y1 x1) false
    else assign z (andNot za xa ya) false
  else if nx : bool then assign z (x1 ← pred_ xa; t ← or_ za x1 ya; add za t natOne) true
  else assign z (y1 ← pred_ ya; and_ za xa y1) false.

Definition Or (z x y : ptr) : W unit :=
  nx ← neg_ x; ny ← neg_ y; za ← abs_ z; xa ← abs_ x; ya ← abs_ y;
  if eqb nx ny then
    if nx : bool then assign z (x1 ← pred_ xa; y1 ← pred_ ya; t ← and_ za x1 y1; add za t natOne) true
    else assign z (or_ za xa ya) false
  else
    let '(xa, ya) := if nx : bool then (ya, xa) else (xa, ya) in
    assign z (y1 ← pred_ ya; t ← andNot za y1 xa; add za t natOne) true.

Definition Xor (z x y : ptr) : W unit :=
  nx ← neg_ x; ny ← neg_ y; za ← abs_ z; xa ← abs_ x; ya ← abs_ y;
  if eqb nx ny then
    if nx : bool then assign z (x1 ← pred_ xa; y1 ← pred_ ya; xor za x1 y1) false
    else assign z (xor za xa ya) false
  else
    let '(xa, ya) := if nx : bool then (ya, xa) else (xa, ya) in
    assign z (y1 ← pred_ ya; t ← xor za xa y1; add za t natOne) true.

Definition Not (z x : ptr) : W unit :=
  nx ← neg_ x; za ← abs_ z; xa ← abs_ x;
  if nx : bool then assign z (sub_ za xa natOne) false
  else assign z (add za xa natOne) true.

Definition on_sqrt (z x : nat_) : W nat_ := λ w,
  match sqrt (natPool w) z x (mem w) with Val ((r, p), h) => Val (r, World h (objs w) p) | Panic p => Panic p | NoFuel => NoFuel end.

Definition Sqrt (z x : ptr) : W unit :=
  nx ← neg_ x;
  if nx : bool then raise Explicit
  else set_neg z false;; za ← abs_ z; xa ← abs_ x; r ← on_sqrt za xa; set_abs z r.

(** The choice of 0 numbers from 2^63 - 1: the first factor of the range is 2^63, which wraps around to below 0. *)
Example Binomial_overflow : match (z ← NewInt 7; Binomial z (2 ^ 63 - 1) 0;; Int64 z) initial with Val (r, _) => r = 0 | _ => False end.
Proof. vm_compute. reflexivity. Qed.

(** -7 by 3 when the modulus is to overwrite the divisor: DivMod saves the divisor only from being overwritten by the quotient, and
    gives -1 and 0; Mod, which is given the same numbers, has 2. *)
Example DivMod_overwrites :
  match (x ← NewInt (-7); y ← NewInt 3; z ← new_Int; DivMod z x y y;; q ← Int64 z; m ← Int64 y; mret (q, m)) initial with Val (r, _) => r = (-1, 0) | _ => False end
  /\ match (x ← NewInt (-7); y ← NewInt 3; Mod y x y;; Int64 y) initial with Val (r, _) => r = 2 | _ => False end.
Proof. split; vm_compute; reflexivity. Qed.

(** -6 and 3 in two's complement. *)
Example bits_example :
  match (x ← NewInt (-6); y ← NewInt 3; z ← new_Int; And z x y;; a ← Int64 z; Or z x y;; b ← Int64 z; Rsh z x 1;; c ← Int64 z; d ← Bit x 0; mret (a, b, c, d)) initial with
  | Val (r, _) => r = (2, -5, -3, 0) | _ => False end.
Proof. vm_compute. reflexivity. Qed.

(** ** The integers behind the pointers *)

(** An object holds the integer [v]: its absolute value from the start of an array that is not in the pool, and its sign, which 0 does not have. *)
Definition object_ok (h : words) (p : Pool) (o : Int) (v : Z) : Prop :=
  nat_is h (abs o) (Z.abs v) /\ neg o = (v <? 0) /\ fStart (abs o) = 0 /\ (fArray (abs o) ∉ arrays p).

(** Objects do not share arrays, except that any number of them may be nil. *)
Definition separate (os : list Int) : Prop :=
  forall p q o o', os !! p = Some o -> os !! q = Some o' -> p <> q -> fArray (abs o) = fArray (abs o') -> fArray (abs o) = EmptyArray.

(** The state [w] represents the integers [m], by pointer; the constant 1 is the first. *)
Record models (w : world) (m : list Z) : Prop := {
  models_good : good (mem w);
  models_pool : pool_ok (mem w) (natPool w);
  models_objects : Forall2 (object_ok (mem w) (natPool w)) (objs w) m;
  models_separate : separate (objs w);
  models_one : objs w !! intOne = Some (MkInt false natOne) /\ m !! intOne = Some 1
}.

(** The operation returns and leaves the integers [m'], and perhaps new objects after them. *)
Definition sets {A} (c : W A) (w : world) (m' : list Z) : Prop := wp c w (λ _ w', exists M, models w' M /\ m' `prefix_of` M).

Section Objects.
Implicit Types (w : world) (m : list Z) (z x y : ptr) (h : words) (o : Int) (p : Pool).

Lemma models_lookup w m x v : models w m -> m !! x = Some v -> exists o, objs w !! x = Some o /\ object_ok (mem w) (natPool w) o v.
Proof. intros Hm Hx. destruct (Forall2_lookup_r _ _ _ _ _ (models_objects _ _ Hm) Hx) as (o & Ho & Hok). by exists o. Qed.

Lemma models_object w m x o : models w m -> objs w !! x = Some o -> exists v, m !! x = Some v /\ object_ok (mem w) (natPool w) o v.
Proof. intros Hm Hx. destruct (Forall2_lookup_l _ _ _ _ _ (models_objects _ _ Hm) Hx) as (v & Hv & Hok). by exists v. Qed.

Lemma object_wf h p o v : object_ok h p o v -> wf h (abs o).
Proof. intros (Hn & _). by eapply nat_wf. Qed.

(** An object that an operation did not write. *)
Lemma object_frame P h h' p p' o v : frame P h h' -> object_ok h p o v -> (forall i, 0 <= i < fCount (abs o) -> ~ P (fArray (abs o)) i) ->
  (forall a, a ∈ arrays p' -> a ∈ arrays p \/ (length h <= a)%nat) -> object_ok h' p' o v.
Proof.
  intros Hf (Hn & Hs & H0 & Hp) HP Hp'. split; [eapply nat_frame; [exact Hf|done|]; intros i Hi; rewrite H0; by apply HP|]. split; [done|]. split; [done|].
  intros Ha. destruct (Hp' _ Ha) as [?|?]; [done|]. apply nat_wf in Hn. destruct Hn. lia.
Qed.

(** An array of an object that holds words is not that of another object. *)
Lemma object_own w m z x o o' v : models w m -> objs w !! z = Some o -> objs w !! x = Some o' -> object_ok (mem w) (natPool w) o' v -> x <> z -> 0 < fCount (abs o') -> fArray (abs o') <> fArray (abs o).
Proof.
  intros Hm Hz Hx Hok Hne Hpos E. apply (full_array (mem w) (abs o')); [apply good_ok, Hm|by eapply object_wf|done|]. exact (models_separate _ _ Hm x z o' o Hx Hz Hne E).
Qed.

(** Writing two objects, which may be one, from what an operation has computed in their storage. *)
Lemma models_write w m z r o o2 oz or (V R : Z) h' p' :
  models w m -> objs w !! z = Some o -> objs w !! r = Some o2 -> z <> intOne -> r <> intOne -> (z = r -> oz = or) ->
  good h' -> frame (λ a _, a = fArray (abs o) \/ a = fArray (abs o2) \/ a ∈ arrays (natPool w)) (mem w) h' ->
  pool_ok h' p' -> (forall a, a ∈ arrays p' -> a ∈ arrays (natPool w) \/ (length (mem w) <= a)%nat) ->
  object_ok h' p' oz V -> located (mem w) (abs o) (abs oz) -> object_ok h' p' or R -> located (mem w) (abs o2) (abs or) ->
  (z <> r -> fArray (abs oz) = fArray (abs or) -> fArray (abs oz) = EmptyArray) ->
  models (World h' (<[z := oz]> (<[r := or]> (objs w))) p') (<[z := V]> (<[r := R]> m)).
Proof.
  intros Hm Hz Hr Hz1 Hr1 Hzr Hg Hf Hp Hp' Hoz Lz Hor Lr Hsep. pose proof (models_good _ _ Hm) as Hg0.
  assert (Hother : forall x o' v, x <> z -> x <> r -> objs w !! x = Some o' -> object_ok (mem w) (natPool w) o' v -> object_ok h' p' o' v).
  { intros x o' v Hxz Hxr Hx Hok. eapply object_frame; [exact Hf|done| |done]. intros i Hi [E|[E|E]]; [| |by apply Hok].
    - apply (object_own w m z x o o' v); (done || lia).
    - apply (object_own w m r x o2 o' v); (done || lia). }
  assert (Hold : forall q oq oo x o', q <> x -> objs w !! q = Some oo -> located (mem w) (abs oo) (abs oq) -> objs w !! x = Some o' -> fArray (abs oq) = fArray (abs o') -> fArray (abs oq) = EmptyArray).
  { intros q oq oo x o' Hne Hq L Hx E. destruct (models_object _ _ _ _ Hm Hx) as (v & _ & Hok). apply object_wf in Hok. destruct L as [[Ea _]|[Hge _]]; [|destruct Hok; lia].
    rewrite Ea in *. by apply (models_separate _ _ Hm q x oo o'). }
  split; [done|done| | |]; cbn [mem objs natPool].
  - apply Forall2_same_length_lookup_2; [rewrite !length_insert; apply (Forall2_length _ _ _ (models_objects _ _ Hm))|]. intros x o' v Ho' Hv.
    rewrite list_lookup_insert_Some in Ho'. rewrite list_lookup_insert_Some in Hv. destruct Ho' as [(<- & <- & _)|[Hxz Ho']]; [destruct Hv as [(_ & <- & _)|[? _]]; done|]. destruct Hv as [(? & _)|[_ Hv]]; [done|].
    rewrite list_lookup_insert_Some in Ho'. rewrite list_lookup_insert_Some in Hv. destruct Ho' as [(<- & <- & _)|[Hxr Ho']]; [destruct Hv as [(_ & <- & _)|[? _]]; done|]. destruct Hv as [(? & _)|[_ Hv]]; [done|].
    destruct (models_object _ _ _ _ Hm Ho') as (v' & Hv' & Hok). simplify_eq. by apply (Hother x).
  - intros a b oa ob Ha Hb Hab E. rewrite list_lookup_insert_Some in Ha. rewrite list_lookup_insert_Some in Hb.
    destruct Ha as [(<- & <- & _)|[Haz Ha]]; destruct Hb as [(<- & <- & _)|[Hbz Hb]]; [done| ..].
    + rewrite list_lookup_insert_Some in Hb. destruct Hb as [(<- & <- & _)|[Hbr Hb]]; [by apply Hsep|]. by apply (Hold z oz o b ob).
    + rewrite list_lookup_insert_Some in Ha. destruct Ha as [(<- & <- & _)|[Har Ha]]; [rewrite E; by apply Hsep|]. rewrite E. by apply (Hold z oz o a oa).
    + rewrite list_lookup_insert_Some in Ha. rewrite list_lookup_insert_Some in Hb.
      destruct Ha as [(<- & <- & _)|[Har Ha]]; destruct Hb as [(<- & <- & _)|[Hbr Hb]]; [done|by apply (Hold r or o2 b ob)|rewrite E; by apply (Hold r or o2 a oa)|by apply (models_separate _ _ Hm a b oa ob)].
  - rewrite !list_lookup_insert_ne by done. apply (models_one _ _ Hm).
Qed.

End Objects.

(** ** Steps *)

Section Steps.
Implicit Types (w : world) (m : list Z) (z x y : ptr) (h : words) (o : Int) (p : Pool).

Lemma abs_val w x o : objs w !! x = Some o -> abs_ x w = Val (abs o, w).
Proof. intros E. unfold abs_, load, mbind, M_bind, get. by rewrite E. Qed.

Lemma neg_val w x o : objs w !! x = Some o -> neg_ x w = Val (neg o, w).
Proof. intros E. unfold neg_, load, mbind, M_bind, get. by rewrite E. Qed.

Lemma set_abs_val w z o a : objs w !! z = Some o -> set_abs z a w = Val (tt, World (mem w) (<[z := MkInt (neg o) a]> (objs w)) (natPool w)).
Proof. intros E. unfold set_abs, load, store_, mbind, M_bind, get. rewrite E. done. Qed.

Lemma set_neg_val w z o b : objs w !! z = Some o -> set_neg z b w = Val (tt, World (mem w) (<[z := MkInt b (abs o)]> (objs w)) (natPool w)).
Proof. intros E. unfold set_neg, load, store_, mbind, M_bind, get. rewrite E. done. Qed.

Lemma wp_abs {A} w x o (f : nat_ -> W A) Q : objs w !! x = Some o -> wp (f (abs o)) w Q -> wp (a ← abs_ x; f a) w Q.
Proof. intros E H. apply wp_bind. eapply wp_of_val; [by apply abs_val|done]. Qed.

Lemma wp_neg {A} w x o (f : bool -> W A) Q : objs w !! x = Some o -> wp (f (neg o)) w Q -> wp (b ← neg_ x; f b) w Q.
Proof. intros E H. apply wp_bind. eapply wp_of_val; [by apply neg_val|done]. Qed.

Lemma wp_set_abs {A} w z o a (c : W A) Q : objs w !! z = Some o -> wp c (World (mem w) (<[z := MkInt (neg o) a]> (objs w)) (natPool w)) Q -> wp (set_abs z a;; c) w Q.
Proof. intros E H. apply wp_bind. eapply wp_of_val; [by apply set_abs_val|done]. Qed.

Lemma wp_set_neg w z o b Q : objs w !! z = Some o -> Q tt (World (mem w) (<[z := MkInt b (abs o)]> (objs w)) (natPool w)) -> wp (set_neg z b) w Q.
Proof. intros E H. eapply wp_of_val; [by apply set_neg_val|done]. Qed.

Lemma wp_on {A} (c : B A) w Q : wp c (mem w) (λ a h, Q a (World h (objs w) (natPool w))) -> wp (on c) w Q.
Proof. unfold wp, on. by destruct (c (mem w)) as [[a h]| |]. Qed.

(** A computation that changes nothing. *)
Lemma wp_on_val {A C} (c : B A) w a (f : A -> W C) Q : c (mem w) = Val (a, mem w) -> wp (f a) w Q -> wp (b ← on c; f b) w Q.
Proof. intros E H. apply wp_bind, wp_on. eapply wp_of_val; [exact E|]. by destruct w. Qed.

Lemma insert_value w z o : objs w !! z = Some o -> World (mem w) (<[z := o]> (objs w)) (natPool w) = w.
Proof. intros E. rewrite list_insert_id by done. by destruct w. Qed.

(** ** Writing a result *)

Lemma models_result w m z o (V : Z) r h n : models w m -> objs w !! z = Some o -> z <> intOne -> result (mem w) (abs o) (Z.abs V) r h -> n = (V <? 0) ->
  models (World h (<[z := MkInt n r]> (objs w)) (natPool w)) (<[z := V]> m).
Proof.
  intros Hm Hz Hz1 (Hg & Hf & Hn & L) ->. destruct (models_object _ _ _ _ Hm Hz) as (v & _ & (Hno & _ & H0 & Hpo)).
  assert (Hok : object_ok h (natPool w) (MkInt (V <? 0) r) V).
  { split; [done|]. split; [done|]. cbn [abs]. split; [destruct L as [[_ ->]|[_ ->]]; done|]. destruct L as [[-> _]|[Hge _]]; [done|]. intros Ha. destruct (pool_old _ _ _ (models_pool _ _ Hm) Ha). lia. }
  rewrite <- (list_insert_insert_eq m z V V), <- (list_insert_insert_eq (objs w) z (MkInt (V <? 0) r) (MkInt (V <? 0) r)).
  apply (models_write w m z z o o _ _ V V); try done.
  - eapply frame_weaken; [exact Hf|]. unfold all_of. auto.
  - eapply pool_frame; [exact Hf|apply Hm].
  - auto.
Qed.

(** The state between the two fields being written. *)
Definition half w p z o r h : world := World h (<[z := MkInt (neg o) r]> (objs w)) p.

Lemma half_lookup w p z o r h : objs w !! z = Some o -> objs (half w p z o r h) !! z = Some (MkInt (neg o) r).
Proof. intros E. cbn. apply list_lookup_insert_eq. by eapply lookup_lt_Some. Qed.

Lemma half_neg w p z o r h x ox : objs w !! z = Some o -> objs w !! x = Some ox -> exists o', objs (half w p z o r h) !! x = Some o' /\ neg o' = neg ox.
Proof. intros E Ex. destruct (decide (x = z)) as [->|Hne]; [exists (MkInt (neg o) r); split; [by apply half_lookup|by simplify_eq]|]. exists ox. cbn. by rewrite list_lookup_insert_ne. Qed.

(** Setting the sign, which ends an operation. *)
Lemma wp_sign w m z o (V : Z) r h n : models w m -> objs w !! z = Some o -> z <> intOne -> result (mem w) (abs o) (Z.abs V) r h -> n = (V <? 0) ->
  wp (set_neg z n) (half w (natPool w) z o r h) (λ _ w', models w' (<[z := V]> m)).
Proof. intros Hm Hz Hz1 Hr Hn. eapply wp_set_neg; [by apply half_lookup|]. cbn. rewrite list_insert_insert_eq. by apply (models_result w m z o V r h n). Qed.

Lemma len_half w p z o (V : Z) r h : objs w !! z = Some o -> good h -> nat_is h r (Z.abs V) -> len_abs z (half w p z o r h) = Val (fCount r, half w p z o r h) /\ (0 <? fCount r) = negb (V =? 0).
Proof.
  intros Hz Hg Hn. unfold len_abs. rewrite (bind_Val _ _ _ _ _ (abs_val _ _ _ (half_lookup w p z o r h Hz))). unfold on. cbn [mem half abs].
  rewrite (nat_len h r (Z.abs V)) by done. split; [done|]. pose proof (nat_zero _ _ _ Hg Hn). pose proof (wf_len _ _ (nat_wf _ _ _ Hn)). destruct (Z.ltb_spec 0 (fCount r)), (Z.eqb_spec V 0); (done || lia).
Qed.

(** A number is negative when it is not 0 and its sign says so. *)
Lemma sign_value (V : Z) n : (V <> 0 -> n = (V <? 0)) -> negb (V =? 0) && n = (V <? 0).
Proof. intros Hn. destruct (Z.eqb_spec V 0) as [->|HV]; [done|]. by rewrite Hn. Qed.

Lemma wp_set_sign w p m z o (V : Z) r h n : objs w !! z = Some o -> good h -> nat_is h r (Z.abs V) -> (V <> 0 -> n = (V <? 0)) ->
  models (World h (<[z := MkInt (V <? 0) r]> (objs w)) p) m -> wp (set_sign z n) (half w p z o r h) (λ _ w', models w' m).
Proof.
  intros Hz Hg Hr Hn Hm. destruct (len_half w p z o V r h Hz Hg Hr) as (El & Hzero). unfold set_sign. apply wp_bind. eapply wp_of_val; [exact El|].
  eapply wp_set_neg; [by apply half_lookup|]. cbn. by rewrite list_insert_insert_eq, Hzero, sign_value.
Qed.

(** [z.neg = len(z.abs) > 0 && x.neg != y.neg] *)
Lemma wp_sign_of_two w p m z oz (V : Z) r h x ox y oy (X Y : Z) : objs w !! z = Some oz -> good h -> nat_is h r (Z.abs V) ->
  objs w !! x = Some ox -> objs w !! y = Some oy -> neg ox = (X <? 0) -> neg oy = (Y <? 0) -> (V <> 0 -> xorb (X <? 0) (Y <? 0) = (V <? 0)) ->
  models (World h (<[z := MkInt (V <? 0) r]> (objs w)) p) m ->
  wp (nx ← neg_ x; ny ← neg_ y; set_sign z (xorb nx ny)) (half w p z oz r h) (λ _ w', models w' m).
Proof.
  intros Hz Hg Hr Hx Hy Sx Sy HV Hm. destruct (half_neg w p z oz r h x ox Hz Hx) as (ox' & Hx' & Ex). destruct (half_neg w p z oz r h y oy Hz Hy) as (oy' & Hy' & Ey).
  eapply wp_neg; [done|]. eapply wp_neg; [done|]. rewrite Ex, Ey, Sx, Sy. by apply (wp_set_sign w p m z oz V r h).
Qed.

Lemma wp_result_sign w m z o (V : Z) r h n : models w m -> objs w !! z = Some o -> z <> intOne -> result (mem w) (abs o) (Z.abs V) r h -> (V <> 0 -> n = (V <? 0)) ->
  wp (set_sign z n) (half w (natPool w) z o r h) (λ _ w', models w' (<[z := V]> m)).
Proof. intros Hm Hz Hz1 Hr Hn. apply (wp_set_sign w _ _ z o V r h); try done; [apply Hr..|by apply (models_result w m z o V r h)]. Qed.

(** A computation in the storage of [z], then the rest. *)
Lemma wp_compute {A} w z o c u (f : nat_ -> W A) Q : objs w !! z = Some o -> wp c (mem w) (result (mem w) (abs o) u) ->
  (forall r h, result (mem w) (abs o) u r h -> wp (f r) (World h (objs w) (natPool w)) Q) -> wp (r ← on c; f r) w Q.
Proof. intros Hz Hc Hf. apply wp_bind, wp_on. eapply wp_mono; [exact Hc|]. intros r h Hr. by apply Hf. Qed.

Lemma wp_compute_abs {A} w z o c u (n : W A) Q : objs w !! z = Some o -> wp c (mem w) (result (mem w) (abs o) u) ->
  (forall r h, result (mem w) (abs o) u r h -> wp n (half w (natPool w) z o r h) Q) -> wp (r ← on c; set_abs z r;; n) w Q.
Proof. intros Hz Hc Hf. apply (wp_compute w z o c u); [done|done|]. intros r h Hr. eapply wp_set_abs; [exact Hz|]. by apply Hf. Qed.

Lemma wp_assign w m z o (V : Z) c n : models w m -> objs w !! z = Some o -> z <> intOne -> wp c (mem w) (result (mem w) (abs o) (Z.abs V)) -> n = (V <? 0) ->
  wp (assign z c n) w (λ _ w', models w' (<[z := V]> m)).
Proof. intros Hm Hz Hz1 Hc Hn. apply (wp_compute_abs w z o c (Z.abs V)); [done|done|]. intros r h Hr. by apply (wp_sign w m z o V r h). Qed.

(** ** Operands *)

Lemma operand w m x ox X : models w m -> object_ok (mem w) (natPool w) ox X -> objs w !! x = Some ox ->
  nat_is (mem w) (abs ox) (Z.abs X) /\ neg ox = (X <? 0) /\ wf (mem w) (abs ox) /\ fStart (abs ox) = 0.
Proof. intros Hm Hok Hx. pose proof (object_wf _ _ _ _ Hok). by destruct Hok as (? & ? & ? & _). Qed.

End Steps.

(** The object of a pointer. *)
Tactic Notation "object" constr(Hm) constr(Hx) "as" ident(o) ident(Ho) ident(Hn) ident(Hs) ident(Hw) ident(H0) :=
  let T := fresh in destruct (models_lookup _ _ _ _ Hm Hx) as (o & Ho & T); destruct (operand _ _ _ _ _ Hm T Ho) as (Hn & Hs & Hw & H0); clear T.
Ltac starts := unfold coherent; cbn [fZero natOne fArray fStart]; intros; congruence.

(** ** Sums and products *)

Section Linear.
Implicit Types (w : world) (m : list Z) (z x y : ptr) (h : words) (o : Int) (p : Pool).

Lemma u64_i64 v : u64 (i64 v) = u64 v.
Proof. unfold wrap, swrap. rewrite Zminus_mod_idemp_l. f_equal. lia. Qed.

Lemma i64_u64 v : i64 (u64 v) = i64 v.
Proof. unfold wrap, swrap. by rewrite Zplus_mod_idemp_l. Qed.

Lemma Set_spec w m z x X : models w m -> m !! x = Some X -> (z < length m)%nat -> z <> intOne -> wp (Set_ z x) w (λ _ w', models w' (<[z := X]> m)).
Proof.
  intros Hm Hx Hz Hz1. unfold Set_. case_decide as E; [subst; by apply wp_ret; rewrite list_insert_id|].
  destruct (lookup_lt_is_Some_2 m z Hz) as [Z0 HZ]. object Hm HZ as oz Hoz Nz Sz Wz Fz. object Hm Hx as ox Hox Nx Sx Wx Fx.
  eapply wp_abs; [done|]. eapply wp_abs; [done|]. apply (wp_compute_abs w z oz _ (Z.abs X)); [done|apply set_spec; [apply Hm|done|done|starts]|]. intros r h Hr.
  destruct (half_neg w (natPool w) z oz r h x ox Hoz Hox) as (o' & Ho' & En). eapply wp_neg; [done|]. apply (wp_sign w m z oz X r h); try done. congruence.
Qed.

Lemma SetUint64_spec w m z v : models w m -> is_uint 64 v -> (z < length m)%nat -> z <> intOne -> wp (SetUint64 z v) w (λ _ w', models w' (<[z := v]> m)).
Proof.
  intros Hm Hv Hz Hz1. destruct (lookup_lt_is_Some_2 m z Hz) as [Z0 HZ]. object Hm HZ as oz Hoz Nz Sz Wz Fz. unfold is_uint in Hv. eapply wp_abs; [done|]. apply (wp_assign w m z oz v); try done; [|by symmetry; apply Z.ltb_ge; lia].
  rewrite Z.abs_eq by lia. by apply setUint64_spec; [apply Hm| ..].
Qed.

Lemma SetInt64_spec w m z v : models w m -> is_sint 64 v -> (z < length m)%nat -> z <> intOne -> wp (SetInt64 z v) w (λ _ w', models w' (<[z := v]> m)).
Proof.
  intros Hm Hv Hz Hz1. destruct (lookup_lt_is_Some_2 m z Hz) as [Z0 HZ]. object Hm HZ as oz Hoz Nz Sz Wz Fz. unfold SetInt64. unfold is_sint in Hv.
  assert (E : (if v <? 0 then (true, i64 (- v)) else (false, v)) = (v <? 0, if v <? 0 then i64 (- v) else v)) by (by destruct (v <? 0)). rewrite E.
  eapply wp_abs; [done|]. apply (wp_assign w m z oz v); try done.
  assert (Eu : u64 (if v <? 0 then i64 (- v) else v) = Z.abs v).
  { destruct (Z.ltb_spec v 0); [rewrite u64_i64|]; rewrite wrap_small by (unfold is_uint; cbn in *; lia); lia. }
  rewrite Eu. apply setUint64_spec; [apply Hm|done|]. unfold is_uint. cbn in *. lia.
Qed.

(** Addition of numbers with signs, which subtraction shares. *)
Lemma signed_sum w m z oz xa ya (X Y : Z) (same ng : bool) : models w m -> objs w !! z = Some oz -> z <> intOne ->
  nat_is (mem w) xa (Z.abs X) -> nat_is (mem w) ya (Z.abs Y) -> fStart xa = 0 -> fStart ya = 0 -> fStart (abs oz) = 0 ->
  ng = (X <? 0) -> (Y <> 0 -> same = eqb (X <? 0) (Y <? 0)) ->
  wp (ng ← (if same then r ← on (add (abs oz) xa ya); set_abs z r;; mret ng
            else
              c ← on (cmp xa ya);
              if 0 <=? c then r ← on (sub_ (abs oz) xa ya); set_abs z r;; mret ng
              else r ← on (sub_ (abs oz) ya xa); set_abs z r;; mret (negb ng));
      set_sign z ng) w (λ _ w', models w' (<[z := X + Y]> m)).
Proof.
  intros Hm Hz Hz1 Nx Ny Fx Fy Fz -> Hsame. pose proof (models_good _ _ Hm) as Hg. assert (Wz : wf (mem w) (abs oz)) by (destruct (models_object _ _ _ _ Hm Hz) as (? & _ & ?); by eapply object_wf).
  assert (Hs : if same then Y = 0 \/ (X <? 0) = (Y <? 0) else Y = 0 \/ (X <? 0) <> (Y <? 0)).
  { destruct (decide (Y = 0)) as [|H0]; [destruct same; by left|]. specialize (Hsame H0). destruct same; right; [by apply eqb_prop|by apply eqb_false_iff]. }
  apply wp_bind. clear Hsame. destruct same.
  - eapply (wp_compute_abs w z oz); [done|apply (add_spec _ _ _ _ (Z.abs X) (Z.abs Y)); (done || starts)|]. intros r h Hr. apply wp_ret. apply (wp_result_sign w m z oz (X + Y) r h); try done.
    + replace (Z.abs (X + Y)) with (Z.abs X + Z.abs Y); [done|]. destruct (Z.ltb_spec X 0), (Z.ltb_spec Y 0), Hs; (done || lia).
    + destruct (Z.ltb_spec X 0), (Z.ltb_spec Y 0), (Z.ltb_spec (X + Y) 0), Hs; (done || lia).
  - eapply wp_on_val; [apply (cmp_spec _ _ _ (Z.abs X) (Z.abs Y)); done|].
    destruct (Z.ltb_spec (Z.abs X) (Z.abs Y)) as [Hlt|Hge]; cbn [Z.leb Z.compare].
    + eapply (wp_compute_abs w z oz); [done| |].
      { eapply wp_mono; [eapply wpx_no_panic; [apply (sub_spec _ _ _ _ (Z.abs Y) (Z.abs X)); (done || starts)|]|]; [intros ? [? _]; lia|]. intros r h [_ Hr]. exact Hr. }
      intros r h Hr. apply wp_ret. apply (wp_result_sign w m z oz (X + Y) r h); try done.
      * replace (Z.abs (X + Y)) with (Z.abs Y - Z.abs X); [done|]. destruct (Z.ltb_spec X 0), (Z.ltb_spec Y 0), Hs; (done || lia).
      * destruct (Z.ltb_spec X 0), (Z.ltb_spec Y 0), (Z.ltb_spec (X + Y) 0), Hs; (done || lia).
    + rewrite (proj2 (Z.leb_le 0 (if Z.abs Y <? Z.abs X then 1 else 0))) by (by destruct (Z.abs Y <? Z.abs X)).
      eapply (wp_compute_abs w z oz); [done| |].
      { eapply wp_mono; [eapply wpx_no_panic; [apply (sub_spec _ _ _ _ (Z.abs X) (Z.abs Y)); (done || starts)|]|]; [intros ? [? _]; lia|]. intros r h [_ Hr]. exact Hr. }
      intros r h Hr. apply wp_ret. apply (wp_result_sign w m z oz (X + Y) r h); try done.
      * replace (Z.abs (X + Y)) with (Z.abs X - Z.abs Y); [done|]. destruct (Z.ltb_spec X 0), (Z.ltb_spec Y 0), Hs; (done || lia).
      * destruct (Z.ltb_spec X 0), (Z.ltb_spec Y 0), (Z.ltb_spec (X + Y) 0), Hs; (done || lia).
Qed.

Lemma Add_spec w m z x y X Y : models w m -> m !! x = Some X -> m !! y = Some Y -> (z < length m)%nat -> z <> intOne -> wp (Add z x y) w (λ _ w', models w' (<[z := X + Y]> m)).
Proof.
  intros Hm Hx Hy Hz Hz1. destruct (lookup_lt_is_Some_2 m z Hz) as [Z0 HZ]. object Hm HZ as oz Hoz Nz Sz Wz Fz. object Hm Hx as ox Hox Nx Sx Wx Fx. object Hm Hy as oy Hoy Ny Sy Wy Fy.
  unfold Add. do 2 (eapply wp_neg; [done|]). do 3 (eapply wp_abs; [done|]). apply signed_sum; try done. intros _. by rewrite Sx, Sy.
Qed.

(** Subtraction adds the opposite. *)
Lemma Sub_spec w m z x y X Y : models w m -> m !! x = Some X -> m !! y = Some Y -> (z < length m)%nat -> z <> intOne -> wp (Sub z x y) w (λ _ w', models w' (<[z := X - Y]> m)).
Proof.
  intros Hm Hx Hy Hz Hz1. destruct (lookup_lt_is_Some_2 m z Hz) as [Z0 HZ]. object Hm HZ as oz Hoz Nz Sz Wz Fz. object Hm Hx as ox Hox Nx Sx Wx Fx. object Hm Hy as oy Hoy Ny Sy Wy Fy.
  unfold Sub. do 2 (eapply wp_neg; [done|]). do 3 (eapply wp_abs; [done|]). replace (X - Y) with (X + - Y) by lia. apply signed_sum; try done; [by rewrite Z.abs_opp|].
  intros H0. rewrite Sx, Sy. destruct (Z.ltb_spec X 0), (Z.ltb_spec Y 0), (Z.ltb_spec (- Y) 0); (done || lia).
Qed.

(** Changing the sign only. *)
Lemma models_sign w m z o (V V' : Z) n : models w m -> objs w !! z = Some o -> z <> intOne -> m !! z = Some V -> Z.abs V' = Z.abs V -> n = (V' <? 0) ->
  models (World (mem w) (<[z := MkInt n (abs o)]> (objs w)) (natPool w)) (<[z := V']> m).
Proof.
  intros Hm Ho Hz1 Hz Ha ->. destruct (models_object _ _ _ _ Hm Ho) as (v & Hv & (Nz & Sz & Fz & Pz)). assert (v = V) as -> by congruence.
  assert (Hok : object_ok (mem w) (natPool w) (MkInt (V' <? 0) (abs o)) V') by (split_and!; [by rewrite Ha|done..]).
  rewrite <- (list_insert_insert_eq m z V' V'), <- (list_insert_insert_eq (objs w) z (MkInt (V' <? 0) (abs o)) (MkInt (V' <? 0) (abs o))).
  apply (models_write w m z z o o _ _ V' V'); try done; first [apply frame_refl|apply Hm|by intros; left].
Qed.

Lemma Abs_spec w m z x X : models w m -> m !! x = Some X -> (z < length m)%nat -> z <> intOne -> wp (Abs z x) w (λ _ w', models w' (<[z := Z.abs X]> m)).
Proof.
  intros Hm Hx Hz Hz1. eapply wp_seq; [by apply (Set_spec w m z x X)|]. intros [] w' Hm'. assert (HX : <[z := X]> m !! z = Some X) by (by apply list_lookup_insert_eq).
  destruct (models_lookup _ _ _ _ Hm' HX) as (o & Ho & _). eapply wp_set_neg; [done|]. rewrite <- (list_insert_insert_eq m z (Z.abs X) X).
  apply (models_sign w' (<[z := X]> m) z o X (Z.abs X)); try done; [lia|]. symmetry. apply Z.ltb_ge. lia.
Qed.

Lemma Neg_spec w m z x X : models w m -> m !! x = Some X -> (z < length m)%nat -> z <> intOne -> wp (Neg z x) w (λ _ w', models w' (<[z := - X]> m)).
Proof.
  intros Hm Hx Hz Hz1. eapply wp_seq; [by apply (Set_spec w m z x X)|]. intros [] w' Hm'. assert (HX : <[z := X]> m !! z = Some X) by (by apply list_lookup_insert_eq).
  object Hm' HX as o Ho No So Wo Fo. eapply wp_seq; [eapply wp_of_val with (Q := λ l t, l = fCount (abs o) /\ t = w')|].
  { unfold len_abs. rewrite (bind_Val _ _ _ _ _ (abs_val _ _ _ Ho)). unfold on. rewrite (nat_len _ _ _ (models_good _ _ Hm') No). done. }
  { by destruct w'. }
  intros l t [-> ->]. eapply wp_neg; [done|]. eapply wp_set_neg; [done|]. rewrite <- (list_insert_insert_eq m z (- X) X).
  apply (models_sign w' (<[z := X]> m) z o X (- X)); try done; [lia|]. rewrite So. pose proof (nat_zero _ _ _ (models_good _ _ Hm') No). pose proof (wf_len _ _ Wo).
  destruct (Z.ltb_spec 0 (fCount (abs o))), (Z.ltb_spec X 0), (Z.ltb_spec (- X) 0); (done || lia).
Qed.

Lemma Mul_spec w m z x y X Y : models w m -> m !! x = Some X -> m !! y = Some Y -> (z < length m)%nat -> z <> intOne -> wp (Mul z x y) w (λ _ w', models w' (<[z := X * Y]> m)).
Proof.
  intros Hm Hx Hy Hz Hz1. destruct (lookup_lt_is_Some_2 m z Hz) as [Z0 HZ]. object Hm HZ as oz Hoz Nz Sz Wz Fz. object Hm Hx as ox Hox Nx Sx Wx Fx. object Hm Hy as oy Hoy Ny Sy Wy Fy.
  pose proof (models_good _ _ Hm) as Hg. unfold Mul. do 2 (eapply wp_abs; [done|]). case_decide as E.
  - subst y. assert (Y = X) as -> by congruence. apply (wp_assign w m z oz (X * X)); try done; [|symmetry; apply Z.ltb_ge; nia].
    replace (Z.abs (X * X)) with (Z.abs X * Z.abs X) by (by rewrite Z.abs_mul). apply sqr_spec; (done || starts).
  - eapply wp_abs; [done|]. apply (wp_compute_abs w z oz _ (Z.abs (X * Y))); [done|rewrite Z.abs_mul; apply mul_spec; (done || starts)|]. intros r h Hr.
    apply (wp_sign_of_two w _ _ z oz (X * Y) r h x ox y oy X Y); try done; [apply Hr..| |by apply (models_result w m z oz (X * Y) r h)]. intros HV. destruct (Z.ltb_spec X 0), (Z.ltb_spec Y 0), (Z.ltb_spec (X * Y) 0); cbn; (done || nia).
Qed.

(** ** Products of ranges *)

Lemma range_product_empty a b : b < a -> range_product a b = 1.
Proof. intros. unfold range_product. by rewrite seqZ_nil by lia. Qed.

Lemma range_product_zero a b : a <= 0 <= b -> range_product a b = 0.
Proof. intros. rewrite (range_product_split a (-1) b), (range_product_split (-1 + 1) 0 b) by lia. change (-1 + 1) with 0. rewrite range_product_one. lia. Qed.

Lemma range_product_pos a b : 0 < a -> 0 < range_product a b.
Proof.
  intros Ha. destruct (Z.lt_ge_cases b a) as [|Hab]; [by rewrite range_product_empty|]. replace b with (a + Z.of_nat (Z.to_nat (b - a))) by lia. induction (Z.to_nat (b - a)) as [|n IH].
  - rewrite Z.add_0_r, range_product_one. done.
  - rewrite (range_product_split a (a + Z.of_nat n)) by lia. replace (a + Z.of_nat (S n)) with (a + Z.of_nat n + 1) by lia. rewrite range_product_one. nia.
Qed.

Lemma range_product_neg a n : range_product a (a + Z.of_nat n - 1) = (if Z.even (Z.of_nat n) then 1 else -1) * range_product (- (a + Z.of_nat n - 1)) (- a).
Proof.
  induction n as [|n IH]; [cbn [Z.of_nat Z.even]; rewrite !range_product_empty by lia; done|].
  rewrite (range_product_split a (a + Z.of_nat n - 1)) by lia. rewrite IH. replace (a + Z.of_nat (S n) - 1) with (a + Z.of_nat n - 1 + 1) by lia. rewrite range_product_one.
  rewrite (range_product_split (- (a + Z.of_nat n - 1 + 1)) (- (a + Z.of_nat n - 1 + 1)) (- a)), range_product_one by lia. replace (- (a + Z.of_nat n - 1 + 1) + 1) with (- (a + Z.of_nat n - 1)) by lia.
  rewrite Nat2Z.inj_succ, Z.even_succ, <- Z.negb_even. destruct (Z.even (Z.of_nat n)); cbn [negb]; ring.
Qed.

(** The fuel covers every range of 64-bit numbers. *)
Lemma product_computed h (x : nat_) a b a' b' : good h -> wf h x -> 0 < a -> b <= 2 ^ 63 -> a <= b -> u64 a' = a -> u64 b' = b ->
  wp (mulRange 65 x (u64 a') (u64 b')) h (result h x (range_product a b)).
Proof.
  intros Hg Hx Ha Hb Hab -> ->. assert (H : b - a < 2 ^ (Z.of_nat 65 - 1)) by (change (2 ^ (Z.of_nat 65 - 1)) with (2 ^ 64); lia). revert H. generalize 65%nat as fuel. intros fuel H.
  assert (H0 : (0 < fuel)%nat) by (destruct fuel; [cbn in H; lia|lia]). pose proof (mulRange_spec fuel h x a b Hg Hx ltac:(unfold is_uint; lia) ltac:(lia) H H0) as Hs.
  by rewrite (proj2 (Z.eqb_neq a 0)) in Hs by lia.
Qed.

Lemma MulRange_spec w m z a b : models w m -> is_sint 64 a -> is_sint 64 b -> (z < length m)%nat -> z <> intOne -> wp (MulRange z a b) w (λ _ w', models w' (<[z := range_product a b]> m)).
Proof.
  intros Hm Ha Hb Hz Hz1. destruct (lookup_lt_is_Some_2 m z Hz) as [Z0 HZ]. object Hm HZ as oz Hoz Nz Sz Wz Fz. pose proof (models_good _ _ Hm) as Hg. unfold is_sint in *. unfold MulRange.
  destruct (Z.ltb_spec b a); [rewrite range_product_empty by done; by apply SetInt64_spec|].
  destruct ((a <=? 0) && (0 <=? b)) eqn:E0.
  { apply andb_true_iff in E0 as [?%Z.leb_le ?%Z.leb_le]. rewrite range_product_zero by done. by apply SetInt64_spec. }
  assert (Hs : 0 < a \/ b < 0) by (apply andb_false_iff in E0 as [?%Z.leb_gt|?%Z.leb_gt]; [by left|by right]). cbn in Ha, Hb. destruct (Z.ltb_spec a 0) as [Hneg|Hpos]; cbv iota; (eapply wp_abs; [done|]).
  - pose proof (range_product_neg a (Z.to_nat (b - a + 1))) as En. rewrite Z2Nat.id in En by lia. replace (a + (b - a + 1) - 1) with b in En by lia. pose proof (range_product_pos (- b) (- a) ltac:(lia)) as Hp.
    replace (b - a + 1) with (Z.succ (b - a)) in En by lia. rewrite Z.even_succ, <- Z.negb_even, Zeven_mod in En.
    apply (wp_assign w m z oz (range_product a b)); [done..| |].
    + replace (Z.abs (range_product a b)) with (range_product (- b) (- a)) by (rewrite En; destruct (_ =? _); cbn [negb]; lia).
      apply product_computed; [done|done|lia|lia|lia|rewrite u64_i64; apply wrap_small; unfold is_uint; lia..].
    + rewrite swrap_small by (unfold is_sint; cbn; lia). change (Z.land (b - a) 1) with (Z.land (b - a) (Z.ones 1)). rewrite Z.land_ones by lia. change (2 ^ 1) with 2.
      rewrite En. destruct ((b - a) mod 2 =? 0); cbn [negb]; symmetry; [apply Z.ltb_lt|apply Z.ltb_ge]; lia.
  - pose proof (range_product_pos a b ltac:(lia)). apply (wp_assign w m z oz (range_product a b)); [done..| |symmetry; apply Z.ltb_ge; lia]. rewrite Z.abs_eq by lia.
    apply product_computed; [done|done|lia|lia|lia|apply wrap_small; unfold is_uint; lia..].
Qed.

End Linear.

(** ** Comparison and conversion *)

Section Readers.
Implicit Types (w : world) (m : list Z) (z x y : ptr) (h : words) (o : Int) (p : Pool).

Lemma on_val {A} (c : B A) w a : c (mem w) = Val (a, mem w) -> on c w = Val (a, w).
Proof. intros E. unfold on. rewrite E. by destruct w. Qed.

Lemma len_abs_val w m x o X : models w m -> objs w !! x = Some o -> nat_is (mem w) (abs o) X -> len_abs x w = Val (fCount (abs o), w).
Proof. intros Hm Ho Hn. unfold len_abs. rewrite (bind_Val _ _ _ _ _ (abs_val _ _ _ Ho)). apply on_val, (nat_len _ _ X); [apply Hm|done]. Qed.

Lemma Sign_spec w m x X : models w m -> m !! x = Some X -> Sign x w = Val (Z.sgn X, w).
Proof.
  intros Hm Hx. object Hm Hx as o Ho N S W0 F. unfold Sign. rewrite (bind_Val _ _ _ _ _ (len_abs_val _ _ _ _ _ Hm Ho N)). pose proof (nat_zero _ _ _ (models_good _ _ Hm) N) as H0.
  destruct (Z.eqb_spec (fCount (abs o)) 0) as [E|E]; [by replace X with 0 by lia|]. rewrite (bind_Val _ _ _ _ _ (neg_val _ _ _ Ho)), S. destruct (Z.ltb_spec X 0); [by rewrite Z.sgn_neg|by rewrite Z.sgn_pos by lia].
Qed.

Lemma CmpAbs_spec w m x y X Y : models w m -> m !! x = Some X -> m !! y = Some Y -> CmpAbs x y w = Val (if Z.abs X <? Z.abs Y then -1 else if Z.abs Y <? Z.abs X then 1 else 0, w).
Proof.
  intros Hm Hx Hy. object Hm Hx as ox Hox Nx Sx Wx Fx. object Hm Hy as oy Hoy Ny Sy Wy Fy. unfold CmpAbs. rewrite (bind_Val _ _ _ _ _ (abs_val _ _ _ Hox)), (bind_Val _ _ _ _ _ (abs_val _ _ _ Hoy)).
  apply on_val, cmp_spec; [apply Hm|done|done].
Qed.

Lemma Cmp_spec w m x y X Y : models w m -> m !! x = Some X -> m !! y = Some Y -> Cmp x y w = Val (if X <? Y then -1 else if Y <? X then 1 else 0, w).
Proof.
  intros Hm Hx Hy. object Hm Hx as ox Hox Nx Sx Wx Fx. object Hm Hy as oy Hoy Ny Sy Wy Fy. unfold Cmp. rewrite (bind_Val _ _ _ _ _ (neg_val _ _ _ Hox)), (bind_Val _ _ _ _ _ (neg_val _ _ _ Hoy)), Sx, Sy.
  destruct (eqb (X <? 0) (Y <? 0)) eqn:E.
  - apply eqb_prop in E. rewrite (bind_Val _ _ _ _ _ (abs_val _ _ _ Hox)), (bind_Val _ _ _ _ _ (abs_val _ _ _ Hoy)).
    rewrite (bind_Val _ _ _ _ _ (on_val _ _ _ (cmp_spec _ _ _ _ _ (models_good _ _ Hm) Nx Ny))). f_equal. f_equal.
    destruct (Z.ltb_spec X 0), (Z.ltb_spec Y 0), (Z.ltb_spec (Z.abs X) (Z.abs Y)), (Z.ltb_spec (Z.abs Y) (Z.abs X)), (Z.ltb_spec X Y), (Z.ltb_spec Y X); (done || lia).
  - apply eqb_false_iff in E. destruct (Z.ltb_spec X 0), (Z.ltb_spec Y 0), (Z.ltb_spec X Y), (Z.ltb_spec Y X); (done || lia).
Qed.

Lemma low64_spec h (x : nat_) (u : Z) : good h -> nat_is h x u -> low64 x h = Val (u64 u, h).
Proof.
  intros Hg Hn. unfold low64. rewrite (bind_Val _ _ _ _ _ (nat_len _ _ _ Hg Hn)). pose proof (nat_zero _ _ _ Hg Hn) as H0. pose proof (wf_len _ _ (nat_wf _ _ _ Hn)).
  destruct (Z.eqb_spec (fCount x) 0) as [E|E]; [by rewrite (proj2 H0 E)|]. cbn [Z.eqb _W andb Pos.eqb].
  assert (Hw : wp (v ← get_Item x 0; mret v) h (λ v h', v = u64 u /\ h' = h)).
  { apply wp_bind, wp_word; [by eapply nat_wf|lia|]. apply wp_ret. split; [|done]. destruct Hg as [_ Hw]. rewrite <- (nat_value _ _ _ Hn), (num_cut h x 1 (fCount x) (fCount x)), num_1 by lia.
    pose proof (word_uint h x 0 Hw) as Hu. unfold wrap. change (pw 1) with (2 ^ 64). rewrite Z.mul_comm, Z_mod_plus_full. symmetry. by apply Z.mod_small. }
  apply wp_val in Hw. destruct Hw as (v & h' & Ev & -> & ->). exact Ev.
Qed.

Lemma Uint64_spec w m x X : models w m -> m !! x = Some X -> Uint64 x w = Val (u64 (Z.abs X), w).
Proof. intros Hm Hx. object Hm Hx as o Ho N S W0 F. unfold Uint64. rewrite (bind_Val _ _ _ _ _ (abs_val _ _ _ Ho)). apply on_val, low64_spec; [apply Hm|done]. Qed.

Lemma i64_cong a b : u64 a = u64 b -> i64 a = i64 b.
Proof. intros E. by rewrite <- i64_u64, E, i64_u64. Qed.

Lemma i64_opp v : i64 (- i64 v) = i64 (- v).
Proof.
  apply i64_cong. unfold wrap, swrap. replace (- ((v + 2 ^ (64 - 1)) mod 2 ^ 64 - 2 ^ (64 - 1))) with (2 ^ (64 - 1) - (v + 2 ^ (64 - 1)) mod 2 ^ 64) by lia.
  rewrite Zminus_mod_idemp_r. f_equal. lia.
Qed.

Lemma Int64_spec w m x X : models w m -> m !! x = Some X -> Int64 x w = Val (i64 X, w).
Proof.
  intros Hm Hx. object Hm Hx as o Ho N S W0 F. unfold Int64. rewrite (bind_Val _ _ _ _ _ (abs_val _ _ _ Ho)), (bind_Val _ _ _ _ _ (on_val _ _ _ (low64_spec _ _ _ (models_good _ _ Hm) N))), (bind_Val _ _ _ _ _ (neg_val _ _ _ Ho)), S.
  rewrite i64_u64, i64_opp. unfold mret, M_ret. destruct (Z.ltb_spec X 0); repeat f_equal; lia.
Qed.

Lemma one_word h (x : nat_) u : good h -> nat_is h x u -> (fCount x <=? 1) = (u <? 2 ^ 64).
Proof.
  intros Hg Hn. pose proof (nat_bound _ _ _ Hg Hn) as Hb. destruct (Z.leb_spec (fCount x) 1) as [Hl|Hl]; symmetry.
  - apply Z.ltb_lt. pose proof (wf_len _ _ (nat_wf _ _ _ Hn)). pose proof (pw_le (fCount x) 1 ltac:(lia)) as Hp. change (pw 1) with (2 ^ 64) in Hp. lia.
  - apply Z.ltb_ge. pose proof (num_top h x (fCount x) (proj2 Hg) ltac:(lia) (proj2 (proj2 Hn) ltac:(lia))) as Ht. rewrite (nat_value _ _ _ Hn) in Ht. pose proof (pw_le 1 (fCount x - 1) ltac:(lia)) as Hp. change (pw 1) with (2 ^ 64) in Hp. lia.
Qed.

Lemma IsUint64_spec w m x X : models w m -> m !! x = Some X -> IsUint64 x w = Val (bool_decide (is_uint 64 X), w).
Proof.
  intros Hm Hx. object Hm Hx as o Ho N S W0 F. unfold IsUint64. rewrite (bind_Val _ _ _ _ _ (neg_val _ _ _ Ho)), (bind_Val _ _ _ _ _ (len_abs_val _ _ _ _ _ Hm Ho N)), S. change (64 / _W) with 1.
  rewrite (one_word _ _ _ (models_good _ _ Hm) N). unfold mret, M_ret. do 2 f_equal. unfold is_uint. destruct (Z.ltb_spec X 0), (Z.ltb_spec (Z.abs X) (2 ^ 64)); cbn [negb andb]; symmetry; first [apply bool_decide_eq_true|apply bool_decide_eq_false]; lia.
Qed.

Lemma IsInt64_spec w m x X : models w m -> m !! x = Some X -> IsInt64 x w = Val (bool_decide (is_sint 64 X), w).
Proof.
  intros Hm Hx. object Hm Hx as o Ho N S W0 F. unfold IsInt64. rewrite (bind_Val _ _ _ _ _ (len_abs_val _ _ _ _ _ Hm Ho N)). change (64 / _W) with 1. rewrite (one_word _ _ _ (models_good _ _ Hm) N).
  unfold is_sint. change (2 ^ (64 - 1)) with (2 ^ 63). destruct (Z.ltb_spec (Z.abs X) (2 ^ 64)) as [Hl|Hl]; [|unfold mret, M_ret; do 2 f_equal; symmetry; apply bool_decide_eq_false; lia].
  rewrite (bind_Val _ _ _ _ _ (abs_val _ _ _ Ho)), (bind_Val _ _ _ _ _ (on_val _ _ _ (low64_spec _ _ _ (models_good _ _ Hm) N))), (bind_Val _ _ _ _ _ (neg_val _ _ _ Ho)), S.
  rewrite i64_u64, i64_opp. unfold mret, M_ret. do 2 f_equal.
  assert (E : forall v, - 2 ^ 64 < v < 2 ^ 64 -> i64 v = if v <? - 2 ^ 63 then v + 2 ^ 64 else if v <? 2 ^ 63 then v else v - 2 ^ 64).
  { intros v Hv. unfold swrap. change (2 ^ (64 - 1)) with (2 ^ 63). destruct (Z.ltb_spec v (- 2 ^ 63)); [|destruct (Z.ltb_spec v (2 ^ 63))].
    - rewrite <- (Z.mod_add _ 1) by done. rewrite Z.mod_small; lia.
    - rewrite Z.mod_small; lia.
    - rewrite <- (Z.mod_add _ (-1)) by done. rewrite Z.mod_small; lia. }
  rewrite !E by lia. destruct (bool_decide (- 2 ^ 63 <= X < 2 ^ 63)) eqn:Eb; [apply bool_decide_eq_true in Eb|apply bool_decide_eq_false in Eb];
    repeat match goal with |- context [?a <? ?b] => destruct (Z.ltb_spec a b) end; cbn [andb]; rewrite ?orb_true_iff, ?orb_false_iff, ?Z.leb_le, ?Z.leb_gt, ?Z.eqb_eq, ?Z.eqb_neq; lia.
Qed.

Lemma BitLen_spec w m x X : models w m -> m !! x = Some X -> BitLen x w = Val (bitlen (Z.abs X), w).
Proof. intros Hm Hx. object Hm Hx as o Ho N S W0 F. unfold BitLen. rewrite (bind_Val _ _ _ _ _ (abs_val _ _ _ Ho)). apply on_val, bitLen_spec; [apply Hm|done]. Qed.

Lemma TrailingZeroBits_spec w m x X : models w m -> m !! x = Some X ->
  exists k, TrailingZeroBits x w = Val (k, w) /\ if X =? 0 then k = 0 else 0 <= k /\ Z.testbit (Z.abs X) k = true /\ forall i, 0 <= i < k -> Z.testbit (Z.abs X) i = false.
Proof.
  intros Hm Hx. object Hm Hx as o Ho N S W0 F. destruct (trailingZeroBits_spec _ _ _ (models_good _ _ Hm) N) as (k & Ek & Hk). exists k. unfold TrailingZeroBits. rewrite (bind_Val _ _ _ _ _ (abs_val _ _ _ Ho)).
  split; [by apply on_val|]. destruct (Z.eqb_spec X 0) as [->|H0]; [done|]. by rewrite (proj2 (Z.eqb_neq (Z.abs X) 0)) in Hk by lia.
Qed.

Lemma SetBytes_spec w m z buf : models w m -> bytes_ok buf -> (z < length m)%nat -> z <> intOne -> wp (SetBytes z buf) w (λ _ w', models w' (<[z := order_value true buf]> m)).
Proof.
  intros Hm Hb Hz Hz1. destruct (lookup_lt_is_Some_2 m z Hz) as [Z0 HZ]. object Hm HZ as oz Hoz Nz Sz Wz Fz. eapply wp_abs; [done|].
  assert (H : wp (setBytes (abs oz) buf) (mem w) (result (mem w) (abs oz) (order_value true buf))) by (by apply setBytes_spec; [apply Hm| ..]).
  assert (0 <= order_value true buf) by (destruct (wp_val _ _ _ H) as (r & h & _ & (Hg & _ & Hn & _)); by apply (nat_bound h r)).
  apply (wp_assign w m z oz (order_value true buf)); [done..|by rewrite Z.abs_eq by lia|symmetry; apply Z.ltb_ge; lia].
Qed.

(** Bytes gives the absolute value without leading zeroes. *)
Lemma Bytes_spec w m x X : models w m -> m !! x = Some X -> exists bs, Bytes_ x w = Val (bs, w) /\ bytes_ok bs /\ order_value true bs = Z.abs X /\ bs !! 0%nat <> Some 0.
Proof.
  intros Hm Hx. object Hm Hx as o Ho N S W0 F. unfold Bytes_. rewrite (bind_Val _ _ _ _ _ (len_abs_val _ _ _ _ _ Hm Ho N)), (bind_Val _ _ _ _ _ (abs_val _ _ _ Ho)). pose proof (wf_len _ _ W0).
  assert (El : zlen (make 0 (fCount (abs o) * _S)) = 8 * fCount (abs o)) by (rewrite zlen_make by (change _S with 8; lia); change _S with 8; lia).
  destruct (wp_val _ _ _ (bytes_spec _ _ _ (make 0 (fCount (abs o) * _S)) (models_good _ _ Hm) N ltac:(lia))) as ([buf i] & h & Eb & -> & Hi & Hlen & Hok & Hv & Hlead).
  rewrite (bind_Val _ _ _ _ _ (on_val _ _ _ Eb)). exists (drop (Z.to_nat i) buf). unfold lift. rewrite slice_from by lia. split_and!; [done|done|done|].
  intros E0. apply Hlead; [|done]. apply lookup_lt_Some in E0. rewrite length_drop in E0. lia.
Qed.
End Readers.

(** ** Quotients and remainders *)

Section Division.
Implicit Types (w : world) (m : list Z) (x y z r : ptr) (h : words) (o : Int) (p : Pool).

Lemma wp_on_div (z z2 u v : nat_) w Q : wp (div (natPool w) z z2 u v) (mem w) (λ '(q, r, p) h, Q (q, r) (World h (objs w) p)) -> wp (on_div z z2 u v) w Q.
Proof. unfold wp, on_div. by destruct (div _ _ _ _ _ _) as [[[[q r] p] h]| |]. Qed.

(** Division of absolute values, and truncated division. *)
Lemma quot_abs X Y : Y <> 0 -> Z.abs (Z.quot X Y) = Z.abs X / Z.abs Y.
Proof. intros H. rewrite Z.quot_div by done. pose proof (Z.div_pos (Z.abs X) (Z.abs Y) ltac:(lia) ltac:(lia)). destruct (Z.eq_dec X 0) as [->|]; [by rewrite Z.div_0_l by lia|]. assert (EX : Z.abs (Z.sgn X) = 1) by lia. assert (EY : Z.abs (Z.sgn Y) = 1) by lia. rewrite !Z.abs_mul, EX, EY, (Z.abs_eq (_ / _)) by lia. lia. Qed.

Lemma rem_abs X Y : Y <> 0 -> Z.abs (Z.rem X Y) = Z.abs X mod Z.abs Y.
Proof. intros H. rewrite Z.rem_mod by done. pose proof (Z.mod_pos_bound (Z.abs X) (Z.abs Y) ltac:(lia)). destruct (Z.eq_dec X 0) as [->|]; [by rewrite Z.mod_0_l by lia|]. assert (EX : Z.abs (Z.sgn X) = 1) by lia. rewrite !Z.abs_mul, EX, (Z.abs_eq (_ mod _)) by lia. lia. Qed.

Lemma quot_sign X Y : Y <> 0 -> Z.quot X Y <> 0 -> xorb (X <? 0) (Y <? 0) = (Z.quot X Y <? 0).
Proof.
  intros H. rewrite Z.quot_div by done. pose proof (Z.div_pos (Z.abs X) (Z.abs Y) ltac:(lia) ltac:(lia)). intros Hnz. set (k := Z.abs X / Z.abs Y) in *.
  destruct (Z.ltb_spec X 0), (Z.ltb_spec Y 0); cbn [xorb]; symmetry; first [apply Z.ltb_lt|apply Z.ltb_ge]; nia.
Qed.

Lemma rem_sign X Y : Y <> 0 -> Z.rem X Y <> 0 -> (X <? 0) = (Z.rem X Y <? 0).
Proof. intros H Hnz. pose proof (Z.rem_sign_nz X Y H Hnz). destruct (Z.ltb_spec X 0), (Z.ltb_spec (Z.rem X Y) 0); (done || lia). Qed.

(** Storage that division may use for its results. *)
Definition place_ready w (z : nat_) : Prop := wf (mem w) z /\ fStart z = 0 /\ (fArray z ∉ arrays (natPool w)).

Lemma object_place w o v : object_ok (mem w) (natPool w) o v -> place_ready w (abs o).
Proof. intros Ho. split; [by eapply object_wf|]. by destruct Ho as (_ & _ & ? & ?). Qed.

Lemma nil_place w m : models w m -> place_ready w fZero.
Proof. intros Hm. split; [apply zero_wf, good_ok, Hm|]. split; [done|]. intros Ha. by destruct (pool_old _ _ _ (models_pool _ _ Hm) Ha). Qed.

Lemma objects_divisible w m (z z2 : nat_) ox oy X Y : models w m -> place_ready w z -> place_ready w z2 -> (fArray z = fArray z2 -> fArray z = EmptyArray) ->
  object_ok (mem w) (natPool w) ox X -> object_ok (mem w) (natPool w) oy Y -> divisible (mem w) (natPool w) z z2 (abs ox) (abs oy).
Proof.
  intros Hm (Wz & Fz & Pz) (Wz2 & Fz2 & Pz2) Hs (_ & _ & Fx & Px) (_ & _ & Fy & Py). split_and!; try done; try apply Hm; starts.
Qed.

(** What [div] leaves when one of its results is kept, in the object of [z]. *)
Lemma models_divided w m z oz (V : Z) (r : nat_) h' p' n P : models w m -> objs w !! z = Some oz -> z <> intOne ->
  good h' -> frame P (mem w) h' -> (forall a i, P a i -> a = EmptyArray \/ (a = fArray (abs oz) \/ a = fArray (abs oz) \/ a ∈ arrays (natPool w))) ->
  nat_is h' r (Z.abs V) -> located (mem w) (abs oz) r -> pool_ok h' p' -> (forall a, a ∈ arrays p' -> (a ∈ arrays (natPool w) \/ (length (mem w) <= a)%nat) /\ a <> fArray r) -> n = (V <? 0) ->
  models (World h' (<[z := MkInt n r]> (objs w)) p') (<[z := V]> m).
Proof.
  intros Hm Hz Hz1 Hg Hf HP Hn L Hp Hp' ->. destruct (models_object _ _ _ _ Hm Hz) as (v & _ & (Hno & _ & H0 & Hpo)).
  assert (Hok : object_ok h' p' (MkInt (V <? 0) r) V).
  { split; [done|]. split; [done|]. cbn [abs]. split; [destruct L as [[_ ->]|[_ ->]]; done|]. intros Ha. by destruct (Hp' _ Ha). }
  rewrite <- (list_insert_insert_eq m z V V), <- (list_insert_insert_eq (objs w) z (MkInt (V <? 0) r) (MkInt (V <? 0) r)).
  apply (models_write w m z z oz oz _ _ V V); try done; [by eapply frame_but_nil; [apply Hm| |]|]. intros a Ha. by apply Hp'.
Qed.

Lemma Quo_spec w m z x y X Y : models w m -> m !! x = Some X -> m !! y = Some Y -> Y <> 0 -> (z < length m)%nat -> z <> intOne -> wp (Quo z x y) w (λ _ w', models w' (<[z := Z.quot X Y]> m)).
Proof.
  intros Hm Hx Hy HY Hz Hz1. destruct (lookup_lt_is_Some_2 m z Hz) as [Z0 HZ]. destruct (models_lookup _ _ _ _ Hm HZ) as (oz & Hoz & Kz). destruct (operand _ _ _ _ _ Hm Kz Hoz) as (Nz & Sz & Wz & Fz).
  destruct (models_lookup _ _ _ _ Hm Hx) as (ox & Hox & Kx). destruct (models_lookup _ _ _ _ Hm Hy) as (oy & Hoy & Ky). pose proof (nil_place _ _ Hm) as Pnil. pose proof (object_place _ _ _ Kz) as Pz. unfold Quo. do 3 (eapply wp_abs; [done|]). apply wp_bind, wp_on_div.
  eapply wp_mono; [apply (div_spec _ _ _ _ _ _ (Z.abs X) (Z.abs Y)); [by eapply objects_divisible|apply Kx|apply Ky|lia]|].
  intros [[q r] p] h (Hg & Hf & Nq & Nr & Lq & Lr & Hsep & Hp & Hpa). eapply wp_set_abs; [done|]. rewrite <- quot_abs in Nq by done.
  apply (wp_sign_of_two w p _ z oz (Z.quot X Y) q h x ox y oy X Y); try done; [apply Kx|apply Ky|by apply quot_sign|].
  eapply (models_divided w m z oz (Z.quot X Y) q h p); try done; [cbn; tauto|]. intros a Ha. destruct (Hpa a Ha) as (? & ? & ?). done.
Qed.

Lemma Rem_spec w m z x y X Y : models w m -> m !! x = Some X -> m !! y = Some Y -> Y <> 0 -> (z < length m)%nat -> z <> intOne -> wp (Rem z x y) w (λ _ w', models w' (<[z := Z.rem X Y]> m)).
Proof.
  intros Hm Hx Hy HY Hz Hz1. destruct (lookup_lt_is_Some_2 m z Hz) as [Z0 HZ]. destruct (models_lookup _ _ _ _ Hm HZ) as (oz & Hoz & Kz). destruct (operand _ _ _ _ _ Hm Kz Hoz) as (Nz & Sz & Wz & Fz).
  destruct (models_lookup _ _ _ _ Hm Hx) as (ox & Hox & Kx). destruct (models_lookup _ _ _ _ Hm Hy) as (oy & Hoy & Ky). pose proof (nil_place _ _ Hm) as Pnil. pose proof (object_place _ _ _ Kz) as Pz. unfold Rem. do 3 (eapply wp_abs; [done|]). apply wp_bind, wp_on_div.
  eapply wp_mono; [apply (div_spec _ _ _ _ _ _ (Z.abs X) (Z.abs Y)); [by eapply objects_divisible|apply Kx|apply Ky|lia]|].
  intros [[q r] p] h (Hg & Hf & Nq & Nr & Lq & Lr & Hsep & Hp & Hpa). eapply wp_set_abs; [done|]. rewrite <- rem_abs in Nr by done.
  destruct (half_neg w p z oz r h x ox Hoz Hox) as (ox' & Hx' & Ex). eapply wp_neg; [done|]. rewrite Ex. destruct Kx as (_ & -> & _).
  apply (wp_set_sign w p _ z oz (Z.rem X Y) r h); try done; [by apply rem_sign|].
  eapply (models_divided w m z oz (Z.rem X Y) r h p); try done; [cbn; tauto|]. intros a Ha. destruct (Hpa a Ha) as (? & ? & ?). done.
Qed.

(** Both results: the object of the quotient and that of the remainder are two. *)
Lemma QuoRem_spec w m z x y r X Y : models w m -> m !! x = Some X -> m !! y = Some Y -> Y <> 0 -> (z < length m)%nat -> (r < length m)%nat -> z <> intOne -> r <> intOne -> z <> r ->
  wp (QuoRem z x y r) w (λ _ w', models w' (<[z := Z.quot X Y]> (<[r := Z.rem X Y]> m))).
Proof.
  intros Hm Hx Hy HY Hz Hr Hz1 Hr1 Hne. destruct (lookup_lt_is_Some_2 m z Hz) as [Z0 HZ]. destruct (models_lookup _ _ _ _ Hm HZ) as (oz & Hoz & Kz). destruct (operand _ _ _ _ _ Hm Kz Hoz) as (Nz & Sz & Wz & Fz).
  destruct (lookup_lt_is_Some_2 m r Hr) as [R0 HR]. destruct (models_lookup _ _ _ _ Hm HR) as (or & Hor & Kr). destruct (operand _ _ _ _ _ Hm Kr Hor) as (Nr0 & Sr & Wr & Fr).
  destruct (models_lookup _ _ _ _ Hm Hx) as (ox & Hox & Kx). destruct (models_lookup _ _ _ _ Hm Hy) as (oy & Hoy & Ky). unfold QuoRem. do 4 (eapply wp_abs; [done|]). apply wp_bind, wp_on_div.
  eapply wp_mono; [apply (div_spec _ _ _ _ _ _ (Z.abs X) (Z.abs Y)); [eapply objects_divisible; (done || by eapply object_place || by apply (models_separate _ _ Hm z r))|apply Kx|apply Ky|lia]|].
  intros [[q s] p] h (Hg & Hf & Nq & Nr & Lq & Lr & Hsep & Hp & Hpa). rewrite <- quot_abs in Nq by done. rewrite <- rem_abs in Nr by done.
  set (w1 := World h (objs w) p). eapply wp_set_abs; [done|]. assert (Hr1' : objs (half w1 p z oz q h) !! r = Some or) by (cbn; by rewrite list_lookup_insert_ne).
  eapply wp_set_abs; [exact Hr1'|]. set (w2 := half (half w1 p z oz q h) p r or s h). change (wp (lz ← len_abs z; nx ← neg_ x; ny ← neg_ y; lr ← len_abs r; set_neg z ((0 <? lz) && xorb nx ny);; set_neg r ((0 <? lr) && nx)) w2 (λ _ w', models w' (<[z := Z.quot X Y]> (<[r := Z.rem X Y]> m)))).
  assert (Ez : objs w2 !! z = Some (MkInt (neg oz) q)) by (cbn; rewrite list_lookup_insert_ne by done; by apply list_lookup_insert_eq, (lookup_lt_Some _ _ _ Hoz)).
  assert (Er : objs w2 !! r = Some (MkInt (neg or) s)) by (by apply half_lookup).
  assert (Hl : forall k a n V, objs w2 !! k = Some (MkInt n a) -> nat_is h a (Z.abs V) -> len_abs k w2 = Val (fCount a, w2) /\ (0 <? fCount a) = negb (V =? 0)).
  { intros k a n V Hk Ha. unfold len_abs. rewrite (bind_Val _ _ _ _ _ (abs_val _ _ _ Hk)). split; [by apply on_val, (nat_len _ _ (Z.abs V))|].
    pose proof (nat_zero _ _ _ Hg Ha). pose proof (wf_len _ _ (nat_wf _ _ _ Ha)). destruct (Z.ltb_spec 0 (fCount a)), (Z.eqb_spec V 0); (done || lia). }
  destruct (Hl z q _ _ Ez Nq) as [Lz E1]. destruct (Hl r s _ _ Er Nr) as [Lr' E2].
  assert (Hsg : forall k ok, objs w !! k = Some ok -> exists ok', objs w2 !! k = Some ok' /\ neg ok' = neg ok).
  { intros k ok Hk. destruct (half_neg w1 p z oz q h k ok Hoz Hk) as (o1 & Ho1 & En1). destruct (half_neg (half w1 p z oz q h) p r or s h k o1 Hr1' Ho1) as (o2 & Ho2 & En2). exists o2. split; [done|congruence]. }
  destruct (Hsg x ox Hox) as (ox' & Hx2 & Ex). destruct (Hsg y oy Hoy) as (oy' & Hy2 & Ey).
  apply wp_bind. eapply wp_of_val; [exact Lz|]. eapply wp_neg; [done|]. eapply wp_neg; [done|]. apply wp_bind. eapply wp_of_val; [exact Lr'|].
  rewrite E1, E2, Ex, Ey. destruct Kx as (_ & -> & _). destruct Ky as (_ & -> & _). rewrite (sign_value (Z.quot X Y)), (sign_value (Z.rem X Y)) by (by apply quot_sign || by apply rem_sign).
  apply wp_bind. eapply wp_set_neg; [exact Ez|]. eapply wp_set_neg; [cbn; rewrite list_lookup_insert_ne by done; exact Er|]. subst w2 w1. cbn.
  rewrite (list_insert_insert_ne (<[z := MkInt (neg oz) q]> (objs w)) z r), !list_insert_insert_eq, (list_insert_insert_ne (objs w) r z) by done.
  apply (models_write w m z r oz or _ _ (Z.quot X Y) (Z.rem X Y)); try done.
  - intros a Ha. by apply Hpa.
  - split_and!; [done|done|destruct Lq as [[_ E]|[_ E]]; cbn; congruence|intros Ha; by destruct (Hpa _ Ha) as (_ & ? & _)].
  - split_and!; [done|done|destruct Lr as [[_ E]|[_ E]]; cbn; congruence|intros Ha; by destruct (Hpa _ Ha) as (_ & _ & ?)].
  - intros _. apply Hsep. by apply (models_separate _ _ Hm z r).
Qed.

(** ** New objects *)

Lemma prefix_insert m M z (v : Z) : m `prefix_of` M -> (z < length m)%nat -> <[z := v]> m `prefix_of` <[z := v]> M.
Proof. intros [e ->] Hz. exists e. by rewrite insert_app_l. Qed.

Lemma prefix_beyond m M q (a : Z) : m `prefix_of` M -> (length m <= q)%nat -> m `prefix_of` <[q := a]> M.
Proof. intros [e ->] Hq. exists (<[q - length m := a]> e)%nat. replace q with (length m + (q - length m))%nat at 1 by lia. by rewrite insert_app_r. Qed.

Lemma models_new w m : models w m -> exists w', new_Int w = Val (length m, w') /\ models w' (m ++ [0]).
Proof.
  intros Hm. exists (World (mem w) (objs w ++ [MkInt false fZero]) (natPool w)). pose proof (Forall2_length _ _ _ (models_objects _ _ Hm)) as El.
  split; [unfold new_Int, mbind, M_bind, get, put, mret, M_ret; by rewrite El|]. destruct (nil_place _ _ Hm) as (Wn & Fn & Pn). split; cbn [mem objs natPool]; [apply Hm|apply Hm| | |].
  - apply Forall2_app; [apply Hm|]. constructor; [|constructor]. split; [|done]. split; [done|]. cbn. split; [done|lia].
  - intros a b oa ob Ha Hb Hab E. apply lookup_app_Some in Ha, Hb. destruct Ha as [Ha|[? Ha]], Hb as [Hb|[? Hb]].
    + by apply (models_separate _ _ Hm a b oa ob).
    + apply list_lookup_singleton_Some in Hb as [? <-]. by rewrite E.
    + apply list_lookup_singleton_Some in Ha as [? <-]. done.
    + apply list_lookup_singleton_Some in Ha as [? <-]. apply list_lookup_singleton_Some in Hb as [? <-]. lia.
  - destruct (models_one _ _ Hm) as [H1 H2]. split; by apply lookup_app_l_Some.
Qed.

(** A new object, as an object that is neither the constant nor one of the old. *)
Lemma wp_new {A} w m (f : ptr -> W A) Q : models w m -> (forall (c : ptr) w', models w' (m ++ [0]) -> c = length m -> c <> intOne -> wp (f c) w' Q) -> wp (c ← new_Int; f c) w Q.
Proof.
  intros Hm Hf. destruct (models_new w m Hm) as (w' & E & Hm'). apply wp_bind. eapply wp_of_val; [exact E|]. apply Hf; [done|done|].
  destruct (models_one _ _ Hm) as [_ H1]. apply lookup_lt_Some in H1. unfold intOne in *. lia.
Qed.

Lemma wp_sign_known {A} w m x X (f : bool -> W A) Q : models w m -> m !! x = Some X -> wp (f (X <? 0)) w Q -> wp (b ← neg_ x; f b) w Q.
Proof. intros Hm Hx Hf. object Hm Hx as o Ho N S W0 F. eapply wp_neg; [done|]. by rewrite S. Qed.

(** Euclidean division *)
Definition ediv (X Y : Z) : Z := Z.sgn Y * (X / Z.abs Y).
Definition emod (X Y : Z) : Z := X mod Z.abs Y.

Lemma euclidean X Y : Y <> 0 ->
  (ediv X Y, emod X Y) = if Z.rem X Y <? 0 then if Y <? 0 then (Z.quot X Y + 1, Z.rem X Y - Y) else (Z.quot X Y - 1, Z.rem X Y + Y) else (Z.quot X Y, Z.rem X Y).
Proof.
  intros HY. pose proof (Z.quot_rem X Y HY) as E. pose proof (Z.rem_bound_abs X Y HY) as Hb. set (q := Z.quot X Y) in *. set (s := Z.rem X Y) in *. unfold ediv, emod.
  assert (H : forall a b, 0 <= b < Z.abs Y -> X = Z.abs Y * a + b -> X / Z.abs Y = a /\ X mod Z.abs Y = b).
  { intros a b Hb0 Ea. split; symmetry; [by apply Z.div_unique_pos with b|by apply Z.mod_unique_pos with a]. }
  destruct (Z.ltb_spec s 0), (Z.ltb_spec Y 0).
  - destruct (H (- (q + 1)) (s - Y)) as [-> ->]; [lia|nia|]. rewrite Z.sgn_neg by lia. f_equal; lia.
  - destruct (H (q - 1) (s + Y)) as [-> ->]; [lia|nia|]. rewrite Z.sgn_pos by lia. f_equal; lia.
  - destruct (H (- q) s) as [-> ->]; [lia|nia|]. rewrite Z.sgn_neg by lia. f_equal; lia.
  - destruct (H q s) as [-> ->]; [lia|nia|]. rewrite Z.sgn_pos by lia. f_equal; lia.
Qed.

Lemma Div_spec w m z x y X Y : models w m -> m !! x = Some X -> m !! y = Some Y -> Y <> 0 -> (z < length m)%nat -> z <> intOne -> sets (Div z x y) w (<[z := ediv X Y]> m).
Proof.
  intros Hm Hx Hy HY Hz Hz1. unfold sets, Div. apply (wp_sign_known w m y Y); [done|done|]. apply (wp_new w m); [done|]. intros r w1 Hm1 -> Hr1.
  apply wp_bind. eapply wp_mono; [apply (QuoRem_spec w1 (m ++ [0]) z x y (length m) X Y); first [done|by apply lookup_app_l_Some|rewrite ?length_app; cbn; lia]|].
  intros [] w2 Hm2. set (M := <[z := Z.quot X Y]> (<[length m := Z.rem X Y]> (m ++ [0]))) in Hm2. pose proof (euclidean X Y HY) as Ee. assert (Hpm : m `prefix_of` <[length m := Z.rem X Y]> (m ++ [0])) by (apply prefix_beyond; [by eexists|done]).
  assert (Hr : M !! length m = Some (Z.rem X Y)) by (unfold M; rewrite list_lookup_insert_ne by lia; apply list_lookup_insert_eq; rewrite length_app; cbn; lia).
  assert (HMz : M !! z = Some (Z.quot X Y)) by (apply list_lookup_insert_eq; rewrite length_insert, length_app; lia).
  apply (wp_sign_known w2 M (length m) (Z.rem X Y)); [done|done|]. destruct (models_one _ _ Hm2) as [_ H1]. assert (Hl : (z < length M)%nat) by (by eapply lookup_lt_Some).
  destruct (Z.rem X Y <? 0); [destruct (Y <? 0)|].
  - eapply wp_mono; [by apply (Add_spec w2 M z z intOne (Z.quot X Y) 1)|]. intros [] w3 Hm3. eexists. split; [exact Hm3|]. unfold M. rewrite list_insert_insert_eq. injection Ee as -> _. by apply prefix_insert.
  - eapply wp_mono; [by apply (Sub_spec w2 M z z intOne (Z.quot X Y) 1)|]. intros [] w3 Hm3. eexists. split; [exact Hm3|]. unfold M. rewrite list_insert_insert_eq. injection Ee as -> _. by apply prefix_insert.
  - apply wp_ret. exists M. split; [done|]. injection Ee as -> _. by apply prefix_insert.
Qed.

(** Whether two numbers share an array is known without looking at their words. *)
Lemma alias_total h (a b : nat_) : exists v, alias a b h = Val (v, h).
Proof. unfold alias. rewrite !(bind_Val _ _ _ _ _ (IsNil_val _ _)). by eexists. Qed.

(** The divisor, or a copy of it. *)
Lemma wp_saved {A} w m z y Y (f : ptr -> W A) Q : models w m -> m !! y = Some Y -> (z < length m)%nat ->
  (forall y0 M w', models w' M -> m `prefix_of` M -> M !! y0 = Some Y -> y0 <> z -> (y0 = y \/ (length m <= y0)%nat) -> wp (f y0) w' Q) -> wp (y0 ← saved z y; f y0) w Q.
Proof.
  intros Hm Hy Hz Hf. destruct (lookup_lt_is_Some_2 m z Hz) as [Z0 HZ]. object Hm HZ as oz Hoz Nz Sz Wz Fz. object Hm Hy as oy Hoy Ny Sy Wy Fy.
  assert (Hnew : wp (c ← new_Int; Set_ c y;; mret c) w (λ y0 w', wp (f y0) w' Q)).
  { apply (wp_new w m); [done|]. intros c w1 Hm1 -> Hc. apply wp_bind. eapply wp_mono; [apply (Set_spec w1 (m ++ [0]) (length m) y Y); first [done|by apply lookup_app_l_Some|rewrite length_app; cbn; lia]|].
    intros [] w2 Hm2. apply wp_ret. apply (Hf _ _ _ Hm2); [apply prefix_beyond; [by eexists|done]|apply list_lookup_insert_eq; rewrite length_app; cbn; lia|lia|by right]. }
  apply wp_bind. unfold saved. do 2 (eapply wp_abs; [done|]). case_decide as E.
  - exact Hnew.
  - destruct (alias_total (mem w) (abs oz) (abs oy)) as [al Eal]. eapply wp_on_val; [exact Eal|]. destruct al; [exact Hnew|]. apply wp_ret. apply (Hf y m w); [done|done|done|congruence|by left].
Qed.

Lemma Mod_spec w m z x y X Y : models w m -> m !! x = Some X -> m !! y = Some Y -> Y <> 0 -> (z < length m)%nat -> z <> intOne -> sets (Mod z x y) w (<[z := emod X Y]> m).
Proof.
  intros Hm Hx Hy HY Hz Hz1. unfold sets, Mod. apply (wp_saved w m z y Y); [done|done|done|]. intros y0 M w1 Hm1 Hpre Hy0 Hne _. pose proof (prefix_length _ _ Hpre) as Hlen.
  assert (Hzy : forall k v, m !! k = Some v -> M !! k = Some v) by (intros k v Hk; by eapply prefix_lookup_Some). apply (wp_new w1 M); [done|]. intros q w2 Hm2 -> Hq1.
  apply wp_bind. eapply wp_mono; [apply (QuoRem_spec w2 (M ++ [0]) (length M) x y z X Y); first [done|apply lookup_app_l_Some; by apply Hzy|rewrite ?length_app; cbn; lia]|].
  intros [] w3 Hm3. set (M' := <[length M := Z.quot X Y]> (<[z := Z.rem X Y]> (M ++ [0]))) in Hm3. pose proof (euclidean X Y HY) as Ee. assert (Hly : (y0 < length M)%nat) by (by eapply lookup_lt_Some).
  assert (HMz : M' !! z = Some (Z.rem X Y)) by (unfold M'; rewrite list_lookup_insert_ne by lia; apply list_lookup_insert_eq; rewrite length_app; lia).
  assert (HMy : M' !! y0 = Some Y) by (unfold M'; rewrite !list_lookup_insert_ne by lia; by apply lookup_app_l_Some). assert (Hl : (z < length M')%nat) by (by eapply lookup_lt_Some).
  assert (Hfin : forall v, <[z := v]> m `prefix_of` <[z := v]> M').
  { intros v. unfold M'. rewrite (list_insert_insert_ne _ z (length M)), list_insert_insert_eq by lia. apply prefix_beyond; [apply prefix_insert; [etrans; [exact Hpre|by eexists]|done]|rewrite length_insert; lia]. }
  apply (wp_sign_known w3 M' z (Z.rem X Y)); [done|done|]. destruct (Z.rem X Y <? 0).
  - apply (wp_sign_known w3 M' y0 Y); [done|done|]. destruct (Y <? 0); injection Ee as _ ->.
    + eapply wp_mono; [by apply (Sub_spec w3 M' z z y0 (Z.rem X Y) Y)|]. intros [] w4 Hm4. by eexists.
    + eapply wp_mono; [by apply (Add_spec w3 M' z z y0 (Z.rem X Y) Y)|]. intros [] w4 Hm4. by eexists.
  - apply wp_ret. exists M'. split; [done|]. injection Ee as _ ->. rewrite <- (list_insert_id M' z (Z.rem X Y)) by done. apply Hfin.
Qed.

(** The modulus may not overwrite the divisor (see [DivMod_overwrites]). *)
Lemma DivMod_spec w m z x y r X Y : models w m -> m !! x = Some X -> m !! y = Some Y -> Y <> 0 -> (z < length m)%nat -> (r < length m)%nat -> z <> intOne -> r <> intOne -> z <> r -> r <> y ->
  sets (DivMod z x y r) w (<[z := ediv X Y]> (<[r := emod X Y]> m)).
Proof.
  intros Hm Hx Hy HY Hz Hr Hz1 Hr1 Hzr Hry. unfold sets, DivMod. apply (wp_saved w m z y Y); [done|done|done|]. intros y0 M w1 Hm1 Hpre Hy0 Hne Hwhere. pose proof (prefix_length _ _ Hpre) as Hlen.
  assert (Hzy : forall k v, m !! k = Some v -> M !! k = Some v) by (intros k v Hk; by eapply prefix_lookup_Some). assert (Hyr : y0 <> r) by (destruct Hwhere; [congruence|lia]).
  apply wp_bind. eapply wp_mono; [apply (QuoRem_spec w1 M z x y r X Y); first [done|by apply Hzy|lia]|]. intros [] w2 Hm2.
  set (M' := <[z := Z.quot X Y]> (<[r := Z.rem X Y]> M)) in Hm2. pose proof (euclidean X Y HY) as Ee. assert (Hlz : (z < length M)%nat) by lia. assert (Hlr : (r < length M)%nat) by lia.
  assert (HMr : M' !! r = Some (Z.rem X Y)) by (unfold M'; rewrite list_lookup_insert_ne by done; by apply list_lookup_insert_eq). assert (HMz : M' !! z = Some (Z.quot X Y)) by (apply list_lookup_insert_eq; by rewrite length_insert).
  assert (HMy : M' !! y0 = Some Y) by (unfold M'; by rewrite !list_lookup_insert_ne by done). assert (Hl' : length M' = length M) by (unfold M'; by rewrite !length_insert).
  assert (Hfin : forall a b, <[z := a]> (<[r := b]> m) `prefix_of` <[r := b]> (<[z := a]> M')).
  { intros a b. unfold M'. rewrite list_insert_insert_eq, (list_insert_insert_ne _ r z), list_insert_insert_eq by done. apply prefix_insert; [by apply prefix_insert|by rewrite length_insert]. }
  apply (wp_sign_known w2 M' r (Z.rem X Y)); [done|done|]. destruct (models_one _ _ Hm2) as [_ H1]. destruct (Z.rem X Y <? 0).
  - apply (wp_sign_known w2 M' y0 Y); [done|done|]. destruct (Y <? 0); injection Ee as -> ->.
    + apply wp_bind. eapply wp_mono; [apply (Add_spec w2 M' z z intOne (Z.quot X Y) 1); (done || lia)|]. intros [] w3 Hm3.
      eapply wp_mono; [apply (Sub_spec w3 _ r r y0 (Z.rem X Y) Y Hm3); rewrite ?list_lookup_insert_ne, ?length_insert by done; (done || lia)|]. intros [] w4 Hm4. by eexists.
    + apply wp_bind. eapply wp_mono; [apply (Sub_spec w2 M' z z intOne (Z.quot X Y) 1); (done || lia)|]. intros [] w3 Hm3.
      eapply wp_mono; [apply (Add_spec w3 _ r r y0 (Z.rem X Y) Y Hm3); rewrite ?list_lookup_insert_ne, ?length_insert by done; (done || lia)|]. intros [] w4 Hm4. by eexists.
  - apply wp_ret. exists M'. split; [done|]. injection Ee as -> ->. apply prefix_insert; [by apply prefix_insert|by rewrite length_insert].
Qed.

(** A divisor of 0 panics. *)
Lemma on_div_zero w m (z z2 u : nat_) y o : models w m -> objs w !! y = Some o -> m !! y = Some 0 -> on_div z z2 u (abs o) w = Panic Explicit.
Proof.
  intros Hm Hy Hv. destruct (models_object _ _ _ _ Hm Hy) as (v & Hv' & (N & _)). assert (v = 0) as -> by congruence. unfold on_div. rewrite div_zero; [done|apply Hm|done].
Qed.

Lemma QuoRem_zero w m z x y r : models w m -> (z < length m)%nat -> (x < length m)%nat -> (r < length m)%nat -> m !! y = Some 0 ->
  Quo z x y w = Panic Explicit /\ Rem z x y w = Panic Explicit /\ QuoRem z x y r w = Panic Explicit.
Proof.
  intros Hm Hz Hx Hr Hy. assert (Ho : forall k, (k < length m)%nat -> exists o, objs w !! k = Some o).
  { intros k Hk. destruct (lookup_lt_is_Some_2 m k Hk) as [v Hv]. destruct (models_lookup _ _ _ _ Hm Hv) as (o & ? & _). by exists o. }
  destruct (Ho z Hz) as [oz Hoz]. destruct (Ho x Hx) as [ox Hox]. destruct (Ho r Hr) as [or Hor]. destruct (Ho y (lookup_lt_Some _ _ _ Hy)) as [oy Hoy].
  pose proof (λ a b c, on_div_zero w m a b c y oy Hm Hoy Hy) as Hd.
  split_and!; [unfold Quo|unfold Rem|unfold QuoRem]; rewrite !(bind_Val _ _ _ _ _ (abs_val _ _ _ Hoz)), ?(bind_Val _ _ _ _ _ (abs_val _ _ _ Hor)), !(bind_Val _ _ _ _ _ (abs_val _ _ _ Hox)), !(bind_Val _ _ _ _ _ (abs_val _ _ _ Hoy));
    unfold mbind, M_bind; by rewrite Hd.
Qed.




Lemma saved_val w m z y Y : models w m -> m !! y = Some Y -> (z < length m)%nat ->
  exists y0 M w', saved z y w = Val (y0, w') /\ models w' M /\ m `prefix_of` M /\ (y0 = y \/ (length m <= y0)%nat) /\ M !! y0 = Some Y.
Proof.
  intros Hm Hy Hz. assert (H : wp (y0 ← saved z y; mret y0) w (λ y0 w', exists M, models w' M /\ m `prefix_of` M /\ (y0 = y \/ (length m <= y0)%nat) /\ M !! y0 = Some Y)).
  { apply (wp_saved w m z y Y); [done|done|done|]. intros y0 M w' Hm' Hp Hy0 _ Hw. apply wp_ret. by exists M. }
  destruct (wp_val _ _ _ H) as (y0 & w' & E & M & HM). exists y0, M, w'. split; [|done]. unfold mbind, M_bind in E. destruct (saved z y w) as [[a s]| |]; [|done| done]. exact E.
Qed.

Lemma Div_zero w m z x y r : models w m -> (z < length m)%nat -> (x < length m)%nat -> (r < length m)%nat -> m !! y = Some 0 ->
  Div z x y w = Panic Explicit /\ Mod z x y w = Panic Explicit /\ DivMod z x y r w = Panic Explicit.
Proof.
  intros Hm Hz Hx Hr Hy. destruct (saved_val w m z y 0 Hm Hy Hz) as (y0 & M & w1 & Es & Hm1 & Hp & Hw & Hy0). pose proof (prefix_length _ _ Hp). assert (Hy1 : M !! y = Some 0) by (by eapply prefix_lookup_Some).
  split_and!.
  - object Hm Hy as o Ho N S W0 F. unfold Div. rewrite (bind_Val _ _ _ _ _ (neg_val _ _ _ Ho)). destruct (models_new w m Hm) as (w2 & E2 & Hm2). rewrite (bind_Val _ _ _ _ _ E2).
    destruct (QuoRem_zero w2 _ z x y (length m) Hm2) as (_ & _ & E); [rewrite length_app; cbn; lia..|by apply lookup_app_l_Some|]. unfold mbind, M_bind. by rewrite E.
  - unfold Mod. rewrite (bind_Val _ _ _ _ _ Es). destruct (models_new w1 M Hm1) as (w2 & E2 & Hm2). rewrite (bind_Val _ _ _ _ _ E2).
    destruct (QuoRem_zero w2 _ (length M) x y z Hm2) as (_ & _ & E); [rewrite length_app; cbn; lia..|by apply lookup_app_l_Some|]. unfold mbind, M_bind. by rewrite E.
  - unfold DivMod. rewrite (bind_Val _ _ _ _ _ Es). destruct (QuoRem_zero w1 M z x y r Hm1) as (_ & _ & E); [lia..|done|]. unfold mbind, M_bind. by rewrite E.
Qed.

(** ** Binomial coefficients *)

Fixpoint binomial (n k : nat) : Z :=
  match n, k with
  | _, O => 1
  | O, S _ => 0
  | S n, S k => binomial n k + binomial n (S k)
  end.

Lemma range_product_low a b : a <= b -> range_product a b = a * range_product (a + 1) b.
Proof. intros H. by rewrite (range_product_split a a b), range_product_one by lia. Qed.

Lemma range_product_high a b : a <= b + 1 -> range_product a (b + 1) = range_product a b * (b + 1).
Proof. intros H. by rewrite (range_product_split a b (b + 1)), range_product_one by lia. Qed.

(** [n * (n - 1) * ... * (n - k + 1) = (n choose k) * k!] *)
Lemma binomial_product n : forall k, range_product (Z.of_nat n - Z.of_nat k + 1) (Z.of_nat n) = binomial n k * range_product 1 (Z.of_nat k).
Proof.
  induction n as [|n IH]; intros [|k].
  - done.
  - cbn [binomial]. rewrite range_product_zero by lia. done.
  - rewrite !range_product_empty by lia. by destruct n.
  - cbn [binomial]. rewrite Z.mul_add_distr_r, <- IH. rewrite !Nat2Z.inj_succ, <- !Z.add_1_r. rewrite (range_product_high 1 (Z.of_nat k)) by lia. rewrite Z.mul_assoc, <- IH.
    replace (Z.of_nat n + 1 - (Z.of_nat k + 1) + 1) with (Z.of_nat n - Z.of_nat k + 1) by lia. replace (Z.of_nat n - (Z.of_nat k + 1) + 1) with (Z.of_nat n - Z.of_nat k) by lia.
    destruct (Z.le_gt_cases (Z.of_nat n - Z.of_nat k) (Z.of_nat n)) as [Hle|]; [|lia]. rewrite (range_product_low (Z.of_nat n - Z.of_nat k)) by lia. rewrite range_product_high by lia. ring.
Qed.

Lemma binomial_symmetric n k : (k <= n)%nat -> binomial n k = binomial n (n - k).
Proof.
  intros Hk. pose proof (binomial_product n k) as E1. pose proof (binomial_product n (n - k)) as E2. replace (Z.of_nat n - Z.of_nat (n - k) + 1) with (Z.of_nat k + 1) in E2 by lia.
  pose proof (range_product_split 1 (Z.of_nat n - Z.of_nat k) (Z.of_nat n) ltac:(lia) ltac:(lia)) as E3. pose proof (range_product_split 1 (Z.of_nat k) (Z.of_nat n) ltac:(lia) ltac:(lia)) as E4.
  rewrite E1 in E3. rewrite E2 in E4. replace (Z.of_nat n - Z.of_nat k) with (Z.of_nat (n - k)) in E3 by lia. pose proof (range_product_pos 1 (Z.of_nat k) ltac:(lia)). pose proof (range_product_pos 1 (Z.of_nat (n - k)) ltac:(lia)).
  apply (Z.mul_reg_l _ _ (range_product 1 (Z.of_nat (n - k)) * range_product 1 (Z.of_nat k))); [nia|]. transitivity (range_product 1 (Z.of_nat n)); [rewrite E3; ring|rewrite E4; ring].
Qed.

Lemma binomial_quotient n k : Z.quot (range_product (Z.of_nat n - Z.of_nat k + 1) (Z.of_nat n)) (range_product 1 (Z.of_nat k)) = binomial n k.
Proof. rewrite binomial_product. pose proof (range_product_pos 1 (Z.of_nat k) ltac:(lia)). apply Z.quot_mul. lia. Qed.

Lemma Binomial_spec w m z n k : models w m -> Z.of_nat n < 2 ^ 63 - 1 -> Z.of_nat k < 2 ^ 63 -> (z < length m)%nat -> z <> intOne ->
  sets (Binomial z (Z.of_nat n) (Z.of_nat k)) w (<[z := binomial n k]> m).
Proof.
  intros Hm Hn Hk Hz Hz1. assert (H : exists k', (if (Z.quot (Z.of_nat n) 2 <? Z.of_nat k) && (Z.of_nat k <=? Z.of_nat n) then i64 (Z.of_nat n - Z.of_nat k) else Z.of_nat k) = Z.of_nat k' /\ Z.of_nat k' < 2 ^ 63 /\ binomial n k' = binomial n k).
  { destruct (_ && _) eqn:E; [|by exists k]. apply andb_true_iff in E as [_ Hle%Z.leb_le]. exists (n - k)%nat. rewrite swrap_small by (unfold is_sint; cbn; lia). split_and!; [lia|lia|]. symmetry. apply binomial_symmetric. lia. }
  destruct H as (k' & Ek & Hk' & <-). unfold sets, Binomial. rewrite Ek. clear Ek k Hk. rename k' into k.
  apply (wp_new w m); [done|]. intros a w1 Hm1 Ea Ha1. apply (wp_new w1 (m ++ [0])); [done|]. rewrite length_app. cbn [length]. intros b w2 Hm2 Eb Hb1. set (M := (m ++ [0]) ++ [0]) in *. assert (Hl : length M = S (S (length m))) by (unfold M; rewrite !length_app; cbn; lia).
  assert (Hs : is_sint 64 (i64 (i64 (Z.of_nat n - Z.of_nat k) + 1)) /\ is_sint 64 (Z.of_nat n) /\ is_sint 64 (Z.of_nat k) /\ is_sint 64 1 /\ i64 (i64 (Z.of_nat n - Z.of_nat k) + 1) = Z.of_nat n - Z.of_nat k + 1).
  { rewrite (swrap_small 64 (Z.of_nat n - Z.of_nat k)) by (unfold is_sint; cbn; lia). rewrite swrap_small by (unfold is_sint; cbn; lia). unfold is_sint. cbn. split_and!; lia. }
  destruct Hs as (Hs1 & Hs2 & Hs3 & Hs4 & Es). rewrite Es in *.
  apply wp_bind. eapply wp_mono; [apply (MulRange_spec w2 M a); (done || lia)|]. intros [] w3 Hm3. apply wp_bind. eapply wp_mono; [apply (MulRange_spec w3 _ b 1 (Z.of_nat k) Hm3); rewrite ?length_insert; (done || lia)|]. intros [] w4 Hm4.
  pose proof (range_product_pos 1 (Z.of_nat k) ltac:(lia)). eapply wp_mono; [eapply (Quo_spec w4 _ z a b _ _ Hm4); [rewrite list_lookup_insert_ne by lia; apply list_lookup_insert_eq; lia|apply list_lookup_insert_eq; rewrite length_insert; lia|lia|rewrite !length_insert; lia|done]|].
  intros [] w5 Hm5. eexists. split; [exact Hm5|]. rewrite binomial_quotient. apply prefix_insert; [|done]. apply prefix_beyond; [apply prefix_beyond|lia]; [|lia]. exists [0; 0]. unfold M. by rewrite <- app_assoc.
Qed.

End Division.

(** ** Two's complement *)

Lemma wp_later h z h1 (c : B nat_) v : frame nowhere h h1 -> wp c h1 (result h1 z v) -> wp c h1 (result h z v).
Proof. intros Hf Hc. eapply wp_mono; [exact Hc|]. intros r h2 Hr. eapply result_trans; [by apply frame_nowhere|by left|done]. Qed.

(** The constant 1 stays what it is when a number elsewhere is written. *)
Definition one_beside h (z : nat_) : Prop := nat_is h natOne 1 /\ fArray z <> fArray natOne.

Lemma one_frame h z h1 t : one_beside h z -> frame (all_of (fArray z)) h h1 -> located h z t -> one_beside h1 t.
Proof.
  intros [H1 Hne] Hf L. split; [eapply nat_frame; [exact Hf|done|]; unfold all_of; intros i _ E; by apply Hne|]. destruct L as [[-> _]|[Hge _]]; [done|]. apply nat_wf in H1. destruct H1. lia.
Qed.

Lemma one_beside_object w m z o : models w m -> objs w !! z = Some o -> z <> intOne -> one_beside (mem w) (abs o).
Proof.
  intros Hm Hz Hz1. destruct (models_one _ _ Hm) as [Ho Hv]. destruct (models_object _ _ _ _ Hm Ho) as (v & Hv' & Hok). assert (v = 1) as -> by congruence. split; [by destruct Hok|].
  intros E. symmetry in E. revert E. by apply (object_own w m z intOne o (MkInt false natOne) 1).
Qed.

Section Complement.
Implicit Types (h : words) (z x y t : nat_) (X Y u v : Z).

(** [^X] of a negative number is its absolute value less 1. *)
Lemma wp_pred {A} h x X (K : nat_ -> B A) Q : good h -> nat_is h natOne 1 -> nat_is h x (Z.abs X) -> fStart x = 0 -> X < 0 ->
  (forall x1 h1, good h1 -> frame nowhere h h1 -> nat_is h1 x1 (Z.lnot X) -> fStart x1 = 0 -> wp (K x1) h1 Q) -> wp (x1 ← pred_ x; K x1) h Q.
Proof.
  intros Hg H1 Hx Fx HX HK. apply wp_bind. unfold pred_. assert (Wn : wf h fZero) by (by apply zero_wf, good_ok).
  eapply wp_mono; [eapply wpx_no_panic; [apply (sub_spec h fZero x natOne (Z.abs X) 1); (done || starts)|]|]; [intros ? [? _]; lia|].
  intros x1 h1 [_ (Hg1 & Hf1 & Hn & L)]. apply HK; [done|by apply frame_nil in Hf1| |destruct L as [[_ ->]|[_ ->]]; done]. unfold Z.lnot. by replace (Z.pred (- X)) with (Z.abs X - 1) by lia.
Qed.

Lemma wp_succ h z (c : B nat_) u : good h -> wf h z -> fStart z = 0 -> one_beside h z -> wp c h (result h z u) -> wp (t ← c; add z t natOne) h (result h z (u + 1)).
Proof.
  intros Hg Hz Fz H1 Hc. apply wp_bind. eapply wp_mono; [exact Hc|]. intros t h1 (Hg1 & Hf1 & Ht & L). assert (Ft : fStart t = 0) by (destruct L as [[_ E]|[_ E]]; congruence).
  assert (Hone : one_beside h1 z) by (eapply one_frame; [done|exact Hf1|by left]). destruct Hone as [Hone _].
  eapply wp_mono; [apply (add_spec h1 z t natOne u 1); first [done|by eapply frame_wf|starts]|]. intros r h2 Hr. eapply result_trans; [exact Hf1|by left|done].
Qed.

(** In place: the number plus 1 in the storage of an intermediate result. *)
Lemma wp_succ_in_place h z t h1 u : good h1 -> frame (all_of (fArray z)) h h1 -> located h z t -> fStart z = 0 -> one_beside h z -> nat_is h1 t u ->
  wp (add t t natOne) h1 (result h z (u + 1)).
Proof.
  intros Hg1 Hf L Fz H1 Ht. assert (Ft : fStart t = 0) by (destruct L as [[_ E]|[_ E]]; congruence). destruct (one_frame _ _ _ _ H1 Hf L) as [Hone _].
  eapply wp_mono; [apply (add_spec h1 t t natOne u 1); first [done|by eapply nat_wf|starts]|]. intros r h2 Hr. by eapply result_trans.
Qed.

(** The complement of a number that is not negative. *)
Lemma complement_value v u : Z.lnot v = u -> 0 <= u -> Z.abs v = u + 1 /\ (v <? 0) = true.
Proof. unfold Z.lnot. intros <- H. split; [lia|apply Z.ltb_lt; lia]. Qed.

Lemma lnot_nonneg X : X < 0 -> 0 <= Z.lnot X.
Proof. unfold Z.lnot. lia. Qed.

(** An operation on numbers that computes [f], in the storage of [z]. *)
Definition computes (op : nat_ -> nat_ -> nat_ -> B nat_) (f : Z -> Z -> Z) : Prop :=
  forall h z x y u v, good h -> wf h z -> fStart z = 0 -> one_beside h z -> nat_is h x u -> nat_is h y v -> fStart x = 0 -> fStart y = 0 -> wp (op z x y) h (result h z (f u v)).

Lemma computes_of op f : (forall h z x y u v, good h -> wf h z -> nat_is h x u -> nat_is h y v -> coherent z x -> coherent z y -> wp (op z x y) h (result h z (f u v))) -> computes op f.
Proof. intros Hop h z x y u v Hg Hz Fz H1 Hx Hy Fx Fy. apply Hop; (done || starts). Qed.

(** The operation, and then 1 more. *)
Definition plus_one (op : nat_ -> nat_ -> nat_ -> B nat_) z x y : B nat_ := t ← op z x y; add z t natOne.
Definition flipped (op : nat_ -> nat_ -> nat_ -> B nat_) z x y : B nat_ := op z y x.

Lemma computes_flip op f : computes op f -> computes (flipped op) (λ u v, f v u).
Proof. intros Hop h z x y u v Hg Hz Fz H1 Hx Hy Fx Fy. by apply Hop. Qed.

Lemma computes_succ op f : computes op f -> computes (plus_one op) (λ u v, f u v + 1).
Proof. intros Hop h z x y u v Hg Hz Fz H1 Hx Hy Fx Fy. apply wp_succ; [done|done|done|done|]. by apply Hop. Qed.

Lemma computes_pred op f h z x y u Y : computes op f -> good h -> wf h z -> fStart z = 0 -> one_beside h z -> nat_is h x u -> nat_is h y (Z.abs Y) -> fStart x = 0 -> fStart y = 0 -> Y < 0 ->
  wp (y1 ← pred_ y; op z x y1) h (result h z (f u (Z.lnot Y))).
Proof.
  intros Hop Hg Hz Fz H1 Hx Hy Fx Fy HY. eapply wp_pred; [done|by destruct H1|done|done|done|]. intros y1 h1 Hg1 Hf1 N1 F1. apply wp_later; [done|].
  apply Hop; try done; [by eapply frame_wf|by eapply one_frame; [|apply frame_nowhere|left]|by eapply nat_nowhere].
Qed.

Lemma computes_pred2 op f h z x y X Y : computes op f -> good h -> wf h z -> fStart z = 0 -> one_beside h z -> nat_is h x (Z.abs X) -> nat_is h y (Z.abs Y) -> fStart x = 0 -> fStart y = 0 -> X < 0 -> Y < 0 ->
  wp (x1 ← pred_ x; y1 ← pred_ y; op z x1 y1) h (result h z (f (Z.lnot X) (Z.lnot Y))).
Proof.
  intros Hop Hg Hz Fz H1 Hx Hy Fx Fy HX HY. eapply wp_pred; [done|by destruct H1|done|done|done|]. intros x1 h1 Hg1 Hf1 N1 F1. apply wp_later; [done|].
  apply computes_pred; try done; [by eapply frame_wf|by eapply one_frame; [|apply frame_nowhere|left]|by eapply nat_nowhere].
Qed.

Lemma computes_and : computes and_ Z.land.
Proof. apply computes_of. intros. by apply and_spec. Qed.
Lemma computes_or : computes or_ Z.lor.
Proof. apply computes_of. intros. by apply or_spec. Qed.
Lemma computes_xor : computes xor Z.lxor.
Proof. apply computes_of. intros. by apply xor_spec. Qed.
Lemma computes_andNot : computes andNot Z.ldiff.
Proof. apply computes_of. intros. by apply andNot_spec. Qed.
End Complement.

Section Bits.
Implicit Types (w : world) (m : list Z) (z x y : ptr) (h : words) (o : Int) (p : Pool) (X Y V n i b : Z).

(** What the operations on bits start from. *)
Lemma wp_two w m z x y X Y (f : bool -> bool -> nat_ -> nat_ -> nat_ -> W unit) V : models w m -> m !! x = Some X -> m !! y = Some Y -> (z < length m)%nat -> z <> intOne ->
  (forall oz xa ya, objs w !! z = Some oz -> nat_is (mem w) xa (Z.abs X) -> nat_is (mem w) ya (Z.abs Y) -> fStart xa = 0 -> fStart ya = 0 -> fStart (abs oz) = 0 -> wf (mem w) (abs oz) -> one_beside (mem w) (abs oz) ->
     wp (f (X <? 0) (Y <? 0) (abs oz) xa ya) w (λ _ w', models w' (<[z := V]> m))) ->
  wp (nx ← neg_ x; ny ← neg_ y; za ← abs_ z; xa ← abs_ x; ya ← abs_ y; f nx ny za xa ya) w (λ _ w', models w' (<[z := V]> m)).
Proof.
  intros Hm Hx Hy Hz Hz1 Hf. destruct (lookup_lt_is_Some_2 m z Hz) as [Z0 HZ]. object Hm HZ as oz Hoz Nz Sz Wz Fz. object Hm Hx as ox Hox Nx Sx Wx Fx. object Hm Hy as oy Hoy Ny Sy Wy Fy.
  do 2 (eapply wp_neg; [done|]). do 3 (eapply wp_abs; [done|]). rewrite Sx, Sy. apply Hf; try done. by apply (one_beside_object w m z).
Qed.

Lemma wp_assign_pos w m z o V c : models w m -> objs w !! z = Some o -> z <> intOne -> 0 <= V -> wp c (mem w) (result (mem w) (abs o) V) -> wp (assign z c false) w (λ _ w', models w' (<[z := V]> m)).
Proof. intros Hm Hz Hz1 HV Hc. apply (wp_assign w m z o V); try done; [by rewrite Z.abs_eq by lia|symmetry; apply Z.ltb_ge; lia]. Qed.

Lemma wp_assign_not w m z o V c : models w m -> objs w !! z = Some o -> z <> intOne -> V < 0 -> wp c (mem w) (result (mem w) (abs o) (Z.lnot V + 1)) -> wp (assign z c true) w (λ _ w', models w' (<[z := V]> m)).
Proof. intros Hm Hz Hz1 HV Hc. destruct (complement_value V _ eq_refl (lnot_nonneg V HV)) as [E1 E2]. apply (wp_assign w m z o V); try done. by rewrite E1. Qed.

Lemma lxor_sign X Y : ~ (0 <= X <-> 0 <= Y) -> Z.lxor X Y < 0.
Proof. intros H. apply Z.lt_nge. intros H0. by apply H, Z.lxor_nonneg. Qed.

Lemma And_spec w m z x y X Y : models w m -> m !! x = Some X -> m !! y = Some Y -> (z < length m)%nat -> z <> intOne -> wp (And z x y) w (λ _ w', models w' (<[z := Z.land X Y]> m)).
Proof.
  intros Hm Hx Hy Hz Hz1. unfold And. pose proof (models_good _ _ Hm) as Hg. eapply (wp_two w m z x y X Y (λ nx ny za xa ya, _)); try done. intros oz xa ya Hoz Nx Ny Fx Fy Fz Wz H1.
  destruct (Z.ltb_spec X 0) as [HX|HX], (Z.ltb_spec Y 0) as [HY|HY]; cbn [eqb]; rewrite ?(Z.abs_eq X) in Nx by lia; rewrite ?(Z.abs_eq Y) in Ny by lia.
  - apply (wp_assign_not w m z oz); [done| done| done|apply Z.land_neg; lia|]. rewrite Z.lnot_land. by apply (computes_pred2 _ _ _ _ _ _ _ _ (computes_succ _ _ computes_or)).
  - apply (wp_assign_pos w m z oz); [done| done| done|apply Z.land_nonneg; lia|]. rewrite Z.land_comm, <- (Z.lnot_involutive X), <- Z.ldiff_land. by apply (computes_pred _ _ _ _ _ _ _ _ computes_andNot).
  - apply (wp_assign_pos w m z oz); [done| done| done|apply Z.land_nonneg; lia|]. rewrite <- (Z.lnot_involutive Y), <- Z.ldiff_land. by apply (computes_pred _ _ _ _ _ _ _ _ computes_andNot).
  - apply (wp_assign_pos w m z oz); [done| done| done|apply Z.land_nonneg; lia|]. by apply computes_and.
Qed.

Lemma AndNot_spec w m z x y X Y : models w m -> m !! x = Some X -> m !! y = Some Y -> (z < length m)%nat -> z <> intOne -> wp (AndNot z x y) w (λ _ w', models w' (<[z := Z.ldiff X Y]> m)).
Proof.
  intros Hm Hx Hy Hz Hz1. unfold AndNot. pose proof (models_good _ _ Hm) as Hg. eapply (wp_two w m z x y X Y (λ nx ny za xa ya, _)); try done. intros oz xa ya Hoz Nx Ny Fx Fy Fz Wz H1.
  destruct (Z.ltb_spec X 0) as [HX|HX], (Z.ltb_spec Y 0) as [HY|HY]; cbn [eqb]; rewrite ?(Z.abs_eq X) in Nx by lia; rewrite ?(Z.abs_eq Y) in Ny by lia.
  - apply (wp_assign_pos w m z oz); [done| done| done|apply Z.ldiff_nonneg; lia|]. rewrite <- (Z.lnot_involutive X), Z.ldiff_land, Z.land_comm, <- Z.ldiff_land. by apply (computes_pred2 _ _ _ _ _ _ _ _ (computes_flip _ _ computes_andNot)).
  - apply (wp_assign_not w m z oz); [done| done| done|apply Z.ldiff_neg; lia|]. rewrite Z.ldiff_land, Z.lnot_land, Z.lnot_involutive. by apply (computes_pred _ _ _ _ _ _ _ _ (computes_succ _ _ (computes_flip _ _ computes_or))).
  - apply (wp_assign_pos w m z oz); [done| done| done|apply Z.ldiff_nonneg; lia|]. rewrite Z.ldiff_land. by apply (computes_pred _ _ _ _ _ _ _ _ computes_and).
  - apply (wp_assign_pos w m z oz); [done| done| done|apply Z.ldiff_nonneg; lia|]. by apply computes_andNot.
Qed.

Lemma Or_spec w m z x y X Y : models w m -> m !! x = Some X -> m !! y = Some Y -> (z < length m)%nat -> z <> intOne -> wp (Or z x y) w (λ _ w', models w' (<[z := Z.lor X Y]> m)).
Proof.
  intros Hm Hx Hy Hz Hz1. unfold Or. pose proof (models_good _ _ Hm) as Hg. eapply (wp_two w m z x y X Y (λ nx ny za xa ya, _)); try done. intros oz xa ya Hoz Nx Ny Fx Fy Fz Wz H1.
  destruct (Z.ltb_spec X 0) as [HX|HX], (Z.ltb_spec Y 0) as [HY|HY]; cbn [eqb]; rewrite ?(Z.abs_eq X) in Nx by lia; rewrite ?(Z.abs_eq Y) in Ny by lia.
  - apply (wp_assign_not w m z oz); [done| done| done|apply Z.lor_neg; lia|]. rewrite Z.lnot_lor. by apply (computes_pred2 _ _ _ _ _ _ _ _ (computes_succ _ _ computes_and)).
  - apply (wp_assign_not w m z oz); [done| done| done|apply Z.lor_neg; lia|]. rewrite Z.lnot_lor, <- Z.ldiff_land. by apply (computes_pred _ _ _ _ _ _ _ _ (computes_succ _ _ (computes_flip _ _ computes_andNot))).
  - apply (wp_assign_not w m z oz); [done| done| done|apply Z.lor_neg; lia|]. rewrite Z.lor_comm, Z.lnot_lor, <- Z.ldiff_land. by apply (computes_pred _ _ _ _ _ _ _ _ (computes_succ _ _ (computes_flip _ _ computes_andNot))).
  - apply (wp_assign_pos w m z oz); [done| done| done|apply Z.lor_nonneg; lia|]. by apply computes_or.
Qed.

Lemma Xor_spec w m z x y X Y : models w m -> m !! x = Some X -> m !! y = Some Y -> (z < length m)%nat -> z <> intOne -> wp (Xor z x y) w (λ _ w', models w' (<[z := Z.lxor X Y]> m)).
Proof.
  intros Hm Hx Hy Hz Hz1. unfold Xor. pose proof (models_good _ _ Hm) as Hg. eapply (wp_two w m z x y X Y (λ nx ny za xa ya, _)); try done. intros oz xa ya Hoz Nx Ny Fx Fy Fz Wz H1.
  destruct (Z.ltb_spec X 0) as [HX|HX], (Z.ltb_spec Y 0) as [HY|HY]; cbn [eqb]; rewrite ?(Z.abs_eq X) in Nx by lia; rewrite ?(Z.abs_eq Y) in Ny by lia.
  - apply (wp_assign_pos w m z oz); [done| done| done|apply Z.lxor_nonneg; lia|]. rewrite <- Z.lxor_lnot_lnot. by apply (computes_pred2 _ _ _ _ _ _ _ _ computes_xor).
  - apply (wp_assign_not w m z oz); [done| done| done|apply lxor_sign; lia|]. rewrite Z.lxor_comm, Z.lnot_lxor_r. by apply (computes_pred _ _ _ _ _ _ _ _ (computes_succ _ _ computes_xor)).
  - apply (wp_assign_not w m z oz); [done| done| done|apply lxor_sign; lia|]. rewrite Z.lnot_lxor_r. by apply (computes_pred _ _ _ _ _ _ _ _ (computes_succ _ _ computes_xor)).
  - apply (wp_assign_pos w m z oz); [done| done| done|apply Z.lxor_nonneg; lia|]. by apply computes_xor.
Qed.


Lemma Not_spec w m z x X : models w m -> m !! x = Some X -> (z < length m)%nat -> z <> intOne -> wp (Not z x) w (λ _ w', models w' (<[z := Z.lnot X]> m)).
Proof.
  intros Hm Hx Hz Hz1. unfold Not. pose proof (models_good _ _ Hm) as Hg. destruct (lookup_lt_is_Some_2 m z Hz) as [Z0 HZ]. object Hm HZ as oz Hoz Nz Sz Wz Fz. object Hm Hx as ox Hox Nx Sx Wx Fx.
  eapply wp_neg; [done|]. do 2 (eapply wp_abs; [done|]). rewrite Sx. destruct (one_beside_object w m z oz Hm Hoz Hz1) as [H1 _]. destruct (Z.ltb_spec X 0) as [HX|HX].
  - apply (wp_assign_pos w m z oz); [done..|by apply lnot_nonneg|]. eapply wp_mono; [eapply wpx_no_panic; [apply (sub_spec _ _ _ _ (Z.abs X) 1); (done || starts)|]|]; [intros ? [? _]; lia|].
    intros r h [_ Hr]. unfold Z.lnot. by replace (Z.pred (- X)) with (Z.abs X - 1) by lia.
  - apply (wp_assign_not w m z oz); [done..|unfold Z.lnot; lia|]. rewrite Z.lnot_involutive. rewrite Z.abs_eq in Nx by done. apply add_spec; (done || starts).
Qed.

(** |x| - 1 in the storage of z, from which the operations on one negative operand go on. *)
Lemma wp_pred_in {A} w m z oz xa X (K : nat_ -> B A) Q : models w m -> objs w !! z = Some oz -> z <> intOne -> fStart (abs oz) = 0 -> wf (mem w) (abs oz) -> nat_is (mem w) xa (Z.abs X) -> fStart xa = 0 -> X < 0 ->
  (forall t h, good h -> frame (all_of (fArray (abs oz))) (mem w) h -> located (mem w) (abs oz) t -> nat_is h t (Z.lnot X) -> fStart t = 0 -> wp (K t) h Q) ->
  wp (t ← sub_ (abs oz) xa natOne; K t) (mem w) Q.
Proof.
  intros Hm Hz Hz1 Fz Wz Nx Fx HX HK. destruct (one_beside_object w m z oz Hm Hz Hz1) as [H1 _]. apply wp_bind.
  eapply wp_mono; [eapply wpx_no_panic; [apply (sub_spec _ _ _ _ (Z.abs X) 1); first [done|apply Hm|starts]|]|]; [intros ? [? _]; lia|].
  intros t h [_ (Hg & Hf & Hn & L)]. apply HK; [done|done|done| |destruct L as [[_ E]|[_ E]]; congruence]. unfold Z.lnot. by replace (Z.pred (- X)) with (Z.abs X - 1) by lia.
Qed.

Lemma lnot_shiftr X n : 0 <= n -> Z.lnot (Z.shiftr X n) = Z.shiftr (Z.lnot X) n.
Proof. apply Z.lnot_shiftr. Qed.

Lemma Rsh_spec w m z x X n : models w m -> m !! x = Some X -> (z < length m)%nat -> z <> intOne -> 0 <= n -> wp (Rsh z x n) w (λ _ w', models w' (<[z := Z.shiftr X n]> m)).
Proof.
  intros Hm Hx Hz Hz1 Hn. unfold Rsh. pose proof (models_good _ _ Hm) as Hg. destruct (lookup_lt_is_Some_2 m z Hz) as [Z0 HZ]. object Hm HZ as oz Hoz Nz Sz Wz Fz. object Hm Hx as ox Hox Nx Sx Wx Fx.
  eapply wp_neg; [done|]. do 2 (eapply wp_abs; [done|]). rewrite Sx. destruct (Z.ltb_spec X 0) as [HX|HX].
  - apply (wp_assign_not w m z oz); [done..|by apply Z.shiftr_neg|]. rewrite lnot_shiftr, Z.shiftr_div_pow2 by done.
    eapply (wp_pred_in w m z oz); try done. intros t h Hg1 Hf1 L Nt Ft. apply wp_bind. eapply wp_mono; [apply (shr_spec h t t (Z.lnot X) n); first [done|by eapply nat_wf|starts]|].
    intros t2 h2 (Hg2 & Hf2 & N2 & L2). destruct (result_trans _ (abs oz) t h _ t2 h2 Hf1 L (conj Hg2 (conj Hf2 (conj N2 L2)))) as (_ & Hf02 & _ & L02).
    eapply wp_succ_in_place; [done|done|done|done|by apply (one_beside_object w m z)|done].
  - apply (wp_assign_pos w m z oz); [done..|by apply Z.shiftr_nonneg|]. rewrite Z.abs_eq in Nx by done. rewrite Z.shiftr_div_pow2 by done. apply shr_spec; (done || starts).
Qed.

(** A left shift of an object onto itself by whole words needs that the number is below the words it moves by. *)
Definition shift_apart z x X n : Prop := n mod 64 <> 0 \/ n = 0 \/ z <> x \/ Z.abs X < 2 ^ n.

Lemma Lsh_spec w m z x X n : models w m -> m !! x = Some X -> (z < length m)%nat -> z <> intOne -> 0 <= n -> shift_apart z x X n -> wp (Lsh z x n) w (λ _ w', models w' (<[z := Z.shiftl X n]> m)).
Proof.
  intros Hm Hx Hz Hz1 Hn Hap. unfold Lsh. pose proof (models_good _ _ Hm) as Hg. destruct (lookup_lt_is_Some_2 m z Hz) as [Z0 HZ]. object Hm HZ as oz Hoz Nz Sz Wz Fz.
  destruct (models_lookup _ _ _ _ Hm Hx) as (ox & Hox & Kx). destruct (operand _ _ _ _ _ Hm Kx Hox) as (Nx & Sx & Wx & Fx).
  do 2 (eapply wp_abs; [done|]). pose proof (Z.pow_pos_nonneg 2 n ltac:(lia) Hn) as Hp. rewrite Z.shiftl_mul_pow2 by done. pose proof (wf_len _ _ Wx) as Hl.
  assert (Hside : n mod 64 <> 0 \/ n = 0 \/ fArray (abs oz) <> fArray (abs ox) \/ fCount (abs ox) <= n / 64).
  { destruct (decide (n mod 64 = 0)) as [En|]; [|by left]. right. pose proof (Z.div_mod n 64 ltac:(lia)) as Ed. pose proof (Z.div_pos n 64 Hn ltac:(lia)) as Hd.
    assert (Hsmall : Z.abs X < 2 ^ n -> fCount (abs ox) <= n / 64).
    { intros Hlt. destruct (Z.le_gt_cases (fCount (abs ox)) (n / 64)) as [|Hgt]; [done|]. pose proof (num_top _ _ (fCount (abs ox)) (proj2 Hg) ltac:(lia) (proj2 (proj2 Nx) ltac:(lia))) as Ht. rewrite (nat_value _ _ _ Nx) in Ht.
      pose proof (pw_le (n / 64) (fCount (abs ox) - 1) ltac:(lia)) as Hpw. assert (E : pw (n / 64) = 2 ^ n) by (unfold pw; f_equal; lia). rewrite E in Hpw. lia. }
    destruct Hap as [?|[?|[Hne|Hlt]]]; [done|by left| |auto]. right. destruct (decide (fCount (abs ox) = 0)) as [E0|]; [right; lia|]. left. symmetry. apply not_eq_sym. intros E. symmetry in E. revert E. apply (object_own w m z x oz ox X); first [done|lia|congruence]. }
  apply (wp_compute_abs w z oz _ (Z.abs (X * 2 ^ n))); [done| |].
  { rewrite Z.abs_mul, (Z.abs_eq (2 ^ n)) by lia. apply shl_spec; (done || starts). }
  intros r h Hr. destruct (half_neg w (natPool w) z oz r h x ox Hoz Hox) as (ox' & Hx' & Ex). eapply wp_neg; [done|]. apply (wp_sign w m z oz (X * 2 ^ n) r h); try done. rewrite Ex, Sx.
  destruct (Z.ltb_spec X 0), (Z.ltb_spec (X * 2 ^ n) 0); (done || nia).
Qed.

Lemma odd_bit h (x : nat_) u : good h -> nat_is h x u -> 0 < fCount x -> wp (x0 ← get_Item x 0; mret (x0 &. 1)) h (λ v h', v = Z.b2z (Z.testbit u 0) /\ h' = h).
Proof.
  intros Hg Hn Hl. apply wp_bind, wp_word; [by eapply nat_wf|lia|]. apply wp_ret. split; [|done]. rewrite (nat_testbit h x u 0 Hg Hn) by lia. change (0 / 64) with 0. change (0 mod 64) with 0. rewrite word0_low by lia.
  rewrite Z.bit0_mod. change (word h x 0 &. 1) with (Z.land (word h x 0) (Z.ones 1)). by rewrite Z.land_ones by lia.
Qed.

(** The lowest bit of a number and of its absolute value are the same. *)
Lemma abs_odd X : Z.testbit (Z.abs X) 0 = Z.testbit X 0.
Proof. rewrite !Z.bit0_odd. destruct (Z.abs_eq_or_opp X) as [-> | ->]; [done|apply Z.odd_opp]. Qed.

Lemma Bit_spec w m x X i : models w m -> m !! x = Some X ->
  if i <? 0 then Bit x i w = Panic Explicit else wp (Bit x i) w (λ v w', v = Z.b2z (Z.testbit X i) /\ exists h', frame nowhere (mem w) h' /\ w' = World h' (objs w) (natPool w)).
Proof.
  intros Hm Hx. pose proof (models_good _ _ Hm) as Hg. object Hm Hx as ox Hox Nx Sx Wx Fx. destruct (Z.ltb_spec i 0) as [Hi|Hi].
  { unfold Bit. rewrite (bind_Val _ _ _ _ _ (abs_val _ _ _ Hox)). destruct (Z.eqb_spec i 0); [lia|]. by rewrite (proj2 (Z.ltb_lt i 0)) by done. }
  assert (Hsame : exists h', frame nowhere (mem w) h' /\ w = World h' (objs w) (natPool w)) by (exists (mem w); split; [apply frame_refl|by destruct w]).
  unfold Bit. eapply wp_abs; [done|]. destruct (Z.eqb_spec i 0) as [->|H0].
  - eapply wp_on_val; [by apply (nat_len _ _ (Z.abs X))|]. pose proof (nat_zero _ _ _ Hg Nx) as Hz. pose proof (wf_len _ _ Wx). destruct (Z.ltb_spec 0 (fCount (abs ox))) as [Hl|Hl].
    + pose proof (odd_bit _ _ _ Hg Nx Hl) as Ho. destruct (wp_val _ _ _ Ho) as (v & h' & Ev & -> & ->). rewrite abs_odd in Ev.
      destruct (get_Item (abs ox) 0 (mem w)) as [[x0 h1]| |] eqn:E0; unfold mbind, M_bind in Ev; rewrite E0 in Ev; [|done| done]. injection Ev as Ev ->.
      eapply wp_on_val; [exact E0|]. apply wp_ret. split; [exact Ev|exact Hsame].
    + assert (X = 0) as -> by lia. apply wp_ret. split; [done|exact Hsame].
  - rewrite (proj2 (Z.ltb_ge i 0)) by done. eapply wp_neg; [done|]. rewrite Sx. destruct (Z.ltb_spec X 0) as [HX|HX].
    + destruct (models_one _ _ Hm) as [H1 _]. destruct (models_object _ _ _ _ Hm H1) as (v & Hv & Hok). assert (v = 1) as -> by (destruct (models_one _ _ Hm); congruence).
      apply wp_bind, wp_on. eapply wp_mono; [apply (wp_pred _ _ X _ (λ v h', v = Z.b2z (Z.testbit (Z.lnot X) i) /\ frame nowhere (mem w) h')); [done|by destruct Hok|done|done|done|]|].
      * intros x1 h1 Hg1 Hf1 N1 F1. eapply wp_of_val; [by apply (bit_spec _ _ (Z.lnot X))|]. done.
      * intros v h' [-> Hf]. apply wp_ret. split; [rewrite Z.lnot_spec by done; by destruct (Z.testbit X i)|]. exists h'. done.
    + rewrite Z.abs_eq in Nx by done. eapply wp_of_val; [apply on_val; by apply (bit_spec _ _ X)|]. split; [done|exact Hsame].
Qed.

(** The bits of a negative number are those of its complement, exchanged. *)
Lemma setbit_lnot X i : 0 <= i -> Z.setbit (Z.lnot X) i = Z.lnot (Z.clearbit X i) /\ Z.clearbit (Z.lnot X) i = Z.lnot (Z.setbit X i).
Proof.
  intros Hi. split; apply Z.bits_inj'; intros j Hj; rewrite Z.lnot_spec by done.
  - rewrite Z.setbit_eqb, Z.clearbit_eqb, Z.lnot_spec by done. destruct (i =? j), (Z.testbit X j); done.
  - rewrite Z.setbit_eqb, Z.clearbit_eqb, Z.lnot_spec by done. destruct (i =? j), (Z.testbit X j); done.
Qed.

Lemma setBit_value h (z x : nat_) u i b : good h -> wf h z -> nat_is h x u -> coherent z x -> 0 <= i -> b = 0 \/ b = 1 ->
  wp (setBit z x i b) h (result h z (if b =? 1 then Z.setbit u i else Z.clearbit u i)).
Proof.
  intros Hg Hz Hx Hc Hi Hb. eapply wp_mono; [eapply wpx_no_panic; [by apply (setBit_spec h z x u i b)|]|]; [intros p (? & ? & _); destruct Hb; done|].
  intros r h' [[-> Hr]|[-> Hr]]; exact Hr.
Qed.

Lemma setbit_sign X i : 0 <= i -> (Z.setbit X i <? 0) = (X <? 0) /\ (Z.clearbit X i <? 0) = (X <? 0).
Proof.
  intros Hi. assert (H2 : 0 <= Z.shiftl 1 i) by (apply Z.shiftl_nonneg; lia). unfold Z.setbit, Z.clearbit. split.
  - destruct (Z.ltb_spec X 0); [apply Z.ltb_lt, Z.lor_neg; auto|apply Z.ltb_ge, Z.lor_nonneg; auto].
  - destruct (Z.ltb_spec X 0); [apply Z.ltb_lt, Z.ldiff_neg; auto|apply Z.ltb_ge, Z.ldiff_nonneg; auto].
Qed.

Lemma SetBit_spec w m z x X i b : models w m -> m !! x = Some X -> (z < length m)%nat -> z <> intOne -> 0 <= i -> b = 0 \/ b = 1 ->
  wp (SetBit z x i b) w (λ _ w', models w' (<[z := if b =? 1 then Z.setbit X i else Z.clearbit X i]> m)).
Proof.
  intros Hm Hx Hz Hz1 Hi Hb. unfold SetBit. pose proof (models_good _ _ Hm) as Hg. destruct (lookup_lt_is_Some_2 m z Hz) as [Z0 HZ]. object Hm HZ as oz Hoz Nz Sz Wz Fz. object Hm Hx as ox Hox Nx Sx Wx Fx.
  rewrite (proj2 (Z.ltb_ge i 0)) by done. eapply wp_neg; [done|]. do 2 (eapply wp_abs; [done|]). rewrite Sx. set (V := if b =? 1 then Z.setbit X i else Z.clearbit X i). destruct (setbit_sign X i Hi) as [S1 S2].
  assert (HV : (V <? 0) = (X <? 0)) by (unfold V; by destruct (b =? 1)). destruct (setbit_lnot X i Hi) as [E1 E2]. assert (Hv : Z.lnot V = if b ^. 1 =? 1 then Z.setbit (Z.lnot X) i else Z.clearbit (Z.lnot X) i) by (unfold V; destruct Hb as [-> | ->]; [exact (eq_sym E1)|exact (eq_sym E2)]).
  destruct (Z.ltb_spec X 0) as [HX|HX].
  - apply Z.ltb_lt in HV. destruct (complement_value V _ eq_refl (lnot_nonneg V HV)) as [Ea Es]. apply (wp_compute_abs w z oz _ (Z.abs V)); [done| |].
    + rewrite Ea. eapply (wp_pred_in w m z oz); try done. intros t h Hg1 Hf1 L Nt Ft. apply wp_bind. eapply wp_mono; [apply (setBit_value h t t (Z.lnot X) i (b ^. 1)); first [done|by eapply nat_wf|starts|by destruct Hb as [-> | ->]; [right|left]]|].
      intros t2 h2 (Hg2 & Hf2 & N2 & L2). destruct (result_trans _ (abs oz) t h _ t2 h2 Hf1 L (conj Hg2 (conj Hf2 (conj N2 L2)))) as (_ & Hf02 & _ & L02).
      apply wp_succ_in_place with (t := t2); [done|done|done|done|by apply (one_beside_object w m z)|]. by rewrite Hv.
    + intros r h Hr. destruct (len_half w (natPool w) z oz V r h Hoz) as [El Hl]; [by destruct Hr|by destruct Hr as (_ & _ & ? & _)|]. apply wp_bind. eapply wp_of_val; [exact El|]. apply (wp_sign w m z oz V r h); try done. rewrite Hl, Es. destruct (Z.eqb_spec V 0); (done || lia).
  - apply Z.ltb_ge in HV. apply (wp_assign_pos w m z oz); try done. rewrite Z.abs_eq in Nx by done. apply setBit_value; (done || starts).
Qed.

(** ** Square roots *)

Lemma Sqrt_spec w m z x X : models w m -> m !! x = Some X -> (z < length m)%nat -> z <> intOne ->
  if X <? 0 then Sqrt z x w = Panic Explicit else wp (Sqrt z x) w (λ _ w', models w' (<[z := Z.sqrt X]> m)).
Proof.
  intros Hm Hx Hz Hz1. pose proof (models_good _ _ Hm) as Hg. destruct (lookup_lt_is_Some_2 m z Hz) as [Z0 HZ]. destruct (models_lookup _ _ _ _ Hm HZ) as (oz & Hoz & Kz). destruct (operand _ _ _ _ _ Hm Kz Hoz) as (Nz & Sz & Wz & Fz).
  destruct (models_lookup _ _ _ _ Hm Hx) as (ox & Hox & Kx). destruct (operand _ _ _ _ _ Hm Kx Hox) as (Nx & Sx & Wx & Fx). destruct (Z.ltb_spec X 0) as [HX|HX].
  { unfold Sqrt. by rewrite (bind_Val _ _ _ _ _ (neg_val _ _ _ Hox)), Sx. }
  unfold Sqrt. eapply wp_neg; [done|]. rewrite Sx. apply wp_bind. eapply wp_set_neg; [done|]. set (w1 := World _ _ _).
  assert (Hz' : objs w1 !! z = Some (MkInt false (abs oz))) by (by apply list_lookup_insert_eq, (lookup_lt_Some _ _ _ Hoz)).
  assert (Hx' : exists ox', objs w1 !! x = Some ox' /\ abs ox' = abs ox).
  { destruct (decide (x = z)) as [->|Hne]; [exists (MkInt false (abs oz)); split; [done|]; by simplify_eq|]. exists ox. cbn. by rewrite list_lookup_insert_ne. }
  destruct Hx' as (ox' & Hx' & Ex). eapply wp_abs; [done|]. eapply wp_abs; [done|]. cbn [abs]. rewrite Ex. destruct (one_beside_object w m z oz Hm Hoz Hz1) as [H1 _]. rewrite Z.abs_eq in Nx by done.
  destruct Kz as (_ & _ & _ & Pz). destruct Kx as (_ & _ & _ & Px).
  pose proof (sqrt_spec (mem w) (natPool w) (abs oz) (abs ox) X Hg (models_pool _ _ Hm) Wz Nx H1 Fz Fx Pz Px) as Hr. apply wp_val in Hr. destruct Hr as ([r p] & h & Er & (Hg' & Hf & Hn & L & Hp & Hpa)).
  apply wp_bind. eapply wp_of_val; [unfold on_sqrt; change (mem w1) with (mem w); change (natPool w1) with (natPool w); by rewrite Er|]. eapply wp_of_val; [apply set_abs_val; exact Hz'|]. subst w1. cbn [mem objs natPool neg]. rewrite list_insert_insert_eq.
  pose proof (Z.sqrt_nonneg X). eapply (models_divided w m z oz (Z.sqrt X) r h p false); try done; [cbn; tauto|by rewrite Z.abs_eq by lia|symmetry; apply Z.ltb_ge; lia].
Qed.

(** A bit that is neither 0 nor 1. *)
Lemma setBit_panic h (z x : nat_) u i b : good h -> wf h z -> nat_is h x u -> coherent z x -> 0 <= i -> b <> 0 -> b <> 1 -> setBit z x i b h = Panic Explicit.
Proof. intros Hg Hz Hx Hc Hi H0 H1. eapply wpx_panic; [by apply (setBit_spec h z x u i b)|by intros r h' [[? _]|[? _]]|by intros q (_ & _ & ->)]. Qed.

Lemma lxor_1 b : b <> 0 -> b <> 1 -> b ^. 1 <> 0 /\ b ^. 1 <> 1.
Proof. intros H0 H1. split; intros E; [apply Z.lxor_eq in E; lia|]. apply H0. rewrite <- (Z.lxor_0_r b), <- (Z.lxor_nilpotent 1), <- Z.lxor_assoc, E. done. Qed.

Lemma SetBit_panic w m z x X i b : models w m -> m !! x = Some X -> (z < length m)%nat -> z <> intOne -> (i < 0 \/ (b <> 0 /\ b <> 1)) -> SetBit z x i b w = Panic Explicit.
Proof.
  intros Hm Hx Hz Hz1 Hb. unfold SetBit. destruct (Z.ltb_spec i 0) as [Hi|Hi]; [done|]. destruct Hb as [|[Hb0 Hb1]]; [lia|]. pose proof (models_good _ _ Hm) as Hg.
  destruct (lookup_lt_is_Some_2 m z Hz) as [Z0 HZ]. object Hm HZ as oz Hoz Nz Sz Wz Fz. object Hm Hx as ox Hox Nx Sx Wx Fx.
  rewrite (bind_Val _ _ _ _ _ (neg_val _ _ _ Hox)), (bind_Val _ _ _ _ _ (abs_val _ _ _ Hoz)), (bind_Val _ _ _ _ _ (abs_val _ _ _ Hox)), Sx. destruct (Z.ltb_spec X 0) as [HX|HX].
  - assert (Ht : wp (t ← sub_ (abs oz) (abs ox) natOne; mret t) (mem w) (λ t h, good h /\ nat_is h t (Z.lnot X) /\ fStart t = 0)) by (eapply (wp_pred_in w m z oz); [done..|]; intros t h Hgh _ _ Nt Ft; by apply wp_ret).
    destruct (wp_val _ _ _ Ht) as (t & h & Et & Hgh & Nt & Ft). destruct (sub_ (abs oz) (abs ox) natOne (mem w)) as [[t' h1]| |] eqn:E; unfold mbind, M_bind in Et; rewrite E in Et; [|done| done].
    injection Et as -> ->. destruct (lxor_1 b Hb0 Hb1) as [? ?]. unfold mbind, M_bind, on. by rewrite E, (setBit_panic h t t (Z.lnot X)) by (first [done|by eapply nat_wf|starts]).
  - unfold assign, mbind, M_bind, on. rewrite (setBit_panic _ _ _ (Z.abs X)) by (first [done|starts]). done.
Qed.
End Bits.

(** ** Programs *)

Inductive arith : Type := OAdd | OSub | OMul | OQuo | ORem | ODiv | OMod | OAnd | OAndNot | OOr | OXor.
Inductive command : Type :=
  | CSetInt64 (z : ptr) (v : Z) | CSetUint64 (z : ptr) (v : Z) | CSetBytes (z : ptr) (buf : list Z)
  | CSet (z x : ptr) | CAbs (z x : ptr) | CNeg (z x : ptr) | CNot (z x : ptr) | CSqrt (z x : ptr)
  | CLsh (z x : ptr) (n : Z) | CRsh (z x : ptr) (n : Z) | CSetBit (z x : ptr) (i b : Z)
  | CMulRange (z : ptr) (a b : Z) | CBinomial (z : ptr) (n k : nat)
  | CArith (op : arith) (z x y : ptr) | CQuoRem (z x y r : ptr) | CDivMod (z x y r : ptr).

Definition exec_arith (op : arith) : ptr -> ptr -> ptr -> W unit :=
  match op with
  | OAdd => Add | OSub => Sub | OMul => Mul | OQuo => Quo | ORem => Rem | ODiv => Div | OMod => Mod
  | OAnd => And | OAndNot => AndNot | OOr => Or | OXor => Xor
  end.
Definition exec (c : command) : W unit :=
  match c with
  | CSetInt64 z v => SetInt64 z v | CSetUint64 z v => SetUint64 z v | CSetBytes z buf => SetBytes z buf
  | CSet z x => Set_ z x | CAbs z x => Abs z x | CNeg z x => Neg z x | CNot z x => Not z x | CSqrt z x => Sqrt z x
  | CLsh z x n => Lsh z x n | CRsh z x n => Rsh z x n | CSetBit z x i b => SetBit z x i b
  | CMulRange z a b => MulRange z a b | CBinomial z n k => Binomial z (Z.of_nat n) (Z.of_nat k)
  | CArith op z x y => exec_arith op z x y | CQuoRem z x y r => QuoRem z x y r | CDivMod z x y r => DivMod z x y r
  end.
Fixpoint run (cs : list command) : W unit := match cs with [] => mret tt | c :: cs => exec c;; run cs end.

(** What they do to the integers: the specification of the package. *)
Definition arith_value (op : arith) (X Y : Z) : option Z :=
  match op with
  | OAdd => Some (X + Y) | OSub => Some (X - Y) | OMul => Some (X * Y)
  | OAnd => Some (Z.land X Y) | OAndNot => Some (Z.ldiff X Y) | OOr => Some (Z.lor X Y) | OXor => Some (Z.lxor X Y)
  | OQuo => if Y =? 0 then None else Some (Z.quot X Y)
  | ORem => if Y =? 0 then None else Some (Z.rem X Y)
  | ODiv => if Y =? 0 then None else Some (ediv X Y)
  | OMod => if Y =? 0 then None else Some (emod X Y)
  end.

#[export] Instance shift_apart_dec z x X n : Decision (shift_apart z x X n).
Proof. unfold shift_apart. apply _. Defined.

Definition upd_ptr (m : list Z) (z : ptr) (v : Z) : option (list Z) := if decide (z <> intOne /\ (z < length m)%nat) then Some (<[z := v]> m) else None.
Definition when (P : Prop) `{Decision P} {A} (o : option A) : option A := if decide P then o else None.

Definition step (m : list Z) (c : command) : option (list Z) :=
  match c with
  | CSetInt64 z v => when (- 2 ^ 63 <= v < 2 ^ 63) (upd_ptr m z v)
  | CSetUint64 z v => when (0 <= v < 2 ^ 64) (upd_ptr m z v)
  | CSetBytes z buf => when (Forall (λ b, 0 <= b < 2 ^ 8) buf) (upd_ptr m z (order_value true buf))
  | CSet z x => X ← m !! x; upd_ptr m z X
  | CAbs z x => X ← m !! x; upd_ptr m z (Z.abs X)
  | CNeg z x => X ← m !! x; upd_ptr m z (- X)
  | CNot z x => X ← m !! x; upd_ptr m z (Z.lnot X)
  | CSqrt z x => X ← m !! x; when (0 <= X) (upd_ptr m z (Z.sqrt X))
  | CLsh z x n => X ← m !! x; when (0 <= n /\ shift_apart z x X n) (upd_ptr m z (Z.shiftl X n))
  | CRsh z x n => X ← m !! x; when (0 <= n) (upd_ptr m z (Z.shiftr X n))
  | CSetBit z x i b => X ← m !! x; when (0 <= i /\ (b = 0 \/ b = 1)) (upd_ptr m z (if b =? 1 then Z.setbit X i else Z.clearbit X i))
  | CMulRange z a b => when (- 2 ^ 63 <= a < 2 ^ 63 /\ - 2 ^ 63 <= b < 2 ^ 63) (upd_ptr m z (range_product a b))
  | CBinomial z n k => when (Z.of_nat n < 2 ^ 63 - 1 /\ Z.of_nat k < 2 ^ 63) (upd_ptr m z (binomial n k))
  | CArith op z x y => X ← m !! x; Y ← m !! y; V ← arith_value op X Y; upd_ptr m z V
  | CQuoRem z x y r => X ← m !! x; Y ← m !! y; when (Y <> 0 /\ z <> r) (m1 ← upd_ptr m r (Z.rem X Y); upd_ptr m1 z (Z.quot X Y))
  | CDivMod z x y r => X ← m !! x; Y ← m !! y; when (Y <> 0 /\ z <> r /\ r <> y) (m1 ← upd_ptr m r (emod X Y); upd_ptr m1 z (ediv X Y))
  end.
Fixpoint steps (m : list Z) (cs : list command) : option (list Z) := match cs with [] => Some m | c :: cs => m1 ← step m c; steps m1 cs end.

Section Programs.
Implicit Types (w : world) (m M : list Z) (z x y : ptr) (X Y V : Z).

Lemma upd_Some m z V m' : upd_ptr m z V = Some m' -> z <> intOne /\ (z < length m)%nat /\ m' = <[z := V]> m.
Proof. unfold upd_ptr. case_decide as E; [|done]. intros [= <-]. tauto. Qed.

Lemma when_Some (P : Prop) `{Decision P} {A} (o : option A) a : when P o = Some a -> P /\ o = Some a.
Proof. unfold when. by case_decide. Qed.

(** An operation that leaves no new objects. *)
Lemma sets_exactly {A} (c : W A) w M : wp c w (λ _ w', models w' M) -> sets c w M.
Proof. intros H. eapply wp_mono; [exact H|]. intros a w' Hm. by exists M. Qed.

Ltac spec_step :=
  repeat match goal with
  | H : (_ ≫= _) = Some _ |- _ => apply bind_Some in H; let v := fresh "V" in let Hv := fresh "Hv" in destruct H as (v & Hv & H)
  | H : when _ _ = Some _ |- _ => apply when_Some in H; destruct H
  | H : upd_ptr _ _ _ = Some _ |- _ => apply upd_Some in H; destruct H as (? & ? & ->)
  end.

Lemma arith_exec w M op z x y X Y V : models w M -> M !! x = Some X -> M !! y = Some Y -> arith_value op X Y = Some V -> (z < length M)%nat -> z <> intOne -> sets (exec_arith op z x y) w (<[z := V]> M).
Proof.
  intros Hm Hx Hy HV Hz Hz1. destruct op; cbn [arith_value exec_arith] in *; try (destruct (Z.eqb_spec Y 0); [done|]); injection HV as <-.
  - by apply sets_exactly, Add_spec.
  - by apply sets_exactly, Sub_spec.
  - by apply sets_exactly, Mul_spec.
  - by apply sets_exactly, Quo_spec.
  - by apply sets_exactly, Rem_spec.
  - by apply Div_spec.
  - by apply Mod_spec.
  - by apply sets_exactly, And_spec.
  - by apply sets_exactly, AndNot_spec.
  - by apply sets_exactly, Or_spec.
  - by apply sets_exactly, Xor_spec.
Qed.

Lemma step_exec w M c M1 : models w M -> step M c = Some M1 -> sets (exec c) w M1.
Proof.
  intros Hm Hs. destruct c; cbn [step exec] in *; spec_step; destruct_and?.
  - by apply sets_exactly, SetInt64_spec.
  - by apply sets_exactly, SetUint64_spec.
  - by apply sets_exactly, SetBytes_spec.
  - by apply sets_exactly, Set_spec.
  - by apply sets_exactly, Abs_spec.
  - by apply sets_exactly, Neg_spec.
  - by apply sets_exactly, Not_spec.
  - apply sets_exactly. pose proof (Sqrt_spec w M z x _ Hm Hv) as Hsq. rewrite (proj2 (Z.ltb_ge V 0)) in Hsq by done. by apply Hsq.
  - apply sets_exactly. by apply Lsh_spec.
  - by apply sets_exactly, Rsh_spec.
  - by apply sets_exactly, SetBit_spec.
  - by apply sets_exactly, MulRange_spec.
  - by apply Binomial_spec.
  - by eapply arith_exec.
  - rewrite length_insert in *. by apply sets_exactly, QuoRem_spec.
  - rewrite length_insert in *. by apply DivMod_spec.
Qed.

Lemma upd_prefix m M z V m' : upd_ptr m z V = Some m' -> m `prefix_of` M -> exists M', upd_ptr M z V = Some M' /\ m' `prefix_of` M'.
Proof.
  intros Hu Hp. apply upd_Some in Hu. destruct Hu as (Hz & Hl & ->). exists (<[z := V]> M). split; [|by apply prefix_insert]. unfold upd_ptr. rewrite decide_True; [done|]. apply prefix_length in Hp. lia.
Qed.

Lemma when_prefix (P : Prop) `{Decision P} m' (o O : option (list Z)) : when P o = Some m' -> (o = Some m' -> exists M', O = Some M' /\ m' `prefix_of` M') -> exists M', when P O = Some M' /\ m' `prefix_of` M'.
Proof. intros Hw Ho. apply when_Some in Hw as [HP Ho']. destruct (Ho Ho') as (M' & E & Hp). exists M'. unfold when. by rewrite decide_True. Qed.

Lemma bind_prefix m M x m' (f F : Z -> option (list Z)) : (m !! x ≫= f) = Some m' -> m `prefix_of` M -> (forall X, f X = Some m' -> exists M', F X = Some M' /\ m' `prefix_of` M') -> exists M', (M !! x ≫= F) = Some M' /\ m' `prefix_of` M'.
Proof. intros Hb Hp HF. apply bind_Some in Hb as (X & HX & Hf). rewrite (prefix_lookup_Some _ _ _ _ HX Hp). by apply HF. Qed.

Lemma upd_two_prefix m M r z R V m' : (m1 ← upd_ptr m r R; upd_ptr m1 z V) = Some m' -> m `prefix_of` M -> exists M', (m1 ← upd_ptr M r R; upd_ptr m1 z V) = Some M' /\ m' `prefix_of` M'.
Proof. intros Hb Hp. apply bind_Some in Hb as (m1 & H1 & H2). destruct (upd_prefix _ _ _ _ _ H1 Hp) as (M1 & E1 & Hp1). rewrite E1. by eapply upd_prefix. Qed.

(** More objects than the specification speaks of do not matter. *)
Lemma step_prefix m M c m' : step m c = Some m' -> m `prefix_of` M -> exists M', step M c = Some M' /\ m' `prefix_of` M'.
Proof.
  intros Hs Hp. destruct c; cbn [step] in *;
    repeat first [eapply bind_prefix; [exact Hs|exact Hp|]; clear Hs; intros ? Hs; cbn beta in *|eapply when_prefix; [exact Hs|]; clear Hs; intros Hs|by eapply upd_prefix|by eapply upd_two_prefix].
  match goal with |- context [arith_value ?a ?b ?c] => destruct (arith_value a b c); [by eapply upd_prefix|done] end.
Qed.

Lemma step_refines w m c m' : sets (mret tt : W unit) w m -> step m c = Some m' -> sets (exec c) w m'.
Proof.
  intros (M & Hm & Hp) Hs. destruct (step_prefix _ _ _ _ Hs Hp) as (M' & Hs' & Hp'). eapply wp_mono; [by apply (step_exec w M c M')|].
  intros [] w' (M2 & Hm2 & Hp2). exists M2. split; [done|by etrans].
Qed.

Lemma run_sets cs : forall w m m', sets (mret tt : W unit) w m -> steps m cs = Some m' -> sets (run cs) w m'.
Proof.
  induction cs as [|c cs IH]; intros w m m' Hm Hs; cbn [steps run] in *; [by injection Hs as <-|]. apply bind_Some in Hs as (m1 & H1 & H2).
  apply wp_bind. eapply wp_mono; [by eapply step_refines|]. intros [] w1 Hw1. by apply (IH w1 m1 m').
Qed.

(** C9. Programs of the operations of Int compute on integers.  A state [w] represents the integers [m] when every
    object holds the absolute value and the sign of its integer, in words without leading zeroes, at the start of an array that no other
    object and no temporary of the pool has; the operations keep that.  Whatever sequence of them is run (conversions from machine words and
    bytes, assignment, sign, sums, products, truncated and Euclidean quotients and remainders, two's complement bit operations, shifts, square
    roots, products of ranges, binomial coefficients), the objects then represent what
    the specification [step] makes of the integers; new objects may follow them.  Operands and results may be the same objects, with three exceptions that [step] leaves out:
    QuoRem and DivMod with one object for both of their results, DivMod with the remainder stored in the divisor, and Lsh of a number into itself by a positive multiple n of 64, when
    it is 2 ^ n or more without its sign ([shift_apart]); in the last two the code gives other integers ([DivMod_overwrites], [shl_in_place]).  Also left out are the operands that the operations refuse with a panic
    (zero divisors, roots of negative numbers, negative bit positions), and Binomial with n = 2 ^ 63 - 1. *)
Theorem run_refines (w : world) (m : list Z) (cs : list command) (m' : list Z) :
  models w m -> steps m cs = Some m' -> wp (run cs) w (λ _ w', exists M, models w' M /\ m' `prefix_of` M).
Proof. intros Hm Hs. apply (run_sets cs w m m'); [|done]. by exists m. Qed.

(** C10. What the methods that only read give is the integer's: its sign, order, order of absolute values, wrapped value as int64 and
    low word as uint64, whether it fits those types (the least int64, whose opposite overflows, does), number of bits and of low zero bits, big-endian bytes without leading
    zeroes, and the bits of the two's complement; only Bit may make a temporary. *)
Theorem readers_of_integers (w : world) (m : list Z) (x y : ptr) (X Y i : Z) :
  models w m -> m !! x = Some X -> m !! y = Some Y -> 0 <= i ->
  Sign x w = Val (Z.sgn X, w) /\
  Cmp x y w = Val (if X <? Y then -1 else if Y <? X then 1 else 0, w) /\
  CmpAbs x y w = Val (if Z.abs X <? Z.abs Y then -1 else if Z.abs Y <? Z.abs X then 1 else 0, w) /\
  Int64 x w = Val (i64 X, w) /\ Uint64 x w = Val (u64 (Z.abs X), w) /\
  IsInt64 x w = Val (bool_decide (is_sint 64 X), w) /\ IsUint64 x w = Val (bool_decide (is_uint 64 X), w) /\
  BitLen x w = Val (bitlen (Z.abs X), w) /\
  (exists k, TrailingZeroBits x w = Val (k, w) /\ if X =? 0 then k = 0 else 0 <= k /\ Z.testbit (Z.abs X) k = true /\ forall i, 0 <= i < k -> Z.testbit (Z.abs X) i = false) /\
  (exists bs, Bytes_ x w = Val (bs, w) /\ bytes_ok bs /\ order_value true bs = Z.abs X /\ bs !! 0%nat <> Some 0) /\
  wp (Bit x i) w (λ v w', v = Z.b2z (Z.testbit X i) /\ exists h', frame nowhere (mem w) h' /\ w' = World h' (objs w) (natPool w)).
Proof.
  intros Hm Hx Hy Hi. split_and!; [exact (Sign_spec w m x X Hm Hx)|by apply (Cmp_spec w m)|by apply (CmpAbs_spec w m)|exact (Int64_spec w m x X Hm Hx)|exact (Uint64_spec w m x X Hm Hx)|
    exact (IsInt64_spec w m x X Hm Hx)|exact (IsUint64_spec w m x X Hm Hx)|exact (BitLen_spec w m x X Hm Hx)|exact (TrailingZeroBits_spec w m x X Hm Hx)|exact (Bytes_spec w m x X Hm Hx)|].
  pose proof (Bit_spec w m x X i Hm Hx) as Hb. by rewrite (proj2 (Z.ltb_ge i 0)) in Hb.
Qed.

(** C11. What is refused: division by 0 in all six forms, the root of a negative number, a negative bit index, and a bit that is neither 0 nor 1.  Each panics explicitly. *)
Theorem refused_operations (w : world) (m : list Z) (z x y r n : ptr) (N i b X : Z) :
  models w m -> (z < length m)%nat -> (r < length m)%nat -> z <> intOne -> m !! x = Some X -> m !! y = Some 0 -> m !! n = Some N -> N < 0 -> i < 0 -> b <> 0 -> b <> 1 ->
  (forall op, op ∈ [OQuo; ORem; ODiv; OMod] -> exec_arith op z x y w = Panic Explicit) /\ QuoRem z x y r w = Panic Explicit /\ DivMod z x y r w = Panic Explicit /\
  Sqrt z n w = Panic Explicit /\ Bit x i w = Panic Explicit /\ SetBit z x i 1 w = Panic Explicit /\ forall j, SetBit z x j b w = Panic Explicit.
Proof.
  intros Hm Hz Hr Hz1 Hx Hy Hn HN Hi Hb0 Hb1. pose proof (lookup_lt_Some _ _ _ Hx) as Hxl. destruct (QuoRem_zero w m z x y r Hm Hz Hxl Hr Hy) as (E1 & E2 & E3). destruct (Div_zero w m z x y r Hm Hz Hxl Hr Hy) as (E4 & E5 & E6).
  split. { intros op Hop. rewrite !elem_of_cons in Hop. destruct Hop as [->|[->|[->|[->|Hop]]]]; try done. by apply elem_of_nil in Hop. }
  split; [done|]. split; [done|]. pose proof (Sqrt_spec w m z n N Hm Hn Hz Hz1) as Hsq. rewrite (proj2 (Z.ltb_lt N 0)) in Hsq by done. pose proof (Bit_spec w m x X i Hm Hx) as Hbt. rewrite (proj2 (Z.ltb_lt i 0)) in Hbt by done.
  split; [done|]. split; [done|]. split; [by apply (SetBit_panic w m z x X); auto|]. intros j. apply (SetBit_panic w m z x X); auto.
Qed.
End Programs.

(** The integers 1, 10, -3 and 0, the last in an object that has no words. *)
Definition world_example : world :=
  World [[]; [1]; [10]; [3]] [MkInt false natOne; MkInt false (SliceOf 2 0 1); MkInt true (SliceOf 3 0 1); MkInt false fZero] [].

Lemma models_example : models world_example [1; 10; -3; 0].
Proof.
  split; [by apply good_check; vm_compute|split; constructor| | |done].
  - repeat constructor; try done; try (by apply nat_check; vm_compute); apply not_elem_of_nil.
  - intros p q o o' Hp Hq Hne E. cbn in Hp, Hq. do 4 (destruct p as [|p]; [do 4 (destruct q as [|q]; [simplify_eq/=; done|]); done|]). done.
Qed.

(** 10 / -3 and 10 mod -3 in Go's and in Euclid's way, with the results in the operands; then the bits of what is left. *)
Lemma run_refines_witness :
  let cs := [CArith OQuo 3 1 2; CDivMod 1 1 2 3; CNeg 3 3; CArith OXor 3 3 1; CLsh 3 3 70; CArith OMul 3 3 3]%nat in
  wp (run cs) world_example (λ _ w', exists M, models w' M /\ [1; -3; -3; 2 ^ 142] `prefix_of` M).
Proof. cbv zeta. refine (run_refines _ [1; 10; -3; 0] _ _ models_example _). vm_compute. reflexivity. Defined.

Lemma readers_of_integers_witness : Int64 2%nat world_example = Val (-3, world_example) /\ Cmp 2%nat 1%nat world_example = Val (-1, world_example).
Proof.
  destruct (readers_of_integers world_example _ 2%nat 1%nat (-3) 10 0 models_example eq_refl eq_refl (Z.le_refl 0)) as (_ & Hc & _ & Hi & _). split; [exact Hi|exact Hc].
Defined.

Lemma refused_operations_witness : Quo 3 1 3 world_example = Panic Explicit /\ Sqrt 3 2 world_example = Panic Explicit.
Proof.
  destruct (refused_operations world_example _ 3%nat 1%nat 3%nat 3%nat 2%nat (-3) (-1) 2 10 models_example) as (Hd & _ & _ & Hs & _); [cbn; lia|cbn; lia|done|done|done|done|lia|lia|lia|lia|]. split; [apply (Hd OQuo); repeat constructor|exact Hs].
Defined.
