(* ===== verification/Strconv.v ===== *)
(** * strconv: integers

    Parsing (src/Source/Gold/strconv/atoi_elements.go) and formatting (itoa.go) of integers, and booleans (atob.go).  Strings are lists of bytes. *)

From S2P Require Import Prelude Bits.

Local Open Scope go_scope.

(** ** Formatting *)

Definition fastSmalls : bool := true.
Definition nSmalls : Z := 100.
Definition smallsString : list Z := str
  "00010203040506070809101112131415161718192021222324252627282930313233343536373839404142434445464748495051525354555657585960616263646566676869707172737475767778798081828384858687888990919293949596979899".
Definition host32bit : bool := notw 64 0 >>. 32 =? 0.
Definition digits : list Z := str "0123456789abcdefghijklmnopqrstuvwxyz".

Definition small (i : Z) : outcome (list Z) :=
  if i <? 10 then slice digits i (i + 1) else slice smallsString (i * 2) (i * 2 + 2).

Definition isPowerOfTwo (x : Z) : bool := x &. (x - 1) =? 0.

(** The digits that are written so far are [a[i:]].  One digit: [i--; a[i] = digits[d]]. *)
Definition put_digit (table : list Z) (a : list Z) (i d : Z) : outcome (list Z * Z) :=
  c ← index table d; a ← store a (i - 1) c; Val (a, i - 1).
(** Two decimal digits: [i -= 2; a[i+1] = smallsString[is+1]; a[i+0] = smallsString[is+0]]. *)
Definition put_pair (a : list Z) (i is_ : Z) : outcome (list Z * Z) :=
  c1 ← index smallsString (is_ + 1); a ← store a (i - 2 + 1) c1;
  c0 ← index smallsString (is_ + 0); a ← store a (i - 2 + 0) c0;
  Val (a, i - 2).

(** [for u >= 1e9], on 32-bit hosts. *)
Fixpoint billions_loop (fuel : nat) (a : list Z) (i u : Z) : outcome (list Z * Z * Z) :=
  match fuel with
  | O => NoFuel
  | S fuel =>
      if 1000000000 <=? u then
        let q := u / 1000000000 in
        let us := u64 (u - u64 (q * 1000000000)) in
        '(a, i, us) ← iterate 4 4 (-1) (λ _ '(a, i, us), '(a, i) ← put_pair a i (us mod 100 * 2); Val (a, i, us / 100)) (a, i, us);
        '(a, i) ← put_digit smallsString a i (us * 2 + 1);
        billions_loop fuel a i q
      else Val (a, i, u)
  end.

(** [for us >= 100] *)
Fixpoint hundreds_loop (fuel : nat) (a : list Z) (i us : Z) : outcome (list Z * Z * Z) :=
  match fuel with
  | O => NoFuel
  | S fuel => if 100 <=? us then '(a, i) ← put_pair a i (us mod 100 * 2); hundreds_loop fuel a i (us / 100) else Val (a, i, us)
  end.

Definition format_decimal (a : list Z) (i u : Z) : outcome (list Z * Z) :=
  '(a, i, u) ← (if host32bit then billions_loop 65 a i u else Val (a, i, u));
  '(a, i, us) ← hundreds_loop 65 a i u;
  let is_ := us * 2 in
  '(a, i) ← put_digit smallsString a i (is_ + 1);
  if 10 <=? us then put_digit smallsString a i is_ else Val (a, i).

(** [for u >= b { ...; u >>= shift }] *)
Fixpoint shift_loop (fuel : nat) (a : list Z) (i u b m shift : Z) : outcome (list Z * Z * Z) :=
  match fuel with
  | O => NoFuel
  | S fuel => if b <=? u then '(a, i) ← put_digit digits a i (u &. m); shift_loop fuel a i (u >>. shift) b m shift else Val (a, i, u)
  end.

(** [for u >= b { q := u / b; ... }] *)
Fixpoint divide_loop (fuel : nat) (a : list Z) (i u b : Z) : outcome (list Z * Z * Z) :=
  match fuel with
  | O => NoFuel
  | S fuel =>
      if b <=? u then
        let q := u / b in
        '(a, i) ← put_digit digits a i (u64 (u - u64 (q * b)));
        divide_loop fuel a i q b
      else Val (a, i, u)
  end.

(** The loops divide [u] by two at least, so 65 turns are enough. *)
Definition formatBits (dst : list Z) (u base : Z) (neg append_ : bool) : outcome (list Z * list Z) :=
  if (base <? 2) || (zlen digits <? base) then Panic Explicit
  else
    let a := make 0 (64 + 1) in
    let i := zlen a in
    let u := if neg then u64 (- u) else u in
    '(a, i) ←
      (if base =? 10 then format_decimal a i u
       else if isPowerOfTwo base then
         let shift := Bits.TrailingZeros 64 (u64 base) &. 7 in
         let b := u64 base in
         let m := u64 (u64 base - 1) in
         '(a, i, u) ← shift_loop 65 a i u b m shift;
         put_digit digits a i u
       else
         let b := u64 base in
         '(a, i, u) ← divide_loop 65 a i u b;
         put_digit digits a i u);
    '(a, i) ← (if neg then a ← store a (i - 1) 45; Val (a, i - 1) else Val (a, i));
    s ← slice a i (zlen a);
    if append_ then Val (dst ++ s, []) else Val ([], s).

Definition FormatUint (i base : Z) : outcome (list Z) :=
  if fastSmalls && (i <? nSmalls) && (base =? 10) then small i
  else '(_, s) ← formatBits [] i base false false; Val s.
Definition FormatInt (i base : Z) : outcome (list Z) :=
  if fastSmalls && (0 <=? i) && (i <? nSmalls) && (base =? 10) then small i
  else '(_, s) ← formatBits [] (u64 i) base (i <? 0) false; Val s.
Definition Itoa (i : Z) : outcome (list Z) := FormatInt i 10.
Definition AppendInt (dst : list Z) (i base : Z) : outcome (list Z) :=
  if fastSmalls && (0 <=? i) && (i <? nSmalls) && (base =? 10) then s ← small i; Val (dst ++ s)
  else '(d, _) ← formatBits dst (u64 i) base (i <? 0) true; Val d.
Definition AppendUint (dst : list Z) (i base : Z) : outcome (list Z) :=
  if fastSmalls && (i <? nSmalls) && (base =? 10) then s ← small i; Val (dst ++ s)
  else '(d, _) ← formatBits dst i base false true; Val d.

(** ** Parsing *)

Definition lower (c : Z) : Z := c |. 32.

Inductive error : Type := ErrRange | ErrSyntax | New (message : list Z).
Record NumError : Type := MkNumError { Func : list Z; Num : list Z; Err : error }.

#[export] Instance error_eq_dec : EqDecision error.
Proof. solve_decision. Defined.
#[export] Instance NumError_eq_dec : EqDecision NumError.
Proof. solve_decision. Defined.

Definition syntaxError (fn s : list Z) : NumError := MkNumError fn s ErrSyntax.
Definition rangeError (fn s : list Z) : NumError := MkNumError fn s ErrRange.
Definition baseError (fn s : list Z) (base : Z) : outcome NumError := b ← Itoa base; Val (MkNumError fn s (New (str "invalid base " ++ b))).
Definition bitSizeError (fn s : list Z) (bitSize : Z) : outcome NumError := b ← Itoa bitSize; Val (MkNumError fn s (New (str "invalid bit size " ++ b))).

Definition intSize : Z := 64.
Definition IntSize : Z := intSize.
Definition maxUint64 : Z := 18446744073709551615.

(** The number proper of [underscoreOK]; [saw] is the class of the last character, and the result that at the end. *)
Fixpoint underscore_loop (hex : bool) (s : list Z) (saw : Z) : option Z :=
  match s with
  | [] => Some saw
  | c :: s =>
      if (48 <=? c) && (c <=? 57) || hex && (97 <=? lower c) && (lower c <=? 102) then underscore_loop hex s 48
      else if c =? 95 then (if negb (saw =? 48) then None else underscore_loop hex s 95)
      else if saw =? 95 then None
      else underscore_loop hex s 33
  end.

Definition underscoreOK (s : list Z) : bool :=
  let s := match s with c :: s' => if (c =? 45) || (c =? 43) then s' else s | [] => s end in
  let prefix := match s with c0 :: c1 :: _ => (c0 =? 48) && ((lower c1 =? 98) || (lower c1 =? 111) || (lower c1 =? 120)) | _ => false end in
  let hex := prefix && match s with _ :: c1 :: _ => lower c1 =? 120 | _ => false end in
  match (if prefix then underscore_loop hex (drop 2 s) 48 else underscore_loop hex s 94) with Some saw => negb (saw =? 95) | None => false end.

(** The digit of a character, when it is a digit of some base. *)
Definition digit_of (c : Z) : option Z :=
  if (48 <=? c) && (c <=? 57) then Some (u8 (c - 48))
  else if (97 <=? lower c) && (lower c <=? 122) then Some (u8 (lower c - 97 + 10))
  else None.

(** The loop of ParseUint. *)
Fixpoint digits_loop (base : Z) (base0 : bool) (cutoff maxVal : Z) (fn s0 : list Z) (s : list Z) (n : Z) : Z * option NumError :=
  match s with
  | [] => (n, None)
  | c :: s =>
      if (c =? 95) && base0 then digits_loop base base0 cutoff maxVal fn s0 s n
      else
        match digit_of c with
        | None => (0, Some (syntaxError fn s0))
        | Some d =>
            if u8 base <=? d then (0, Some (syntaxError fn s0))
            else if cutoff <=? n then (maxVal, Some (rangeError fn s0))
            else
              let n := u64 (n * base) in
              let n1 := u64 (n + d) in
              if (n1 <? n) || (maxVal <? n1) then (maxVal, Some (rangeError fn s0))
              else digits_loop base base0 cutoff maxVal fn s0 s n1
        end
  end.

(** The base, and what follows its prefix. *)
Definition base_prefix (s : list Z) : outcome (Z * list Z) :=
  c0 ← index s 0;
  if c0 =? 48 then
    c1 ← (if 3 <=? zlen s then c1 ← index s 1; Val (lower c1) else Val 0);
    if (3 <=? zlen s) && (c1 =? 98) then s ← slice s 2 (zlen s); Val (2, s)
    else if (3 <=? zlen s) && (c1 =? 111) then s ← slice s 2 (zlen s); Val (8, s)
    else if (3 <=? zlen s) && (c1 =? 120) then s ← slice s 2 (zlen s); Val (16, s)
    else s ← slice s 1 (zlen s); Val (8, s)
  else Val (10, s).

Definition fnParseUint : list Z := str "ParseUint".
Definition fnParseInt : list Z := str "ParseInt".
Definition fnAtoi : list Z := str "Atoi".

Definition ParseUint (s : list Z) (base bitSize : Z) : outcome (Z * option NumError) :=
  if bool_decide (s = []) || negb (underscoreOK s) then Val (0, Some (syntaxError fnParseUint s))
  else
    let base0 := base =? 0 in
    let s0 := s in
    if negb ((2 <=? base) && (base <=? 36)) && negb (base =? 0) then e ← baseError fnParseUint s0 base; Val (0, Some e)
    else
      '(base, s) ← (if (2 <=? base) && (base <=? 36) then Val (base, s) else base_prefix s);
      if negb (bitSize =? 0) && ((bitSize <? 0) || (64 <? bitSize)) then e ← bitSizeError fnParseUint s0 bitSize; Val (0, Some e)
      else
        let bitSize := if bitSize =? 0 then IntSize else bitSize in
        let cutoff := if base =? 10 then maxUint64 / 10 + 1 else if base =? 16 then maxUint64 / 16 + 1 else u64 (maxUint64 / u64 base + 1) in
        let maxVal := u64 (1 <<.[64] bitSize - 1) in
        Val (digits_loop (u64 base) base0 cutoff maxVal fnParseUint s0 s 0).

Definition ParseInt (s : list Z) (base bitSize : Z) : outcome (Z * option NumError) :=
  if bool_decide (s = []) then Val (0, Some (syntaxError fnParseInt s))
  else
    let s0 := s in
    c0 ← index s 0;
    '(neg, s) ← (if c0 =? 43 then s ← slice s 1 (zlen s); Val (false, s) else if c0 =? 45 then s ← slice s 1 (zlen s); Val (true, s) else Val (false, s));
    '(un, err) ← ParseUint s base bitSize;
    let failed := match err with
                  | Some e => if negb (bool_decide (Err e = ErrRange)) then Some (MkNumError fnParseInt s0 (Err e)) else None
                  | None => None
                  end in
    match failed with
    | Some e => Val (0, Some e)
    | None =>
        let bitSize := if bitSize =? 0 then IntSize else bitSize in
        let cutoff := 1 <<.[64] (bitSize - 1) in
        if negb neg && (cutoff <=? un) then Val (i64 (u64 (cutoff - 1)), Some (rangeError fnParseInt s0))
        else if neg && (cutoff <? un) then Val (i64 (- i64 cutoff), Some (rangeError fnParseInt s0))
        else
          let n := i64 un in
          Val (if neg : bool then i64 (- n) else n, None)
    end.

(** The fast path of Atoi: [for _, ch := range []byte(s)], [None] for a character that is not a digit. *)
Fixpoint decimal_loop (s : list Z) (n : Z) : option Z :=
  match s with
  | [] => Some n
  | ch :: s => let ch := u8 (ch - 48) in if 9 <? ch then None else decimal_loop s (i64 (n * 10 + ch))
  end.

Definition Atoi (s : list Z) : outcome (Z * option NumError) :=
  let sLen := zlen s in
  if ((intSize =? 32) && ((0 <? sLen) && (sLen <? 10))) || ((intSize =? 64) && ((0 <? sLen) && (sLen <? 19))) then
    let s0 := s in
    c0 ← index s 0;
    let signed := (c0 =? 45) || (c0 =? 43) in
    s ← (if signed then slice s 1 (zlen s) else Val s);
    if signed && (zlen s <? 1) then Val (0, Some (MkNumError fnAtoi s0 ErrSyntax))
    else
      match decimal_loop s 0 with
      | None => Val (0, Some (MkNumError fnAtoi s0 ErrSyntax))
      | Some n => Val (if c0 =? 45 then i64 (- n) else n, None)
      end
  else
    '(i, err) ← ParseInt s 10 0;
    Val (i, match err with Some nerr => Some (MkNumError fnAtoi (Num nerr) (Err nerr)) | None => None end).

(** ** Booleans *)

Definition ParseBool (s : list Z) : bool * option NumError :=
  if bool_decide (s ∈ [str "1"; str "t"; str "T"; str "true"; str "TRUE"; str "True"]) then (true, None)
  else if bool_decide (s ∈ [str "0"; str "f"; str "F"; str "false"; str "FALSE"; str "False"]) then (false, None)
  else (false, Some (syntaxError (str "ParseBool") s)).
Definition FormatBool (b : bool) : list Z := if b then str "true" else str "false".
Definition AppendBool (dst : list Z) (b : bool) : list Z := if b then dst ++ str "true" else dst ++ str "false".

Example format_examples :
  FormatInt (-1234567890123) 10 = Val (str "-1234567890123") /\ FormatInt (- 2 ^ 63) 2 = Val (str "-1000000000000000000000000000000000000000000000000000000000000000")
  /\ FormatUint (2 ^ 64 - 1) 36 = Val (str "3w5e11264sgsf") /\ AppendInt (str "n=") 255 16 = Val (str "n=ff") /\ FormatInt 5 1 = Panic Explicit.
Proof. split_and!; vm_compute; reflexivity. Qed.

Example parse_examples :
  ParseInt (str "-0x_ff") 0 64 = Val (-255, None) /\ ParseInt (str "128") 10 8 = Val (127, Some (rangeError fnParseInt (str "128")))
  /\ ParseInt (str "-129") 10 8 = Val (-128, Some (rangeError fnParseInt (str "-129"))) /\ ParseUint (str "1__0") 0 64 = Val (0, Some (syntaxError fnParseUint (str "1__0")))
  /\ ParseInt (str "12") 1 64 = Val (0, Some (MkNumError fnParseInt (str "12") (New (str "invalid base 1")))) /\ Atoi (str "+") = Val (0, Some (syntaxError fnAtoi (str "+"))).
Proof. split_and!; vm_compute; reflexivity. Qed.

(** ** Numerals *)

(** The value of a digit: its place among the thirty-six digits, with small or with capital letters. *)
Definition digit_value (c : Z) : option Z :=
  match position c (str "0123456789abcdefghijklmnopqrstuvwxyz") with Some v => Some v | None => position c (str "0123456789ABCDEFGHIJKLMNOPQRSTUVWXYZ") end.

(** What the source computes from the bits of a character. *)
Lemma lower_byte c : 0 <= lower c < 256 -> is_uint 8 c.
Proof.
  intros Hl. assert (Hc : 0 <= c) by (unfold lower in Hl; rewrite Z.lor_nonneg in Hl; lia). apply is_uint_bits; [lia|done|]. intros i Hi.
  assert (Hb : Z.testbit (lower c) i = false) by (apply (testbit_high 8); [exact Hl|lia]). unfold lower in Hb. rewrite Z.lor_spec, orb_false_iff in Hb. tauto.
Qed.

Lemma for_characters (f g : Z -> bool) : check_range 0 256 (λ c, eqb (f c) (g c)) = true -> (forall c, ~ is_uint 8 c -> f c = g c) -> forall c, f c = g c.
Proof. intros H Hout c. destruct (decide (is_uint 8 c)) as [Hc|Hc]; [|by apply Hout]. apply eqb_prop. exact (check_range_spec 0 256 _ H c Hc). Qed.

Lemma digit_value_out c : ~ is_uint 8 c -> digit_value c = None.
Proof. intros Hc. unfold is_uint in Hc. unfold digit_value. rewrite !position_None by (vm_compute; repeat constructor; lia). done. Qed.

Lemma digit_of_value c : is_uint 8 c -> digit_of c = digit_value c.
Proof. intros Hc. apply (check_range_eq digit_of digit_value 0 256); [by vm_compute|exact Hc]. Qed.

(** The value of a string of digits, after the number [n]. *)
Fixpoint fold_digits (b n : Z) (s : list Z) : option Z :=
  match s with
  | [] => Some n
  | c :: s => match digit_value c with Some d => if d <? b then fold_digits b (n * b + d) s else None | None => None end
  end.

(** [s] is the numeral of [u] in base [b]: lower-case digits, of value [u], the first not 0 unless it is the only one. *)
Definition numeral (b u : Z) (s : list Z) : Prop :=
  fold_digits b 0 s = Some u /\ Forall (λ c, c ∈ digits) s /\ s <> [] /\ (s !! 0%nat = Some 48 -> s = [48]).

Definition char (d : Z) : Z := tab digits d.

Section Formatting.
Implicit Types (a w s : list Z) (b u U i d : Z).

Lemma digit_char d : 0 <= d < 36 -> index digits d = Val (char d) /\ digit_value (char d) = Some d /\ char d ∈ digits /\ (char d = 48 -> d = 0).
Proof.
  intros Hd. assert (H : check_range 0 36 (λ d, bool_decide (index digits d = Val (char d)) && bool_decide (digit_value (char d) = Some d) && bool_decide (char d ∈ digits) && (negb (char d =? 48) || (d =? 0))) = true) by (vm_compute; reflexivity).
  apply (check_range_spec _ _ _ H) in Hd. rewrite !andb_true_iff, !bool_decide_eq_true, orb_true_iff, negb_true_iff, Z.eqb_eq, Z.eqb_neq in Hd. destruct Hd as [[[? ?] ?] H4]. split_and!; [done|done|done|]. tauto.
Qed.

Lemma digit_pair k : 0 <= k < 100 -> index smallsString (k * 2) = Val (char (k / 10)) /\ index smallsString (k * 2 + 1) = Val (char (k mod 10)).
Proof.
  intros Hk. assert (H : check_range 0 100 (λ k, bool_decide (index smallsString (k * 2) = Val (char (k / 10))) && bool_decide (index smallsString (k * 2 + 1) = Val (char (k mod 10)))) = true) by (vm_compute; reflexivity).
  apply (check_range_spec _ _ _ H) in Hk. rewrite !andb_true_iff, !bool_decide_eq_true in Hk. exact Hk.
Qed.

Lemma fold_char b n d w : 0 <= d < 36 -> d < b -> fold_digits b n (char d :: w) = fold_digits b (n * b + d) w.
Proof. intros Hd Hb. cbn [fold_digits]. destruct (digit_char d Hd) as (_ & -> & _). by rewrite (proj2 (Z.ltb_lt d b)). Qed.

(** What is written of the number [U] when [u] is left: the digits [w], before them [i] free places of the buffer. *)
Record written b U a i u w : Prop := {
  written_buffer : a = take (Z.to_nat i) (make 0 65) ++ w;
  written_room : 1 <= i <= 65 /\ zlen w = 65 - i;
  written_value : fold_digits b u w = Some U;
  written_digits : Forall (λ c, c ∈ digits) w;
  written_left : 0 <= u < 2 ^ (i - 1) /\ (w = [] \/ 0 < u)
}.

Lemma write_digit b U a i u w d t c : written b U a i u w -> index t d = Val c -> put_digit t a i d = Val (take (Z.to_nat (i - 1)) (make 0 65) ++ c :: w, i - 1).
Proof. intros [-> Hr _ _ _] Ht. unfold put_digit. rewrite Ht. cbn [mbind outcome_bind]. rewrite store_back; [done|]. rewrite length_make by done. lia. Qed.

(** A turn of a loop that writes the last digit of [u]. *)
Lemma written_digit b U a i u w : written b U a i u w -> 2 <= b <= 36 -> b <= u -> written b U (take (Z.to_nat (i - 1)) (make 0 65) ++ char (u mod b) :: w) (i - 1) (u / b) (char (u mod b) :: w).
Proof.
  intros [-> Hr Hv Hd [Hu Hz]] Hb Hub. pose proof (Z.mod_pos_bound u b ltac:(lia)) as Hm. pose proof (Z.div_mod u b ltac:(lia)) as E. assert (Hq : 1 <= u / b) by (apply Z.div_le_lower_bound; lia).
  assert (Hi : 2 <= i - 1). { destruct (Z.le_gt_cases 2 (i - 1)) as [|Hlt]; [done|]. assert (2 ^ (i - 1) <= 2 ^ 1) by (apply Z.pow_le_mono_r; lia). lia. }
  split; [done|cbn [length]; lia|rewrite fold_char by lia; rewrite <- Hv; f_equal; lia|constructor; [apply digit_char; lia|done]|]. split; [|right; lia]. split; [lia|].
  replace (i - 1) with (Z.succ (i - 1 - 1)) in Hu by lia. rewrite Z.pow_succ_r in Hu by lia. apply Z.div_lt_upper_bound; nia.
Qed.

(** The last turn, which leaves nothing. *)
Lemma written_last b U a i u w : written b U a i u w -> u < b <= 36 -> numeral b U (char u :: w) /\ zlen (char u :: w) = 65 - (i - 1) /\ 1 <= i - 1 + (if bool_decide (w = []) then 1 else 0).
Proof.
  intros [-> Hr Hv Hd [Hu Hz]] Hb. destruct (digit_char u ltac:(lia)) as (_ & _ & Hin & H48). split; [|split; [cbn [length]; lia|]].
  - split; [rewrite fold_char by lia; by rewrite Z.mul_0_l, Z.add_0_l|]. split; [by constructor|]. split; [done|]. intros [= E]. specialize (H48 E). destruct Hz as [->|Hz]; [|lia]. by rewrite E.
  - case_bool_decide as Ew; [lia|]. destruct Hz as [?|Hz]; [done|]. destruct (Z.le_gt_cases 2 i) as [|Hi]; [lia|]. replace (i - 1) with 0 in Hu by lia. cbn in Hu. lia.
Qed.

Lemma written_below b U a i u w : written b U a i u w -> is_uint 64 u.
Proof. intros [_ Hr _ _ [Hu _]]. assert (2 ^ (i - 1) <= 2 ^ 64) by (apply Z.pow_le_mono_r; lia). unfold is_uint. lia. Qed.

(** The loops write digits until what is left is one digit. *)
Definition digits_left b U (r : outcome (list Z * Z * Z)) : Prop := exists a i u w, r = Val (a, i, u) /\ written b U a i u w /\ u < b.

Lemma divide_loop_spec fuel : forall b U a i u w, 2 <= b <= 36 -> written b U a i u w -> i <= Z.of_nat fuel -> digits_left b U (divide_loop fuel a i u b).
Proof.
  induction fuel as [|fuel IH]; intros b U a i u w Hb Hw Hf; [destruct (written_room _ _ _ _ _ _ Hw); lia|]. cbn [divide_loop]. destruct (Z.leb_spec b u) as [Hle|Hlt]; [|by exists a, i, u, w].
  pose proof (written_below _ _ _ _ _ _ Hw) as Hu. unfold is_uint in Hu. pose proof (Z.div_mod u b ltac:(lia)) as E. pose proof (Z.mod_pos_bound u b ltac:(lia)) as Hm. pose proof (Z.div_pos u b ltac:(lia) ltac:(lia)) as Hq.
  rewrite (wrap_small 64 (u / b * b)), wrap_small by (unfold is_uint; nia). replace (u - u / b * b) with (u mod b) by lia.
  rewrite (write_digit b U a i u w _ _ (char (u mod b))); [|done|apply digit_char; lia]. cbn [mbind outcome_bind]. eapply IH; [done|by eapply written_digit|lia].
Qed.

Lemma shift_loop_spec fuel : forall b k U a i u w, b = 2 ^ k -> 0 < k -> b <= 36 -> written b U a i u w -> i <= Z.of_nat fuel -> digits_left b U (shift_loop fuel a i u b (b - 1) k).
Proof.
  induction fuel as [|fuel IH]; intros b k U a i u w Eb Hk Hb Hw Hf; [destruct (written_room _ _ _ _ _ _ Hw); lia|]. cbn [shift_loop]. destruct (Z.leb_spec b u) as [Hle|Hlt]; [|by exists a, i, u, w].
  assert (H2 : 2 <= b). { rewrite Eb. change 2 with (2 ^ 1) at 1. apply Z.pow_le_mono_r; lia. } pose proof (Z.mod_pos_bound u b ltac:(lia)) as Hm.
  replace (u &. (b - 1)) with (u mod b) by (rewrite Eb; replace (2 ^ k - 1) with (Z.ones k) by (rewrite Z.ones_equiv; lia); by rewrite Z.land_ones by lia).
  rewrite (write_digit b U a i u w _ _ (char (u mod b))); [|done|apply digit_char; lia]. cbn [mbind outcome_bind]. rewrite Z.shiftr_div_pow2, <- Eb by lia. eapply IH; [done|done|done|by eapply written_digit|lia].
Qed.

(** Two digits at once. *)
Lemma write_pair U a i u w : written 10 U a i u w -> 100 <= u ->
  put_pair a i (u mod 100 * 2) = Val (take (Z.to_nat (i - 2)) (make 0 65) ++ char (u / 10 mod 10) :: char (u mod 10) :: w, i - 2).
Proof.
  intros [-> Hr Hv Hd [Hu Hz]] H100. assert (Hi : 3 <= i - 1). { destruct (Z.le_gt_cases 3 (i - 1)) as [|Hlt]; [done|]. assert (2 ^ (i - 1) <= 2 ^ 2) by (apply Z.pow_le_mono_r; lia). lia. }
  destruct (digit_pair (u mod 100)) as [E0 E1]; [apply Z.mod_pos_bound; lia|]. unfold put_pair. rewrite E1. cbn [mbind outcome_bind]. replace (i - 2 + 1) with (i - 1) by lia. rewrite store_back by (rewrite length_make by done; lia).
  cbn [mbind outcome_bind]. rewrite !Z.add_0_r, E0. cbn [mbind outcome_bind]. replace (i - 2) with (i - 1 - 1) by lia. rewrite store_back by (rewrite length_make by done; lia). cbn [mbind outcome_bind].
  replace (u mod 100 / 10) with (u / 10 mod 10) by (Z.to_euclidean_division_equations; lia). by replace (u mod 100 mod 10) with (u mod 10) by (Z.to_euclidean_division_equations; lia).
Qed.

Lemma hundreds_loop_spec fuel : forall U a i u w, written 10 U a i u w -> i <= Z.of_nat fuel -> exists a' i' u' w', hundreds_loop fuel a i u = Val (a', i', u') /\ written 10 U a' i' u' w' /\ u' < 100.
Proof.
  induction fuel as [|fuel IH]; intros U a i u w Hw Hf; [destruct (written_room _ _ _ _ _ _ Hw); lia|]. cbn [hundreds_loop]. destruct (Z.leb_spec 100 u) as [Hle|Hlt]; [|by exists a, i, u, w].
  rewrite (write_pair U a i u w) by done. cbn [mbind outcome_bind]. pose proof (written_digit 10 U a i u w Hw ltac:(lia) ltac:(lia)) as H1. pose proof (written_digit _ _ _ _ _ _ H1 ltac:(lia) ltac:(Z.to_euclidean_division_equations; lia)) as H2.
  replace (i - 1 - 1) with (i - 2) in H2 by lia. rewrite Z.div_div in H2 by lia. change (10 * 10) with 100 in H2. eapply IH; [exact H2|lia].
Qed.

Lemma format_decimal_spec U a u : written 10 U a 65 u [] -> exists w i, format_decimal a 65 u = Val (take (Z.to_nat i) (make 0 65) ++ w, i) /\ numeral 10 U w /\ zlen w = 65 - i /\ 1 <= i.
Proof.
  intros Hw. unfold format_decimal. change host32bit with false. cbn [mbind outcome_bind]. destruct (hundreds_loop_spec 65 U a 65 u [] Hw ltac:(lia)) as (a1 & i & u1 & w & -> & Hw1 & Hu1). cbn [mbind outcome_bind].
  pose proof (written_left _ _ _ _ _ _ Hw1) as [[Hu0 _] _]. destruct (digit_pair u1 ltac:(lia)) as [E0 E1]. rewrite (write_digit 10 U a1 i u1 w _ _ (char (u1 mod 10))) by done. cbn [mbind outcome_bind].
  destruct (Z.leb_spec 10 u1) as [H10|H10].
  - pose proof (written_digit _ _ _ _ _ _ Hw1 ltac:(lia) H10) as H2. rewrite (write_digit 10 U _ (i - 1) (u1 / 10) _ _ _ (char (u1 / 10)) H2) by done.
    destruct (written_last _ _ _ _ _ _ H2) as (Hn & Hl & Hp); [Z.to_euclidean_division_equations; lia|]. eexists _, _. split; [done|]. split; [done|]. split; [done|]. cbn in Hp. lia.
  - rewrite (Z.mod_small u1) by lia. destruct (written_last _ _ _ _ _ _ Hw1 ltac:(lia)) as (Hn & Hl & Hp). eexists _, _. split; [done|]. split; [done|]. split; [done|]. destruct (written_room _ _ _ _ _ _ Hw1) as [Hr Hlw]. destruct w as [|c w]; [cbn in *; lia|]. cbn in Hp. lia.
Qed.

Lemma power_base b : 2 <= b <= 36 -> u64 b = b /\ (isPowerOfTwo b = true -> let k := Bits.TrailingZeros 64 (u64 b) &. 7 in b = 2 ^ k /\ 0 < k /\ u64 (u64 b - 1) = b - 1).
Proof.
  intros Hb. split; [apply wrap_small; unfold is_uint; lia|].
  assert (H : check_range 2 35 (λ b, negb (isPowerOfTwo b) || (let k := Bits.TrailingZeros 64 (u64 b) &. 7 in (b =? 2 ^ k) && (0 <? k) && (u64 (u64 b - 1) =? b - 1))) = true) by (vm_compute; reflexivity).
  pose proof (check_range_spec _ _ _ H b ltac:(lia)) as Hc. clear H. intros Hp. cbv beta zeta in *. rewrite Hp in Hc. cbn [negb orb] in Hc. rewrite !andb_true_iff, !Z.eqb_eq, Z.ltb_lt in Hc. tauto.
Qed.

Lemma written_start b U : 0 <= U < 2 ^ 64 -> written b U (make 0 (64 + 1)) 65 U [].
Proof. intros HU. split; [by rewrite app_nil_r|done|done|constructor|]. split; [exact HU|by left]. Qed.

(** The digits of any base, in the end of the buffer. *)
Lemma digits_written base U : 2 <= base <= 36 -> is_uint 64 U ->
  exists w i, (if base =? 10 then format_decimal (make 0 (64 + 1)) 65 U
     else if isPowerOfTwo base then
       '(a, i, u) ← shift_loop 65 (make 0 (64 + 1)) 65 U (u64 base) (u64 (u64 base - 1)) (Bits.TrailingZeros 64 (u64 base) &. 7); put_digit digits a i u
     else '(a, i, u) ← divide_loop 65 (make 0 (64 + 1)) 65 U (u64 base); put_digit digits a i u)
    = Val (take (Z.to_nat i) (make 0 65) ++ w, i) /\ numeral base U w /\ zlen w = 65 - i /\ 1 <= i.
Proof.
  intros Hb HU. pose proof (written_start base U HU) as Hw. destruct (power_base base Hb) as [Eb Hp]. destruct (Z.eqb_spec base 10) as [->|H10]; [by apply format_decimal_spec|].
  assert (Hend : forall r, digits_left base U r -> exists w i, ('(a, i, u) ← r; put_digit digits a i u) = Val (take (Z.to_nat i) (make 0 65) ++ w, i) /\ numeral base U w /\ zlen w = 65 - i /\ 1 <= i).
  { intros r (a & i & u & w & -> & Hw' & Hu). pose proof (written_left _ _ _ _ _ _ Hw') as [[Hu0 _] _]. pose proof (written_room _ _ _ _ _ _ Hw') as [Hr Hlw]. destruct (written_last _ _ _ _ _ _ Hw' ltac:(lia)) as (Hn & Hl & Hp').
    cbn [mbind outcome_bind]. rewrite (write_digit base U a i u w _ _ (char u) Hw') by (apply digit_char; lia). exists (char u :: w), (i - 1). split_and!; [done|apply Hn..|done|]. case_bool_decide as E; [|lia]. subst w. cbn in Hlw. lia. }
  destruct (isPowerOfTwo base).
  - destruct (Hp eq_refl) as (E1 & Hk & E2). rewrite E2, Eb. apply Hend. eapply shift_loop_spec; [by rewrite Eb in E1|by rewrite Eb in Hk|lia|exact Hw|lia].
  - rewrite Eb. apply Hend. eapply divide_loop_spec; [done|exact Hw|lia].
Qed.

Definition with_sign (neg : bool) s : list Z := if neg then 45 :: s else s.

Lemma formatBits_spec dst u base (neg append_ : bool) : 2 <= base <= 36 -> is_uint 64 u ->
  exists s, numeral base (if neg then u64 (- u) else u) s /\ formatBits dst u base neg append_ = Val (if append_ then (dst ++ with_sign neg s, []) else ([], with_sign neg s)).
Proof.
  intros Hb Hu. set (U := if neg then u64 (- u) else u). assert (HU : is_uint 64 U) by (unfold U; destruct neg; [by apply wrap_is_uint|done]).
  destruct (digits_written base U Hb HU) as (w & i & E & Hn & Hl & Hi). exists w. split; [done|]. unfold formatBits. rewrite (proj2 (Z.ltb_ge base 2)), (proj2 (Z.ltb_ge (zlen digits) base)) by (change (zlen digits) with 36; lia). cbn [orb].
  change (zlen (make 0 (64 + 1))) with 65. cbv zeta. fold U. rewrite E. cbn [mbind outcome_bind]. assert (Hi65 : i <= 65) by lia.
  assert (Hfin : forall j s, 0 <= j <= 65 -> zlen s = 65 - j -> slice (take (Z.to_nat j) (make 0 65) ++ s) j (zlen (take (Z.to_nat j) (make 0 65) ++ s)) = Val s).
  { intros j s Hj Hs. assert (Et : length (take (Z.to_nat j) (make 0 65)) = Z.to_nat j) by (rewrite length_take; pose proof (length_make 0 65 ltac:(lia)); lia). rewrite slice_from by (rewrite zlen_app, Et; lia). by rewrite drop_app_length' by done. }
  destruct neg; cbn [with_sign].
  - rewrite store_back by (rewrite length_make by done; lia). cbn [mbind outcome_bind]. rewrite Hfin by (cbn [length]; lia). by destruct append_.
  - cbn [mbind outcome_bind]. rewrite Hfin by lia. by destruct append_.
Qed.

Lemma digits_of_sign dst dst' u base (neg : bool) : 2 <= base <= 36 -> is_uint 64 u ->
  exists s, formatBits dst u base neg false = Val ([], s) /\ formatBits dst' u base neg true = Val (dst' ++ s, []).
Proof.
  intros Hb Hu. destruct (digits_written base (if neg then u64 (- u) else u) Hb) as (w & i & E & _); [destruct neg; [by apply wrap_is_uint|done]|].
  destruct (formatBits_spec dst u base neg false Hb Hu) as (s & _ & Es). unfold formatBits in *. destruct ((base <? 2) || (zlen digits <? base)); [done|]. change (zlen (make 0 (64 + 1))) with 65 in *. cbv zeta in *. rewrite E in *. cbn [mbind outcome_bind] in *.
  destruct neg; [destruct (store _ _ _); [|done..]|]; cbn [mbind outcome_bind] in *; (destruct (slice _ _ _); [|done..]); injection Es as ->; by eexists.
Qed.

Lemma small_numeral i : 0 <= i < 100 -> exists s, small i = Val s /\ numeral 10 i s.
Proof.
  intros Hi. unfold small. destruct (Z.ltb_spec i 10).
  - exists [char i]. split.
    + destruct (digit_char i ltac:(lia)) as (Ei & _). unfold index in Ei. rewrite decide_True in Ei by lia. rewrite slice_val by (change (zlen digits) with 36; lia). replace (i + 1 - i) with 1 by lia.
      destruct (digits !! Z.to_nat i) as [c|] eqn:Ec; [|done]. injection Ei as ->. by rewrite (drop_S _ _ _ Ec).
    + destruct (digit_char i ltac:(lia)) as (_ & Ed & Hin & _). split; [rewrite fold_char by lia; done|]. split; [by constructor|]. split; [done|]. by intros [= ->].
  - assert (H100 : check_range 10 90 (λ i, bool_decide (small i = Val [char (i / 10); char (i mod 10)])) = true) by (vm_compute; reflexivity).
    pose proof (check_range_spec _ _ _ H100 i ltac:(lia)) as E. apply bool_decide_eq_true in E. unfold small in E. rewrite (proj2 (Z.ltb_ge i 10)) in E by done. exists [char (i / 10); char (i mod 10)]. split; [exact E|].
    assert (Hd : 1 <= i / 10 < 10) by (Z.to_euclidean_division_equations; lia). pose proof (Z.mod_pos_bound i 10 ltac:(lia)). destruct (digit_char (i / 10) ltac:(lia)) as (_ & _ & H1 & H48). destruct (digit_char (i mod 10) ltac:(lia)) as (_ & _ & H2 & _).
    split; [rewrite !fold_char by lia; cbn [fold_digits]; f_equal; Z.to_euclidean_division_equations; lia|]. split; [by repeat apply Forall_cons_2|]. split; [done|]. intros [= E']. specialize (H48 E'). lia.
Qed.

Lemma FormatUint_spec i base : 2 <= base <= 36 -> is_uint 64 i -> exists s, FormatUint i base = Val s /\ numeral base i s.
Proof.
  intros Hb Hi. unfold FormatUint. unfold nSmalls. destruct (fastSmalls && (i <? 100) && (base =? 10)) eqn:E.
  - rewrite !andb_true_iff, Z.ltb_lt, Z.eqb_eq in E. destruct E as [[_ Hs] ->]. apply small_numeral. unfold is_uint in Hi. lia.
  - destruct (formatBits_spec [] i base false false Hb Hi) as (s & Hn & ->). by exists s.
Qed.

(** What FormatInt writes: a minus sign for a negative number, and the numeral of its absolute value. *)
Lemma FormatInt_spec i base : 2 <= base <= 36 -> is_sint 64 i -> exists s, FormatInt i base = Val (with_sign (i <? 0) s) /\ numeral base (Z.abs i) s.
Proof.
  intros Hb Hi. unfold FormatInt. unfold nSmalls. destruct (fastSmalls && (0 <=? i) && (i <? 100) && (base =? 10)) eqn:E.
  - rewrite !andb_true_iff, Z.leb_le, Z.ltb_lt, Z.eqb_eq in E. destruct E as [[[_ H0] Hs] ->]. rewrite Z.abs_eq, (proj2 (Z.ltb_ge i 0)) by lia. by apply small_numeral.
  - destruct (formatBits_spec [] (u64 i) base (i <? 0) false Hb) as (s & Hn & ->); [by apply wrap_is_uint|]. exists s. split; [done|]. unfold is_sint in Hi. cbn in Hi.
    replace (Z.abs i) with (if i <? 0 then u64 (- u64 i) else u64 i); [done|]. destruct (Z.ltb_spec i 0); [|rewrite wrap_small by (unfold is_uint; lia); lia].
    unfold wrap. rewrite <- Z.sub_0_l, Zminus_mod_idemp_r, Z.sub_0_l. rewrite Z.mod_small; lia.
Qed.
End Formatting.
(** ** Parsing *)

(** Machine arithmetic in the loop of ParseUint is exact: the loop compares with unbounded numbers. *)
Inductive verdict : Type := Fits (n : Z) | TooLarge | Invalid.

Fixpoint read_digits (b : Z) (base0 : bool) (maxVal : Z) (s : list Z) (n : Z) : verdict :=
  match s with
  | [] => Fits n
  | c :: s =>
      if (c =? 95) && base0 then read_digits b base0 maxVal s n
      else match digit_value c with
           | Some d => if d <? b then (if maxVal <? n * b + d then TooLarge else read_digits b base0 maxVal s (n * b + d)) else Invalid
           | None => Invalid
           end
  end.

Definition report (maxVal : Z) (fn s : list Z) (v : verdict) : Z * option NumError :=
  match v with Fits n => (n, None) | TooLarge => (maxVal, Some (rangeError fn s)) | Invalid => (0, Some (syntaxError fn s)) end.

(** The digits that count: with base 0 the underscores are left out. *)
Definition significant (base0 : bool) (s : list Z) : list Z := if base0 then filter (λ c, c <> 95) s else s.

Section Parsing.
Implicit Types (s : list Z) (b n d : Z).

Lemma digit_value_range c d : is_uint 8 c -> digit_value c = Some d -> 0 <= d < 36.
Proof.
  intros Hc. assert (H : check_range 0 256 (λ c, match digit_value c with Some d => (0 <=? d) && (d <? 36) | None => true end) = true) by (vm_compute; reflexivity).
  pose proof (check_range_spec _ _ _ H c Hc) as E. cbv beta in E. intros Ed. rewrite Ed, andb_true_iff, Z.leb_le, Z.ltb_lt in E. exact E.
Qed.

(** [cutoff] is the least number whose product with the base overflows. *)
Definition is_cutoff (b cutoff : Z) : Prop := forall n, (cutoff <=? n) = (2 ^ 64 <=? n * b).

Lemma cutoff_exact b : 2 <= b <= 36 -> is_cutoff b (if b =? 10 then maxUint64 / 10 + 1 else if b =? 16 then maxUint64 / 16 + 1 else u64 (maxUint64 / u64 b + 1)).
Proof.
  intros Hb n. assert (E : (if b =? 10 then maxUint64 / 10 + 1 else if b =? 16 then maxUint64 / 16 + 1 else u64 (maxUint64 / u64 b + 1)) = maxUint64 / b + 1).
  { destruct (Z.eqb_spec b 10) as [->|]; [done|]. destruct (Z.eqb_spec b 16) as [->|]; [done|]. rewrite (wrap_small 64 b) by (unfold is_uint; lia).
    assert (maxUint64 / b <= maxUint64 / 2) by (apply Z.div_le_compat_l; lia || done). assert (0 <= maxUint64 / b) by (apply Z.div_pos; done || lia). change (maxUint64 / 2) with (2 ^ 63 - 1) in *. apply wrap_small. unfold is_uint. lia. }
  rewrite E. unfold maxUint64. change (2 ^ 64) with 18446744073709551616. pose proof (Z.div_mod 18446744073709551615 b ltac:(lia)) as D. pose proof (Z.mod_pos_bound 18446744073709551615 b ltac:(lia)) as M.
  apply eq_iff_eq_true. rewrite !Z.leb_le. nia.
Qed.

Lemma digits_loop_exact b base0 cutoff maxVal fn s0 s n :
  2 <= b <= 36 -> is_cutoff b cutoff -> is_uint 64 maxVal -> bytes_ok s -> 0 <= n <= maxVal ->
  digits_loop b base0 cutoff maxVal fn s0 s n = report maxVal fn s0 (read_digits b base0 maxVal s n).
Proof.
  intros Hb Hcut Hmax Hs. revert n. induction Hs as [|c s Hc Hs IH]; intros n Hn; [done|]. cbn [digits_loop read_digits]. destruct ((c =? 95) && base0); [by apply IH|].
  rewrite digit_of_value by done. destruct (digit_value c) as [d|] eqn:Ed; [|done]. pose proof (digit_value_range c d Hc Ed) as Hd. rewrite (wrap_small 8 b) by (unfold is_uint; lia).
  destruct (Z.leb_spec b d), (Z.ltb_spec d b); [lia|done| |lia]. rewrite Hcut. unfold is_uint in Hmax. change (2 ^ 64) with 18446744073709551616 in *.
  destruct (Z.leb_spec 18446744073709551616 (n * b)) as [Hov|Hov]; [by rewrite (proj2 (Z.ltb_lt maxVal (n * b + d))) by nia|]. rewrite (wrap_small 64 (n * b)) by (unfold is_uint; nia).
  destruct (Z.ltb_spec maxVal (n * b + d)) as [Hm|Hm].
  - assert (E : (u64 (n * b + d) <? n * b) || (maxVal <? u64 (n * b + d)) = true).
    { apply orb_true_iff. rewrite !Z.ltb_lt. destruct (Z.lt_ge_cases (n * b + d) (2 ^ 64)) as [Hlt|Hge]; [right; rewrite wrap_small by (unfold is_uint; nia); lia|left].
      unfold wrap. replace (n * b + d) with (n * b + d - 2 ^ 64 + 1 * 2 ^ 64) by ring. rewrite Z.mod_add by done. rewrite Z.mod_small; lia. }
    by rewrite E.
  - rewrite (wrap_small 64 (n * b + d)) by (unfold is_uint; nia). rewrite (proj2 (Z.ltb_ge (n * b + d) (n * b))), (proj2 (Z.ltb_ge maxVal (n * b + d))) by lia. apply IH. nia.
Qed.

Lemma significant_cons base0 c s : (c =? 95) && base0 = false -> significant base0 (c :: s) = c :: significant base0 s.
Proof. intros Eu. destruct base0; [|done]. rewrite andb_true_r, Z.eqb_neq in Eu. cbn [significant]. by rewrite filter_cons_True. Qed.

Lemma significant_bytes base0 s : bytes_ok s -> bytes_ok (significant base0 s).
Proof. intros Hs. destruct base0; [|done]. apply Forall_forall. intros c [_ Hc]%list_elem_of_filter. by apply (proj1 (Forall_forall _ _) Hs). Qed.

(** What the loop says of a string that is a number. *)
Lemma fold_digits_ge b s n v : 2 <= b <= 36 -> bytes_ok s -> 0 <= n -> fold_digits b n s = Some v -> n <= v.
Proof.
  intros Hb Hs. revert n. induction Hs as [|c s Hc Hs IH]; intros n Hn E; cbn [fold_digits] in E; [by injection E as ->|]. destruct (digit_value c) as [d|] eqn:Ed; [|done]. pose proof (digit_value_range c d Hc Ed).
  destruct (d <? b); [|done]. specialize (IH (n * b + d) ltac:(nia) E). nia.
Qed.

Lemma read_digits_number b base0 maxVal s n v : 2 <= b <= 36 -> bytes_ok s -> 0 <= n <= maxVal -> fold_digits b n (significant base0 s) = Some v ->
  read_digits b base0 maxVal s n = if v <=? maxVal then Fits v else TooLarge.
Proof.
  intros Hb Hs. revert n. induction Hs as [|c s Hc Hs IH]; intros n Hn E.
  - destruct base0; cbn in E; injection E as <-; cbn [read_digits]; by rewrite (proj2 (Z.leb_le n maxVal)) by lia.
  - cbn [read_digits]. destruct ((c =? 95) && base0) eqn:Eu.
    + apply andb_true_iff in Eu as [->%Z.eqb_eq ->]. apply IH; [done|]. exact E.
    + rewrite significant_cons in E by done. cbn [fold_digits] in E. destruct (digit_value c) as [d|] eqn:Ed; [|done]. pose proof (digit_value_range c d Hc Ed). destruct (d <? b); [|done].
      pose proof (fold_digits_ge b _ (n * b + d) v Hb (significant_bytes base0 s Hs) ltac:(nia) E).
      destruct (Z.ltb_spec maxVal (n * b + d)); [by rewrite (proj2 (Z.leb_gt v maxVal)) by lia|]. apply IH; [nia|done].
Qed.

(** And of one that is not: it is invalid, unless digits before the invalid character are too large already. *)
Lemma read_digits_invalid b base0 maxVal s n : 2 <= b <= 36 -> bytes_ok s -> fold_digits b n (significant base0 s) = None ->
  read_digits b base0 maxVal s n = Invalid \/ read_digits b base0 maxVal s n = TooLarge /\ exists p v, p `prefix_of` significant base0 s /\ fold_digits b n p = Some v /\ maxVal < v.
Proof.
  intros Hb Hs. revert n. induction Hs as [|c s Hc Hs IH]; intros n E; [by destruct base0|]. cbn [read_digits]. destruct ((c =? 95) && base0) eqn:Eu.
  - apply andb_true_iff in Eu as [->%Z.eqb_eq ->]. apply IH. exact E.
  - rewrite significant_cons in * by done. cbn [fold_digits] in E. destruct (digit_value c) as [d|] eqn:Ed; [|by left]. destruct (d <? b) eqn:El; [|by left].
    destruct (Z.ltb_spec maxVal (n * b + d)) as [Hm|Hm].
    + right. split; [done|]. exists [c], (n * b + d). split; [apply prefix_cons, prefix_nil|]. cbn [fold_digits]. by rewrite Ed, El.
    + destruct (IH _ E) as [->|(-> & p & v & Hp & Hv & Hm')]; [by left|]. right. split; [done|]. exists (c :: p), v. split; [by apply prefix_cons|]. cbn [fold_digits]. by rewrite Ed, El.
Qed.

(** *** Underscores *)

Definition is_digit (hex : bool) (c : Z) : bool := match digit_value c with Some d => d <? (if hex then 16 else 10) | None => false end.

Lemma is_digit_code hex c : is_digit hex c = (48 <=? c) && (c <=? 57) || hex && (97 <=? lower c) && (lower c <=? 102).
Proof.
  revert c. apply for_characters; [by destruct hex; vm_compute|]. intros c Hc. unfold is_digit. rewrite digit_value_out by done. pose proof (lower_byte c) as Hl. unfold is_uint in *.
  destruct (Z.leb_spec 48 c), (Z.leb_spec c 57), (Z.leb_spec 97 (lower c)), (Z.leb_spec (lower c) 102); cbn [andb orb]; rewrite ?andb_false_r, ?andb_true_r; try done; exfalso; apply Hc; try apply Hl; lia.
Qed.
Definition digit_at (hex : bool) (s : list Z) (i : nat) : Prop := exists c, s !! i = Some c /\ is_digit hex c = true.

(** Every underscore of [s] is between two digits; [p] is the character before [s]. *)
Definition separated (hex : bool) (p : Z) s : Prop := forall i, s !! i = Some 95 -> digit_at hex (p :: s) i /\ digit_at hex s (S i).

Lemma underscore_loop_spec hex s : forall p saw, saw <> 95 \/ saw = 95 /\ p = 95 -> (saw = 48 <-> is_digit hex p = true) ->
  (match underscore_loop hex s saw with Some r => r <> 95 | None => False end) <-> (saw = 95 -> digit_at hex s 0) /\ separated hex p s.
Proof.
  assert (H95 : is_digit hex 95 = false) by (by destruct hex). assert (D0 : forall c l, digit_at hex (c :: l) 0 <-> is_digit hex c = true) by (intros c l; split; [by intros (? & [= ->] & ?)|by exists c]).
  assert (DS : forall c l i, digit_at hex (c :: l) (S i) <-> digit_at hex l i) by done.
  assert (Scons : forall p c l, separated hex p (c :: l) <-> (c = 95 -> is_digit hex p = true /\ digit_at hex l 0) /\ separated hex c l).
  { intros p c l. split; [intros Hs; split|].
    - intros ->. destruct (Hs 0%nat eq_refl) as [H1 H2]. split; [by apply D0 in H1|exact H2].
    - intros i Hi. exact (Hs (S i) Hi).
    - intros [H1 H2] [|i] Hi; [injection Hi as ->; destruct (H1 eq_refl); split; [by apply D0|done]|exact (H2 i Hi)]. }
  induction s as [|c s IH]; intros p saw Hsaw Hdig; cbn [underscore_loop].
  - split; [intros H; split; [done|intros i Hi; done]|]. intros [H _] E. destruct (H E) as (? & ? & _). done.
  - rewrite <- is_digit_code. rewrite Scons, D0. destruct (is_digit hex c) eqn:Ec.
    + assert (c <> 95) by congruence. rewrite (IH c 48) by (tauto || lia). assert (48 <> 95) by done. tauto.
    + destruct (Z.eqb_spec c 95) as [->|Hc].
      * destruct (Z.eqb_spec saw 48) as [->|H48]; cbn [negb].
        -- rewrite (IH 95 95) by (try rewrite H95; intuition congruence). assert (48 <> 95) by done. tauto.
        -- split; [done|]. intros (_ & H & _). destruct (H eq_refl). tauto.
      * destruct (Z.eqb_spec saw 95) as [->|H9]; [split; [done|intros [H _]; by specialize (H eq_refl)]|]. rewrite (IH c 33) by (rewrite ?Ec; intuition congruence). assert (33 <> 95) by done. tauto.
Qed.

Definition unsigned_part s : list Z := match s with c :: s' => if (c =? 45) || (c =? 43) then s' else s | [] => s end.
(** The base that a prefix announces: [0b] binary, [0o] octal or [0x] hexadecimal, with small or capital letters. *)
Definition base_of_letter (c : Z) : option Z := if bool_decide (c ∈ str "bB") then Some 2 else if bool_decide (c ∈ str "oO") then Some 8 else if bool_decide (c ∈ str "xX") then Some 16 else None.

Lemma base_of_letter_code c : base_of_letter c = if lower c =? 98 then Some 2 else if lower c =? 111 then Some 8 else if lower c =? 120 then Some 16 else None.
Proof.
  destruct (decide (is_uint 8 c)) as [Hc|Hc]; [apply (check_range_eq base_of_letter (λ c, if lower c =? 98 then Some 2 else if lower c =? 111 then Some 8 else if lower c =? 120 then Some 16 else None) 0 256); [by vm_compute|exact Hc]|].
  pose proof (lower_byte c) as Hl. assert (Hn : lower c <> 98 /\ lower c <> 111 /\ lower c <> 120) by (split_and!; intros E; apply Hc, Hl; rewrite E; lia). destruct Hn as (H1 & H2 & H3). rewrite !(proj2 (Z.eqb_neq _ _)) by done.
  unfold base_of_letter, is_uint in *. rewrite !bool_decide_eq_false_2 by (cbn; rewrite !elem_of_cons, elem_of_nil; lia). done.
Qed.

Definition prefix_of_base s : option Z :=
  match s with
  | c0 :: c1 :: _ => if c0 =? 48 then base_of_letter c1 else None
  | _ => None
  end.
(** A prefix counts as a digit before an underscore. *)
Definition underscores_separated s : Prop :=
  let s := unsigned_part s in
  match prefix_of_base s with Some b => separated (b =? 16) 48 (drop 2 s) | None => separated false 94 s end.

Lemma underscoreOK_spec s : underscoreOK s = true <-> underscores_separated s.
Proof.
  unfold underscoreOK, underscores_separated. fold (unsigned_part s). set (t := unsigned_part s). clearbody t. clear s. cbv zeta.
  assert (Hr : forall hex p saw l, saw = 48 \/ saw = 94 -> (saw = 48 <-> is_digit hex p = true) -> (match underscore_loop hex l saw with Some r => negb (r =? 95) | None => false end) = true <-> separated hex p l).
  { intros hex p saw l Hsaw Hp. assert (saw <> 95) by lia. pose proof (underscore_loop_spec hex l p saw ltac:(by left) Hp) as E. destruct (underscore_loop hex l saw); [rewrite negb_true_iff, Z.eqb_neq|]; [tauto|]. split; [done|tauto]. }
  destruct t as [|c0 [|c1 t]]; cbn [prefix_of_base]; [apply Hr; [by right|done]..|]. rewrite base_of_letter_code. destruct (Z.eqb_spec c0 48) as [->|Hc0]; cbn [andb]; [|apply Hr; [by right|done]].
  destruct (Z.eqb_spec (lower c1) 98) as [->|H98]; cbn [orb andb]; [apply (Hr false); [by left|done]|]. destruct (Z.eqb_spec (lower c1) 111) as [->|H111]; cbn [orb andb]; [apply (Hr false); [by left|done]|].
  destruct (Z.eqb_spec (lower c1) 120) as [_|H120]; cbn [orb andb]; [apply (Hr true); [by left|done]|]. apply Hr; [by right|done].
Qed.

(** *** ParseUint *)

(** The base and the digits that a string stands for. *)
Definition literal (base : Z) s : Z * list Z :=
  if base =? 0 then
    match s with
    | c :: s' => if negb (c =? 48) then (10, s) else if zlen s <? 3 then (8, s') else match prefix_of_base s with Some b => (b, drop 2 s) | None => (8, s') end
    | [] => (10, [])
    end
  else (base, s).

Definition valid_base b : Prop := b = 0 \/ 2 <= b <= 36.
Definition bits_of (bitSize : Z) : Z := if bitSize =? 0 then 64 else bitSize.

Lemma base_prefix_literal c s : base_prefix (c :: s) = Val (literal 0 (c :: s)).
Proof.
  unfold base_prefix, literal. change (0 =? 0) with true. cbv iota. rewrite (index_Val _ 0 c) by done. cbn [mbind outcome_bind]. destruct (Z.eqb_spec c 48) as [->|]; cbn [negb]; [|done].
  assert (E1 : slice (48 :: s) 1 (zlen (48 :: s)) = Val s) by (rewrite slice_from by (cbn [length]; lia); done). destruct (Z.leb_spec 3 (zlen (48 :: s))) as [H3|H3].
  - rewrite (proj2 (Z.ltb_ge (zlen (48 :: s)) 3)) by done. destruct s as [|c1 s]; [cbn [length] in H3; lia|]. rewrite (index_Val _ 1 c1) by done. cbn [mbind outcome_bind andb prefix_of_base]. rewrite base_of_letter_code. change (48 =? 48) with true. cbv iota.
    assert (E2 : slice (48 :: c1 :: s) 2 (zlen (48 :: c1 :: s)) = Val s) by (rewrite slice_from by (cbn [length] in *; lia); done). rewrite E1, E2. destruct (lower c1 =? 98); [done|]. destruct (lower c1 =? 111); [done|]. by destruct (lower c1 =? 120).
  - rewrite (proj2 (Z.ltb_lt (zlen (48 :: s)) 3)) by done. cbn [mbind outcome_bind andb]. by rewrite E1.
Qed.

Lemma literal_valid base s : valid_base base -> bytes_ok s -> 2 <= fst (literal base s) <= 36 /\ bytes_ok (snd (literal base s)).
Proof.
  intros Hb Hs. unfold literal. destruct (Z.eqb_spec base 0) as [->|Hn]; [|destruct Hb; [done|by split]]. destruct s as [|c s]; [done|]. destruct (negb (c =? 48)); [done|].
  assert (bytes_ok s) by by inversion Hs. destruct (zlen (c :: s) <? 3); [done|]. destruct (prefix_of_base (c :: s)) as [b|] eqn:E; [|done]. split; [|by apply Forall_drop].
  destruct s as [|c1 s]; [done|]. cbn [prefix_of_base] in E. rewrite base_of_letter_code in E. destruct (c =? 48); [|done]. destruct (lower c1 =? 98); [by injection E as <-|]. destruct (lower c1 =? 111); [by injection E as <-|]. destruct (lower c1 =? 120); [by injection E as <-|done].
Qed.

Lemma max_value bits : 0 <= bits <= 64 -> u64 (1 <<.[64] bits - 1) = 2 ^ bits - 1 /\ is_uint 64 (2 ^ bits - 1).
Proof.
  intros Hb. assert (H0 : 0 < 2 ^ bits) by (apply Z.pow_pos_nonneg; lia). destruct (Z.eq_dec bits 64) as [->|Hn]; [done|]. assert (2 ^ bits < 2 ^ 64) by (apply Z.pow_lt_mono_r; lia).
  assert (is_uint 64 (2 ^ bits - 1)) by (unfold is_uint; lia). split; [|done]. unfold shl. rewrite Z.shiftl_1_l, (wrap_small 64 (2 ^ bits)) by (unfold is_uint; lia). by apply wrap_small.
Qed.

(** ParseUint, for a base and a size that it accepts. *)
Lemma ParseUint_exact s base bitSize : bytes_ok s -> valid_base base -> 0 <= bitSize <= 64 ->
  ParseUint s base bitSize = Val (if bool_decide (s = []) || negb (underscoreOK s) then (0, Some (syntaxError fnParseUint s))
    else report (2 ^ bits_of bitSize - 1) fnParseUint s (read_digits (fst (literal base s)) (base =? 0) (2 ^ bits_of bitSize - 1) (snd (literal base s)) 0)).
Proof.
  intros Hs Hb Hbits. unfold ParseUint. destruct (bool_decide (s = []) || negb (underscoreOK s)) eqn:E; [done|]. destruct (literal_valid base s Hb Hs) as [Hlb Hls].
  assert (Hne : s <> []) by (intros ->; done). replace (negb ((2 <=? base) && (base <=? 36)) && negb (base =? 0)) with false by (destruct Hb as [->|Hb]; [done|]; symmetry; rewrite (proj2 (Z.leb_le 2 base)), (proj2 (Z.leb_le base 36)) by lia; done).
  replace (if (2 <=? base) && (base <=? 36) then Val (base, s) else base_prefix s) with (Val (literal base s)).
  2: { destruct Hb as [->|Hb]; [destruct s; [done|]; by rewrite base_prefix_literal|]. rewrite (proj2 (Z.leb_le 2 base)), (proj2 (Z.leb_le base 36)) by lia. unfold literal. by rewrite (proj2 (Z.eqb_neq base 0)) by lia. }
  destruct (literal base s) as [b l] eqn:El. cbn [fst snd] in *. cbn [mbind outcome_bind]. replace (negb (bitSize =? 0) && ((bitSize <? 0) || (64 <? bitSize))) with false by (symmetry; rewrite (proj2 (Z.ltb_ge bitSize 0)), (proj2 (Z.ltb_ge 64 bitSize)) by lia; by rewrite andb_false_r).
  change (if bitSize =? 0 then IntSize else bitSize) with (bits_of bitSize). assert (Hbo : 1 <= bits_of bitSize <= 64) by (unfold bits_of; destruct (Z.eqb_spec bitSize 0); lia).
  destruct (max_value (bits_of bitSize) ltac:(lia)) as [-> Hmax]. f_equal. pose proof (cutoff_exact b Hlb) as Hc. rewrite (wrap_small 64 b) in * by (unfold is_uint; lia).
  apply digits_loop_exact; [done|exact Hc|done|done|unfold is_uint in Hmax; lia].
Qed.

(** The meaning of a string: the number that its digits denote, [None] when it is not well formed. *)
Definition denotes (base : Z) s : option Z :=
  if bool_decide (s = []) || negb (underscoreOK s) then None else fold_digits (fst (literal base s)) 0 (significant (base =? 0) (snd (literal base s))).

(** A malformed string is a syntax error, unless its first digits are too large already. *)
Definition too_large_before (base maxVal : Z) s : Prop :=
  s <> [] /\ underscoreOK s = true /\ exists p v, p `prefix_of` significant (base =? 0) (snd (literal base s)) /\ fold_digits (fst (literal base s)) 0 p = Some v /\ maxVal < v.

Lemma ParseUint_spec s base bitSize : bytes_ok s -> valid_base base -> 0 <= bitSize <= 64 ->
  let maxVal := 2 ^ bits_of bitSize - 1 in
  match denotes base s with
  | Some v => 0 <= v /\ ParseUint s base bitSize = Val (if v <=? maxVal then (v, None) else (maxVal, Some (rangeError fnParseUint s)))
  | None => ParseUint s base bitSize = Val (0, Some (syntaxError fnParseUint s)) \/ ParseUint s base bitSize = Val (maxVal, Some (rangeError fnParseUint s)) /\ too_large_before base maxVal s
  end.
Proof.
  intros Hs Hb Hbits maxVal. rewrite ParseUint_exact by done. fold maxVal. unfold denotes, too_large_before. destruct (bool_decide (s = []) || negb (underscoreOK s)) eqn:E; [by left|].
  apply orb_false_iff in E as [E1%bool_decide_eq_false E2%negb_false_iff]. destruct (literal_valid base s Hb Hs) as [Hlb Hls]. set (b := fst (literal base s)) in *. set (l := snd (literal base s)) in *.
  assert (Hmax : 0 <= maxVal). { unfold maxVal. assert (0 < 2 ^ bits_of bitSize) by (apply Z.pow_pos_nonneg; unfold bits_of; destruct (bitSize =? 0); lia). lia. }
  destruct (fold_digits b 0 (significant (base =? 0) l)) as [v|] eqn:Ev.
  - split; [apply (fold_digits_ge b _ 0 v Hlb (significant_bytes _ _ Hls) ltac:(lia) Ev)|]. rewrite (read_digits_number b (base =? 0) maxVal l 0 v) by (done || lia). by destruct (v <=? maxVal).
  - destruct (read_digits_invalid b (base =? 0) maxVal l 0 Hlb Hls Ev) as [->|(-> & H)]; [by left|by right].
Qed.

(** *** ParseInt *)

Definition sign_split s : bool * list Z :=
  match s with c :: s' => if c =? 43 then (false, s') else if c =? 45 then (true, s') else (false, s) | [] => (false, []) end.

(** The number with a sign and a magnitude, or the extreme one on that side when it does not fit. *)
Definition signed_value (neg : bool) (bits v : Z) : Z * bool :=
  let half := 2 ^ (bits - 1) in
  if neg then (if v <=? half then (- v, true) else (- half, false)) else (if v <? half then (v, true) else (half - 1, false)).

Definition ranged (fn s : list Z) (r : Z * bool) : Z * option NumError := (fst r, if snd r then None else Some (rangeError fn s)).

Lemma i64_min x : x = 2 ^ 63 -> i64 x = - 2 ^ 63.
Proof. by intros ->. Qed.

Lemma signed_result (neg : bool) bits un fn s : 1 <= bits <= 64 -> is_uint 64 un ->
  (let cutoff := 1 <<.[64] (bits - 1) in
   if negb neg && (cutoff <=? un) then Val (i64 (u64 (cutoff - 1)), Some (rangeError fn s))
   else if neg && (cutoff <? un) then Val (i64 (- i64 cutoff), Some (rangeError fn s))
   else Val (if neg then i64 (- i64 un) else i64 un, None)) = Val (ranged fn s (signed_value neg bits un)).
Proof.
  intros Hb Hun. assert (H0 : 0 < 2 ^ (bits - 1)) by (apply Z.pow_pos_nonneg; lia). assert (H63 : 2 ^ (bits - 1) <= 2 ^ 63) by (apply Z.pow_le_mono_r; lia). unfold is_uint in Hun. change (2 ^ 64) with (2 * 2 ^ 63) in *.
  unfold shl. rewrite Z.shiftl_1_l, (wrap_small 64 (2 ^ (bits - 1))) by (unfold is_uint; change (2 ^ 64) with (2 * 2 ^ 63); lia). unfold signed_value, ranged. set (half := 2 ^ (bits - 1)) in *. clearbody half. cbv zeta.
  assert (Hi : forall x, - 2 ^ 63 <= x < 2 ^ 63 -> i64 x = x) by (intros x Hx; by apply swrap_small). destruct neg; cbn [negb andb].
  - destruct (Z.ltb_spec half un), (Z.leb_spec un half); try lia; cbn [fst snd]; repeat f_equal.
    + destruct (Z.eq_dec half (2 ^ 63)) as [E|]; [rewrite (i64_min half E), E; done|]. rewrite (Hi half) by lia. apply Hi. lia.
    + destruct (Z.eq_dec un (2 ^ 63)) as [E|]; [rewrite (i64_min un E), E; done|]. rewrite (Hi un) by lia. apply Hi. lia.
  - destruct (Z.leb_spec half un), (Z.ltb_spec un half); try lia; cbn [fst snd]; repeat f_equal; [|by apply Hi; lia]. rewrite wrap_small by (unfold is_uint; lia). apply Hi. lia.
Qed.

Lemma ParseInt_unfold s base bitSize un err : let (neg, t) := sign_split s in s <> [] -> ParseUint t base bitSize = Val (un, err) -> 1 <= bits_of bitSize <= 64 -> is_uint 64 un ->
  ParseInt s base bitSize = Val (match err with Some e => if bool_decide (Err e = ErrRange) then ranged fnParseInt s (signed_value neg (bits_of bitSize) un) else (0, Some (MkNumError fnParseInt s (Err e))) | None => ranged fnParseInt s (signed_value neg (bits_of bitSize) un) end).
Proof.
  destruct (sign_split s) as [neg t] eqn:Es. intros Hne HP Hb Hun. destruct s as [|c s]; [done|]. unfold ParseInt. rewrite bool_decide_eq_false_2 by done. rewrite (index_Val _ 0 c) by done. cbn [mbind outcome_bind].
  assert (E1 : slice (c :: s) 1 (zlen (c :: s)) = Val s) by (rewrite slice_from by (cbn [length]; lia); done). rewrite E1. cbn [mbind outcome_bind].
  replace (if c =? 43 then Val (false, s) else if c =? 45 then Val (true, s) else Val (false, c :: s)) with (Val (neg, t)) by (unfold sign_split in Es; destruct (c =? 43); [by rewrite Es|]; destruct (c =? 45); by rewrite Es).
  cbn [mbind outcome_bind]. rewrite HP. cbn [mbind outcome_bind]. change (if bitSize =? 0 then IntSize else bitSize) with (bits_of bitSize).
  pose proof (signed_result neg (bits_of bitSize) un fnParseInt (c :: s) Hb Hun) as E. cbv zeta in *. destruct err as [e|]; [|exact E]. case_bool_decide; cbn [negb]; [exact E|done].
Qed.

Lemma bits_of_range bitSize : 0 <= bitSize <= 64 -> 1 <= bits_of bitSize <= 64.
Proof. unfold bits_of. destruct (Z.eqb_spec bitSize 0); lia. Qed.

(** A magnitude above all that ParseUint accepts is out of range, except with one bit (where the least number is -1). *)
Lemma signed_value_max neg bits v : 2 <= bits -> 2 ^ bits - 1 < v -> signed_value neg bits (2 ^ bits - 1) = signed_value neg bits v.
Proof.
  intros Hb Hv. assert (E : 2 ^ bits = 2 * 2 ^ (bits - 1)) by (rewrite <- Z.pow_succ_r by lia; f_equal; lia). assert (H2 : 2 ^ 1 <= 2 ^ (bits - 1)) by (apply Z.pow_le_mono_r; lia). change (2 ^ 1) with 2 in H2. unfold signed_value. set (half := 2 ^ (bits - 1)) in *. clearbody half.
  destruct neg; [rewrite (proj2 (Z.leb_gt (2 ^ bits - 1) half)), (proj2 (Z.leb_gt v half)) by lia; done|]. by rewrite (proj2 (Z.ltb_ge (2 ^ bits - 1) half)), (proj2 (Z.ltb_ge v half)) by lia.
Qed.

Lemma ParseInt_spec s base bitSize : bytes_ok s -> valid_base base -> 0 <= bitSize <= 64 -> bitSize <> 1 ->
  let bits := bits_of bitSize in
  let (neg, t) := sign_split s in
  match denotes base t with
  | Some v => ParseInt s base bitSize = Val (ranged fnParseInt s (signed_value neg bits v))
  | None => ParseInt s base bitSize = Val (0, Some (syntaxError fnParseInt s))
      \/ ParseInt s base bitSize = Val (ranged fnParseInt s (signed_value neg bits (2 ^ bits))) /\ too_large_before base (2 ^ bits - 1) t
  end.
Proof.
  intros Hs Hb Hbits H1 bits. destruct (sign_split s) as [neg t] eqn:Es. assert (Hbo : 2 <= bits <= 64) by (pose proof (bits_of_range bitSize Hbits); unfold bits, bits_of in *; destruct (Z.eqb_spec bitSize 0); lia).
  destruct (decide (s = [])) as [->|Hne]; [injection Es as <- <-; by left|]. assert (Ht : bytes_ok t) by (destruct s as [|c s]; [done|]; inversion Hs; subst; unfold sign_split in Es; destruct (c =? 43); [by injection Es as <- <-|]; destruct (c =? 45); by injection Es as <- <-).
  assert (H2 : 2 ^ 0 <= 2 ^ bits <= 2 ^ 64) by (split; apply Z.pow_le_mono_r; lia). change (2 ^ 0) with 1 in H2.
  pose proof (ParseInt_unfold s base bitSize) as HI. rewrite Es in HI. fold bits in HI. pose proof (ParseUint_spec t base bitSize Ht Hb Hbits) as HU. cbv zeta in HU. fold bits in HU. destruct (denotes base t) as [v|].
  - destruct HU as [Hv HU]. destruct (Z.leb_spec v (2 ^ bits - 1)) as [Hle|Hgt]; rewrite (HI _ _ Hne HU) by (unfold is_uint; lia); [done|]. cbn [Err rangeError]. rewrite bool_decide_eq_true_2 by done. by rewrite (signed_value_max neg bits v) by lia.
  - destruct HU as [HU|[HU Hl]]; rewrite (HI _ _ Hne HU) by (unfold is_uint; lia); [left; done|right]. cbn [Err rangeError]. rewrite bool_decide_eq_true_2 by done. by rewrite (signed_value_max neg bits (2 ^ bits)) by lia.
Qed.

(** *** What is printed is read back *)

Lemma fold_digits_no_underscore b s n v : fold_digits b n s = Some v -> 95 ∉ s.
Proof.
  revert n. induction s as [|c s IH]; intros n E H; [by apply not_elem_of_nil in H|]. cbn [fold_digits] in E. apply elem_of_cons in H as [<-|H]; [done|]. destruct (digit_value c) as [d|]; [|done]. destruct (d <? b); [|done]. by apply (IH _ E).
Qed.

Lemma underscoreOK_none s : 95 ∉ s -> underscoreOK s = true.
Proof.
  intros H. apply underscoreOK_spec. unfold underscores_separated. assert (H' : 95 ∉ unsigned_part s). { destruct s as [|c s]; [done|]. cbn [unsigned_part]. destruct ((c =? 45) || (c =? 43)); [|done]. by apply not_elem_of_cons in H as [_ H]. }
  destruct (prefix_of_base _); intros i Hi; [apply list_elem_of_lookup_2, (subseteq_drop 2) in Hi|apply list_elem_of_lookup_2 in Hi]; done.
Qed.

Lemma denotes_digits b s v : 2 <= b <= 36 -> s <> [] -> fold_digits b 0 s = Some v -> denotes b s = Some v.
Proof.
  intros Hb Hne Hv. unfold denotes, literal. rewrite bool_decide_eq_false_2, underscoreOK_none by (done || by eapply fold_digits_no_underscore). cbn [orb negb]. by rewrite (proj2 (Z.eqb_neq b 0)) by lia.
Qed.

Lemma numeral_bytes b u s : numeral b u s -> bytes_ok s.
Proof.
  intros (_ & Hd & _). eapply Forall_impl; [exact Hd|]. intros c Hc. assert (H : Forall (is_uint 8) digits) by (apply (proj1 (bool_decide_eq_true _)); vm_compute; reflexivity). by apply (proj1 (Forall_forall _ _) H).
Qed.

Lemma numeral_sign b u s (neg : bool) : numeral b u s -> sign_split (with_sign neg s) = (neg, s).
Proof.
  intros (_ & Hd & Hne & _). destruct neg; [done|]. destruct s as [|c s]; [done|]. inversion Hd as [|?? Hc _]; subst. cbn [with_sign sign_split].
  destruct (Z.eqb_spec c 43) as [->|]; [exfalso; revert Hc; apply (proj1 (bool_decide_eq_false _)); vm_compute; reflexivity|]. destruct (Z.eqb_spec c 45) as [->|]; [exfalso; revert Hc; apply (proj1 (bool_decide_eq_false _)); vm_compute; reflexivity|done].
Qed.

Lemma denotes_numeral b u s : 2 <= b <= 36 -> numeral b u s -> denotes b s = Some u.
Proof. intros Hb (Hv & _ & Hne & _). by apply denotes_digits. Qed.

Lemma signed_value_fits bits i : 2 <= bits -> is_sint bits i -> signed_value (i <? 0) bits (Z.abs i) = (i, true).
Proof.
  intros Hb Hi. unfold is_sint in Hi. unfold signed_value. destruct (Z.ltb_spec i 0).
  - rewrite Z.abs_neq, (proj2 (Z.leb_le _ _)) by lia. f_equal. lia.
  - rewrite Z.abs_eq, (proj2 (Z.ltb_lt _ _)) by lia. done.
Qed.

Lemma ParseInt_numeral b u s (neg : bool) bitSize : 2 <= b <= 36 -> numeral b u s -> 0 <= bitSize <= 64 -> bitSize <> 1 ->
  ParseInt (with_sign neg s) b bitSize = Val (ranged fnParseInt (with_sign neg s) (signed_value neg (bits_of bitSize) u)).
Proof.
  intros Hb Hn Hbits H1. assert (Hs : bytes_ok (with_sign neg s)) by (destruct neg; [constructor; [done|]|]; by eapply numeral_bytes).
  pose proof (ParseInt_spec (with_sign neg s) b bitSize Hs ltac:(by right) Hbits H1) as H. cbv zeta in H. rewrite (numeral_sign b u s neg Hn) in H. by rewrite (denotes_numeral b u s Hb Hn) in H.
Qed.

(** *** Atoi *)

Lemma fold_digits_bound b s n v : 2 <= b <= 36 -> bytes_ok s -> 0 <= n -> fold_digits b n s = Some v -> v < (n + 1) * b ^ zlen s.
Proof.
  intros Hb Hs. revert n. induction Hs as [|c s Hc Hs IH]; intros n Hn E; cbn [fold_digits] in E; [injection E as <-; cbn; lia|]. destruct (digit_value c) as [d|] eqn:Ed; [|done]. pose proof (digit_value_range c d Hc Ed). destruct (Z.ltb_spec d b); [|done].
  specialize (IH (n * b + d) ltac:(nia) E). replace (zlen (c :: s)) with (Z.succ (zlen s)) by (cbn [length]; lia). rewrite Z.pow_succ_r by lia. assert (0 < b ^ zlen s) by (apply Z.pow_pos_nonneg; lia). nia.
Qed.

Lemma decimal_loop_spec s n : bytes_ok s -> 0 <= n -> (n + 1) * 10 ^ zlen s <= 2 ^ 63 -> decimal_loop s n = fold_digits 10 n s.
Proof.
  intros Hs. revert n. induction Hs as [|c s Hc Hs IH]; intros n Hn Hb; [done|]. cbn [decimal_loop fold_digits]. cbv zeta.
  assert (H : check_range 0 256 (λ c, bool_decide ((if 9 <? u8 (c - 48) then None else Some (u8 (c - 48))) = match digit_value c with Some d => if d <? 10 then Some d else None | None => None end) && (0 <=? u8 (c - 48))) = true) by (vm_compute; reflexivity).
  pose proof (check_range_spec _ _ _ H c Hc) as E. cbv beta in E. apply andb_true_iff in E as [E%bool_decide_eq_true E0%Z.leb_le]. destruct (Z.ltb_spec 9 (u8 (c - 48))) as [H9|H9].
  - destruct (digit_value c) as [d|]; [|done]. by destruct (d <? 10).
  - destruct (digit_value c) as [d|]; [|done]. destruct (d <? 10); [|done]. injection E as E. rewrite E in *. replace (zlen (c :: s)) with (Z.succ (zlen s)) in Hb by (cbn [length]; lia). rewrite Z.pow_succ_r in Hb by lia. assert (0 < 10 ^ zlen s) by (apply Z.pow_pos_nonneg; lia).
    rewrite swrap_small by (unfold is_sint; change (64 - 1) with 63; nia). apply IH; nia.
Qed.

Definition as_Atoi (r : Z * option NumError) : Z * option NumError := (fst r, match snd r with Some e => Some (MkNumError fnAtoi (Num e) (Err e)) | None => None end).

Lemma Atoi_fast s : bytes_ok s -> 0 < zlen s < 19 ->
  let (neg, t) := sign_split s in
  Atoi s = Val (match t with [] => (0, Some (syntaxError fnAtoi s)) | _ => match fold_digits 10 0 t with Some v => (if neg then - v else v, None) | None => (0, Some (syntaxError fnAtoi s)) end end).
Proof.
  intros Hs Hl. destruct (sign_split s) as [neg t] eqn:Es. unfold Atoi. rewrite (proj2 (Z.ltb_lt 0 (zlen s))), (proj2 (Z.ltb_lt (zlen s) 19)) by lia. change (intSize =? 64) with true. rewrite orb_true_r. destruct s as [|c s]; [cbn [length] in Hl; lia|].
  rewrite (index_Val _ 0 c) by done. cbn [mbind outcome_bind]. assert (E1 : slice (c :: s) 1 (zlen (c :: s)) = Val s) by (rewrite slice_from by (cbn [length]; lia); done). rewrite E1.
  assert (Ht : bytes_ok t /\ zlen t <= 18 /\ (if (c =? 45) || (c =? 43) then Val s else Val (c :: s)) = Val t /\ neg = (c =? 45) /\ ((c =? 45) || (c =? 43) = false -> t <> [])).
  { inversion Hs; subst. unfold sign_split in Es. destruct (Z.eqb_spec c 43) as [->|]; [injection Es as <- <-; cbn [length] in *; split_and!; try done; lia|]. destruct (Z.eqb_spec c 45) as [->|]; injection Es as <- <-; cbn [length orb] in *; split_and!; try done; lia. }
  destruct Ht as (Ht & Hlt & -> & -> & Hnil). cbn [mbind outcome_bind]. assert (Hp : 10 ^ zlen t <= 10 ^ 18) by (apply Z.pow_le_mono_r; lia). rewrite (decimal_loop_spec t 0) by (done || (change (10 ^ 18) with 1000000000000000000 in Hp; lia)).
  destruct t as [|c' t]; [destruct ((c =? 45) || (c =? 43)); [done|by destruct Hnil]|]. rewrite (proj2 (Z.ltb_ge (zlen (c' :: t)) 1)) by (cbn [length]; lia). rewrite andb_false_r. destruct (fold_digits 10 0 (c' :: t)) as [v|] eqn:Ev; [|done].
  pose proof (fold_digits_bound 10 _ 0 v ltac:(lia) Ht ltac:(lia) Ev). pose proof (fold_digits_ge 10 _ 0 v ltac:(lia) Ht ltac:(lia) Ev). change (10 ^ 18) with 1000000000000000000 in Hp. destruct (c =? 45); [|done]. by rewrite swrap_small by (unfold is_sint; change (2 ^ (64 - 1)) with 9223372036854775808; lia).
Qed.

(** On a short string ParseInt does what the fast path does. *)
Lemma ParseInt_short s : bytes_ok s -> 0 < zlen s < 19 ->
  let (neg, t) := sign_split s in
  ParseInt s 10 0 = Val (match t with [] => (0, Some (syntaxError fnParseInt s)) | _ => match fold_digits 10 0 t with Some v => (if neg then - v else v, None) | None => (0, Some (syntaxError fnParseInt s)) end end).
Proof.
  intros Hs Hl. pose proof (ParseInt_spec s 10 0 Hs ltac:(by right) ltac:(lia) ltac:(lia)) as H. cbv zeta in H. destruct (sign_split s) as [neg t] eqn:Es. change (bits_of 0) with 64 in H.
  assert (Ht : bytes_ok t /\ zlen t <= 18). { destruct s as [|c s]; [cbn [length] in Hl; lia|]. inversion Hs; subst. unfold sign_split in Es. destruct (c =? 43); [injection Es as <- <-; cbn [length] in *; split; [done|lia]|]. destruct (c =? 45); injection Es as <- <-; cbn [length] in *; split; done || lia. }
  destruct Ht as [Ht Hlt]. assert (Hbig : forall p v, p `prefix_of` t -> fold_digits 10 0 p = Some v -> 0 <= v < 10 ^ 18).
  { intros p v [k Hk] Ev. assert (Hp : bytes_ok p) by (rewrite Hk in Ht; by apply Forall_app in Ht as [? _]). split; [by apply (fold_digits_ge 10 p 0 v)|]. pose proof (fold_digits_bound 10 p 0 v ltac:(lia) Hp ltac:(lia) Ev).
    assert (10 ^ zlen p <= 10 ^ 18) by (apply Z.pow_le_mono_r; [lia|]; rewrite Hk, zlen_app in Hlt; lia). lia. }
  unfold denotes, too_large_before in H. change (fst (literal 10 t)) with 10 in H. change (significant (10 =? 0) (snd (literal 10 t))) with t in H. change (10 ^ 18) with 1000000000000000000 in Hbig.
  destruct t as [|c t]; [destruct H as [H|(_ & H & _)]; done|]. rewrite bool_decide_eq_false_2 in H by done. cbn [orb] in H. destruct (fold_digits 10 0 (c :: t)) as [v|] eqn:Ev.
  - rewrite underscoreOK_none in H by (by eapply fold_digits_no_underscore). cbn [negb] in H. rewrite H. pose proof (Hbig _ v (reflexivity _) Ev). unfold signed_value. change (2 ^ (64 - 1)) with 9223372036854775808. rewrite (proj2 (Z.leb_le v 9223372036854775808)), (proj2 (Z.ltb_lt v 9223372036854775808)) by lia. by destruct neg.
  - destruct (negb (underscoreOK (c :: t))); (destruct H as [H|(_ & _ & _ & p & v & Hp & Hv & Hlt')]; [exact H|]; specialize (Hbig p v Hp Hv); change (2 ^ 64) with 18446744073709551616 in Hlt'; lia).
Qed.

Lemma Atoi_spec s : bytes_ok s -> exists r, ParseInt s 10 0 = Val r /\ Atoi s = Val (as_Atoi r).
Proof.
  intros Hs. destruct (decide (0 < zlen s < 19)) as [Hl|Hl].
  - pose proof (Atoi_fast s Hs Hl) as HA. pose proof (ParseInt_short s Hs Hl) as HP. destruct (sign_split s) as [neg t]. eexists. split; [exact HP|]. rewrite HA. destruct t as [|c t]; [done|]. by destruct (fold_digits 10 0 (c :: t)).
  - assert (Hr : exists i err, ParseInt s 10 0 = Val (i, err)).
    { pose proof (ParseInt_spec s 10 0 Hs ltac:(by right) ltac:(lia) ltac:(lia)) as H. cbv zeta in H. destruct (sign_split s) as [neg t]. destruct (denotes 10 t); [eexists _, _; exact H|]. destruct H as [H|[H _]]; eexists _, _; exact H. }
    destruct Hr as (i & err & E). exists (i, err). split; [done|]. unfold Atoi. change (intSize =? 32) with false. replace ((0 <? zlen s) && (zlen s <? 19)) with false by (symmetry; apply andb_false_iff; rewrite !Z.ltb_ge; lia). rewrite andb_false_r. cbn [andb orb]. by rewrite E.
Qed.

Lemma FormatUint_read i b bitSize : 2 <= b <= 36 -> 0 <= bitSize <= 64 -> is_uint (bits_of bitSize) i -> exists s, FormatUint i b = Val s /\ numeral b i s /\ ParseUint s b bitSize = Val (i, None).
Proof.
  intros Hb Hbits Hi. pose proof (bits_of_range bitSize Hbits). assert (2 ^ bits_of bitSize <= 2 ^ 64) by (apply Z.pow_le_mono_r; lia). unfold is_uint in Hi. destruct (FormatUint_spec i b Hb) as (s & E & Hn); [unfold is_uint; lia|]. exists s. split_and!; [done|done|].
  pose proof (ParseUint_spec s b bitSize (numeral_bytes _ _ _ Hn) ltac:(by right) Hbits) as HP. cbv zeta in HP. rewrite (denotes_numeral _ _ _ Hb Hn) in HP. destruct HP as [_ ->]. by rewrite (proj2 (Z.leb_le _ _)) by lia.
Qed.

Lemma FormatInt_read i b bitSize : 2 <= b <= 36 -> 0 <= bitSize <= 64 -> bitSize <> 1 -> is_sint (bits_of bitSize) i ->
  exists s, FormatInt i b = Val (with_sign (i <? 0) s) /\ numeral b (Z.abs i) s /\ ParseInt (with_sign (i <? 0) s) b bitSize = Val (i, None).
Proof.
  intros Hb Hbits H1 Hi. pose proof (bits_of_range bitSize Hbits). assert (2 ^ (bits_of bitSize - 1) <= 2 ^ (64 - 1)) by (apply Z.pow_le_mono_r; lia). destruct (FormatInt_spec i b Hb) as (s & E & Hn); [unfold is_sint in *; lia|]. exists s. split_and!; [done|done|].
  rewrite (ParseInt_numeral b (Z.abs i) s (i <? 0) bitSize) by done. rewrite signed_value_fits; [done| |done]. unfold bits_of in *. destruct (Z.eqb_spec bitSize 0); [lia|]. destruct (Z.eq_dec bitSize 0); lia.
Qed.

Lemma Itoa_read i : is_sint 64 i -> exists s, Itoa i = Val s /\ Atoi s = Val (i, None).
Proof.
  intros Hi. destruct (FormatInt_read i 10 0) as (s & E & Hn & HP); [lia..|done|]. exists (with_sign (i <? 0) s). split; [exact E|]. assert (Hs : bytes_ok (with_sign (i <? 0) s)) by (destruct (i <? 0); [constructor; [done|]|]; by eapply numeral_bytes).
  destruct (Atoi_spec _ Hs) as (r & Er & ->). rewrite HP in Er. by injection Er as <-.
Qed.

(** The Append functions write what the Format functions return. *)
Lemma Append_spec dst i b : 2 <= b <= 36 ->
  (is_sint 64 i -> exists s, FormatInt i b = Val s /\ AppendInt dst i b = Val (dst ++ s)) /\ (is_uint 64 i -> exists s, FormatUint i b = Val s /\ AppendUint dst i b = Val (dst ++ s)).
Proof.
  intros Hb. split; intros Hi; unfold FormatInt, AppendInt, FormatUint, AppendUint.
  - destruct (fastSmalls && (0 <=? i) && (i <? nSmalls) && (b =? 10)) eqn:E.
    + rewrite !andb_true_iff, Z.leb_le, Z.ltb_lt in E. unfold nSmalls in E. destruct (small_numeral i ltac:(lia)) as (s & -> & _). by exists s.
    + assert (HU : is_uint 64 (u64 i)) by (by apply wrap_is_uint). destruct (digits_of_sign [] dst (u64 i) b (i <? 0) Hb HU) as (s & -> & ->). by exists s.
  - destruct (fastSmalls && (i <? nSmalls) && (b =? 10)) eqn:E.
    + rewrite !andb_true_iff, Z.ltb_lt in E. unfold nSmalls, is_uint in *. destruct (small_numeral i ltac:(lia)) as (s & -> & _). by exists s.
    + destruct (digits_of_sign [] dst i b false Hb Hi) as (s & -> & ->). by exists s.
Qed.

Lemma ParseBool_FormatBool (v : bool) : ParseBool (FormatBool v) = (v, None).
Proof. by destruct v. Qed.

End Parsing.

(** ** The properties *)

(** C22. ParseUint and ParseInt, for every string, base (0 or 2 to 36) and size (0 to 64; one bit is left out for ParseInt): the result is the number that the digits denote in
    unbounded arithmetic, or, when that is out of the range of the size, the number of the range that is next to it with a range error; a string that denotes no number is a syntax error (or a range error, when
    a prefix of its digits is too large already), and with base 0 underscores are accepted exactly between two digits or after the prefix of the base. *)
Theorem parse_meaning (s : list Z) (base bitSize : Z) : bytes_ok s -> valid_base base -> 0 <= bitSize <= 64 ->
  let bits := bits_of bitSize in
  (underscoreOK s = true <-> underscores_separated s)
  /\ match denotes base s with
     | Some v => 0 <= v /\ ParseUint s base bitSize = Val (if v <=? 2 ^ bits - 1 then (v, None) else (2 ^ bits - 1, Some (rangeError fnParseUint s)))
     | None => ParseUint s base bitSize = Val (0, Some (syntaxError fnParseUint s))
         \/ ParseUint s base bitSize = Val (2 ^ bits - 1, Some (rangeError fnParseUint s)) /\ too_large_before base (2 ^ bits - 1) s
     end
  /\ (bitSize <> 1 ->
      let (neg, t) := sign_split s in
      match denotes base t with
      | Some v => ParseInt s base bitSize = Val (ranged fnParseInt s (signed_value neg bits v))
      | None => ParseInt s base bitSize = Val (0, Some (syntaxError fnParseInt s))
          \/ ParseInt s base bitSize = Val (ranged fnParseInt s (signed_value neg bits (2 ^ bits))) /\ too_large_before base (2 ^ bits - 1) t
      end).
Proof. intros Hs Hb Hbits. split; [apply underscoreOK_spec|]. split; [by apply ParseUint_spec|]. intros H1. by apply ParseInt_spec. Qed.

Lemma parse_meaning_witness : ParseInt (str "-0x7f_ff") 0 16 = Val (-32767, None).
Proof.
  pose proof (proj2 (proj2 (parse_meaning (str "-0x7f_ff") 0 16 ltac:(by apply (bool_decide_eq_true_1 _); vm_compute) ltac:(by left) ltac:(lia))) ltac:(lia)) as H. vm_compute in H |- *. exact H.
Defined.

(** C23. What FormatInt and FormatUint print in a base from 2 to 36 is a sign for a negative number and the canonical numeral of its absolute value (lower-case digits, no leading zero),
    the Append functions write the same after what is there, and ParseInt, ParseUint and Atoi read it back, for every size that holds the number; for ParseInt the size 1 is left out, where it gives -1 for every smaller number without an error ([ParseInt_one_bit]). *)
Theorem format_parse (dst : list Z) (i base bitSize : Z) : 2 <= base <= 36 -> 0 <= bitSize <= 64 ->
  (is_uint (bits_of bitSize) i -> exists s, FormatUint i base = Val s /\ numeral base i s /\ AppendUint dst i base = Val (dst ++ s) /\ ParseUint s base bitSize = Val (i, None))
  /\ (is_sint (bits_of bitSize) i -> bitSize <> 1 -> exists s, FormatInt i base = Val (with_sign (i <? 0) s) /\ numeral base (Z.abs i) s /\ AppendInt dst i base = Val (dst ++ with_sign (i <? 0) s) /\ ParseInt (with_sign (i <? 0) s) base bitSize = Val (i, None))
  /\ (is_sint 64 i -> exists s, Itoa i = Val s /\ Atoi s = Val (i, None)).
Proof.
  intros Hb Hbits. pose proof (bits_of_range bitSize Hbits). assert (2 ^ bits_of bitSize <= 2 ^ 64 /\ 2 ^ (bits_of bitSize - 1) <= 2 ^ (64 - 1)) by (split; apply Z.pow_le_mono_r; lia). split; [intros Hi|split; [intros Hi H1|apply Itoa_read]].
  - destruct (FormatUint_read i base bitSize Hb Hbits Hi) as (s & E & Hn & HP). exists s. destruct (proj2 (Append_spec dst i base Hb)) as (s' & E' & HA); [unfold is_uint in *; lia|]. rewrite E in E'. injection E' as <-. done.
  - destruct (FormatInt_read i base bitSize Hb Hbits H1 Hi) as (s & E & Hn & HP). exists s. destruct (proj1 (Append_spec dst i base Hb)) as (s' & E' & HA); [unfold is_sint in *; lia|]. rewrite E in E'. injection E' as <-. done.
Qed.

Lemma format_parse_witness : exists s, FormatInt (-255) 16 = Val (with_sign true s) /\ numeral 16 255 s /\ AppendInt [] (-255) 16 = Val (with_sign true s) /\ ParseInt (with_sign true s) 16 0 = Val (-255, None).
Proof. refine (proj1 (proj2 (format_parse [] (-255) 16 0 _ _)) _ _); [lia|lia|by apply (bool_decide_eq_true_1 _); vm_compute|lia]. Defined.

(** C24. Atoi is ParseInt in base 10 with the size of an int, for every string: its fast path, without overflow checks, and the general one give the same number and the same error, which names Atoi. *)
Theorem Atoi_is_ParseInt (s : list Z) : bytes_ok s -> exists r, ParseInt s 10 0 = Val r /\ Atoi s = Val (as_Atoi r).
Proof. apply Atoi_spec. Qed.

Lemma Atoi_is_ParseInt_witness : exists r, ParseInt (str "-12_3") 10 0 = Val r /\ Atoi (str "-12_3") = Val (as_Atoi r).
Proof. apply (Atoi_is_ParseInt (str "-12_3")). by apply (bool_decide_eq_true_1 _); vm_compute. Defined.

(** With one bit ParseInt accepts a negative number of any size and gives -1. *)
Example ParseInt_one_bit : ParseInt (str "-5") 10 1 = Val (-1, None).
Proof. vm_compute. reflexivity. Qed.
