(* ===== verification/Digest.v ===== *)
(** * Block digests

    What the packages crypto/md5, crypto/sha1, crypto/sha256 and crypto/sha512 share: the state that buffers input until
    a block is complete, with its Write, Sum, MarshalBinary and UnmarshalBinary, which the four packages write out
    each for itself, and the promise of a digest that the packages keep and crypto/hmac relies on. *)

From S2P Require Import Prelude Binary Hash.

Local Open Scope go_scope.

(** The state.  [function] tells the variants of a package apart: is224 in sha256, function in sha512.  The field [h] is named [s] in md5. *)
Record digest (F : Type) : Type := Digest { h : list Z; x : list Z; nx : Z; len : Z; function : F }.
Arguments Digest {F}.
Arguments h {F}.
Arguments x {F}.
Arguments nx {F}.
Arguments len {F}.
Arguments function {F}.

(** [copy(dst[i:], src)] *)
Definition copy_at (dst : list Z) (i : Z) (src : list Z) : outcome (list Z * Z) :=
  s ← slice dst i (zlen dst);
  let n := Z.min (zlen s) (zlen src) in
  Val (take (Z.to_nat i) dst ++ take (Z.to_nat n) src ++ drop (Z.to_nat (i + n)) dst, n).

(** [for len(p) >= chunk { compress; p = p[chunk:] }]: the loop of blockGeneric, around the compression of one block; [s] is the chaining value and what else the body keeps. *)
Fixpoint block_loop {S} (compress : S -> list Z -> outcome S) (chunk : Z) (fuel : nat) (s : S) (p : list Z) : outcome S :=
  match fuel with
  | O => NoFuel
  | Datatypes.S fuel => if chunk <=? zlen p then s ← compress s p; p ← slice p chunk (zlen p); block_loop compress chunk fuel s p else Val s
  end.

Section Operations.
Context {F : Type} (chunk : Z) (block : list Z -> list Z -> outcome (list Z)).

Definition Write (d : digest F) (p : list Z) : outcome (digest F * Z) :=
  let nn := zlen p in
  let d := Digest (h d) (x d) (nx d) (u64 (len d + nn)) (function d) in
  '(d, p) ←
    (if 0 <? nx d then
       '(x', n) ← copy_at (x d) (nx d) p;
       let nx' := nx d + n in
       d ← (if nx' =? chunk then h' ← block (h d) x'; Val (Digest h' x' 0 (len d) (function d)) else Val (Digest (h d) x' nx' (len d) (function d)));
       p ← slice p n (zlen p);
       Val (d, p)
     else Val (d, p));
  '(d, p) ←
    (if chunk <=? zlen p then
       let n := zlen p &^. (chunk - 1) in
       q ← slice p 0 n;
       h' ← block (h d) q;
       p ← slice p n (zlen p);
       Val (Digest h' (x d) (nx d) (len d) (function d), p)
     else Val (d, p));
  d ← (if 0 <? zlen p then '(x', n) ← copy_at (x d) 0 p; Val (Digest (h d) x' n (len d) (function d)) else Val d);
  Val (d, nn).

(** The beginning of checkSum in sha1, sha256 and sha512: the padding up to [lb] bytes before the end of a block, the length in bits. *)
Definition finish (lb : Z) (put_length : list Z -> Z -> outcome (list Z)) (d : digest F) : outcome (digest F) :=
  let len_ := len d in
  let tmp := make 0 chunk in
  tmp ← store tmp 0 0x80;
  s ← (if len_ mod chunk <? chunk - lb then slice tmp 0 (chunk - lb - len_ mod chunk) else slice tmp 0 (chunk + (chunk - lb) - len_ mod chunk));
  '(d, _) ← Write d s;
  let len_ := len_ <<.[64] 3 in
  tmp ← put_length tmp len_;
  s ← slice tmp 0 lb;
  '(d, _) ← Write d s;
  if negb (nx d =? 0) then Panic Explicit else Val d.

(** ** The marshalled state: a magic number, the words of [h], the buffer padded with zeroes, the length *)

Definition appendUint64 (b : list Z) (x : Z) : outcome (list Z) := a ← bigEndian_PutUint64 (make 0 8) x; Val (b ++ a).
Definition appendUint32 (b : list Z) (x : Z) : outcome (list Z) := a ← bigEndian_PutUint32 (make 0 4) x; Val (b ++ a).

(** [b[:n]] of a slice with the zeroed capacity [capacity]. *)
Definition reslice (capacity : Z) (b : list Z) (n : Z) : outcome (list Z) := slice (b ++ make 0 (capacity - zlen b)) 0 n.

Fixpoint append_words (append : list Z -> Z -> outcome (list Z)) (b words : list Z) : outcome (list Z) :=
  match words with [] => Val b | w :: words => b ← append b w; append_words append b words end.

Definition MarshalBinary (append : list Z -> Z -> outcome (list Z)) (magic : list Z) (marshaledSize : Z) (d : digest F) : outcome (list Z) :=
  b ← append_words append magic (h d);
  s ← slice (x d) 0 (nx d);
  let b := b ++ s in
  b ← reslice marshaledSize b (zlen b + zlen (x d) - nx d);
  appendUint64 b (len d).

Definition consumeUint64 (b : list Z) : outcome (list Z * Z) :=
  _ ← index b 7;
  b7 ← index b 7; b6 ← index b 6; b5 ← index b 5; b4 ← index b 4; b3 ← index b 3; b2 ← index b 2; b1 ← index b 1; b0 ← index b 0;
  let x := b7 |. b6 <<.[64] 8 |. b5 <<.[64] 16 |. b4 <<.[64] 24 |. b3 <<.[64] 32 |. b2 <<.[64] 40 |. b1 <<.[64] 48 |. b0 <<.[64] 56 in
  b ← slice b 8 (zlen b); Val (b, x).
Definition consumeUint32 (b : list Z) : outcome (list Z * Z) :=
  _ ← index b 3;
  b3 ← index b 3; b2 ← index b 2; b1 ← index b 1; b0 ← index b 0;
  let x := b3 |. b2 <<.[32] 8 |. b1 <<.[32] 16 |. b0 <<.[32] 24 in
  b ← slice b 4 (zlen b); Val (b, x).

Fixpoint consume_words (consume : list Z -> outcome (list Z * Z)) (n : nat) (b : list Z) : outcome (list Z * list Z) :=
  match n with
  | O => Val (b, [])
  | S n => '(b, w) ← consume b; '(b, ws) ← consume_words consume n b; Val (b, w :: ws)
  end.

(** After the magic number has been checked. *)
Definition UnmarshalBinary (consume consume_len : list Z -> outcome (list Z * Z)) (magic : list Z) (marshaledSize : Z) (d : digest F) (b : list Z) : outcome (digest F * option unmarshalError) :=
  if negb (zlen b =? marshaledSize) then Val (d, Some invalidSize)
  else
    b ← slice b (zlen magic) (zlen b);
    '(b, h') ← consume_words consume (length (h d)) b;
    '(x', n) ← copy_at (x d) 0 b;
    b ← slice b n (zlen b);
    '(b, len') ← consume_len b;
    Val (Digest h' x' (len' mod chunk) len' (function d), None).
End Operations.

(** [binary.BigEndian.PutUint32(digest[i:], w)] and the like: writing a word at a place of an array, and words of [width] bytes at consecutive places. *)
Definition put_at (put : list Z -> Z -> outcome (list Z)) (a : list Z) (i w : Z) : outcome (list Z) :=
  s ← slice a i (zlen a); s ← put s w; Val (take (Z.to_nat i) a ++ s).

Fixpoint put_words (put : list Z -> Z -> outcome (list Z)) (width : Z) (a : list Z) (i : Z) (ws : list Z) : outcome (list Z) :=
  match ws with [] => Val a | w :: ws => a ← put_at put a i w; put_words put width a (i + width) ws end.

(** ** The iterated compression *)

Fixpoint absorb (cf : list Z -> list Z -> list Z) (c : nat) (n : nat) (hv p : list Z) : list Z :=
  match n with O => hv | S n => absorb cf c n (cf hv (take c p)) (drop c p) end.

Lemma absorb_app cf c n m hv p : absorb cf c (n + m) hv p = absorb cf c m (absorb cf c n hv p) (drop (n * c) p).
Proof. revert hv p. induction n as [|n IH]; intros hv p; cbn [Nat.add absorb Nat.mul]; [by rewrite drop_0|]. by rewrite IH, drop_drop. Qed.

Lemma absorb_prefix cf c n hv p q : (n * c <= length p)%nat -> absorb cf c n hv (p ++ q) = absorb cf c n hv p.
Proof.
  revert hv p. induction n as [|n IH]; intros hv p Hl; cbn [absorb Nat.mul] in *; [done|]. rewrite take_app_le, drop_app_le by lia. apply IH. rewrite length_drop. lia.
Qed.

(** What is left of a message after its whole blocks. *)
Definition tail (c : nat) (m : list Z) : list Z := drop (length m / c * c) m.

Lemma length_tail c m : (0 < c)%nat -> length (tail c m) = (length m mod c)%nat.
Proof. intros Hc. unfold tail. rewrite length_drop. pose proof (Nat.div_mod_eq (length m) c). lia. Qed.

Lemma tail_decomp c m : m = take (length m / c * c) m ++ tail c m.
Proof. unfold tail. by rewrite take_drop. Qed.

Lemma tail_app c m p : (0 < c)%nat -> tail c (m ++ p) = tail c (tail c m ++ p).
Proof.
  intros Hc. pose proof (length_tail c m Hc) as Ht. pose proof (Nat.div_mod_eq (length m) c) as E. unfold tail at 1 2.
  assert (El : length (m ++ p) = (length (tail c m ++ p) + length m / c * c)%nat) by (rewrite !length_app, Ht; lia). rewrite El, Nat.div_add by lia.
  replace ((length (tail c m ++ p) / c + length m / c) * c)%nat with (length m / c * c + length (tail c m ++ p) / c * c)%nat by lia. rewrite <- drop_drop. f_equal. unfold tail. rewrite drop_app_le; [done|lia].
Qed.

(** The value of a message under an initial value. *)
Definition digested cf (c : nat) (iv m : list Z) : list Z := absorb cf c (length m / c) iv m.

Lemma digested_app cf c iv m p : (0 < c)%nat -> digested cf c iv (m ++ p) = digested cf c (digested cf c iv m) (tail c m ++ p).
Proof.
  intros Hc. unfold digested. pose proof (length_tail c m Hc) as Ht. pose proof (Nat.div_mod_eq (length m) c) as E.
  assert (El : length (m ++ p) = (length (tail c m ++ p) + length m / c * c)%nat) by (rewrite !length_app, Ht; lia). rewrite El, Nat.div_add, Nat.add_comm, absorb_app by lia.
  rewrite absorb_prefix by lia. f_equal. unfold tail. by rewrite drop_app_le by lia.
Qed.

Lemma digested_short cf c iv p : (length p < c)%nat -> digested cf c iv p = iv.
Proof. intros Hp. unfold digested. by rewrite Nat.div_small. Qed.

Lemma tail_short c p : (length p < c)%nat -> tail c p = p.
Proof. intros Hp. unfold tail. by rewrite Nat.div_small, drop_0. Qed.

Lemma tail_blocks c p : (0 < c)%nat -> (length p mod c)%nat = 0%nat -> tail c p = [].
Proof. intros Hc Hp. apply nil_length_inv. rewrite length_tail by done. done. Qed.

(** ** Words at the ends of a byte string *)

Lemma order_in n big get put : (n, big, get, put) ∈ byte_orders -> forall w, put (make 0 (Z.of_nat n)) w = Val (order_bytes big n w).
Proof.
  intros H w. rewrite (put_spec _ _ _ _ _ w H) by (unfold make; rewrite length_replicate; lia). unfold make. by rewrite drop_ge, app_nil_r by (rewrite length_replicate; lia).
Qed.

Lemma appendUint32_val b w : appendUint32 b w = Val (b ++ order_bytes true 4 w).
Proof. unfold appendUint32. rewrite (order_in 4 true bigEndian_Uint32); [done|]. unfold byte_orders. rewrite !elem_of_cons. tauto. Qed.
Lemma appendUint64_val b w : appendUint64 b w = Val (b ++ order_bytes true 8 w).
Proof. unfold appendUint64. rewrite (order_in 8 true bigEndian_Uint64); [done|]. unfold byte_orders. rewrite !elem_of_cons. tauto. Qed.

(** What is consumed is the word at the front, as Uint32 and Uint64 of package binary read it. *)
Lemma consumeUint32_eq b : consumeUint32 b = (w ← bigEndian_Uint32 b; b ← slice b 4 (zlen b); Val (b, w)).
Proof. unfold consumeUint32, bigEndian_Uint32. destruct (index b 3); [|done..]. cbn [mbind outcome_bind]. destruct (index b 2); [|done..]. cbn [mbind outcome_bind]. destruct (index b 1); [|done..]. cbn [mbind outcome_bind]. by destruct (index b 0). Qed.
Lemma consumeUint64_eq b : consumeUint64 b = (w ← bigEndian_Uint64 b; b ← slice b 8 (zlen b); Val (b, w)).
Proof.
  unfold consumeUint64, bigEndian_Uint64. do 7 (match goal with |- context [index b ?i] => destruct (index b i); [|done..] end; cbn [mbind outcome_bind]). by destruct (index b 0).
Qed.

Lemma consumeUint32_val w rest : is_uint 32 w -> bytes_ok rest -> consumeUint32 (order_bytes true 4 w ++ rest) = Val (rest, w).
Proof.
  intros Hw Hr. rewrite consumeUint32_eq, bigEndian_Uint32_bytes by done. cbn [mbind outcome_bind]. pose proof (length_order_bytes true 4 w) as El. rewrite slice_from by (rewrite zlen_app, El; lia). cbn [mbind outcome_bind]. by rewrite drop_app_length' by done.
Qed.
Lemma consumeUint64_val w rest : is_uint 64 w -> bytes_ok rest -> consumeUint64 (order_bytes true 8 w ++ rest) = Val (rest, w).
Proof.
  intros Hw Hr. rewrite consumeUint64_eq, bigEndian_Uint64_bytes by done. cbn [mbind outcome_bind]. pose proof (length_order_bytes true 8 w) as El. rewrite slice_from by (rewrite zlen_app, El; lia). cbn [mbind outcome_bind]. by rewrite drop_app_length' by done.
Qed.

(** The words that put_words writes, in order. *)
Lemma put_words_val n big get put a b ws : (n, big, get, put) ∈ byte_orders -> (n * length ws <= length b)%nat ->
  put_words put (Z.of_nat n) (a ++ b) (zlen a) ws = Val (a ++ concat (map (order_bytes big n) ws) ++ drop (n * length ws) b).
Proof.
  intros Hin. revert a b. induction ws as [|w ws IH]; intros a b Hl; cbn [put_words map concat length] in *; [by rewrite Nat.mul_0_r, drop_0|]. rewrite Nat.mul_succ_r in *. unfold put_at. rewrite slice_from by (rewrite zlen_app; lia). rewrite Nat2Z.id, drop_app_length. cbn [mbind outcome_bind].
  rewrite (put_spec _ _ _ _ _ _ Hin) by lia. cbn [mbind outcome_bind]. rewrite take_app_length, app_assoc. pose proof (length_order_bytes big n w) as El. replace (zlen a + Z.of_nat n) with (zlen (a ++ order_bytes big n w)) by (rewrite zlen_app, El; lia).
  rewrite IH by (rewrite length_drop; lia). rewrite drop_drop, <- !app_assoc. replace (n + n * length ws)%nat with (n * length ws + n)%nat by lia. done.
Qed.

Lemma length_words n big ws : length (concat (map (order_bytes big n) ws)) = (n * length ws)%nat.
Proof. induction ws as [|w ws IH]; [cbn; lia|]. cbn [map concat length]. rewrite length_app, length_order_bytes, IH. lia. Qed.

Lemma consumeUint64_nil w : is_uint 64 w -> consumeUint64 (order_bytes true 8 w) = Val ([], w).
Proof. intros Hw. pose proof (consumeUint64_val w [] Hw ltac:(done)) as E. by rewrite app_nil_r in E. Qed.

(** ** The buffer *)

Lemma copy_at_val dst i src : 0 <= i <= zlen dst ->
  copy_at dst i src = Val (take (Z.to_nat i) dst ++ take (Z.to_nat (zlen dst - i)) src ++ drop (Z.to_nat i + length src) dst, Z.min (zlen dst - i) (zlen src)).
Proof.
  intros Hi. unfold copy_at. rewrite slice_from by done. cbn [mbind outcome_bind]. rewrite length_drop. replace (Z.of_nat (length dst - Z.to_nat i)) with (zlen dst - i) by lia. f_equal. f_equal. f_equal.
  destruct (Z.le_gt_cases (zlen src) (zlen dst - i)).
  - rewrite Z.min_r by lia. rewrite !take_ge by lia. f_equal. f_equal. lia.
  - rewrite Z.min_l by lia. f_equal. rewrite !drop_ge by lia. done.
Qed.

Section Buffer.
Context {F : Type} (c : nat) (k : Z) (cf : list Z -> list Z -> list Z) (block : list Z -> list Z -> outcome (list Z)) (good : list Z -> Prop).
Implicit Types (d : digest F) (m p q iv hv : list Z).

(** Blocks of [c = 2^k] bytes; the compression of the source is [cf] on good chaining values. *)
Context (Hc : Z.of_nat c = 2 ^ k) (Hk : 0 <= k <= 64).
Context (Hblock : forall hv p, good hv -> bytes_ok p -> (length p mod c)%nat = 0%nat -> block hv p = Val (digested cf c hv p)).
Context (Hgood : forall hv p, good hv -> bytes_ok p -> length p = c -> good (cf hv p)).

Lemma chunk_pos : (0 < c)%nat.
Proof. assert (0 < 2 ^ k) by (apply Z.pow_pos_nonneg; lia). lia. Qed.

Lemma absorb_good n hv p : good hv -> bytes_ok p -> (n * c <= length p)%nat -> good (absorb cf c n hv p).
Proof.
  revert hv p. induction n as [|n IH]; intros hv p Hh Hp Hl; [done|]. cbn [absorb]. apply IH; [|by apply Forall_drop|rewrite length_drop; lia]. apply Hgood; [done|by apply Forall_take|rewrite length_take; lia].
Qed.

Lemma digested_good iv m : good iv -> bytes_ok m -> good (digested cf c iv m).
Proof. intros Hi Hm. apply absorb_good; [done..|]. pose proof (Nat.div_mod_eq (length m) c). lia. Qed.

(** The buffer of [d] holds the end of the message [m], and its chaining value is that of the blocks before. *)
Record holds iv d m : Prop := {
  holds_value : h d = digested cf c iv m;
  holds_buffer : length (x d) = c /\ bytes_ok (x d);
  holds_count : nx d = zlen (tail c m);
  holds_tail : take (length (tail c m)) (x d) = tail c m
}.

Definition represents iv (f : F) d m : Prop := holds iv d m /\ len d = u64 (zlen m) /\ function d = f /\ bytes_ok m.

(** The three steps of Write: the buffer is filled up ... *)
Lemma holds_fill iv d m p : good iv -> bytes_ok m -> bytes_ok p -> holds iv d m -> 0 < nx d ->
  exists x' n, copy_at (x d) (nx d) p = Val (x', n) /\ 0 <= n <= zlen p /\
    let nx' := nx d + n in
    (if nx' =? Z.of_nat c then block (h d) x' = Val (digested cf c iv (m ++ take (Z.to_nat n) p)) /\ tail c (m ++ take (Z.to_nat n) p) = [] /\ length x' = c /\ bytes_ok x'
     else n = zlen p /\ holds iv (Digest (h d) x' nx' (len d) (function d)) (m ++ p)).
Proof.
  intros Hiv Hm Hp [Hv [Hl Hb] Hn Ht] Hpos. pose proof chunk_pos as Hcp. pose proof (length_tail c m Hcp) as Etl. pose proof (Nat.mod_upper_bound (length m) c ltac:(lia)) as Hub.
  rewrite copy_at_val by lia. eexists _, _. split; [done|]. split; [lia|]. cbv zeta. assert (Hx' : take (Z.to_nat (nx d)) (x d) = tail c m) by (rewrite Hn, Nat2Z.id; done).
  rewrite Hx'. set (t := tail c m) in *. destruct (Z.eqb_spec (nx d + Z.min (zlen (x d) - nx d) (zlen p)) (Z.of_nat c)) as [E|E].
  - assert (En : Z.min (zlen (x d) - nx d) (zlen p) = zlen (x d) - nx d) by lia. rewrite En. rewrite (drop_ge (x d)), app_nil_r by lia. set (q := take (Z.to_nat (zlen (x d) - nx d)) p).
    assert (Hq : bytes_ok q) by (by apply Forall_take). assert (Hlq : length (t ++ q) = c) by (unfold q; rewrite length_app, length_take; lia).
    assert (Htq : bytes_ok (t ++ q)) by (apply Forall_app; split; [by apply Forall_drop|done]).
    assert (Hmod : (length (t ++ q) mod c)%nat = 0%nat) by (rewrite Hlq; apply Nat.Div0.mod_same).
    split; [|split; [|done]].
    + rewrite Hv, digested_app by done. apply Hblock; [by apply digested_good|done|done].
    + rewrite tail_app by done. by apply tail_blocks.
  - assert (En : Z.min (zlen (x d) - nx d) (zlen p) = zlen p) by lia. split; [done|]. rewrite En. assert (Htp : (length (t ++ p) < c)%nat) by (rewrite length_app; lia).
    assert (Et : tail c (m ++ p) = t ++ p) by (rewrite tail_app by done; by apply tail_short). rewrite (take_ge p) by lia. split; cbn [h x nx].
    + rewrite digested_app by done. by rewrite digested_short.
    + split; [|by repeat (apply Forall_app; split); [apply Forall_drop|done|apply Forall_drop]]. rewrite !length_app, length_drop. rewrite length_app in Htp. lia.
    + rewrite Et, zlen_app. lia.
    + rewrite Et, app_assoc. by rewrite take_app_length.
Qed.

(** ... whole blocks are compressed from the argument ... *)
Lemma holds_blocks iv d m p : good iv -> bytes_ok m -> bytes_ok p -> holds iv d m -> tail c m = [] -> Z.of_nat c <= zlen p ->
  let n := zlen p &^. (Z.of_nat c - 1) in
  0 <= n <= zlen p /\ zlen p - n < Z.of_nat c /\ block (h d) (take (Z.to_nat n) p) = Val (digested cf c iv (m ++ take (Z.to_nat n) p)) /\ tail c (m ++ take (Z.to_nat n) p) = [].
Proof.
  intros Hiv Hm Hp [Hv _ _ _] Ht Hle n. pose proof chunk_pos as Hcp. assert (En : n = zlen p / Z.of_nat c * Z.of_nat c).
  { unfold n. rewrite Hc. replace (2 ^ k - 1) with (Z.ones k) by (rewrite Z.ones_equiv; lia). rewrite Z.ldiff_ones_r by lia. by rewrite Z.shiftl_mul_pow2, Z.shiftr_div_pow2 by lia. }
  pose proof (Z.div_mod (zlen p) (Z.of_nat c) ltac:(lia)) as D. pose proof (Z.mod_pos_bound (zlen p) (Z.of_nat c) ltac:(lia)) as M. split; [nia|]. split; [nia|].
  assert (Hmod : (length (take (Z.to_nat n) p) mod c)%nat = 0%nat).
  { rewrite length_take, Nat.min_l by nia. rewrite En, Z2Nat.inj_mul, Nat2Z.id by (lia || apply Z.div_pos; lia). apply Nat.Div0.mod_mul. }
  assert (Hq : bytes_ok (take (Z.to_nat n) p)) by (by apply Forall_take).
  rewrite digested_app, tail_app, Ht, Hv by done. cbn [app]. split; [by apply Hblock; [apply digested_good| |]|by apply tail_blocks].
Qed.

(** ... and what is left goes to an empty buffer. *)
Lemma holds_rest iv d m p : bytes_ok p -> holds iv d m -> tail c m = [] -> (length p < c)%nat ->
  exists x', copy_at (x d) 0 p = Val (x', zlen p) /\ holds iv (Digest (h d) x' (zlen p) (len d) (function d)) (m ++ p).
Proof.
  intros Hp [Hv [Hl Hb] Hn _] Ht Hlt. pose proof chunk_pos as Hcp. rewrite copy_at_val by lia. rewrite (take_ge p) by lia. change (take (Z.to_nat 0) (x d)) with (@nil Z). cbn [app]. rewrite Z.min_r by lia. eexists. split; [done|].
  assert (Et : tail c (m ++ p) = p) by (rewrite tail_app, Ht by done; by apply tail_short). split; cbn [h x nx].
  - rewrite digested_app, Ht by done. by rewrite digested_short.
  - split; [rewrite length_app, length_drop; lia|]. apply Forall_app. split; [done|by apply Forall_drop].
  - by rewrite Et.
  - rewrite Et. by rewrite take_app_length.
Qed.

Lemma holds_write_tail iv d m p l (nn : Z) : bytes_ok m -> bytes_ok p -> good iv -> holds iv d m -> (tail c m = [] \/ p = []) -> len d = l ->
  exists d', ('(d, p) ← (if Z.of_nat c <=? zlen p then
       let n := zlen p &^. (Z.of_nat c - 1) in
       q ← slice p 0 n; h' ← block (h d) q; p ← slice p n (zlen p);
       Val (Digest h' (x d) (nx d) (len d) (function d), p)
     else Val (d, p));
  d ← (if 0 <? zlen p then '(x', n) ← copy_at (x d) 0 p; Val (Digest (h d) x' n (len d) (function d)) else Val d); Val (d, nn)) = Val (d', nn) /\ holds iv d' (m ++ p) /\ len d' = l /\ function d' = function d.
Proof.
  intros Hm Hp Hiv Hh Ht Hl. pose proof chunk_pos as Hcp.
  assert (Hend : forall d m q, bytes_ok q -> holds iv d m -> tail c m = [] \/ q = [] -> len d = l -> (length q < c)%nat ->
    exists d', (d ← (if 0 <? zlen q then '(x', n) ← copy_at (x d) 0 q; Val (Digest (h d) x' n (len d) (function d)) else Val d); Val (d, nn)) = Val (d', nn) /\ holds iv d' (m ++ q) /\ len d' = l /\ function d' = function d).
  { intros d0 m0 q Hq Hh0 Ht0 Hl0 Hlt. destruct (Z.ltb_spec 0 (zlen q)) as [H0|H0].
    - destruct Ht0 as [Ht0| ->]; [|cbn [length] in H0; lia]. destruct (holds_rest iv d0 m0 q Hq Hh0 Ht0 Hlt) as (x' & -> & H'). eexists. split; [reflexivity|]. done.
    - assert (q = []) as -> by (destruct q; [done|cbn [length] in H0; lia]). rewrite app_nil_r. by exists d0. }
  destruct (Z.leb_spec (Z.of_nat c) (zlen p)) as [Hle|Hlt]; [|apply Hend; try done; lia]. destruct Ht as [Ht| ->]; [|cbn [length] in Hle; lia].
  destruct (holds_blocks iv d m p Hiv Hm Hp Hh Ht Hle) as (Hn & Hr & Hb & Ht'). cbv zeta. set (n := zlen p &^. (Z.of_nat c - 1)) in *. rewrite slice_take by done. cbn [mbind outcome_bind]. rewrite Hb. cbn [mbind outcome_bind]. rewrite slice_from by done. cbn [mbind outcome_bind].
  set (m' := m ++ take (Z.to_nat n) p) in *. assert (Em : m ++ p = m' ++ drop (Z.to_nat n) p) by (unfold m'; by rewrite <- app_assoc, take_drop). rewrite Em. destruct Hh as [Hv Hbuf Hnx Htl].
  apply (Hend (Digest (digested cf c iv m') (x d) (nx d) (len d) (function d))); [by apply Forall_drop| |by left|done|rewrite length_drop; lia]. split; cbn [h x nx]; [done|done|by rewrite Hnx, Ht, Ht'|by rewrite Ht'].
Qed.

(** Write adds its argument to the message. *)
Lemma Write_represents iv f d m p : good iv -> represents iv f d m -> bytes_ok p -> exists d', Write (Z.of_nat c) block d p = Val (d', zlen p) /\ represents iv f d' (m ++ p).
Proof.
  intros Hiv (Hh & Hl & Hf & Hm) Hp. unfold Write. set (d0 := Digest (h d) (x d) (nx d) (u64 (len d + zlen p)) (function d)).
  assert (Hd0 : holds iv d0 m) by (destruct Hh as [? ? ? ?]; by split). assert (Hl0 : len d0 = u64 (zlen (m ++ p))). { unfold d0. cbn [len]. rewrite Hl, zlen_app. unfold wrap. by rewrite Zplus_mod_idemp_l. }
  assert (Hf0 : function d0 = f) by done. clearbody d0. clear d Hh Hl Hf. rename d0 into d.
  assert (Hall : forall d' q m', m' ++ q = m ++ p -> bytes_ok q -> holds iv d' m' -> bytes_ok m' -> tail c m' = [] \/ q = [] -> len d' = len d -> function d' = function d ->
    exists d2, ('(d3, p3) ← (if Z.of_nat c <=? zlen q then
       let n := zlen q &^. (Z.of_nat c - 1) in
       q' ← slice q 0 n; h' ← block (h d') q'; p ← slice q n (zlen q);
       Val (Digest h' (x d') (nx d') (len d') (function d'), p)
     else Val (d', q));
    d4 ← (if 0 <? zlen p3 then '(x', n) ← copy_at (x d3) 0 p3; Val (Digest (h d3) x' n (len d3) (function d3)) else Val d3); Val (d4, zlen p)) = Val (d2, zlen p) /\ represents iv f d2 (m ++ p)).
  { intros d' q m' E Hq Hh' Hm' Ht' El Ef. destruct (holds_write_tail iv d' m' q (len d') (zlen p) Hm' Hq Hiv Hh' Ht' eq_refl) as (d2 & E2 & Hd2 & El2 & Ef2). exists d2.
    split; [exact E2|]. rewrite E in Hd2. split; [done|]. rewrite El2, El, Ef2, Ef. split; [exact Hl0|]. split; [exact Hf0|by apply Forall_app]. }
  cbv zeta in *. destruct (Z.ltb_spec 0 (nx d)) as [Hpos|Hz].
  - destruct (holds_fill iv d m p Hiv Hm Hp Hd0 Hpos) as (x' & n & -> & Hn & Hcase). cbv zeta in Hcase. cbn [mbind outcome_bind]. destruct (Z.eqb_spec (nx d + n) (Z.of_nat c)) as [E|E].
    + destruct Hcase as (Hb & Ht & Hx). rewrite Hb. cbn [mbind outcome_bind]. rewrite slice_from by done. cbn [mbind outcome_bind].
      apply (Hall _ _ (m ++ take (Z.to_nat n) p)); [by rewrite <- app_assoc, take_drop|by apply Forall_drop| |apply Forall_app; split; [done|by apply Forall_take]|by left|done|done]. split; cbn [h x nx]; [done|done|by rewrite Ht|by rewrite Ht].
    + destruct Hcase as (-> & Hh'). cbn [mbind outcome_bind]. rewrite slice_from by lia. cbn [mbind outcome_bind]. rewrite drop_ge by lia. apply (Hall _ [] (m ++ p)); [by rewrite app_nil_r|done|exact Hh'|by apply Forall_app|by right|done|done].
  - cbn [mbind outcome_bind]. apply (Hall d p m); [done..| |done|done]. left. apply nil_length_inv. destruct Hd0 as [_ _ Hnx _]. lia.
Qed.

(** *** The marshalled state *)

Section Marshalled.
Context (nb nw : nat) (append : list Z -> Z -> outcome (list Z)) (consume consume_len : list Z -> outcome (list Z * Z)).
Context (Happend : forall b w, append b w = Val (b ++ order_bytes true nb w)).
Context (Hconsume : forall w rest, is_uint (8 * Z.of_nat nb) w -> bytes_ok rest -> consume (order_bytes true nb w ++ rest) = Val (rest, w)).
Context (Hwords : forall hv, good hv -> length hv = nw /\ Forall (is_uint (8 * Z.of_nat nb)) hv).
Context (C64 : forall w, is_uint 64 w -> consume_len (order_bytes true 8 w) = Val ([], w)).

Definition words_bytes (ws : list Z) : list Z := concat (map (order_bytes true nb) ws).

Lemma length_words_bytes ws : length (words_bytes ws) = (nb * length ws)%nat.
Proof. apply length_words. Qed.

Lemma words_bytes_ok ws : bytes_ok (words_bytes ws).
Proof. unfold words_bytes. induction ws as [|w ws IH]; [constructor|]. cbn [map concat]. apply Forall_app. split; [apply order_bytes_ok|done]. Qed.

Lemma append_words_val b ws : append_words append b ws = Val (b ++ words_bytes ws).
Proof.
  unfold words_bytes. revert b. induction ws as [|w ws IH]; intros b; cbn [append_words map concat]; [by rewrite app_nil_r|]. rewrite Happend. cbn [mbind outcome_bind]. by rewrite IH, <- app_assoc.
Qed.

Lemma consume_words_val ws rest : Forall (is_uint (8 * Z.of_nat nb)) ws -> bytes_ok rest -> consume_words consume (length ws) (words_bytes ws ++ rest) = Val (rest, ws).
Proof.
  intros Hw Hr. induction Hw as [|w ws Hw Hws IH]; [done|]. unfold words_bytes in *. cbn [consume_words map concat length]. rewrite <- app_assoc, Hconsume; [|done|apply Forall_app; split; [apply words_bytes_ok|done]]. cbn [mbind outcome_bind]. by rewrite IH.
Qed.

Definition marshalled (magic : list Z) iv m : list Z :=
  magic ++ words_bytes (digested cf c iv m) ++ tail c m ++ make 0 (Z.of_nat c - zlen (tail c m)) ++ order_bytes true 8 (u64 (zlen m)).
Definition marshalled_size (magic : list Z) : Z := zlen magic + Z.of_nat (nb * nw) + Z.of_nat c + 8.

Lemma make_ok n : bytes_ok (make 0 n).
Proof. apply Forall_replicate. done. Qed.

Lemma MarshalBinary_represents magic iv f d m : good iv -> represents iv f d m -> MarshalBinary append magic (marshalled_size magic) d = Val (marshalled magic iv m).
Proof.
  intros Hiv ([Hv [Hl Hb] Hn Ht] & Hlen & Hf & Hm). pose proof chunk_pos as Hcp. pose proof (length_tail c m Hcp) as Etl. pose proof (Nat.mod_upper_bound (length m) c ltac:(lia)) as Hub. unfold MarshalBinary. rewrite append_words_val. cbn [mbind outcome_bind].
  rewrite Hn, slice_take, Nat2Z.id, Ht by lia. cbn [mbind outcome_bind]. assert (Hg : good (h d)) by (rewrite Hv; by apply digested_good). destruct (Hwords _ Hg) as [Hlh _].
  set (b := (magic ++ words_bytes (h d)) ++ tail c m). assert (Eb : zlen b = zlen magic + Z.of_nat (nb * nw) + zlen (tail c m)) by (unfold b; rewrite !length_app, length_words_bytes, Hlh; lia).
  unfold reslice. rewrite slice_take by (rewrite length_app; pose proof (length_make 0 (marshalled_size magic - zlen b)) as E; unfold marshalled_size in *; lia). cbn [mbind outcome_bind].
  rewrite appendUint64_val, Hl, Hlen. f_equal. unfold marshalled. rewrite <- Hv. replace (take _ (b ++ _)) with (b ++ make 0 (Z.of_nat c - zlen (tail c m))); [unfold b; by rewrite <- !app_assoc|].
  rewrite take_app_ge by lia. f_equal. unfold make. rewrite take_replicate. f_equal. unfold marshalled_size. lia.
Qed.

Lemma UnmarshalBinary_represents magic iv iv' f f' d m d' m' : good iv -> good iv' -> represents iv f d m -> represents iv' f' d' m' ->
  exists d'', UnmarshalBinary (Z.of_nat c) consume consume_len magic (marshalled_size magic) d' (marshalled magic iv m) = Val (d'', None) /\ represents iv f' d'' m.
Proof.
  intros Hiv Hiv' (_ & _ & _ & Hm) ([Hv' [Hl' _] _ _] & _ & Hf' & Hm'). pose proof chunk_pos as Hcp. pose proof (length_tail c m Hcp) as Etl. pose proof (Nat.mod_upper_bound (length m) c ltac:(lia)) as Hub.
  assert (Hg : good (digested cf c iv m)) by (by apply digested_good). destruct (Hwords _ Hg) as [Hlh Hwh]. assert (Hg' : good (h d')) by (rewrite Hv'; by apply digested_good). destruct (Hwords _ Hg') as [Hlh' _].
  set (buf := tail c m ++ make 0 (Z.of_nat c - zlen (tail c m))). set (lenb := order_bytes true 8 (u64 (zlen m))). pose proof (length_order_bytes true 8 (u64 (zlen m))) as Elb. fold lenb in Elb.
  assert (Ebuf : length buf = c) by (unfold buf, make; rewrite length_app, length_replicate; lia). assert (Hbuf : bytes_ok buf) by (apply Forall_app; split; [by apply Forall_drop|apply make_ok]).
  assert (Em : marshalled magic iv m = magic ++ words_bytes (digested cf c iv m) ++ buf ++ lenb) by (unfold marshalled, buf; by rewrite <- !app_assoc). rewrite Em. unfold UnmarshalBinary.
  assert (Esz : zlen (magic ++ words_bytes (digested cf c iv m) ++ buf ++ lenb) = marshalled_size magic) by (rewrite !length_app, length_words_bytes, Hlh, Ebuf, Elb; unfold marshalled_size; lia). rewrite Esz, Z.eqb_refl. cbn [negb].
  rewrite <- Esz, slice_from, Nat2Z.id, drop_app_length by (rewrite length_app; lia). cbn [mbind outcome_bind]. rewrite Hlh', <- Hlh, consume_words_val by (first [done | apply Forall_app; split; [done|apply order_bytes_ok]]). cbn [mbind outcome_bind].
  rewrite copy_at_val by lia. cbn [mbind outcome_bind]. rewrite Z.sub_0_r. replace (Z.min (zlen (x d')) (zlen (buf ++ lenb))) with (Z.of_nat c) by (rewrite zlen_app; lia). rewrite slice_from by (rewrite zlen_app; lia). cbn [mbind outcome_bind]. rewrite Hl', Nat2Z.id, drop_app_length' by done.
  unfold lenb. rewrite C64 by (by apply wrap_is_uint). cbn [mbind outcome_bind]. eexists. split; [reflexivity|]. change (take (Z.to_nat 0) (x d')) with (@nil Z). cbn [app]. rewrite take_app_length' by done. rewrite drop_ge, app_nil_r by (rewrite length_app; lia).
  split; [|done]. split; cbn [h x nx]; [done|done| |unfold buf; by rewrite take_app_length].
  rewrite Etl. unfold wrap. rewrite Hc, Z.mod_mod_divide by (exists (2 ^ (64 - k)); rewrite <- Z.pow_add_r by lia; f_equal; lia). rewrite <- Hc. by rewrite Nat2Z.inj_mod.
Qed.
End Marshalled.
End Buffer.

(** ** The loop over blocks *)

Section Blocks.
Context {S : Type} (c : nat) (cf : list Z -> list Z -> list Z) (good : list Z -> Prop) (compress : S -> list Z -> outcome S) (keeps : S -> list Z -> Prop).
Context (Hc : (0 < c)%nat) (Hgood : forall hv p, good hv -> bytes_ok p -> length p = c -> good (cf hv p)).
(** [keeps s hv]: the chaining value in [s] is [hv]. *)
Context (Hstep : forall s hv p, keeps s hv -> good hv -> bytes_ok p -> (c <= length p)%nat -> exists s', compress s p = Val s' /\ keeps s' (cf hv (take c p))).

Lemma block_loop_digested fuel s hv p : keeps s hv -> good hv -> bytes_ok p -> (length p mod c)%nat = 0%nat -> (length p < fuel)%nat ->
  exists s', block_loop compress (Z.of_nat c) fuel s p = Val s' /\ keeps s' (digested cf c hv p).
Proof.
  revert s hv p. induction fuel as [|fuel IH]; intros s hv p Hs Hh Hp Hm Hf; [lia|]. cbn [block_loop]. destruct (Z.leb_spec (Z.of_nat c) (zlen p)) as [Hle|Hlt].
  - destruct (Hstep s hv p Hs Hh Hp ltac:(lia)) as (s1 & -> & H1). cbn [mbind outcome_bind]. rewrite slice_from by lia. rewrite Nat2Z.id. cbn [mbind outcome_bind].
    pose proof (Nat.div_mod_eq (length p) c) as E. assert (Hd : (length p = length (drop c p) + 1 * c)%nat) by (rewrite length_drop; lia).
    assert (Eq : digested cf c hv p = digested cf c (cf hv (take c p)) (drop c p)) by (unfold digested; rewrite Hd at 1; rewrite Nat.div_add, Nat.add_comm by lia; done). rewrite Eq. rewrite Hd, Nat.Div0.mod_add in Hm.
    apply IH; [done|apply Hgood; [done|by apply Forall_take|rewrite length_take; lia]|by apply Forall_drop|done|rewrite length_drop; lia].
  - exists s. split; [done|]. rewrite Nat.mod_small in Hm by lia. rewrite digested_short by lia. done.
Qed.
End Blocks.

(** ** Padding *)

(** A message with a bit 1, zeroes up to a multiple of [c] less [lb], and the [lb] bytes of its length. *)
Definition padded (c lb : nat) (length_bytes : list Z -> list Z) (m : list Z) : list Z :=
  m ++ [0x80] ++ make 0 ((Z.of_nat c - 1 - Z.of_nat lb - zlen m) mod Z.of_nat c) ++ length_bytes m.

Lemma padded_blocks c lb f m : (0 < c)%nat -> zlen (f m) = Z.of_nat lb -> tail c (padded c lb f m) = [].
Proof.
  intros Hc Hl. apply tail_blocks; [done|]. unfold padded. pose proof (Z.mod_pos_bound (Z.of_nat c - 1 - Z.of_nat lb - zlen m) (Z.of_nat c) ltac:(lia)) as Hb. set (k := _ mod _) in *. apply Nat2Z.inj. rewrite Nat2Z.inj_mod, !length_app. unfold make. rewrite length_replicate. cbn [length].
  rewrite !Nat2Z.inj_add, Z2Nat.id by lia. change (Z.of_nat 1) with 1. rewrite Hl. unfold k. pose proof (Z.div_mod (Z.of_nat c - 1 - Z.of_nat lb - zlen m) (Z.of_nat c) ltac:(lia)) as D. set (q := (Z.of_nat c - 1 - Z.of_nat lb - zlen m) / Z.of_nat c) in *.
  replace (zlen m + (1 + ((Z.of_nat c - 1 - Z.of_nat lb - zlen m) mod Z.of_nat c + Z.of_nat lb))) with ((1 - q) * Z.of_nat c) by lia. apply Z.mod_mul. lia.
Qed.

(** [tmp[0 : n]] of an array that starts with 0x80. *)
Lemma marker_take n k : 1 <= k <= Z.of_nat n -> take (Z.to_nat k) (<[0%nat := 0x80]> (make 0 (Z.of_nat n))) = [0x80] ++ make 0 (k - 1).
Proof.
  intros Hk. unfold make. rewrite Nat2Z.id. destruct n as [|n]; [lia|]. cbn [replicate]. change (<[0%nat:=0x80]> (0 :: replicate n 0)) with (0x80 :: replicate n 0). replace (Z.to_nat k) with (S (Z.to_nat (k - 1))) by lia. cbn [take app]. f_equal. rewrite take_replicate. f_equal. lia.
Qed.

Lemma represents_padded {F} c cf iv (f : F) d lb fl m : (0 < c)%nat -> zlen (fl m) = Z.of_nat lb -> represents c cf iv f d (padded c lb fl m) -> h d = digested cf c iv (padded c lb fl m) /\ nx d = 0 /\ function d = f.
Proof. intros Hc Hl ([Hv _ Hn _] & _ & Hf & _). rewrite (padded_blocks c lb fl m Hc Hl) in Hn. done. Qed.

(** The 64-bit counter is exact modulo the block size. *)
Lemma counter_mod k n : 0 <= k <= 64 -> u64 n mod 2 ^ k = n mod 2 ^ k.
Proof. intros Hk. unfold wrap. apply Z.mod_mod_divide. exists (2 ^ (64 - k)). rewrite <- Z.pow_add_r by lia. f_equal. lia. Qed.

(** The amount of padding: up to [c - lb] bytes of the block, or of the next one. *)
Lemma padding_amount (c lb n : Z) : 0 < c -> 0 < lb < c -> let r := n mod c in
  (if r <? c - lb then c - lb - r else c + (c - lb) - r) = 1 + (c - 1 - lb - n) mod c.
Proof.
  intros Hc Hl r. pose proof (Z.div_mod n c ltac:(lia)) as D. pose proof (Z.mod_pos_bound n c ltac:(lia)) as M. fold r in D, M. destruct (Z.ltb_spec r (c - lb)).
  - replace (c - 1 - lb - n) with ((c - 1 - lb - r) + - (n / c) * c) by lia. rewrite Z.mod_add, Z.mod_small by lia. lia.
  - replace (c - 1 - lb - n) with ((c + (c - lb) - r - 1) + - (n / c + 1) * c) by lia. rewrite Z.mod_add, Z.mod_small by lia. lia.
Qed.

Lemma padded_bytes c lb fl m : bytes_ok m -> bytes_ok (fl m) -> bytes_ok (padded c lb fl m).
Proof. intros Hm Hf. apply Forall_app. split; [done|]. apply Forall_app. split; [by apply Forall_singleton|]. apply Forall_app. split; [apply make_ok|done]. Qed.

Lemma counter_bits (n : Z) : u64 n <<.[64] 3 = u64 (8 * n).
Proof. unfold shl, wrap. rewrite Z.shiftl_mul_pow2 by lia. change (2 ^ 3) with 8. rewrite Zmult_mod_idemp_l. f_equal. lia. Qed.

Section Finish.
Context {F : Type} (c : nat) (k : Z) (cf : list Z -> list Z -> list Z) (block : list Z -> list Z -> outcome (list Z)) (good : list Z -> Prop).
Context (Hc : Z.of_nat c = 2 ^ k) (Hk : 0 <= k <= 64).
Context (Hblock : forall hv p, good hv -> bytes_ok p -> (length p mod c)%nat = 0%nat -> block hv p = Val (digested cf c hv p)).
Context (Hgood : forall hv p, good hv -> bytes_ok p -> length p = c -> good (cf hv p)).
Context (lb : nat) (put_length : list Z -> Z -> outcome (list Z)) (length_bytes : Z -> list Z).
Context (Hlb : (0 < lb < c)%nat) (Hlen : forall n, length (length_bytes n) = lb /\ bytes_ok (length_bytes n)).
Context (Hput : forall n, exists tmp, put_length (<[0%nat := 0x80]> (make 0 (Z.of_nat c))) n = Val tmp /\ length tmp = c /\ take lb tmp = length_bytes n).

(** The number of bits of the message, modulo 2^64. *)
Definition bit_length (m : list Z) : list Z := length_bytes (u64 (8 * zlen m)).

(** The padding completes the last block. *)
Lemma finish_spec iv f (d : digest F) m : good iv -> represents c cf iv f d m ->
  exists d', finish (Z.of_nat c) block (Z.of_nat lb) put_length d = Val d' /\ h d' = digested cf c iv (padded c lb bit_length m) /\ function d' = f.
Proof.
  intros Hiv Hd. pose proof (chunk_pos c k Hc Hk) as Hcp. pose proof Hd as (_ & Hl & _ & Hm). unfold finish. rewrite store_lt by (rewrite length_make; lia). cbn [mbind outcome_bind]. change (Z.to_nat 0) with O. set (tmp := <[0%nat:=128]> (make 0 (Z.of_nat c))).
  assert (Et : zlen tmp = Z.of_nat c) by (unfold tmp; rewrite length_insert, length_make by lia; done). rewrite Hl. set (r := zlen m mod Z.of_nat c). assert (Er : u64 (zlen m) mod Z.of_nat c = r) by (unfold r; rewrite Hc; by apply counter_mod). rewrite !Er.
  set (z := (Z.of_nat c - 1 - Z.of_nat lb - zlen m) mod Z.of_nat c). pose proof (padding_amount (Z.of_nat c) (Z.of_nat lb) (zlen m) ltac:(lia) ltac:(lia)) as Ea. cbv zeta in Ea. fold r z in Ea.
  pose proof (Z.mod_pos_bound (Z.of_nat c - 1 - Z.of_nat lb - zlen m) (Z.of_nat c) ltac:(lia)) as Hz. fold z in Hz.
  assert (Es : (if r <? Z.of_nat c - Z.of_nat lb then slice tmp 0 (Z.of_nat c - Z.of_nat lb - r) else slice tmp 0 (Z.of_nat c + (Z.of_nat c - Z.of_nat lb) - r)) = Val ([0x80] ++ make 0 z)).
  { transitivity (slice tmp 0 (1 + z)); [destruct (r <? Z.of_nat c - Z.of_nat lb); by rewrite <- Ea|]. rewrite slice_take by lia. unfold tmp. rewrite marker_take by lia. by replace (1 + z - 1) with z by lia. }
  rewrite Es. cbn [mbind outcome_bind]. destruct (Write_represents c k cf block good Hc Hk Hblock Hgood iv f d m ([0x80] ++ make 0 z) Hiv Hd) as (d1 & -> & H1); [apply Forall_app; split; [by repeat constructor|apply make_ok]|]. cbn [mbind outcome_bind].
  rewrite counter_bits. pose proof (Hput (u64 (8 * zlen m))) as Hp2. fold tmp in Hp2. destruct Hp2 as (tmp2 & -> & Hl2 & Ht2). cbn [mbind outcome_bind]. rewrite slice_take, Nat2Z.id, Ht2 by lia. cbn [mbind outcome_bind].
  destruct (Write_represents c k cf block good Hc Hk Hblock Hgood iv f d1 _ (length_bytes (u64 (8 * zlen m))) Hiv H1) as (d2 & -> & H2); [apply Hlen|]. cbn [mbind outcome_bind].
  assert (Ep : (m ++ [128] ++ make 0 z) ++ length_bytes (u64 (8 * zlen m)) = padded c lb bit_length m) by (unfold padded, bit_length; by rewrite <- !app_assoc). rewrite Ep in H2.
  apply represents_padded in H2 as (Hh & Hn & Hf); [|done|unfold bit_length; by rewrite (proj1 (Hlen _))]. rewrite Hn. by exists d2.
Qed.
End Finish.

(** ** The promise of a digest *)

(** [D] computes [value]: after [New] and any writes it represents the bytes written, and Sum appends their value. *)
Class MessageHash (D : Type) `{Hash D} (fresh : D) (value : list Z -> list Z) : Type := {
  has_message : D -> list Z -> Prop;
  fresh_message : has_message fresh [];
  message_bytes : forall d m, has_message d m -> bytes_ok m;
  Write_message : forall d m p, has_message d m -> bytes_ok p -> exists d', Hash.Write d p = Val (d', zlen p) /\ has_message d' (m ++ p);
  Sum_message : forall d m b, has_message d m -> Hash.Sum d b = Val (b ++ value m);
  Reset_message : forall d m, has_message d m -> has_message (Hash.Reset d) [];
  Size_message : forall d m p, has_message d m -> bytes_ok p -> zlen (value p) = Hash.Size d;
  value_bytes : forall m, bytes_ok m -> bytes_ok (value m);
  Marshal_message : forall d m, has_message d m -> exists b, Hash.MarshalBinary d = Val b /\
    forall d' m', has_message d' m' -> exists d'', Hash.UnmarshalBinary d' b = Val (d'', None) /\ has_message d'' m
}.

Section Promise.
Context {D : Type} {HD : Hash D} {fresh : D} {value : list Z -> list Z} {M : MessageHash D fresh value}.

Lemma Write_all_message d m chunks : has_message d m -> Forall bytes_ok chunks ->
  exists d', Write_all d chunks = Val (d', zlen (concat chunks)) /\ has_message d' (m ++ concat chunks).
Proof.
  intros Hd Hc. revert d m Hd. induction Hc as [|p chunks Hp _ IH]; intros d m Hd; cbn [Write_all concat]; [exists d; by rewrite app_nil_r|].
  destruct (Write_message d m p Hd Hp) as (d1 & -> & H1). cbn [mbind outcome_bind]. destruct (IH d1 (m ++ p) H1) as (d2 & -> & H2). cbn [mbind outcome_bind]. exists d2. by rewrite zlen_app, app_assoc.
Qed.
End Promise.

(** ** Loading the words of a block *)

(** [uint32(p[j])<<24 | uint32(p[j+1])<<16 | uint32(p[j+2])<<8 | uint32(p[j+3])], and the like. *)
Definition load32 (p : list Z) (j : Z) : outcome Z :=
  p0 ← index p j; p1 ← index p (j + 1); p2 ← index p (j + 2); p3 ← index p (j + 3);
  Val (p0 <<.[32] 24 |. p1 <<.[32] 16 |. p2 <<.[32] 8 |. p3).
Definition load64 (p : list Z) (j : Z) : outcome Z :=
  p0 ← index p j; p1 ← index p (j + 1); p2 ← index p (j + 2); p3 ← index p (j + 3);
  p4 ← index p (j + 4); p5 ← index p (j + 5); p6 ← index p (j + 6); p7 ← index p (j + 7);
  Val (p0 <<.[64] 56 |. p1 <<.[64] 48 |. p2 <<.[64] 40 |. p3 <<.[64] 32 |. p4 <<.[64] 24 |. p5 <<.[64] 16 |. p6 <<.[64] 8 |. p7).
Definition load32_le (p : list Z) (j : Z) : outcome Z :=
  p0 ← index p j; p1 ← index p (j + 1); p2 ← index p (j + 2); p3 ← index p (j + 3);
  Val (p0 |. p1 <<.[32] 8 |. p2 <<.[32] 16 |. p3 <<.[32] 24).

Lemma index_dropped (p : list Z) j i : 0 <= j -> 0 <= i -> index p (j + i) = index (drop (Z.to_nat j) p) i.
Proof. intros Hj Hi. unfold index. rewrite !decide_True by lia. rewrite lookup_drop. by replace (Z.to_nat (j + i)) with (Z.to_nat j + Z.to_nat i)%nat by lia. Qed.

Lemma index_dropped0 (p : list Z) j : 0 <= j -> index p j = index (drop (Z.to_nat j) p) 0.
Proof. intros Hj. rewrite <- index_dropped by lia. by rewrite Z.add_0_r. Qed.

Lemma lor_rev4 a b c d : a |. b |. c |. d = d |. c |. b |. a.
Proof. apply Z.bits_inj'. intros n _. rewrite !Z.lor_spec. by destruct (Z.testbit a n), (Z.testbit b n), (Z.testbit c n), (Z.testbit d n). Qed.

Lemma lor_rev8 a b c d e f g i : a |. b |. c |. d |. e |. f |. g |. i = i |. g |. f |. e |. d |. c |. b |. a.
Proof. rewrite (Z.lor_comm _ i), (Z.lor_comm _ g), (Z.lor_comm _ f), (Z.lor_comm _ e), lor_rev4 , !Z.lor_assoc. done. Qed.

Lemma load32_val p j : bytes_ok p -> 0 <= j -> j + 4 <= zlen p -> load32 p j = Val (order_value true (take 4 (drop (Z.to_nat j) p))).
Proof.
  intros Hp Hj Hl. unfold load32. rewrite !index_dropped, (index_dropped0 p j) by lia. set (b := drop (Z.to_nat j) p). assert (Hb : bytes_ok b) by (by apply Forall_drop). assert (Hlb : (4 <= length b)%nat) by (unfold b; rewrite length_drop; lia).
  rewrite <- bigEndian_Uint32_val by done. destruct b as [|b0 [|b1 [|b2 [|b3 b]]]]; try (cbn [length] in Hlb; lia). unfold bigEndian_Uint32.
  rewrite !(index_Val (b0 :: _) 0 b0), !(index_Val (b0 :: _) 1 b1), !(index_Val (b0 :: _) 2 b2), !(index_Val (b0 :: _) 3 b3) by done. cbn [mbind outcome_bind]. by rewrite lor_rev4.
Qed.

Lemma load64_val p j : bytes_ok p -> 0 <= j -> j + 8 <= zlen p -> load64 p j = Val (order_value true (take 8 (drop (Z.to_nat j) p))).
Proof.
  intros Hp Hj Hl. unfold load64. rewrite !index_dropped, (index_dropped0 p j) by lia. set (b := drop (Z.to_nat j) p). assert (Hb : bytes_ok b) by (by apply Forall_drop). assert (Hlb : (8 <= length b)%nat) by (unfold b; rewrite length_drop; lia).
  rewrite <- bigEndian_Uint64_val by done. destruct b as [|b0 [|b1 [|b2 [|b3 [|b4 [|b5 [|b6 [|b7 b]]]]]]]]; try (cbn [length] in Hlb; lia). unfold bigEndian_Uint64.
  rewrite !(index_Val (b0 :: _) 0 b0), !(index_Val (b0 :: _) 1 b1), !(index_Val (b0 :: _) 2 b2), !(index_Val (b0 :: _) 3 b3), !(index_Val (b0 :: _) 4 b4), !(index_Val (b0 :: _) 5 b5), !(index_Val (b0 :: _) 6 b6), !(index_Val (b0 :: _) 7 b7) by done.
  cbn [mbind outcome_bind]. by rewrite lor_rev8.
Qed.

Lemma load32_le_val p j : bytes_ok p -> 0 <= j -> j + 4 <= zlen p -> load32_le p j = Val (order_value false (take 4 (drop (Z.to_nat j) p))).
Proof.
  intros Hp Hj Hl. unfold load32_le. rewrite !index_dropped, (index_dropped0 p j) by lia. set (b := drop (Z.to_nat j) p). assert (Hb : bytes_ok b) by (by apply Forall_drop). assert (Hlb : (4 <= length b)%nat) by (unfold b; rewrite length_drop; lia).
  rewrite <- (get_spec 4 false littleEndian_Uint32 littleEndian_PutUint32) by (try done; unfold byte_orders; rewrite !elem_of_cons; tauto). destruct b as [|b0 [|b1 [|b2 [|b3 b]]]]; try (cbn [length] in Hlb; lia). unfold littleEndian_Uint32.
  by rewrite !(index_Val (b0 :: _) 0 b0), !(index_Val (b0 :: _) 1 b1), !(index_Val (b0 :: _) 2 b2), !(index_Val (b0 :: _) 3 b3) by done.
Qed.
