(* ===== verification/Sha2.v ===== *)
(** * The SHA-2 block function

    blockGeneric is the same text in src/Source/Gold/crypto/sha256/sha256block.go and src/Source/Gold/crypto/sha512/sha512block.go but for the width
    of a word and the amounts of its rotations; it is written here once, over those.  The reference is the text of FIPS 180-4; it takes its
    numbers from a record of its own, which the packages fill with those of the standard and compare with the ones in the code. *)

From S2P Require Import Prelude Binary Digest.

Local Open Scope go_scope.

(** What the two packages differ in: the width of a word, the number of rounds, the amounts of the schedule and of the rounds, the constants; and the rotation and the loading of a word. *)
Record numbers : Type := Numbers {
  width : Z;
  rounds : Z;
  lower1 : Z * Z * Z; lower0 : Z * Z * Z; upper1 : Z * Z * Z; upper0 : Z * Z * Z;
  constants : list Z
}.
Record variant : Type := Variant {
  numbers_of :> numbers;
  RotateLeft : Z -> Z -> Z;
  load : list Z -> Z -> outcome Z
}.

Section Block.
Context (V : variant).
Abbreviation u := (wrap (width V)).

Definition word_turn (p : list Z) (i : Z) (w : list Z) : outcome (list Z) :=
  let j := i * (width V / 8) in
  v ← load V p j; store w i v.

Definition schedule_turn (i : Z) (w : list Z) : outcome (list Z) :=
  v1 ← index w (i - 2);
  let '(a1, b1, c1) := lower1 V in
  let t1 := RotateLeft V v1 (- a1) ^. RotateLeft V v1 (- b1) ^. (v1 >>. c1) in
  v2 ← index w (i - 15);
  let '(a0, b0, c0) := lower0 V in
  let t2 := RotateLeft V v2 (- a0) ^. RotateLeft V v2 (- b0) ^. (v2 >>. c0) in
  w7 ← index w (i - 7); w16 ← index w (i - 16);
  store w i (u (t1 + w7 + t2 + w16)).

Definition state : Type := Z * Z * Z * Z * Z * Z * Z * Z.

Definition round_turn (w : list Z) (i : Z) (s : state) : outcome state :=
  let '(a, b, c, d, e, f, g, h) := s in
  k ← index (constants V) i; wi ← index w i;
  let '(r1, r2, r3) := upper1 V in
  let t1 := u (h + (RotateLeft V e (- r1) ^. RotateLeft V e (- r2) ^. RotateLeft V e (- r3)) + ((e &. f) ^. (notw (width V) e &. g)) + k + wi) in
  let '(q1, q2, q3) := upper0 V in
  let t2 := u ((RotateLeft V a (- q1) ^. RotateLeft V a (- q2) ^. RotateLeft V a (- q3)) + ((a &. b) ^. (a &. c) ^. (b &. c))) in
  let h := g in
  let g := f in
  let f := e in
  let e := u (d + t1) in
  let d := c in
  let c := b in
  let b := a in
  let a := u (t1 + t2) in
  Val (a, b, c, d, e, f, g, h).

(** One block: the eight words of the state and the array [w], which lives across blocks. *)
Definition compress (s : state * list Z) (p : list Z) : outcome (state * list Z) :=
  let '((h0, h1, h2, h3, h4, h5, h6, h7), w) := s in
  w ← for_up 0 16 (word_turn p) w;
  w ← for_up 16 (rounds V) schedule_turn w;
  '(a, b, c, d, e, f, g, h) ← for_up 0 (rounds V) (round_turn w) (h0, h1, h2, h3, h4, h5, h6, h7);
  Val ((u (h0 + a), u (h1 + b), u (h2 + c), u (h3 + d), u (h4 + e), u (h5 + f), u (h6 + g), u (h7 + h)), w).

Definition blockGeneric (chunk : Z) (hv p : list Z) : outcome (list Z) :=
  let w := make 0 (rounds V) in
  h0 ← index hv 0; h1 ← index hv 1; h2 ← index hv 2; h3 ← index hv 3; h4 ← index hv 4; h5 ← index hv 5; h6 ← index hv 6; h7 ← index hv 7;
  '((h0, h1, h2, h3, h4, h5, h6, h7), _) ← block_loop compress chunk (S (length p)) ((h0, h1, h2, h3, h4, h5, h6, h7), w) p;
  Val [h0; h1; h2; h3; h4; h5; h6; h7].

End Block.

(** ** FIPS 180-4 *)

Section Fips.
Context (V : numbers).
Abbreviation u := (wrap (width V)).

Definition ROTR (n x : Z) : Z := (x >>. n) |. (x <<.[width V] (width V - n)).
Definition SHR (n x : Z) : Z := x >>. n.
Definition Ch (x y z : Z) : Z := (x &. y) ^. (notw (width V) x &. z).
Definition Maj (x y z : Z) : Z := (x &. y) ^. (x &. z) ^. (y &. z).
Definition Sigma (n : Z * Z * Z) (x : Z) : Z := let '(n1, n2, n3) := n in ROTR n1 x ^. ROTR n2 x ^. ROTR n3 x.
Definition sigma (n : Z * Z * Z) (x : Z) : Z := let '(n1, n2, n3) := n in ROTR n1 x ^. ROTR n2 x ^. SHR n3 x.

(** The words of a block, and the schedule after [n] more of them. *)
Fixpoint message_words (n : nat) (p : list Z) : list Z :=
  match n with O => [] | S n => order_value true (take (Z.to_nat (width V / 8)) p) :: message_words n (drop (Z.to_nat (width V / 8)) p) end.
Fixpoint schedule (n : nat) (W : list Z) : list Z :=
  match n with
  | O => W
  | S n => let W := schedule n W in let t := length W in W ++ [u (sigma (lower1 V) (W !!! (t - 2)%nat) + W !!! (t - 7)%nat + sigma (lower0 V) (W !!! (t - 15)%nat) + W !!! (t - 16)%nat)]
  end.
Definition fips_round (W : list Z) (s : state) (t : nat) : state :=
  let '(a, b, c, d, e, f, g, h) := s in
  let T1 := u (h + Sigma (upper1 V) e + Ch e f g + constants V !!! t + W !!! t) in
  let T2 := u (Sigma (upper0 V) a + Maj a b c) in
  (u (T1 + T2), a, b, c, u (d + T1), e, f, g).
Definition fips_compress (hv p : list Z) : list Z :=
  let W := schedule (Z.to_nat (rounds V) - 16) (message_words 16 p) in
  match hv with
  | [h0; h1; h2; h3; h4; h5; h6; h7] =>
      let '(a, b, c, d, e, f, g, h) := foldl (fips_round W) (h0, h1, h2, h3, h4, h5, h6, h7) (seq 0 (Z.to_nat (rounds V))) in
      [u (h0 + a); u (h1 + b); u (h2 + c); u (h3 + d); u (h4 + e); u (h5 + f); u (h6 + g); u (h7 + h)]
  | _ => hv
  end.

(** Chaining values: eight words. *)
Definition chaining (hv : list Z) : Prop := length hv = 8%nat /\ Forall (is_uint (width V)) hv.
End Fips.

(** ** The block function is that of FIPS 180-4 *)

Definition amounts (V : numbers) : list Z :=
  let '(a, b, _) := lower1 V in let '(c, d, _) := lower0 V in let '(e, f, g) := upper1 V in let '(i, j, k) := upper0 V in [a; b; c; d; e; f; g; i; j; k].

(** What the theory asks of a variant. *)
Record variant_ok (V : variant) : Prop := {
  ok_width : 0 < width V /\ (8 | width V);
  ok_rotate : forall v n, n ∈ amounts V -> RotateLeft V v (- n) = ROTR V n v;
  ok_load : forall p j, bytes_ok p -> 0 <= j -> j + width V / 8 <= zlen p -> load V p j = Val (order_value true (take (Z.to_nat (width V / 8)) (drop (Z.to_nat j) p)));
  ok_rounds : 16 <= rounds V /\ zlen (constants V) = rounds V
}.

Section Correct.
Context (V : variant) (HV : variant_ok V).
Abbreviation u := (wrap (width V)).
Abbreviation nb := (Z.to_nat (width V / 8)).
Implicit Types (p w hv : list Z).

Lemma length_message_words n p : length (message_words V n p) = n.
Proof. revert p. induction n as [|n IH]; intros p; cbn [message_words length]; [done|by rewrite IH]. Qed.

Lemma message_words_S n p : message_words V (S n) p = message_words V n p ++ [order_value true (take nb (drop (n * nb) p))].
Proof.
  revert p. induction n as [|n IH]; intros p; [by rewrite drop_0|]. change (message_words V (S (S n)) p) with (order_value true (take nb p) :: message_words V (S n) (drop nb p)). rewrite IH, drop_drop. cbn [message_words app]. by replace (nb + n * nb)%nat with (S n * nb)%nat by lia.
Qed.

Lemma length_schedule n W : length (schedule V n W) = (n + length W)%nat.
Proof. induction n as [|n IH]; [done|]. cbn [schedule]. rewrite length_app, IH. cbn [length]. lia. Qed.

Lemma index_take w t n : 0 <= t < Z.of_nat n -> Z.of_nat n <= zlen w -> index w t = Val (take n w !!! Z.to_nat t).
Proof.
  intros Ht Hn. apply index_Val; [lia|]. rewrite <- (lookup_take_lt w n) by lia. apply list_lookup_lookup_total_lt. rewrite length_take. lia.
Qed.

(** The array [w] starts with the schedule [W]. *)
Definition scheduled W w : Prop := take (length W) w = W /\ zlen w = rounds V /\ (length W <= length w)%nat.

Lemma scheduled_store W w v : scheduled W w -> zlen W < rounds V -> store w (zlen W) v = Val (<[length W := v]> w) /\ scheduled (W ++ [v]) (<[length W := v]> w).
Proof.
  intros (Ht & Hl & Hle) Hlt. rewrite store_lt, Nat2Z.id by lia. split; [done|]. unfold scheduled. rewrite length_app, length_insert. cbn [length]. split; [|lia].
  rewrite Nat.add_comm. cbn [Nat.add]. rewrite (take_S_r _ _ v) by (apply list_lookup_insert_eq; lia). rewrite take_insert_ge by lia. by rewrite Ht.
Qed.

Lemma words_loop p w : bytes_ok p -> 16 * (width V / 8) <= zlen p -> zlen w = rounds V ->
  exists w', for_up 0 16 (word_turn V p) w = Val w' /\ scheduled (message_words V 16 p) w'.
Proof.
  intros Hp Hl Hw. destruct (ok_rounds V HV) as [Hr _]. destruct (ok_width V HV) as [H0 _]. assert (Hnb : 0 <= width V / 8) by (apply Z.div_pos; lia).
  destruct (for_up_inv (λ i w, 0 <= i /\ scheduled (message_words V (Z.to_nat i) p) w) 0 16 (word_turn V p) w) as (w' & E & _ & H); [lia| | |by exists w'].
  - split; [lia|]. split_and!; [by rewrite take_0|done|change (Z.to_nat 0) with O; cbn [message_words length]; lia].
  - intros i w1 Hi [_ Hs]. unfold word_turn. rewrite (ok_load V HV) by (done || nia). cbn [mbind outcome_bind].
    destruct (scheduled_store _ _ (order_value true (take nb (drop (Z.to_nat (i * (width V / 8))) p))) Hs) as [E H1]; rewrite length_message_words in *; [lia|]. rewrite Z2Nat.id in E by lia. rewrite E. eexists. split; [done|]. split; [lia|].
    replace (Z.to_nat (i + 1)) with (S (Z.to_nat i)) by lia. rewrite message_words_S. replace (Z.to_nat i * nb)%nat with (Z.to_nat (i * (width V / 8))) by (rewrite Z2Nat.inj_mul; lia). exact H1.
Qed.

Lemma schedule_loop W w : scheduled W w -> length W = 16%nat ->
  exists w', for_up 16 (rounds V) (schedule_turn V) w = Val w' /\ w' = schedule V (Z.to_nat (rounds V) - 16) W.
Proof.
  intros Hs HW. destruct (ok_rounds V HV) as [Hr _].
  destruct (for_up_inv (λ i w, 16 <= i /\ scheduled (schedule V (Z.to_nat i - 16) W) w) 16 (rounds V) (schedule_turn V) w) as (w' & E & _ & (Ht & Hl & Hle)); [lia| | |].
  - split; [lia|done].
  - intros i w1 Hi [_ Hs1]. set (W1 := schedule V (Z.to_nat i - 16) W) in *. assert (HW1 : length W1 = Z.to_nat i) by (unfold W1; rewrite length_schedule; lia). pose proof Hs1 as (Ht1 & Hl1 & Hle1).
    assert (Hix : forall k, 1 <= k <= 16 -> index w1 (i - k) = Val (W1 !!! (Z.to_nat i - Z.to_nat k)%nat)).
    { intros k Hk. rewrite (index_take w1 (i - k) (length W1)), Ht1 by lia. do 2 f_equal. lia. }
    unfold schedule_turn. rewrite !Hix by lia. cbn [mbind outcome_bind]. destruct (lower1 V) as [[a1 b1] c1] eqn:E1. destruct (lower0 V) as [[a0 b0] c0] eqn:E0. cbn [mbind outcome_bind].
    assert (Ha : forall n, n = a1 \/ n = b1 \/ n = a0 \/ n = b0 -> n ∈ amounts V). { intros n Hn. unfold amounts. rewrite E1, E0. destruct (upper1 V) as [[? ?] ?], (upper0 V) as [[? ?] ?]. rewrite !elem_of_cons. tauto. }
    rewrite !(ok_rotate V HV) by (apply Ha; tauto). eassert (Hst := scheduled_store W1 w1 _ Hs1 ltac:(lia)). rewrite HW1, Z2Nat.id in Hst by lia. destruct Hst as [-> H1]. eexists. split; [reflexivity|]. split; [lia|].
    replace (Z.to_nat (i + 1) - 16)%nat with (S (Z.to_nat i - 16)) by lia. cbn [schedule]. fold W1. rewrite HW1, E1, E0. exact H1.
  - exists w'. split; [done|]. set (W' := schedule V _ W) in *. assert (length W' = length w'). { unfold W'. rewrite length_schedule. lia. } by rewrite <- Ht, take_ge by lia.
Qed.

Lemma rounds_loop W s0 : zlen W = rounds V -> for_up 0 (rounds V) (round_turn V W) s0 = Val (foldl (fips_round V W) s0 (seq 0 (Z.to_nat (rounds V)))).
Proof.
  intros HW. destruct (ok_rounds V HV) as [Hr HK]. destruct (for_up_inv (λ i s, 0 <= i /\ s = foldl (fips_round V W) s0 (seq 0 (Z.to_nat i))) 0 (rounds V) (round_turn V W) s0) as (s' & E & _ & Hs'); [lia|done| |by rewrite E, Hs'].
  intros i s Hi [_ Hs]. replace (Z.to_nat (i + 1)) with (Z.to_nat i + 1)%nat by lia. rewrite seq_app, foldl_app, <- Hs. cbn [seq foldl Nat.add]. clear Hs. destruct s as [[[[[[[a b] c] d] e] f] g] h']. unfold round_turn, fips_round.
  assert (EK : index (constants V) i = Val (constants V !!! Z.to_nat i)) by (rewrite (index_take _ i (length (constants V))), take_ge by lia; done). assert (EW : index W i = Val (W !!! Z.to_nat i)) by (rewrite (index_take _ i (length W)), take_ge by lia; done).
  rewrite EK, EW. cbn [mbind outcome_bind]. destruct (upper1 V) as [[r1 r2] r3] eqn:E1. destruct (upper0 V) as [[q1 q2] q3] eqn:E0.
  assert (Ha : forall n, n = r1 \/ n = r2 \/ n = r3 \/ n = q1 \/ n = q2 \/ n = q3 -> n ∈ amounts V). { intros n Hn. unfold amounts. rewrite E1, E0. destruct (lower1 V) as [[? ?] ?], (lower0 V) as [[? ?] ?]. rewrite !elem_of_cons. tauto. }
  rewrite !(ok_rotate V HV) by (apply Ha; tauto). eexists. split; [reflexivity|]. split; [lia|done].
Qed.

Definition list_of (s : state) : list Z := let '(a, b, c, d, e, f, g, h') := s in [a; b; c; d; e; f; g; h'].

Lemma compress_spec s w p : bytes_ok p -> 16 * (width V / 8) <= zlen p -> zlen w = rounds V ->
  exists s' w', compress V (s, w) p = Val (s', w') /\ zlen w' = rounds V /\ list_of s' = fips_compress V (list_of s) p.
Proof.
  intros Hp Hl Hw. destruct (ok_rounds V HV) as [Hr _]. destruct s as [[[[[[[h0 h1] h2] h3] h4] h5] h6] h7]. unfold compress. destruct (words_loop p w Hp Hl Hw) as (w1 & -> & H1). cbn [mbind outcome_bind].
  destruct (schedule_loop _ w1 H1 (length_message_words 16 p)) as (w2 & -> & ->). cbn [mbind outcome_bind]. set (W := schedule V _ _). assert (HW : zlen W = rounds V) by (unfold W; rewrite length_schedule, length_message_words; lia).
  rewrite rounds_loop by done. cbn [mbind outcome_bind fips_compress list_of]. fold W. set (r := foldl _ _ _). destruct r as [[[[[[[a b] c] d] e] f] g] h']. eexists _, _. split; [reflexivity|]. done.
Qed.

Lemma fips_compress_chaining hv p : chaining V hv -> chaining V (fips_compress V hv p).
Proof.
  intros [Hl _]. destruct (ok_width V HV) as [H0 _]. do 8 (destruct hv as [|? hv]; [done|]). destruct hv; [|done]. unfold fips_compress. destruct (foldl _ _ _) as [[[[[[[a b] c] d] e] f] g] h']. split; [done|]. repeat (apply Forall_cons_2; [apply wrap_is_uint; lia|]). constructor.
Qed.

Lemma message_words_take n p c : (n * nb <= c)%nat -> message_words V n (take c p) = message_words V n p.
Proof.
  revert c p. induction n as [|n IH]; intros c p Hc; cbn [message_words]; [done|]. rewrite take_take, Nat.min_l by lia. f_equal. destruct (Nat.le_gt_cases nb c); [|lia]. rewrite <- (IH (c - nb)%nat (drop nb p)) by lia. f_equal. by rewrite skipn_firstn_comm.
Qed.

Lemma blockGeneric_spec c hv p : (0 < c)%nat -> Z.of_nat c = 16 * (width V / 8) -> chaining V hv -> bytes_ok p -> (length p mod c)%nat = 0%nat -> blockGeneric V (Z.of_nat c) hv p = Val (digested (fips_compress V) c hv p).
Proof.
  intros Hc Ec Hh Hp Hm. destruct (ok_rounds V HV) as [Hr _]. destruct (ok_width V HV) as [H0 _]. pose proof Hh as [Hl _]. destruct hv as [|h0 [|h1 [|h2 [|h3 [|h4 [|h5 [|h6 [|h7 [|? ?]]]]]]]]]; try done. unfold blockGeneric.
  assert (Ei : forall i x, [h0; h1; h2; h3; h4; h5; h6; h7] !! Z.to_nat i = Some x -> 0 <= i -> index [h0; h1; h2; h3; h4; h5; h6; h7] i = Val x) by (intros i x Hx Hi; by apply index_Val).
  rewrite (Ei 0 h0), (Ei 1 h1), (Ei 2 h2), (Ei 3 h3), (Ei 4 h4), (Ei 5 h5), (Ei 6 h6), (Ei 7 h7) by done. cbn [mbind outcome_bind]. set (s := (h0, h1, h2, h3, h4, h5, h6, h7)) in *.
  destruct (block_loop_digested c (fips_compress V) (chaining V) (compress V) (λ s hv, zlen (snd s) = rounds V /\ list_of (fst s) = hv) Hc (λ hv p Hg _ _, fips_compress_chaining hv p Hg)) with (fuel := S (length p)) (s := (s, make 0 (rounds V))) (hv := list_of s) (p := p) as ([s' w'] & E & Hw' & Hs').
  - intros [s1 w1] hv1 p1 [Hw1 Hs1] _ Hp1 Hl1. destruct (compress_spec s1 w1 p1 Hp1 ltac:(lia) Hw1) as (s2 & w2 & E & Hw2 & Hs2). exists (s2, w2). split; [done|]. split; [done|]. cbn [fst snd] in *. rewrite Hs2, Hs1. unfold fips_compress.
    by rewrite (message_words_take 16 p1 c) by nia.
  - split; [apply length_make; lia|done].
  - done.
  - done.
  - done.
  - lia.
  - rewrite E. cbn [mbind outcome_bind]. cbn [fst snd] in Hs'. destruct s' as [[[[[[[a b] c'] d] e] f] g] h']. exact (f_equal Val Hs').
Qed.
End Correct.

(** ** The constants of the standard: roots of the first primes *)

(** [k] is the first [w] bits of the fractional part of the [r]-th root of [p], which is between [i] and [i + 1]. *)
Definition root_fraction (r w p i k : Z) : bool :=
  (i ^ r <=? p) && (p <? (i + 1) ^ r) && (0 <=? k) && (k <? 2 ^ w) && ((i * 2 ^ w + k) ^ r <=? p * 2 ^ (w * r)) && (p * 2 ^ (w * r) <? (i * 2 ^ w + k + 1) ^ r).
Definition is_prime (n : Z) : bool := (1 <? n) && forallb (λ d, negb (n mod Z.of_nat d =? 0)) (seq 2 (Z.to_nat n - 2)).
Definition first_primes (n : nat) : list Z := take n (filter (λ z, is_prime z = true) (map Z.of_nat (seq 0 410))).
(** Integer parts: the square and cube roots of these primes are below 21. *)
Definition roots (r w : Z) (ps ks : list Z) : bool := (length ps =? length ks)%nat && forallb (λ '(p, k), existsb (λ i, root_fraction r w p (Z.of_nat i) k) (seq 0 21)) (zip ps ks).

(** The greatest number whose [r]-th power is at most [n], when that has at most [b] binary digits. *)
Fixpoint iroot (r : Z) (b : nat) (n : Z) : Z :=
  match b with O => 0 | S b => let x := 2 * iroot r b (n / 2 ^ r) in if (x + 1) ^ r <=? n then x + 1 else x end.
(** The first [w] bits of the fractional parts of the [r]-th roots of the numbers [ps], which are below 32 ^ r. *)
Definition fractions (r w : Z) (ps : list Z) : list Z := map (λ p, iroot r (Z.to_nat w + 5) (p * 2 ^ (w * r)) mod 2 ^ w) ps.

Lemma iroot_spec r b : forall n, 0 < r -> 0 <= n < 2 ^ (r * Z.of_nat b) -> 0 <= iroot r b n /\ iroot r b n ^ r <= n < (iroot r b n + 1) ^ r.
Proof.
  induction b as [|b IH]; intros n Hr Hn; cbn [iroot]; [rewrite Z.mul_0_r in Hn; change (2 ^ 0) with 1 in Hn; rewrite Z.pow_0_l, Z.add_0_l, Z.pow_1_l; lia|].
  assert (H2 : 0 < 2 ^ r) by (apply Z.pow_pos_nonneg; lia). destruct (IH (n / 2 ^ r) Hr) as (H0 & Hl & Hh).
  { split; [apply Z.div_pos; lia|]. apply Z.div_lt_upper_bound; [done|]. rewrite <- Z.pow_add_r by lia. replace (r + r * Z.of_nat b) with (r * Z.of_nat (S b)) by lia. lia. }
  set (y := iroot r b (n / 2 ^ r)) in *. pose proof (Z.mul_div_le n (2 ^ r) H2) as Hd. pose proof (Z.mul_succ_div_gt n (2 ^ r) H2) as Hg.
  assert (Hl2 : (2 * y) ^ r <= n) by (rewrite Z.pow_mul_l; nia). assert (Hh2 : n < (2 * y + 1 + 1) ^ r) by (replace (2 * y + 1 + 1) with (2 * (y + 1)) by lia; rewrite Z.pow_mul_l; nia).
  destruct (Z.leb_spec ((2 * y + 1) ^ r) n); (split; [lia|done]).
Qed.

Lemma iroot_unique r b n x : 0 < r -> 0 <= n < 2 ^ (r * Z.of_nat b) -> 0 <= x -> x ^ r <= n < (x + 1) ^ r -> x = iroot r b n.
Proof.
  intros Hr Hn Hx Hxn. destruct (iroot_spec r b n Hr Hn) as [H0 Hi]. set (y := iroot r b n) in *. destruct (Z.lt_trichotomy x y) as [H|[H|H]]; [|done|].
  - pose proof (Z.pow_le_mono_l (x + 1) y r ltac:(lia)). lia.
  - pose proof (Z.pow_le_mono_l (y + 1) x r ltac:(lia)). lia.
Qed.

(** Numbers that are checked to be fractions are these. *)
Lemma roots_fractions r w ps ks : 0 < r -> 0 <= w -> roots r w ps ks = true -> ks = fractions r w ps.
Proof.
  intros Hr Hw [El%Nat.eqb_eq Hall]%andb_true_iff. revert ks El Hall. induction ps as [|p ps IH]; intros [|k ks] El Hall; [done..|]. cbn [zip zip_with forallb] in Hall. apply andb_true_iff in Hall as [Hk Hall].
  cbn [fractions map]. rewrite (IH ks ltac:(by injection El) Hall). f_equal. apply existsb_exists in Hk as (i & Hi%in_seq & Hf). unfold root_fraction in Hf. rewrite !andb_true_iff, !Z.leb_le, !Z.ltb_lt in Hf. destruct Hf as (((((Hp1 & Hp2) & Hk0) & Hkw) & Hl) & Hh).
  assert (H2 : 0 < 2 ^ (w * r)) by (apply Z.pow_pos_nonneg; lia). assert (Hp0 : 0 <= p) by (pose proof (Z.pow_nonneg (Z.of_nat i) r ltac:(lia)); lia).
  rewrite <- (iroot_unique r _ _ (Z.of_nat i * 2 ^ w + k)); [rewrite Z.add_comm, Z.mod_add, Z.mod_small by lia; done|done| |nia|done].
  split; [nia|]. replace (r * Z.of_nat (Z.to_nat w + 5)) with (5 * r + w * r) by lia. rewrite Z.pow_add_r by lia. rewrite (Z.pow_mul_r 2 5) by lia. change (2 ^ 5) with 32. apply Z.mul_lt_mono_pos_r; [done|]. pose proof (Z.pow_le_mono_l (Z.of_nat i + 1) 32 r ltac:(lia)). lia.
Qed.

(** The first 64 bits for the ninth to the sixteenth prime: SHA-384 starts with them, SHA-224 with the second half of each. *)
Lemma second_primes : fractions 2 64 (drop 8 (first_primes 16)) = [0xcbbb9d5dc1059ed8; 0x629a292a367cd507; 0x9159015a3070dd17; 0x152fecd8f70e5939; 0x67332667ffc00b31; 0x8eb44a8768581511; 0xdb0c2e0d64f98fa7; 0x47b5481dbefa4fa4].
Proof. symmetry. apply roots_fractions; [done..|]. vm_compute. reflexivity. Qed.
