(* ===== verification/Sha256.v ===== *)
(** * crypto/sha256

    SHA-256 and SHA-224: src/Source/Gold/crypto/sha256/sha256.go and sha256block.go.  The state and its methods are those of file Digest, the
    block function that of file Sha2 with the numbers of this package; block is blockGeneric (sha256block_generic.go). *)

From S2P Require Import Prelude Bits Binary Hash Digest Sha2.

Local Open Scope go_scope.

Definition _K : list Z :=
   0x428a2f98 :: 0x71374491 :: 0xb5c0fbcf :: 0xe9b5dba5 :: 0x3956c25b :: 0x59f111f1 :: 0x923f82a4 :: 0xab1c5ed5 ::
   0xd807aa98 :: 0x12835b01 :: 0x243185be :: 0x550c7dc3 :: 0x72be5d74 :: 0x80deb1fe :: 0x9bdc06a7 :: 0xc19bf174 ::
   0xe49b69c1 :: 0xefbe4786 :: 0x0fc19dc6 :: 0x240ca1cc :: 0x2de92c6f :: 0x4a7484aa :: 0x5cb0a9dc :: 0x76f988da ::
   0x983e5152 :: 0xa831c66d :: 0xb00327c8 :: 0xbf597fc7 :: 0xc6e00bf3 :: 0xd5a79147 :: 0x06ca6351 :: 0x14292967 ::
   0x27b70a85 :: 0x2e1b2138 :: 0x4d2c6dfc :: 0x53380d13 :: 0x650a7354 :: 0x766a0abb :: 0x81c2c92e :: 0x92722c85 ::
   0xa2bfe8a1 :: 0xa81a664b :: 0xc24b8b70 :: 0xc76c51a3 :: 0xd192e819 :: 0xd6990624 :: 0xf40e3585 :: 0x106aa070 ::
   0x19a4c116 :: 0x1e376c08 :: 0x2748774c :: 0x34b0bcb5 :: 0x391c0cb3 :: 0x4ed8aa4a :: 0x5b9cca4f :: 0x682e6ff3 ::
   0x748f82ee :: 0x78a5636f :: 0x84c87814 :: 0x8cc70208 :: 0x90befffa :: 0xa4506ceb :: 0xbef9a3f7 :: 0xc67178f2 :: [].

(** The amounts in the order of the source: the schedule, then the rounds. *)
Definition sha256_variant : variant :=
  Variant (Numbers 32 64 (17, 19, 10) (7, 18, 3) (6, 11, 25) (2, 13, 22) _K) Bits.RotateLeft32 load32.

Definition Size : Z := 32.
Definition Size224 : Z := 28.
Definition BlockSize : Z := 64.
Definition chunk : Z := 64.
Definition init : list Z := [0x6A09E667; 0xBB67AE85; 0x3C6EF372; 0xA54FF53A; 0x510E527F; 0x9B05688C; 0x1F83D9AB; 0x5BE0CD19].
Definition init_224 : list Z := [0xC1059ED8; 0x367CD507; 0x3070DD17; 0xF70E5939; 0xFFC00B31; 0x68581511; 0x64F98FA7; 0xBEFA4FA4].

(** The field is224 is [function]. *)
Definition digest : Type := Digest.digest bool.
Definition magic224 : list Z := str "sha" ++ [2].
Definition magic256 : list Z := str "sha" ++ [3].
Definition marshaledSize : Z := zlen magic256 + 8 * 4 + chunk + 8.

Definition block : list Z -> list Z -> outcome (list Z) := blockGeneric sha256_variant chunk.

Definition Reset (d : digest) : digest := Digest (if negb (function d) then init else init_224) (x d) 0 0 (function d).
Definition zero_digest (is224 : bool) : digest := Digest (make 0 8) (make 0 chunk) 0 0 is224.
Definition New : digest := Reset (zero_digest false).
Definition New224 : digest := Reset (zero_digest true).

Definition Write (d : digest) (p : list Z) : outcome (digest * Z) := Digest.Write chunk block d p.

Definition MarshalBinary (d : digest) : outcome (list Z) := Digest.MarshalBinary appendUint32 (if function d then magic224 else magic256) marshaledSize d.
Definition UnmarshalBinary (d : digest) (b : list Z) : outcome (digest * option unmarshalError) :=
  if (zlen b <? zlen magic224) || (function d && negb (bool_decide (take (length magic224) b = magic224))) || (negb (function d) && negb (bool_decide (take (length magic256) b = magic256)))
  then Val (d, Some invalidIdentifier)
  else Digest.UnmarshalBinary chunk consumeUint32 consumeUint64 magic224 marshaledSize d b.

Definition checkSum (d : digest) : outcome (digest * list Z) :=
  d ← finish chunk block 8 bigEndian_PutUint64 d;
  let digest := make 0 Size in
  digest ← put_words bigEndian_PutUint32 4 digest 0 (take 7 (h d));
  digest ← (if negb (function d) then h7 ← index (h d) 7; put_at bigEndian_PutUint32 digest 28 h7 else Val digest);
  Val (d, digest).

Definition Sum (d : digest) (in_ : list Z) : outcome (list Z) :=
  '(d0, hash) ← checkSum d : outcome (digest * list Z);
  if function d0 : bool then s ← slice hash 0 Size224; Val (in_ ++ s) else Val (in_ ++ hash).

Definition Sum256 (data : list Z) : outcome (list Z) :=
  let d := Reset (zero_digest false) in
  '(d, _) ← Write d data; '(_, s) ← checkSum d; Val s.
Definition Sum224 (data : list Z) : outcome (list Z) :=
  let d := Reset (zero_digest true) in
  '(d, _) ← Write d data; '(_, sum) ← checkSum d; s ← slice sum 0 Size224; '(sum224, _) ← copy_at (make 0 Size224) 0 s; Val sum224.

#[export] Instance sha256_Hash : Hash digest := {
  Hash.Write := Write; Hash.Sum := Sum; Hash.Reset := Reset;
  Hash.Size := λ d, if negb (function d) then Size else Size224; Hash.BlockSize := λ _, BlockSize;
  Hash.MarshalBinary := MarshalBinary; Hash.UnmarshalBinary := UnmarshalBinary }.

(** "abc" *)
Example Sum256_abc : Sum256 (str "abc") = Val (order_bytes true 32 0xba7816bf8f01cfea414140de5dae2223b00361a396177a9cb410ff61f20015ad).
Proof. vm_compute. reflexivity. Qed.

(** ** FIPS 180-4 *)

(** The functions of section 4.1.2 in their order, with the first 32 bits of the fractional parts of the cube roots of the first 64 primes. *)
Definition fips_256 : numbers :=
  {| width := 32; rounds := 64; upper0 := (2, 13, 22); upper1 := (6, 11, 25); lower0 := (7, 18, 3); lower1 := (17, 19, 10); constants := fractions 3 32 (first_primes 64) |}.
(** The initial values: the first 32 bits of the fractional parts of the square roots of the first eight primes; the second 32 bits for the ninth to the sixteenth. *)
Definition sha256_iv (is224 : bool) : list Z := if is224 then map (λ w, w mod 2 ^ 32) (fractions 2 64 (drop 8 (first_primes 16))) else fractions 2 32 (first_primes 8).

(** SHA-256 and SHA-224 of a message: the padded message, its length in bits in 64 bits, iterated from the initial value; the words that are kept. *)
Definition sha256_function (is224 : bool) (m : list Z) : list Z :=
  take (if is224 then 28 else 32) (words_bytes 4 (digested (fips_compress fips_256) 64 (sha256_iv is224) (padded 64 8 (bit_length (order_bytes true 8)) m))).

(** ** The methods compute the function *)

Lemma rotate_right32 v n : 0 < n < 32 -> RotateLeft32 v (- n) = (v >>. n) |. (v <<.[32] (32 - n)).
Proof. intros Hn. rewrite RotateLeft32_eq. replace (- n mod 32) with (32 - n) by (rewrite Z.mod_opp_l_nz; rewrite ?Z.mod_small; lia). rewrite Z.lor_comm. by replace (32 - (32 - n)) with n by lia. Qed.

Lemma sha256_variant_ok : variant_ok sha256_variant.
Proof.
  split.
  - split; [done|by exists 4].
  - intros v n Hn. apply rotate_right32. assert (H : Forall (λ n, 0 < n < 32) (amounts sha256_variant)) by (apply (bool_decide_unpack _); vm_compute; exact I). exact (proj1 (Forall_forall _ _) H n Hn).
  - intros p j Hp Hj Hl. by apply load32_val.
  - done.
Qed.

(** The numbers of the source are those of the standard. *)
Lemma sha256_numbers : fips_256 = sha256_variant.
Proof. unfold fips_256. by rewrite <- (roots_fractions 3 32 (first_primes 64) _K) by (done || (vm_compute; reflexivity)). Qed.

Lemma sha256_iv_code is224 : sha256_iv is224 = if is224 then init_224 else init.
Proof. unfold sha256_iv. rewrite second_primes. by rewrite <- (roots_fractions 2 32 (first_primes 8) init) by (done || (vm_compute; reflexivity)). Qed.

Lemma sha256_iv_chaining is224 : chaining fips_256 (sha256_iv is224).
Proof. rewrite sha256_iv_code. split; [by destruct is224|]. destruct is224; apply (bool_decide_unpack _); by vm_compute. Qed.

Definition sha256_represents (is224 : bool) : digest -> list Z -> Prop := represents 64 (fips_compress fips_256) (sha256_iv is224) is224.

Lemma sha256_block hv p : chaining fips_256 hv -> bytes_ok p -> (length p mod 64)%nat = 0%nat -> block hv p = Val (digested (fips_compress fips_256) 64 hv p).
Proof. rewrite sha256_numbers. intros Hh Hp Hm. apply (blockGeneric_spec sha256_variant sha256_variant_ok 64); [lia|done..]. Qed.

Lemma sha256_good hv p : chaining fips_256 hv -> bytes_ok p -> length p = 64%nat -> chaining fips_256 (fips_compress fips_256 hv p).
Proof. rewrite sha256_numbers. intros Hh _ _. by apply fips_compress_chaining; [apply sha256_variant_ok|]. Qed.

Lemma sha256_Write is224 d m p : sha256_represents is224 d m -> bytes_ok p -> exists d', Write d p = Val (d', zlen p) /\ sha256_represents is224 d' (m ++ p).
Proof. intros Hd Hp. by apply (Write_represents 64 6 _ block (chaining fips_256) eq_refl ltac:(lia) sha256_block sha256_good); [apply sha256_iv_chaining| |]. Qed.

Lemma sha256_Reset d m is224 : sha256_represents is224 d m -> sha256_represents is224 (Reset d) [].
Proof.
  intros ([_ [Hl Hb] _ _] & _ & Hf & _). split_and!; [|done|exact Hf|done]. split; cbn [h x nx Reset]; [rewrite Hf, sha256_iv_code; by destruct is224|done|done|done].
Qed.

Lemma sha256_fresh is224 : sha256_represents is224 (Reset (zero_digest is224)) [].
Proof. split_and!; [|done|done|done]. split; cbn [h x nx Reset]; [rewrite sha256_iv_code; by destruct is224|split; [done|apply make_ok]|done|done]. Qed.

Lemma bit_length_put n : exists tmp, bigEndian_PutUint64 (<[0%nat := 0x80]> (make 0 (Z.of_nat 64))) n = Val tmp /\ length tmp = 64%nat /\ take 8 tmp = order_bytes true 8 n.
Proof.
  eexists. split; [apply (put_spec 8 true bigEndian_Uint64); [unfold byte_orders; rewrite !elem_of_cons; tauto|by apply Nat.leb_le]|]. pose proof (length_order_bytes true 8 n) as El. split; [rewrite length_app, length_drop, El; done|by rewrite take_app_length' by done].
Qed.

Lemma sha256_checkSum is224 d m : sha256_represents is224 d m ->
  let hv := digested (fips_compress fips_256) 64 (sha256_iv is224) (padded 64 8 (bit_length (order_bytes true 8)) m) in
  exists d', checkSum d = Val (d', words_bytes 4 (if is224 then take 7 hv ++ [0] else hv)) /\ function d' = is224.
Proof.
  intros Hd hv. pose proof Hd as (_ & _ & _ & Hm). unfold checkSum. change (finish chunk block 8 bigEndian_PutUint64 d) with (finish (Z.of_nat 64) block (Z.of_nat 8) bigEndian_PutUint64 d).
  destruct (finish_spec (F := bool) 64 6 (fips_compress fips_256) block (chaining fips_256) eq_refl ltac:(lia) sha256_block sha256_good 8 bigEndian_PutUint64 (order_bytes true 8) ltac:(lia)) with (iv := sha256_iv is224) (f := is224) (d := d) (m := m) as (d' & -> & Hh & Hf);
    [intros n; split; [apply length_order_bytes|apply order_bytes_ok]|apply bit_length_put|apply sha256_iv_chaining|exact Hd|]. fold hv in Hh. cbn [mbind outcome_bind].
  assert (Hg : length hv = 8%nat).
  { destruct (digested_good 64 6 (fips_compress fips_256) (chaining fips_256) ltac:(lia) sha256_good (sha256_iv is224) (padded 64 8 (bit_length (order_bytes true 8)) m) (sha256_iv_chaining is224)) as [Hg _]; [|exact Hg].
    apply padded_bytes; [done|apply order_bytes_ok]. }
  rewrite Hh. clearbody hv. destruct hv as [|h0 [|h1 [|h2 [|h3 [|h4 [|h5 [|h6 [|h7 [|? ?]]]]]]]]]; try done. assert (Hin : (4%nat, true, bigEndian_Uint32, bigEndian_PutUint32) ∈ byte_orders) by (unfold byte_orders; rewrite !elem_of_cons; tauto).
  pose proof (put_words_val 4 true _ _ [] (make 0 Size) [h0; h1; h2; h3; h4; h5; h6] Hin ltac:(by apply Nat.leb_le)) as E1. change ([] ++ make 0 Size) with (make 0 Size) in E1. change (zlen []) with 0 in E1. change (Z.of_nat 4) with 4 in E1. cbn [take]. rewrite E1. cbn [mbind outcome_bind]. rewrite Hf.
  destruct is224; cbn [negb]; [by exists d'|]. rewrite (index_Val _ 7 h7) by done. cbn [mbind outcome_bind]. set (w := concat (map (order_bytes true 4) [h0; h1; h2; h3; h4; h5; h6])).
  pose proof (put_words_val 4 true _ _ w (make 0 4) [h7] Hin ltac:(by apply Nat.leb_le)) as E2. assert (Ew : zlen w = 28) by (unfold w; by rewrite length_words). rewrite Ew in E2. cbn [put_words] in E2.
  change (drop (4 * length [h0; h1; h2; h3; h4; h5; h6]) (make 0 Size)) with (make 0 4). cbn [app]. destruct (put_at bigEndian_PutUint32 (w ++ make 0 4) 28 h7); [|done..]. cbn [mbind outcome_bind] in *. injection E2 as ->. exists d'. split; [|done]. reflexivity.
Qed.

Lemma sha256_function_checkSum (is224 : bool) hv : length hv = 8%nat -> take (if is224 then 28 else 32) (words_bytes 4 (if is224 then take 7 hv ++ [0] else hv)) = take (if is224 then 28 else 32) (words_bytes 4 hv).
Proof.
  intros Hl. destruct is224; [|done]. destruct hv as [|h0 [|h1 [|h2 [|h3 [|h4 [|h5 [|h6 [|h7 [|? ?]]]]]]]]]; done.
Qed.

Lemma sha256_value_chaining is224 m : bytes_ok m -> length (digested (fips_compress fips_256) 64 (sha256_iv is224) (padded 64 8 (bit_length (order_bytes true 8)) m)) = 8%nat.
Proof.
  intros Hm. destruct (digested_good 64 6 (fips_compress fips_256) (chaining fips_256) ltac:(lia) sha256_good (sha256_iv is224) (padded 64 8 (bit_length (order_bytes true 8)) m) (sha256_iv_chaining is224)) as [Hg _]; [|exact Hg].
  apply padded_bytes; [done|apply order_bytes_ok].
Qed.

Lemma sha256_Sum is224 d m b : sha256_represents is224 d m -> Sum d b = Val (b ++ sha256_function is224 m).
Proof.
  intros Hd. pose proof Hd as (_ & _ & _ & Hm). unfold Sum, sha256_function. pose proof (sha256_value_chaining is224 m Hm) as Hl. destruct (sha256_checkSum is224 d m Hd) as (d' & -> & Hf). cbn [mbind outcome_bind]. rewrite Hf. set (hv := digested _ _ _ _) in *. clearbody hv.
  rewrite <- (sha256_function_checkSum is224 hv Hl). assert (Hlen : length (words_bytes 4 (if is224 then take 7 hv ++ [0] else hv)) = 32%nat) by (rewrite length_words_bytes; destruct is224; [rewrite length_app, length_take; cbn [length]; lia|lia]).
  destruct is224; [rewrite slice_take by (rewrite Hlen; unfold Size224; lia); done|]. by rewrite (take_ge (words_bytes 4 hv)) by lia.
Qed.

Lemma sha256_value_bytes is224 m : bytes_ok (sha256_function is224 m).
Proof. apply Forall_take, words_bytes_ok. Qed.

Lemma sha256_value_size is224 m : bytes_ok m -> length (sha256_function is224 m) = if is224 then 28%nat else 32%nat.
Proof. intros Hm. unfold sha256_function. rewrite length_take, length_words_bytes, sha256_value_chaining by done. by destruct is224. Qed.

Lemma sha256_marshal is224 d m : sha256_represents is224 d m -> exists b, MarshalBinary d = Val b /\ forall d' m', sha256_represents is224 d' m' -> exists d'', UnmarshalBinary d' b = Val (d'', None) /\ sha256_represents is224 d'' m.
Proof.
  intros Hd. pose proof (sha256_iv_chaining is224) as Hiv. assert (Hw : forall hv, chaining fips_256 hv -> length hv = 8%nat /\ Forall (is_uint (8 * Z.of_nat 4)) hv) by (intros hv [H1 H2]; done).
  set (magic := if is224 then magic224 else magic256). exists (marshalled 64 (fips_compress fips_256) 4 magic (sha256_iv is224) m). pose proof Hd as (_ & _ & Hf & _). split.
  - pose proof (MarshalBinary_represents 64 6 _ _ eq_refl ltac:(lia) sha256_good 4 8 appendUint32 appendUint32_val Hw magic (sha256_iv is224) is224 d m Hiv Hd) as E. unfold MarshalBinary. rewrite Hf. unfold magic in *. by destruct is224.
  - intros d' m' Hd'. pose proof Hd' as (_ & _ & Hf' & _). destruct (UnmarshalBinary_represents 64 6 _ _ eq_refl ltac:(lia) sha256_good 4 8 consumeUint32 consumeUint64 consumeUint32_val Hw consumeUint64_nil magic (sha256_iv is224) (sha256_iv is224) is224 is224 d m d' m' Hiv Hiv Hd Hd') as (d'' & E & H).
    exists d''. split; [|done]. unfold UnmarshalBinary. rewrite Hf'. set (b := marshalled _ _ _ _ _ _) in *. assert (Hz : (zlen b <? zlen magic224) = false) by (apply Z.ltb_ge; unfold b, marshalled; rewrite length_app; change (zlen magic224) with 4; replace (length magic) with 4%nat by (unfold magic; by destruct is224); lia).
    assert (Ht : take (length magic) b = magic) by (unfold b, marshalled; by rewrite take_app_length). rewrite Hz. clearbody b. unfold magic in *. destruct is224; cbn [negb andb orb]; rewrite bool_decide_eq_true_2 by exact Ht; exact E.
Qed.

#[export] Program Instance sha256_message (is224 : bool) : MessageHash digest (if is224 then New224 else New) (sha256_function is224) := { has_message := sha256_represents is224 }.
Next Obligation. intros is224. destruct is224; [apply (sha256_fresh true)|apply (sha256_fresh false)]. Qed.
Next Obligation. by intros is224 d m (_ & _ & _ & Hm). Qed.
Next Obligation. intros is224 d m p Hd Hp. by apply sha256_Write. Qed.
Next Obligation. intros is224 d m b Hd. by apply sha256_Sum. Qed.
Next Obligation. intros is224 d m Hd. by apply (sha256_Reset d m). Qed.
Next Obligation. intros is224 d m p (_ & _ & Hf & _) Hp. change (zlen (sha256_function is224 p) = if negb (function d) then Size else Size224). rewrite Hf, sha256_value_size by done. by destruct is224. Qed.
Next Obligation. intros is224 m Hm. apply sha256_value_bytes. Qed.
Next Obligation. intros is224 d m Hd. by apply sha256_marshal. Qed.

Lemma Sum256_value data : bytes_ok data -> Sum256 data = Val (sha256_function false data).
Proof.
  intros Hd. unfold Sum256. destruct (sha256_Write false _ [] data (sha256_fresh false) Hd) as (d' & -> & H). cbn [mbind outcome_bind]. pose proof (sha256_Sum false d' data [] H) as Es. unfold Sum in Es. destruct (sha256_checkSum false d' data H) as (d2 & Ec & Hf).
  rewrite Ec in *. cbn [mbind outcome_bind] in *. rewrite Hf in Es. exact Es.
Qed.

Lemma Sum224_value data : bytes_ok data -> Sum224 data = Val (sha256_function true data).
Proof.
  intros Hd. unfold Sum224. destruct (sha256_Write true _ [] data (sha256_fresh true) Hd) as (d' & -> & H). cbn [mbind outcome_bind]. pose proof (sha256_Sum true d' data [] H) as Es. unfold Sum in Es. destruct (sha256_checkSum true d' data H) as (d2 & Ec & Hf).
  rewrite Ec in *. cbn [mbind outcome_bind] in *. rewrite Hf in Es. destruct (slice _ 0 Size224) as [s|?|]; [|done..]. cbn [mbind outcome_bind app] in *. injection Es as ->. pose proof (sha256_value_size true data Hd) as Hl.
  rewrite copy_at_val by (change (zlen (make 0 Size224)) with 28; lia). cbn [mbind outcome_bind]. change (take (Z.to_nat 0) (make 0 Size224)) with (@nil Z). rewrite (take_ge (sha256_function true data)) by (rewrite Hl; change (zlen (make 0 Size224) - 0) with 28; lia). rewrite Hl. change (drop (Z.to_nat 0 + 28) (make 0 Size224)) with (@nil Z). by rewrite app_nil_r.
Qed.
