(* ===== verification/Sha512.v ===== *)
(** * crypto/sha512

    SHA-512, SHA-384, SHA-512/224 and SHA-512/256: src/Source/Gold/crypto/sha512/sha512.go and sha512block.go.  The state and its methods are those of
    file Digest, the block function that of file Sha2 with the numbers of this package; block is blockGeneric (sha512block_generic.go). *)

From S2P Require Import Prelude Bits Binary Hash Digest Sha2.

Local Open Scope go_scope.

Definition _K : list Z :=
   0x428a2f98d728ae22 :: 0x7137449123ef65cd :: 0xb5c0fbcfec4d3b2f :: 0xe9b5dba58189dbbc ::
   0x3956c25bf348b538 :: 0x59f111f1b605d019 :: 0x923f82a4af194f9b :: 0xab1c5ed5da6d8118 ::
   0xd807aa98a3030242 :: 0x12835b0145706fbe :: 0x243185be4ee4b28c :: 0x550c7dc3d5ffb4e2 ::
   0x72be5d74f27b896f :: 0x80deb1fe3b1696b1 :: 0x9bdc06a725c71235 :: 0xc19bf174cf692694 ::
   0xe49b69c19ef14ad2 :: 0xefbe4786384f25e3 :: 0x0fc19dc68b8cd5b5 :: 0x240ca1cc77ac9c65 ::
   0x2de92c6f592b0275 :: 0x4a7484aa6ea6e483 :: 0x5cb0a9dcbd41fbd4 :: 0x76f988da831153b5 ::
   0x983e5152ee66dfab :: 0xa831c66d2db43210 :: 0xb00327c898fb213f :: 0xbf597fc7beef0ee4 ::
   0xc6e00bf33da88fc2 :: 0xd5a79147930aa725 :: 0x06ca6351e003826f :: 0x142929670a0e6e70 ::
   0x27b70a8546d22ffc :: 0x2e1b21385c26c926 :: 0x4d2c6dfc5ac42aed :: 0x53380d139d95b3df ::
   0x650a73548baf63de :: 0x766a0abb3c77b2a8 :: 0x81c2c92e47edaee6 :: 0x92722c851482353b ::
   0xa2bfe8a14cf10364 :: 0xa81a664bbc423001 :: 0xc24b8b70d0f89791 :: 0xc76c51a30654be30 ::
   0xd192e819d6ef5218 :: 0xd69906245565a910 :: 0xf40e35855771202a :: 0x106aa07032bbd1b8 ::
   0x19a4c116b8d2d0c8 :: 0x1e376c085141ab53 :: 0x2748774cdf8eeb99 :: 0x34b0bcb5e19b48a8 ::
   0x391c0cb3c5c95a63 :: 0x4ed8aa4ae3418acb :: 0x5b9cca4f7763e373 :: 0x682e6ff3d6b2b8a3 ::
   0x748f82ee5defb2fc :: 0x78a5636f43172f60 :: 0x84c87814a1f0ab72 :: 0x8cc702081a6439ec ::
   0x90befffa23631e28 :: 0xa4506cebde82bde9 :: 0xbef9a3f7b2c67915 :: 0xc67178f2e372532b ::
   0xca273eceea26619c :: 0xd186b8c721c0c207 :: 0xeada7dd6cde0eb1e :: 0xf57d4f7fee6ed178 ::
   0x06f067aa72176fba :: 0x0a637dc5a2c898a6 :: 0x113f9804bef90dae :: 0x1b710b35131c471b ::
   0x28db77f523047d84 :: 0x32caab7b40c72493 :: 0x3c9ebe0a15c9bebc :: 0x431d67c49c100d4c ::
   0x4cc5d4becb3e42b6 :: 0x597f299cfc657e2a :: 0x5fcb6fab3ad6faec :: 0x6c44198c4a475817 :: [].

(** The amounts in the order of the source: the schedule, then the rounds. *)
Definition sha512_variant : variant :=
  Variant (Numbers 64 80 (19, 61, 6) (1, 8, 7) (14, 18, 41) (28, 34, 39) _K) Bits.RotateLeft64 load64.

Definition Size : Z := 64.
Definition Size224 : Z := 28.
Definition Size256 : Z := 32.
Definition Size384 : Z := 48.
Definition BlockSize : Z := 128.
Definition chunk : Z := 128.
Definition init : list Z := [0x6a09e667f3bcc908; 0xbb67ae8584caa73b; 0x3c6ef372fe94f82b; 0xa54ff53a5f1d36f1; 0x510e527fade682d1; 0x9b05688c2b3e6c1f; 0x1f83d9abfb41bd6b; 0x5be0cd19137e2179].
Definition init_224 : list Z := [0x8c3d37c819544da2; 0x73e1996689dcd4d6; 0x1dfab7ae32ff9c82; 0x679dd514582f9fcf; 0x0f6d2b697bd44da8; 0x77e36f7304c48942; 0x3f9d85a86a1d36c8; 0x1112e6ad91d692a1].
Definition init_256 : list Z := [0x22312194fc2bf72c; 0x9f555fa3c84c64c2; 0x2393b86b6f53b151; 0x963877195940eabd; 0x96283ee2a88effe3; 0xbe5e1e2553863992; 0x2b0199fc2c85b8aa; 0x0eb72ddc81c52ca2].
Definition init_384 : list Z := [0xcbbb9d5dc1059ed8; 0x629a292a367cd507; 0x9159015a3070dd17; 0x152fecd8f70e5939; 0x67332667ffc00b31; 0x8eb44a8768581511; 0xdb0c2e0d64f98fa7; 0x47b5481dbefa4fa4].

(** The hash functions of package crypto that the field function may name; [OtherHash] stands for the rest. *)
Inductive crypto_Hash : Type := SHA384 | SHA512 | SHA512_224 | SHA512_256 | OtherHash.
#[export] Instance crypto_Hash_eq_dec : EqDecision crypto_Hash.
Proof. solve_decision. Defined.

Definition digest : Type := Digest.digest crypto_Hash.
Definition magic384 : list Z := str "sha" ++ [4].
Definition magic512_224 : list Z := str "sha" ++ [5].
Definition magic512_256 : list Z := str "sha" ++ [6].
Definition magic512 : list Z := str "sha" ++ [7].
Definition marshaledSize : Z := zlen magic512 + 8 * 8 + chunk + 8.

Definition block : list Z -> list Z -> outcome (list Z) := blockGeneric sha512_variant chunk.

Definition initial (f : crypto_Hash) : list Z := match f with SHA384 => init_384 | SHA512_224 => init_224 | SHA512_256 => init_256 | _ => init end.
Definition Reset (d : digest) : digest := Digest (initial (function d)) (x d) 0 0 (function d).
Definition zero_digest (f : crypto_Hash) : digest := Digest (make 0 8) (make 0 chunk) 0 0 f.
Definition New : digest := Reset (zero_digest SHA512).
Definition New512_224 : digest := Reset (zero_digest SHA512_224).
Definition New512_256 : digest := Reset (zero_digest SHA512_256).
Definition New384 : digest := Reset (zero_digest SHA384).

Definition Write (d : digest) (p : list Z) : outcome (digest * Z) := Digest.Write chunk block d p.

Definition magic_of (f : crypto_Hash) : option (list Z) :=
  match f with SHA384 => Some magic384 | SHA512_224 => Some magic512_224 | SHA512_256 => Some magic512_256 | SHA512 => Some magic512 | OtherHash => None end.
(** [None] is the error for another hash function. *)
Definition MarshalBinary (d : digest) : outcome (option (list Z)) :=
  match magic_of (function d) with
  | Some magic => b ← Digest.MarshalBinary appendUint64 magic marshaledSize d; Val (Some b)
  | None => Val None
  end.
Definition UnmarshalBinary (d : digest) (b : list Z) : outcome (digest * option unmarshalError) :=
  if zlen b <? zlen magic512 then Val (d, Some invalidIdentifier)
  else if match magic_of (function d) with Some magic => bool_decide (take (length magic) b = magic) | None => false end
  then Digest.UnmarshalBinary chunk consumeUint64 consumeUint64 magic512 marshaledSize d b
  else Val (d, Some invalidIdentifier).

(** [PutUint64(tmp[0:], 0); PutUint64(tmp[8:], len)] *)
Definition put_length (tmp : list Z) (len : Z) : outcome (list Z) :=
  tmp ← put_at bigEndian_PutUint64 tmp 0 0; put_at bigEndian_PutUint64 tmp 8 len.

Definition checkSum (d : digest) : outcome (digest * list Z) :=
  d ← finish chunk block 16 put_length d;
  let digest := make 0 Size in
  digest ← put_words bigEndian_PutUint64 8 digest 0 (take 6 (h d));
  digest ← (if negb (bool_decide (function d = SHA384)) then put_words bigEndian_PutUint64 8 digest 48 (drop 6 (h d)) else Val digest);
  Val (d, digest).

Definition size_of (f : crypto_Hash) : Z := match f with SHA512_224 => Size224 | SHA512_256 => Size256 | SHA384 => Size384 | _ => Size end.
Definition Sum (d : digest) (in_ : list Z) : outcome (list Z) :=
  '(d0, hash) ← checkSum d : outcome (digest * list Z);
  match function d0 with
  | SHA384 => s ← slice hash 0 Size384; Val (in_ ++ s)
  | SHA512_224 => s ← slice hash 0 Size224; Val (in_ ++ s)
  | SHA512_256 => s ← slice hash 0 Size256; Val (in_ ++ s)
  | _ => Val (in_ ++ hash)
  end.

Definition Sum512 (data : list Z) : outcome (list Z) :=
  '(d, _) ← Write (Reset (zero_digest SHA512)) data; '(_, s) ← checkSum d; Val s.
(** The others keep the front of the checksum: [copy(sum384[:], sum[:Size384])]. *)
Definition Sum_prefix (f : crypto_Hash) (size : Z) (data : list Z) : outcome (list Z) :=
  '(d, _) ← Write (Reset (zero_digest f)) data; '(_, sum) ← checkSum d; s ← slice sum 0 size; '(sum', _) ← copy_at (make 0 size) 0 s; Val sum'.
Definition Sum384 : list Z -> outcome (list Z) := Sum_prefix SHA384 Size384.
Definition Sum512_224 : list Z -> outcome (list Z) := Sum_prefix SHA512_224 Size224.
Definition Sum512_256 : list Z -> outcome (list Z) := Sum_prefix SHA512_256 Size256.

(** A marshalling error comes with a nil slice. *)
#[export] Instance sha512_Hash : Hash digest := {
  Hash.Write := Write; Hash.Sum := Sum; Hash.Reset := Reset;
  Hash.Size := λ d, size_of (function d); Hash.BlockSize := λ _, BlockSize;
  Hash.MarshalBinary := λ d, r ← MarshalBinary d; Val (default [] r); Hash.UnmarshalBinary := UnmarshalBinary }.

(** "abc" *)
Example Sum512_abc : Sum512_256 (str "abc") = Val (order_bytes true 32 0x53048e2681941ef99b2e29b76b4c7dabe4c2d0c634fc6d46e0e2f13107e7af23).
Proof. vm_compute. reflexivity. Qed.

(** ** FIPS 180-4 *)

(** The length of the message takes 16 bytes; the source counts it in 64 bits. *)
Definition length128 (n : Z) : list Z := order_bytes true 8 0 ++ order_bytes true 8 n.
(** The functions of section 4.1.3 in their order, with the first 64 bits of the fractional parts of the cube roots of the first 80 primes. *)
Definition fips_512 : numbers :=
  {| width := 64; rounds := 80; upper0 := (28, 34, 39); upper1 := (14, 18, 41); lower0 := (1, 8, 7); lower1 := (19, 61, 6); constants := fractions 3 64 (first_primes 80) |}.
(** The initial values: the first 64 bits of the fractional parts of the square roots of the first eight primes (SHA-512) and of the next eight (SHA-384), and, for SHA-512/t, what SHA-512 with other first words makes of the name. *)
Definition sha512_first : list Z := fractions 2 64 (first_primes 8).
Definition sha512_t_iv (name : list Z) : list Z := digested (fips_compress fips_512) 128 (map (λ w, Z.lxor w 0xa5a5a5a5a5a5a5a5) sha512_first) (padded 128 16 (bit_length length128) name).
Definition sha512_iv (f : crypto_Hash) : list Z :=
  match f with SHA384 => fractions 2 64 (drop 8 (first_primes 16)) | SHA512_224 => sha512_t_iv (str "SHA-512/224") | SHA512_256 => sha512_t_iv (str "SHA-512/256") | _ => sha512_first end.
Definition sha512_function (f : crypto_Hash) (m : list Z) : list Z :=
  take (Z.to_nat (size_of f)) (words_bytes 8 (digested (fips_compress fips_512) 128 (sha512_iv f) (padded 128 16 (bit_length length128) m))).

(** ** The methods compute the function *)

Lemma rotate_right64 v n : 0 < n < 64 -> RotateLeft64 v (- n) = (v >>. n) |. (v <<.[64] (64 - n)).
Proof. intros Hn. rewrite RotateLeft64_eq. replace (- n mod 64) with (64 - n) by (rewrite Z.mod_opp_l_nz; rewrite ?Z.mod_small; lia). rewrite Z.lor_comm. by replace (64 - (64 - n)) with n by lia. Qed.

Lemma sha512_variant_ok : variant_ok sha512_variant.
Proof.
  split.
  - split; [done|by exists 8].
  - intros v n Hn. apply rotate_right64. assert (H : Forall (λ n, 0 < n < 64) (amounts sha512_variant)) by (apply (bool_decide_unpack _); vm_compute; exact I). exact (proj1 (Forall_forall _ _) H n Hn).
  - intros p j Hp Hj Hl. by apply load64_val.
  - done.
Qed.

(** The numbers of the source are those of the standard. *)
Lemma sha512_numbers : fips_512 = sha512_variant.
Proof. unfold fips_512. by rewrite <- (roots_fractions 3 64 (first_primes 80) _K) by (done || (vm_compute; reflexivity)). Qed.

Lemma sha512_first_code : sha512_first = init.
Proof. symmetry. apply roots_fractions; [done..|]. vm_compute. reflexivity. Qed.

Lemma sha512_iv_code f : sha512_iv f = initial f.
Proof.
  assert (H : sha512_t_iv (str "SHA-512/224") = init_224 /\ sha512_t_iv (str "SHA-512/256") = init_256); [|by destruct H as [H1 H2], f; cbn [sha512_iv initial]; rewrite ?second_primes, ?sha512_first_code, ?H1, ?H2].
  unfold sha512_t_iv. rewrite sha512_numbers, sha512_first_code. split; vm_compute; reflexivity.
Qed.

Lemma initial_chaining f : chaining fips_512 (sha512_iv f).
Proof. rewrite sha512_iv_code. split; [by destruct f|]. destruct f; apply (bool_decide_unpack _); by vm_compute. Qed.

Definition sha512_represents (f : crypto_Hash) : digest -> list Z -> Prop := represents 128 (fips_compress fips_512) (sha512_iv f) f.

Lemma sha512_block hv p : chaining fips_512 hv -> bytes_ok p -> (length p mod 128)%nat = 0%nat -> block hv p = Val (digested (fips_compress fips_512) 128 hv p).
Proof. rewrite sha512_numbers. intros Hh Hp Hm. apply (blockGeneric_spec sha512_variant sha512_variant_ok 128); [lia|done..]. Qed.

Lemma sha512_good hv p : chaining fips_512 hv -> bytes_ok p -> length p = 128%nat -> chaining fips_512 (fips_compress fips_512 hv p).
Proof. rewrite sha512_numbers. intros Hh _ _. by apply fips_compress_chaining; [apply sha512_variant_ok|]. Qed.

Lemma sha512_Write f d m p : sha512_represents f d m -> bytes_ok p -> exists d', Write d p = Val (d', zlen p) /\ sha512_represents f d' (m ++ p).
Proof. intros Hd Hp. by apply (Write_represents 128 7 _ block (chaining fips_512) eq_refl ltac:(lia) sha512_block sha512_good); [apply initial_chaining| |]. Qed.

Lemma sha512_Reset d m f : sha512_represents f d m -> sha512_represents f (Reset d) [].
Proof.
  intros ([_ [Hl Hb] _ _] & _ & Hf & _). split_and!; [|done|exact Hf|done]. split; cbn [h x nx Reset]; [rewrite Hf; symmetry; apply sha512_iv_code|done|done|done].
Qed.

Lemma sha512_fresh f : sha512_represents f (Reset (zero_digest f)) [].
Proof. split_and!; [|done|done|done]. split; cbn [h x nx Reset]; [symmetry; apply sha512_iv_code|split; [done|apply make_ok]|done|done]. Qed.

Lemma length128_ok n : length (length128 n) = 16%nat /\ bytes_ok (length128 n).
Proof. unfold length128. rewrite length_app, !length_order_bytes. split; [done|]. apply Forall_app. split; apply order_bytes_ok. Qed.

Lemma put_length_val n : exists tmp, put_length (<[0%nat := 0x80]> (make 0 (Z.of_nat 128))) n = Val tmp /\ length tmp = 128%nat /\ take 16 tmp = length128 n.
Proof.
  set (tmp := <[0%nat:=128]> (make 0 (Z.of_nat 128))). assert (Hin : (8%nat, true, bigEndian_Uint64, bigEndian_PutUint64) ∈ byte_orders) by (unfold byte_orders; rewrite !elem_of_cons; tauto). assert (Et : length tmp = 128%nat) by done.
  pose proof (put_words_val 8 true _ _ [] tmp [0; n] Hin ltac:(by apply Nat.leb_le)) as E. cbn [put_words] in E. unfold put_length. change ([] ++ tmp) with tmp in E. change (zlen []) with 0 in E. change (0 + Z.of_nat 8) with 8 in E.
  destruct (put_at bigEndian_PutUint64 tmp 0 0) as [t1|?|]; [|done..]. cbn [mbind outcome_bind] in *. destruct (put_at bigEndian_PutUint64 t1 8 n) as [t2|?|]; [|done..]. cbn [mbind outcome_bind] in *. apply (f_equal (λ r, match r with Val a => a | _ => [] end)) in E. cbv beta iota in E.
  exists t2. split; [done|]. rewrite E. cbn [map concat app]. rewrite app_nil_r. assert (El : length (order_bytes true 8 0 ++ order_bytes true 8 n) = 16%nat) by (by rewrite length_app, !length_order_bytes). split; [rewrite length_app, El, length_drop, Et; done|]. by rewrite take_app_length' by done.
Qed.

(** The words that checkSum writes: SHA-384 leaves two of them zero. *)
Definition kept_words (f : crypto_Hash) (hv : list Z) : list Z := if bool_decide (f = SHA384) then take 6 hv ++ [0; 0] else hv.

Lemma sha512_value_chaining f m : bytes_ok m -> length (digested (fips_compress fips_512) 128 (sha512_iv f) (padded 128 16 (bit_length length128) m)) = 8%nat.
Proof.
  intros Hm. destruct (digested_good 128 7 (fips_compress fips_512) (chaining fips_512) ltac:(lia) sha512_good (sha512_iv f) (padded 128 16 (bit_length length128) m) (initial_chaining f)) as [Hg _]; [|exact Hg].
  apply padded_bytes; [done|apply length128_ok].
Qed.

Lemma sha512_checkSum f d m : sha512_represents f d m ->
  let hv := digested (fips_compress fips_512) 128 (sha512_iv f) (padded 128 16 (bit_length length128) m) in
  exists d', checkSum d = Val (d', words_bytes 8 (kept_words f hv)) /\ function d' = f.
Proof.
  intros Hd hv. pose proof Hd as (_ & _ & _ & Hm). unfold checkSum. change (finish chunk block 16 put_length d) with (finish (Z.of_nat 128) block (Z.of_nat 16) put_length d).
  destruct (finish_spec (F := crypto_Hash) 128 7 (fips_compress fips_512) block (chaining fips_512) eq_refl ltac:(lia) sha512_block sha512_good 16 put_length length128 ltac:(lia) length128_ok put_length_val) with (iv := sha512_iv f) (f := f) (d := d) (m := m) as (d' & -> & Hh & Hf); [apply initial_chaining|exact Hd|].
  fold hv in Hh. cbn [mbind outcome_bind]. pose proof (sha512_value_chaining f m Hm) as Hg. fold hv in Hg. rewrite Hh. clearbody hv. assert (Hin : (8%nat, true, bigEndian_Uint64, bigEndian_PutUint64) ∈ byte_orders) by (unfold byte_orders; rewrite !elem_of_cons; tauto).
  assert (E6 : length (take 6 hv) = 6%nat) by (rewrite length_take; lia). pose proof (put_words_val 8 true _ _ [] (make 0 Size) (take 6 hv) Hin) as E1. change ([] ++ make 0 Size) with (make 0 Size) in E1. change (zlen []) with 0 in E1. change (Z.of_nat 8) with 8 in E1. rewrite E6 in E1. rewrite E1 by (by apply Nat.leb_le).
  cbn [mbind outcome_bind]. rewrite Hf. set (w := concat (map (order_bytes true 8) (take 6 hv))). change (drop (8 * 6) (make 0 Size)) with (make 0 16). cbn [app]. exists d'. split; [|done]. unfold kept_words. case_bool_decide as Ef; cbn [negb mbind outcome_bind].
  - unfold words_bytes. rewrite map_app, concat_app. reflexivity.
  - assert (Ew : zlen w = 48) by (unfold w; by rewrite length_words, E6). assert (E2l : length (drop 6 hv) = 2%nat) by (rewrite length_drop; lia). pose proof (put_words_val 8 true _ _ w (make 0 16) (drop 6 hv) Hin) as E2. rewrite Ew, E2l in E2. change (Z.of_nat 8) with 8 in E2. rewrite E2 by (by apply Nat.leb_le). cbn [mbind outcome_bind].
    change (drop (8 * 2) (make 0 16)) with (@nil Z). rewrite app_nil_r. unfold w, words_bytes. by rewrite <- concat_app, <- map_app, take_drop.
Qed.

Lemma length_kept_words f hv : length hv = 8%nat -> length (kept_words f hv) = 8%nat.
Proof. intros Hl. unfold kept_words. case_bool_decide; [|done]. rewrite length_app, length_take. cbn [length]. lia. Qed.

Lemma take_kept_words f hv : length hv = 8%nat -> take (Z.to_nat (size_of f)) (words_bytes 8 (kept_words f hv)) = take (Z.to_nat (size_of f)) (words_bytes 8 hv).
Proof.
  intros Hl. unfold kept_words. case_bool_decide as Ef; [|done]. subst f. rewrite <- (take_drop 6 hv) at 2. unfold words_bytes. rewrite !map_app, !concat_app. assert (E : length (concat (map (order_bytes true 8) (take 6 hv))) = 48%nat) by (rewrite length_words, length_take; lia).
  by rewrite !take_app_le by (rewrite E; by apply Nat.leb_le).
Qed.

Lemma sha512_Sum f d m b : sha512_represents f d m -> Sum d b = Val (b ++ sha512_function f m).
Proof.
  intros Hd. pose proof Hd as (_ & _ & _ & Hm). unfold Sum, sha512_function. pose proof (sha512_value_chaining f m Hm) as Hl. destruct (sha512_checkSum f d m Hd) as (d' & -> & Hf). cbn [mbind outcome_bind]. rewrite Hf. set (hv := digested _ _ _ _) in *. clearbody hv.
  rewrite <- (take_kept_words f hv Hl). assert (Hlen : length (words_bytes 8 (kept_words f hv)) = 64%nat) by (by rewrite length_words_bytes, length_kept_words).
  destruct f; cbn [size_of]; try (by rewrite slice_take by (rewrite Hlen; done)); by rewrite (take_ge (words_bytes 8 (kept_words _ hv))) by (rewrite Hlen; by apply Nat.leb_le).
Qed.

Lemma sha512_value_bytes f m : bytes_ok (sha512_function f m).
Proof. apply Forall_take, words_bytes_ok. Qed.

Lemma sha512_value_size f m : bytes_ok m -> zlen (sha512_function f m) = size_of f.
Proof. intros Hm. unfold sha512_function. rewrite length_take, length_words_bytes, sha512_value_chaining by done. by destruct f. Qed.

Lemma sha512_marshal f d m : f <> OtherHash -> sha512_represents f d m -> exists b, MarshalBinary d = Val (Some b) /\ forall d' m', sha512_represents f d' m' -> exists d'', UnmarshalBinary d' b = Val (d'', None) /\ sha512_represents f d'' m.
Proof.
  intros Hof Hd. pose proof (initial_chaining f) as Hiv. assert (Hw : forall hv, chaining fips_512 hv -> length hv = 8%nat /\ Forall (is_uint (8 * Z.of_nat 8)) hv) by (intros hv [H1 H2]; done).
  destruct (magic_of f) as [magic|] eqn:Em; [|by destruct f]. assert (El : length magic = 4%nat) by (destruct f; [by injection Em as <-..|done]). exists (marshalled 128 (fips_compress fips_512) 8 magic (sha512_iv f) m). pose proof Hd as (_ & _ & Hf & _).
  assert (Esz : marshalled_size 128 8 8 magic = marshaledSize) by (unfold marshalled_size; by rewrite El). split.
  - pose proof (MarshalBinary_represents 128 7 _ _ eq_refl ltac:(lia) sha512_good 8 8 appendUint64 appendUint64_val Hw magic (sha512_iv f) f d m Hiv Hd) as E. unfold MarshalBinary. rewrite Hf, Em. rewrite Esz in E. by rewrite E.
  - intros d' m' Hd'. pose proof Hd' as (_ & _ & Hf' & _). destruct (UnmarshalBinary_represents 128 7 _ _ eq_refl ltac:(lia) sha512_good 8 8 consumeUint64 consumeUint64 consumeUint64_val Hw consumeUint64_nil magic (sha512_iv f) (sha512_iv f) f f d m d' m' Hiv Hiv Hd Hd') as (d'' & E & H).
    exists d''. split; [|done]. unfold UnmarshalBinary. rewrite Hf', Em. set (b := marshalled _ _ _ _ _ _) in *. assert (Hz : (zlen b <? zlen magic512) = false) by (apply Z.ltb_ge; unfold b, marshalled; rewrite length_app, El; change (zlen magic512) with 4; lia).
    assert (Ht : take (length magic) b = magic) by (unfold b, marshalled; by rewrite take_app_length). rewrite Hz, bool_decide_eq_true_2 by exact Ht. unfold Digest.UnmarshalBinary in *. rewrite Esz in E. change (zlen magic512) with 4. rewrite El in E. exact E.
Qed.

(** The functions of the package. *)
Inductive sha512_kind : Type := K384 | K512 | K512_224 | K512_256.
Definition kind_Hash (k : sha512_kind) : crypto_Hash := match k with K384 => SHA384 | K512 => SHA512 | K512_224 => SHA512_224 | K512_256 => SHA512_256 end.
Definition kind_New (k : sha512_kind) : digest := match k with K384 => New384 | K512 => New | K512_224 => New512_224 | K512_256 => New512_256 end.

#[export] Program Instance sha512_message (k : sha512_kind) : MessageHash digest (kind_New k) (sha512_function (kind_Hash k)) := { has_message := sha512_represents (kind_Hash k) }.
Next Obligation. intros k. pose proof (sha512_fresh (kind_Hash k)) as H. by destruct k. Qed.
Next Obligation. by intros k d m (_ & _ & _ & Hm). Qed.
Next Obligation. intros k d m p Hd Hp. by apply sha512_Write. Qed.
Next Obligation. intros k d m b Hd. by apply sha512_Sum. Qed.
Next Obligation. intros k d m Hd. by apply (sha512_Reset d m). Qed.
Next Obligation. intros k d m p (_ & _ & Hf & _) Hp. rewrite sha512_value_size by done. by rewrite <- Hf. Qed.
Next Obligation. intros k m Hm. apply sha512_value_bytes. Qed.
Next Obligation.
  intros k d m Hd. destruct (sha512_marshal (kind_Hash k) d m ltac:(by destruct k) Hd) as (b & Eb & H). exists b. split; [|done]. change (Hash.MarshalBinary d) with (r ← MarshalBinary d; Val (default [] r)). by rewrite Eb.
Qed.

Lemma Sum512_value data : bytes_ok data -> Sum512 data = Val (sha512_function SHA512 data).
Proof.
  intros Hd. unfold Sum512. destruct (sha512_Write SHA512 _ [] data (sha512_fresh SHA512) Hd) as (d' & -> & H). cbn [mbind outcome_bind]. pose proof (sha512_Sum SHA512 d' data [] H) as Es. unfold Sum in Es. destruct (sha512_checkSum SHA512 d' data H) as (d2 & Ec & Hf).
  rewrite Ec in *. cbn [mbind outcome_bind] in *. rewrite Hf in Es. exact Es.
Qed.

Lemma Sum_prefix_value f data : f <> SHA512 -> f <> OtherHash -> bytes_ok data -> Sum_prefix f (size_of f) data = Val (sha512_function f data).
Proof.
  intros H1 H2 Hd. unfold Sum_prefix. destruct (sha512_Write f _ [] data (sha512_fresh f) Hd) as (d' & -> & H). cbn [mbind outcome_bind]. pose proof (sha512_Sum f d' data [] H) as Es. unfold Sum in Es. destruct (sha512_checkSum f d' data H) as (d2 & Ec & Hf).
  rewrite Ec in *. cbn [mbind outcome_bind app] in *. rewrite Hf in Es. pose proof (sha512_value_size f data Hd) as Hl. set (s := words_bytes 8 _) in *. clearbody s. assert (Esl : slice s 0 (size_of f) = Val (sha512_function f data)) by (destruct f; try done; cbn [size_of]; destruct (slice s 0 _); cbn [mbind outcome_bind] in Es; done).
  rewrite Esl. cbn [mbind outcome_bind]. assert (Hsz : 0 <= size_of f) by (by destruct f). rewrite copy_at_val by (rewrite length_make by done; lia). cbn [mbind outcome_bind]. change (take (Z.to_nat 0) _) with (@nil Z). rewrite (take_ge (sha512_function f data)), drop_ge, app_nil_r by (unfold make; rewrite ?length_replicate; lia). done.
Qed.
