(* ===== verification/Sha1.v ===== *)
(** * crypto/sha1

    SHA-1: src/Source/Gold/crypto/sha1/sha1.go and sha1block.go, with the constant-time sum.  The state and its methods are those of file
    Digest; block is blockGeneric (sha1block_generic.go).  The reference is RFC 3174. *)

From S2P Require Import Prelude Bits Binary Hash Digest.

Local Open Scope go_scope.

Definition _K0 : Z := 0x5A827999.
Definition _K1 : Z := 0x6ED9EBA1.
Definition _K2 : Z := 0x8F1BBCDC.
Definition _K3 : Z := 0xCA62C1D6.

Definition word_turn (p : list Z) (i : Z) (w : list Z) : outcome (list Z) :=
  let j := i * 4 in v ← load32 p j; store w i v.

(** [tmp := ...; w[i&0xf] = tmp<<1 | tmp>>(32-1)]: the sixteen last words in a ring. *)
Definition schedule_turn (i : Z) (w : list Z) : outcome (list Z) :=
  w3 ← index w ((i - 3) &. 0xf); w8 ← index w ((i - 8) &. 0xf); w14 ← index w ((i - 14) &. 0xf); w16 ← index w (i &. 0xf);
  let tmp := w3 ^. w8 ^. w14 ^. w16 in
  store w (i &. 0xf) (tmp <<.[32] 1 |. (tmp >>. (32 - 1))).

Definition state : Type := Z * Z * Z * Z * Z.

(** [t := RotateLeft32(a, 5) + f + e + w[i&0xf] + K; a, b, c, d, e = t, a, RotateLeft32(b, 30), c, d] *)
Definition round_step (f : Z -> Z -> Z -> Z) (K : Z) (i : Z) (s : state) (w : list Z) : outcome state :=
  let '(a, b, c, d, e) := s in
  wi ← index w (i &. 0xf);
  let t := u32 (RotateLeft32 a 5 + f b c d + e + wi + K) in
  Val (t, a, RotateLeft32 b 30, c, d).

Definition f0 (b c d : Z) : Z := b &. c |. (notw 32 b &. d).
Definition f1 (b c d : Z) : Z := b ^. c ^. d.
Definition f2 (b c d : Z) : Z := (b |. c) &. d |. (b &. c).

(** The loop bodies: the first sixteen rounds take the words of the block, the others extend the schedule first. *)
Definition first_turn (i : Z) (sw : state * list Z) : outcome (state * list Z) :=
  let '(s, w) := sw in s ← round_step f0 _K0 i s w; Val (s, w).
Definition round_turn (f : Z -> Z -> Z -> Z) (K : Z) (i : Z) (sw : state * list Z) : outcome (state * list Z) :=
  let '(s, w) := sw in w ← schedule_turn i w; s ← round_step f K i s w; Val (s, w).

Definition compress (sw : state * list Z) (p : list Z) : outcome (state * list Z) :=
  let '((h0, h1, h2, h3, h4), w) := sw in
  w ← for_up 0 16 (word_turn p) w;
  sw ← for_up 0 16 first_turn ((h0, h1, h2, h3, h4), w);
  sw ← for_up 16 20 (round_turn f0 _K0) sw;
  sw ← for_up 20 40 (round_turn f1 _K1) sw;
  sw ← for_up 40 60 (round_turn f2 _K2) sw;
  '((a, b, c, d, e), w) ← for_up 60 80 (round_turn f1 _K3) sw;
  Val ((u32 (h0 + a), u32 (h1 + b), u32 (h2 + c), u32 (h3 + d), u32 (h4 + e)), w).

Definition Size : Z := 20.
Definition BlockSize : Z := 64.
Definition chunk : Z := 64.
Definition init : list Z := [0x67452301; 0xEFCDAB89; 0x98BADCFE; 0x10325476; 0xC3D2E1F0].

Definition blockGeneric (hv p : list Z) : outcome (list Z) :=
  let w := make 0 16 in
  h0 ← index hv 0; h1 ← index hv 1; h2 ← index hv 2; h3 ← index hv 3; h4 ← index hv 4;
  '((h0, h1, h2, h3, h4), _) ← block_loop compress chunk (S (length p)) ((h0, h1, h2, h3, h4), w) p;
  Val [h0; h1; h2; h3; h4].
Definition block : list Z -> list Z -> outcome (list Z) := blockGeneric.

Definition digest : Type := Digest.digest unit.
Definition magic : list Z := str "sha" ++ [1].
Definition marshaledSize : Z := zlen magic + 5 * 4 + chunk + 8.

Definition Reset (d : digest) : digest := Digest init (x d) 0 0 tt.
Definition zero_digest : digest := Digest (make 0 5) (make 0 chunk) 0 0 tt.
Definition New : digest := Reset zero_digest.
Definition Write (d : digest) (p : list Z) : outcome (digest * Z) := Digest.Write chunk block d p.

Definition MarshalBinary (d : digest) : outcome (list Z) := Digest.MarshalBinary appendUint32 magic marshaledSize d.
Definition UnmarshalBinary (d : digest) (b : list Z) : outcome (digest * option unmarshalError) :=
  if bad_magic magic b then Val (d, Some invalidIdentifier) else Digest.UnmarshalBinary chunk consumeUint32 consumeUint64 magic marshaledSize d b.

Definition checkSum (d : digest) : outcome (digest * list Z) :=
  d ← finish chunk block 8 bigEndian_PutUint64 d;
  digest ← put_words bigEndian_PutUint32 4 (make 0 Size) 0 (h d);
  Val (d, digest).

Definition Sum (d : digest) (in_ : list Z) : outcome (list Z) := '(_, hash) ← checkSum d; Val (in_ ++ hash).
(** The function Sum of the package. *)
Definition Sum_ (data : list Z) : outcome (list Z) := '(d, _) ← Write (Reset zero_digest) data; '(_, s) ← checkSum d; Val s.

#[export] Instance sha1_Hash : Hash digest := {
  Hash.Write := Write; Hash.Sum := Sum; Hash.Reset := Reset; Hash.Size := λ _, Size; Hash.BlockSize := λ _, BlockSize;
  Hash.MarshalBinary := MarshalBinary; Hash.UnmarshalBinary := UnmarshalBinary }.

(** ** The sum in constant time *)

(** [byte(int8(t) >> 7)]: all ones for a negative int8. *)
Definition sign_mask (t : Z) : Z := u8 (swrap 8 t >>. 7).

(** The first block: data, the separator 0x80, and the length if all fit ([mask1b]). *)
Definition const_turn1 (nx mask1b : Z) (length_ : list Z) (i : Z) (s : list Z * Z) : outcome (list Z * Z) :=
  let '(x, separator) := s in
  let mask := sign_mask (u8 (i - nx)) in
  xi ← index x i;
  x ← store x i ((notw 8 mask &. separator) |. (mask &. xi));
  let separator := separator &. mask in
  if 56 <=? i then xi ← index x i; li ← index length_ (i - 56); x ← store x i (xi |. (mask1b &. li)); Val (x, separator)
  else Val (x, separator).

(** The second block: it may start with the separator, and ends with the length. *)
Definition const_turn2 (length_ : list Z) (i : Z) (s : list Z * Z) : outcome (list Z * Z) :=
  let '(x, separator) := s in
  if i <? 56 then x ← store x i separator; Val (x, 0) else li ← index length_ (i - 56); x ← store x i li; Val (x, separator).

(** [digest[i*4+k] = mask & byte(s >> ...)] and [digest[i*4+k] |= mask & byte(s >> ...)] *)
Definition masked_words (mask : Z) (hv : list Z) (or : bool) (digest : list Z) : outcome (list Z) :=
  for_up 0 (zlen hv) (λ i digest,
    s ← index hv i;
    for_up 0 4 (λ k digest,
      o ← index digest (i * 4 + k);
      let b := mask &. u8 (s >>. (24 - 8 * k)) in
      store digest (i * 4 + k) (if or then o |. b else b)) digest) digest.

Definition constSum (d : digest) : outcome (list Z) :=
  let l := len d <<.[64] 3 in
  length_ ← for_up 0 8 (λ i length_, store length_ i (u8 (l >>. (56 - 8 * i)))) (make 0 8);
  let nx' := u8 (nx d) in
  let t := u8 (nx' - 56) in
  let mask1b := sign_mask t in
  '(x', separator) ← for_up 0 chunk (const_turn1 nx' mask1b length_) (x d, 0x80);
  h1 ← block (h d) x';
  digest ← masked_words mask1b h1 false (make 0 Size);
  '(x', _) ← for_up 0 chunk (const_turn2 length_) (x', separator);
  h2 ← block h1 x';
  masked_words (notw 8 mask1b) h2 true digest.

Definition ConstantTimeSum (d : digest) (in_ : list Z) : outcome (list Z) := hash ← constSum d; Val (in_ ++ hash).

Example Sum_abc : Sum_ (str "abc") = Val (order_bytes true 20 0xa9993e364706816aba3e25717850c26c9cd0d89d)
  /\ (forall (n : nat), n ∈ [0; 55; 56; 63; 64]%nat -> ('(d, _) ← Write New (make 7 (Z.of_nat n)); ConstantTimeSum d []) = Sum_ (make 7 (Z.of_nat n))).
Proof.
  split; [vm_compute; reflexivity|]. apply (proj1 (Forall_forall (λ n : nat, _ = _) _)). apply (bool_decide_unpack _). vm_compute. exact I.
Qed.

(** ** RFC 3174 *)

(** [X << n OR X >> 32-n] *)
Definition S_ (n X : Z) : Z := (X <<.[32] n) |. (X >>. (32 - n)).
Definition rfc_f (t : nat) (B C D : Z) : Z :=
  if (t <? 20)%nat then (B &. C) |. (notw 32 B &. D) else if (t <? 40)%nat then B ^. C ^. D else if (t <? 60)%nat then (B &. C) |. (B &. D) |. (C &. D) else B ^. C ^. D.
Definition rfc_K (t : nat) : Z := if (t <? 20)%nat then 0x5A827999 else if (t <? 40)%nat then 0x6ED9EBA1 else if (t <? 60)%nat then 0x8F1BBCDC else 0xCA62C1D6.

Fixpoint message_words (n : nat) (p : list Z) : list Z :=
  match n with O => [] | S n => order_value true (take 4 p) :: message_words n (drop 4 p) end.
Fixpoint schedule (n : nat) (W : list Z) : list Z :=
  match n with
  | O => W
  | S n => let W := schedule n W in let t := length W in W ++ [S_ 1 (W !!! (t - 3)%nat ^. W !!! (t - 8)%nat ^. W !!! (t - 14)%nat ^. W !!! (t - 16)%nat)]
  end.
Definition rfc_round (W : list Z) (s : state) (t : nat) : state :=
  let '(A, B, C, D, E) := s in (u32 (S_ 5 A + rfc_f t B C D + E + W !!! t + rfc_K t), A, S_ 30 B, C, D).
Definition rfc_compress (hv p : list Z) : list Z :=
  let W := schedule 64 (message_words 16 p) in
  match hv with
  | [h0; h1; h2; h3; h4] => let '(a, b, c, d, e) := foldl (rfc_round W) (h0, h1, h2, h3, h4) (seq 0 80) in [u32 (h0 + a); u32 (h1 + b); u32 (h2 + c); u32 (h3 + d); u32 (h4 + e)]
  | _ => hv
  end.

(** SHA-1 of a message. *)
(** The first five words: the bytes 01 23 45 ... ef fe ... 10 f0 e1 d2 c3, low byte first. *)
Definition rfc_H : list Z := [0x67452301; 0xEFCDAB89; 0x98BADCFE; 0x10325476; 0xC3D2E1F0].
Definition sha1_function (m : list Z) : list Z := words_bytes 4 (digested rfc_compress 64 rfc_H (padded 64 8 (bit_length (order_bytes true 8)) m)).

(** ** The ring of sixteen words holds the end of the schedule *)

Lemma length_message_words1 n p : length (message_words n p) = n.
Proof. revert p. induction n as [|n IH]; intros p; cbn [message_words length]; [done|by rewrite IH]. Qed.

Lemma message_words1_lookup n p i : (i < n)%nat -> message_words n p !! i = Some (order_value true (take 4 (drop (i * 4) p))).
Proof.
  revert p i. induction n as [|n IH]; intros p i Hi; [lia|]. destruct i as [|i]; [by rewrite drop_0|]. cbn [message_words]. change ((_ :: ?l) !! S i) with (l !! i). rewrite IH by lia. rewrite drop_drop. by replace (4 + i * 4)%nat with (S i * 4)%nat by lia.
Qed.

Lemma length_schedule1 n W : length (schedule n W) = (n + length W)%nat.
Proof. induction n as [|n IH]; [done|]. cbn [schedule]. rewrite length_app, IH. cbn [length]. lia. Qed.

Lemma schedule1_old n W t : (t < length W)%nat -> schedule n W !!! t = W !!! t.
Proof.
  intros Ht. induction n as [|n IH]; [done|]. cbn [schedule]. rewrite lookup_total_app_l by (rewrite length_schedule1; lia). exact IH.
Qed.

Lemma schedule1_rec n W t : length W = 16%nat -> (16 <= t < n + 16)%nat -> let V := schedule n W in
  V !!! t = S_ 1 (V !!! (t - 3)%nat ^. V !!! (t - 8)%nat ^. V !!! (t - 14)%nat ^. V !!! (t - 16)%nat).
Proof.
  intros HW Ht. cbv zeta. induction n as [|n IH]; [lia|]. cbn [schedule]. set (V := schedule n W) in *. assert (HV : length V = (n + 16)%nat) by (unfold V; rewrite length_schedule1, HW; done). destruct (Nat.eq_dec t (n + 16)%nat) as [->|Hne].
  - rewrite lookup_total_app_r by lia. rewrite HV, Nat.sub_diag. rewrite !lookup_total_app_l by lia. done.
  - rewrite !lookup_total_app_l by lia. apply IH. lia.
Qed.

Section Rounds.
Context (W : list Z) (HW : length W = 80%nat) (Hrec : forall t, (16 <= t < 80)%nat -> W !!! t = S_ 1 (W !!! (t - 3)%nat ^. W !!! (t - 8)%nat ^. W !!! (t - 14)%nat ^. W !!! (t - 16)%nat)).
Implicit Types (w : list Z) (i : Z).

(** Before round [i] the ring [w] holds the sixteen words before [W !!! i] (the first sixteen at the start). *)
Definition ring (i : Z) w : Prop := length w = 16%nat /\ forall t, 0 <= t < i -> i - 16 <= t -> index w (t &. 0xf) = Val (W !!! Z.to_nat t).

Lemma ring_slot i : i &. 0xf = i mod 16.
Proof. change 0xf with (Z.ones 4). by rewrite Z.land_ones. Qed.

Lemma ring_turn i w : 16 <= i < 80 -> ring i w -> exists w', schedule_turn i w = Val w' /\ ring (i + 1) w'.
Proof.
  intros Hi [Hl Hr]. unfold schedule_turn. rewrite (Hr (i - 3)), (Hr (i - 8)), (Hr (i - 14)) by lia. replace (i &. 15) with ((i - 16) &. 15) by (rewrite !ring_slot; replace i with (i - 16 + 1 * 16) at 2 by lia; by rewrite Z.mod_add). rewrite Hr by lia. cbn [mbind outcome_bind].
  pose proof (Z.mod_pos_bound (i - 16) 16 ltac:(lia)) as Hm. rewrite ring_slot, store_lt by lia. eexists. split; [reflexivity|]. split; [by rewrite length_insert|]. intros t Ht1 Ht2. rewrite ring_slot. pose proof (Z.mod_pos_bound t 16 ltac:(lia)) as Hmt. destruct (Z.eq_dec t i) as [->|Hne].
  - replace (i mod 16) with ((i - 16) mod 16) by (replace i with (i - 16 + 1 * 16) at 2 by lia; by rewrite Z.mod_add). apply index_Val; [lia|]. rewrite list_lookup_insert_eq by lia. rewrite (Hrec (Z.to_nat i)) by lia. f_equal. unfold S_. by rewrite !Z2Nat.inj_sub by lia.
  - rewrite <- (Hr t) by lia. rewrite ring_slot. unfold index. rewrite !decide_True by lia. rewrite list_lookup_insert_ne; [done|]. intros E. apply Z2Nat.inj in E; [|lia..]. assert (E2 : (i - 16 - t) mod 16 = 0) by (rewrite Zminus_mod, E, Z.sub_diag; done). apply Z.mod_divide in E2 as [q Eq]; [|lia]. lia.
Qed.

Lemma round_step_spec f K i s w : 0 <= i < 80 -> index w (i &. 0xf) = Val (W !!! Z.to_nat i) -> (forall b c d, f b c d = rfc_f (Z.to_nat i) b c d) -> K = rfc_K (Z.to_nat i) ->
  round_step f K i s w = Val (rfc_round W s (Z.to_nat i)).
Proof.
  intros Hi Hw Hf ->. destruct s as [[[[a b] c] d] e]. unfold round_step, rfc_round. rewrite Hw. cbn [mbind outcome_bind]. rewrite Hf, !RotateLeft32_eq. done.
Qed.

Definition rounds_done (s0 : state) i (sw : state * list Z) : Prop := 0 <= i /\ fst sw = foldl (rfc_round W) s0 (seq 0 (Z.to_nat i)).

Lemma rounds_done_next s0 i s w w' : rounds_done s0 i (s, w) -> rounds_done s0 (i + 1) (rfc_round W s (Z.to_nat i), w').
Proof. intros [Hi Hs]. cbn [fst] in *. split; [lia|]. cbn [fst]. replace (Z.to_nat (i + 1)) with (Z.to_nat i + 1)%nat by lia. rewrite seq_app, foldl_app, <- Hs. done. Qed.

Lemma rounds_range f K lo hi s0 sw : 16 <= lo -> lo <= hi <= 80 -> (forall i b c d, lo <= i < hi -> f b c d = rfc_f (Z.to_nat i) b c d /\ K = rfc_K (Z.to_nat i)) ->
  rounds_done s0 lo sw -> ring lo (snd sw) -> exists sw', for_up lo hi (round_turn f K) sw = Val sw' /\ rounds_done s0 hi sw' /\ ring hi (snd sw').
Proof.
  intros Hlo Hhi Hf Hd Hr. apply (for_up_inv (λ i sw, rounds_done s0 i sw /\ ring i (snd sw))); [lia|done|]. intros i [s w] Hi [Hd1 Hr1]. unfold round_turn. cbn [snd] in Hr1. destruct (ring_turn i w ltac:(lia) Hr1) as (w' & -> & Hr2). cbn [mbind outcome_bind].
  rewrite (round_step_spec f K i s w'); [|lia|apply Hr2; lia|intros b c d; apply Hf; lia|by apply (Hf i 0 0 0)]. cbn [mbind outcome_bind]. eexists. split; [reflexivity|]. split; [by eapply rounds_done_next|exact Hr2].
Qed.

Lemma first_rounds s0 w : ring 16 w -> exists s', for_up 0 16 first_turn (s0, w) = Val (s', w) /\ rounds_done s0 16 (s', w).
Proof.
  intros Hr. destruct (for_up_inv (λ i sw, rounds_done s0 i sw /\ snd sw = w) 0 16 first_turn (s0, w)) as ([s' w'] & E & Hd & Ew); [lia|done| |cbn [snd] in Ew; subst w'; by exists s'].
  intros i [s w1] Hi [Hd E]. cbn [snd] in E. subst w1. unfold first_turn. rewrite (round_step_spec f0 _K0 i s w); [|lia|apply Hr; lia|intros b c d; unfold rfc_f; rewrite (proj2 (Nat.ltb_lt _ _)) by lia; done|unfold rfc_K; by rewrite (proj2 (Nat.ltb_lt _ _)) by lia].
  cbn [mbind outcome_bind]. eexists. split; [reflexivity|]. split; [by eapply rounds_done_next|done].
Qed.
End Rounds.

(** ** The block function *)

Lemma words_loop1 p w : bytes_ok p -> 64 <= zlen p -> length w = 16%nat -> exists w', for_up 0 16 (word_turn p) w = Val w' /\ length w' = 16%nat /\ forall t, 0 <= t < 16 -> index w' t = Val (message_words 16 p !!! Z.to_nat t).
Proof.
  intros Hp Hl Hw. destruct (for_up_inv (λ i w, 0 <= i /\ length w = 16%nat /\ forall t, 0 <= t < i -> index w t = Val (message_words 16 p !!! Z.to_nat t)) 0 16 (word_turn p) w) as (w' & E & _ & H1 & H2); [lia|split_and!; [lia|done|lia]| |by exists w'].
  intros i w1 Hi (_ & Hl1 & H1). unfold word_turn. rewrite load32_val by (done || lia). cbn [mbind outcome_bind]. rewrite store_lt by lia. eexists. split; [reflexivity|]. split; [lia|]. split; [by rewrite length_insert|]. intros t Ht. destruct (Z.eq_dec t i) as [->|Hne].
  - apply index_Val; [lia|]. rewrite list_lookup_insert_eq by lia. f_equal. symmetry. apply list_lookup_total_correct. rewrite message_words1_lookup by lia. by replace (Z.to_nat i * 4)%nat with (Z.to_nat (i * 4)) by lia.
  - rewrite <- (H1 t) by lia. unfold index. rewrite !decide_True by lia. by rewrite list_lookup_insert_ne by lia.
Qed.

Definition list_of (s : state) : list Z := let '(a, b, c, d, e) := s in [a; b; c; d; e].

Lemma sha1_compress_spec s w p : bytes_ok p -> 64 <= zlen p -> length w = 16%nat -> exists s' w', compress (s, w) p = Val (s', w') /\ length w' = 16%nat /\ list_of s' = rfc_compress (list_of s) p.
Proof.
  intros Hp Hl Hw. destruct s as [[[[h0 h1] h2] h3] h4]. unfold compress. destruct (words_loop1 p w Hp Hl Hw) as (w1 & -> & Hl1 & Hw1). cbn [mbind outcome_bind]. set (W := schedule 64 (message_words 16 p)).
  assert (HW : length W = 80%nat) by (unfold W; by rewrite length_schedule1, length_message_words1). assert (Hrec : forall t, (16 <= t < 80)%nat -> W !!! t = S_ 1 (W !!! (t - 3)%nat ^. W !!! (t - 8)%nat ^. W !!! (t - 14)%nat ^. W !!! (t - 16)%nat)) by (intros t Ht; apply (schedule1_rec 64 _ t (length_message_words1 16 p)); lia).
  set (s0 := (h0, h1, h2, h3, h4) : state). assert (Hr : ring W 16 w1).
  { split; [done|]. intros t Ht _. rewrite ring_slot, Z.mod_small by lia. rewrite Hw1 by lia. f_equal. unfold W. by rewrite schedule1_old by (rewrite length_message_words1; lia). }
  destruct (first_rounds W HW s0 w1 Hr) as (s1 & E1 & Hd1). match goal with |- context [for_up 0 16 first_turn ?sw] => replace (for_up 0 16 first_turn sw) with (Val (s1, w1)) by (symmetry; exact E1) end. clear E1. cbn [mbind outcome_bind].
  assert (Hf : forall lo hi f K, (forall n, (lo <= n < hi)%nat -> forall b c d, f b c d = rfc_f n b c d /\ K = rfc_K n) -> forall i b c d, Z.of_nat lo <= i < Z.of_nat hi -> f b c d = rfc_f (Z.to_nat i) b c d /\ K = rfc_K (Z.to_nat i)) by (intros lo hi f K H i b c d Hi; apply H; lia).
  destruct (rounds_range W HW Hrec f0 _K0 16 20 s0 (s1, w1)) as (sw2 & -> & Hd2 & Hr2); [lia|lia| |done|done|].
  { apply (Hf 16%nat 20%nat). intros n Hn b c d. unfold rfc_f, rfc_K. by rewrite (proj2 (Nat.ltb_lt n 20)) by lia. }
  cbn [mbind outcome_bind]. destruct (rounds_range W HW Hrec f1 _K1 20 40 s0 sw2) as (sw3 & -> & Hd3 & Hr3); [lia|lia| |done|done|].
  { apply (Hf 20%nat 40%nat). intros n Hn b c d. unfold rfc_f, rfc_K. by rewrite (proj2 (Nat.ltb_ge n 20)), (proj2 (Nat.ltb_lt n 40)) by lia. }
  cbn [mbind outcome_bind]. destruct (rounds_range W HW Hrec f2 _K2 40 60 s0 sw3) as (sw4 & -> & Hd4 & Hr4); [lia|lia| |done|done|].
  { apply (Hf 40%nat 60%nat). intros n Hn b c d. unfold rfc_f, rfc_K. rewrite (proj2 (Nat.ltb_ge n 20)), (proj2 (Nat.ltb_ge n 40)), (proj2 (Nat.ltb_lt n 60)) by lia. split; [|done]. unfold f2. apply Z.bits_inj'. intros k _. rewrite !Z.lor_spec, !Z.land_spec, !Z.lor_spec. by destruct (Z.testbit b k), (Z.testbit c k), (Z.testbit d k). }
  cbn [mbind outcome_bind]. destruct (rounds_range W HW Hrec f1 _K3 60 80 s0 sw4) as ([s5 w5] & -> & Hd5 & Hr5); [lia|lia| |done|done|].
  { apply (Hf 60%nat 80%nat). intros n Hn b c d. unfold rfc_f, rfc_K. by rewrite (proj2 (Nat.ltb_ge n 20)), (proj2 (Nat.ltb_ge n 40)), (proj2 (Nat.ltb_ge n 60)) by lia. }
  cbn [mbind outcome_bind]. destruct Hd5 as [_ Hs5]. cbn [fst snd] in *. destruct Hr5 as [Hl5 _]. unfold rfc_compress. cbn [list_of]. fold W. change (Z.to_nat 80) with 80%nat in Hs5. change (list_of s0) with [h0; h1; h2; h3; h4]. cbv iota beta. match goal with |- context [foldl (rfc_round W) ?s (seq 0 80)] => replace (foldl (rfc_round W) s (seq 0 80)) with s5 by exact Hs5 end. clear Hs5. destruct s5 as [[[[a b] c] d] e]. eexists _, _. split; [reflexivity|]. done.
Qed.

Definition chaining1 hv : Prop := length hv = 5%nat /\ Forall (is_uint 32) hv.

Lemma sha1_good hv p : chaining1 hv -> bytes_ok p -> length p = 64%nat -> chaining1 (rfc_compress hv p).
Proof.
  intros [Hl _] _ _. destruct hv as [|h0 [|h1 [|h2 [|h3 [|h4 [|? ?]]]]]]; try done. unfold rfc_compress. destruct (foldl _ _ _) as [[[[a b] c] d] e]. split; [done|]. repeat (apply Forall_cons_2; [by apply wrap_is_uint|]). constructor.
Qed.

Lemma message_words1_take n p c : (n * 4 <= c)%nat -> message_words n (take c p) = message_words n p.
Proof.
  revert c p. induction n as [|n IH]; intros c p Hc; cbn [message_words]; [done|]. rewrite take_take, Nat.min_l by lia. f_equal. rewrite <- (IH (c - 4)%nat (drop 4 p)) by lia. f_equal. by rewrite skipn_firstn_comm.
Qed.

Lemma sha1_block hv p : chaining1 hv -> bytes_ok p -> (length p mod 64)%nat = 0%nat -> block hv p = Val (digested rfc_compress 64 hv p).
Proof.
  intros Hh Hp Hm. pose proof Hh as [Hl _]. destruct hv as [|h0 [|h1 [|h2 [|h3 [|h4 [|? ?]]]]]]; try done. unfold block, blockGeneric.
  assert (Ei : forall i x, [h0; h1; h2; h3; h4] !! Z.to_nat i = Some x -> 0 <= i -> index [h0; h1; h2; h3; h4] i = Val x) by (intros i x Hx Hi; by apply index_Val).
  rewrite (Ei 0 h0), (Ei 1 h1), (Ei 2 h2), (Ei 3 h3), (Ei 4 h4) by done. cbn [mbind outcome_bind]. set (s := (h0, h1, h2, h3, h4)) in *.
  destruct (block_loop_digested 64 rfc_compress chaining1 compress (λ s hv, length (snd s) = 16%nat /\ list_of (fst s) = hv) ltac:(lia) sha1_good) with (fuel := S (length p)) (s := (s, make 0 16)) (hv := list_of s) (p := p) as ([s' w'] & E & Hw' & Hs').
  - intros [s1 w1] hv1 p1 [Hw1 Hs1] _ Hp1 Hl1. destruct (sha1_compress_spec s1 w1 p1 Hp1 ltac:(lia) Hw1) as (s2 & w2 & E & Hw2 & Hs2). exists (s2, w2). split; [done|]. split; [done|]. cbn [fst snd] in *. rewrite Hs2, Hs1. unfold rfc_compress.
    by rewrite (message_words1_take 16 p1 64) by lia.
  - done.
  - done.
  - done.
  - done.
  - lia.
  - change (Z.of_nat 64) with chunk in E. rewrite E. cbn [mbind outcome_bind]. cbn [fst snd] in Hs'. destruct s' as [[[[a b] c'] d] e]. exact (f_equal Val Hs').
Qed.

(** ** The methods compute the function *)

Lemma init_chaining : chaining1 rfc_H.
Proof. split; [done|]. apply (bool_decide_unpack _). by vm_compute. Qed.

Definition sha1_represents : digest -> list Z -> Prop := represents 64 rfc_compress rfc_H tt.

Lemma sha1_Write d m p : sha1_represents d m -> bytes_ok p -> exists d', Write d p = Val (d', zlen p) /\ sha1_represents d' (m ++ p).
Proof. intros Hd Hp. by apply (Write_represents 64 6 _ block chaining1 eq_refl ltac:(lia) sha1_block sha1_good); [apply init_chaining| |]. Qed.

Lemma sha1_Reset d m : sha1_represents d m -> sha1_represents (Reset d) [].
Proof. intros ([_ [Hl Hb] _ _] & _ & Hf & _). split_and!; [|done|done|done]. by split. Qed.

Lemma sha1_fresh : sha1_represents New [].
Proof. split_and!; [|done|done|done]. split; [done|split; [done|apply make_ok]|done|done]. Qed.

Lemma bit_length_put1 n : exists tmp, bigEndian_PutUint64 (<[0%nat := 0x80]> (make 0 (Z.of_nat 64))) n = Val tmp /\ length tmp = 64%nat /\ take 8 tmp = order_bytes true 8 n.
Proof.
  eexists. split; [apply (put_spec 8 true bigEndian_Uint64); [unfold byte_orders; rewrite !elem_of_cons; tauto|by apply Nat.leb_le]|]. pose proof (length_order_bytes true 8 n) as El. split; [rewrite length_app, length_drop, El; done|by rewrite take_app_length' by done].
Qed.

Lemma sha1_value_chaining m : bytes_ok m -> length (digested rfc_compress 64 rfc_H (padded 64 8 (bit_length (order_bytes true 8)) m)) = 5%nat.
Proof.
  intros Hm. destruct (digested_good 64 6 rfc_compress chaining1 ltac:(lia) sha1_good rfc_H (padded 64 8 (bit_length (order_bytes true 8)) m) init_chaining) as [Hg _]; [|exact Hg]. apply padded_bytes; [done|apply order_bytes_ok].
Qed.

Lemma sha1_checkSum d m : sha1_represents d m -> exists d', checkSum d = Val (d', sha1_function m).
Proof.
  intros Hd. pose proof Hd as (_ & _ & _ & Hm). unfold checkSum, sha1_function. change (finish chunk block 8 bigEndian_PutUint64 d) with (finish (Z.of_nat 64) block (Z.of_nat 8) bigEndian_PutUint64 d).
  destruct (finish_spec (F := unit) 64 6 rfc_compress block chaining1 eq_refl ltac:(lia) sha1_block sha1_good 8 bigEndian_PutUint64 (order_bytes true 8) ltac:(lia)) with (iv := rfc_H) (f := tt) (d := d) (m := m) as (d' & -> & Hh & Hf);
    [intros n; split; [apply length_order_bytes|apply order_bytes_ok]|apply bit_length_put1|apply init_chaining|exact Hd|]. cbn [mbind outcome_bind]. rewrite Hh. pose proof (sha1_value_chaining m Hm) as Hg. set (hv := digested _ _ _ _) in *. clearbody hv.
  assert (Hin : (4%nat, true, bigEndian_Uint32, bigEndian_PutUint32) ∈ byte_orders) by (unfold byte_orders; rewrite !elem_of_cons; tauto).
  pose proof (put_words_val 4 true _ _ [] (make 0 Size) hv Hin) as E1. change ([] ++ make 0 Size) with (make 0 Size) in E1. change (zlen []) with 0 in E1. change (Z.of_nat 4) with 4 in E1. rewrite Hg in E1. rewrite E1 by (by apply Nat.leb_le). cbn [mbind outcome_bind app].
  change (drop (4 * 5) (make 0 Size)) with (@nil Z). rewrite app_nil_r. by exists d'.
Qed.

Lemma sha1_Sum d m b : sha1_represents d m -> Sum d b = Val (b ++ sha1_function m).
Proof. intros Hd. unfold Sum. by destruct (sha1_checkSum d m Hd) as (d' & ->). Qed.

Lemma sha1_Sum_ data : bytes_ok data -> Sum_ data = Val (sha1_function data).
Proof. intros Hd. unfold Sum_. destruct (sha1_Write _ [] data sha1_fresh Hd) as (d' & E & H). change (Reset zero_digest) with New. rewrite E. cbn [mbind outcome_bind]. by destruct (sha1_checkSum d' data H) as (d2 & ->). Qed.

Lemma sha1_marshal d m : sha1_represents d m -> exists b, MarshalBinary d = Val b /\ forall d' m', sha1_represents d' m' -> exists d'', UnmarshalBinary d' b = Val (d'', None) /\ sha1_represents d'' m.
Proof.
  intros Hd. assert (Hw : forall hv, chaining1 hv -> length hv = 5%nat /\ Forall (is_uint (8 * Z.of_nat 4)) hv) by (intros hv [H1 H2]; done). exists (marshalled 64 rfc_compress 4 magic rfc_H m). split.
  - apply (MarshalBinary_represents 64 6 _ chaining1 eq_refl ltac:(lia) sha1_good 4 5 appendUint32 appendUint32_val Hw magic rfc_H tt d m init_chaining Hd).
  - intros d' m' Hd'. destruct (UnmarshalBinary_represents 64 6 _ chaining1 eq_refl ltac:(lia) sha1_good 4 5 consumeUint32 consumeUint64 consumeUint32_val Hw consumeUint64_nil magic rfc_H rfc_H tt tt d m d' m' init_chaining init_chaining Hd Hd') as (d'' & E & H).
    exists d''. split; [|done]. unfold UnmarshalBinary. unfold marshalled at 1. rewrite bad_magic_app. exact E.
Qed.

#[export] Program Instance sha1_message : MessageHash digest New sha1_function := { has_message := sha1_represents }.
Next Obligation. apply sha1_fresh. Qed.
Next Obligation. by intros d m (_ & _ & _ & Hm). Qed.
Next Obligation. intros d m p Hd Hp. by apply sha1_Write. Qed.
Next Obligation. intros d m b Hd. by apply sha1_Sum. Qed.
Next Obligation. intros d m Hd. by apply (sha1_Reset d m). Qed.
Next Obligation. intros d m p _ Hp. change (zlen (sha1_function p) = 20). unfold sha1_function. by rewrite length_words_bytes, sha1_value_chaining. Qed.
Next Obligation. intros m Hm. apply words_bytes_ok. Qed.
Next Obligation. intros d m Hd. by apply sha1_marshal. Qed.

(** ** The sum in constant time is the sum *)

Section ConstantTime.
Implicit Types (r l mask : Z) (L B xs : list Z).

Lemma sign_mask_less (i r : Z) : 0 <= i < 64 -> 0 <= r < 64 -> sign_mask (u8 (i - r)) = if i <? r then 255 else 0.
Proof.
  intros Hi Hr. assert (H : check_range 0 64 (λ i, check_range 0 64 (λ r, sign_mask (u8 (i - r)) =? if i <? r then 255 else 0)) = true) by (vm_compute; reflexivity).
  pose proof (check_range_spec _ _ _ H i ltac:(lia)) as H1. cbv beta in H1. pose proof (check_range_spec _ _ _ H1 r ltac:(lia)) as H2. cbv beta in H2. by apply Z.eqb_eq in H2.
Qed.

Lemma land_255 b : is_uint 8 b -> 255 &. b = b.
Proof. intros Hb. change 255 with (Z.ones 8). rewrite Z.land_comm, Z.land_ones by lia. by apply Z.mod_small. Qed.

Lemma length_loop l : for_up 0 8 (λ i length_, store length_ i (u8 (l >>. (56 - 8 * i)))) (make 0 8) = Val (order_bytes true 8 l).
Proof. rewrite <- order_bytes_be8. reflexivity. Qed.

(** The first block at position [i]: the data, the end marker, zeroes, and the length when it fits. *)
Definition first_block r xs L (i : nat) : Z :=
  if Z.of_nat i <? r then xs !!! i else if Z.of_nat i =? r then 0x80 else if (r <? 56) && (56 <=? Z.of_nat i) then L !!! (i - 56)%nat else 0.

Lemma take_S_map (f : nat -> Z) n : map f (seq 0 (S n)) = map f (seq 0 n) ++ [f n].
Proof. by rewrite seq_S, map_app. Qed.

Lemma length_map_seq (f : nat -> Z) n : length (map f (seq 0 n)) = n.
Proof. by rewrite length_map, length_seq. Qed.

Lemma const_loop1 r xs L : 0 <= r < 64 -> length xs = 64%nat -> bytes_ok xs -> length L = 8%nat -> bytes_ok L ->
  for_up 0 64 (const_turn1 r (if r <? 56 then 255 else 0) L) (xs, 0x80) = Val (map (first_block r xs L) (seq 0 64), 0).
Proof.
  intros Hr Hx Hxb HL HLb. set (f := first_block r xs L).
  destruct (for_up_inv (λ i '(x', s), 0 <= i <= 64 /\ x' = map f (seq 0 (Z.to_nat i)) ++ drop (Z.to_nat i) xs /\ s = if i <=? r then 0x80 else 0) 0 64 (const_turn1 r (if r <? 56 then 255 else 0) L) (xs, 0x80)) as ([x' s] & E & _ & Hx' & Hs); [lia| | |].
  - split; [lia|]. rewrite (proj2 (Z.leb_le 0 r)) by lia. done.
  - intros i [x1 s] Hi (_ & -> & ->). unfold const_turn1. rewrite sign_mask_less by lia. destruct (lookup_lt_is_Some_2 xs (Z.to_nat i) ltac:(lia)) as [y Hy]. rewrite (drop_S _ _ _ Hy). set (rest := drop (S (Z.to_nat i)) xs).
    assert (Hy8 : is_uint 8 y) by (by eapply (Forall_lookup_1 _ xs)). assert (Hyt : xs !!! Z.to_nat i = y) by (by apply list_lookup_total_correct). pose proof (length_map_seq f (Z.to_nat i)) as El.
    assert (Hix : index (map f (seq 0 (Z.to_nat i)) ++ y :: rest) i = Val y) by (apply index_Val; [lia|]; apply list_lookup_middle; by rewrite El). rewrite Hix. cbn [mbind outcome_bind].
    assert (Hst : forall v, store (map f (seq 0 (Z.to_nat i)) ++ y :: rest) i v = Val (map f (seq 0 (Z.to_nat i)) ++ v :: rest)) by (intros v; pose proof (store_app (map f (seq 0 (Z.to_nat i))) y rest v) as Es; rewrite El, Z2Nat.id in Es by lia; exact Es). rewrite Hst. cbn [mbind outcome_bind].
    set (v := (notw 8 (if i <? r then 255 else 0) &. (if i <=? r then 128 else 0)) |. ((if i <? r then 255 else 0) &. y)). assert (Ev : v = if i <? r then y else if i =? r then 128 else 0).
    { unfold v. destruct (Z.ltb_spec i r), (Z.leb_spec i r), (Z.eqb_spec i r); try lia; try done. by rewrite land_255 by done. }
    assert (Esep : (if i <=? r then 128 else 0) &. (if i <? r then 255 else 0) = if i + 1 <=? r then 128 else 0) by (destruct (Z.leb_spec i r), (Z.ltb_spec i r), (Z.leb_spec (i + 1) r); try lia; done). rewrite Esep.
    assert (Hres : forall v', v' = f (Z.to_nat i) -> exists s', Val (map f (seq 0 (Z.to_nat i)) ++ v' :: rest, if i + 1 <=? r then 128 else 0) = Val s' /\ let '(x', s) := s' in 0 <= i + 1 <= 64 /\ x' = map f (seq 0 (Z.to_nat (i + 1))) ++ drop (Z.to_nat (i + 1)) xs /\ s = if i + 1 <=? r then 128 else 0).
    { intros v' ->. eexists. split; [reflexivity|]. split; [lia|]. replace (Z.to_nat (i + 1)) with (S (Z.to_nat i)) by lia. rewrite take_S_map, <- app_assoc. done. }
    destruct (Z.leb_spec 56 i) as [H56|H56].
    + assert (Hix2 : index (map f (seq 0 (Z.to_nat i)) ++ v :: rest) i = Val v) by (apply index_Val; [lia|]; apply list_lookup_middle; by rewrite El). rewrite Hix2. cbn [mbind outcome_bind]. destruct (lookup_lt_is_Some_2 L (Z.to_nat (i - 56)) ltac:(lia)) as [b Hb]. rewrite (index_Val L (i - 56) b) by (done || lia). cbn [mbind outcome_bind].
      assert (Hst2 : forall v', store (map f (seq 0 (Z.to_nat i)) ++ v :: rest) i v' = Val (map f (seq 0 (Z.to_nat i)) ++ v' :: rest)) by (intros v'; pose proof (store_app (map f (seq 0 (Z.to_nat i))) v rest v') as Es; rewrite El, Z2Nat.id in Es by lia; exact Es). rewrite Hst2. cbn [mbind outcome_bind]. apply Hres. rewrite Ev. unfold f, first_block. rewrite Z2Nat.id, Hyt by lia.
      replace (Z.to_nat i - 56)%nat with (Z.to_nat (i - 56)) by lia. rewrite (list_lookup_total_correct _ _ _ Hb), (proj2 (Z.leb_le 56 i)) by lia. assert (is_uint 8 b) by (by eapply (Forall_lookup_1 _ L)). destruct (Z.ltb_spec i r), (Z.eqb_spec i r), (Z.ltb_spec r 56); try lia; cbn [andb]; rewrite ?land_255, ?Z.land_0_l, ?Z.lor_0_r, ?Z.lor_0_l by done; done.
    + apply Hres. rewrite Ev. unfold f, first_block. rewrite Z2Nat.id, Hyt, (proj2 (Z.leb_gt 56 i)), andb_false_r by lia. done.
  - rewrite E. rewrite Hx', Hs. rewrite (drop_ge xs), app_nil_r by (change (Z.to_nat 64) with 64%nat; lia). rewrite (proj2 (Z.leb_gt 64 r)) by lia. done.
Qed.

Lemma const_loop2 xs L : length xs = 64%nat -> length L = 8%nat -> for_up 0 64 (const_turn2 L) (xs, 0) = Val (make 0 56 ++ L, 0).
Proof.
  intros Hx HL. do 8 (destruct L as [|? L]; [done|]). destruct L; [|done]. do 64 (destruct xs as [|? xs]; [done|]). destruct xs; [|done]. reflexivity.
Qed.

Lemma masked_first mask hv : length hv = 5%nat -> masked_words mask hv false (make 0 20) = Val (map (Z.land mask) (words_bytes 4 hv)).
Proof.
  intros Hl. destruct hv as [|h0 [|h1 [|h2 [|h3 [|h4 [|? ?]]]]]]; try done. unfold words_bytes. cbn [map concat]. rewrite <- !order_bytes_be4. reflexivity.
Qed.

Lemma masked_second mask hv ds : length hv = 5%nat -> length ds = 20%nat -> masked_words mask hv true ds = Val (zip_with (λ o b, o |. (mask &. b)) ds (words_bytes 4 hv)).
Proof.
  intros Hl Hd. destruct hv as [|h0 [|h1 [|h2 [|h3 [|h4 [|? ?]]]]]]; try done. do 20 (destruct ds as [|? ds]; [done|]). destruct ds; [|done]. unfold words_bytes. cbn [map concat]. rewrite <- !order_bytes_be4. reflexivity.
Qed.

(** The masks choose one of the two results. *)
Lemma masks_choose (one : bool) (xs ys : list Z) : length xs = length ys -> bytes_ok xs -> bytes_ok ys ->
  zip_with (λ o b, o |. (notw 8 (if one then 255 else 0) &. b)) (map (Z.land (if one then 255 else 0)) xs) ys = if one then xs else ys.
Proof.
  intros Hl Hx. revert ys Hl. induction Hx as [|x xs Hx _ IH]; intros ys Hl Hy; destruct ys as [|y ys]; [by destruct one|done|done|]. inversion Hy; subst. injection Hl as Hl. cbn [map zip_with]. rewrite IH by done. destruct one.
  - change (notw 8 255) with 0. by rewrite land_255, Z.land_0_l, Z.lor_0_r.
  - change (notw 8 0) with 255. by rewrite land_255, Z.land_0_l, Z.lor_0_l.
Qed.

Lemma map_seq_split (f : nat -> Z) n m : map f (seq 0 (n + m)) = map f (seq 0 n) ++ map (λ i, f (n + i)%nat) (seq 0 m).
Proof. rewrite seq_app, map_app. f_equal. change (0 + n)%nat with n. rewrite <- (Nat.add_0_r n) at 1. rewrite <- fmap_add_seq. by rewrite <- list_fmap_compose. Qed.

Lemma map_seq_ext (f g : nat -> Z) n : (forall i, (i < n)%nat -> f i = g i) -> map f (seq 0 n) = map g (seq 0 n).
Proof. intros H. apply map_ext_in. intros i Hi%in_seq. apply H. lia. Qed.

Lemma map_seq_lookup xs n : (n <= length xs)%nat -> map (λ i, xs !!! i) (seq 0 n) = take n xs.
Proof.
  intros Hn. apply list_eq. intros i. destruct (Nat.lt_ge_cases i n) as [Hi|Hi].
  - rewrite list_lookup_fmap, lookup_seq_lt, lookup_take_lt by done. cbn. symmetry. apply list_lookup_lookup_total_lt. lia.
  - rewrite !lookup_ge_None_2; [done|rewrite length_take; lia|rewrite length_map, length_seq; lia].
Qed.

Lemma map_seq_zero (f : nat -> Z) n : (forall i, (i < n)%nat -> f i = 0) -> map f (seq 0 n) = make 0 (Z.of_nat n).
Proof.
  intros H. rewrite (map_seq_ext f (λ _, 0)) by done. unfold make. rewrite Nat2Z.id. clear H. generalize 0%nat. induction n as [|n IH]; intros k; [done|]. cbn [seq map replicate]. by rewrite IH.
Qed.

Lemma first_block_fits n xs L : (n < 56)%nat -> (n <= length xs)%nat -> length L = 8%nat -> map (first_block (Z.of_nat n) xs L) (seq 0 64) = take n xs ++ [0x80] ++ make 0 (Z.of_nat (55 - n)) ++ L.
Proof.
  intros Hn Hx HL. replace 64%nat with (n + (1 + ((55 - n) + 8)))%nat by lia. rewrite !map_seq_split. f_equal; [|f_equal; [|f_equal]].
  - rewrite <- (map_seq_lookup xs n) by done. apply map_seq_ext. intros i Hi. unfold first_block. by rewrite (proj2 (Z.ltb_lt _ _)) by lia.
  - cbn [seq map]. unfold first_block. rewrite Nat.add_0_r, Z.ltb_irrefl, Z.eqb_refl. done.
  - apply map_seq_zero. intros i Hi. unfold first_block. rewrite (proj2 (Z.ltb_ge _ _)), (proj2 (Z.eqb_neq _ _)), (proj2 (Z.leb_gt 56 _)), andb_false_r by lia. done.
  - transitivity (map (λ i, L !!! i) (seq 0 8)); [|rewrite map_seq_lookup, take_ge by lia; done]. apply map_seq_ext. intros i Hi. unfold first_block. rewrite (proj2 (Z.ltb_ge _ (Z.of_nat n))), (proj2 (Z.eqb_neq _ _)), (proj2 (Z.leb_le 56 _)), (proj2 (Z.ltb_lt _ _)) by lia. cbn [andb]. f_equal. lia.
Qed.

Lemma first_block_full n xs L : (56 <= n < 64)%nat -> (n <= length xs)%nat -> map (first_block (Z.of_nat n) xs L) (seq 0 64) = take n xs ++ [0x80] ++ make 0 (Z.of_nat (63 - n)).
Proof.
  intros Hn Hx. replace 64%nat with (n + (1 + (63 - n)))%nat by lia. rewrite !map_seq_split. f_equal; [|f_equal].
  - rewrite <- (map_seq_lookup xs n) by done. apply map_seq_ext. intros i Hi. unfold first_block. by rewrite (proj2 (Z.ltb_lt _ _)) by lia.
  - cbn [seq map]. unfold first_block. rewrite Nat.add_0_r, Z.ltb_irrefl, Z.eqb_refl. done.
  - apply map_seq_zero. intros i Hi. unfold first_block. rewrite (proj2 (Z.ltb_ge _ (Z.of_nat n))), (proj2 (Z.eqb_neq _ _)), (proj2 (Z.ltb_ge _ 56)) by lia. done.
Qed.
End ConstantTime.

Lemma blocks_of_one hv b : (length b = 64)%nat -> digested rfc_compress 64 hv b = rfc_compress hv b.
Proof. intros Hb. unfold digested. rewrite Hb. change (64 / 64)%nat with 1%nat. cbn [absorb]. by rewrite take_ge by lia. Qed.

Lemma constSum_spec d m : sha1_represents d m -> constSum d = Val (sha1_function m).
Proof.
  intros Hd. pose proof Hd as ([Hv [Hxl Hxb] Hn Ht] & Hlen & _ & Hm). pose proof (length_tail 64 m ltac:(lia)) as Etl. pose proof (Nat.mod_upper_bound (length m) 64 ltac:(lia)) as Hub. set (n := length (tail 64 m)) in *.
  unfold constSum. rewrite length_loop. cbn [mbind outcome_bind]. rewrite Hlen, counter_bits. set (L := order_bytes true 8 (u64 (8 * zlen m))). assert (HL : length L = 8%nat) by apply length_order_bytes. assert (HLb : bytes_ok L) by apply order_bytes_ok.
  rewrite Hn. fold n. rewrite (wrap_small 8 (Z.of_nat n)) by (unfold is_uint; lia). rewrite (sign_mask_less (Z.of_nat n) 56) by lia. change chunk with 64. rewrite (const_loop1 (Z.of_nat n) (x d) L) by (done || lia). cbn [mbind outcome_bind]. set (B1 := map _ (seq 0 64)).
  assert (HB1l : length B1 = 64%nat) by (unfold B1; by rewrite length_map, length_seq).
  assert (HB1 : B1 = tail 64 m ++ if (n <? 56)%nat then [0x80] ++ make 0 (Z.of_nat (55 - n)) ++ L else [0x80] ++ make 0 (Z.of_nat (63 - n))).
  { unfold B1. destruct (Nat.ltb_spec n 56); [rewrite first_block_fits by lia|rewrite first_block_full by lia]; by rewrite Ht. }
  assert (HB1b : bytes_ok B1). { rewrite HB1. apply Forall_app. split; [by apply Forall_drop|]. destruct (n <? 56)%nat; apply Forall_cons_2; [done| |done|]; [apply Forall_app; split; [apply make_ok|done]|apply make_ok]. }
  assert (Hmod : forall b : list Z, length b = 64%nat -> (length b mod 64)%nat = 0%nat) by (by intros b ->).
  assert (Hg0 : chaining1 (h d)) by (rewrite Hv; apply (digested_good 64 6 rfc_compress chaining1 ltac:(lia) sha1_good); [apply init_chaining|done]). rewrite sha1_block by (try done; by apply Hmod). rewrite blocks_of_one by done. cbn [mbind outcome_bind].
  set (h1 := rfc_compress (h d) B1). assert (Hg1 : chaining1 h1) by (by apply sha1_good). rewrite masked_first by apply Hg1. cbn [mbind outcome_bind]. rewrite const_loop2 by done. cbn [mbind outcome_bind].
  assert (HB2l : length (make 0 56 ++ L) = 64%nat) by (rewrite length_app, HL; done). assert (HB2b : bytes_ok (make 0 56 ++ L)) by (apply Forall_app; split; [apply make_ok|done]).
  rewrite sha1_block by (try done; by apply Hmod). rewrite blocks_of_one by done. cbn [mbind outcome_bind]. set (h2 := rfc_compress h1 (make 0 56 ++ L)). assert (Hg2 : chaining1 h2) by (by apply sha1_good).
  assert (Hw : forall hv, chaining1 hv -> length (words_bytes 4 hv) = 20%nat) by (intros hv [H _]; by rewrite length_words_bytes, H). rewrite masked_second by (try apply Hg2; by rewrite length_map, Hw).
  replace (if Z.of_nat n <? 56 then 255 else 0) with (if (n <? 56)%nat then 255 else 0) by (destruct (Nat.ltb_spec n 56), (Z.ltb_spec (Z.of_nat n) 56); lia || done). rewrite masks_choose by (first [by rewrite !Hw|apply words_bytes_ok]). f_equal.
  unfold sha1_function.
  transitivity (words_bytes 4 (if (n <? 56)%nat then h1 else h2)); [by destruct (n <? 56)%nat|]. f_equal. unfold padded. rewrite digested_app by lia. rewrite <- Hv. unfold bit_length. fold L.
  assert (Ez : (Z.of_nat 64 - 1 - Z.of_nat 8 - zlen m) mod Z.of_nat 64 = if (n <? 56)%nat then Z.of_nat (55 - n) else Z.of_nat (63 - n + 56)).
  { pose proof (padding_amount 64 8 (zlen m) ltac:(lia) ltac:(lia)) as E. cbv zeta in E. assert (En : zlen m mod 64 = Z.of_nat n) by (by rewrite Etl, Nat2Z.inj_mod). rewrite En in E. change (Z.of_nat 64) with 64. change (Z.of_nat 8) with 8. destruct (Nat.ltb_spec n 56), (Z.ltb_spec (Z.of_nat n) (64 - 8)); lia. }
  rewrite Ez. unfold h2, h1. destruct (Nat.ltb_spec n 56) as [H56|H56].
  - rewrite <- HB1. symmetry. by apply blocks_of_one.
  - assert (Em : make 0 (Z.of_nat (63 - n + 56)) = make 0 (Z.of_nat (63 - n)) ++ make 0 56) by (unfold make; rewrite <- replicate_add; f_equal; lia). rewrite Em.
    assert (Eb : tail 64 m ++ [128] ++ (make 0 (Z.of_nat (63 - n)) ++ make 0 56) ++ L = B1 ++ (make 0 56 ++ L)) by (rewrite HB1, <- !app_assoc; done). rewrite Eb, digested_app, tail_blocks by (try lia; by apply Hmod). cbn [app]. by rewrite !blocks_of_one by done.
Qed.

Lemma ConstantTimeSum_spec d m b : sha1_represents d m -> ConstantTimeSum d b = Sum d b.
Proof. intros Hd. unfold ConstantTimeSum. rewrite (constSum_spec d m Hd), (sha1_Sum d m b Hd). done. Qed.
