(* ===== verification/Md5.v ===== *)
(** * crypto/md5

    MD5: src/Source/Gold/crypto/md5/md5.go and md5block_elements.go.  The state and its methods are those of file Digest (the chaining value is the
    field s, here [h]); block is blockGeneric of md5block_elements.go.  The reference is RFC 1321. *)

From S2P Require Import Prelude Bits Binary Hash Digest.

Local Open Scope go_scope.

Definition Size : Z := 16.
Definition BlockSize : Z := 64.
Definition init0 : Z := 0x67452301.
Definition init1 : Z := 0xEFCDAB89.
Definition init2 : Z := 0x98BADCFE.
Definition init3 : Z := 0x10325476.

(** [X[i&15] = uint32(p[j]) | uint32(p[j+1])<<8 | uint32(p[j+2])<<16 | uint32(p[j+3])<<24; j += 4] *)
Definition word_turn (p : list Z) (i : Z) (s : list Z * Z) : outcome (list Z * Z) :=
  let '(X, j) := s in v ← load32_le p j; X ← store X (i &. 15) v; Val (X, j + 4).

(** The pairs of lines of the four rounds: [a += f(b, c, d) + X[k] + t; a = a<<s | a>>(32-s) + b]. *)
Definition turn (s a b : Z) : Z := u32 ((a <<.[32] s |. (a >>. (32 - s))) + b).
Definition ff (X : list Z) (a b c d k s t : Z) : outcome Z := x ← index X k; let a := u32 (a + ((((c ^. d) &. b) ^. d) + x + t)) in Val (turn s a b).
Definition gg (X : list Z) (a b c d k s t : Z) : outcome Z := x ← index X k; let a := u32 (a + ((((b ^. c) &. d) ^. c) + x + t)) in Val (turn s a b).
Definition hh (X : list Z) (a b c d k s t : Z) : outcome Z := x ← index X k; let a := u32 (a + ((b ^. c ^. d) + x + t)) in Val (turn s a b).
Definition ii (X : list Z) (a b c d k s t : Z) : outcome Z := x ← index X k; let a := u32 (a + ((c ^. (b |. notw 32 d)) + x + t)) in Val (turn s a b).

Definition state : Type := Z * Z * Z * Z.

(** The body of the loop over blocks. *)
Definition compress (s : state * list Z) (p : list Z) : outcome (state * list Z) :=
  let '((a, b, c, d), xbuf) := s in
  let '(aa, bb, cc, dd) := (a, b, c, d) in
  '(X, _) ← for_up 0 16 (word_turn p) (xbuf, 0);
  (* Round 1 *)
  a ← ff X a b c d 0 7 3614090360; d ← ff X d a b c 1 12 3905402710; c ← ff X c d a b 2 17 606105819; b ← ff X b c d a 3 22 3250441966;
  a ← ff X a b c d 4 7 4118548399; d ← ff X d a b c 5 12 1200080426; c ← ff X c d a b 6 17 2821735955; b ← ff X b c d a 7 22 4249261313;
  a ← ff X a b c d 8 7 1770035416; d ← ff X d a b c 9 12 2336552879; c ← ff X c d a b 10 17 4294925233; b ← ff X b c d a 11 22 2304563134;
  a ← ff X a b c d 12 7 1804603682; d ← ff X d a b c 13 12 4254626195; c ← ff X c d a b 14 17 2792965006; b ← ff X b c d a 15 22 1236535329;
  (* Round 2 *)
  a ← gg X a b c d ((1+5*0) &. 15) 5 4129170786; d ← gg X d a b c ((1+5*1) &. 15) 9 3225465664; c ← gg X c d a b ((1+5*2) &. 15) 14 643717713; b ← gg X b c d a ((1+5*3) &. 15) 20 3921069994;
  a ← gg X a b c d ((1+5*4) &. 15) 5 3593408605; d ← gg X d a b c ((1+5*5) &. 15) 9 38016083; c ← gg X c d a b ((1+5*6) &. 15) 14 3634488961; b ← gg X b c d a ((1+5*7) &. 15) 20 3889429448;
  a ← gg X a b c d ((1+5*8) &. 15) 5 568446438; d ← gg X d a b c ((1+5*9) &. 15) 9 3275163606; c ← gg X c d a b ((1+5*10) &. 15) 14 4107603335; b ← gg X b c d a ((1+5*11) &. 15) 20 1163531501;
  a ← gg X a b c d ((1+5*12) &. 15) 5 2850285829; d ← gg X d a b c ((1+5*13) &. 15) 9 4243563512; c ← gg X c d a b ((1+5*14) &. 15) 14 1735328473; b ← gg X b c d a ((1+5*15) &. 15) 20 2368359562;
  (* Round 3 *)
  a ← hh X a b c d ((5+3*0) &. 15) 4 4294588738; d ← hh X d a b c ((5+3*1) &. 15) 11 2272392833; c ← hh X c d a b ((5+3*2) &. 15) 16 1839030562; b ← hh X b c d a ((5+3*3) &. 15) 23 4259657740;
  a ← hh X a b c d ((5+3*4) &. 15) 4 2763975236; d ← hh X d a b c ((5+3*5) &. 15) 11 1272893353; c ← hh X c d a b ((5+3*6) &. 15) 16 4139469664; b ← hh X b c d a ((5+3*7) &. 15) 23 3200236656;
  a ← hh X a b c d ((5+3*8) &. 15) 4 681279174; d ← hh X d a b c ((5+3*9) &. 15) 11 3936430074; c ← hh X c d a b ((5+3*10) &. 15) 16 3572445317; b ← hh X b c d a ((5+3*11) &. 15) 23 76029189;
  a ← hh X a b c d ((5+3*12) &. 15) 4 3654602809; d ← hh X d a b c ((5+3*13) &. 15) 11 3873151461; c ← hh X c d a b ((5+3*14) &. 15) 16 530742520; b ← hh X b c d a ((5+3*15) &. 15) 23 3299628645;
  (* Round 4 *)
  a ← ii X a b c d ((7*0) &. 15) 6 4096336452; d ← ii X d a b c ((7*1) &. 15) 10 1126891415; c ← ii X c d a b ((7*2) &. 15) 15 2878612391; b ← ii X b c d a ((7*3) &. 15) 21 4237533241;
  a ← ii X a b c d ((7*4) &. 15) 6 1700485571; d ← ii X d a b c ((7*5) &. 15) 10 2399980690; c ← ii X c d a b ((7*6) &. 15) 15 4293915773; b ← ii X b c d a ((7*7) &. 15) 21 2240044497;
  a ← ii X a b c d ((7*8) &. 15) 6 1873313359; d ← ii X d a b c ((7*9) &. 15) 10 4264355552; c ← ii X c d a b ((7*10) &. 15) 15 2734768916; b ← ii X b c d a ((7*11) &. 15) 21 1309151649;
  a ← ii X a b c d ((7*12) &. 15) 6 4149444226; d ← ii X d a b c ((7*13) &. 15) 10 3174756917; c ← ii X c d a b ((7*14) &. 15) 15 718787259; b ← ii X b c d a ((7*15) &. 15) 21 3951481745;
  Val ((u32 (a + aa), u32 (b + bb), u32 (c + cc), u32 (d + dd)), X).

Definition blockGeneric (s p : list Z) : outcome (list Z) :=
  a ← index s 0; b ← index s 1; c ← index s 2; d ← index s 3;
  let xbuf := make 0 16 in
  '((a, b, c, d), _) ← block_loop compress BlockSize (S (length p)) ((a, b, c, d), xbuf) p;
  Val [a; b; c; d].
Definition block : list Z -> list Z -> outcome (list Z) := blockGeneric.

Definition digest : Type := Digest.digest unit.
Definition magic : list Z := str "md5" ++ [1].
Definition marshaledSize : Z := zlen magic + 4 * 4 + BlockSize + 8.

Definition Reset (d : digest) : digest := Digest [init0; init1; init2; init3] (x d) 0 0 tt.
Definition zero_digest : digest := Digest (make 0 4) (make 0 BlockSize) 0 0 tt.
Definition New : digest := Reset zero_digest.
Definition Write (d : digest) (p : list Z) : outcome (digest * Z) := Digest.Write BlockSize block d p.

(** [return b[4:], binary.BigEndian.Uint32(b[0:4])], and the like. *)
Definition consumeUint64 (b : list Z) : outcome (list Z * Z) := b' ← slice b 8 (zlen b); s ← slice b 0 8; w ← bigEndian_Uint64 s; Val (b', w).
Definition consumeUint32 (b : list Z) : outcome (list Z * Z) := b' ← slice b 4 (zlen b); s ← slice b 0 4; w ← bigEndian_Uint32 s; Val (b', w).

Definition MarshalBinary (d : digest) : outcome (list Z) := Digest.MarshalBinary appendUint32 magic marshaledSize d.
Definition UnmarshalBinary (d : digest) (b : list Z) : outcome (digest * option unmarshalError) :=
  if bad_magic magic b then Val (d, Some invalidIdentifier) else Digest.UnmarshalBinary BlockSize consumeUint32 consumeUint64 magic marshaledSize d b.

(** One Write of the end marker, the zeroes and the length: [tmp] is an array of 72 bytes that starts with 0x80. *)
Definition checkSum (d : digest) : outcome (digest * list Z) :=
  let tmp := 0x80 :: make 0 (63 + 8) in
  let pad := u64 (55 - len d) mod 64 in
  tmp ← put_at littleEndian_PutUint64 tmp (1 + pad) (len d <<.[64] 3);
  p ← slice tmp 0 (1 + pad + 8);
  '(d, _) ← Write d p;
  if negb (nx d =? 0) then Panic Explicit
  else digest ← put_words littleEndian_PutUint32 4 (make 0 Size) 0 (h d); Val (d, digest).

Definition Sum (d : digest) (in_ : list Z) : outcome (list Z) := '(_, hash) ← checkSum d; Val (in_ ++ hash).
(** The function Sum of the package. *)
Definition Sum_ (data : list Z) : outcome (list Z) := '(d, _) ← Write (Reset zero_digest) data; '(_, s) ← checkSum d; Val s.

#[export] Instance md5_Hash : Hash digest := {
  Hash.Write := Write; Hash.Sum := Sum; Hash.Reset := Reset; Hash.Size := λ _, Size; Hash.BlockSize := λ _, BlockSize;
  Hash.MarshalBinary := MarshalBinary; Hash.UnmarshalBinary := UnmarshalBinary }.

(** The test suite of the RFC. *)
Example Sum_suite :
  Sum_ [] = Val (order_bytes true 16 0xd41d8cd98f00b204e9800998ecf8427e) /\ Sum_ (str "message digest") = Val (order_bytes true 16 0xf96b697d7cb7938d525a2f31aaf161d0)
  /\ Sum_ (str "12345678901234567890123456789012345678901234567890123456789012345678901234567890") = Val (order_bytes true 16 0x57edf4a22be3c955ac49da2e2107b67a).
Proof. vm_compute. auto. Qed.

(** ** RFC 1321 *)

Definition F_ (b c d : Z) : Z := (b &. c) |. (notw 32 b &. d).
Definition G_ (b c d : Z) : Z := (b &. d) |. (c &. notw 32 d).
Definition H_ (b c d : Z) : Z := b ^. c ^. d.
Definition I_ (b c d : Z) : Z := c ^. (b |. notw 32 d).

(** [floor(2^32 * |sin n|)] with 120 binary digits: the sine and cosine of 1 by the first 18 terms of their series, those of n + 1 from those of n by the addition formulas.  The truncations add up to less than 2^-100. *)
Definition scale : Z := 2 ^ 120.
Fixpoint factorial (n : nat) : Z := match n with O => 1 | S m => Z.of_nat n * factorial m end.
Definition series (first : nat) : Z := foldl (λ s (k : nat), s + (-1) ^ Z.of_nat k * (scale / factorial (2 * k + first))) 0 (seq 0 18).
Fixpoint sine_words (n : nat) (s1 c1 s c : Z) : list Z :=
  match n with
  | O => []
  | S n => let s' := (s * c1 + c * s1) / scale in let c' := (c * c1 - s * s1) / scale in 2 ^ 32 * Z.abs s' / scale :: sine_words n s1 c1 s' c'
  end.
(** The table of the RFC. *)
Definition T_ : list Z := sine_words 64 (series 1) (series 0) 0 scale.


(** The function, the word and the rotation of operation [n]. *)
Definition rfc_f (n : nat) : Z -> Z -> Z -> Z := if (n <? 16)%nat then F_ else if (n <? 32)%nat then G_ else if (n <? 48)%nat then H_ else I_.
Definition rfc_k (n : nat) : nat := (if n <? 16 then n else if n <? 32 then (1 + 5 * n) mod 16 else if n <? 48 then (5 + 3 * n) mod 16 else (7 * n) mod 16)%nat.
Definition rfc_s (n : nat) : Z := [7; 12; 17; 22; 5; 9; 14; 20; 4; 11; 16; 23; 6; 10; 15; 21] !!! (n / 16 * 4 + n mod 4)%nat.
(** [a = b + ((a + F(b,c,d) + X[k] + T[i]) <<< s)], after which the registers change their places. *)
Definition rfc_op (X : list Z) (s : state) (n : nat) : state :=
  let '(a, b, c, d) := s in
  let a := u32 (a + rfc_f n b c d + X !!! rfc_k n + T_ !!! n) in
  (d, u32 (b + ((a <<.[32] rfc_s n) |. (a >>. (32 - rfc_s n)))), b, c).

Fixpoint message_words (n : nat) (p : list Z) : list Z :=
  match n with O => [] | S n => order_value false (take 4 p) :: message_words n (drop 4 p) end.
Definition rfc_compress (hv p : list Z) : list Z :=
  match hv with
  | [aa; bb; cc; dd] => let '(a, b, c, d) := foldl (rfc_op (message_words 16 p)) (aa, bb, cc, dd) (seq 0 64) in [u32 (a + aa); u32 (b + bb); u32 (c + cc); u32 (d + dd)]
  | _ => hv
  end.

(** The first words: the bytes 01 23 45 67 89 ab cd ef fe dc ba 98 76 54 32 10, low byte first. *)
Definition rfc_iv : list Z := map (order_value false) [[0x01; 0x23; 0x45; 0x67]; [0x89; 0xab; 0xcd; 0xef]; [0xfe; 0xdc; 0xba; 0x98]; [0x76; 0x54; 0x32; 0x10]].
(** MD5 of a message: the words of the chaining value and the length are written low byte first. *)
Definition md5_function (m : list Z) : list Z :=
  concat (map (order_bytes false 4) (digested rfc_compress 64 rfc_iv (padded 64 8 (bit_length (order_bytes false 8)) m))).

Lemma length_message_words5 n p : length (message_words n p) = n.
Proof. revert p. induction n as [|n IH]; intros p; cbn [message_words length]; [done|by rewrite IH]. Qed.

Lemma message_words5_lookup n p i : (i < n)%nat -> message_words n p !! i = Some (order_value false (take 4 (drop (i * 4) p))).
Proof.
  revert p i. induction n as [|n IH]; intros p i Hi; [lia|]. destruct i as [|i]; [by rewrite drop_0|]. cbn [message_words]. change ((_ :: ?l) !! S i) with (l !! i). rewrite IH by lia. rewrite drop_drop. by replace (4 + i * 4)%nat with (S i * 4)%nat by lia.
Qed.

Lemma message_words5_take n p c : (n * 4 <= c)%nat -> message_words n (take c p) = message_words n p.
Proof.
  revert c p. induction n as [|n IH]; intros c p Hc; cbn [message_words]; [done|]. rewrite take_take, Nat.min_l by lia. f_equal. rewrite <- (IH (c - 4)%nat (drop 4 p)) by lia. f_equal. by rewrite skipn_firstn_comm.
Qed.

Lemma rfc_compress_take hv p : rfc_compress hv (take 64 p) = rfc_compress hv p.
Proof. unfold rfc_compress. by rewrite (message_words5_take 16 p 64) by lia. Qed.

(** ** The code's operations are those of the RFC *)

Definition regs (s : state) : Prop := let '(a, b, c, d) := s in is_uint 32 a /\ is_uint 32 b /\ is_uint 32 c /\ is_uint 32 d.

Lemma ff_select b c d : is_uint 32 b -> is_uint 32 c -> is_uint 32 d -> ((c ^. d) &. b) ^. d = F_ b c d.
Proof.
  intros Hb Hc Hd. pose proof (notw_uint 32 b Hb) as Hn. unfold F_. apply Z.bits_inj'. intros i Hi. rewrite Z.lor_spec, Z.lxor_spec, !Z.land_spec, Z.lxor_spec. destruct (Z.lt_ge_cases i 32).
  - rewrite notw_testbit by (done || lia). by destruct (Z.testbit b i), (Z.testbit c i), (Z.testbit d i).
  - rewrite !(testbit_high 32) by (done || lia). done.
Qed.

Lemma gg_select b c d : is_uint 32 b -> is_uint 32 c -> is_uint 32 d -> ((b ^. c) &. d) ^. c = G_ b c d.
Proof.
  intros Hb Hc Hd. pose proof (notw_uint 32 d Hd) as Hn. unfold G_. apply Z.bits_inj'. intros i Hi. rewrite Z.lor_spec, Z.lxor_spec, !Z.land_spec, Z.lxor_spec. destruct (Z.lt_ge_cases i 32).
  - rewrite notw_testbit by (done || lia). by destruct (Z.testbit b i), (Z.testbit c i), (Z.testbit d i).
  - rewrite !(testbit_high 32) by (done || lia). done.
Qed.

(** A pair of lines of round [n / 16]. *)
Definition is_op (op : list Z -> Z -> Z -> Z -> Z -> Z -> Z -> Z -> outcome Z) (f : Z -> Z -> Z -> Z) : Prop :=
  forall X a b c d k s t, length X = 16%nat -> 0 <= k < 16 -> is_uint 32 b -> is_uint 32 c -> is_uint 32 d ->
    op X a b c d k s t = Val (turn s (u32 (a + f b c d + X !!! Z.to_nat k + t)) b).

Lemma index_total (X : list Z) k : length X = 16%nat -> 0 <= k < 16 -> index X k = Val (X !!! Z.to_nat k).
Proof. intros Hl Hk. apply index_Val; [lia|]. apply list_lookup_lookup_total_lt. lia. Qed.

Lemma rounds_ops : is_op ff F_ /\ is_op gg G_ /\ is_op hh H_ /\ is_op ii I_.
Proof.
  assert (E : forall X a b c d k s t e (f : Z -> Z -> Z -> Z), length X = 16%nat -> 0 <= k < 16 -> e = f b c d -> (x ← index X k; Val (turn s (u32 (a + (e + x + t))) b)) = Val (turn s (u32 (a + f b c d + X !!! Z.to_nat k + t)) b)) by (intros X a b c d k s t e f Hl Hk ->; rewrite index_total by done; cbn [mbind outcome_bind]; by rewrite !Z.add_assoc).
  split_and!; intros X a b c d k s t Hl Hk Hb Hc Hd; apply E; first [done | by apply ff_select | by apply gg_select].
Qed.

(** The numbers in the code are those of the table. *)
Definition numbers_ : list Z := [
3614090360; 3905402710; 606105819; 3250441966; 4118548399; 1200080426; 2821735955; 4249261313;
   1770035416; 2336552879; 4294925233; 2304563134; 1804603682; 4254626195; 2792965006; 1236535329;
   4129170786; 3225465664; 643717713; 3921069994; 3593408605; 38016083; 3634488961; 3889429448;
   568446438; 3275163606; 4107603335; 1163531501; 2850285829; 4243563512; 1735328473; 2368359562;
   4294588738; 2272392833; 1839030562; 4259657740; 2763975236; 1272893353; 4139469664; 3200236656;
   681279174; 3936430074; 3572445317; 76029189; 3654602809; 3873151461; 530742520; 3299628645;
   4096336452; 1126891415; 2878612391; 4237533241; 1700485571; 2399980690; 4293915773; 2240044497;
   1873313359; 4264355552; 2734768916; 1309151649; 4149444226; 3174756917; 718787259; 3951481745].

Lemma T_numbers : T_ = numbers_.
Proof. vm_compute. reflexivity. Qed.

Section Rounds.
Context (X : list Z) (HX : length X = 16%nat).

Lemma rfc_op_turn a b c d n : rfc_op X (a, b, c, d) n = (d, turn (rfc_s n) (u32 (a + rfc_f n b c d + X !!! rfc_k n + numbers_ !!! n)) b, b, c).
Proof. unfold rfc_op, turn. rewrite T_numbers. cbv zeta. by rewrite (Z.add_comm b (Z.lor _ _)). Qed.

Lemma turn_uint s a b : is_uint 32 (turn s a b).
Proof. by apply wrap_is_uint. Qed.

(** The function, word, rotation and constant of operation [n]. *)
Definition op_data (n : nat) (f : Z -> Z -> Z -> Z) (k s t : Z) : Prop := 0 <= k < 16 /\ rfc_f n = f /\ rfc_k n = Z.to_nat k /\ rfc_s n = s /\ numbers_ !!! n = t.

(** Operations [n] to [n + 3] bring the registers back to their places: four pairs of lines. *)
Lemma four_ops {R} op f n k0 k1 k2 k3 s0 s1 s2 s3 t0 t1 t2 t3 a b c d st0 (cont : Z -> Z -> Z -> Z -> outcome R) r :
  is_op op f -> op_data n f k0 s0 t0 -> op_data (S n) f k1 s1 t1 -> op_data (S (S n)) f k2 s2 t2 -> op_data (S (S (S n))) f k3 s3 t3 ->
  foldl (rfc_op X) st0 (seq 0 n) = (a, b, c, d) -> regs (a, b, c, d) ->
  (forall a b c d, foldl (rfc_op X) st0 (seq 0 (n + 4)) = (a, b, c, d) -> regs (a, b, c, d) -> cont a b c d = r) ->
  (a ← op X a b c d k0 s0 t0; d ← op X d a b c k1 s1 t1; c ← op X c d a b k2 s2 t2; b ← op X b c d a k3 s3 t3; cont a b c d) = r.
Proof.
  intros Hop (K0 & F0 & Ek0 & Es0 & Et0) (K1 & F1 & Ek1 & Es1 & Et1) (K2 & F2 & Ek2 & Es2 & Et2) (K3 & F3 & Ek3 & Es3 & Et3) Ef (Ha & Hb & Hc & Hd) Hcont.
  do 4 (rewrite Hop by (first [done | apply turn_uint]); cbn [mbind outcome_bind]). rewrite seq_app, foldl_app, Ef in Hcont. cbn [Nat.add seq foldl] in Hcont. rewrite !rfc_op_turn in Hcont.
  rewrite F0, F1, F2, F3, Ek0, Ek1, Ek2, Ek3, Es0, Es1, Es2, Es3, Et0, Et1, Et2, Et3 in Hcont. apply Hcont; [done|]. split_and!; apply turn_uint.
Qed.
End Rounds.

(** ** The block function *)

Lemma words_loop5 p w : bytes_ok p -> 64 <= zlen p -> length w = 16%nat -> for_up 0 16 (word_turn p) (w, 0) = Val (message_words 16 p, 64).
Proof.
  intros Hp Hl Hw. destruct (for_up_inv (λ i s, 0 <= i /\ snd s = i * 4 /\ length (fst s) = 16%nat /\ take (Z.to_nat i) (fst s) = take (Z.to_nat i) (message_words 16 p)) 0 16 (word_turn p) (w, 0)) as ([X j] & E & _ & Hj & Hx & Ht); [lia|done| |].
  - intros i [X j] Hi (_ & Hj & Hx & Ht). cbn [fst snd] in *. subst j. unfold word_turn. rewrite load32_le_val by (done || lia). cbn [mbind outcome_bind]. assert (Ei : i &. 15 = i) by (change 15 with (Z.ones 4); rewrite Z.land_ones by lia; apply Z.mod_small; lia). rewrite Ei, store_lt by lia.
    eexists. split; [reflexivity|]. cbn [fst snd]. split; [lia|]. split; [lia|]. split; [by rewrite length_insert|]. replace (Z.to_nat (i + 1)) with (S (Z.to_nat i)) by lia. erewrite (take_S_r (message_words 16 p)); [|apply message_words5_lookup; lia]. erewrite take_S_r; [|apply list_lookup_insert_eq; lia].
    rewrite take_insert_ge, Ht by lia. by replace (Z.to_nat (i * 4)) with (Z.to_nat i * 4)%nat by lia.
  - cbn [fst snd] in *. rewrite E. subst j. change (Z.to_nat 16) with 16%nat in Ht. rewrite !take_ge in Ht by (rewrite ?length_message_words5; lia). by subst X.
Qed.

(** Four pairs of lines of the round [op], the first of which is operation [n]. *)
Ltac four X op f n :=
  refine (four_ops X (length_message_words5 16 _) op f n _ _ _ _ _ _ _ _ _ _ _ _ _ _ _ _ _ _ _ _ _ _ _ _ _ _ _);
  [apply rounds_ops|split_and!; first [reflexivity | done]|split_and!; first [reflexivity | done]|split_and!; first [reflexivity | done]|split_and!; first [reflexivity | done]|eassumption|eassumption|intros ? ? ? ? ? ?].

Lemma md5_compress_spec s w p : bytes_ok p -> 64 <= zlen p -> length w = 16%nat -> regs s ->
  let '(aa, bb, cc, dd) := s in
  compress (s, w) p = Val (let '(a, b, c, d) := foldl (rfc_op (message_words 16 p)) s (seq 0 64) in ((u32 (a + aa), u32 (b + bb), u32 (c + cc), u32 (d + dd)), message_words 16 p)).
Proof.
  intros Hp Hl Hw Hs. destruct s as [[[aa bb] cc] dd]. unfold compress. rewrite words_loop5 by done. cbn [mbind outcome_bind]. pose proof (eq_refl : foldl (rfc_op (message_words 16 p)) (aa, bb, cc, dd) (seq 0 0) = (aa, bb, cc, dd)) as E0. set (X := message_words 16 p) in *.
  four X ff F_ 0%nat. four X ff F_ 4%nat. four X ff F_ 8%nat. four X ff F_ 12%nat.
  four X gg G_ 16%nat. four X gg G_ 20%nat. four X gg G_ 24%nat. four X gg G_ 28%nat.
  four X hh H_ 32%nat. four X hh H_ 36%nat. four X hh H_ 40%nat. four X hh H_ 44%nat.
  four X ii I_ 48%nat. four X ii I_ 52%nat. four X ii I_ 56%nat. four X ii I_ 60%nat.
  change (60 + 4)%nat with 64%nat in *. by match goal with E : foldl _ _ (seq 0 64) = _ |- _ => rewrite E end.
Qed.

Definition chaining5 hv : Prop := length hv = 4%nat /\ Forall (is_uint 32) hv.

Lemma md5_good hv p : chaining5 hv -> bytes_ok p -> length p = 64%nat -> chaining5 (rfc_compress hv p).
Proof.
  intros [Hl _] _ _. destruct hv as [|a [|b [|c [|d [|? ?]]]]]; try done. unfold rfc_compress. destruct (foldl _ _ _) as [[[a' b'] c'] d']. split; [done|]. repeat (apply Forall_cons_2; [by apply wrap_is_uint|]). constructor.
Qed.

Definition list_of (s : state) : list Z := let '(a, b, c, d) := s in [a; b; c; d].

Lemma md5_block hv p : chaining5 hv -> bytes_ok p -> (length p mod 64)%nat = 0%nat -> block hv p = Val (digested rfc_compress 64 hv p).
Proof.
  intros Hh Hp Hm. pose proof Hh as [Hl _]. destruct hv as [|a [|b [|c [|d [|? ?]]]]]; try done. unfold block, blockGeneric.
  rewrite (index_Val _ 0 a), (index_Val _ 1 b), (index_Val _ 2 c), (index_Val _ 3 d) by done. cbn [mbind outcome_bind]. set (s := (a, b, c, d)) in *.
  destruct (block_loop_digested 64 rfc_compress chaining5 compress (λ s hv, length (snd s) = 16%nat /\ list_of (fst s) = hv) ltac:(lia) md5_good) with (fuel := S (length p)) (s := (s, make 0 16)) (hv := list_of s) (p := p) as ([s' w'] & E & Hw' & Hs'); [|done..|lia|].
  - intros [s1 w1] hv1 p1 [Hw1 Hs1] [_ Hg1] Hp1 Hl1. cbn [fst snd] in *. destruct s1 as [[[a1 b1] c1] d1]. rewrite <- Hs1 in *. assert (Hr : regs (a1, b1, c1, d1)) by (cbn [list_of] in Hg1; by repeat (apply Forall_cons in Hg1 as [? Hg1])).
    pose proof (md5_compress_spec (a1, b1, c1, d1) w1 p1 Hp1 ltac:(lia) Hw1 Hr) as Ec. cbv iota beta in Ec. rewrite rfc_compress_take. unfold rfc_compress. cbn [list_of]. destruct (foldl _ _ _) as [[[a2 b2] c2] d2]. eexists. split; [exact Ec|]. split; [apply length_message_words5|done].
  - change (Z.of_nat 64) with BlockSize in E. rewrite E. cbn [mbind outcome_bind]. cbn [fst snd] in Hs'. destruct s' as [[[a' b'] c'] d']. exact (f_equal Val Hs').
Qed.

(** ** The methods compute the function *)

Lemma init_chaining5 : chaining5 rfc_iv.
Proof. split; [done|]. apply (bool_decide_unpack _). by vm_compute. Qed.

Definition md5_represents : digest -> list Z -> Prop := represents 64 rfc_compress rfc_iv tt.

Lemma md5_Write d m p : md5_represents d m -> bytes_ok p -> exists d', Write d p = Val (d', zlen p) /\ md5_represents d' (m ++ p).
Proof. intros Hd Hp. by apply (Write_represents 64 6 _ block chaining5 eq_refl ltac:(lia) md5_block md5_good); [apply init_chaining5| |]. Qed.

Lemma md5_Reset d m : md5_represents d m -> md5_represents (Reset d) [].
Proof. intros ([_ [Hl Hb] _ _] & _ & Hf & _). split_and!; [|done|done|done]. by split. Qed.

Lemma md5_fresh : md5_represents New [].
Proof. split_and!; [|done|done|done]. split; [done|split; [done|apply make_ok]|done|done]. Qed.

Lemma md5_value_chaining m : bytes_ok m -> length (digested rfc_compress 64 rfc_iv (padded 64 8 (bit_length (order_bytes false 8)) m)) = 4%nat.
Proof.
  intros Hm. destruct (digested_good 64 6 rfc_compress chaining5 ltac:(lia) md5_good rfc_iv (padded 64 8 (bit_length (order_bytes false 8)) m) init_chaining5) as [Hg _]; [|exact Hg]. apply padded_bytes; [done|apply order_bytes_ok].
Qed.

Lemma length_make_nat n : length (make 0 n) = Z.to_nat n.
Proof. apply length_replicate. Qed.

(** What is written at the end: the marker, the padding and the length. *)
Lemma padding_array n w : 0 <= n < 64 -> exists tmp, put_at littleEndian_PutUint64 (0x80 :: make 0 (63 + 8)) (1 + n) w = Val tmp /\ slice tmp 0 (1 + n + 8) = Val ([0x80] ++ make 0 n ++ order_bytes false 8 w).
Proof.
  intros Hn. unfold put_at. rewrite slice_from by (cbn [length]; rewrite length_make_nat; lia). cbn [mbind outcome_bind]. assert (Hin : (8%nat, false, littleEndian_Uint64, littleEndian_PutUint64) ∈ byte_orders) by (unfold byte_orders; rewrite !elem_of_cons; tauto).
  assert (Em : 0x80 :: make 0 (63 + 8) = ([0x80] ++ make 0 n) ++ make 0 (71 - n)) by (unfold make; rewrite <- app_assoc, <- replicate_add; cbn [app]; do 2 f_equal; lia). assert (El : length ([0x80] ++ make 0 n) = Z.to_nat (1 + n)) by (rewrite length_app, length_make_nat; cbn [length]; lia).
  rewrite Em. set (t := [128] ++ make 0 n) in *. rewrite drop_app_length', take_app_length' by done. rewrite (put_spec _ _ _ _ _ _ Hin) by (rewrite length_make_nat; lia). cbn [mbind outcome_bind]. eexists. split; [reflexivity|]. pose proof (length_order_bytes false 8 w) as Ew.
  rewrite slice_take by (rewrite !length_app, El, Ew; lia). f_equal. rewrite app_assoc, take_app_length' by (rewrite length_app, El, Ew; lia). unfold t. by rewrite <- app_assoc.
Qed.

Lemma md5_checkSum d m : md5_represents d m -> exists d', checkSum d = Val (d', md5_function m).
Proof.
  intros Hd. pose proof Hd as (_ & Hlen & _ & Hm). unfold checkSum, md5_function. rewrite Hlen, counter_bits. assert (Ep : u64 (55 - u64 (zlen m)) mod 64 = (Z.of_nat 64 - 1 - Z.of_nat 8 - zlen m) mod Z.of_nat 64).
  { assert (C : forall z, u64 z mod 64 = z mod 64) by (intros z; exact (counter_mod 6 z ltac:(lia))). rewrite C, Zminus_mod, C, <- Zminus_mod. done. }
  rewrite Ep. pose proof (Z.mod_pos_bound (Z.of_nat 64 - 1 - Z.of_nat 8 - zlen m) (Z.of_nat 64) ltac:(lia)) as Hb. destruct (padding_array _ (u64 (8 * zlen m)) Hb) as (tmp & -> & Es). cbn [mbind outcome_bind]. rewrite Es. cbn [mbind outcome_bind].
  set (q := [128] ++ _). assert (Hq : bytes_ok q) by (apply Forall_app; split; [by apply Forall_singleton|apply Forall_app; split; [apply make_ok|apply order_bytes_ok]]). destruct (md5_Write d m q Hd Hq) as (d' & -> & H'). cbn [mbind outcome_bind]. change (m ++ q) with (padded 64 8 (bit_length (order_bytes false 8)) m) in H'.
  apply represents_padded in H' as (Hh & Hn & _); [|lia|unfold bit_length; by rewrite length_order_bytes]. rewrite Hn. cbn [Z.eqb negb]. rewrite Hh. pose proof (md5_value_chaining m Hm) as Hg. set (hv := digested _ _ _ _) in *. clearbody hv.
  assert (Hin : (4%nat, false, littleEndian_Uint32, littleEndian_PutUint32) ∈ byte_orders) by (unfold byte_orders; rewrite !elem_of_cons; tauto).
  pose proof (put_words_val 4 false _ _ [] (make 0 Size) hv Hin) as E1. change ([] ++ make 0 Size) with (make 0 Size) in E1. change (zlen []) with 0 in E1. change (Z.of_nat 4) with 4 in E1. rewrite Hg in E1. rewrite E1 by (by apply Nat.leb_le). cbn [mbind outcome_bind app].
  change (drop (4 * 4) (make 0 Size)) with (@nil Z). rewrite app_nil_r. by exists d'.
Qed.

Lemma md5_Sum d m b : md5_represents d m -> Sum d b = Val (b ++ md5_function m).
Proof. intros Hd. unfold Sum. by destruct (md5_checkSum d m Hd) as (d' & ->). Qed.

Lemma md5_Sum_ data : bytes_ok data -> Sum_ data = Val (md5_function data).
Proof. intros Hd. unfold Sum_. destruct (md5_Write _ [] data md5_fresh Hd) as (d' & E & H). change (Reset zero_digest) with New. rewrite E. cbn [mbind outcome_bind]. by destruct (md5_checkSum d' data H) as (d2 & ->). Qed.

Lemma md5_consumeUint32 w rest : is_uint 32 w -> bytes_ok rest -> consumeUint32 (order_bytes true 4 w ++ rest) = Val (rest, w).
Proof.
  intros Hw Hr. pose proof (length_order_bytes true 4 w) as El. unfold consumeUint32. rewrite slice_from by (rewrite zlen_app, El; lia). cbn [mbind outcome_bind]. rewrite slice_take by (rewrite zlen_app, El; lia). cbn [mbind outcome_bind]. rewrite drop_app_length', take_app_length' by (rewrite El; done).
  pose proof (bigEndian_Uint32_bytes w [] Hw ltac:(done)) as E. rewrite app_nil_r in E. by rewrite E.
Qed.

Lemma md5_consumeUint64 w : is_uint 64 w -> consumeUint64 (order_bytes true 8 w) = Val ([], w).
Proof.
  intros Hw. pose proof (length_order_bytes true 8 w) as El. unfold consumeUint64. rewrite (slice_from _ 8), (slice_take _ 8) by (rewrite El; lia). cbn [mbind outcome_bind]. rewrite drop_ge, take_ge by (rewrite El; lia).
  pose proof (bigEndian_Uint64_bytes w [] Hw ltac:(done)) as E. rewrite app_nil_r in E. by rewrite E.
Qed.

Lemma md5_marshal d m : md5_represents d m -> exists b, MarshalBinary d = Val b /\ forall d' m', md5_represents d' m' -> exists d'', UnmarshalBinary d' b = Val (d'', None) /\ md5_represents d'' m.
Proof.
  intros Hd. assert (Hw : forall hv, chaining5 hv -> length hv = 4%nat /\ Forall (is_uint (8 * Z.of_nat 4)) hv) by (intros hv [H1 H2]; done). exists (marshalled 64 rfc_compress 4 magic rfc_iv m). split.
  - apply (MarshalBinary_represents 64 6 _ chaining5 eq_refl ltac:(lia) md5_good 4 4 appendUint32 appendUint32_val Hw magic rfc_iv tt d m init_chaining5 Hd).
  - intros d' m' Hd'. destruct (UnmarshalBinary_represents 64 6 _ chaining5 eq_refl ltac:(lia) md5_good 4 4 consumeUint32 consumeUint64 md5_consumeUint32 Hw md5_consumeUint64 magic rfc_iv rfc_iv tt tt d m d' m' init_chaining5 init_chaining5 Hd Hd') as (d'' & E & H).
    exists d''. split; [|done]. unfold UnmarshalBinary. unfold marshalled at 1. rewrite bad_magic_app. exact E.
Qed.

Lemma length_little_words ws : length (concat (map (order_bytes false 4) ws)) = (4 * length ws)%nat.
Proof. apply length_words. Qed.

#[export] Program Instance md5_message : MessageHash digest New md5_function := { has_message := md5_represents }.
Next Obligation. apply md5_fresh. Qed.
Next Obligation. by intros d m (_ & _ & _ & Hm). Qed.
Next Obligation. intros d m p Hd Hp. by apply md5_Write. Qed.
Next Obligation. intros d m b Hd. by apply md5_Sum. Qed.
Next Obligation. intros d m Hd. by apply (md5_Reset d m). Qed.
Next Obligation. intros d m p _ Hp. change (zlen (md5_function p) = 16). unfold md5_function. by rewrite length_little_words, md5_value_chaining. Qed.
Next Obligation. intros m Hm. unfold md5_function. induction (digested _ _ _ _) as [|w ws IH]; [constructor|]. cbn [map concat]. apply Forall_app. split; [apply order_bytes_ok|done]. Qed.
Next Obligation. intros d m Hd. by apply md5_marshal. Qed.
