(* ===== verification/Subtle.v ===== *)
(** * crypto/subtle

    The functions that choose and compare without a branch on the data: src/Source/Gold/crypto/subtle/constant_time.go. *)

From S2P Require Import Prelude.

Local Open Scope go_scope.

(** [int((uint32(x^y) - 1) >> 31)] *)
Definition ConstantTimeByteEq (x y : Z) : Z := u32 (u32 (x ^. y) - 1) >>. 31.

Definition ConstantTimeCompare (x y : list Z) : outcome Z :=
  if negb (zlen x =? zlen y) then Val 0
  else
    v ← for_up 0 (zlen x) (λ i v, xi ← index x i; yi ← index y i; Val (v |. (xi ^. yi))) 0;
    Val (ConstantTimeByteEq v 0).

(** [^(v-1)&x | (v-1)&y] *)
Definition ConstantTimeSelect (v x y : Z) : Z := (Z.lnot (i64 (v - 1)) &. x) |. (i64 (v - 1) &. y).

Definition ConstantTimeEq (x y : Z) : Z := u64 (u32 (x ^. y) - 1) >>. 63.

Definition ConstantTimeCopy (v : Z) (x y : list Z) : outcome (list Z) :=
  if negb (zlen x =? zlen y) then Panic Explicit
  else
    let xmask := u8 (v - 1) in
    let ymask := u8 (Z.lnot (v - 1)) in
    for_up 0 (zlen x) (λ i x, xi ← index x i; yi ← index y i; store x i ((xi &. xmask) |. (yi &. ymask))) x.

Definition ConstantTimeLessOrEq (x y : Z) : Z :=
  let x32 := i32 x in
  let y32 := i32 y in
  (i32 (i32 (x32 - y32) - 1) >>. 31) &. 1.

Definition one_if (b : bool) : Z := if b then 1 else 0.

Lemma is_zero w n : 0 < w -> is_uint w n -> wrap w (n - 1) >>. (w - 1) = one_if (n =? 0) \/ 2 ^ (w - 1) < n.
Proof.
  intros Hw Hn. unfold is_uint in Hn. rewrite Z.shiftr_div_pow2 by lia. assert (Ew : 2 ^ w = 2 * 2 ^ (w - 1)) by (rewrite <- Z.pow_succ_r by lia; f_equal; lia). destruct (Z.eqb_spec n 0) as [->|Hne].
  - left. change (0 - 1) with (-1). unfold wrap. rewrite <- (Z.mod_unique (-1) (2 ^ w) (-1) (2 ^ w - 1)) by lia. cbn [one_if]. symmetry. apply (Z.div_unique _ _ _ (2 ^ (w - 1) - 1)); lia.
  - destruct (Z.le_gt_cases n (2 ^ (w - 1))); [left|right; lia]. rewrite wrap_small by (unfold is_uint; lia). apply Z.div_small. lia.
Qed.

Lemma lxor8_uint x y : is_uint 8 x -> is_uint 8 y -> is_uint 8 (x ^. y).
Proof.
  intros Hx Hy. apply is_uint_bits; [lia|apply Z.lxor_nonneg; unfold is_uint in *; lia|]. intros i Hi. by rewrite Z.lxor_spec, !(testbit_high 8) by (done || lia).
Qed.

Lemma lor8_uint x y : is_uint 8 x -> is_uint 8 y -> is_uint 8 (x |. y).
Proof.
  intros Hx Hy. apply is_uint_bits; [lia|apply Z.lor_nonneg; unfold is_uint in *; lia|]. intros i Hi. by rewrite Z.lor_spec, !(testbit_high 8) by (done || lia).
Qed.

Lemma lxor_zero x y : (x ^. y =? 0) = (x =? y).
Proof. apply eq_true_iff_eq. rewrite !Z.eqb_eq. apply Z.lxor_eq_0_iff. Qed.

Lemma ByteEq_val x y : is_uint 8 x -> is_uint 8 y -> ConstantTimeByteEq x y = one_if (x =? y).
Proof.
  intros Hx Hy. assert (Hu : is_uint 8 (x ^. y)) by (by apply lxor8_uint). unfold ConstantTimeByteEq. rewrite (wrap_small 32 (x ^. y)) by (unfold is_uint in *; lia). destruct (is_zero 32 (x ^. y)) as [E|E]; [lia|unfold is_uint in *; lia| |unfold is_uint in *; lia].
  change (32 - 1) with 31 in E. by rewrite E, lxor_zero.
Qed.

Lemma Eq_val x y : is_sint 32 x -> is_sint 32 y -> ConstantTimeEq x y = one_if (x =? y).
Proof.
  intros Hx Hy. unfold ConstantTimeEq. pose proof (wrap_is_uint 32 (x ^. y) ltac:(lia)) as Hu. destruct (is_zero 64 (u32 (x ^. y))) as [E|E]; [lia|unfold is_uint in *; lia| |unfold is_uint in *; lia]. change (64 - 1) with 63 in E. rewrite E. f_equal.
  apply eq_true_iff_eq. rewrite !Z.eqb_eq. split; [|intros ->; by rewrite Z.lxor_nilpotent]. intros H0. assert (Hb : forall i, 0 <= i < 32 -> Z.testbit x i = Z.testbit y i).
  { intros i Hi. assert (Z.testbit (u32 (x ^. y)) i = false) as Ht by (rewrite H0; apply Z.testbit_0_l). unfold wrap in Ht. rewrite Z.mod_pow2_bits_low, Z.lxor_spec in Ht by lia. by destruct (Z.testbit x i), (Z.testbit y i). }
  assert (Em : x mod 2 ^ 32 = y mod 2 ^ 32). { apply Z.bits_inj'. intros i Hi. destruct (Z.lt_ge_cases i 32); [rewrite !Z.mod_pow2_bits_low by lia; apply Hb; lia|by rewrite !Z.mod_pow2_bits_high by lia]. }
  rewrite <- (swrap_small 32 x Hx), <- (swrap_small 32 y Hy). unfold swrap. by rewrite (Z.add_mod x), (Z.add_mod y), Em by done.
Qed.

Lemma Select_val x y : ConstantTimeSelect 1 x y = x /\ ConstantTimeSelect 0 x y = y.
Proof.
  unfold ConstantTimeSelect. change (i64 (1 - 1)) with 0. change (i64 (0 - 1)) with (-1). change (Z.lnot 0) with (-1). change (Z.lnot (-1)) with 0. rewrite !Z.land_m1_l, !Z.land_0_l, Z.lor_0_r, Z.lor_0_l. done.
Qed.

Lemma LessOrEq_val x y : 0 <= x < 2 ^ 31 -> 0 <= y < 2 ^ 31 -> ConstantTimeLessOrEq x y = one_if (x <=? y).
Proof.
  intros Hx Hy. unfold ConstantTimeLessOrEq. change (2 ^ 31) with 2147483648 in *. rewrite (swrap_small 32 x), (swrap_small 32 y), (swrap_small 32 (x - y)), (swrap_small 32 (x - y - 1)) by (unfold is_sint; change (2 ^ (32 - 1)) with 2147483648; lia). rewrite Z.shiftr_div_pow2 by lia. change (2 ^ 31) with 2147483648. destruct (Z.leb_spec x y).
  - rewrite <- (Z.div_unique (x - y - 1) 2147483648 (-1) (x - y - 1 + 2147483648)) by lia. done.
  - rewrite Z.div_small by lia. done.
Qed.

Lemma compare_loop x y : bytes_ok x -> bytes_ok y -> length x = length y ->
  exists v, for_up 0 (zlen x) (λ i v, xi ← index x i; yi ← index y i; Val (v |. (xi ^. yi))) 0 = Val v /\ is_uint 8 v /\ (v = 0 <-> x = y).
Proof.
  intros Hx Hy Hl. destruct (for_up_inv (λ i v, 0 <= i /\ is_uint 8 v /\ (v = 0 <-> take (Z.to_nat i) x = take (Z.to_nat i) y)) 0 (zlen x) (λ i v, xi ← index x i; yi ← index y i; Val (v |. (xi ^. yi))) 0) as (v & E & _ & Hv & He); [lia|done| |].
  - intros i v Hi (_ & Hv & He). destruct (lookup_lt_is_Some_2 x (Z.to_nat i)) as [xi Exi]; [lia|]. destruct (lookup_lt_is_Some_2 y (Z.to_nat i)) as [yi Eyi]; [lia|]. rewrite (index_Val x i xi), (index_Val y i yi) by (done || lia). cbn [mbind outcome_bind]. eexists. split; [reflexivity|].
    pose proof (Forall_lookup_1 _ _ _ _ Hx Exi) as Hbx. pose proof (Forall_lookup_1 _ _ _ _ Hy Eyi) as Hby. pose proof (lxor8_uint xi yi Hbx Hby) as Hxy. split; [lia|]. split.
    + by apply lor8_uint.
    + replace (Z.to_nat (i + 1)) with (S (Z.to_nat i)) by lia. rewrite (take_S_r x _ xi Exi), (take_S_r y _ yi Eyi), Z.lor_eq_0_iff, Z.lxor_eq_0_iff, He. split; [by intros [-> ->]|]. intros Ea. apply app_inj_tail in Ea as [Ea Eb]. done.
  - exists v. split; [done|]. split; [done|]. rewrite He, !take_ge by lia. done.
Qed.

Lemma Compare_val x y : bytes_ok x -> bytes_ok y -> ConstantTimeCompare x y = Val (one_if (bool_decide (x = y))).
Proof.
  intros Hx Hy. unfold ConstantTimeCompare. destruct (Z.eqb_spec (zlen x) (zlen y)) as [El|El]; cbn [negb].
  - destruct (compare_loop x y Hx Hy ltac:(lia)) as (v & -> & Hv & He). cbn [mbind outcome_bind]. rewrite ByteEq_val by done. f_equal. f_equal. apply eq_true_iff_eq. by rewrite Z.eqb_eq, bool_decide_eq_true.
  - rewrite bool_decide_eq_false_2; [done|]. intros ->. lia.
Qed.

Lemma Copy_val v x y : v = 0 \/ v = 1 -> bytes_ok x -> bytes_ok y -> length x = length y -> ConstantTimeCopy v x y = Val (if v =? 1 then y else x).
Proof.
  intros Hv Hx Hy Hl. unfold ConstantTimeCopy. rewrite Hl, Z.eqb_refl. cbn [negb]. set (r := if v =? 1 then y else x). set (body := λ i x, _). destruct (for_up_inv (λ i x', 0 <= i /\ length x' = length x /\ take (Z.to_nat i) x' = take (Z.to_nat i) r /\ drop (Z.to_nat i) x' = drop (Z.to_nat i) x) 0 (zlen y) body x) as (x' & E & _ & Hl' & Ht & _); [lia|done| |].
  - intros i x' Hi (_ & Hl' & Ht & Hd). destruct (lookup_lt_is_Some_2 x (Z.to_nat i)) as [xi Exi]; [lia|]. destruct (lookup_lt_is_Some_2 y (Z.to_nat i)) as [yi Eyi]; [lia|]. assert (Exi' : x' !! Z.to_nat i = Some xi) by (rewrite <- (Nat.add_0_r (Z.to_nat i)), <- lookup_drop, Hd, lookup_drop, Nat.add_0_r; done).
    unfold body. rewrite (index_Val x' i xi), (index_Val y i yi) by (done || lia). cbn [mbind outcome_bind]. rewrite store_lt by lia. eexists. split; [reflexivity|]. split; [lia|]. split; [by rewrite length_insert|]. pose proof (Forall_lookup_1 _ _ _ _ Hx Exi) as Hbx. pose proof (Forall_lookup_1 _ _ _ _ Hy Eyi) as Hby.
    assert (Ev : (xi &. u8 (v - 1)) |. (yi &. u8 (Z.lnot (v - 1))) = if v =? 1 then yi else xi).
    { assert (Em : forall b, is_uint 8 b -> b &. 255 = b) by (intros b Hb; change 255 with (Z.ones 8); rewrite Z.land_ones by lia; by apply Z.mod_small). destruct Hv as [-> | ->]; cbn [Z.sub Z.lnot Z.eqb].
      - change (u8 (0 - 1)) with 255. change (u8 _) with 0. by rewrite Em, Z.land_0_r, Z.lor_0_r.
      - change (u8 (1 - 1)) with 0. change (u8 _) with 255. by rewrite Em, Z.land_0_r, Z.lor_0_l. }
    rewrite Ev. replace (Z.to_nat (i + 1)) with (S (Z.to_nat i)) by lia. split; [|rewrite drop_insert_lt by lia].
    + assert (Er : r !! Z.to_nat i = Some (if v =? 1 then yi else xi)) by (unfold r; by destruct (v =? 1)). rewrite (take_S_r r _ _ Er). erewrite take_S_r by (apply list_lookup_insert_eq; lia). by rewrite take_insert_ge, Ht by lia.
    + replace (S (Z.to_nat i)) with (Z.to_nat i + 1)%nat by lia. rewrite <- !drop_drop. by rewrite Hd.
  - rewrite E. f_equal. rewrite !take_ge in Ht; [done|unfold r; destruct (v =? 1); lia|lia].
Qed.

(** C29. The functions that work in constant time compute what their names say: Compare, ByteEq and Eq tell equality, Select and Copy choose by a flag 0 or 1, LessOrEq compares numbers below 2^31; Copy panics on slices of different lengths, Compare returns 0 for them. *)
Theorem constant_time_functions :
  (forall x y, bytes_ok x -> bytes_ok y -> ConstantTimeCompare x y = Val (one_if (bool_decide (x = y))))
  /\ (forall x y, is_uint 8 x -> is_uint 8 y -> ConstantTimeByteEq x y = one_if (x =? y))
  /\ (forall x y, is_sint 32 x -> is_sint 32 y -> ConstantTimeEq x y = one_if (x =? y))
  /\ (forall x y, ConstantTimeSelect 1 x y = x /\ ConstantTimeSelect 0 x y = y)
  /\ (forall x y, 0 <= x < 2 ^ 31 -> 0 <= y < 2 ^ 31 -> ConstantTimeLessOrEq x y = one_if (x <=? y))
  /\ (forall (v : Z) x y, v = 0 \/ v = 1 -> bytes_ok x -> bytes_ok y ->
        ConstantTimeCopy v x y = if bool_decide (length x = length y) then Val (if v =? 1 then y else x) else Panic Explicit).
Proof.
  split_and!; [exact Compare_val|exact ByteEq_val|exact Eq_val|exact Select_val|exact LessOrEq_val|]. intros v x y Hv Hx Hy. case_bool_decide; [by apply Copy_val|]. unfold ConstantTimeCopy. destruct (Z.eqb_spec (zlen x) (zlen y)); [lia|done].
Qed.
