(* ===== verification/Hmac.v ===== *)
(** * crypto/hmac

    The keyed-hash message authentication code: src/Source/Gold/crypto/hmac/hmac.go, over any hash of the interface; its
    theorems are proved against the promise of a digest ([MessageHash] of file Digest) only. *)

From S2P Require Import Prelude Hash Digest Subtle.

Local Open Scope go_scope.

Record hmac (D : Type) : Type := Hmac { size : Z; blocksize : Z; opad : list Z; ipad : list Z; outer : D; inner : D }.
Arguments Hmac {D}.
Arguments size {D}.
Arguments blocksize {D}.
Arguments opad {D}.
Arguments ipad {D}.
Arguments outer {D}.
Arguments inner {D}.

Section Operations.
Context {D : Type} `{Hash D}.

(** The receiver's outer hash is left with what was written to it. *)
Definition Sum (hm : hmac D) (in_ : list Z) : outcome (hmac D * list Z) :=
  let origLen := zlen in_ in
  in_ ← Hash.Sum (inner hm) in_;
  let outer' := Hash.Reset (outer hm) in
  '(outer', _) ← Hash.Write outer' (opad hm);
  s ← slice in_ origLen (zlen in_);
  '(outer', _) ← Hash.Write outer' s;
  s ← slice in_ 0 origLen;
  r ← Hash.Sum outer' s;
  Val (Hmac (size hm) (blocksize hm) (opad hm) (ipad hm) outer' (inner hm), r).

Definition Write (hm : hmac D) (p : list Z) : outcome (hmac D * Z) :=
  '(inner', n) ← Hash.Write (inner hm) p; Val (Hmac (size hm) (blocksize hm) (opad hm) (ipad hm) (outer hm) inner', n).

Definition Size (hm : hmac D) : Z := size hm.
Definition BlockSize (hm : hmac D) : Z := blocksize hm.

Definition Reset (hm : hmac D) : outcome (hmac D) :=
  let inner' := Hash.Reset (inner hm) in
  '(inner', _) ← Hash.Write inner' (ipad hm);
  Val (Hmac (size hm) (blocksize hm) (opad hm) (ipad hm) (outer hm) inner').

(** [for i := range pad { pad[i] ^= b }] *)
Definition xor_all (pad : list Z) (b : Z) : outcome (list Z) := for_up 0 (zlen pad) (λ i pad, v ← index pad i; store pad i (v ^. b)) pad.

(** [h] is the function that makes a hash. *)
Definition New (h : unit -> D) (key : list Z) : outcome (hmac D) :=
  let outer' := h tt in
  let inner' := h tt in
  let size' := Hash.Size inner' in
  let blocksize' := Hash.BlockSize inner' in
  let ipad' := make 0 blocksize' in
  let opad' := make 0 blocksize' in
  '(outer', key) ← (if blocksize' <? zlen key then '(outer', _) ← Hash.Write outer' key; key ← Hash.Sum outer' []; Val (outer', key) else Val (outer', key));
  '(ipad', _) ← copy_at ipad' 0 key;
  '(opad', _) ← copy_at opad' 0 key;
  ipad' ← xor_all ipad' 0x36;
  opad' ← xor_all opad' 0x5c;
  '(inner', _) ← Hash.Write inner' ipad';
  Val (Hmac size' blocksize' opad' ipad' outer' inner').
End Operations.

Definition Equal (mac1 mac2 : list Z) : outcome bool := r ← ConstantTimeCompare mac1 mac2; Val (r =? 1).

(** ** FIPS 198-1 *)

Section Standard.
Context (value : list Z -> list Z) (B : Z).

(** Steps 1 to 3: the key as a block, hashed first if it is longer, with zeroes appended. *)
Definition K0 (key : list Z) : list Z := let k := if B <? zlen key then value key else key in take (Z.to_nat B) (k ++ make 0 (B - zlen k)).

(** [H((K0 xor opad) || H((K0 xor ipad) || text))] *)
Definition hmac_function (key text : list Z) : list Z :=
  value (map (λ b, b ^. 0x5c) (K0 key) ++ value (map (λ b, b ^. 0x36) (K0 key) ++ text)).
End Standard.

Lemma lookup_map_ {A C} (f : A -> C) l i : map f l !! i = f <$> l !! i.
Proof. apply list_lookup_fmap. Qed.

Lemma xor_all_val pad b : xor_all pad b = Val (map (λ v, v ^. b) pad).
Proof.
  unfold xor_all. set (body := λ i pad, _). destruct (for_up_inv (λ i p, 0 <= i /\ length p = length pad /\ take (Z.to_nat i) p = take (Z.to_nat i) (map (λ v, v ^. b) pad) /\ drop (Z.to_nat i) p = drop (Z.to_nat i) pad) 0 (zlen pad) body pad) as (p & E & _ & Hl & Ht & _); [lia|done| |].
  - intros i p Hi (_ & Hl & Ht & Hd). destruct (lookup_lt_is_Some_2 pad (Z.to_nat i)) as [v Ev]; [lia|]. assert (Ev' : p !! Z.to_nat i = Some v) by (rewrite <- (Nat.add_0_r (Z.to_nat i)), <- lookup_drop, Hd, lookup_drop, Nat.add_0_r; done).
    unfold body. rewrite (index_Val p i v) by (done || lia). cbn [mbind outcome_bind]. rewrite store_lt by lia. eexists. split; [reflexivity|]. split; [lia|]. split; [by rewrite length_insert|]. replace (Z.to_nat (i + 1)) with (S (Z.to_nat i)) by lia. split.
    + rewrite (take_S_r (map _ pad) _ (v ^. b)) by (by rewrite lookup_map_, Ev). erewrite take_S_r by (apply list_lookup_insert_eq; lia). by rewrite take_insert_ge, Ht by lia.
    + rewrite drop_insert_lt by lia. replace (S (Z.to_nat i)) with (Z.to_nat i + 1)%nat by lia. rewrite <- !drop_drop. by rewrite Hd.
  - rewrite E. f_equal. by rewrite !take_ge in Ht by (rewrite ?length_map; lia).
Qed.

Lemma copy_zero B key : 0 <= B -> exists n, copy_at (make 0 B) 0 key = Val (take (Z.to_nat B) (key ++ make 0 (B - zlen key)), n).
Proof.
  intros HB. pose proof (length_make 0 B HB) as Hl. rewrite copy_at_val by lia. eexists. f_equal. f_equal. rewrite Hl, Z.sub_0_r. change (Z.to_nat 0) with O. rewrite take_0. cbn [app Nat.add]. rewrite (take_app key). apply (f_equal (app _)). unfold make. rewrite drop_replicate, take_replicate. f_equal. lia.
Qed.

Lemma xor_uint8 (v b : Z) : is_uint 8 v -> is_uint 8 b -> is_uint 8 (v ^. b).
Proof. apply lxor8_uint. Qed.

Section Promise.
Context {D : Type} {HD : Hash D} {fresh : D} {value : list Z -> list Z} {M : MessageHash D fresh value}.
Implicit Types (hm : hmac D) (key text : list Z).
Abbreviation B := (Hash.BlockSize fresh).
Context (HB : 0 <= B).

Definition ipad_of key : list Z := map (λ b, b ^. 0x36) (K0 value B key).
Definition opad_of key : list Z := map (λ b, b ^. 0x5c) (K0 value B key).

(** [hm] has been made with [key], and [text] has been written to it. *)
Definition mac_of hm key text : Prop :=
  bytes_ok key /\ bytes_ok text /\ opad hm = opad_of key /\ ipad hm = ipad_of key /\ size hm = Hash.Size fresh /\ blocksize hm = B
  /\ has_message (inner hm) (ipad_of key ++ text) /\ exists m, has_message (outer hm) m.

Lemma K0_ok key : bytes_ok key -> bytes_ok (K0 value B key).
Proof.
  intros Hk. unfold K0. apply Forall_take, Forall_app. split; [|apply Forall_replicate; done]. destruct (B <? zlen key); [by apply value_bytes|done].
Qed.

Lemma pads_ok key : bytes_ok key -> bytes_ok (ipad_of key) /\ bytes_ok (opad_of key).
Proof.
  intros Hk. split; (apply Forall_fmap, (Forall_impl (is_uint 8)); [by apply K0_ok|]; intros b Hb; by apply xor_uint8).
Qed.

Lemma New_mac key : bytes_ok key -> exists hm, New (λ _, fresh) key = Val hm /\ mac_of hm key [].
Proof.
  intros Hk. destruct (pads_ok key Hk) as [Hi Ho]. unfold New. pose proof fresh_message as Hf.
  assert (Eo : exists o m, (if B <? zlen key then '(outer', _) ← Hash.Write fresh key; key ← Hash.Sum outer' []; Val (outer', key) else Val (fresh, key)) = Val (o, if B <? zlen key then value key else key) /\ has_message o m).
  { destruct (B <? zlen key); [|by exists fresh, []]. destruct (Write_message fresh [] key Hf Hk) as (o & -> & H1). cbn [mbind outcome_bind]. rewrite (Sum_message o _ [] H1). cbn [mbind outcome_bind app]. by exists o, key. }
  destruct Eo as (o & m & -> & Hm). cbn [mbind outcome_bind]. set (k := if B <? zlen key then value key else key). destruct (copy_zero B k HB) as (n & Ec). rewrite Ec. cbn [mbind outcome_bind]. rewrite !xor_all_val. cbn [mbind outcome_bind].
  change (take (Z.to_nat B) (k ++ make 0 (B - zlen k))) with (K0 value B key). change (map (λ v, v ^. 0x36) (K0 value B key)) with (ipad_of key). change (map (λ v, v ^. 0x5c) (K0 value B key)) with (opad_of key). destruct (Write_message fresh [] _ Hf Hi) as (i & -> & H1). cbn [mbind outcome_bind]. eexists. split; [reflexivity|]. split_and!; try done. - by rewrite app_nil_r. - by exists m.
Qed.

Lemma Write_mac hm key text p : mac_of hm key text -> bytes_ok p -> exists hm', Write hm p = Val (hm', zlen p) /\ mac_of hm' key (text ++ p).
Proof.
  intros (Hk & Ht & Eo & Ei & Es & Eb & Hi & Hm) Hp. unfold Write. destruct (Write_message (inner hm) _ p Hi Hp) as (i & -> & H1). cbn [mbind outcome_bind]. eexists. split; [reflexivity|]. split_and!; try done; [by apply Forall_app|by rewrite app_assoc].
Qed.

Lemma Sum_mac hm key text b : mac_of hm key text -> exists hm', Sum hm b = Val (hm', b ++ hmac_function value B key text) /\ mac_of hm' key text.
Proof.
  intros (Hk & Ht & Eo & Ei & Es & Eb & Hi & m & Hm). destruct (pads_ok key Hk) as [Hip Hop]. unfold Sum. rewrite (Sum_message _ _ b Hi). cbn [mbind outcome_bind]. rewrite Eo. pose proof (Reset_message _ _ Hm) as H0. destruct (Write_message _ [] _ H0 Hop) as (o1 & -> & H1). cbn [mbind outcome_bind].
  rewrite slice_from by (rewrite zlen_app; lia). cbn [mbind outcome_bind]. rewrite Nat2Z.id, drop_app_length. destruct (Write_message o1 _ (value (ipad_of key ++ text)) H1) as (o2 & -> & H2); [apply value_bytes; by apply Forall_app|]. cbn [mbind outcome_bind].
  rewrite slice_take by (rewrite zlen_app; lia). cbn [mbind outcome_bind]. rewrite Nat2Z.id, take_app_length, (Sum_message o2 _ b H2). cbn [mbind outcome_bind app]. eexists. split; [reflexivity|]. split_and!; try done. by eexists.
Qed.

Lemma Reset_mac hm key text : mac_of hm key text -> exists hm', Reset hm = Val hm' /\ mac_of hm' key [].
Proof.
  intros (Hk & Ht & Eo & Ei & Es & Eb & Hi & Hm). destruct (pads_ok key Hk) as [Hip _]. unfold Reset. rewrite Ei. pose proof (Reset_message _ _ Hi) as H0. destruct (Write_message _ [] _ H0 Hip) as (i & -> & H1). cbn [mbind outcome_bind]. eexists. split; [reflexivity|]. split_and!; try done. by rewrite app_nil_r.
Qed.

(** A sequence of writes. *)
Fixpoint Write_chunks hm (chunks : list (list Z)) : outcome (hmac D) :=
  match chunks with [] => Val hm | p :: chunks => '(hm, _) ← Write hm p; Write_chunks hm chunks end.

Lemma Write_chunks_mac hm key text chunks : mac_of hm key text -> Forall bytes_ok chunks -> exists hm', Write_chunks hm chunks = Val hm' /\ mac_of hm' key (text ++ concat chunks).
Proof.
  intros Hm Hc. revert hm text Hm. induction Hc as [|p chunks Hp _ IH]; intros hm text Hm; cbn [Write_chunks concat]; [exists hm; by rewrite app_nil_r|].
  destruct (Write_mac hm key text p Hm Hp) as (h1 & -> & H1). cbn [mbind outcome_bind]. destruct (IH h1 _ H1) as (h2 & -> & H2). exists h2. by rewrite app_assoc.
Qed.

Lemma hmac_value_ok key text : bytes_ok key -> bytes_ok text -> bytes_ok (hmac_function value B key text) /\ zlen (hmac_function value B key text) = Hash.Size fresh.
Proof.
  intros Hk Ht. destruct (pads_ok key Hk) as [Hip Hop]. assert (H : bytes_ok (opad_of key ++ value (ipad_of key ++ text))) by (apply Forall_app; split; [done|]; apply value_bytes; by apply Forall_app).
  split; [exact (value_bytes _ H)|exact (Size_message fresh [] _ fresh_message H)].
Qed.
End Promise.

Lemma Equal_val mac1 mac2 : bytes_ok mac1 -> bytes_ok mac2 -> Equal mac1 mac2 = Val (bool_decide (mac1 = mac2)).
Proof. intros H1 H2. unfold Equal. rewrite Compare_val by done. cbn [mbind outcome_bind]. by case_bool_decide. Qed.
