(* ===== verification/Crypto.v ===== *)
(** * crypto

    The registry of hash functions (src/Source/Gold/crypto/crypto.go) with the packages that register themselves, and
    the theorems about all digests at once: the functions of MD5, SHA-1 and SHA-2, their constants, HMAC over each. *)

From S2P Require Import Prelude Binary Hash Digest Sha2 Md5 Sha1 Sha256 Sha512 Subtle Hmac.

Local Open Scope go_scope.

Definition MD4 : Z := 1.
Definition MD5 : Z := 2.
Definition SHA1 : Z := 3.
Definition SHA224 : Z := 4.
Definition SHA256 : Z := 5.
Definition SHA384 : Z := 6.
Definition SHA512 : Z := 7.
Definition MD5SHA1 : Z := 8.
Definition RIPEMD160 : Z := 9.
Definition SHA3_224 : Z := 10.
Definition SHA3_256 : Z := 11.
Definition SHA3_384 : Z := 12.
Definition SHA3_512 : Z := 13.
Definition SHA512_224 : Z := 14.
Definition SHA512_256 : Z := 15.
Definition BLAKE2s_256 : Z := 16.
Definition BLAKE2b_256 : Z := 17.
Definition BLAKE2b_384 : Z := 18.
Definition BLAKE2b_512 : Z := 19.
Definition maxHash : Z := 20.

(** A slice literal with keys: what has no key is zero. *)
Definition digestSizes : list Z :=
  foldl (λ l '(h, n), <[Z.to_nat h := n]> l) (make 0 20)
    [(MD4, 16); (MD5, 16); (SHA1, 20); (SHA224, 28); (SHA256, 32); (SHA384, 48); (SHA512, 64); (SHA512_224, 28); (SHA512_256, 32);
     (SHA3_224, 28); (SHA3_256, 32); (SHA3_384, 48); (SHA3_512, 64); (MD5SHA1, 36); (RIPEMD160, 20);
     (BLAKE2s_256, 32); (BLAKE2b_256, 32); (BLAKE2b_384, 48); (BLAKE2b_512, 64)].

Definition HashFunc (h : Z) : Z := h.
Definition Size (h : Z) : outcome Z := if (0 <? h) && (h <? maxHash) then index digestSizes h else Panic Explicit.

(** A [hash.Hash] with its dynamic type; a [func() hash.Hash] is what it makes. *)
Record hasher : Type := Hasher { state : Type; methods : Hash.Hash state; made : state }.


(** The variable [hashes]. *)
Abbreviation registry := (list (option hasher)).
Definition hashes : registry := make None maxHash.

Definition New (hashes : registry) (h : Z) : outcome hasher :=
  if (0 <? h) && (h <? maxHash) then
    f ← index hashes h;
    match f with Some f => Val f | None => Panic Explicit end
  else Panic Explicit.

Definition Available (hashes : registry) (h : Z) : outcome bool :=
  if h <? maxHash then f ← index hashes h; Val (match f with Some _ => true | None => false end) else Val false.

Definition RegisterHash (hashes : registry) (h : Z) (f : hasher) : outcome registry :=
  if maxHash <=? h then Panic Explicit else store hashes h (Some f).

(** The calls of RegisterHash in the init functions of the packages. *)
Definition md5_init : list (Z * hasher) := [(MD5, Hasher Md5.digest md5_Hash Md5.New)].
Definition sha1_init : list (Z * hasher) := [(SHA1, Hasher Sha1.digest sha1_Hash Sha1.New)].
Definition sha256_init : list (Z * hasher) := [(SHA224, Hasher Sha256.digest sha256_Hash Sha256.New224); (SHA256, Hasher Sha256.digest sha256_Hash Sha256.New)].
Definition sha512_init : list (Z * hasher) :=
  [(SHA384, Hasher Sha512.digest sha512_Hash Sha512.New384); (SHA512, Hasher Sha512.digest sha512_Hash Sha512.New);
   (SHA512_224, Hasher Sha512.digest sha512_Hash Sha512.New512_224); (SHA512_256, Hasher Sha512.digest sha512_Hash Sha512.New512_256)].

(** The initialisation of a program that links packages in some order. *)
Fixpoint register_all (calls : list (Z * hasher)) (hashes : registry) : outcome registry :=
  match calls with [] => Val hashes | (h, f) :: calls => hashes ← RegisterHash hashes h f; register_all calls hashes end.
Definition initialise (packages : list (list (Z * hasher))) : outcome registry := register_all (concat packages) hashes.

(** ** The functions *)

(** A hash function of the library: its number, its implementation, the function on messages it stands for, and the promise. *)
Record algorithm : Type := Algorithm {
  number : Z;
  implementation : hasher;
  function_of : list Z -> list Z;
  promise : @MessageHash (state implementation) (methods implementation) (made implementation) function_of
}.

Definition md5_algorithm : algorithm := Algorithm MD5 (Hasher Md5.digest md5_Hash Md5.New) md5_function md5_message.
Definition sha1_algorithm : algorithm := Algorithm SHA1 (Hasher Sha1.digest sha1_Hash Sha1.New) sha1_function sha1_message.
Definition sha224_algorithm : algorithm := Algorithm SHA224 (Hasher Sha256.digest sha256_Hash Sha256.New224) (sha256_function true) (sha256_message true).
Definition sha256_algorithm : algorithm := Algorithm SHA256 (Hasher Sha256.digest sha256_Hash Sha256.New) (sha256_function false) (sha256_message false).
Definition sha384_algorithm : algorithm := Algorithm SHA384 (Hasher Sha512.digest sha512_Hash Sha512.New384) (sha512_function Sha512.SHA384) (sha512_message K384).
Definition sha512_algorithm : algorithm := Algorithm SHA512 (Hasher Sha512.digest sha512_Hash Sha512.New) (sha512_function Sha512.SHA512) (sha512_message K512).
Definition sha512_224_algorithm : algorithm := Algorithm SHA512_224 (Hasher Sha512.digest sha512_Hash Sha512.New512_224) (sha512_function Sha512.SHA512_224) (sha512_message K512_224).
Definition sha512_256_algorithm : algorithm := Algorithm SHA512_256 (Hasher Sha512.digest sha512_Hash Sha512.New512_256) (sha512_function Sha512.SHA512_256) (sha512_message K512_256).
Definition algorithms : list algorithm :=
  [md5_algorithm; sha1_algorithm; sha224_algorithm; sha256_algorithm; sha384_algorithm; sha512_algorithm; sha512_224_algorithm; sha512_256_algorithm].

(** The methods of an implementation. *)
Section Methods.
Context (a : algorithm).
Abbreviation D := (state (implementation a)).
#[local] Existing Instance methods.
Definition fresh_ : D := made (implementation a).
Definition Write_all_ : D -> list (list Z) -> outcome (D * Z) := @Write_all D (methods (implementation a)).
Definition Sum_of : D -> list Z -> outcome (list Z) := @Hash.Sum D (methods (implementation a)).
Definition MarshalBinary_ : D -> outcome (list Z) := @Hash.MarshalBinary D (methods (implementation a)).
Definition UnmarshalBinary_ : D -> list Z -> outcome (D * option unmarshalError) := @Hash.UnmarshalBinary D (methods (implementation a)).
Definition Reset_ : D -> D := @Hash.Reset D (methods (implementation a)).
Definition block_size : Z := @Hash.BlockSize D (methods (implementation a)) fresh_.
Definition hmac_New (key : list Z) : outcome (Hmac.hmac D) := @Hmac.New D (methods (implementation a)) (λ _, fresh_) key.
Definition hmac_Write_all : Hmac.hmac D -> list (list Z) -> outcome (Hmac.hmac D) := @Write_chunks D (methods (implementation a)).
Definition hmac_Sum : Hmac.hmac D -> list Z -> outcome (Hmac.hmac D * list Z) := @Hmac.Sum D (methods (implementation a)).
Definition hmac_Reset : Hmac.hmac D -> outcome (Hmac.hmac D) := @Hmac.Reset D (methods (implementation a)).
End Methods.

(** A MAC of one text; the example is RFC 2202, test case 2. *)
Definition hmac_of (a : algorithm) (key text : list Z) : outcome (list Z) :=
  hm ← hmac_New a key; hm ← hmac_Write_all a hm [text]; '(_, s) ← hmac_Sum a hm []; Val s.

Example hmac_vector : hmac_of md5_algorithm (str "Jefe") (str "what do ya want for nothing?") = Val (order_bytes true 16 0x750c783e6ab0b503eaa86e310a5db738).
Proof. vm_compute. reflexivity. Qed.

(** ** Registration *)

Lemma RegisterHash_val (hs : registry) h f : length hs = Z.to_nat maxHash -> 0 <= h < maxHash -> RegisterHash hs h f = Val (<[Z.to_nat h := Some f]> hs).
Proof. intros Hl Hh. unfold RegisterHash. destruct (Z.leb_spec maxHash h); [lia|]. rewrite store_lt; [done|]. unfold maxHash in *. lia. Qed.

(** What has been registered under [h]. *)
Definition registered (calls : list (Z * hasher)) (h : Z) : option hasher := snd <$> find (λ c, fst c =? h) calls.

Lemma register_all_val calls (hs : registry) : length hs = Z.to_nat maxHash -> NoDup (map fst calls) -> Forall (λ c, 0 <= fst c < maxHash) calls ->
  exists hs', register_all calls hs = Val hs' /\ length hs' = Z.to_nat maxHash /\
    forall h, 0 <= h < maxHash -> index hs' h = match registered calls h with Some f => Val (Some f) | None => index hs h end.
Proof.
  revert hs. induction calls as [|[h0 f0] calls IH]; intros hs Hl Hnd Hr; [by exists hs|]. cbn [map fst] in Hnd. apply NoDup_cons in Hnd as [Hni Hnd]. apply Forall_cons in Hr as [Hr0 Hr]. cbn [fst] in Hr0. cbn [register_all]. rewrite RegisterHash_val by done. cbn [mbind outcome_bind].
  destruct (IH (<[Z.to_nat h0 := Some f0]> hs)) as (hs' & E & Hl' & Hx); [by rewrite length_insert|done|done|]. exists hs'. split; [done|]. split; [done|]. intros h Hh. rewrite Hx by done. unfold registered. cbn [find fst]. destruct (Z.eqb_spec h0 h) as [->|Hne].
  - assert (En : find (λ c : Z * hasher, fst c =? h) calls = None). { destruct (find _ calls) as [c|] eqn:Ef; [|done]. apply find_some in Ef as [Hin He]. apply Z.eqb_eq in He. destruct Hni. rewrite <- He. apply list_elem_of_In, in_map. done. }
    rewrite En. cbn [fmap option_fmap option_map snd]. apply index_Val; [lia|]. apply list_lookup_insert_eq. unfold maxHash in *. lia.
  - destruct (snd <$> find _ calls); [done|]. unfold index. rewrite !decide_True by lia. by rewrite list_lookup_insert_ne by lia.
Qed.

Lemma find_perm calls calls' h : calls ≡ₚ calls' -> NoDup (map fst calls) -> registered calls h = registered calls' h.
Proof.
  intros Hp Hnd. unfold registered. assert (Hs : forall l : list (Z * hasher), NoDup (map fst l) -> forall f, snd <$> find (λ c, fst c =? h) l = Some f <-> (h, f) ∈ l).
  { intros l Hl f. induction l as [|[h1 f1] l IH]; [split; [done|by intros ?%not_elem_of_nil]|]. cbn [map fst find] in *. apply NoDup_cons in Hl as [Hni Hl]. rewrite elem_of_cons. destruct (Z.eqb_spec h1 h) as [->|Hne].
    - cbn [fmap option_fmap option_map snd]. split; [intros [= ->]; by left|]. intros [[= <-]|Hin]; [done|]. destruct Hni. apply list_elem_of_fmap. by exists (h, f).
    - rewrite IH by done. split; [by right|]. intros [[= E _]|Hin]; [by destruct Hne|done]. }
  assert (Hnd' : NoDup (map fst calls')) by (by rewrite <- Hp). destruct (snd <$> find _ calls) as [f|] eqn:E1.
  - symmetry. apply Hs; [done|]. apply Hs in E1; [|done]. by rewrite <- Hp.
  - destruct (snd <$> find _ calls') as [f|] eqn:E2; [|done]. apply Hs in E2; [|done]. rewrite <- Hp in E2. apply Hs in E2; [|done]. congruence.
Qed.

Definition packages : list (list (Z * hasher)) := [md5_init; sha1_init; sha256_init; sha512_init].

Lemma calls_distinct : NoDup (map fst (concat packages)) /\ Forall (λ c, 0 <= fst c < maxHash) (concat packages).
Proof.
  split.
  - change (map fst (concat packages)) with [2; 3; 4; 5; 6; 7; 14; 15]. apply (bool_decide_unpack _). by vm_compute.
  - apply (Forall_impl (λ c, (0 <=? fst c) && (fst c <? maxHash) = true)); [repeat constructor|]. intros c H. apply andb_true_iff in H as [H1 H2]. lia.
Qed.

Lemma every_algorithm (P : algorithm -> Prop) : Forall P algorithms -> forall a, a ∈ algorithms -> P a.
Proof. by rewrite Forall_forall. Qed.

Lemma registered_algorithm a : a ∈ algorithms -> registered (concat packages) (number a) = Some (implementation a).
Proof. revert a. apply every_algorithm. unfold algorithms. repeat (apply Forall_cons; split; [reflexivity|]). by apply Forall_nil. Qed.

Lemma registered_other h : h ∉ map number algorithms -> registered (concat packages) h = None.
Proof.
  intros Hh. unfold registered. destruct (find _ _) as [c|] eqn:Ef; [|done]. apply find_some in Ef as [Hin He]. apply Z.eqb_eq in He. destruct Hh. rewrite <- He. change (map number algorithms) with (map (fst (B := hasher)) (concat packages)). apply list_elem_of_In, in_map. done.
Qed.

Lemma algorithm_size a : a ∈ algorithms -> Size (number a) = Val (@Hash.Size _ (methods (implementation a)) (fresh_ a)).
Proof. revert a. apply every_algorithm. unfold algorithms. repeat (apply Forall_cons; split; [vm_compute; reflexivity|]). by apply Forall_nil. Qed.

Lemma algorithm_block_size a : a ∈ algorithms -> 0 <= block_size a.
Proof. revert a. apply every_algorithm. unfold algorithms. repeat (apply Forall_cons; split; [by vm_compute|]). by apply Forall_nil. Qed.

Lemma algorithm_number a : a ∈ algorithms -> 0 < number a < maxHash.
Proof. revert a. apply every_algorithm. unfold algorithms. repeat (apply Forall_cons; split; [done|]). by apply Forall_nil. Qed.

Lemma index_hashes h : 0 <= h < maxHash -> index hashes h = Val None.
Proof. intros Hh. apply index_Val; [lia|]. unfold hashes, make. apply lookup_replicate_2. unfold maxHash in *. lia. Qed.

(** C28. In whatever order the packages with digests are initialised, crypto.Hash.New makes the digest of each of the eight functions, Available holds of it and Size is the length of its values; every other number is not available and New panics. *)
Theorem registry_complete (order : list (list (Z * hasher))) : order ≡ₚ packages ->
  exists hs, initialise order = Val hs
  /\ (forall a, a ∈ algorithms -> New hs (number a) = Val (implementation a) /\ Available hs (number a) = Val true
        /\ forall m, bytes_ok m -> Size (number a) = Val (zlen (function_of a m)))
  /\ (forall h, 0 <= h -> h ∉ map number algorithms -> New hs h = Panic Explicit /\ Available hs h = Val false).
Proof.
  intros Ho. assert (Hc : concat packages ≡ₚ concat order) by (by rewrite Ho). destruct calls_distinct as [Hnd Hr]. assert (Hnd' : NoDup (map fst (concat order))) by (by rewrite <- Hc). assert (Hr' : Forall (λ c, 0 <= fst c < maxHash) (concat order)) by (by rewrite <- Hc).
  destruct (register_all_val (concat order) hashes eq_refl Hnd' Hr') as (hs & E & _ & Hx). exists hs. split; [exact E|]. split.
  - intros a Ha. pose proof (algorithm_number a Ha) as Hn. assert (Ei : index hs (number a) = Val (Some (implementation a))) by (rewrite Hx, <- (find_perm _ _ _ Hc Hnd), registered_algorithm by (done || lia); done).
    unfold New, Available. destruct (Z.ltb_spec 0 (number a)), (Z.ltb_spec (number a) maxHash); try lia. cbn [andb]. rewrite Ei. split; [done|]. split; [done|]. intros m Hm. rewrite algorithm_size by done. f_equal. symmetry.
    apply (@Size_message _ _ _ _ (promise a) (fresh_ a) []); [apply (@fresh_message _ _ _ _ (promise a))|done].
  - intros h Hh Hna. unfold New, Available. destruct (Z.ltb_spec h maxHash); [|by destruct (0 <? h)]. assert (Ei : index hs h = Val None) by (rewrite Hx, <- (find_perm _ _ _ Hc Hnd), registered_other, index_hashes by (done || lia); done). rewrite Ei. by destruct (0 <? h).
Qed.
Lemma registry_complete_witness : exists hs, initialise [sha512_init; sha256_init; md5_init; sha1_init] = Val hs
  /\ (forall a, a ∈ algorithms -> New hs (number a) = Val (implementation a) /\ Available hs (number a) = Val true
        /\ forall m, bytes_ok m -> Size (number a) = Val (zlen (function_of a m)))
  /\ (forall h, 0 <= h -> h ∉ map number algorithms -> New hs h = Panic Explicit /\ Available hs h = Val false).
Proof.
  apply (registry_complete [sha512_init; sha256_init; md5_init; sha1_init]). apply (Permutation_trans (l' := [sha1_init; sha256_init; md5_init; sha512_init])).
  - apply (Permutation_trans (Permutation_cons_append [sha256_init; md5_init; sha1_init] sha512_init)). apply (Permutation_app_tail [sha512_init] (l := [sha256_init; md5_init; sha1_init]) (l' := [sha1_init; sha256_init; md5_init])). apply (Permutation_sym (Permutation_cons_append [sha256_init; md5_init] sha1_init)).
  - apply (Permutation_app_tail [sha512_init] (l := [sha1_init; sha256_init; md5_init]) (l' := [md5_init; sha1_init; sha256_init])). apply (Permutation_sym (Permutation_cons_append [sha1_init; sha256_init] md5_init)).
Defined.

(** ** All digests at once *)

(** [d] represents the message [m]. *)
Definition represents_ (a : algorithm) : state (implementation a) -> list Z -> Prop := @has_message _ _ _ _ (promise a).

Lemma fresh_represents a : represents_ a (fresh_ a) [].
Proof. apply (@fresh_message _ _ _ _ (promise a)). Qed.

Lemma write_all_represents a d m chunks : represents_ a d m -> Forall bytes_ok chunks -> exists d', Write_all_ a d chunks = Val (d', zlen (concat chunks)) /\ represents_ a d' (m ++ concat chunks).
Proof. apply (@Write_all_message _ _ _ _ (promise a)). Qed.

Lemma sum_represents a d m b : represents_ a d m -> Sum_of a d b = Val (b ++ function_of a m).
Proof. apply (@Sum_message _ _ _ _ (promise a)). Qed.

Lemma reset_represents a d m : represents_ a d m -> represents_ a (Reset_ a d) [].
Proof. apply (@Reset_message _ _ _ _ (promise a)). Qed.

(** C4. For each of the eight hash functions: however a message is cut into writes, Sum appends to its argument the function of the whole message, of the standard's definition; and after Reset the digest is as new.  The definitions of the standards have their own numbers: the amounts of rotation, the constants and the initial values
    (of SHA-224 as of the others) are written out again or computed, from the roots of primes for SHA-2 and from sines for MD5. *)
Theorem digest_refines (a : algorithm) (chunks chunks' : list (list Z)) (in_ : list Z) : a ∈ algorithms -> Forall bytes_ok chunks -> Forall bytes_ok chunks' ->
  exists d, Write_all_ a (fresh_ a) chunks = Val (d, zlen (concat chunks)) /\ Sum_of a d in_ = Val (in_ ++ function_of a (concat chunks))
  /\ exists d', Write_all_ a (Reset_ a d) chunks' = Val (d', zlen (concat chunks')) /\ Sum_of a d' in_ = Val (in_ ++ function_of a (concat chunks')).
Proof.
  intros _ Hc Hc'. destruct (write_all_represents a _ [] chunks (fresh_represents a) Hc) as (d & E & H). exists d. split; [done|]. split; [by apply sum_represents|].
  destruct (write_all_represents a _ [] chunks' (reset_represents a d _ H) Hc') as (d' & E' & H'). exists d'. split; [done|]. by apply sum_represents.
Qed.
Lemma digest_refines_witness : exists d, Write_all_ sha256_algorithm (fresh_ sha256_algorithm) [str "a"; str "bc"] = Val (d, zlen (concat [str "a"; str "bc"])) /\ Sum_of sha256_algorithm d [] = Val ([] ++ function_of sha256_algorithm (concat [str "a"; str "bc"]))
  /\ exists d', Write_all_ sha256_algorithm (Reset_ sha256_algorithm d) [make 97 200] = Val (d', zlen (concat [make 97 200])) /\ Sum_of sha256_algorithm d' [] = Val ([] ++ function_of sha256_algorithm (concat [make 97 200])).
Proof. apply (digest_refines sha256_algorithm [str "a"; str "bc"] [make 97 200] []); [by do 3 right; left|apply (bool_decide_unpack _); vm_compute; exact I..]. Defined.

(** C18. A digest that is marshalled in the middle of a message and unmarshalled into another digest of the same function goes on as if it had not been interrupted. *)
Theorem digest_checkpoint (a : algorithm) (before after other : list (list Z)) (in_ : list Z) : a ∈ algorithms -> Forall bytes_ok before -> Forall bytes_ok after -> Forall bytes_ok other ->
  exists d o b d' d'', Write_all_ a (fresh_ a) before = Val (d, zlen (concat before)) /\ MarshalBinary_ a d = Val b
  /\ Write_all_ a (fresh_ a) other = Val (o, zlen (concat other)) /\ UnmarshalBinary_ a o b = Val (d', None)
  /\ Write_all_ a d' after = Val (d'', zlen (concat after)) /\ Sum_of a d'' in_ = Val (in_ ++ function_of a (concat before ++ concat after)).
Proof.
  intros _ Hb Ha Ho. destruct (write_all_represents a _ [] before (fresh_represents a) Hb) as (d & E & H). destruct (write_all_represents a _ [] other (fresh_represents a) Ho) as (o & Eo & H'). destruct (@Marshal_message _ _ _ _ (promise a) d _ H) as (b & Em & Hu). destruct (Hu o _ H') as (d' & Eu & H1).
  destruct (write_all_represents a d' _ after H1 Ha) as (d'' & E2 & H2). exists d, o, b, d', d''. split_and!; try done. by apply sum_represents.
Qed.
Lemma digest_checkpoint_witness : exists d o b d' d'', Write_all_ md5_algorithm (fresh_ md5_algorithm) [make 97 70] = Val (d, zlen (concat [make 97 70])) /\ MarshalBinary_ md5_algorithm d = Val b
  /\ Write_all_ md5_algorithm (fresh_ md5_algorithm) [str "xyz"] = Val (o, zlen (concat [str "xyz"])) /\ UnmarshalBinary_ md5_algorithm o b = Val (d', None)
  /\ Write_all_ md5_algorithm d' [make 98 60] = Val (d'', zlen (concat [make 98 60])) /\ Sum_of md5_algorithm d'' [] = Val ([] ++ function_of md5_algorithm (concat [make 97 70] ++ concat [make 98 60])).
Proof. apply (digest_checkpoint md5_algorithm [make 97 70] [make 98 60] [str "xyz"] []); [by left|apply (bool_decide_unpack _); vm_compute; exact I..]. Defined.

(** C26. The functions that take the whole message at once give the same values. *)
Theorem one_shot_sums (data : list Z) : bytes_ok data ->
  Md5.Sum_ data = Val (md5_function data) /\ Sha1.Sum_ data = Val (sha1_function data)
  /\ Sum256 data = Val (sha256_function false data) /\ Sum224 data = Val (sha256_function true data)
  /\ Sum512 data = Val (sha512_function Sha512.SHA512 data) /\ Sum384 data = Val (sha512_function Sha512.SHA384 data)
  /\ Sum512_224 data = Val (sha512_function Sha512.SHA512_224 data) /\ Sum512_256 data = Val (sha512_function Sha512.SHA512_256 data).
Proof.
  intros Hd. split_and!; [by apply md5_Sum_|by apply sha1_Sum_|by apply Sum256_value|by apply Sum224_value|by apply Sum512_value|by apply (Sum_prefix_value Sha512.SHA384)|by apply (Sum_prefix_value Sha512.SHA512_224)|by apply (Sum_prefix_value Sha512.SHA512_256)].
Qed.
Lemma one_shot_sums_witness : Md5.Sum_ (str "abc") = Val (md5_function (str "abc")) /\ Sha1.Sum_ (str "abc") = Val (sha1_function (str "abc")) /\ Sum256 (str "abc") = Val (sha256_function false (str "abc")).
Proof. destruct (one_shot_sums (str "abc")) as (H1 & H2 & H3 & _); [apply (bool_decide_unpack _); vm_compute; exact I|]. by split_and!. Defined.

(** ** HMAC over each *)

(** C5. For each of the eight hash functions, a MAC made with any key (shorter than, as long as or longer than a block): however the message is cut into writes, Sum appends HMAC of the whole message as FIPS 198-1 defines it, again when it is called again, and after Reset for another message; Equal accepts exactly that value. *)
Theorem hmac_standard (a : algorithm) (key : list Z) (chunks chunks' : list (list Z)) (in_ mac : list Z) : a ∈ algorithms -> bytes_ok key -> Forall bytes_ok chunks -> Forall bytes_ok chunks' -> bytes_ok mac ->
  let expected text := hmac_function (function_of a) (block_size a) key text in
  exists h0 h1 h2 h3 h4 h5 h6, hmac_New a key = Val h0 /\ hmac_Write_all a h0 chunks = Val h1
  /\ hmac_Sum a h1 in_ = Val (h2, in_ ++ expected (concat chunks)) /\ hmac_Sum a h2 in_ = Val (h3, in_ ++ expected (concat chunks))
  /\ hmac_Reset a h3 = Val h4 /\ hmac_Write_all a h4 chunks' = Val h5 /\ hmac_Sum a h5 in_ = Val (h6, in_ ++ expected (concat chunks'))
  /\ Equal mac (expected (concat chunks)) = Val (bool_decide (mac = expected (concat chunks))).
Proof.
  intros Ha Hk Hc Hc' Hm expected. pose proof (algorithm_block_size a Ha) as HB. destruct (@New_mac _ _ _ _ (promise a) HB key Hk) as (h0 & E0 & H0). destruct (@Write_chunks_mac _ _ _ _ (promise a) h0 key [] chunks H0 Hc) as (h1 & E1 & H1).
  destruct (@Sum_mac _ _ _ _ (promise a) h1 key _ in_ H1) as (h2 & E2 & H2). destruct (@Sum_mac _ _ _ _ (promise a) h2 key _ in_ H2) as (h3 & E3 & H3). destruct (@Reset_mac _ _ _ _ (promise a) h3 key _ H3) as (h4 & E4 & H4).
  destruct (@Write_chunks_mac _ _ _ _ (promise a) h4 key [] chunks' H4 Hc') as (h5 & E5 & H5). destruct (@Sum_mac _ _ _ _ (promise a) h5 key _ in_ H5) as (h6 & E6 & H6). exists h0, h1, h2, h3, h4, h5, h6. split_and!; try done.
  apply Equal_val; [done|]. apply (@hmac_value_ok _ _ _ _ (promise a) key (concat chunks) Hk). by apply bytes_ok_concat.
Qed.
Lemma hmac_standard_witness : let expected text := hmac_function (function_of sha1_algorithm) (block_size sha1_algorithm) (make 107 80) text in
  exists h0 h1 h2 h3 h4 h5 h6, hmac_New sha1_algorithm (make 107 80) = Val h0 /\ hmac_Write_all sha1_algorithm h0 [str "ab"; str "c"] = Val h1
  /\ hmac_Sum sha1_algorithm h1 [] = Val (h2, [] ++ expected (concat [str "ab"; str "c"])) /\ hmac_Sum sha1_algorithm h2 [] = Val (h3, [] ++ expected (concat [str "ab"; str "c"]))
  /\ hmac_Reset sha1_algorithm h3 = Val h4 /\ hmac_Write_all sha1_algorithm h4 [] = Val h5 /\ hmac_Sum sha1_algorithm h5 [] = Val (h6, [] ++ expected (concat []))
  /\ Equal [0] (expected (concat [str "ab"; str "c"])) = Val (bool_decide ([0] = expected (concat [str "ab"; str "c"]))).
Proof. apply (hmac_standard sha1_algorithm (make 107 80) [str "ab"; str "c"] [] [] [0]); [by right; left|apply (bool_decide_unpack _); vm_compute; exact I..]. Defined.

(** ** SHA-1 in constant time *)

(** C19. The sum of SHA-1 in constant time is the sum of SHA-1. *)
Theorem ConstantTimeSum_is_Sum (chunks : list (list Z)) (in_ : list Z) : Forall bytes_ok chunks ->
  exists d, @Write_all _ sha1_Hash Sha1.New chunks = Val (d, zlen (concat chunks)) /\ ConstantTimeSum d in_ = Sha1.Sum d in_ /\ ConstantTimeSum d in_ = Val (in_ ++ sha1_function (concat chunks)).
Proof.
  intros Hc. destruct (@Write_all_message _ _ _ _ sha1_message _ [] chunks (@fresh_message _ _ _ _ sha1_message) Hc) as (d & E & H). exists d. split; [done|]. pose proof (ConstantTimeSum_spec d _ in_ H) as Es. split; [done|]. rewrite Es. by apply sha1_Sum.
Qed.
Lemma ConstantTimeSum_is_Sum_witness : exists d, @Write_all _ sha1_Hash Sha1.New [make 7 60; make 8 9] = Val (d, zlen (concat [make 7 60; make 8 9])) /\ ConstantTimeSum d [] = Sha1.Sum d [] /\ ConstantTimeSum d [] = Val ([] ++ sha1_function (concat [make 7 60; make 8 9])).
Proof. apply (ConstantTimeSum_is_Sum [make 7 60; make 8 9] []). apply (bool_decide_unpack _). vm_compute. exact I. Defined.
