(* ===== verification/Block.v ===== *)
(** * crypto/cipher: block ciphers

    The interface Block of src/Source/Gold/crypto/cipher/cipher.go over the heap of file Slices, as a typeclass of operations, and
    what the modes of operation rely on as a class of laws: encryption and decryption of a block are inverse functions,
    written to the first block of [dst], whatever way [dst] and [src] coincide or lie apart.  The file starts with the
    algebra of writing bytes into the heap that the modes use. *)

From S2P Require Import Prelude State Slices.

Local Open Scope go_scope.

Abbreviation bytes_heap := (heap Z).

(** ** The bytes of a slice *)

(** What a slice shows of its array. *)
Definition cont (h : bytes_heap) (s : Slice) : list Z := take (Z.to_nat (fCount s)) (drop (Z.to_nat (fStart s)) (array h (fArray s))).

(** The heap with the bytes [l] written from the start of [s]. *)
Definition blit (h : bytes_heap) (s : Slice) (l : list Z) : bytes_heap :=
  <[fArray s := take (Z.to_nat (fStart s)) (array h (fArray s)) ++ l ++ drop (Z.to_nat (fStart s) + length l) (array h (fArray s))]> h.

(** Code that computes with the bytes of a slice, and code that replaces them. *)
Definition view (s : Slice) : M bytes_heap (list Z) := h ← get; mret (cont h s).
Definition update (s : Slice) (f : list Z -> outcome (list Z)) : M bytes_heap unit := h ← get; l ← lift (f (cont h s)); put (blit h s l).

Definition good_heap (h : bytes_heap) : Prop := heap_ok h /\ Forall bytes_ok h.

(** [dst] and [src] hold [n] bytes each at the same place, or in places that do not meet. *)
Definition aligned (n : Z) (dst src : Slice) : Prop :=
  fArray dst = fArray src -> fStart dst = fStart src \/ fStart dst + n <= fStart src \/ fStart src + n <= fStart dst.

Ltac slices := repeat match goal with s := sub _ _ _ |- _ => subst s end; unfold aligned, wf, capacity, sub in *; cbn [fArray fStart fCount] in *; intros; lia.

Section Bytes.
Implicit Types (h : bytes_heap) (s t : Slice) (l : list Z) (a : nat) (i j n : Z).

Lemma heap_ext h h' : length h = length h' -> (forall a i, (a < length h)%nat -> cell h a i = cell h' a i) -> h = h'.
Proof.
  intros El E. apply list_eq_same_length with (length h); [done|done|]. intros a x y Ha Ex Ey. apply list_eq. intros k. specialize (E a (Z.of_nat k) Ha). rewrite !cell_lookup, Nat2Z.id in E by lia. unfold array in E. by rewrite Ex, Ey in E.
Qed.

Lemma blit_length h s l : length (blit h s l) = length h.
Proof. unfold blit. by rewrite length_insert. Qed.

Lemma array_blit h s l a : (fArray s < length h)%nat ->
  array (blit h s l) a = if decide (a = fArray s) then take (Z.to_nat (fStart s)) (array h (fArray s)) ++ l ++ drop (Z.to_nat (fStart s) + length l) (array h (fArray s)) else array h a.
Proof. intros Hs. unfold blit, array. case_decide as E; [subst a; by rewrite list_lookup_insert_eq|by rewrite list_lookup_insert_ne]. Qed.

Lemma zlen_blit h s l a : (fArray s < length h)%nat -> 0 <= fStart s -> zlen l <= capacity h s -> zlen (array (blit h s l) a) = zlen (array h a).
Proof.
  intros Hs H0 Hl. unfold capacity in Hl. rewrite array_blit by done. case_decide as E; [subst a|done]. rewrite !length_app, length_take, length_drop. lia.
Qed.

Lemma cell_blit h s l a i : (fArray s < length h)%nat -> 0 <= fStart s -> zlen l <= capacity h s ->
  cell (blit h s l) a i = if decide (a = fArray s /\ fStart s <= i < fStart s + zlen l) then l !! Z.to_nat (i - fStart s) else cell h a i.
Proof.
  intros Hs H0 Hl. unfold capacity in Hl. rewrite !cell_slot. unfold slot. destruct (decide (0 <= i)) as [Hi|Hi]; [|by rewrite decide_False by lia]. rewrite array_blit by done. destruct (decide (a = fArray s)) as [->|Hne]; [|by rewrite decide_False by tauto].
  assert (Et : length (take (Z.to_nat (fStart s)) (array h (fArray s))) = Z.to_nat (fStart s)) by (rewrite length_take; lia). case_decide as Hin.
  - rewrite lookup_app_r by lia. rewrite Et. rewrite lookup_app_l by lia. f_equal. lia.
  - destruct (Z.lt_ge_cases i (fStart s)).
    + rewrite lookup_app_l, lookup_take_lt by lia. done.
    + rewrite lookup_app_r by lia. rewrite Et, lookup_app_r by lia. rewrite lookup_drop. f_equal. lia.
Qed.

Lemma cont_lookup h s (k : nat) : 0 <= fStart s -> cont h s !! k = if decide (Z.of_nat k < fCount s) then cell h (fArray s) (fStart s + Z.of_nat k) else None.
Proof.
  intros H0. unfold cont. case_decide.
  - rewrite lookup_take_lt by lia. rewrite lookup_drop, cell_lookup by lia. f_equal. lia.
  - apply lookup_ge_None_2. rewrite length_take. lia.
Qed.

Lemma cont_length h s : wf h s -> zlen (cont h s) = fCount s.
Proof. intros (? & ? & ? & ?). unfold cont. rewrite length_take, length_drop. lia. Qed.

Lemma cont_ext h h' s s' : 0 <= fStart s -> 0 <= fStart s' -> fCount s = fCount s' ->
  (forall i, 0 <= i < fCount s -> cell h (fArray s) (fStart s + i) = cell h' (fArray s') (fStart s' + i)) -> cont h s = cont h' s'.
Proof. intros H0 H0' Ec E. apply list_eq. intros k. rewrite !cont_lookup by done. rewrite <- Ec. case_decide; [|done]. apply E. lia. Qed.

Lemma array_ok h a : good_heap h -> bytes_ok (array h a).
Proof. intros [_ Hb]. unfold array. destruct (h !! a) as [l|] eqn:E; [|constructor]. by eapply Forall_lookup_1 in Hb. Qed.

Lemma cont_ok h s : good_heap h -> bytes_ok (cont h s).
Proof. intros Hg. apply Forall_take, Forall_drop. by apply array_ok. Qed.

Lemma blit_wf h s l t : (fArray s < length h)%nat -> 0 <= fStart s -> zlen l <= capacity h s -> wf (blit h s l) t <-> wf h t.
Proof. intros Hs H0 Hl. unfold wf. rewrite blit_length, zlen_blit by done. done. Qed.

Lemma blit_capacity h s l t : (fArray s < length h)%nat -> 0 <= fStart s -> zlen l <= capacity h s -> capacity (blit h s l) t = capacity h t.
Proof. intros Hs H0 Hl. unfold capacity at 1. rewrite zlen_blit by done. done. Qed.

Lemma blit_good h s l : (fArray s < length h)%nat -> 0 <= fStart s -> zlen l <= capacity h s -> bytes_ok l -> good_heap h -> good_heap (blit h s l).
Proof.
  intros Hs H0 Hl Hb Hg. pose proof Hg as [[Hn He] Hall]. split; [split|].
  - by rewrite blit_length.
  - apply array_nil. rewrite zlen_blit, He by done. done.
  - unfold blit. apply Forall_insert; [done|]. pose proof (array_ok h (fArray s) Hg). apply Forall_app. split; [by apply Forall_take|]. apply Forall_app. split; [done|by apply Forall_drop].
Qed.

(** Reading back what has been written, and what lies elsewhere. *)
Lemma cont_blit_eq h s l : wf h s -> zlen l = fCount s -> cont (blit h s l) s = l.
Proof.
  intros Hs Hl. pose proof Hs as (Ha & H0 & Hc & Hx). apply list_eq. intros k. rewrite cont_lookup by done. case_decide as Hk.
  - rewrite cell_blit by slices. rewrite decide_True by lia. f_equal. lia.
  - symmetry. apply lookup_ge_None_2. lia.
Qed.

Lemma cont_blit_apart h s l t : (fArray s < length h)%nat -> 0 <= fStart s -> zlen l <= capacity h s -> 0 <= fStart t ->
  (fArray t = fArray s -> fStart t + fCount t <= fStart s \/ fStart s + zlen l <= fStart t) -> cont (blit h s l) t = cont h t.
Proof. intros Hs H0 Hl Ht Hd. apply cont_ext; [done|done|done|]. intros i Hi. rewrite cell_blit by done. rewrite decide_False; [done|]. intros [E ?]. specialize (Hd E). lia. Qed.

Lemma blit_nil h s : 0 <= fStart s -> blit h s [] = h.
Proof.
  intros H0. unfold blit. cbn [length app]. rewrite Nat.add_0_r, take_drop. destruct (decide (fArray s < length h)%nat) as [Hl|Hl]; [|by rewrite list_insert_ge by lia]. unfold array. destruct (lookup_lt_is_Some_2 h (fArray s) Hl) as [l E]. rewrite E. cbn [default]. by apply list_insert_id.
Qed.

(** Two writes one after the other are one. *)
Lemma blit_blit h s l m k : wf h s -> k = zlen l -> zlen l + zlen m <= capacity h s ->
  blit (blit h s l) (SliceOf (fArray s) (fStart s + k) (zlen m)) m = blit h s (l ++ m).
Proof.
  intros Hs -> Hl. pose proof Hs as (Ha & H0 & Hc & Hx). apply heap_ext; [by rewrite !blit_length|]. intros a i Hai. rewrite !blit_length in Hai.
  rewrite (cell_blit (blit h s l)) by (rewrite ?blit_length, ?blit_capacity by slices; slices). rewrite !cell_blit by (rewrite ?zlen_app; slices). cbn [fArray fStart]. rewrite zlen_app. destruct (decide (a = fArray s)) as [->|Hne]; [|by rewrite !decide_False by tauto].
  destruct (decide (fStart s <= i < fStart s + zlen l)) as [Hi|Hi].
  - rewrite decide_False, !decide_True by lia. by rewrite lookup_app_l by lia.
  - destruct (decide (fStart s + zlen l <= i < fStart s + zlen l + zlen m)) as [Hj|Hj].
    + rewrite !decide_True by lia. rewrite lookup_app_r by lia. f_equal. lia.
    + rewrite !decide_False by lia. done.
Qed.

(** A later write to the same place, and writes to places that do not meet. *)
Lemma blit_over h s l m : wf h s -> zlen l = zlen m -> zlen l <= capacity h s -> blit (blit h s l) s m = blit h s m.
Proof.
  intros Hs El Hl. pose proof Hs as (Ha & H0 & Hc & Hx). apply heap_ext; [by rewrite !blit_length|]. intros a i Hai. rewrite (cell_blit (blit h s l)) by (rewrite ?blit_length, ?blit_capacity by slices; slices). rewrite !cell_blit by slices. rewrite El. by case_decide.
Qed.

Lemma blit_comm h s t l m : wf h s -> wf h t -> zlen l <= capacity h s -> zlen m <= capacity h t ->
  (fArray s = fArray t -> fStart s + zlen l <= fStart t \/ fStart t + zlen m <= fStart s) -> blit (blit h s l) t m = blit (blit h t m) s l.
Proof.
  intros Hs Ht Hl Hm Hd. pose proof Hs as (Ha & H0 & Hc & Hx). pose proof Ht as (Ha' & H0' & Hc' & Hx'). apply heap_ext; [by rewrite !blit_length|]. intros a i Hai.
  rewrite (cell_blit (blit h s l)), (cell_blit (blit h t m)) by (rewrite ?blit_length, ?blit_capacity by slices; slices). rewrite !cell_blit by slices. repeat case_decide; try done; lia.
Qed.

Lemma cont_sub h s i j : 0 <= fStart s -> 0 <= i <= j -> j <= fCount s -> cont h (sub s i j) = take (Z.to_nat (j - i)) (drop (Z.to_nat i) (cont h s)).
Proof.
  intros H0 Hi Hj. apply list_eq. intros k. rewrite cont_lookup by (unfold sub; cbn; lia). unfold sub. cbn [fArray fStart fCount]. case_decide as Hk.
  - rewrite lookup_take_lt by lia. rewrite lookup_drop, cont_lookup by done. rewrite decide_True by lia. f_equal. lia.
  - symmetry. apply lookup_ge_None_2. rewrite length_take. lia.
Qed.
End Bytes.

Lemma lxor_bytes l m : bytes_ok l -> bytes_ok m -> bytes_ok (zip_with Z.lxor l m).
Proof. intros Hl. revert m. induction Hl as [|a l Ha _ IH]; intros m Hm; [constructor|]. destruct Hm as [|c m Hc Hm]; [constructor|]. cbn [zip_with]. constructor; [by apply lxor_is_uint|by apply IH]. Qed.

Lemma xor_xor l m : length l = length m -> zip_with Z.lxor (zip_with Z.lxor l m) m = l.
Proof. revert m. induction l as [|a l IH]; intros [|c m] E; cbn in *; try done. rewrite Z.lxor_assoc, Z.lxor_nilpotent, Z.lxor_0_r. f_equal. apply IH. lia. Qed.

(** ** The interface *)

Class Block (B : Type) : Type := {
  BlockSize : B -> Z;
  Encrypt : B -> Slice -> Slice -> M bytes_heap unit;
  Decrypt : B -> Slice -> Slice -> M bytes_heap unit
}.

(** A block for [b]. *)
Definition is_block (n : Z) (x : list Z) : Prop := zlen x = n /\ bytes_ok x.

(** [encrypted b] and [decrypted b] are the two functions on blocks.  Calls with less than a block, or with places that overlap without being the same, panic. *)
Class BlockLaws (B : Type) `{Block B} : Type := {
  block_ok : B -> Prop;
  encrypted : B -> list Z -> list Z;
  decrypted : B -> list Z -> list Z;
  size_pos : forall b, block_ok b -> 0 < BlockSize b;
  encrypted_block : forall b x, block_ok b -> is_block (BlockSize b) x -> is_block (BlockSize b) (encrypted b x);
  decrypted_block : forall b x, block_ok b -> is_block (BlockSize b) x -> is_block (BlockSize b) (decrypted b x);
  decrypted_encrypted : forall b x, block_ok b -> is_block (BlockSize b) x -> decrypted b (encrypted b x) = x;
  encrypted_decrypted : forall b x, block_ok b -> is_block (BlockSize b) x -> encrypted b (decrypted b x) = x;
  Encrypt_law : forall b h dst src, block_ok b -> good_heap h -> wf h dst -> wf h src -> BlockSize b <= fCount dst -> BlockSize b <= fCount src ->
    InexactOverlap (sub dst 0 (BlockSize b)) (sub src 0 (BlockSize b)) = false ->
    Encrypt b dst src h = Val (tt, blit h (sub dst 0 (BlockSize b)) (encrypted b (cont h (sub src 0 (BlockSize b)))));
  Decrypt_law : forall b h dst src, block_ok b -> good_heap h -> wf h dst -> wf h src -> BlockSize b <= fCount dst -> BlockSize b <= fCount src ->
    InexactOverlap (sub dst 0 (BlockSize b)) (sub src 0 (BlockSize b)) = false ->
    Decrypt b dst src h = Val (tt, blit h (sub dst 0 (BlockSize b)) (decrypted b (cont h (sub src 0 (BlockSize b)))));
  Encrypt_refuses : forall b h dst src, block_ok b -> good_heap h -> wf h dst -> wf h src ->
    fCount dst < BlockSize b \/ fCount src < BlockSize b \/ InexactOverlap (sub dst 0 (BlockSize b)) (sub src 0 (BlockSize b)) = true -> Encrypt b dst src h = Panic Explicit;
  Decrypt_refuses : forall b h dst src, block_ok b -> good_heap h -> wf h dst -> wf h src ->
    fCount dst < BlockSize b \/ fCount src < BlockSize b \/ InexactOverlap (sub dst 0 (BlockSize b)) (sub src 0 (BlockSize b)) = true -> Decrypt b dst src h = Panic Explicit
}.

(** ** Helpers of the package *)

(** crypto/cipher/xor_elements.go *)
Definition safeXORBytes (dst a b : Slice) : M bytes_heap Z :=
  la ← len a; lb ← len b;
  let n := if lb <? la then lb else la in
  loop_up 0 n (λ i _, ai ← get_Item a i; bi ← get_Item b i; set_Item dst i (ai ^. bi)) tt;;
  mret n.
Definition xorBytes : Slice -> Slice -> Slice -> M bytes_heap Z := safeXORBytes.
Definition xorWords (dst a b : Slice) : M bytes_heap unit := safeXORBytes dst a b;; mret tt.

Definition dup (p : Slice) : M bytes_heap Slice := n ← len p; q ← new_sized 0 n n; Slices.copy q p;; mret q.

(** The conditions at the start of the methods of a block cipher with blocks of [bs] bytes. *)
Definition block_checks (bs : Z) (dst src : Slice) : M bytes_heap unit :=
  n ← len src;
  if n <? bs then raise Explicit
  else
    m ← len dst;
    if m <? bs then raise Explicit
    else d ← slice_ dst None (Some bs); s ← slice_ src None (Some bs); if InexactOverlap d s then raise Explicit else mret tt.

Section Helpers.
Implicit Types (h : bytes_heap) (s t dst src : Slice) (l : list Z) (i n : Z).

Lemma bind_step {S A B} (m : M S A) (f : A -> M S B) (s : S) (a : A) (s1 : S) (r : outcome (B * S)) : m s = Val (a, s1) -> f a s1 = r -> (m ≫= f) s = r.
Proof. unfold mbind, M_bind. by intros -> ->. Qed.

Lemma bind_panic {S A B} (m : M S A) (f : A -> M S B) (s : S) p : m s = Panic p -> (m ≫= f) s = Panic p.
Proof. unfold mbind, M_bind. by intros ->. Qed.

Lemma good_heap_ok h : good_heap h -> heap_ok h.
Proof. by intros [? _]. Qed.

Lemma cell_cont h s i : wf h s -> 0 <= i < fCount s -> cell h (fArray s) (fStart s + i) = cont h s !! Z.to_nat i.
Proof. intros (? & ? & ? & ?) Hi. rewrite cont_lookup by done. rewrite decide_True by lia. f_equal. lia. Qed.

Lemma get_Item_val h s i x : wf h s -> cont h s !! Z.to_nat i = Some x -> 0 <= i -> get_Item s i h = Val (x, h).
Proof.
  intros Hs Ex Hi. pose proof (cont_length h s Hs) as El. apply lookup_lt_Some in Ex as Hlt. rewrite <- (cell_cont h s i) in Ex by (done || lia). rewrite get_Item_plain. rewrite (proj2 (Z.ltb_ge i 0)), (proj2 (Z.leb_gt (fCount s) i)) by lia. cbn [orb].
  assert (E : read_cell (fArray s) (i + fStart s) h = Val (x, h)) by (unfold read_cell, mbind, M_bind, get; by rewrite (Z.add_comm i), <- cell_slot, Ex). unfold mbind, M_bind. by rewrite !E.
Qed.

Lemma set_Item_val h s i x : wf h s -> 0 <= i < fCount s -> set_Item s i x h = Val (tt, blit h (sub s i (i + 1)) [x]).
Proof.
  intros Hs Hi. pose proof Hs as (Ha & H0 & Hc & Hx). unfold set_Item. eapply bind_step; [done|]. rewrite (proj2 (Z.ltb_ge i 0)) by lia. change (zlen (array h (fArray s)) - fStart s) with (capacity h s). rewrite (proj2 (Z.leb_gt (capacity h s) i)) by slices. cbn [orb].
  unfold write_cell. eapply bind_step; [done|]. destruct (slot_some h (fArray s) (i + fStart s)) as (y & ->); [lia|]. unfold put. f_equal. f_equal. unfold blit, sub. cbn [fArray fStart]. f_equal. rewrite insert_take_drop by lia.
  replace (Z.to_nat (fStart s + i) + length [x])%nat with (S (Z.to_nat (fStart s + i))) by (cbn [length]; lia). by rewrite (Z.add_comm i).
Qed.

Lemma view_val h s : view s h = Val (cont h s, h).
Proof. done. Qed.

Lemma update_val h s f l : f (cont h s) = Val l -> update s f h = Val (tt, blit h s l).
Proof. intros E. unfold update, mbind, M_bind, get, lift, put. by rewrite E. Qed.

Lemma slice_of h s i j : good_heap h -> wf h s -> 0 <= i <= j -> j <= capacity h s -> slice_ s (Some i) (Some j) h = Val (sub s i j, h).
Proof. intros [Hh _] Hs Hi Hj. by apply (slice_val_bounds h s (Some i) (Some j)); cbn; try lia. Qed.
Lemma slice_upto h s j : good_heap h -> wf h s -> 0 <= j <= capacity h s -> slice_ s None (Some j) h = Val (sub s 0 j, h).
Proof. intros [Hh _] Hs Hj. by apply (slice_val_bounds h s None (Some j)); cbn; try lia. Qed.
Lemma slice_rest h s i : good_heap h -> wf h s -> 0 <= i <= fCount s -> slice_ s (Some i) None h = Val (sub s i (fCount s), h).
Proof. intros [Hh _] Hs Hi. by apply (slice_val_bounds h s (Some i) None); cbn; try slices. Qed.

(** A loop that writes the bytes [z] in order. *)
Lemma write_loop h dst z n (body : Z -> unit -> M bytes_heap unit) : wf h dst -> zlen z = n -> n <= fCount dst ->
  (forall i x h1, 0 <= i < n -> z !! Z.to_nat i = Some x -> h1 = blit h (sub dst 0 i) (take (Z.to_nat i) z) -> wf h1 dst ->
     (forall t, wf h t -> wf h1 t) -> (forall a j, (a = fArray dst -> j < fStart dst \/ fStart dst + i <= j) -> cell h1 a j = cell h a j) -> body i tt h1 = set_Item dst i x h1) ->
  loop_up 0 n body tt h = Val (tt, blit h (sub dst 0 n) z).
Proof.
  intros Hd Hz Hn Hbody. pose proof Hd as (Hd1 & Hd2 & Hd3 & Hd4).
  assert (L : wp (loop_up 0 n body tt) h (λ _ h', h' = blit h (sub dst 0 n) z)); [|apply wp_val in L as ([] & h' & E & ->); done].
  apply (wp_loop_up (λ i _ h', 0 <= i /\ h' = blit h (sub dst 0 i) (take (Z.to_nat i) z))); [slices| | |].
  - split; [done|]. change (take (Z.to_nat 0) z) with (@nil Z). rewrite blit_nil by slices. done.
  - intros i [] h' Hi (_ & ->). assert (Hlen : zlen (take (Z.to_nat i) z) = i) by (rewrite length_take; lia). set (h1 := blit _ _ _). assert (Hw : forall t, wf h1 t <-> wf h t) by (intros t; apply blit_wf; slices).
    destruct (lookup_lt_is_Some_2 z (Z.to_nat i)) as [x Ex]; [lia|]. eapply wp_of_val; [|split; [lia|reflexivity]]. rewrite (Hbody i x h1) by (first [done | by apply Hw | by intros t; apply Hw | intros a j Hj; unfold h1; rewrite cell_blit by slices; rewrite decide_False; [done|]; cbn; intros [E ?]; specialize (Hj E); lia]).
    rewrite set_Item_val by (first [by apply Hw | lia]). f_equal. f_equal. unfold h1. replace (Z.to_nat (i + 1)) with (S (Z.to_nat i)) by lia. rewrite (take_S_r z _ _ Ex).
    pose proof (blit_blit h (sub dst 0 (i + 1)) (take (Z.to_nat i) z) [x] i) as Eb. unfold sub in *. cbn [fArray fStart fCount length] in *. rewrite !Z.add_0_r in *. by rewrite <- Eb by slices.
  - intros [] h' (_ & ->). rewrite take_ge by lia. done.
Qed.

(** Reading a position that the loop has not written. *)
Lemma read_unwritten h h1 t i x : wf h1 t -> wf h t -> 0 <= i -> cont h t !! Z.to_nat i = Some x -> cell h1 (fArray t) (fStart t + i) = cell h (fArray t) (fStart t + i) -> get_Item t i h1 = Val (x, h1).
Proof.
  intros H1 Ht Hi Ex Ec. pose proof (cont_length h t Ht) as El. apply lookup_lt_Some in Ex as Hlt. apply get_Item_val; [done| |done]. rewrite <- Ex, <- (cell_cont h1), <- (cell_cont h) by (done || lia). done.
Qed.

(** Byte by byte, while [a] and [b] lie as [dst] or apart from it. *)
Lemma xor_val h dst a b n : good_heap h -> wf h dst -> wf h a -> wf h b -> n = Z.min (fCount a) (fCount b) -> n <= fCount dst -> aligned n dst a -> aligned n dst b ->
  safeXORBytes dst a b h = Val (n, blit h (sub dst 0 n) (zip_with Z.lxor (cont h a) (cont h b))).
Proof.
  intros Hg Hd Ha Hb En Hn Aa Ab. pose proof (good_heap_ok h Hg) as Hok. unfold safeXORBytes. eapply bind_step; [by apply len_val|]. eapply bind_step; [by apply len_val|]. replace (if fCount b <? fCount a then fCount b else fCount a) with n by (destruct (Z.ltb_spec (fCount b) (fCount a)); lia).
  pose proof (cont_length h a Ha) as Ela. pose proof (cont_length h b Hb) as Elb. eapply bind_step; [|done]. apply write_loop; [done|rewrite length_zip_with; lia|done|]. intros i z h1 Hi Ez _ _ Hw Hc. rewrite lookup_zip_with in Ez.
  destruct (cont h a !! Z.to_nat i) as [x|] eqn:Ex; [|done]. destruct (cont h b !! Z.to_nat i) as [y|] eqn:Ey; [|done]. injection Ez as <-.
  eapply bind_step; [apply (read_unwritten h h1 a i x); [by apply Hw|done|lia|done|apply Hc; intros E; unfold aligned in Aa; specialize (Aa (eq_sym E)); lia]|].
  eapply bind_step; [apply (read_unwritten h h1 b i y); [by apply Hw|done|lia|done|apply Hc; intros E; unfold aligned in Ab; specialize (Ab (eq_sym E)); lia]|]. done.
Qed.

Lemma copy_val h dst src n : good_heap h -> wf h dst -> wf h src -> n = Z.min (fCount src) (fCount dst) -> ahead dst src ->
  Slices.copy dst src h = Val (n, blit h (sub dst 0 n) (take (Z.to_nat n) (cont h src))).
Proof.
  intros Hg Hd Hs En Ha. pose proof (good_heap_ok h Hg) as Hok. unfold Slices.copy. eapply bind_step; [by apply len_val|]. eapply bind_step; [by apply len_val|]. rewrite <- En. pose proof (cont_length h src Hs) as El. pose proof Hd as (? & ? & ? & ?). pose proof Hs as (? & ? & ? & ?).
  eapply bind_step; [|done]. apply write_loop; [done|rewrite length_take; lia|lia|]. intros i x h1 Hi Ex _ _ Hw Hc. rewrite lookup_take_lt in Ex by lia.
  eapply bind_step; [apply (read_unwritten h h1 src i x); [by apply Hw|done|lia|done|apply Hc; intros E; unfold ahead in Ha; specialize (Ha (eq_sym E)); lia]|]. done.
Qed.

Lemma block_checks_val h dst src bs : good_heap h -> wf h dst -> wf h src -> 0 <= bs ->
  block_checks bs dst src h = if (fCount src <? bs) || (fCount dst <? bs) || InexactOverlap (sub dst 0 bs) (sub src 0 bs) then Panic Explicit else Val (tt, h).
Proof.
  intros Hg Hd Hs Hbs. pose proof (good_heap_ok h Hg) as Hok. unfold block_checks. eapply bind_step; [by apply len_val|]. destruct (Z.ltb_spec (fCount src) bs); [done|]. eapply bind_step; [by apply len_val|]. destruct (Z.ltb_spec (fCount dst) bs); [done|].
  eapply bind_step; [apply slice_upto; [done|done|slices]|]. eapply bind_step; [apply slice_upto; [done|done|slices]|]. cbn [orb]. by destruct (InexactOverlap _ _).
Qed.

(** What InexactOverlap lets pass. *)
Lemma overlap_false s t : InexactOverlap s t = false <->
  fCount s = 0 \/ fCount t = 0 \/ fArray s <> fArray t \/ fStart s = fStart t \/ fStart t + fCount t < fStart s \/ fStart s + fCount s < fStart t.
Proof.
  unfold InexactOverlap, Length. destruct (Z.eqb_spec (fCount s) 0), (Z.eqb_spec (fCount t) 0); cbn [orb]; try (split; [tauto|done]). case_bool_decide as Ea; cbn [negb orb andb]; [|split; [tauto|done]].
  destruct (Z.eqb_spec (fStart s) (fStart t)); [split; [tauto|done]|]. destruct (Z.leb_spec (fStart s) (fStart t + fCount t)), (Z.leb_spec (fStart t) (fStart s + fCount s)); cbn [andb]; split; try done; lia.
Qed.

Lemma overlap_aligned dst src n : 0 <= n -> fCount dst = n -> fCount src = n -> InexactOverlap dst src = false -> aligned n dst src.
Proof. rewrite overlap_false. unfold aligned. intros Hn <- Es H Ea. lia. Qed.

Lemma overlap_same_start s t : fArray s = fArray t -> fStart s = fStart t -> InexactOverlap s t = false.
Proof. rewrite overlap_false. tauto. Qed.
Lemma overlap_arrays s t : fArray s <> fArray t -> InexactOverlap s t = false.
Proof. rewrite overlap_false. tauto. Qed.

(** Parts at the same positions of slices that pass. *)
Lemma overlap_parts dst src n i j : 0 <= i <= j -> j <= n -> fCount dst = n -> fCount src = n -> InexactOverlap dst src = false -> InexactOverlap (sub dst i j) (sub src i j) = false.
Proof. rewrite !overlap_false. unfold sub. cbn. lia. Qed.
End Helpers.

(** ** Fresh arrays *)

Section Fresh.
Implicit Types (h : bytes_heap) (s t : Slice) (l : list Z) (n : Z).

(** The slice of the whole of the next array. *)
Definition fresh h n : Slice := SliceOf (length h) 0 n.

Lemma new_sized_val h n : 0 <= n -> new_sized 0 n n h = Val (fresh h n, h ++ [make 0 n]).
Proof.
  intros Hn. assert (L : wp (new_sized 0 n n) h (λ r h', r = fresh h n /\ h' = h ++ [make 0 n])); [|apply wp_val in L as (r & h' & E & -> & ->); done].
  apply wp_new_sized; [done|]. intros h' _ -> _. by rewrite Z.max_id.
Qed.

Lemma cont_app h l s : (fArray s < length h)%nat -> cont (h ++ [l]) s = cont h s.
Proof. intros Hs. unfold cont. rewrite array_app, decide_False by lia. done. Qed.

Lemma wf_app h l s : wf h s -> wf (h ++ [l]) s.
Proof. intros (? & ? & ? & ?). unfold wf. rewrite array_app, decide_False by lia. rewrite length_app. cbn. lia. Qed.

Lemma capacity_app h l s : (fArray s < length h)%nat -> capacity (h ++ [l]) s = capacity h s.
Proof. intros Hs. unfold capacity. by rewrite array_app, decide_False by lia. Qed.

Lemma good_app h l : good_heap h -> bytes_ok l -> good_heap (h ++ [l]).
Proof. intros [[Hn He] Hb] Hl. split; [split|]; [rewrite length_app; lia|by rewrite array_app, decide_False by (unfold EmptyArray; lia)|]. apply Forall_app. split; [done|by constructor]. Qed.

Lemma bytes_make n : bytes_ok (make 0 n).
Proof. unfold make. apply Forall_replicate. by split. Qed.

Lemma fresh_wf h l n : zlen l = n -> wf (h ++ [l]) (fresh h n).
Proof. intros <-. unfold wf, fresh. cbn. rewrite array_app, decide_True by done. rewrite length_app. cbn. lia. Qed.

Lemma cont_fresh h l n : zlen l = n -> cont (h ++ [l]) (fresh h n) = l.
Proof. intros <-. unfold cont, fresh. cbn [fArray fStart fCount]. rewrite array_app, decide_True by done. change (Z.to_nat 0) with 0%nat. by rewrite drop_0, take_ge by lia. Qed.

Lemma blit_fresh h l m n : zlen l = n -> zlen m = n -> blit (h ++ [l]) (sub (fresh h n) 0 n) m = h ++ [m].
Proof.
  intros <- Em. unfold blit, sub, fresh. cbn [fArray fStart fCount]. rewrite array_app, decide_True by done. change (Z.to_nat (0 + 0)) with 0%nat. cbn [take app]. rewrite drop_ge by lia. rewrite app_nil_r. rewrite insert_app_r_alt by lia. by rewrite Nat.sub_diag.
Qed.

Lemma dup_val h p : good_heap h -> wf h p -> dup p h = Val (fresh h (fCount p), h ++ [cont h p]).
Proof.
  intros Hg Hp. pose proof (good_heap_ok h Hg) as Hok. pose proof (cont_length h p Hp) as El. pose proof Hp as (? & ? & ? & ?). unfold dup. eapply bind_step; [by apply len_val|]. eapply bind_step; [apply new_sized_val; lia|].
  assert (Hz : zlen (make 0 (fCount p)) = fCount p) by (apply zlen_make; lia). eapply bind_step.
  { apply (copy_val _ (fresh h (fCount p)) p (fCount p)); [by apply good_app, bytes_make|by apply fresh_wf|by apply wf_app|cbn; lia|]. unfold ahead, fresh. cbn. lia. }
  rewrite cont_app by done. rewrite take_ge by lia. by rewrite blit_fresh.
Qed.
End Fresh.
