(* ===== verification/Cbc.v ===== *)
(** * crypto/cipher: cipher block chaining

    src/Source/Gold/crypto/cipher/cbc.go over the interface of file Block: the encrypter and the decrypter, which works backwards
    through its input so that it can write over it.  The theorems are against NIST SP 800-38A. *)

From S2P Require Import Prelude State Slices Block.

Local Open Scope go_scope.

Record cbc (B : Type) : Type := Cbc { b : B; blockSize : Z; iv : Slice; tmp : Slice }.
Arguments Cbc {B}.
Arguments b {B}.
Arguments blockSize {B}.
Arguments iv {B}.
Arguments tmp {B}.

Section Operations.
Context {B : Type} `{Block B}.

Definition newCBC (b : B) (iv : Slice) : M bytes_heap (cbc B) :=
  iv' ← dup iv; tmp' ← new_sized 0 (BlockSize b) (BlockSize b); mret (Cbc b (BlockSize b) iv' tmp').

(** No block cipher of the library has a chaining mode of its own (cbcEncAble, cbcDecAble). *)
Definition NewCBCEncrypter (b : B) (iv : Slice) : M bytes_heap (cbc B) :=
  n ← len iv; if negb (n =? BlockSize b) then raise Explicit else newCBC b iv.
Definition NewCBCDecrypter (b : B) (iv : Slice) : M bytes_heap (cbc B) :=
  n ← len iv; if negb (n =? BlockSize b) then raise Explicit else newCBC b iv.

(** The checks that both methods start with. *)
Definition crypt_checks (x : cbc B) (dst src : Slice) : M bytes_heap Z :=
  n ← len src;
  if blockSize x =? 0 then raise DivideError
  else if negb (n mod blockSize x =? 0) then raise Explicit
  else
    m ← len dst;
    if m <? n then raise Explicit
    else d ← slice_ dst None (Some n); if InexactOverlap d src then raise Explicit else mret n.

(** [for len(src) > 0 { ... }]: the result is the last [iv], a slice of [dst] after the first block. *)
Fixpoint encrypt_loop (fuel : nat) (x : cbc B) (iv dst src : Slice) : M bytes_heap Slice :=
  match fuel with
  | O => no_fuel
  | S fuel =>
      n ← len src;
      if 0 <? n then
        d ← slice_ dst None (Some (blockSize x)); s ← slice_ src None (Some (blockSize x)); xorBytes d s iv;;
        d1 ← slice_ dst None (Some (blockSize x)); d2 ← slice_ dst None (Some (blockSize x)); Encrypt (b x) d1 d2;;
        iv ← slice_ dst None (Some (blockSize x));
        src ← slice_ src (Some (blockSize x)) None;
        dst ← slice_ dst (Some (blockSize x)) None;
        encrypt_loop fuel x iv dst src
      else mret iv
  end.

Definition cbcEncrypter_CryptBlocks (x : cbc B) (dst src : Slice) : M bytes_heap unit :=
  n ← crypt_checks x dst src;
  iv' ← encrypt_loop (S (Z.to_nat n)) x (iv x) dst src;
  Slices.copy (iv x) iv';;
  mret tt.

(** [for start > 0 { ... }]: over all but the first block, from the end. *)
Fixpoint decrypt_loop (fuel : nat) (x : cbc B) (dst src : Slice) (end_ start prev : Z) : M bytes_heap (Z * Z) :=
  match fuel with
  | O => no_fuel
  | S fuel =>
      if 0 <? start then
        d ← slice_ dst (Some start) (Some end_); s ← slice_ src (Some start) (Some end_); Decrypt (b x) d s;;
        d1 ← slice_ dst (Some start) (Some end_); d2 ← slice_ dst (Some start) (Some end_); s ← slice_ src (Some prev) (Some start); xorBytes d1 d2 s;;
        decrypt_loop fuel x dst src start prev (prev - blockSize x)
      else mret (end_, start)
  end.

(** The decrypter with the buffers [iv] and [tmp] exchanged. *)
Definition cbcDecrypter_CryptBlocks (x : cbc B) (dst src : Slice) : M bytes_heap (cbc B) :=
  n ← crypt_checks x dst src;
  if n =? 0 then mret x
  else
    let end_ := n in
    let start := end_ - blockSize x in
    let prev := start - blockSize x in
    s ← slice_ src (Some start) (Some end_); Slices.copy (tmp x) s;;
    '(end_, start) ← decrypt_loop (S (Z.to_nat n)) x dst src end_ start prev;
    d ← slice_ dst (Some start) (Some end_); s ← slice_ src (Some start) (Some end_); Decrypt (b x) d s;;
    d1 ← slice_ dst (Some start) (Some end_); d2 ← slice_ dst (Some start) (Some end_); xorBytes d1 d2 (iv x);;
    mret (Cbc (b x) (blockSize x) (tmp x) (iv x)).

Definition BlockSize_ (x : cbc B) : Z := blockSize x.

Definition SetIV (x : cbc B) (iv' : Slice) : M bytes_heap unit :=
  n ← len iv'; m ← len (iv x); if negb (n =? m) then raise Explicit else Slices.copy (iv x) iv';; mret tt.
End Operations.

(** ** SP 800-38A, 6.2 *)

Section Standard.
Context (E D : list Z -> list Z) (bs : nat).

(** The ciphertext of [k] blocks, and the value to chain to. *)
Fixpoint cbc_encrypt (k : nat) (iv p : list Z) : list Z :=
  match k with O => [] | S k => let c := E (zip_with Z.lxor (take bs p) iv) in c ++ cbc_encrypt k c (drop bs p) end.
Fixpoint cbc_decrypt (k : nat) (iv c : list Z) : list Z :=
  match k with O => [] | S k => zip_with Z.lxor (D (take bs c)) iv ++ cbc_decrypt k (take bs c) (drop bs c) end.
Definition chained (iv c : list Z) : list Z := if (length c <? bs)%nat then iv else drop (length c - bs) c.
End Standard.

Section Laws.
Context {B : Type} `{BlockLaws B}.
Implicit Types (h : bytes_heap) (x : cbc B) (dst src : Slice).

(** [x] is a chaining state with the value [v] to chain to, in buffers of its own. *)
Record cbc_ok h x (v : list Z) : Prop := {
  ok_cipher : block_ok (b x);
  ok_size : blockSize x = BlockSize (b x);
  ok_iv : wf h (iv x) /\ fCount (iv x) = BlockSize (b x) /\ cont h (iv x) = v;
  ok_tmp : wf h (tmp x) /\ fCount (tmp x) = BlockSize (b x);
  ok_apart : fArray (iv x) <> fArray (tmp x)
}.
Definition private x (s : Slice) : Prop := fArray s <> fArray (iv x) /\ fArray s <> fArray (tmp x).

Lemma crypt_checks_val h x dst src : good_heap h -> wf h dst -> wf h src -> 0 < blockSize x ->
  crypt_checks x dst src h =
    if negb (fCount src mod blockSize x =? 0) || (fCount dst <? fCount src) || InexactOverlap (Slices.sub dst 0 (fCount src)) src then Panic Explicit else Val (fCount src, h).
Proof.
  intros Hg Hd Hs Hb. pose proof (good_heap_ok h Hg) as Hok. unfold crypt_checks. eapply bind_step; [by apply len_val|]. rewrite (proj2 (Z.eqb_neq (blockSize x) 0)) by lia. destruct (negb _); [done|]. cbn [orb]. eapply bind_step; [by apply len_val|]. destruct (Z.ltb_spec (fCount dst) (fCount src)); [done|]. cbn [orb].
  eapply bind_step; [apply slice_upto; [done|done|slices]|]. by destruct (InexactOverlap _ _).
Qed.

(** ** Encryption *)

Lemma cbc_block_xor k x v l : block_ok (b x) -> is_block (BlockSize (b x)) v -> is_block (BlockSize (b x)) l -> is_block k (zip_with Z.lxor l v) <-> k = BlockSize (b x).
Proof. intros Hb [Hv Hvb] [Hl Hlb]. unfold is_block. rewrite length_zip_with. split; [lia|]. intros ->. split; [lia|by apply lxor_bytes]. Qed.

Lemma sub_sub s i j k l : Slices.sub (Slices.sub s i j) k l = Slices.sub s (i + k) (i + l).
Proof. unfold Slices.sub. cbn. f_equal; lia. Qed.

Lemma cont_take h s n : 0 <= fStart s -> 0 <= n <= fCount s -> cont h (Slices.sub s 0 n) = take (Z.to_nat n) (cont h s).
Proof. intros Hst Hn. rewrite cont_sub by lia. by rewrite Z.sub_0_r. Qed.

Lemma cont_drop h s n : wf h s -> 0 <= n <= fCount s -> cont h (Slices.sub s n (fCount s)) = drop (Z.to_nat n) (cont h s).
Proof. intros Hs Hn. pose proof (cont_length h s Hs). pose proof Hs as (_ & ? & _). rewrite cont_sub by lia. apply take_ge. rewrite length_drop. lia. Qed.

Context (x : cbc B).
Abbreviation bs := (BlockSize (b x)).
Abbreviation nb := (Z.to_nat bs).
Context (Hok : block_ok (b x)) (Hsz : blockSize x = bs).

Lemma cbc_encrypt_length k v p : is_block bs v -> bytes_ok p -> zlen p = Z.of_nat k * bs -> zlen (cbc_encrypt (encrypted (b x)) nb k v p) = Z.of_nat k * bs /\ bytes_ok (cbc_encrypt (encrypted (b x)) nb k v p).
Proof.
  pose proof (size_pos (b x) Hok) as Hp. revert v p. induction k as [|k IH]; intros v p Hv Hpb Hl; cbn [cbc_encrypt]; [split; [done|constructor]|].
  assert (Hc : is_block bs (encrypted (b x) (zip_with Z.lxor (take nb p) v))) by (apply encrypted_block; [done|]; apply (cbc_block_xor bs x v); [done|done|split; [rewrite length_take; lia|by apply Forall_take]|done]).
  destruct (IH (encrypted (b x) (zip_with Z.lxor (take nb p) v)) (drop nb p) Hc ltac:(by apply Forall_drop) ltac:(rewrite length_drop; lia)) as [IHl IHb]. destruct Hc as [Hcl Hcb]. rewrite zlen_app. split; [lia|by apply Forall_app].
Qed.

Lemma encrypt_block h ivs dst src : good_heap h -> wf h dst -> wf h src -> wf h ivs -> bs <= fCount src -> bs <= fCount dst -> fCount ivs = bs -> aligned bs dst src -> aligned bs dst ivs ->
  let c := encrypted (b x) (zip_with Z.lxor (take nb (cont h src)) (cont h ivs)) in
  let h' := blit h (Slices.sub dst 0 bs) c in
  is_block bs c /\ good_heap h' /\ (forall t, wf h' t <-> wf h t) /\
  forall (R : Type) (f : M bytes_heap R), (d ← slice_ dst None (Some (blockSize x)); s ← slice_ src None (Some (blockSize x)); xorBytes d s ivs;;
    d1 ← slice_ dst None (Some (blockSize x)); d2 ← slice_ dst None (Some (blockSize x)); Encrypt (b x) d1 d2;; f) h = f h'.
Proof.
  intros Hg Hd Hs Hi Hls Hld Hli Has Hai. cbv zeta. pose proof (size_pos (b x) Hok) as Hp. pose proof (good_heap_ok h Hg) as Hh. rewrite Hsz. set (z := zip_with Z.lxor (take nb (cont h src)) (cont h ivs)). pose proof Hd as (? & ? & ? & ?). pose proof Hs as (? & ? & ? & ?).
  pose proof (cont_length h src Hs) as El. pose proof (cont_length h ivs Hi) as Eli. assert (Hz : is_block bs z) by (apply (cbc_block_xor bs x (cont h ivs)); [done|split; [lia|by apply cont_ok]|split; [rewrite length_take; lia|by apply Forall_take, cont_ok]|done]).
  pose proof (encrypted_block (b x) z Hok Hz) as Hc. pose proof Hz as [Hzl Hzb]. pose proof Hc as [Hcl Hcb]. split; [done|]. split; [apply blit_good; (done || slices)|]. split; [intros t; apply blit_wf; slices|]. intros R f.
  eapply bind_step; [apply slice_upto; [done|done|slices]|]. eapply bind_step; [apply slice_upto; [done|done|slices]|]. set (h1 := blit h (Slices.sub dst 0 bs) z).
  assert (Hg1 : good_heap h1) by (apply blit_good; (done || slices)). assert (Hw : forall t, wf h1 t <-> wf h t) by (intros t; apply blit_wf; slices).
  eapply bind_step. { unfold xorBytes. rewrite (xor_val h _ _ _ bs) by (done || slices). rewrite cont_take by lia. fold z. rewrite sub_sub, !Z.add_0_l. reflexivity. }
  fold h1. eapply bind_step; [apply slice_upto; [done|by apply Hw|pose proof (blit_capacity h (Slices.sub dst 0 bs) z dst) as Ec; fold h1 in Ec; rewrite Ec by slices; slices]|].
  eapply bind_step; [apply slice_upto; [done|by apply Hw|pose proof (blit_capacity h (Slices.sub dst 0 bs) z dst) as Ec; fold h1 in Ec; rewrite Ec by slices; slices]|].
  assert (Hwd : wf h1 (Slices.sub dst 0 bs)) by (apply Hw; slices). eapply bind_step; [apply Encrypt_law; [done|done|done|done|cbn; lia|cbn; lia|by apply overlap_same_start]|]. rewrite sub_sub, !Z.add_0_l.
  unfold h1. rewrite cont_blit_eq by (unfold Slices.sub; slices || (cbn; lia)). rewrite blit_over by (slices || lia). done.
Qed.

Lemma encrypt_loop_val (k : nat) : forall fuel h ivs dst src, good_heap h -> wf h dst -> wf h src -> wf h ivs -> fCount src = Z.of_nat k * bs -> Z.of_nat k * bs <= fCount dst -> fCount ivs = bs ->
  aligned (Z.of_nat k * bs) dst src -> aligned bs dst ivs -> (k < fuel)%nat ->
  encrypt_loop fuel x ivs dst src h = Val (if (k =? 0)%nat then ivs else Slices.sub dst ((Z.of_nat k - 1) * bs) (Z.of_nat k * bs),
    blit h (Slices.sub dst 0 (Z.of_nat k * bs)) (cbc_encrypt (encrypted (b x)) nb k (cont h ivs) (cont h src))).
Proof.
  pose proof (size_pos (b x) Hok) as Hp. induction k as [|k IH]; intros fuel h ivs dst src Hg Hd Hs Hi Hls Hld Hli Has Hai Hf; (destruct fuel as [|fuel]; [lia|]); cbn [encrypt_loop]; pose proof (good_heap_ok h Hg) as Hh; (eapply bind_step; [by apply len_val|]).
  - rewrite Hls. cbn [Z.ltb Z.compare Z.mul Z.of_nat Nat.eqb cbc_encrypt]. unfold mret, M_ret. rewrite blit_nil by slices. done.
  - destruct (Z.ltb_spec 0 (fCount src)); [|lia]. assert (Hal : aligned bs dst src) by (unfold aligned in *; intros E; specialize (Has E); lia).
    destruct (encrypt_block h ivs dst src Hg Hd Hs Hi ltac:(lia) ltac:(lia) Hli Hal Hai) as (Hc & Hg1 & Hw & Hrun). rewrite Hrun. clear Hrun. set (c := encrypted (b x) _) in *. set (h1 := blit h (Slices.sub dst 0 bs) c) in *. rewrite Hsz. pose proof Hd as (? & ? & ? & ?). pose proof Hs as (? & ? & ? & ?). destruct Hc as [Hcl Hcb].
    assert (Hcap : forall t, capacity h1 t = capacity h t) by (intros t; apply blit_capacity; slices).
    eapply bind_step; [apply slice_upto; [done|by apply Hw|rewrite Hcap; slices]|]. eapply bind_step; [apply slice_rest; [done|by apply Hw|lia]|]. eapply bind_step; [apply slice_rest; [done|by apply Hw|lia]|].
    assert (Hsrc : cont h1 (Slices.sub src bs (fCount src)) = drop nb (cont h src)).
    { rewrite <- cont_drop by (done || lia). apply cont_blit_apart; [slices|slices|slices|slices|]. cbn. intros E. unfold aligned in Has. specialize (Has (eq_sym E)). lia. }
    assert (Hiv : cont h1 (Slices.sub dst 0 bs) = c) by (apply cont_blit_eq; [slices|cbn; lia]).
    rewrite (IH fuel h1 (Slices.sub dst 0 bs) (Slices.sub dst bs (fCount dst)) (Slices.sub src bs (fCount src))); [|done|apply Hw; slices|apply Hw; slices|apply Hw; slices|cbn; lia|cbn; lia|cbn; lia|unfold aligned in *; cbn; intros E; specialize (Has E); lia|unfold aligned; cbn; lia|lia].
    rewrite Hsrc, Hiv. cbn [Nat.eqb cbc_encrypt]. fold c. f_equal. f_equal.
    + destruct (Nat.eqb_spec k 0) as [->|Hk]; unfold Slices.sub; cbn [fArray fStart fCount]; f_equal; lia.
    + destruct (cbc_encrypt_length k c (drop nb (cont h src))) as [El Eb]; [done|by apply Forall_drop, cont_ok|rewrite length_drop; pose proof (cont_length h src Hs); lia|]. set (o := cbc_encrypt _ _ _ _ _) in *.
      pose proof (blit_blit h (Slices.sub dst 0 (Z.of_nat (S k) * bs)) c o bs) as Eb2. unfold h1, Slices.sub in *. cbn [fArray fStart fCount] in *. rewrite !Z.add_0_r, !Z.sub_0_r in *. by rewrite <- Eb2 by slices.
Qed.

Lemma blocks_of n : 0 <= n -> n mod bs = 0 -> n = Z.of_nat (Z.to_nat (n / bs)) * bs.
Proof. intros Hn Hm. pose proof (size_pos (b x) Hok) as Hp. assert (Hz : bs <> 0) by lia. pose proof (Z.div_mod n bs Hz). assert (0 <= n / bs) by (apply Z.div_pos; lia). rewrite Z2Nat.id by done. lia. Qed.

Lemma overlap_upto dst src n : 0 <= n -> fCount src = n -> InexactOverlap (Slices.sub dst 0 n) src = false -> aligned n dst src.
Proof. intros Hn Es Ho. pose proof (overlap_aligned (Slices.sub dst 0 n) src n Hn ltac:(cbn; lia) Es Ho) as Al. unfold aligned in *. cbn in Al. intros E. specialize (Al E). lia. Qed.

Lemma chained_encrypt k v p : is_block bs v -> bytes_ok p -> zlen p = Z.of_nat k * bs -> let c := cbc_encrypt (encrypted (b x)) nb k v p in
  is_block bs (chained nb v c) /\ (k <> 0%nat -> chained nb v c = take nb (drop (Z.to_nat ((Z.of_nat k - 1) * bs)) c)).
Proof.
  intros Hv Hp Hl c. destruct (cbc_encrypt_length k v p Hv Hp Hl) as [El Eb]. fold c in El, Eb. pose proof (size_pos (b x) Hok) as Hpos. unfold chained. destruct (Nat.ltb_spec (length c) nb) as [Hlt|Hge].
  - assert (k = 0%nat) as -> by nia. done.
  - split; [split; [rewrite length_drop; lia|by apply Forall_drop]|]. intros Hk. rewrite take_ge by (rewrite length_drop; nia). f_equal. nia.
Qed.

(** The whole input: the ciphertext in [dst], the last block of it kept as the next value. *)
Lemma encrypter_val h dst src v : good_heap h -> wf h dst -> wf h src -> cbc_ok h x v -> private x dst -> private x src ->
  fCount src mod bs = 0 -> fCount src <= fCount dst -> InexactOverlap (Slices.sub dst 0 (fCount src)) src = false ->
  let c := cbc_encrypt (encrypted (b x)) nb (Z.to_nat (fCount src / bs)) v (cont h src) in
  let h' := blit (blit h (Slices.sub dst 0 (fCount src)) c) (iv x) (chained nb v c) in
  cbcEncrypter_CryptBlocks x dst src h = Val (tt, h') /\ good_heap h' /\ (forall t, wf h' t <-> wf h t) /\ zlen c = fCount src /\ bytes_ok c /\ cbc_ok h' x (chained nb v c).
Proof.
  intros Hg Hd Hs [_ _ (Hwi & Hci & Ev) (Hwt & Hct) Hit] [Hpd Hpd'] [Hps Hps'] Hm Hle Hov. cbv zeta. pose proof (size_pos (b x) Hok) as Hp. pose proof Hd as (? & ? & ? & ?). pose proof Hs as (? & ? & ? & ?). set (n := fCount src) in *. set (k := Z.to_nat (n / bs)). assert (En : n = Z.of_nat k * bs) by (apply blocks_of; [lia|done]).
  assert (Hv : is_block bs v) by (rewrite <- Ev; split; [rewrite cont_length by done; lia|by apply cont_ok]). destruct (cbc_encrypt_length k v (cont h src) Hv) as [Ecl Ecb]; [by apply cont_ok|rewrite cont_length by done; fold n; lia|]. destruct (chained_encrypt k v (cont h src) Hv) as [Hch Hlast]; [by apply cont_ok|rewrite cont_length by done; fold n; lia|].
  set (c := cbc_encrypt _ _ _ _ _) in *. set (h1 := blit h (Slices.sub dst 0 n) c). assert (Hw1 : forall t, wf h1 t <-> wf h t) by (intros t; apply blit_wf; slices). assert (Hg1 : good_heap h1) by (apply blit_good; (done || slices)).
  assert (Hiv1 : cont h1 (iv x) = v) by (rewrite <- Ev; apply cont_blit_apart; [slices|slices|slices|apply Hwi|cbn; intros E; by destruct Hpd]). destruct Hch as [Hchl Hchb]. pose proof Hwi as (? & ? & ? & ?).
  assert (Hcap1 : forall t, capacity h1 t = capacity h t) by (intros t; apply blit_capacity; slices).
  assert (Hw2 : forall t, wf (blit h1 (iv x) (chained nb v c)) t <-> wf h t) by (intros t; rewrite <- Hw1; apply blit_wf; [by apply Hw1|done|rewrite Hcap1; slices]).
  split; [|split_and!; [apply blit_good; [by apply Hw1|done|rewrite Hcap1; slices|done|done]|exact Hw2|lia|done|split; [done|done|split_and!; [by apply Hw2|done|by apply cont_blit_eq; [by apply Hw1|lia]]|split; [by apply Hw2|done]|done]]].
  unfold cbcEncrypter_CryptBlocks. rewrite <- Hsz in Hm. eapply bind_step; [rewrite crypt_checks_val by (done || lia); fold n; rewrite Hm, Hov, (proj2 (Z.ltb_ge (fCount dst) n)) by lia; cbn [negb orb Z.eqb]; reflexivity|].
  eapply bind_step. { apply (encrypt_loop_val k); [done|done|done|done|fold n; lia|lia|lia| |intros E; by destruct Hpd|nia]. rewrite <- En. apply overlap_upto; [lia|done|done]. }
  rewrite Ev, <- En. fold c h1. destruct (Nat.eqb_spec k 0) as [Ek|Ek].
  - eapply bind_step; [apply (copy_val h1 (iv x) (iv x) bs); [done|by apply Hw1|by apply Hw1|lia|unfold ahead; lia]|]. unfold mret, M_ret. f_equal. f_equal. rewrite Hiv1. unfold Slices.sub. assert (Es : SliceOf (fArray (iv x)) (fStart (iv x) + 0) (bs - 0) = iv x) by (destruct (iv x); cbn in *; f_equal; lia). rewrite Es. destruct Hv as [Hvl _]. rewrite take_ge by lia.
    unfold chained. rewrite (proj2 (Nat.ltb_lt _ _)) by nia. done.
  - set (l := Slices.sub dst ((Z.of_nat k - 1) * bs) n). assert (Hwl : wf h1 l) by (apply Hw1; unfold l; slices || (unfold wf, Slices.sub; cbn; nia)). assert (Hcl : fCount l = bs) by (unfold l; cbn; lia).
    eapply bind_step; [apply (copy_val h1 (iv x) l bs); [done|by apply Hw1|done|lia|unfold ahead, l; cbn; intros E; by destruct Hpd]|]. unfold mret, M_ret. f_equal. f_equal.
    assert (Es : Slices.sub (iv x) 0 bs = iv x) by (unfold Slices.sub; destruct (iv x); cbn in *; f_equal; lia). rewrite Es. f_equal. rewrite Hlast by done. pose proof (cont_length h1 l Hwl). rewrite take_ge by lia. unfold l.
    replace (Slices.sub dst ((Z.of_nat k - 1) * bs) n) with (Slices.sub (Slices.sub dst 0 n) ((Z.of_nat k - 1) * bs) n) by (by rewrite sub_sub, !Z.add_0_l). rewrite cont_sub by (cbn; nia). unfold h1. rewrite cont_blit_eq by (slices || (cbn; lia)). f_equal. lia.
Qed.

(** ** Decryption *)

Lemma blit_start h s t l : fArray s = fArray t -> fStart s = fStart t -> blit h s l = blit h t l.
Proof. unfold blit. by intros -> ->. Qed.

Lemma blit_before h s l m i0 i j : wf h s -> 0 <= i0 <= i -> i <= j -> j <= capacity h s -> zlen l = i - i0 -> zlen m = j - i ->
  blit (blit h (Slices.sub s i j) m) (Slices.sub s i0 i) l = blit h (Slices.sub s i0 j) (l ++ m).
Proof.
  intros Hs Hi Hj Hc El Em. pose proof Hs as (? & ? & ? & ?). rewrite blit_comm by slices. rewrite (blit_start _ (Slices.sub s i j) (SliceOf (fArray (Slices.sub s i0 i)) (fStart (Slices.sub s i0 i) + (i - i0)) (zlen m))); [|done|cbn; lia].
  rewrite blit_blit by slices. by apply blit_start.
Qed.

Lemma cont_part h s m C i j : 0 <= fStart s -> 0 <= i <= j -> j <= m -> cont h (Slices.sub s 0 m) = take (Z.to_nat m) C -> cont h (Slices.sub s i j) = take (Z.to_nat (j - i)) (drop (Z.to_nat i) C).
Proof.
  intros Hst Hi Hj E. replace (Slices.sub s i j) with (Slices.sub (Slices.sub s 0 m) i j) by (by rewrite sub_sub, !Z.add_0_l). rewrite cont_sub by (cbn; lia). rewrite E. rewrite !take_drop_commute, take_take. f_equal. f_equal. lia.
Qed.

(** The last block of [k + 1]. *)
Lemma cbc_decrypt_snoc D n (k : nat) v c :
  cbc_decrypt D n (S k) v c = cbc_decrypt D n k v c ++ zip_with Z.lxor (D (take n (drop (k * n) c))) (if (k =? 0)%nat then v else take n (drop ((k - 1) * n) c)).
Proof.
  revert v c. induction k as [|k IH]; intros v c; [cbn; by rewrite app_nil_r|]. change (cbc_decrypt D n (S (S k)) v c) with (zip_with Z.lxor (D (take n c)) v ++ cbc_decrypt D n (S k) (take n c) (drop n c)). rewrite IH.
  cbn [cbc_decrypt]. rewrite <- app_assoc, !drop_drop. do 2 f_equal. destruct k as [|k]; cbn [Nat.eqb Nat.sub Nat.mul]; by rewrite ?Nat.add_0_r, ?Nat.sub_0_r.
Qed.

Lemma cbc_decrypt_length k v c : is_block bs v -> bytes_ok c -> Z.of_nat k * bs <= zlen c -> zlen (cbc_decrypt (decrypted (b x)) nb k v c) = Z.of_nat k * bs /\ bytes_ok (cbc_decrypt (decrypted (b x)) nb k v c).
Proof.
  pose proof (size_pos (b x) Hok) as Hp. revert v c. induction k as [|k IH]; intros v c Hv Hcb Hl; cbn [cbc_decrypt]; [split; [done|constructor]|].
  assert (Ht : is_block bs (take nb c)) by (split; [rewrite length_take; lia|by apply Forall_take]). pose proof (decrypted_block (b x) _ Hok Ht) as Hd.
  destruct (proj2 (cbc_block_xor bs x v _ Hok Hv Hd) eq_refl) as [Hzl Hzb]. destruct (IH (take nb c) (drop nb c) Ht ltac:(by apply Forall_drop) ltac:(rewrite length_drop; lia)) as [IHl IHb]. rewrite zlen_app. split; [lia|by apply Forall_app].
Qed.

Lemma overlap_same n dst src i j : aligned n dst src -> 0 < i <= j -> j <= n -> n <= fCount dst -> n <= fCount src -> InexactOverlap (Slices.sub dst i j) (Slices.sub src i j) = false.
Proof. rewrite overlap_false. unfold aligned. cbn. intros Ha Hi Hj Hd Hs. destruct (decide (fArray dst = fArray src)) as [E|E]; [specialize (Ha E)|tauto]. lia. Qed.

(** One block at [d] from [s], chained to [p]. *)
Lemma decrypt_block h d s p : good_heap h -> wf h d -> wf h s -> wf h p -> fCount d = bs -> fCount s = bs -> fCount p = bs -> InexactOverlap d s = false ->
  (fArray p = fArray d -> fStart p + bs <= fStart d \/ fStart d + bs <= fStart p) ->
  let z := zip_with Z.lxor (decrypted (b x) (cont h s)) (cont h p) in
  is_block bs z /\ exists h1, Decrypt (b x) d s h = Val (tt, h1) /\ good_heap h1 /\ (forall t, wf h1 t <-> wf h t) /\ (forall t, capacity h1 t = capacity h t) /\ xorBytes d d p h1 = Val (bs, blit h d z).
Proof.
  intros Hg Hd Hs Hpw Hld Hls Hlp Ho Ha z. pose proof (size_pos (b x) Hok) as Hp. pose proof (good_heap_ok h Hg) as Hh. pose proof Hd as (? & ? & ? & ?). pose proof Hs as (? & ? & ? & ?). pose proof Hpw as (? & ? & ? & ?).
  assert (Eid : forall t, fCount t = bs -> Slices.sub t 0 bs = t) by (intros [u v w] Et; unfold Slices.sub; cbn in *; f_equal; lia).
  assert (Hbs : is_block bs (cont h s)) by (split; [by rewrite cont_length|by apply cont_ok]). pose proof (decrypted_block (b x) _ Hok Hbs) as Hdb. assert (Hbp : is_block bs (cont h p)) by (split; [by rewrite cont_length|by apply cont_ok]).
  split; [by apply (cbc_block_xor bs x (cont h p))|]. pose proof Hdb as [Hdl Hdbb]. exists (blit h d (decrypted (b x) (cont h s))). assert (Hw : forall t, wf (blit h d (decrypted (b x) (cont h s))) t <-> wf h t) by (intros t; apply blit_wf; slices).
  split_and!; [|apply blit_good; (done || slices)|done|intros t; apply blit_capacity; slices|].
  - rewrite Decrypt_law by (first [done | lia | rewrite !Eid by done; done]). by rewrite !Eid by done.
  - unfold xorBytes. rewrite (xor_val _ d d p bs); [|apply blit_good; (done || slices)|by apply Hw|by apply Hw|by apply Hw|lia|lia|unfold aligned; lia|unfold aligned; intros E; specialize (Ha (eq_sym E)); lia]. rewrite Eid by done. f_equal. f_equal.
    rewrite cont_blit_eq by (done || lia). rewrite (cont_blit_apart h d _ p) by (first [slices | intros E; specialize (Ha E); lia]). fold z. apply blit_over; [done| |slices]. pose proof (proj2 (cbc_block_xor bs x _ _ Hok Hbp Hdb) eq_refl) as [Ez _]. fold z in Ez. lia.
Qed.

(** Blocks [1 .. j], from the last to the first. *)
Lemma decrypt_loop_val (C : list Z) dst src (j : nat) : forall fuel h, good_heap h -> wf h dst -> wf h src -> bytes_ok C -> (Z.of_nat j + 1) * bs <= zlen C -> (Z.of_nat j + 1) * bs <= fCount src -> (Z.of_nat j + 1) * bs <= fCount dst ->
  aligned ((Z.of_nat j + 1) * bs) dst src -> cont h (Slices.sub src 0 ((Z.of_nat j + 1) * bs)) = take (Z.to_nat ((Z.of_nat j + 1) * bs)) C -> (j < fuel)%nat ->
  decrypt_loop fuel x dst src ((Z.of_nat j + 1) * bs) (Z.of_nat j * bs) ((Z.of_nat j - 1) * bs) h =
    Val ((bs, 0), blit h (Slices.sub dst bs ((Z.of_nat j + 1) * bs)) (cbc_decrypt (decrypted (b x)) nb j (take nb C) (drop nb C))).
Proof.
  pose proof (size_pos (b x) Hok) as Hp. induction j as [|j IH]; intros fuel h Hg Hd Hs HC HlC Hls Hld Hal HE Hf; (destruct fuel as [|fuel]; [lia|]); cbn [decrypt_loop]; pose proof Hd as (? & ? & ? & ?); pose proof Hs as (? & ? & ? & ?).
  { change (Z.of_nat 0) with 0. rewrite Z.mul_0_l, Z.add_0_l, Z.mul_1_l. cbn [Z.ltb Z.compare cbc_decrypt]. by rewrite blit_nil by slices. }
  set (e := (Z.of_nat (S j) + 1) * bs) in *. set (st := Z.of_nat (S j) * bs). set (pv := (Z.of_nat (S j) - 1) * bs). assert (He : e = st + bs /\ st = pv + bs /\ 0 <= pv /\ st = (Z.of_nat j + 1) * bs /\ pv = Z.of_nat j * bs) by (unfold e, st, pv; nia).
  destruct (Z.ltb_spec 0 st); [|lia]. pose proof (cont_part h src e C st e ltac:(lia) ltac:(lia) ltac:(lia) HE) as Es. pose proof (cont_part h src e C pv st ltac:(lia) ltac:(lia) ltac:(lia) HE) as Ep.
  destruct (decrypt_block h (Slices.sub dst st e) (Slices.sub src st e) (Slices.sub src pv st)) as (Hz & h1 & Hrun & Hg1 & Hw1 & Hc1 & Hxor); [done|slices|slices|slices|cbn; lia|cbn; lia|cbn; lia|apply (overlap_same e); [done|lia|lia|lia|lia]|cbn; intros E; unfold aligned in Hal; specialize (Hal (eq_sym E)); lia|].
  set (z := zip_with _ _ _) in *. destruct Hz as [Hzl Hzb]. eapply bind_step; [apply slice_of; [done|done|lia|slices]|]. eapply bind_step; [apply slice_of; [done|done|lia|slices]|]. eapply bind_step; [exact Hrun|].
  eapply bind_step; [apply slice_of; [done|by apply Hw1|lia|rewrite Hc1; slices]|]. eapply bind_step; [apply slice_of; [done|by apply Hw1|lia|rewrite Hc1; slices]|]. eapply bind_step; [apply slice_of; [done|by apply Hw1|lia|rewrite Hc1; slices]|]. eapply bind_step; [exact Hxor|].
  rewrite Hsz. set (h2 := blit h (Slices.sub dst st e) z). assert (Hw2 : forall t, wf h2 t <-> wf h t) by (intros t; apply blit_wf; slices).
  assert (E2 : cont h2 (Slices.sub src 0 st) = take (Z.to_nat st) C).
  { unfold h2. rewrite cont_blit_apart; [|slices|slices|slices|slices|cbn; intros E; unfold aligned in Hal; specialize (Hal (eq_sym E)); lia]. rewrite (cont_part h src e C 0 st) by (done || lia). by rewrite Z.sub_0_r. }
  replace (pv - bs) with ((Z.of_nat j - 1) * bs) by lia. destruct He as (He1 & He2 & He3 & He4 & He5). rewrite He4 in E2 |- *. rewrite He5, IH; [|apply blit_good; (done || slices)|by apply Hw2|by apply Hw2|done|lia|lia|lia|unfold aligned in *; intros E; specialize (Hal E); lia|exact E2|lia].
  f_equal. f_equal. rewrite <- He4. assert (Htk : is_block bs (take nb C)) by (split; [rewrite length_take; lia|by apply Forall_take]). destruct (cbc_decrypt_length j (take nb C) (drop nb C) Htk ltac:(by apply Forall_drop) ltac:(rewrite length_drop; lia)) as [Hll _].
  unfold h2. rewrite blit_before by (done || slices). f_equal. rewrite cbc_decrypt_snoc. f_equal. unfold z. rewrite Es, Ep, !drop_drop. replace (nb + j * nb)%nat with (Z.to_nat st) by nia. replace (Z.to_nat (e - st)) with nb by lia. replace (Z.to_nat (st - pv)) with nb by lia. f_equal.
  destruct j as [|j]; cbn [Nat.eqb]; [replace pv with 0 by lia; done|]. do 2 f_equal. nia.
Qed.

(** The last block is kept as the next value before anything is written; the buffers change places. *)
Lemma decrypter_val h dst src v : good_heap h -> wf h dst -> wf h src -> cbc_ok h x v -> private x dst -> private x src ->
  fCount src mod bs = 0 -> fCount src <= fCount dst -> InexactOverlap (Slices.sub dst 0 (fCount src)) src = false ->
  let p := cbc_decrypt (decrypted (b x)) nb (Z.to_nat (fCount src / bs)) v (cont h src) in
  let v' := chained nb v (cont h src) in
  let h' := blit (if fCount src =? 0 then h else blit h (tmp x) v') (Slices.sub dst 0 (fCount src)) p in
  let x' := if fCount src =? 0 then x else Cbc (b x) (blockSize x) (tmp x) (iv x) in
  cbcDecrypter_CryptBlocks x dst src h = Val (x', h') /\ good_heap h' /\ (forall t, wf h' t <-> wf h t) /\ zlen p = fCount src /\ bytes_ok p /\ cbc_ok h' x' v'.
Proof.
  intros Hg Hd Hs Hx [Hpd Hpd'] [Hps Hps'] Hm Hle Hov. cbv zeta. pose proof Hx as [_ _ (Hwi & Hci & Ev) (Hwt & Hct) Hit]. pose proof (size_pos (b x) Hok) as Hp. pose proof Hd as (? & ? & ? & ?). pose proof Hs as (? & ? & ? & ?). pose proof Hwi as (? & ? & ? & ?). pose proof Hwt as (? & ? & ? & ?).
  set (n := fCount src) in *. set (C := cont h src). assert (ElC : zlen C = n) by (by apply cont_length). assert (HCb : bytes_ok C) by (by apply cont_ok). set (k := Z.to_nat (n / bs)). assert (En : n = Z.of_nat k * bs) by (apply blocks_of; [lia|done]).
  assert (Hv : is_block bs v) by (rewrite <- Ev; split; [rewrite cont_length by done; lia|by apply cont_ok]). destruct (cbc_decrypt_length k v C Hv HCb ltac:(lia)) as [Epl Epb]. rewrite <- En in Epl. set (p := cbc_decrypt _ _ _ _ _) in *. set (v' := chained nb v C).
  unfold cbcDecrypter_CryptBlocks. assert (Hchk : crypt_checks x dst src h = Val (n, h)) by (rewrite crypt_checks_val by (done || lia); fold n; rewrite Hsz, Hm, Hov, (proj2 (Z.ltb_ge (fCount dst) n)) by lia; done).
  destruct (Z.eqb_spec n 0) as [E0|E0].
  - assert (Ep : p = []) by (apply length_zero_iff_nil; lia). assert (Ev' : v' = v) by (unfold v', chained; by rewrite (proj2 (Nat.ltb_lt _ _)) by lia). rewrite Ep, Ev', blit_nil by slices. split_and!; [|done|done|cbn; lia|constructor|exact Hx]. eapply bind_step; [exact Hchk|]. by rewrite E0.
  - destruct k as [|j] eqn:Ek; [lia|]. set (st := Z.of_nat j * bs). assert (Hst : n = st + bs /\ 0 <= st) by (unfold st; nia). set (last := Slices.sub src st n). assert (Hwl : wf h last) by (unfold last; slices).
    assert (Elast : cont h last = v'). { unfold last. rewrite cont_sub by lia. fold C. unfold v', chained. rewrite (proj2 (Nat.ltb_ge _ _)) by lia. rewrite take_ge by (rewrite length_drop; lia). f_equal. lia. }
    assert (Hvb : is_block bs v') by (rewrite <- Elast; split; [rewrite cont_length by done; unfold last; cbn; lia|by apply cont_ok]). pose proof Hvb as [Hvl Hvbb].
    assert (Eid : forall t, fCount t = bs -> Slices.sub t 0 bs = t) by (intros [u w q] Et; unfold Slices.sub; cbn in *; f_equal; lia). set (h1 := blit h (tmp x) v').
    assert (Hw1 : forall t, wf h1 t <-> wf h t) by (intros t; apply blit_wf; slices). assert (Hn1 : length h1 = length h) by apply blit_length. assert (Hg1 : good_heap h1) by (apply blit_good; (done || slices)). assert (Hcp1 : forall t, capacity h1 t = capacity h t) by (intros t; apply blit_capacity; slices).
    assert (Hsrc1 : forall i j0, 0 <= i <= j0 -> j0 <= n -> cont h1 (Slices.sub src i j0) = take (Z.to_nat (j0 - i)) (drop (Z.to_nat i) C)).
    { intros i j0 Hi Hj. unfold h1. rewrite cont_blit_apart by (first [slices | cbn; intros E; by destruct Hps']). by rewrite cont_sub by lia. }
    destruct (cbc_decrypt_length j (take nb C) (drop nb C)) as [Erl Erb]; [split; [rewrite length_take; lia|by apply Forall_take]|by apply Forall_drop|rewrite length_drop; lia|]. set (rest := cbc_decrypt (decrypted (b x)) nb j (take nb C) (drop nb C)) in *. set (h2 := blit h1 (Slices.sub dst bs n) rest).
    assert (Hw2 : forall t, wf h2 t <-> wf h1 t) by (intros t; apply blit_wf; [rewrite Hn1; slices|slices|rewrite Hcp1; slices]).
    assert (Hg2 : good_heap h2) by (apply blit_good; [rewrite Hn1; slices|slices|rewrite Hcp1; slices|done|done]). assert (Hcp2 : forall t, capacity h2 t = capacity h t) by (intros t; rewrite <- Hcp1; apply blit_capacity; [rewrite Hn1; slices|slices|rewrite Hcp1; slices]).
    pose proof (overlap_upto dst src n ltac:(lia) ltac:(done) Hov) as Hal.
    assert (Hs2 : cont h2 (Slices.sub src 0 bs) = take nb C). { unfold h2. rewrite cont_blit_apart; [rewrite Hsrc1 by lia; by rewrite Z.sub_0_r|rewrite Hn1; slices|slices|rewrite Hcp1; slices|slices|cbn; intros E; unfold aligned in Hal; specialize (Hal (eq_sym E)); lia]. }
    assert (Hi2 : cont h2 (iv x) = v). { unfold h2. rewrite cont_blit_apart; [|rewrite Hn1; slices|slices|rewrite Hcp1; slices|done|cbn; intros E; by destruct Hpd]. rewrite <- Ev. apply cont_blit_apart; [done|done|slices|done|by intros E; destruct Hit]. }
    destruct (decrypt_block h2 (Slices.sub dst 0 bs) (Slices.sub src 0 bs) (iv x)) as (Hz & h3 & Hrun & Hg3 & Hw3 & Hc3 & Hxor); [done|apply Hw2, Hw1; slices|apply Hw2, Hw1; slices|by apply Hw2, Hw1|cbn; lia|cbn; lia|done| |cbn; intros E; by destruct Hpd|].
    { rewrite <- (Z.add_0_l 0) at 1. rewrite <- (Z.add_0_l bs) at 1. rewrite <- (sub_sub dst 0 n). apply (overlap_parts _ _ n); [lia|lia|cbn; lia|done|done]. }
    rewrite Hs2, Hi2 in Hz, Hxor. set (z := zip_with _ _ _) in *. pose proof Hz as [Hzl Hzb]. assert (Ehf : blit h2 (Slices.sub dst 0 bs) z = blit h1 (Slices.sub dst 0 n) p) by (apply blit_before; [by apply Hw1|lia|lia|rewrite Hcp1; slices|lia|lia]).
    assert (Hwf : forall t, wf (blit h1 (Slices.sub dst 0 n) p) t <-> wf h t) by (intros t; rewrite <- Hw1; apply blit_wf; [rewrite Hn1; slices|slices|rewrite Hcp1; slices]).
    assert (Hvt : cont (blit h1 (Slices.sub dst 0 n) p) (tmp x) = v') by (rewrite cont_blit_apart; [apply cont_blit_eq; [done|lia]|rewrite Hn1; slices|slices|rewrite Hcp1; slices|done|cbn; intros E; by destruct Hpd']).
    split_and!; [|apply blit_good; [rewrite Hn1; slices|slices|rewrite Hcp1; slices|done|done]|exact Hwf|done|done|split; cbn; [done|done|split_and!; [by apply Hwf|done|done]|split; [by apply Hwf|done]|by intros E; destruct Hit]].
    eapply bind_step; [exact Hchk|]. rewrite (proj2 (Z.eqb_neq n 0)), Hsz by done. cbv zeta. replace (n - bs) with st by lia. eapply bind_step; [apply slice_of; [done|done|lia|slices]|]. fold last.
    eapply bind_step; [apply (copy_val h (tmp x) last bs); [done|done|done|unfold last; cbn; lia|unfold ahead, last; cbn; intros E; by destruct Hps']|]. rewrite Eid, Elast by done. rewrite (take_ge v') by lia. fold h1.
    replace (st - bs) with ((Z.of_nat j - 1) * bs) by (unfold st; lia). replace n with ((Z.of_nat j + 1) * bs) at 2 by lia. eapply bind_step.
    { unfold st. apply (decrypt_loop_val C); [done|by apply Hw1|by apply Hw1|done|lia|lia|lia|replace ((Z.of_nat j + 1) * bs) with n by lia; done| |nia]. rewrite Hsrc1 by lia. by rewrite Z.sub_0_r. }
    cbv beta iota. fold rest. replace ((Z.of_nat j + 1) * bs) with n by lia. fold h2. eapply bind_step; [apply slice_of; [done|by apply Hw2, Hw1|lia|rewrite Hcp2; slices]|]. eapply bind_step; [apply slice_of; [done|by apply Hw2, Hw1|lia|rewrite Hcp2; slices]|]. eapply bind_step; [exact Hrun|].
    eapply bind_step; [apply slice_of; [done|by apply Hw3, Hw2, Hw1|lia|rewrite Hc3, Hcp2; slices]|]. eapply bind_step; [apply slice_of; [done|by apply Hw3, Hw2, Hw1|lia|rewrite Hc3, Hcp2; slices]|]. eapply bind_step; [exact Hxor|]. rewrite Ehf. done.
Qed.

(** ** The two modes together *)

Lemma cbc_inverse k v p : is_block bs v -> bytes_ok p -> zlen p = Z.of_nat k * bs -> cbc_decrypt (decrypted (b x)) nb k v (cbc_encrypt (encrypted (b x)) nb k v p) = p.
Proof.
  pose proof (size_pos (b x) Hok) as Hp. revert v p. induction k as [|k IH]; intros v p Hv Hb Hl; cbn [cbc_decrypt cbc_encrypt]; [symmetry; apply length_zero_iff_nil; lia|].
  assert (Ht : is_block bs (take nb p)) by (split; [rewrite length_take; lia|by apply Forall_take]). pose proof (proj2 (cbc_block_xor bs x v _ Hok Hv Ht) eq_refl) as Hz. pose proof (encrypted_block (b x) _ Hok Hz) as Hc. set (c := encrypted (b x) _) in *. pose proof Hc as [Hcl _].
  rewrite take_app_length', drop_app_length' by lia. unfold c at 1. rewrite decrypted_encrypted by done. destruct Hv as [Hvl _]. destruct Ht as [Htl _]. rewrite xor_xor by lia. rewrite IH by (first [done | by apply Forall_drop | rewrite length_drop; lia]). apply take_drop.
Qed.

Lemma chained_app v l m (k : nat) : length l = nb -> length m = (k * nb)%nat -> chained nb v (l ++ m) = chained nb l m.
Proof.
  pose proof (size_pos (b x) Hok) as Hp. intros El Em. unfold chained. rewrite length_app, (proj2 (Nat.ltb_ge _ _)) by lia. destruct k as [|k]; [|rewrite (proj2 (Nat.ltb_ge _ _)) by lia].
  - rewrite (proj2 (Nat.ltb_lt _ _)) by lia. apply length_zero_iff_nil in Em as ->. rewrite app_nil_r. cbn [length]. by replace (length l + 0 - nb)%nat with 0%nat by lia.
  - rewrite drop_app_ge by lia. f_equal. lia.
Qed.

(** The bytes after [k] blocks are decrypted with the value chained to at that point. *)
Lemma cbc_decrypt_split k m v c : (k * nb <= length c)%nat ->
  cbc_decrypt (decrypted (b x)) nb (k + m) v c = cbc_decrypt (decrypted (b x)) nb k v (take (k * nb) c) ++ cbc_decrypt (decrypted (b x)) nb m (chained nb v (take (k * nb) c)) (drop (k * nb) c).
Proof.
  pose proof (size_pos (b x) Hok) as Hp. revert v c. induction k as [|k IH]; intros v c Hl.
  - cbn [Nat.add Nat.mul cbc_decrypt app]. rewrite drop_0. unfold chained. rewrite take_0. cbn [length]. destruct (Nat.ltb_spec 0 nb); [done|lia].
  - cbn [Nat.add cbc_decrypt]. rewrite IH by (rewrite length_drop; lia). rewrite app_assoc. assert (Et : take (S k * nb) c = take nb c ++ take (k * nb) (drop nb c)) by (by rewrite take_take_drop).
    rewrite Et, take_app_length', drop_app_length' by (rewrite length_take; nia). rewrite (chained_app v _ _ k) by (rewrite ?length_take, ?length_drop; nia). rewrite drop_drop. done.
Qed.
End Laws.

(** ** The methods and the constructors *)

Section Modes.
Context {B : Type} `{BlockLaws B}.
Implicit Types (h : bytes_heap) (x : cbc B) (dst src s : Slice).

(** What the methods leave as it was: all but the first [n] bytes of [dst] and the buffers of [x]. *)
Definition untouched x dst (n : Z) h h' : Prop :=
  (forall t, wf h t -> wf h' t) /\
  forall t, wf h t -> private x t -> (fArray t = fArray dst -> fStart t + fCount t <= fStart dst \/ fStart dst + n <= fStart t) -> cont h' t = cont h t.

Definition refused x dst src : bool :=
  negb (fCount src mod BlockSize (b x) =? 0) || (fCount dst <? fCount src) || InexactOverlap (Slices.sub dst 0 (fCount src)) src.

Lemma refused_spec x dst src : refused x dst src = false <-> fCount src mod BlockSize (b x) = 0 /\ fCount src <= fCount dst /\ InexactOverlap (Slices.sub dst 0 (fCount src)) src = false.
Proof. unfold refused. rewrite !orb_false_iff, negb_false_iff, Z.eqb_eq, Z.ltb_ge. tauto. Qed.

Definition blocks_in x src : nat := Z.to_nat (fCount src / BlockSize (b x)).
Definition ciphertext h x v src : list Z := cbc_encrypt (encrypted (b x)) (Z.to_nat (BlockSize (b x))) (blocks_in x src) v (cont h src).
Definition plaintext h x v src : list Z := cbc_decrypt (decrypted (b x)) (Z.to_nat (BlockSize (b x))) (blocks_in x src) v (cont h src).
Definition next_value x v c : list Z := chained (Z.to_nat (BlockSize (b x))) v c.

Lemma encrypts h x v dst src : good_heap h -> wf h dst -> wf h src -> cbc_ok h x v -> private x dst -> private x src -> refused x dst src = false ->
  exists h', cbcEncrypter_CryptBlocks x dst src h = Val (tt, h') /\ good_heap h' /\ cont h' (Slices.sub dst 0 (fCount src)) = ciphertext h x v src /\ cbc_ok h' x (next_value x v (ciphertext h x v src)) /\ untouched x dst (fCount src) h h'.
Proof.
  intros Hg Hd Hs Hx Hpd Hps (Hm & Hle & Ho)%refused_spec. pose proof Hx as [Hok Hsz (Hwi & Hci & Ev) _ _]. destruct (encrypter_val x Hok Hsz h dst src v Hg Hd Hs Hx Hpd Hps Hm Hle Ho) as (Er & Hg' & Hw & El & Eb & Hx'). fold (blocks_in x src) in *. fold (ciphertext h x v src) in *. fold (next_value x v (ciphertext h x v src)) in *.
  pose proof Hd as (? & ? & ? & ?). pose proof Hs as (? & ? & ? & ?). set (h1 := blit h _ _) in *. assert (Hn1 : length h1 = length h) by apply blit_length. assert (Hc1 : forall t, capacity h1 t = capacity h t) by (intros t; apply blit_capacity; slices). pose proof Hwi as (? & ? & ? & ?). pose proof Hx' as [_ _ (Hwi' & _ & Ev') _ _].
  assert (Hnl : zlen (next_value x v (ciphertext h x v src)) = BlockSize (b x)) by (rewrite <- Ev'; rewrite cont_length by done; done).
  assert (Hfr : forall t, 0 <= fStart t -> fArray t <> fArray (iv x) -> cont (blit h1 (iv x) (next_value x v (ciphertext h x v src))) t = cont h1 t) by (intros t Ht Hne; apply cont_blit_apart; [lia|done|rewrite Hc1; slices|done|done]).
  eexists. split; [exact Er|]. split; [done|]. split; [|split; [done|]].
  - rewrite Hfr by (first [slices | cbn; by destruct Hpd]). apply cont_blit_eq; [slices|cbn; lia].
  - split; [intros t; by apply Hw|]. intros t Ht [Hp1 Hp2] Ha. pose proof Ht as (? & ? & ? & ?). rewrite Hfr by done. apply cont_blit_apart; [slices|slices|slices|done|]. cbn. intros E. specialize (Ha E). lia.
Qed.

Lemma decrypts h x v dst src : good_heap h -> wf h dst -> wf h src -> cbc_ok h x v -> private x dst -> private x src -> refused x dst src = false ->
  exists x' h', cbcDecrypter_CryptBlocks x dst src h = Val (x', h') /\ good_heap h' /\ cont h' (Slices.sub dst 0 (fCount src)) = plaintext h x v src /\ cbc_ok h' x' (next_value x v (cont h src)) /\ untouched x dst (fCount src) h h' /\
    b x' = b x /\ forall t, private x' t <-> private x t.
Proof.
  intros Hg Hd Hs Hx Hpd Hps (Hm & Hle & Ho)%refused_spec. pose proof Hx as [Hok Hsz _ (Hwt & Hct) _]. destruct (decrypter_val x Hok Hsz h dst src v Hg Hd Hs Hx Hpd Hps Hm Hle Ho) as (Er & Hg' & Hw & El & Eb & Hx'). fold (blocks_in x src) in *. fold (plaintext h x v src) in *. fold (next_value x v (cont h src)) in *.
  pose proof Hd as (? & ? & ? & ?). pose proof Hs as (? & ? & ? & ?). pose proof Hwt as (? & ? & ? & ?). set (h1 := if fCount src =? 0 then h else _) in *. set (x' := if fCount src =? 0 then x else _) in *. pose proof Hx' as [_ _ (Hwi' & Hci' & Ev') _ _].
  assert (Hbx : b x' = b x) by (unfold x'; by destruct (_ =? _)). assert (Hnl : zlen (next_value x v (cont h src)) = BlockSize (b x)) by (rewrite <- Ev', cont_length by done; by rewrite Hci', Hbx).
  assert (Hh1 : length h1 = length h /\ (forall t, wf h1 t <-> wf h t) /\ (forall t, capacity h1 t = capacity h t) /\ forall t, wf h t -> private x t -> cont h1 t = cont h t).
  { unfold h1. destruct (_ =? _); [done|]. split_and!; [apply blit_length|intros t; apply blit_wf; slices|intros t; apply blit_capacity; slices|]. intros t (? & ? & ? & ?) [? ?]. apply cont_blit_apart; [slices|slices|slices|slices|done]. }
  destruct Hh1 as (Hn1 & Hw1 & Hc1 & Hf1). exists x'. eexists. split; [exact Er|]. split; [done|]. split; [apply cont_blit_eq; [apply Hw1; slices|cbn; lia]|]. split; [done|]. split; [|split; [done|]].
  - split; [intros t; by apply Hw|]. intros t Ht Hp Ha. pose proof Ht as (? & ? & ? & ?). rewrite <- Hf1 by done. apply cont_blit_apart; [rewrite Hn1; slices|slices|rewrite Hc1; slices|done|]. cbn. intros E. specialize (Ha E). lia.
  - intros t. unfold x', private. destruct (_ =? _); cbn; tauto.
Qed.

Lemma CryptBlocks_refused h x v dst src : good_heap h -> wf h dst -> wf h src -> cbc_ok h x v -> refused x dst src = true ->
  cbcEncrypter_CryptBlocks x dst src h = Panic Explicit /\ cbcDecrypter_CryptBlocks x dst src h = Panic Explicit.
Proof.
  intros Hg Hd Hs [Hok Hsz _ _ _] Hr. pose proof (size_pos (b x) Hok). assert (E : crypt_checks x dst src h = Panic Explicit) by (rewrite crypt_checks_val by (done || lia); unfold refused in Hr; by rewrite Hsz, Hr). split; by apply bind_panic.
Qed.

Lemma constructed (k : B) h ivs : good_heap h -> block_ok k -> wf h ivs -> fCount ivs = BlockSize k ->
  exists x h', newCBC k ivs h = Val (x, h') /\ b x = k /\ cbc_ok h' x (cont h ivs) /\ good_heap h' /\ (length h <= fArray (iv x))%nat /\ (length h <= fArray (tmp x))%nat /\ forall t, wf h t -> wf h' t /\ cont h' t = cont h t /\ private x t.
Proof.
  intros Hg Hok Hi Hc. pose proof (size_pos k Hok). pose proof (cont_length h ivs Hi) as El. set (h1 := h ++ [cont h ivs]). assert (Hg1 : good_heap h1) by (by apply good_app, cont_ok). assert (Hl1 : length h1 = S (length h)) by (unfold h1; rewrite length_app; cbn; lia).
  set (x := Cbc k (BlockSize k) (fresh h (fCount ivs)) (fresh h1 (BlockSize k))). assert (Hw1 : wf h1 (fresh h (fCount ivs))) by (by apply fresh_wf). pose proof Hw1 as [Hlt _].
  exists x, (h1 ++ [make 0 (BlockSize k)]). split_and!; [| |split; cbn; [done|done|split_and!; [by apply wf_app|done|]|split; [|done]|lia]|by apply good_app, bytes_make|done|cbn; lia|].
  - unfold newCBC. eapply bind_step; [by apply dup_val|]. fold h1. eapply bind_step; [apply new_sized_val; lia|]. done.
  - done.
  - rewrite cont_app by done. by apply cont_fresh.
  - apply fresh_wf. apply zlen_make. lia.
  - intros t Ht. pose proof Ht as [Hlt' _]. split; [by apply wf_app, wf_app|]. split; [rewrite cont_app by lia; by apply cont_app|]. unfold private. cbn. lia.
Qed.

Lemma constructors_check (k : B) h ivs : good_heap h -> wf h ivs ->
  NewCBCEncrypter k ivs h = (if fCount ivs =? BlockSize k then newCBC k ivs h else Panic Explicit) /\ NewCBCDecrypter k ivs h = (if fCount ivs =? BlockSize k then newCBC k ivs h else Panic Explicit).
Proof. intros Hg Hi. pose proof (good_heap_ok h Hg). split; (eapply bind_step; [by apply len_val|]); by destruct (_ =? _). Qed.

(** The bytes on both sides of a position. *)
Lemma cont_halves h s m : wf h s -> 0 <= m <= fCount s -> cont h s = cont h (Slices.sub s 0 m) ++ cont h (Slices.sub s m (fCount s)).
Proof. intros Hs Hm. pose proof Hs as (? & ? & ? & ?). rewrite cont_take, cont_drop by (done || lia). by rewrite take_drop. Qed.

Lemma sub_whole s : Slices.sub s 0 (fCount s) = s.
Proof. destruct s as [u w q]. unfold Slices.sub. cbn. f_equal; lia. Qed.

(** In two calls as in one. *)
Lemma decrypts_in_parts h x v s m : good_heap h -> wf h s -> cbc_ok h x v -> private x s -> fCount s mod BlockSize (b x) = 0 -> m mod BlockSize (b x) = 0 -> 0 <= m <= fCount s ->
  exists h', (s1 ← slice_ s None (Some m); x ← cbcDecrypter_CryptBlocks x s1 s1; s2 ← slice_ s (Some m) None; cbcDecrypter_CryptBlocks x s2 s2;; mret tt) h = Val (tt, h') /\ cont h' s = plaintext h x v s.
Proof.
  intros Hg Hs Hx Hps Hms Hmm Hm. pose proof Hx as [Hok Hsz (Hwi & Hci & Ev) _ _]. pose proof (size_pos (b x) Hok) as Hp. pose proof Hs as (? & ? & ? & ?). set (n := fCount s) in *. set (nb := Z.to_nat (BlockSize (b x))).
  pose proof (blocks_of x Hok m ltac:(lia) Hmm) as Em. assert (Hd : (n - m) mod BlockSize (b x) = 0) by (rewrite Zminus_mod, Hms, Hmm; apply Z.mod_0_l; lia). pose proof (blocks_of x Hok (n - m) ltac:(lia) Hd) as Er. set (k1 := Z.to_nat (m / BlockSize (b x))) in *. set (k2 := Z.to_nat ((n - m) / BlockSize (b x))) in *.
  assert (Ek : blocks_in x s = (k1 + k2)%nat). { unfold blocks_in. fold n. replace n with (Z.of_nat (k1 + k2) * BlockSize (b x)) by nia. rewrite Z.div_mul by lia. lia. }
  set (s1 := Slices.sub s 0 m). set (s2 := Slices.sub s m n). assert (Hs1 : wf h s1) by slices. assert (Hs2 : wf h s2) by slices.
  assert (Er1 : refused x s1 s1 = false) by (apply refused_spec; cbn; rewrite Z.sub_0_r; split_and!; [done|lia|apply overlap_same_start; cbn; lia]).
  destruct (decrypts h x v s1 s1 Hg Hs1 Hs1 Hx Hps Hps Er1) as (y & h1 & R1 & Hg1 & C1 & Hy & [Hw1 Hu1] & Eb & Hpy). pose proof (Hu1 s2 Hs2 Hps ltac:(cbn; lia)) as C2. rewrite sub_whole in C1.
  assert (Hpy2 : private y s2) by (by apply Hpy). assert (Er2 : refused y s2 s2 = false) by (apply refused_spec; rewrite Eb; cbn; split_and!; [done|lia|apply overlap_same_start; cbn; lia]).
  destruct (decrypts h1 y _ s2 s2 Hg1 (Hw1 _ Hs2) (Hw1 _ Hs2) Hy Hpy2 Hpy2 Er2) as (z & h2 & R2 & Hg2 & C3 & _ & [Hw2 Hu2] & _ & _). pose proof (Hu2 s1 (Hw1 _ Hs1) ltac:(by apply Hpy) ltac:(cbn; lia)) as C4. rewrite sub_whole in C3.
  exists h2. split.
  - eapply bind_step; [apply slice_upto; [done|done|slices]|]. eapply bind_step; [exact R1|]. eapply bind_step; [apply slice_rest; [done|by apply Hw1|fold n; lia]|]. fold n s2. eapply bind_step; [exact R2|]. done.
  - rewrite (cont_halves h2 s m) by (fold n; auto). fold n s1 s2. rewrite C4, C1, C3. unfold plaintext. rewrite Eb, Ek, C2. unfold blocks_in at 1 2. rewrite Eb. cbn [fCount s1 s2 Slices.sub]. rewrite Z.sub_0_r. fold k1 k2 nb.
    pose proof (cont_length h s Hs) as El. fold n in El. rewrite (cbc_decrypt_split x Hok) by (fold nb; nia). fold nb. replace (k1 * nb)%nat with (Z.to_nat m) by nia. unfold s1, s2. rewrite cont_take by (fold n; lia). fold n. unfold n at 1. rewrite cont_drop by (done || (fold n; lia)). unfold next_value. done.
Qed.

(** ** Properties *)

(** For every block cipher that keeps the interface's laws, CryptBlocks of the encrypter and of the decrypter are the two halves of CBC mode (SP 800-38A, 6.2) on the whole input from the value the mode stands at, whether [dst] is [src] itself or lies apart from it; what the next call continues from is the last ciphertext block, also when the decrypter has just written over it; and nothing but the output and the mode's own buffers changes.  Input that is not whole blocks, an output that is too short, or an inexact overlap panics. *)
Theorem CryptBlocks_standard h x v dst src : good_heap h -> wf h dst -> wf h src -> cbc_ok h x v -> private x dst -> private x src ->
  if refused x dst src then cbcEncrypter_CryptBlocks x dst src h = Panic Explicit /\ cbcDecrypter_CryptBlocks x dst src h = Panic Explicit
  else
    (exists h', cbcEncrypter_CryptBlocks x dst src h = Val (tt, h') /\ cont h' (Slices.sub dst 0 (fCount src)) = ciphertext h x v src /\
       cbc_ok h' x (next_value x v (ciphertext h x v src)) /\ untouched x dst (fCount src) h h') /\
    (exists x' h', cbcDecrypter_CryptBlocks x dst src h = Val (x', h') /\ cont h' (Slices.sub dst 0 (fCount src)) = plaintext h x v src /\
       cbc_ok h' x' (next_value x v (cont h src)) /\ untouched x dst (fCount src) h h').
Proof.
  intros Hg Hd Hs Hx Hpd Hps. destruct (refused x dst src) eqn:Hr; [by eapply CryptBlocks_refused|]. split.
  - destruct (encrypts h x v dst src) as (h' & ? & _ & ? & ? & ?); try done. by exists h'.
  - destruct (decrypts h x v dst src) as (x' & h' & ? & _ & ? & ? & ? & _); try done. by exists x', h'.
Qed.

(** A buffer encrypted in place, then decrypted in place in two calls, each with a mode made from the same initial vector. *)
Definition there_and_back (k : B) (ivs s : Slice) (m : Z) : M bytes_heap unit :=
  e ← NewCBCEncrypter k ivs;
  d ← NewCBCDecrypter k ivs;
  cbcEncrypter_CryptBlocks e s s;;
  s1 ← slice_ s None (Some m); d ← cbcDecrypter_CryptBlocks d s1 s1;
  s2 ← slice_ s (Some m) None; cbcDecrypter_CryptBlocks d s2 s2;;
  mret tt.

(** Round trip: for every block cipher with the interface's laws, a buffer of whole blocks that is encrypted in place by a new encrypter and decrypted in place by a new decrypter of the same initial vector, in two calls that meet at any block boundary, holds its first contents again, even where the initial vector is part of the buffer; an initial vector that is not one block panics. *)
Theorem cbc_round_trip (k : B) h ivs s m : good_heap h -> block_ok k -> wf h ivs -> wf h s -> fCount s mod BlockSize k = 0 -> m mod BlockSize k = 0 -> 0 <= m <= fCount s ->
  if fCount ivs =? BlockSize k then exists h', there_and_back k ivs s m h = Val (tt, h') /\ cont h' s = cont h s
  else NewCBCEncrypter k ivs h = Panic Explicit /\ NewCBCDecrypter k ivs h = Panic Explicit.
Proof.
  intros Hg Hok Hi Hs Hms Hmm Hm. destruct (constructors_check k h ivs Hg Hi) as [Ee Ed]. destruct (Z.eqb_spec (fCount ivs) (BlockSize k)) as [Ec|]; [|done]. clear Ed. pose proof (size_pos k Hok) as Hp. pose proof Hs as (? & ? & ? & ?).
  destruct (constructed k h ivs Hg Hok Hi Ec) as (e & h1 & Re & Eke & He & Hg1 & Hae & Hate & Hf1). destruct (Hf1 ivs Hi) as (Hi1 & Ei1 & _). destruct (Hf1 s Hs) as (Hs1 & Es1 & Hes).
  destruct (constructed k h1 ivs Hg1 Hok Hi1 Ec) as (d & h2 & Rd & Ekd & Hd & Hg2 & Had & Hatd & Hf2). destruct (Hf2 s Hs1) as (Hs2 & Es2 & Hds). rewrite Ei1 in Hd.
  assert (He2 : cbc_ok h2 e (cont h ivs)). { destruct He as [Hk Hsz (Hw & Hc & Ev) (Hwt & Hct) Hne]. destruct (Hf2 _ Hw) as (? & ? & _), (Hf2 _ Hwt) as (? & _). split; [done|done|split_and!; [done|done|congruence]|done|done]. }
  assert (Hre : refused e s s = false). { apply refused_spec. rewrite Eke. split_and!; [done|lia|apply overlap_same_start; cbn; lia]. }
  destruct (encrypts h2 e (cont h ivs) s s Hg2 Hs2 Hs2 He2 Hes Hes Hre) as (h3 & Rc & Hg3 & Ec3 & _ & [Hw3 Hu3]).
  assert (Hd3 : cbc_ok h3 d (cont h ivs)).
  { destruct Hd as [Hk Hsz (Hw & Hc & Ev) (Hwt & Hct) Hne]. pose proof He as [_ _ [(? & _) _] [(? & _) _] _]. pose proof Hds as [Hds1 Hds2]. pose proof (Hu3 _ Hw ltac:(split; lia) ltac:(intros E; by destruct Hds1)) as Hcu. split; [done|done|split_and!; [by apply Hw3|done|congruence]|split; [by apply Hw3|done]|done]. }
  destruct (decrypts_in_parts h3 d (cont h ivs) s m Hg3 (Hw3 _ Hs2) Hd3 Hds) as (h4 & R4 & C4); [by rewrite Ekd|by rewrite Ekd|done|]. exists h4. split.
  - eapply bind_step; [rewrite Ee; exact Re|]. destruct (constructors_check k h1 ivs Hg1 Hi1) as [_ Ed1]. rewrite (proj2 (Z.eqb_eq _ _) Ec) in Ed1. eapply bind_step; [rewrite Ed1; exact Rd|]. eapply bind_step; [exact Rc|]. exact R4.
  - rewrite C4. unfold plaintext. assert (Ec3' : cont h3 s = ciphertext h2 e (cont h ivs) s) by (by rewrite <- Ec3, sub_whole). rewrite Ec3'. unfold ciphertext, blocks_in. rewrite Eke, Ekd, Es2, Es1. rewrite <- Ekd.
    pose proof (blocks_of d ltac:(by rewrite Ekd) (fCount s) ltac:(lia) ltac:(by rewrite Ekd)) as En. apply (cbc_inverse d ltac:(by rewrite Ekd)); [split; [rewrite cont_length by done; congruence|by apply cont_ok]|by apply cont_ok|rewrite cont_length by done; exact En].
Qed.
End Modes.
