(* ===== verification/Aes.v ===== *)
(** * crypto/aes

    src/Source/Gold/crypto/aes/block.go and cipher.go with the generic implementation (cipher_generic.go): key expansion, the
    block functions on the tables of file AesTables, and the methods, which make the interface of file Block.  The
    reference is FIPS 197: the cipher and its inverse on states of sixteen bytes. *)

From Stdlib Require Import Btauto.
From S2P Require Import Prelude State Binary Hash Strconv Slices Block AesTables.

Local Open Scope go_scope.

Definition BlockSize : Z := 16.

(** ** block.go *)

(** The four words of a state, and the words of one column of the tables. *)
Definition words : Type := Z * Z * Z * Z.

Definition table_word (xk : list Z) (k : Z) (A B C D : list Z) (a b c d : Z) : outcome Z :=
  x ← index xk k; p ← index A (u8 (a >>. 24)); q ← index B (u8 (b >>. 16)); r ← index C (u8 (c >>. 8)); s ← index D (u8 d);
  Val (x ^. p ^. q ^. r ^. s).
Definition sbox_word (sbox : list Z) (a b c d : Z) : outcome Z :=
  p ← index sbox (a >>. 24); q ← index sbox ((b >>. 16) &. 0xff); r ← index sbox ((c >>. 8) &. 0xff); s ← index sbox (d &. 0xff);
  Val (p <<.[32] 24 |. q <<.[32] 16 |. r <<.[32] 8 |. s).
Definition add_key (xk : list Z) (k : Z) : words -> outcome words := λ '(s0, s1, s2, s3),
  x0 ← index xk (k + 0); x1 ← index xk (k + 1); x2 ← index xk (k + 2); x3 ← index xk (k + 3); Val (s0 ^. x0, s1 ^. x1, s2 ^. x2, s3 ^. x3).

(** The body of the loop over the middle rounds: [k], the words and the words of the last turn. *)
Definition encrypt_turn (xk : list Z) : Z -> Z * words * words -> outcome (Z * words * words) := λ _ '(k, (s0, s1, s2, s3), _),
  t0 ← table_word xk (k + 0) te0 te1 te2 te3 s0 s1 s2 s3;
  t1 ← table_word xk (k + 1) te0 te1 te2 te3 s1 s2 s3 s0;
  t2 ← table_word xk (k + 2) te0 te1 te2 te3 s2 s3 s0 s1;
  t3 ← table_word xk (k + 3) te0 te1 te2 te3 s3 s0 s1 s2;
  Val (k + 4, (t0, t1, t2, t3), (t0, t1, t2, t3)).
Definition decrypt_turn (xk : list Z) : Z -> Z * words * words -> outcome (Z * words * words) := λ _ '(k, (s0, s1, s2, s3), _),
  t0 ← table_word xk (k + 0) td0 td1 td2 td3 s0 s3 s2 s1;
  t1 ← table_word xk (k + 1) td0 td1 td2 td3 s1 s0 s3 s2;
  t2 ← table_word xk (k + 2) td0 td1 td2 td3 s2 s1 s0 s3;
  t3 ← table_word xk (k + 3) td0 td1 td2 td3 s3 s2 s1 s0;
  Val (k + 4, (t0, t1, t2, t3), (t0, t1, t2, t3)).

Definition middle_rounds (xk : list Z) : Z := Z.quot (zlen xk) 4 - 2.

Definition encrypt_words (xk : list Z) (s : words) : outcome words :=
  s ← add_key xk 0 s;
  '(k, _, (t0, t1, t2, t3)) ← for_up 0 (Z.max 0 (middle_rounds xk)) (encrypt_turn xk) (4, s, (0, 0, 0, 0));
  s0 ← sbox_word sbox0 t0 t1 t2 t3; s1 ← sbox_word sbox0 t1 t2 t3 t0; s2 ← sbox_word sbox0 t2 t3 t0 t1; s3 ← sbox_word sbox0 t3 t0 t1 t2;
  add_key xk k (s0, s1, s2, s3).
Definition decrypt_words (xk : list Z) (s : words) : outcome words :=
  s ← add_key xk 0 s;
  '(k, _, (t0, t1, t2, t3)) ← for_up 0 (Z.max 0 (middle_rounds xk)) (decrypt_turn xk) (4, s, (0, 0, 0, 0));
  s0 ← sbox_word sbox1 t0 t3 t2 t1; s1 ← sbox_word sbox1 t1 t0 t3 t2; s2 ← sbox_word sbox1 t2 t1 t0 t3; s3 ← sbox_word sbox1 t3 t2 t1 t0;
  add_key xk k (s0, s1, s2, s3).

(** Reading the words of [src] and writing those of [dst]. *)
Definition load (src : Slice) (i : Z) : M bytes_heap Z := s ← slice_ src (Some i) (Some (i + 4)); v ← view s; lift (bigEndian_Uint32 v).
Definition save (dst : Slice) (i v : Z) : M bytes_heap unit := d ← slice_ dst (Some i) (Some (i + 4)); update d (λ l, bigEndian_PutUint32 l v).

Definition blockGo (on_words : words -> outcome words) (dst src : Slice) : M bytes_heap unit :=
  get_Item src 15;;
  s0 ← load src 0; s1 ← load src 4; s2 ← load src 8; s3 ← load src 12;
  '(s0, s1, s2, s3) ← lift (on_words (s0, s1, s2, s3));
  get_Item dst 15;;
  save dst 0 s0;; save dst 4 s1;; save dst 8 s2;; save dst 12 s3.
Definition encryptBlockGo (xk : list Z) : Slice -> Slice -> M bytes_heap unit := blockGo (encrypt_words xk).
Definition decryptBlockGo (xk : list Z) : Slice -> Slice -> M bytes_heap unit := blockGo (decrypt_words xk).

Definition subw (w : Z) : outcome Z := sbox_word sbox0 w w w w.
Definition rotw (w : Z) : Z := w <<.[32] 8 |. w >>. 24.

(** The key setup: one word of [enc], and the words of [dec] in their order. *)
Definition first_word (key : list Z) (i : Z) (enc : list Z) : outcome (list Z) :=
  k ← slice key (4 * i) (zlen key); w ← bigEndian_Uint32 k; store enc i w.
Definition next_word (nk i : Z) (enc : list Z) : outcome (list Z) :=
  t ← index enc (i - 1);
  t ← (if i mod nk =? 0 then w ← subw (rotw t); p ← index powx (Z.quot i nk - 1); Val (w ^. (p <<.[32] 24))
       else if (6 <? nk) && (i mod nk =? 4) then subw t else Val t);
  e ← index enc (i - nk);
  store enc i (e ^. t).
Definition dec_word (enc : list Z) (n i j : Z) (dec : list Z) : outcome (list Z) :=
  let ei := n - i - 4 in
  x ← index enc (ei + j);
  x ← (if (0 <? i) && (i + 4 <? n) then
         a ← index sbox0 (x >>. 24); b ← index sbox0 ((x >>. 16) &. 0xff); c ← index sbox0 ((x >>. 8) &. 0xff); d ← index sbox0 (x &. 0xff);
         p ← index td0 a; q ← index td1 b; r ← index td2 c; s ← index td3 d; Val (p ^. q ^. r ^. s)
       else Val x);
  store dec (i + j) x.
(** [for i := 0; i < n; i += 4 { for j := 0; j < 4; j++ { ... } }] *)
Fixpoint dec_loop (fuel : nat) (enc : list Z) (n i : Z) (dec : list Z) : outcome (list Z) :=
  match fuel with
  | O => NoFuel
  | S fuel => if i <? n then dec ← for_up 0 4 (dec_word enc n i) dec; dec_loop fuel enc n (i + 4) dec else Val dec
  end.

Definition expandKeyGo (key enc : list Z) (dec : option (list Z)) : outcome (list Z * option (list Z)) :=
  let nk := Z.quot (zlen key) 4 in
  enc ← for_up 0 (Z.max 0 nk) (first_word key) enc;
  enc ← for_up nk (Z.max nk (zlen enc)) (next_word nk) enc;
  match dec with
  | None => Val (enc, None)
  | Some dec => let n := zlen enc in dec ← dec_loop (S (Z.to_nat n)) enc n 0 dec; Val (enc, Some dec)
  end.

(** ** cipher.go *)

Record aesCipher : Type := AesCipher { enc : list Z; dec : list Z }.

Definition KeySizeError_Error (k : Z) : outcome (list Z) := s ← Itoa k; Val (str "crypto/aes: invalid key size " ++ s).

Definition newCipherGeneric (key : list Z) : outcome aesCipher :=
  let n := zlen key + 28 in
  '(enc, dec) ← expandKeyGo key (make 0 n) (Some (make 0 n));
  Val (AesCipher enc (default [] dec)).
Definition newCipher : list Z -> outcome aesCipher := newCipherGeneric.

(** A cipher, or the length that KeySizeError reports. *)
Definition NewCipher (key : list Z) : outcome (aesCipher + Z) :=
  let k := zlen key in
  if (k =? 16) || (k =? 24) || (k =? 32) then c ← newCipher key; Val (inl c) else Val (inr k).

Definition Encrypt (c : aesCipher) (dst src : Slice) : M bytes_heap unit := block_checks BlockSize dst src;; encryptBlockGo (enc c) dst src.
Definition Decrypt (c : aesCipher) (dst src : Slice) : M bytes_heap unit := block_checks BlockSize dst src;; decryptBlockGo (dec c) dst src.

#[export] Instance aes_Block : Block aesCipher := {| Block.BlockSize _ := BlockSize; Block.Encrypt := Encrypt; Block.Decrypt := Decrypt |}.

(** The appendix vectors of FIPS 197. *)
Definition fips_key : list Z := map Z.of_nat (seq 0 32).
Definition fips_block : list Z := map (λ i, 17 * Z.of_nat i) (seq 0 16).
Definition run_block (f : aesCipher -> Slice -> Slice -> M bytes_heap unit) (key block : list Z) : outcome (list Z) :=
  c ← NewCipher key;
  match c with
  | inl c => '(_, h) ← f c (SliceOf 1 0 16) (SliceOf 1 0 16) [[]; block]; Val (cont h (SliceOf 1 0 16))
  | inr _ => Val []
  end.

(** ** FIPS 197 *)

Module Fips.
(** The state: byte [r + 4 c] is in row [r] and column [c]. *)
Definition SubBytes (s : list Z) : list Z := map SBox s.
Definition ShiftRows (s : list Z) : list Z := map (λ i, s !!! ((i + 4 * (i mod 4)) mod 16)%nat) (seq 0 16).
Definition mix (m0 m1 m2 m3 : Z) (s : list Z) (i : nat) : Z :=
  let c := (4 * (i / 4))%nat in let at_ j := s !!! (c + (i + j) mod 4)%nat in
  gmul m0 (at_ 0%nat) ^. gmul m1 (at_ 1%nat) ^. gmul m2 (at_ 2%nat) ^. gmul m3 (at_ 3%nat).
Definition MixColumns (s : list Z) : list Z := map (mix 2 3 1 1 s) (seq 0 16).
Definition AddRoundKey (k s : list Z) : list Z := zip_with Z.lxor s k.

Definition InvSubBytes (s : list Z) : list Z := map InvSBox s.
Definition InvShiftRows (s : list Z) : list Z := map (λ i, s !!! ((i + 12 * (i mod 4)) mod 16)%nat) (seq 0 16).
Definition InvMixColumns (s : list Z) : list Z := map (mix 14 11 13 9 s) (seq 0 16).

(** 5.1 and 5.3, for the round keys [w 0 .. w Nr]. *)
Definition Cipher (w : nat -> list Z) (Nr : nat) (s : list Z) : list Z :=
  let s := AddRoundKey (w 0%nat) s in
  let s := foldl (λ s r, AddRoundKey (w r) (MixColumns (ShiftRows (SubBytes s)))) s (seq 1 (Nr - 1)) in
  AddRoundKey (w Nr) (ShiftRows (SubBytes s)).
Definition InvCipher (w : nat -> list Z) (Nr : nat) (s : list Z) : list Z :=
  let s := AddRoundKey (w Nr) s in
  let s := foldl (λ s r, InvMixColumns (AddRoundKey (w r) (InvSubBytes (InvShiftRows s)))) s (rev (seq 1 (Nr - 1))) in
  AddRoundKey (w 0%nat) (InvSubBytes (InvShiftRows s)).

(** 5.2: the words of the key schedule, four bytes each. *)
Definition RotWord (w : list Z) : list Z := drop 1 w ++ take 1 w.
Definition Rcon (i : nat) : list Z := [Nat.iter (i - 1) xtime 1; 0; 0; 0].
Definition schedule_word (Nk : nat) (w : list (list Z)) (i : nat) : list Z :=
  let temp := w !!! (i - 1)%nat in
  let temp := if (i mod Nk =? 0)%nat then zip_with Z.lxor (SubBytes (RotWord temp)) (Rcon (i / Nk))
              else if (6 <? Nk)%nat && (i mod Nk =? 4)%nat then SubBytes temp else temp in
  zip_with Z.lxor (w !!! (i - Nk)%nat) temp.
Definition key_words (Nk : nat) (key : list Z) : list (list Z) := map (λ i, take 4 (drop (4 * i) key)) (seq 0 Nk).
Definition KeyExpansion (Nk : nat) (key : list Z) (n : nat) : list (list Z) :=
  foldl (λ w i, w ++ [schedule_word Nk w i]) (key_words Nk key) (seq Nk (n - Nk)).
Definition round_key (w : list (list Z)) (r : nat) : list Z := concat (take 4 (drop (4 * r) w)).

Definition Nk (key : list Z) : nat := (length key / 4)%nat.
Definition Nr (key : list Z) : nat := (Nk key + 6)%nat.
Definition schedule (key : list Z) : nat -> list Z := round_key (KeyExpansion (Nk key) key (4 * (Nr key + 1))).
Definition encrypt (key block : list Z) : list Z := Cipher (schedule key) (Nr key) block.
Definition decrypt (key block : list Z) : list Z := InvCipher (schedule key) (Nr key) block.
End Fips.
Import Fips.

(** ** Bytes and words *)

Definition is_state (s : list Z) : Prop := length s = 16%nat /\ bytes_ok s.
Definition word_of (l : list Z) : Z := word4 (l !!! 0%nat) (l !!! 1%nat) (l !!! 2%nat) (l !!! 3%nat).
Definition words_of (s : list Z) : words := (word_of s, word_of (drop 4 s), word_of (drop 8 s), word_of (drop 12 s)).

Lemma word4_testbit a b c d i : is_uint 8 a -> is_uint 8 b -> is_uint 8 c -> is_uint 8 d -> 0 <= i ->
  Z.testbit (word4 a b c d) i = if i <? 8 then Z.testbit d i else if i <? 16 then Z.testbit c (i - 8) else if i <? 24 then Z.testbit b (i - 16) else Z.testbit a (i - 24).
Proof.
  intros Ha Hb Hc Hd Hi. unfold word4. rewrite !Z.lxor_spec, !Z.shiftl_spec by lia. destruct (Z.ltb_spec i 8); [|destruct (Z.ltb_spec i 16); [|destruct (Z.ltb_spec i 24)]].
  - rewrite !(Z.testbit_neg_r _ (i - _)) by lia. done.
  - rewrite (testbit_high 8 d), !(Z.testbit_neg_r _ (i - 16)), !(Z.testbit_neg_r _ (i - 24)) by (done || lia). by rewrite xorb_false_r.
  - rewrite (testbit_high 8 d), (testbit_high 8 c), !(Z.testbit_neg_r _ (i - 24)) by (done || lia). by rewrite !xorb_false_r.
  - rewrite (testbit_high 8 d), (testbit_high 8 c), (testbit_high 8 b) by (done || lia). by rewrite !xorb_false_r.
Qed.

Lemma word4_uint a b c d : is_uint 8 a -> is_uint 8 b -> is_uint 8 c -> is_uint 8 d -> is_uint 32 (word4 a b c d).
Proof.
  intros Ha Hb Hc Hd. apply is_uint_bits; [lia| |].
  - unfold word4, is_uint in *. rewrite !Z.lxor_nonneg. pose proof (Z.shiftl_nonneg a 24). pose proof (Z.shiftl_nonneg b 16). pose proof (Z.shiftl_nonneg c 8). lia.
  - intros i Hi. rewrite word4_testbit by (done || lia). destruct (Z.ltb_spec i 8), (Z.ltb_spec i 16), (Z.ltb_spec i 24); try lia. apply (testbit_high 8); [done|lia].
Qed.

Lemma u8_shift a b c d n x : is_uint 8 a -> is_uint 8 b -> is_uint 8 c -> is_uint 8 d -> (n = 24 /\ x = a) \/ (n = 16 /\ x = b) \/ (n = 8 /\ x = c) \/ (n = 0 /\ x = d) ->
  u8 (word4 a b c d >>. n) = x.
Proof.
  intros Ha Hb Hc Hd Hn. assert (is_uint 8 x) as Hx by naive_solver. apply (word_ext 8); [lia|apply wrap_is_uint; lia|done|]. intros i Hi. rewrite testbit_wrap by lia. rewrite (proj2 (Z.ltb_lt i 8)) by lia. cbn [andb]. rewrite Z.shiftr_spec by lia. rewrite word4_testbit by (done || lia).
  destruct (Z.ltb_spec (i + n) 8), (Z.ltb_spec (i + n) 16), (Z.ltb_spec (i + n) 24); destruct Hn as [[-> ->]|[[-> ->]|[[-> ->]|[-> ->]]]]; try lia; f_equal; lia.
Qed.

(** The bytes of a word in all the ways the source takes them. *)
Lemma word4_bytes a b c d : is_uint 8 a -> is_uint 8 b -> is_uint 8 c -> is_uint 8 d -> let w := word4 a b c d in
  (u8 (w >>. 24) = a /\ u8 (w >>. 16) = b /\ u8 (w >>. 8) = c /\ u8 w = d) /\ w >>. 24 = a /\ (w >>. 16) &. 0xff = b /\ (w >>. 8) &. 0xff = c /\ w &. 0xff = d.
Proof.
  intros Ha Hb Hc Hd w. pose proof (u8_shift a b c d) as L. fold w in L. assert (E24 : u8 (w >>. 24) = a) by (apply L; try done; tauto). assert (E16 : u8 (w >>. 16) = b) by (apply L; try done; tauto). assert (E8 : u8 (w >>. 8) = c) by (apply L; try done; tauto).
  assert (E0 : u8 w = d) by (rewrite <- (Z.shiftr_0_r w); apply L; try done; tauto). assert (Em : forall z, z &. 0xff = u8 z) by (intros z; exact (Z.land_ones z 8 ltac:(lia))). rewrite !Em. split_and!; try done. etransitivity; [|exact E24]. symmetry. apply wrap_small. apply is_uint_bits; [lia|apply Z.shiftr_nonneg; pose proof (word4_uint a b c d Ha Hb Hc Hd) as Hu; unfold is_uint in Hu; fold w in Hu; lia|].
  intros i Hi. rewrite Z.shiftr_spec by lia. apply (testbit_high 32); [by apply word4_uint|lia].
Qed.

Lemma lor_word4 a b c d : is_uint 8 a -> is_uint 8 b -> is_uint 8 c -> is_uint 8 d -> a <<.[32] 24 |. b <<.[32] 16 |. c <<.[32] 8 |. d = word4 a b c d.
Proof.
  intros Ha Hb Hc Hd. assert (Hs : forall x n, is_uint 8 x -> 0 <= n <= 24 -> shl 32 x n = Z.shiftl x n).
  { intros x n Hx Hn. apply wrap_small. unfold is_uint in *. rewrite Z.shiftl_mul_pow2 by lia. pose proof (Z.pow_le_mono_r 2 n 24). pose proof (Z.pow_pos_nonneg 2 n). split; [nia|]. apply Z.lt_le_trans with (2 ^ 8 * 2 ^ n); [nia|]. change (2 ^ 32) with (2 ^ 8 * 2 ^ 24). nia. }
  rewrite !Hs by (done || lia). apply Z.bits_inj'. intros i Hi. rewrite word4_testbit by done. rewrite !Z.lor_spec, !Z.shiftl_spec by lia.
  destruct (Z.ltb_spec i 8); [|destruct (Z.ltb_spec i 16); [|destruct (Z.ltb_spec i 24)]].
  - rewrite !(Z.testbit_neg_r _ (i - _)) by lia. done.
  - rewrite (testbit_high 8 d), !(Z.testbit_neg_r _ (i - 16)), !(Z.testbit_neg_r _ (i - 24)) by (done || lia). by rewrite orb_false_r.
  - rewrite (testbit_high 8 d), (testbit_high 8 c), !(Z.testbit_neg_r _ (i - 24)) by (done || lia). by rewrite !orb_false_r.
  - rewrite (testbit_high 8 d), (testbit_high 8 c), (testbit_high 8 b) by (done || lia). by rewrite !orb_false_r.
Qed.

(** Sums commute with putting words together. *)
Lemma lxor_transpose a b c d a' b' c' d' : (a ^. b ^. c ^. d) ^. (a' ^. b' ^. c' ^. d') = (a ^. a') ^. (b ^. b') ^. (c ^. c') ^. (d ^. d').
Proof. apply Z.bits_inj'. intros i _. rewrite !Z.lxor_spec. by destruct (Z.testbit a i), (Z.testbit b i), (Z.testbit c i), (Z.testbit d i), (Z.testbit a' i), (Z.testbit b' i), (Z.testbit c' i), (Z.testbit d' i). Qed.

Lemma word4_xor a b c d a' b' c' d' : word4 a b c d ^. word4 a' b' c' d' = word4 (a ^. a') (b ^. b') (c ^. c') (d ^. d').
Proof. unfold word4. rewrite !Z.shiftl_lxor. apply lxor_transpose. Qed.

(** ** One round *)

Ltac xor_ac := apply Z.bits_inj'; intros ? _; rewrite ?Z.lxor_spec; btauto.

Lemma gmul_1 a : gmul 1 a = a.
Proof. unfold gmul. cbn. by rewrite !Z.lxor_0_r. Qed.

Lemma sub_SBox a : is_uint 8 a -> SBox a = sub a.
Proof. intros Ha. pose proof (table_at sbox0 SBox a sbox0_is_SBox Ha) as E. destruct (sbox_at a Ha) as [E' _]. congruence. Qed.

Lemma inv_SBox a : is_uint 8 a -> InvSBox a = inv_sub a.
Proof. intros Ha. pose proof (table_at sbox1 InvSBox a sbox1_is_InvSBox Ha) as E. destruct (sbox_at a Ha) as [_ E']. congruence. Qed.

Lemma table_word_val xk k x A B C D f g i j a b c d p q r s : index xk k = Val x -> A = map f every_byte -> B = map g every_byte -> C = map i every_byte -> D = map j every_byte ->
  u8 (a >>. 24) = p -> u8 (b >>. 16) = q -> u8 (c >>. 8) = r -> u8 d = s -> table_word xk k A B C D a b c d = Val (x ^. f p ^. g q ^. i r ^. j s).
Proof.
  intros Ex EA EB EC ED <- <- <- <-. unfold table_word. rewrite Ex. cbn [mbind outcome_bind].
  rewrite (table_at A f), (table_at B g), (table_at C i), (table_at D j) by (done || by apply wrap_is_uint). done.
Qed.

Lemma sbox_word_val t f a b c d p q r s : (forall z, is_uint 8 z -> index t z = Val (f z) /\ is_uint 8 (f z)) ->
  a >>. 24 = p -> (b >>. 16) &. 0xff = q -> (c >>. 8) &. 0xff = r -> d &. 0xff = s -> is_uint 8 p -> is_uint 8 q -> is_uint 8 r -> is_uint 8 s -> sbox_word t a b c d = Val (word4 (f p) (f q) (f r) (f s)).
Proof.
  intros Ht Ea Eb Ec Ed Hp Hq Hr Hs. destruct (Ht p Hp) as [Ep Hfp], (Ht q Hq) as [Eq Hfq], (Ht r Hr) as [Er Hfr], (Ht s Hs) as [Es Hfs]. unfold sbox_word. rewrite Ea, Eb, Ec, Ed, Ep, Eq, Er, Es. cbn [mbind outcome_bind]. by rewrite lor_word4.
Qed.

(** The four words of a round key at position [k]. *)
Definition key_at (xk : list Z) (k : Z) (kb : list Z) : Prop :=
  index xk (k + 0) = Val (word_of kb) /\ index xk (k + 1) = Val (word_of (drop 4 kb)) /\ index xk (k + 2) = Val (word_of (drop 8 kb)) /\ index xk (k + 3) = Val (word_of (drop 12 kb)).

(** A state as its sixteen bytes. *)
Ltac bytes_of s H := let E := fresh in destruct H as [E H]; do 16 (destruct s as [|? s]; [discriminate E|]); destruct s; [|discriminate E]; clear E; rewrite !Forall_cons in H; destruct_and? H.
Ltac open_words := cbv [words_of word_of drop lookup_total list_lookup_total key_at] in *.

(** Words of bytes in the context take their bytes. *)
Ltac word_byte := match goal with |- context [word4 ?a ?b ?c ?d] => let E := fresh in pose proof (word4_bytes a b c d ltac:(assumption) ltac:(assumption) ltac:(assumption) ltac:(assumption)) as E; cbv zeta in E; destruct E as [(?&?&?&?) (?&?&?&?)]; eassumption end.

Lemma add_key_val xk k s kb : is_state s -> is_state kb -> key_at xk k kb -> add_key xk k (words_of s) = Val (words_of (AddRoundKey kb s)).
Proof.
  intros Hs Hk Hx. bytes_of s Hs. bytes_of kb Hk. open_words. destruct Hx as (E0 & E1 & E2 & E3). unfold add_key. rewrite E0, E1, E2, E3. cbn [mbind outcome_bind]. rewrite !word4_xor. done.
Qed.

(** Unfold the steps of the reference on sixteen bytes. *)
Ltac open_steps := cbv [AddRoundKey MixColumns InvMixColumns ShiftRows InvShiftRows SubBytes InvSubBytes mix map seq zip_with lookup_total list_lookup_total Nat.add Nat.mul Nat.modulo Nat.div Nat.divmod Nat.sub fst snd].

(** The sum of a key byte and a column, from whichever row it starts. *)
Lemma lxor_rows k a b c d :
  k ^. a ^. b ^. c ^. d = (a ^. b ^. c ^. d) ^. k /\ k ^. a ^. b ^. c ^. d = (b ^. c ^. d ^. a) ^. k /\ k ^. a ^. b ^. c ^. d = (c ^. d ^. a ^. b) ^. k /\ k ^. a ^. b ^. c ^. d = (d ^. a ^. b ^. c) ^. k.
Proof. split_and!; apply Z.bits_inj'; intros i _; rewrite !Z.lxor_spec; by destruct (Z.testbit k i), (Z.testbit a i), (Z.testbit b i), (Z.testbit c i), (Z.testbit d i). Qed.

Ltac word_eq := f_equal; apply lxor_rows.
Ltac words_eq := match goal with |- Val (_, (?a, ?b, ?c, ?d), _) = Val (_, (?a', ?b', ?c', ?d'), _) =>
  assert (Ea : a = a') by word_eq; assert (Eb : b = b') by word_eq; assert (Ec : c = c') by word_eq; assert (Ed : d = d') by word_eq; rewrite Ea, Eb, Ec, Ed; reflexivity end.

Lemma encrypt_turn_val xk r k s kb t : is_state s -> is_state kb -> key_at xk k kb ->
  let s' := AddRoundKey kb (MixColumns (ShiftRows (SubBytes s))) in encrypt_turn xk r (k, words_of s, t) = Val (k + 4, words_of s', words_of s').
Proof.
  intros Hs Hk Hx s'. bytes_of s Hs. bytes_of kb Hk. subst s'. open_steps. open_words. destruct Hx as (E0 & E1 & E2 & E3). destruct te_tables as (T0 & T1 & T2 & T3). unfold encrypt_turn. rewrite !sub_SBox by assumption. rewrite !gmul_1.
  do 4 (erewrite table_word_val by (first [eassumption | word_byte]); cbn [mbind outcome_bind]). cbv zeta. rewrite !word4_xor. words_eq.
Qed.

Lemma decrypt_turn_val xk r k s kb t : is_state s -> is_state kb -> key_at xk k kb ->
  let s' := AddRoundKey kb (InvMixColumns (InvSubBytes (InvShiftRows s))) in decrypt_turn xk r (k, words_of s, t) = Val (k + 4, words_of s', words_of s').
Proof.
  intros Hs Hk Hx s'. bytes_of s Hs. bytes_of kb Hk. subst s'. open_steps. open_words. destruct Hx as (E0 & E1 & E2 & E3). destruct td_tables as (T0 & T1 & T2 & T3). unfold decrypt_turn. rewrite !inv_SBox by assumption.
  do 4 (erewrite table_word_val by (first [eassumption | word_byte]); cbn [mbind outcome_bind]). cbv zeta. rewrite !word4_xor. words_eq.
Qed.

Lemma sbox_values : (forall z, is_uint 8 z -> index sbox0 z = Val (sub z) /\ is_uint 8 (sub z)) /\ (forall z, is_uint 8 z -> index sbox1 z = Val (inv_sub z) /\ is_uint 8 (inv_sub z)).
Proof. split; intros z Hz; destruct (sbox_at z Hz), (sub_byte z Hz) as (? & ? & _); done. Qed.

Lemma encrypt_last s : is_state s -> let '(t0, t1, t2, t3) := words_of s in
  exists s0 s1 s2 s3, sbox_word sbox0 t0 t1 t2 t3 = Val s0 /\ sbox_word sbox0 t1 t2 t3 t0 = Val s1 /\ sbox_word sbox0 t2 t3 t0 t1 = Val s2 /\ sbox_word sbox0 t3 t0 t1 t2 = Val s3 /\ (s0, s1, s2, s3) = words_of (ShiftRows (SubBytes s)).
Proof.
  intros Hs. destruct sbox_values as [Hv _]. bytes_of s Hs. open_words. open_steps. rewrite !sub_SBox by assumption. do 4 eexists.
  split_and!; [erewrite (sbox_word_val _ _ _ _ _ _ _ _ _ _ Hv) by (first [eassumption | word_byte]); reflexivity..|reflexivity].
Qed.

Lemma decrypt_last s : is_state s -> let '(t0, t1, t2, t3) := words_of s in
  exists s0 s1 s2 s3, sbox_word sbox1 t0 t3 t2 t1 = Val s0 /\ sbox_word sbox1 t1 t0 t3 t2 = Val s1 /\ sbox_word sbox1 t2 t1 t0 t3 = Val s2 /\ sbox_word sbox1 t3 t2 t1 t0 = Val s3 /\ (s0, s1, s2, s3) = words_of (InvSubBytes (InvShiftRows s)).
Proof.
  intros Hs. destruct sbox_values as [_ Hv]. bytes_of s Hs. open_words. open_steps. rewrite !inv_SBox by assumption. do 4 eexists.
  split_and!; [erewrite (sbox_word_val _ _ _ _ _ _ _ _ _ _ Hv) by (first [eassumption | word_byte]); reflexivity..|reflexivity].
Qed.

(** ** The steps on states *)

Ltac all_bytes := rewrite !Forall_cons; split_and!; try apply Forall_nil_2; try assumption.

Lemma AddRoundKey_state k s : is_state k -> is_state s -> is_state (AddRoundKey k s).
Proof. intros [Elk Hk] [Els Hs]. split; [unfold AddRoundKey; rewrite length_zip_with; lia|by apply lxor_bytes]. Qed.

Lemma SubBytes_bytes s : bytes_ok s -> bytes_ok (SubBytes s) /\ SubBytes s = map sub s.
Proof.
  intros Hs. assert (E : SubBytes s = map sub s). { induction Hs as [|a s Ha _ IH]; [done|]. change (SubBytes (a :: s)) with (SBox a :: SubBytes s). change (map sub (a :: s)) with (sub a :: map sub s). rewrite IH, (sub_SBox a Ha). reflexivity. }
  split; [|done]. rewrite E. clear E. induction Hs as [|a s Ha _ IH]; [constructor|]. constructor; [by apply sub_byte|done].
Qed.

Lemma SubBytes_state s : is_state s -> is_state (SubBytes s).
Proof. intros [El Hs]. split; [unfold SubBytes; by rewrite length_map|by apply SubBytes_bytes]. Qed.

Lemma InvSubBytes_bytes s : bytes_ok s -> bytes_ok (InvSubBytes s) /\ InvSubBytes s = map inv_sub s.
Proof.
  intros Hs. assert (E : InvSubBytes s = map inv_sub s). { induction Hs as [|a s Ha _ IH]; [done|]. change (InvSubBytes (a :: s)) with (InvSBox a :: InvSubBytes s). change (map inv_sub (a :: s)) with (inv_sub a :: map inv_sub s). rewrite IH, (inv_SBox a Ha). reflexivity. }
  split; [|done]. rewrite E. clear E. induction Hs as [|a s Ha _ IH]; [constructor|]. constructor; [by apply sub_byte|done].
Qed.

Lemma InvSubBytes_state s : is_state s -> is_state (InvSubBytes s).
Proof. intros [El Hs]. split; [unfold InvSubBytes; by rewrite length_map|by apply InvSubBytes_bytes]. Qed.

Lemma ShiftRows_state s : is_state s -> is_state (ShiftRows s) /\ is_state (InvShiftRows s).
Proof. intros Hs. bytes_of s Hs. split; (split; [done|]); open_steps; all_bytes. Qed.

Lemma mix_byte m0 m1 m2 m3 s i : (forall a, is_uint 8 a -> is_uint 8 (gmul m0 a) /\ is_uint 8 (gmul m1 a) /\ is_uint 8 (gmul m2 a) /\ is_uint 8 (gmul m3 a)) -> is_state s -> (i < 16)%nat -> is_uint 8 (mix m0 m1 m2 m3 s i).
Proof.
  intros Hm [El Hs] Hi. assert (Ha : forall j, is_uint 8 (s !!! (4 * (i / 4) + (i + j) mod 4)%nat)).
  { intros j. assert ((4 * (i / 4) + (i + j) mod 4 < 16)%nat) as Hlt. { pose proof (Nat.mod_upper_bound (i + j) 4 ltac:(lia)). assert (i / 4 < 4)%nat by (apply Nat.Div0.div_lt_upper_bound; lia). lia. }
    destruct (lookup_lt_is_Some_2 s _ ltac:(by rewrite El)) as [x Ex]. rewrite (list_lookup_total_correct _ _ _ Ex). by eapply Forall_lookup_1 in Hs. }
  destruct (Hm _ (Ha 0%nat)) as (H0 & _), (Hm _ (Ha 1%nat)) as (_ & H1 & _), (Hm _ (Ha 2%nat)) as (_ & _ & H2 & _), (Hm _ (Ha 3%nat)) as (_ & _ & _ & H3). unfold mix. do 3 (apply lxor_is_uint; [lia| |assumption]). assumption.
Qed.

Lemma mixing_state m0 m1 m2 m3 s : (forall a, is_uint 8 a -> is_uint 8 (gmul m0 a) /\ is_uint 8 (gmul m1 a) /\ is_uint 8 (gmul m2 a) /\ is_uint 8 (gmul m3 a)) -> is_state s -> is_state (map (mix m0 m1 m2 m3 s) (seq 0 16)).
Proof. intros Hm Hs. split; [done|]. apply Forall_map, Forall_forall. intros i Hi%elem_of_seq. apply mix_byte; [done|done|lia]. Qed.

Lemma MixColumns_state s : is_state s -> is_state (MixColumns s) /\ is_state (InvMixColumns s).
Proof.
  intros Hs. split; apply mixing_state; try done; intros a Ha; rewrite ?gmul_1; split_and!; try done; apply gmul_byte; try done; unfold multipliers; set_solver.
Qed.

(** ** Every step has an inverse *)

Lemma AddRoundKey_twice k s : is_state k -> is_state s -> AddRoundKey k (AddRoundKey k s) = s.
Proof. intros [Ek _] [Es _]. unfold AddRoundKey. apply xor_xor. lia. Qed.

Lemma SubBytes_inverse s : bytes_ok s -> InvSubBytes (SubBytes s) = s /\ SubBytes (InvSubBytes s) = s.
Proof.
  intros Hs. destruct (SubBytes_bytes s Hs) as [Hb Eb], (InvSubBytes_bytes s Hs) as [Hi Ei].
  rewrite (proj2 (InvSubBytes_bytes _ Hb)), (proj2 (SubBytes_bytes _ Hi)), Eb, Ei. clear Hb Eb Hi Ei.
  induction Hs as [|a s Ha _ [IH1 IH2]]; [done|]. destruct (sub_byte a Ha) as (_ & _ & E1 & E2). cbn [map]. by rewrite E1, E2, IH1, IH2.
Qed.

Lemma ShiftRows_inverse s : is_state s -> InvShiftRows (ShiftRows s) = s /\ ShiftRows (InvShiftRows s) = s.
Proof. intros Hs. bytes_of s Hs. done. Qed.

Lemma lxor_rotate a b c d : a ^. b ^. c ^. d = d ^. a ^. b ^. c.
Proof. by rewrite (Z.lxor_comm d), !Z.lxor_assoc, (Z.lxor_comm d), !Z.lxor_assoc. Qed.

(** Sixteen summands by rows, then by columns. *)
Lemma lxor_columns a0 b0 c0 d0 a1 b1 c1 d1 a2 b2 c2 d2 a3 b3 c3 d3 :
  (a0 ^. b0 ^. c0 ^. d0) ^. (b1 ^. c1 ^. d1 ^. a1) ^. (c2 ^. d2 ^. a2 ^. b2) ^. (d3 ^. a3 ^. b3 ^. c3) = (a0 ^. a1 ^. a2 ^. a3) ^. (b0 ^. b1 ^. b2 ^. b3) ^. (c0 ^. c1 ^. c2 ^. c3) ^. (d0 ^. d1 ^. d2 ^. d3).
Proof. rewrite (lxor_rotate b1), (lxor_rotate c2 d2), (lxor_rotate b2), <- (lxor_rotate a3). by rewrite (lxor_transpose a0 b0), (lxor_transpose (a0 ^. a1)), (lxor_transpose (a0 ^. a1 ^. a2)). Qed.

(** The other product of the two matrices. *)
Lemma mixing_inverse a : is_uint 8 a ->
  gmul 2 (gmul 14 a) ^. gmul 3 (gmul 9 a) ^. gmul 13 a ^. gmul 11 a = a /\ gmul 2 (gmul 11 a) ^. gmul 3 (gmul 14 a) ^. gmul 9 a ^. gmul 13 a = 0
  /\ gmul 2 (gmul 13 a) ^. gmul 3 (gmul 11 a) ^. gmul 14 a ^. gmul 9 a = 0 /\ gmul 2 (gmul 9 a) ^. gmul 3 (gmul 13 a) ^. gmul 11 a ^. gmul 14 a = 0.
Proof.
  intros Ha. assert (H : (gmul 2 (gmul 14 a) ^. gmul 3 (gmul 9 a) ^. gmul 13 a ^. gmul 11 a =? a) && (gmul 2 (gmul 11 a) ^. gmul 3 (gmul 14 a) ^. gmul 9 a ^. gmul 13 a =? 0)
    && (gmul 2 (gmul 13 a) ^. gmul 3 (gmul 11 a) ^. gmul 14 a ^. gmul 9 a =? 0) && (gmul 2 (gmul 9 a) ^. gmul 3 (gmul 13 a) ^. gmul 11 a ^. gmul 14 a =? 0) = true) by (revert a Ha; apply for_bytes; vm_compute; reflexivity).
  repeat (apply andb_true_iff in H as [H ?]). lia.
Qed.

Lemma unmix_mix a b c d : is_uint 8 a -> is_uint 8 b -> is_uint 8 c -> is_uint 8 d ->
  gmul 14 (gmul 2 a ^. gmul 3 b ^. c ^. d) ^. gmul 11 (gmul 2 b ^. gmul 3 c ^. d ^. a) ^. gmul 13 (gmul 2 c ^. gmul 3 d ^. a ^. b) ^. gmul 9 (gmul 2 d ^. gmul 3 a ^. b ^. c) = a.
Proof.
  intros Ha Hb Hc Hd. rewrite !gmul_xor, lxor_columns. destruct (inverse_mixing a Ha) as (-> & _), (inverse_mixing b Hb) as (_ & -> & _), (inverse_mixing c Hc) as (_ & _ & -> & _), (inverse_mixing d Hd) as (_ & _ & _ & ->). by rewrite !Z.lxor_0_r.
Qed.

Lemma mix_unmix a b c d : is_uint 8 a -> is_uint 8 b -> is_uint 8 c -> is_uint 8 d ->
  gmul 2 (gmul 14 a ^. gmul 11 b ^. gmul 13 c ^. gmul 9 d) ^. gmul 3 (gmul 14 b ^. gmul 11 c ^. gmul 13 d ^. gmul 9 a) ^. (gmul 14 c ^. gmul 11 d ^. gmul 13 a ^. gmul 9 b) ^. (gmul 14 d ^. gmul 11 a ^. gmul 13 b ^. gmul 9 c) = a.
Proof.
  intros Ha Hb Hc Hd. rewrite !gmul_xor, lxor_columns. destruct (mixing_inverse a Ha) as (-> & _), (mixing_inverse b Hb) as (_ & -> & _), (mixing_inverse c Hc) as (_ & _ & -> & _), (mixing_inverse d Hd) as (_ & _ & _ & ->). by rewrite !Z.lxor_0_r.
Qed.

Lemma MixColumns_inverse s : is_state s -> InvMixColumns (MixColumns s) = s /\ MixColumns (InvMixColumns s) = s.
Proof.
  intros Hs. bytes_of s Hs. open_steps. rewrite !gmul_1. split; [rewrite !unmix_mix by assumption|rewrite !mix_unmix by assumption]; reflexivity.
Qed.

Lemma InvMixColumns_xor k s : is_state k -> is_state s -> InvMixColumns (AddRoundKey k s) = AddRoundKey (InvMixColumns k) (InvMixColumns s).
Proof. intros Hk Hs. bytes_of s Hs. bytes_of k Hk. open_steps. repeat (f_equal; [rewrite !gmul_xor; symmetry; apply lxor_transpose|]). f_equal. rewrite !gmul_xor. symmetry. apply lxor_transpose. Qed.

(** ** The cipher on states *)

#[local] Opaque gmul MixColumns InvMixColumns ShiftRows InvShiftRows SubBytes InvSubBytes AddRoundKey.

Section Cipher.
Context (w : nat -> list Z) (Nr : nat).
Context (Hw : forall r, (r <= Nr)%nat -> is_state (w r)) (HNr : (1 <= Nr)%nat).

Let forth (s : list Z) (r : nat) : list Z := AddRoundKey (w r) (MixColumns (ShiftRows (SubBytes s))).
Let back (s : list Z) (r : nat) : list Z := InvMixColumns (AddRoundKey (w r) (InvSubBytes (InvShiftRows s))).

Lemma forth_state s r : (r <= Nr)%nat -> is_state s -> is_state (forth s r).
Proof. intros Hr Hs. apply AddRoundKey_state; [by apply Hw|]. by apply MixColumns_state, ShiftRows_state, SubBytes_state. Qed.

Lemma back_state s r : (r <= Nr)%nat -> is_state s -> is_state (back s r).
Proof. intros Hr Hs. apply MixColumns_state, AddRoundKey_state; [by apply Hw|]. by apply InvSubBytes_state, ShiftRows_state. Qed.

Lemma fold_state f rs s : (forall s r, (r <= Nr)%nat -> is_state s -> is_state (f s r)) -> Forall (λ r, (r <= Nr)%nat) rs -> is_state s -> is_state (foldl f s rs).
Proof. intros Hf Hrs. revert s. induction Hrs as [|r rs Hr _ IH]; intros s Hs; [done|]. cbn. by apply IH, Hf. Qed.

Lemma unshift s : is_state s -> InvSubBytes (InvShiftRows (ShiftRows (SubBytes s))) = s.
Proof. intros Hs. rewrite (proj1 (ShiftRows_inverse _ (SubBytes_state s Hs))). apply SubBytes_inverse, Hs. Qed.

Lemma reshift s : is_state s -> ShiftRows (SubBytes (InvSubBytes (InvShiftRows s))) = s.
Proof. intros Hs. rewrite (proj2 (SubBytes_inverse (InvShiftRows s) (proj2 (proj2 (ShiftRows_state s Hs))))). apply ShiftRows_inverse, Hs. Qed.

Lemma back_forth rs s : Forall (λ r, (r <= Nr)%nat) rs -> is_state s -> foldl back (ShiftRows (SubBytes (foldl forth s rs))) (rev rs) = ShiftRows (SubBytes s).
Proof.
  intros Hrs Hs. induction rs as [|r rs IH] using rev_ind; [done|]. apply Forall_app in Hrs as [Hrs [Hr _]%Forall_cons]. rewrite foldl_app, rev_unit. cbn [foldl]. rewrite <- IH by done. f_equal. set (s' := foldl forth s rs). assert (Hs' : is_state s') by (apply fold_state; [apply forth_state|done|done]).
  unfold back. rewrite unshift by (by apply forth_state). unfold forth. rewrite AddRoundKey_twice by (first [by apply Hw | by apply MixColumns_state, ShiftRows_state, SubBytes_state]). exact (proj1 (MixColumns_inverse _ (proj1 (ShiftRows_state _ (SubBytes_state _ Hs'))))).
Qed.

Lemma forth_back rs s : Forall (λ r, (r <= Nr)%nat) rs -> is_state s -> foldl forth (InvSubBytes (InvShiftRows (foldl back s (rev rs)))) rs = InvSubBytes (InvShiftRows s).
Proof.
  intros Hrs. revert s. induction rs as [|r rs IH] using rev_ind; intros s Hs; [done|]. apply Forall_app in Hrs as [Hrs [Hr _]%Forall_cons]. rewrite rev_unit, foldl_app. cbn [foldl]. rewrite IH by (done || by apply back_state).
  unfold forth. rewrite reshift by (by apply back_state). unfold back. assert (Hb : is_state (InvSubBytes (InvShiftRows s))) by (by apply InvSubBytes_state, ShiftRows_state).
  rewrite (proj2 (MixColumns_inverse _ (AddRoundKey_state _ _ (Hw r Hr) Hb))). apply AddRoundKey_twice; [by apply Hw|done].
Qed.

Let rounds : list nat := seq 1 (Nr - 1).
Lemma rounds_ok : Forall (λ r, (r <= Nr)%nat) rounds /\ Forall (λ r, (r <= Nr)%nat) (rev rounds).
Proof. split; [|apply Forall_rev]; apply Forall_forall; intros r Hr%elem_of_seq; lia. Qed.

Lemma Cipher_state s : is_state s -> is_state (Cipher w Nr s) /\ is_state (InvCipher w Nr s).
Proof.
  intros Hs. destruct rounds_ok as [H1 H2]. split.
  - apply AddRoundKey_state; [apply Hw; lia|]. apply ShiftRows_state, SubBytes_state. apply (fold_state forth); [apply forth_state|done|]. apply AddRoundKey_state; [apply Hw; lia|done].
  - apply AddRoundKey_state; [apply Hw; lia|]. apply InvSubBytes_state, ShiftRows_state. apply (fold_state back); [apply back_state|done|]. apply AddRoundKey_state; [apply Hw; lia|done].
Qed.

Lemma InvCipher_Cipher s : is_state s -> InvCipher w Nr (Cipher w Nr s) = s.
Proof.
  intros Hs. destruct rounds_ok as [H1 H2]. assert (H0 : is_state (AddRoundKey (w 0%nat) s)) by (apply AddRoundKey_state; [apply Hw; lia|done]). assert (Hf : is_state (foldl forth (AddRoundKey (w 0%nat) s) rounds)) by (apply fold_state; [apply forth_state|done|done]).
  unfold InvCipher, Cipher. cbv zeta. fold forth back rounds. rewrite AddRoundKey_twice by (first [apply Hw; lia | by apply ShiftRows_state, SubBytes_state]). rewrite back_forth, unshift by done. apply AddRoundKey_twice; [apply Hw; lia|done].
Qed.

Lemma Cipher_InvCipher s : is_state s -> Cipher w Nr (InvCipher w Nr s) = s.
Proof.
  intros Hs. destruct rounds_ok as [H1 H2]. assert (H0 : is_state (AddRoundKey (w Nr) s)) by (apply AddRoundKey_state; [apply Hw; lia|done]). assert (Hf : is_state (foldl back (AddRoundKey (w Nr) s) (rev rounds))) by (apply fold_state; [apply back_state|done|done]).
  unfold InvCipher, Cipher. cbv zeta. fold forth back rounds. rewrite AddRoundKey_twice by (first [apply Hw; lia | by apply InvSubBytes_state, ShiftRows_state]). rewrite forth_back, reshift by done. apply AddRoundKey_twice; [apply Hw; lia|done].
Qed.

(** ** The block functions on words *)

Lemma encrypt_words_val xk s : (2 <= Nr)%nat -> zlen xk = 4 * (Z.of_nat Nr + 1) -> (forall r, (r <= Nr)%nat -> key_at xk (4 * Z.of_nat r) (w r)) -> is_state s -> encrypt_words xk (words_of s) = Val (words_of (Cipher w Nr s)).
Proof.
  intros H2 El Hk Hs. assert (Hst : forall n, (n < Nr)%nat -> is_state (foldl forth (AddRoundKey (w 0%nat) s) (seq 1 n))).
  { intros n Hn. apply fold_state; [apply forth_state|apply Forall_forall; intros r Hr%elem_of_seq; lia|apply AddRoundKey_state; [apply Hw; lia|done]]. }
  unfold encrypt_words. rewrite (add_key_val xk 0 s (w 0%nat)) by (first [done | apply Hw; lia | apply (Hk 0%nat); lia]). cbn [mbind outcome_bind]. set (s0 := AddRoundKey (w 0%nat) s) in *.
  assert (Em : Z.max 0 (middle_rounds xk) = Z.of_nat Nr - 1) by (unfold middle_rounds; rewrite El, (Z.mul_comm 4), Z.quot_mul by lia; lia). rewrite Em.
  destruct (for_up_inv (λ i x, 0 <= i /\ exists t, x = (4 * (i + 1), words_of (foldl forth s0 (seq 1 (Z.to_nat i))), t) /\ (0 < i -> t = words_of (foldl forth s0 (seq 1 (Z.to_nat i))))) 0 (Z.of_nat Nr - 1) (encrypt_turn xk) (4, words_of s0, (0, 0, 0, 0))) as (x & E & _ & t & -> & Et); [lia| | |].
  - split; [done|]. exists (0, 0, 0, 0). split; [done|lia].
  - intros i x Hi (_ & t & -> & _). pose proof (encrypt_turn_val xk i (4 * (i + 1)) (foldl forth s0 (seq 1 (Z.to_nat i))) (w (S (Z.to_nat i))) t (Hst (Z.to_nat i) ltac:(lia)) (Hw (S (Z.to_nat i)) ltac:(lia))) as E. cbv zeta in E. rewrite E; [|pose proof (Hk (S (Z.to_nat i)) ltac:(lia)) as Hki; replace (4 * Z.of_nat (S (Z.to_nat i))) with (4 * (i + 1)) in Hki by lia; exact Hki].
    eexists. split; [reflexivity|]. split; [lia|]. eexists. replace (Z.to_nat (i + 1)) with (S (Z.to_nat i)) by lia. rewrite seq_S, foldl_app. cbn [foldl]. change (1 + Z.to_nat i)%nat with (S (Z.to_nat i)). fold (forth (foldl forth s0 (seq 1 (Z.to_nat i))) (S (Z.to_nat i))). split; [f_equal; f_equal; lia|done].
  - rewrite E. cbn [mbind outcome_bind]. rewrite Et by lia. replace (Z.to_nat (Z.of_nat Nr - 1)) with (Nr - 1)%nat by lia. set (y := foldl forth s0 (seq 1 (Nr - 1))). assert (Hy : is_state y) by (apply Hst; lia). pose proof (encrypt_last y Hy) as L. destruct (words_of y) as [[[t0 t1] t2] t3]. destruct L as (u0 & u1 & u2 & u3 & -> & -> & -> & -> & Ew). cbn [mbind outcome_bind]. rewrite Ew.
    replace (4 * (Z.of_nat Nr - 1 + 1)) with (4 * Z.of_nat Nr) by lia. apply add_key_val; [by apply ShiftRows_state, SubBytes_state|by apply Hw|by apply Hk].
Qed.

Lemma rev_seq n : rev (seq 1 n) = map (λ i, (S n - i)%nat) (seq 1 n).
Proof.
  induction n as [|n IH]; [done|]. rewrite seq_S at 1. rewrite rev_unit, IH. cbn [seq map]. f_equal. rewrite <- (seq_shift n 1), map_map. apply map_ext. intros i. lia.
Qed.

Lemma decrypt_words_val xk s : (2 <= Nr)%nat -> zlen xk = 4 * (Z.of_nat Nr + 1) -> key_at xk 0 (w Nr) -> (forall r, (0 < r < Nr)%nat -> key_at xk (4 * Z.of_nat r) (InvMixColumns (w (Nr - r)%nat))) -> key_at xk (4 * Z.of_nat Nr) (w 0%nat) ->
  is_state s -> decrypt_words xk (words_of s) = Val (words_of (InvCipher w Nr s)).
Proof.
  intros H2 El Hk0 Hk Hkn Hs. set (step := λ s i, back s (Nr - i)%nat). set (s0 := AddRoundKey (w Nr) s). assert (Hst : forall n, (n < Nr)%nat -> is_state (foldl step s0 (seq 1 n))).
  { intros n Hn. apply (fold_state step); [intros; apply back_state; [lia|done]|apply Forall_forall; intros r Hr%elem_of_seq; lia|apply AddRoundKey_state; [apply Hw; lia|done]]. }
  assert (Ef : foldl back s0 (rev (seq 1 (Nr - 1))) = foldl step s0 (seq 1 (Nr - 1))). { rewrite rev_seq. replace (S (Nr - 1)) with Nr by lia. generalize s0, (seq 1 (Nr - 1)). intros a l. revert a. induction l as [|i l IH]; intros a; [done|]. cbn [map foldl]. apply IH. }
  unfold decrypt_words. rewrite (add_key_val xk 0 s (w Nr)) by (first [done | apply Hw; lia]). cbn [mbind outcome_bind]. fold s0.
  assert (Em : Z.max 0 (middle_rounds xk) = Z.of_nat Nr - 1) by (unfold middle_rounds; rewrite El, (Z.mul_comm 4), Z.quot_mul by lia; lia). rewrite Em.
  destruct (for_up_inv (λ i x, 0 <= i /\ exists t, x = (4 * (i + 1), words_of (foldl step s0 (seq 1 (Z.to_nat i))), t) /\ (0 < i -> t = words_of (foldl step s0 (seq 1 (Z.to_nat i))))) 0 (Z.of_nat Nr - 1) (decrypt_turn xk) (4, words_of s0, (0, 0, 0, 0))) as (x & E & _ & t & -> & Et); [lia| | |].
  - split; [done|]. exists (0, 0, 0, 0). split; [done|lia].
  - intros i x Hi (_ & t & -> & _). set (y := foldl step s0 (seq 1 (Z.to_nat i))). set (n := S (Z.to_nat i)). assert (Hn : (0 < n < Nr)%nat) by lia. assert (Hy : is_state y) by (apply Hst; lia). assert (Hwn : is_state (w (Nr - n)%nat)) by (apply Hw; lia).
    pose proof (decrypt_turn_val xk i (4 * (i + 1)) y (InvMixColumns (w (Nr - n)%nat)) t Hy (proj2 (MixColumns_state _ Hwn))) as E. cbv zeta in E. rewrite E; [|pose proof (Hk n Hn) as Hki; replace (4 * Z.of_nat n) with (4 * (i + 1)) in Hki by lia; exact Hki].
    rewrite <- InvMixColumns_xor by (first [done | by apply InvSubBytes_state, ShiftRows_state]). eexists. split; [reflexivity|]. split; [lia|]. eexists. replace (Z.to_nat (i + 1)) with n by lia. assert (Es : foldl step s0 (seq 1 n) = back y (Nr - n)) by (unfold n; rewrite seq_S, foldl_app; done). rewrite Es. split; [f_equal; f_equal; lia|done].
  - rewrite E. cbn [mbind outcome_bind]. rewrite Et by lia. replace (Z.to_nat (Z.of_nat Nr - 1)) with (Nr - 1)%nat by lia. set (y := foldl step s0 (seq 1 (Nr - 1))) in *. assert (Hy : is_state y) by (apply Hst; lia). pose proof (decrypt_last y Hy) as L. destruct (words_of y) as [[[t0 t1] t2] t3]. destruct L as (u0 & u1 & u2 & u3 & -> & -> & -> & -> & Ew). cbn [mbind outcome_bind]. rewrite Ew.
    replace (4 * (Z.of_nat Nr - 1 + 1)) with (4 * Z.of_nat Nr) by lia. unfold InvCipher. cbv zeta. fold s0 back. rewrite Ef. apply add_key_val; [by apply InvSubBytes_state, ShiftRows_state|apply Hw; lia|done].
Qed.
End Cipher.

(** ** The key schedule *)

Definition is_word (l : list Z) : Prop := length l = 4%nat /\ bytes_ok l.
Ltac word_bytes l H := let E := fresh in destruct H as [E H]; do 4 (destruct l as [|? l]; [discriminate E|]); destruct l; [|discriminate E]; clear E; rewrite !Forall_cons in H; destruct_and? H.

Lemma Uint32_word l : (4 <= length l)%nat -> bytes_ok l -> bigEndian_Uint32 l = Val (word_of (take 4 l)).
Proof.
  intros El Hl. destruct l as [|a [|b [|c [|d l]]]]; try (cbn in El; lia). rewrite !Forall_cons in Hl. destruct Hl as (? & ? & ? & ? & _). unfold bigEndian_Uint32.
  rewrite (index_Val _ 3 d), (index_Val _ 2 c), (index_Val _ 1 b), (index_Val _ 0 a) by done. cbn [mbind outcome_bind]. f_equal. cbn [take]. open_words. rewrite <- (lor_word4 a b c d) by assumption.
  generalize (a <<.[32] 24), (b <<.[32] 16), (c <<.[32] 8). intros x y z. apply Z.bits_inj'. intros i _. rewrite !Z.lor_spec. by destruct (Z.testbit d i), (Z.testbit x i), (Z.testbit y i), (Z.testbit z i).
Qed.

Lemma word_of_uint l : is_word l -> is_uint 32 (word_of l).
Proof. intros Hl. word_bytes l Hl. open_words. apply word4_uint; assumption. Qed.

Lemma word_of_xor l m : is_word l -> is_word m -> is_word (zip_with Z.lxor l m) /\ word_of (zip_with Z.lxor l m) = word_of l ^. word_of m.
Proof.
  intros Hl Hm. split; [destruct Hl as [El Hl], Hm as [Em Hm]; split; [rewrite length_zip_with; lia|by apply lxor_bytes]|]. word_bytes l Hl. word_bytes m Hm. open_words. symmetry. apply word4_xor.
Qed.

Lemma SubBytes_word l : is_word l -> is_word (SubBytes l) /\ subw (word_of l) = Val (word_of (SubBytes l)).
Proof.
  intros Hl. destruct (SubBytes_bytes l (proj2 Hl)) as [Hb E]. split; [split; [rewrite E, length_map; apply Hl|done]|]. rewrite E. clear Hb E. destruct sbox_values as [Hv _]. word_bytes l Hl. open_words. unfold subw. cbn [map].
  erewrite (sbox_word_val _ _ _ _ _ _ _ _ _ _ Hv) by (first [eassumption | word_byte]). reflexivity.
Qed.

Lemma RotWord_word l : is_word l -> is_word (RotWord l) /\ rotw (word_of l) = word_of (RotWord l).
Proof.
  intros Hl. word_bytes l Hl. split; [split; [done|]; cbv [RotWord drop take app]; all_bytes|]. unfold RotWord. open_words. cbn [app take]. unfold rotw. apply (word_ext 32); [lia|apply lor_is_uint; [lia|apply wrap_is_uint; lia|apply shiftr_is_uint; [lia|lia|apply word4_uint; assumption]]|apply word4_uint; assumption|].
  intros i Hi. rewrite Z.lor_spec, Z.shiftr_spec by lia. unfold shl. rewrite testbit_wrap by lia. rewrite (proj2 (Z.ltb_lt i 32)), Z.shiftl_spec by lia. cbn [andb]. rewrite (word4_testbit _ _ _ _ (i + 24)), (word4_testbit _ _ _ _ i) by (assumption || lia).
  destruct (Z.ltb_spec i 8).
  - rewrite (Z.testbit_neg_r _ (i - 8)) by lia. rewrite (proj2 (Z.ltb_ge (i + 24) 8)), (proj2 (Z.ltb_ge (i + 24) 16)), (proj2 (Z.ltb_ge (i + 24) 24)) by lia. cbn [orb]. f_equal. lia.
  - rewrite (proj2 (Z.ltb_ge (i + 24) 8)), (proj2 (Z.ltb_ge (i + 24) 16)), (proj2 (Z.ltb_ge (i + 24) 24)) by lia. rewrite (testbit_high 8 _ (i + 24 - 24)) by (assumption || lia). rewrite orb_false_r, word4_testbit by (assumption || lia).
    destruct (Z.ltb_spec (i - 8) 8), (Z.ltb_spec i 16); try lia; [done|]. destruct (Z.ltb_spec (i - 8) 16), (Z.ltb_spec i 24); try lia; [f_equal; lia|]. rewrite (proj2 (Z.ltb_lt (i - 8) 24)) by lia. f_equal. lia.
Qed.

Lemma Rcon_word i : (1 <= i <= 16)%nat -> is_word (Rcon i) /\ index powx (Z.of_nat i - 1) = Val (Rcon i !!! 0%nat) /\ (Rcon i !!! 0%nat) <<.[32] 24 = word_of (Rcon i).
Proof.
  intros Hi. assert (Hp : forallb (λ p, (0 <=? p) && (p <? 256)) powx = true) by (vm_compute; reflexivity). rewrite forallb_forall in Hp. assert (Ep : powx !! (i - 1)%nat = Some (Nat.iter (i - 1) xtime 1)).
  { rewrite powx_powers. change (map ?f ?l) with (f <$> l). rewrite list_lookup_fmap, lookup_seq_lt by lia. done. }
  unfold Rcon. open_words. set (p := Nat.iter (i - 1) xtime 1) in *. assert (Hb : is_uint 8 p) by (specialize (Hp p ltac:(apply list_elem_of_In; by eapply list_elem_of_lookup_2)); unfold is_uint; lia).
  split; [split; [done|]; rewrite !Forall_cons; split_and!; try (by split); [exact Hb|constructor]|]. split; [apply index_Val; [lia|]; rewrite <- Ep; f_equal; lia|]. rewrite <- lor_word4 by (done || by split). rewrite !Z.lor_0_r. done.
Qed.

Section Schedule.
Context (key : list Z) (nk : nat).
Context (Hkey : bytes_ok key) (Elk : length key = (4 * nk)%nat) (Hnk : nk = 4%nat \/ nk = 6%nat \/ nk = 8%nat).

Let W (i : nat) : list (list Z) := KeyExpansion nk key i.

Lemma KeyExpansion_step i : (nk <= i)%nat -> W (S i) = W i ++ [schedule_word nk (W i) i].
Proof. intros Hi. unfold W, KeyExpansion. rewrite Nat.sub_succ_l by done. rewrite seq_S, foldl_app. cbn [foldl]. by replace (nk + (i - nk))%nat with i by lia. Qed.

Lemma KeyExpansion_start : W nk = key_words nk key.
Proof. unfold W, KeyExpansion. by rewrite Nat.sub_diag. Qed.

Lemma key_words_ok : length (key_words nk key) = nk /\ Forall is_word (key_words nk key).
Proof.
  unfold key_words. rewrite length_map, length_seq. split; [done|]. apply Forall_map, Forall_forall. intros i Hi%elem_of_seq. split; [rewrite length_take, length_drop; lia|by apply Forall_take, Forall_drop].
Qed.

Lemma word_at (w : list (list Z)) i : Forall is_word w -> (i < length w)%nat -> is_word (w !!! i) /\ w !! i = Some (w !!! i).
Proof. intros Hw Hi. pose proof (list_lookup_lookup_total_lt w i Hi) as E. split; [by eapply Forall_lookup_1 in Hw|done]. Qed.

(** [i / nk] is at most ten. *)
Lemma turns_bound i : (i < 4 * nk + 28)%nat -> (i / nk <= 10)%nat.
Proof. intros Hi. destruct Hnk as [-> | [-> | ->]]; apply Nat.lt_succ_r, Nat.Div0.div_lt_upper_bound; lia. Qed.

(** The words below [i] of the array. *)
Definition holds (enc : list Z) (w : list (list Z)) : Prop := forall m, (m < length w)%nat -> enc !! m = Some (word_of (w !!! m)).

Lemma index_word enc w i m : Forall is_word w -> holds enc w -> 0 <= i -> Z.to_nat i = m -> (m < length w)%nat -> is_word (w !!! m) /\ index enc i = Val (word_of (w !!! m)).
Proof. intros Hw Hh Hi Em Hm. split; [by apply word_at|]. apply index_Val; [done|]. rewrite Em. by apply Hh. Qed.

Lemma next_word_val w i enc : (nk <= i < 4 * nk + 28)%nat -> length w = i -> Forall is_word w -> holds enc w ->
  is_word (schedule_word nk w i) /\ next_word (Z.of_nat nk) (Z.of_nat i) enc = store enc (Z.of_nat i) (word_of (schedule_word nk w i)).
Proof.
  intros Hi El Hw Hh. destruct (index_word enc w (Z.of_nat i - 1) (i - 1) Hw Hh) as [Ht Et]; [lia|lia|lia|]. destruct (index_word enc w (Z.of_nat i - Z.of_nat nk) (i - nk) Hw Hh) as [He Ee]; [lia|lia|lia|]. unfold next_word, schedule_word. rewrite Et. cbn [mbind outcome_bind]. cbv zeta. set (t := w !!! (i - 1)%nat) in *. set (e := w !!! (i - nk)%nat) in *.
  assert (Em : Z.of_nat i mod Z.of_nat nk = Z.of_nat (i mod nk)) by (rewrite Nat2Z.inj_mod; done). assert (Eq : Z.quot (Z.of_nat i) (Z.of_nat nk) = Z.of_nat (i / nk)) by (rewrite Nat2Z.inj_div; apply Z.quot_div_nonneg; lia). rewrite Em, Eq, Ee.
  assert (Hd : (1 <= i / nk <= 16)%nat). { split; [apply Nat.div_le_lower_bound; lia|]. pose proof (turns_bound i ltac:(lia)). lia. }
  destruct (Nat.eqb_spec (i mod nk) 0) as [E0|E0].
  - rewrite E0. cbn [Z.of_nat Z.eqb]. destruct (RotWord_word t Ht) as [Hr ->], (SubBytes_word (RotWord t) Hr) as [Hs Es], (Rcon_word (i / nk) Hd) as (Hc & Ec & Ep). rewrite Es. cbn [mbind outcome_bind]. rewrite Ec. cbn [mbind outcome_bind]. rewrite Ep.
    destruct (word_of_xor _ _ Hs Hc) as [Hx Ex], (word_of_xor e _ He Hx) as [Hy Ey]. by rewrite Ey, Ex.
  - rewrite (proj2 (Z.eqb_neq (Z.of_nat (i mod nk)) 0)) by lia. replace (6 <? Z.of_nat nk) with (6 <? nk)%nat by (destruct (Nat.ltb_spec 6 nk), (Z.ltb_spec 6 (Z.of_nat nk)); done || lia). replace (Z.of_nat (i mod nk) =? 4) with (i mod nk =? 4)%nat by (destruct (Nat.eqb_spec (i mod nk) 4), (Z.eqb_spec (Z.of_nat (i mod nk)) 4); done || lia).
    destruct (_ && _); [destruct (SubBytes_word t Ht) as [Hs ->]|]; cbn [mbind outcome_bind]; [destruct (word_of_xor e _ He Hs) as [Hy ->]|destruct (word_of_xor e _ He Ht) as [Hy ->]]; done.
Qed.

Lemma holds_store enc w x : (length w < length enc)%nat -> holds enc w -> exists enc', store enc (zlen w) (word_of x) = Val enc' /\ length enc' = length enc /\ holds enc' (w ++ [x]).
Proof.
  intros Hl Hh. unfold store. rewrite decide_True by lia. rewrite Nat2Z.id. eexists. split; [reflexivity|]. split; [by rewrite length_insert|]. intros m Hm. rewrite length_app in Hm. cbn in Hm. destruct (decide (m = length w)) as [->|Hne].
  - rewrite list_lookup_insert_eq by done. by rewrite lookup_total_app_r, Nat.sub_diag.
  - rewrite list_lookup_insert_ne by done. rewrite lookup_total_app_l by lia. apply Hh. lia.
Qed.

(** Both loops of the key setup. *)
Lemma expand_enc : exists enc, (e ← for_up 0 (Z.max 0 (Z.of_nat nk)) (first_word key) (make 0 (Z.of_nat (4 * nk + 28))); for_up (Z.of_nat nk) (Z.max (Z.of_nat nk) (zlen e)) (next_word (Z.of_nat nk)) e) = Val enc /\
  length enc = (4 * nk + 28)%nat /\ holds enc (W (4 * nk + 28)) /\ length (W (4 * nk + 28)) = (4 * nk + 28)%nat /\ Forall is_word (W (4 * nk + 28)).
Proof.
  set (n := (4 * nk + 28)%nat). destruct key_words_ok as [Kl Kw]. assert (Hmk : length (make 0 (Z.of_nat n)) = n) by (unfold make; rewrite length_replicate; lia).
  destruct (for_up_inv (λ i e, 0 <= i /\ length e = n /\ holds e (take (Z.to_nat i) (key_words nk key))) 0 (Z.max 0 (Z.of_nat nk)) (first_word key) (make 0 (Z.of_nat n))) as (e & E1 & _ & Ele & He); [lia|split; [done|]; split; [done|]; intros m Hm; rewrite length_take in Hm; lia| |].
  - intros i e Hi (_ & Ele & He). unfold first_word. rewrite slice_from by lia. cbn [mbind outcome_bind]. rewrite Uint32_word by (first [by apply Forall_drop | rewrite length_drop; lia]). cbn [mbind outcome_bind]. assert (Hti : length (take (Z.to_nat i) (key_words nk key)) = Z.to_nat i) by (rewrite length_take; lia).
    destruct (holds_store e (take (Z.to_nat i) (key_words nk key)) (take 4 (drop (Z.to_nat (4 * i)) key))) as (e' & Es & Ele' & He'); [lia|done|]. rewrite Hti, Z2Nat.id in Es by lia. exists e'. split; [exact Es|]. split; [lia|]. split; [lia|]. replace (Z.to_nat (i + 1)) with (S (Z.to_nat i)) by lia.
    rewrite (take_S_r _ _ (take 4 (drop (Z.to_nat (4 * i)) key))); [exact He'|]. unfold key_words. change (map ?f ?l) with (f <$> l). rewrite list_lookup_fmap, lookup_seq_lt by lia. cbn [fmap option_fmap option_map Nat.add]. do 3 f_equal. lia.
  - rewrite take_ge in He by lia. rewrite E1. cbn [mbind outcome_bind]. rewrite <- KeyExpansion_start in He, Kl, Kw.
    destruct (for_up_inv (λ i e, Z.of_nat nk <= i /\ length e = n /\ holds e (W (Z.to_nat i)) /\ length (W (Z.to_nat i)) = Z.to_nat i /\ Forall is_word (W (Z.to_nat i))) (Z.of_nat nk) (Z.max (Z.of_nat nk) (zlen e)) (next_word (Z.of_nat nk)) e) as (e2 & E2 & _ & Hl2 & Hh2 & Hw2); [lia|rewrite Nat2Z.id; split_and!; done| |].
    + intros i e0 Hi (_ & El0 & Hh & Hl & Hw). destruct (next_word_val (W (Z.to_nat i)) (Z.to_nat i) e0) as [Hsw En]; [lia|done|done|done|]. rewrite Z2Nat.id in En by lia. destruct (holds_store e0 (W (Z.to_nat i)) (schedule_word nk (W (Z.to_nat i)) (Z.to_nat i))) as (e' & Es & El' & Hh'); [lia|done|]. rewrite Hl, Z2Nat.id in Es by lia.
      exists e'. split; [by rewrite En|]. replace (Z.to_nat (i + 1)) with (S (Z.to_nat i)) by lia. rewrite KeyExpansion_step by lia. split_and!; [lia|lia|done|rewrite length_app; cbn; lia|]. apply Forall_app. split; [done|by apply Forall_singleton].
    + exists e2. split; [done|]. replace (Z.to_nat (Z.max (Z.of_nat nk) (zlen e))) with n in * by lia. done.
Qed.
End Schedule.

(** ** The decryption key *)

#[local] Transparent MixColumns InvMixColumns ShiftRows InvShiftRows SubBytes InvSubBytes AddRoundKey.

Definition unmix_word (l : list Z) : list Z := map (mix 14 11 13 9 l) (seq 0 4).

Lemma lxor_cycle a b c d : a ^. b ^. c ^. d = b ^. c ^. d ^. a /\ a ^. b ^. c ^. d = c ^. d ^. a ^. b /\ a ^. b ^. c ^. d = d ^. a ^. b ^. c.
Proof. split_and!; apply Z.bits_inj'; intros i _; rewrite !Z.lxor_spec; by destruct (Z.testbit a i), (Z.testbit b i), (Z.testbit c i), (Z.testbit d i). Qed.

(** The tables of the decryption, behind the S-box, on one word. *)
Lemma unmix_tables l : is_word l -> let x := word_of l in
  (a ← index sbox0 (x >>. 24); b ← index sbox0 ((x >>. 16) &. 0xff); c ← index sbox0 ((x >>. 8) &. 0xff); d ← index sbox0 (x &. 0xff);
   p ← index td0 a; q ← index td1 b; r ← index td2 c; s ← index td3 d; Val (p ^. q ^. r ^. s)) = Val (word_of (unmix_word l)).
Proof.
  intros Hl x. destruct Hl as [El Hl]. destruct l as [|a [|b [|c [|d [|? l]]]]]; try discriminate El. rewrite !Forall_cons in Hl. destruct Hl as (Ha & Hb & Hc & Hd & _). subst x. unfold unmix_word. open_words. open_steps.
  destruct (word4_bytes a b c d Ha Hb Hc Hd) as (_ & -> & -> & -> & ->). destruct (sbox_at a Ha) as [-> _], (sbox_at b Hb) as [-> _], (sbox_at c Hc) as [-> _], (sbox_at d Hd) as [-> _]. cbn [mbind outcome_bind].
  destruct (sub_byte a Ha) as (Hsa & _ & Ea & _), (sub_byte b Hb) as (Hsb & _ & Eb & _), (sub_byte c Hc) as (Hsc & _ & Ec & _), (sub_byte d Hd) as (Hsd & _ & Ed & _). destruct td_tables as (T0 & T1 & T2 & T3).
  rewrite (table_at td0 _ _ T0 Hsa), (table_at td1 _ _ T1 Hsb), (table_at td2 _ _ T2 Hsc), (table_at td3 _ _ T3 Hsd). cbn [mbind outcome_bind]. cbv zeta. rewrite Ea, Eb, Ec, Ed, !word4_xor. f_equal. f_equal; apply lxor_cycle.
Qed.

Section Decryption.
Context (w : list (list Z)) (n : nat) (Hw : Forall is_word w) (El : length w = n).

Definition dec_source (m : nat) : list Z :=
  let l := w !!! (n - 4 * (m / 4) - 4 + m mod 4)%nat in if (0 <? m / 4)%nat && (4 * (m / 4) + 4 <? n)%nat then unmix_word l else l.
Definition holds_dec (dec : list Z) (k : nat) : Prop := length dec = n /\ forall m, (m < k)%nat -> dec !! m = Some (word_of (dec_source m)).

Lemma dec_word_val e r j dec : (4 * r + 4 <= n)%nat -> (j < 4)%nat -> holds e w -> length e = n -> holds_dec dec (4 * r + j) -> exists dec', dec_word e (Z.of_nat n) (Z.of_nat (4 * r)) (Z.of_nat j) dec = Val dec' /\ holds_dec dec' (4 * r + S j).
Proof.
  intros Hr Hj He Ele [Eld Hd]. unfold dec_word. destruct (index_word e w (Z.of_nat n - Z.of_nat (4 * r) - 4 + Z.of_nat j) (n - 4 * r - 4 + j) Hw He) as [Hl Ei]; [lia|lia|lia|]. rewrite Ei. cbn [mbind outcome_bind]. set (l := w !!! (n - 4 * r - 4 + j)%nat) in *.
  assert (Edv : ((4 * r + j) / 4 = r)%nat /\ ((4 * r + j) mod 4 = j)%nat) by (rewrite (Nat.mul_comm 4 r), Nat.add_comm, Nat.div_add, Nat.Div0.mod_add by lia; rewrite Nat.div_small, Nat.mod_small by lia; lia). destruct Edv as [Edv Emd].
  assert (Es : dec_source (4 * r + j) = if (0 <? r)%nat && (4 * r + 4 <? n)%nat then unmix_word l else l) by (unfold dec_source; by rewrite Edv, Emd).
  replace ((0 <? Z.of_nat (4 * r)) && (Z.of_nat (4 * r) + 4 <? Z.of_nat n)) with ((0 <? r)%nat && (4 * r + 4 <? n)%nat) by (destruct (Nat.ltb_spec 0 r), (Nat.ltb_spec (4 * r + 4) n), (Z.ltb_spec 0 (Z.of_nat (4 * r))), (Z.ltb_spec (Z.of_nat (4 * r) + 4) (Z.of_nat n)); done || lia).
  assert (Ev : (if (0 <? r)%nat && (4 * r + 4 <? n)%nat then a ← index sbox0 (word_of l >>. 24); b ← index sbox0 ((word_of l >>. 16) &. 0xff); c ← index sbox0 ((word_of l >>. 8) &. 0xff); d ← index sbox0 (word_of l &. 0xff);
     p ← index td0 a; q ← index td1 b; r ← index td2 c; s ← index td3 d; Val (p ^. q ^. r ^. s) else Val (word_of l)) = Val (word_of (dec_source (4 * r + j)))) by (rewrite Es; destruct (_ && _); [by apply unmix_tables|done]).
  rewrite Ev. cbn [mbind outcome_bind]. unfold store. rewrite decide_True by lia. replace (Z.to_nat (Z.of_nat (4 * r) + Z.of_nat j)) with (4 * r + j)%nat by lia. eexists. split; [reflexivity|]. split; [by rewrite length_insert|].
  intros m Hm. destruct (decide (m = 4 * r + j)%nat) as [->|Hne]; [apply list_lookup_insert_eq; lia|]. rewrite list_lookup_insert_ne by done. apply Hd. lia.
Qed.

Lemma dec_loop_val e (k : nat) : forall r fuel dec, n = (4 * (r + k))%nat -> holds e w -> length e = n -> holds_dec dec (4 * r) -> (k < fuel)%nat -> exists dec', dec_loop fuel e (Z.of_nat n) (Z.of_nat (4 * r)) dec = Val dec' /\ holds_dec dec' n.
Proof.
  induction k as [|k IH]; intros r fuel dec En He Ele Hd Hf; (destruct fuel as [|fuel]; [lia|]); cbn [dec_loop].
  - rewrite (proj2 (Z.ltb_ge _ _)) by lia. exists dec. split; [done|]. replace n with (4 * r)%nat by lia. replace (4 * r)%nat with n in * by lia. done.
  - rewrite (proj2 (Z.ltb_lt _ _)) by lia. destruct (for_up_inv (λ j d, 0 <= j /\ holds_dec d (4 * r + Z.to_nat j)) 0 4 (dec_word e (Z.of_nat n) (Z.of_nat (4 * r))) dec) as (d & E & _ & Hd'); [lia|by rewrite Nat.add_0_r| |].
    + intros j d Hj [_ Hd']. destruct (dec_word_val e r (Z.to_nat j) d) as (d' & E & H'); [lia|lia|done|done|done|]. rewrite Z2Nat.id in E by lia. exists d'. split; [done|]. split; [lia|]. by replace (Z.to_nat (j + 1)) with (S (Z.to_nat j)) by lia.
    + rewrite E. cbn [mbind outcome_bind]. replace (Z.of_nat (4 * r) + 4) with (Z.of_nat (4 * S r)) by lia. apply IH; [lia|done|done| |lia]. by replace (4 * S r)%nat with (4 * r + Z.to_nat 4)%nat by lia.
Qed.

(** ** Round keys in the arrays *)

Lemma four_words r : (4 * r + 4 <= n)%nat -> take 4 (drop (4 * r) w) = [w !!! (4 * r)%nat; w !!! (4 * r + 1)%nat; w !!! (4 * r + 2)%nat; w !!! (4 * r + 3)%nat].
Proof.
  intros Hr. apply list_eq_same_length with 4%nat; [done|rewrite length_take, length_drop; lia|]. intros i x y Hi Hx Hy. rewrite lookup_take_lt, lookup_drop in Hx by done. rewrite (list_lookup_lookup_total_lt w (4 * r + i)) in Hx by lia. injection Hx as <-.
  do 4 (destruct i as [|i]; [injection Hy as <-; f_equal; lia|]). lia.
Qed.

Lemma round_key_words r : (4 * r + 4 <= n)%nat -> let k := round_key w r in
  is_state k /\ (forall j, (j < 4)%nat -> word_of (drop (4 * j) k) = word_of (w !!! (4 * r + j)%nat) /\ word_of (drop (4 * j) (InvMixColumns k)) = word_of (unmix_word (w !!! (4 * r + j)%nat))).
Proof.
  intros Hr k. unfold k, round_key. rewrite four_words by done. clear k. assert (Hi : forall j, (j < 4)%nat -> is_word (w !!! (4 * r + j)%nat)) by (intros j Hj; apply word_at; [done|lia]).
  pose proof (Hi 0%nat ltac:(lia)) as H0. pose proof (Hi 1%nat ltac:(lia)) as H1. pose proof (Hi 2%nat ltac:(lia)) as H2. pose proof (Hi 3%nat ltac:(lia)) as H3. rewrite Nat.add_0_r in H0. clear Hi.
  set (a := w !!! (4 * r)%nat) in *. set (b := w !!! (4 * r + 1)%nat) in *. set (c := w !!! (4 * r + 2)%nat) in *. set (d := w !!! (4 * r + 3)%nat) in *. split.
  - split; [cbn [concat]; rewrite !length_app; destruct H0 as [-> _], H1 as [-> _], H2 as [-> _], H3 as [-> _]; done|]. cbn [concat]. rewrite !Forall_app. destruct H0, H1, H2, H3. split_and!; done.
  - intros j Hj. assert (Ej : w !!! (4 * r + j)%nat = [a; b; c; d] !!! j) by (do 4 (destruct j as [|j]; [rewrite ?Nat.add_0_r; done|]); lia). rewrite Ej. clear Ej. revert H0 H1 H2 H3. generalize a, b, c, d. intros a' b' c' d' H0 H1 H2 H3.
    word_bytes a' H0. word_bytes b' H1. word_bytes c' H2. word_bytes d' H3. do 4 (destruct j as [|j]; [done|]). lia.
Qed.
End Decryption.

(** ** Round keys in the arrays of a cipher *)

Lemma key_at_words xk k kb : (forall j, (j < 4)%nat -> index xk (k + Z.of_nat j) = Val (word_of (drop (4 * j) kb))) -> key_at xk k kb.
Proof. intros H. split_and!; [apply (H 0%nat)|apply (H 1%nat)|apply (H 2%nat)|apply (H 3%nat)]; lia. Qed.

Lemma divided r j : (j < 4)%nat -> ((4 * r + j) / 4 = r /\ (4 * r + j) mod 4 = j)%nat.
Proof. intros Hj. rewrite (Nat.mul_comm 4 r), Nat.add_comm, Nat.div_add, Nat.Div0.mod_add by lia. rewrite Nat.div_small, Nat.mod_small by lia. lia. Qed.

Section Expanded.
Context (w : list (list Z)) (n nr : nat) (Hw : Forall is_word w) (Ew : length w = n) (En : n = (4 * (nr + 1))%nat).

Lemma enc_key_at e r : holds e w -> (r <= nr)%nat -> key_at e (4 * Z.of_nat r) (round_key w r).
Proof.
  intros He Hr. apply key_at_words. intros j Hj. destruct (round_key_words w n Hw Ew r ltac:(lia)) as [_ Hk]. destruct (Hk j Hj) as [-> _]. by apply (index_word e w _ (4 * r + j) Hw He); lia.
Qed.

Lemma dec_key_at d r : holds_dec w n d n -> (r <= nr)%nat ->
  key_at d (4 * Z.of_nat r) (if (0 <? r)%nat && (r <? nr)%nat then InvMixColumns (round_key w (nr - r)) else round_key w (nr - r)).
Proof.
  intros [Eld Hd] Hr. apply key_at_words. intros j Hj. destruct (round_key_words w n Hw Ew (nr - r) ltac:(lia)) as [_ Hk]. destruct (Hk j Hj) as [E1 E2]. destruct (divided r j Hj) as [Eq Em].
  assert (Ei : index d (4 * Z.of_nat r + Z.of_nat j) = Val (word_of (dec_source w n (4 * r + j)))) by (apply index_Val; [lia|]; rewrite <- Hd by lia; f_equal; lia). rewrite Ei. f_equal. unfold dec_source. rewrite Eq, Em. replace (n - 4 * r - 4 + j)%nat with (4 * (nr - r) + j)%nat by lia.
  replace (4 * r + 4 <? n)%nat with (r <? nr)%nat by (destruct (Nat.ltb_spec r nr), (Nat.ltb_spec (4 * r + 4) n); done || lia). by destruct (_ && _).
Qed.
End Expanded.

(** A key of one of the three lengths. *)
Definition good_key (key : list Z) : Prop := bytes_ok key /\ (zlen key = 16 \/ zlen key = 24 \/ zlen key = 32).

Lemma good_key_words key : good_key key -> let nk := Nk key in length key = (4 * nk)%nat /\ (nk = 4 \/ nk = 6 \/ nk = 8)%nat.
Proof. intros [_ Hl]. unfold Nk. assert (length key = 16 \/ length key = 24 \/ length key = 32)%nat as [-> | [-> | ->]] by lia; cbn; lia. Qed.

Lemma expanded key : good_key key -> exists e d, newCipher key = Val (AesCipher e d) /\ zlen e = 4 * (Z.of_nat (Nr key) + 1) /\ zlen d = zlen e /\
  (forall r, (r <= Nr key)%nat -> is_state (schedule key r) /\ key_at e (4 * Z.of_nat r) (schedule key r) /\
     key_at d (4 * Z.of_nat r) (if (0 <? r)%nat && (r <? Nr key)%nat then InvMixColumns (schedule key (Nr key - r)) else schedule key (Nr key - r))).
Proof.
  intros Hg. pose proof Hg as [Hb _]. destruct (good_key_words key Hg) as [Ek Hnk]. destruct (expand_enc key (Nk key) Hb Ek Hnk) as (e & He & Ele & Hh & Elw & Hw). set (n := (4 * Nk key + 28)%nat) in *. set (w := KeyExpansion (Nk key) key n) in *.
  assert (En : n = (4 * (Nr key + 1))%nat) by (unfold n, Nr; lia). destruct (dec_loop_val w n Hw Elw e (Nr key + 1) 0 (S (Z.to_nat (Z.of_nat n))) (make 0 (Z.of_nat n))) as (d & Ed & Hd); [lia|done|done|split; [unfold make; rewrite length_replicate; lia|lia]|lia|].
  exists e, d. split.
  - unfold newCipher, newCipherGeneric, expandKeyGo. replace (zlen key + 28) with (Z.of_nat n) by lia. replace (Z.quot (zlen key) 4) with (Z.of_nat (Nk key)) by (rewrite Ek; rewrite Nat2Z.inj_mul, Z.mul_comm, Z.quot_mul; lia).
    destruct (for_up 0 _ (first_word key) _) as [e0| |]; [|done..]. cbn [mbind outcome_bind] in He |- *. rewrite He. cbn [mbind outcome_bind]. rewrite Ele. change (Z.of_nat (4 * 0)) with 0 in Ed. rewrite Ed. done.
  - split; [lia|]. split; [destruct Hd; lia|]. intros r Hr. unfold schedule. rewrite <- En. fold w. split; [|split].
    + by apply (round_key_words w n Hw Elw); lia.
    + by apply (enc_key_at w n (Nr key)).
    + by apply (dec_key_at w n (Nr key)).
Qed.

(** ** A block on the heap *)

Lemma word_of_take l : word_of (take 4 l) = word_of l.
Proof. by destruct l as [|a [|b [|c [|d l]]]]. Qed.

Lemma word_of_value l : is_word l -> word_of l = order_value true l.
Proof.
  intros [El Hl]. pose proof (Uint32_word l ltac:(lia) Hl) as E1. assert (Hin : (4%nat, true, Uint32 BigEndian, PutUint32 BigEndian) ∈ byte_orders) by (unfold byte_orders; rewrite !elem_of_cons; tauto).
  pose proof (get_spec _ _ _ _ l Hin ltac:(lia) Hl) as E2. change (Uint32 BigEndian l) with (bigEndian_Uint32 l) in E2. rewrite E1, take_ge in E2 by lia. by injection E2.
Qed.

Lemma put_word l m : is_word l -> length m = 4%nat -> bigEndian_PutUint32 m (word_of l) = Val l.
Proof.
  intros Hl Em. assert (Hin : (4%nat, true, Uint32 BigEndian, PutUint32 BigEndian) ∈ byte_orders) by (unfold byte_orders; rewrite !elem_of_cons; tauto).
  pose proof (put_spec _ _ _ _ m (word_of l) Hin ltac:(lia)) as E. change (PutUint32 BigEndian m (word_of l)) with (bigEndian_PutUint32 m (word_of l)) in E. rewrite E, (word_of_value l Hl), drop_ge, app_nil_r by lia. destruct Hl as [El Hl]. by rewrite order_bytes_value'.
Qed.

(** A state as four words. *)
Definition part (s : list Z) (i : nat) : list Z := take 4 (drop i s).

Lemma state_parts s : is_state s -> s = part s 0 ++ part s 4 ++ part s 8 ++ part s 12 /\ is_word (part s 0) /\ is_word (part s 4) /\ is_word (part s 8) /\ is_word (part s 12) /\
  words_of s = (word_of (part s 0), word_of (part s 4), word_of (part s 8), word_of (part s 12)).
Proof.
  intros Hs. assert (Hp : forall i, (i <= 12)%nat -> is_word (part s i)) by (intros i Hi; destruct Hs as [El Hs]; split; [unfold part; rewrite length_take, length_drop; lia|by apply Forall_take, Forall_drop]).
  split; [|split_and!; try (apply Hp; lia)]; [bytes_of s Hs; done|]. unfold words_of, part. by rewrite !word_of_take, drop_0.
Qed.

Section Heap.
Implicit Types (h : bytes_heap) (dst src : Slice) (l p s : list Z) (i : Z).

Lemma load_val h src i : good_heap h -> wf h src -> 16 <= fCount src -> 0 <= i <= 12 -> load src i h = Val (word_of (drop (Z.to_nat i) (cont h (Slices.sub src 0 16))), h).
Proof.
  intros Hg Hs Hl Hi. pose proof Hs as (? & ? & ? & ?). pose proof (cont_length h src Hs) as El. unfold load. eapply bind_step; [apply slice_of; [done|done|lia|slices]|]. eapply bind_step; [done|]. rewrite !cont_sub by lia. replace (i + 4 - i) with 4 by lia. rewrite Z.sub_0_r, drop_0.
  unfold lift. assert (Hc : bytes_ok (cont h src)) by (by apply cont_ok). set (C := cont h src) in *. rewrite Uint32_word by (first [by apply Forall_take, Forall_drop | rewrite length_take, length_drop; lia]). f_equal. f_equal.
  rewrite <- (word_of_take (drop (Z.to_nat i) (take _ C))). f_equal. rewrite take_take. change (Z.to_nat 4) with 4%nat. rewrite Nat.min_id. rewrite skipn_firstn_comm, take_take. f_equal. lia.
Qed.

(** The next four bytes, behind those that have been written. *)
Lemma save_val h dst p l i : good_heap h -> wf h dst -> 16 <= fCount dst -> zlen p = i -> 0 <= i <= 12 -> bytes_ok p -> is_word l ->
  save dst i (word_of l) (blit h (Slices.sub dst 0 16) p) = Val (tt, blit h (Slices.sub dst 0 16) (p ++ l)).
Proof.
  intros Hg Hd Hl Ep Hi Hp Hw. pose proof Hd as (? & ? & ? & ?). set (h1 := blit h (Slices.sub dst 0 16) p). assert (Hg1 : good_heap h1) by (apply blit_good; (done || slices)). assert (Hd1 : wf h1 dst) by (apply blit_wf; slices).
  assert (Hs1 : wf h1 (Slices.sub dst i (i + 4))) by slices. pose proof (cont_length h1 _ Hs1) as Ec. cbn [fCount Slices.sub] in Ec. unfold save. eapply bind_step; [apply slice_of; [done|done|lia|slices]|]. rewrite (update_val _ _ _ l) by (apply put_word; [done|lia]). f_equal. f_equal. unfold h1.
  destruct Hw as [Elw _]. rewrite <- (blit_blit h (Slices.sub dst 0 16) p l i) by slices. f_equal. unfold Slices.sub. cbn. f_equal; lia.
Qed.

Lemma blockGo_val h dst src on_words s : good_heap h -> wf h dst -> wf h src -> 16 <= fCount dst -> 16 <= fCount src -> is_state s ->
  on_words (words_of (cont h (Slices.sub src 0 16))) = Val (words_of s) -> blockGo on_words dst src h = Val (tt, blit h (Slices.sub dst 0 16) s).
Proof.
  intros Hg Hd Hs Hld Hls Hst Hon. pose proof (cont_length h src Hs) as Els. pose proof (cont_length h dst Hd) as Eld. pose proof Hd as (? & ? & ? & ?). destruct (lookup_lt_is_Some_2 (cont h src) 15) as [x Ex]; [lia|]. destruct (lookup_lt_is_Some_2 (cont h dst) 15) as [y Ey]; [lia|].
  destruct (state_parts s Hst) as (Es & W0 & W1 & W2 & W3 & Ew). set (S := cont h (Slices.sub src 0 16)) in *. assert (Hon' : on_words (word_of (drop (Z.to_nat 0) S), word_of (drop (Z.to_nat 4) S), word_of (drop (Z.to_nat 8) S), word_of (drop (Z.to_nat 12) S)) = Val (words_of s)) by exact Hon.
  unfold blockGo. eapply bind_step; [apply (get_Item_val h src 15 x); done|]. do 4 (eapply bind_step; [apply load_val; (done || lia)|]). eapply bind_step; [unfold lift; fold S; rewrite Hon'; reflexivity|]. rewrite Ew.
  eapply bind_step; [apply (get_Item_val h dst 15 y); done|]. assert (Hb : forall l, is_word l -> bytes_ok l) by (by intros l [_ ?]). assert (Hz : forall l, is_word l -> zlen l = 4) by (intros l [-> _]; done).
  assert (Er : blit h (Slices.sub dst 0 16) s = blit h (Slices.sub dst 0 16) (part s 0 ++ part s 4 ++ part s 8 ++ part s 12)) by (f_equal; exact Es). rewrite Er. clear Er Es. set (p0 := part s 0) in *. set (p1 := part s 4) in *. set (p2 := part s 8) in *. set (p3 := part s 12) in *. pose proof (Hz _ W0). pose proof (Hz _ W1). pose proof (Hz _ W2).
  eapply bind_step; [pose proof (save_val h dst [] p0 0 Hg Hd Hld eq_refl ltac:(lia) (Forall_nil_2 _) W0) as E; rewrite blit_nil in E by slices; exact E|]. cbn [app].
  eapply bind_step; [apply (save_val h dst p0 p1 4 Hg Hd Hld); [done|lia|auto|done]|].
  eapply bind_step; [apply (save_val h dst (p0 ++ p1) p2 8 Hg Hd Hld); [rewrite zlen_app; lia|lia|apply Forall_app; auto|done]|].
  rewrite (save_val h dst ((p0 ++ p1) ++ p2) p3 12 Hg Hd Hld); [by rewrite <- !app_assoc|rewrite !zlen_app; lia|lia|rewrite !Forall_app; auto|done].
Qed.

Lemma cont_state h src : good_heap h -> wf h src -> 16 <= fCount src -> is_state (cont h (Slices.sub src 0 16)).
Proof. intros Hg Hs Hl. assert (Hw : wf h (Slices.sub src 0 16)) by (destruct Hs as (? & ? & ? & ?); slices). pose proof (cont_length h _ Hw) as E. cbn [fCount Slices.sub] in E. split; [lia|by apply cont_ok]. Qed.
End Heap.

(** ** The cipher keeps the laws of the interface *)

Definition state_of : words -> list Z := λ '(a, b, c, d), order_bytes true 4 a ++ order_bytes true 4 b ++ order_bytes true 4 c ++ order_bytes true 4 d.

Lemma state_of_words s : is_state s -> state_of (words_of s) = s.
Proof.
  intros Hs. destruct (state_parts s Hs) as (Es & W0 & W1 & W2 & W3 & ->). cbn [state_of]. rewrite !word_of_value by done. destruct W0, W1, W2, W3. by rewrite !order_bytes_value' by done.
Qed.

(** What the words of a cipher make of a block. *)
Definition on_block (f : words -> outcome words) (s : list Z) : list Z := match f (words_of s) with Val ws => state_of ws | _ => [] end.
Definition keyed (key : list Z) (c : aesCipher) : Prop := good_key key /\ newCipher key = Val c.

Section Keyed.
Context (key : list Z) (c : aesCipher) (Hk : keyed key c).

Lemma keyed_words s : is_state s ->
  (encrypt_words (enc c) (words_of s) = Val (words_of (encrypt key s)) /\ is_state (encrypt key s)) /\
  (decrypt_words (dec c) (words_of s) = Val (words_of (decrypt key s)) /\ is_state (decrypt key s)) /\
  decrypt key (encrypt key s) = s /\ encrypt key (decrypt key s) = s.
Proof.
  intros Hs. destruct Hk as [Hg Ec]. destruct (expanded key Hg) as (e & d & E & Hle & Hld & Hr). rewrite E in Ec. injection Ec as <-. cbn [enc dec]. destruct (good_key_words key Hg) as [_ Hnk]. assert (H2 : (2 <= Nr key)%nat) by (unfold Nr; lia).
  assert (Hw : forall r, (r <= Nr key)%nat -> is_state (schedule key r)) by (intros r Hle'; by apply Hr). assert (H1 : (1 <= Nr key)%nat) by lia. unfold encrypt, decrypt. split_and!.
  - apply (encrypt_words_val (schedule key) (Nr key) Hw H1); [done|done|intros r Hle'; by apply Hr|done].
  - by apply (Cipher_state (schedule key) (Nr key) Hw).
  - apply (decrypt_words_val (schedule key) (Nr key) Hw H1); [done|lia| | | |done].
    + destruct (Hr 0%nat ltac:(lia)) as (_ & _ & H). rewrite Nat.sub_0_r in H. exact H.
    + intros r Hr'. destruct (Hr r ltac:(lia)) as (_ & _ & H). rewrite (proj2 (Nat.ltb_lt 0 r)), (proj2 (Nat.ltb_lt r (Nr key))) in H by lia. exact H.
    + destruct (Hr (Nr key) ltac:(lia)) as (_ & _ & H). rewrite Nat.ltb_irrefl, andb_false_r, Nat.sub_diag in H. exact H.
  - by apply (Cipher_state (schedule key) (Nr key) Hw).
  - by apply (InvCipher_Cipher (schedule key) (Nr key) Hw).
  - by apply (Cipher_InvCipher (schedule key) (Nr key) Hw).
Qed.

Lemma on_block_val s : is_state s -> on_block (encrypt_words (enc c)) s = encrypt key s /\ on_block (decrypt_words (dec c)) s = decrypt key s.
Proof. intros Hs. destruct (keyed_words s Hs) as ([E1 H1] & [E2 H2] & _). unfold on_block. rewrite E1, E2. split; by apply state_of_words. Qed.

(** One block on the heap. *)
Lemma Encrypt_keyed h dst src : good_heap h -> wf h dst -> wf h src ->
  if (fCount src <? 16) || (fCount dst <? 16) || InexactOverlap (Slices.sub dst 0 16) (Slices.sub src 0 16) then Encrypt c dst src h = Panic Explicit /\ Decrypt c dst src h = Panic Explicit
  else Encrypt c dst src h = Val (tt, blit h (Slices.sub dst 0 16) (encrypt key (cont h (Slices.sub src 0 16)))) /\ Decrypt c dst src h = Val (tt, blit h (Slices.sub dst 0 16) (decrypt key (cont h (Slices.sub src 0 16)))).
Proof.
  intros Hg Hd Hs. pose proof (block_checks_val h dst src BlockSize Hg Hd Hs ltac:(done)) as E. unfold BlockSize in E. unfold Encrypt, Decrypt, BlockSize. destruct (_ || _) eqn:Eb; [split; by apply bind_panic|].
  rewrite !orb_false_iff, !Z.ltb_ge in Eb. destruct Eb as [[H1 H2] _]. destruct (keyed_words _ (cont_state h src Hg Hs H1)) as ([E1 S1] & [E2 S2] & _). split; (eapply bind_step; [exact E|]; by apply blockGo_val).
Qed.
End Keyed.

Lemma block_state s : is_block 16 s <-> is_state s.
Proof. unfold is_block, is_state. split; intros [? ?]; (split; [lia|done]). Qed.

#[export] Program Instance aes_laws : BlockLaws aesCipher := {|
  block_ok c := exists key, keyed key c;
  encrypted c := on_block (encrypt_words (enc c));
  decrypted c := on_block (decrypt_words (dec c))
|}.
Next Obligation. done. Qed.
Next Obligation. intros c x [key Hk] Hx%block_state. apply block_state. rewrite (proj1 (on_block_val key c Hk x Hx)). apply (keyed_words key c Hk x Hx). Qed.
Next Obligation. intros c x [key Hk] Hx%block_state. apply block_state. rewrite (proj2 (on_block_val key c Hk x Hx)). apply (keyed_words key c Hk x Hx). Qed.
Next Obligation.
  intros c x [key Hk] Hx%block_state. destruct (keyed_words key c Hk x Hx) as ([_ H1] & _ & E & _). by rewrite (proj1 (on_block_val key c Hk x Hx)), (proj2 (on_block_val key c Hk _ H1)).
Qed.
Next Obligation.
  intros c x [key Hk] Hx%block_state. destruct (keyed_words key c Hk x Hx) as (_ & [_ H1] & _ & E). by rewrite (proj2 (on_block_val key c Hk x Hx)), (proj1 (on_block_val key c Hk _ H1)).
Qed.
Next Obligation.
  intros c h dst src [key Hk] Hg Hd Hs Hld Hls Ho. cbn in Hld, Hls, Ho |- *. change BlockSize with 16 in *. pose proof (Encrypt_keyed key c Hk h dst src Hg Hd Hs) as E. rewrite Ho, (proj2 (Z.ltb_ge _ _) Hls), (proj2 (Z.ltb_ge _ _) Hld) in E. cbn [orb] in E. destruct E as [-> _].
  by rewrite (proj1 (on_block_val key c Hk _ (cont_state h src Hg Hs Hls))).
Qed.
Next Obligation.
  intros c h dst src [key Hk] Hg Hd Hs Hld Hls Ho. cbn in Hld, Hls, Ho |- *. change BlockSize with 16 in *. pose proof (Encrypt_keyed key c Hk h dst src Hg Hd Hs) as E. rewrite Ho, (proj2 (Z.ltb_ge _ _) Hls), (proj2 (Z.ltb_ge _ _) Hld) in E. cbn [orb] in E. destruct E as [_ ->].
  by rewrite (proj2 (on_block_val key c Hk _ (cont_state h src Hg Hs Hls))).
Qed.
Next Obligation.
  intros c h dst src [key Hk] Hg Hd Hs Hr. cbn in Hr |- *. change BlockSize with 16 in *. pose proof (Encrypt_keyed key c Hk h dst src Hg Hd Hs) as E. destruct (_ || _) eqn:Eb; [apply E|]. rewrite !orb_false_iff, !Z.ltb_ge in Eb. destruct Eb as [[? ?] Eb]. rewrite Eb in Hr. lia.
Qed.
Next Obligation.
  intros c h dst src [key Hk] Hg Hd Hs Hr. cbn in Hr |- *. change BlockSize with 16 in *. pose proof (Encrypt_keyed key c Hk h dst src Hg Hd Hs) as E. destruct (_ || _) eqn:Eb; [apply E|]. rewrite !orb_false_iff, !Z.ltb_ge in Eb. destruct Eb as [[? ?] Eb]. rewrite Eb in Hr. lia.
Qed.

(** ** NewCipher *)

Lemma NewCipher_val key : bytes_ok key ->
  if (zlen key =? 16) || (zlen key =? 24) || (zlen key =? 32) then exists c, NewCipher key = Val (inl c) /\ keyed key c else NewCipher key = Val (inr (zlen key)).
Proof.
  intros Hb. unfold NewCipher. destruct (_ || _) eqn:E; [|done]. assert (Hg : good_key key) by (split; [done|lia]). destruct (expanded key Hg) as (e & d & En & _). rewrite En. by eexists.
Qed.

(** The appendix of FIPS 197. *)
Example fips_vectors :
  run_block Encrypt (take 16 fips_key) fips_block = Val (order_bytes true 16 0x69c4e0d86a7b0430d8cdb78070b4c55a) /\
  run_block Encrypt (take 24 fips_key) fips_block = Val (order_bytes true 16 0xdda97ca4864cdfe06eaf70a0ec0d7191) /\
  run_block Encrypt fips_key fips_block = Val (order_bytes true 16 0x8ea2b7ca516745bfeafc49904b496089) /\
  run_block Decrypt fips_key (order_bytes true 16 0x8ea2b7ca516745bfeafc49904b496089) = Val fips_block.
Proof. vm_compute. auto. Qed.
