(* ===== verification/Ciphers.v ===== *)
(** * AES and its CBC mode

    The theorem about crypto/aes and crypto/cipher together: what NewCipher makes of a key is the cipher of FIPS 197, and the
    chaining mode of file Cbc over it is that of SP 800-38A over this cipher. *)

From S2P Require Import Prelude State Binary Hash Slices Block Cbc AesTables Aes.

Local Open Scope go_scope.

(** The modes only look at what a block cipher does to blocks. *)
Section Extension.
Context (E E' : list Z -> list Z) (n : nat) (HE : forall s, is_block (Z.of_nat n) s -> E s = E' s /\ is_block (Z.of_nat n) (E s)).
Implicit Types (v p c : list Z).

Lemma cbc_encrypt_ext k : forall v p, is_block (Z.of_nat n) v -> bytes_ok p -> (k * n <= length p)%nat -> cbc_encrypt E n k v p = cbc_encrypt E' n k v p.
Proof.
  induction k as [|k IH]; intros v p [Hv Hvb] Hp Hl; [done|]. cbn [cbc_encrypt]. destruct (HE (zip_with Z.lxor (take n p) v)) as [Ex Hx]; [split; [rewrite length_zip_with, length_take; lia|by apply lxor_bytes; [apply Forall_take|]]|].
  cbv zeta. rewrite <- Ex. f_equal. apply IH; [done|by apply Forall_drop|rewrite length_drop; lia].
Qed.

Lemma cbc_decrypt_ext k : forall v c, bytes_ok c -> (k * n <= length c)%nat -> cbc_decrypt E n k v c = cbc_decrypt E' n k v c.
Proof.
  induction k as [|k IH]; intros v c Hc Hl; [done|]. cbn [cbc_decrypt]. destruct (HE (take n c)) as [Ex _]; [split; [rewrite length_take; lia|by apply Forall_take]|]. rewrite <- Ex. f_equal. apply IH; [by apply Forall_drop|rewrite length_drop; lia].
Qed.
End Extension.

(** What CBC over AES with the key [key] makes of [p], from the value [v]. *)
Definition aes_cbc_encrypt (key v p : list Z) : list Z := cbc_encrypt (Fips.encrypt key) 16 (length p / 16) v p.
Definition aes_cbc_decrypt (key v c : list Z) : list Z := cbc_decrypt (Fips.decrypt key) 16 (length c / 16) v c.

Section Keyed.
Context (key : list Z) (c : aesCipher) (Hk : keyed key c).
Implicit Types (h : bytes_heap) (x : cbc aesCipher) (dst src : Slice) (v : list Z).

Lemma aes_ok : block_ok c.
Proof. by exists key. Qed.

Lemma aes_texts h x v src : b x = c -> good_heap h -> wf h src -> is_block 16 v -> fCount src mod 16 = 0 ->
  ciphertext h x v src = aes_cbc_encrypt key v (cont h src) /\ plaintext h x v src = aes_cbc_decrypt key v (cont h src).
Proof.
  intros Eb Hg Hs Hv Hm. pose proof (cont_length h src Hs) as El. pose proof Hs as (_ & _ & H0 & _). unfold ciphertext, plaintext, aes_cbc_encrypt, aes_cbc_decrypt, blocks_in. rewrite Eb. change (Block.BlockSize c) with 16. change (Z.to_nat 16) with 16%nat.
  assert (En : Z.to_nat (fCount src / 16) = (length (cont h src) / 16)%nat) by (rewrite <- El; change 16 with (Z.of_nat 16); rewrite <- Nat2Z.inj_div; lia). rewrite En. assert (Hle : (length (cont h src) / 16 * 16 <= length (cont h src))%nat) by (rewrite Nat.mul_comm; apply Nat.Div0.mul_div_le).
  split.
  - apply cbc_encrypt_ext; [|done|by apply cont_ok|done]. intros s Hs'. pose proof (proj1 (block_state s) Hs') as Hst. change (encrypted c s) with (on_block (encrypt_words (enc c)) s). rewrite (proj1 (on_block_val key c Hk s Hst)). split; [done|]. apply block_state. apply (keyed_words key c Hk s Hst).
  - apply cbc_decrypt_ext; [|by apply cont_ok|done]. intros s Hs'. pose proof (proj1 (block_state s) Hs') as Hst. change (decrypted c s) with (on_block (decrypt_words (dec c)) s). rewrite (proj2 (on_block_val key c Hk s Hst)). split; [done|]. apply block_state. apply (keyed_words key c Hk s Hst).
Qed.
End Keyed.

(** C6. AES, alone and in CBC mode.  For a key of 16, 24 or 32 bytes NewCipher makes a cipher whose Encrypt and Decrypt write the cipher and the inverse cipher of FIPS 197
    of the first 16 bytes of [src] over those of [dst], and nothing else, where InexactOverlap of the two places is false (they are the same, or apart by a byte at least, since Gold.pas counts adjacent places as overlapping), and panic where it is true or less than a block is given;
    the two are inverse functions of blocks; NewCBCEncrypter and NewCBCDecrypter over this cipher copy an initial vector of 16 bytes and refuse any other with a panic; and CryptBlocks of either mode, from the value the mode stands at, writes the ciphertext or the plaintext of
    CBC (SP 800-38A, 6.2) for the whole of [src] to the front of [dst], which may be [src] itself, keeps the last block of the ciphertext as the next value, also when the decrypter has written over it, and changes nothing else but
    the buffers of the mode, while input that is not whole blocks, an output that is too short and an inexact overlap panic.  For a key of another length NewCipher gives KeySizeError with the length. *)
Theorem AES_CBC_standard (key : list Z) : bytes_ok key ->
  if (zlen key =? 16) || (zlen key =? 24) || (zlen key =? 32) then
    exists c, NewCipher key = Val (inl c)
    /\ (forall h dst src, good_heap h -> wf h dst -> wf h src ->
          if (fCount src <? 16) || (fCount dst <? 16) || InexactOverlap (Slices.sub dst 0 16) (Slices.sub src 0 16) then Aes.Encrypt c dst src h = Panic Explicit /\ Aes.Decrypt c dst src h = Panic Explicit
          else Aes.Encrypt c dst src h = Val (tt, blit h (Slices.sub dst 0 16) (Fips.encrypt key (cont h (Slices.sub src 0 16))))
            /\ Aes.Decrypt c dst src h = Val (tt, blit h (Slices.sub dst 0 16) (Fips.decrypt key (cont h (Slices.sub src 0 16)))))
    /\ (forall s, is_block 16 s -> is_block 16 (Fips.encrypt key s) /\ Fips.decrypt key (Fips.encrypt key s) = s /\ Fips.encrypt key (Fips.decrypt key s) = s)
    /\ (forall h ivs, good_heap h -> wf h ivs ->
          if fCount ivs =? 16 then exists x h1, NewCBCEncrypter c ivs h = Val (x, h1) /\ NewCBCDecrypter c ivs h = Val (x, h1) /\ b x = c /\ good_heap h1 /\ cbc_ok h1 x (cont h ivs)
            /\ forall t, wf h t -> wf h1 t /\ cont h1 t = cont h t /\ private x t
          else NewCBCEncrypter c ivs h = Panic Explicit /\ NewCBCDecrypter c ivs h = Panic Explicit)
    /\ (forall h x v dst src, b x = c -> good_heap h -> wf h dst -> wf h src -> cbc_ok h x v -> private x dst -> private x src ->
          if negb (fCount src mod 16 =? 0) || (fCount dst <? fCount src) || InexactOverlap (Slices.sub dst 0 (fCount src)) src
          then cbcEncrypter_CryptBlocks x dst src h = Panic Explicit /\ cbcDecrypter_CryptBlocks x dst src h = Panic Explicit
          else let e := aes_cbc_encrypt key v (cont h src) in
            (exists h', cbcEncrypter_CryptBlocks x dst src h = Val (tt, h') /\ cont h' (Slices.sub dst 0 (fCount src)) = e
               /\ cbc_ok h' x (chained 16 v e) /\ untouched x dst (fCount src) h h')
            /\ exists x' h', cbcDecrypter_CryptBlocks x dst src h = Val (x', h') /\ cont h' (Slices.sub dst 0 (fCount src)) = aes_cbc_decrypt key v (cont h src)
               /\ cbc_ok h' x' (chained 16 v (cont h src)) /\ untouched x dst (fCount src) h h')
  else NewCipher key = Val (inr (zlen key)).
Proof.
  intros Hb. pose proof (NewCipher_val key Hb) as Hn. destruct (_ || _); [|done]. destruct Hn as (c & En & Hk). exists c. split; [done|]. split; [by apply Encrypt_keyed|]. split; [|split].
  - intros s Hs%block_state. destruct (keyed_words key c Hk s Hs) as ([_ He] & _ & E1 & E2). split; [by apply block_state|done].
  - intros h ivs Hg Hi. destruct (constructors_check c h ivs Hg Hi) as [E1 E2]. change (Block.BlockSize c) with 16 in E1, E2. destruct (Z.eqb_spec (fCount ivs) 16) as [Ec|]; [|done].
    destruct (constructed c h ivs Hg (aes_ok key c Hk) Hi Ec) as (x & h1 & E & Eb & Hx & Hg1 & _ & _ & Ht). exists x, h1. by rewrite E1, E2.
  - intros h x v dst src Eb Hg Hd Hs Hx Hpd Hps. pose proof (CryptBlocks_standard h x v dst src Hg Hd Hs Hx Hpd Hps) as H. unfold refused, next_value in H. rewrite Eb in H. change (Block.BlockSize c) with 16 in H. change (Z.to_nat 16) with 16%nat in H. destruct (_ || _) eqn:Er; [done|].
    assert (Hv : is_block 16 v) by (destruct Hx as [_ _ (Hw & Hc & Ev) _ _]; rewrite Eb in Hc; split; [rewrite <- Ev, cont_length by done; exact Hc|rewrite <- Ev; by apply cont_ok]). rewrite !orb_false_iff, negb_false_iff, Z.eqb_eq in Er.
    destruct (aes_texts key c Hk h x v src Eb Hg Hs Hv ltac:(tauto)) as [Ec Ep]. by rewrite Ec, Ep in H.
Qed.

(** CBC-AES128.Encrypt of SP 800-38A, F.2.1, its first two blocks, in place. *)
Lemma AES_CBC_standard_witness :
  (exists c, NewCipher (order_bytes true 16 0x2b7e151628aed2a6abf7158809cf4f3c) = Val (inl c)) /\
  aes_cbc_encrypt (order_bytes true 16 0x2b7e151628aed2a6abf7158809cf4f3c) (order_bytes true 16 0x000102030405060708090a0b0c0d0e0f)
    (order_bytes true 32 0x6bc1bee22e409f96e93d7e117393172aae2d8a571e03ac9c9eb76fac45af8e51) = order_bytes true 32 0x7649abac8119b246cee98e9b12e9197d5086cb9b507219ee95db113a917678b2.
Proof.
  split; [|vm_compute; reflexivity]. pose proof (AES_CBC_standard (order_bytes true 16 0x2b7e151628aed2a6abf7158809cf4f3c) ltac:(by apply (bool_decide_unpack _); vm_compute)) as (c & H & _). by exists c.
Defined.
